(* ===== verification/_CoqProject ===== *)
-Q . S2P
Prelude.v
GoStrings.v
Slots.v
Dependency.v
Assembly.v
Lifecycle.v
RegistryFacts.v
DefaultsFacts.v
DependencyFacts.v
AssemblyFacts.v
TypeFacts.v
LifecycleFacts.v
AgentTypes.v
ModelContracts.v
SessionTypes.v
ExtensionJournal.v
SessionValidate.v
SessionHistory.v
SessionApply.v
SessionRecover.v
SessionCreate.v
SessionStore.v
TextFacts.v
SessionHistoryFacts.v
SessionCreateFacts.v
SessionInvariant.v
SessionCommitFacts.v
SessionRecoverFacts.v
SessionStoreFacts.v
SessionSafety.v
SessionProperties.v
HistoryDiscipline.v
PageFacts.v
SessionFile.v
SessionFileRefinement.v
JsonValue.v
JsonTextFacts.v
JsonProperties.v
SessionManager.v
SessionManagerFacts.v
SessionManagerProperties.v
ModelStream.v
ContextCompaction.v
ProviderStream.v
ProviderStreamFacts.v
EventHub.v
ToolDispatcher.v
ToolDispatcherFacts.v
LoopProtocol.v
LoopProtocolFacts.v
LoopStandard.v
Goal.v
HookViews.v
RuntimeState.v
RuntimeCommands.v
RuntimeRun.v
RuntimeLifecycle.v
RuntimeHooks.v
RuntimeGates.v
RuntimeSteps.v
RuntimeFacts.v
RuntimeInvariant.v
RuntimePrograms.v
RuntimeHookFacts.v
RuntimeGateFacts.v
RuntimeStepFacts.v
RuntimeProperties.v
RuntimeRegistry.v
RuntimeRegistryFacts.v
Billing.v
BillingFacts.v
Memory.v
MemoryFacts.v
WorkflowStore.v
WorkflowStoreFacts.v
WorkflowScheduler.v
WorkflowSchedulerFacts.v
WorkflowSchedulerProperties.v
StandardApplication.v
StandardApplicationFacts.v
