(* ===== verification/Prelude.v ===== *)
(** * AgentSlot: a verification library

    AgentSlot (the Go module under [src/]) assembles agents from typed
    components.  A product registers components in slots ([slot.go],
    [builder.go]); the builder selects, orders and constructs them; the
    assembled agent runs Sessions: durable aggregates with an append-only
    history ([session/]), which a runtime advances by running an agent loop
    that calls a model and tools ([standardagent/], [loop/], [model/],
    [tool/], [policy/], [hook/], [context/], [goal/]).  Around it are a
    workflow scheduler for background jobs ([workflow/]) and an exact JSON
    layer ([internal/jsonvalue]) that every durable record uses.

    This library models those parts as executable definitions, translated from
    the code function by function and under the names of the code, and proves
    the properties that make them correct.  [Prelude] (this file) holds the
    errors, outcomes, notations, tactics and generic lemmas all others share.

    ** Parts, files and the code they model

    - Assembly.  [GoStrings] (identifiers, trimming, text on one line over a
      UTF-8 decoder), [Slots] ([slot.go],
      [Builder.Install] and [defaults.go]), [Dependency]
      ([dependency.go]), [Assembly] ([resolver.go],
      [Builder.Build], the lookups and [description.go]), [Lifecycle]
      ([lifecycle.go], [application.go]).  The state is the record [Builder];
      Build freezes it and gives an [Assembly_].
    - Domain values.  [AgentTypes] ([agent/types.go]), [ModelContracts]
      ([model/contracts.go], [tool/contracts.go], [tool/schema.go], [artifact/contracts.go],
      [hook/invocation.go]).
    - JSON.  [JsonValue] ([internal/jsonvalue]) with the token stream and the
      string encoding of encoding/json it relies on.
    - Sessions.  [SessionTypes], [ExtensionJournal], [SessionValidate],
      [SessionHistory], [SessionApply], [SessionRecover], [SessionCreate] and
      [SessionStore] are [session/contracts.go], [extension_journal.go],
      [history.go], [list.go] and [memory_store.go]; the store is a map from
      Session IDs to aggregates and every method is one step.  [SessionFile]
      is [session/file_store.go] over a directory with faults and crashes.
      [SessionManager] is [session/memory_manager.go] over the class of
      stores.
    - Model calls.  [ModelStream] (the records of attempts, the stream state
      machine, modalities, the catalog), [ContextCompaction]
      ([context/tail_compactor.go]) and [ProviderStream]
      ([model/openaicompat/stream.go] and the configuration of its executor).
    - One run.  [LoopProtocol] (the boundary [runtimeLoopRun] of
      [standardagent/runtime_execution.go] and [loop/contracts.go]),
      [LoopStandard] (the fallback loop), [ToolDispatcher]
      ([standardagent/tool_dispatcher.go], [policy/]), [Goal] ([goal/] and the
      recording of its decisions), [EventHub]
      ([standardagent/event_stream.go]).
    - The Session runtime.  [HookViews] (the typed boundaries of [hook/]),
      [RuntimeState] (the record [runtimeInstance], commits and the changes
      that start a run), [RuntimeCommands] (the commands of the gateway),
      [RuntimeRun] (attempts, completions, tool results, continuation and the
      end of a run) and [RuntimeLifecycle] (opening, recovery, lifecycle hooks
      and closing) are [standardagent/runtime.go], [runtime_commands.go],
      [runtime_execution.go], [runtime_lifecycle.go] and the recovery files
      next to them.  Each is a computation over the store and one runtime.
      What takes the mutex of the runtime several times and calls hooks and
      other components in between is a program ([prog]), a tree of such
      computations, of invocations and of questions: [RuntimeHooks]
      ([runtime_tool_preflight.go], [runtime_tool_result.go]), [RuntimeGates]
      ([runtime_input_gate.go], [runtime_completion.go]) and [RuntimeSteps]
      ([runtime_context.go], the model step, the goal and the continuation of
      [runtime_execution.go], the recovery of a completion).  [RuntimeRegistry]
      is the application around them: the registry, the coordinator that opens
      and closes Sessions, start and stop, as calls that interleave.
    - The standard application.  [StandardApplication] ([standardagent/application.go],
      [runtime_module.go], [loop_module.go], [gateway_binding.go]): the modules
      of the profile, whose constructors resolve the components of a product
      through the resolver of [Assembly] and freeze them into what
      [RuntimeRun] and [RuntimeSteps] work with ([runtimeComponents_of],
      [stepComponents_of]).  Components are values of the class [Components];
      what is read of them is the class [StandardComponents].
    - Memory and billing.  [Memory] ([memory/contracts.go], the tools and the
      context source of [memory/module.go]: an invocation is a computation
      with at most one call of the store); [Billing] ([billing/contracts.go]
      and the observer of [billing/attempt_module.go], whose calls interleave).
    - Workflow.  [WorkflowStore] (contracts, jobs and mailboxes in memory, the
      two contracts as classes), [WorkflowScheduler] ([workflow/scheduler.go], [workflow/wait.go]); the
      callers blocked in [Wait] are in [WorkflowStoreFacts].

    The parts meet at interfaces, as in the code: a constructor gets a
    [Resolver]; the Session manager, the Session store in files and the
    runtime work against the store's contract; the scheduler is proved against
    the classes [JobStoreLaws] and [MailboxLaws] and the stores in memory
    discharge them; a Session relies on operations on JSON values
    ([JsonOps]), which [JsonProperties] implements with [JsonValue].

    ** What the theorems show

    - Assembly (C1 to C4, C6 and C7, in [RegistryFacts], [DefaultsFacts],
      [DependencyFacts], [AssemblyFacts], [TypeFacts], [LifecycleFacts]):
      installation is a transaction; the explicit-over-default selection and
      the lifecycle order are computed exactly, failing precisely when they
      do not exist; a build constructs every component once and after its
      dependencies; typed lookups cannot panic; lifecycle calls are balanced
      ([application_lifetime]).  [build_constructed] says that a build is a
      fixpoint: a constructor that stops at its first error gives the same on
      the finished assembly as it gave when it ran.
    - The standard application (C8, [StandardApplicationFacts]): what its
      runtime is made of when it builds; [binding_follows_application]: a
      channel reaches the gateway exactly while the application is started.
    - Sessions in memory (C9, C10 and C12 to C18, in [SessionProperties],
      [HistoryDiscipline], [PageFacts]): the invariant of every reachable
      store; commits are atomic, compare-and-swap on the revision
      ([commit_compare_and_swap]) and replay idempotently; histories only grow, name every fact once and after its
      cause, and their budget facts are exact; extension records only advance;
      recovery succeeds and settles everything; pages tile the history.
    - Workflow (C20 to C24): the stores refine tables; a job only moves
      forward; no waiter misses a change; results are announced exactly once
      under every interleaving; the goroutines drain; [WaitTerminal] returns.
    - The provider adapter (C25, [ProviderStreamFacts]): each physical attempt
      is recorded once, and the events of a call are ones that the stream
      checker of C33 accepts.
    - Files (C26, C27): a write is atomic at every point of failure, and the
      store in files refines the one in memory.
    - JSON (C28, [Equal_iff_canonical] and [Equal_numbers]): canonical encoding
      is a round trip and decides equality; numbers are compared by their exact value.
    - Billing (C11, [BillingFacts]): the quota and ledger calls for an attempt
      follow a protocol under every interleaving of callers that do not overlap
      for one attempt, and a reservation is settled at most once.
    - Memory (C29, [MemoryFacts]): what reaches a store is valid and within the
      scope of the Session, and so is what a model sees of its answer.
    - Sessions derived from others (C31, C32): what a fork copies, and that
      failing calls change nothing.
    - The run (C33 to C39): the stream checker accepts exactly the logical
      model calls; compaction keeps whole protocol groups; subscribers miss
      only temporary events; a tool runs only after it was validated,
      authorized and durably started; a loop can only follow the protocol;
      the standard loop ends; a goal decision is recorded once.
    - The registry of runtimes (C19, [RuntimeRegistryFacts]): before the
      application stops a Session has one runtime, and no call waits for what
      nobody will do.
    - The Session runtime (C5, C30, C40).  [RuntimeFacts] is a Hoare logic for
      the computations and [RuntimeInvariant] their invariant; [RuntimePrograms]
      says when a program is safe whatever happens between its nodes, and
      [RuntimeHookFacts], [RuntimeGateFacts] and [RuntimeStepFacts] prove it of
      every program.  [RuntimeProperties] runs any number of them, of commands
      and of the other regions at the same time, in any order: runtime and
      stored Session agree on the active run and on its counters, no run
      exceeds its limits, and nothing panics (C40); a hook is only called when
      the store has its invocation (C5); a prepared model request is legal,
      within its limits and the committed context of the Session (C30).
    - [SessionProperties] also holds concrete commits that the store accepts
      and can not read back.

    ** Bounds, fuel and termination

    Recursion that is not structural runs on fuel that is shown to be enough:
    the JSON parser has two units per input byte and two more ([decode_reading]
    in [JsonProperties]) and the token loop three per call; [ValidateInputs]
    and the grouping of [ContextCompaction] have one unit per input (each
    round consumes an input), a dispatch has one per call; [WaitTerminal]
    makes at most three calls; the standard loop makes at most three actions
    per model request and four more.  The loops of a run that start again when
    the Session has moved meanwhile have no bound in the code; they take a
    number of rounds, the theorems hold for any number, and a program that needs
    more says so ([Unfinished]).  The scheduler's termination is a measure
    on its state, not fuel.  Machine integers wrap or are checked where the
    code relies on it: sequences and revisions are 64-bit, token sums are
    checked for overflow as in [Usage.Add], and the manager's counter is a
    uint64.  Where a counter could only overflow after 2^63 operations the
    assumption is named ([enough_room]); [sane] says that the clock is never
    the zero time and that iterating a map yields each of its entries once.

    ** Modelling choices

    - A Go call returns, returns an error or panics ([result]).  Errors are
      symbolic: a format and its arguments, with the wrapped error, so that
      [errors.Is] and [errors.As] compute.  Text that the code renders from
      such an error is the argument [rendered].
    - Values are immutable: a clone is the identity, and nil and empty slices
      are identified where the code does not tell them apart.
    - The clock is a function of the length of the history, the order of
      map iteration is an argument (any order), and a context is
      sampled once per call.
    - A method that holds one mutex is one step.  Calls that release it are
      split where they do ([WorkflowScheduler], [LoopProtocol], [EventHub]'s
      receivers, the regions of [RuntimeRun], the nodes of a program);
      everything may interleave between steps.  The lifecycle hooks of a
      runtime that opens are one step with its opening.  The calls of one
      Session manager are sequential.
    - Runs are pointers in the code and numbers into a growing table here; a
      channel is the flag that it is open, and closing it twice panics.  What
      a region of the runtime reads from outside (clock, random bytes, the
      readings of the store) is indexed by the identities allocated so far.
      The prefix of these identities is random, so nothing stored mentions it
      when the runtime is created, and a runtime allocates fewer than 2^64.
    - JSON objects and the index of documents are association lists, in the
      order in which they are written; the directory of the file store is a
      map with a record of which system calls fail.  The codecs of documents
      and cursors (encoding/json on structs) are classes with the laws the
      store relies on, with instances in the witnesses.
    - Code of the products (constructors, lifecycle modules, tools, guards,
      approvals, model executors, goal evaluators, loops) is a parameter: a
      function, an oracle indexed by the position of the call, or any sequence
      of actions.  A remote goal store may lose or delay answers.

    ** Not modelled

    The views and routing of the gateway ([gateway.go]), which pass
    values between the modelled parts; traces and metrics
    ([observations.go]).
    Transport ([interaction/]), processes and files ([tool/bash],
    [tool/files], [artifact/], [workspace/]), HTTP ([tool/http], and of
    [model/openaicompat] the transport and the body of a request),
    cryptography ([credential/]), event sinks ([observe/]), templates, the component catalog and the command line
    are I/O, data tables or generated text, without state of their own that
    the rest relies on. *)

From stdpp Require Export base option list gmap fin_maps strings sorting.
From Stdlib Require Export ZArith Lia.

#[export] Set Default Goal Selector "!".

(** ** Errors

    Go errors are kept symbolic: a format string and its arguments instead of
    the rendered text, so that two errors are equal exactly when the program
    built them from the same place with the same data. *)
Inductive arg : Type :=
  | AStr (s : string)
  | AInt (z : Z).

(** Rendered text: the formats and arguments it was put together from. *)
Definition text : Type := list (string * list arg).

Record classified : Type := Classified {
  ce_kind : string;
  ce_code : string;
  ce_op : string;
  ce_message : text;
}.

Inductive error : Type :=
  | ErrNew (msg : string)
  | Errorf (fmt : string) (args : list arg)
  | ErrWrap (wrapped : error) (fmt : string) (args : list arg)
  | ErrJoin (errs : list error)
  | ErrClassified (c : classified) (cause : option error).

#[export] Instance arg_eq_dec : EqDecision arg.
Proof. solve_decision. Defined.
#[export] Instance classified_eq_dec : EqDecision classified.
Proof. solve_decision. Defined.

(** [errors.Is] against a sentinel made by [errors.New]. *)
Fixpoint errors_Is (e : error) (sentinel : string) : bool :=
  match e with
  | ErrNew msg => String.eqb msg sentinel
  | Errorf _ _ => false
  | ErrWrap wrapped _ _ => errors_Is wrapped sentinel
  | ErrJoin errs => existsb (fun e => errors_Is e sentinel) errs
  | ErrClassified _ (Some cause) => errors_Is cause sentinel
  | ErrClassified _ None => false
  end.

(** [err.Error()] *)
Fixpoint error_text (e : error) : text :=
  match e with
  | ErrNew msg => [(msg, [])]
  | Errorf fmt args => [(fmt, args)]
  | ErrWrap wrapped fmt args => (fmt, args) :: error_text wrapped
  | ErrJoin errs => concat (map error_text errs)
  | ErrClassified c _ => (ce_op c, [AStr (ce_kind c); AStr (ce_code c)]) :: ce_message c
  end.

(** ** Outcomes: a Go call returns, returns an error, or panics. *)
Inductive result (A : Type) : Type :=
  | Ok (a : A)
  | Err (e : error)
  | Panic (msg : string).
Arguments Ok {A} a.
Arguments Err {A} e.
Arguments Panic {A} msg.

#[export] Instance result_ret : MRet result := fun A a => Ok a.
#[export] Instance result_bind : MBind result := fun A B f m =>
  match m with
  | Ok a => f a
  | Err e => Err e
  | Panic msg => Panic msg
  end.
#[export] Instance result_fmap : FMap result := fun A B f m =>
  match m with
  | Ok a => Ok (f a)
  | Err e => Err e
  | Panic msg => Panic msg
  end.

Definition is_ok {A} (r : result A) : bool := match r with Ok _ => true | _ => false end.
Definition is_err {A} (r : result A) : bool := match r with Err _ => true | _ => false end.

(** [err := f(x); if err != nil { return wrap(err) }] *)
Definition map_err {A} (wrap : error -> error) (r : result A) : result A :=
  match r with
  | Ok a => Ok a
  | Err e => Err (wrap e)
  | Panic msg => Panic msg
  end.

(** [if bad { return err }] *)
Definition reject_if (bad : bool) (e : error) : result unit :=
  if bad then Err e else Ok tt.

(** Left-to-right loop over a list that returns at the first error. *)
Fixpoint foldM {S A} (f : S -> A -> result S) (l : list A) (s : S) : result S :=
  match l with
  | [] => Ok s
  | a :: l => s' ← f s a; foldM f l s'
  end.

Fixpoint forM_ {A} (f : A -> result unit) (l : list A) : result unit :=
  match l with
  | [] => Ok tt
  | a :: l => f a;; forM_ f l
  end.

(** ** Machine integers *)
Definition u64 (z : Z) : Z := z mod 2 ^ 64.
Definition i64 (z : Z) : Z := (z + 2 ^ 63) mod 2 ^ 64 - 2 ^ 63.

(** ** Laws of the outcome monad *)
Lemma bind_Ok {A B} (m : result A) (f : A -> result B) b :
  m ≫= f = Ok b <-> exists a, m = Ok a /\ f a = Ok b.
Proof. destruct m; simpl; split; [eauto|idtac..]; naive_solver. Qed.

Lemma reject_if_Ok bad e u : reject_if bad e = Ok u <-> bad = false.
Proof. destruct bad, u; simpl; naive_solver. Qed.

Lemma map_err_Ok {A} w (r : result A) a : map_err w r = Ok a <-> r = Ok a.
Proof. destruct r; simpl; naive_solver. Qed.

Lemma foldM_app {S A} (f : S -> A -> result S) l1 l2 s :
  foldM f (l1 ++ l2) s = (s' ← foldM f l1 s; foldM f l2 s').
Proof.
  revert s; induction l1 as [|a l1 IH]; intros s; [done|]; simpl.
  destruct (f s a); simpl; [apply IH|done..].
Qed.

(** Rule for a loop that succeeds: an invariant on the processed prefix. *)
Lemma foldM_invariant {S A} (f : S -> A -> result S) (P : list A -> S -> Prop) l s s' :
  (forall done a t t', P done t -> f t a = Ok t' -> P (done ++ [a]) t') ->
  P [] s -> foldM f l s = Ok s' -> P l s'.
Proof.
  intros Hstep H0 Hf.
  enough (forall pre t, P pre t -> foldM f l t = Ok s' -> P (pre ++ l) s') as He by (exact (He [] s H0 Hf)).
  clear H0 Hf s; induction l as [|a l IH]; simpl; intros pre t Hp Hf.
  - injection Hf as <-. by rewrite app_nil_r.
  - apply bind_Ok in Hf as (t'&Ha&Hf).
    replace (pre ++ a :: l) with ((pre ++ [a]) ++ l) by by rewrite <-app_assoc.
    eapply IH; eauto.
Qed.

(** The common case: the invariant does not mention the prefix. *)
Lemma foldM_preserves {S A} (f : S -> A -> result S) (P : S -> Prop) l s s' :
  (forall a t t', a ∈ l -> P t -> f t a = Ok t' -> P t') ->
  P s -> foldM f l s = Ok s' -> P s'.
Proof.
  revert s; induction l as [|a l IH]; simpl; intros s Hstep H0 Hf.
  - by injection Hf as <-.
  - apply bind_Ok in Hf as (t'&Ha&Hf).
    eapply (IH t'); [|by eapply Hstep; [left|..]|done].
    intros b t t2 Hb; apply Hstep; by right.
Qed.

(** A loop that does not succeed stopped at one of the elements. *)
Lemma foldM_stops {S A} (f : S -> A -> result S) l s :
  is_ok (foldM f l s) = false -> exists a t, a ∈ l /\ f t a = foldM f l s.
Proof.
  revert s; induction l as [|a l IH]; simpl; intros s H; [done|].
  destruct (f s a) as [t|e|msg] eqn:E; simpl in *.
  - destruct (IH t H) as (b&u&Hb&Hu). exists b, u. split; [by right|done].
  - exists a, s. split; [left|by rewrite E].
  - exists a, s. split; [left|by rewrite E].
Qed.

Lemma forM__Ok {A} (f : A -> result unit) l u :
  forM_ f l = Ok u <-> forall a, a ∈ l -> f a = Ok tt.
Proof.
  destruct u; induction l as [|a l IH]; simpl.
  - split; [set_solver|done].
  - rewrite bind_Ok; split.
    + intros ([]&Ha&Hl) b [->|Hb]%elem_of_cons; [done|by apply IH].
    + intros H; exists tt; split; [apply H; left|apply IH; intros; apply H; by right].
Qed.

Lemma u64_small z : (0 <= z < 2 ^ 64)%Z -> u64 z = z.
Proof. apply Z.mod_small. Qed.
Lemma u64_range z : (0 <= u64 z < 2 ^ 64)%Z.
Proof. apply Z.mod_pos_bound; lia. Qed.
Lemma i64_small z : (- 2 ^ 63 <= z < 2 ^ 63)%Z -> i64 z = z.
Proof. intros; unfold i64; rewrite Z.mod_small; lia. Qed.

(** ** Automation *)
Create HintDb agentslot.
#[export] Hint Resolve u64_range : agentslot.


(** Take apart a hypothesis [f x = Ok y] of a function in the outcome monad. *)
Ltac inv_ok :=
  repeat match goal with
  | H : Ok _ = Ok _ |- _ => injection H as H; try subst
  | H : Err _ = Ok _ |- _ => discriminate H
  | H : Panic _ = Ok _ |- _ => discriminate H
  | H : mret _ = Ok _ |- _ => unfold mret, result_ret in H
  | H : _ ≫= _ = Ok _ |- _ => apply bind_Ok in H as (? & ? & ?)
  | H : reject_if _ _ = Ok _ |- _ => apply reject_if_Ok in H
  | H : map_err _ _ = Ok _ |- _ => apply map_err_Ok in H
  | H : exists _, _ |- _ => destruct H
  | H : _ /\ _ |- _ => destruct H
  | x : unit |- _ => destruct x
  end.

(** Split every [if]/[match] scrutinee of a hypothesis and drop absurd cases. *)
Ltac split_match H :=
  repeat (let E := fresh "E" in
          match type of H with context [match ?x with _ => _ end] => destruct x eqn:E end;
          try discriminate H).

Ltac bool_simpl :=
  repeat match goal with
  | H : negb _ = true |- _ => apply negb_true_iff in H
  | H : negb _ = false |- _ => apply negb_false_iff in H
  | H : _ && _ = true |- _ => apply andb_true_iff in H as [? ?]
  | H : _ || _ = false |- _ => apply orb_false_iff in H as [? ?]
  | H : bool_decide _ = true |- _ => apply bool_decide_eq_true in H
  | H : bool_decide _ = false |- _ => apply bool_decide_eq_false in H
  | H : Z.eqb _ _ = true |- _ => apply Z.eqb_eq in H
  | H : Z.eqb _ _ = false |- _ => apply Z.eqb_neq in H
  | H : Z.ltb _ _ = true |- _ => apply Z.ltb_lt in H
  | H : Z.ltb _ _ = false |- _ => apply Z.ltb_ge in H
  | H : Z.leb _ _ = true |- _ => apply Z.leb_le in H
  | H : Z.leb _ _ = false |- _ => apply Z.leb_gt in H
  | H : String.eqb _ _ = true |- _ => apply String.eqb_eq in H
  | H : String.eqb _ _ = false |- _ => apply String.eqb_neq in H
  end.
