(* ===== verification/GoStrings.v ===== *)
(** * Go strings

    A Go string is a sequence of bytes, which is what [string] is here.  The
    file models what the program uses of packages [strings], [unicode] and
    [unicode/utf8]: [strings.TrimSpace], bytewise ordering, and the test the
    program applies to identifiers. *)

From S2P Require Import Prelude.

(** UTF-8 encodings of the code points for which [unicode.IsSpace] holds. *)
Definition bytes (l : list nat) : string := String.string_of_list_ascii (Ascii.ascii_of_nat <$> l).

Definition space_encodings : list string :=
  Eval vm_compute in
  (bytes <$> ([[9]; [10]; [11]; [12]; [13]; [32]; [194; 133]; [194; 160]; [225; 154; 128]]
    ++ ((fun b => [226; 128; 128 + b]) <$> seq 0 11)
    ++ [[226; 128; 168]; [226; 128; 169]; [226; 128; 175]; [226; 129; 159]; [227; 128; 128]])).

Fixpoint drop_prefix (p s : string) : option string :=
  match p, s with
  | EmptyString, _ => Some s
  | String a p, String b s => if Ascii.eqb a b then drop_prefix p s else None
  | String _ _, EmptyString => None
  end.

(** First encoding of the list that the string starts with. *)
Fixpoint drop_any (ps : list string) (s : string) : option string :=
  match ps with
  | [] => None
  | p :: ps => match drop_prefix p s with Some s' => Some s' | None => drop_any ps s end
  end.

Fixpoint trim_left (ps : list string) (fuel : nat) (s : string) : string :=
  match fuel with
  | O => s
  | S fuel => match drop_any ps s with Some s' => trim_left ps fuel s' | None => s end
  end.

Definition rev_string (s : string) : string :=
  String.string_of_list_ascii (rev (String.list_ascii_of_string s)).

(** [strings.TrimSpace]: trim on the left, then on the right.  A run of space
    runes is removed one encoding at a time; the right end is the left end of
    the reversed string with reversed encodings. *)
Definition TrimSpace (s : string) : string :=
  let l := trim_left space_encodings (String.length s) s in
  rev_string (trim_left (rev_string <$> space_encodings) (String.length l) (rev_string l)).

(** [value != "" && strings.TrimSpace(value) == value] *)
Definition validID (value : string) : bool :=
  negb (String.eqb value "") && String.eqb (TrimSpace value) value.

(** Go's [<] on strings compares bytes. *)
Definition string_le (a b : string) : Prop := String.leb a b = true.

#[export] Instance string_le_dec a b : Decision (string_le a b).
Proof. unfold string_le; apply _. Defined.

Example TrimSpace_ascii : TrimSpace "	 job 7 
" = "job 7".
Proof. vm_compute. reflexivity. Qed.
Example TrimSpace_nbsp : TrimSpace (bytes [194; 160; 65; 227; 128; 128]) = "A".
Proof. vm_compute. reflexivity. Qed.

Lemma validID_nonempty s : validID s = true -> s ≠ "".
Proof. unfold validID; intros H; bool_simpl; done. Qed.

Lemma validID_empty : validID "" = false.
Proof. reflexivity. Qed.
#[export] Hint Resolve validID_nonempty : agentslot.

(** * Safe display lines

    Models the parts of [unicode/utf8] and [unicode] the program uses to accept
    text that may be shown on one line: UTF-8 decoding, control characters and
    the categories Cf, Zl and Zp of Unicode 15.0, and the shared check of
    [session.RunTermination.Validate], [model.ValidateErrorMessage],
    [hook.ValidateSafeReason] and [hook.validSafeIdentity]. *)

Definition byte_values (s : string) : list Z := (fun a => Z.of_nat (Ascii.nat_of_ascii a)) <$> String.list_ascii_of_string s.

Definition within (lo hi b : Z) : bool := Z.leb lo b && Z.leb b hi.

(** The first rune of a byte sequence and the rest, [None] where
    [utf8.DecodeRune] reports an invalid encoding. *)
Definition decode_rune (l : list Z) : option (Z * list Z) :=
  match l with
  | b0 :: l1 =>
    if Z.ltb b0 128 then Some (b0, l1)
    else match l1 with
    | b1 :: l2 =>
      if within 194 223 b0 then
        if within 128 191 b1 then Some (Z.lor (Z.shiftl (Z.land b0 31) 6) (Z.land b1 63), l2) else None
      else match l2 with
      | b2 :: l3 =>
        if within 224 239 b0 then
          if within (if Z.eqb b0 224 then 160 else 128) (if Z.eqb b0 237 then 159 else 191) b1 && within 128 191 b2 then
            Some (Z.lor (Z.shiftl (Z.land b0 15) 12) (Z.lor (Z.shiftl (Z.land b1 63) 6) (Z.land b2 63)), l3)
          else None
        else match l3 with
        | b3 :: l4 =>
          if within 240 244 b0 && within (if Z.eqb b0 240 then 144 else 128) (if Z.eqb b0 244 then 143 else 191) b1 &&
             within 128 191 b2 && within 128 191 b3 then
            Some (Z.lor (Z.shiftl (Z.land b0 7) 18) (Z.lor (Z.shiftl (Z.land b1 63) 12)
                   (Z.lor (Z.shiftl (Z.land b2 63) 6) (Z.land b3 63))), l4)
          else None
        | [] => None
        end
      | [] => None
      end
    | [] => None
    end
  | [] => None
  end.

(** All runes of a valid UTF-8 string, [None] for an invalid one. *)
Fixpoint runes (fuel : nat) (l : list Z) : option (list Z) :=
  match l with
  | [] => Some []
  | _ =>
    match fuel with
    | O => None
    | S fuel =>
      match decode_rune l with
      | Some (r, l') => cons r <$> runes fuel l'
      | None => None
      end
    end
  end.
Definition runes_of (s : string) : option (list Z) := runes (String.length s) (byte_values s).

(** [utf8.ValidString] *)
Definition ValidString (s : string) : bool := match runes_of s with Some _ => true | None => false end.

(** [unicode.IsControl] *)
Definition IsControl (r : Z) : bool := within 0 31 r || within 127 159 r.

(** [unicode.In(r, unicode.Cf, unicode.Zl, unicode.Zp)] *)
Definition format_ranges : list (Z * Z) :=
  [(173, 173); (1536, 1541); (1564, 1564); (1757, 1757); (1807, 1807); (2192, 2193); (2274, 2274); (6158, 6158);
   (8203, 8207); (8234, 8238); (8288, 8292); (8294, 8303); (65279, 65279); (65529, 65531); (69821, 69821);
   (69837, 69837); (78896, 78911); (113824, 113827); (119155, 119162); (917505, 917505); (917536, 917631)]%Z.
Definition IsFormat (r : Z) : bool :=
  existsb (fun range => within range.1 range.2 r) format_ranges || Z.eqb r 8232 || Z.eqb r 8233.

(** Non-empty text of at most [limit] bytes that is valid UTF-8 and trimmed. *)
Definition bounded_text (limit : Z) (s : string) : bool :=
  negb (String.eqb s "") && Z.leb (Z.of_nat (String.length s)) limit && ValidString s && String.eqb (TrimSpace s) s.
(** Every rune can be displayed on a single line. *)
Definition single_line (s : string) : bool :=
  match runes_of s with
  | Some rs => forallb (fun r => negb (IsControl r) && negb (IsFormat r)) rs
  | None => false
  end.

Example runes_mixed : runes_of (bytes [65; 195; 169; 226; 130; 172; 240; 159; 152; 128]) = Some [65; 233; 8364; 128512]%Z.
Proof. vm_compute. reflexivity. Qed.
Example runes_surrogate : runes_of (bytes [237; 160; 128]) = None.
Proof. vm_compute. reflexivity. Qed.
