(* ===== verification/Slots.v ===== *)
(** * Slots, contributions and transactional registration

    Models [slot.go] and the registration half of [builder.go]: the typed slot
    declarations, the prepared contributions, the registry they are applied to
    and [Builder.Install], which runs a module's [Register] as a transaction.

    Component values, their dynamic types and the code of a module belong to
    the products that use AgentSlot; they enter through the class
    [Components] and the program types [ctor] and [regProg]. *)

From S2P Require Import Prelude GoStrings.

(** Dynamically typed component values.  [isNil] is the verdict of
    [reflect.Value.IsNil] on a non-nil interface and [hasType v T] the verdict
    of the type assertion [v.(T)]. *)
Class Components : Type := {
  goType : Type;
  #[global] goType_eq_dec :: EqDecision goType;
  typeString : goType -> string;
  val : Type;
  reflectIsNil : val -> bool;
  hasType : val -> goType -> bool;
}.

(** ** Slot declarations ([slot.go]) *)

(** [noKind] is the zero value of an undeclared slot; the field is unexported,
    so no other value can occur. *)
Inductive slotKind := noKind | oneKind | manyKind | chainKind.
#[export] Instance slotKind_eq_dec : EqDecision slotKind.
Proof. solve_decision. Defined.

Definition slotKind_String (k : slotKind) : string :=
  match k with
  | oneKind => "one"
  | manyKind => "many"
  | chainKind => "chain"
  | noKind => "unknown"
  end.

Section Slots.
Context {C : Components}.

Record slotSpec := SlotSpec { spec_id : string; spec_kind : slotKind; spec_valueType : option goType }.

#[global] Instance slotSpec_eq_dec : EqDecision slotSpec.
Proof. solve_decision. Defined.

(** [newSlotSpec[T]]; [One], [Many] and [Chain] are its three kinds. *)
Definition newSlotSpec (T : goType) (id : string) (kind : slotKind) : result slotSpec :=
  if validID id then Ok (SlotSpec id kind (Some T))
  else Panic "agentslot: slot ID must be non-empty without surrounding whitespace".
Definition One (T : goType) (id : string) : result slotSpec := newSlotSpec T id oneKind.
Definition Many (T : goType) (id : string) : result slotSpec := newSlotSpec T id manyKind.
Definition Chain (T : goType) (id : string) : result slotSpec := newSlotSpec T id chainKind.

(** [isNil(value any)] *)
Definition isNil (v : option val) : bool :=
  match v with None => true | Some v => reflectIsNil v end.

(** ** Constructors

    A constructor is product code that may resolve dependencies through the
    [Resolver] it receives and finally returns a value or an error.  It is the
    tree of its interactions with that resolver. *)
Inductive query :=
  | QOne (slot : slotSpec)
  | QOptionalOne (slot : slotSpec)
  | QKey (slot : slotSpec) (key : string)
  | QMany (slot : slotSpec)
  | QChain (slot : slotSpec).

Definition answer (q : query) : Type :=
  match q with
  | QOne _ | QKey _ _ => result (option val)
  | QOptionalOne _ => result (option (option val))
  | QMany _ => result (list (string * option val))
  | QChain _ => result (list (option val))
  end.

Inductive ctor :=
  | CReturn (r : result (option val))
  | CResolve (q : query) (k : answer q -> ctor).

(** ** Prepared contributions *)
Record contributionData := ContributionData {
  cd_spec : slotSpec;
  cd_key : string;
  cd_value : option val;
  cd_constructor : option ctor;
  cd_defaulted : bool;
}.

(** [Set] is a Rocq keyword, hence the underscore. *)
Definition Set_ (slot : slotSpec) (value : option val) := ContributionData slot "" value None false.
Definition Add (slot : slotSpec) (key : string) (value : option val) := ContributionData slot key value None false.
Definition Append (slot : slotSpec) (value : option val) := ContributionData slot "" value None false.
Definition SetDefault (slot : slotSpec) (value : option val) := ContributionData slot "" value None true.
Definition AddDefault (slot : slotSpec) (key : string) (value : option val) := ContributionData slot key value None true.
Definition AppendDefault (slot : slotSpec) (value : option val) := ContributionData slot "" value None true.
Definition SetWith (slot : slotSpec) (c : option ctor) := ContributionData slot "" None c false.
Definition AddWith (slot : slotSpec) (key : string) (c : option ctor) := ContributionData slot key None c false.
Definition AppendWith (slot : slotSpec) (c : option ctor) := ContributionData slot "" None c false.
Definition SetDefaultWith (slot : slotSpec) (c : option ctor) := ContributionData slot "" None c true.
Definition AddDefaultWith (slot : slotSpec) (key : string) (c : option ctor) := ContributionData slot key None c true.
Definition AppendDefaultWith (slot : slotSpec) (c : option ctor) := ContributionData slot "" None c true.

(** ** The registry ([builder.go]) *)
Record registeredValue := RegisteredValue {
  rv_owner : string;
  rv_key : string;
  rv_value : option val;
  rv_constructor : option ctor;
  rv_ordinal : Z;
  rv_defaulted : bool;
}.

Record slotRecord := SlotRecord { rec_spec : slotSpec; rec_values : list registeredValue }.

(** Records are pointers in Go; every one is owned by exactly one registry
    ([clone] copies them), so a map of values models the store. *)
Record registryState := RegistryState { byID : gmap string slotRecord; nextOrdinal : Z }.

Definition newRegistryState : registryState := RegistryState ∅ 0.

Record registration := Registration {
  reg_owner : string;
  reg_state : registryState;
  reg_open : bool;
  reg_failed : option error;
}.

Definition ErrBuilderFrozen := ErrNew "agentslot: builder is frozen".
Definition ErrInvalidModule := ErrNew "agentslot: invalid module".
Definition ErrDuplicateModule := ErrNew "agentslot: duplicate module".
Definition ErrRegistrationClosed := ErrNew "agentslot: registration is closed".
Definition ErrInvalidContribution := ErrNew "agentslot: invalid contribution".
Definition ErrInvalidKey := ErrNew "agentslot: invalid contribution key".
Definition ErrSlotConflict := ErrNew "agentslot: conflicting slot definition".
Definition ErrSlotOccupied := ErrNew "agentslot: one slot is already occupied".
Definition ErrDuplicateKey := ErrNew "agentslot: duplicate contribution key".

(** The loop of [apply] over the registered values: the first explicit value
    that collides with an explicit contribution. *)
Definition collides (data : contributionData) (r : registeredValue) : bool :=
  match spec_kind (cd_spec data) with
  | oneKind => negb (rv_defaulted r) && negb (cd_defaulted data)
  | manyKind => String.eqb (rv_key r) (cd_key data) && negb (rv_defaulted r) && negb (cd_defaulted data)
  | _ => false
  end.
Definition collision (data : contributionData) (values : list registeredValue) : option registeredValue :=
  find (collides data) values.

(** [registration.apply].  The registry is mutated in place, also when the
    call fails after the record was created, so the new registry is returned
    together with the error. *)
Definition apply (owner : string) (s : registryState) (contribution : option contributionData)
    : registryState * option error :=
  match contribution with
  | None => (s, Some (ErrWrap ErrInvalidContribution "nil" []))
  | Some data =>
    let id := spec_id (cd_spec data) in
    let kind := spec_kind (cd_spec data) in
    if bool_decide (cd_constructor data = None) && isNil (cd_value data) then
      (s, Some (ErrWrap ErrInvalidContribution "slot has a nil value" [AStr id]))
    else if negb (bool_decide (cd_constructor data = None)) && negb (isNil (cd_value data)) then
      (s, Some (ErrWrap ErrInvalidContribution "slot cannot have both a value and constructor" [AStr id]))
    else if bool_decide (kind = manyKind) && negb (validID (cd_key data)) then
      (s, Some (ErrWrap ErrInvalidKey "slot key must be non-empty without surrounding whitespace" [AStr id; AStr (cd_key data)]))
    else
      let existing := byID s !! id in
      let record := default (SlotRecord (cd_spec data) []) existing in
      if bool_decide (is_Some existing) &&
         (negb (bool_decide (spec_kind (rec_spec record) = kind)) ||
          negb (bool_decide (spec_valueType (rec_spec record) = spec_valueType (cd_spec data)))) then
        (s, Some (ErrWrap ErrSlotConflict "slot kind or type differs" [AStr id]))
      else
        let s1 := RegistryState (<[id := record]> (byID s)) (nextOrdinal s) in
        match kind, collision data (rec_values record) with
        | noKind, _ => (s1, Some (ErrWrap ErrInvalidContribution "slot has unknown kind" [AStr id]))
        | oneKind, Some r => (s1, Some (ErrWrap ErrSlotOccupied "slot is provided by module" [AStr id; AStr (rv_owner r)]))
        | manyKind, Some r => (s1, Some (ErrWrap ErrDuplicateKey "slot key is provided by module" [AStr id; AStr (cd_key data); AStr (rv_owner r)]))
        | _, _ =>
          let ordinal := u64 (nextOrdinal s + 1) in
          let value := RegisteredValue owner (cd_key data) (cd_value data) (cd_constructor data) ordinal (cd_defaulted data) in
          (RegistryState (<[id := SlotRecord (rec_spec record) (rec_values record ++ [value])]> (byID s)) ordinal, None)
        end
  end.

Fixpoint apply_all (owner : string) (s : registryState) (cs : list (option contributionData))
    : registryState * option error :=
  match cs with
  | [] => (s, None)
  | c :: cs =>
    match apply owner s c with
    | (s', None) => apply_all owner s' cs
    | (s', Some err) => (s', Some err)
    end
  end.

(** [registration.Contribute] *)
Definition Contribute (r : registration) (cs : list (option contributionData)) : registration * option error :=
  if negb (reg_open r) then (r, Some ErrRegistrationClosed)
  else match reg_failed r with
  | Some err => (r, Some err)
  | None =>
    let '(s, err) := apply_all (reg_owner r) (reg_state r) cs in
    (Registration (reg_owner r) s (reg_open r) err, err)
  end.

(** A module's [Register]: calls to the registrar it received, each of which
    may depend on the errors returned so far, and a final error or nil. *)
Inductive regProg :=
  | RegReturn (err : option error)
  | RegContribute (cs : list (option contributionData)) (k : option error -> regProg).

Fixpoint run_register (p : regProg) (r : registration) : registration * option error :=
  match p with
  | RegReturn err => (r, err)
  | RegContribute cs k => let '(r', err) := Contribute r cs in run_register (k err) r'
  end.

(** ** Requirements *)
Record Requirement := MkRequirement {
  req_spec : slotSpec;
  req_key : string;
  req_keyed : bool;
  req_minimum : Z;
  req_optional : bool;
}.

Definition RequireOne (slot : slotSpec) := MkRequirement slot "" false 1 false.
Definition OptionalOne (slot : slotSpec) := MkRequirement slot "" false 0 true.
Definition RequireMany (slot : slotSpec) (minimum : Z) := MkRequirement slot "" false minimum false.
Definition OptionalMany (slot : slotSpec) := MkRequirement slot "" false 0 true.
Definition RequireKey (slot : slotSpec) (key : string) := MkRequirement slot key true 1 false.
Definition RequireChain (slot : slotSpec) (minimum : Z) := MkRequirement slot "" false minimum false.
Definition OptionalChain (slot : slotSpec) := MkRequirement slot "" false 0 true.

(** ** Modules

    The Go interfaces a module may implement: [Module], [SlotRequirer]
    ([mod_requires] is [None] when it is not one) and [Lifecycle]
    ([mod_lifecycle]).  The lifecycle calls run in the world of Lifecycle.v. *)
Record Module_ := MkModule {
  mod_ID : string;
  mod_Register : regProg;
  mod_requires : option (list Requirement);
  mod_lifecycle : bool;
}.

Record installedModule := InstalledModule {
  im_id : string;
  im_module : Module_;
  im_requirements : list Requirement;
  im_contributes : bool;
}.

Record Builder := MkBuilder {
  b_state : registryState;
  b_modules : list installedModule;
  b_frozen : bool;
}.

Definition NewBuilder : Builder := MkBuilder newRegistryState [] false.

(** [Builder.Install] *)
Definition Install (b : Builder) (module : option Module_) : Builder * option error :=
  match module with
  | None => (b, Some (ErrWrap ErrInvalidModule "nil" []))
  | Some m =>
    let id := mod_ID m in
    if negb (validID id) then
      (b, Some (ErrWrap ErrInvalidModule "ID must be non-empty without surrounding whitespace" [AStr id]))
    else if b_frozen b then (b, Some ErrBuilderFrozen)
    else if existsb (fun installed => String.eqb (im_id installed) id) (b_modules b) then
      (b, Some (ErrWrap ErrDuplicateModule "" [AStr id]))
    else
      let '(r, returned) := run_register (mod_Register m) (Registration id (b_state b) true None) in
      match (match returned with None => reg_failed r | Some err => Some err end) with
      | Some err => (b, Some (ErrWrap err "register module" [AStr id]))
      | None =>
        (MkBuilder (reg_state r)
           (b_modules b ++ [InstalledModule id m [] (bool_decide (nextOrdinal (b_state b) < nextOrdinal (reg_state r))%Z)])
           (b_frozen b), None)
      end
  end.

End Slots.

(** * Selecting the final component set

    Models [defaults.go]: explicit contributions displace defaults, whatever
    the installation order, and modules whose every contribution was displaced
    are left out of the assembly. *)

Section Defaults.
Context {C : Components}.

Definition valuesByDefault (values : list registeredValue) (defaulted : bool) : list registeredValue :=
  List.filter (fun v => Bool.eqb (rv_defaulted v) defaulted) values.

(** The set [explicitKeys] and the counters [defaultCounts] of
    [resolveManyDefaults]. *)
Definition explicitKeys (values : list registeredValue) : gset string :=
  foldl (fun keys v => if rv_defaulted v then keys else {[rv_key v]} ∪ keys) ∅ values.
Definition defaultCounts (values : list registeredValue) : gmap string Z :=
  foldl (fun counts v =>
    if rv_defaulted v then <[rv_key v := (default 0 (counts !! rv_key v) + 1)%Z]> counts else counts) ∅ values.

(** Go's iteration order over [defaultCounts] decides only which of several
    offending keys the message names, so the error does not carry the key. *)
Definition resolveManyDefaults (record : slotRecord) : result (list registeredValue) :=
  let explicit := explicitKeys (rec_values record) in
  if existsb (fun '(key, count) => (1 <? count)%Z && negb (bool_decide (key ∈ explicit)))
       (map_to_list (defaultCounts (rec_values record))) then
    Err (ErrWrap ErrDuplicateKey "slot key has multiple default contributions" [AStr (spec_id (rec_spec record))])
  else
    Ok (List.filter (fun v => negb (rv_defaulted v && bool_decide (rv_key v ∈ explicit))) (rec_values record)).

Definition resolveRecordDefaults (record : slotRecord) : result (list registeredValue) :=
  let id := spec_id (rec_spec record) in
  match spec_kind (rec_spec record) with
  | oneKind =>
    match valuesByDefault (rec_values record) false, valuesByDefault (rec_values record) true with
    | (_ :: _) as explicit, _ => Ok explicit
    | [], d0 :: d1 :: _ =>
      Err (ErrWrap ErrSlotOccupied "slot has multiple default contributions from modules"
             [AStr id; AStr (rv_owner d0); AStr (rv_owner d1)])
    | [], defaults => Ok defaults
    end
  | manyKind => resolveManyDefaults record
  | chainKind =>
    match valuesByDefault (rec_values record) false with
    | (_ :: _) as explicit => Ok explicit
    | [] => Ok (valuesByDefault (rec_values record) true)
    end
  | noKind => Err (ErrWrap ErrInvalidContribution "slot has unknown kind" [AStr id])
  end.

(** [sort.Strings] over the keys of the registry. *)
Definition sorted_ids (s : registryState) : list string :=
  merge_sort string_le (map_to_list (byID s)).*1.

Definition resolveDefaultContributions (source : registryState) : result registryState :=
  foldM (fun resolved id =>
    match byID source !! id with
    | None => Ok resolved
    | Some record =>
      values ← resolveRecordDefaults record;
      Ok (RegistryState (<[id := SlotRecord (rec_spec record) values]> (byID resolved)) (nextOrdinal resolved))
    end) (sorted_ids source) (RegistryState ∅ (nextOrdinal source)).

(** [owners] of [activeModules] *)
Definition owners (s : registryState) : gset string :=
  list_to_set (map_to_list (byID s) ≫= fun '(_, record) => rv_owner <$> rec_values record).

Definition activeModules (s : registryState) (installed : list installedModule) : list installedModule :=
  List.filter (fun m => negb (im_contributes m) || bool_decide (im_id m ∈ owners s)) installed.

End Defaults.
