(* ===== verification/Dependency.v ===== *)
(** * Requirements and the lifecycle order

    Models [dependency.go]: validation and resolution of slot requirements
    and [orderModules], the stable topological sort (Kahn's algorithm, always
    emitting the first ready module in installation order) that gives the
    start order of an assembly. *)

From S2P Require Import Prelude GoStrings Slots.

Definition ErrInvalidRequirement := ErrNew "agentslot: invalid requirement".
Definition ErrRequirementUnsatisfied := ErrNew "agentslot: requirement is unsatisfied".
Definition ErrDependencyCycle := ErrNew "agentslot: module dependency cycle".

Section Dependency.
Context {C : Components}.

Definition validateRequirement (r : Requirement) : result unit :=
  let id := spec_id (req_spec r) in
  if String.eqb id "" || bool_decide (spec_valueType (req_spec r) = None) then
    Err (ErrWrap ErrInvalidRequirement "missing slot definition" [])
  else match spec_kind (req_spec r) with
  | oneKind =>
    let validMinimum := (req_minimum r =? 1)%Z && negb (req_optional r) in
    let validOptional := (req_minimum r =? 0)%Z && req_optional r in
    reject_if (req_keyed r || negb (String.eqb (req_key r) "") || (negb validMinimum && negb validOptional))
      (ErrWrap ErrInvalidRequirement "OneSlot must be required with minimum 1 or explicitly optional, without a key" [AStr id])
  | manyKind =>
    reject_if ((req_minimum r <? 1)%Z && negb (req_optional r))
      (ErrWrap ErrInvalidRequirement "ManySlot minimum must be positive" [AStr id]);;
    reject_if (req_optional r && negb (req_minimum r =? 0)%Z)
      (ErrWrap ErrInvalidRequirement "optional ManySlot minimum must be zero" [AStr id]);;
    reject_if (req_keyed r && negb (validID (req_key r)))
      (ErrWrap ErrInvalidRequirement "ManySlot key must be non-empty without surrounding whitespace" [AStr id; AStr (req_key r)]);;
    reject_if (negb (req_keyed r) && negb (String.eqb (req_key r) ""))
      (ErrWrap ErrInvalidRequirement "ManySlot has a key without keyed selection" [AStr id])
  | chainKind =>
    reject_if (req_keyed r || negb (String.eqb (req_key r) "") ||
               ((req_minimum r <? 1)%Z && negb (req_optional r)) || (req_optional r && negb (req_minimum r =? 0)%Z))
      (ErrWrap ErrInvalidRequirement "ChainSlot must have a positive minimum or be explicitly optional, without a key" [AStr id])
  | noKind => Err (ErrWrap ErrInvalidRequirement "slot has unknown kind" [AStr id])
  end.

Definition unsatisfiedRequirementError (r : Requirement) (actual : Z) : error :=
  ErrWrap ErrRequirementUnsatisfied "slot requires more contributions"
    [AStr (spec_id (req_spec r)); AInt (req_minimum r); AInt actual].

Definition resolveRequirement (s : registryState) (r : Requirement) : result (list registeredValue) :=
  validateRequirement r;;
  match byID s !! spec_id (req_spec r) with
  | None => if req_optional r then Ok [] else Err (unsatisfiedRequirementError r 0)
  | Some record =>
    if negb (bool_decide (spec_kind (rec_spec record) = spec_kind (req_spec r))) ||
       negb (bool_decide (spec_valueType (rec_spec record) = spec_valueType (req_spec r))) then
      Err (ErrWrap ErrSlotConflict "requirement conflicts with its installed definition" [AStr (spec_id (req_spec r))])
    else if req_keyed r then
      match find (fun v => String.eqb (rv_key v) (req_key r)) (rec_values record) with
      | Some v => Ok [v]
      | None => Err (ErrWrap ErrRequirementUnsatisfied "slot requires key" [AStr (spec_id (req_spec r)); AStr (req_key r)])
      end
    else if (Z.of_nat (length (rec_values record)) <? req_minimum r)%Z then
      Err (unsatisfiedRequirementError r (Z.of_nat (length (rec_values record))))
    else Ok (rec_values record)
  end.

(** ** The dependency graph

    [edges !! p] is the set of consumers of module [p] (the nil map of Go is
    the empty set) and [indegree !! c] the number of providers of [c]. *)
Record graph := Graph { edges : list (gset nat); indegree : list Z }.

Definition add_edge (p c : nat) (g : graph) : graph :=
  if bool_decide (p = c) then g
  else if bool_decide (c ∈ (edges g !!! p : gset nat)) then g
  else Graph (alter (M:=list (gset nat)) (fun consumers => {[c]} ∪ consumers) p (edges g))
             (alter (M:=list Z) (fun d => (d + 1)%Z) c (indegree g)).

(** [ownerIndex]: a later module with the same ID would win, as in Go. *)
Fixpoint ownerIndex_from (i : nat) (modules : list installedModule) : gmap string nat :=
  match modules with
  | [] => ∅
  | m :: modules =>
    let rest := ownerIndex_from (S i) modules in
    match rest !! im_id m with Some _ => rest | None => <[im_id m := i]> rest end
  end.
Definition ownerIndex (modules : list installedModule) : gmap string nat := ownerIndex_from 0 modules.

(** The edges one resolved requirement of the module at [c] adds. *)
Definition link_provider (owner : gmap string nat) (id : string) (c : nat) (g : graph) (provider : registeredValue) : result graph :=
  match owner !! rv_owner provider with
  | None => Err (Errorf "module requirement references unknown provider module" [AStr id; AStr (rv_owner provider)])
  | Some p => Ok (add_edge p c g)
  end.

Definition link_requirement (s : registryState) (owner : gmap string nat) (id : string) (c : nat) (g : graph) (r : Requirement) : result graph :=
  providers ← map_err (fun e => ErrWrap e "module requirement" [AStr id]) (resolveRequirement s r);
  foldM (link_provider owner id c) providers g.

(** The module with the requirements its [RequiredSlots] returned. *)
Definition with_requirements (m : installedModule) : installedModule :=
  match mod_requires (im_module m) with
  | None => m
  | Some requirements => InstalledModule (im_id m) (im_module m) requirements (im_contributes m)
  end.

Definition link_module (s : registryState) (owner : gmap string nat) (g : graph) (cm : nat * installedModule) : result graph :=
  match mod_requires (im_module cm.2) with
  | None => Ok g
  | Some requirements => foldM (link_requirement s owner (im_id cm.2) cm.1) requirements g
  end.

Definition indexed {A} (l : list A) : list (nat * A) := imap pair l.

Definition build_graph (s : registryState) (modules : list installedModule) : result graph :=
  foldM (link_module s (ownerIndex modules)) (indexed modules)
    (Graph (replicate (length modules) ∅) (replicate (length modules) 0%Z)).

(** ** Emission *)

(** First index that is not emitted and has no remaining provider. *)
Definition ready (emitted : list bool) (degrees : list Z) (i : nat) : bool :=
  negb (emitted !!! i : bool) && ((degrees !!! i : Z) =? 0)%Z.
Definition candidate (n : nat) (emitted : list bool) (degrees : list Z) : option nat :=
  find (ready emitted degrees) (seq 0 n).

Definition cycle_ids (modules : list installedModule) (emitted : list bool) : list string :=
  omap (fun '(i, m) => if (emitted !!! i : bool) then None else Some (im_id m)) (indexed modules).

Fixpoint join (sep : string) (l : list string) : string :=
  match l with
  | [] => ""
  | [s] => s
  | s :: l => s +:+ sep +:+ join sep l
  end.

(** [for len(ordered) < len(modules)]: every iteration emits one module or
    returns, so [length modules] iterations are enough; [ordered] holds the
    emitted indices. *)
Fixpoint emit (fuel : nat) (modules : list installedModule) (consumers : list (gset nat))
    (degrees : list Z) (emitted : list bool) (ordered : list nat) : result (list nat) :=
  match fuel with
  | O => Ok ordered
  | S fuel =>
    match candidate (length modules) emitted degrees with
    | None => Err (ErrWrap ErrDependencyCycle "among" [AStr (join ", " (cycle_ids modules emitted))])
    | Some i =>
      emit fuel modules consumers
        (imap (fun c d => if bool_decide (c ∈ (consumers !!! i : gset nat)) then (d - 1)%Z else d) degrees)
        (<[i := true]> emitted) (ordered ++ [i])
    end
  end.

Definition emit_all (modules : list installedModule) (g : graph) : result (list nat) :=
  emit (length modules) modules (edges g) (indegree g) (replicate (length modules) false) [].

Definition orderModules (s : registryState) (installed : list installedModule) : result (list installedModule) :=
  g ← build_graph s installed;
  order ← emit_all installed g;
  Ok (omap (M:=list) (fun i => with_requirements <$> (installed !! i : option installedModule)) order).

End Dependency.
