(* ===== verification/Assembly.v ===== *)
(** * Building and querying an assembly

    Models [resolver.go], [Builder.Build] of [builder.go], the typed lookups
    of [slot.go] and [description.go]. *)

From S2P Require Import Prelude GoStrings Slots Dependency.

(** * Build-time construction

    Models [resolver.go]: the resolver a constructor receives, and
    [materializeConstructors], which runs the constructors module by module in
    lifecycle order and stores the values they build. *)

Definition ErrDependencyUndeclared := ErrNew "agentslot: dependency is not declared".
Definition ErrResolverClosed := ErrNew "agentslot: resolver is closed".
Definition ErrDependencyNotReady := ErrNew "agentslot: dependency is not ready".

Section Resolver.
Context {C : Components}.

(** [Resolver]: [None] is the zero value, whose scope is nil. *)
Record resolverScope := ResolverScope {
  sc_state : registryState;
  sc_requirements : list Requirement;
  sc_open : bool;
}.

Definition declaredRequirement (requirements : list Requirement) (spec : slotSpec) (key : string) (keyed : bool) : option Requirement :=
  find (fun r => bool_decide (req_spec r = spec) && Bool.eqb (req_keyed r) keyed &&
                 (negb keyed || String.eqb (req_key r) key)) requirements.

Definition notReady (v : registeredValue) : bool :=
  negb (bool_decide (rv_constructor v = None)) || isNil (rv_value v).

(** [Resolver.resolve] *)
Definition resolve (scope : option resolverScope) (spec : slotSpec) (key : string) (keyed : bool) : result (list registeredValue) :=
  match scope with
  | None => Err ErrResolverClosed
  | Some scope =>
    reject_if (negb (sc_open scope)) ErrResolverClosed;;
    match declaredRequirement (sc_requirements scope) spec key keyed with
    | None => Err (ErrWrap ErrDependencyUndeclared "slot" [AStr (spec_id spec)])
    | Some requirement =>
      values ← resolveRequirement (sc_state scope) requirement;
      match find notReady values with
      | Some v => Err (ErrWrap ErrDependencyNotReady "slot contribution from module" [AStr (spec_id spec); AStr (rv_owner v)])
      | None => Ok values
      end
    end
  end.

(** [resolvedValue[T]]; the type [T] is the one the slot was declared with. *)
Definition resolvedValue (T : option goType) (v : registeredValue) : result (option val) :=
  match rv_value v, T with
  | Some x, Some T => if hasType x T then Ok (Some x)
      else Err (ErrWrap ErrInvalidContribution "materialized value violates its slot type" [AStr (rv_owner v)])
  | _, _ => Err (ErrWrap ErrInvalidContribution "materialized value violates its slot type" [AStr (rv_owner v)])
  end.

Fixpoint resolvedValues (T : option goType) (values : list registeredValue) : result (list (string * option val)) :=
  match values with
  | [] => Ok []
  | v :: values =>
    x ← resolvedValue T v;
    rest ← resolvedValues T values;
    Ok ((rv_key v, x) :: rest)
  end.

Definition ResolveOne (scope : option resolverScope) (slot : slotSpec) : result (option val) :=
  values ← resolve scope slot "" false;
  match values with
  | [] => Err (ErrWrap ErrRequirementUnsatisfied "optional slot has no contribution" [AStr (spec_id slot)])
  | v :: _ => resolvedValue (spec_valueType slot) v
  end.

Definition ResolveOptionalOne (scope : option resolverScope) (slot : slotSpec) : result (option (option val)) :=
  values ← resolve scope slot "" false;
  match values with
  | [] => Ok None
  | v :: _ => x ← resolvedValue (spec_valueType slot) v; Ok (Some x)
  end.

(** [values[0]] of an empty slice panics. *)
Definition ResolveKey (scope : option resolverScope) (slot : slotSpec) (key : string) : result (option val) :=
  values ← resolve scope slot key true;
  match values with
  | [] => Panic "index out of range"
  | v :: _ => resolvedValue (spec_valueType slot) v
  end.

Definition ResolveMany (scope : option resolverScope) (slot : slotSpec) : result (list (string * option val)) :=
  values ← resolve scope slot "" false;
  resolvedValues (spec_valueType slot) values.

Definition ResolveChain (scope : option resolverScope) (slot : slotSpec) : result (list (option val)) :=
  values ← resolve scope slot "" false;
  named ← resolvedValues (spec_valueType slot) values;
  Ok named.*2.

(** Running a constructor against a resolver. *)
Definition ask (scope : option resolverScope) (q : query) : answer q :=
  match q with
  | QOne slot => ResolveOne scope slot
  | QOptionalOne slot => ResolveOptionalOne scope slot
  | QKey slot key => ResolveKey scope slot key
  | QMany slot => ResolveMany scope slot
  | QChain slot => ResolveChain scope slot
  end.

Fixpoint run_ctor (scope : option resolverScope) (c : ctor) : result (option val) :=
  match c with
  | CReturn r => r
  | CResolve q k => run_ctor scope (k (ask scope q))
  end.

(** [constructorTargetsForOwner]: the slot and the index of every pending
    constructor of a module, sorted by the ordinal of its contribution. *)
Record materializationTarget := Target { tg_slot : string; tg_index : nat; tg_ordinal : Z }.

Definition record_targets (owner : string) (id : string) (record : slotRecord) : list materializationTarget :=
  omap (fun '(i, v) =>
    if String.eqb (rv_owner v) owner && negb (bool_decide (rv_constructor v = None))
    then Some (Target id i (rv_ordinal v)) else None) (indexed (rec_values record)).

Definition raw_targets (s : registryState) (owner : string) : list materializationTarget :=
  map_to_list (byID s) ≫= fun '(id, record) => record_targets owner id record.

Definition target_le (a b : materializationTarget) : Prop := (tg_ordinal a <= tg_ordinal b)%Z.
#[global] Instance target_le_dec a b : Decision (target_le a b).
Proof. unfold target_le; apply _. Defined.

Definition constructorTargetsForOwner (s : registryState) (owner : string) : list materializationTarget :=
  merge_sort target_le (raw_targets s owner).

(** [registered.value = value; registered.constructor = nil] through the
    record pointer *)
Definition store_value (s : registryState) (t : materializationTarget) (value : option val) : registryState :=
  RegistryState
    (alter (fun record => SlotRecord (rec_spec record)
       (alter (M:=list registeredValue) (fun v => RegisteredValue (rv_owner v) (rv_key v) value None (rv_ordinal v) (rv_defaulted v))
          (tg_index t) (rec_values record))) (tg_slot t) (byID s))
    (nextOrdinal s).

Definition target_value (s : registryState) (t : materializationTarget) : option registeredValue :=
  record ← byID s !! tg_slot t; rec_values record !! tg_index t.

(** One iteration of the inner loop.  The constructor was collected as
    non-nil, and nothing clears it in between. *)
Definition materialize_target (m : installedModule) (s : registryState) (t : materializationTarget) : result registryState :=
  match v ← target_value s t; rv_constructor v with
  | None => Panic "nil constructor"
  | Some c =>
    value ← map_err (fun e => ErrWrap e "construct module contribution to slot" [AStr (im_id m); AStr (tg_slot t)])
              (run_ctor (Some (ResolverScope s (im_requirements m) true)) c);
    if isNil value then
      Err (ErrWrap ErrInvalidContribution "construct module contribution to slot: nil value" [AStr (im_id m); AStr (tg_slot t)])
    else Ok (store_value s t value)
  end.

Definition materialize_module (s : registryState) (m : installedModule) : result registryState :=
  foldM (materialize_target m) (constructorTargetsForOwner s (im_id m)) s.

Definition materializeConstructors (s : registryState) (modules : list installedModule) : result registryState :=
  foldM materialize_module modules s.

End Resolver.

(** * The build and the lookups *)

Section Assembly.
Context {C : Components}.

Record Assembly_ := MkAssembly {
  a_state : registryState;
  a_modules : list installedModule;
  a_profile : list Requirement;
}.

(** [Builder.Build].  Only success changes the builder: it freezes it. *)
Definition build_assembly (b : Builder) (requirements : list Requirement) : result Assembly_ :=
  reject_if (b_frozen b) ErrBuilderFrozen;;
  state ← resolveDefaultContributions (b_state b);
  forM_ (fun r => resolveRequirement state r;; Ok tt) requirements;;
  modules ← orderModules state (activeModules state (b_modules b));
  final ← materializeConstructors state modules;
  Ok (MkAssembly final modules requirements).

Definition Build (b : Builder) (requirements : list Requirement) : Builder * result Assembly_ :=
  match build_assembly b requirements with
  | Ok a => (MkBuilder (b_state b) (b_modules b) true, Ok a)
  | r => (b, r)
  end.

(** [Assembly.find] *)
Definition find_record (a : Assembly_) (spec : slotSpec) : result (option slotRecord) :=
  match byID (a_state a) !! spec_id spec with
  | None => Ok None
  | Some record =>
    if negb (bool_decide (spec_kind (rec_spec record) = spec_kind spec)) ||
       negb (bool_decide (spec_valueType (rec_spec record) = spec_valueType spec)) then
      Panic "agentslot: slot was resolved with a conflicting definition"
    else Ok (Some record)
  end.

(** The assertion [registered.value.(T)] of the typed lookups. *)
Definition assertType (T : option goType) (v : registeredValue) : result val :=
  match rv_value v, T with
  | Some x, Some T => if hasType x T then Ok x else Panic "agentslot: internal value type invariant violated"
  | _, _ => Panic "agentslot: internal value type invariant violated"
  end.

Definition Get (a : Assembly_) (slot : slotSpec) : result (option val) :=
  record ← find_record a slot;
  match record with
  | None => Ok None
  | Some record =>
    match rec_values record with
    | [] => Ok None
    | v :: _ => x ← assertType (spec_valueType slot) v; Ok (Some x)
    end
  end.

Definition Lookup_ (a : Assembly_) (slot : slotSpec) (key : string) : result (option val) :=
  record ← find_record a slot;
  match record with
  | None => Ok None
  | Some record =>
    match find (fun v => String.eqb (rv_key v) key) (rec_values record) with
    | None => Ok None
    | Some v => x ← assertType (spec_valueType slot) v; Ok (Some x)
    end
  end.

Fixpoint assertAll (T : option goType) (values : list registeredValue) : result (list (string * val)) :=
  match values with
  | [] => Ok []
  | v :: values =>
    x ← assertType T v;
    rest ← assertAll T values;
    Ok ((rv_key v, x) :: rest)
  end.

Definition All (a : Assembly_) (slot : slotSpec) : result (list (string * val)) :=
  record ← find_record a slot;
  match record with
  | None => Ok []
  | Some record => assertAll (spec_valueType slot) (rec_values record)
  end.

Definition Ordered (a : Assembly_) (slot : slotSpec) : result (list val) :=
  named ← All a slot;
  Ok named.*2.

End Assembly.

(** * Describing an assembly

    Models [description.go]: the deterministic, value-free view of an
    assembly. *)

Section Description.
Context {C : Components}.

Record RequirementDescription := MkRequirementDescription {
  rd_Slot : string; rd_Kind : string; rd_Key : string; rd_Minimum : Z; rd_Optional : bool;
}.
Record ModuleDescription := MkModuleDescription { md_ID : string; md_Requires : list RequirementDescription }.
Record ContributionDescription := MkContributionDescription { cdsc_Module : string; cdsc_Key : string; cdsc_Source : string }.
Record SlotDescription := MkSlotDescription {
  sd_ID : string; sd_Kind : string; sd_ValueType : string; sd_Contributions : list ContributionDescription;
}.
Record AssemblyDescription := MkAssemblyDescription {
  ad_Schema : string; ad_Modules : list ModuleDescription; ad_Slots : list SlotDescription; ad_Profile : list RequirementDescription;
}.

(** The comparison of [describeRequirements]: slot, kind, key, minimum. *)
Definition requirement_lt (left right : RequirementDescription) : bool :=
  if negb (String.eqb (rd_Slot left) (rd_Slot right)) then String.ltb (rd_Slot left) (rd_Slot right)
  else if negb (String.eqb (rd_Kind left) (rd_Kind right)) then String.ltb (rd_Kind left) (rd_Kind right)
  else if negb (String.eqb (rd_Key left) (rd_Key right)) then String.ltb (rd_Key left) (rd_Key right)
  else (rd_Minimum left <? rd_Minimum right)%Z.

(** [sort.Slice] leaves the order of equal elements open; the model keeps
    their order. *)
Definition requirement_le (a b : RequirementDescription) : Prop := requirement_lt b a = false.
#[global] Instance requirement_le_dec a b : Decision (requirement_le a b).
Proof. unfold requirement_le; apply _. Defined.

Definition describeRequirement (r : Requirement) : RequirementDescription :=
  MkRequirementDescription (spec_id (req_spec r)) (slotKind_String (spec_kind (req_spec r)))
    (req_key r) (req_minimum r) (req_optional r).

Definition describeRequirements (requirements : list Requirement) : list RequirementDescription :=
  merge_sort requirement_le (describeRequirement <$> requirements).

Definition describeContribution (v : registeredValue) : ContributionDescription :=
  MkContributionDescription (rv_owner v) (rv_key v) (if rv_defaulted v then "default" else "explicit").

(** [valueType.String()] of a nil type would panic; registered slots have one. *)
Definition describeSlot (id : string) (record : slotRecord) : SlotDescription :=
  MkSlotDescription id (slotKind_String (spec_kind (rec_spec record)))
    (match spec_valueType (rec_spec record) with Some T => typeString T | None => "" end)
    (describeContribution <$> rec_values record).

Definition Describe (a : Assembly_) : AssemblyDescription :=
  MkAssemblyDescription "agentslot.assembly/v0"
    ((fun m => MkModuleDescription (im_id m) (describeRequirements (im_requirements m))) <$> a_modules a)
    (omap (fun id => describeSlot id <$> byID (a_state a) !! id) (sorted_ids (a_state a)))
    (describeRequirements (a_profile a)).

End Description.
