(* ===== verification/Lifecycle.v ===== *)
(** * Starting and stopping an assembly

    Models [lifecycle.go] and the control flow of [application.go].  The
    [Start] and [Stop] methods of a module and the context are product code:
    they run in an abstract world and report an error or nil.  The model
    records every call it makes, in order, in a trace. *)

From S2P Require Import Prelude GoStrings Slots Dependency Assembly.

Definition ErrAssemblyStarted := ErrNew "agentslot: assembly startup was already attempted".
Definition ErrInvalidApplication := ErrNew "agentslot: invalid application".

(** What the environment does: [ctx_err] is [ctx.Err()] at the moment of the
    check, [start] and [stop] are the module's methods. *)
Class Lifecycles (W : Type) := {
  ctx_err : W -> option error;
  start : string -> W -> W * option error;
  stop : string -> W -> W * option error;
}.

Inductive call := CallStart (id : string) | CallStop (id : string).
#[export] Instance call_eq_dec : EqDecision call.
Proof. solve_decision. Defined.

Section Lifecycle.
Context {C : Components} {W : Type} {L : Lifecycles W}.

(** The world together with the calls made so far. *)
Definition traced : Type := W * list call.

Definition call_start (id : string) (w : traced) : traced * option error :=
  let '(w', err) := start id w.1 in ((w', w.2 ++ [CallStart id]), err).
Definition call_stop (id : string) (w : traced) : traced * option error :=
  let '(w', err) := stop id w.1 in ((w', w.2 ++ [CallStop id]), err).

(** The backward loop of [rollbackStart] and [Runtime.Stop]: it stops every
    module of the list it is given and collects the errors. *)
Fixpoint stop_each (text : string) (ids : list string) (w : traced) : traced * list error :=
  match ids with
  | [] => (w, [])
  | id :: ids =>
    let '(w1, err) := call_stop id w in
    let '(w2, errs) := stop_each text ids w1 in
    (w2, match err with Some e => ErrWrap e text [AStr id] :: errs | None => errs end)
  end.

(** [errors.Join] is nil when no error is left. *)
Definition errors_Join (errs : list error) : option error :=
  match errs with [] => None | _ => Some (ErrJoin errs) end.

Definition rollbackStart (active : list string) (failedID : string) (startErr : error) (w : traced) : traced * error :=
  let '(w', errs) := stop_each "roll back module" (rev active) w in
  (w', ErrJoin (ErrWrap startErr "start module" [AStr failedID] :: errs)).

Record Runtime := MkRuntime {
  rt_active : list string;
  rt_stopped : bool;
  rt_stopErr : option error;
}.

(** The loop of [Assembly.Start]; [active] are the modules started so far. *)
Fixpoint start_loop (modules : list installedModule) (active : list string) (w : traced) : traced * (Runtime + error) :=
  match modules with
  | [] => (w, inl (MkRuntime active false None))
  | m :: modules =>
    if negb (mod_lifecycle (im_module m)) then start_loop modules active w
    else match ctx_err w.1 with
    | Some e => let '(w', err) := rollbackStart active (im_id m) e w in (w', inr err)
    | None =>
      let '(w1, err) := call_start (im_id m) w in
      match err with
      | Some e => let '(w2, err) := rollbackStart active (im_id m) e w1 in (w2, inr err)
      | None => start_loop modules (active ++ [im_id m]) w1
      end
    end
  end.

(** [Assembly.Start]; the flag is [startAttempted]. *)
Definition Start (a : Assembly_) (startAttempted : bool) (w : traced) : bool * (traced * (Runtime + error)) :=
  if startAttempted then (true, (w, inr ErrAssemblyStarted))
  else (true, start_loop (a_modules a) [] w).

(** [Runtime.Stop] *)
Definition Stop (r : Runtime) (w : traced) : Runtime * (traced * option error) :=
  if rt_stopped r then (r, (w, rt_stopErr r))
  else
    let '(w', errs) := stop_each "stop module" (rev (rt_active r)) w in
    (MkRuntime (rt_active r) true (errors_Join errs), (w', errors_Join errs)).

(** ** Applications ([application.go]) *)
Record Application := MkApplication {
  app_name : string;
  app_modules : list (option Module_);
  app_mounted : nat;
  app_builder : Builder;
  app_profile : list Requirement;
  app_assembly : option (Assembly_);
  app_started : bool;
}.

Definition NewApplication (name : string) (modules : list (option Module_)) (requirements : list Requirement) : Application :=
  MkApplication name modules 0 NewBuilder requirements None false.

(** The mounting loop of [Application.Build]: modules mounted by an earlier,
    failed call are not mounted again. *)
Fixpoint mount (modules : list (option Module_)) (mounted : nat) (b : Builder) : nat * Builder * option error :=
  match modules with
  | [] => (mounted, b, None)
  | m :: modules =>
    match Install b m with
    | (b', None) => mount modules (S mounted) b'
    | (b', Some e) => (mounted, b', Some (ErrWrap e "mount module" [AInt (Z.of_nat (S mounted))]))
    end
  end.

Definition app_with (app : Application) (mounted : nat) (b : Builder) (assembly : option (Assembly_)) : Application :=
  MkApplication (app_name app) (app_modules app) mounted b (app_profile app) assembly (app_started app).

Definition Application_Build (app : Application) : Application * result Assembly_ :=
  match app_assembly app with
  | Some a => (app, Ok a)
  | None =>
    if negb (validID (app_name app)) then
      (app, Err (ErrWrap ErrInvalidApplication "name must be non-empty without surrounding whitespace" [AStr (app_name app)]))
    else
      let '(mounted, b, err) := mount (drop (app_mounted app) (app_modules app)) (app_mounted app) (app_builder app) in
      match err with
      | Some e => (app_with app mounted b None, Err (ErrWrap e "build application" [AStr (app_name app)]))
      | None =>
        let '(b', built) := Build b (app_profile app) in
        match built with
        | Ok a => (app_with app mounted b' (Some a), Ok a)
        | r => (app_with app mounted b' None, map_err (fun e => ErrWrap e "build application" [AStr (app_name app)]) r)
        end
      end
  end.

Definition Application_Start (app : Application) (w : traced) : Application * (traced * result Runtime) :=
  match Application_Build app with
  | (app', Ok a) =>
    let '(started, (w', r)) := Start a (app_started app') w in
    (MkApplication (app_name app') (app_modules app') (app_mounted app') (app_builder app') (app_profile app') (app_assembly app') started,
     (w', match r with
          | inl rt => Ok rt
          | inr e => Err (ErrWrap e "start application" [AStr (app_name app')])
          end))
  | (app', Err e) => (app', (w, Err e))
  | (app', Panic msg) => (app', (w, Panic msg))
  end.

(** [Application.Run]; [await] is the effect of waiting for [ctx.Done()]. *)
Definition Application_Run (await : W -> W) (app : Application) (w : traced) : Application * (traced * option error) :=
  match Application_Start app w with
  | (app', (w', Ok rt)) =>
    let '(_, (w2, err)) := Stop rt (await w'.1, w'.2) in
    (app', (w2, (fun e => ErrWrap e "stop application" [AStr (app_name app')]) <$> err))
  | (app', (w', Err e)) => (app', (w', Some e))
  | (app', (w', Panic msg)) => (app', (w', Some (ErrNew msg)))
  end.

End Lifecycle.
Arguments traced : clear implicits.
