(* ===== verification/RegistryFacts.v ===== *)
(** * The registry invariant

    What every reachable [Builder] satisfies, and the proof that
    [Builder.Install] keeps it: installation is transactional, append-only and
    never produces a slot with two explicit owners. *)

From S2P Require Import Prelude GoStrings Slots.

Section RegistryFacts.
Context {C : Components}.

(** Every value of the registry. *)
Definition all_values (s : registryState) : list registeredValue :=
  map_to_list (byID s) ≫= (fun p => rec_values p.2).

Definition explicit_values (r : slotRecord) : list registeredValue :=
  List.filter (fun v => negb (rv_defaulted v)) (rec_values r).

(** A value is either built or still to be constructed. *)
Definition wf_value (v : registeredValue) : Prop :=
  (rv_constructor v = None /\ isNil (rv_value v) = false) \/
  (rv_constructor v ≠ None /\ isNil (rv_value v) = true).

Record wf_record (id : string) (r : slotRecord) : Prop := {
  wr_id : spec_id (rec_spec r) = id;
  wr_kind : spec_kind (rec_spec r) ≠ noKind;
  wr_one : spec_kind (rec_spec r) = oneKind -> length (explicit_values r) <= 1;
  wr_many : spec_kind (rec_spec r) = manyKind -> NoDup (rv_key <$> explicit_values r);
  wr_keys : spec_kind (rec_spec r) = manyKind -> Forall (fun v => validID (rv_key v) = true) (rec_values r);
  wr_values : Forall wf_value (rec_values r);
}.

(** Ordinals number the contributions 1, 2, ... as long as the 64-bit counter
    has not wrapped around. *)
Definition ordinals_ok (s : registryState) : Prop :=
  (Z.of_nat (length (all_values s)) < 2 ^ 64)%Z ->
  nextOrdinal s = Z.of_nat (length (all_values s)) /\
  rv_ordinal <$> all_values s ≡ₚ seqZ 1 (Z.of_nat (length (all_values s))).

Record wf_registry (s : registryState) : Prop := {
  ws_records : map_Forall wf_record (byID s);
  ws_ordinals : ordinals_ok s;
}.

(** [s'] extends [s] by values contributed by [owner]: no record disappears
    or changes its definition, and old values stay in front, in order. *)
Definition grows (owner : string) (o o' : option slotRecord) : Prop :=
  match o, o' with
  | o, None => o = None
  | None, Some r' => Forall (fun v => rv_owner v = owner) (rec_values r')
  | Some r, Some r' => exists new, Forall (fun v => rv_owner v = owner) new /\
      r' = SlotRecord (rec_spec r) (rec_values r ++ new)
  end.
Definition extends (owner : string) (s s' : registryState) : Prop :=
  forall id, grows owner (byID s !! id) (byID s' !! id).

Record wf_builder (b : Builder) : Prop := {
  wb_registry : wf_registry (b_state b);
  wb_ids : NoDup (im_id <$> b_modules b);
  wb_valid : Forall (fun m => validID (im_id m) = true /\ im_id m = mod_ID (im_module m) /\ im_requirements m = []) (b_modules b);
  wb_owners : Forall (fun v => rv_owner v ∈ im_id <$> b_modules b) (all_values (b_state b));
}.

(** Builders the program can construct. *)
Inductive reachable : Builder -> Prop :=
  | reachable_new : reachable NewBuilder
  | reachable_install b m : reachable b -> reachable (Install b m).1.

(** ** One contribution *)

Lemma collides_false data r :
  collides data r = false -> cd_defaulted data = false -> rv_defaulted r = false ->
  match spec_kind (cd_spec data) with oneKind => False | manyKind => rv_key r ≠ cd_key data | _ => True end.
Proof.
  unfold collides; intros H Hd Hr; rewrite Hd, Hr in H.
  destruct (spec_kind _); simpl in *; try done.
  rewrite !andb_true_r in H. by apply String.eqb_neq.
Qed.

Lemma collision_None data vs :
  collision data vs = None <-> Forall (fun r => collides data r = false) vs.
Proof.
  unfold collision; rewrite Forall_forall; split.
  - intros H r Hr; eapply find_none; [done|by apply list_elem_of_In].
  - intros H; destruct (find _ _) as [r|] eqn:E; [|done].
    apply find_some in E as [Hin Hc]. apply list_elem_of_In in Hin. by rewrite H in Hc.
Qed.

Definition new_value (owner : string) (s : registryState) (data : contributionData) : registeredValue :=
  RegisteredValue owner (cd_key data) (cd_value data) (cd_constructor data) (u64 (nextOrdinal s + 1)) (cd_defaulted data).

(** Everything a successful [apply] checked, and the registry it leaves. *)
Lemma apply_success owner s c s' :
  apply owner s c = (s', None) ->
  exists data record,
    c = Some data /\
    record = default (SlotRecord (cd_spec data) []) (byID s !! spec_id (cd_spec data)) /\
    spec_kind (rec_spec record) = spec_kind (cd_spec data) /\
    spec_valueType (rec_spec record) = spec_valueType (cd_spec data) /\
    spec_kind (cd_spec data) ≠ noKind /\
    (spec_kind (cd_spec data) = manyKind -> validID (cd_key data) = true) /\
    wf_value (new_value owner s data) /\
    Forall (fun r => collides data r = false) (rec_values record) /\
    s' = RegistryState
      (<[spec_id (cd_spec data) := SlotRecord (rec_spec record) (rec_values record ++ [new_value owner s data])]> (byID s))
      (u64 (nextOrdinal s + 1)).
Proof.
  unfold apply; destruct c as [data|]; [|done]; cbv zeta.
  remember (default (SlotRecord (cd_spec data) []) (byID s !! spec_id (cd_spec data))) as record eqn:Erec.
  destruct (bool_decide (cd_constructor data = None) && _) eqn:E1; [done|].
  destruct (negb _ && _) eqn:E2; [done|].
  destruct (bool_decide (spec_kind _ = manyKind) && _) eqn:E3; [done|].
  destruct (bool_decide (is_Some _) && _) eqn:E4; [done|].
  intros H; exists data, record.
  assert (Hsame : spec_kind (rec_spec record) = spec_kind (cd_spec data) /\
                  spec_valueType (rec_spec record) = spec_valueType (cd_spec data)).
  { subst record; destruct (byID s !! _); simpl in *; [|done]. by bool_simpl. }
  assert (Hcol : spec_kind (cd_spec data) ≠ noKind /\ Forall (fun r => collides data r = false) (rec_values record)).
  { rewrite <-collision_None.
    destruct (spec_kind (cd_spec data)) eqn:Ek, (collision data (rec_values record)) eqn:Ec; try done.
    unfold collision in Ec; apply find_some in Ec as [_ Ec]; unfold collides in Ec; by rewrite Ek in Ec. }
  destruct Hsame, Hcol as [Hk Hcol]. repeat split; try done.
  - intros Hm; rewrite Hm in E3; simpl in E3; by bool_simpl.
  - unfold wf_value, new_value; simpl.
    destruct (cd_constructor data), (isNil (cd_value data)); simpl in *; (left + right); done.
  - apply collision_None in Hcol; rewrite Hcol in H.
    destruct (spec_kind (cd_spec data)); try done; by injection H as <-.
Qed.

(** ** Counting the values of the registry *)

Lemma all_values_insert s id r n :
  all_values (RegistryState (<[id := r]> (byID s)) n) ≡ₚ
  rec_values r ++ all_values (RegistryState (delete id (byID s)) n).
Proof.
  unfold all_values; simpl. rewrite <-insert_delete_eq.
  rewrite map_to_list_insert by apply lookup_delete_eq. done.
Qed.

Lemma all_values_lookup s id r n :
  byID s !! id = Some r ->
  all_values s ≡ₚ rec_values r ++ all_values (RegistryState (delete id (byID s)) n).
Proof.
  intros H. rewrite <-all_values_insert. unfold all_values; simpl. by rewrite insert_id.
Qed.

Lemma elem_of_all_values s v :
  v ∈ all_values s <-> exists id r, byID s !! id = Some r /\ v ∈ rec_values r.
Proof.
  unfold all_values. rewrite list_elem_of_bind. split.
  - intros ([id r] & Hv & Hr%elem_of_map_to_list). eauto.
  - intros (id & r & Hr & Hv). exists (id, r). by rewrite elem_of_map_to_list.
Qed.

Lemma apply_all_values owner s data record n :
  record = default (SlotRecord (cd_spec data) []) (byID s !! spec_id (cd_spec data)) ->
  all_values (RegistryState
      (<[spec_id (cd_spec data) := SlotRecord (rec_spec record) (rec_values record ++ [new_value owner s data])]> (byID s)) n)
  ≡ₚ new_value owner s data :: all_values s.
Proof.
  intros ->. rewrite all_values_insert; simpl.
  destruct (byID s !! spec_id (cd_spec data)) as [r|] eqn:E; simpl.
  - rewrite (all_values_lookup s _ _ n E), <-app_assoc; simpl. symmetry; apply Permutation_middle.
  - rewrite delete_id by done. done.
Qed.

Lemma seqZ_push n : seqZ 1 (Z.of_nat (S n)) = seqZ 1 (Z.of_nat n) ++ [Z.of_nat n + 1]%Z.
Proof.
  replace (Z.of_nat (S n)) with (Z.of_nat n + 1)%Z by lia.
  rewrite seqZ_app by lia. simpl. by rewrite (Z.add_comm 1).
Qed.

Lemma ordinals_push s s' v :
  ordinals_ok s -> all_values s' ≡ₚ v :: all_values s ->
  nextOrdinal s' = u64 (nextOrdinal s + 1) -> rv_ordinal v = u64 (nextOrdinal s + 1) ->
  ordinals_ok s'.
Proof.
  unfold ordinals_ok; intros Ho Hall Hn Hv.
  rewrite (Permutation_length Hall); simpl length; rewrite seqZ_push; intros Hlt.
  destruct Ho as [Hnext Hp]; [lia|].
  assert (Hu : u64 (nextOrdinal s + 1) = (Z.of_nat (length (all_values s)) + 1)%Z)
    by (rewrite Hnext; apply u64_small; lia).
  rewrite Hu in Hn, Hv. split; [lia|].
  etransitivity; [by apply fmap_Permutation, Hall|]; simpl.
  rewrite Hv, Hp. apply Permutation_cons_append.
Qed.

Lemma apply_wf owner s c s' :
  wf_registry s -> apply owner s c = (s', None) -> wf_registry s'.
Proof.
  intros [Hr Ho] (data&record&->&Hrec&Hk&Ht&Hkind&Hkey&Hv&Hcol&->)%apply_success.
  assert (Hwf : wf_record (spec_id (cd_spec data)) record \/ rec_values record = [] /\ rec_spec record = cd_spec data).
  { subst record; destruct (byID s !! _) as [r|] eqn:E; simpl; [left; by apply Hr in E|by right]. }
  split; simpl.
  - apply map_Forall_insert_2; [|done].
    set (v := new_value owner s data) in *.
    assert (Hone : forall r, r ∈ explicit_values record -> collides data r = false /\ rv_defaulted r = false).
    { intros r (Hd&Hin)%list_elem_of_In%filter_In%and_comm.
      split; [by eapply Forall_forall in Hcol; [|by apply list_elem_of_In]|by destruct (rv_defaulted r)]. }
    assert (Hold : spec_id (rec_spec record) = spec_id (cd_spec data) /\ length (explicit_values record) <= 1 \/
       spec_kind (rec_spec record) ≠ oneKind).
    { destruct Hwf as [[]|[Hn Hs]]; [|left; unfold explicit_values; rewrite Hn, Hs; simpl; split; [done|lia]]. destruct (decide (spec_kind (rec_spec record) = oneKind)); naive_solver. }
    assert (Hexp : explicit_values (SlotRecord (rec_spec record) (rec_values record ++ [v])) =
       explicit_values record ++ (if cd_defaulted data then [] else [v])).
    { unfold explicit_values; simpl. rewrite List.filter_app; simpl. by destruct (cd_defaulted data). }
    split; simpl; rewrite ?Hexp.
    + destruct Hwf as [[]|[_ ->]]; done.
    + by rewrite Hk.
    + intros H1. destruct Hold as [[_ Hold]|]; [|done].
      destruct (cd_defaulted data) eqn:Ed; [by rewrite app_nil_r|].
      destruct (explicit_values record) as [|r l] eqn:El; [simpl; lia|].
      destruct (Hone r) as [Hc Hd]; [left|].
      pose proof (collides_false _ _ Hc Ed Hd) as Hf. by rewrite <-Hk, H1 in Hf.
    + intros H1. destruct (cd_defaulted data) eqn:Ed.
      { rewrite app_nil_r. destruct Hwf as [[]|[Hn _]]; [by auto|].
        unfold explicit_values; rewrite Hn. constructor. }
      rewrite fmap_app, NoDup_app; simpl. split_and!.
      * destruct Hwf as [[]|[Hn _]]; [by auto|]. unfold explicit_values; rewrite Hn. constructor.
      * intros k (r&->&Hin)%list_elem_of_fmap ?%list_elem_of_singleton.
        destruct (Hone r Hin) as [Hc Hd]. pose proof (collides_false _ _ Hc Ed Hd) as Hf.
        by rewrite <-Hk, H1 in Hf.
      * apply NoDup_singleton.
    + intros H1; apply Forall_app; split; [|apply Forall_singleton, Hkey; congruence].
      destruct Hwf as [[]|[-> _]]; [by auto|constructor].
    + apply Forall_app; split; [|by apply Forall_singleton].
      destruct Hwf as [[]|[-> _]]; [done|constructor].
  - pose proof (apply_all_values owner s data record (u64 (nextOrdinal s + 1)) Hrec) as Hall.
    eapply ordinals_push; [exact Ho|exact Hall|reflexivity|reflexivity].
Qed.

(** ** Extension *)

Lemma grows_refl owner o : grows owner o o.
Proof. destruct o as [[sp vs]|]; simpl; [|done]. exists []. by rewrite app_nil_r. Qed.

Lemma grows_trans owner o1 o2 o3 : grows owner o1 o2 -> grows owner o2 o3 -> grows owner o1 o3.
Proof.
  destruct o1 as [r1|], o2 as [r2|], o3 as [r3|]; simpl; try naive_solver.
  - intros (n&Hn&->) (n'&Hn'&->); simpl. exists (n ++ n'). by rewrite Forall_app, app_assoc.
  - intros H (n&Hn&->); simpl. by apply Forall_app.
Qed.

Lemma extends_refl owner s : extends owner s s.
Proof. intros id; apply grows_refl. Qed.
Lemma extends_trans owner s1 s2 s3 : extends owner s1 s2 -> extends owner s2 s3 -> extends owner s1 s3.
Proof. intros H1 H2 id; eapply grows_trans; [apply H1|apply H2]. Qed.

Lemma apply_extends owner s c s' : apply owner s c = (s', None) -> extends owner s s'.
Proof.
  intros (data&record&->&->&_&_&_&_&_&_&->)%apply_success id; simpl.
  destruct (decide (spec_id (cd_spec data) = id)) as [<-|Hne]; [|rewrite lookup_insert_ne by done; apply grows_refl].
  rewrite lookup_insert_eq. destruct (byID s !! _) as [r|]; simpl.
  - eexists; split; [|reflexivity]. by apply Forall_singleton.
  - by apply Forall_singleton.
Qed.

Lemma extends_owner owner s s' v :
  extends owner s s' -> v ∈ all_values s' -> v ∈ all_values s \/ rv_owner v = owner.
Proof.
  intros He (id&r'&Hr'&Hv)%elem_of_all_values. specialize (He id); rewrite Hr' in He.
  rewrite elem_of_all_values.
  destruct (byID s !! id) as [r|] eqn:Hr; simpl in He.
  - destruct He as (new&Hnew&->); simpl in Hv. apply elem_of_app in Hv as [Hv|Hv]; [left; eauto|].
    right. by eapply Forall_forall in Hnew.
  - right. by eapply Forall_forall in He.
Qed.

(** ** One registration *)

Definition registered (owner : string) (s s' : registryState) : Prop :=
  (wf_registry s -> wf_registry s') /\ extends owner s s'.

Lemma registered_refl owner s : registered owner s s.
Proof. split; [done|apply extends_refl]. Qed.
Lemma registered_trans owner s1 s2 s3 : registered owner s1 s2 -> registered owner s2 s3 -> registered owner s1 s3.
Proof. intros [? ?] [? ?]; split; [auto|by eapply extends_trans]. Qed.

Lemma apply_all_registered owner cs s s' :
  apply_all owner s cs = (s', None) -> registered owner s s'.
Proof.
  revert s; induction cs as [|c cs IH]; simpl; intros s H.
  - injection H as <-; apply registered_refl.
  - destruct (apply owner s c) as [s1 [e|]] eqn:E; [done|].
    eapply registered_trans; [|by apply IH].
    split; [intros; by eapply apply_wf|by eapply apply_extends].
Qed.

Lemma Contribute_registered r cs r' err :
  Contribute r cs = (r', err) -> reg_failed r' = None ->
  reg_failed r = None /\ reg_owner r' = reg_owner r /\ registered (reg_owner r) (reg_state r) (reg_state r').
Proof.
  unfold Contribute; intros H Hf. destruct (negb (reg_open r)).
  { injection H as <- _. split_and!; try done; apply registered_refl. }
  destruct (reg_failed r) as [e|] eqn:Ef; [injection H as <- _; congruence|].
  destruct (apply_all _ _ _) as [s e] eqn:E. injection H as <- <-; simpl in *; subst e.
  split_and!; try done. by eapply apply_all_registered.
Qed.

(** A registration that ends without a failure only performed successful
    contributions. *)
Lemma run_register_registered p r r' ret :
  run_register p r = (r', ret) -> reg_failed r' = None ->
  reg_failed r = None /\ registered (reg_owner r) (reg_state r) (reg_state r').
Proof.
  revert r; induction p as [e|cs k IH]; simpl; intros r H Hf.
  - injection H as <- _. split; [done|apply registered_refl].
  - destruct (Contribute r cs) as [r1 e] eqn:E.
    apply IH in H as [Hf1 H1]; [|done].
    apply Contribute_registered in E as (?&Ho&?); [|done]. rewrite Ho in H1.
    split; [done|by eapply registered_trans].
Qed.

(** ** Installation *)

Lemma existsb_id id (ms : list installedModule) :
  existsb (fun m => String.eqb (im_id m) id) ms = false -> id ∉ im_id <$> ms.
Proof.
  intros H (m&->&Hm)%list_elem_of_fmap. apply not_true_iff_false in H; apply H.
  apply existsb_exists; exists m; split; [by apply list_elem_of_In|by apply String.eqb_refl].
Qed.

(** A successful [Install], spelled out. *)
Lemma Install_success b m b' :
  Install b (Some m) = (b', None) ->
  validID (mod_ID m) = true /\ b_frozen b = false /\ mod_ID m ∉ im_id <$> b_modules b /\
  registered (mod_ID m) (b_state b) (b_state b') /\ b_frozen b' = false /\
  exists contributes, b_modules b' = b_modules b ++ [InstalledModule (mod_ID m) m [] contributes] /\
    contributes = bool_decide (nextOrdinal (b_state b) < nextOrdinal (b_state b'))%Z.
Proof.
  unfold Install; intros H. destruct (validID (mod_ID m)) eqn:Ev; [|done].
  destruct (b_frozen b) eqn:Ef; [done|]. destruct (existsb _ _) eqn:Ex; [done|].
  destruct (run_register _ _) as [r ret] eqn:Er. simpl in H.
  destruct ret; [done|]. destruct (reg_failed r) eqn:Erf; [done|]. injection H as <-; simpl.
  apply run_register_registered in Er as [_ Hr]; [|done].
  split_and!; [done|done|by apply existsb_id|exact Hr|done|eauto].
Qed.

Lemma Install_error_unchanged b m b' e : Install b m = (b', Some e) -> b' = b.
Proof.
  unfold Install; destruct m as [m|]; [|by intros [= <- _]]; intros H.
  destruct (negb _); [by injection H|]. destruct (b_frozen b); [by injection H|].
  destruct (existsb _ _); [by injection H|].
  destruct (run_register _ _) as [r ret]. destruct ret; [by injection H|].
  by destruct (reg_failed r); injection H.
Qed.

Lemma Install_wf b m : wf_builder b -> wf_builder (Install b m).1.
Proof.
  intros Hb. destruct (Install b m) as [b' [e|]] eqn:E; simpl.
  - by apply Install_error_unchanged in E as ->.
  - destruct m as [m|]; [|done].
    apply Install_success in E as (Hv&_&Hid&[Hwf Hext]&_&c&Hms&_).
    destruct Hb as [H1 H2 H3 H4]. split; [by auto|rewrite ?Hms, ?fmap_app..]; simpl.
    + apply NoDup_app; split_and!; [done| |apply NoDup_singleton].
      intros id Hin ->%list_elem_of_singleton. done.
    + apply Forall_app; split; [done|]. by apply Forall_singleton.
    + apply Forall_forall; intros v Hin. rewrite elem_of_app, list_elem_of_singleton.
      destruct (extends_owner _ _ _ _ Hext Hin) as [Hold| ->]; [left|by right].
      by eapply Forall_forall in H4.
Qed.

Lemma wf_NewBuilder : wf_builder NewBuilder.
Proof.
  split; simpl; try constructor; done.
Qed.

Lemma reachable_wf b : reachable b -> wf_builder b.
Proof. induction 1; [apply wf_NewBuilder|by apply Install_wf]. Qed.

End RegistryFacts.
#[export] Hint Resolve reachable_wf grows_refl extends_refl registered_refl : agentslot.

(** ** Property *)

(** C1: [Builder.Install] is a transaction.  On any builder the program can
    reach it either fails and leaves the builder exactly as it was, or it
    appends one module, only adds values owned by that module behind the
    existing ones, and keeps the registry invariant (one explicit owner per
    OneSlot and per ManySlot key, valid keys, contiguous ordinals, unique
    module IDs). *)
Theorem install_transactional `{Components} (b : Builder) (m : option Module_) (Hb : reachable b) :
  match Install b m with
  | (b', Some _) => b' = b
  | (b', None) =>
    wf_builder b' /\
    exists module contributes, m = Some module /\
      validID (mod_ID module) = true /\
      extends (mod_ID module) (b_state b) (b_state b') /\
      b_modules b' = b_modules b ++ [InstalledModule (mod_ID module) module [] contributes]
  end.
Proof.
  destruct (Install b m) as [b' [e|]] eqn:E.
  - by apply Install_error_unchanged in E.
  - split; [replace b' with (Install b m).1 by (by rewrite E); auto using Install_wf with agentslot|].
    destruct m as [m|]; [|done].
    apply Install_success in E as (Hv&_&_&[_ Hext]&_&c&Hms&_). eauto 10.
Qed.

(** ** A concrete product, for the witnesses *)
Module Sample.

(** Two component types; a value knows its type and whether it is nil. *)
#[export] Instance sample : Components := {|
  goType := string; typeString := fun t => t;
  val := string * bool; reflectIsNil := snd; hasType := fun v T => String.eqb v.1 T |}.

Definition store_slot : slotSpec := SlotSpec "job.store" oneKind (Some "JobStore").
Definition tools_slot : slotSpec := SlotSpec "tool" manyKind (Some "Tool").

Definition store_module : Module_ := MkModule "job.store.memory"
  (RegContribute [Some (SetDefault store_slot (Some ("JobStore", false)))] RegReturn) None false.
Definition tool_module : Module_ := MkModule "tool.files"
  (RegContribute [Some (Add tools_slot "read" (Some ("Tool", false)));
                  Some (Add tools_slot "write" (Some ("Tool", false)))] RegReturn) None false.
Definition builder1 : Builder := (Install NewBuilder (Some store_module)).1.

End Sample.

Lemma install_transactional_witness :
  reachable Sample.builder1 /\ wf_builder (Install Sample.builder1 (Some Sample.tool_module)).1.
Proof.
  assert (Hr : reachable Sample.builder1) by apply reachable_install, reachable_new.
  pose proof (install_transactional Sample.builder1 (Some Sample.tool_module) Hr) as H.
  split; [exact Hr|].
  assert (E : (Install Sample.builder1 (Some Sample.tool_module)).2 = None) by (vm_compute; reflexivity).
  destruct (Install Sample.builder1 (Some Sample.tool_module)) as [b' [e|]]; [discriminate E|exact (proj1 H)].
Defined.
