(* ===== verification/DefaultsFacts.v ===== *)
(** * Default selection meets its declarative specification *)

From S2P Require Import Prelude GoStrings Slots RegistryFacts.

Section DefaultsFacts.
Context {C : Components}.

(** A default is displaced by any explicit contribution to its slot, in a
    ManySlot by one with the same key. *)
Definition displaced (r : slotRecord) (v : registeredValue) : bool :=
  rv_defaulted v &&
  existsb (fun w => negb (rv_defaulted w) &&
    (negb (bool_decide (spec_kind (rec_spec r) = manyKind)) || String.eqb (rv_key w) (rv_key v))) (rec_values r).

(** The specification: drop the displaced defaults, keep the order. *)
Definition selected (r : slotRecord) : list registeredValue :=
  List.filter (fun v => negb (displaced r v)) (rec_values r).

(** The selection is ambiguous when a OneSlot, or a key of a ManySlot, is left
    with several values. *)
Definition ambiguous (r : slotRecord) : Prop :=
  match spec_kind (rec_spec r) with
  | oneKind => 1 < length (selected r)
  | manyKind => ~ NoDup (rv_key <$> selected r)
  | _ => False
  end.

Lemma filter_all {A} (f : A -> bool) l : (forall x, x ∈ l -> f x = true) -> List.filter f l = l.
Proof.
  induction l as [|x l IH]; simpl; intros H; [done|].
  rewrite H by left. f_equal. apply IH; intros; apply H; by right.
Qed.
Lemma filter_ext_elem {A} (f g : A -> bool) l : (forall x, x ∈ l -> f x = g x) -> List.filter f l = List.filter g l.
Proof.
  induction l as [|x l IH]; simpl; intros H; [done|].
  rewrite H by left. rewrite IH by (intros; apply H; by right). done.
Qed.
Lemma elem_of_lfilter {A} (f : A -> bool) l x : x ∈ List.filter f l <-> x ∈ l /\ f x = true.
Proof. by rewrite !list_elem_of_In, filter_In. Qed.

Lemma existsb_elem {A} (f : A -> bool) l : existsb f l = true <-> exists x, x ∈ l /\ f x = true.
Proof. rewrite existsb_exists. by setoid_rewrite list_elem_of_In. Qed.
Lemma existsb_false {A} (f : A -> bool) l : existsb f l = false <-> forall x, x ∈ l -> f x = false.
Proof.
  rewrite <-not_true_iff_false, existsb_elem. split.
  - intros H x Hx. apply not_true_iff_false. eauto.
  - intros H (x&Hx&E). by rewrite H in E.
Qed.

(** *** OneSlot and ChainSlot *)

Lemma explicit_selected r :
  spec_kind (rec_spec r) ≠ manyKind -> valuesByDefault (rec_values r) false ≠ [] ->
  selected r = valuesByDefault (rec_values r) false.
Proof.
  intros Hk Hne. unfold selected, valuesByDefault. apply filter_ext_elem; intros v _.
  unfold displaced. rewrite bool_decide_false by done; simpl.
  destruct (rv_defaulted v); simpl; [|done].
  destruct (valuesByDefault (rec_values r) false) as [|w l] eqn:E; [done|].
  assert (Hw : w ∈ valuesByDefault (rec_values r) false) by (rewrite E; left).
  apply elem_of_lfilter in Hw as [Hw Hd].
  apply negb_false_iff, existsb_elem. exists w. by destruct (rv_defaulted w).
Qed.

Lemma no_explicit_selected r :
  valuesByDefault (rec_values r) false = [] -> selected r = rec_values r /\ valuesByDefault (rec_values r) true = rec_values r.
Proof.
  intros E. assert (Hd : forall v, v ∈ rec_values r -> rv_defaulted v = true).
  { intros v Hv. destruct (rv_defaulted v) eqn:Ev; [done|].
    assert (Hw : v ∈ valuesByDefault (rec_values r) false) by by apply elem_of_lfilter; rewrite Ev.
    rewrite E in Hw. by apply not_elem_of_nil in Hw. }
  split; apply filter_all; intros v Hv.
  - apply negb_true_iff, andb_false_iff; right. apply existsb_false; intros w Hw. by rewrite Hd.
  - by rewrite Hd.
Qed.

Lemma explicit_values_valuesByDefault r : explicit_values r = valuesByDefault (rec_values r) false.
Proof. apply filter_ext_elem; intros v _. by destruct (rv_defaulted v). Qed.

(** *** ManySlot *)

Lemma elem_of_explicitKeys vs k :
  k ∈ explicitKeys vs <-> exists v, v ∈ vs /\ rv_defaulted v = false /\ rv_key v = k.
Proof.
  unfold explicitKeys.
  enough (forall acc : gset string, k ∈ foldl (fun keys v => if rv_defaulted v then keys else {[rv_key v]} ∪ keys) acc vs <->
    k ∈ acc \/ exists v, v ∈ vs /\ rv_defaulted v = false /\ rv_key v = k) as He by (rewrite He; set_solver).
  induction vs as [|v vs IH]; simpl; intros acc.
  { split; [by left|]. intros [?|(v&Hv&_)]; [done|]. by apply not_elem_of_nil in Hv. }
  rewrite IH. destruct (rv_defaulted v) eqn:Ev; [|rewrite elem_of_union, elem_of_singleton].
  - setoid_rewrite elem_of_cons. split; [naive_solver|]. intros [?|(w&[->|Hw]&Hd&Hk)]; [by left|congruence|eauto].
  - setoid_rewrite elem_of_cons. split; [|naive_solver]. intros [[->|?]|?]; [right; eauto|by left|naive_solver].
Qed.

Definition default_with_key (k : string) (v : registeredValue) : bool := rv_defaulted v && String.eqb (rv_key v) k.

Lemma lookup_defaultCounts vs k :
  default 0%Z (defaultCounts vs !! k) = Z.of_nat (length (List.filter (default_with_key k) vs)).
Proof.
  unfold defaultCounts.
  enough (forall acc : gmap string Z, default 0%Z (foldl (fun counts v => if rv_defaulted v
      then <[rv_key v := (default 0 (counts !! rv_key v) + 1)%Z]> counts else counts) acc vs !! k) =
    (default 0 (acc !! k) + Z.of_nat (length (List.filter (default_with_key k) vs)))%Z) as He
    by (rewrite He, lookup_empty; simpl; lia).
  induction vs as [|v vs IH]; cbn [foldl List.filter]; intros acc; [simpl; lia|].
  rewrite IH. unfold default_with_key at 2. destruct (rv_defaulted v); cbn [andb]; [|done].
  destruct (String.eqb_spec (rv_key v) k) as [<-|Hne].
  - rewrite lookup_insert_eq; simpl. lia.
  - by rewrite lookup_insert_ne.
Qed.

Lemma NoDup_by_key {A} (f : A -> string) (l : list A) :
  NoDup (f <$> l) <-> forall k, length (List.filter (fun v => String.eqb (f v) k) l) <= 1.
Proof.
  induction l as [|v l IH]; simpl.
  - split; [intros _ k; simpl; lia|constructor].
  - rewrite NoDup_cons, IH. split.
    + intros [Hn H] k. destruct (String.eqb_spec (f v) k) as [<-|]; [|done]. simpl.
      destruct (List.filter _ l) as [|w ws] eqn:E; simpl; [lia|]. exfalso; apply Hn.
      assert (Hw : w ∈ List.filter (fun w => String.eqb (f w) (f v)) l) by (rewrite E; left).
      apply elem_of_lfilter in Hw as [Hw Hk]. bool_simpl. rewrite <-Hk. by apply list_elem_of_fmap_2.
    + intros H; split.
      * intros (w&Hk&Hw)%list_elem_of_fmap. specialize (H (f v)). rewrite String.eqb_refl in H. simpl in H.
        assert (Hin : w ∈ List.filter (fun w => String.eqb (f w) (f v)) l).
        { apply elem_of_lfilter. by rewrite Hk, String.eqb_refl. }
        destruct (List.filter _ l); [by apply not_elem_of_nil in Hin|simpl in H; lia].
      * intros k; specialize (H k). destruct (String.eqb _ _); simpl in H; lia.
Qed.

Lemma lfilter_comp {A} (f g : A -> bool) l : List.filter f (List.filter g l) = List.filter (fun x => g x && f x) l.
Proof. induction l as [|x l IH]; simpl; [done|]. destruct (g x); simpl; by rewrite IH. Qed.

Lemma displaced_many r v :
  spec_kind (rec_spec r) = manyKind ->
  displaced r v = rv_defaulted v && bool_decide (rv_key v ∈ explicitKeys (rec_values r)).
Proof.
  intros Hk. unfold displaced. rewrite bool_decide_true by done; simpl. f_equal.
  apply eq_bool_prop_intro. rewrite !Is_true_true, existsb_elem, bool_decide_eq_true, elem_of_explicitKeys.
  split; intros (w&Hw&H); exists w.
  - bool_simpl. split_and!; [done| |done]. by destruct (rv_defaulted w).
  - destruct H as [-> ->]. by rewrite String.eqb_refl.
Qed.

(** Within one key the selection is either the explicit values or, when there
    are none, the defaults. *)
Lemma selected_key r k :
  spec_kind (rec_spec r) = manyKind ->
  List.filter (fun v => String.eqb (rv_key v) k) (selected r) =
  if bool_decide (k ∈ explicitKeys (rec_values r))
  then List.filter (fun v => String.eqb (rv_key v) k) (explicit_values r)
  else List.filter (default_with_key k) (rec_values r).
Proof.
  intros Hk. unfold selected, explicit_values. rewrite !lfilter_comp.
  case_bool_decide as Hex; rewrite ?lfilter_comp; apply filter_ext_elem; intros v Hv; rewrite (displaced_many r v Hk); unfold default_with_key.
  - destruct (String.eqb_spec (rv_key v) k) as [->|]; rewrite ?andb_false_r, ?andb_true_r; [|done].
    rewrite bool_decide_true by done. by rewrite andb_true_r.
  - destruct (String.eqb_spec (rv_key v) k) as [Heq|]; rewrite ?andb_false_r, ?andb_true_r; [|done].
    rewrite Heq, bool_decide_false by done. rewrite andb_false_r; simpl.
    destruct (rv_defaulted v) eqn:Ed; [done|]. exfalso; apply Hex, elem_of_explicitKeys. eauto.
Qed.

Lemma selected_many_ok r :
  spec_kind (rec_spec r) = manyKind -> NoDup (rv_key <$> explicit_values r) ->
  NoDup (rv_key <$> selected r) <->
  forall k, k ∉ explicitKeys (rec_values r) -> length (List.filter (default_with_key k) (rec_values r)) <= 1.
Proof.
  intros Hk Hex. rewrite NoDup_by_key. rewrite NoDup_by_key in Hex. split.
  - intros H k Hn. specialize (H k). by rewrite (selected_key r k Hk), bool_decide_false in H.
  - intros H k. rewrite (selected_key r k Hk). case_bool_decide; auto.
Qed.

(** ** The implementation computes the specification *)

Lemma resolveRecordDefaults_spec id r :
  wf_record id r ->
  match resolveRecordDefaults r with
  | Ok vs => vs = selected r /\ ~ ambiguous r
  | Err _ => ambiguous r
  | Panic _ => False
  end.
Proof.
  intros Hwf. pose proof (wr_kind _ _ Hwf) as Hkind. pose proof (wr_one _ _ Hwf) as Hone. pose proof (wr_many _ _ Hwf) as Hmany.
  rewrite explicit_values_valuesByDefault in Hone, Hmany.
  unfold resolveRecordDefaults, ambiguous.
  destruct (spec_kind (rec_spec r)) eqn:Hk; [done|..].
  - destruct (valuesByDefault (rec_values r) false) as [|v l] eqn:E.
    + destruct (no_explicit_selected r E) as [Hs Hd]. rewrite Hs, Hd.
      destruct (rec_values r) as [|d0 [|d1 ds]]; simpl; (split; [done|lia]) || lia.
    + rewrite explicit_selected by (rewrite ?E, ?Hk; done). rewrite E. split; [done|].
      specialize (Hone eq_refl). simpl in *. lia.
  - unfold resolveManyDefaults. destruct (existsb _ _) eqn:Ex.
    + rewrite selected_many_ok by (rewrite ?explicit_values_valuesByDefault; auto).
      apply existsb_elem in Ex as ([k n]&Hin%elem_of_map_to_list&Hb). bool_simpl.
      pose proof (lookup_defaultCounts (rec_values r) k) as Hc. rewrite Hin in Hc; simpl in Hc.
      intros Hno. specialize (Hno k ltac:(done)). lia.
    + split; [apply filter_ext_elem; intros; by rewrite displaced_many|].
      intros Hno; apply Hno. rewrite selected_many_ok by (rewrite ?explicit_values_valuesByDefault; auto).
      intros k Hn. pose proof (lookup_defaultCounts (rec_values r) k) as Hc.
      destruct (defaultCounts (rec_values r) !! k) as [n|] eqn:Hl; simpl in Hc; [|lia].
      apply existsb_false with (x := (k, n)) in Ex; [|by apply elem_of_map_to_list].
      apply andb_false_iff in Ex as [Ex|Ex]; bool_simpl; [lia|done].
  - destruct (valuesByDefault (rec_values r) false) as [|v l] eqn:E.
    + destruct (no_explicit_selected r E) as [Hs Hd]. rewrite Hs, Hd. split; [done|tauto].
    + rewrite explicit_selected by (rewrite ?E, ?Hk; done). rewrite E. split; [done|tauto].
Qed.

Lemma elem_of_sorted_ids s id : id ∈ sorted_ids s <-> is_Some (byID s !! id).
Proof.
  unfold sorted_ids. rewrite merge_sort_Permutation, list_elem_of_fmap. split.
  - intros ([i r]&->&H%elem_of_map_to_list). eauto.
  - intros [r Hr]. exists (id, r). by rewrite elem_of_map_to_list.
Qed.

Definition select_record (r : slotRecord) : slotRecord := SlotRecord (rec_spec r) (selected r).

Lemma resolve_loop s ids acc :
  wf_registry s -> (forall id, id ∈ ids -> is_Some (byID s !! id)) ->
  match foldM (fun resolved id =>
    match byID s !! id with
    | None => Ok resolved
    | Some record =>
      values ← resolveRecordDefaults record;
      Ok (RegistryState (<[id := SlotRecord (rec_spec record) values]> (byID resolved)) (nextOrdinal resolved))
    end) ids acc with
  | Ok s' => nextOrdinal s' = nextOrdinal acc /\ (forall id r, id ∈ ids -> byID s !! id = Some r -> ~ ambiguous r) /\
      forall id, byID s' !! id = if bool_decide (id ∈ ids) then select_record <$> byID s !! id else byID acc !! id
  | Err _ => exists id r, byID s !! id = Some r /\ ambiguous r
  | Panic _ => False
  end.
Proof.
  intros Hwf. revert acc; induction ids as [|id ids IH]; simpl; intros acc Hin.
  - split_and!; [done|by intros ?? ?%not_elem_of_nil|done].
  - destruct (Hin id) as [r Hr]; [left|]. rewrite Hr.
    pose proof (resolveRecordDefaults_spec id r (ws_records _ Hwf _ _ Hr)) as Hs.
    destruct (resolveRecordDefaults r) as [vs|e|]; simpl; [|eauto|done].
    destruct Hs as [-> Hna].
    set (acc' := RegistryState _ _). specialize (IH acc' ltac:(intros; apply Hin; by right)).
    destruct (foldM _ ids acc') as [s'|e|]; [|done..]. destruct IH as (H1&H2&H3). split_and!; [done|..].
    + intros id' r' [->|Hi]%elem_of_cons Hr'; [|by eauto]. by simplify_eq.
    + intros id'. rewrite H3. destruct (decide (id' = id)) as [->|Hne].
      * rewrite (bool_decide_true (id ∈ id :: ids)) by left. case_bool_decide; [done|].
        unfold acc'; simpl. by rewrite lookup_insert_eq, Hr.
      * unfold acc'; simpl. rewrite lookup_insert_ne by done.
        rewrite (bool_decide_ext (id' ∈ id :: ids) (id' ∈ ids)); [done|]. rewrite elem_of_cons; naive_solver.
Qed.

Lemma resolveDefaultContributions_spec s :
  wf_registry s ->
  match resolveDefaultContributions s with
  | Ok s' => nextOrdinal s' = nextOrdinal s /\ (forall id, byID s' !! id = select_record <$> byID s !! id) /\
      forall id r, byID s !! id = Some r -> ~ ambiguous r
  | Err _ => exists id r, byID s !! id = Some r /\ ambiguous r
  | Panic _ => False
  end.
Proof.
  intros Hwf. unfold resolveDefaultContributions.
  pose proof (resolve_loop s (sorted_ids s) (RegistryState ∅ (nextOrdinal s)) Hwf) as H.
  destruct (foldM _ _ _) as [s'|e|]; [|apply H; intros; by apply elem_of_sorted_ids..].
  destruct H as (H1&H2&H3); [intros; by apply elem_of_sorted_ids|]. split_and!; [done|..].
  - intros id. rewrite H3. case_bool_decide as Hid; [done|]. rewrite elem_of_sorted_ids in Hid.
    simpl. rewrite lookup_empty. destruct (byID s !! id); [|done]. by destruct Hid.
  - intros id r Hr. apply (H2 id); [|done]. apply elem_of_sorted_ids. eauto.
Qed.

(** The selected registry keeps the record invariant, and its slots hold at
    most one value, or one value per key. *)
Definition resolved_record (r : slotRecord) : Prop :=
  (spec_kind (rec_spec r) = oneKind -> length (rec_values r) <= 1) /\
  (spec_kind (rec_spec r) = manyKind -> NoDup (rv_key <$> rec_values r)).

Lemma select_resolved r : ~ ambiguous r -> resolved_record (select_record r).
Proof.
  unfold ambiguous, resolved_record; simpl; intros H. split; intros Hk; rewrite Hk in H; [lia|].
  destruct (decide (NoDup (rv_key <$> selected r))); [done|]. by destruct H.
Qed.

(** ** Property *)

(** C2: default selection computes its specification.  For every reachable
    builder, [resolveDefaultContributions] succeeds exactly when no OneSlot and
    no ManySlot key is left with several defaults, and then every slot holds
    its contributions minus the displaced defaults, in registration order: an
    explicit contribution wins whatever the installation order, and at most one
    value per OneSlot and per ManySlot key survives. *)
Theorem resolveDefaultContributions_selects (b : Builder) (Hb : reachable b) :
  match resolveDefaultContributions (b_state b) with
  | Ok s' =>
    (forall id, byID s' !! id = select_record <$> byID (b_state b) !! id) /\
    map_Forall (fun _ r => resolved_record r) (byID s')
  | Err _ => exists id r, byID (b_state b) !! id = Some r /\ ambiguous r
  | Panic _ => False
  end.
Proof.
  pose proof (resolveDefaultContributions_spec (b_state b) (wb_registry _ (reachable_wf _ Hb))) as H.
  destruct (resolveDefaultContributions _) as [s'| |]; [|done..]. destruct H as (_&Hsel&Hna).
  split; [done|]. intros id r'. rewrite Hsel, fmap_Some. intros (r&Hr&->). by apply select_resolved, (Hna id).
Qed.

End DefaultsFacts.

(** An explicit store displaces the default installed before it. *)
Definition explicit_store_module : Module_ := MkModule "job.store.sql"
  (RegContribute [Some (Set_ Sample.store_slot (Some ("JobStore", false)))] RegReturn) None false.

Lemma resolveDefaultContributions_selects_witness :
  exists s', resolveDefaultContributions (b_state (Install Sample.builder1 (Some explicit_store_module)).1) = Ok s' /\
    rv_owner <$> (default (SlotRecord Sample.store_slot []) (byID s' !! "job.store")).(rec_values) = ["job.store.sql"] /\
    map_Forall (fun _ r => resolved_record r) (byID s').
Proof.
  pose proof (resolveDefaultContributions_selects (Install Sample.builder1 (Some explicit_store_module)).1) as H.
  specialize (H (reachable_install _ _ (reachable_install _ _ reachable_new))).
  eexists. split; [vm_compute; reflexivity|]. split; [vm_compute; reflexivity|].
  exact (proj2 H).
Defined.
