(* ===== verification/DependencyFacts.v ===== *)
(** * The lifecycle order is a topological order

    Kahn's algorithm of [orderModules]: graph construction, emission, and the
    equivalence of failure with the existence of a dependency cycle. *)

From S2P Require Import Prelude GoStrings Slots Dependency RegistryFacts DefaultsFacts.
From stdpp Require Import relations fin_sets.

(** ** Counting with [find] and [filter] over indices *)
Section Counting.

Definition count (f : nat -> bool) (n : nat) : nat := length (List.filter f (seq 0 n)).

Lemma elem_of_lseq i n : i ∈ seq 0 n <-> i < n.
Proof. rewrite elem_of_seq. lia. Qed.

Lemma count_zero f n : count f n = 0 <-> forall i, i < n -> f i = false.
Proof.
  unfold count. rewrite length_zero_iff_nil. split.
  - intros H i Hi. destruct (f i) eqn:E; [|done].
    assert (Hin : i ∈ List.filter f (seq 0 n)) by (apply elem_of_lfilter; by rewrite elem_of_lseq).
    rewrite H in Hin. by apply not_elem_of_nil in Hin.
  - intros H. destruct (List.filter f (seq 0 n)) as [|i l] eqn:E; [done|].
    assert (Hin : i ∈ List.filter f (seq 0 n)) by (rewrite E; left).
    apply elem_of_lfilter in Hin as [Hi Hf]. apply elem_of_lseq in Hi. by rewrite H in Hf.
Qed.

Lemma count_ext f g n : (forall i, i < n -> f i = g i) -> count f n = count g n.
Proof. intros H. unfold count. f_equal. apply filter_ext_elem. intros i Hi%elem_of_lseq. auto. Qed.

(** Turning one index from [false] to [true] adds one. *)
Lemma count_flip f g n p :
  p < n -> f p = false -> g p = true -> (forall i, i ≠ p -> g i = f i) -> count g n = S (count f n).
Proof.
  intros Hp Hf Hg Heq. unfold count.
  assert (Hsplit : seq 0 n = seq 0 p ++ p :: seq (S p) (n - S p)).
  { replace n with (p + S (n - S p)) at 1 by lia. by rewrite seq_app. }
  rewrite Hsplit, !List.filter_app; simpl. rewrite Hf, Hg, !length_app. simpl.
  rewrite (filter_ext_elem g f (seq 0 p)), (filter_ext_elem g f (seq (S p) _)); [lia|..];
    intros i Hi%elem_of_seq; apply Heq; lia.
Qed.

End Counting.

Section DependencyFacts.
Context {C : Components}.

(** ** Graphs *)
Definition edge (g : graph) (p c : nat) : Prop := c ∈ (edges g !!! p : gset nat).
Definition edgeb (es : list (gset nat)) (p c : nat) : bool := bool_decide (c ∈ (es !!! p : gset nat)).

Record wf_graph (n : nat) (g : graph) : Prop := {
  wg_edges : length (edges g) = n;
  wg_degrees : length (indegree g) = n;
  wg_range : forall p c, edge g p c -> p < n /\ c < n /\ p ≠ c;
  wg_count : forall c, c < n -> (indegree g !!! c : Z) = Z.of_nat (count (fun p => edgeb (edges g) p c) n);
}.

Lemma add_edge_edge n p c g p' c' :
  wf_graph n g -> p < n -> edge (add_edge p c g) p' c' <-> edge g p' c' \/ (p ≠ c /\ p' = p /\ c' = c).
Proof.
  intros Hg Hp. unfold add_edge. case_bool_decide as Hpc; [naive_solver|].
  case_bool_decide as Hin; [unfold edge; naive_solver|]. unfold edge; simpl.
  destruct (decide (p' = p)) as [->|Hne].
  - rewrite list_lookup_total_alter_eq by (rewrite (wg_edges _ _ Hg); done). set_solver.
  - rewrite list_lookup_total_alter_ne by done. naive_solver.
Qed.

Lemma add_edge_wf n p c g : wf_graph n g -> p < n -> c < n -> wf_graph n (add_edge p c g).
Proof.
  intros Hg Hp Hc. pose proof (fun p' c' => add_edge_edge n p c g p' c' Hg Hp) as Hedge.
  destruct (Hg) as [Hle Hld Hr Hcount]. split.
  - unfold add_edge. by repeat case_bool_decide; simpl; rewrite ?length_alter.
  - unfold add_edge. by repeat case_bool_decide; simpl; rewrite ?length_alter.
  - intros p' c' [He|(?&->&->)]%Hedge; [auto|done].
  - intros c' Hc'. assert (He : forall p', edgeb (edges (add_edge p c g)) p' c' = edgeb (edges g) p' c' || bool_decide (p ≠ c /\ p' = p /\ c' = c)).
    { intros p'. unfold edgeb. apply eq_bool_prop_intro. rewrite orb_True, !bool_decide_spec. apply Hedge. }
    destruct (decide (p ≠ c /\ c ∉ (edges g !!! p : gset nat))) as [[Hpc Hnin]|Hno].
    + unfold add_edge at 1. rewrite bool_decide_false, bool_decide_false by done; simpl.
      destruct (decide (c' = c)) as [->|Hne].
      * rewrite list_lookup_total_alter_eq by (rewrite Hld; done). rewrite Hcount by done.
        rewrite (count_flip (fun p' => edgeb (edges g) p' c) (fun p' => edgeb (edges (add_edge p c g)) p' c) n p Hp); [lia|..].
        -- by apply bool_decide_false.
        -- rewrite He. apply orb_true_iff; right. by apply bool_decide_true.
        -- intros i Hi. rewrite He, (bool_decide_false (_ /\ _)) by naive_solver. by rewrite orb_false_r.
      * rewrite list_lookup_total_alter_ne by done. rewrite Hcount by done. f_equal. apply count_ext.
        intros i _. rewrite He, (bool_decide_false (_ /\ _)) by naive_solver. by rewrite orb_false_r.
    + assert (add_edge p c g = g) as ->.
      { unfold add_edge. case_bool_decide; [done|]. case_bool_decide; [done|]. naive_solver. }
      auto.
Qed.

(** ** Construction *)

(** Module [c] requires a value owned by module [p]. *)
Definition requires (s : registryState) (ms : list installedModule) (c p : nat) : Prop :=
  exists mc reqs r vs v, ms !! c = Some mc /\ mod_requires (im_module mc) = Some reqs /\ r ∈ reqs /\
    resolveRequirement s r = Ok vs /\ v ∈ vs /\ ownerIndex ms !! rv_owner v = Some p.

Lemma ownerIndex_from_None i ms id : id ∉ im_id <$> ms -> ownerIndex_from i ms !! id = None.
Proof.
  revert i; induction ms as [|m ms IH]; intros i; simpl; [by rewrite lookup_empty|].
  intros [Hne Hn]%not_elem_of_cons. destruct (ownerIndex_from (S i) ms !! im_id m); [by apply IH|].
  rewrite lookup_insert_ne by done. by apply IH.
Qed.

Lemma ownerIndex_from_lookup i ms id p :
  NoDup (im_id <$> ms) ->
  ownerIndex_from i ms !! id = Some p <-> i <= p /\ im_id <$> ms !! (p - i) = Some id.
Proof.
  revert i; induction ms as [|m ms IH]; intros i Hnd; simpl.
  - rewrite lookup_empty. by destruct (p - i); naive_solver.
  - apply NoDup_cons in Hnd as [Hn Hnd]. specialize (IH (S i) Hnd).
    rewrite ownerIndex_from_None by done. destruct (decide (im_id m = id)) as [<-|Hne].
    + rewrite lookup_insert_eq. split.
      * intros [= <-]. by rewrite Nat.sub_diag.
      * intros [Hle Hl]. destruct (p - i) as [|k] eqn:Ek; [f_equal; lia|]. simpl in Hl.
        exfalso; apply Hn. apply fmap_Some in Hl as (m'&Hm'&->). apply list_elem_of_fmap_2. by eapply list_elem_of_lookup_2.
    + rewrite lookup_insert_ne, IH by done. split; intros [Hle Hl].
      * split; [lia|]. by replace (p - i) with (S (p - S i)) by lia.
      * destruct (p - i) as [|k] eqn:Ek; simpl in Hl; [naive_solver|].
        split; [lia|]. by replace (p - S i) with k by lia.
Qed.

Lemma ownerIndex_lookup ms id p :
  NoDup (im_id <$> ms) -> ownerIndex ms !! id = Some p <-> im_id <$> ms !! p = Some id.
Proof.
  intros Hnd. unfold ownerIndex. rewrite ownerIndex_from_lookup, Nat.sub_0_r by done.
  split; [naive_solver|]. split; [lia|done].
Qed.

(** The graph after some of the links: [R] are the dependencies linked. *)
Definition linked (n : nat) (R : nat -> nat -> Prop) (g : graph) : Prop :=
  wf_graph n g /\ forall p c, edge g p c <-> p ≠ c /\ R c p.

Lemma linked_add n R p c g :
  linked n R g -> p < n -> c < n -> linked n (fun c' p' => R c' p' \/ (c' = c /\ p' = p)) (add_edge p c g).
Proof.
  intros [Hg He] Hp Hc. split; [by apply add_edge_wf|].
  intros p' c'. rewrite (add_edge_edge n) by done. rewrite He. naive_solver.
Qed.

Lemma linked_ext n R R' g : (forall c p, R c p <-> R' c p) -> linked n R g -> linked n R' g.
Proof. intros HR [Hg He]. split; [done|]. intros p c. by rewrite He, HR. Qed.

Lemma link_providers n owner id c vs R g g' :
  linked n R g -> c < n -> (forall k p, owner !! k = Some p -> p < n) ->
  foldM (link_provider owner id c) vs g = Ok g' ->
  linked n (fun c' p => R c' p \/ (c' = c /\ exists v, v ∈ vs /\ owner !! rv_owner v = Some p)) g' /\
  forall v, v ∈ vs -> is_Some (owner !! rv_owner v).
Proof.
  intros Hl Hc Ho. revert R g Hl; induction vs as [|v vs IH]; simpl; intros R g Hl H.
  - injection H as <-. split; [|by intros ? ?%not_elem_of_nil]. eapply linked_ext; [|done].
    intros c' p. split; [by left|]. intros [?|(_&v&Hv&_)]; [done|]. by apply not_elem_of_nil in Hv.
  - apply bind_Ok in H as (g1&Hv&H). unfold link_provider in Hv.
    destruct (owner !! rv_owner v) as [p|] eqn:Ep; [|done]. injection Hv as <-.
    destruct (IH _ _ (linked_add n R p c g Hl (Ho _ _ Ep) Hc) H) as [Hl' Hsome]. split.
    + eapply linked_ext; [|exact Hl']. intros c' p'. setoid_rewrite elem_of_cons. split.
      * intros [[?|[-> ->]]|(->&v'&?&?)]; [by left|right; split; [done|]..]; [exists v; auto|exists v'; auto].
      * intros [?|(->&v'&[->|?]&Hp')]; [by left; left|left; right; by simplify_eq|right; split; [done|]; by exists v'].
    + intros v' [->|Hv']%elem_of_cons; [eauto|auto].
Qed.

Lemma link_requirements n s owner id c reqs R g g' :
  linked n R g -> c < n -> (forall k p, owner !! k = Some p -> p < n) ->
  foldM (link_requirement s owner id c) reqs g = Ok g' ->
  linked n (fun c' p => R c' p \/ (c' = c /\ exists r vs v, r ∈ reqs /\ resolveRequirement s r = Ok vs /\
    v ∈ vs /\ owner !! rv_owner v = Some p)) g' /\
  forall r, r ∈ reqs -> exists vs, resolveRequirement s r = Ok vs /\ forall v, v ∈ vs -> is_Some (owner !! rv_owner v).
Proof.
  intros Hl Hc Ho. revert R g Hl; induction reqs as [|r reqs IH]; simpl; intros R g Hl H.
  - injection H as <-. split; [|by intros ? ?%not_elem_of_nil]. eapply linked_ext; [|done].
    intros c' p. split; [by left|]. intros [?|(_&r&vs&v&Hr&_)]; [done|]. by apply not_elem_of_nil in Hr.
  - apply bind_Ok in H as (g1&Hr&H). unfold link_requirement in Hr. inv_ok.
    destruct (link_providers n owner id c _ R g g1 Hl Hc Ho ltac:(done)) as [Hl1 Hs1].
    destruct (IH _ _ Hl1 H) as [Hl2 Hs2]. split.
    + eapply linked_ext; [|exact Hl2]. intros c' p'. setoid_rewrite elem_of_cons. split.
      * intros [[?|(->&v&?&?)]|(->&r'&vs&v&?&?&?&?)]; [by left|right; split; [done|]..]; [exists r, x, v; auto|exists r', vs, v; auto].
      * intros [?|(->&r'&vs&v&[->|?]&Hvs&?&?)]; [by left; left|left; right|right]; (split; [done|]); [exists v; split; [congruence|done]|exists r', vs, v; auto].
    + intros r' [->|Hr']%elem_of_cons; [eauto|auto].
Qed.

Lemma foldM_link_modules n s ms owner i g g' R :
  linked n R g -> i + length ms <= n -> (forall k p, owner !! k = Some p -> p < n) ->
  foldM (link_module s owner) (imap (fun j m => (i + j, m)) ms) g = Ok g' ->
  linked n (fun c p => R c p \/ exists j mc reqs r vs v, c = i + j /\ ms !! j = Some mc /\
    mod_requires (im_module mc) = Some reqs /\ r ∈ reqs /\ resolveRequirement s r = Ok vs /\
    v ∈ vs /\ owner !! rv_owner v = Some p) g' /\
  forall mc reqs r, mc ∈ ms -> mod_requires (im_module mc) = Some reqs -> r ∈ reqs ->
    exists vs, resolveRequirement s r = Ok vs /\ forall v, v ∈ vs -> is_Some (owner !! rv_owner v).
Proof.
  intros Hl Hn Ho. revert i R g Hl Hn; induction ms as [|m ms IH]; simpl; intros i R g Hl Hn H.
  - injection H as <-. split; [|by intros ??? ?%not_elem_of_nil]. eapply linked_ext; [|done].
    intros c p. split; [by left|]. intros [?|(j&mc&?)]; [done|]. naive_solver.
  - apply bind_Ok in H as (g1&Hm&H). unfold link_module in Hm; simpl in Hm.
    replace (imap _ ms) with (imap (fun j m => (S i + j, m)) ms) in H by (apply imap_ext; intros; simpl; f_equal; lia).
    rewrite Nat.add_0_r in Hm.
    assert (Hstep : linked n (fun c p => R c p \/ (c = i /\ exists reqs r vs v, mod_requires (im_module m) = Some reqs /\ r ∈ reqs /\
        resolveRequirement s r = Ok vs /\ v ∈ vs /\ owner !! rv_owner v = Some p)) g1 /\
      forall reqs r, mod_requires (im_module m) = Some reqs -> r ∈ reqs ->
        exists vs, resolveRequirement s r = Ok vs /\ forall v, v ∈ vs -> is_Some (owner !! rv_owner v)).
    { destruct (mod_requires (im_module m)) as [reqs|] eqn:Er.
      - destruct (link_requirements n s owner _ i reqs R g g1 Hl ltac:(lia) Ho Hm) as [Hl1 Hs]. split.
        + eapply linked_ext; [|exact Hl1]. intros c p. split.
          * intros [?|(->&r&vs&v&?)]; [by left|right; split; [done|]; by exists reqs, r, vs, v].
          * intros [?|(->&reqs'&r&vs&v&[= <-]&?)]; [by left|right; split; [done|]; by exists r, vs, v].
        + intros reqs' r [= <-]. auto.
      - injection Hm as <-. split; [|done]. eapply linked_ext; [|done].
        intros c p. split; [by left|]. intros [?|(_&?&?&?&?&[=]&_)]; done. }
    destruct Hstep as [Hl1 Hs1]. destruct (IH (S i) _ _ Hl1 ltac:(lia) H) as [Hl2 Hs2]. split.
    + eapply linked_ext; [|exact Hl2]. intros c p. split.
      * intros [[?|(->&reqs&r&vs&v&?)]|(j&mc&reqs&r&vs&v&->&?)]; [by left|right..].
        -- exists 0, m, reqs, r, vs, v. by rewrite Nat.add_0_r.
        -- exists (S j), mc, reqs, r, vs, v. split; [lia|done].
      * intros [?|(j&mc&reqs&r&vs&v&->&Hmc&?)]; [by left; left|]. destruct j as [|j].
        -- left; right. injection Hmc as ->. split; [lia|]. by exists reqs, r, vs, v.
        -- right. exists j, mc, reqs, r, vs, v. split; [lia|done].
    + intros mc reqs r [->|Hmc]%elem_of_cons; eauto.
Qed.

Lemma empty_graph_edge n d p c : ~ edge (Graph (replicate n ∅) d) p c.
Proof.
  unfold edge; simpl. destruct (decide (p < n)); [rewrite lookup_total_replicate_2 by done; set_solver|].
  rewrite list_lookup_total_alt, lookup_ge_None_2 by (rewrite length_replicate; lia). simpl. set_solver.
Qed.

Lemma build_graph_spec s ms g :
  NoDup (im_id <$> ms) -> build_graph s ms = Ok g ->
  linked (length ms) (requires s ms) g /\
  forall mc reqs r, mc ∈ ms -> mod_requires (im_module mc) = Some reqs -> r ∈ reqs ->
    exists vs, resolveRequirement s r = Ok vs /\ forall v, v ∈ vs -> rv_owner v ∈ im_id <$> ms.
Proof.
  intros Hnd H. unfold build_graph, indexed in H.
  assert (Ho : forall k p, ownerIndex ms !! k = Some p -> p < length ms).
  { intros k p. rewrite ownerIndex_lookup by done. intros (m&Hm&_)%fmap_Some. by eapply lookup_lt_Some. }
  edestruct (foldM_link_modules (length ms) s ms (ownerIndex ms) 0) with (R := fun _ _ : nat => False) as [Hl Hs]; [| |exact Ho|exact H|].
  - split; [split; simpl; rewrite ?length_replicate; try done|].
    + intros p c He. by apply empty_graph_edge in He.
    + intros c Hc. rewrite lookup_total_replicate_2 by done. symmetry.
      replace (count _ _) with 0; [done|]. symmetry; apply count_zero. intros i Hi. apply bool_decide_false.
      apply (empty_graph_edge (length ms) []).
    + intros p c. split; [intros He; by apply empty_graph_edge in He|tauto].
  - lia.
  - split.
    + eapply linked_ext; [|exact Hl]. intros c p. unfold requires. split.
      * intros [[]|(j&mc&reqs&r&vs&v&->&?)]. exists mc, reqs, r, vs, v. done.
      * intros (mc&reqs&r&vs&v&?). right. by exists c, mc, reqs, r, vs, v.
    + intros mc reqs r Hmc Hr Hin. destruct (Hs mc reqs r Hmc Hr Hin) as (vs&Hvs&Hown). exists vs. split; [done|].
      intros v Hv. destruct (Hown v Hv) as [p Hp]. rewrite ownerIndex_lookup in Hp by done.
      apply fmap_Some in Hp as (m&Hm&->). apply list_elem_of_fmap_2. by eapply list_elem_of_lookup_2.
Qed.

(** ** Emission *)

(** Remaining providers of [c]. *)
Definition waiting (g : graph) (emitted : list bool) (c : nat) : nat -> bool :=
  fun p => edgeb (edges g) p c && negb (emitted !!! p : bool).

(** Every provider of an emitted index was emitted before it. *)
Definition respects (g : graph) (order : list nat) : Prop :=
  forall l1 i l2, order = l1 ++ i :: l2 -> forall p, edge g p i -> p ∈ l1.

Record emitting (n : nat) (g : graph) (degrees : list Z) (emitted : list bool) (ordered : list nat) : Prop := {
  em_degrees : length degrees = n;
  em_emitted : length emitted = n;
  em_nodup : NoDup ordered;
  em_ordered : forall i, i ∈ ordered <-> i < n /\ (emitted !!! i : bool) = true;
  em_count : forall c, c < n -> (degrees !!! c : Z) = Z.of_nat (count (waiting g emitted c) n);
  em_respects : respects g ordered;
}.

Lemma respects_snoc g l i : respects g l -> (forall p, edge g p i -> p ∈ l) -> respects g (l ++ [i]).
Proof.
  intros Hl Hi l1 j l2 Heq p Hp. destruct l2 as [|x l2 _] using rev_ind.
  - apply app_inj_tail in Heq as [-> ->]. auto.
  - rewrite app_comm_cons, app_assoc in Heq. apply app_inj_tail in Heq as [-> ->]. eapply Hl; eauto.
Qed.

Lemma emitting_step n g degrees emitted ordered i :
  wf_graph n g -> emitting n g degrees emitted ordered ->
  i < n -> ready emitted degrees i = true ->
  emitting n g (imap (fun c d => if bool_decide (c ∈ (edges g !!! i : gset nat)) then (d - 1)%Z else d) degrees)
    (<[i := true]> emitted) (ordered ++ [i]).
Proof.
  intros Hg [Hd He Hn Ho Hc Hr] Hi Hready. unfold ready in Hready. bool_simpl.
  assert (Hnin : i ∉ ordered) by (rewrite Ho; intros [_ ?]; congruence).
  assert (Hwait : forall p, p < n -> edge g p i -> p ∈ ordered).
  { intros p Hp Hedge. rewrite Hc in * by done.
    assert (Hz : count (waiting g emitted i) n = 0) by lia. rewrite count_zero in Hz.
    specialize (Hz p Hp). unfold waiting, edgeb in Hz. rewrite bool_decide_true in Hz by done. simpl in Hz.
    apply Ho. bool_simpl. done. }
  split.
  - by rewrite length_imap.
  - by rewrite length_insert.
  - apply NoDup_app. split_and!; [done| |apply NoDup_singleton]. by intros j Hj ->%list_elem_of_singleton.
  - intros j. rewrite elem_of_app, list_elem_of_singleton, Ho.
    destruct (decide (j = i)) as [->|Hne].
    + rewrite list_lookup_total_insert_eq by lia. naive_solver.
    + rewrite list_lookup_total_insert_ne by done. naive_solver.
  - intros c Hcn. rewrite list_lookup_total_alt, list_lookup_imap.
    destruct (lookup_lt_is_Some_2 degrees c ltac:(lia)) as [d Hdc]. rewrite Hdc; simpl.
    assert (Hdv : d = Z.of_nat (count (waiting g emitted c) n)).
    { rewrite <-Hc by done. by rewrite list_lookup_total_alt, Hdc. }
    case_bool_decide as Hin.
    + rewrite Hdv, (count_flip (waiting g (<[i:=true]> emitted) c) (waiting g emitted c) n i Hi); [lia|..].
      * unfold waiting. rewrite list_lookup_total_insert_eq by lia. by rewrite andb_false_r.
      * unfold waiting, edgeb. rewrite bool_decide_true by done. simpl. by rewrite negb_true_iff.
      * intros j Hj. unfold waiting. by rewrite list_lookup_total_insert_ne.
    + rewrite Hdv. f_equal. apply count_ext. intros j Hj. unfold waiting.
      destruct (decide (j = i)) as [->|Hne]; [|by rewrite list_lookup_total_insert_ne].
      unfold edgeb. by rewrite bool_decide_false.
  - apply respects_snoc; [done|]. intros p Hp. apply Hwait; [|done]. by apply (wg_range _ _ Hg) in Hp as [? _].
Qed.

(** A walk against the edges. *)
Definition walk (g : graph) (l : list nat) : Prop :=
  forall i x y, l !! i = Some x -> l !! S i = Some y -> edge g y x.

Lemma walk_tc g l i k x y : walk g l -> l !! i = Some x -> l !! (i + S k) = Some y -> tc (edge g) y x.
Proof.
  intros Hw Hx. revert y; induction k as [|k IH]; intros y Hy.
  - apply tc_once. apply (Hw i); [done|]. by rewrite Nat.add_1_r in Hy.
  - destruct (lookup_lt_is_Some_2 l (i + S k)) as [z Hz].
    { apply lookup_lt_Some in Hy. lia. }
    eapply tc_l; [|by apply IH]. apply (Hw (i + S k)); [done|]. by replace (S (i + S k)) with (i + S (S k)) by lia.
Qed.

Lemma duplicate_positions (l : list nat) :
  ~ NoDup l -> exists i k x, l !! i = Some x /\ l !! (i + S k) = Some x.
Proof.
  induction l as [|a l IH]; intros Hn; [destruct Hn; constructor|].
  destruct (decide (a ∈ l)) as [(k&Hk)%list_elem_of_lookup|Ha]; [by exists 0, k, a|].
  destruct IH as (i&k&x&?&?); [intros ?; apply Hn; by constructor|]. by exists (S i), k, x.
Qed.

(** A non-empty finite set in which every index has a provider holds a cycle:
    a walk longer than the set revisits an index. *)
Lemma cycle_exists g (X : gset nat) c0 :
  c0 ∈ X -> (forall c, c ∈ X -> exists p, p ∈ X /\ edge g p c) -> exists i, tc (edge g) i i.
Proof.
  intros H0 Hpred.
  assert (Hwalk : forall k c, c ∈ X -> exists l, length l = S k /\ head l = Some c /\ walk g l /\ Forall (fun i => i ∈ X) l).
  { induction k as [|k IH]; intros c Hc.
    - exists [c]. split_and!; [done..| |by apply Forall_singleton]. intros [|i] x y; done.
    - destruct (Hpred c Hc) as (p&Hp&He). destruct (IH p Hp) as (l&Hlen&Hhd&Hw&Hall).
      exists (c :: l). split_and!; [simpl; lia|done| |by constructor].
      intros [|i] x y; simpl; [|apply Hw]. intros [= ->] Hy. destruct l; naive_solver. }
  destruct (Hwalk (size X) c0 H0) as (l&Hlen&_&Hw&Hall).
  destruct (duplicate_positions l) as (i&k&x&Hi&Hk); [|eauto using walk_tc].
  intros Hnd. assert (Hsub : list_to_set (C := gset nat) l ⊆ X).
  { intros i Hi%elem_of_list_to_set. by eapply Forall_forall in Hall. }
  apply subseteq_size in Hsub. rewrite size_list_to_set in Hsub by done. lia.
Qed.

Lemma candidate_Some n emitted degrees i : candidate n emitted degrees = Some i -> i < n /\ ready emitted degrees i = true.
Proof. intros [Hin Hr]%find_some. apply in_seq in Hin. split; [lia|done]. Qed.

Lemma stuck_cycle n g degrees emitted ordered :
  wf_graph n g -> emitting n g degrees emitted ordered -> length ordered < n ->
  candidate n emitted degrees = None -> exists i, tc (edge g) i i.
Proof.
  intros Hg Hem Hlt Hnone. destruct (Hem) as [Hd He Hn Ho Hc Hr].
  set (X := list_to_set (C := gset nat) (List.filter (fun i => negb (emitted !!! i : bool)) (seq 0 n))).
  assert (HX : forall i, i ∈ X <-> i < n /\ (emitted !!! i : bool) = false).
  { intros i. unfold X. rewrite elem_of_list_to_set, elem_of_lfilter, elem_of_lseq, negb_true_iff. done. }
  assert (Hne : exists c0, c0 ∈ X).
  { destruct (decide (X = ∅)) as [Hempty|Hne]; [|by apply set_choose_L].
    assert (Hall : seq 0 n ⊆ ordered).
    { intros i Hi%elem_of_lseq. apply Ho. split; [done|]. destruct (emitted !!! i : bool) eqn:E; [done|].
      assert (i ∈ X) by by apply HX. set_solver. }
    pose proof (NoDup_submseteq _ _ (NoDup_seq 0 n) Hall) as Hsub. apply submseteq_length in Hsub.
    rewrite length_seq in Hsub. lia. }
  destruct Hne as [c0 Hc0]. apply (cycle_exists g X c0 Hc0).
    intros c [Hcn Hce]%HX. unfold candidate in Hnone.
    pose proof (find_none _ _ Hnone c ltac:(apply in_seq; lia)) as Hnr. unfold ready in Hnr.
    rewrite Hce in Hnr; simpl in Hnr. bool_simpl. rewrite Hc in Hnr by done.
    destruct (existsb (waiting g emitted c) (seq 0 n)) eqn:Ew.
    + apply existsb_elem in Ew as (p&Hp%elem_of_lseq&Hw). exists p. unfold waiting, edgeb in Hw. bool_simpl.
      split; [by apply HX|done].
    + exfalso. apply Hnr. enough (count (waiting g emitted c) n = 0) by lia. apply count_zero.
      intros p Hp. apply (proj1 (existsb_false _ _) Ew). by apply elem_of_lseq.
Qed.

Lemma emit_spec fuel (ms : list installedModule) g degrees emitted ordered :
  wf_graph (length ms) g -> emitting (length ms) g degrees emitted ordered ->
  length ordered + fuel = length ms ->
  match emit fuel ms (edges g) degrees emitted ordered with
  | Ok order => order ≡ₚ seq 0 (length ms) /\ respects g order
  | Err e => errors_Is e "agentslot: module dependency cycle" = true /\ exists i, tc (edge g) i i
  | Panic _ => False
  end.
Proof.
  intros Hg. revert degrees emitted ordered; induction fuel as [|fuel IH]; simpl; intros degrees emitted ordered Hem Hlen.
  - split; [|apply Hem]. destruct Hem as [_ _ Hn Ho _ _].
    apply submseteq_length_Permutation; [|rewrite length_seq; lia].
    apply NoDup_submseteq; [done|]. intros i [Hi _]%Ho. by apply elem_of_lseq.
  - destruct (candidate _ _ _) as [i|] eqn:Ec.
    + apply candidate_Some in Ec as [Hi Hr]. apply IH; [by apply emitting_step|]. rewrite length_app; simpl. lia.
    + split; [done|]. eapply stuck_cycle; eauto. lia.
Qed.

Lemma emit_all_spec (ms : list installedModule) g :
  wf_graph (length ms) g ->
  match emit_all ms g with
  | Ok order => order ≡ₚ seq 0 (length ms) /\ respects g order
  | Err e => errors_Is e "agentslot: module dependency cycle" = true /\ exists i, tc (edge g) i i
  | Panic _ => False
  end.
Proof.
  intros Hg. apply emit_spec; [done| |done]. destruct (Hg) as [_ Hd _ Hc]. split.
  - done.
  - by rewrite length_replicate.
  - constructor.
  - intros i. split; [by intros ?%not_elem_of_nil|]. intros [Hi He].
    by rewrite lookup_total_replicate_2 in He.
  - intros c Hcn. rewrite Hc by done. f_equal. apply count_ext. intros p Hp. unfold waiting.
    rewrite lookup_total_replicate_2 by done. by rewrite andb_true_r.
  - intros l1 i l2 Heq. by destruct l1.
Qed.

(** A respected order rules cycles out. *)
Lemma respects_acyclic n g order i :
  wf_graph n g -> order ≡ₚ seq 0 n -> respects g order -> ~ tc (edge g) i i.
Proof.
  intros Hg Hp Hr Hi.
  assert (Hpos : forall p c, tc (edge g) p c -> forall l1 l2, order = l1 ++ c :: l2 -> p ∈ l1).
  { intros p c Htc. induction Htc as [p c He|p q c He Htc IH]; intros l1 l2 Heq; [by eapply Hr|].
    pose proof (IH l1 l2 Heq) as Hq. apply list_elem_of_split in Hq as (k1&k2&->).
    assert (Hpk : p ∈ k1) by (apply (Hr k1 q (k2 ++ c :: l2)); [by rewrite Heq, <-app_assoc|done]).
    set_solver. }
  assert (Hin : i ∈ order).
  { rewrite Hp. apply elem_of_lseq. inversion Hi as [? ? He|? ? ? He]; subst; apply (wg_range _ _ Hg) in He as [? _]; done. }
  apply list_elem_of_split in Hin as (l1&l2&Heq). pose proof (Hpos i i Hi l1 l2 Heq) as Hbad.
  assert (Hnd : NoDup order) by (rewrite Hp; apply NoDup_seq). rewrite Heq in Hnd.
  apply NoDup_app in Hnd as (_&Hdis&_). apply (Hdis i Hbad). left.
Qed.

(** ** Failures *)

Lemma resolveRequirement_no_panic s r msg : resolveRequirement s r ≠ Panic msg.
Proof.
  unfold resolveRequirement, validateRequirement, reject_if.
  repeat (case_match; simpl; try done).
Qed.

(** What can be wrong with the requirement of a module. *)
Definition unmet (s : registryState) (ms : list installedModule) : Prop :=
  exists m reqs r, m ∈ ms /\ mod_requires (im_module m) = Some reqs /\ r ∈ reqs /\
    ((exists e, resolveRequirement s r = Err e) \/
     exists vs v, resolveRequirement s r = Ok vs /\ v ∈ vs /\ rv_owner v ∉ im_id <$> ms).

Lemma elem_of_indexed {A} (l : list A) i x : (i, x) ∈ indexed l <-> l !! i = Some x.
Proof.
  unfold indexed. rewrite list_elem_of_lookup. split.
  - intros (j&Hj). rewrite list_lookup_imap in Hj. destruct (l !! j) eqn:E; simpl in Hj; naive_solver.
  - intros Hi. exists i. by rewrite list_lookup_imap, Hi.
Qed.

Lemma build_graph_fails s ms :
  NoDup (im_id <$> ms) ->
  match build_graph s ms with Ok _ => True | Err _ => unmet s ms | Panic _ => False end.
Proof.
  intros Hnd. destruct (is_ok (build_graph s ms)) eqn:Hok; [by destruct (build_graph s ms)|].
  destruct (foldM_stops _ _ _ Hok) as ([i m]&g&Him&Hm). fold (build_graph s ms) in Hm.
  rewrite <-Hm in Hok |- *. unfold link_module in *; simpl in *.
  destruct (mod_requires (im_module m)) as [reqs|] eqn:Hr; [|done].
  destruct (foldM_stops _ _ _ Hok) as (r&g1&Hrin&Hr1). rewrite <-Hr1 in Hok |- *.
  apply elem_of_indexed, list_elem_of_lookup_2 in Him. unfold link_requirement in *.
  destruct (resolveRequirement s r) as [vs|e|msg] eqn:Hres; simpl in *.
  - destruct (foldM_stops _ _ _ Hok) as (v&g2&Hv&Hv1). rewrite <-Hv1 in Hok |- *. unfold link_provider in *.
    destruct (ownerIndex ms !! rv_owner v) as [p|] eqn:Hp; [done|]. exists m, reqs, r. split_and!; [done..|].
    right. exists vs, v. split_and!; [done..|]. intros (m'&Heq&[j Hj]%list_elem_of_lookup)%list_elem_of_fmap.
    assert (ownerIndex ms !! rv_owner v = Some j) by (apply ownerIndex_lookup; [done|by rewrite Hj, Heq]). congruence.
  - exists m, reqs, r. split_and!; [done..|left; eauto].
  - by apply resolveRequirement_no_panic in Hres.
Qed.

(** ** The order on modules *)

(** Module [c] depends on the other module [p]. *)
Definition depends (s : registryState) (ms : list installedModule) (p c : nat) : Prop :=
  p ≠ c /\ requires s ms c p.

Lemma linked_tc n s ms g i j : linked n (requires s ms) g -> tc (edge g) i j <-> tc (depends s ms) i j.
Proof.
  intros [_ He]. split; (induction 1; [apply tc_once; by apply He|eapply tc_l; [by apply He|done]]).
Qed.

(** The modules of an index list. *)
Definition pick (ms : list installedModule) (order : list nat) : list installedModule :=
  omap (M:=list) (fun i => with_requirements <$> (ms !! i : option installedModule)) order.

Lemma pick_app ms l1 l2 : pick ms (l1 ++ l2) = pick ms l1 ++ pick ms l2.
Proof. apply omap_app. Qed.

Lemma pick_all ms : pick ms (seq 0 (length ms)) = with_requirements <$> ms.
Proof.
  induction ms as [|m ms IH] using rev_ind; [done|].
  rewrite length_app, seq_app, pick_app, fmap_app; simpl. rewrite lookup_app_r, Nat.sub_diag by done; simpl.
  f_equal. rewrite <-IH. apply list_omap_ext, Forall_Forall2_diag, Forall_forall.
  intros i Hi%elem_of_lseq. by rewrite lookup_app_l.
Qed.

Lemma pick_Permutation ms l1 l2 : l1 ≡ₚ l2 -> pick ms l1 ≡ₚ pick ms l2.
Proof.
  intros H. unfold pick. induction H; simpl; repeat case_match; try done; try by constructor.
  by etransitivity.
Qed.

Lemma with_requirements_id m : im_id (with_requirements m) = im_id m /\ im_module (with_requirements m) = im_module m.
Proof. unfold with_requirements. by destruct (mod_requires (im_module m)). Qed.

Lemma pick_split ms order l1 m l2 :
  pick ms order = l1 ++ m :: l2 -> Forall (fun i => i < length ms) order ->
  exists k1 i k2 m0, order = k1 ++ i :: k2 /\ l1 = pick ms k1 /\ ms !! i = Some m0 /\ m = with_requirements m0.
Proof.
  revert l1; induction order as [|i order IH]; simpl; intros l1 H Hall; [by destruct l1|].
  apply Forall_cons in Hall as [Hi Hall]. destruct (lookup_lt_is_Some_2 ms i Hi) as [m0 Hm0].
  unfold pick in H; simpl in H; rewrite Hm0 in H; simpl in H. destruct l1 as [|m1 l1]; injection H as <- H.
  - by exists [], i, order, m0.
  - destruct (IH l1 H Hall) as (k1&j&k2&mj&->&->&?&?). exists (i :: k1), j, k2, mj.
    split_and!; [done| |done..]. unfold pick; simpl. by rewrite Hm0.
Qed.

(** Every provider of a required value comes first (or is the module itself). *)
Definition providers_first (s : registryState) (out : list installedModule) : Prop :=
  forall l1 m l2 reqs r vs v, out = l1 ++ m :: l2 ->
    mod_requires (im_module m) = Some reqs -> r ∈ reqs -> resolveRequirement s r = Ok vs -> v ∈ vs ->
    rv_owner v ∈ im_id <$> l1 \/ rv_owner v = im_id m.

Lemma pick_providers_first s ms g order :
  NoDup (im_id <$> ms) -> linked (length ms) (requires s ms) g ->
  (forall mc reqs r, mc ∈ ms -> mod_requires (im_module mc) = Some reqs -> r ∈ reqs ->
    exists vs, resolveRequirement s r = Ok vs /\ forall v, v ∈ vs -> rv_owner v ∈ im_id <$> ms) ->
  order ≡ₚ seq 0 (length ms) -> respects g order -> providers_first s (pick ms order).
Proof.
  intros Hnd [_ Hedge] Hres Hperm Hresp l1 m l2 reqs r vs v Hout Hreqs Hr Hvs Hv.
  destruct (pick_split ms order l1 m l2 Hout) as (k1&i&k2&m0&Hord&->&Hi&->).
  { apply Forall_forall. intros i Hi. rewrite Hperm in Hi. by apply elem_of_lseq. }
  destruct (with_requirements_id m0) as [Hid Hmod]. rewrite Hid. rewrite Hmod in Hreqs.
  destruct (Hres m0 reqs r (list_elem_of_lookup_2 _ _ _ Hi) Hreqs Hr) as (vs'&Hvs'&Hown).
  assert (vs' = vs) as -> by congruence.
  destruct (proj1 (list_elem_of_fmap _ _ _) (Hown v Hv)) as (mp&Hmp&[p Hp]%list_elem_of_lookup).
  destruct (decide (p = i)) as [->|Hne]; [right; congruence|left].
  assert (He : edge g p i).
  { apply Hedge. split; [done|]. exists m0, reqs, r, vs, v. split_and!; try done.
    apply ownerIndex_lookup; [done|]. by rewrite Hp, Hmp. }
  specialize (Hresp k1 i k2 Hord p He). apply list_elem_of_split in Hresp as (j1&j2&->).
  rewrite pick_app, fmap_app. apply elem_of_app; right. unfold pick; simpl. rewrite Hp; simpl.
  rewrite Hmp, (proj1 (with_requirements_id mp)). left.
Qed.

Lemma orderModules_spec s ms :
  NoDup (im_id <$> ms) ->
  match orderModules s ms with
  | Ok out => out ≡ₚ with_requirements <$> ms /\ providers_first s out /\ (forall i, ~ tc (depends s ms) i i) /\ ~ unmet s ms
  | Err e => unmet s ms \/ errors_Is e "agentslot: module dependency cycle" = true /\ exists i, tc (depends s ms) i i
  | Panic _ => False
  end.
Proof.
  intros Hnd. unfold orderModules. pose proof (build_graph_fails s ms Hnd) as Hf.
  destruct (build_graph s ms) as [g|e|msg] eqn:Hg; simpl; [|by left|done].
  destruct (build_graph_spec s ms g Hnd Hg) as [Hl Hres].
  pose proof (emit_all_spec ms g (proj1 Hl)) as Hem. destruct (emit_all ms g) as [order|e|msg]; simpl; [|right|done].
  - fold (pick ms order). destruct Hem as [Hperm Hresp]. split_and!.
    + rewrite (pick_Permutation _ _ _ Hperm). by rewrite pick_all.
    + by eapply pick_providers_first.
    + intros i. rewrite <-(linked_tc _ s ms g i i Hl). by eapply respects_acyclic; [apply Hl|..].
    + intros (m&reqs&r&Hm&Hreqs&Hr&Hbad). destruct (Hres m reqs r Hm Hreqs Hr) as (vs&Hvs&Hown).
      destruct Hbad as [[e He]|(vs'&v&Hvs'&Hv&Hnot)]; [congruence|]. apply Hnot, Hown. congruence.
  - destruct Hem as [He [i Hi]]. split; [done|]. exists i. by apply (linked_tc _ s ms g i i Hl).
Qed.

(** ** Property *)

(** C3: the module order is a topological order, and it fails exactly when
    none exists.  On modules with unique IDs [orderModules] either returns all
    of them, each after the owners of every value it requires, and then the
    dependency relation has no cycle; or it reports a requirement that is not
    met; or it reports [ErrDependencyCycle] and a cycle exists.  It never
    panics or runs out of iterations. *)
Theorem orderModules_topological (s : registryState) (ms : list installedModule)
    (Hids : NoDup (im_id <$> ms)) :
  match orderModules s ms with
  | Ok out =>
    out ≡ₚ with_requirements <$> ms /\ providers_first s out /\
    (forall i, ~ tc (depends s ms) i i) /\ ~ unmet s ms
  | Err e =>
    unmet s ms \/
    errors_Is e "agentslot: module dependency cycle" = true /\ exists i, tc (depends s ms) i i
  | Panic _ => False
  end.
Proof. by apply orderModules_spec. Qed.

End DependencyFacts.

(** Three modules installed in an order that must be reversed. *)
Module OrderSample.
Import Sample.

Definition requiring (id : string) (p : regProg) (reqs : list Requirement) : installedModule :=
  InstalledModule id (MkModule id p (Some reqs) true) [] true.
Definition mailbox_slot : slotSpec := SlotSpec "mailbox" oneKind (Some "Mailbox").
Definition value_of (owner : string) (ordinal : Z) (T : string) : registeredValue :=
  RegisteredValue owner "" (Some (T, false)) None ordinal false.

Definition registry : registryState := RegistryState
  (<["job.store" := SlotRecord store_slot [value_of "store" 2 "JobStore"]]>
   (<["mailbox" := SlotRecord mailbox_slot [value_of "mailbox" 1 "Mailbox"]]> ∅)) 2.
Definition scheduler := requiring "scheduler" (RegReturn None) [RequireOne store_slot; OptionalOne mailbox_slot].
Definition store := requiring "store" (RegReturn None) [RequireOne mailbox_slot].
Definition mailbox := requiring "mailbox" (RegReturn None) [].
Definition modules := [scheduler; store; mailbox].

End OrderSample.

Lemma orderModules_topological_witness :
  exists out, orderModules OrderSample.registry OrderSample.modules = Ok out /\
    im_id <$> out = ["mailbox"; "store"; "scheduler"] /\ providers_first OrderSample.registry out.
Proof.
  pose proof (orderModules_topological OrderSample.registry OrderSample.modules) as H.
  assert (Hids : NoDup (im_id <$> OrderSample.modules)) by (apply (bool_decide_eq_true_1 _); vm_compute; reflexivity).
  specialize (H Hids).
  eexists. split; [vm_compute; reflexivity|]. split; [vm_compute; reflexivity|].
  exact (proj1 (proj2 H)).
Defined.
