(* ===== verification/AssemblyFacts.v ===== *)
(** * What a build guarantees

    Materialization runs every constructor once, in dependency order; a
    resolver never hands out an unfinished component of another module; and
    the values of an assembly have the type of their slot. *)

From S2P Require Import Prelude GoStrings Slots Dependency Assembly.
From S2P Require Import RegistryFacts DefaultsFacts DependencyFacts.

Section AssemblyFacts.
Context {C : Components}.

(** ** Owners of the selected values are active *)

Lemma elem_of_owners s o : o ∈ owners s <-> exists v, v ∈ all_values s /\ rv_owner v = o.
Proof.
  unfold owners. rewrite elem_of_list_to_set, list_elem_of_bind. setoid_rewrite elem_of_all_values. split.
  - intros ([id r]&(v&->&Hv)%list_elem_of_fmap&Hr%elem_of_map_to_list). eauto 10.
  - intros (v&(id&r&Hr&Hv)&<-). exists (id, r). split; [by apply list_elem_of_fmap_2|by apply elem_of_map_to_list].
Qed.

Lemma elem_of_activeModules s ms m :
  m ∈ activeModules s ms <-> m ∈ ms /\ (im_contributes m = false \/ im_id m ∈ owners s).
Proof.
  unfold activeModules. rewrite elem_of_lfilter, orb_true_iff, negb_true_iff, bool_decide_eq_true. done.
Qed.

Lemma activeModules_NoDup s ms : NoDup (im_id <$> ms) -> NoDup (im_id <$> activeModules s ms).
Proof.
  unfold activeModules. induction ms as [|m ms IH]; simpl; [done|]. intros [Hn Hnd]%NoDup_cons.
  destruct (_ || _); simpl; [|auto]. constructor; [|auto].
  intros (m'&Heq&[Hm _]%elem_of_lfilter)%list_elem_of_fmap. apply Hn. rewrite Heq. by apply list_elem_of_fmap_2.
Qed.

Lemma selected_all_values b s' v :
  wf_builder b -> resolveDefaultContributions (b_state b) = Ok s' -> v ∈ all_values s' -> v ∈ all_values (b_state b).
Proof.
  intros Hb Hs (id&r'&Hr'&Hv)%elem_of_all_values.
  pose proof (resolveDefaultContributions_spec _ (wb_registry _ Hb)) as H. rewrite Hs in H.
  destruct H as (_&Hsel&_). rewrite Hsel in Hr'. apply fmap_Some in Hr' as (r&Hr&->). simpl in Hv.
  apply elem_of_lfilter in Hv as [Hv _]. apply elem_of_all_values. eauto.
Qed.

Lemma selected_owner_active b s' v :
  wf_builder b -> resolveDefaultContributions (b_state b) = Ok s' -> v ∈ all_values s' ->
  rv_owner v ∈ im_id <$> activeModules s' (b_modules b).
Proof.
  intros Hb Hs Hv. pose proof (selected_all_values b s' v Hb Hs Hv) as Hold.
  pose proof (wb_owners _ Hb) as Ho. rewrite Forall_forall in Ho.
  apply Ho, list_elem_of_fmap in Hold as (m&Heq&Hm). rewrite Heq. apply list_elem_of_fmap_2, elem_of_activeModules.
  split; [done|right]. apply elem_of_owners. eauto.
Qed.

Lemma resolveRequirement_values s r vs v :
  resolveRequirement s r = Ok vs -> v ∈ vs -> v ∈ all_values s.
Proof.
  unfold resolveRequirement. intros H Hv. inv_ok.
  destruct (byID s !! spec_id (req_spec r)) as [record|] eqn:Er.
  - destruct (_ || _); [done|]. apply elem_of_all_values. exists (spec_id (req_spec r)), record. split; [done|].
    destruct (req_keyed r).
    + destruct (find _ _) eqn:Ef; [|done]. inv_ok. apply list_elem_of_singleton in Hv as ->.
      apply find_some in Ef as [Hin _]. by apply list_elem_of_In.
    + destruct (_ <? _)%Z; [done|]. by inv_ok.
  - destruct (req_optional r); [|done]. inv_ok. by apply not_elem_of_nil in Hv.
Qed.

(** In a build the only unmet requirements are unresolvable ones. *)
Lemma active_unmet b s' :
  wf_builder b -> resolveDefaultContributions (b_state b) = Ok s' ->
  unmet s' (activeModules s' (b_modules b)) ->
  exists m reqs r e, m ∈ activeModules s' (b_modules b) /\ mod_requires (im_module m) = Some reqs /\ r ∈ reqs /\
    resolveRequirement s' r = Err e.
Proof.
  intros Hb Hs (m&reqs&r&Hm&Hreqs&Hr&[[e He]|(vs&v&Hvs&Hv&Hnot)]); [eauto 10|].
  exfalso. apply Hnot. eapply selected_owner_active; [done..|]. by eapply resolveRequirement_values.
Qed.

(** ** Materialization *)

(** Same slots, owners, keys and ordinals; only values and constructors may
    differ. *)
Definition same_identity (v v' : registeredValue) : Prop :=
  rv_owner v = rv_owner v' /\ rv_key v = rv_key v' /\ rv_ordinal v = rv_ordinal v' /\ rv_defaulted v = rv_defaulted v'.
Definition same_record (r r' : slotRecord) : Prop :=
  rec_spec r = rec_spec r' /\ Forall2 same_identity (rec_values r) (rec_values r').
Definition same_shape (s s' : registryState) : Prop :=
  nextOrdinal s = nextOrdinal s' /\ forall id, option_Forall2 same_record (byID s !! id) (byID s' !! id).

#[global] Instance same_identity_equiv : Equivalence same_identity.
Proof. split; [done|by intros ?? (?&?&?&?)|intros ??? (?&?&?&?) (?&?&?&?); repeat split; congruence]. Qed.
#[global] Instance same_record_equiv : Equivalence same_record.
Proof.
  split; [by split|by intros ?? [??]; split|intros ??? [??] [??]; split; [congruence|by etransitivity]].
Qed.
#[global] Instance same_shape_equiv : Equivalence same_shape.
Proof.
  split.
  - by split.
  - intros s s' [Hn H]. split; [done|]. intros id. by symmetry.
  - intros s1 s2 s3 [Hn1 H1] [Hn2 H2]. split; [congruence|]. intros id. etransitivity; [apply H1|apply H2].
Qed.

Definition set_value (value : option val) (v : registeredValue) : registeredValue :=
  RegisteredValue (rv_owner v) (rv_key v) value None (rv_ordinal v) (rv_defaulted v).

Lemma Forall2_alter_l {A} (R : relation A) (f : A -> A) i l :
  Reflexive R -> (forall x, R x (f x)) -> Forall2 R l (alter f i l).
Proof.
  intros Hr Hf. revert i; induction l as [|x l IH]; intros [|i]; [by constructor..| |].
  - constructor; [apply Hf|]. clear -Hr. by induction l; constructor.
  - constructor; [apply Hr|apply IH].
Qed.

Lemma store_value_shape s t value : same_shape s (store_value s t value).
Proof.
  split; [done|]. intros id. unfold store_value; simpl.
  destruct (decide (tg_slot t = id)) as [<-|Hne]; [|by rewrite lookup_alter_ne].
  rewrite lookup_alter_eq. destruct (byID s !! tg_slot t) as [r|]; simpl; constructor.
  split; [done|]. apply Forall2_alter_l; [apply _|done].
Qed.

(** Shape-invariant lookups *)
Lemma find_key_shape key vs vs' :
  Forall2 same_identity vs vs' ->
  option_Forall2 same_identity (find (fun v => String.eqb (rv_key v) key) vs) (find (fun v => String.eqb (rv_key v) key) vs').
Proof.
  induction 1 as [|v v' vs vs' Hv Hvs IH]; simpl; [constructor|].
  destruct (Hv) as (_&<-&_). destruct (String.eqb _ _); [by constructor|done].
Qed.

Lemma resolveRequirement_shape s s' r :
  same_shape s s' ->
  match resolveRequirement s r, resolveRequirement s' r with
  | Ok vs, Ok vs' => Forall2 same_identity vs vs'
  | Err e, Err e' => e = e'
  | _, _ => False
  end.
Proof.
  intros [_ Hs]. specialize (Hs (spec_id (req_spec r))). unfold resolveRequirement.
  pose proof (resolveRequirement_no_panic s r) as Hnp. unfold resolveRequirement in Hnp.
  destruct (validateRequirement r) as [[]|e|msg]; simpl in *; [|done|by destruct (Hnp msg)].
  inversion Hs as [rec rec' [Hsp Hvs] Hl Hr|Hl Hr]; [|by destruct (req_optional r)].
  rewrite <-Hsp. destruct (_ || _); [done|]. destruct (req_keyed r).
  - pose proof (find_key_shape (req_key r) _ _ Hvs) as Hf. inversion Hf; simpl; [by constructor; [|constructor]|done].
  - rewrite <-(Forall2_length _ _ _ Hvs). by destruct (_ <? _)%Z.
Qed.

(** Values that are built stay as they are, and a pending one is either
    pending or built. *)
Definition built (v : registeredValue) : Prop := rv_constructor v = None /\ isNil (rv_value v) = false.

Lemma built_not_notReady v : built v -> notReady v = false.
Proof. intros [H1 H2]. unfold notReady. by rewrite bool_decide_true, H2. Qed.

Definition all_built (owner : string) (s : registryState) : Prop :=
  forall id r v, byID s !! id = Some r -> v ∈ rec_values r -> rv_owner v = owner -> built v.

(** One store builds its target and keeps everything else. *)
Lemma store_value_lookup s t value id i :
  target_value (store_value s t value) (Target id i 0) =
  if bool_decide (tg_slot t = id /\ tg_index t = i) then set_value value <$> target_value s (Target id i 0)
  else target_value s (Target id i 0).
Proof.
  unfold target_value, store_value; simpl. destruct (decide (tg_slot t = id)) as [<-|Hne].
  - rewrite lookup_alter_eq. destruct (byID s !! tg_slot t) as [r|]; simpl; [|by case_bool_decide].
    destruct (decide (tg_index t = i)) as [<-|Hne].
    + rewrite bool_decide_true by done. by rewrite list_lookup_alter_eq.
    + rewrite bool_decide_false by naive_solver. by rewrite list_lookup_alter_ne.
  - rewrite bool_decide_false by naive_solver. by rewrite lookup_alter_ne.
Qed.

Lemma target_value_ordinal s id i o : target_value s (Target id i o) = target_value s (Target id i 0).
Proof. done. Qed.

Lemma all_built_lookup owner s :
  all_built owner s <-> forall id i v, target_value s (Target id i 0) = Some v -> rv_owner v = owner -> built v.
Proof.
  unfold all_built, target_value; simpl. split.
  - intros H id i v Hl Ho. apply bind_Some in Hl as (r&Hr&Hl). eapply H; [done| |done]. by eapply list_elem_of_lookup_2.
  - intros H id r v Hr (i&Hi)%list_elem_of_lookup Ho. eapply (H id i); [|done]. by rewrite Hr.
Qed.

Lemma materialize_target_Ok m s t s' :
  materialize_target m s t = Ok s' -> exists value, isNil value = false /\ s' = store_value s t value.
Proof.
  unfold materialize_target. destruct (_ ≫= _) as [c|]; [|done]. intros H. inv_ok.
  destruct (isNil _) eqn:En; [done|]. inv_ok. eauto.
Qed.

(** The loop over targets: shape is kept, built values stay built, and every
    target gets built. *)
Lemma materialize_targets m ts s s' :
  foldM (materialize_target m) ts s = Ok s' ->
  same_shape s s' /\
  forall id i v', target_value s' (Target id i 0) = Some v' ->
    exists v, target_value s (Target id i 0) = Some v /\ same_identity v v' /\
      ((exists t, t ∈ ts /\ tg_slot t = id /\ tg_index t = i) /\ built v' \/
       (forall t, t ∈ ts -> ~ (tg_slot t = id /\ tg_index t = i)) /\ v' = v).
Proof.
  revert s; induction ts as [|t ts IH]; simpl; intros s H.
  - inv_ok. split; [done|]. intros id i v' Hv'. exists v'. split_and!; [done..|].
    right. split; [by intros ? ?%not_elem_of_nil|done].
  - apply bind_Ok in H as (s1&(value&Hnil&->)%materialize_target_Ok&H). apply IH in H as [Hshape Hv].
    split; [etransitivity; [apply store_value_shape|done]|].
    intros id i v' Hv'. destruct (Hv id i v' Hv') as (v1&Hv1&Hid&Hcase). rewrite store_value_lookup in Hv1.
    case_bool_decide as Heq.
    + apply fmap_Some in Hv1 as (v&Hl&->). exists v. split_and!; [done|etransitivity; [|done]; done|].
      left. split; [exists t; split; [left|done]|]. destruct Hcase as [[_ ?]|[_ ->]]; [done|by split].
    + exists v1. split_and!; [done..|]. destruct Hcase as [[(t'&?&?)?]|[Hno ->]].
      * left. split; [exists t'; split; [by right|done]|done].
      * right. split; [|done]. intros t' [->|Ht']%elem_of_cons; [done|auto].
Qed.

Lemma elem_of_targets s owner t :
  t ∈ constructorTargetsForOwner s owner <->
  exists v, target_value s t = Some v /\ rv_owner v = owner /\ rv_constructor v ≠ None /\ tg_ordinal t = rv_ordinal v.
Proof.
  unfold constructorTargetsForOwner, raw_targets, target_value. rewrite merge_sort_Permutation, list_elem_of_bind. split.
  - intros ([id r]&Ht&Hr%elem_of_map_to_list). unfold record_targets in Ht.
    apply list_elem_of_omap in Ht as ([i v]&Hiv%elem_of_indexed&Hsome). destruct (_ && _) eqn:E; [|done].
    injection Hsome as <-. simpl. rewrite Hr; simpl. bool_simpl. eauto.
  - intros (v&Hv&Ho&Hc&Hord). apply bind_Some in Hv as (r&Hr&Hv). exists (tg_slot t, r).
    split; [|by apply elem_of_map_to_list]. apply list_elem_of_omap. exists (tg_index t, v).
    split; [by apply elem_of_indexed|]. rewrite Ho, String.eqb_refl, bool_decide_false by done. simpl.
    rewrite <-Hord. by destruct t.
Qed.

Definition all_wf (s : registryState) : Prop := forall v, v ∈ all_values s -> wf_value v.

Lemma target_value_all s id i v : target_value s (Target id i 0) = Some v -> v ∈ all_values s.
Proof.
  intros Hl. apply bind_Some in Hl as (r&Hr&Hl). apply elem_of_all_values.
  exists id, r. split; [done|]. by eapply list_elem_of_lookup_2.
Qed.
Lemma all_values_target s v : v ∈ all_values s -> exists id i, target_value s (Target id i 0) = Some v.
Proof.
  intros (id&r&Hr&[i Hi]%list_elem_of_lookup)%elem_of_all_values. exists id, i. unfold target_value; simpl. by rewrite Hr.
Qed.

(** After a module is materialized all its values are built. *)
Lemma materialize_module_Ok s m s' :
  all_wf s -> materialize_module s m = Ok s' ->
  same_shape s s' /\ all_wf s' /\ all_built (im_id m) s' /\
  (forall o, all_built o s -> all_built o s').
Proof.
  unfold materialize_module. intros Hwf H. apply materialize_targets in H as [Hshape Hv]. split_and!; [done|..].
  - intros v' (id&i&Hl)%all_values_target. destruct (Hv id i v' Hl) as (v&Hlv&_&[[_ ?]|[_ ->]]); [by left|].
    apply Hwf. by eapply target_value_all.
  - apply all_built_lookup. intros id i v' Hl Ho. destruct (Hv id i v' Hl) as (v&Hlv&Hid&[[_ ?]|[Hno ->]]); [done|].
    assert (Hw : wf_value v) by by eapply Hwf, target_value_all.
    destruct (decide (rv_constructor v = None)) as [Hc|Hc]; [destruct Hw as [?|[??]]; done|].
    exfalso. apply (Hno (Target id i (rv_ordinal v))); [|done].
    apply elem_of_targets. exists v. by rewrite target_value_ordinal.
  - intros o Hb. apply all_built_lookup. intros id i v' Hl Ho.
    destruct (Hv id i v' Hl) as (v&Hlv&Hid&[[_ ?]|[_ ->]]); [done|].
    exact (proj1 (all_built_lookup o s) Hb id i v Hlv Ho).
Qed.

Lemma materialize_modules_Ok ms s s' :
  all_wf s -> foldM materialize_module ms s = Ok s' ->
  same_shape s s' /\ all_wf s' /\ forall o, o ∈ im_id <$> ms \/ all_built o s -> all_built o s'.
Proof.
  revert s; induction ms as [|m ms IH]; simpl; intros s Hwf H.
  - inv_ok. split_and!; [done..|]. by intros o [?%not_elem_of_nil|?].
  - apply bind_Ok in H as (s1&Hm&H). apply materialize_module_Ok in Hm as (Hsh&Hwf1&Hb&Hkeep); [|done].
    apply IH in H as (Hsh2&Hwf2&Hb2); [|done]. split_and!; [by etransitivity|done|].
    intros o [[->|Ho]%elem_of_cons|Ho]; apply Hb2; auto.
Qed.

(** ** The whole build *)

Lemma selected_all_wf b s' : wf_builder b -> resolveDefaultContributions (b_state b) = Ok s' -> all_wf s'.
Proof.
  intros Hb Hs v Hv. apply (selected_all_values b s' v Hb Hs) in Hv as (id&r&Hr&Hv)%elem_of_all_values.
  pose proof (wr_values _ _ (ws_records _ (wb_registry _ Hb) _ _ Hr)) as Hw. by eapply Forall_forall in Hw.
Qed.

Lemma providers_first_shape s s' out : same_shape s s' -> providers_first s out -> providers_first s' out.
Proof.
  intros Hsh Hp l1 m l2 reqs r vs' v' Hout Hreqs Hr Hvs' Hv'.
  pose proof (resolveRequirement_shape s s' r Hsh) as H. rewrite Hvs' in H.
  destruct (resolveRequirement s r) as [vs| |] eqn:Hvs; [|done..].
  apply list_elem_of_lookup in Hv' as [i Hi]. destruct (Forall2_lookup_r _ _ _ _ _ H Hi) as (v&Hl&Hid&_).
  rewrite <-Hid. eapply Hp; [done..|]. by eapply list_elem_of_lookup_2.
Qed.

Lemma resolved_shape s s' :
  same_shape s s' -> map_Forall (fun _ r => resolved_record r) (byID s) -> map_Forall (fun _ r => resolved_record r) (byID s').
Proof.
  intros [_ Hsh] H id r' Hr'. specialize (Hsh id). rewrite Hr' in Hsh. inversion Hsh as [r r2 [Hsp Hvs] Hl|]; subst.
  destruct (H id r) as [H1 H2]; [done|]. unfold resolved_record. rewrite <-Hsp, <-(Forall2_length _ _ _ Hvs). split; [done|].
  intros Hk. replace (rv_key <$> rec_values r') with (rv_key <$> rec_values r); [auto|].
  clear -Hvs. induction Hvs as [|v v2 vs vs2 (_&Hkey&_) _ IH]; csimpl; [done|by rewrite Hkey, IH].
Qed.

(** What [Build] promises of an assembly. *)
Record wf_assembly (b : Builder) (requirements : list Requirement) (a : Assembly_) : Prop := {
  wa_built : forall v, v ∈ all_values (a_state a) -> built v;
  wa_modules : exists s, resolveDefaultContributions (b_state b) = Ok s /\ same_shape s (a_state a) /\
    a_modules a ≡ₚ with_requirements <$> activeModules s (b_modules b);
  wa_order : providers_first (a_state a) (a_modules a);
  wa_slots : map_Forall (fun _ r => resolved_record r) (byID (a_state a));
  wa_profile : forall r, r ∈ requirements -> is_ok (resolveRequirement (a_state a) r) = true;
}.

Lemma build_assembly_wf b requirements a :
  wf_builder b -> build_assembly b requirements = Ok a -> wf_assembly b requirements a.
Proof.
  intros Hb H. unfold build_assembly in H. inv_ok.
  match goal with Hf : forM_ _ _ = Ok _ |- _ => rename Hf into Hprof end.
  match goal with Hm : materializeConstructors _ _ = Ok ?f |- _ => rename Hm into Hmat, f into final end.
  match goal with Ho : orderModules ?s0 _ = Ok ?o |- _ => rename Ho into Hord, s0 into s, o into out end.
  match goal with Hs : resolveDefaultContributions _ = Ok _ |- _ => rename Hs into Hsel end.
  pose proof (selected_all_wf b s Hb Hsel) as Hwf.
  pose proof (orderModules_spec s _ (activeModules_NoDup s _ (wb_ids _ Hb))) as Hspec. rewrite Hord in Hspec.
  destruct Hspec as (Hperm&Hfirst&_). destruct (materialize_modules_Ok out s final Hwf Hmat) as (Hsh&Hwf'&Hbuilt).
  split; simpl.
  - intros v Hv. apply elem_of_all_values in Hv as (id&r&Hr&Hv). eapply (Hbuilt (rv_owner v)); [left|done..].
    destruct (Hsh) as [_ Hrec]. specialize (Hrec id). rewrite Hr in Hrec. inversion Hrec as [r0 r' [_ Hvs] Hr0|]; subst.
    apply list_elem_of_lookup in Hv as [i Hi]. destruct (Forall2_lookup_r _ _ _ _ _ Hvs Hi) as (v0&Hl&Hid&_).
    assert (Hv0 : v0 ∈ all_values s) by (apply elem_of_all_values; exists id, r0; split; [done|by eapply list_elem_of_lookup_2]).
    rewrite <-Hid. pose proof (selected_owner_active b s v0 Hb Hsel Hv0) as Hact.
    rewrite Hperm. apply list_elem_of_fmap in Hact as (m&->&Hm). rewrite <-list_fmap_compose.
    rewrite <-(proj1 (with_requirements_id m)). by apply (list_elem_of_fmap_2 (im_id ∘ with_requirements)).
  - exists s. done.
  - by eapply providers_first_shape.
  - apply (resolved_shape s); [done|]. pose proof (resolveDefaultContributions_spec _ (wb_registry _ Hb)) as Hdef.
    rewrite Hsel in Hdef. destruct Hdef as (_&Hs&Hna). intros id r'. rewrite Hs, fmap_Some. intros (r&Hr&->).
    by apply select_resolved, (Hna id).
  - intros r Hr. apply (proj1 (forM__Ok _ _ _)) with (a := r) in Hprof; [|done].
    pose proof (resolveRequirement_shape s final r Hsh) as Hres. apply bind_Ok in Hprof as (vs&Hvs&_).
    rewrite Hvs in Hres. by destruct (resolveRequirement final r).
Qed.

(** ** Readiness of dependencies *)

(** The build of [b] is about to run a constructor of [m] on registry [s2]. *)
Definition constructing (b : Builder) (m : installedModule) (s2 : registryState) : Prop :=
  exists s out l1 l2 s1 ts1 ts2,
    resolveDefaultContributions (b_state b) = Ok s /\
    orderModules s (activeModules s (b_modules b)) = Ok out /\ out = l1 ++ m :: l2 /\
    materializeConstructors s l1 = Ok s1 /\
    constructorTargetsForOwner s1 (im_id m) = ts1 ++ ts2 /\ foldM (materialize_target m) ts1 s1 = Ok s2.

Lemma declared_elem reqs spec key keyed r : declaredRequirement reqs spec key keyed = Some r -> r ∈ reqs.
Proof. intros [H _]%find_some. by apply list_elem_of_In. Qed.

Lemma resolveRequirement_not_notReady s r e :
  resolveRequirement s r = Err e -> errors_Is e "agentslot: dependency is not ready" = false.
Proof.
  unfold resolveRequirement, validateRequirement, reject_if. intros H.
  repeat (case_match; simpl in H; try discriminate H); by injection H as <-.
Qed.

Lemma constructing_requirements b m s2 r :
  wf_builder b -> constructing b m s2 -> r ∈ im_requirements m ->
  exists reqs, mod_requires (im_module m) = Some reqs /\ r ∈ reqs.
Proof.
  intros Hb (s&out&l1&l2&s1&ts1&ts2&Hs&Hord&->&_) Hr.
  pose proof (orderModules_spec s _ (activeModules_NoDup s _ (wb_ids _ Hb))) as Hspec. rewrite Hord in Hspec.
  destruct Hspec as (Hperm&_). assert (Hin : m ∈ with_requirements <$> activeModules s (b_modules b)).
  { rewrite <-Hperm. set_solver. }
  apply list_elem_of_fmap in Hin as (m0&->&[Hm0 _]%elem_of_activeModules).
  pose proof (wb_valid _ Hb) as Hv. rewrite Forall_forall in Hv. destruct (Hv m0 Hm0) as (_&_&Hnil).
  unfold with_requirements in *. destruct (mod_requires (im_module m0)) as [reqs|] eqn:E; simpl in *; [eauto|].
  rewrite Hnil in Hr. by apply not_elem_of_nil in Hr.
Qed.

Lemma constructing_ready b m s2 r vs v :
  wf_builder b -> constructing b m s2 -> r ∈ im_requirements m ->
  resolveRequirement s2 r = Ok vs -> v ∈ vs -> rv_owner v ≠ im_id m -> built v.
Proof.
  intros Hb Hc Hr Hvs Hv Hne. destruct (constructing_requirements b m s2 r Hb Hc Hr) as (reqs&Hreqs&Hin).
  destruct Hc as (s&out&l1&l2&s1&ts1&ts2&Hs&Hord&Hout&Hm1&_&Hm2).
  pose proof (orderModules_spec s _ (activeModules_NoDup s _ (wb_ids _ Hb))) as Hspec. rewrite Hord in Hspec.
  destruct Hspec as (_&Hfirst&_).
  destruct (materialize_modules_Ok l1 s s1 (selected_all_wf b s Hb Hs) Hm1) as (Hsh1&Hwf1&Hb1).
  destruct (materialize_targets m ts1 s1 s2 Hm2) as [Hsh2 Hkeep].
  assert (Hsh : same_shape s s2) by by etransitivity.
  destruct (providers_first_shape s s2 out Hsh Hfirst l1 m l2 reqs r vs v Hout Hreqs Hin Hvs Hv) as [Ho|]; [|done].
  specialize (Hb1 (rv_owner v) (or_introl Ho)).
  apply (resolveRequirement_values _ _ _ _ Hvs) in Hv as (id&i&Hl)%all_values_target.
  destruct (Hkeep id i v Hl) as (v1&Hl1&Hid&[[_ ?]|[_ ->]]); [done|].
  exact (proj1 (all_built_lookup _ _) Hb1 id i v1 Hl1 eq_refl).
Qed.

(** ** Properties *)

(** C4: [Builder.Build] either leaves the builder untouched or freezes it and
    returns a sound assembly: every component is built and non-nil, every
    OneSlot holds at most one value and every ManySlot key one, the modules are
    the active ones in an order where every provider precedes its consumers,
    and every profile requirement is satisfied.  A frozen builder accepts
    neither modules nor builds. *)
Theorem Build_sound (b : Builder) (requirements : list Requirement) (Hb : reachable b) :
  match Build b requirements with
  | (b', Ok a) =>
    wf_assembly b requirements a /\ b_state b' = b_state b /\ b_modules b' = b_modules b /\
    (forall reqs, Build b' reqs = (b', Err ErrBuilderFrozen)) /\
    (forall m b2, Install b' m ≠ (b2, None))
  | (b', _) => b' = b
  end.
Proof.
  unfold Build. destruct (build_assembly b requirements) as [a|e|msg] eqn:E; [|done..].
  split_and!; [by eapply build_assembly_wf; [apply reachable_wf|]|done..|].
  intros [m|] b2 H; [|done]. apply Install_success in H as (_&Hf&_). done.
Qed.

(** During a build the resolver hands a constructor only finished
    dependencies.  When a declared dependency is reported as not ready, the
    unfinished component belongs to the constructor's own module: components of
    other modules are always built first. *)
Theorem resolver_not_ready_own (b : Builder) (m : installedModule) (s2 : registryState)
    (spec : slotSpec) (key : string) (keyed : bool) (e : error)
    (Hb : reachable b) (Hc : constructing b m s2)
    (He : resolve (Some (ResolverScope s2 (im_requirements m) true)) spec key keyed = Err e)
    (Hnr : errors_Is e "agentslot: dependency is not ready" = true) :
  exists v, v ∈ all_values s2 /\ notReady v = true /\ rv_owner v = im_id m /\
    e = ErrWrap ErrDependencyNotReady "slot contribution from module" [AStr (spec_id spec); AStr (im_id m)].
Proof.
  apply reachable_wf in Hb. unfold resolve in He; simpl in He.
  destruct (declaredRequirement _ _ _ _) as [r|] eqn:Hd; [|by injection He as <-].
  destruct (resolveRequirement s2 r) as [vs|e'|] eqn:Hr; simpl in He.
  - destruct (find notReady vs) as [v|] eqn:Hf; [|done]. injection He as <-.
    apply find_some in Hf as [Hv%list_elem_of_In Hn]. exists v.
    assert (Ho : rv_owner v = im_id m).
    { destruct (decide (rv_owner v = im_id m)) as [|Hne]; [done|]. exfalso.
      pose proof (constructing_ready b m s2 r vs v Hb Hc (declared_elem _ _ _ _ _ Hd) Hr Hv Hne) as Hbu.
      by rewrite built_not_notReady in Hn. }
    rewrite Ho. split_and!; [by eapply resolveRequirement_values|done..].
  - injection He as <-. by rewrite (resolveRequirement_not_notReady _ _ _ Hr) in Hnr.
  - done.
Qed.

End AssemblyFacts.

(** ** What a constructor saw is what the assembly holds

    A build only replaces pending values, so whatever a constructor resolved is
    still there in the finished assembly: running the constructor against the
    assembly gives the value it gave during the build. *)
Section Constructed.
Context {C : Components}.

Definition later (v v' : registeredValue) : Prop := same_identity v v' /\ (built v -> v' = v).
Definition later_record (r r' : slotRecord) : Prop := rec_spec r = rec_spec r' /\ Forall2 later (rec_values r) (rec_values r').
Definition later_state (s s' : registryState) : Prop := forall id, option_Forall2 later_record (byID s !! id) (byID s' !! id).

#[export] Instance later_refl : Reflexive later.
Proof. by split. Qed.
#[export] Instance later_trans : Transitive later.
Proof.
  intros v1 v2 v3 [H1 K1] [H2 K2]. split; [by etransitivity|]. intros Hb. specialize (K1 Hb) as ->. by apply K2.
Qed.
#[export] Instance later_record_refl : Reflexive later_record.
Proof. by split. Qed.
#[export] Instance later_record_trans : Transitive later_record.
Proof. intros r1 r2 r3 [H1 K1] [H2 K2]. split; [congruence|by etransitivity]. Qed.
#[export] Instance later_state_refl : Reflexive later_state.
Proof. intros s id. destruct (byID s !! id); by constructor. Qed.
#[export] Instance later_state_trans : Transitive later_state.
Proof. intros s1 s2 s3 H1 H2 id. etransitivity; [apply H1|apply H2]. Qed.

Lemma later_built_values vs vs' : Forall2 later vs vs' -> Forall built vs -> vs' = vs.
Proof. induction 1 as [|v v' vs vs' [_ Hv] Hvs IH]; intros Hb; [done|]. apply Forall_cons in Hb as [H1 H2]. by rewrite (Hv H1), IH. Qed.

Lemma later_find key vs vs' v :
  Forall2 later vs vs' -> find (fun v => String.eqb (rv_key v) key) vs = Some v -> built v ->
  find (fun v => String.eqb (rv_key v) key) vs' = Some v.
Proof.
  induction 1 as [|v1 v1' vs vs' [(_&Hk&_) Hv] Hvs IH]; simpl; [done|]. rewrite <-Hk.
  destruct (String.eqb _ _) eqn:E; [|done]. intros [= <-] Hb. by rewrite Hv.
Qed.

Lemma later_target s s' id i v : later_state s s' -> target_value s (Target id i 0) = Some v ->
  exists v', target_value s' (Target id i 0) = Some v' /\ later v v'.
Proof.
  intros H Hv. apply bind_Some in Hv as (r&Hr&Hv). simpl in Hr, Hv. specialize (H id). rewrite Hr in H.
  inversion H as [r0 r' [_ Hvs] Hr0 Hr'|]; subst. destruct (Forall2_lookup_l _ _ _ _ _ Hvs Hv) as (v'&Hv'&Hl).
  exists v'. unfold target_value; simpl. by rewrite <-Hr'.
Qed.

Lemma later_resolveRequirement s s' r vs :
  later_state s s' -> resolveRequirement s r = Ok vs -> Forall built vs -> resolveRequirement s' r = Ok vs.
Proof.
  intros Hs H Hb. specialize (Hs (spec_id (req_spec r))). unfold resolveRequirement in *.
  destruct (validateRequirement r); simpl in *; [|done..].
  inversion Hs as [rec rec' [Hsp Hvs] Hl Hr|Hl Hr]; rewrite <-Hl in H; [|done].
  rewrite <-Hsp. destruct (_ || _); [done|]. destruct (req_keyed r).
  - destruct (find _ (rec_values rec)) as [v|] eqn:Hf; [|done]. injection H as <-.
    apply Forall_cons in Hb as [Hb _]. by rewrite (later_find _ _ _ _ Hvs Hf Hb).
  - rewrite <-(Forall2_length _ _ _ Hvs). destruct (_ <? _)%Z; [done|]. injection H as <-. by rewrite (later_built_values _ _ Hvs Hb).
Qed.

Lemma resolve_built scope spec key keyed vs : resolve (Some scope) spec key keyed = Ok vs -> Forall built vs.
Proof.
  unfold resolve. intros H. inv_ok. destruct (declaredRequirement _ _ _ _); [|done]. inv_ok.
  destruct (find notReady _) as [v|] eqn:Hf; [done|]. inv_ok. apply Forall_forall. intros v Hv.
  pose proof (find_none _ _ Hf v (proj1 (list_elem_of_In _ _) Hv)) as Hn. unfold notReady in Hn.
  apply orb_false_iff in Hn as [Hc Hn]. apply negb_false_iff, bool_decide_eq_true in Hc. by split.
Qed.

Lemma later_resolve s s' reqs spec key keyed vs :
  later_state s s' -> resolve (Some (ResolverScope s reqs true)) spec key keyed = Ok vs ->
  resolve (Some (ResolverScope s' reqs true)) spec key keyed = Ok vs.
Proof.
  intros Hs H. pose proof (resolve_built _ _ _ _ _ H) as Hb. unfold resolve in *; simpl in *.
  destruct (declaredRequirement _ _ _ _) as [r|]; [|done]. inv_ok. destruct (find notReady _) eqn:Hf; [done|]. inv_ok.
  by erewrite later_resolveRequirement; [|done..]; simpl; rewrite Hf.
Qed.

(** An answer that is not an error. *)
Definition answered (q : query) : answer q -> bool :=
  match q with QOne _ | QOptionalOne _ | QKey _ _ | QMany _ | QChain _ => is_ok end.

Lemma later_ask s s' reqs q :
  later_state s s' -> answered q (ask (Some (ResolverScope s reqs true)) q) = true ->
  ask (Some (ResolverScope s' reqs true)) q = ask (Some (ResolverScope s reqs true)) q.
Proof.
  intros Hs. destruct q as [slot|slot|slot key|slot|slot];
    cbn [answered ask]; unfold ResolveOne, ResolveOptionalOne, ResolveKey, ResolveChain, ResolveMany;
    match goal with |- context [resolve (Some (ResolverScope s ?r _)) ?spec ?key ?keyed] =>
      destruct (resolve (Some (ResolverScope s r true)) spec key keyed) as [vs|e|m] eqn:E; [|by intros ?..] end;
    by rewrite (later_resolve _ _ _ _ _ _ _ Hs E).
Qed.

(** A constructor that returns at the first error it gets. *)
Inductive strict : ctor -> Prop :=
  | StrictReturn r : strict (CReturn r)
  | StrictResolve q k : (forall a, strict (k a)) ->
      (forall a, answered q a = false -> exists r, k a = CReturn r /\ is_ok r = false) -> strict (CResolve q k).

Lemma strict_later s s' reqs c v :
  later_state s s' -> strict c -> run_ctor (Some (ResolverScope s reqs true)) c = Ok v ->
  run_ctor (Some (ResolverScope s' reqs true)) c = Ok v.
Proof.
  intros Hs. induction 1 as [r|q k Hk IH Herr]; simpl; [done|]. intros H.
  destruct (answered q (ask (Some (ResolverScope s reqs true)) q)) eqn:Ea.
  - rewrite (later_ask _ _ _ _ Hs Ea). by apply IH.
  - destruct (Herr _ Ea) as (r&Hr&Hno). rewrite Hr in H; simpl in H. by rewrite H in Hno.
Qed.

(** *** Through the build *)
Lemma materialize_target_later m s t s' : materialize_target m s t = Ok s' -> later_state s s'.
Proof.
  unfold materialize_target. destruct (target_value s t) as [v|] eqn:Ev; simpl; [|done].
  destruct (rv_constructor v) as [c|] eqn:Ec; [|done]. intros H. inv_ok. destruct (isNil _); [done|]. inv_ok.
  intros id. unfold store_value; simpl. destruct (decide (tg_slot t = id)) as [<-|Hne].
  2: { rewrite lookup_alter_ne by done. destruct (byID s !! id); by constructor. }
  rewrite lookup_alter_eq. unfold target_value in Ev. destruct (byID s !! tg_slot t) as [r|]; simpl in *; [|constructor].
  constructor. split; [done|]. simpl. apply Forall2_same_length_lookup. split; [by rewrite length_alter|].
  intros i v1 v2 Hx Hy. destruct (decide (tg_index t = i)) as [<-|Hne].
  - rewrite list_lookup_alter_eq in Hy. rewrite Hx in Hy, Ev. injection Ev as ->. injection Hy as <-. split; [done|].
    intros [Hb _]. by rewrite Hb in Ec.
  - rewrite list_lookup_alter_ne, Hx in Hy by done. by injection Hy as <-.
Qed.

Lemma materialize_targets_later m ts s s' : foldM (materialize_target m) ts s = Ok s' -> later_state s s'.
Proof.
  revert s; induction ts as [|t ts IH]; simpl; intros s H; [by inv_ok|].
  apply bind_Ok in H as (s1&H1&H). etransitivity; [by eapply materialize_target_later|by apply IH].
Qed.
Lemma materialize_modules_later ms s s' : foldM materialize_module ms s = Ok s' -> later_state s s'.
Proof.
  revert s; induction ms as [|m ms IH]; simpl; intros s H; [by inv_ok|].
  apply bind_Ok in H as (s1&H1&H). etransitivity; [by eapply materialize_targets_later|by apply IH].
Qed.

(** [value] is what the constructor [c] of module [m] gives on [s']. *)
Definition constructed (m : installedModule) (c : ctor) (s' : registryState) (value : option val) : Prop :=
  isNil value = false /\ run_ctor (Some (ResolverScope s' (im_requirements m) true)) c = Ok value.

Lemma constructed_later m c s s' value : strict c -> later_state s s' -> constructed m c s value -> constructed m c s' value.
Proof. intros Hc Hs [Hn Hr]. split; [done|]. by eapply strict_later. Qed.

Lemma target_constructed m ts s s' id i v c :
  foldM (materialize_target m) ts s = Ok s' -> (exists t, t ∈ ts /\ tg_slot t = id /\ tg_index t = i) ->
  target_value s (Target id i 0) = Some v -> rv_constructor v = Some c -> strict c ->
  exists value, target_value s' (Target id i 0) = Some (set_value value v) /\ constructed m c s' value.
Proof.
  intros H Ht Hv Hc Hstrict. revert s H Ht Hv. induction ts as [|t ts IH]; simpl; intros s H (t0&Ht&Hid&Hi) Hv.
  { by apply not_elem_of_nil in Ht. }
  apply bind_Ok in H as (s1&H1&H). destruct (decide (tg_slot t = id /\ tg_index t = i)) as [Hhere|Hno].
  - pose proof (materialize_target_later _ _ _ _ H1) as Hl1. pose proof (materialize_targets_later _ _ _ _ H) as Hl.
    assert (Htv : target_value s t = Some v) by (destruct Hhere as [<- <-]; done).
    unfold materialize_target in H1. rewrite Htv in H1; simpl in H1. rewrite Hc in H1. inv_ok.
    destruct (isNil _) eqn:En; [done|]. inv_ok.
    match goal with Hr : run_ctor _ _ = Ok ?x |- _ => rename Hr into Hrun, x into value end.
    match type of Hv with target_value _ ?t' = _ => assert (Hv1 : target_value (store_value s t value) t' = Some (set_value value v)) end.
    { rewrite store_value_lookup, bool_decide_true by (by split). by rewrite Hv. }
    destruct (later_target _ _ _ _ _ Hl Hv1) as (v'&Hv'&_&Hsame). rewrite Hsame in Hv' by (by split).
    exists value. split; [done|]. apply (constructed_later m c s); [done|by etransitivity|by split].
  - assert (Hv1 : target_value s1 (Target id i 0) = Some v).
    { apply materialize_target_Ok in H1 as (value&_&->). by rewrite store_value_lookup, bool_decide_false by done. }
    apply (IH s1 H); [|done]. apply elem_of_cons in Ht as [->|Ht]; [by destruct Hno|eauto].
Qed.

Lemma module_constructed ms s s' id i v c :
  foldM materialize_module ms s = Ok s' -> rv_owner v ∈ im_id <$> ms ->
  target_value s (Target id i 0) = Some v -> rv_constructor v = Some c -> strict c ->
  exists m value, m ∈ ms /\ im_id m = rv_owner v /\ target_value s' (Target id i 0) = Some (set_value value v) /\ constructed m c s' value.
Proof.
  intros H Ho Hv Hc Hstrict. revert s H Ho Hv. induction ms as [|m ms IH]; simpl; intros s H Ho Hv.
  { by apply not_elem_of_nil in Ho. }
  apply bind_Ok in H as (s1&H1&H). pose proof (materialize_modules_later _ _ _ H) as Hl.
  destruct (decide (im_id m = rv_owner v)) as [Heq|Hne].
  - destruct (target_constructed m _ s s1 id i v c H1) as (value&Hv1&Hcon); [|done..|].
    { exists (Target id i (rv_ordinal v)). split; [|done]. apply elem_of_targets. exists v. rewrite target_value_ordinal.
      split_and!; [done|done|by rewrite Hc|done]. }
    destruct (later_target _ _ _ _ _ Hl Hv1) as (v'&Hv'&_&Hsame). destruct Hcon as [Hn Hr].
    rewrite Hsame in Hv' by (by split). exists m, value. split_and!; [left|done|done|].
    by apply (constructed_later m c s1).
  - apply elem_of_cons in Ho as [Ho|Ho]; [done|].
    assert (Hv1 : target_value s1 (Target id i 0) = Some v).
    { apply materialize_targets in H1 as [[_ Hsh] Hkeep].
      assert (Hsome : is_Some (target_value s1 (Target id i 0))).
      { apply bind_Some in Hv as (r&Hr&Hv). simpl in Hr, Hv. specialize (Hsh id). rewrite Hr in Hsh.
        inversion Hsh as [r0 r' [_ Hvs] Hr0 Hr'|]; subst. destruct (Forall2_lookup_l _ _ _ _ _ Hvs Hv) as (v'&Hv'&_).
        exists v'. unfold target_value; simpl. by rewrite <-Hr'. }
      destruct Hsome as [v' Hv']. destruct (Hkeep id i v' Hv') as (v0&Hv0&_&[[(t&Ht&<-&<-) _]|[_ ->]]); [|congruence].
      apply elem_of_targets in Ht as (v1&Hv1&Ho1&_). exfalso. apply Hne. rewrite <-Ho1.
      change (target_value s t = Some v) in Hv. congruence. }
    destruct (IH s1 H Ho Hv1) as (m'&value&Hm'&?&?&?). exists m', value. split_and!; [by right|done..].
Qed.

(** The fixpoint of a build. *)
Lemma build_constructed b requirements a s id i v c :
  wf_builder b -> build_assembly b requirements = Ok a -> resolveDefaultContributions (b_state b) = Ok s ->
  target_value s (Target id i 0) = Some v -> rv_constructor v = Some c -> strict c ->
  exists m value, m ∈ a_modules a /\ im_id m = rv_owner v /\
    target_value (a_state a) (Target id i 0) = Some (set_value value v) /\ constructed m c (a_state a) value.
Proof.
  intros Hb H Hs Hv Hc Hstrict. unfold build_assembly in H. rewrite Hs in H. inv_ok.
  match goal with Hs : resolveDefaultContributions _ = Ok ?s0 |- _ => rename s0 into s end.
  match goal with Ho : orderModules _ _ = Ok ?o |- _ => rename Ho into Hord, o into out end.
  match goal with Hm : materializeConstructors _ _ = Ok ?f |- _ => rename Hm into Hmat, f into final end. simpl.
  apply (module_constructed out s final); try done.
  pose proof (orderModules_spec s _ (activeModules_NoDup s _ (wb_ids _ Hb))) as Hspec. rewrite Hord in Hspec.
  destruct Hspec as (Hperm&_). pose proof (selected_owner_active b s v Hb Hs (target_value_all _ _ _ _ Hv)) as Hact.
  rewrite Hperm. apply list_elem_of_fmap in Hact as (m&->&Hm). rewrite <-list_fmap_compose.
  rewrite <-(proj1 (with_requirements_id m)). by apply (list_elem_of_fmap_2 (im_id ∘ with_requirements)).
Qed.

End Constructed.
