(* ===== verification/TypeFacts.v ===== *)
(** * Typed lookups do not fail

    The Go type system makes every contribution carry a value of its slot's
    type, and every constructor return one.  The registry keeps that property
    from [Install] to the finished assembly, so the unchecked-looking type
    assertions of the lookups never panic. *)

From S2P Require Import Prelude GoStrings Slots Dependency Assembly.
From S2P Require Import RegistryFacts DefaultsFacts DependencyFacts AssemblyFacts.

Section TypeFacts.
Context {C : Components}.

(** ** Static typing of product code *)
Inductive typed_ctor (T : goType) : ctor -> Prop :=
  | TReturn r : (forall v, r = Ok (Some v) -> hasType v T = true) -> typed_ctor T (CReturn r)
  | TResolve q k : (forall a, typed_ctor T (k a)) -> typed_ctor T (CResolve q k).

Definition typed_slots (T : option goType) (v : option val) (c : option ctor) : Prop :=
  match T with
  | None => False
  | Some T => (forall x, v = Some x -> hasType x T = true) /\ (forall k, c = Some k -> typed_ctor T k)
  end.

(** A contribution built with the functions of [slot.go]; the zero slot has
    no type and no kind. *)
Definition typed_contribution (c : option contributionData) : Prop :=
  match c with
  | None => True
  | Some d => spec_kind (cd_spec d) = noKind \/
      typed_slots (spec_valueType (cd_spec d)) (cd_value d) (cd_constructor d)
  end.

Inductive typed_prog : regProg -> Prop :=
  | TRegReturn err : typed_prog (RegReturn err)
  | TRegContribute cs k : Forall typed_contribution cs -> (forall e, typed_prog (k e)) -> typed_prog (RegContribute cs k).

Inductive typed_reachable : Builder -> Prop :=
  | typed_new : typed_reachable NewBuilder
  | typed_install b m : typed_reachable b -> typed_prog (mod_Register m) -> typed_reachable (Install b (Some m)).1.

Lemma typed_reachable_reachable b : typed_reachable b -> reachable b.
Proof. induction 1; by constructor. Qed.

(** ** The registry keeps types *)
Definition typed_value (T : option goType) (v : registeredValue) : Prop := typed_slots T (rv_value v) (rv_constructor v).
Definition typed_record (r : slotRecord) : Prop := Forall (typed_value (spec_valueType (rec_spec r))) (rec_values r).
Definition typed_registry (s : registryState) : Prop := map_Forall (fun _ r => typed_record r) (byID s).

Lemma apply_typed owner s c s' :
  typed_registry s -> typed_contribution c -> apply owner s c = (s', None) -> typed_registry s'.
Proof.
  intros Hs Hc (data&record&->&->&_&Ht&Hk&_&_&_&->)%apply_success. destruct Hc as [|Hc]; [done|].
  apply map_Forall_insert_2; [|done]. unfold typed_record; simpl. apply Forall_app. rewrite Forall_singleton, Ht.
  split; [|done]. destruct (byID s !! _) as [r|] eqn:Hr; simpl in *; [|constructor]. rewrite <-Ht. by apply (Hs _ _ Hr).
Qed.

Lemma apply_all_typed owner cs s s' :
  typed_registry s -> Forall typed_contribution cs -> apply_all owner s cs = (s', None) -> typed_registry s'.
Proof.
  intros Hs Hcs. revert s Hs; induction Hcs as [|c cs Hc Hcs IH]; simpl; intros s Hs H; [by injection H as <-|].
  destruct (apply owner s c) as [s1 [e|]] eqn:E; [done|]. eapply IH; [|done]. by eapply apply_typed.
Qed.

Lemma run_register_typed p r r' ret :
  typed_prog p -> typed_registry (reg_state r) -> run_register p r = (r', ret) -> reg_failed r' = None ->
  typed_registry (reg_state r').
Proof.
  intros Hp. revert r; induction Hp as [err|cs k Hcs Hk IH]; simpl; intros r Hr H Hf; [by injection H as <- _|].
  destruct (Contribute r cs) as [r1 e] eqn:E. pose proof (run_register_registered _ _ _ _ H Hf) as [Hf1 _].
  eapply IH; [|done..]. unfold Contribute in E. destruct (negb _); [by injection E as <- _|].
  destruct (reg_failed r); [by injection E as <- _|].
  destruct (apply_all _ _ _) as [s e'] eqn:Ea. injection E as <- <-; simpl in *; subst e'.
  by eapply apply_all_typed.
Qed.

Lemma typed_reachable_registry b : typed_reachable b -> typed_registry (b_state b).
Proof.
  induction 1 as [|b m Hb IH Hp]; [done|]. unfold Install.
  destruct (negb _); [done|]. destruct (b_frozen b); [done|]. destruct (existsb _ _); [done|].
  destruct (run_register _ _) as [r ret] eqn:Er. destruct ret; [done|]. destruct (reg_failed r) eqn:Ef; [done|]. simpl.
  eapply (run_register_typed _ _ _ _ Hp); [|done..]. done.
Qed.

Lemma selected_typed b s :
  typed_reachable b -> resolveDefaultContributions (b_state b) = Ok s -> typed_registry s.
Proof.
  intros Hb Hs. pose proof (resolveDefaultContributions_spec _ (wb_registry _ (reachable_wf _ (typed_reachable_reachable _ Hb)))) as H.
  rewrite Hs in H. destruct H as (_&Hsel&_). intros id r'. rewrite Hsel, fmap_Some. intros (r&Hr&->).
  apply Forall_forall. intros v [Hv _]%elem_of_lfilter. pose proof (typed_reachable_registry b Hb _ _ Hr) as Ht.
  by eapply Forall_forall in Ht.
Qed.

Lemma run_ctor_typed T c scope v : typed_ctor T c -> run_ctor scope c = Ok (Some v) -> hasType v T = true.
Proof. induction 1 as [r Hr|q k _ IH]; simpl; eauto. Qed.

Lemma typed_target s t v : typed_registry s -> target_value s t = Some v ->
  exists r, byID s !! tg_slot t = Some r /\ rec_values r !! tg_index t = Some v /\ typed_value (spec_valueType (rec_spec r)) v.
Proof.
  intros Hs (r&Hr&Hv)%bind_Some. exists r. split_and!; [done..|]. pose proof (Hs _ _ Hr) as Ht.
  by eapply Forall_lookup_1 in Ht.
Qed.

Lemma materialize_target_typed m s t s' :
  typed_registry s -> materialize_target m s t = Ok s' -> typed_registry s'.
Proof.
  intros Hs H. unfold materialize_target in H. destruct (v ← target_value s t; rv_constructor v) as [c|] eqn:Ec; [|done].
  apply bind_Some in Ec as (v&Hv&Hc). destruct (typed_target s t v Hs Hv) as (r&Hr&Hi&Ht).
  inv_ok. match goal with Hrun : run_ctor _ _ = Ok ?x |- _ => rename Hrun into Hrun, x into value end.
  destruct (isNil value) eqn:Hnil; [done|]. inv_ok. unfold store_value. intros id r' Hr'; simpl in Hr'.
  destruct (decide (tg_slot t = id)) as [<-|Hne]; [|rewrite lookup_alter_ne in Hr' by done; by apply (Hs id)].
  rewrite lookup_alter_eq, Hr in Hr'. injection Hr' as <-. unfold typed_record; simpl.
  apply Forall_alter; [by apply (Hs _ _ Hr)|]. intros v' Hv' _. assert (v' = v) as -> by congruence.
  unfold typed_value, typed_slots in *; simpl. destruct (spec_valueType (rec_spec r)) as [T|]; [|done].
  split; [|done]. intros x ->. eapply run_ctor_typed; [|done]. by apply Ht.
Qed.

Lemma materialize_typed ms s s' : typed_registry s -> materializeConstructors s ms = Ok s' -> typed_registry s'.
Proof.
  intros Hs H. eapply (foldM_preserves _ typed_registry); [|exact Hs|exact H]. intros m t t' _ Ht Hm.
  eapply (foldM_preserves _ typed_registry); [|exact Ht|exact Hm]. intros. by eapply materialize_target_typed.
Qed.

(** ** The assertions succeed *)
Lemma assertType_ok T v : typed_value T v -> built v -> exists x, rv_value v = Some x /\ assertType T v = Ok x.
Proof.
  unfold typed_value, typed_slots, built, assertType, isNil. destruct T as [T|]; [|done]. intros [Hx _] [_ Hn].
  destruct (rv_value v) as [x|]; [|done]. exists x. by rewrite Hx.
Qed.

Lemma assertAll_ok T vs :
  Forall (typed_value T) vs -> (forall v, v ∈ vs -> built v) ->
  exists named, assertAll T vs = Ok named /\ named.*1 = rv_key <$> vs /\ (fun p => Some p.2) <$> named = rv_value <$> vs.
Proof.
  induction 1 as [|v vs Hv Hvs IH]; simpl; intros Hb; [by exists []|].
  destruct (assertType_ok T v Hv) as (x&Hx&->); [apply Hb; left|].
  destruct IH as (named&->&Hk&Hvals); [intros; apply Hb; by right|].
  exists ((rv_key v, x) :: named). csimpl. by rewrite Hk, Hvals, Hx.
Qed.

(** What the lookups see of a slot. *)
Definition contributions (a : Assembly_) (slot : slotSpec) : list registeredValue :=
  match byID (a_state a) !! spec_id slot with Some r => rec_values r | None => [] end.

Definition same_definition (a : Assembly_) (slot : slotSpec) : Prop :=
  forall r, byID (a_state a) !! spec_id slot = Some r ->
    spec_kind (rec_spec r) = spec_kind slot /\ spec_valueType (rec_spec r) = spec_valueType slot.

Lemma find_record_ok a slot :
  same_definition a slot -> find_record a slot = Ok (byID (a_state a) !! spec_id slot).
Proof.
  unfold same_definition, find_record. destruct (byID (a_state a) !! spec_id slot) as [r|]; [|done].
  intros H. destruct (H r eq_refl) as [Hk Ht]. by rewrite !bool_decide_true.
Qed.

Lemma contributions_typed a slot :
  typed_registry (a_state a) -> same_definition a slot -> Forall (typed_value (spec_valueType slot)) (contributions a slot).
Proof.
  unfold same_definition, contributions. destruct (byID (a_state a) !! spec_id slot) as [r|] eqn:Hr; [|constructor].
  intros Ht H. destruct (H r eq_refl) as [_ <-]. by apply (Ht _ _ Hr).
Qed.

Lemma contributions_all a slot v : v ∈ contributions a slot -> v ∈ all_values (a_state a).
Proof.
  unfold contributions. rewrite elem_of_all_values. destruct (byID _ !! _) as [r|] eqn:Hr; [eauto|].
  by intros ?%not_elem_of_nil.
Qed.

(** C6: the lookups of a built assembly are total and typed.  For products
    whose code is well typed and a slot handle that agrees with the installed
    definition, [All] returns every contribution with its key in registration
    order, [Get] the first one, [Lookup] the one with the key, and none of
    them panics on its type assertion; a handle with a conflicting definition
    is the only panic. *)
Theorem lookups_typed (b b' : Builder) (requirements : list Requirement) (a : Assembly_) (slot : slotSpec)
    (Hb : typed_reachable b) (Ha : Build b requirements = (b', Ok a)) :
  (same_definition a slot ->
    (exists named, All a slot = Ok named /\ Ordered a slot = Ok named.*2 /\
       named.*1 = rv_key <$> contributions a slot /\ (fun p => Some p.2) <$> named = rv_value <$> contributions a slot) /\
    Get a slot = Ok (head (contributions a slot) ≫= rv_value) /\
    forall key, Lookup_ a slot key = Ok (find (fun v => String.eqb (rv_key v) key) (contributions a slot) ≫= rv_value)) /\
  (~ same_definition a slot ->
    Get a slot = Panic "agentslot: slot was resolved with a conflicting definition").
Proof.
  assert (Hbuild : build_assembly b requirements = Ok a).
  { unfold Build in Ha. destruct (build_assembly b requirements); by simplify_eq. }
  pose proof (build_assembly_wf b requirements a (reachable_wf _ (typed_reachable_reachable _ Hb)) Hbuild) as Hwf.
  assert (Htyped : typed_registry (a_state a)).
  { unfold build_assembly in Hbuild. inv_ok. simpl. eapply materialize_typed; [|done]. by eapply selected_typed. }
  split.
  - intros Hdef. pose proof (contributions_typed a slot Htyped Hdef) as Ht.
    assert (Hbu : forall v, v ∈ contributions a slot -> built v) by (intros; by eapply wa_built, contributions_all).
    pose proof (find_record_ok a slot Hdef) as Hf. unfold Get, Lookup_, Ordered, All. rewrite Hf. simpl.
    unfold contributions in *. destruct (byID (a_state a) !! spec_id slot) as [r|]; simpl; [|split_and!; [by exists []|done..]].
    split_and!.
    + destruct (assertAll_ok _ _ Ht Hbu) as (named&->&?&?). by exists named.
    + destruct (rec_values r) as [|v vs]; simpl; [done|].
      destruct (assertType_ok (spec_valueType slot) v) as (x&->&->); [by apply Forall_cons in Ht as [? _]|apply Hbu; left|done].
    + intros key. destruct (find _ _) as [v|] eqn:Hfind; simpl; [|done].
      apply find_some in Hfind as [Hv%list_elem_of_In _].
      destruct (assertType_ok (spec_valueType slot) v) as (x&->&->); [by eapply Forall_forall in Ht|by apply Hbu|done].
  - intros Hno. unfold Get, find_record, same_definition in *. destruct (byID _ !! _) as [r|]; [|by destruct Hno].
    case_bool_decide as Hk; [|done]. case_bool_decide as Hty; [|done]. destruct Hno. by intros ? [= <-].
Qed.

End TypeFacts.

(** ** Witnesses *)
Module BuildSample.
Import Sample.

(** A module that builds its component from the job store. *)
Definition scheduler_slot : slotSpec := SlotSpec "workflow.scheduler" oneKind (Some "Scheduler").
Definition scheduler_ctor : ctor :=
  CResolve (QOne store_slot) (fun store =>
    CReturn (match store with Ok _ => Ok (Some ("Scheduler", false)) | Err e => Err e | Panic msg => Panic msg end)).
Definition scheduler_module : Module_ := MkModule "scheduler"
  (RegContribute [Some (SetWith scheduler_slot (Some scheduler_ctor))] RegReturn) (Some [RequireOne store_slot]) true.
Definition builder2 : Builder := (Install (Install NewBuilder (Some scheduler_module)).1 (Some store_module)).1.
Definition assembly2 : Assembly_ :=
  match Build builder2 [RequireOne scheduler_slot] with (_, Ok a) => a | _ => MkAssembly newRegistryState [] [] end.

(** A module whose constructor resolves a slot it has yet to fill itself. *)
Definition selfish_module : Module_ := MkModule "selfish"
  (RegContribute [Some (SetWith scheduler_slot (Some scheduler_ctor));
                  Some (SetWith store_slot (Some (CReturn (Ok (Some ("JobStore", false))))))] RegReturn)
  (Some [RequireOne store_slot]) false.
Definition builder3 : Builder := (Install NewBuilder (Some selfish_module)).1.
Definition selected3 : registryState :=
  match resolveDefaultContributions (b_state builder3) with Ok s => s | _ => newRegistryState end.
Definition selfish : installedModule := InstalledModule "selfish" selfish_module [RequireOne store_slot] true.

Lemma builder2_typed : typed_reachable builder2.
Proof.
  assert (Hok : forall r : result (option (string * bool)), forall v : string * bool,
    match r with Ok _ => Ok (Some ("Scheduler", false)) | Err e => Err e | Panic msg => Panic msg end = Ok (Some v) ->
    String.eqb v.1 "Scheduler" = true) by (intros [x|e|m] v H; by inversion H).
  apply typed_install; [apply typed_install; [apply typed_new|]|]; (constructor; [|constructor]); (apply Forall_singleton; right; split).
  - done.
  - intros k [= <-]. constructor. intros r. constructor. intros v. apply (Hok r).
  - by intros x [= <-].
  - done.
Qed.

End BuildSample.

Lemma Build_sound_witness :
  reachable BuildSample.builder2 /\
  wf_assembly BuildSample.builder2 [RequireOne BuildSample.scheduler_slot] BuildSample.assembly2.
Proof.
  assert (Hr : reachable BuildSample.builder2) by (repeat constructor).
  split; [exact Hr|].
  pose proof (Build_sound BuildSample.builder2 [RequireOne BuildSample.scheduler_slot] Hr) as H.
  assert (Hok : is_ok (Build BuildSample.builder2 [RequireOne BuildSample.scheduler_slot]).2 = true) by (vm_compute; reflexivity).
  unfold BuildSample.assembly2. destruct (Build _ _) as [b' [a|e|msg]]; [exact (proj1 H)|discriminate Hok..].
Defined.

Lemma resolver_not_ready_own_witness :
  exists e, resolve (Some (ResolverScope BuildSample.selected3 [RequireOne Sample.store_slot] true)) Sample.store_slot "" false = Err e /\
    e = ErrWrap ErrDependencyNotReady "slot contribution from module" [AStr "job.store"; AStr "selfish"].
Proof.
  eexists. split; [vm_compute; reflexivity|].
  assert (Hc : constructing BuildSample.builder3 BuildSample.selfish BuildSample.selected3).
  { exists BuildSample.selected3, [BuildSample.selfish], [], [], BuildSample.selected3, [],
      (constructorTargetsForOwner BuildSample.selected3 "selfish").
    repeat split; vm_compute; reflexivity. }
  destruct (resolver_not_ready_own BuildSample.builder3 BuildSample.selfish BuildSample.selected3 Sample.store_slot "" false
    (ErrWrap ErrDependencyNotReady "slot contribution from module" [AStr "job.store"; AStr "selfish"])) as (v&_&_&_&He).
  - apply reachable_install, reachable_new.
  - exact Hc.
  - vm_compute; reflexivity.
  - reflexivity.
  - exact He.
Defined.

Lemma lookups_typed_witness :
  Get BuildSample.assembly2 BuildSample.scheduler_slot = Ok (Some ("Scheduler", false)).
Proof.
  assert (Ha : Build BuildSample.builder2 [RequireOne BuildSample.scheduler_slot] =
    ((Build BuildSample.builder2 [RequireOne BuildSample.scheduler_slot]).1, Ok BuildSample.assembly2)) by (vm_compute; reflexivity).
  destruct (lookups_typed _ _ _ _ BuildSample.scheduler_slot BuildSample.builder2_typed Ha) as [H _].
  destruct H as (_&Hget&_).
  { intros r Hr. vm_compute in Hr. injection Hr as <-. split; reflexivity. }
  rewrite Hget. vm_compute. reflexivity.
Defined.
