(* ===== verification/LifecycleFacts.v ===== *)
(** * The calls an assembly and an application make over their lifetime

    Lifecycle.v records every [Start] and [Stop] call in a trace.  This file
    shows which traces are possible: a single pass of starts in dependency
    order, undone in reverse either by a rollback or by [Runtime.Stop], and
    nothing else, whatever sequence of calls the product makes. *)

From S2P Require Import Prelude GoStrings Slots Dependency Assembly Lifecycle.
From S2P Require Import RegistryFacts DefaultsFacts DependencyFacts AssemblyFacts TypeFacts.

(** The modules [Assembly.Start] calls, in order. *)
Definition lifecycle_ids `{Components} (ms : list installedModule) : list string :=
  im_id <$> List.filter (fun m => mod_lifecycle (im_module m)) ms.

(** The start pass over [ids] stopped at [failed] and was rolled back.  The
    context may have been cancelled before [failed] was called. *)
Inductive rolled_back (ids : list string) : list call -> Prop :=
  | rolled_back_intro done failed rest attempt :
      ids = done ++ failed :: rest -> attempt = [] \/ attempt = [CallStart failed] ->
      rolled_back ids ((CallStart <$> done) ++ attempt ++ (CallStop <$> rev done)).

(** All calls of one lifetime. *)
Inductive disciplined (ids : list string) : list call -> Prop :=
  | disciplined_idle : disciplined ids []
  | disciplined_rolled_back tr : rolled_back ids tr -> disciplined ids tr
  | disciplined_running : disciplined ids (CallStart <$> ids)
  | disciplined_stopped : disciplined ids ((CallStart <$> ids) ++ (CallStop <$> rev ids)).

Section LifecycleFacts.
Context {C : Components} {W : Type} {L : Lifecycles W}.

Lemma stop_each_trace text ids (w w' : traced W) errs :
  stop_each text ids w = (w', errs) -> w'.2 = w.2 ++ (CallStop <$> ids).
Proof.
  revert w w' errs; induction ids as [|id ids IH]; simpl; intros w w' errs H; [injection H as <- _; by rewrite app_nil_r|].
  unfold call_stop in H. destruct (stop id w.1) as [v1 err].
  destruct (stop_each text ids (v1, w.2 ++ [CallStop id])) as [w2 errs2] eqn:E. injection H as <- _.
  apply IH in E. rewrite E; simpl. by rewrite <-app_assoc.
Qed.

Lemma rollbackStart_trace active failed e (w w' : traced W) err :
  rollbackStart active failed e w = (w', err) ->
  w'.2 = w.2 ++ (CallStop <$> rev active) /\
  exists errs, err = ErrJoin (ErrWrap e "start module" [AStr failed] :: errs).
Proof.
  unfold rollbackStart. destruct (stop_each _ _ w) as [w1 errs] eqn:E. intros [= <- <-].
  split; [by eapply stop_each_trace|eauto].
Qed.

Lemma lifecycle_ids_cons m ms :
  lifecycle_ids (m :: ms) = if mod_lifecycle (im_module m) then im_id m :: lifecycle_ids ms else lifecycle_ids ms.
Proof. unfold lifecycle_ids; simpl. by destruct (mod_lifecycle _). Qed.

Lemma start_loop_trace ms active (w w' : traced W) r :
  start_loop ms active w = (w', r) ->
  match r with
  | inl rt => rt = MkRuntime (active ++ lifecycle_ids ms) false None /\
      w'.2 = w.2 ++ (CallStart <$> lifecycle_ids ms)
  | inr e => exists done failed rest attempt cause errs,
      lifecycle_ids ms = done ++ failed :: rest /\ (attempt = [] \/ attempt = [CallStart failed]) /\
      w'.2 = w.2 ++ (CallStart <$> done) ++ attempt ++ (CallStop <$> rev (active ++ done)) /\
      e = ErrJoin (ErrWrap cause "start module" [AStr failed] :: errs)
  end.
Proof.
  revert active w w' r; induction ms as [|m ms IH]; intros active w w' r; simpl.
  { intros [= <- <-]. by rewrite !app_nil_r. }
  rewrite lifecycle_ids_cons. destruct (mod_lifecycle (im_module m)); simpl; [|by apply IH].
  destruct (ctx_err w.1) as [e|].
  { destruct (rollbackStart _ _ _ _) as [w1 err] eqn:E. intros [= <- <-].
    apply rollbackStart_trace in E as [E1 [errs ->]].
    exists [], (im_id m), (lifecycle_ids ms), [], e, errs. rewrite app_nil_r. split_and!; auto. }
  unfold call_start. destruct (start (im_id m) w.1) as [v1 [e|]].
  { destruct (rollbackStart _ _ _ _) as [w1 err] eqn:E. intros [= <- <-].
    apply rollbackStart_trace in E as [E1 [errs ->]].
    exists [], (im_id m), (lifecycle_ids ms), [CallStart (im_id m)], e, errs. rewrite app_nil_r.
    split_and!; auto. rewrite E1. by simplify_list_eq. }
  intros H%IH. destruct r as [rt|e].
  - destruct H as [-> Ht]. rewrite Ht. simplify_list_eq. done.
  - destruct H as (done&failed&rest&attempt&cause&errs&Hids&Ha&Ht&->).
    exists (im_id m :: done), failed, rest, attempt, cause, errs. rewrite Ht, Hids; simpl.
    split_and!; auto. by simplify_list_eq.
Qed.

Lemma Stop_running ids (w w' : traced W) rt err :
  Stop (MkRuntime ids false None) w = (rt, (w', err)) ->
  rt = MkRuntime ids true err /\ w'.2 = w.2 ++ (CallStop <$> rev ids).
Proof.
  unfold Stop; simpl. destruct (stop_each _ _ w) as [w1 errs] eqn:E. intros [= <- <- <-].
  split; [done|by eapply stop_each_trace].
Qed.

Lemma Stop_stopped rt (w : traced W) : rt_stopped rt = true -> Stop rt w = (rt, (w, rt_stopErr rt)).
Proof. unfold Stop. by intros ->. Qed.

(** ** One assembly *)


(** ** Applications *)

(** What a product can do with an application and the runtime it got; the
    world may change in between. *)
Inductive app_op := OpBuild | OpStart | OpStop | OpWorld (f : W -> W).

Record app_state := AppState { as_app : Application; as_runtime : option Runtime; as_world : traced W }.

Definition app_step (st : app_state) (op : app_op) : app_state :=
  match op with
  | OpBuild => AppState (Application_Build (as_app st)).1 (as_runtime st) (as_world st)
  | OpStart =>
    match Application_Start (as_app st) (as_world st) with
    | (app, (w, Ok rt)) => AppState app (Some rt) w
    | (app, (w, _)) => AppState app (as_runtime st) w
    end
  | OpStop =>
    match as_runtime st with
    | None => st
    | Some rt => let '(rt', (w, _)) := Stop rt (as_world st) in AppState (as_app st) (Some rt') w
    end
  | OpWorld f => AppState (as_app st) (as_runtime st) (f (as_world st).1, (as_world st).2)
  end.

Definition app_run (st : app_state) (ops : list app_op) : app_state := fold_left app_step ops st.

(** The modules mounted so far are the installed ones; a module is never
    installed twice, however often the build is retried. *)
Record wf_application (app : Application) : Prop := {
  wapp_builder : reachable (app_builder app) \/ is_Some (app_assembly app);
  wapp_mounted : app_mounted app = length (b_modules (app_builder app));
  wapp_modules : (fun m => Some (im_module m)) <$> b_modules (app_builder app) = take (app_mounted app) (app_modules app);
  wapp_ids : match app_assembly app with Some a => NoDup (im_id <$> a_modules a) | None => True end;
  wapp_started : app_started app = true -> is_Some (app_assembly app);
}.

Lemma mount_spec ms n b n' b' err :
  mount ms n b = (n', b', err) -> reachable b ->
  reachable b' /\ exists k, (k <= length ms)%nat /\ n' = (n + k)%nat /\
    (fun m => Some (im_module m)) <$> b_modules b' = ((fun m => Some (im_module m)) <$> b_modules b) ++ take k ms /\
    (err = None -> k = length ms).
Proof.
  revert n b; induction ms as [|m ms IH]; simpl; intros n b H Hb.
  { injection H as <- <- <-. split; [done|]. exists 0. rewrite app_nil_r. split_and!; [lia..|done|done]. }
  destruct (Install b m) as [b1 [e|]] eqn:E.
  { injection H as <- <- <-. apply Install_error_unchanged in E as ->. split; [done|].
    exists 0. rewrite app_nil_r. split_and!; [lia..|done|done]. }
  pose proof E as E'. destruct m as [m|]; [|done]. apply Install_success in E' as (_&_&_&_&_&c&Hms&_).
  apply IH in H as (Hb'&k&Hk&->&Hmod&Herr); [|replace b1 with (Install b (Some m)).1 by (by rewrite E); by apply reachable_install].
  split; [done|]. exists (S k). rewrite Hmod, Hms, fmap_app, <-app_assoc; simpl.
  split_and!; [lia..|done|]. intros He; by rewrite Herr.
Qed.

Lemma Build_modules_ids b reqs b' a :
  reachable b -> Build b reqs = (b', Ok a) -> NoDup (im_id <$> a_modules a).
Proof.
  intros Hb%reachable_wf H. unfold Build in H. destruct (build_assembly b reqs) as [a'|e|msg] eqn:E; injection H as _ H; try done.
  subst a'. apply build_assembly_wf in E; [|done]. destruct (wa_modules _ _ _ E) as (s&Hs&_&Hp).
  rewrite Hp, <-list_fmap_compose.
  rewrite (list_fmap_ext (im_id ∘ with_requirements) im_id (activeModules s (b_modules b)));
    [by apply activeModules_NoDup, (wb_ids _ Hb)|]. intros ? m _. apply with_requirements_id.
Qed.

Lemma Application_Build_wf app app' r :
  Application_Build app = (app', r) -> wf_application app ->
  wf_application app' /\ app_started app' = app_started app /\
  (forall a, app_assembly app = Some a -> app' = app /\ r = Ok a) /\
  match r with Ok a => app_assembly app' = Some a | _ => app_assembly app' = None end.
Proof.
  intros H [Hb Hmt Hm Hids Hst]. unfold Application_Build in H.
  destruct (app_assembly app) as [a|] eqn:Ea.
  { injection H as <- <-. split_and!; [by split; rewrite ?Ea; eauto|done|by intros ? [= ->]|done]. }
  destruct Hb as [Hb|[? [=]]]. destruct (app_started app) eqn:Es; [by destruct (Hst eq_refl)|].
  destruct (negb _).
  { injection H as <- <-. split_and!; [|done..]. split; rewrite ?Ea, ?Es; auto. }
  destruct (mount _ _ _) as [[n b] err] eqn:E. apply mount_spec in E as (Hb'&k&Hk&->&Hmod&Herr); [|done].
  rewrite length_drop in Hk.
  assert (Hlen : (app_mounted app <= length (app_modules app))%nat).
  { apply (f_equal length) in Hm. rewrite length_fmap, length_take in Hm. lia. }
  assert (Hmod' : (fun m => Some (im_module m)) <$> b_modules b = take (app_mounted app + k) (app_modules app)).
  { rewrite Hmod, Hm. by rewrite take_take_drop. }
  assert (Hn : (app_mounted app + k)%nat = length (b_modules b)).
  { apply (f_equal length) in Hmod'. rewrite length_fmap, length_take in Hmod'. lia. }
  destruct err as [e|].
  { injection H as <- <-. split_and!; simpl; [|by auto..]. split; simpl; auto. by rewrite Es. }
  destruct (Build b _) as [b2 built] eqn:E. destruct built as [a|e|msg].
  - injection H as <- <-. split_and!; simpl; [|by auto..]. pose proof (Build_modules_ids _ _ _ _ Hb' E) as Hnd.
    unfold Build in E. destruct (build_assembly b _); simplify_eq. split; simpl; auto; eauto.
  - unfold Build in E. destruct (build_assembly b _); simplify_eq.
    split_and!; simpl; [|by auto..]. split; simpl; auto. by rewrite Es.
  - unfold Build in E. destruct (build_assembly b _); simplify_eq.
    split_and!; simpl; [|by auto..]. split; simpl; auto. by rewrite Es.
Qed.

(** The invariant of a product's lifetime: which calls were made is decided by
    the state of the application and of its runtime. *)
Record wf_lifetime (st : app_state) : Prop := {
  wl_app : wf_application (as_app st);
  wl_trace : match app_assembly (as_app st) with
    | None => as_runtime st = None /\ (as_world st).2 = []
    | Some a =>
      let ids := lifecycle_ids (a_modules a) in
      if app_started (as_app st) then
        match as_runtime st with
        | None => rolled_back ids (as_world st).2
        | Some rt => rt_active rt = ids /\ (as_world st).2 = (CallStart <$> ids) ++
            (if rt_stopped rt then CallStop <$> rev ids else []) /\ (rt_stopped rt = false -> rt_stopErr rt = None)
        end
      else as_runtime st = None /\ (as_world st).2 = []
    end;
}.

Lemma Application_Start_wf st : wf_lifetime st -> wf_lifetime (app_step st OpStart).
Proof.
  intros [Hwf Htr]; simpl. unfold Application_Start.
  destruct (Application_Build (as_app st)) as [app' r] eqn:E.
  apply Application_Build_wf in E as (Hwf'&Hst&Hold&Hr); [|done].
  destruct r as [a|e|msg]; simpl.
  2,3: destruct (app_assembly (as_app st)) as [a|]; [by destruct (Hold a eq_refl)|]; split; simpl; [done|by rewrite Hr].
  assert (Hidle : app_started (as_app st) = false -> as_runtime st = None /\ (as_world st).2 = []).
  { intros Hs. rewrite Hs in Htr. by destruct (app_assembly (as_app st)). }
  destruct Hwf' as [W1 W2 W3 W4 W5]. rewrite Hst. unfold Start. destruct (app_started (as_app st)) eqn:Es; simpl.
  - destruct (wapp_started _ Hwf Es) as [a0 Ha0]. destruct (Hold a0 Ha0) as [-> [= ->]].
    split; simpl; [by split|]. rewrite Ha0 in Htr. by rewrite Ha0.
  - destruct (Hidle eq_refl) as [Hrt Hw]. rewrite Hr in W1, W4.
    destruct (start_loop _ _ _) as [w1 [rt|e]] eqn:El; apply start_loop_trace in El; simpl.
    + destruct El as [-> Ht]. split; simpl; [split; simpl; rewrite ?Hr; eauto|]. rewrite Hr; simpl.
      rewrite Ht, Hw, app_nil_r. done.
    + destruct El as (done&failed&rest&attempt&cause&errs&Hids&Ha&Ht&_).
      split; simpl; [split; simpl; rewrite ?Hr; eauto|]. rewrite Hr, Hrt; simpl. rewrite Ht, Hw; simpl.
      by apply (rolled_back_intro _ done failed rest).
Qed.

Lemma app_step_wf st op : wf_lifetime st -> wf_lifetime (app_step st op).
Proof.
  intros H. destruct op; [|by apply Application_Start_wf|..]; destruct H as [Hwf Htr]; simpl.
  - destruct (Application_Build (as_app st)) as [app' r] eqn:E. apply Application_Build_wf in E as (Hwf'&Hst&Hold&Hr); [|done].
    split; simpl; [done|]. destruct (app_assembly (as_app st)) as [a|] eqn:Ea.
    { destruct (Hold a eq_refl) as [-> _]. by rewrite Ea. }
    rewrite Hst. destruct (app_started (as_app st)) eqn:Es; [by destruct (wapp_started _ Hwf Es); congruence|].
    by destruct (app_assembly app').
  - destruct (as_runtime st) as [rt|] eqn:Ert; [|split; by rewrite ?Ert].
    destruct (app_assembly (as_app st)) as [a|] eqn:Ea; [|by destruct Htr].
    destruct (app_started (as_app st)) eqn:Es; [|by destruct Htr].
    destruct Htr as (Hact&Ht&Herr). destruct (rt_stopped rt) eqn:Est.
    + rewrite Stop_stopped by done. split; simpl; [done|]. by rewrite Ea, Es, Est.
    + destruct rt as [act stp se]; simpl in *. subst stp. rewrite (Herr eq_refl).
      destruct (Stop _ _) as [rt' [w' err]] eqn:E. apply Stop_running in E as [-> Ht'].
      split; simpl; [done|]. rewrite Ea, Es; simpl. rewrite Ht', Ht, app_nil_r, Hact. done.
  - by split.
Qed.

Lemma app_run_wf st ops : wf_lifetime st -> wf_lifetime (app_run st ops).
Proof. revert st; induction ops as [|op ops IH]; simpl; intros st H; [done|by apply IH, app_step_wf]. Qed.

Lemma app_run_assembly st ops a :
  wf_lifetime st -> app_assembly (as_app st) = Some a -> app_assembly (as_app (app_run st ops)) = Some a.
Proof.
  revert st; induction ops as [|op ops IH]; simpl; intros st H Ha; [done|].
  apply IH; [by apply app_step_wf|]. destruct H as [Hwf _]. destruct op; simpl; [| |by repeat case_match|done].
  - by unfold Application_Build; rewrite Ha.
  - unfold Application_Start, Application_Build. rewrite Ha; simpl. by destruct (Start _ _ _) as [? [? [?|?]]].
Qed.

Definition fresh_application (name : string) (ms : list (option Module_)) (reqs : list Requirement) (w : W) : app_state :=
  AppState (NewApplication name ms reqs) None (w, []).

Lemma fresh_wf name ms reqs w : wf_lifetime (fresh_application name ms reqs w).
Proof. split; simpl; [|done]. split; simpl; [left; constructor|done..]. Qed.

Lemma lifecycle_ids_NoDup ms : NoDup (im_id <$> ms) -> NoDup (lifecycle_ids ms).
Proof.
  intros H. unfold lifecycle_ids. induction ms as [|m ms IH]; csimpl in *; [done|].
  apply NoDup_cons in H as [Hn H]. destruct (mod_lifecycle _); csimpl; [|auto].
  constructor; [|auto]. intros Hin. apply Hn. apply list_elem_of_fmap in Hin as (m'&->&Hm').
  apply list_elem_of_fmap. exists m'. split; [done|]. apply list_elem_of_In in Hm'. apply filter_In in Hm' as [Hm' _]. by apply list_elem_of_In.
Qed.

(** The lifetime of an application.  Whatever the product does with it,
    builds, starts and stops in any order and number, modules are installed at
    most once each and in their declared order, and once an assembly exists it
    is the one every later call sees; the calls made to its lifecycle modules
    are nothing, one rolled back pass, one pass of starts, or one pass of
    starts followed by all stops in reverse. *)
Theorem application_lifetime (name : string) (ms : list (option Module_)) (reqs : list Requirement) (w : W)
    (ops1 ops2 : list app_op) :
  let st1 := app_run (fresh_application name ms reqs w) ops1 in
  let st2 := app_run st1 ops2 in
  (fun m => Some (im_module m)) <$> b_modules (app_builder (as_app st1)) `prefix_of` ms /\
  match app_assembly (as_app st1) with
  | Some a =>
    app_assembly (as_app st2) = Some a /\ NoDup (lifecycle_ids (a_modules a)) /\
    disciplined (lifecycle_ids (a_modules a)) (as_world st2).2
  | None => (as_world st1).2 = []
  end.
Proof.
  intros st1 st2. pose proof (app_run_wf _ ops1 (fresh_wf name ms reqs w)) as H1. fold st1 in H1.
  pose proof (app_run_wf st1 ops2 H1) as H2. fold st2 in H2. split.
  - pose proof (wapp_modules _ (wl_app _ H1)) as Hm. rewrite Hm.
    assert (Hms : app_modules (as_app st1) = ms).
    { unfold st1. clear. generalize (eq_refl : app_modules (as_app (fresh_application name ms reqs w)) = ms).
      generalize (fresh_application name ms reqs w). induction ops1 as [|op ops IH]; simpl; intros st Hst; [done|].
      apply IH. destruct op; simpl; [| |by repeat case_match|done].
      - unfold Application_Build. repeat case_match; simpl; congruence.
      - unfold Application_Start, Application_Build, Start. repeat (case_match; simplify_eq; simpl); congruence. }
    rewrite Hms. exists (drop (app_mounted (as_app st1)) ms). by rewrite take_drop.
  - destruct (app_assembly (as_app st1)) as [a|] eqn:Ea.
    + pose proof (app_run_assembly st1 ops2 a H1 Ea) as Ha. fold st2 in Ha. split_and!; [done| |].
      * apply lifecycle_ids_NoDup. pose proof (wapp_ids _ (wl_app _ H1)) as Hi. by rewrite Ea in Hi.
      * destruct H2 as [_ Ht]. rewrite Ha in Ht. simpl in Ht. destruct (app_started _); [|destruct Ht as [_ ->]; constructor].
        destruct (as_runtime st2) as [rt|]; [|by apply disciplined_rolled_back].
        destruct Ht as (_&->&_). destruct (rt_stopped rt); [apply disciplined_stopped|rewrite app_nil_r; apply disciplined_running].
    + destruct H1 as [_ Ht]. rewrite Ea in Ht. by destruct Ht.
Qed.

End LifecycleFacts.
