(* ===== verification/AgentTypes.v ===== *)
(** * Provider-neutral domain values

    Models [agent/types.go]: identities, actors, messages, tool calls and the
    classified errors that cross component boundaries.  The identity types are
    distinct Go types over strings; they are all [string] here.  Times are
    nanoseconds since Go's zero time, so that [IsZero] is equality with 0. *)

From S2P Require Import Prelude GoStrings.

(** What the program promises itself of package [internal/jsonvalue] and uses
    of [encoding/json]: [json.Valid], [jsonvalue.Valid] and [jsonvalue.Equal]
    on raw bytes. *)
Class JsonOps : Type := {
  json_Valid : string -> bool;
  jsonvalue_Valid : string -> bool;
  jsonvalue_Equal : string -> string -> bool;
  jsonvalue_Equal_refl : forall raw, jsonvalue_Valid raw = true -> jsonvalue_Equal raw raw = true;
  jsonvalue_Equal_sym : forall a b, jsonvalue_Equal a b = true -> jsonvalue_Equal b a = true;
  jsonvalue_Equal_trans : forall a b c, jsonvalue_Equal a b = true -> jsonvalue_Equal b c = true -> jsonvalue_Equal a c = true;
}.

(** [validID] and the [Valid] methods of the identity types. *)
Definition ID_Valid (id : string) : bool := validID id.

(** [time.Time] *)
Notation Time := Z (only parsing).
Definition IsZero (t : Time) : bool := Z.eqb t 0.
Definition Before (a b : Time) : bool := Z.ltb a b.

(** [Revision.Next] *)
Definition Next (r : Z) : Z := u64 (r + 1).

Inductive ActorKind := ActorLocalUser | ActorRemoteUser | ActorService | ActorAgent | ActorOther (s : string).
#[export] Instance ActorKind_eq_dec : EqDecision ActorKind.
Proof. solve_decision. Defined.

Definition ActorKind_Valid (k : ActorKind) : bool := match k with ActorOther _ => false | _ => true end.

Record ActorIdentity := MkActorIdentity { actor_Kind : ActorKind; actor_ID : string }.
#[export] Instance ActorIdentity_eq_dec : EqDecision ActorIdentity.
Proof. solve_decision. Defined.

(** The zero value [ActorIdentity{}]. *)
Definition no_actor : ActorIdentity := MkActorIdentity (ActorOther "") "".

Definition ActorIdentity_Valid (a : ActorIdentity) : bool := ActorKind_Valid (actor_Kind a) && validID (actor_ID a).

Inductive Role := RoleUser | RoleAssistant | RoleTool | RoleOther (s : string).
#[export] Instance Role_eq_dec : EqDecision Role.
Proof. solve_decision. Defined.

Definition Role_Valid (r : Role) : bool := match r with RoleOther _ => false | _ => true end.

Inductive MessagePartKind := PartText | PartAttachment | PartOther (s : string).
#[export] Instance MessagePartKind_eq_dec : EqDecision MessagePartKind.
Proof. solve_decision. Defined.

Record MessagePart := MkMessagePart {
  part_Kind : MessagePartKind;
  part_Text : string;
  part_AttachmentID : string;
  part_MediaType : string;
  part_Name : string;
}.
#[export] Instance MessagePart_eq_dec : EqDecision MessagePart.
Proof. solve_decision. Defined.

Definition empty (s : string) : bool := String.eqb s "".
Definition nonempty (s : string) : bool := negb (String.eqb s "").
(** [x != nil] on a pointer. *)
Definition present {A} (p : option A) : bool := match p with Some _ => true | None => false end.
Definition absent {A} (p : option A) : bool := negb (present p).

Definition MessagePart_Valid (p : MessagePart) : bool :=
  match part_Kind p with
  | PartText => nonempty (part_Text p) && empty (part_AttachmentID p) && empty (part_MediaType p) && empty (part_Name p)
  | PartAttachment => empty (part_Text p) && nonempty (part_AttachmentID p) && nonempty (part_MediaType p)
  | PartOther _ => false
  end.

(** A [MessageInput] is its parts. *)
Definition MessageInput := list MessagePart.
Definition MessageInput_Valid (parts : MessageInput) : bool :=
  match parts with [] => false | _ => forallb MessagePart_Valid parts end.

Record ModelContinuation := MkModelContinuation { mc_ProviderKey : string; mc_ModelID : string; mc_State : string }.
#[export] Instance ModelContinuation_eq_dec : EqDecision ModelContinuation.
Proof. solve_decision. Defined.

Record Message := MkMessage {
  msg_ID : string;
  msg_ClientMessageID : string;
  msg_SessionID : string;
  msg_RunID : string;
  msg_StepID : string;
  msg_Role : Role;
  msg_Parts : list MessagePart;
  msg_ModelContinuation : option ModelContinuation;
  msg_CreatedAt : Time;
}.
#[export] Instance Message_eq_dec : EqDecision Message.
Proof. solve_decision. Defined.

Record ToolCall := MkToolCall {
  call_ID : string;
  call_CorrelationID : string;
  call_MessageID : string;
  call_SessionID : string;
  call_RunID : string;
  call_StepID : string;
  call_Name : string;
  call_Arguments : string;
}.
#[export] Instance ToolCall_eq_dec : EqDecision ToolCall.
Proof. solve_decision. Defined.

Section AgentTypes.
Context {J : JsonOps}.

Definition ModelContinuation_Valid (c : ModelContinuation) : bool :=
  nonempty (mc_ModelID c) && nonempty (mc_State c) && json_Valid (mc_State c).

Definition Message_Valid (m : Message) : bool :=
  if negb (ID_Valid (msg_ID m)) || negb (ID_Valid (msg_SessionID m)) || negb (Role_Valid (msg_Role m)) ||
     (nonempty (msg_ClientMessageID m) && negb (ID_Valid (msg_ClientMessageID m))) then false
  else if (match msg_ModelContinuation m with
           | Some c => negb (bool_decide (msg_Role m = RoleAssistant)) || negb (ID_Valid (msg_RunID m)) ||
                       negb (ID_Valid (msg_StepID m)) || negb (ModelContinuation_Valid c)
           | None => false
           end) then false
  else match msg_Parts m with
  | [] => bool_decide (msg_Role m = RoleAssistant) && ID_Valid (msg_RunID m) && ID_Valid (msg_StepID m)
  | parts => forallb MessagePart_Valid parts
  end.

Definition ToolCall_Valid (c : ToolCall) : bool :=
  ID_Valid (call_ID c) && ID_Valid (call_MessageID c) && ID_Valid (call_SessionID c) &&
  ID_Valid (call_RunID c) && ID_Valid (call_StepID c) && nonempty (call_Name c) && jsonvalue_Valid (call_Arguments c).

End AgentTypes.

Record Session := MkSession {
  sess_ID : string;
  sess_AgentID : string;
  sess_WorkspaceID : string;
  sess_ParentSessionID : string;
  sess_ParentRevision : Z;
  sess_Revision : Z;
}.

(** ** Classified errors *)
Definition ErrorInvalidInput := "invalid_input".
Definition ErrorConflict := "conflict".
Definition ErrorNotFound := "not_found".
Definition ErrorUnauthorized := "unauthorized".
Definition ErrorForbidden := "forbidden".
Definition ErrorCanceled := "canceled".
Definition ErrorDeadline := "deadline_exceeded".
Definition ErrorUnavailable := "unavailable".
Definition ErrorInternal := "internal".

Definition ErrorKind_Valid (k : string) : bool :=
  bool_decide (k ∈ [ErrorInvalidInput; ErrorConflict; ErrorNotFound; ErrorUnauthorized; ErrorForbidden;
    ErrorCanceled; ErrorDeadline; ErrorUnavailable; ErrorInternal]).

Definition CodeRevisionConflict := "revision_conflict".
Definition CodeQueueItemClaimed := "queue_item_claimed".
Definition CodeNoActiveRun := "no_active_run".
Definition CodeCanceled := "canceled".
Definition CodeSessionNotFound := "session_not_found".
Definition CodeSessionAlreadyExists := "session_already_exists".
Definition CodeActiveRun := "active_run".
Definition CodeQueueItemNotFound := "queue_item_not_found".
Definition CodeQueueItemAlreadyExists := "queue_item_already_exists".
Definition CodeJournalInvariant := "journal_invariant".
Definition CodeHistoryInvariant := "history_invariant".
Definition CodeRunTokenBudgetExceeded := "run_token_budget_exceeded".
Definition CodeRunModelAttemptLimitExceeded := "run_model_attempt_limit_exceeded".
Definition CodeRunToolCallLimitExceeded := "run_tool_call_limit_exceeded".
Definition CodeRuntimeInterrupted := "runtime_interrupted".

Definition NewCodedError (kind code op : string) (message : text) (cause : option error) : error :=
  ErrClassified (Classified (if empty kind then ErrorInternal else kind) code op message) cause.
Definition NewError (kind op : string) (message : text) (cause : option error) : error := NewCodedError kind "" op message cause.

(** The first classified error [errors.As] finds: the error itself, then what
    it wraps, in order. *)
Fixpoint errors_As (e : error) : option classified :=
  match e with
  | ErrNew _ | Errorf _ _ => None
  | ErrWrap wrapped _ _ => errors_As wrapped
  | ErrJoin errs =>
    (fix go (errs : list error) : option classified :=
       match errs with
       | [] => None
       | e :: errs => match errors_As e with Some c => Some c | None => go errs end
       end) errs
  | ErrClassified c _ => Some c
  end.

Definition KindOf (err : error) : string :=
  match errors_As err with
  | Some c => if nonempty (ce_kind c) then ce_kind c else ErrorInternal
  | None => ErrorInternal
  end.
Definition CodeOf (err : error) : string :=
  match errors_As err with Some c => ce_code c | None => "" end.
Definition IsKind (err : error) (kind : string) : bool := String.eqb (KindOf err) kind.
Definition IsCode (err : error) (code : string) : bool := String.eqb (CodeOf err) code.
