(* ===== verification/ModelContracts.v ===== *)
(** * Tool results, model configurations, model inputs and hook invocations

    Models the portable contracts of [artifact/contracts.go],
    [tool/contracts.go], [tool/schema.go] (definitions) and
    [model/contracts.go]: what a tool result, a model configuration, a token
    usage and a sequence of model inputs must look like. *)

From Stdlib Require Import SpecFloat.
From S2P Require Import Prelude GoStrings AgentTypes.

(** ** Artifacts *)
Record Metadata := MkMetadata { meta_ID : string; meta_MediaType : string; meta_Name : string; meta_Size : Z }.
#[export] Instance Metadata_eq_dec : EqDecision Metadata.
Proof. solve_decision. Defined.

(** The characters of a MIME token, without the upper-case letters that
    [value != strings.ToLower(value)] refuses. *)
Definition token_char (b : Z) : bool :=
  within 33 126 b && negb (within 65 90 b) &&
  negb (existsb (Z.eqb b) [40; 41; 60; 62; 64; 44; 59; 58; 92; 34; 47; 91; 93; 63; 61]%Z).

Fixpoint span_token (l : list Z) : nat * list Z :=
  match l with
  | b :: l' => if token_char b then let '(n, rest) := span_token l' in (S n, rest) else (0, l)
  | [] => (0, [])
  end.

(** [validateMediaType]: [mime.ParseMediaType] returns the value itself and no
    parameters exactly when it is a token, or two tokens around a slash, in
    lower case. *)
Definition validMediaType (value : string) : bool :=
  match span_token (byte_values value) with
  | (S _, []) => true
  | (S _, 47%Z :: rest) => match span_token rest with (S _, []) => true | _ => false end
  | _ => false
  end.

Definition Metadata_Validate (m : Metadata) : result unit :=
  reject_if (negb (validID (meta_ID m))) (ErrNew "artifact: ID must be non-empty without surrounding whitespace") ;;
  reject_if (negb (validMediaType (meta_MediaType m)))
    (ErrNew "artifact: media type must be a canonical lowercase MIME type without parameters") ;;
  reject_if (Z.ltb (meta_Size m) 0) (ErrNew "artifact: size cannot be negative").

(** ** Tools *)
Inductive ResultStatus := ResultSucceeded | ResultFailed | ResultUnknown | ResultOther (s : string).
#[export] Instance ResultStatus_eq_dec : EqDecision ResultStatus.
Proof. solve_decision. Defined.

Record StructuredError := MkStructuredError { serr_Code : string; serr_Message : string }.
#[export] Instance StructuredError_eq_dec : EqDecision StructuredError.
Proof. solve_decision. Defined.

Record ToolResult := MkToolResult {
  res_CallID : string;
  res_Status : ResultStatus;
  res_Output : string;
  res_Error : option StructuredError;
  res_Artifacts : list Metadata;
}.
#[export] Instance ToolResult_eq_dec : EqDecision ToolResult.
Proof. solve_decision. Defined.

(** The compiled schema is a third-party value; a definition knows whether it
    has one and its canonical JSON. *)
Record InputSchema := MkInputSchema { schema_json : string; schema_compiled : bool }.
#[export] Instance InputSchema_eq_dec : EqDecision InputSchema.
Proof. solve_decision. Defined.
Record ToolDefinition := MkToolDefinition { def_Name : string; def_Description : string; def_InputSchema : InputSchema }.
#[export] Instance ToolDefinition_eq_dec : EqDecision ToolDefinition.
Proof. solve_decision. Defined.

Definition ToolDefinition_Validate (d : ToolDefinition) : result unit :=
  reject_if (empty (def_Name d)) (ErrNew "tool: definition name is required") ;;
  reject_if (negb (schema_compiled (def_InputSchema d))) (Errorf "tool: definition requires an input schema" [AStr (def_Name d)]).

(** The artifact loop of [ToolResult.Validate]; [seen] are the IDs so far. *)
Fixpoint validate_artifacts (seen : gset string) (artifacts : list Metadata) : result unit :=
  match artifacts with
  | [] => Ok tt
  | reference :: artifacts =>
    map_err (fun e => ErrWrap e "tool: invalid artifact reference" []) (Metadata_Validate reference) ;;
    reject_if (bool_decide (meta_ID reference ∈ seen)) (Errorf "tool: duplicate artifact reference" [AStr (meta_ID reference)]) ;;
    validate_artifacts ({[ meta_ID reference ]} ∪ seen) artifacts
  end.

(** ** Model configuration *)
Inductive Reasoning :=
  | ReasoningDefault | ReasoningLow | ReasoningMedium | ReasoningHigh | ReasoningXHigh | ReasoningMax
  | ReasoningOther (s : string).
#[export] Instance Reasoning_eq_dec : EqDecision Reasoning.
Proof. solve_decision. Defined.
Definition Reasoning_Valid (r : Reasoning) : bool := match r with ReasoningOther _ => false | _ => true end.

#[export] Instance spec_float_eq_dec : EqDecision spec_float.
Proof. solve_decision. Defined.

Record Parameters := MkParameters { par_Temperature : option spec_float; par_MaxTokens : option Z }.
#[export] Instance Parameters_eq_dec : EqDecision Parameters.
Proof. solve_decision. Defined.
Record Config := MkConfig {
  cfg_ProviderKey : string;
  cfg_ModelID : string;
  cfg_Reasoning : Reasoning;
  cfg_Parameters : Parameters;
}.
#[export] Instance Config_eq_dec : EqDecision Config.
Proof. solve_decision. Defined.

Definition float_rejected (t : spec_float) : bool :=
  match t with
  | S754_nan | S754_infinity _ => true
  | t => SFltb t (S754_zero false)
  end.

Definition Config_Validate (c : Config) : result unit :=
  reject_if (empty (cfg_ModelID c)) (ErrNew "model: model ID is required") ;;
  reject_if (negb (Reasoning_Valid (cfg_Reasoning c))) (ErrNew "model: invalid reasoning mode") ;;
  reject_if (match par_Temperature (cfg_Parameters c) with Some t => float_rejected t | None => false end)
    (ErrNew "model: temperature must be finite and non-negative") ;;
  reject_if (match par_MaxTokens (cfg_Parameters c) with Some n => Z.leb n 0 | None => false end)
    (ErrNew "model: max tokens must be positive").

Record TokenUsage := MkTokenUsage {
  use_InputTokens : Z;
  use_OutputTokens : Z;
  use_CachedInputTokens : Z;
  use_CacheWriteTokens : Z;
  use_ReasoningTokens : Z;
  use_TotalTokens : Z;
  use_Estimated : bool;
  use_EstimateSource : string;
}.
#[export] Instance TokenUsage_eq_dec : EqDecision TokenUsage.
Proof. solve_decision. Defined.
Definition no_usage : TokenUsage := MkTokenUsage 0 0 0 0 0 0 false "".

Definition TokenUsage_Validate (u : TokenUsage) : result unit :=
  reject_if (Z.ltb (use_InputTokens u) 0 || Z.ltb (use_OutputTokens u) 0 || Z.ltb (use_CachedInputTokens u) 0 ||
             Z.ltb (use_CacheWriteTokens u) 0 || Z.ltb (use_ReasoningTokens u) 0 || Z.ltb (use_TotalTokens u) 0)
    (ErrNew "model: token usage cannot be negative") ;;
  reject_if (Z.ltb (use_InputTokens u) (use_CachedInputTokens u)) (ErrNew "model: cached input tokens exceed input tokens") ;;
  reject_if (Z.ltb (use_OutputTokens u) (use_ReasoningTokens u)) (ErrNew "model: reasoning tokens exceed output tokens") ;;
  reject_if (Z.ltb (use_TotalTokens u) (i64 (use_InputTokens u + use_OutputTokens u)))
    (ErrNew "model: total tokens are smaller than input plus output") ;;
  reject_if (negb (Bool.eqb (use_Estimated u) (nonempty (use_EstimateSource u))))
    (ErrNew "model: estimated token usage requires exactly one estimate source").

Definition MaxErrorMessageBytes : Z := 1024.

Definition ValidateErrorMessage (message : string) : result unit :=
  if empty message then Ok tt
  else
    reject_if (negb (bounded_text MaxErrorMessageBytes message))
      (ErrNew "model: error message must be bounded, valid UTF-8, and trimmed") ;;
    reject_if (negb (single_line message)) (ErrNew "model: error message must be a single safe display line").

(** ** Model inputs *)
Record Input := MkInput {
  in_SystemPrompt : option string;
  in_Message : option Message;
  in_ToolCall : option ToolCall;
  in_ToolResult : option ToolResult;
}.
#[export] Instance Input_eq_dec : EqDecision Input.
Proof. solve_decision. Defined.

Record ModelRequest := MkModelRequest {
  mreq_SessionID : string;
  mreq_RunID : string;
  mreq_StepID : string;
  mreq_Config : Config;
  mreq_ConfigRevision : Z;
  mreq_Inputs : list Input;
  mreq_Tools : list ToolDefinition;
}.
#[export] Instance ModelRequest_eq_dec : EqDecision ModelRequest.
Proof. solve_decision. Defined.

Definition count_present (l : list bool) : nat := length (List.filter (fun b => b) l).

Section ModelContracts.
Context {J : JsonOps}.

Definition ToolResult_Validate (r : ToolResult) : result unit :=
  reject_if (negb (ID_Valid (res_CallID r))) (ErrNew "tool: result requires a call ID") ;;
  reject_if (nonempty (res_Output r) && negb (json_Valid (res_Output r))) (ErrNew "tool: result output must be valid JSON") ;;
  validate_artifacts ∅ (res_Artifacts r) ;;
  match res_Status r with
  | ResultSucceeded => reject_if (present (res_Error r)) (ErrNew "tool: succeeded result cannot carry an error")
  | ResultFailed =>
    reject_if (match res_Error r with None => true | Some e => empty (serr_Code e) || empty (serr_Message e) end)
      (ErrNew "tool: failed result requires a structured error")
  | ResultUnknown => reject_if (present (res_Error r)) (ErrNew "tool: unknown result cannot carry a normal error")
  | ResultOther s => Err (Errorf "tool: unknown result status" [AStr s])
  end.

(** [ToolResult.ValidateWithin] *)
Definition ToolResult_ValidateWithin (r : ToolResult) (maxInlineOutputBytes : Z) : result unit :=
  reject_if (Z.leb maxInlineOutputBytes 0) (ErrNew "tool: inline output budget must be positive") ;;
  ToolResult_Validate r ;;
  let n := Z.of_nat (String.length (res_Output r)) in
  reject_if (Z.ltb maxInlineOutputBytes n) (Errorf "tool: inline output exceeds budget" [AInt n; AInt maxInlineOutputBytes]).

Definition Input_Valid (i : Input) : bool :=
  if negb (bool_decide (count_present [present (in_SystemPrompt i); present (in_Message i); present (in_ToolCall i);
                                       present (in_ToolResult i)] = 1)) then false
  else match in_SystemPrompt i, in_Message i, in_ToolCall i, in_ToolResult i with
  | Some prompt, _, _, _ => nonempty prompt
  | _, Some m, _, _ => Message_Valid m
  | _, _, Some c, _ => ToolCall_Valid c
  | _, _, _, Some r => is_ok (ToolResult_Validate r)
  | None, None, None, None => false
  end.

(** The two inner loops of [ValidateInputs]: the calls of one assistant message
    and their results, each returning the rest of the inputs. *)
Fixpoint take_calls (m : Message) (calls allCalls : gset string) (inputs : list Input)
    : result (gset string * gset string * list Input) :=
  match inputs with
  | input :: rest =>
    match in_ToolCall input with
    | Some call =>
      reject_if (negb (Input_Valid input) || negb (String.eqb (call_MessageID call) (msg_ID m)) ||
                 negb (String.eqb (call_RunID call) (msg_RunID m)) || negb (String.eqb (call_StepID call) (msg_StepID m)) ||
                 bool_decide (call_ID call ∈ calls) || bool_decide (call_ID call ∈ allCalls))
        (ErrNew "model: tool call has invalid assistant containment") ;;
      take_calls m ({[ call_ID call ]} ∪ calls) ({[ call_ID call ]} ∪ allCalls) rest
    | None => Ok (calls, allCalls, inputs)
    end
  | [] => Ok (calls, allCalls, [])
  end.

Fixpoint take_results (calls results : gset string) (inputs : list Input) : result (gset string * list Input) :=
  match inputs with
  | input :: rest =>
    match in_ToolResult input with
    | Some r =>
      reject_if (negb (Input_Valid input) || negb (bool_decide (res_CallID r ∈ calls)) || bool_decide (res_CallID r ∈ results))
        (ErrNew "model: tool result is unpaired or duplicated") ;;
      take_results calls ({[ res_CallID r ]} ∪ results) rest
    | None => Ok (results, inputs)
    end
  | [] => Ok (results, [])
  end.

(** The outer loop; every iteration consumes at least one input, so the number
    of inputs is enough fuel. *)
Fixpoint validate_exchanges (fuel : nat) (messages allCalls : gset string) (inputs : list Input) : result unit :=
  match inputs with
  | [] => Ok tt
  | input :: rest =>
    match fuel with
    | O => Panic "out of fuel"
    | S fuel =>
      reject_if (negb (Input_Valid input)) (ErrNew "model: invalid input item") ;;
      reject_if (present (in_SystemPrompt input)) (ErrNew "model: system prompt must be the first and only fixed input") ;;
      match in_Message input with
      | None => Err (ErrNew "model: tool exchange must begin with an assistant message")
      | Some message =>
        reject_if (bool_decide (msg_ID message ∈ messages)) (ErrNew "model: duplicate message input") ;;
        let messages := {[ msg_ID message ]} ∪ messages in
        if negb (bool_decide (msg_Role message = RoleAssistant)) ||
           match rest with next :: _ => absent (in_ToolCall next) | [] => true end then
          validate_exchanges fuel messages allCalls rest
        else
          '(calls, allCalls, rest) ← take_calls message ∅ allCalls rest;
          '(results, rest) ← take_results calls ∅ rest;
          reject_if (negb (Nat.eqb (size results) (size calls))) (ErrNew "model: tool call has no terminal result") ;;
          validate_exchanges fuel messages allCalls rest
      end
    end
  end.

Definition ValidateInputs (inputs : list Input) : result unit :=
  match inputs with
  | input :: rest =>
    if present (in_SystemPrompt input) then
      reject_if (negb (Input_Valid input)) (ErrNew "model: invalid system prompt") ;;
      validate_exchanges (length rest) ∅ ∅ rest
    else validate_exchanges (length inputs) ∅ ∅ inputs
  | [] => Ok tt
  end.

End ModelContracts.

(** ** Budgets *)
Record TokenBudget := MkTokenBudget { bud_MaxTokens : Z; bud_UsedTokens : Z }.
Definition TokenBudget_Validate (b : TokenBudget) : result unit :=
  reject_if (Z.ltb (bud_MaxTokens b) 0 || Z.ltb (bud_UsedTokens b) 0) (ErrNew "model: token budget cannot be negative").
Definition Exhausted (b : TokenBudget) : bool := Z.ltb 0 (bud_MaxTokens b) && Z.leb (bud_MaxTokens b) (bud_UsedTokens b).
Definition RemainingTokens (b : TokenBudget) : Z :=
  if Z.eqb (bud_MaxTokens b) 0 then 0
  else if Z.leb (bud_MaxTokens b) (bud_UsedTokens b) then 0
  else i64 (bud_MaxTokens b - bud_UsedTokens b).

(** * Extension invocations

    Models [hook/invocation.go] and the vocabularies of [hook/completion.go]
    and [hook/session_lifecycle.go] that the extension journal persists. *)

Definition MaxExtensionKeyBytes : Z := 128.
Definition MaxInvocationIDBytes : Z := 128.
Definition MaxSafeReasonBytes : Z := 1024.
Definition MaxContextInputs : Z := 16.
Definition MaxContextBytes : Z := 262144.

Definition validSafeIdentity (value : string) (limit : Z) : bool := bounded_text limit value && single_line value.
Definition InvocationID_Valid (id : string) : bool := validSafeIdentity id MaxInvocationIDBytes.

Definition hex_digit (b : Z) : bool := within 48 57 b || within 97 102 b.
(** [ValidDigest]: "sha256:" and 64 lower-case hexadecimal digits. *)
Definition ValidDigest (value : string) : bool :=
  Nat.eqb (String.length value) 71 &&
  match drop_prefix "sha256:" value with Some hex => forallb hex_digit (byte_values hex) | None => false end.

Record ExtensionDescriptor := MkExtensionDescriptor { ext_Key : string; ext_DefinitionDigest : string }.
#[export] Instance ExtensionDescriptor_eq_dec : EqDecision ExtensionDescriptor.
Proof. solve_decision. Defined.
Definition ExtensionDescriptor_Validate (d : ExtensionDescriptor) : result unit :=
  reject_if (negb (validSafeIdentity (ext_Key d) MaxExtensionKeyBytes))
    (ErrNew "hook: extension key must be bounded, trimmed, valid UTF-8, and control-free") ;;
  reject_if (negb (ValidDigest (ext_DefinitionDigest d))) (ErrNew "hook: definition digest must be lowercase sha256").

Inductive BoundaryKind :=
  | BoundaryInputGate | BoundaryToolPreflight | BoundaryToolResult | BoundaryCompletion | BoundarySessionLifecycle
  | BoundaryOther (s : string).
#[export] Instance BoundaryKind_eq_dec : EqDecision BoundaryKind.
Proof. solve_decision. Defined.
Definition BoundaryKind_Valid (k : BoundaryKind) : bool := match k with BoundaryOther _ => false | _ => true end.

Inductive InvocationStatus :=
  | InvocationPrepared | InvocationPending | InvocationSucceeded | InvocationFailed | InvocationCanceled
  | InvocationOutcomeUnknown | InvocationOther (s : string).
#[export] Instance InvocationStatus_eq_dec : EqDecision InvocationStatus.
Proof. solve_decision. Defined.
Definition InvocationStatus_Valid (s : InvocationStatus) : bool := match s with InvocationOther _ => false | _ => true end.
Definition Terminal (s : InvocationStatus) : bool :=
  match s with InvocationSucceeded | InvocationFailed | InvocationCanceled | InvocationOutcomeUnknown => true | _ => false end.

Inductive EffectDisposition := EffectNone | EffectPending | EffectApplied | EffectDiscarded | EffectOther (s : string).
#[export] Instance EffectDisposition_eq_dec : EqDecision EffectDisposition.
Proof. solve_decision. Defined.
Definition EffectDisposition_Valid (d : EffectDisposition) : bool := match d with EffectOther _ => false | _ => true end.

Inductive ContextDisposition := ContextNone | ContextPending | ContextConsumed | ContextDiscarded | ContextOther (s : string).
#[export] Instance ContextDisposition_eq_dec : EqDecision ContextDisposition.
Proof. solve_decision. Defined.
Definition ContextDisposition_Valid (d : ContextDisposition) : bool := match d with ContextOther _ => false | _ => true end.

Inductive Decision_ :=
  | DecisionNone | DecisionAccept | DecisionReject | DecisionAllow | DecisionDeny | DecisionRequireApproval
  | DecisionComplete | DecisionContinue | DecisionOther (s : string).
#[export] Instance Decision__eq_dec : EqDecision Decision_.
Proof. solve_decision. Defined.
Definition Decision_Valid (d : Decision_) : bool := match d with DecisionOther _ => false | _ => true end.

Inductive LifecyclePhase := LifecycleOpen | LifecycleClose | PhaseOther (s : string).
#[export] Instance LifecyclePhase_eq_dec : EqDecision LifecyclePhase.
Proof. solve_decision. Defined.
Definition LifecyclePhase_Valid (p : LifecyclePhase) : bool := match p with PhaseOther _ => false | _ => true end.

Inductive OpenKind := OpenCreate | OpenResume | OpenFork | OpenSummary | OpenOther (s : string).
#[export] Instance OpenKind_eq_dec : EqDecision OpenKind.
Proof. solve_decision. Defined.
Definition OpenKind_Valid (k : OpenKind) : bool := match k with OpenOther _ => false | _ => true end.

Definition ValidateSafeReason (value : string) : result unit :=
  if empty value then Ok tt
  else
    reject_if (negb (bounded_text MaxSafeReasonBytes value)) (ErrNew "hook: reason must be bounded, trimmed, valid UTF-8") ;;
    reject_if (negb (single_line value)) (ErrNew "hook: reason must be one safe display line").

Record InvocationResult := MkInvocationResult { inv_Decision : Decision_; inv_Reason : string }.
#[export] Instance InvocationResult_eq_dec : EqDecision InvocationResult.
Proof. solve_decision. Defined.
Definition InvocationResult_Validate (r : InvocationResult) : result unit :=
  reject_if (negb (Decision_Valid (inv_Decision r))) (ErrNew "hook: invalid invocation decision") ;;
  ValidateSafeReason (inv_Reason r).

(** [CompletionGoalCandidate.Validate] as a test. *)
Definition CompletionGoalCandidate_Valid (goalID : string) (version : Z) : bool :=
  validSafeIdentity goalID MaxExtensionKeyBytes && negb (Z.eqb version 0).

Record TypedInputFingerprint := MkFingerprint { fp_Digest : string; fp_Bytes : Z }.
