(* ===== verification/SessionTypes.v ===== *)
(** * The Session aggregate and its change vocabulary

    Models the data and the [Validate] methods of [session/contracts.go] and
    the journal entry of [session/extension_journal.go].  A pointer field is an
    [option]; the nine payloads of a history fact and the twenty payloads of a
    change are separate optional fields, as in the code, so that "exactly one
    payload" is a property and not a type. *)

From S2P Require Import Prelude GoStrings AgentTypes ModelContracts.

(** What the aggregate needs besides JSON: the fingerprint of
    [hook.FingerprintTypedInput] over model inputs. *)
Class Fingerprints : Type := {
  FingerprintTypedInput : list Input -> option TypedInputFingerprint;
}.

(** ** Run facts *)
Inductive RunFactKind := RunStarted | RunCompleted | RunCanceled | RunFailed | RunInterrupted | RunFactOther (s : string).
#[export] Instance RunFactKind_eq_dec : EqDecision RunFactKind.
Proof. solve_decision. Defined.
Definition RunFactKind_Valid (k : RunFactKind) : bool := match k with RunFactOther _ => false | _ => true end.

Definition MaxRunTerminationMessageBytes : Z := 1024.

Inductive TerminationSource :=
  | TerminationModel | TerminationContext | TerminationLoop | TerminationTool | TerminationPolicy | TerminationBudget
  | TerminationSession | TerminationRuntime | TerminationExtension | TerminationOther (s : string).
#[export] Instance TerminationSource_eq_dec : EqDecision TerminationSource.
Proof. solve_decision. Defined.
Definition TerminationSource_Valid (s : TerminationSource) : bool := match s with TerminationOther _ => false | _ => true end.

Record RunTermination := MkRunTermination {
  term_Source : TerminationSource;
  term_Kind : string;
  term_Code : string;
  term_SafeMessage : string;
}.
#[export] Instance RunTermination_eq_dec : EqDecision RunTermination.
Proof. solve_decision. Defined.

Definition RunTermination_Validate (t : RunTermination) : result unit :=
  reject_if (negb (TerminationSource_Valid (term_Source t)) || negb (ErrorKind_Valid (term_Kind t)) || empty (term_Code t))
    (ErrNew "session: invalid run termination classification") ;;
  if empty (term_SafeMessage t) then Ok tt
  else
    reject_if (negb (bounded_text MaxRunTerminationMessageBytes (term_SafeMessage t)))
      (ErrNew "session: run termination message must be bounded, valid UTF-8, and trimmed") ;;
    reject_if (negb (single_line (term_SafeMessage t)))
      (ErrNew "session: run termination message must be a single safe display line").

Record RunFact := MkRunFact {
  rf_SessionID : string;
  rf_RunID : string;
  rf_Kind : RunFactKind;
  rf_ModelConfig : Config;
  rf_ConfigRevision : Z;
  rf_LegacyCompletionMode : string;
  rf_Termination : option RunTermination;
}.
#[export] Instance RunFact_eq_dec : EqDecision RunFact.
Proof. solve_decision. Defined.

Definition RunFact_Validate (f : RunFact) (sessionID : string) : result unit :=
  reject_if (negb (String.eqb (rf_SessionID f) sessionID) || negb (ID_Valid (rf_RunID f)) || negb (RunFactKind_Valid (rf_Kind f)))
    (ErrNew "session: run fact containment is invalid") ;;
  map_err (fun e => ErrWrap e "session: run fact model config is invalid" []) (Config_Validate (rf_ModelConfig f)) ;;
  reject_if (nonempty (rf_LegacyCompletionMode f) &&
             (negb (bool_decide (rf_Kind f = RunCompleted)) ||
              negb (String.eqb (rf_LegacyCompletionMode f) "attempt_limit_finalization")))
    (Errorf "session: invalid legacy run completion mode" [AStr (rf_LegacyCompletionMode f)]) ;;
  if bool_decide (rf_Kind f = RunStarted) || bool_decide (rf_Kind f = RunCompleted) then
    reject_if (present (rf_Termination f)) (ErrNew "session: successful or started run cannot contain a termination")
  else match rf_Termination f with Some t => RunTermination_Validate t | None => Ok tt end.

(** ** Model attempts *)
Inductive ModelAttemptKind :=
  | AttemptStarted | AttemptSucceeded | AttemptFailed | AttemptCanceled | AttemptOutcomeUnknown | AttemptOther (s : string).
#[export] Instance ModelAttemptKind_eq_dec : EqDecision ModelAttemptKind.
Proof. solve_decision. Defined.
Definition ModelAttemptKind_Valid (k : ModelAttemptKind) : bool := match k with AttemptOther _ => false | _ => true end.

Record ModelAttemptFact := MkModelAttemptFact {
  ma_AttemptID : string;
  ma_RunID : string;
  ma_StepID : string;
  ma_Kind : ModelAttemptKind;
  ma_ProviderKey : string;
  ma_ModelID : string;
  ma_ProviderRequestID : string;
  ma_Usage : TokenUsage;
  ma_ErrorCode : string;
  ma_ErrorMessage : string;
}.
#[export] Instance ModelAttemptFact_eq_dec : EqDecision ModelAttemptFact.
Proof. solve_decision. Defined.

Definition ModelAttemptFact_Validate (f : ModelAttemptFact) : result unit :=
  reject_if (negb (ID_Valid (ma_AttemptID f)) || negb (ID_Valid (ma_RunID f)) || negb (ID_Valid (ma_StepID f)) ||
             negb (ModelAttemptKind_Valid (ma_Kind f)) || empty (ma_ModelID f))
    (ErrNew "session: invalid model attempt fact") ;;
  TokenUsage_Validate (ma_Usage f) ;;
  ValidateErrorMessage (ma_ErrorMessage f) ;;
  reject_if (bool_decide (ma_Kind f = AttemptStarted) &&
             (negb (bool_decide (ma_Usage f = no_usage)) || nonempty (ma_ProviderRequestID f) ||
              nonempty (ma_ErrorCode f) || nonempty (ma_ErrorMessage f)))
    (ErrNew "session: started attempt cannot contain terminal outcome") ;;
  reject_if (negb (bool_decide (ma_Kind f = AttemptStarted)) && negb (bool_decide (ma_Kind f = AttemptSucceeded)) &&
             empty (ma_ErrorCode f))
    (ErrNew "session: unsuccessful attempt requires a safe error code") ;;
  reject_if (bool_decide (ma_Kind f = AttemptSucceeded) && (nonempty (ma_ErrorCode f) || nonempty (ma_ErrorMessage f)))
    (ErrNew "session: succeeded attempt cannot contain an error").

(** ** Budgets, limits and context contributions *)
Record RunBudgetExceededFact := MkRunBudgetExceededFact { rb_RunID : string; rb_UsedTokens : Z; rb_MaxTokens : Z }.
#[export] Instance RunBudgetExceededFact_eq_dec : EqDecision RunBudgetExceededFact.
Proof. solve_decision. Defined.
Definition RunBudgetExceededFact_Validate (f : RunBudgetExceededFact) : result unit :=
  reject_if (negb (ID_Valid (rb_RunID f)) || Z.leb (rb_MaxTokens f) 0 || Z.ltb (rb_UsedTokens f) (rb_MaxTokens f))
    (ErrNew "session: invalid run budget fact").

Inductive RunLimitKind := RunLimitModelAttempts | RunLimitToolCalls | RunLimitOther (s : string).
#[export] Instance RunLimitKind_eq_dec : EqDecision RunLimitKind.
Proof. solve_decision. Defined.
Definition RunLimitKind_Valid (k : RunLimitKind) : bool := match k with RunLimitOther _ => false | _ => true end.

Record RunLimitExceededFact := MkRunLimitExceededFact {
  rl_RunID : string;
  rl_StepID : string;
  rl_Kind : RunLimitKind;
  rl_Used : Z;
  rl_Max : Z;
  rl_Requested : Z;
  rl_TriggerAttemptID : string;
  rl_TriggerToolCallID : string;
}.
#[export] Instance RunLimitExceededFact_eq_dec : EqDecision RunLimitExceededFact.
Proof. solve_decision. Defined.
Definition RunLimitExceededFact_Validate (f : RunLimitExceededFact) : result unit :=
  reject_if (negb (ID_Valid (rl_RunID f)) || negb (ID_Valid (rl_StepID f)) || negb (RunLimitKind_Valid (rl_Kind f)) ||
             Z.ltb (rl_Used f) 0 || Z.leb (rl_Max f) 0 || Z.leb (rl_Requested f) 0)
    (ErrNew "session: invalid run limit fact") ;;
  reject_if (Z.ltb (rl_Used f) (rl_Max f) && Z.leb (rl_Requested f) (i64 (rl_Max f - rl_Used f)))
    (ErrNew "session: run limit fact does not exceed its maximum") ;;
  match rl_Kind f with
  | RunLimitModelAttempts =>
    reject_if (negb (ID_Valid (rl_TriggerAttemptID f)) || nonempty (rl_TriggerToolCallID f))
      (ErrNew "session: model attempt limit requires only an attempt trigger")
  | RunLimitToolCalls =>
    reject_if (negb (ID_Valid (rl_TriggerToolCallID f)) || nonempty (rl_TriggerAttemptID f))
      (ErrNew "session: tool call limit requires only a tool call trigger")
  | RunLimitOther _ => Ok tt
  end.

Record ContextContributionFact := MkContextContributionFact {
  cc_RunID : string; cc_StepID : string; cc_SourceKey : string; cc_Inputs : list Input }.
#[export] Instance ContextContributionFact_eq_dec : EqDecision ContextContributionFact.
Proof. solve_decision. Defined.

(** ** Session events *)
Record ModelConfigChange := MkModelConfigChange { mcc_Previous : Config; mcc_Current : Config }.
#[export] Instance ModelConfigChange_eq_dec : EqDecision ModelConfigChange.
Proof. solve_decision. Defined.
Inductive SessionEventKind := EventModelConfigChanged | SessionEventOther (s : string).
#[export] Instance SessionEventKind_eq_dec : EqDecision SessionEventKind.
Proof. solve_decision. Defined.
Record SessionEvent := MkSessionEvent {
  ev_Kind : SessionEventKind; ev_Revision : Z; ev_ModelConfigChanged : option ModelConfigChange }.
#[export] Instance SessionEvent_eq_dec : EqDecision SessionEvent.
Proof. solve_decision. Defined.

Definition SessionEvent_Validate (e : SessionEvent) : result unit :=
  match ev_Kind e, ev_ModelConfigChanged e with
  | EventModelConfigChanged, Some change =>
    map_err (fun err => ErrWrap err "session: invalid previous model config" []) (Config_Validate (mcc_Previous change)) ;;
    map_err (fun err => ErrWrap err "session: invalid current model config" []) (Config_Validate (mcc_Current change))
  | _, _ => Err (ErrNew "session: invalid Session event")
  end.

(** ** History facts *)
Inductive HistoryFactKind :=
  | FactMessage | FactToolCall | FactToolResult | FactRun | FactModelAttempt | FactModelConfigChanged
  | FactContextContribution | FactRunBudgetExceeded | FactRunLimitExceeded | FactOther (s : string).
#[export] Instance HistoryFactKind_eq_dec : EqDecision HistoryFactKind.
Proof. solve_decision. Defined.

Record HistoryFact := MkHistoryFact {
  hf_FactID : string;
  hf_OriginFactID : string;
  hf_Sequence : Z;
  hf_SessionID : string;
  hf_RunID : string;
  hf_StepID : string;
  hf_At : Time;
  hf_Actor : ActorIdentity;
  hf_Kind : HistoryFactKind;
  hf_Message : option Message;
  hf_ToolCall : option ToolCall;
  hf_ToolResult : option ToolResult;
  hf_Run : option RunFact;
  hf_ModelAttempt : option ModelAttemptFact;
  hf_ModelConfigChanged : option ModelConfigChange;
  hf_ContextContribution : option ContextContributionFact;
  hf_RunBudgetExceeded : option RunBudgetExceededFact;
  hf_RunLimitExceeded : option RunLimitExceededFact;
}.
#[export] Instance HistoryFact_eq_dec : EqDecision HistoryFact.
Proof. solve_decision. Defined.

Definition payloads (f : HistoryFact) : list bool :=
  [present (hf_Message f); present (hf_ToolCall f); present (hf_ToolResult f); present (hf_Run f);
   present (hf_ModelAttempt f); present (hf_ModelConfigChanged f); present (hf_ContextContribution f);
   present (hf_RunBudgetExceeded f); present (hf_RunLimitExceeded f)].

Definition payloadKind (f : HistoryFact) : HistoryFactKind :=
  if present (hf_Message f) then FactMessage
  else if present (hf_ToolCall f) then FactToolCall
  else if present (hf_ToolResult f) then FactToolResult
  else if present (hf_Run f) then FactRun
  else if present (hf_ModelAttempt f) then FactModelAttempt
  else if present (hf_ModelConfigChanged f) then FactModelConfigChanged
  else if present (hf_ContextContribution f) then FactContextContribution
  else if present (hf_RunBudgetExceeded f) then FactRunBudgetExceeded
  else if present (hf_RunLimitExceeded f) then FactRunLimitExceeded
  else FactOther "".

(** ** Context views and queue items *)
Record ContextView := MkContextView {
  cv_Version : Z;
  cv_SourceRevision : Z;
  cv_SourceHistorySequence : Z;
  cv_TokenCount : Z;
  cv_Request : ModelRequest;
}.
#[export] Instance ContextView_eq_dec : EqDecision ContextView.
Proof. solve_decision. Defined.

Inductive Delivery := DeliveryNormal | DeliverySteer | DeliveryHeld | DeliveryOther (s : string).
#[export] Instance Delivery_eq_dec : EqDecision Delivery.
Proof. solve_decision. Defined.
Definition Delivery_Valid (d : Delivery) : bool := match d with DeliveryOther _ => false | _ => true end.

Record QueueItem := MkQueueItem { qi_Message : Message; qi_Delivery : Delivery; qi_ClaimedBy : string }.
#[export] Instance QueueItem_eq_dec : EqDecision QueueItem.
Proof. solve_decision. Defined.
Definition Claimed (i : QueueItem) : bool := ID_Valid (qi_ClaimedBy i).

Record QueueClaim := MkQueueClaim { qc_MessageID : string; qc_RunID : string }.
Record QueueConsume := MkQueueConsume { qn_MessageID : string; qn_RunID : string }.
Record QueueEdit := MkQueueEdit { qe_MessageID : string; qe_Input : MessageInput; qe_Delivery : Delivery }.
Record QueueDelete := MkQueueDelete { qd_MessageID : string }.
Record QueueReclassify := MkQueueReclassify { qr_MessageID : string; qr_Delivery : Delivery }.

Inductive RunState := RunIdle | RunRunning | RunStateOther (s : string).
#[export] Instance RunState_eq_dec : EqDecision RunState.
Proof. solve_decision. Defined.
Definition RunState_Valid (s : RunState) : bool := match s with RunStateOther _ => false | _ => true end.
Record RunStateChange := MkRunStateChange { rsc_RunID : string; rsc_State : RunState }.

(** ** The run journal *)
Inductive JournalStatus :=
  | JournalPrepared | JournalPending | JournalSucceeded | JournalFailed | JournalOutcomeUnknown | JournalOther (s : string).
#[export] Instance JournalStatus_eq_dec : EqDecision JournalStatus.
Proof. solve_decision. Defined.
Definition JournalStatus_Valid (s : JournalStatus) : bool := match s with JournalOther _ => false | _ => true end.

Record JournalEntry := MkJournalEntry {
  je_RunID : string;
  je_StepID : string;
  je_ToolCall : option ToolCall;
  je_ToolResult : option ToolResult;
  je_Status : JournalStatus;
}.
#[export] Instance JournalEntry_eq_dec : EqDecision JournalEntry.
Proof. solve_decision. Defined.

(** ** The extension journal *)
Record ExtensionJournalEntry := MkExtensionJournalEntry {
  xe_InvocationID : string;
  xe_Sequence : Z;
  xe_Descriptor : ExtensionDescriptor;
  xe_Boundary : BoundaryKind;
  xe_SessionID : string;
  xe_RunID : string;
  xe_StepID : string;
  xe_TargetStepID : string;
  xe_MessageID : string;
  xe_ToolCallID : string;
  xe_GoalID : string;
  xe_GoalVersion : Z;
  xe_LifecyclePhase : LifecyclePhase;
  xe_LifecycleOpenKind : OpenKind;
  xe_InputDigest : string;
  xe_PreparedRevision : Z;
  xe_PreparedAt : Time;
  xe_PendingAt : Time;
  xe_FinishedAt : Time;
  xe_Status : InvocationStatus;
  xe_Result : option InvocationResult;
  xe_ErrorCode : string;
  xe_ErrorReason : string;
  xe_EffectDisposition : EffectDisposition;
  xe_ContextDisposition : ContextDisposition;
  xe_ContextInputs : list Input;
  xe_ContextDigest : string;
  xe_ContextBytes : Z;
}.
#[export] Instance ExtensionJournalEntry_eq_dec : EqDecision ExtensionJournalEntry.
Proof. solve_decision. Defined.

(** ** Snapshots *)
Record ForkProvenance := MkForkProvenance { fork_ParentSessionID : string; fork_CutoffSequence : Z }.

Record Snapshot := MkSnapshot {
  sn_Session : Session;
  sn_Revision : Z;
  sn_History : list HistoryFact;
  sn_Context : ContextView;
  sn_RetainedContexts : list ContextView;
  sn_Queue : list QueueItem;
  sn_RunJournal : list JournalEntry;
  sn_ExtensionJournal : list ExtensionJournalEntry;
  sn_Events : list SessionEvent;
  sn_ModelConfig : Config;
  sn_RunState : RunState;
  sn_ActiveRunID : string;
  sn_Fork : option ForkProvenance;
}.

(** ** Changes and commits *)
Inductive ChangeKind :=
  | AppendMessage | AppendToolCall | AppendToolResult | AppendRunFact | AppendModelAttempt | AppendContextContribution
  | AppendRunBudgetExceeded | AppendRunLimitExceeded | AppendSessionEvent | EnqueueMessage | ClaimQueue | ConsumeQueue
  | EditQueue | DeleteQueue | ReclassifyQueue | SetContext | SetModelConfig | SetRunState | UpdateRunJournal
  | UpdateExtensionJournal | ChangeOther (s : string).
#[export] Instance ChangeKind_eq_dec : EqDecision ChangeKind.
Proof. solve_decision. Defined.

Record Change := MkChange {
  ch_Kind : ChangeKind;
  ch_Message : option Message;
  ch_ToolCall : option ToolCall;
  ch_ToolResult : option ToolResult;
  ch_RunFact : option RunFact;
  ch_ModelAttempt : option ModelAttemptFact;
  ch_ContextContribution : option ContextContributionFact;
  ch_RunBudgetExceeded : option RunBudgetExceededFact;
  ch_RunLimitExceeded : option RunLimitExceededFact;
  ch_SessionEvent : option SessionEvent;
  ch_QueueItem : option QueueItem;
  ch_QueueClaim : option QueueClaim;
  ch_QueueConsume : option QueueConsume;
  ch_QueueEdit : option QueueEdit;
  ch_QueueDelete : option QueueDelete;
  ch_QueueReclassification : option QueueReclassify;
  ch_Context : option ContextView;
  ch_RetainPreviousContext : bool;
  ch_ModelConfig : option Config;
  ch_RunState : option RunStateChange;
  ch_Journal : option JournalEntry;
  ch_Extension : option ExtensionJournalEntry;
}.

Definition payloadCount (c : Change) : nat := count_present
  [present (ch_Message c); present (ch_ToolCall c); present (ch_ToolResult c); present (ch_RunFact c);
   present (ch_ModelAttempt c); present (ch_ContextContribution c); present (ch_RunBudgetExceeded c);
   present (ch_RunLimitExceeded c); present (ch_SessionEvent c); present (ch_QueueItem c); present (ch_QueueClaim c);
   present (ch_QueueConsume c); present (ch_QueueEdit c); present (ch_QueueDelete c); present (ch_QueueReclassification c);
   present (ch_Context c); present (ch_ModelConfig c); present (ch_RunState c); present (ch_Journal c);
   present (ch_Extension c)].

Record CommitRequest := MkCommitRequest {
  cr_SessionID : string;
  cr_ExpectedRevision : Z;
  cr_IdempotencyKey : string;
  cr_Actor : ActorIdentity;
  cr_Changes : list Change;
}.

Record Commit_ := MkCommit {
  co_SessionID : string;
  co_Revision : Z;
  co_FirstHistorySequence : Z;
  co_LastHistorySequence : Z;
  co_Applied : bool;
}.

Record NewSession := MkNewSession {
  ns_Session : Session;
  ns_History : list HistoryFact;
  ns_Context : ContextView;
  ns_Queue : list QueueItem;
  ns_RunJournal : list JournalEntry;
  ns_ModelConfig : Config;
  ns_RunState : RunState;
  ns_ActiveRunID : string;
  ns_Fork : option ForkProvenance;
}.
