(* ===== verification/ExtensionJournal.v ===== *)
(** * The extension journal

    Models [session/extension_journal.go]: the shape of a journal entry, the
    transitions an update may make, and the diagnostics page. *)

From S2P Require Import Prelude GoStrings AgentTypes ModelContracts SessionTypes.

(** [invalid(op, message)] *)
Definition invalid (op : string) (message : text) : error := NewError ErrorInvalidInput op message None.
Definition extensionConflict (message : string) : error :=
  NewCodedError ErrorConflict CodeJournalInvariant "session.commit" [(message, [])] None.

Definition validExtensionErrorCode (value : string) : bool :=
  bounded_text 128 value && single_line value &&
  match runes_of value with
  | Some rs => forallb (fun r => negb (within 9 13 r || Z.eqb r 32 || Z.eqb r 133 || Z.eqb r 160 || Z.eqb r 5760 ||
      within 8192 8202 r || Z.eqb r 8232 || Z.eqb r 8233 || Z.eqb r 8239 || Z.eqb r 8287 || Z.eqb r 12288)) rs
  | None => false
  end.

(** An optional identity is empty or valid. *)
Definition bad_optional (id : string) : bool := nonempty id && negb (ID_Valid id).

Definition validateSubject (e : ExtensionJournalEntry) : result unit :=
  reject_if (bad_optional (xe_RunID e) || bad_optional (xe_StepID e) || bad_optional (xe_TargetStepID e) ||
             bad_optional (xe_MessageID e) || bad_optional (xe_ToolCallID e))
    (ErrNew "session: extension subject identity is invalid") ;;
  match xe_Boundary e with
  | BoundaryInputGate =>
    reject_if (negb (ID_Valid (xe_MessageID e)) || nonempty (xe_RunID e) || nonempty (xe_StepID e) ||
               nonempty (xe_TargetStepID e) || nonempty (xe_ToolCallID e) || nonempty (xe_GoalID e) ||
               negb (Z.eqb (xe_GoalVersion e) 0))
      (ErrNew "session: input gate subject is invalid")
  | BoundaryToolPreflight =>
    reject_if (negb (ID_Valid (xe_RunID e)) || negb (ID_Valid (xe_StepID e)) || negb (ID_Valid (xe_ToolCallID e)) ||
               nonempty (xe_GoalID e) || negb (Z.eqb (xe_GoalVersion e) 0))
      (ErrNew "session: tool extension subject is incomplete") ;;
    reject_if (nonempty (xe_TargetStepID e)) (ErrNew "session: tool preflight cannot target a later step")
  | BoundaryToolResult =>
    reject_if (negb (ID_Valid (xe_RunID e)) || negb (ID_Valid (xe_StepID e)) || negb (ID_Valid (xe_TargetStepID e)) ||
               negb (ID_Valid (xe_ToolCallID e)) || String.eqb (xe_TargetStepID e) (xe_StepID e) ||
               nonempty (xe_GoalID e) || negb (Z.eqb (xe_GoalVersion e) 0))
      (ErrNew "session: tool result extension subject is incomplete")
  | BoundaryCompletion =>
    reject_if (negb (ID_Valid (xe_RunID e)) || negb (ID_Valid (xe_StepID e)) || negb (ID_Valid (xe_TargetStepID e)) ||
               String.eqb (xe_TargetStepID e) (xe_StepID e) || negb (ID_Valid (xe_MessageID e)) || nonempty (xe_ToolCallID e) ||
               negb (Bool.eqb (empty (xe_GoalID e)) (Z.eqb (xe_GoalVersion e) 0)) ||
               (nonempty (xe_GoalID e) && negb (CompletionGoalCandidate_Valid (xe_GoalID e) (xe_GoalVersion e))))
      (ErrNew "session: completion subject is invalid")
  | BoundarySessionLifecycle =>
    reject_if (nonempty (xe_RunID e) || nonempty (xe_StepID e) || nonempty (xe_TargetStepID e) || nonempty (xe_MessageID e) ||
               nonempty (xe_ToolCallID e) || nonempty (xe_GoalID e) || negb (Z.eqb (xe_GoalVersion e) 0) ||
               negb (LifecyclePhase_Valid (xe_LifecyclePhase e)) ||
               (bool_decide (xe_LifecyclePhase e = LifecycleOpen) && negb (OpenKind_Valid (xe_LifecycleOpenKind e))) ||
               (bool_decide (xe_LifecyclePhase e = LifecycleClose) && negb (bool_decide (xe_LifecycleOpenKind e = OpenOther ""))))
      (ErrNew "session: lifecycle subject must be Session-scoped")
  | BoundaryOther _ =>
    reject_if (negb (bool_decide (xe_LifecyclePhase e = PhaseOther "")) ||
               negb (bool_decide (xe_LifecycleOpenKind e = OpenOther "")))
      (ErrNew "session: non-lifecycle extension carries lifecycle identity")
  end.

(** [validateBoundaryResult]; the caller checked that there is a result. *)
Definition validateBoundaryResult (e : ExtensionJournalEntry) (d : Decision_) : result unit :=
  let hasContext := negb (bool_decide (xe_ContextDisposition e = ContextNone)) in
  match xe_Boundary e with
  | BoundaryInputGate =>
    reject_if (negb (bool_decide (d = DecisionAccept)) && negb (bool_decide (d = DecisionReject)))
      (ErrNew "session: input gate result has an invalid decision") ;;
    reject_if (bool_decide (d = DecisionReject) && hasContext) (ErrNew "session: rejected input cannot contribute context")
  | BoundaryToolPreflight =>
    reject_if (negb (bool_decide (d = DecisionAllow)) && negb (bool_decide (d = DecisionDeny)) &&
               negb (bool_decide (d = DecisionRequireApproval)))
      (ErrNew "session: tool preflight result has an invalid decision") ;;
    reject_if hasContext (ErrNew "session: tool preflight cannot contribute context")
  | BoundaryToolResult | BoundarySessionLifecycle =>
    reject_if (negb (bool_decide (d = DecisionNone))) (ErrNew "session: context-only extension cannot persist a decision")
  | BoundaryCompletion =>
    reject_if (negb (bool_decide (d = DecisionComplete)) && negb (bool_decide (d = DecisionContinue)))
      (ErrNew "session: completion result has an invalid decision") ;;
    reject_if (negb (Bool.eqb (bool_decide (d = DecisionContinue)) hasContext))
      (ErrNew "session: completion continuation and context must agree")
  | BoundaryOther _ => Ok tt
  end.

Definition validateStatusShape (e : ExtensionJournalEntry) : result unit :=
  match xe_Status e with
  | InvocationPrepared =>
    reject_if (negb (IsZero (xe_PendingAt e)) || negb (IsZero (xe_FinishedAt e)) || present (xe_Result e) ||
               nonempty (xe_ErrorCode e) || nonempty (xe_ErrorReason e) || negb (bool_decide (xe_EffectDisposition e = EffectNone)))
      (ErrNew "session: prepared extension carries execution outcome")
  | InvocationPending =>
    reject_if (IsZero (xe_PendingAt e) || negb (IsZero (xe_FinishedAt e)) || present (xe_Result e) ||
               nonempty (xe_ErrorCode e) || nonempty (xe_ErrorReason e) || negb (bool_decide (xe_EffectDisposition e = EffectNone)))
      (ErrNew "session: pending extension shape is invalid")
  | status =>
    reject_if (IsZero (xe_FinishedAt e) || bool_decide (xe_EffectDisposition e = EffectNone))
      (ErrNew "session: terminal extension requires finished time and effect disposition") ;;
    if bool_decide (status = InvocationSucceeded) then
      match xe_Result e with
      | Some r =>
        reject_if (nonempty (xe_ErrorCode e) || nonempty (xe_ErrorReason e)) (ErrNew "session: succeeded extension result is invalid") ;;
        InvocationResult_Validate r ;;
        validateBoundaryResult e (inv_Decision r)
      | None => Err (ErrNew "session: succeeded extension result is invalid")
      end
    else
      reject_if (present (xe_Result e) || negb (validExtensionErrorCode (xe_ErrorCode e)))
        (ErrNew "session: unsuccessful extension requires a safe error code and no result")
  end.

Section ExtensionJournal.
Context {J : JsonOps} {F : Fingerprints}.

(** The input of an extension belongs to the session and is not a prompt. *)
Definition foreign_input (sessionID : string) (input : Input) : bool :=
  negb (Input_Valid input) || present (in_SystemPrompt input) ||
  match in_Message input with Some m => negb (String.eqb (msg_SessionID m) sessionID) | None => false end ||
  match in_ToolCall input with Some c => negb (String.eqb (call_SessionID c) sessionID) | None => false end.

Definition validateExtensionContextInputs (inputs : list Input) (sessionID : string) : result unit :=
  reject_if (existsb (foreign_input sessionID) inputs) (ErrNew "session: invalid extension context input") ;;
  map_err (fun _ => ErrNew "session: extension context violates the model protocol") (ValidateInputs inputs).

Definition off_target (e : ExtensionJournalEntry) (input : Input) : bool :=
  match in_Message input with
  | None => true
  | Some m => present (in_SystemPrompt input) || present (in_ToolCall input) || present (in_ToolResult input) ||
      negb (String.eqb (msg_RunID m) (xe_RunID e)) || negb (String.eqb (msg_StepID m) (xe_TargetStepID e)) ||
      negb (bool_decide (msg_Role m = RoleUser))
  end.

Definition ext_validateContext (e : ExtensionJournalEntry) (sessionID : string) : result unit :=
  match xe_ContextDisposition e with
  | ContextNone =>
    reject_if (negb (bool_decide (xe_ContextInputs e = [])) || nonempty (xe_ContextDigest e) || negb (Z.eqb (xe_ContextBytes e) 0))
      (ErrNew "session: context-free extension carries context metadata")
  | ContextPending =>
    reject_if (negb (bool_decide (xe_Status e = InvocationSucceeded)) ||
               (negb (bool_decide (xe_EffectDisposition e = EffectPending)) && negb (bool_decide (xe_EffectDisposition e = EffectApplied))) ||
               bool_decide (xe_ContextInputs e = []) || Z.ltb MaxContextInputs (Z.of_nat (length (xe_ContextInputs e))))
      (ErrNew "session: pending extension context is not attached to a successful effect") ;;
    validateExtensionContextInputs (xe_ContextInputs e) sessionID ;;
    reject_if ((bool_decide (xe_Boundary e = BoundaryToolResult) || bool_decide (xe_Boundary e = BoundaryCompletion)) &&
               existsb (off_target e) (xe_ContextInputs e))
      (ErrNew "session: extension context is not bound to its exact target step") ;;
    reject_if (match FingerprintTypedInput (xe_ContextInputs e) with
               | Some fp => negb (String.eqb (fp_Digest fp) (xe_ContextDigest e)) || negb (Z.eqb (fp_Bytes fp) (xe_ContextBytes e)) ||
                            Z.ltb MaxContextBytes (fp_Bytes fp)
               | None => true
               end)
      (ErrNew "session: extension context fingerprint is invalid")
  | ContextConsumed | ContextDiscarded =>
    reject_if (negb (bool_decide (xe_ContextInputs e = [])) || negb (ValidDigest (xe_ContextDigest e)) || Z.leb (xe_ContextBytes e) 0)
      (ErrNew "session: terminal context disposition must retain only its fingerprint") ;;
    reject_if (bool_decide (xe_ContextDisposition e = ContextConsumed) && negb (bool_decide (xe_EffectDisposition e = EffectApplied)))
      (ErrNew "session: consumed context requires applied effect") ;;
    reject_if (bool_decide (xe_ContextDisposition e = ContextDiscarded) && negb (bool_decide (xe_EffectDisposition e = EffectApplied)) &&
               negb (bool_decide (xe_EffectDisposition e = EffectDiscarded)))
      (ErrNew "session: discarded context requires a finalized effect")
  | ContextOther _ => Ok tt
  end.

(** [ExtensionJournalEntry.Validate] *)
Definition ext_Validate (e : ExtensionJournalEntry) (sessionID : string) : result unit :=
  reject_if (negb (InvocationID_Valid (xe_InvocationID e)) || Z.eqb (xe_Sequence e) 0 ||
             negb (String.eqb (xe_SessionID e) sessionID) || negb (ID_Valid sessionID))
    (ErrNew "session: extension journal identity is invalid") ;;
  ExtensionDescriptor_Validate (xe_Descriptor e) ;;
  reject_if (negb (BoundaryKind_Valid (xe_Boundary e)) || negb (InvocationStatus_Valid (xe_Status e)) ||
             negb (EffectDisposition_Valid (xe_EffectDisposition e)) || negb (ContextDisposition_Valid (xe_ContextDisposition e)) ||
             negb (ValidDigest (xe_InputDigest e)))
    (ErrNew "session: extension journal vocabulary is invalid") ;;
  validateSubject e ;;
  reject_if ((bool_decide (xe_Boundary e = BoundaryToolPreflight) || bool_decide (xe_Boundary e = BoundaryToolResult) ||
              bool_decide (xe_Boundary e = BoundaryCompletion) || bool_decide (xe_Boundary e = BoundarySessionLifecycle)) &&
             Z.eqb (xe_PreparedRevision e) 0)
    (ErrNew "session: execution-boundary extension requires its prepared revision") ;;
  reject_if (IsZero (xe_PreparedAt e)) (ErrNew "session: extension journal requires prepared time") ;;
  reject_if (negb (IsZero (xe_PendingAt e)) && Before (xe_PendingAt e) (xe_PreparedAt e))
    (ErrNew "session: extension pending time precedes prepared time") ;;
  reject_if (negb (IsZero (xe_FinishedAt e)) &&
             (Before (xe_FinishedAt e) (xe_PreparedAt e) ||
              (negb (IsZero (xe_PendingAt e)) && Before (xe_FinishedAt e) (xe_PendingAt e))))
    (ErrNew "session: extension finished time is inconsistent") ;;
  ValidateSafeReason (xe_ErrorReason e) ;;
  validateStatusShape e ;;
  ext_validateContext e sessionID.

Definition sameExtensionIdentity (l r : ExtensionJournalEntry) : bool :=
  String.eqb (xe_InvocationID l) (xe_InvocationID r) && Z.eqb (xe_Sequence l) (xe_Sequence r) &&
  bool_decide (xe_Descriptor l = xe_Descriptor r) && bool_decide (xe_Boundary l = xe_Boundary r) &&
  String.eqb (xe_SessionID l) (xe_SessionID r) && String.eqb (xe_RunID l) (xe_RunID r) &&
  String.eqb (xe_StepID l) (xe_StepID r) && String.eqb (xe_TargetStepID l) (xe_TargetStepID r) &&
  String.eqb (xe_MessageID l) (xe_MessageID r) && String.eqb (xe_ToolCallID l) (xe_ToolCallID r) &&
  String.eqb (xe_GoalID l) (xe_GoalID r) && Z.eqb (xe_GoalVersion l) (xe_GoalVersion r) &&
  bool_decide (xe_LifecyclePhase l = xe_LifecyclePhase r) && bool_decide (xe_LifecycleOpenKind l = xe_LifecycleOpenKind r) &&
  String.eqb (xe_InputDigest l) (xe_InputDigest r) && Z.eqb (xe_PreparedRevision l) (xe_PreparedRevision r) &&
  Z.eqb (xe_PreparedAt l) (xe_PreparedAt r).

Definition sameExtensionTerminalOutcome (l r : ExtensionJournalEntry) : bool :=
  Z.eqb (xe_PendingAt l) (xe_PendingAt r) && Z.eqb (xe_FinishedAt l) (xe_FinishedAt r) &&
  bool_decide (xe_Result l = xe_Result r) && String.eqb (xe_ErrorCode l) (xe_ErrorCode r) &&
  String.eqb (xe_ErrorReason l) (xe_ErrorReason r) && String.eqb (xe_ContextDigest l) (xe_ContextDigest r) &&
  Z.eqb (xe_ContextBytes l) (xe_ContextBytes r).

Definition validateExtensionTransition (current next : ExtensionJournalEntry) : result unit :=
  match xe_Status current with
  | InvocationPrepared =>
    reject_if (negb (bool_decide (xe_Status next = InvocationPending)) && negb (bool_decide (xe_Status next = InvocationFailed)) &&
               negb (bool_decide (xe_Status next = InvocationCanceled)))
      (extensionConflict "prepared extension may only become pending, failed, or canceled") ;;
    reject_if (negb (IsZero (xe_PendingAt next)) && negb (bool_decide (xe_Status next = InvocationPending)))
      (extensionConflict "direct terminal extension cannot invent a pending boundary") ;;
    reject_if (bool_decide (xe_Status next = InvocationFailed) && negb (bool_decide (xe_EffectDisposition next = EffectPending)))
      (extensionConflict "failed extension outcome must await effect application") ;;
    reject_if (bool_decide (xe_Status next = InvocationCanceled) && negb (bool_decide (xe_EffectDisposition next = EffectDiscarded)))
      (extensionConflict "administratively canceled extension must discard its effect")
  | InvocationPending =>
    reject_if (negb (Terminal (xe_Status next))) (extensionConflict "pending extension requires a terminal outcome") ;;
    reject_if (negb (Z.eqb (xe_PendingAt next) (xe_PendingAt current)) || negb (bool_decide (xe_EffectDisposition next = EffectPending)))
      (extensionConflict "pending identity is immutable and terminal effect must await application")
  | _ =>
    reject_if (negb (bool_decide (xe_Status next = xe_Status current)) || negb (sameExtensionTerminalOutcome current next))
      (extensionConflict "terminal extension outcome is immutable") ;;
    let effectProgressed := negb (bool_decide (xe_EffectDisposition current = xe_EffectDisposition next)) in
    match xe_EffectDisposition current with
    | EffectPending =>
      reject_if (negb (bool_decide (xe_EffectDisposition next = EffectPending)) && negb (bool_decide (xe_EffectDisposition next = EffectApplied)) &&
                 negb (bool_decide (xe_EffectDisposition next = EffectDiscarded)))
        (extensionConflict "pending extension effect has an invalid transition")
    | EffectApplied | EffectDiscarded =>
      reject_if (negb (bool_decide (xe_EffectDisposition next = xe_EffectDisposition current)))
        (extensionConflict "finalized extension effect is immutable")
    | _ => Err (extensionConflict "terminal extension effect is invalid")
    end ;;
    let contextProgressed := negb (bool_decide (xe_ContextDisposition current = xe_ContextDisposition next)) in
    match xe_ContextDisposition current with
    | ContextNone =>
      reject_if (negb (bool_decide (xe_ContextDisposition next = ContextNone)))
        (extensionConflict "context-free extension cannot acquire context")
    | ContextPending =>
      reject_if (negb (bool_decide (xe_ContextDisposition next = ContextPending)) && negb (bool_decide (xe_ContextDisposition next = ContextConsumed)) &&
                 negb (bool_decide (xe_ContextDisposition next = ContextDiscarded)))
        (extensionConflict "pending extension context has an invalid transition") ;;
      reject_if (bool_decide (xe_ContextDisposition next = ContextPending) && negb (bool_decide (xe_ContextInputs current = xe_ContextInputs next)))
        (extensionConflict "pending extension context inputs are immutable")
    | ContextConsumed | ContextDiscarded =>
      reject_if (negb (bool_decide (xe_ContextDisposition next = xe_ContextDisposition current)))
        (extensionConflict "finalized extension context is immutable")
    | ContextOther _ => Ok tt
    end ;;
    reject_if (negb effectProgressed && negb contextProgressed) (extensionConflict "terminal extension disposition did not advance")
  end.

(** [applyExtensionJournal] on the journal of session [sessionID].  [int] is 64
    bits wide, so the index of a sequence above [2^63] is negative. *)
Definition applyExtensionJournal (sessionID : string) (journal : list ExtensionJournalEntry) (next : ExtensionJournalEntry)
    : result (list ExtensionJournalEntry) :=
  map_err (fun e => invalid "session.commit" (error_text e)) (ext_Validate next sessionID) ;;
  let index := i64 (i64 (xe_Sequence next) - 1) in
  if Z.eqb index (Z.of_nat (length journal)) then
    reject_if (negb (bool_decide (xe_Status next = InvocationPrepared)) || negb (Z.eqb (xe_Sequence next) (u64 (Z.of_nat (length journal) + 1))))
      (extensionConflict "new extension invocation must append the next prepared sequence") ;;
    reject_if (existsb (fun existing => String.eqb (xe_InvocationID existing) (xe_InvocationID next)) journal)
      (extensionConflict "extension invocation ID is already assigned") ;;
    Ok (journal ++ [next])
  else if Z.ltb index 0 || Z.leb (Z.of_nat (length journal)) index then Err (extensionConflict "extension sequence is not contiguous")
  else match journal !! Z.to_nat index with
  | Some current =>
    reject_if (negb (sameExtensionIdentity current next)) (extensionConflict "extension update changed immutable invocation identity") ;;
    validateExtensionTransition current next ;;
    Ok (<[Z.to_nat index := next]> journal)
  | None => Panic "index out of range"
  end.

End ExtensionJournal.

(** ** Diagnostics *)
Definition DefaultExtensionPageLimit : Z := 50.
Definition MaxExtensionPageLimit : Z := 100.

Record ExtensionPageRequest := MkExtensionPageRequest { epr_SessionID : string; epr_Before : Z; epr_Limit : Z }.

Record ExtensionDiagnostic := MkExtensionDiagnostic {
  xd_InvocationID : string; xd_Sequence : Z; xd_Descriptor : ExtensionDescriptor; xd_Boundary : BoundaryKind;
  xd_SessionID : string; xd_RunID : string; xd_StepID : string; xd_TargetStepID : string; xd_MessageID : string;
  xd_ToolCallID : string; xd_LifecyclePhase : LifecyclePhase; xd_LifecycleOpenKind : OpenKind; xd_InputDigest : string;
  xd_PreparedRevision : Z; xd_PreparedAt : Time; xd_PendingAt : Time; xd_FinishedAt : Time; xd_Status : InvocationStatus;
  xd_Decision : Decision_; xd_Reason : string; xd_ErrorCode : string; xd_ErrorReason : string; xd_Effect : EffectDisposition;
  xd_Context : ContextDisposition; xd_ContextDigest : string; xd_ContextBytes : Z;
}.

Definition Diagnostic (e : ExtensionJournalEntry) : ExtensionDiagnostic := {|
  xd_InvocationID := xe_InvocationID e; xd_Sequence := xe_Sequence e; xd_Descriptor := xe_Descriptor e;
  xd_Boundary := xe_Boundary e; xd_SessionID := xe_SessionID e; xd_RunID := xe_RunID e; xd_StepID := xe_StepID e;
  xd_TargetStepID := xe_TargetStepID e; xd_MessageID := xe_MessageID e; xd_ToolCallID := xe_ToolCallID e;
  xd_LifecyclePhase := xe_LifecyclePhase e; xd_LifecycleOpenKind := xe_LifecycleOpenKind e;
  xd_InputDigest := xe_InputDigest e; xd_PreparedRevision := xe_PreparedRevision e; xd_PreparedAt := xe_PreparedAt e;
  xd_PendingAt := xe_PendingAt e; xd_FinishedAt := xe_FinishedAt e; xd_Status := xe_Status e;
  xd_Decision := match xe_Result e with Some r => inv_Decision r | None => DecisionNone end;
  xd_Reason := match xe_Result e with Some r => inv_Reason r | None => "" end;
  xd_ErrorCode := xe_ErrorCode e; xd_ErrorReason := xe_ErrorReason e; xd_Effect := xe_EffectDisposition e;
  xd_Context := xe_ContextDisposition e; xd_ContextDigest := xe_ContextDigest e; xd_ContextBytes := xe_ContextBytes e |}.

Record ExtensionPage := MkExtensionPage {
  ep_AgentID : string; ep_WorkspaceID : string; ep_Revision : Z; ep_Diagnostics : list ExtensionDiagnostic; ep_HasMore : bool }.

(** [sort.Search(n, f)]: binary search for the smallest index with [f]. *)
Fixpoint search (fuel : nat) (f : nat -> bool) (i j : nat) : nat :=
  match fuel with
  | O => i
  | S fuel =>
    if Nat.ltb i j then
      let h := Nat.div2 (i + j) in
      if f h then search fuel f i h else search fuel f (S h) j
    else i
  end.
Definition sort_Search (n : nat) (f : nat -> bool) : nat := search n f 0 n.

(** [extensionPage]: the newest [limit] entries before the given sequence,
    newest first. *)
Definition extensionPage (entries : list ExtensionJournalEntry) (request : ExtensionPageRequest) : result ExtensionPage :=
  reject_if (negb (ID_Valid (epr_SessionID request))) (invalid "session.extension_diagnostics" [("session ID is required", [])]) ;;
  let limit := if Z.eqb (epr_Limit request) 0 then DefaultExtensionPageLimit else epr_Limit request in
  reject_if (Z.ltb limit 1 || Z.ltb MaxExtensionPageLimit limit)
    (invalid "session.extension_diagnostics" [("limit must be between 1 and", [AInt MaxExtensionPageLimit])]) ;;
  let start := if Z.eqb (epr_Before request) 0 then length entries
    else sort_Search (length entries) (fun index =>
      match entries !! index with Some e => Z.leb (epr_Before request) (xe_Sequence e) | None => false end) in
  let diagnostics := take (Z.to_nat limit) (rev (Diagnostic <$> take start entries)) in
  Ok (MkExtensionPage "" "" 0 diagnostics (Nat.ltb 0 (start - length diagnostics))).
