(* ===== verification/SessionValidate.v ===== *)
(** * Validation of facts, journal entries and changes

    The [Validate] methods of [session/contracts.go] that depend on JSON. *)

From S2P Require Import Prelude GoStrings AgentTypes ModelContracts SessionTypes ExtensionJournal.

Section SessionValidate.
Context {J : JsonOps} {F : Fingerprints}.

Definition ContextContributionFact_Validate (f : ContextContributionFact) (sessionID : string) : result unit :=
  reject_if (negb (ID_Valid (cc_RunID f)) || negb (ID_Valid (cc_StepID f)) || empty (cc_SourceKey f))
    (ErrNew "session: invalid context contribution fact") ;;
  reject_if (existsb (foreign_input sessionID) (cc_Inputs f)) (ErrNew "session: invalid context contribution input").

Definition validatePayload (f : HistoryFact) (sessionID : string) : result unit :=
  reject_if (negb (Nat.eqb (count_present (payloads f)) 1)) (ErrNew "session: history fact requires exactly one payload") ;;
  match hf_Message f, hf_ToolCall f, hf_ToolResult f, hf_Run f, hf_ModelAttempt f, hf_ModelConfigChanged f,
        hf_ContextContribution f, hf_RunBudgetExceeded f, hf_RunLimitExceeded f with
  | Some m, _, _, _, _, _, _, _, _ =>
    reject_if (negb (Message_Valid m) || negb (String.eqb (msg_SessionID m) sessionID))
      (ErrNew "session: history message does not belong to session")
  | _, Some c, _, _, _, _, _, _, _ =>
    reject_if (negb (ToolCall_Valid c) || negb (String.eqb (call_SessionID c) sessionID))
      (ErrNew "session: history tool call is invalid")
  | _, _, Some r, _, _, _, _, _, _ => ToolResult_Validate r
  | _, _, _, Some r, _, _, _, _, _ => RunFact_Validate r sessionID
  | _, _, _, _, Some a, _, _, _, _ => ModelAttemptFact_Validate a
  | _, _, _, _, _, Some c, _, _, _ => SessionEvent_Validate (MkSessionEvent EventModelConfigChanged 0 (Some c))
  | _, _, _, _, _, _, Some c, _, _ => ContextContributionFact_Validate c sessionID
  | _, _, _, _, _, _, _, Some b, _ => RunBudgetExceededFact_Validate b
  | _, _, _, _, _, _, _, _, Some l => RunLimitExceededFact_Validate l
  | None, None, None, None, None, None, None, None, None => Ok tt
  end.

(** [HistoryFact.Validate] *)
Definition HistoryFact_Validate (f : HistoryFact) (sessionID : string) : result unit :=
  reject_if (bad_optional (hf_OriginFactID f)) (ErrNew "session: history origin fact ID is invalid") ;;
  reject_if ((ID_Valid (hf_FactID f) || negb (Z.eqb (hf_Sequence f) 0) || ID_Valid (hf_SessionID f) || negb (IsZero (hf_At f)) ||
              ActorIdentity_Valid (hf_Actor f) || negb (bool_decide (hf_Kind f = FactOther "")) || ID_Valid (hf_RunID f) ||
              ID_Valid (hf_StepID f)) &&
             (negb (ID_Valid (hf_FactID f)) || Z.eqb (hf_Sequence f) 0 || negb (String.eqb (hf_SessionID f) sessionID) ||
              IsZero (hf_At f) || negb (ActorIdentity_Valid (hf_Actor f)) || negb (bool_decide (hf_Kind f = payloadKind f))))
    (ErrNew "session: history fact envelope is invalid") ;;
  validatePayload f sessionID.

(** [JournalEntry.Validate] *)
Definition JournalEntry_Validate (e : JournalEntry) (sessionID : string) : result unit :=
  match je_ToolCall e with
  | None => Err (ErrNew "session: journal entry requires run, step, call, and status")
  | Some call =>
    reject_if (negb (ID_Valid (je_RunID e)) || negb (ID_Valid (je_StepID e)) || negb (JournalStatus_Valid (je_Status e)))
      (ErrNew "session: journal entry requires run, step, call, and status") ;;
    reject_if (negb (ToolCall_Valid call) || negb (String.eqb (call_SessionID call) sessionID) ||
               negb (String.eqb (call_RunID call) (je_RunID e)) || negb (String.eqb (call_StepID call) (je_StepID e)))
      (ErrNew "session: journal tool call containment is invalid") ;;
    if bool_decide (je_Status e = JournalPrepared) || bool_decide (je_Status e = JournalPending) then
      reject_if (present (je_ToolResult e)) (ErrNew "session: unfinished journal cannot carry a result")
    else match je_ToolResult e with
    | None => Err (ErrNew "session: terminal journal requires the matching result")
    | Some r =>
      reject_if (negb (String.eqb (res_CallID r) (call_ID call))) (ErrNew "session: terminal journal requires the matching result") ;;
      ToolResult_Validate r ;;
      match je_Status e with
      | JournalSucceeded =>
        reject_if (negb (bool_decide (res_Status r = ResultSucceeded))) (ErrNew "session: succeeded journal requires a succeeded result")
      | JournalFailed =>
        reject_if (negb (bool_decide (res_Status r = ResultFailed))) (ErrNew "session: failed journal requires a failed result")
      | JournalOutcomeUnknown =>
        reject_if (negb (bool_decide (res_Status r = ResultUnknown))) (ErrNew "session: unknown journal requires an unknown result")
      | _ => Ok tt
      end
    end
  end.

(** [if c.X == nil { return missing }; return validate(c.X)] *)
Definition required {A} (payload : option A) (missing : string) (validate : A -> result unit) : result unit :=
  match payload with None => Err (ErrNew missing) | Some a => validate a end.

(** [Change.Validate] *)
Definition Change_Validate (c : Change) (sessionID : string) : result unit :=
  reject_if (negb (Nat.eqb (payloadCount c) 1)) (ErrNew "session: change requires exactly one payload") ;;
  reject_if (ch_RetainPreviousContext c && negb (bool_decide (ch_Kind c = SetContext)))
    (ErrNew "session: context retention applies only to a context change") ;;
  match ch_Kind c with
  | AppendMessage =>
    let e := "session: appended message does not belong to session" in
    required (ch_Message c) e (fun m =>
      reject_if (negb (Message_Valid m) || negb (String.eqb (msg_SessionID m) sessionID)) (ErrNew e))
  | AppendToolCall =>
    let e := "session: appended tool call does not belong to session" in
    required (ch_ToolCall c) e (fun call =>
      reject_if (negb (ToolCall_Valid call) || negb (String.eqb (call_SessionID call) sessionID)) (ErrNew e))
  | AppendToolResult => required (ch_ToolResult c) "session: appended tool result is missing" ToolResult_Validate
  | AppendRunFact =>
    required (ch_RunFact c) "session: appended run fact is missing" (fun f =>
      RunFact_Validate f sessionID ;;
      reject_if (negb (bool_decide (rf_Kind f = RunStarted)) && negb (bool_decide (rf_Kind f = RunCompleted)) && absent (rf_Termination f))
        (ErrNew "session: appended non-successful run terminal requires a termination"))
  | AppendModelAttempt => required (ch_ModelAttempt c) "session: appended model attempt is missing" ModelAttemptFact_Validate
  | AppendContextContribution =>
    required (ch_ContextContribution c) "session: appended context contribution is missing"
      (fun f => ContextContributionFact_Validate f sessionID)
  | AppendRunBudgetExceeded =>
    required (ch_RunBudgetExceeded c) "session: appended run budget fact is missing" RunBudgetExceededFact_Validate
  | AppendRunLimitExceeded =>
    required (ch_RunLimitExceeded c) "session: appended run limit fact is missing" RunLimitExceededFact_Validate
  | AppendSessionEvent =>
    let e := "session: appended Session event must have store-assigned revision" in
    required (ch_SessionEvent c) e (fun ev => reject_if (negb (Z.eqb (ev_Revision ev) 0)) (ErrNew e) ;; SessionEvent_Validate ev)
  | EnqueueMessage =>
    let e := "session: queue change does not belong to session" in
    required (ch_QueueItem c) e (fun item =>
      let m := qi_Message item in
      reject_if (negb (Message_Valid m) || negb (String.eqb (msg_SessionID m) sessionID) || negb (bool_decide (msg_Role m = RoleUser)) ||
                 nonempty (msg_RunID m) || nonempty (msg_StepID m) || negb (Delivery_Valid (qi_Delivery item)) ||
                 nonempty (qi_ClaimedBy item))
        (ErrNew e))
  | ClaimQueue =>
    let e := "session: queue claim requires message and run IDs" in
    required (ch_QueueClaim c) e (fun q => reject_if (negb (ID_Valid (qc_MessageID q)) || negb (ID_Valid (qc_RunID q))) (ErrNew e))
  | ConsumeQueue =>
    let e := "session: queue consume requires message and run IDs" in
    required (ch_QueueConsume c) e (fun q => reject_if (negb (ID_Valid (qn_MessageID q)) || negb (ID_Valid (qn_RunID q))) (ErrNew e))
  | EditQueue =>
    let e := "session: queue edit is invalid" in
    required (ch_QueueEdit c) e (fun q =>
      reject_if (negb (ID_Valid (qe_MessageID q)) || negb (MessageInput_Valid (qe_Input q)) || negb (Delivery_Valid (qe_Delivery q))) (ErrNew e))
  | DeleteQueue =>
    let e := "session: queue delete requires a message ID" in
    required (ch_QueueDelete c) e (fun q => reject_if (negb (ID_Valid (qd_MessageID q))) (ErrNew e))
  | ReclassifyQueue =>
    let e := "session: queue reclassification is invalid" in
    required (ch_QueueReclassification c) e (fun q =>
      reject_if (negb (ID_Valid (qr_MessageID q)) || negb (Delivery_Valid (qr_Delivery q))) (ErrNew e))
  | SetContext => required (ch_Context c) "session: context change is missing" (fun _ => Ok tt)
  | SetModelConfig =>
    required (ch_ModelConfig c) "session: model config change is missing" (fun config =>
      map_err (fun e => ErrWrap e "session: invalid model config change" []) (Config_Validate config))
  | SetRunState =>
    let e := "session: invalid run state change" in
    required (ch_RunState c) e (fun s => reject_if (negb (ID_Valid (rsc_RunID s)) || negb (RunState_Valid (rsc_State s))) (ErrNew e))
  | UpdateRunJournal =>
    required (ch_Journal c) "session: journal change is missing" (fun e => JournalEntry_Validate e sessionID)
  | UpdateExtensionJournal =>
    required (ch_Extension c) "session: extension journal change is missing" (fun e => ext_Validate e sessionID)
  | ChangeOther kind => Err (Errorf "session: unsupported change kind" [AStr kind])
  end.

(** [CommitRequest.Validate] *)
Definition CommitRequest_Validate (r : CommitRequest) : result unit :=
  reject_if (negb (ID_Valid (cr_SessionID r))) (ErrNew "session: commit requires a valid session ID") ;;
  reject_if (empty (cr_IdempotencyKey r)) (ErrNew "session: commit requires an idempotency key") ;;
  reject_if ((negb (bool_decide (actor_Kind (cr_Actor r) = ActorOther "")) || nonempty (actor_ID (cr_Actor r))) &&
             negb (ActorIdentity_Valid (cr_Actor r)))
    (ErrNew "session: commit actor identity is invalid") ;;
  reject_if (bool_decide (length (cr_Changes r) = 0)) (ErrNew "session: commit requires at least one change") ;;
  forM_ (fun change => Change_Validate change (cr_SessionID r)) (cr_Changes r).

End SessionValidate.
