(* ===== verification/SessionHistory.v ===== *)
(** * The append-only history

    Models [session/history.go] and the lookups over a history in
    [session/memory_store.go].  Appending reads the clock once; a reading is
    indexed by the length of the history at that point, and since every
    successful append makes the history longer, a function [clock] from
    lengths to times is an arbitrary sequence of readings. *)

From stdpp Require Import pretty.
From S2P Require Import Prelude GoStrings AgentTypes ModelContracts SessionTypes ExtensionJournal SessionValidate.

Definition no_fact : HistoryFact :=
  MkHistoryFact "" "" 0 "" "" "" 0 no_actor (FactOther "") None None None None None None None None None.

(** [HistoryFact{Message: &m}] and the other literals of the program. *)
Definition fact_Message (m : Message) : HistoryFact :=
  MkHistoryFact "" "" 0 "" "" "" 0 no_actor (FactOther "") (Some m) None None None None None None None None.
Definition fact_ToolCall (c : ToolCall) : HistoryFact :=
  MkHistoryFact "" "" 0 "" "" "" 0 no_actor (FactOther "") None (Some c) None None None None None None None.
Definition fact_ToolResult (r : ToolResult) : HistoryFact :=
  MkHistoryFact "" "" 0 "" "" "" 0 no_actor (FactOther "") None None (Some r) None None None None None None.
Definition fact_Run (r : RunFact) : HistoryFact :=
  MkHistoryFact "" "" 0 "" "" "" 0 no_actor (FactOther "") None None None (Some r) None None None None None.
Definition fact_ModelAttempt (a : ModelAttemptFact) : HistoryFact :=
  MkHistoryFact "" "" 0 "" "" "" 0 no_actor (FactOther "") None None None None (Some a) None None None None.
Definition fact_ModelConfigChanged (c : ModelConfigChange) : HistoryFact :=
  MkHistoryFact "" "" 0 "" "" "" 0 no_actor (FactOther "") None None None None None (Some c) None None None.
Definition fact_ContextContribution (c : ContextContributionFact) : HistoryFact :=
  MkHistoryFact "" "" 0 "" "" "" 0 no_actor (FactOther "") None None None None None None (Some c) None None.
Definition fact_RunBudgetExceeded (b : RunBudgetExceededFact) : HistoryFact :=
  MkHistoryFact "" "" 0 "" "" "" 0 no_actor (FactOther "") None None None None None None None (Some b) None.
Definition fact_RunLimitExceeded (l : RunLimitExceededFact) : HistoryFact :=
  MkHistoryFact "" "" 0 "" "" "" 0 no_actor (FactOther "") None None None None None None None None (Some l).

(** ** Lookups *)
Definition findMessage (history : list HistoryFact) (id : string) : option Message :=
  head (omap (fun f => m ← hf_Message f; if String.eqb (msg_ID m) id then Some m else None) history).
Definition containsMessage (history : list HistoryFact) (id : string) : bool :=
  existsb (fun f => match hf_Message f with Some m => String.eqb (msg_ID m) id | None => false end) history.
Definition findToolCall (history : list HistoryFact) (id : string) : option ToolCall :=
  head (omap (fun f => c ← hf_ToolCall f; if String.eqb (call_ID c) id then Some c else None) history).
Definition containsToolCall (history : list HistoryFact) (id : string) : bool := present (findToolCall history id).
Definition findToolResult (history : list HistoryFact) (id : string) : option ToolResult :=
  head (omap (fun f => r ← hf_ToolResult f; if String.eqb (res_CallID r) id then Some r else None) history).
Definition hasToolResult (history : list HistoryFact) (id : string) : bool :=
  existsb (fun f => match hf_ToolResult f with Some r => String.eqb (res_CallID r) id | None => false end) history.

(** The facts of one run, in order. *)
Definition run_facts_of (history : list HistoryFact) (runID : string) : list RunFact :=
  omap (fun f => r ← hf_Run f; if String.eqb (rf_RunID r) runID then Some r else None) history.
Definition is_started (r : RunFact) : bool := bool_decide (rf_Kind r = RunStarted).
(** [runFacts]: the last start and the last terminal fact of a run. *)
Definition runFacts (history : list HistoryFact) (runID : string) : option RunFact * option RunFact :=
  let facts := run_facts_of history runID in
  (last (List.filter is_started facts), last (List.filter (fun r => negb (is_started r)) facts)).

(** ** Appending *)
Definition hasHistoryEnvelope (f : HistoryFact) : bool :=
  nonempty (hf_FactID f) || negb (Z.eqb (hf_Sequence f) 0) || nonempty (hf_SessionID f) || nonempty (hf_RunID f) ||
  nonempty (hf_StepID f) || negb (IsZero (hf_At f)) || negb (bool_decide (actor_Kind (hf_Actor f) = ActorOther "")) ||
  nonempty (actor_ID (hf_Actor f)) || negb (bool_decide (hf_Kind f = FactOther "")).

Definition normalizedActor (actor : ActorIdentity) : ActorIdentity :=
  if ActorIdentity_Valid actor then actor else MkActorIdentity ActorService "agentslot".

Definition factContainment (history : list HistoryFact) (f : HistoryFact) : string * string :=
  match hf_Message f, hf_ToolCall f, hf_ToolResult f, hf_Run f, hf_ModelAttempt f, hf_ContextContribution f,
        hf_RunBudgetExceeded f, hf_RunLimitExceeded f with
  | Some m, _, _, _, _, _, _, _ => (msg_RunID m, msg_StepID m)
  | _, Some c, _, _, _, _, _, _ => (call_RunID c, call_StepID c)
  | _, _, Some r, _, _, _, _, _ =>
    match findToolCall history (res_CallID r) with Some call => (call_RunID call, call_StepID call) | None => ("", "") end
  | _, _, _, Some r, _, _, _, _ => (rf_RunID r, "")
  | _, _, _, _, Some a, _, _, _ => (ma_RunID a, ma_StepID a)
  | _, _, _, _, _, Some c, _, _ => (cc_RunID c, cc_StepID c)
  | _, _, _, _, _, _, Some b, _ => (rb_RunID b, "")
  | _, _, _, _, _, _, _, Some l => (rl_RunID l, rl_StepID l)
  | None, None, None, None, None, None, None, None => ("", "")
  end.

(** [fmt.Sprintf("%s:fact:%d", sessionID, sequence)] *)
Definition FactID (sessionID : string) (sequence : Z) : string := sessionID +:+ ":fact:" +:+ pretty (Z.to_N sequence).

(** The fact [appendHistoryFact] stores for [source]. *)
Definition enveloped (clock : nat -> Time) (history : list HistoryFact) (sessionID : string) (source : HistoryFact)
    (actor : ActorIdentity) : HistoryFact :=
  let sequence := u64 (Z.of_nat (length history) + 1) in
  let containment := factContainment history source in
  MkHistoryFact (FactID sessionID sequence) (hf_OriginFactID source) sequence sessionID containment.1 containment.2
    (clock (length history)) (normalizedActor actor) (payloadKind source)
    (hf_Message source) (hf_ToolCall source) (hf_ToolResult source) (hf_Run source) (hf_ModelAttempt source)
    (hf_ModelConfigChanged source) (hf_ContextContribution source) (hf_RunBudgetExceeded source) (hf_RunLimitExceeded source).

Definition historyPageLimit : Z := 100.

Record HistoryPageRequest := MkHistoryPageRequest { hpr_SessionID : string; hpr_Before : Z; hpr_StepLimit : Z }.
Record HistoryPage := MkHistoryPage {
  hp_AgentID : string; hp_WorkspaceID : string; hp_Revision : Z; hp_Facts : list HistoryFact; hp_HasMore : bool }.
Definition empty_page : HistoryPage := MkHistoryPage "" "" 0 [] false.

Section SessionHistory.
Context {J : JsonOps} {F : Fingerprints}.

Definition appendHistoryFact (clock : nat -> Time) (history : list HistoryFact) (sessionID : string) (source : HistoryFact)
    (actor : ActorIdentity) : result (list HistoryFact) :=
  reject_if (hasHistoryEnvelope source) (ErrNew "session: appended history fact contains store-owned metadata") ;;
  validatePayload source sessionID ;;
  let fact := enveloped clock history sessionID source actor in
  HistoryFact_Validate fact sessionID ;;
  Ok (history ++ [fact]).

(** The fact without its store-owned fields. *)
Definition stripped (f : HistoryFact) : HistoryFact :=
  MkHistoryFact "" (hf_OriginFactID f) 0 "" "" "" 0 no_actor (FactOther "")
    (hf_Message f) (hf_ToolCall f) (hf_ToolResult f) (hf_Run f) (hf_ModelAttempt f) (hf_ModelConfigChanged f)
    (hf_ContextContribution f) (hf_RunBudgetExceeded f) (hf_RunLimitExceeded f).

Definition prepareInitialHistory (clock : nat -> Time) (sessionID : string) (source : list HistoryFact) : result (list HistoryFact) :=
  foldM (fun history fact =>
    map_err (fun e => invalid "session.create" (error_text e))
      (appendHistoryFact clock history sessionID (stripped fact) no_actor)) source [].

(** ** Pages *)

(** The first index at or after the given sequence. *)
Fixpoint count_before (history : list HistoryFact) (before : Z) : nat :=
  match history with
  | f :: history => if Z.ltb (hf_Sequence f) before then S (count_before history before) else 0
  | [] => 0
  end.

Definition step_at (history : list HistoryFact) (i : nat) : string :=
  match history !! i with Some f => hf_StepID f | None => "" end.
Definition run_at (history : list HistoryFact) (i : nat) : string :=
  match history !! i with Some f => hf_RunID f | None => "" end.

(** Move [n] back while the fact before it belongs to [step]. *)
Fixpoint step_back (history : list HistoryFact) (step : string) (n : nat) : nat :=
  match n with
  | S m => if String.eqb (step_at history m) step then step_back history step m else n
  | O => 0
  end.

Definition page_end (history : list HistoryFact) (before : Z) : nat :=
  if Z.eqb before 0 then length history
  else
    let n := count_before history before in
    if Nat.ltb 0 n && Nat.ltb n (length history) && ID_Valid (step_at history n) &&
       String.eqb (step_at history (n - 1)) (step_at history n)
    then step_back history (step_at history n) n else n.

(** The backward loop: [n] facts are left, [start] is the current start of the
    page. *)
Fixpoint page_scan (history : list HistoryFact) (limit : nat) (n start : nat) (seen runs : gset string) (steps : nat)
    : nat * gset string * nat :=
  match n with
  | O => (start, runs, steps)
  | S index =>
    let step := step_at history index in
    let fresh := ID_Valid step && negb (bool_decide (step ∈ seen)) in
    if fresh && Nat.eqb steps limit then (start, runs, steps)
    else
      let seen' := if fresh then {[ step ]} ∪ seen else seen in
      let steps' := if fresh then S steps else steps in
      let runs' := if ID_Valid step && ID_Valid (run_at history index) then {[ run_at history index ]} ∪ runs else runs in
      page_scan history limit index index seen' runs' steps'
  end.

(** Skip facts of runs that have no step in the page. *)
Fixpoint skip_older_runs (history : list HistoryFact) (runs : gset string) (fuel start : nat) : nat :=
  match fuel with
  | O => start
  | S fuel =>
    if ID_Valid (run_at history start) && negb (bool_decide (run_at history start ∈ runs))
    then skip_older_runs history runs fuel (S start) else start
  end.

Definition page_start (history : list HistoryFact) (limit stop : nat) : nat :=
  let '(start, runs, steps) := page_scan history limit stop stop ∅ ∅ 0 in
  let start := if Nat.ltb 0 steps then skip_older_runs history runs (stop - start) start else start in
  if Nat.eqb steps 0 && Nat.ltb limit stop then stop - limit else start.

Definition historyPage (history : list HistoryFact) (request : HistoryPageRequest) : result HistoryPage :=
  reject_if (negb (ID_Valid (hpr_SessionID request))) (invalid "session.history_page" [("session ID is required", [])]) ;;
  let limit := if Z.eqb (hpr_StepLimit request) 0 then historyPageLimit else hpr_StepLimit request in
  reject_if (Z.ltb limit 0 || Z.ltb historyPageLimit limit)
    (invalid "session.history_page" [("step limit must be between 1 and 100", [])]) ;;
  let stop := page_end history (hpr_Before request) in
  if Nat.eqb stop 0 then Ok empty_page
  else
    let start := page_start history (Z.to_nat limit) stop in
    Ok (MkHistoryPage "" "" 0 (take (stop - start) (drop start history)) (Nat.ltb 0 start)).

End SessionHistory.
