(* ===== verification/SessionApply.v ===== *)
(** * Applying a commit to a snapshot

    Models [applyChanges] of [session/memory_store.go] and everything it calls:
    the checks that look at the whole change set, the appends of typed facts,
    the queue, the context, the run state and the journals.  The snapshot is a
    private clone in the code, so it is passed along as a value; an error
    discards it. *)

From Stdlib Require Import SpecFloat.
From S2P Require Import Prelude GoStrings AgentTypes ModelContracts SessionTypes ExtensionJournal.
From S2P Require Import SessionValidate SessionHistory.

Definition plain (message : string) : text := [(message, [])].
Definition coded (kind code message : string) : error := NewCodedError kind code "session.commit" (plain message) None.
Definition historyConflict (message : text) : error := NewCodedError ErrorConflict CodeHistoryInvariant "session.commit" message None.
Definition journalConflict (message : text) : error := NewCodedError ErrorConflict CodeJournalInvariant "session.commit" message None.
Definition queueNotFound (message : string) : error := coded ErrorNotFound CodeQueueItemNotFound message.
Definition hconflict (message : string) : error := historyConflict (plain message).
Definition jconflict (message : string) : error := journalConflict (plain message).

(** Dereferencing a pointer. *)
Definition deref {A} (p : option A) : result A :=
  match p with Some a => Ok a | None => Panic "invalid memory address or nil pointer dereference" end.

(** ** Comparisons *)
Definition sameFloat (l r : option spec_float) : bool :=
  match l, r with None, None => true | Some a, Some b => SFeqb a b | _, _ => false end.
Definition sameInt (l r : option Z) : bool :=
  match l, r with None, None => true | Some a, Some b => Z.eqb a b | _, _ => false end.
Definition sameModelConfig (l r : Config) : bool :=
  String.eqb (cfg_ProviderKey l) (cfg_ProviderKey r) && String.eqb (cfg_ModelID l) (cfg_ModelID r) &&
  bool_decide (cfg_Reasoning l = cfg_Reasoning r) &&
  sameFloat (par_Temperature (cfg_Parameters l)) (par_Temperature (cfg_Parameters r)) &&
  sameInt (par_MaxTokens (cfg_Parameters l)) (par_MaxTokens (cfg_Parameters r)).
Definition sameToolResult (l r : ToolResult) : bool :=
  String.eqb (res_CallID l) (res_CallID r) && bool_decide (res_Status l = res_Status r) && String.eqb (res_Output l) (res_Output r) &&
  bool_decide (res_Artifacts l = res_Artifacts r) && bool_decide (res_Error l = res_Error r).

Definition unfinishedJournal (s : JournalStatus) : bool :=
  match s with JournalPrepared | JournalPending => true | _ => false end.
Definition hasUnfinishedJournal (entries : list JournalEntry) : bool := existsb (fun e => unfinishedJournal (je_Status e)) entries.
Definition queueIndex (queue : list QueueItem) (id : string) : option nat :=
  fst <$> list_find (fun item => msg_ID (qi_Message item) = id) queue.
Definition same_entry (target entry : JournalEntry) : bool :=
  match je_ToolCall target, je_ToolCall entry with
  | Some a, Some b => String.eqb (call_ID a) (call_ID b)
  | None, None => String.eqb (je_RunID entry) (je_RunID target) && String.eqb (je_StepID entry) (je_StepID target)
  | _, _ => false
  end.
Definition journalIndex (entries : list JournalEntry) (target : JournalEntry) : option nat :=
  fst <$> list_find (fun entry => same_entry target entry = true) entries.

Definition attempt_facts_of (history : list HistoryFact) (attemptID : string) : list ModelAttemptFact :=
  omap (fun f => a ← hf_ModelAttempt f; if String.eqb (ma_AttemptID a) attemptID then Some a else None) history.
Definition is_attempt_start (a : ModelAttemptFact) : bool := bool_decide (ma_Kind a = AttemptStarted).

(** ** Updates of one field *)
Definition with_history (s : Snapshot) (h : list HistoryFact) : Snapshot :=
  MkSnapshot (sn_Session s) (sn_Revision s) h (sn_Context s) (sn_RetainedContexts s) (sn_Queue s) (sn_RunJournal s)
    (sn_ExtensionJournal s) (sn_Events s) (sn_ModelConfig s) (sn_RunState s) (sn_ActiveRunID s) (sn_Fork s).
Definition with_context (s : Snapshot) (c : ContextView) (retained : list ContextView) : Snapshot :=
  MkSnapshot (sn_Session s) (sn_Revision s) (sn_History s) c retained (sn_Queue s) (sn_RunJournal s)
    (sn_ExtensionJournal s) (sn_Events s) (sn_ModelConfig s) (sn_RunState s) (sn_ActiveRunID s) (sn_Fork s).
Definition with_queue (s : Snapshot) (q : list QueueItem) : Snapshot :=
  MkSnapshot (sn_Session s) (sn_Revision s) (sn_History s) (sn_Context s) (sn_RetainedContexts s) q (sn_RunJournal s)
    (sn_ExtensionJournal s) (sn_Events s) (sn_ModelConfig s) (sn_RunState s) (sn_ActiveRunID s) (sn_Fork s).
Definition with_journal (s : Snapshot) (j : list JournalEntry) : Snapshot :=
  MkSnapshot (sn_Session s) (sn_Revision s) (sn_History s) (sn_Context s) (sn_RetainedContexts s) (sn_Queue s) j
    (sn_ExtensionJournal s) (sn_Events s) (sn_ModelConfig s) (sn_RunState s) (sn_ActiveRunID s) (sn_Fork s).
Definition with_extensions (s : Snapshot) (x : list ExtensionJournalEntry) : Snapshot :=
  MkSnapshot (sn_Session s) (sn_Revision s) (sn_History s) (sn_Context s) (sn_RetainedContexts s) (sn_Queue s) (sn_RunJournal s)
    x (sn_Events s) (sn_ModelConfig s) (sn_RunState s) (sn_ActiveRunID s) (sn_Fork s).
Definition with_events (s : Snapshot) (e : list SessionEvent) : Snapshot :=
  MkSnapshot (sn_Session s) (sn_Revision s) (sn_History s) (sn_Context s) (sn_RetainedContexts s) (sn_Queue s) (sn_RunJournal s)
    (sn_ExtensionJournal s) e (sn_ModelConfig s) (sn_RunState s) (sn_ActiveRunID s) (sn_Fork s).
Definition with_config (s : Snapshot) (c : Config) : Snapshot :=
  MkSnapshot (sn_Session s) (sn_Revision s) (sn_History s) (sn_Context s) (sn_RetainedContexts s) (sn_Queue s) (sn_RunJournal s)
    (sn_ExtensionJournal s) (sn_Events s) c (sn_RunState s) (sn_ActiveRunID s) (sn_Fork s).
Definition with_run (s : Snapshot) (state : RunState) (runID : string) : Snapshot :=
  MkSnapshot (sn_Session s) (sn_Revision s) (sn_History s) (sn_Context s) (sn_RetainedContexts s) (sn_Queue s) (sn_RunJournal s)
    (sn_ExtensionJournal s) (sn_Events s) (sn_ModelConfig s) state runID (sn_Fork s).
(** Both copies of the revision move together. *)
Definition with_revision (s : Snapshot) (r : Z) : Snapshot :=
  let sess := sn_Session s in
  MkSnapshot (MkSession (sess_ID sess) (sess_AgentID sess) (sess_WorkspaceID sess) (sess_ParentSessionID sess) (sess_ParentRevision sess) r)
    r (sn_History s) (sn_Context s) (sn_RetainedContexts s) (sn_Queue s) (sn_RunJournal s)
    (sn_ExtensionJournal s) (sn_Events s) (sn_ModelConfig s) (sn_RunState s) (sn_ActiveRunID s) (sn_Fork s).

(** [snapshot.RunState != RunRunning || snapshot.ActiveRunID != runID] *)
Definition not_active (s : Snapshot) (runID : string) : bool :=
  negb (bool_decide (sn_RunState s = RunRunning)) || negb (String.eqb (sn_ActiveRunID s) runID).

Definition applyRunState (s : Snapshot) (change : RunStateChange) : result Snapshot :=
  match rsc_State change with
  | RunRunning =>
    reject_if (bool_decide (sn_RunState s = RunRunning)) (coded ErrorConflict CodeActiveRun "session already has an active run") ;;
    Ok (with_run s RunRunning (rsc_RunID change))
  | RunIdle =>
    reject_if (not_active s (rsc_RunID change)) (coded ErrorConflict CodeNoActiveRun "run is not active") ;;
    Ok (with_run s RunIdle "")
  | RunStateOther _ => Err (invalid "session.commit" (plain "invalid run state"))
  end.

(** The scans of the budget and limit facts over the history. *)
Definition budget_step (runID : string) (used : Z) (f : HistoryFact) : result Z :=
  reject_if (match hf_RunBudgetExceeded f with Some b => String.eqb (rb_RunID b) runID | None => false end)
    (hconflict "run budget was already exceeded") ;;
  reject_if (match hf_RunLimitExceeded f with Some l => String.eqb (rl_RunID l) runID | None => false end)
    (hconflict "run limit was already exceeded") ;;
  match hf_ModelAttempt f with
  | Some a =>
    if negb (String.eqb (ma_RunID a) runID) || is_attempt_start a then Ok used
    else
      let next := i64 (used + use_TotalTokens (ma_Usage a)) in
      reject_if (Z.ltb next used) (hconflict "run token usage overflow") ;;
      Ok next
  | None => Ok used
  end.

Definition limit_step (fact : RunLimitExceededFact) (counts : Z * Z) (f : HistoryFact) : result (Z * Z) :=
  reject_if (match hf_RunLimitExceeded f with Some l => String.eqb (rl_RunID l) (rl_RunID fact) | None => false end)
    (hconflict "run limit was already exceeded") ;;
  reject_if (match hf_RunBudgetExceeded f with Some b => String.eqb (rb_RunID b) (rl_RunID fact) | None => false end)
    (hconflict "run budget was already exceeded") ;;
  attempts ← match hf_ModelAttempt f with
    | Some a =>
      if String.eqb (ma_RunID a) (rl_RunID fact) && is_attempt_start a then
        reject_if (String.eqb (ma_AttemptID a) (rl_TriggerAttemptID fact)) (hconflict "rejected model attempt was already started") ;;
        Ok (i64 (counts.1 + 1))
      else Ok counts.1
    | None => Ok counts.1
    end;
  calls ← match hf_ToolCall f with
    | Some c =>
      if String.eqb (call_RunID c) (rl_RunID fact) then
        reject_if (String.eqb (call_ID c) (rl_TriggerToolCallID fact)) (hconflict "rejected tool call was already admitted") ;;
        Ok (i64 (counts.2 + 1))
      else Ok counts.2
    | None => Ok counts.2
    end;
  Ok (attempts, calls).

Section SessionApply.
Context {J : JsonOps} {F : Fingerprints}.

Definition sameToolCall (l r : ToolCall) : bool :=
  String.eqb (call_ID l) (call_ID r) && String.eqb (call_CorrelationID l) (call_CorrelationID r) &&
  String.eqb (call_MessageID l) (call_MessageID r) && String.eqb (call_SessionID l) (call_SessionID r) &&
  String.eqb (call_RunID l) (call_RunID r) && String.eqb (call_StepID l) (call_StepID r) &&
  String.eqb (call_Name l) (call_Name r) && jsonvalue_Equal (call_Arguments l) (call_Arguments r).

(** Append one fact to the history of a snapshot. *)
Definition append_fact (clock : nat -> Time) (s : Snapshot) (sessionID : string) (source : HistoryFact) (actor : ActorIdentity)
    : result Snapshot :=
  h ← appendHistoryFact clock (sn_History s) sessionID source actor;
  Ok (with_history s h).
Definition append_or_conflict (clock : nat -> Time) (s : Snapshot) (sessionID : string) (source : HistoryFact) (actor : ActorIdentity)
    : result Snapshot :=
  map_err (fun e => historyConflict (error_text e)) (append_fact clock s sessionID source actor).

Definition appendRunFact (clock : nat -> Time) (s : Snapshot) (fact : RunFact) (actor : ActorIdentity) : result Snapshot :=
  let '(started, terminal) := runFacts (sn_History s) (rf_RunID fact) in
  match rf_Kind fact with
  | RunStarted =>
    reject_if (present started) (hconflict "run already has a start fact") ;;
    reject_if (not_active s (rf_RunID fact)) (hconflict "run start fact requires the active run")
  | RunCompleted | RunCanceled | RunFailed | RunInterrupted =>
    match started with
    | None => Err (hconflict "run terminal fact requires one unterminated start fact")
    | Some start =>
      reject_if (present terminal) (hconflict "run terminal fact requires one unterminated start fact") ;;
      reject_if (not_active s (rf_RunID fact)) (hconflict "run terminal fact requires the active run") ;;
      reject_if (negb (Z.eqb (rf_ConfigRevision start) (rf_ConfigRevision fact)) ||
                 negb (sameModelConfig (rf_ModelConfig start) (rf_ModelConfig fact)))
        (hconflict "run terminal fact changed the frozen model config") ;;
      reject_if (negb (bool_decide (rf_Kind fact = RunCompleted)) && absent (rf_Termination fact))
        (hconflict "non-successful run terminal requires a termination")
    end
  | RunFactOther _ => Ok tt
  end ;;
  append_fact clock s (sess_ID (sn_Session s)) (fact_Run fact) actor.

Definition appendModelAttemptFact (clock : nat -> Time) (s : Snapshot) (fact : ModelAttemptFact) (actor : ActorIdentity) : result Snapshot :=
  let attempts := attempt_facts_of (sn_History s) (ma_AttemptID fact) in
  let started := last (List.filter is_attempt_start attempts) in
  let terminal := last (List.filter (fun a => negb (is_attempt_start a)) attempts) in
  (if is_attempt_start fact then
    reject_if (present started || present terminal) (hconflict "model attempt already started") ;;
    reject_if (not_active s (ma_RunID fact)) (hconflict "model attempt requires the active run") ;;
    reject_if (match (runFacts (sn_History s) (ma_RunID fact)).1 with
               | Some run => negb (String.eqb (cfg_ProviderKey (rf_ModelConfig run)) (ma_ProviderKey fact)) ||
                             negb (String.eqb (cfg_ModelID (rf_ModelConfig run)) (ma_ModelID fact))
               | None => true
               end)
      (hconflict "model attempt does not match the frozen run model")
  else
    match started with
    | None => Err (hconflict "model attempt terminal requires one unterminated start")
    | Some start =>
      reject_if (present terminal) (hconflict "model attempt terminal requires one unterminated start") ;;
      reject_if (negb (String.eqb (ma_RunID start) (ma_RunID fact)) || negb (String.eqb (ma_StepID start) (ma_StepID fact)) ||
                 negb (String.eqb (ma_ProviderKey start) (ma_ProviderKey fact)) || negb (String.eqb (ma_ModelID start) (ma_ModelID fact)))
        (hconflict "model attempt terminal changed identity")
    end) ;;
  append_fact clock s (sess_ID (sn_Session s)) (fact_ModelAttempt fact) actor.

Definition appendRunBudgetExceededFact (clock : nat -> Time) (s : Snapshot) (fact : RunBudgetExceededFact) (actor : ActorIdentity)
    : result Snapshot :=
  map_err (fun e => historyConflict (error_text e)) (RunBudgetExceededFact_Validate fact) ;;
  reject_if (not_active s (rb_RunID fact)) (hconflict "run budget fact requires the active run") ;;
  used ← foldM (budget_step (rb_RunID fact)) (sn_History s) 0%Z;
  reject_if (negb (Z.eqb used (rb_UsedTokens fact))) (hconflict "run budget usage differs from durable model attempts") ;;
  append_fact clock s (sess_ID (sn_Session s)) (fact_RunBudgetExceeded fact) actor.

Definition appendRunLimitExceededFact (clock : nat -> Time) (s : Snapshot) (fact : RunLimitExceededFact) (actor : ActorIdentity)
    : result Snapshot :=
  map_err (fun e => historyConflict (error_text e)) (RunLimitExceededFact_Validate fact) ;;
  reject_if (not_active s (rl_RunID fact)) (hconflict "run limit fact requires the active run") ;;
  counts ← foldM (limit_step fact) (sn_History s) (0%Z, 0%Z);
  let used := if bool_decide (rl_Kind fact = RunLimitToolCalls) then counts.2 else counts.1 in
  reject_if (negb (Z.eqb used (rl_Used fact))) (hconflict "run limit usage differs from durable history") ;;
  append_fact clock s (sess_ID (sn_Session s)) (fact_RunLimitExceeded fact) actor.

Definition contributed (fact : ContextContributionFact) (f : HistoryFact) : bool :=
  match hf_ContextContribution f with
  | Some c => String.eqb (cc_RunID c) (cc_RunID fact) && String.eqb (cc_StepID c) (cc_StepID fact) && String.eqb (cc_SourceKey c) (cc_SourceKey fact)
  | None => false
  end.
Definition appendContextContributionFact (clock : nat -> Time) (s : Snapshot) (fact : ContextContributionFact) (actor : ActorIdentity)
    : result Snapshot :=
  reject_if (not_active s (cc_RunID fact)) (hconflict "context contribution requires the active run") ;;
  reject_if (existsb (contributed fact) (sn_History s)) (hconflict "context source already contributed to this step") ;;
  append_or_conflict clock s (sess_ID (sn_Session s)) (fact_ContextContribution fact) actor.

Definition applyJournal (s : Snapshot) (entry : JournalEntry) (sessionID : string) : result Snapshot :=
  map_err (fun e => journalConflict (error_text e)) (JournalEntry_Validate entry sessionID) ;;
  match journalIndex (sn_RunJournal s) entry with
  | None =>
    reject_if (negb (unfinishedJournal (je_Status entry)) || absent (je_ToolCall entry)) (jconflict "journal must begin in an unfinished state") ;;
    reject_if (not_active s (je_RunID entry)) (jconflict "prepared tool call must belong to the active run") ;;
    Ok (with_journal s (sn_RunJournal s ++ [entry]))
  | Some index =>
    current ← deref (sn_RunJournal s !! index);
    entry_call ← deref (je_ToolCall entry);
    let changed := negb (String.eqb (je_RunID current) (je_RunID entry)) || negb (String.eqb (je_StepID current) (je_StepID entry)) ||
      match je_ToolCall current with Some call => negb (sameToolCall call entry_call) | None => true end in
    reject_if (negb (unfinishedJournal (je_Status current))) (jconflict "journal entry already has a terminal outcome") ;;
    if bool_decide (je_Status entry = JournalPrepared) then Err (jconflict "journal entry is already prepared")
    else if bool_decide (je_Status entry = JournalPending) then
      reject_if (negb (bool_decide (je_Status current = JournalPrepared))) (jconflict "journal entry is already pending") ;;
      reject_if changed (jconflict "journal update changed the prepared tool identity") ;;
      Ok (with_journal s (<[index := MkJournalEntry (je_RunID current) (je_StepID current) (je_ToolCall current) (je_ToolResult current) JournalPending]> (sn_RunJournal s)))
    else
      match je_ToolResult entry with
      | None => Err (jconflict "terminal journal requires a result")
      | Some result =>
        reject_if (match je_ToolCall current with Some call => negb (String.eqb (res_CallID result) (call_ID call)) | None => false end)
          (jconflict "journal result does not match tool call") ;;
        reject_if changed (jconflict "journal update changed the pending tool identity") ;;
        Ok (with_journal s (<[index := MkJournalEntry (je_RunID current) (je_StepID current) (je_ToolCall current) (Some result) (je_Status entry)]> (sn_RunJournal s)))
      end
  end.

Definition input_session_differs (sessionID : string) (input : Input) : option string :=
  match in_Message input with
  | Some m => if negb (String.eqb (msg_SessionID m) sessionID) then Some "context message does not belong to session" else
    match in_ToolCall input with
    | Some c => if negb (String.eqb (call_SessionID c) sessionID) then Some "context tool call does not belong to session" else None
    | None => None
    end
  | None =>
    match in_ToolCall input with
    | Some c => if negb (String.eqb (call_SessionID c) sessionID) then Some "context tool call does not belong to session" else None
    | None => None
    end
  end.

Definition validateContext (v : ContextView) (sessionID : string) : result unit :=
  let fail message := Err (invalid "session.context" message) in
  if Z.eqb (cv_Version v) 0 then
    reject_if (negb (Z.eqb (cv_SourceRevision v) 0) || negb (Z.eqb (cv_SourceHistorySequence v) 0) || negb (Z.eqb (cv_TokenCount v) 0) ||
               nonempty (mreq_SessionID (cv_Request v)))
      (invalid "session.context" (plain "empty context contains versioned data"))
  else
    reject_if (Z.eqb (cv_SourceRevision v) 0 || Z.ltb (cv_TokenCount v) 0) (invalid "session.context" (plain "versioned context metadata is invalid")) ;;
    let request := cv_Request v in
    reject_if (negb (String.eqb (mreq_SessionID request) sessionID) || negb (ID_Valid (mreq_RunID request)) || negb (ID_Valid (mreq_StepID request)))
      (invalid "session.context" (plain "context request containment is invalid")) ;;
    map_err (fun e => invalid "session.context" (error_text e)) (Config_Validate (mreq_Config request)) ;;
    forM_ (fun input => match input_session_differs sessionID input with Some message => fail (plain message) | None => Ok tt end) (mreq_Inputs request) ;;
    map_err (fun e => invalid "session.context" (error_text e)) (ValidateInputs (mreq_Inputs request)) ;;
    forM_ (fun definition => map_err (fun e => invalid "session.context" (error_text e)) (ToolDefinition_Validate definition)) (mreq_Tools request).

Definition validateContextRun (history : list HistoryFact) (v : ContextView) : result unit :=
  if Z.eqb (cv_Version v) 0 then Ok tt
  else match (runFacts history (mreq_RunID (cv_Request v))).1 with
  | None => Err (hconflict "context request has no RunStarted fact")
  | Some started =>
    reject_if (negb (Z.eqb (mreq_ConfigRevision (cv_Request v)) (rf_ConfigRevision started)) ||
               negb (sameModelConfig (mreq_Config (cv_Request v)) (rf_ModelConfig started)))
      (hconflict "context request changed the frozen run model")
  end.

(** ** Checks over the whole change set *)
Record tool_changes := ToolChanges {
  tc_prepared : gmap string JournalEntry;
  tc_pending : gmap string JournalEntry;
  tc_terminal : gmap string JournalEntry;
  tc_calls : gmap string ToolCall;
  tc_results : gmap string ToolResult;
}.

Definition collect_tool_change (t : tool_changes) (c : Change) : result tool_changes :=
  match ch_Kind c with
  | AppendToolCall =>
    call ← deref (ch_ToolCall c);
    Ok (ToolChanges (tc_prepared t) (tc_pending t) (tc_terminal t) (<[call_ID call := call]> (tc_calls t)) (tc_results t))
  | AppendToolResult =>
    r ← deref (ch_ToolResult c);
    Ok (ToolChanges (tc_prepared t) (tc_pending t) (tc_terminal t) (tc_calls t) (<[res_CallID r := r]> (tc_results t)))
  | UpdateRunJournal =>
    entry ← deref (ch_Journal c);
    call ← deref (je_ToolCall entry);
    match je_Status entry with
    | JournalPrepared => Ok (ToolChanges (<[call_ID call := entry]> (tc_prepared t)) (tc_pending t) (tc_terminal t) (tc_calls t) (tc_results t))
    | JournalPending => Ok (ToolChanges (tc_prepared t) (<[call_ID call := entry]> (tc_pending t)) (tc_terminal t) (tc_calls t) (tc_results t))
    | _ => Ok (ToolChanges (tc_prepared t) (tc_pending t) (<[call_ID call := entry]> (tc_terminal t)) (tc_calls t) (tc_results t))
    end
  | _ => Ok t
  end.

(** An empty assistant message owns a tool call of the same transaction. *)
Definition check_empty_message (changes : list Change) (c : Change) : result unit :=
  match ch_Kind c with
  | AppendMessage =>
    m ← deref (ch_Message c);
    match msg_Parts m with
    | [] =>
      reject_if (negb (existsb (fun candidate => bool_decide (ch_Kind candidate = AppendToolCall) &&
          match ch_ToolCall candidate with Some call => String.eqb (call_MessageID call) (msg_ID m) | None => false end) changes))
        (hconflict "empty assistant message requires a tool call in the same transaction")
    | _ => Ok tt
    end
  | _ => Ok tt
  end.

Definition check_tool_change (history : list HistoryFact) (t : tool_changes) (c : Change) : result unit :=
  match ch_Kind c with
  | AppendToolCall =>
    call ← deref (ch_ToolCall c);
    match (match tc_prepared t !! call_ID call with Some e => Some e | None => tc_pending t !! call_ID call end) with
    | None => Err (jconflict "tool call and unfinished journal must be committed together")
    | Some entry =>
      entry_call ← deref (je_ToolCall entry);
      reject_if (negb (sameToolCall call entry_call)) (jconflict "prepared journal does not match the appended tool call")
    end
  | AppendToolResult =>
    r ← deref (ch_ToolResult c);
    match tc_terminal t !! res_CallID r with
    | None => Err (jconflict "tool result and terminal journal must be committed together")
    | Some entry =>
      entry_result ← deref (je_ToolResult entry);
      reject_if (negb (sameToolResult r entry_result)) (jconflict "terminal journal does not match the appended tool result")
    end
  | UpdateRunJournal =>
    entry ← deref (ch_Journal c);
    entry_call ← deref (je_ToolCall entry);
    let callID := call_ID entry_call in
    if bool_decide (je_Status entry = JournalPrepared) ||
       (bool_decide (je_Status entry = JournalPending) && present (tc_calls t !! callID)) then
      match tc_calls t !! callID with
      | None => Err (jconflict "prepared journal has no committed tool call")
      | Some call => reject_if (negb (sameToolCall call entry_call)) (jconflict "prepared journal changed the appended tool identity")
      end
    else if negb (bool_decide (je_Status entry = JournalPending)) then
      match tc_results t !! callID with
      | None => Err (jconflict "terminal journal has no committed tool result")
      | Some r =>
        match findToolCall history callID with
        | None => Err (jconflict "terminal journal changed the history tool identity")
        | Some call =>
          reject_if (negb (sameToolCall call entry_call)) (jconflict "terminal journal changed the history tool identity") ;;
          entry_result ← deref (je_ToolResult entry);
          reject_if (negb (sameToolResult r entry_result)) (jconflict "terminal journal changed the history tool result")
        end
      end
    else Ok tt
  | _ => Ok tt
  end.

Definition validateToolTransactions (history : list HistoryFact) (changes : list Change) : result unit :=
  t ← foldM collect_tool_change changes (ToolChanges ∅ ∅ ∅ ∅ ∅);
  forM_ (check_empty_message changes) changes ;;
  forM_ (check_tool_change history t) changes.

Definition collect_config_change (t : option Config * option SessionEvent) (c : Change) : result (option Config * option SessionEvent) :=
  match ch_Kind c with
  | SetModelConfig =>
    reject_if (present t.1) (invalid "session.commit" (plain "model config can change at most once per transaction")) ;;
    Ok (ch_ModelConfig c, t.2)
  | AppendSessionEvent =>
    ev ← deref (ch_SessionEvent c);
    reject_if (present t.2 || negb (bool_decide (ev_Kind ev = EventModelConfigChanged)))
      (invalid "session.commit" (plain "model config transaction requires one change event")) ;;
    Ok (t.1, Some ev)
  | _ => Ok t
  end.

Definition validateModelConfigTransaction (current : Config) (changes : list Change) : result unit :=
  '(selected, event) ← foldM collect_config_change changes (None, None);
  let together := Err (invalid "session.commit" (plain "model config and ModelConfigChanged event must be committed together")) in
  match selected, event with
  | None, None => Ok tt
  | Some selected, Some event =>
    match ev_ModelConfigChanged event with
    | None => together
    | Some change =>
      reject_if (negb (sameModelConfig current (mcc_Previous change)) || negb (sameModelConfig selected (mcc_Current change)))
        (invalid "session.commit" (plain "ModelConfigChanged event does not match the atomic transition"))
    end
  | _, _ => together
  end.

Definition validateQueueClaims (queue : list QueueItem) (state : RunState) (activeRunID : string) : result unit :=
  reject_if (existsb (fun item => nonempty (qi_ClaimedBy item) &&
      (negb (bool_decide (state = RunRunning)) || negb (String.eqb (qi_ClaimedBy item) activeRunID))) queue)
    (coded ErrorConflict CodeQueueItemClaimed "claimed queue item must belong to the active run").

(** ** One change *)

(** Find an item of the queue and check that nobody claimed it. *)
Definition unclaimed_item (queue : list QueueItem) (id : string) (claimed : string) : result (nat * QueueItem) :=
  match queueIndex queue id with
  | None => Err (queueNotFound "queue item not found")
  | Some index =>
    item ← deref (queue !! index);
    reject_if (Claimed item) (coded ErrorConflict CodeQueueItemClaimed claimed) ;;
    Ok (index, item)
  end.

Definition with_parts (m : Message) (parts : list MessagePart) : Message :=
  MkMessage (msg_ID m) (msg_ClientMessageID m) (msg_SessionID m) (msg_RunID m) (msg_StepID m) (msg_Role m) parts
    (msg_ModelContinuation m) (msg_CreatedAt m).

Definition apply_SetContext (s : Snapshot) (request : CommitRequest) (change : Change) (v : ContextView) : result Snapshot :=
  reject_if (negb (Z.eqb (cv_SourceRevision v) (cr_ExpectedRevision request)))
    (coded ErrorConflict CodeRevisionConflict "context source revision must match the committed aggregate") ;;
  reject_if (negb (Z.eqb (cv_Version v) (u64 (cv_Version (sn_Context s) + 1))))
    (coded ErrorConflict CodeRevisionConflict "context version must advance exactly once") ;;
  let latest := match last (sn_History s) with Some f => hf_Sequence f | None => 0%Z end in
  reject_if (negb (Z.eqb (cv_SourceHistorySequence v) latest))
    (coded ErrorConflict CodeRevisionConflict "context history sequence must match the latest durable fact") ;;
  validateContext v (cr_SessionID request) ;;
  validateContextRun (sn_History s) v ;;
  let retained :=
    if ch_RetainPreviousContext change
    then if Z.eqb (cv_Version (sn_Context s)) 0 then sn_RetainedContexts s else sn_RetainedContexts s ++ [sn_Context s]
    else [] in
  Ok (with_context s v retained).

Definition apply_AppendToolCall (clock : nat -> Time) (s : Snapshot) (request : CommitRequest) (call : ToolCall) : result Snapshot :=
  reject_if (containsToolCall (sn_History s) (call_ID call)) (hconflict "tool call ID already exists") ;;
  match findMessage (sn_History s) (call_MessageID call) with
  | None => Err (hconflict "tool call references an unknown assistant message")
  | Some parent =>
    reject_if (negb (bool_decide (msg_Role parent = RoleAssistant)) || negb (String.eqb (msg_RunID parent) (call_RunID call)) ||
               negb (String.eqb (msg_StepID parent) (call_StepID call)))
      (hconflict "tool call containment differs from its assistant message") ;;
    append_or_conflict clock s (cr_SessionID request) (fact_ToolCall call) (cr_Actor request)
  end.

Definition apply_change (clock : nat -> Time) (request : CommitRequest) (s : Snapshot) (change : Change) : result Snapshot :=
  let queue := sn_Queue s in
  match ch_Kind change with
  | AppendMessage =>
    m ← deref (ch_Message change);
    reject_if (containsMessage (sn_History s) (msg_ID m)) (hconflict "message ID already exists") ;;
    append_or_conflict clock s (cr_SessionID request) (fact_Message m) (cr_Actor request)
  | AppendToolCall => call ← deref (ch_ToolCall change); apply_AppendToolCall clock s request call
  | AppendToolResult =>
    r ← deref (ch_ToolResult change);
    reject_if (negb (containsToolCall (sn_History s) (res_CallID r))) (hconflict "tool result has no preceding tool call") ;;
    reject_if (hasToolResult (sn_History s) (res_CallID r)) (hconflict "tool call already has a terminal result") ;;
    append_or_conflict clock s (cr_SessionID request) (fact_ToolResult r) (cr_Actor request)
  | AppendRunFact => f ← deref (ch_RunFact change); appendRunFact clock s f (cr_Actor request)
  | AppendModelAttempt => f ← deref (ch_ModelAttempt change); appendModelAttemptFact clock s f (cr_Actor request)
  | AppendContextContribution => f ← deref (ch_ContextContribution change); appendContextContributionFact clock s f (cr_Actor request)
  | AppendRunBudgetExceeded => f ← deref (ch_RunBudgetExceeded change); appendRunBudgetExceededFact clock s f (cr_Actor request)
  | AppendRunLimitExceeded => f ← deref (ch_RunLimitExceeded change); appendRunLimitExceededFact clock s f (cr_Actor request)
  | AppendSessionEvent =>
    ev ← deref (ch_SessionEvent change);
    let s := with_events s (sn_Events s ++ [MkSessionEvent (ev_Kind ev) (Next (sn_Revision s)) (ev_ModelConfigChanged ev)]) in
    modelChange ← deref (ev_ModelConfigChanged ev);
    append_or_conflict clock s (cr_SessionID request) (fact_ModelConfigChanged modelChange) (cr_Actor request)
  | EnqueueMessage =>
    item ← deref (ch_QueueItem change);
    reject_if (Claimed item) (invalid "session.commit" (plain "new queue item cannot already be claimed")) ;;
    reject_if (present (queueIndex queue (msg_ID (qi_Message item))))
      (coded ErrorConflict CodeQueueItemAlreadyExists "queue message ID already exists") ;;
    Ok (with_queue s (queue ++ [item]))
  | ClaimQueue =>
    claim ← deref (ch_QueueClaim change);
    '(index, item) ← unclaimed_item queue (qc_MessageID claim) "queue item is already claimed";
    reject_if (not_active s (qc_RunID claim)) (coded ErrorConflict CodeNoActiveRun "queue claim must belong to the active run") ;;
    Ok (with_queue s (<[index := MkQueueItem (qi_Message item) (qi_Delivery item) (qc_RunID claim)]> queue))
  | ConsumeQueue =>
    consume ← deref (ch_QueueConsume change);
    match queueIndex queue (qn_MessageID consume) with
    | None => Err (queueNotFound "queue item not found")
    | Some index =>
      item ← deref (queue !! index);
      reject_if (negb (String.eqb (qi_ClaimedBy item) (qn_RunID consume)))
        (coded ErrorConflict CodeQueueItemClaimed "queue item is not claimed by this run") ;;
      Ok (with_queue s (delete index queue))
    end
  | EditQueue =>
    edit ← deref (ch_QueueEdit change);
    '(index, item) ← unclaimed_item queue (qe_MessageID edit) "claimed queue item cannot be edited";
    Ok (with_queue s (<[index := MkQueueItem (with_parts (qi_Message item) (qe_Input edit)) (qe_Delivery edit) (qi_ClaimedBy item)]> queue))
  | DeleteQueue =>
    del ← deref (ch_QueueDelete change);
    '(index, _) ← unclaimed_item queue (qd_MessageID del) "claimed queue item cannot be deleted";
    Ok (with_queue s (delete index queue))
  | ReclassifyQueue =>
    reclass ← deref (ch_QueueReclassification change);
    '(index, item) ← unclaimed_item queue (qr_MessageID reclass) "claimed queue item cannot be reclassified";
    Ok (with_queue s (<[index := MkQueueItem (qi_Message item) (qr_Delivery reclass) (qi_ClaimedBy item)]> queue))
  | SetContext => v ← deref (ch_Context change); apply_SetContext s request change v
  | SetModelConfig =>
    config ← deref (ch_ModelConfig change);
    reject_if (bool_decide (sn_RunState s = RunRunning)) (coded ErrorConflict CodeActiveRun "model config cannot change while a run is active") ;;
    Ok (with_config s config)
  | SetRunState => change ← deref (ch_RunState change); applyRunState s change
  | UpdateRunJournal => entry ← deref (ch_Journal change); applyJournal s entry (cr_SessionID request)
  | UpdateExtensionJournal =>
    next ← deref (ch_Extension change);
    journal ← applyExtensionJournal (sess_ID (sn_Session s)) (sn_ExtensionJournal s) next;
    Ok (with_extensions s journal)
  | ChangeOther _ => Ok s
  end.

Definition applyChanges (clock : nat -> Time) (s : Snapshot) (request : CommitRequest) : result Snapshot :=
  let changes := cr_Changes request in
  forM_ (fun change => map_err (fun e => invalid "session.commit" (error_text e)) (Change_Validate change (cr_SessionID request))) changes ;;
  validateToolTransactions (sn_History s) changes ;;
  validateModelConfigTransaction (sn_ModelConfig s) changes ;;
  s' ← foldM (apply_change clock request) changes s;
  reject_if (bool_decide (sn_RunState s' = RunIdle) && hasUnfinishedJournal (sn_RunJournal s'))
    (jconflict "idle session cannot retain unfinished tool execution") ;;
  validateQueueClaims (sn_Queue s') (sn_RunState s') (sn_ActiveRunID s') ;;
  Ok s'.

End SessionApply.
