(* ===== verification/SessionRecover.v ===== *)
(** * Crash recovery of an aggregate

    Models [recoverAggregate] of [session/memory_store.go].  It mutates the
    stored snapshot in place, also when it fails half-way, so every part
    returns the snapshot it leaves together with its outcome. *)

From S2P Require Import Prelude GoStrings AgentTypes ModelContracts SessionTypes ExtensionJournal.
From S2P Require Import SessionValidate SessionHistory SessionApply.

(** What one operation reads from its environment: the clock, for appended
    facts (by history length), for recovered extensions (by index) and for the
    list index, and the iteration order of a Go map. *)
Record Readings := MkReadings {
  at_fact : nat -> Time;
  at_extension : nat -> Time;
  at_update : Time;
  iterate : gmap string ModelAttemptFact -> list (string * ModelAttemptFact);
}.

Definition toolUnknown (id : string) : ToolResult := MkToolResult id ResultUnknown "" None [].

(** ** Extensions *)
Definition recover_extension (now : Time) (e : ExtensionJournalEntry) : ExtensionJournalEntry :=
  if negb (bool_decide (xe_Status e = InvocationPending)) then e
  else
    let finished := if Before now (xe_PendingAt e) then xe_PendingAt e else now in
    MkExtensionJournalEntry (xe_InvocationID e) (xe_Sequence e) (xe_Descriptor e) (xe_Boundary e) (xe_SessionID e) (xe_RunID e)
      (xe_StepID e) (xe_TargetStepID e) (xe_MessageID e) (xe_ToolCallID e) (xe_GoalID e) (xe_GoalVersion e) (xe_LifecyclePhase e)
      (xe_LifecycleOpenKind e) (xe_InputDigest e) (xe_PreparedRevision e) (xe_PreparedAt e) (xe_PendingAt e) finished
      InvocationOutcomeUnknown (xe_Result e) "hook_outcome_unknown" "extension outcome is unknown after process recovery"
      EffectPending (xe_ContextDisposition e) (xe_ContextInputs e) (xe_ContextDigest e) (xe_ContextBytes e).
Definition recover_extensions (clock : nat -> Time) (journal : list ExtensionJournalEntry) : list ExtensionJournalEntry :=
  imap (fun i e => recover_extension (clock i) e) journal.
Definition is_pending_extension (e : ExtensionJournalEntry) : bool := bool_decide (xe_Status e = InvocationPending).

(** ** Model attempts *)

(** The maps [startedAttempts] and [terminalAttempts]. *)
Definition attempt_maps (history : list HistoryFact) : gmap string ModelAttemptFact * gset string :=
  foldl (fun t f =>
    match hf_ModelAttempt f with
    | None => t
    | Some a =>
      if is_attempt_start a then (<[ma_AttemptID a := a]> t.1, t.2) else (t.1, {[ ma_AttemptID a ]} ∪ t.2)
    end) (∅, ∅) history.

Definition interrupted_attempt (started : ModelAttemptFact) : ModelAttemptFact :=
  MkModelAttemptFact (ma_AttemptID started) (ma_RunID started) (ma_StepID started) AttemptOutcomeUnknown (ma_ProviderKey started)
    (ma_ModelID started) (ma_ProviderRequestID started) (ma_Usage started) "process_interrupted" (ma_ErrorMessage started).

(** ** Run termination *)
Definition recoveredRunTermination (history : list HistoryFact) (runID : string) : RunTermination :=
  let reason f :=
    match hf_RunLimitExceeded f with
    | Some l =>
      if String.eqb (rl_RunID l) runID then
        Some (MkRunTermination TerminationBudget ErrorUnavailable
          (if bool_decide (rl_Kind l = RunLimitToolCalls) then CodeRunToolCallLimitExceeded else CodeRunModelAttemptLimitExceeded) "")
      else
        match hf_RunBudgetExceeded f with
        | Some b => if String.eqb (rb_RunID b) runID then Some (MkRunTermination TerminationBudget ErrorUnavailable CodeRunTokenBudgetExceeded "") else None
        | None => None
        end
    | None =>
      match hf_RunBudgetExceeded f with
      | Some b => if String.eqb (rb_RunID b) runID then Some (MkRunTermination TerminationBudget ErrorUnavailable CodeRunTokenBudgetExceeded "") else None
      | None => None
      end
    end in
  match last (omap reason history) with
  | Some t => t
  | None => MkRunTermination TerminationRuntime ErrorUnavailable CodeRuntimeInterrupted ""
  end.

Definition interrupted_run (started : RunFact) (t : RunTermination) : RunFact :=
  MkRunFact (rf_SessionID started) (rf_RunID started) RunInterrupted (rf_ModelConfig started) (rf_ConfigRevision started)
    (rf_LegacyCompletionMode started) (Some t).

(** ** Queue *)
Definition release_item (runID : string) (item : QueueItem) : QueueItem :=
  MkQueueItem (qi_Message item)
    (if bool_decide (qi_Delivery item = DeliverySteer) then DeliveryHeld else qi_Delivery item)
    (if String.eqb (qi_ClaimedBy item) runID then "" else qi_ClaimedBy item).
Definition to_release (runID : string) (item : QueueItem) : bool :=
  String.eqb (qi_ClaimedBy item) runID || bool_decide (qi_Delivery item = DeliverySteer).

(** Completion extensions of the run that still have to be applied. *)
Definition prepared_completion (runID : string) (e : ExtensionJournalEntry) : bool :=
  bool_decide (xe_Boundary e = BoundaryCompletion) && String.eqb (xe_RunID e) runID &&
  (bool_decide (xe_Status e = InvocationPrepared) || (Terminal (xe_Status e) && bool_decide (xe_EffectDisposition e = EffectPending))).

Section SessionRecover.
Context {J : JsonOps} {F : Fingerprints}.

(** A recovery step that appended a fact, or the error it is reported as. *)
Definition recover_append (clock : nat -> Time) (message : string) (s : Snapshot) (fact : HistoryFact) : Snapshot * result unit :=
  match append_fact clock s (sess_ID (sn_Session s)) fact no_actor with
  | Ok s' => (s', Ok tt)
  | Err e => (s, Err (NewError ErrorInternal "session.recover" (plain message) (Some e)))
  | Panic msg => (s, Panic msg)
  end.

Fixpoint terminate_attempts (clock : nat -> Time) (s : Snapshot) (terminal : gset string) (changed : bool)
    (started : list (string * ModelAttemptFact)) : Snapshot * result bool :=
  match started with
  | [] => (s, Ok changed)
  | (attemptID, fact) :: started =>
    if bool_decide (attemptID ∈ terminal) then terminate_attempts clock s terminal changed started
    else
      match recover_append clock "cannot terminate orphaned model attempt" s (fact_ModelAttempt (interrupted_attempt fact)) with
      | (s', Ok _) => terminate_attempts clock s' terminal true started
      | (s', Err e) => (s', Err e)
      | (s', Panic msg) => (s', Panic msg)
      end
  end.

(** The journal loop; [done] are the entries already visited.  The outcome is
    [hasPrepared] and [changed]. *)
Fixpoint recover_journal (clock : nat -> Time) (runID : string) (s : Snapshot) (done entries : list JournalEntry)
    (hasPrepared changed : bool) : Snapshot * result (bool * bool) :=
  match entries with
  | [] => (with_journal s done, Ok (hasPrepared, changed))
  | e :: entries =>
    match je_ToolCall e with
    | None => recover_journal clock runID s (done ++ [e]) entries hasPrepared changed
    | Some call =>
      if bool_decide (je_Status e = JournalPrepared) && String.eqb (je_RunID e) runID then
        recover_journal clock runID s (done ++ [e]) entries true changed
      else if negb (bool_decide (je_Status e = JournalPending)) then
        recover_journal clock runID s (done ++ [e]) entries hasPrepared changed
      else
        let '(s', appended) :=
          if hasToolResult (sn_History s) (call_ID call) then (s, Ok tt)
          else recover_append clock "cannot append unknown tool result" s (fact_ToolResult (toolUnknown (call_ID call))) in
        match appended with
        | Ok _ =>
          let e' := MkJournalEntry (je_RunID e) (je_StepID e) (je_ToolCall e) (Some (toolUnknown (call_ID call))) JournalOutcomeUnknown in
          recover_journal clock runID s' (done ++ [e']) entries hasPrepared true
        | Err err => (with_journal s' (done ++ e :: entries), Err err)
        | Panic msg => (with_journal s' (done ++ e :: entries), Panic msg)
        end
    end
  end.

(** The interrupted run is terminated unless work can be resumed. *)
Definition recover_run (clock : nat -> Time) (runID : string) (recoverable changed : bool) (s : Snapshot) : Snapshot * result bool :=
  if bool_decide (sn_RunState s = RunRunning) && negb recoverable then
    let '(s', appended) :=
      match runFacts (sn_History s) runID with
      | (Some started, None) =>
        recover_append clock "cannot append interrupted run" s
          (fact_Run (interrupted_run started (recoveredRunTermination (sn_History s) runID)))
      | _ => (s, Ok tt)
      end in
    match appended with
    | Ok _ => (with_run s' RunIdle "", Ok true)
    | Err e => (s', Err e)
    | Panic msg => (s', Panic msg)
    end
  else (s, Ok changed).

Definition recover_queue (runID : string) (recoverable : bool) (s : Snapshot) : Snapshot * bool :=
  if negb (ID_Valid runID) || recoverable then (s, false)
  else (with_queue s (release_item runID <$> sn_Queue s), existsb (to_release runID) (sn_Queue s)).

Definition recoverAggregate (r : Readings) (s : Snapshot) : Snapshot * result bool :=
  let changed := existsb is_pending_extension (sn_ExtensionJournal s) in
  let s := with_extensions s (recover_extensions (at_extension r) (sn_ExtensionJournal s)) in
  let runID := sn_ActiveRunID s in
  let '(started, terminal) := attempt_maps (sn_History s) in
  match terminate_attempts (at_fact r) s terminal changed (iterate r started) with
  | (s, Ok changed) =>
    match recover_journal (at_fact r) runID s [] (sn_RunJournal s) false changed with
    | (s, Ok (hasPrepared, changed)) =>
      let recoverable := hasPrepared || existsb (prepared_completion runID) (sn_ExtensionJournal s) in
      match recover_run (at_fact r) runID recoverable changed s with
      | (s, Ok changed) => let '(s, released) := recover_queue runID recoverable s in (s, Ok (changed || released))
      | (s, out) => (s, out)
      end
    | (s, Err e) => (s, Err e)
    | (s, Panic msg) => (s, Panic msg)
    end
  | (s, out) => (s, out)
  end.

End SessionRecover.
