(* ===== verification/SessionCreate.v ===== *)
(** * Admission of a new aggregate

    Models [validateNewSession] and [validateHistoryConsistency] of
    [session/memory_store.go]. *)

From S2P Require Import Prelude GoStrings AgentTypes ModelContracts SessionTypes ExtensionJournal.
From S2P Require Import SessionValidate SessionHistory SessionApply.

(** The maps of [validateHistoryConsistency]; a [map[K]bool] is the set of its
    true keys. *)
Record consistency := Consistency {
  co_messages : gmap string Message;
  co_calls : gset string;
  co_results : gset string;
  co_runStarts : gmap string RunFact;
  co_runTerminals : gset string;
  co_attemptStarts : gmap string ModelAttemptFact;
  co_attemptTerminals : gset string;
  co_attemptUsage : gmap string Z;
  co_budgetSeen : gset string;
  co_limitSeen : gset string;
  co_attemptCounts : gmap string Z;
  co_toolCallCounts : gmap string Z;
  co_contributions : gset string;
}.
Definition no_facts : consistency := Consistency ∅ ∅ ∅ ∅ ∅ ∅ ∅ ∅ ∅ ∅ ∅ ∅ ∅.

(** Reading a [map[K]int64]. *)
Definition counter (m : gmap string Z) (k : string) : Z := default 0%Z (m !! k).
Definition increment (m : gmap string Z) (k : string) : gmap string Z := <[k := i64 (counter m k + 1)]> m.

(** [string(RunID) + "\x00" + string(StepID) + "\x00" + SourceKey] *)
Definition NUL : string := bytes [0].
Definition contribution_key (c : ContextContributionFact) : string := cc_RunID c +:+ NUL +:+ cc_StepID c +:+ NUL +:+ cc_SourceKey c.

Definition check_message (t : consistency) (m : Message) : result consistency :=
  reject_if (present (co_messages t !! msg_ID m)) (hconflict "duplicate message in initial history") ;;
  Ok (Consistency (<[msg_ID m := m]> (co_messages t)) (co_calls t) (co_results t) (co_runStarts t) (co_runTerminals t)
        (co_attemptStarts t) (co_attemptTerminals t) (co_attemptUsage t) (co_budgetSeen t) (co_limitSeen t) (co_attemptCounts t)
        (co_toolCallCounts t) (co_contributions t)).

Definition check_call (t : consistency) (c : ToolCall) : result consistency :=
  reject_if (bool_decide (call_ID c ∈ co_calls t)) (hconflict "duplicate tool call in initial history") ;;
  match co_messages t !! call_MessageID c with
  | None => Err (hconflict "initial tool call references an unknown assistant message")
  | Some parent =>
    reject_if (negb (bool_decide (msg_Role parent = RoleAssistant)) || negb (String.eqb (msg_RunID parent) (call_RunID c)) ||
               negb (String.eqb (msg_StepID parent) (call_StepID c)))
      (hconflict "initial tool call containment differs from its assistant message") ;;
    Ok (Consistency (co_messages t) ({[ call_ID c ]} ∪ co_calls t) (co_results t) (co_runStarts t) (co_runTerminals t)
          (co_attemptStarts t) (co_attemptTerminals t) (co_attemptUsage t) (co_budgetSeen t) (co_limitSeen t) (co_attemptCounts t)
          (increment (co_toolCallCounts t) (call_RunID c)) (co_contributions t))
  end.

Definition check_result (t : consistency) (r : ToolResult) : result consistency :=
  reject_if (negb (bool_decide (res_CallID r ∈ co_calls t)) || bool_decide (res_CallID r ∈ co_results t))
    (hconflict "unpaired or duplicate tool result in initial history") ;;
  Ok (Consistency (co_messages t) (co_calls t) ({[ res_CallID r ]} ∪ co_results t) (co_runStarts t) (co_runTerminals t)
        (co_attemptStarts t) (co_attemptTerminals t) (co_attemptUsage t) (co_budgetSeen t) (co_limitSeen t) (co_attemptCounts t)
        (co_toolCallCounts t) (co_contributions t)).

Definition check_run (t : consistency) (r : RunFact) : result consistency :=
  if is_started r then
    reject_if (present (co_runStarts t !! rf_RunID r)) (hconflict "duplicate initial run start fact") ;;
    Ok (Consistency (co_messages t) (co_calls t) (co_results t) (<[rf_RunID r := r]> (co_runStarts t)) (co_runTerminals t)
          (co_attemptStarts t) (co_attemptTerminals t) (co_attemptUsage t) (co_budgetSeen t) (co_limitSeen t) (co_attemptCounts t)
          (co_toolCallCounts t) (co_contributions t))
  else
    match co_runStarts t !! rf_RunID r with
    | None => Err (hconflict "initial run terminal has no unique start")
    | Some started =>
      reject_if (bool_decide (rf_RunID r ∈ co_runTerminals t)) (hconflict "initial run terminal has no unique start") ;;
      reject_if (negb (Z.eqb (rf_ConfigRevision started) (rf_ConfigRevision r)) || negb (sameModelConfig (rf_ModelConfig started) (rf_ModelConfig r)))
        (hconflict "initial run terminal changed frozen model config") ;;
      Ok (Consistency (co_messages t) (co_calls t) (co_results t) (co_runStarts t) ({[ rf_RunID r ]} ∪ co_runTerminals t)
            (co_attemptStarts t) (co_attemptTerminals t) (co_attemptUsage t) (co_budgetSeen t) (co_limitSeen t) (co_attemptCounts t)
            (co_toolCallCounts t) (co_contributions t))
    end.

(** [runStarts[id] == nil || runTerminals[id]] *)
Definition run_closed (t : consistency) (runID : string) : bool :=
  absent (co_runStarts t !! runID) || bool_decide (runID ∈ co_runTerminals t).

Definition check_attempt (t : consistency) (a : ModelAttemptFact) : result consistency :=
  if is_attempt_start a then
    reject_if (present (co_attemptStarts t !! ma_AttemptID a) || bool_decide (ma_AttemptID a ∈ co_attemptTerminals t))
      (hconflict "duplicate initial model attempt start") ;;
    reject_if (run_closed t (ma_RunID a) ||
               match co_runStarts t !! ma_RunID a with
               | Some run => negb (String.eqb (cfg_ProviderKey (rf_ModelConfig run)) (ma_ProviderKey a)) ||
                             negb (String.eqb (cfg_ModelID (rf_ModelConfig run)) (ma_ModelID a))
               | None => true
               end)
      (hconflict "initial model attempt does not match an active frozen run") ;;
    Ok (Consistency (co_messages t) (co_calls t) (co_results t) (co_runStarts t) (co_runTerminals t)
          (<[ma_AttemptID a := a]> (co_attemptStarts t)) (co_attemptTerminals t) (co_attemptUsage t) (co_budgetSeen t) (co_limitSeen t)
          (increment (co_attemptCounts t) (ma_RunID a)) (co_toolCallCounts t) (co_contributions t))
  else
    match co_attemptStarts t !! ma_AttemptID a with
    | None => Err (hconflict "initial model attempt terminal has no unique start")
    | Some started =>
      reject_if (bool_decide (ma_AttemptID a ∈ co_attemptTerminals t)) (hconflict "initial model attempt terminal has no unique start") ;;
      reject_if (negb (String.eqb (ma_RunID started) (ma_RunID a)) || negb (String.eqb (ma_StepID started) (ma_StepID a)) ||
                 negb (String.eqb (ma_ProviderKey started) (ma_ProviderKey a)) || negb (String.eqb (ma_ModelID started) (ma_ModelID a)))
        (hconflict "initial model attempt terminal changed identity") ;;
      let next := i64 (counter (co_attemptUsage t) (ma_RunID a) + use_TotalTokens (ma_Usage a)) in
      reject_if (Z.ltb next (counter (co_attemptUsage t) (ma_RunID a))) (hconflict "initial run token usage overflow") ;;
      Ok (Consistency (co_messages t) (co_calls t) (co_results t) (co_runStarts t) (co_runTerminals t)
            (co_attemptStarts t) ({[ ma_AttemptID a ]} ∪ co_attemptTerminals t) (<[ma_RunID a := next]> (co_attemptUsage t))
            (co_budgetSeen t) (co_limitSeen t) (co_attemptCounts t) (co_toolCallCounts t) (co_contributions t))
    end.

Definition check_contribution (t : consistency) (c : ContextContributionFact) : result consistency :=
  reject_if (run_closed t (cc_RunID c)) (hconflict "initial context contribution does not belong to an active run") ;;
  reject_if (bool_decide (contribution_key c ∈ co_contributions t)) (hconflict "duplicate initial context source contribution") ;;
  Ok (Consistency (co_messages t) (co_calls t) (co_results t) (co_runStarts t) (co_runTerminals t)
        (co_attemptStarts t) (co_attemptTerminals t) (co_attemptUsage t) (co_budgetSeen t) (co_limitSeen t) (co_attemptCounts t)
        (co_toolCallCounts t) ({[ contribution_key c ]} ∪ co_contributions t)).

Definition check_budget (t : consistency) (b : RunBudgetExceededFact) : result consistency :=
  let run := rb_RunID b in
  reject_if (run_closed t run || bool_decide (run ∈ co_budgetSeen t) || bool_decide (run ∈ co_limitSeen t) ||
             negb (Z.eqb (counter (co_attemptUsage t) run) (rb_UsedTokens b)))
    (hconflict "initial run budget fact is inconsistent with durable attempts") ;;
  Ok (Consistency (co_messages t) (co_calls t) (co_results t) (co_runStarts t) (co_runTerminals t)
        (co_attemptStarts t) (co_attemptTerminals t) (co_attemptUsage t) ({[ run ]} ∪ co_budgetSeen t) (co_limitSeen t)
        (co_attemptCounts t) (co_toolCallCounts t) (co_contributions t)).

Definition check_limit (t : consistency) (l : RunLimitExceededFact) : result consistency :=
  let run := rl_RunID l in
  let used := if bool_decide (rl_Kind l = RunLimitToolCalls) then counter (co_toolCallCounts t) run else counter (co_attemptCounts t) run in
  let triggerExists := present (co_attemptStarts t !! rl_TriggerAttemptID l) || bool_decide (rl_TriggerToolCallID l ∈ co_calls t) in
  reject_if (run_closed t run || bool_decide (run ∈ co_budgetSeen t) || bool_decide (run ∈ co_limitSeen t) || triggerExists ||
             negb (Z.eqb used (rl_Used l)))
    (hconflict "initial run limit fact is inconsistent with durable history") ;;
  Ok (Consistency (co_messages t) (co_calls t) (co_results t) (co_runStarts t) (co_runTerminals t)
        (co_attemptStarts t) (co_attemptTerminals t) (co_attemptUsage t) (co_budgetSeen t) ({[ run ]} ∪ co_limitSeen t)
        (co_attemptCounts t) (co_toolCallCounts t) (co_contributions t)).

(** [if fact.X != nil { ... }] *)
Definition when_present {A S} (p : option A) (check : S -> A -> result S) (t : S) : result S :=
  match p with Some a => check t a | None => Ok t end.

Definition validQueueItem_envelope (item : QueueItem) (sessionID : string) : bool :=
  String.eqb (msg_SessionID (qi_Message item)) sessionID && bool_decide (msg_Role (qi_Message item) = RoleUser) &&
  empty (msg_RunID (qi_Message item)) && empty (msg_StepID (qi_Message item)) && Delivery_Valid (qi_Delivery item).

(** [duplicateQueueMessage]: the loop over the queue with the set [seen]. *)
Fixpoint duplicateQueueMessage (seen : gset string) (queue : list QueueItem) : bool :=
  match queue with
  | [] => false
  | item :: queue =>
    bool_decide (msg_ID (qi_Message item) ∈ seen) || duplicateQueueMessage ({[ msg_ID (qi_Message item) ]} ∪ seen) queue
  end.

Section SessionCreate.
Context {J : JsonOps} {F : Fingerprints}.

Definition check_fact (sessionID : string) (t : consistency) (f : HistoryFact) : result consistency :=
  map_err (fun e => historyConflict (error_text e)) (validatePayload f sessionID) ;;
  t ← when_present (hf_Message f) check_message t;
  t ← when_present (hf_ToolCall f) check_call t;
  t ← when_present (hf_ToolResult f) check_result t;
  t ← when_present (hf_Run f) check_run t;
  t ← when_present (hf_ModelAttempt f) check_attempt t;
  t ← when_present (hf_ContextContribution f) check_contribution t;
  t ← when_present (hf_RunBudgetExceeded f) check_budget t;
  when_present (hf_RunLimitExceeded f) check_limit t.

(** The loop over the journal: the sets [journalEntries] and [pending]. *)
Definition check_entry (history : list HistoryFact) (t : consistency) (sets : gset string * gset string) (e : JournalEntry)
    : result (gset string * gset string) :=
  call ← deref (je_ToolCall e);
  let id := call_ID call in
  reject_if (bool_decide (id ∈ sets.1)) (jconflict "duplicate initial journal entry") ;;
  reject_if (negb (bool_decide (id ∈ co_calls t))) (jconflict "initial journal has no history tool call") ;;
  reject_if (unfinishedJournal (je_Status e) && bool_decide (id ∈ co_results t))
    (jconflict "unfinished journal already has a history result") ;;
  reject_if (negb (unfinishedJournal (je_Status e)) && negb (bool_decide (id ∈ co_results t)))
    (jconflict "terminal journal has no history result") ;;
  (if unfinishedJournal (je_Status e) then Ok tt
   else
     match findToolResult history id with
     | None => Err (jconflict "terminal journal result differs from initial history")
     | Some r =>
       entry_result ← deref (je_ToolResult e);
       reject_if (negb (sameToolResult r entry_result)) (jconflict "terminal journal result differs from initial history")
     end) ;;
  Ok ({[ id ]} ∪ sets.1, if unfinishedJournal (je_Status e) then {[ id ]} ∪ sets.2 else sets.2).

Definition validateHistoryConsistency (sessionID : string) (history : list HistoryFact) (journal : list JournalEntry) : result unit :=
  t ← foldM (check_fact sessionID) history no_facts;
  sets ← foldM (check_entry history t) journal (∅, ∅);
  reject_if (negb (bool_decide (co_calls t ⊆ co_results t ∪ sets.2))) (jconflict "unpaired initial tool call has no pending journal").

Definition validQueueItem (item : QueueItem) (sessionID : string) : bool :=
  Message_Valid (qi_Message item) && validQueueItem_envelope item sessionID.

Definition create_error (message : string) : error := invalid "session.create" (plain message).
Definition create_wrap (e : error) : error := invalid "session.create" (error_text e).

Definition validate_identity (n : NewSession) : result unit :=
  let s := ns_Session n in
  reject_if (negb (ID_Valid (sess_ID s)) || negb (ID_Valid (sess_AgentID s)) || negb (ID_Valid (sess_WorkspaceID s)))
    (create_error "session identity is incomplete") ;;
  reject_if (negb (Z.eqb (sess_Revision s) 0)) (create_error "new session revision must be zero") ;;
  reject_if (String.eqb (sess_ParentSessionID s) (sess_ID s)) (create_error "session cannot be its own parent") ;;
  reject_if (bad_optional (sess_ParentSessionID s)) (create_error "parent session ID is invalid") ;;
  reject_if (empty (sess_ParentSessionID s) && negb (Z.eqb (sess_ParentRevision s) 0)) (create_error "parent revision requires a parent session") ;;
  reject_if (nonempty (sess_ParentSessionID s) && Z.eqb (sess_ParentRevision s) 0) (create_error "derived session requires a parent revision") ;;
  match ns_Fork n with
  | None => Ok tt
  | Some fork =>
    reject_if (negb (String.eqb (fork_ParentSessionID fork) (sess_ParentSessionID s)) || negb (ID_Valid (fork_ParentSessionID fork)))
      (create_error "fork provenance does not match parent session") ;;
    reject_if (negb (Z.eqb (fork_CutoffSequence fork) (Z.of_nat (length (ns_History n)))))
      (create_error "fork cutoff must match the complete copied History prefix") ;;
    reject_if (existsb (fun f => negb (ID_Valid (hf_OriginFactID f))) (ns_History n))
      (create_error "forked history fact requires source identity")
  end.

(** [if initial.RunState == "" { initial.RunState = RunIdle }] *)
Definition initial_run_state (n : NewSession) : RunState :=
  match ns_RunState n with RunStateOther "" => RunIdle | state => state end.

Definition validateNewSession (n : NewSession) : result unit :=
  let id := sess_ID (ns_Session n) in
  let state := initial_run_state n in
  let running runID := bool_decide (state = RunRunning) && String.eqb runID (ns_ActiveRunID n) in
  validate_identity n ;;
  map_err (fun e => invalid "session.create" (("invalid model config", []) :: error_text e)) (Config_Validate (ns_ModelConfig n)) ;;
  reject_if (negb (RunState_Valid state)) (create_error "invalid run state") ;;
  reject_if (bool_decide (state = RunRunning) && negb (ID_Valid (ns_ActiveRunID n))) (create_error "running session requires an active run") ;;
  reject_if (bool_decide (state = RunIdle) && nonempty (ns_ActiveRunID n)) (create_error "idle session cannot have an active run") ;;
  forM_ (fun f => map_err create_wrap (validatePayload f id)) (ns_History n) ;;
  forM_ (fun item =>
    reject_if (negb (validQueueItem item id)) (create_error "invalid queue item") ;;
    reject_if (bad_optional (qi_ClaimedBy item)) (create_error "queue item has an invalid claiming run") ;;
    reject_if (Claimed item && negb (running (qi_ClaimedBy item))) (create_error "claimed queue item must belong to the active run"))
    (ns_Queue n) ;;
  reject_if (duplicateQueueMessage ∅ (ns_Queue n)) (create_error "queue contains duplicate message IDs") ;;
  forM_ (fun e =>
    map_err create_wrap (JournalEntry_Validate e id) ;;
    reject_if (unfinishedJournal (je_Status e) && negb (running (je_RunID e))) (create_error "unfinished journal must belong to the active run"))
    (ns_RunJournal n) ;;
  validateContext (ns_Context n) id ;;
  let v := ns_Context n in
  reject_if (negb (Z.eqb (cv_Version v) 0) || negb (Z.eqb (cv_SourceRevision v) 0) || negb (Z.eqb (cv_SourceHistorySequence v) 0) ||
             negb (Z.eqb (cv_TokenCount v) 0) || nonempty (mreq_SessionID (cv_Request v)))
    (create_error "new session context must be empty and unversioned") ;;
  map_err create_wrap (validateHistoryConsistency id (ns_History n) (ns_RunJournal n)).

End SessionCreate.
