(* ===== verification/SessionStore.v ===== *)
(** * The in-memory Session store

    Models [MemoryStore] of [session/memory_store.go] and the list index of
    [session/list.go].  The store is a map from Session IDs to aggregates;
    every method runs under one mutex, so a method is one step.  The context of
    a call is sampled once, at its start. *)

From S2P Require Import Prelude GoStrings AgentTypes ModelContracts SessionTypes ExtensionJournal.
From S2P Require Import SessionValidate SessionHistory SessionApply SessionRecover SessionCreate.

(** The state of [ctx]: a nil context behaves like a live one. *)
Inductive context := Live | DeadlineExceeded | ContextCanceled.

Definition contextErr (ctx : context) (op : string) : result unit :=
  match ctx with
  | Live => Ok tt
  | DeadlineExceeded => Err (NewError ErrorDeadline op (plain "operation deadline exceeded") (Some (ErrNew "context deadline exceeded")))
  | ContextCanceled => Err (NewCodedError ErrorCanceled CodeCanceled op (plain "operation canceled") (Some (ErrNew "context canceled")))
  end.

(** ** The list index ([list.go]) *)
Definition sessionListCursorVersion : Z := 1.
Definition DefaultSessionListLimit : Z := 50.
Definition MaxSessionListLimit : Z := 200.
Definition MaxSessionListCursorBytes : Z := 4096.

Record sessionListIndex := MkIndex {
  ix_epoch : string;
  ix_cursorKey : string;
  ix_generation : Z;
  ix_created : option (gmap string Z);
  ix_lastUpdatedAt : Time;
}.
Definition new_index : sessionListIndex := MkIndex "" "" 0 None 0.

Record SessionSummary := MkSessionSummary {
  ss_SessionID : string; ss_AgentID : string; ss_WorkspaceID : string; ss_Revision : Z; ss_UpdatedAt : Time }.
#[export] Instance SessionSummary_eq_dec : EqDecision SessionSummary.
Proof. solve_decision. Defined.
Record listedSession := MkListedSession { ls_summary : SessionSummary; ls_generation : Z }.
Record ListRequest := MkListRequest { lr_AgentID : string; lr_WorkspaceID : string; lr_Limit : Z; lr_Cursor : string }.
Record ListResult := MkListResult { lres_Sessions : list SessionSummary; lres_NextCursor : string }.

Record sessionListCursor := MkCursor {
  cu_Version : Z;
  cu_Epoch : string;
  cu_AgentID : string;
  cu_WorkspaceID : string;
  cu_CreationCutoff : Z;
  cu_UpdatedAt : Time;
  cu_SessionID : string;
}.
#[export] Instance sessionListCursor_eq_dec : EqDecision sessionListCursor.
Proof. solve_decision. Defined.

(** What the index uses of crypto/rand, crypto/sha256, crypto/hmac,
    encoding/json and encoding/base64: fresh identities, and the signed
    encoding of a cursor under a key, which decodes to the cursor it was made
    from. *)
Class CursorCodec : Type := {
  sign_cursor : string -> sessionListCursor -> option string;
  verify_cursor : string -> string -> option sessionListCursor;
  verify_sign : forall key c encoded, sign_cursor key c = Some encoded -> verify_cursor key encoded = Some c;
  sign_nonempty : forall key c encoded, sign_cursor key c = Some encoded -> nonempty encoded = true;
}.
(** A new random key and the epoch derived from it. *)
Record Identity := MkIdentity { id_key : string; id_epoch : string }.

Definition reset (fresh : Identity) : sessionListIndex := MkIndex (id_epoch fresh) (id_key fresh) 0 (Some ∅) 0.
Definition ensure (fresh : Identity) (index : sessionListIndex) : sessionListIndex :=
  if empty (ix_epoch index) || absent (ix_created index) then reset fresh else index.

Definition nextUpdatedAt (fresh : Identity) (now : Time) (index : sessionListIndex) (previous : Time) : sessionListIndex * Time :=
  let index := ensure fresh index in
  let next := if Z.ltb previous now then now else (previous + 1)%Z in
  let next := if Z.ltb (ix_lastUpdatedAt index) next then next else (ix_lastUpdatedAt index + 1)%Z in
  (MkIndex (ix_epoch index) (ix_cursorKey index) (ix_generation index) (ix_created index) next, next).

Definition recordCreate (fresh : Identity) (now : Time) (index : sessionListIndex) (id : string) : sessionListIndex * Time :=
  let index := ensure fresh index in
  let generation := u64 (ix_generation index + 1) in
  nextUpdatedAt fresh now
    (MkIndex (ix_epoch index) (ix_cursorKey index) generation
       (Some (<[id := generation]> (default ∅ (ix_created index)))) (ix_lastUpdatedAt index)) 0.

(** The caller has ensured the index. *)
Definition generationFor (index : sessionListIndex) (id : string) : Z := default 0%Z (default ∅ (ix_created index) !! id).

Definition afterSessionListPosition (s : SessionSummary) (c : sessionListCursor) : bool :=
  Z.ltb (ss_UpdatedAt s) (cu_UpdatedAt c) ||
  (Z.eqb (ss_UpdatedAt s) (cu_UpdatedAt c) && negb (String.leb (ss_SessionID s) (cu_SessionID c))).

(** The order of [sortSessionSummaries]. *)
Definition summary_le (a b : SessionSummary) : Prop :=
  (ss_UpdatedAt b < ss_UpdatedAt a)%Z \/ ss_UpdatedAt a = ss_UpdatedAt b /\ string_le (ss_SessionID a) (ss_SessionID b).
#[export] Instance summary_le_dec a b : Decision (summary_le a b).
Proof. unfold summary_le; apply _. Defined.
Definition sortSessionSummaries (l : list SessionSummary) : list SessionSummary := merge_sort summary_le l.

Section ListIndex.
Context {K : CursorCodec}.

Definition encodeCursor (index : sessionListIndex) (c : sessionListCursor) : result string :=
  match sign_cursor (ix_cursorKey index) c with
  | None => Err (ErrNew "encode cursor")
  | Some encoded =>
    reject_if (Z.ltb MaxSessionListCursorBytes (Z.of_nat (String.length encoded)))
      (ErrNew "encoded cursor exceeds the portable size limit") ;;
    Ok encoded
  end.

Definition decodeCursor (index : sessionListIndex) (encoded : string) : result sessionListCursor :=
  match verify_cursor (ix_cursorKey index) encoded with
  | None => Err (ErrNew "cursor is malformed")
  | Some c =>
    reject_if (negb (Z.eqb (cu_Version c) sessionListCursorVersion) || empty (cu_Epoch c) || negb (ID_Valid (cu_AgentID c)) ||
               negb (ID_Valid (cu_WorkspaceID c)) || IsZero (cu_UpdatedAt c) || negb (ID_Valid (cu_SessionID c)))
      (ErrNew "cursor payload is invalid") ;;
    Ok c
  end.

(** A candidate that this traversal still has to return. *)
Definition eligible (c : sessionListCursor) (s : listedSession) : bool :=
  Z.leb (ls_generation s) (cu_CreationCutoff c) && (IsZero (cu_UpdatedAt c) || afterSessionListPosition (ls_summary s) c).

Definition paginate (index : sessionListIndex) (request : ListRequest) (sessions : list listedSession) : result ListResult :=
  let limit := if Z.eqb (lr_Limit request) 0 then DefaultSessionListLimit else lr_Limit request in
  cursor ← (if empty (lr_Cursor request) then
      Ok (MkCursor sessionListCursorVersion (ix_epoch index) (lr_AgentID request) (lr_WorkspaceID request) (ix_generation index) 0 "")
    else
      decoded ← decodeCursor index (lr_Cursor request);
      reject_if (negb (String.eqb (cu_Epoch decoded) (ix_epoch index)) || negb (String.eqb (cu_AgentID decoded) (lr_AgentID request)) ||
                 negb (String.eqb (cu_WorkspaceID decoded) (lr_WorkspaceID request)) || Z.ltb (ix_generation index) (cu_CreationCutoff decoded))
        (ErrNew "cursor does not belong to this Store lifecycle and scope") ;;
      Ok decoded);
  let candidates := sortSessionSummaries (ls_summary <$> List.filter (eligible cursor) sessions) in
  if Z.leb (Z.of_nat (length candidates)) limit then Ok (MkListResult candidates "")
  else
    let page := take (Z.to_nat limit) candidates in
    match last page with
    | None => Panic "index out of range"
    | Some position =>
      next ← encodeCursor index (MkCursor (cu_Version cursor) (cu_Epoch cursor) (cu_AgentID cursor) (cu_WorkspaceID cursor)
        (cu_CreationCutoff cursor) (ss_UpdatedAt position) (ss_SessionID position));
      Ok (MkListResult page next)
    end.

End ListIndex.

(** [ListRequest.Validate] *)
Definition ListRequest_Validate (r : ListRequest) : result unit :=
  reject_if (negb (ID_Valid (lr_AgentID r)) || negb (ID_Valid (lr_WorkspaceID r))) (ErrNew "agent ID and workspace ID are required") ;;
  reject_if (Z.ltb (lr_Limit r) 0 || Z.ltb MaxSessionListLimit (lr_Limit r))
    (Errorf "limit must be zero or between 1 and" [AInt MaxSessionListLimit]) ;;
  reject_if (Z.ltb MaxSessionListCursorBytes (Z.of_nat (String.length (lr_Cursor r)))) (Errorf "cursor exceeds bytes" [AInt MaxSessionListCursorBytes]).

(** ** The store *)
Record memoryCommit := MkMemoryCommit { mc_fingerprint : string; mc_commit : Commit_ }.

Record memoryAggregate := MkAggregate {
  ag_snapshot : Snapshot;
  ag_idempotency : gmap string memoryCommit;
  ag_updatedAt : Time;
}.

Record MemoryStore := MkMemoryStore { st_sessions : gmap string memoryAggregate; st_list : sessionListIndex }.
Definition NewMemoryStore : MemoryStore := MkMemoryStore ∅ new_index.

(** [requestFingerprint]: the hexadecimal SHA-256 of the request's JSON, or
    [None] when the request cannot be encoded. *)
Class RequestFingerprint : Type := { requestFingerprint : CommitRequest -> option string }.

Definition appendedHistoryRange (previousLength currentLength : nat) : Z * Z :=
  if Nat.leb currentLength previousLength then (0, 0)%Z
  else (u64 (Z.of_nat previousLength + 1), u64 (Z.of_nat currentLength)).

Definition notFound (op : string) : error := NewCodedError ErrorNotFound CodeSessionNotFound op (plain "session not found") None.

Definition put (st : MemoryStore) (id : string) (a : memoryAggregate) (index : sessionListIndex) : MemoryStore :=
  MkMemoryStore (<[id := a]> (st_sessions st)) index.

Section SessionStore.
Context {J : JsonOps} {F : Fingerprints} {R : RequestFingerprint} {K : CursorCodec}.

Definition initial_snapshot (n : NewSession) (history : list HistoryFact) : Snapshot :=
  with_revision
    (MkSnapshot (ns_Session n) 1 history (ns_Context n) [] (ns_Queue n) (ns_RunJournal n) [] [] (ns_ModelConfig n)
       (initial_run_state n) (ns_ActiveRunID n) (ns_Fork n)) 1.

Definition Create (r : Readings) (fresh : Identity) (ctx : context) (st : MemoryStore) (initial : NewSession)
    : MemoryStore * result Snapshot :=
  let id := sess_ID (ns_Session initial) in
  match
    (contextErr ctx "session.create" ;;
     validateNewSession initial ;;
     prepareInitialHistory (at_fact r) id (ns_History initial))
  with
  | Ok history =>
    if present (st_sessions st !! id) then
      (st, Err (NewCodedError ErrorConflict CodeSessionAlreadyExists "session.create" (plain "session already exists") None))
    else
      let copy := initial_snapshot initial history in
      let '(index, updatedAt) := recordCreate fresh (at_update r) (st_list st) id in
      (put st id (MkAggregate copy ∅ updatedAt) index, Ok copy)
  | Err e => (st, Err e)
  | Panic msg => (st, Panic msg)
  end.

Definition find_aggregate (st : MemoryStore) (op id : string) : result memoryAggregate :=
  match st_sessions st !! id with Some a => Ok a | None => Err (notFound op) end.

Definition Load (ctx : context) (st : MemoryStore) (id : string) : result Snapshot :=
  contextErr ctx "session.load" ;;
  reject_if (negb (ID_Valid id)) (invalid "session.load" (plain "session ID is required")) ;;
  ag_snapshot <$> find_aggregate st "session.load" id.

Definition HistoryPage_ (ctx : context) (st : MemoryStore) (request : HistoryPageRequest) : result HistoryPage :=
  contextErr ctx "session.history_page" ;;
  reject_if (negb (ID_Valid (hpr_SessionID request))) (invalid "session.history_page" (plain "session ID is required")) ;;
  a ← find_aggregate st "session.history_page" (hpr_SessionID request);
  page ← historyPage (sn_History (ag_snapshot a)) request;
  let sess := sn_Session (ag_snapshot a) in
  Ok (MkHistoryPage (sess_AgentID sess) (sess_WorkspaceID sess) (sn_Revision (ag_snapshot a)) (hp_Facts page) (hp_HasMore page)).

Definition ExtensionDiagnostics (ctx : context) (st : MemoryStore) (request : ExtensionPageRequest) : result ExtensionPage :=
  contextErr ctx "session.extension_diagnostics" ;;
  reject_if (negb (ID_Valid (epr_SessionID request))) (invalid "session.extension_diagnostics" (plain "session ID is required")) ;;
  a ← find_aggregate st "session.extension_diagnostics" (epr_SessionID request);
  page ← extensionPage (sn_ExtensionJournal (ag_snapshot a)) request;
  let sess := sn_Session (ag_snapshot a) in
  Ok (MkExtensionPage (sess_AgentID sess) (sess_WorkspaceID sess) (sn_Revision (ag_snapshot a)) (ep_Diagnostics page) (ep_HasMore page)).

(** The candidates of [ListSessions]; the order in which Go walks the map does
    not matter, because they are sorted. *)
Definition listed (index : sessionListIndex) (request : ListRequest) (entry : string * memoryAggregate) : option listedSession :=
  let s := ag_snapshot entry.2 in
  let sess := sn_Session s in
  if String.eqb (sess_AgentID sess) (lr_AgentID request) && String.eqb (sess_WorkspaceID sess) (lr_WorkspaceID request) then
    Some (MkListedSession (MkSessionSummary (sess_ID sess) (sess_AgentID sess) (sess_WorkspaceID sess) (sn_Revision s) (ag_updatedAt entry.2))
            (generationFor index (sess_ID sess)))
  else None.

Definition ListSessions (fresh : Identity) (ctx : context) (st : MemoryStore) (request : ListRequest) : MemoryStore * result ListResult :=
  match
    (contextErr ctx "session.list" ;;
     map_err (fun e => invalid "session.list" (error_text e)) (ListRequest_Validate request))
  with
  | Ok _ =>
    let index := ensure fresh (st_list st) in
    (MkMemoryStore (st_sessions st) index,
     map_err (fun e => invalid "session.list" (error_text e))
       (paginate index request (omap (listed index request) (map_to_list (st_sessions st)))))
  | Err e => (st, Err e)
  | Panic msg => (st, Panic msg)
  end.

(** [Recover]; a failing recovery leaves the partly recovered snapshot. *)
Definition Recover (r : Readings) (fresh : Identity) (ctx : context) (st : MemoryStore) (id : string) : MemoryStore * result Snapshot :=
  match
    (contextErr ctx "session.recover" ;;
     reject_if (negb (ID_Valid id)) (invalid "session.recover" (plain "session ID is required")) ;;
     find_aggregate st "session.recover" id)
  with
  | Ok a =>
    match recoverAggregate r (ag_snapshot a) with
    | (s, Ok true) =>
      let s := with_revision s (u64 (sn_Revision s + 1)) in
      let '(index, updatedAt) := nextUpdatedAt fresh (at_update r) (st_list st) (ag_updatedAt a) in
      (put st id (MkAggregate s (ag_idempotency a) updatedAt) index, Ok s)
    | (s, Ok false) => (put st id (MkAggregate s (ag_idempotency a) (ag_updatedAt a)) (st_list st), Ok s)
    | (s, Err e) => (put st id (MkAggregate s (ag_idempotency a) (ag_updatedAt a)) (st_list st), Err e)
    | (s, Panic msg) => (put st id (MkAggregate s (ag_idempotency a) (ag_updatedAt a)) (st_list st), Panic msg)
    end
  | Err e => (st, Err e)
  | Panic msg => (st, Panic msg)
  end.

(** The part of [Commit] under the lock, on the aggregate it found: the new
    aggregate content, if anything changes, and the reported commit. *)
Definition commit_aggregate (r : Readings) (a : memoryAggregate) (request : CommitRequest) : result (option (Snapshot * string) * Commit_) :=
  fingerprint ← match requestFingerprint request with
    | Some fp => Ok fp
    | None => Err (NewError ErrorInternal "session.commit" (plain "cannot fingerprint idempotent request") None)
    end;
  match ag_idempotency a !! cr_IdempotencyKey request with
  | Some previous =>
    reject_if (negb (String.eqb (mc_fingerprint previous) fingerprint))
      (coded ErrorConflict CodeRevisionConflict "idempotency key was already used for another request") ;;
    let c := mc_commit previous in
    Ok (None, MkCommit (co_SessionID c) (co_Revision c) (co_FirstHistorySequence c) (co_LastHistorySequence c) false)
  | None =>
    reject_if (negb (Z.eqb (cr_ExpectedRevision request) (sn_Revision (ag_snapshot a))))
      (coded ErrorConflict CodeRevisionConflict "expected revision does not match") ;;
    working ← applyChanges (at_fact r) (ag_snapshot a) request;
    let working := with_revision working (u64 (sn_Revision working + 1)) in
    let '(first, last) := appendedHistoryRange (length (sn_History (ag_snapshot a))) (length (sn_History working)) in
    Ok (Some (working, fingerprint), MkCommit (cr_SessionID request) (sn_Revision working) first last true)
  end.

Definition Commit (r : Readings) (fresh : Identity) (ctx : context) (st : MemoryStore) (request : CommitRequest) : MemoryStore * result Commit_ :=
  match
    (contextErr ctx "session.commit" ;;
     map_err (fun e => invalid "session.commit" (error_text e)) (CommitRequest_Validate request) ;;
     find_aggregate st "session.commit" (cr_SessionID request))
  with
  | Ok a =>
    match commit_aggregate r a request with
    | Ok (Some (working, fingerprint), result) =>
      let '(index, updatedAt) := nextUpdatedAt fresh (at_update r) (st_list st) (ag_updatedAt a) in
      let records := <[cr_IdempotencyKey request := MkMemoryCommit fingerprint result]> (ag_idempotency a) in
      (put st (cr_SessionID request) (MkAggregate working records updatedAt) index, Ok result)
    | Ok (None, result) => (st, Ok result)
    | Err e => (st, Err e)
    | Panic msg => (st, Panic msg)
    end
  | Err e => (st, Err e)
  | Panic msg => (st, Panic msg)
  end.

End SessionStore.
