(* ===== verification/TextFacts.v ===== *)
(** * Facts about identifiers

    An identifier stays valid when the store derives a fact identity from it:
    trimming looks at the ends of a string only. *)

From stdpp Require Import pretty.
From S2P Require Import Prelude GoStrings AgentTypes.

Lemma string_app_cons c (a b : string) : String c a +:+ b = String c (a +:+ b).
Proof. reflexivity. Qed.
Lemma string_app_empty (b : string) : "" +:+ b = b.
Proof. reflexivity. Qed.
Lemma string_app_assoc (a b c : string) : (a +:+ b) +:+ c = a +:+ b +:+ c.
Proof. induction a; [done|]. rewrite !string_app_cons. congruence. Qed.
Lemma string_app_nil (a : string) : a +:+ "" = a.
Proof. induction a; [done|]. rewrite string_app_cons. congruence. Qed.
Lemma string_app_length (a b : string) : String.length (a +:+ b) = (String.length a + String.length b)%nat.
Proof. induction a; [done|]. rewrite string_app_cons. simpl. congruence. Qed.
Lemma string_length_0 (a : string) : String.length a = 0%nat -> a = "".
Proof. by destruct a. Qed.

Lemma list_of_string_app (a b : string) :
  String.list_ascii_of_string (a +:+ b) = String.list_ascii_of_string a ++ String.list_ascii_of_string b.
Proof. induction a; [done|]. rewrite string_app_cons. simpl. congruence. Qed.
Lemma string_of_list_app l1 l2 :
  String.string_of_list_ascii (l1 ++ l2) = String.string_of_list_ascii l1 +:+ String.string_of_list_ascii l2.
Proof. induction l1; [done|]. simpl. rewrite string_app_cons. congruence. Qed.

Lemma rev_string_app a b : rev_string (a +:+ b) = rev_string b +:+ rev_string a.
Proof. unfold rev_string. by rewrite list_of_string_app, rev_app_distr, string_of_list_app. Qed.
Lemma rev_string_involutive a : rev_string (rev_string a) = a.
Proof.
  unfold rev_string. rewrite String.list_ascii_of_string_of_list_ascii, rev_involutive.
  apply String.string_of_list_ascii_of_string.
Qed.
Lemma rev_string_length a : String.length (rev_string a) = String.length a.
Proof.
  assert (H : forall l, String.length (String.string_of_list_ascii l) = length l) by (induction l; simpl; congruence).
  unfold rev_string. rewrite H, length_rev. induction a; simpl; congruence.
Qed.

(** ** Prefix removal *)
Lemma drop_prefix_Some p s s' : drop_prefix p s = Some s' -> s = p +:+ s'.
Proof.
  revert s; induction p as [|a p IH]; intros s H; simpl in *; [by injection H as ->|].
  destruct s as [|b s]; [done|]. destruct (Ascii.eqb a b) eqn:E; [|done].
  apply Ascii.eqb_eq in E as ->. rewrite string_app_cons. f_equal. by apply IH.
Qed.

(** A prefix of [s ++ x] is a prefix of [s] or reaches into [x]. *)
Lemma drop_prefix_app p s x y :
  drop_prefix p (s +:+ x) = Some y ->
  is_Some (drop_prefix p s) \/ exists c q, p = s +:+ String c q /\ exists x', x = String c x'.
Proof.
  revert s; induction p as [|a p IH]; intros s H; [left; simpl; eauto|].
  destruct s as [|b s]; rewrite ?string_app_empty, ?string_app_cons in *; simpl in *.
  - destruct x as [|b x]; [done|]. destruct (Ascii.eqb a b) eqn:E; [|done].
    apply Ascii.eqb_eq in E as ->. right. exists b, p. split; [done|eauto].
  - destruct (Ascii.eqb a b) eqn:E; [|done]. apply Ascii.eqb_eq in E as ->.
    destruct (IH s H) as [|(c&q&->&Hx)]; [by left|]. right. exists c, q. by rewrite string_app_cons.
Qed.

Lemma drop_any_Some ps s s' : drop_any ps s = Some s' -> exists p, p ∈ ps /\ s = p +:+ s'.
Proof.
  induction ps as [|p ps IH]; simpl; [done|]. destruct (drop_prefix p s) as [t|] eqn:E; intros H.
  - injection H as <-. exists p. split; [left|by apply drop_prefix_Some].
  - destruct (IH H) as (q&Hq&->). exists q. split; [by right|done].
Qed.

Lemma drop_any_None ps s p : drop_any ps s = None -> p ∈ ps -> drop_prefix p s = None.
Proof.
  induction ps as [|q ps IH]; simpl; intros H Hp; [by apply not_elem_of_nil in Hp|].
  destruct (drop_prefix q s) eqn:E; [done|]. apply elem_of_cons in Hp as [->|Hp]; [done|by apply IH].
Qed.

Lemma drop_any_None_intro ps s : (forall p, p ∈ ps -> drop_prefix p s = None) -> drop_any ps s = None.
Proof.
  induction ps as [|q ps IH]; simpl; intros H; [done|]. rewrite (H q (list_elem_of_here _ _)).
  apply IH. intros p Hp. apply H. by right.
Qed.

Lemma trim_left_id ps fuel s : drop_any ps s = None -> trim_left ps fuel s = s.
Proof. destruct fuel; simpl; [done|]. by intros ->. Qed.

Lemma trim_left_length ps fuel s : (String.length (trim_left ps fuel s) <= String.length s)%nat.
Proof.
  revert s; induction fuel as [|fuel IH]; intros s; simpl; [lia|]. destruct (drop_any ps s) as [s'|] eqn:E; [|lia].
  apply drop_any_Some in E as (p&_&->). specialize (IH s'). rewrite string_app_length. lia.
Qed.

(** A left trim that keeps the length found nothing to remove. *)
Lemma trim_left_same ps s :
  Forall (fun p => p ≠ "") ps -> String.length (trim_left ps (String.length s) s) = String.length s ->
  drop_any ps s = None.
Proof.
  intros Hps H. destruct (drop_any ps s) as [s'|] eqn:E; [|done]. exfalso.
  pose proof E as E'. apply drop_any_Some in E' as (p&Hp&Hs). rewrite Forall_forall in Hps.
  assert (Hne : String.length p ≠ 0%nat) by (intros H0; by apply (Hps p Hp), string_length_0).
  assert (Hlen : String.length s = (String.length p + String.length s')%nat) by (rewrite Hs; apply string_app_length).
  destruct (String.length s) as [|n] eqn:En; [lia|]. simpl in H. rewrite E in H.
  pose proof (trim_left_length ps n s'). lia.
Qed.

Lemma space_encodings_nonempty : Forall (fun p => p ≠ "") space_encodings /\ Forall (fun p => p ≠ "") (rev_string <$> space_encodings).
Proof. split; repeat constructor; vm_compute; congruence. Qed.

(** What it means to be trimmed. *)
Lemma TrimSpace_same s :
  TrimSpace s = s <-> drop_any space_encodings s = None /\ drop_any (rev_string <$> space_encodings) (rev_string s) = None.
Proof.
  destruct space_encodings_nonempty as [H1 H2]. unfold TrimSpace; cbv zeta. split.
  - intros H. set (l := trim_left space_encodings (String.length s) s) in *.
    assert (Hl : (String.length l <= String.length s)%nat) by apply trim_left_length.
    assert (Hr : (String.length (trim_left (rev_string <$> space_encodings) (String.length l) (rev_string l)) <= String.length l)%nat).
    { etransitivity; [apply trim_left_length|]. by rewrite rev_string_length. }
    apply (f_equal String.length) in H. rewrite rev_string_length in H.
    assert (Hs : drop_any space_encodings s = None) by (apply trim_left_same; [done|unfold l in *; lia]).
    assert (Hls : l = s) by by apply trim_left_id. split; [done|]. rewrite Hls in *.
    apply trim_left_same; [done|]. rewrite !rev_string_length. done.
  - intros [Hs Hr]. rewrite (trim_left_id _ _ s Hs), trim_left_id by done. apply rev_string_involutive.
Qed.

(** Bytes that neither occur in nor begin an encoded space. *)
Definition solid (c : Ascii.ascii) : bool :=
  forallb (fun p => negb (existsb (Ascii.eqb c) (String.list_ascii_of_string p))) space_encodings.

Lemma solid_not_in c p : solid c = true -> p ∈ space_encodings -> c ∉ String.list_ascii_of_string p.
Proof.
  unfold solid. rewrite forallb_forall. intros H Hp%list_elem_of_In Hc. specialize (H p Hp).
  apply negb_true_iff in H. rewrite (proj2 (existsb_exists _ _)) in H; [done|].
  exists c. split; [by apply list_elem_of_In|by apply Ascii.eqb_refl].
Qed.

(** Appending text between solid bytes to a trimmed string keeps it trimmed. *)
Lemma TrimSpace_app s c x d :
  TrimSpace s = s -> solid c = true -> solid d = true ->
  TrimSpace (s +:+ String c (x +:+ String d "")) = s +:+ String c (x +:+ String d "").
Proof.
  rewrite !TrimSpace_same. intros [Hs _] Hc Hd. split.
  - apply drop_any_None_intro. intros p Hp. destruct (drop_prefix p _) as [y|] eqn:E; [|done]. exfalso.
    apply drop_prefix_app in E as [[y' Hy']|(c'&q&Hq&x'&Hx)]; [by rewrite (drop_any_None _ _ p Hs Hp) in Hy'|].
    injection Hx as <- _. apply (solid_not_in c p Hc Hp). rewrite Hq, list_of_string_app; simpl. set_solver.
  - change (String c (x +:+ String d "")) with (String c x +:+ String d ""). rewrite <-string_app_assoc, rev_string_app.
    change (rev_string (String d "")) with (String d ""). apply drop_any_None_intro. intros p Hp.
    apply list_elem_of_fmap in Hp as (q&->&Hq). destruct (rev_string q) as [|a p] eqn:Er.
    + assert (q = "") as -> by (rewrite <-(rev_string_involutive q), Er; done).
      destruct space_encodings_nonempty as [Hn _]. rewrite Forall_forall in Hn. by destruct (Hn "" Hq).
    + simpl. destruct (Ascii.eqb a d) eqn:E; [|done]. apply Ascii.eqb_eq in E as ->. exfalso.
      apply (solid_not_in d q Hd Hq). rewrite <-(rev_string_involutive q), Er.
      unfold rev_string at 1. rewrite String.list_ascii_of_string_of_list_ascii. apply list_elem_of_In, in_rev.
      rewrite rev_involutive. by left.
Qed.

(** ** Decimal numbers end in a digit *)
Lemma solid_pretty_char n : (n < 10)%N -> solid (pretty_N_char n) = true.
Proof.
  intros H. assert (Hn : n ∈ [0;1;2;3;4;5;6;7;8;9]%N) by (repeat rewrite elem_of_cons; lia).
  repeat (apply elem_of_cons in Hn as [->|Hn]; [vm_compute; reflexivity|]). by apply not_elem_of_nil in Hn.
Qed.

Lemma pretty_N_go_app n s : exists pre, pretty_N_go n s = pre +:+ s.
Proof.
  revert s; induction (N.lt_wf_0 n) as [n _ IH]; intros s. destruct (decide (n = 0)%N) as [->|Hn].
  { exists "". by rewrite pretty_N_go_0. }
  rewrite pretty_N_go_step by lia. destruct (IH (n `div` 10)%N (N.div_lt n 10 ltac:(lia) ltac:(lia)) (String (pretty_N_char (n `mod` 10)) s)) as [pre ->].
  exists (pre +:+ String (pretty_N_char (n `mod` 10)) ""). by rewrite string_app_assoc.
Qed.

Lemma pretty_N_last (n : N) : exists pre d, pretty n = pre +:+ String d "" /\ solid d = true.
Proof.
  unfold pretty, pretty_N. destruct (decide (n = 0)%N) as [->|Hn].
  { exists "", (Ascii.ascii_of_nat 48). split; [done|vm_compute; reflexivity]. }
  rewrite pretty_N_go_step by lia. destruct (pretty_N_go_app (n `div` 10) (String (pretty_N_char (n `mod` 10)) "")) as [pre ->].
  exists pre, (pretty_N_char (n `mod` 10)). split; [done|]. apply solid_pretty_char. by apply N.mod_lt.
Qed.

Lemma ID_Valid_spec s : ID_Valid s = true <-> s ≠ "" /\ TrimSpace s = s.
Proof. unfold ID_Valid, validID. rewrite andb_true_iff, negb_true_iff, String.eqb_neq, String.eqb_eq. done. Qed.
