(* ===== verification/SessionHistoryFacts.v ===== *)
(** * Well-formed histories

    What every stored history satisfies: each fact has the envelope the store
    assigned to it, a valid payload, and was admissible after the facts before
    it.  The lemmas say how the lookups change when one fact is appended. *)

From stdpp Require Import pretty.
From S2P Require Import Prelude GoStrings AgentTypes ModelContracts SessionTypes ExtensionJournal.
From S2P Require Import SessionValidate SessionHistory SessionApply SessionRecover TextFacts.

(** ** Lookups after an append *)
Lemma head_app {A} (l1 l2 : list A) : head (l1 ++ l2) = match head l1 with Some a => Some a | None => head l2 end.
Proof. by destruct l1. Qed.

Lemma omap_snoc {A B} (g : A -> option B) (l : list A) (a : A) :
  omap g (l ++ [a]) = omap g l ++ match g a with Some b => [b] | None => [] end.
Proof. rewrite omap_app. simpl. by destruct (g a). Qed.

(** The value a fact contributes to a lookup. *)
Definition message_with (id : string) (f : HistoryFact) : option Message :=
  m ← hf_Message f; if String.eqb (msg_ID m) id then Some m else None.
Definition call_with (id : string) (f : HistoryFact) : option ToolCall :=
  c ← hf_ToolCall f; if String.eqb (call_ID c) id then Some c else None.
Definition result_with (id : string) (f : HistoryFact) : option ToolResult :=
  r ← hf_ToolResult f; if String.eqb (res_CallID r) id then Some r else None.

Lemma findMessage_snoc h f id :
  findMessage (h ++ [f]) id = match findMessage h id with Some m => Some m | None => message_with id f end.
Proof. unfold findMessage. rewrite omap_snoc, head_app. fold (message_with id f). by destruct (message_with id f). Qed.
Lemma findToolCall_snoc h f id :
  findToolCall (h ++ [f]) id = match findToolCall h id with Some c => Some c | None => call_with id f end.
Proof. unfold findToolCall. rewrite omap_snoc, head_app. fold (call_with id f). by destruct (call_with id f). Qed.
Lemma findToolResult_snoc h f id :
  findToolResult (h ++ [f]) id = match findToolResult h id with Some c => Some c | None => result_with id f end.
Proof. unfold findToolResult. rewrite omap_snoc, head_app. fold (result_with id f). by destruct (result_with id f). Qed.

Lemma present_is_Some {A} (o : option A) : present o = true <-> is_Some o.
Proof. destruct o; simpl; split; [eauto|done|done|intros [? [=]]]. Qed.
Lemma present_false {A} (o : option A) : present o = false <-> o = None.
Proof. by destruct o. Qed.

Lemma existsb_omap {A B} (g : A -> option B) (p : A -> bool) (l : list A) :
  (forall a, p a = present (g a)) -> existsb p l = present (head (omap g l)).
Proof.
  intros H. induction l as [|a l IH]; [done|]. csimpl. rewrite H. destruct (g a) as [b|]; simpl; [done|exact IH].
Qed.

Lemma containsMessage_find h id : containsMessage h id = present (findMessage h id).
Proof. apply existsb_omap. intros f. destruct (hf_Message f); simpl; [|done]. by destruct (String.eqb _ _). Qed.
Lemma hasToolResult_find h id : hasToolResult h id = present (findToolResult h id).
Proof. apply existsb_omap. intros f. destruct (hf_ToolResult f); simpl; [|done]. by destruct (String.eqb _ _). Qed.

(** ** Runs and attempts after an append *)
Definition run_with (id : string) (f : HistoryFact) : option RunFact :=
  r ← hf_Run f; if String.eqb (rf_RunID r) id then Some r else None.
Definition attempt_with (id : string) (f : HistoryFact) : option ModelAttemptFact :=
  a ← hf_ModelAttempt f; if String.eqb (ma_AttemptID a) id then Some a else None.

(** The last start and the last terminal fact of an attempt. *)
Definition attemptFacts (h : list HistoryFact) (id : string) : option ModelAttemptFact * option ModelAttemptFact :=
  let attempts := attempt_facts_of h id in
  (last (List.filter is_attempt_start attempts), last (List.filter (fun a => negb (is_attempt_start a)) attempts)).

Definition update_pair {A} (started : A -> bool) (p : option A * option A) (o : option A) : option A * option A :=
  match o with
  | None => p
  | Some a => if started a then (Some a, p.2) else (p.1, Some a)
  end.

Lemma last_filters_snoc {A} (p : A -> bool) (l : list A) (o : option A) :
  (last (List.filter p (l ++ match o with Some b => [b] | None => [] end)),
   last (List.filter (fun a => negb (p a)) (l ++ match o with Some b => [b] | None => [] end))) =
  update_pair p (last (List.filter p l), last (List.filter (fun a => negb (p a)) l)) o.
Proof.
  destruct o as [a|]; simpl; [|by rewrite app_nil_r].
  rewrite !List.filter_app; simpl. destruct (p a); simpl; rewrite ?app_nil_r, ?last_snoc; done.
Qed.

Lemma runFacts_snoc h f id : runFacts (h ++ [f]) id = update_pair is_started (runFacts h id) (run_with id f).
Proof. unfold runFacts, run_facts_of. rewrite omap_snoc. apply last_filters_snoc. Qed.
Lemma attemptFacts_snoc h f id : attemptFacts (h ++ [f]) id = update_pair is_attempt_start (attemptFacts h id) (attempt_with id f).
Proof. unfold attemptFacts, attempt_facts_of. rewrite omap_snoc. apply last_filters_snoc. Qed.

Lemma runFacts_in h id r :
  (runFacts h id).1 = Some r \/ (runFacts h id).2 = Some r -> exists f, f ∈ h /\ hf_Run f = Some r /\ rf_RunID r = id.
Proof.
  intros H. assert (Hin : r ∈ run_facts_of h id).
  { destruct H as [H|H]; apply last_Some_elem_of, list_elem_of_In in H;
      apply filter_In in H as [H _]; by apply list_elem_of_In. }
  unfold run_facts_of in Hin. apply list_elem_of_omap in Hin as (f&Hf&Hr). exists f.
  destruct (hf_Run f) as [r'|]; simpl in Hr; [|done].
  destruct (String.eqb (rf_RunID r') id) eqn:E; [|done]. injection Hr as ->. by apply String.eqb_eq in E.
Qed.

Lemma attemptFacts_in h id a :
  (attemptFacts h id).1 = Some a \/ (attemptFacts h id).2 = Some a ->
  exists f, f ∈ h /\ hf_ModelAttempt f = Some a /\ ma_AttemptID a = id.
Proof.
  intros H. assert (Hin : a ∈ attempt_facts_of h id).
  { destruct H as [H|H]; apply last_Some_elem_of, list_elem_of_In in H;
      apply filter_In in H as [H _]; by apply list_elem_of_In. }
  unfold attempt_facts_of in Hin. apply list_elem_of_omap in Hin as (f&Hf&Hr). exists f.
  destruct (hf_ModelAttempt f) as [r'|]; simpl in Hr; [|done].
  destruct (String.eqb (ma_AttemptID r') id) eqn:E; [|done]. injection Hr as ->. by apply String.eqb_eq in E.
Qed.

(** ** The envelope *)
Lemma FactID_Valid sid n : ID_Valid sid = true -> ID_Valid (FactID sid n) = true.
Proof.
  rewrite !ID_Valid_spec. intros [Hne Ht]. unfold FactID. destruct (pretty_N_last (Z.to_N n)) as (pre&d&->&Hd).
  change (":fact:" +:+ pre +:+ String d "") with (String (Ascii.ascii_of_nat 58) (("fact:" +:+ pre) +:+ String d "")).
  split; [by destruct sid|]. apply TrimSpace_app; [done|vm_compute; reflexivity|done].
Qed.

Lemma normalizedActor_Valid a : ActorIdentity_Valid (normalizedActor a) = true.
Proof. unfold normalizedActor. destruct (ActorIdentity_Valid a) eqn:E; [done|vm_compute; reflexivity]. Qed.

(** The number of facts a history can hold before its sequence wraps. *)
Definition room (n : nat) : Prop := (Z.of_nat n < 2 ^ 64 - 1)%Z.

Lemma next_sequence_nonzero n : room n -> u64 (Z.of_nat n + 1) ≠ 0%Z.
Proof. unfold room. intros H. rewrite u64_small; lia. Qed.

Section HistoryFacts.
Context {J : JsonOps} {F : Fingerprints}.

Lemma validatePayload_enveloped clock h sid source actor :
  validatePayload (enveloped clock h sid source actor) sid = validatePayload source sid.
Proof. reflexivity. Qed.

(** Appending succeeds exactly as the envelope says. *)
Lemma appendHistoryFact_Ok clock h sid source actor h' :
  appendHistoryFact clock h sid source actor = Ok h' ->
  let f := enveloped clock h sid source actor in
  h' = h ++ [f] /\ HistoryFact_Validate f sid = Ok tt /\ validatePayload source sid = Ok tt.
Proof. unfold appendHistoryFact. intros H. inv_ok. done. Qed.

Lemma appendHistoryFact_total clock h sid source actor :
  ID_Valid sid = true -> clock (length h) ≠ 0%Z -> room (length h) -> hasHistoryEnvelope source = false ->
  bad_optional (hf_OriginFactID source) = false -> validatePayload source sid = Ok tt ->
  appendHistoryFact clock h sid source actor = Ok (h ++ [enveloped clock h sid source actor]).
Proof.
  intros Hsid Hclock Hroom Henv Horigin Hpay. unfold appendHistoryFact. rewrite Henv, Hpay; simpl.
  assert (Hv : HistoryFact_Validate (enveloped clock h sid source actor) sid = Ok tt); [|by rewrite Hv].
  unfold HistoryFact_Validate. rewrite validatePayload_enveloped, Hpay.
  assert (Hgood : negb (ID_Valid (hf_FactID (enveloped clock h sid source actor))) ||
     Z.eqb (hf_Sequence (enveloped clock h sid source actor)) 0 ||
     negb (String.eqb (hf_SessionID (enveloped clock h sid source actor)) sid) ||
     IsZero (hf_At (enveloped clock h sid source actor)) ||
     negb (ActorIdentity_Valid (hf_Actor (enveloped clock h sid source actor))) ||
     negb (bool_decide (hf_Kind (enveloped clock h sid source actor) = payloadKind (enveloped clock h sid source actor))) = false).
  { unfold enveloped; cbn [hf_FactID hf_Sequence hf_SessionID hf_At hf_Actor hf_Kind].
    rewrite (FactID_Valid sid _ Hsid), String.eqb_refl, normalizedActor_Valid. unfold IsZero.
    rewrite (proj2 (Z.eqb_neq _ _) (next_sequence_nonzero _ Hroom)), (proj2 (Z.eqb_neq _ _) Hclock).
    rewrite bool_decide_eq_true_2 by reflexivity. done. }
  rewrite Hgood, andb_false_r. unfold enveloped; cbn [hf_OriginFactID]. rewrite Horigin. done.
Qed.

(** ** Admission of a fact after a history *)
Definition run_admissible (p : option RunFact * option RunFact) (r : RunFact) : Prop :=
  if is_started r then p.1 = None
  else exists s, p = (Some s, None) /\ rf_ConfigRevision s = rf_ConfigRevision r /\
       sameModelConfig (rf_ModelConfig s) (rf_ModelConfig r) = true.

Definition attempt_admissible (h : list HistoryFact) (a : ModelAttemptFact) : Prop :=
  if is_attempt_start a then
    attemptFacts h (ma_AttemptID a) = (None, None) /\
    exists run, (runFacts h (ma_RunID a)).1 = Some run /\
      cfg_ProviderKey (rf_ModelConfig run) = ma_ProviderKey a /\ cfg_ModelID (rf_ModelConfig run) = ma_ModelID a
  else exists s, attemptFacts h (ma_AttemptID a) = (Some s, None) /\
       ma_RunID s = ma_RunID a /\ ma_StepID s = ma_StepID a /\ ma_ProviderKey s = ma_ProviderKey a /\ ma_ModelID s = ma_ModelID a.

Record admissible (h : list HistoryFact) (f : HistoryFact) : Prop := {
  ad_message : forall m, hf_Message f = Some m -> findMessage h (msg_ID m) = None;
  ad_call : forall c, hf_ToolCall f = Some c ->
    findToolCall h (call_ID c) = None /\
    exists parent, findMessage h (call_MessageID c) = Some parent /\ msg_Role parent = RoleAssistant /\
      msg_RunID parent = call_RunID c /\ msg_StepID parent = call_StepID c;
  (** A result that recovery made up may lack its call. *)
  ad_result : forall r, hf_ToolResult f = Some r ->
    findToolResult h (res_CallID r) = None /\ (is_Some (findToolCall h (res_CallID r)) \/ r = toolUnknown (res_CallID r));
  ad_run : forall r, hf_Run f = Some r -> run_admissible (runFacts h (rf_RunID r)) r;
  ad_attempt : forall a, hf_ModelAttempt f = Some a -> attempt_admissible h a;
  ad_budget : forall b, hf_RunBudgetExceeded f = Some b -> foldM (budget_step (rb_RunID b)) h 0%Z = Ok (rb_UsedTokens b);
  ad_limit : forall l, hf_RunLimitExceeded f = Some l ->
    exists counts, foldM (limit_step l) h (0%Z, 0%Z) = Ok counts /\
      rl_Used l = (if bool_decide (rl_Kind l = RunLimitToolCalls) then counts.2 else counts.1);
}.

(** Histories the store can hold for session [sid]. *)
Inductive wf_history (sid : string) : list HistoryFact -> Prop :=
  | wf_history_nil : wf_history sid []
  | wf_history_snoc h clock source actor :
      let f := enveloped clock h sid source actor in
      wf_history sid h -> admissible h source -> HistoryFact_Validate f sid = Ok tt -> wf_history sid (h ++ [f]).

Lemma wf_history_append sid clock h source actor h' :
  wf_history sid h -> admissible h source -> appendHistoryFact clock h sid source actor = Ok h' -> wf_history sid h'.
Proof. intros Hh Ha (->&Hv&_)%appendHistoryFact_Ok. by constructor. Qed.

(** Every stored fact has its envelope and a valid payload. *)
Lemma wf_history_fact sid h i f :
  wf_history sid h -> h !! i = Some f ->
  hf_Sequence f = u64 (Z.of_nat i + 1) /\ hf_SessionID f = sid /\ hf_FactID f = FactID sid (hf_Sequence f) /\
  hf_Kind f = payloadKind f /\ validatePayload f sid = Ok tt /\ HistoryFact_Validate f sid = Ok tt.
Proof.
  induction 1 as [|h clock source actor f0 Hh IH Ha Hv]; [done|]. intros Hi.
  apply lookup_app_Some in Hi as [Hi|[Hle Hi]]; [by apply IH|].
  apply list_lookup_singleton_Some in Hi as [Hi <-]. assert (i = length h) as -> by lia.
  split_and!; [done..| |done]. unfold HistoryFact_Validate in Hv. inv_ok. done.
Qed.

Lemma wf_history_elem sid h f : wf_history sid h -> f ∈ h -> validatePayload f sid = Ok tt.
Proof. intros Hh [i Hi]%list_elem_of_lookup. by destruct (wf_history_fact sid h i f Hh Hi) as (_&_&_&_&?&_). Qed.

(** Exactly one payload, and it is valid. *)
Lemma validatePayload_Run f sid r : validatePayload f sid = Ok tt -> hf_Run f = Some r -> RunFact_Validate r sid = Ok tt.
Proof.
  unfold validatePayload. intros H Hr. apply bind_Ok in H as ([]&Hc&H). apply reject_if_Ok, negb_false_iff, Nat.eqb_eq in Hc.
  unfold payloads in Hc. rewrite Hr in *. destruct (hf_Message f), (hf_ToolCall f), (hf_ToolResult f); simpl in *; done.
Qed.
Lemma validatePayload_ModelAttempt f sid a : validatePayload f sid = Ok tt -> hf_ModelAttempt f = Some a -> ModelAttemptFact_Validate a = Ok tt.
Proof.
  unfold validatePayload. intros H Hr. apply bind_Ok in H as ([]&Hc&H). apply reject_if_Ok, negb_false_iff, Nat.eqb_eq in Hc.
  unfold payloads in Hc. rewrite Hr in *.
  destruct (hf_Message f), (hf_ToolCall f), (hf_ToolResult f), (hf_Run f); simpl in *; done.
Qed.
Lemma validatePayload_ToolCall f sid c : validatePayload f sid = Ok tt -> hf_ToolCall f = Some c -> ToolCall_Valid c = true /\ call_SessionID c = sid.
Proof.
  unfold validatePayload. intros H Hr. apply bind_Ok in H as ([]&Hc&H). apply reject_if_Ok, negb_false_iff, Nat.eqb_eq in Hc.
  unfold payloads in Hc. rewrite Hr in *. destruct (hf_Message f); simpl in *; [done|].
  apply reject_if_Ok in H. bool_simpl. done.
Qed.

End HistoryFacts.
