(* ===== verification/SessionCreateFacts.v ===== *)
(** * The history of a new aggregate is well formed

    [validateHistoryConsistency] walks the supplied history with maps;
    [prepareInitialHistory] then builds the stored history fact by fact.  The
    maps agree with the lookups over the facts stored so far, so every stored
    fact was admissible when it was appended. *)

From S2P Require Import Prelude GoStrings AgentTypes ModelContracts SessionTypes ExtensionJournal.
From S2P Require Import SessionValidate SessionHistory SessionApply SessionRecover SessionCreate TextFacts SessionHistoryFacts.

Section CreateFacts.
Context {J : JsonOps} {F : Fingerprints}.

(** The maps describe the facts in [h]. *)
Record tracks (t : consistency) (h : list HistoryFact) : Prop := {
  tr_messages : forall id, co_messages t !! id = findMessage h id;
  tr_calls : forall id, id ∈ co_calls t <-> is_Some (findToolCall h id);
  tr_results : forall id, id ∈ co_results t <-> is_Some (findToolResult h id);
  tr_runs : forall id, co_runStarts t !! id = (runFacts h id).1;
  tr_terminals : forall id, id ∈ co_runTerminals t <-> is_Some (runFacts h id).2;
  tr_attempts : forall id, co_attemptStarts t !! id = (attemptFacts h id).1;
  tr_attemptTerminals : forall id, id ∈ co_attemptTerminals t <-> is_Some (attemptFacts h id).2;
  tr_usage : forall run, run ∉ co_budgetSeen t -> run ∉ co_limitSeen t ->
    foldM (budget_step run) h 0%Z = Ok (counter (co_attemptUsage t) run);
  tr_counts : forall l, rl_RunID l ∉ co_budgetSeen t -> rl_RunID l ∉ co_limitSeen t ->
    co_attemptStarts t !! rl_TriggerAttemptID l = None -> rl_TriggerToolCallID l ∉ co_calls t ->
    foldM (limit_step l) h (0%Z, 0%Z) = Ok (counter (co_attemptCounts t) (rl_RunID l), counter (co_toolCallCounts t) (rl_RunID l));
}.

Lemma tracks_nil : tracks no_facts [].
Proof.
  split; intros; rewrite ?lookup_empty; try done; try (split; [set_solver|intros [? [=]]]).
Qed.

Lemma counter_insert m k v k' : counter (<[k := v]> m) k' = if decide (k = k') then v else counter m k'.
Proof. unfold counter. destruct (decide (k = k')) as [->|]; [by rewrite lookup_insert_eq|by rewrite lookup_insert_ne]. Qed.

Lemma foldM_snoc {S A} (g : S -> A -> result S) l a s : foldM g (l ++ [a]) s = (s' ← foldM g l s; g s' a).
Proof. rewrite foldM_app. destruct (foldM g l s); simpl; [by destruct (g a0 a)|done..]. Qed.

(** A fact without a tool call, attempt, budget or limit does not move the
    counters. *)
Lemma budget_step_other run used f :
  hf_ModelAttempt f = None -> hf_RunBudgetExceeded f = None -> hf_RunLimitExceeded f = None -> budget_step run used f = Ok used.
Proof. unfold budget_step. by intros -> -> ->. Qed.
Lemma limit_step_other l c f :
  hf_ModelAttempt f = None -> hf_ToolCall f = None -> hf_RunBudgetExceeded f = None -> hf_RunLimitExceeded f = None ->
  limit_step l c f = Ok c.
Proof. unfold limit_step. intros -> -> -> ->. by destruct c. Qed.

(** ** Facts with exactly one payload *)
Definition payload_of (f : HistoryFact) :=
  (hf_Message f, hf_ToolCall f, hf_ToolResult f, hf_Run f, hf_ModelAttempt f, hf_ModelConfigChanged f, hf_ContextContribution f,
   hf_RunBudgetExceeded f, hf_RunLimitExceeded f).

Inductive shape (f : HistoryFact) : Prop :=
  | shape_message m : payload_of f = (Some m, None, None, None, None, None, None, None, None) -> shape f
  | shape_call c : payload_of f = (None, Some c, None, None, None, None, None, None, None) -> shape f
  | shape_result r : payload_of f = (None, None, Some r, None, None, None, None, None, None) -> shape f
  | shape_run r : payload_of f = (None, None, None, Some r, None, None, None, None, None) -> shape f
  | shape_attempt a : payload_of f = (None, None, None, None, Some a, None, None, None, None) -> shape f
  | shape_config c : payload_of f = (None, None, None, None, None, Some c, None, None, None) -> shape f
  | shape_contribution c : payload_of f = (None, None, None, None, None, None, Some c, None, None) -> shape f
  | shape_budget b : payload_of f = (None, None, None, None, None, None, None, Some b, None) -> shape f
  | shape_limit l : payload_of f = (None, None, None, None, None, None, None, None, Some l) -> shape f.

Lemma count_present_0 {A} (o : option A) l : count_present (present o :: l) = 0 -> o = None /\ count_present l = 0.
Proof. by destruct o. Qed.
Lemma count_present_1 {A} (o : option A) l :
  count_present (present o :: l) = 1 -> (exists a, o = Some a) /\ count_present l = 0 \/ o = None /\ count_present l = 1.
Proof. destruct o as [a|]; unfold count_present; simpl; [|by right]. intros [= H]. left. eauto. Qed.

Lemma validatePayload_shape f sid : validatePayload f sid = Ok tt -> shape f.
Proof.
  unfold validatePayload. intros H. apply bind_Ok in H as ([]&Hc&_). apply reject_if_Ok, negb_false_iff, Nat.eqb_eq in Hc.
  unfold payloads in Hc.
  repeat (apply count_present_1 in Hc as [[[? ?] Hc]|[? Hc]];
    [repeat (apply count_present_0 in Hc as [? Hc]) | ]); try discriminate Hc;
  [eapply shape_message|eapply shape_call|eapply shape_result|eapply shape_run|eapply shape_attempt|eapply shape_config|
   eapply shape_contribution|eapply shape_budget|eapply shape_limit]; unfold payload_of; repeat f_equal; eassumption.
Qed.

(** ** Appending a fact to what the maps track *)
Section Snoc.
Context (h : list HistoryFact) (g : HistoryFact).

Lemma no_message id : hf_Message g = None -> findMessage (h ++ [g]) id = findMessage h id.
Proof. intros H. rewrite findMessage_snoc. unfold message_with. rewrite H. by destruct (findMessage h id). Qed.
Lemma no_call id : hf_ToolCall g = None -> findToolCall (h ++ [g]) id = findToolCall h id.
Proof. intros H. rewrite findToolCall_snoc. unfold call_with. rewrite H. by destruct (findToolCall h id). Qed.
Lemma no_result id : hf_ToolResult g = None -> findToolResult (h ++ [g]) id = findToolResult h id.
Proof. intros H. rewrite findToolResult_snoc. unfold result_with. rewrite H. by destruct (findToolResult h id). Qed.
Lemma no_run id : hf_Run g = None -> runFacts (h ++ [g]) id = runFacts h id.
Proof. intros H. rewrite runFacts_snoc. unfold run_with. by rewrite H. Qed.
Lemma no_attempt id : hf_ModelAttempt g = None -> attemptFacts (h ++ [g]) id = attemptFacts h id.
Proof. intros H. rewrite attemptFacts_snoc. unfold attempt_with. by rewrite H. Qed.
Lemma no_budget_change run : hf_ModelAttempt g = None -> hf_RunBudgetExceeded g = None -> hf_RunLimitExceeded g = None ->
  foldM (budget_step run) (h ++ [g]) 0%Z = foldM (budget_step run) h 0%Z.
Proof. intros. rewrite foldM_snoc. destruct (foldM (budget_step run) h 0%Z); simpl; [by apply budget_step_other|done..]. Qed.
Lemma no_limit_change l : hf_ModelAttempt g = None -> hf_ToolCall g = None -> hf_RunBudgetExceeded g = None -> hf_RunLimitExceeded g = None ->
  foldM (limit_step l) (h ++ [g]) (0%Z, 0%Z) = foldM (limit_step l) h (0%Z, 0%Z).
Proof. intros. rewrite foldM_snoc. destruct (foldM (limit_step l) h (0%Z, 0%Z)); simpl; [by apply limit_step_other|done..]. Qed.
End Snoc.

(** Split an equation between payload tuples into its nine components. *)
Ltac payload_eqs H := unfold payload_of in H; injection H as ? ? ? ? ? ? ? ? ?.
Ltac co_cbn := cbn [co_messages co_calls co_results co_runStarts co_runTerminals co_attemptStarts co_attemptTerminals
  co_attemptUsage co_budgetSeen co_limitSeen co_attemptCounts co_toolCallCounts co_contributions].
(** Fields of [tracks] that the new fact does not touch. *)
Ltac untouched T :=
  intros; rewrite ?no_message, ?no_call, ?no_result, ?no_run, ?no_attempt, ?no_budget_change, ?no_limit_change by done;
  (by apply T).

Lemma tracks_message t h g m t' :
  tracks t h -> payload_of g = (Some m, None, None, None, None, None, None, None, None) -> check_message t m = Ok t' ->
  findMessage h (msg_ID m) = None /\ tracks t' (h ++ [g]).
Proof.
  intros T Hg H. payload_eqs Hg. unfold check_message in H. inv_ok.
  match goal with Hn : present _ = false |- _ => apply present_false in Hn; rewrite (tr_messages _ _ T) in Hn; rename Hn into Hnone end.
  split; [done|]. split; try (untouched T); co_cbn. intros id. rewrite findMessage_snoc. unfold message_with.
  match goal with Hm : hf_Message g = _ |- _ => rewrite Hm end. simpl.
  destruct (String.eqb (msg_ID m) id) eqn:E.
  - apply String.eqb_eq in E as <-. by rewrite lookup_insert_eq, Hnone.
  - apply String.eqb_neq in E. rewrite lookup_insert_ne by done. rewrite (tr_messages _ _ T). by destruct (findMessage h id).
Qed.

Lemma counter_increment m k k' : counter (increment m k) k' = if decide (k = k') then i64 (counter m k + 1) else counter m k'.
Proof. apply counter_insert. Qed.

Lemma tracks_call t h g c t' :
  tracks t h -> payload_of g = (None, Some c, None, None, None, None, None, None, None) -> check_call t c = Ok t' ->
  (findToolCall h (call_ID c) = None /\
   exists parent, findMessage h (call_MessageID c) = Some parent /\ msg_Role parent = RoleAssistant /\
     msg_RunID parent = call_RunID c /\ msg_StepID parent = call_StepID c) /\ tracks t' (h ++ [g]).
Proof.
  intros T Hg H. payload_eqs Hg. unfold check_call in H. apply bind_Ok in H as ([]&Hn&H). apply reject_if_Ok in Hn.
  destruct (co_messages t !! call_MessageID c) as [parent|] eqn:Ep; [|done]. inv_ok. bool_simpl.
  assert (Hnone : findToolCall h (call_ID c) = None).
  { destruct (findToolCall h (call_ID c)) eqn:E; [|done]. exfalso. apply Hn, (tr_calls _ _ T). by rewrite E. }
  rewrite (tr_messages _ _ T) in Ep. split; [split; [done|exists parent; done]|].
  split; try (untouched T); co_cbn.
  - intros id. rewrite elem_of_union, elem_of_singleton, (tr_calls _ _ T), findToolCall_snoc. unfold call_with.
    match goal with Hm : hf_ToolCall g = _ |- _ => rewrite Hm end. simpl.
    destruct (findToolCall h id); simpl; [split; eauto|]. destruct (String.eqb (call_ID c) id) eqn:E.
    + apply String.eqb_eq in E as <-. split; eauto.
    + apply String.eqb_neq in E. split; [intros [->|[? [=]]]; done|intros [? [=]]].
  - intros l Hb Hl Ha Hc. rewrite foldM_snoc, (tr_counts _ _ T) by set_solver. simpl. unfold limit_step.
    repeat match goal with Hm : _ g = _ |- _ => rewrite Hm end. simpl. rewrite counter_increment.
    destruct (String.eqb (call_RunID c) (rl_RunID l)) eqn:E; simpl.
    + apply String.eqb_eq in E. rewrite E, decide_True by done.
      rewrite (proj2 (String.eqb_neq (call_ID c) (rl_TriggerToolCallID l))) by set_solver. done.
    + apply String.eqb_neq in E. by rewrite decide_False.
Qed.

Lemma tracks_result t h g r t' :
  tracks t h -> payload_of g = (None, None, Some r, None, None, None, None, None, None) -> check_result t r = Ok t' ->
  (findToolResult h (res_CallID r) = None /\ is_Some (findToolCall h (res_CallID r))) /\ tracks t' (h ++ [g]).
Proof.
  intros T Hg H. payload_eqs Hg. unfold check_result in H. inv_ok. bool_simpl.
  match goal with Hc : res_CallID r ∈ co_calls t, Hr : res_CallID r ∉ co_results t |- _ => rename Hc into Hcall, Hr into Hres end.
  split; [split; [|by apply (tr_calls _ _ T)]|].
  { destruct (findToolResult h (res_CallID r)) eqn:E; [|done]. exfalso. apply Hres, (tr_results _ _ T). by rewrite E. }
  split; try (untouched T); co_cbn. intros id.
  rewrite elem_of_union, elem_of_singleton, (tr_results _ _ T), findToolResult_snoc. unfold result_with.
  match goal with Hm : hf_ToolResult g = _ |- _ => rewrite Hm end. simpl.
  destruct (findToolResult h id); simpl; [split; eauto|]. destruct (String.eqb (res_CallID r) id) eqn:E.
  - apply String.eqb_eq in E as <-. split; eauto.
  - apply String.eqb_neq in E. split; [intros [->|[? [=]]]; done|intros [? [=]]].
Qed.

Lemma tracks_run t h g r t' :
  tracks t h -> payload_of g = (None, None, None, Some r, None, None, None, None, None) -> check_run t r = Ok t' ->
  run_admissible (runFacts h (rf_RunID r)) r /\ tracks t' (h ++ [g]).
Proof.
  intros T Hg H. payload_eqs Hg. unfold check_run in H. unfold run_admissible.
  destruct (is_started r) eqn:Es.
  - inv_ok. match goal with Hn : present _ = false |- _ => apply present_false in Hn; rewrite (tr_runs _ _ T) in Hn; rename Hn into Hnone end.
    split; [done|]. split; try (untouched T); co_cbn; intros id; rewrite runFacts_snoc; unfold run_with;
      match goal with Hm : hf_Run g = _ |- _ => rewrite Hm end; cbn [mbind option_bind]; destruct (String.eqb (rf_RunID r) id) eqn:E; cbn [update_pair]; rewrite ?Es; cbn [fst snd].
    + apply String.eqb_eq in E as <-. by rewrite lookup_insert_eq.
    + apply String.eqb_neq in E. rewrite lookup_insert_ne by done. apply T.
    + apply T.
    + apply T.
  - destruct (co_runStarts t !! rf_RunID r) as [s|] eqn:E0; [|done]. inv_ok. bool_simpl.
    rewrite (tr_runs _ _ T) in E0. match goal with Hn : rf_RunID r ∉ _ |- _ => rename Hn into Hnt end.
    assert (Hp : runFacts h (rf_RunID r) = (Some s, None)).
    { destruct (runFacts h (rf_RunID r)) as [a [b|]] eqn:E; simpl in *; [|by subst]. exfalso. apply Hnt, (tr_terminals _ _ T). rewrite E. eauto. }
    split; [by exists s|]. split; try (untouched T); co_cbn; intros id; rewrite runFacts_snoc; unfold run_with;
      match goal with Hm : hf_Run g = _ |- _ => rewrite Hm end; cbn [mbind option_bind]; destruct (String.eqb (rf_RunID r) id) eqn:E; cbn [update_pair]; rewrite ?Es; cbn [fst snd].
    + apply T.
    + apply T.
    + apply String.eqb_eq in E as <-. split; [eauto|set_solver].
    + apply String.eqb_neq in E. rewrite elem_of_union, elem_of_singleton, (tr_terminals _ _ T). split; [intros [->|]; done|auto].
Qed.

Lemma attempt_started_admissible t h a :
  tracks t h -> co_attemptStarts t !! ma_AttemptID a = None -> ma_AttemptID a ∉ co_attemptTerminals t ->
  attemptFacts h (ma_AttemptID a) = (None, None).
Proof.
  intros T Hs Ht. rewrite (tr_attempts _ _ T) in Hs. rewrite (tr_attemptTerminals _ _ T) in Ht.
  destruct (attemptFacts h (ma_AttemptID a)) as [x [y|]]; simpl in *; [destruct Ht; eauto|by subst].
Qed.

(** Facts about one attempt leave other attempts alone. *)
Ltac attempt_snoc Hg Es :=
  rewrite attemptFacts_snoc; unfold attempt_with; rewrite Hg; cbn [mbind option_bind];
  match goal with |- context [String.eqb ?a ?b] => let E := fresh "E" in destruct (String.eqb a b) eqn:E end;
  cbn [update_pair]; rewrite ?Es; cbn [fst snd].

Lemma tracks_attempt_start t h g a t' :
  tracks t h -> payload_of g = (None, None, None, None, Some a, None, None, None, None) -> is_attempt_start a = true ->
  check_attempt t a = Ok t' -> attempt_admissible h a /\ tracks t' (h ++ [g]).
Proof.
  intros T Hg Es H. payload_eqs Hg. unfold check_attempt in H. rewrite Es in H. inv_ok. bool_simpl.
  match goal with Hm : hf_ModelAttempt g = _ |- _ => rename Hm into Hga end.
  match goal with Hn : present _ = false |- _ => apply present_false in Hn; rename Hn into Hnone end.
  match goal with Hr : run_closed t _ = false |- _ => rename Hr into Hopen end.
  destruct (co_runStarts t !! ma_RunID a) as [run|] eqn:Er; [|done]. bool_simpl.
  rewrite (tr_runs _ _ T) in Er. split.
  { unfold attempt_admissible. rewrite Es. split; [by apply (attempt_started_admissible t)|exists run; done]. }
  split; try (untouched T); co_cbn.
  - intros id. attempt_snoc Hga Es; [apply String.eqb_eq in E as <-; by rewrite lookup_insert_eq|].
    apply String.eqb_neq in E. rewrite lookup_insert_ne by done. apply T.
  - intros id. attempt_snoc Hga Es; apply T.
  - intros r Hb Hl. rewrite foldM_snoc, (tr_usage _ _ T) by done. cbn [mbind result_bind]. unfold budget_step.
    repeat match goal with Hm : _ g = _ |- _ => rewrite Hm end. cbn [reject_if mbind result_bind]. by rewrite Es, orb_true_r.
  - intros l Hb Hl Ha Hc.
    assert (Hne : ma_AttemptID a ≠ rl_TriggerAttemptID l) by (intros Heq; rewrite Heq, lookup_insert_eq in Ha; done).
    rewrite lookup_insert_ne in Ha by done. rewrite foldM_snoc, (tr_counts _ _ T) by done. cbn [mbind result_bind]. unfold limit_step.
    repeat match goal with Hm : _ g = _ |- _ => rewrite Hm end. cbn [reject_if mbind result_bind]. rewrite Es, andb_true_r, counter_increment.
    rewrite (proj2 (String.eqb_neq _ _) Hne). destruct (String.eqb (ma_RunID a) (rl_RunID l)) eqn:E.
    + apply String.eqb_eq in E. rewrite E, decide_True by done. done.
    + apply String.eqb_neq in E. by rewrite decide_False.
Qed.

Lemma tracks_attempt_terminal t h g a t' :
  tracks t h -> payload_of g = (None, None, None, None, Some a, None, None, None, None) -> is_attempt_start a = false ->
  check_attempt t a = Ok t' -> attempt_admissible h a /\ tracks t' (h ++ [g]).
Proof.
  intros T Hg Es H. payload_eqs Hg. unfold check_attempt in H. rewrite Es in H.
  match goal with Hm : hf_ModelAttempt g = _ |- _ => rename Hm into Hga end.
  destruct (co_attemptStarts t !! ma_AttemptID a) as [s|] eqn:E0; [|done]. inv_ok. bool_simpl.
  rewrite (tr_attempts _ _ T) in E0. match goal with Hn : ma_AttemptID a ∉ _ |- _ => rename Hn into Hnt end.
  assert (Hp : attemptFacts h (ma_AttemptID a) = (Some s, None)).
  { destruct (attemptFacts h (ma_AttemptID a)) as [x [y|]] eqn:E; cbn [fst] in E0; [|by subst].
    exfalso. apply Hnt, (tr_attemptTerminals _ _ T). rewrite E. eauto. }
  split; [unfold attempt_admissible; rewrite Es; by exists s|].
  split; try (untouched T); co_cbn.
  - intros id. attempt_snoc Hga Es; apply T.
  - intros id. attempt_snoc Hga Es; [apply String.eqb_eq in E as <-; split; [eauto|set_solver]|].
    apply String.eqb_neq in E. rewrite elem_of_union, elem_of_singleton, (tr_attemptTerminals _ _ T). split; [intros [->|]; done|auto].
  - intros r Hb Hl. rewrite foldM_snoc, (tr_usage _ _ T) by done. cbn [mbind result_bind]. unfold budget_step.
    repeat match goal with Hm : _ g = _ |- _ => rewrite Hm end. cbn [reject_if mbind result_bind]. rewrite Es, orb_false_r, counter_insert.
    destruct (String.eqb (ma_RunID a) r) eqn:E.
    + apply String.eqb_eq in E. subst r. rewrite decide_True by done. simpl.
      rewrite (proj2 (Z.ltb_ge _ _)) by lia. done.
    + apply String.eqb_neq in E. by rewrite decide_False.
  - intros l Hb Hl Ha Hc. rewrite foldM_snoc, (tr_counts _ _ T) by done. cbn [mbind result_bind]. unfold limit_step.
    repeat match goal with Hm : _ g = _ |- _ => rewrite Hm end. cbn [reject_if mbind result_bind]. by rewrite Es, andb_false_r.
Qed.

Lemma tracks_contribution t h g c t' :
  tracks t h -> payload_of g = (None, None, None, None, None, None, Some c, None, None) -> check_contribution t c = Ok t' ->
  tracks t' (h ++ [g]).
Proof. intros T Hg H. payload_eqs Hg. unfold check_contribution in H. inv_ok. split; untouched T. Qed.

Lemma tracks_config t h g c :
  tracks t h -> payload_of g = (None, None, None, None, None, Some c, None, None, None) -> tracks t (h ++ [g]).
Proof. intros T Hg. payload_eqs Hg. split; untouched T. Qed.

Lemma tracks_budget t h g b t' :
  tracks t h -> payload_of g = (None, None, None, None, None, None, None, Some b, None) -> check_budget t b = Ok t' ->
  foldM (budget_step (rb_RunID b)) h 0%Z = Ok (rb_UsedTokens b) /\ tracks t' (h ++ [g]).
Proof.
  intros T Hg H. payload_eqs Hg. unfold check_budget in H. inv_ok. bool_simpl.
  match goal with Hm : hf_RunBudgetExceeded g = _ |- _ => rename Hm into Hgb end.
  match goal with Hu : counter _ _ = rb_UsedTokens b |- _ => rename Hu into Hused end. split.
  { rewrite (tr_usage _ _ T) by done. by rewrite Hused. }
  split; try (untouched T); co_cbn.
  - intros r Hb Hl. rewrite foldM_snoc, (tr_usage _ _ T) by set_solver. cbn [mbind result_bind]. unfold budget_step.
    repeat match goal with Hm : _ g = _ |- _ => rewrite Hm end.
    rewrite (proj2 (String.eqb_neq (rb_RunID b) r)) by set_solver. done.
  - intros l Hb Hl Ha Hc. rewrite foldM_snoc, (tr_counts _ _ T) by set_solver. cbn [mbind result_bind]. unfold limit_step.
    repeat match goal with Hm : _ g = _ |- _ => rewrite Hm end.
    rewrite (proj2 (String.eqb_neq (rb_RunID b) (rl_RunID l))) by set_solver. done.
Qed.

Lemma tracks_limit t h g l t' :
  tracks t h -> payload_of g = (None, None, None, None, None, None, None, None, Some l) -> check_limit t l = Ok t' ->
  (exists counts, foldM (limit_step l) h (0%Z, 0%Z) = Ok counts /\
     rl_Used l = (if bool_decide (rl_Kind l = RunLimitToolCalls) then counts.2 else counts.1)) /\ tracks t' (h ++ [g]).
Proof.
  intros T Hg H. payload_eqs Hg. unfold check_limit in H. inv_ok. bool_simpl.
  match goal with Hm : hf_RunLimitExceeded g = _ |- _ => rename Hm into Hgl end.
  match goal with Hn : present _ = false |- _ => apply present_false in Hn; rename Hn into Hnone end.
  match goal with Hu : _ = rl_Used l |- _ => rename Hu into Hused end. split.
  { eexists. split; [by apply (tr_counts _ _ T)|]. by rewrite <-Hused. }
  split; try (untouched T); co_cbn.
  - intros r Hb Hl. rewrite foldM_snoc, (tr_usage _ _ T) by set_solver. cbn [mbind result_bind]. unfold budget_step.
    repeat match goal with Hm : _ g = _ |- _ => rewrite Hm end.
    rewrite (proj2 (String.eqb_neq (rl_RunID l) r)) by set_solver. done.
  - intros l' Hb Hl Ha Hc. rewrite foldM_snoc, (tr_counts _ _ T) by set_solver. cbn [mbind result_bind]. unfold limit_step.
    repeat match goal with Hm : _ g = _ |- _ => rewrite Hm end.
    rewrite (proj2 (String.eqb_neq (rl_RunID l) (rl_RunID l'))) by set_solver. done.
Qed.

(** ** One checked fact *)

Lemma check_fact_tracks sid t h f g t' :
  tracks t h -> payload_of g = payload_of f -> check_fact sid t f = Ok t' ->
  (forall f', payload_of f' = payload_of f -> admissible h f') /\ tracks t' (h ++ [g]).
Proof.
  intros T Hg H. unfold check_fact in H. apply bind_Ok in H as (u&Hv&H). destruct u. apply map_err_Ok in Hv.
  destruct (validatePayload_shape f sid Hv) as [m Hs|c Hs|r Hs|r Hs|a Hs|c Hs|c Hs|b Hs|l Hs];
    rewrite Hs in Hg |- *; payload_eqs Hs;
    repeat match goal with Hm : _ f = _ |- _ => rewrite Hm in H; clear Hm end; cbn [when_present mbind result_bind] in H.
  - destruct (check_message t m) as [t1| |] eqn:E; try done. injection H as <-.
    destruct (tracks_message t h g m t1 T Hg E) as [Ha Ht]. split; [|done].
    intros f' Hf. payload_eqs Hf. split; intros ? Hx; rewrite Hx in *; simplify_eq; done.
  - destruct (check_call t c) as [t1| |] eqn:E; try done. injection H as <-.
    destruct (tracks_call t h g c t1 T Hg E) as [Ha Ht]. split; [|done].
    intros f' Hf. payload_eqs Hf. split; intros ? Hx; rewrite Hx in *; simplify_eq; done.
  - destruct (check_result t r) as [t1| |] eqn:E; try done. injection H as <-.
    destruct (tracks_result t h g r t1 T Hg E) as [[Ha1 Ha2] Ht]. split; [|done].
    intros f' Hf. payload_eqs Hf. split; intros ? Hx; rewrite Hx in *; simplify_eq; auto.
  - destruct (check_run t r) as [t1| |] eqn:E; try done. injection H as <-.
    destruct (tracks_run t h g r t1 T Hg E) as [Ha Ht]. split; [|done].
    intros f' Hf. payload_eqs Hf. split; intros ? Hx; rewrite Hx in *; simplify_eq; done.
  - destruct (check_attempt t a) as [t1| |] eqn:E; try done. injection H as <-.
    assert (Hat : attempt_admissible h a /\ tracks t1 (h ++ [g])).
    { destruct (is_attempt_start a) eqn:Es; [by eapply tracks_attempt_start|by eapply tracks_attempt_terminal]. }
    destruct Hat as [Ha Ht]. split; [|done].
    intros f' Hf. payload_eqs Hf. split; intros ? Hx; rewrite Hx in *; simplify_eq; done.
  - injection H as <-. split; [|by eapply tracks_config].
    intros f' Hf. payload_eqs Hf. split; intros ? Hx; rewrite Hx in *; done.
  - destruct (check_contribution t c) as [t1| |] eqn:E; try done. injection H as <-.
    split; [|by eapply tracks_contribution]. intros f' Hf. payload_eqs Hf. split; intros ? Hx; rewrite Hx in *; done.
  - destruct (check_budget t b) as [t1| |] eqn:E; try done. injection H as <-.
    destruct (tracks_budget t h g b t1 T Hg E) as [Ha Ht]. split; [|done].
    intros f' Hf. payload_eqs Hf. split; intros ? Hx; rewrite Hx in *; simplify_eq; done.
  - destruct (tracks_limit t h g l t' T Hg H) as [Ha Ht]. split; [|done].
    intros f' Hf. payload_eqs Hf. split; intros ? Hx; rewrite Hx in *; simplify_eq; done.
Qed.

(** Checking and then storing a history gives a well-formed one. *)
Lemma prepare_wf clock sid src t h t' h' :
  tracks t h -> wf_history sid h ->
  foldM (check_fact sid) src t = Ok t' ->
  foldM (fun history fact => map_err (fun e => invalid "session.create" (error_text e))
           (appendHistoryFact clock history sid (stripped fact) no_actor)) src h = Ok h' ->
  tracks t' h' /\ wf_history sid h'.
Proof.
  revert t h; induction src as [|f src IH]; simpl; intros t h T Hh Hc Hp; [by simplify_eq|].
  apply bind_Ok in Hc as (t1&Hf&Hc). apply bind_Ok in Hp as (h1&Ha&Hp). apply map_err_Ok in Ha.
  pose proof Ha as Ha'. apply appendHistoryFact_Ok in Ha' as (->&Hv&_).
  destruct (check_fact_tracks sid t h f (enveloped clock h sid (stripped f) no_actor) t1 T eq_refl Hf) as [Had Ht].
  eapply IH; [exact Ht| |exact Hc|exact Hp]. constructor; [done|by apply Had|done].
Qed.

Lemma validateHistoryConsistency_wf clock sid src journal h :
  validateHistoryConsistency sid src journal = Ok tt -> prepareInitialHistory clock sid src = Ok h ->
  wf_history sid h /\ exists t sets, tracks t h /\ foldM (check_entry src t) journal (∅, ∅) = Ok sets /\
    co_calls t ⊆ co_results t ∪ sets.2.
Proof.
  unfold validateHistoryConsistency, prepareInitialHistory. intros H Hp.
  apply bind_Ok in H as (t&Ht&H). apply bind_Ok in H as (sets&Hsets&H). apply reject_if_Ok, negb_false_iff, bool_decide_eq_true in H.
  destruct (prepare_wf clock sid src no_facts [] t h tracks_nil (wf_history_nil _) Ht Hp) as [HT Hw].
  split; [done|]. exists t, sets. done.
Qed.

End CreateFacts.
