(* ===== verification/SessionInvariant.v ===== *)
(** * The invariant of an aggregate

    [wf_core] holds of a snapshot at every point of a commit; [wf_snapshot]
    adds what holds between commits: claims belong to the active run, and the
    run journal and the history agree on which tool calls are finished. *)

From S2P Require Import Prelude GoStrings AgentTypes ModelContracts SessionTypes ExtensionJournal.
From S2P Require Import SessionValidate SessionHistory SessionApply SessionRecover SessionCreate TextFacts SessionHistoryFacts.
From S2P Require Import SessionStore SessionCreateFacts.

Definition queue_ids (q : list QueueItem) : list string := (fun i => msg_ID (qi_Message i)) <$> q.
Definition journal_call (e : JournalEntry) : option string := call_ID <$> je_ToolCall e.
Definition terminal_entry (e : JournalEntry) : bool := negb (unfinishedJournal (je_Status e)).

(** The call is finished according to the journal. *)
Definition finished (j : list JournalEntry) (id : string) : Prop :=
  exists e, e ∈ j /\ journal_call e = Some id /\ terminal_entry e = true.

Definition wf_run_state (state : RunState) (active : string) : Prop :=
  match state with RunRunning => ID_Valid active = true | RunIdle => active = "" | RunStateOther _ => False end.

(** A literal with one payload is admissible when that payload is. *)
Ltac admit_payload := split; intros ? Hx; try discriminate Hx; injection Hx as <-.

Section Invariant.
Context {J : JsonOps} {F : Fingerprints}.

Definition wf_queue (sid : string) (q : list QueueItem) : Prop :=
  Forall (fun i => validQueueItem i sid = true) q /\ NoDup (queue_ids q).
Definition wf_journal (sid : string) (j : list JournalEntry) : Prop :=
  Forall (fun e => JournalEntry_Validate e sid = Ok tt) j /\ NoDup (journal_call <$> j).
Definition wf_extensions (sid : string) (x : list ExtensionJournalEntry) : Prop :=
  (forall i e, x !! i = Some e -> xe_Sequence e = u64 (Z.of_nat i + 1) /\ ext_Validate e sid = Ok tt) /\
  NoDup (xe_InvocationID <$> x).

Record wf_core (sid : string) (s : Snapshot) : Prop := {
  wc_valid : ID_Valid sid = true;
  wc_id : sess_ID (sn_Session s) = sid;
  wc_revision : sess_Revision (sn_Session s) = sn_Revision s;
  wc_history : wf_history sid (sn_History s);
  wc_run : wf_run_state (sn_RunState s) (sn_ActiveRunID s);
  wc_queue : wf_queue sid (sn_Queue s);
  wc_journal : wf_journal sid (sn_RunJournal s);
  wc_extensions : wf_extensions sid (sn_ExtensionJournal s);
  wc_context : validateContext (sn_Context s) sid = Ok tt;
  wc_config : Config_Validate (sn_ModelConfig s) = Ok tt;
}.

(** A finished journal entry has its result in the history, and a call
    without a result has an entry.  An entry without outcome may have a result:
    a commit may open a pending entry for a call that was already answered. *)
Record paired (h : list HistoryFact) (j : list JournalEntry) : Prop := {
  pr_finished : forall id, finished j id -> is_Some (findToolResult h id);
  pr_open : forall id, is_Some (findToolCall h id) -> findToolResult h id = None -> Some id ∈ journal_call <$> j;
}.

Record wf_snapshot (sid : string) (s : Snapshot) : Prop := {
  ws_core : wf_core sid s;
  ws_claims : validateQueueClaims (sn_Queue s) (sn_RunState s) (sn_ActiveRunID s) = Ok tt;
  ws_paired : paired (sn_History s) (sn_RunJournal s);
}.

(** ** Appending facts *)
Lemma append_fact_core clock sid s source actor s' :
  wf_core sid s -> admissible (sn_History s) source -> append_fact clock s sid source actor = Ok s' -> wf_core sid s'.
Proof.
  intros [] Ha H. unfold append_fact in H. inv_ok. split; try assumption; [done|].
  by eapply wf_history_append.
Qed.

Lemma append_or_conflict_core clock sid s source actor s' :
  wf_core sid s -> admissible (sn_History s) source -> append_or_conflict clock s sid source actor = Ok s' -> wf_core sid s'.
Proof. intros Hs Ha H. unfold append_or_conflict in H. apply map_err_Ok in H. by eapply append_fact_core. Qed.

Lemma not_active_false s run : not_active s run = false -> sn_RunState s = RunRunning /\ sn_ActiveRunID s = run.
Proof. unfold not_active. intros H. bool_simpl. done. Qed.

Lemma appendRunFact_core clock sid s fact actor s' :
  wf_core sid s -> RunFact_Validate fact sid = Ok tt -> appendRunFact clock s fact actor = Ok s' -> wf_core sid s'.
Proof.
  intros Hs Hv H. unfold appendRunFact in H. destruct (runFacts (sn_History s) (rf_RunID fact)) as [started terminal] eqn:E.
  apply bind_Ok in H as (u&Hc&H). destruct u. rewrite (wc_id _ _ Hs) in H. eapply append_fact_core; [done| |exact H].
  admit_payload. unfold run_admissible. rewrite E. unfold is_started.
  destruct (rf_Kind fact) eqn:Ek; simpl in Hc.
  - rewrite bool_decide_eq_true_2 by done. inv_ok. by apply present_false.
  - rewrite bool_decide_eq_false_2 by done. destruct started as [st|]; [|done]. inv_ok. bool_simpl.
    exists st. split_and!; [|done..]. f_equal. by apply present_false.
  - rewrite bool_decide_eq_false_2 by done. destruct started as [st|]; [|done]. inv_ok. bool_simpl.
    exists st. split_and!; [|done..]. f_equal. by apply present_false.
  - rewrite bool_decide_eq_false_2 by done. destruct started as [st|]; [|done]. inv_ok. bool_simpl.
    exists st. split_and!; [|done..]. f_equal. by apply present_false.
  - rewrite bool_decide_eq_false_2 by done. destruct started as [st|]; [|done]. inv_ok. bool_simpl.
    exists st. split_and!; [|done..]. f_equal. by apply present_false.
  - unfold RunFact_Validate in Hv. rewrite Ek in Hv. simpl in Hv. rewrite orb_true_r in Hv. done.
Qed.

Lemma appendModelAttemptFact_core clock sid s fact actor s' :
  wf_core sid s -> appendModelAttemptFact clock s fact actor = Ok s' -> wf_core sid s'.
Proof.
  intros Hs H. unfold appendModelAttemptFact in H. cbv zeta in H.
  change (last (List.filter is_attempt_start (attempt_facts_of (sn_History s) (ma_AttemptID fact)))) with (attemptFacts (sn_History s) (ma_AttemptID fact)).1 in H.
  change (last (List.filter (fun a => negb (is_attempt_start a)) (attempt_facts_of (sn_History s) (ma_AttemptID fact)))) with (attemptFacts (sn_History s) (ma_AttemptID fact)).2 in H.
  apply bind_Ok in H as (u&Hc&H). destruct u. rewrite (wc_id _ _ Hs) in H. eapply append_fact_core; [done| |exact H].
  admit_payload. unfold attempt_admissible. destruct (is_attempt_start fact) eqn:Es.
  - inv_ok. bool_simpl. repeat match goal with Hp : present _ = false |- _ => apply present_false in Hp end.
    destruct (attemptFacts (sn_History s) (ma_AttemptID fact)) as [a b]. cbn [fst snd] in *. subst. split; [done|].
    destruct (runFacts (sn_History s) (ma_RunID fact)).1 as [run|]; [|done]. bool_simpl. by exists run.
  - destruct (attemptFacts (sn_History s) (ma_AttemptID fact)) as [a b]; cbn [fst snd present] in *. destruct a as [st|]; [|done].
    inv_ok. bool_simpl. exists st. split_and!; [|done..]. f_equal. by apply present_false.
Qed.

Lemma appendRunBudgetExceededFact_core clock sid s fact actor s' :
  wf_core sid s -> appendRunBudgetExceededFact clock s fact actor = Ok s' -> wf_core sid s'.
Proof.
  intros Hs H. unfold appendRunBudgetExceededFact in H. apply bind_Ok in H as (u&_&H).
  apply bind_Ok in H as (?&_&H). apply bind_Ok in H as (used&Hused&H). apply bind_Ok in H as (?&Heq&H).
  apply reject_if_Ok, negb_false_iff, Z.eqb_eq in Heq. subst used.
  rewrite (wc_id _ _ Hs) in H. eapply append_fact_core; [done| |exact H]. admit_payload. done.
Qed.

Lemma appendRunLimitExceededFact_core clock sid s fact actor s' :
  wf_core sid s -> appendRunLimitExceededFact clock s fact actor = Ok s' -> wf_core sid s'.
Proof.
  intros Hs H. unfold appendRunLimitExceededFact in H. apply bind_Ok in H as (u&_&H).
  apply bind_Ok in H as (?&_&H). apply bind_Ok in H as (counts&Hcounts&H). apply bind_Ok in H as (?&Heq&H).
  apply reject_if_Ok, negb_false_iff, Z.eqb_eq in Heq.
  rewrite (wc_id _ _ Hs) in H. eapply append_fact_core; [done| |exact H]. admit_payload. by exists counts.
Qed.

Lemma appendContextContributionFact_core clock sid s fact actor s' :
  wf_core sid s -> appendContextContributionFact clock s fact actor = Ok s' -> wf_core sid s'.
Proof.
  intros Hs H. unfold appendContextContributionFact in H. inv_ok.
  match goal with H : append_or_conflict _ _ _ _ _ = Ok _ |- _ => rewrite (wc_id _ _ Hs) in H; eapply append_or_conflict_core; [done| |exact H] end.
  admit_payload.
Qed.

(** ** The queue *)
Lemma queueIndex_Some q id i : queueIndex q id = Some i -> exists item, q !! i = Some item /\ msg_ID (qi_Message item) = id.
Proof. unfold queueIndex. intros ([j item]&E&[= <-])%fmap_Some. apply list_find_Some in E as (Hi&Hid&_). eauto. Qed.
Lemma queueIndex_None q id : queueIndex q id = None -> id ∉ queue_ids q.
Proof.
  unfold queueIndex, queue_ids. intros H%fmap_None Hin. apply list_elem_of_fmap in Hin as (item&->&Hin).
  apply list_find_None in H. rewrite Forall_forall in H. by apply (H item Hin).
Qed.

Lemma wf_queue_delete sid q i : wf_queue sid q -> wf_queue sid (delete i q).
Proof.
  intros [Hv Hn]. split; [by apply Forall_delete|]. unfold queue_ids. rewrite list_fmap_delete. eapply sublist_NoDup; [exact Hn|apply sublist_delete].
Qed.

Lemma wf_queue_update sid q i item item' :
  wf_queue sid q -> q !! i = Some item -> msg_ID (qi_Message item') = msg_ID (qi_Message item) ->
  validQueueItem item' sid = true -> wf_queue sid (<[i := item']> q).
Proof.
  intros [Hv Hn] Hi Hid Hval. split; [by apply Forall_insert|]. unfold queue_ids. rewrite list_fmap_insert, Hid.
  rewrite list_insert_id; [done|]. by rewrite list_lookup_fmap, Hi.
Qed.

Lemma wf_queue_snoc sid q item :
  wf_queue sid q -> validQueueItem item sid = true -> msg_ID (qi_Message item) ∉ queue_ids q -> wf_queue sid (q ++ [item]).
Proof.
  intros [Hv Hn] Hval Hid. split; [by apply Forall_app; rewrite Forall_singleton|]. unfold queue_ids. rewrite fmap_app.
  apply NoDup_app; split_and!; [done| |apply NoDup_singleton]. intros x Hx Hy. simpl in Hy. apply list_elem_of_singleton in Hy as ->. done.
Qed.

Lemma unclaimed_item_Ok q id msg i item :
  unclaimed_item q id msg = Ok (i, item) -> q !! i = Some item /\ msg_ID (qi_Message item) = id /\ Claimed item = false.
Proof.
  unfold unclaimed_item. destruct (queueIndex q id) as [k|] eqn:E; [|done]. apply queueIndex_Some in E as (it&Hk&Hid).
  rewrite Hk. simpl. intros H. inv_ok. simplify_eq. done.
Qed.

Lemma wf_queue_lookup sid q i item : wf_queue sid q -> q !! i = Some item -> validQueueItem item sid = true.
Proof. intros [Hv _] Hi. rewrite Forall_forall in Hv. apply Hv. by eapply list_elem_of_lookup_2. Qed.

Lemma Message_Valid_parts m parts :
  Message_Valid m = true -> MessageInput_Valid parts = true -> Message_Valid (with_parts m parts) = true.
Proof.
  unfold Message_Valid, MessageInput_Valid, with_parts; cbn. intros Hm Hp.
  repeat (match type of Hm with context [if ?b then _ else _] => destruct b; [discriminate Hm|] end).
  by destruct parts.
Qed.

(** Replacing the queue. *)
Lemma with_queue_core sid s q : wf_core sid s -> wf_queue sid q -> wf_core sid (with_queue s q).
Proof. intros [] Hq. by split. Qed.

(** ** The run journal *)
Lemma JournalEntry_Validate_call e sid :
  JournalEntry_Validate e sid = Ok tt ->
  exists call, je_ToolCall e = Some call /\ ToolCall_Valid call = true /\ call_SessionID call = sid /\
    (terminal_entry e = true -> exists r, je_ToolResult e = Some r /\ res_CallID r = call_ID call).
Proof.
  unfold JournalEntry_Validate. destruct (je_ToolCall e) as [call|]; [|done]. intros H. exists call.
  apply bind_Ok in H as (?&_&H). apply bind_Ok in H as (?&Hc&H). apply reject_if_Ok in Hc. bool_simpl. split_and!; [done..|].
  unfold terminal_entry. destruct (je_Status e); simpl in *; intros Ht; try done;
    (destruct (je_ToolResult e) as [r|]; [|done]; inv_ok; bool_simpl; eauto).
Qed.

Lemma wf_journal_lookup sid j i e : wf_journal sid j -> j !! i = Some e -> JournalEntry_Validate e sid = Ok tt.
Proof. intros [Hv _] Hi. rewrite Forall_forall in Hv. apply Hv. by eapply list_elem_of_lookup_2. Qed.

Lemma journalIndex_Some j target i :
  journalIndex j target = Some i -> exists e, j !! i = Some e /\ same_entry target e = true.
Proof. unfold journalIndex. intros ([k e]&E&[= <-])%fmap_Some. apply list_find_Some in E as (Hi&Hs&_). eauto. Qed.

Lemma journalIndex_None j target call :
  journalIndex j target = None -> je_ToolCall target = Some call -> Some (call_ID call) ∉ journal_call <$> j.
Proof.
  unfold journalIndex. intros H%fmap_None Hc Hin. apply list_elem_of_fmap in Hin as (e&He&Hin).
  apply list_find_None in H. rewrite Forall_forall in H. apply (H e Hin).
  unfold same_entry. rewrite Hc. unfold journal_call in He. destruct (je_ToolCall e); [|done]. injection He as He. rewrite He. apply String.eqb_refl.
Qed.

Lemma same_entry_call sid target e :
  JournalEntry_Validate target sid = Ok tt -> JournalEntry_Validate e sid = Ok tt -> same_entry target e = true ->
  journal_call target = journal_call e.
Proof.
  intros (c1&H1&_)%JournalEntry_Validate_call (c2&H2&_)%JournalEntry_Validate_call. unfold same_entry, journal_call. rewrite H1, H2.
  simpl. intros ->%String.eqb_eq. done.
Qed.

Lemma sameToolCall_ID a b : sameToolCall a b = true -> call_ID a = call_ID b.
Proof. unfold sameToolCall. intros H. bool_simpl. done. Qed.

(** An update keeps the identity of the current entry and takes the outcome of
    the new one. *)
Lemma JournalEntry_update_valid sid cur entry call entry_call status result :
  JournalEntry_Validate cur sid = Ok tt -> JournalEntry_Validate entry sid = Ok tt ->
  je_ToolCall cur = Some call -> je_ToolCall entry = Some entry_call -> sameToolCall call entry_call = true ->
  status = je_Status entry -> result = je_ToolResult entry ->
  JournalEntry_Validate (MkJournalEntry (je_RunID cur) (je_StepID cur) (je_ToolCall cur) result status) sid = Ok tt.
Proof.
  intros Hcur Hent Hc He Hsame -> ->. unfold JournalEntry_Validate in *. rewrite Hc, He in *. cbn [je_ToolCall je_RunID je_StepID je_Status je_ToolResult] in *. rewrite ?Hc.
  apply bind_Ok in Hcur as (u1&H1&Hcur). apply bind_Ok in Hcur as (u2&H2&_). apply bind_Ok in Hent as (u3&H3&Hent). apply bind_Ok in Hent as (u4&_&Hent).
  apply reject_if_Ok in H1. apply reject_if_Ok in H2. apply reject_if_Ok in H3.
  apply orb_false_iff in H1 as [H1 _]. apply orb_false_iff in H3 as [_ H3]. rewrite H1, H2, H3. simpl.
  apply sameToolCall_ID in Hsame. rewrite <-Hsame in Hent. exact Hent.
Qed.

Lemma wf_journal_update sid j i cur entry call entry_call status result :
  wf_journal sid j -> j !! i = Some cur -> JournalEntry_Validate entry sid = Ok tt ->
  je_ToolCall cur = Some call -> je_ToolCall entry = Some entry_call -> sameToolCall call entry_call = true ->
  status = je_Status entry -> result = je_ToolResult entry ->
  wf_journal sid (<[i := MkJournalEntry (je_RunID cur) (je_StepID cur) (je_ToolCall cur) result status]> j).
Proof.
  intros Hj Hi Hent Hc He Hsame Hst Hres. pose proof (wf_journal_lookup sid j i cur Hj Hi) as Hcur. destruct Hj as [Hv Hn].
  split; [apply Forall_insert; [done|]; by apply (JournalEntry_update_valid sid cur entry call entry_call)|].
  rewrite list_fmap_insert. unfold journal_call at 1; simpl. rewrite list_insert_id; [done|]. by rewrite list_lookup_fmap, Hi.
Qed.

(** What a successful journal update did. *)
Lemma applyJournal_Ok s entry sid s' :
  wf_journal sid (sn_RunJournal s) -> applyJournal s entry sid = Ok s' ->
  JournalEntry_Validate entry sid = Ok tt /\
  exists j', s' = with_journal s j' /\ wf_journal sid j' /\
    ((terminal_entry entry = false /\ not_active s (je_RunID entry) = false /\
      journal_call entry ∉ journal_call <$> sn_RunJournal s /\ j' = sn_RunJournal s ++ [entry]) \/
     (exists i cur cur', sn_RunJournal s !! i = Some cur /\ j' = <[i := cur']> (sn_RunJournal s) /\
       journal_call cur = journal_call entry /\ journal_call cur' = journal_call entry /\
       terminal_entry cur = false /\ je_Status cur' = je_Status entry /\ je_RunID cur' = je_RunID cur)).
Proof.
  intros Hj H. unfold applyJournal in H. apply bind_Ok in H as (u&Hv&H). destruct u. apply map_err_Ok in Hv. split; [done|].
  pose proof Hv as Hcall. apply JournalEntry_Validate_call in Hcall as (call&Hcall&_&_&Hterm).
  destruct (journalIndex (sn_RunJournal s) entry) as [i|] eqn:Ei.
  - apply journalIndex_Some in Ei as (cur&Hi&Hsame). rewrite Hi, Hcall in H. cbn [deref mbind result_bind] in H.
    pose proof (wf_journal_lookup _ _ _ _ Hj Hi) as Hcv. pose proof (same_entry_call sid entry cur Hv Hcv Hsame) as Hid.
    apply bind_Ok in H as (?&Hunf&H). apply reject_if_Ok, negb_false_iff in Hunf.
    destruct (bool_decide (je_Status entry = JournalPrepared)) eqn:Ep; [done|]. apply bool_decide_eq_false in Ep.
    apply JournalEntry_Validate_call in Hcv as (ccall&Hccall&_). rewrite Hccall in H. cbn [mbind result_bind] in H.
    assert (Hdone : terminal_entry cur = false) by (unfold terminal_entry; by rewrite Hunf).
    destruct (bool_decide (je_Status entry = JournalPending)) eqn:Epe.
    + apply bool_decide_eq_true in Epe. inv_ok. bool_simpl. eexists. split; [reflexivity|]. rewrite <-Hccall.
      assert (Hres : je_ToolResult cur = je_ToolResult entry).
      { pose proof (wf_journal_lookup _ _ _ _ Hj Hi) as Hcv. unfold JournalEntry_Validate in Hcv, Hv. rewrite Hccall, Hcall, Epe in *.
        match goal with Hpr : je_Status cur = JournalPrepared |- _ => rewrite Hpr in Hcv end. simpl in Hcv, Hv.
        inv_ok. repeat match goal with Hp : present _ = false |- _ => apply present_false in Hp end. congruence. }
      split; [by apply (wf_journal_update sid _ i cur entry ccall call)|]. right. do 3 eexists. by split_and!.
    + destruct (je_ToolResult entry) as [r|] eqn:Er; [|done]. inv_ok. bool_simpl. eexists. split; [reflexivity|]. rewrite <-Hccall.
      split; [by apply (wf_journal_update sid _ i cur entry ccall call)|]. right. do 3 eexists. by split_and!.
  - inv_ok. bool_simpl. pose proof (journalIndex_None _ _ _ Ei Hcall) as Hfresh.
    assert (Hne : journal_call entry ∉ journal_call <$> sn_RunJournal s) by (unfold journal_call at 1; by rewrite Hcall).
    eexists. split; [reflexivity|]. split.
    + destruct Hj as [Hall Hn]. split; [by apply Forall_app; rewrite Forall_singleton|]. rewrite fmap_app. apply NoDup_app.
      split_and!; [done| |apply NoDup_singleton]. intros x Hx Hy. apply list_elem_of_singleton in Hy as ->. done.
    + left. split_and!; try done. unfold terminal_entry. by apply negb_false_iff.
Qed.

(** ** The extension journal *)
Lemma sameExtensionIdentity_spec l r :
  sameExtensionIdentity l r = true -> xe_InvocationID l = xe_InvocationID r /\ xe_Sequence l = xe_Sequence r.
Proof. unfold sameExtensionIdentity. intros H. bool_simpl. done. Qed.

Lemma applyExtensionJournal_Ok sid x next x' :
  applyExtensionJournal sid x next = Ok x' ->
  ext_Validate next sid = Ok tt /\
  ((x' = x ++ [next] /\ xe_Status next = InvocationPrepared /\ xe_Sequence next = u64 (Z.of_nat (length x) + 1) /\
    xe_InvocationID next ∉ xe_InvocationID <$> x) \/
   (exists i current, x !! i = Some current /\ x' = <[i := next]> x /\ sameExtensionIdentity current next = true /\
      validateExtensionTransition current next = Ok tt)).
Proof.
  unfold applyExtensionJournal. intros H. apply bind_Ok in H as (u&Hv&H). destruct u. apply map_err_Ok in Hv. split; [done|].
  cbv zeta in H. destruct (Z.eqb _ _).
  - inv_ok. bool_simpl. left. split_and!; try done. intros Hin. apply list_elem_of_fmap in Hin as (e&He&Hin).
    match goal with Hx : existsb _ _ = false |- _ => rename Hx into Hex end.
    assert (Ht : existsb (fun existing => String.eqb (xe_InvocationID existing) (xe_InvocationID next)) x = true); [|congruence].
    apply existsb_exists. exists e. split; [by apply list_elem_of_In|]. rewrite He. apply String.eqb_refl.
  - destruct (_ || _); [done|]. destruct (x !! _) as [current|] eqn:E; [|done]. right. inv_ok. bool_simpl. eauto 10.
Qed.

Lemma wf_extensions_snoc sid x next :
  wf_extensions sid x -> ext_Validate next sid = Ok tt -> xe_Sequence next = u64 (Z.of_nat (length x) + 1) ->
  xe_InvocationID next ∉ xe_InvocationID <$> x -> wf_extensions sid (x ++ [next]).
Proof.
  intros [Hx Hn] Hv Hseq Hid. split.
  - intros i e Hi. apply lookup_app_Some in Hi as [Hi|[Hle Hi]]; [by apply Hx|].
    apply list_lookup_singleton_Some in Hi as [Hi <-]. assert (i = length x) as -> by lia. done.
  - rewrite fmap_app. apply NoDup_app. split_and!; [done| |apply NoDup_singleton]. intros y Hy Hz.
    apply list_elem_of_singleton in Hz as ->. done.
Qed.

Lemma wf_extensions_update sid x i current next :
  wf_extensions sid x -> x !! i = Some current -> ext_Validate next sid = Ok tt ->
  xe_InvocationID current = xe_InvocationID next -> xe_Sequence current = xe_Sequence next -> wf_extensions sid (<[i := next]> x).
Proof.
  intros [Hx Hn] Hi Hv Hid Hseq. split.
  - intros k e Hk. apply list_lookup_insert_Some in Hk as [(->&->&_)|[_ Hk]]; [|by apply Hx].
    destruct (Hx k current Hi) as [Hs _]. by rewrite <-Hseq.
  - rewrite list_fmap_insert, <-Hid. rewrite list_insert_id; [done|]. by rewrite list_lookup_fmap, Hi.
Qed.

Lemma applyExtensionJournal_wf sid x next x' :
  wf_extensions sid x -> applyExtensionJournal sid x next = Ok x' -> wf_extensions sid x'.
Proof.
  intros Hx (Hv&[(->&_&Hseq&Hid)|(i&cur&Hi&->&Hsame&_)])%applyExtensionJournal_Ok; [by apply wf_extensions_snoc|].
  apply sameExtensionIdentity_spec in Hsame as [H1 H2]. by eapply wf_extensions_update.
Qed.

End Invariant.

(** * A new aggregate satisfies the invariant *)

Lemma duplicateQueueMessage_NoDup seen q :
  duplicateQueueMessage seen q = false -> NoDup (queue_ids q) /\ (forall id, id ∈ queue_ids q -> id ∉ seen).
Proof.
  revert seen; induction q as [|item q IH]; simpl; intros seen H; [split; [constructor|set_solver]|].
  apply orb_false_iff in H as [Hn H]. apply bool_decide_eq_false in Hn. destruct (IH _ H) as [Hd Hs]. split.
  - constructor; [|done]. intros Hin. by apply Hs in Hin; set_solver.
  - intros id [->|Hin]%elem_of_cons; [done|]. apply Hs in Hin. set_solver.
Qed.

Section Admission.
Context {J : JsonOps} {F : Fingerprints}.

(** The loop over the initial journal. *)
Record entries_checked (h : list HistoryFact) (done : list JournalEntry) (sets : gset string * gset string) : Prop := {
  ec_seen : forall id, id ∈ sets.1 <-> Some id ∈ journal_call <$> done;
  ec_open : sets.2 ⊆ sets.1;
  ec_unique : NoDup (journal_call <$> done);
  ec_finished : forall id, finished done id -> is_Some (findToolResult h id);
}.

Lemma check_entry_checked src t h done sets e sets' :
  tracks t h -> entries_checked h done sets -> check_entry src t sets e = Ok sets' -> entries_checked h (done ++ [e]) sets'.
Proof.
  intros T [H1 H2 H3 H4] H. unfold check_entry in H. apply bind_Ok in H as (call&Hc&H).
  destruct (je_ToolCall e) as [call'|] eqn:Ec; [|done]. injection Hc as ->.
  apply bind_Ok in H as (u1&Hn&H). apply bind_Ok in H as (u2&_&H). apply bind_Ok in H as (u3&_&H). apply bind_Ok in H as (u4&Ht&H).
  apply bind_Ok in H as (u5&_&H). injection H as <-. apply reject_if_Ok, bool_decide_eq_false in Hn. apply reject_if_Ok in Ht.
  assert (Hid : journal_call e = Some (call_ID call)) by (unfold journal_call; by rewrite Ec). split; simpl.
  - intros id. rewrite fmap_app, elem_of_app, elem_of_union, elem_of_singleton, H1. simpl. rewrite list_elem_of_singleton, Hid. naive_solver.
  - destruct (unfinishedJournal (je_Status e)); set_solver.
  - rewrite fmap_app. apply NoDup_app. split_and!; [done| |apply NoDup_singleton]. intros x Hx Hy. simpl in Hy.
    apply list_elem_of_singleton in Hy as ->. rewrite Hid in Hx. by apply Hn, H1.
  - intros id (e'&[Hin| ->%list_elem_of_singleton]%elem_of_app&Hid'&Hterm); [apply H4; by exists e'|].
    unfold terminal_entry in Hterm. rewrite Hterm in Ht. simpl in Ht. apply negb_false_iff, bool_decide_eq_true in Ht.
    apply (tr_results _ _ T) in Ht. congruence.
Qed.

Lemma check_entries src t h journal sets :
  tracks t h -> foldM (check_entry src t) journal (∅, ∅) = Ok sets -> entries_checked h journal sets.
Proof.
  intros T H. apply (foldM_invariant _ (entries_checked h) _ _ _) in H; [done| |].
  - intros done e s s' Hs. by apply check_entry_checked.
  - split; [set_solver|set_solver|constructor|]. intros id (e&He%not_elem_of_nil&_). done.
Qed.

Lemma claim_allowed item state active :
  bad_optional (qi_ClaimedBy item) = false ->
  Claimed item && negb (bool_decide (state = RunRunning) && String.eqb (qi_ClaimedBy item) active) = false ->
  nonempty (qi_ClaimedBy item) && (negb (bool_decide (state = RunRunning)) || negb (String.eqb (qi_ClaimedBy item) active)) = false.
Proof.
  unfold bad_optional, Claimed. destruct (nonempty (qi_ClaimedBy item)), (ID_Valid (qi_ClaimedBy item)); simpl; try done.
  by rewrite negb_andb.
Qed.

Lemma initial_wf clock n history :
  validateNewSession n = Ok tt -> prepareInitialHistory clock (sess_ID (ns_Session n)) (ns_History n) = Ok history ->
  wf_snapshot (sess_ID (ns_Session n)) (initial_snapshot n history).
Proof.
  intros H Hp. unfold validateNewSession in H. cbv zeta in H.
  apply bind_Ok in H as ([]&Hident&H). apply bind_Ok in H as ([]&Hconfig&H). apply map_err_Ok in Hconfig.
  apply bind_Ok in H as ([]&Hstate&H). apply bind_Ok in H as ([]&Hrunning&H). apply bind_Ok in H as ([]&Hidle&H).
  apply bind_Ok in H as ([]&_&H). apply bind_Ok in H as ([]&Hqueue&H). apply bind_Ok in H as ([]&Hdup&H).
  apply bind_Ok in H as ([]&Hjournal&H). apply bind_Ok in H as ([]&Hctx&H). apply bind_Ok in H as ([]&_&H). apply map_err_Ok in H.
  rewrite forM__Ok in Hqueue. rewrite forM__Ok in Hjournal.
  destruct (validateHistoryConsistency_wf clock _ _ _ _ H Hp) as (Hh&t&sets&T&Hsets&Hsub).
  apply (check_entries _ _ history) in Hsets as [E1 E2 E3 E4]; [|done].
  apply reject_if_Ok, duplicateQueueMessage_NoDup in Hdup as [Hnodup _].
  apply reject_if_Ok in Hstate, Hrunning, Hidle. unfold validate_identity in Hident. apply bind_Ok in Hident as ([]&Hid&_).
  apply reject_if_Ok in Hid. bool_simpl. split; [split|..]; try done; simpl.
  - unfold nonempty in Hidle. destruct (initial_run_state n); simpl in *; [|by bool_simpl|done].
    by apply negb_false_iff, String.eqb_eq in Hidle.
  - split; [|done]. apply Forall_forall. intros item Hin. specialize (Hqueue item Hin). inv_ok. by bool_simpl.
  - split; [|done]. apply Forall_forall. intros e Hin. specialize (Hjournal e Hin). inv_ok. done.
  - split; [done|constructor].
  - unfold validateQueueClaims. simpl. apply reject_if_Ok. apply not_true_is_false. intros (item&Hin&Hb)%existsb_exists.
    apply list_elem_of_In in Hin. specialize (Hqueue item Hin). inv_ok.
    match goal with H1 : bad_optional _ = false, H2 : Claimed _ && _ = false |- _ => by rewrite (claim_allowed _ _ _ H1 H2) in Hb end.
  - split; simpl; [done|]. intros id Hcall Hres. apply E1. apply (tr_calls _ _ T) in Hcall.
    destruct (decide (id ∈ co_results t)) as [Hin|Hin]; [apply (tr_results _ _ T) in Hin as [? ?]; congruence|set_solver].
Qed.

End Admission.
