(* ===== verification/SessionCommitFacts.v ===== *)
(** * A commit preserves the invariant

    Every change keeps [wf_core] and has a small effect on the history and on
    the journals; the checks over the whole change set make the effects of one
    commit fit together again. *)

From S2P Require Import Prelude GoStrings AgentTypes ModelContracts SessionTypes ExtensionJournal.
From S2P Require Import SessionValidate SessionHistory SessionApply SessionRecover SessionCreate TextFacts SessionHistoryFacts SessionCreateFacts.
From S2P Require Import SessionInvariant.

(** What one change adds: calls, results, journal entries and outcomes. *)
Definition adds_call (c : Change) (id : string) : Prop := ch_Kind c = AppendToolCall /\ call_ID <$> ch_ToolCall c = Some id.
Definition adds_result (c : Change) (id : string) : Prop := ch_Kind c = AppendToolResult /\ res_CallID <$> ch_ToolResult c = Some id.
Definition adds_entry (c : Change) (id : string) : Prop := ch_Kind c = UpdateRunJournal /\ (ch_Journal c ≫= journal_call) = Some id.
Definition adds_outcome (c : Change) (id : string) : Prop :=
  ch_Kind c = UpdateRunJournal /\ exists e, ch_Journal c = Some e /\ journal_call e = Some id /\ terminal_entry e = true.

Record effect (c : Change) (s s' : Snapshot) : Prop := {
  ef_history : exists news, sn_History s' = sn_History s ++ news;
  ef_session : sn_Session s' = sn_Session s;
  ef_revision : sn_Revision s' = sn_Revision s;
  ef_calls : forall id, is_Some (findToolCall (sn_History s') id) <-> is_Some (findToolCall (sn_History s) id) \/ adds_call c id;
  ef_results : forall id, is_Some (findToolResult (sn_History s') id) <-> is_Some (findToolResult (sn_History s) id) \/ adds_result c id;
  ef_entries : forall id, Some id ∈ journal_call <$> sn_RunJournal s' <-> Some id ∈ journal_call <$> sn_RunJournal s \/ adds_entry c id;
  ef_finished : forall id, finished (sn_RunJournal s') id <-> finished (sn_RunJournal s) id \/ adds_outcome c id;
}.

Section Commit.
Context {J : JsonOps} {F : Fingerprints}.

(** ** Effects *)
Lemma append_fact_Ok clock s sid source actor s' :
  append_fact clock s sid source actor = Ok s' -> s' = with_history s (sn_History s ++ [enveloped clock (sn_History s) sid source actor]).
Proof.
  unfold append_fact. intros H. apply bind_Ok in H as (h&Hh&H). apply appendHistoryFact_Ok in Hh as (->&_&_). by injection H as <-.
Qed.

(** No effect on calls, results or journals. *)
Lemma effect_none c s s' :
  ch_Kind c ≠ AppendToolCall -> ch_Kind c ≠ AppendToolResult -> ch_Kind c ≠ UpdateRunJournal ->
  sn_Session s' = sn_Session s -> sn_Revision s' = sn_Revision s -> sn_History s' = sn_History s -> sn_RunJournal s' = sn_RunJournal s ->
  effect c s s'.
Proof.
  intros H1 H2 H3 Hs Hr Hh Hj. split; rewrite ?Hs, ?Hr, ?Hh, ?Hj; try done; unfold adds_call, adds_result, adds_entry, adds_outcome.
  - exists []. by rewrite app_nil_r.
  - naive_solver.
  - naive_solver.
  - naive_solver.
  - naive_solver.
Qed.

Lemma effect_fact c s g :
  ch_Kind c ≠ UpdateRunJournal ->
  (forall id, is_Some (call_with id g) <-> adds_call c id) -> (forall id, is_Some (result_with id g) <-> adds_result c id) ->
  effect c s (with_history s (sn_History s ++ [g])).
Proof.
  intros Hk Hc Hr. split; try done; simpl.
  - eauto.
  - intros id. rewrite findToolCall_snoc, <-Hc. destruct (findToolCall (sn_History s) id); [|naive_solver]. split; eauto.
  - intros id. rewrite findToolResult_snoc, <-Hr. destruct (findToolResult (sn_History s) id); [|naive_solver]. split; eauto.
  - intros id. unfold adds_entry. naive_solver.
  - intros id. unfold adds_outcome. naive_solver.
Qed.

Lemma effect_fact_other c s g :
  ch_Kind c ≠ AppendToolCall -> ch_Kind c ≠ AppendToolResult -> ch_Kind c ≠ UpdateRunJournal ->
  hf_ToolCall g = None -> hf_ToolResult g = None -> effect c s (with_history s (sn_History s ++ [g])).
Proof.
  intros H1 H2 H3 Hc Hr. apply effect_fact; [done|..]; intros id; unfold call_with, result_with, adds_call, adds_result; rewrite ?Hc, ?Hr; simpl;
    (split; [intros [? [=]]|naive_solver]).
Qed.

Lemma effect_call s c call g :
  ch_Kind c = AppendToolCall -> ch_ToolCall c = Some call -> hf_ToolCall g = Some call -> hf_ToolResult g = None ->
  effect c s (with_history s (sn_History s ++ [g])).
Proof.
  intros Hk Hc Hg Hr. apply effect_fact; [by rewrite Hk|..]; intros id; unfold call_with, result_with, adds_call, adds_result; rewrite ?Hc, ?Hg, ?Hr, ?Hk; simpl.
  - destruct (String.eqb (call_ID call) id) eqn:E; [apply String.eqb_eq in E as ->; naive_solver|].
    apply String.eqb_neq in E. split; [intros [? [=]]|naive_solver].
  - split; [intros [? [=]]|naive_solver].
Qed.

Lemma effect_result s c r g :
  ch_Kind c = AppendToolResult -> ch_ToolResult c = Some r -> hf_ToolResult g = Some r -> hf_ToolCall g = None ->
  effect c s (with_history s (sn_History s ++ [g])).
Proof.
  intros Hk Hc Hg Hr. apply effect_fact; [by rewrite Hk|..]; intros id; unfold call_with, result_with, adds_call, adds_result; rewrite ?Hc, ?Hg, ?Hr, ?Hk; simpl.
  - split; [intros [? [=]]|naive_solver].
  - destruct (String.eqb (res_CallID r) id) eqn:E; [apply String.eqb_eq in E as ->; naive_solver|].
    apply String.eqb_neq in E. split; [intros [? [=]]|naive_solver].
Qed.

Lemma finished_snoc j e id :
  finished (j ++ [e]) id <-> finished j id \/ journal_call e = Some id /\ terminal_entry e = true.
Proof.
  unfold finished. split.
  - intros (e'&[He|He%list_elem_of_singleton]%elem_of_app&Hid&Ht); [left; eauto|right; by subst].
  - intros [(e'&He&Hid&Ht)|[Hid Ht]]; [exists e'|exists e]; split_and!; try done; set_solver.
Qed.

Lemma finished_update j i cur cur' id :
  j !! i = Some cur -> terminal_entry cur = false ->
  finished (<[i := cur']> j) id <-> finished j id \/ journal_call cur' = Some id /\ terminal_entry cur' = true.
Proof.
  intros Hi Hcur. unfold finished. split.
  - intros (e&[k Hk]%list_elem_of_lookup&Hid&Ht). apply list_lookup_insert_Some in Hk as [(->&->&_)|[_ Hk]]; [by right|].
    left. exists e. split; [by eapply list_elem_of_lookup_2|done].
  - intros [(e&[k Hk]%list_elem_of_lookup&Hid&Ht)|[Hid Ht]].
    + exists e. split; [|done]. destruct (decide (i = k)) as [->|Hne]; [congruence|].
      apply (list_elem_of_lookup_2 _ k). by rewrite list_lookup_insert_ne.
    + exists cur'. split; [|done]. apply (list_elem_of_lookup_2 _ i). rewrite list_lookup_insert_eq; [done|]. by eapply lookup_lt_Some.
Qed.

Lemma effect_journal sid s c entry s' :
  wf_journal sid (sn_RunJournal s) -> ch_Kind c = UpdateRunJournal -> ch_Journal c = Some entry -> applyJournal s entry sid = Ok s' ->
  effect c s s'.
Proof.
  intros Hj Hk Hc (Hv&j'&->&_&Hcase)%applyJournal_Ok; [|done].
  split; simpl; try done; unfold adds_call, adds_result, adds_entry, adds_outcome; rewrite ?Hk, ?Hc; simpl.
  - exists []. by rewrite app_nil_r.
  - naive_solver.
  - naive_solver.
  - intros id. destruct Hcase as [(_&_&_&->)|(i&cur&cur'&Hi&->&Hid&Hid'&_)].
    + rewrite fmap_app, elem_of_app. simpl. rewrite list_elem_of_singleton. naive_solver.
    + assert (Hin : journal_call entry ∈ journal_call <$> sn_RunJournal s)
        by (rewrite <-Hid; apply list_elem_of_fmap_2; by eapply list_elem_of_lookup_2).
      rewrite list_fmap_insert, Hid'. rewrite list_insert_id by (by rewrite list_lookup_fmap, Hi, <-Hid).
      split; [by left|]. intros [?|[_ Heq]]; [done|]. by rewrite <-Heq.
  - intros id. destruct Hcase as [(Hu&_&_&->)|(i&cur&cur'&Hi&->&Hid&Hid'&Hcur&Hst&_)].
    + rewrite finished_snoc. naive_solver congruence.
    + rewrite (finished_update _ _ cur) by done. unfold terminal_entry. rewrite Hst, Hid'. naive_solver.
Qed.

(** ** One change *)
Lemma appended_payload clock s sid source actor s' c :
  append_fact clock s sid source actor = Ok s' -> hf_ToolCall source = None -> hf_ToolResult source = None ->
  ch_Kind c ≠ AppendToolCall -> ch_Kind c ≠ AppendToolResult -> ch_Kind c ≠ UpdateRunJournal -> effect c s s'.
Proof. intros ->%append_fact_Ok H1 H2 ???. by apply effect_fact_other. Qed.

Ltac queue_effect H :=
  inv_ok; repeat match goal with x : (_ * _)%type |- _ => destruct x end; inv_ok; (apply effect_none; (done || congruence)).

Lemma apply_change_effect clock request s c s' :
  wf_journal (cr_SessionID request) (sn_RunJournal s) -> apply_change clock request s c = Ok s' -> effect c s s'.
Proof.
  intros Hj H. unfold apply_change in H. destruct (ch_Kind c) eqn:Ek; cbv zeta in H.
  - inv_ok. unfold append_or_conflict in *. inv_ok. eapply appended_payload; [eassumption|reflexivity|reflexivity|by rewrite Ek..].
  - apply bind_Ok in H as (call&Hc&H). unfold deref in Hc. destruct (ch_ToolCall c) as [call'|] eqn:Ec; [|done]. injection Hc as ->.
    unfold apply_AppendToolCall in H. apply bind_Ok in H as (?&_&H). destruct (findMessage _ _); [|done]. inv_ok. unfold append_or_conflict in *. inv_ok.
    match goal with Ha : append_fact _ _ _ _ _ = Ok _ |- _ => apply append_fact_Ok in Ha as -> end. by eapply effect_call.
  - apply bind_Ok in H as (r&Hc&H). unfold deref in Hc. destruct (ch_ToolResult c) as [r'|] eqn:Ec; [|done]. injection Hc as ->.
    inv_ok. unfold append_or_conflict in *. inv_ok.
    match goal with Ha : append_fact _ _ _ _ _ = Ok _ |- _ => apply append_fact_Ok in Ha as -> end. by eapply effect_result.
  - inv_ok. unfold appendRunFact in *. destruct (runFacts _ _). inv_ok. eapply appended_payload; [eassumption|reflexivity|reflexivity|by rewrite Ek..].
  - inv_ok. unfold appendModelAttemptFact in *. inv_ok. eapply appended_payload; [eassumption|reflexivity|reflexivity|by rewrite Ek..].
  - inv_ok. unfold appendContextContributionFact, append_or_conflict in *. inv_ok. eapply appended_payload; [eassumption|reflexivity|reflexivity|by rewrite Ek..].
  - inv_ok. unfold appendRunBudgetExceededFact in *. inv_ok. eapply appended_payload; [eassumption|reflexivity|reflexivity|by rewrite Ek..].
  - inv_ok. unfold appendRunLimitExceededFact in *. inv_ok. eapply appended_payload; [eassumption|reflexivity|reflexivity|by rewrite Ek..].
  - inv_ok. unfold append_or_conflict in *. inv_ok.
    match goal with Ha : append_fact _ _ _ _ _ = Ok _ |- _ => apply append_fact_Ok in Ha as -> end.
    match goal with |- effect c s (with_history (with_events s ?e) ?h) => destruct (effect_fact_other c s (enveloped clock (sn_History s) (cr_SessionID request) (fact_ModelConfigChanged x0) (cr_Actor request))) end;
      try (by rewrite Ek); try done; by split.
  - queue_effect H.
  - queue_effect H.
  - apply bind_Ok in H as (?&_&H). destruct (queueIndex _ _); [|done]. queue_effect H.
  - queue_effect H.
  - queue_effect H.
  - queue_effect H.
  - inv_ok. unfold apply_SetContext in *. queue_effect H.
  - queue_effect H.
  - inv_ok. unfold applyRunState in *. destruct (rsc_State _); queue_effect H.
  - apply bind_Ok in H as (entry&Hc&H). unfold deref in Hc. destruct (ch_Journal c) as [e|] eqn:Ec; [|done]. injection Hc as ->.
    by eapply effect_journal.
  - queue_effect H.
  - queue_effect H.
Qed.

(** The payload a valid change must have. *)
Lemma Change_Validate_kind c sid :
  Change_Validate c sid = Ok tt ->
  match ch_Kind c with
  | AppendRunFact => exists f, ch_RunFact c = Some f /\ RunFact_Validate f sid = Ok tt
  | EnqueueMessage => exists item, ch_QueueItem c = Some item /\ validQueueItem item sid = true /\ qi_ClaimedBy item = ""
  | EditQueue => exists e, ch_QueueEdit c = Some e /\ MessageInput_Valid (qe_Input e) = true /\ Delivery_Valid (qe_Delivery e) = true
  | ReclassifyQueue => exists e, ch_QueueReclassification c = Some e /\ Delivery_Valid (qr_Delivery e) = true
  | ClaimQueue => exists q, ch_QueueClaim c = Some q /\ ID_Valid (qc_RunID q) = true
  | SetModelConfig => exists config, ch_ModelConfig c = Some config /\ Config_Validate config = Ok tt
  | SetRunState => exists rs, ch_RunState c = Some rs /\ ID_Valid (rsc_RunID rs) = true
  | ChangeOther _ => False
  | _ => True
  end.
Proof.
  unfold Change_Validate. intros H. apply bind_Ok in H as (u1&_&H). apply bind_Ok in H as (u2&_&H).
  destruct (ch_Kind c); try exact I; unfold required in H; split_match H; inv_ok; try done; bool_simpl; eauto.
  unfold nonempty in *; bool_simpl. eexists; split_and!; [done| |done]. unfold validQueueItem, validQueueItem_envelope, empty.
  rewrite !andb_true_iff, bool_decide_eq_true, !String.eqb_eq. done.
Qed.

Lemma deref_Ok {A} (o : option A) a : deref o = Ok a <-> o = Some a.
Proof. destruct o; simpl; split; intros [= <-]; done. Qed.

(** ** One change keeps the invariant *)
Lemma with_events_core sid s e : wf_core sid s -> wf_core sid (with_events s e).
Proof. intros []. by split. Qed.

Lemma validQueueItem_parts item sid :
  validQueueItem item sid = true <-> Message_Valid (qi_Message item) = true /\ msg_SessionID (qi_Message item) = sid /\
    msg_Role (qi_Message item) = RoleUser /\ msg_RunID (qi_Message item) = "" /\ msg_StepID (qi_Message item) = "" /\
    Delivery_Valid (qi_Delivery item) = true.
Proof.
  unfold validQueueItem, validQueueItem_envelope, empty. rewrite !andb_true_iff, bool_decide_eq_true, !String.eqb_eq. tauto.
Qed.

Lemma append_call_core clock request s call s' :
  wf_core (cr_SessionID request) s -> apply_AppendToolCall clock s request call = Ok s' -> wf_core (cr_SessionID request) s'.
Proof.
  intros Hs H. unfold apply_AppendToolCall in H. apply bind_Ok in H as (u&Hn&H). apply reject_if_Ok, present_false in Hn.
  destruct (findMessage _ _) as [parent|] eqn:Ep; [|done]. inv_ok. bool_simpl.
  eapply append_or_conflict_core; [done| |eassumption]. admit_payload. split; [done|]. by exists parent.
Qed.

Lemma SetContext_core request s c v s' :
  wf_core (cr_SessionID request) s -> apply_SetContext s request c v = Ok s' -> wf_core (cr_SessionID request) s'.
Proof. intros [] H. unfold apply_SetContext in H. inv_ok. by split. Qed.

Lemma applyRunState_core sid s change s' :
  wf_core sid s -> ID_Valid (rsc_RunID change) = true -> applyRunState s change = Ok s' -> wf_core sid s'.
Proof. intros [] Hid H. unfold applyRunState in H. destruct (rsc_State change); inv_ok; by split. Qed.

Lemma applyJournal_core sid s entry s' : wf_core sid s -> applyJournal s entry sid = Ok s' -> wf_core sid s'.
Proof. intros [] (_&j&->&Hj&_)%applyJournal_Ok; [|done]. by split. Qed.

(** The changes that append a fact to the history. *)
Definition appends_fact (k : ChangeKind) : bool :=
  match k with
  | AppendMessage | AppendToolCall | AppendToolResult | AppendRunFact | AppendModelAttempt | AppendContextContribution
  | AppendRunBudgetExceeded | AppendRunLimitExceeded | AppendSessionEvent => true
  | _ => false
  end.

Lemma apply_append_core clock request s c s' :
  wf_core (cr_SessionID request) s -> Change_Validate c (cr_SessionID request) = Ok tt -> appends_fact (ch_Kind c) = true ->
  apply_change clock request s c = Ok s' -> wf_core (cr_SessionID request) s'.
Proof.
  intros Hs Hv%Change_Validate_kind Hk H. unfold apply_change in H. destruct (ch_Kind c); try discriminate Hk; apply bind_Ok in H as (p&Hp&H);
    apply deref_Ok in Hp.
  - apply bind_Ok in H as (u&Hn&H). apply reject_if_Ok in Hn. rewrite containsMessage_find in Hn. apply present_false in Hn.
    eapply append_or_conflict_core; [done| |exact H]. admit_payload. done.
  - by eapply append_call_core.
  - apply bind_Ok in H as (u&Hc&H). apply bind_Ok in H as (u2&Hn&H). apply reject_if_Ok in Hn. rewrite hasToolResult_find in Hn. apply present_false in Hn.
    apply reject_if_Ok, negb_false_iff, present_is_Some in Hc. eapply append_or_conflict_core; [done| |exact H]. admit_payload. by split; [|left].
  - destruct Hv as (f&Hf&Hv). simplify_eq. by eapply appendRunFact_core.
  - by eapply appendModelAttemptFact_core.
  - by eapply appendContextContributionFact_core.
  - by eapply appendRunBudgetExceededFact_core.
  - by eapply appendRunLimitExceededFact_core.
  - cbv zeta in H. apply bind_Ok in H as (mc&_&H). eapply append_or_conflict_core; [by apply with_events_core| |exact H]. admit_payload.
Qed.

Lemma apply_other_core clock request s c s' :
  wf_core (cr_SessionID request) s -> Change_Validate c (cr_SessionID request) = Ok tt -> appends_fact (ch_Kind c) = false ->
  apply_change clock request s c = Ok s' -> wf_core (cr_SessionID request) s'.
Proof.
  intros Hs Hv%Change_Validate_kind Hk H. pose proof (wc_queue _ _ Hs) as Hq.
  unfold apply_change in H. destruct (ch_Kind c); try discriminate Hk; try done; apply bind_Ok in H as (p&Hp&H);
    apply deref_Ok in Hp; cbv zeta in H.
  - destruct Hv as (item&Hi&Hv&_). simplify_eq. inv_ok. apply with_queue_core; [done|]. apply wf_queue_snoc; [done..|].
    apply queueIndex_None. by apply present_false.
  - apply bind_Ok in H as ([i item]&Hi&H). apply unclaimed_item_Ok in Hi as (Hi&_&_). inv_ok. apply with_queue_core; [done|].
    eapply wf_queue_update; [done..|]. pose proof (wf_queue_lookup _ _ _ _ Hq Hi) as Hval. by rewrite validQueueItem_parts in *.
  - destruct (queueIndex _ _); [|done]. inv_ok. by apply with_queue_core, wf_queue_delete.
  - apply bind_Ok in H as ([i item]&Hi&H). apply unclaimed_item_Ok in Hi as (Hi&_&_). inv_ok. simplify_eq. apply with_queue_core; [done|].
    eapply wf_queue_update; [done..|]. pose proof (wf_queue_lookup _ _ _ _ Hq Hi) as Hval. rewrite validQueueItem_parts in *.
    simpl. destruct Hval as (?&?). split_and!; try naive_solver. by apply Message_Valid_parts.
  - apply bind_Ok in H as ([i item]&Hi&H). inv_ok. by apply with_queue_core, wf_queue_delete.
  - apply bind_Ok in H as ([i item]&Hi&H). apply unclaimed_item_Ok in Hi as (Hi&_&_). inv_ok. simplify_eq. apply with_queue_core; [done|].
    eapply wf_queue_update; [done..|]. pose proof (wf_queue_lookup _ _ _ _ Hq Hi) as Hval. rewrite validQueueItem_parts in *. naive_solver.
  - by eapply SetContext_core.
  - destruct Hv as (config&Hc&Hv). simplify_eq. inv_ok. destruct Hs. by split.
  - destruct Hv as (rs&Hc&Hv). simplify_eq. by eapply applyRunState_core.
  - by eapply applyJournal_core.
  - rewrite (wc_id _ _ Hs) in H. inv_ok. destruct Hs. split; try done. by eapply applyExtensionJournal_wf.
Qed.

Lemma apply_change_core clock request s c s' :
  wf_core (cr_SessionID request) s -> Change_Validate c (cr_SessionID request) = Ok tt -> apply_change clock request s c = Ok s' ->
  wf_core (cr_SessionID request) s'.
Proof. destruct (appends_fact (ch_Kind c)) eqn:E; intros; [by eapply apply_append_core|by eapply apply_other_core]. Qed.

(** ** The whole change set *)
Definition all_effects (changes : list Change) (s s' : Snapshot) : Prop :=
  (exists news, sn_History s' = sn_History s ++ news) /\ sn_Session s' = sn_Session s /\ sn_Revision s' = sn_Revision s /\
  (forall id, is_Some (findToolCall (sn_History s') id) <-> is_Some (findToolCall (sn_History s) id) \/ exists c, c ∈ changes /\ adds_call c id) /\
  (forall id, is_Some (findToolResult (sn_History s') id) <-> is_Some (findToolResult (sn_History s) id) \/ exists c, c ∈ changes /\ adds_result c id) /\
  (forall id, Some id ∈ journal_call <$> sn_RunJournal s' <-> Some id ∈ journal_call <$> sn_RunJournal s \/ exists c, c ∈ changes /\ adds_entry c id) /\
  (forall id, finished (sn_RunJournal s') id <-> finished (sn_RunJournal s) id \/ exists c, c ∈ changes /\ adds_outcome c id).

Lemma or_exists_cons {A} (P : A -> Prop) (Q Q1 Q2 : Prop) a l :
  (Q1 <-> Q \/ P a) -> (Q2 <-> Q1 \/ exists c, c ∈ l /\ P c) -> Q2 <-> Q \/ exists c, c ∈ a :: l /\ P c.
Proof.
  intros H1 H2. rewrite H2, H1. split.
  - intros [[?|?]|(c&Hc&?)]; [by left|right; exists a; split; [left|done]|right; exists c; split; [by right|done]].
  - intros [?|(c&[->|Hc]%elem_of_cons&?)]; [by do 2 left|left; by right|right; eauto].
Qed.

Lemma apply_changes_effect clock request changes s s' :
  wf_core (cr_SessionID request) s -> (forall c, c ∈ changes -> Change_Validate c (cr_SessionID request) = Ok tt) ->
  foldM (apply_change clock request) changes s = Ok s' ->
  wf_core (cr_SessionID request) s' /\ all_effects changes s s'.
Proof.
  revert s; induction changes as [|c changes IH]; simpl; intros s Hs Hv H.
  - injection H as <-. split; [done|]. split_and!; try done; [by exists []; rewrite app_nil_r|..];
      (intros id; split; [by left|intros [?|(?&?%not_elem_of_nil&_)]; done]).
  - apply bind_Ok in H as (s1&Hc&H).
    pose proof (apply_change_core clock request s c s1 Hs (Hv c (list_elem_of_here _ _)) Hc) as Hs1.
    apply apply_change_effect in Hc as [(n1&Hh) Hse Hrev H1 H2 H3 H4]; [|by apply Hs].
    destruct (IH s1 Hs1 (fun c' Hc' => Hv c' (list_elem_of_further _ _ _ Hc')) H) as (Hs'&(n2&Hh')&Hse'&Hrev'&G1&G2&G3&G4).
    split; [done|]. split_and!; [exists (n1 ++ n2); by rewrite Hh', Hh, app_assoc|congruence|congruence|..];
      intros id; (eapply or_exists_cons; [|eauto]); done.
Qed.

(** What [collect_tool_change] collected comes from the change set. *)
Record collected (changes : list Change) (t : tool_changes) : Prop := {
  cl_prepared : forall id e, tc_prepared t !! id = Some e -> exists c, c ∈ changes /\ adds_entry c id;
  cl_pending : forall id e, tc_pending t !! id = Some e -> exists c, c ∈ changes /\ adds_entry c id;
  cl_terminal : forall id e, tc_terminal t !! id = Some e -> exists c, c ∈ changes /\ adds_outcome c id;
  cl_results : forall id r, tc_results t !! id = Some r -> exists c, c ∈ changes /\ adds_result c id;
}.

Ltac from_insert Hl := apply lookup_insert_Some in Hl as [[<- <-]|[_ Hl]].

Lemma collect_tool_change_collected changes c t t' :
  c ∈ changes -> collected changes t -> collect_tool_change t c = Ok t' -> collected changes t'.
Proof.
  intros Hc [H1 H2 H3 H4] H. unfold collect_tool_change in H. destruct (ch_Kind c) eqn:Ek; inv_ok; try by split.
  - split; try done. simpl. intros id r Hl. from_insert Hl; [|eauto]. exists c. split; [done|].
    match goal with Hd : deref _ = Ok _ |- _ => apply deref_Ok in Hd end. split; [done|]. by rewrite H.
  - apply deref_Ok in H, H0.
    assert (Hid : forall id, id = call_ID x0 -> adds_entry c id).
    { intros id ->. split; [done|]. rewrite H. simpl. unfold journal_call. by rewrite H0. }
    assert (Hout : unfinishedJournal (je_Status x) = false -> adds_outcome c (call_ID x0)).
    { intros Hu. split; [done|]. exists x. unfold journal_call, terminal_entry. by rewrite H0, Hu. }
    destruct (je_Status x); inv_ok; split; try done; simpl; intros id r Hl; from_insert Hl; eauto.
Qed.

Lemma collect_collected changes t :
  foldM collect_tool_change changes (ToolChanges ∅ ∅ ∅ ∅ ∅) = Ok t -> collected changes t.
Proof.
  apply (foldM_preserves _ (collected changes)); [|by split].
  intros c t1 t2 Hc Ht. by apply collect_tool_change_collected.
Qed.

(** Calls come with an entry, results and outcomes with each other. *)
Lemma validateToolTransactions_pairs history changes :
  validateToolTransactions history changes = Ok tt ->
  (forall c id, c ∈ changes -> adds_call c id -> exists c', c' ∈ changes /\ adds_entry c' id) /\
  (forall c id, c ∈ changes -> adds_outcome c id -> exists c', c' ∈ changes /\ adds_result c' id) /\
  (forall c id, c ∈ changes -> adds_result c id -> exists c', c' ∈ changes /\ adds_outcome c' id).
Proof.
  unfold validateToolTransactions. intros H. apply bind_Ok in H as (t&Ht&H). apply bind_Ok in H as (u&_&H).
  apply collect_collected in Ht as [C1 C2 C3 C4]. rewrite forM__Ok in H. split_and!; intros c id Hc.
  - intros [Hk Hid]. specialize (H c Hc). unfold check_tool_change in H. rewrite Hk in H.
    destruct (ch_ToolCall c) as [call|]; [|done]. injection Hid as <-. simpl in H.
    destruct (tc_prepared t !! call_ID call) eqn:E1; [eauto|]. destruct (tc_pending t !! call_ID call) eqn:E2; [eauto|done].
  - intros (Hk&e&He&Hid&Ht). specialize (H c Hc). unfold check_tool_change in H. rewrite Hk, He in H. simpl in H.
    unfold journal_call in Hid. destruct (je_ToolCall e) as [call|]; [|done]. injection Hid as <-. simpl in H.
    unfold terminal_entry in Ht. destruct (je_Status e); try done; simpl in H;
      (destruct (tc_results t !! call_ID call) eqn:E; [eauto|done]).
  - intros [Hk Hid]. specialize (H c Hc). unfold check_tool_change in H. rewrite Hk in H.
    destruct (ch_ToolResult c) as [r|]; [|done]. injection Hid as <-. simpl in H.
    destruct (tc_terminal t !! res_CallID r) eqn:E; [eauto|done].
Qed.

Lemma paired_changes changes s s' :
  paired (sn_History s) (sn_RunJournal s) -> all_effects changes s s' -> validateToolTransactions (sn_History s) changes = Ok tt ->
  paired (sn_History s') (sn_RunJournal s').
Proof.
  intros [P1 P2] (_&_&_&E1&E2&E3&E4) (V1&V2&V3)%validateToolTransactions_pairs. split; intros id.
  - rewrite E4, E2. intros [?|(c&Hc&Ho)]; [left; auto|right; eauto].
  - rewrite E1, E3. intros [Hcall|(c&Hc&Ha)] Hn; [|right; eauto]. left. apply P2; [done|].
    destruct (findToolResult (sn_History s) id) eqn:E; [|done].
    assert (is_Some (findToolResult (sn_History s') id)) as [? ?] by (apply E2; left; rewrite E; eauto). congruence.
Qed.

(** [applyChanges] leads from a well-formed aggregate to a well-formed one,
    and only appends to its history. *)
Lemma applyChanges_wf clock s request s' :
  wf_snapshot (cr_SessionID request) s -> applyChanges clock s request = Ok s' ->
  wf_snapshot (cr_SessionID request) s' /\ all_effects (cr_Changes request) s s'.
Proof.
  intros [Hs _ Hp] H. unfold applyChanges in H. apply bind_Ok in H as (u1&Hv&H). rewrite forM__Ok in Hv. apply bind_Ok in H as (u2&Ht&H).
  apply bind_Ok in H as (u3&_&H). apply bind_Ok in H as (s1&Hf&H). apply bind_Ok in H as (u4&_&H). apply bind_Ok in H as (u5&Hq&H).
  injection H as ->. destruct u2, u5.
  destruct (apply_changes_effect clock request (cr_Changes request) s s' Hs) as [Hcore Heff]; [|done|].
  { intros c Hc. specialize (Hv c Hc). by apply map_err_Ok in Hv. }
  split; [|done]. split; [done..|]. by eapply paired_changes.
Qed.

End Commit.
