(* ===== verification/SessionRecoverFacts.v ===== *)
(** * Crash recovery succeeds, keeps the invariant and reaches a fixed point *)

From Stdlib Require Import SpecFloat.
From S2P Require Import Prelude GoStrings AgentTypes ModelContracts SessionTypes ExtensionJournal.
From S2P Require Import SessionValidate SessionHistory SessionApply SessionRecover SessionCreate TextFacts SessionHistoryFacts SessionCreateFacts.
From S2P Require Import SessionInvariant.
From S2P Require Import SessionCommitFacts.

(** The environment behaves: clocks are set, and iterating a map yields each of
    its entries once. *)
Record sane (r : Readings) : Prop := {
  sn_fact : forall n, at_fact r n ≠ 0%Z;
  sn_extension : forall n, at_extension r n ≠ 0%Z;
  sn_iterate : forall m, iterate r m ≡ₚ map_to_list m;
}.

(** Work of the active run that a new process can resume. *)
Definition resumable (s : Snapshot) : bool :=
  existsb (fun e => bool_decide (je_Status e = JournalPrepared) && String.eqb (je_RunID e) (sn_ActiveRunID s)) (sn_RunJournal s) ||
  existsb (prepared_completion (sn_ActiveRunID s)) (sn_ExtensionJournal s).

(** What recovery leaves: nothing of unknown outcome. *)
Record recovered (s : Snapshot) : Prop := {
  rd_extensions : forall e, e ∈ sn_ExtensionJournal s -> xe_Status e ≠ InvocationPending;
  rd_attempts : forall id, is_Some (attemptFacts (sn_History s) id).1 -> is_Some (attemptFacts (sn_History s) id).2;
  rd_journal : forall e, e ∈ sn_RunJournal s -> je_Status e ≠ JournalPending;
  rd_run : sn_RunState s = RunRunning -> resumable s = true;
}.

Lemma SFeqb_refl f : f ≠ S754_nan -> SFeqb f f = true.
Proof.
  intros H. destruct f as [[]|[]| |[] m e]; try done; unfold SFeqb; simpl; by rewrite Z.compare_refl, Pos.compare_cont_refl.
Qed.

Lemma sameModelConfig_refl c : Config_Validate c = Ok tt -> sameModelConfig c c = true.
Proof.
  intros H. unfold Config_Validate in H. apply bind_Ok in H as (?&_&H). apply bind_Ok in H as (?&_&H). apply bind_Ok in H as (?&Ht&_).
  apply reject_if_Ok in Ht. unfold sameModelConfig. rewrite !String.eqb_refl, bool_decide_eq_true_2 by done. simpl.
  unfold sameInt. destruct (par_MaxTokens _) as [n|]; rewrite ?Z.eqb_refl, andb_true_r; simpl;
    (unfold sameFloat; destruct (par_Temperature _) as [f|]; [|done]; rewrite SFeqb_refl; [done|by intros ->]).
Qed.

(** ** The maps of started and finished attempts *)
Lemma attempt_maps_snoc h f :
  attempt_maps (h ++ [f]) =
    match hf_ModelAttempt f with
    | None => attempt_maps h
    | Some a => if is_attempt_start a then (<[ma_AttemptID a := a]> (attempt_maps h).1, (attempt_maps h).2)
                else ((attempt_maps h).1, {[ ma_AttemptID a ]} ∪ (attempt_maps h).2)
    end.
Proof. unfold attempt_maps. by rewrite foldl_app. Qed.

Lemma attempt_maps_spec h :
  (forall id, (attempt_maps h).1 !! id = (attemptFacts h id).1) /\
  (forall id, id ∈ (attempt_maps h).2 <-> is_Some (attemptFacts h id).2).
Proof.
  induction h as [|f h [IH1 IH2]] using rev_ind.
  - split; intros id; [done|]. split; [by intros ?%not_elem_of_empty|intros [? [=]]].
  - rewrite attempt_maps_snoc. destruct (hf_ModelAttempt f) as [a|] eqn:Ea.
    + split; intros id; rewrite attemptFacts_snoc; unfold attempt_with; rewrite Ea; cbn [mbind option_bind];
        destruct (String.eqb (ma_AttemptID a) id) eqn:E; [apply String.eqb_eq in E as <-|apply String.eqb_neq in E| |];
        destruct (is_attempt_start a) eqn:Es; cbn [update_pair]; rewrite ?Es; cbn [fst snd];
        rewrite ?lookup_insert_eq, ?lookup_insert_ne by done; rewrite ?elem_of_union, ?elem_of_singleton; try done.
      * apply String.eqb_eq in E as <-. split; [eauto|by left].
      * apply String.eqb_neq in E. rewrite IH2. split; [intros [->|]; done|by right].
    + split; intros id; rewrite attemptFacts_snoc; unfold attempt_with; rewrite Ea; cbn [mbind option_bind update_pair]; done.
Qed.

Section Recover.
Context {J : JsonOps} {F : Fingerprints}.

(** ** Extensions *)
Lemma recover_extension_identity now e :
  xe_Sequence (recover_extension now e) = xe_Sequence e /\ xe_InvocationID (recover_extension now e) = xe_InvocationID e.
Proof. unfold recover_extension. by destruct (negb _). Qed.

Lemma recover_extension_done now e : xe_Status (recover_extension now e) ≠ InvocationPending.
Proof. unfold recover_extension. destruct (bool_decide _) eqn:E; simpl; [done|by apply bool_decide_eq_false in E]. Qed.

Lemma recover_extension_same now e : xe_Status e ≠ InvocationPending -> recover_extension now e = e.
Proof. intros H. unfold recover_extension. by rewrite bool_decide_eq_false_2. Qed.

Lemma pending_context e sid :
  ext_validateContext e sid = Ok tt -> xe_Status e = InvocationPending -> xe_EffectDisposition e = EffectNone ->
  ContextDisposition_Valid (xe_ContextDisposition e) = true -> xe_ContextDisposition e = ContextNone.
Proof.
  intros H Hs He Hv. unfold ext_validateContext in H. rewrite Hs, He in H. destruct (xe_ContextDisposition e); try done;
    inv_ok; simpl in *; try done.
Qed.

(** Recovery turns a valid pending entry into a valid one. *)
Lemma recover_extension_valid now e sid :
  now ≠ 0%Z -> ext_Validate e sid = Ok tt -> ext_Validate (recover_extension now e) sid = Ok tt.
Proof.
  intros Hnow H. unfold recover_extension. destruct (bool_decide _) eqn:Ep; simpl; [|done]. apply bool_decide_eq_true in Ep.
  unfold ext_Validate in H. do 10 (apply bind_Ok in H as ([]&?&H)).
  match goal with Hs : validateStatusShape e = _ |- _ => pose proof Hs as Hshape; unfold validateStatusShape in Hshape; rewrite Ep in Hshape end.
  match goal with Hs : reject_if (negb (BoundaryKind_Valid _) || _ || _ || _ || _) _ = _ |- _ => pose proof Hs as Hvocab end.
  match goal with Hs : reject_if (negb (IsZero _) && Before (xe_PendingAt e) _) _ = _ |- _ => pose proof Hs as Hpend end.
  apply reject_if_Ok in Hvocab, Hpend, Hshape. bool_simpl.
  assert (Hctx : xe_ContextDisposition e = ContextNone) by (eapply pending_context; eassumption).
  set (t := if Before now (xe_PendingAt e) then xe_PendingAt e else now).
  assert (Hle : (xe_PendingAt e <= t)%Z) by (unfold t, Before; destruct (Z.ltb_spec now (xe_PendingAt e)); lia).
  assert (Ht : IsZero t = false).
  { unfold t. destruct (Before now (xe_PendingAt e)); [done|]. by apply Z.eqb_neq. }
  unfold ext_Validate. do 2 (apply bind_Ok; exists tt; split; [eassumption|]).
  apply bind_Ok; exists tt; split.
  { apply reject_if_Ok. simpl. rewrite Hctx. by repeat match goal with Hx : ?b = true |- context [?b] => rewrite Hx end. }
  do 4 (apply bind_Ok; exists tt; split; [eassumption|]).
  apply bind_Ok; exists tt; split.
  { apply reject_if_Ok. simpl. fold t. unfold Before in *.
    match goal with Hx : IsZero (xe_PendingAt e) = false |- _ => rewrite Hx in * end. simpl in *. bool_simpl.
    rewrite !(proj2 (Z.ltb_ge _ _)) by lia. by rewrite andb_false_r. }
  apply bind_Ok; exists tt; split; [by vm_compute|]. apply bind_Ok; exists tt; split.
  - unfold validateStatusShape. simpl. fold t. rewrite Ht. simpl. 
    match goal with Hx : present (xe_Result e) = false |- _ => by rewrite Hx end.
  - unfold ext_validateContext in *. simpl. by rewrite Hctx in *.
Qed.

Lemma recover_extensions_wf clock sid x :
  (forall n, clock n ≠ 0%Z) -> wf_extensions sid x -> wf_extensions sid (recover_extensions clock x).
Proof.
  intros Hc [Hx Hn]. split.
  - intros i e Hi. unfold recover_extensions in Hi. rewrite list_lookup_imap in Hi. destruct (x !! i) as [e0|] eqn:E; [|done].
    injection Hi as <-. destruct (recover_extension_identity (clock i) e0) as [-> _]. destruct (Hx i e0 E). split; [done|].
    by apply recover_extension_valid.
  - unfold recover_extensions. rewrite fmap_imap. erewrite imap_ext, imap_const; [done|].
    intros i e _. apply recover_extension_identity.
Qed.

Lemma recover_extensions_done clock x e : e ∈ recover_extensions clock x -> xe_Status e ≠ InvocationPending.
Proof. intros (i&e0&->&_)%elem_of_lookup_imap. apply recover_extension_done. Qed.

Lemma recover_extensions_same clock x :
  existsb is_pending_extension x = false -> recover_extensions clock x = x.
Proof.
  intros H. unfold recover_extensions. rewrite <-(list_fmap_id x) at 2. rewrite <-imap_const. apply imap_ext. intros i e Hi. simpl.
  apply recover_extension_same. intros Hs. enough (existsb is_pending_extension x = true) by congruence.
  apply existsb_exists. exists e. split; [apply list_elem_of_In; by eapply list_elem_of_lookup_2|]. by apply bool_decide_eq_true.
Qed.

(** ** Appending during recovery *)
Definition extend (s : Snapshot) (news : list HistoryFact) : Snapshot := with_history s (sn_History s ++ news).

Lemma extend_nil s : extend s [] = s.
Proof. unfold extend, with_history. rewrite app_nil_r. by destruct s. Qed.
Lemma history_extend s news : sn_History (extend s news) = sn_History s ++ news.
Proof. done. Qed.
Lemma extend_app s a b : extend (extend s a) b = extend s (a ++ b).
Proof. unfold extend. simpl. by rewrite app_assoc. Qed.

Lemma recover_append_total clock message sid s fact :
  wf_core sid s -> admissible (sn_History s) fact -> (forall n, clock n ≠ 0%Z) -> room (length (sn_History s)) ->
  hasHistoryEnvelope fact = false -> bad_optional (hf_OriginFactID fact) = false -> validatePayload fact sid = Ok tt ->
  let f := enveloped clock (sn_History s) sid fact no_actor in
  recover_append clock message s fact = (extend s [f], Ok tt) /\ wf_core sid (extend s [f]).
Proof.
  intros Hs Ha Hc Hr He Ho Hp f.
  assert (H : append_fact clock s (sess_ID (sn_Session s)) fact no_actor = Ok (extend s [f])).
  { unfold append_fact. rewrite (wc_id _ _ Hs), appendHistoryFact_total; try done. by apply Hs. }
  unfold recover_append. rewrite H. split; [done|]. rewrite (wc_id _ _ Hs) in H. by eapply append_fact_core.
Qed.

(** ** Model attempts *)
Definition attempt_only (f : HistoryFact) : Prop :=
  hf_ToolCall f = None /\ hf_ToolResult f = None /\ hf_Run f = None /\ is_Some (hf_ModelAttempt f).

Lemma interrupted_attempt_valid a :
  is_attempt_start a = true -> ModelAttemptFact_Validate a = Ok tt -> ModelAttemptFact_Validate (interrupted_attempt a) = Ok tt.
Proof.
  intros Hk%bool_decide_eq_true H. unfold ModelAttemptFact_Validate in *. rewrite Hk in H.
  apply bind_Ok in H as ([]&H1&H). apply bind_Ok in H as ([]&H2&H). apply bind_Ok in H as ([]&H3&H).
  apply reject_if_Ok in H1. bool_simpl. apply bind_Ok; exists tt; split.
  { apply reject_if_Ok. simpl. by repeat match goal with Hx : ?b = true |- context [?b] => rewrite Hx end. }
  apply bind_Ok; exists tt; split; [exact H2|]. apply bind_Ok; exists tt; split; [exact H3|]. done.
Qed.

Lemma open_attempt sid h id a :
  wf_history sid h -> (attemptFacts h id).1 = Some a ->
  ma_AttemptID a = id /\ is_attempt_start a = true /\ ModelAttemptFact_Validate a = Ok tt.
Proof.
  intros Hh Ha. destruct (attemptFacts_in h id a (or_introl Ha)) as (f&Hf&Hfa&Hid). split_and!; [done| |].
  - unfold attemptFacts in Ha. cbn [fst] in Ha. apply last_Some_elem_of, list_elem_of_In, filter_In in Ha as [_ Ha]. done.
  - eapply validatePayload_ModelAttempt; [by eapply wf_history_elem|done].
Qed.

Lemma interrupt_attempt clock message sid s a :
  wf_core sid s -> (forall n, clock n ≠ 0%Z) -> room (length (sn_History s)) ->
  attemptFacts (sn_History s) (ma_AttemptID a) = (Some a, None) ->
  exists f, recover_append clock message s (fact_ModelAttempt (interrupted_attempt a)) = (extend s [f], Ok tt) /\ wf_core sid (extend s [f]) /\
    attempt_only f /\ hf_ModelAttempt f = Some (interrupted_attempt a).
Proof.
  intros Hs Hc Hr Ha. eexists. destruct (open_attempt sid (sn_History s) (ma_AttemptID a) a) as (_&Hst&Hv); [apply Hs|by rewrite Ha|].
  destruct (recover_append_total clock message sid s (fact_ModelAttempt (interrupted_attempt a))) as [Heq Hcore]; try done.
  - split; intros ? Hx; try discriminate Hx. injection Hx as <-. unfold attempt_admissible. simpl. rewrite Ha. by exists a.
  - unfold validatePayload. simpl. by apply interrupted_attempt_valid.
Qed.

Lemma attempt_only_snoc h f a id :
  hf_ModelAttempt f = Some (interrupted_attempt a) ->
  attemptFacts (h ++ [f]) id =
    ((attemptFacts h id).1, if String.eqb (ma_AttemptID a) id then Some (interrupted_attempt a) else (attemptFacts h id).2).
Proof.
  intros Hf. rewrite attemptFacts_snoc. unfold attempt_with. rewrite Hf. cbn [mbind option_bind interrupted_attempt ma_AttemptID].
  destruct (String.eqb (ma_AttemptID a) id); cbn [update_pair]; [done|by destruct (attemptFacts h id)].
Qed.

(** The loop over the started attempts. *)
Record attempts_closed (s : Snapshot) (terminal : gset string) (started : list (string * ModelAttemptFact)) (news : list HistoryFact) : Prop := {
  ac_count : length news <= length started;
  ac_only : Forall attempt_only news;
  ac_starts : forall id, (attemptFacts (sn_History s ++ news) id).1 = (attemptFacts (sn_History s) id).1;
  ac_old : forall id, is_Some (attemptFacts (sn_History s) id).2 -> is_Some (attemptFacts (sn_History s ++ news) id).2;
  ac_closed : forall id, id ∈ started.*1 -> id ∈ terminal \/ is_Some (attemptFacts (sn_History s ++ news) id).2;
}.

Lemma terminate_attempts_total clock sid terminal started : (forall n, clock n ≠ 0%Z) -> forall s changed,
  wf_core sid s -> room (length (sn_History s) + length started) -> NoDup started.*1 ->
  (forall id a, (id, a) ∈ started -> (attemptFacts (sn_History s) id).1 = Some a /\
     (id ∉ terminal -> (attemptFacts (sn_History s) id).2 = None)) ->
  exists news changed', terminate_attempts clock s terminal changed started = (extend s news, Ok changed') /\
    wf_core sid (extend s news) /\ attempts_closed s terminal started news /\ (changed' = false -> changed = false /\ news = []).
Proof.
  intros Hclock. induction started as [|[id a] started IH]; intros s changed Hs Hroom Hnd Hst.
  - exists [], changed. simpl. rewrite extend_nil. split_and!; try done. split; rewrite ?app_nil_r; try done. intros ? ?%not_elem_of_nil; done.
  - simpl in Hnd. apply NoDup_cons in Hnd as [Hid Hnd]. destruct (Hst id a (list_elem_of_here _ _)) as [Ha Hopen]. simpl.
    destruct (bool_decide (id ∈ terminal)) eqn:Et.
    + apply bool_decide_eq_true in Et. destruct (IH s changed Hs) as (news&ch&Heq&Hw&[C1 C2 C3 C4 C5]&Hch); [unfold room in *; simpl in *; lia|done| |].
      { intros id' a' Hin. apply Hst. by right. }
      exists news, ch. split_and!; try done. split; try done; [simpl; lia|]. intros id' [->|Hin]%elem_of_cons; [by left|auto].
    + apply bool_decide_eq_false in Et. destruct (open_attempt sid _ _ _ (wc_history _ _ Hs) Ha) as (<-&_&_).
      destruct (interrupt_attempt clock "cannot terminate orphaned model attempt" sid s a Hs Hclock) as (f&Heq&Hw&Honly&Hf).
      { unfold room in *; simpl in *; lia. } { destruct (attemptFacts (sn_History s) (ma_AttemptID a)); cbn [fst snd] in *. subst. f_equal. auto. }
      rewrite Heq. destruct (IH (extend s [f]) true Hw) as (news&ch&Heq'&Hw'&[C1 C2 C3 C4 C5]&Hch).
      { unfold extend, room in *; simpl in *; rewrite length_app; simpl; lia. } { done. }
      { intros id' a' Hin. rewrite history_extend, (attempt_only_snoc _ _ _ _ Hf).
        assert (id' ≠ ma_AttemptID a) by (intros ->; apply Hid, list_elem_of_fmap; by exists (ma_AttemptID a, a')).
        rewrite (proj2 (String.eqb_neq _ _)) by done. cbn [fst snd]. apply Hst. by right. }
      exists (f :: news), ch. rewrite extend_app in Heq', Hw'. rewrite history_extend in C4. setoid_rewrite history_extend in C3. setoid_rewrite history_extend in C5.
      setoid_rewrite <-app_assoc in C3. setoid_rewrite <-app_assoc in C4. setoid_rewrite <-app_assoc in C5. simpl app in C3, C4, C5.
      split_and!; try done; [|intros ->; by destruct Hch]. split; [simpl; lia|by constructor|..].
      * intros id'. by rewrite C3, (attempt_only_snoc _ _ _ _ Hf).
      * intros id' Hs'. apply C4. rewrite (attempt_only_snoc _ _ _ _ Hf). cbn [snd]. destruct (String.eqb _ _); eauto.
      * intros id' [->|Hin]%elem_of_cons; [|auto]. right. apply C4. rewrite (attempt_only_snoc _ _ _ _ Hf), String.eqb_refl. cbn [snd]. eauto.
Qed.

(** ** The run journal *)
Definition unknown_entry (e : JournalEntry) (call : ToolCall) : JournalEntry :=
  MkJournalEntry (je_RunID e) (je_StepID e) (Some call) (Some (toolUnknown (call_ID call))) JournalOutcomeUnknown.
Definition prepared_of (runID : string) (e : JournalEntry) : bool :=
  bool_decide (je_Status e = JournalPrepared) && String.eqb (je_RunID e) runID.

Lemma toolUnknown_valid id : ID_Valid id = true -> ToolResult_Validate (toolUnknown id) = Ok tt.
Proof. intros H. unfold ToolResult_Validate, toolUnknown. cbn [res_CallID]. by rewrite H. Qed.

Lemma unknown_entry_valid sid e call :
  JournalEntry_Validate e sid = Ok tt -> je_ToolCall e = Some call ->
  JournalEntry_Validate (unknown_entry e call) sid = Ok tt /\ ID_Valid (call_ID call) = true.
Proof.
  intros H Hc. unfold JournalEntry_Validate in *. cbn [unknown_entry je_ToolCall je_RunID je_StepID je_Status je_ToolResult]. rewrite Hc in *.
  apply bind_Ok in H as ([]&H1&H). apply bind_Ok in H as ([]&H2&_). pose proof H2 as Hv. apply reject_if_Ok in H1, Hv. bool_simpl.
  assert (Hid : ID_Valid (call_ID call) = true).
  { match goal with Hx : ToolCall_Valid call = true |- _ => unfold ToolCall_Valid in Hx end. bool_simpl. done. }
  split; [|done]. apply bind_Ok; exists tt; split.
  { apply reject_if_Ok. by repeat match goal with Hx : ?b = true |- context [?b] => rewrite Hx end. }
  apply bind_Ok; exists tt; split; [done|]. cbn [bool_decide orb decide_rel]. simpl. rewrite String.eqb_refl. simpl.
  by rewrite toolUnknown_valid.
Qed.

Lemma wf_journal_replace sid visited e e' rest :
  wf_journal sid (visited ++ e :: rest) -> journal_call e' = journal_call e -> JournalEntry_Validate e' sid = Ok tt ->
  wf_journal sid (visited ++ e' :: rest).
Proof.
  intros [Hv Hn] Hc Hval. split.
  - apply Forall_app in Hv as [H1 H2]. apply Forall_cons in H2 as [_ H2]. apply Forall_app. split; [done|]. by constructor.
  - rewrite fmap_app, fmap_cons in *. by rewrite Hc.
Qed.

Lemma paired_replace h visited e e' rest id :
  paired h (visited ++ e :: rest) -> journal_call e = Some id -> journal_call e' = Some id -> is_Some (findToolResult h id) ->
  paired h (visited ++ e' :: rest).
Proof.
  intros [P1 P2] He He' Hr. split.
  - intros id' (x&Hx&Hid&Ht). apply elem_of_app in Hx as [Hx|[->|Hx]%elem_of_cons].
    + apply P1. exists x. set_solver.
    + congruence.
    + apply P1. exists x. set_solver.
  - intros id' Hc Hn. specialize (P2 id' Hc Hn). rewrite fmap_app, fmap_cons in *. by rewrite He', <-He.
Qed.

Lemma paired_grow h f j :
  paired h j -> hf_ToolCall f = None -> paired (h ++ [f]) j.
Proof.
  intros [P1 P2] Hc. split; intros id.
  - intros Hf. rewrite findToolResult_snoc. destruct (P1 id Hf) as [r ->]. eauto.
  - rewrite no_call by done. intros Hcall Hn. apply P2; [done|]. rewrite findToolResult_snoc in Hn. by destruct (findToolResult h id).
Qed.

Definition result_only (f : HistoryFact) : Prop :=
  hf_ToolCall f = None /\ hf_Run f = None /\ hf_ModelAttempt f = None.

(** The part of the loop that makes sure that the history has a result. *)
Lemma answer_call clock sid s e call rest visited :
  wf_core sid s -> (forall n, clock n ≠ 0%Z) -> room (length (sn_History s)) -> JournalEntry_Validate e sid = Ok tt ->
  je_ToolCall e = Some call -> paired (sn_History s) (visited ++ e :: rest) ->
  exists news,
    (if hasToolResult (sn_History s) (call_ID call) then (s, Ok tt)
     else recover_append clock "cannot append unknown tool result" s (fact_ToolResult (toolUnknown (call_ID call)))) = (extend s news, Ok tt) /\
    wf_core sid (extend s news) /\ length news <= 1 /\ Forall result_only news /\
    paired (sn_History s ++ news) (visited ++ unknown_entry e call :: rest).
Proof.
  intros Hs Hc Hr Hv Hcall Hp. destruct (unknown_entry_valid sid e call Hv Hcall) as [_ Hid].
  assert (Hje : journal_call e = Some (call_ID call)) by (unfold journal_call; by rewrite Hcall).
  rewrite hasToolResult_find. destruct (present (findToolResult (sn_History s) (call_ID call))) eqn:E.
  - exists []. rewrite extend_nil, app_nil_r. split_and!; try done; [simpl; lia|].
    apply present_is_Some in E. by eapply paired_replace.
  - apply present_false in E.
    destruct (recover_append_total clock "cannot append unknown tool result" sid s (fact_ToolResult (toolUnknown (call_ID call)))) as [Heq Hw]; try done.
    + split; intros ? Hx; try discriminate Hx. injection Hx as <-. simpl. split; [done|by right].
    + unfold validatePayload. simpl. by apply toolUnknown_valid.
    + eexists. split; [exact Heq|]. split_and!; [done|done| |].
      * constructor; [done|constructor].
      * eapply paired_replace; [by eapply paired_grow|exact Hje|done|].
        rewrite findToolResult_snoc, E. unfold result_with. simpl. rewrite String.eqb_refl. eauto.
Qed.

Lemma wf_core_journal sid s j : wf_core sid s -> wf_journal sid j -> wf_core sid (with_journal s j).
Proof. intros [] Hj. by split. Qed.

Lemma recover_journal_total clock sid runID entries : (forall n, clock n ≠ 0%Z) -> forall s visited prepared changed,
  wf_core sid s -> wf_journal sid (visited ++ entries) -> paired (sn_History s) (visited ++ entries) ->
  room (length (sn_History s) + length entries) -> Forall (fun e => je_Status e ≠ JournalPending) visited ->
  exists news j' changed',
    recover_journal clock runID s visited entries prepared changed =
      (with_journal (extend s news) j', Ok (prepared || existsb (prepared_of runID) entries, changed')) /\
    wf_core sid (with_journal (extend s news) j') /\ paired (sn_History s ++ news) j' /\
    Forall (fun e => je_Status e ≠ JournalPending) j' /\ length news <= length entries /\ Forall result_only news /\
    existsb (prepared_of runID) j' = existsb (prepared_of runID) (visited ++ entries) /\
    (changed' = false -> changed = false /\ news = [] /\ j' = visited ++ entries).
Proof.
  intros Hclock. induction entries as [|e entries IH]; intros s visited prepared changed Hs Hj Hp Hroom Hvis.
  - exists [], visited, changed. rewrite app_nil_r in *. simpl. rewrite extend_nil, app_nil_r, orb_false_r. split_and!; try done.
    by apply wf_core_journal.
  - assert (Hskip : forall prep', je_Status e ≠ JournalPending -> prep' = prepared || prepared_of runID e ->
      exists news j' changed', recover_journal clock runID s (visited ++ [e]) entries prep' changed =
        (with_journal (extend s news) j', Ok (prepared || existsb (prepared_of runID) (e :: entries), changed')) /\
        wf_core sid (with_journal (extend s news) j') /\ paired (sn_History s ++ news) j' /\
        Forall (fun e => je_Status e ≠ JournalPending) j' /\ length news <= length (e :: entries) /\ Forall result_only news /\
        existsb (prepared_of runID) j' = existsb (prepared_of runID) (visited ++ e :: entries) /\
        (changed' = false -> changed = false /\ news = [] /\ j' = visited ++ e :: entries)).
    { intros prep' Hne ->. rewrite (cons_middle e visited entries), app_assoc in *.
      destruct (IH s (visited ++ [e]) (prepared || prepared_of runID e) changed Hs Hj Hp) as (news&j'&ch&Heq&?&?&?&?&?&?&?).
      { unfold room in *; simpl in *; lia. } { apply Forall_app. split; [done|by constructor]. }
      exists news, j', ch. rewrite Heq. simpl existsb. rewrite orb_assoc. split_and!; try done. simpl; lia. }
    pose proof Hj as [Hall _]. apply Forall_app in Hall as [_ [Hv _]%Forall_cons].
    destruct (JournalEntry_Validate_call e sid Hv) as (call&Hcall&_). cbn [recover_journal]. rewrite Hcall.
    destruct (bool_decide (je_Status e = JournalPrepared) && String.eqb (je_RunID e) runID) eqn:Epr.
    { apply Hskip; [apply andb_true_iff in Epr as [Hb _]; apply bool_decide_eq_true in Hb; by rewrite Hb|].
      unfold prepared_of. by rewrite Epr, orb_true_r. }
    destruct (negb (bool_decide (je_Status e = JournalPending))) eqn:Epe.
    { apply Hskip; [by apply negb_true_iff, bool_decide_eq_false in Epe|]. unfold prepared_of. by rewrite Epr, orb_false_r. }
    destruct (answer_call clock sid s e call entries visited Hs Hclock) as (n1&Heq&Hw&Hlen&Honly&Hpair); try done.
    { unfold room in *; simpl in *; lia. }
    rewrite Heq. cbv beta iota zeta. fold (unknown_entry e call). destruct (unknown_entry_valid sid e call Hv Hcall) as [Hu _].
    assert (Hj' : wf_journal sid (visited ++ unknown_entry e call :: entries)) by (by eapply wf_journal_replace; [|unfold journal_call; rewrite Hcall|]).
    rewrite (cons_middle (unknown_entry e call) visited entries), app_assoc in Hj', Hpair.
    destruct (IH (extend s n1) (visited ++ [unknown_entry e call]) prepared true Hw Hj' Hpair) as (n2&j'&ch&Heq'&H1&H2&H3&H4&H5&H6&H7).
    { rewrite history_extend, length_app. unfold room in *; simpl in *; lia. } { apply Forall_app. split; [done|by constructor]. }
    exists (n1 ++ n2), j', ch. rewrite Heq', <-extend_app. rewrite history_extend, <-app_assoc in H2. split_and!; try done.
    + simpl. fold (prepared_of runID e) in Epr. by rewrite Epr.
    + rewrite length_app. simpl. lia.
    + by apply Forall_app.
    + rewrite H6, <-app_assoc. rewrite !existsb_app. simpl. fold (prepared_of runID e) in Epr. by rewrite Epr.
    + intros ->. by destruct H7.
Qed.

(** ** The interrupted run *)
Lemma recoveredRunTermination_valid h runID : RunTermination_Validate (recoveredRunTermination h runID) = Ok tt.
Proof.
  unfold recoveredRunTermination. match goal with |- context [omap ?g _] => set (reason := g) end.
  destruct (last (omap reason h)) as [t|] eqn:E; [|done].
  apply last_Some_elem_of, list_elem_of_omap in E as (f&_&Hf). unfold reason in Hf.
  destruct (hf_RunLimitExceeded f) as [l|], (hf_RunBudgetExceeded f) as [b|]; try done;
    repeat match type of Hf with context [if ?b then _ else _] => destruct b end; by simplify_eq.
Qed.

Lemma interrupted_run_valid sid started t :
  is_started started = true -> RunFact_Validate started sid = Ok tt -> RunTermination_Validate t = Ok tt ->
  RunFact_Validate (interrupted_run started t) sid = Ok tt.
Proof.
  intros Hk%bool_decide_eq_true H Ht. unfold RunFact_Validate in *. rewrite Hk in H.
  apply bind_Ok in H as ([]&H1&H). apply bind_Ok in H as ([]&H2&H). apply bind_Ok in H as ([]&H3&H).
  apply reject_if_Ok in H1, H3. apply bind_Ok; exists tt; split.
  { apply reject_if_Ok. simpl. bool_simpl. match goal with Hs : rf_SessionID _ = _ |- _ => rewrite Hs, String.eqb_refl end. repeat match goal with Hx : ?b = true |- context [?b] => rewrite Hx end.
    done. }
  apply bind_Ok; exists tt; split; [done|]. apply bind_Ok; exists tt; split; [|done].
  apply reject_if_Ok. simpl in *. by destruct (nonempty (rf_LegacyCompletionMode started)).
Qed.

Lemma wf_core_idle sid s : wf_core sid s -> wf_core sid (with_run s RunIdle "").
Proof. intros []. by split. Qed.

Lemma recover_run_total clock sid runID recoverable changed s :
  wf_core sid s -> (forall n, clock n ≠ 0%Z) -> room (length (sn_History s)) -> sn_ActiveRunID s = runID ->
  exists news changed', 
    recover_run clock runID recoverable changed s =
      (if bool_decide (sn_RunState s = RunRunning) && negb recoverable then with_run (extend s news) RunIdle "" else s, Ok changed') /\
    wf_core sid (extend s news) /\ length news <= 1 /\
    Forall (fun f => hf_ToolCall f = None /\ hf_ToolResult f = None /\ hf_ModelAttempt f = None) news /\
    changed' = (bool_decide (sn_RunState s = RunRunning) && negb recoverable || changed).
Proof.
  intros Hs Hc Hr Hid. unfold recover_run. destruct (bool_decide _ && negb recoverable) eqn:E.
  2:{ exists [], changed. rewrite extend_nil. split_and!; try done. simpl; lia. }
  destruct (runFacts (sn_History s) runID) as [[st|] [te|]] eqn:Er;
    try (exists [], true; rewrite extend_nil; by split_and!; [..|simpl; lia|constructor|]).
  destruct (runFacts_in (sn_History s) runID st) as (f&Hf&Hrun&Hst); [left; by rewrite Er|].
  assert (Hv : RunFact_Validate st sid = Ok tt) by (eapply validatePayload_Run; [eapply wf_history_elem; [apply Hs|done]|done]).
  assert (Hstart : is_started st = true).
  { assert (Hl : (runFacts (sn_History s) runID).1 = Some st) by (by rewrite Er).
    unfold runFacts in Hl. cbn [fst] in Hl. apply last_Some_elem_of, list_elem_of_In, filter_In in Hl as [_ Hl]. done. }
  destruct (recover_append_total clock "cannot append interrupted run" sid s
    (fact_Run (interrupted_run st (recoveredRunTermination (sn_History s) runID)))) as [Heq Hw]; try done.
  - split; intros ? Hx; try discriminate Hx. injection Hx as <-. unfold run_admissible. simpl. rewrite Hst, Er. exists st. split_and!; [done..|].
    apply sameModelConfig_refl. unfold RunFact_Validate in Hv. inv_ok. done.
  - unfold validatePayload. simpl. apply interrupted_run_valid; [done..|]. apply recoveredRunTermination_valid.
  - eexists _, true. rewrite Heq. split_and!; try done. by constructor.
Qed.

(** ** The queue *)
Lemma validateQueueClaims_Ok q state active :
  validateQueueClaims q state active = Ok tt <->
  forall item, item ∈ q -> qi_ClaimedBy item ≠ "" -> state = RunRunning /\ qi_ClaimedBy item = active.
Proof.
  unfold validateQueueClaims. rewrite reject_if_Ok. split.
  - intros H item Hin Hne. apply not_true_iff_false in H. destruct (decide (state = RunRunning /\ qi_ClaimedBy item = active)) as [|Hn]; [done|].
    exfalso. apply H, existsb_exists. exists item. split; [by apply list_elem_of_In|]. apply andb_true_iff. split.
    + apply negb_true_iff. by apply String.eqb_neq.
    + rewrite orb_true_iff, !negb_true_iff, bool_decide_eq_false, String.eqb_neq. destruct (decide (state = RunRunning)); [right|left]; naive_solver.
  - intros H. apply not_true_is_false. intros (item&Hin&Hb)%existsb_exists. apply list_elem_of_In in Hin. apply andb_true_iff in Hb as [Hne Hb].
    apply negb_true_iff, String.eqb_neq in Hne. destruct (H item Hin Hne) as [-> <-]. by rewrite String.eqb_refl in Hb.
Qed.

Lemma release_wf sid runID q : wf_queue sid q -> wf_queue sid (release_item runID <$> q).
Proof.
  intros [Hv Hn]. split.
  - apply Forall_fmap. eapply Forall_impl; [exact Hv|]. intros item Hi. unfold compose, validQueueItem, validQueueItem_envelope in *. simpl.
    bool_simpl. repeat match goal with Hx : ?b = true |- context [?b] => rewrite Hx end.
    rewrite bool_decide_eq_true_2 by done. repeat match goal with Hx : msg_SessionID _ = _ |- _ => rewrite Hx end. rewrite String.eqb_refl. simpl.
    by destruct (bool_decide _).
  - unfold queue_ids in *. by rewrite <-list_fmap_compose.
Qed.

Lemma release_claims runID q :
  (forall item, item ∈ q -> qi_ClaimedBy item ≠ "" -> qi_ClaimedBy item = runID) ->
  validateQueueClaims (release_item runID <$> q) RunIdle "" = Ok tt.
Proof.
  intros H. apply validateQueueClaims_Ok. intros item (i&->&Hi)%list_elem_of_fmap Hne. exfalso. apply Hne. simpl.
  destruct (String.eqb (qi_ClaimedBy i) runID) eqn:E; [done|]. apply String.eqb_neq in E.
  destruct (decide (qi_ClaimedBy i = "")) as [|Hn]; [done|]. by apply H in Hn.
Qed.

Lemma release_same runID q : existsb (to_release runID) q = false -> release_item runID <$> q = q.
Proof.
  induction q as [|item q IH]; [done|]; cbn [existsb]. intros [H1 H2]%orb_false_iff. rewrite fmap_cons, IH by done. f_equal.
  unfold to_release in H1. apply orb_false_iff in H1 as [H1 H3]. unfold release_item. rewrite H1, H3. by destruct item.
Qed.

(** ** The whole recovery *)
Definition enough_room (s : Snapshot) : Prop := room (2 * length (sn_History s) + length (sn_RunJournal s) + 1).

Lemma attempt_maps_size h : size (attempt_maps h).1 <= length h.
Proof.
  induction h as [|f h IH] using rev_ind; [done|]. rewrite attempt_maps_snoc, length_app. simpl.
  destruct (hf_ModelAttempt f) as [a|]; [|lia]. destruct (is_attempt_start a); cbn [fst]; [|lia].
  destruct ((attempt_maps h).1 !! ma_AttemptID a) eqn:E; [rewrite (map_size_insert_Some _ _ _ (mk_is_Some _ _ E))|rewrite (map_size_insert_None _ _ _ E)]; lia.
Qed.

Lemma attemptFacts_app h news id :
  Forall (fun f => hf_ModelAttempt f = None) news -> attemptFacts (h ++ news) id = attemptFacts h id.
Proof.
  induction news as [|f news IH] using rev_ind; [by rewrite app_nil_r|]. intros [Hn Hf]%Forall_app. rewrite app_assoc, no_attempt by (by inversion Hf).
  by apply IH.
Qed.

Lemma paired_app h news j : Forall (fun f => hf_ToolCall f = None) news -> paired h j -> paired (h ++ news) j.
Proof.
  induction news as [|f news IH] using rev_ind; [by rewrite app_nil_r|]. intros [Hn Hf]%Forall_app Hp. rewrite app_assoc.
  apply paired_grow; [by apply IH|by inversion Hf].
Qed.

Lemma started_entries r h : sane r ->
  let started := iterate r (attempt_maps h).1 in
  NoDup started.*1 /\ length started <= length h /\
  (forall id a, (id, a) ∈ started -> (attemptFacts h id).1 = Some a /\ (id ∉ (attempt_maps h).2 -> (attemptFacts h id).2 = None)) /\
  (forall id, is_Some (attemptFacts h id).1 -> id ∈ started.*1).
Proof.
  intros Hr started. destruct (attempt_maps_spec h) as [M1 M2]. pose proof (sn_iterate r Hr (attempt_maps h).1) as Hp. fold started in Hp. split_and!.
  - rewrite Hp. apply NoDup_fst_map_to_list.
  - rewrite Hp, length_map_to_list. apply attempt_maps_size.
  - intros id a Hin. rewrite Hp, elem_of_map_to_list, M1 in Hin. split; [done|]. intros Hn.
    destruct (attemptFacts h id).2 eqn:E; [|done]. destruct Hn. apply M2. by rewrite E.
  - intros id [a Ha]. rewrite <-M1 in Ha. apply list_elem_of_fmap. exists (id, a). split; [done|]. by rewrite Hp, elem_of_map_to_list.
Qed.

(** What one recovery does to an aggregate. *)
Record recovery (s s' : Snapshot) (changed : bool) : Prop := {
  rv_recovered : recovered s';
  rv_history : exists news, sn_History s' = sn_History s ++ news;
  rv_session : sn_Session s' = sn_Session s;
  rv_revision : sn_Revision s' = sn_Revision s;
  rv_config : sn_ModelConfig s' = sn_ModelConfig s;
  rv_unchanged : changed = false -> s' = s;
}.

Lemma with_extensions_core sid s x : wf_core sid s -> wf_extensions sid x -> wf_core sid (with_extensions s x).
Proof. intros [] Hx. by split. Qed.

Lemma claims_of_active sid s item :
  wf_snapshot sid s -> item ∈ sn_Queue s -> qi_ClaimedBy item ≠ "" -> qi_ClaimedBy item = sn_ActiveRunID s /\ sn_RunState s = RunRunning.
Proof. intros [_ Hq _] Hin Hne. apply validateQueueClaims_Ok with (item := item) in Hq as [? ?]; done. Qed.

(** The last two steps: the run and the queue. *)
Lemma recover_finish clock sid s0 s changed recoverable :
  (forall n, clock n ≠ 0%Z) -> room (length (sn_History s)) -> wf_core sid s -> paired (sn_History s) (sn_RunJournal s) ->
  wf_snapshot sid s0 -> sn_Queue s = sn_Queue s0 -> sn_RunState s = sn_RunState s0 -> sn_ActiveRunID s = sn_ActiveRunID s0 ->
  (forall e, e ∈ sn_ExtensionJournal s -> xe_Status e ≠ InvocationPending) ->
  (forall id, is_Some (attemptFacts (sn_History s) id).1 -> is_Some (attemptFacts (sn_History s) id).2) ->
  (forall e, e ∈ sn_RunJournal s -> je_Status e ≠ JournalPending) -> recoverable = resumable s ->
  exists s' changed',
    match recover_run clock (sn_ActiveRunID s0) recoverable changed s with
    | (s, Ok changed) => let '(s, released) := recover_queue (sn_ActiveRunID s0) recoverable s in (s, Ok (changed || released))
    | (s, out) => (s, out)
    end = (s', Ok changed') /\ wf_snapshot sid s' /\ recovery s s' changed' /\ (changed' = false -> changed = false) /\
    sn_ExtensionJournal s' = sn_ExtensionJournal s.
Proof.
  intros Hc Hroom Hs Hpair H0 Hq Hst Hact Hx Ha Hj Hrec.
  destruct (recover_run_total clock sid (sn_ActiveRunID s0) recoverable changed s Hs Hc Hroom Hact) as (news&ch&Heq&Hw&Hlen&Hn&Hch).
  rewrite Heq. assert (Hnews : Forall (fun f => hf_ModelAttempt f = None) news /\ Forall (fun f => hf_ToolCall f = None) news).
  { split; (eapply Forall_impl; [exact Hn|]); naive_solver. } destruct Hnews as [Hn1 Hn2].
  pose proof (wc_run _ _ Hs) as Hrun. rewrite Hst, Hact in Hrun.
  destruct (bool_decide (sn_RunState s = RunRunning) && negb recoverable) eqn:E.
  - apply andb_true_iff in E as [Er%bool_decide_eq_true Erec%negb_true_iff]. rewrite <-Hst, Er in Hrun. simpl in Hrun.
    unfold recover_queue. rewrite Hrun, Erec. simpl negb. cbn [orb]. eexists _, _. split; [reflexivity|]. subst ch. split_and!; [|split|done|done].
    + split; cbn.
      * apply wf_core_idle in Hw. eapply with_queue_core; [exact Hw|]. apply release_wf. by apply Hs.
      * apply release_claims. rewrite Hq. intros item Hin Hne. by apply (claims_of_active sid s0).
      * by apply paired_app.
    + split; try done. cbn [with_queue with_run with_history sn_History extend]. intros id. rewrite attemptFacts_app by done. apply Ha.
    + by exists news.
    + done.
    + done.
    + done.
    + done.
  - assert (Hsame : recover_queue (sn_ActiveRunID s0) recoverable s = (s, false)).
    { unfold recover_queue. apply andb_false_iff in E as [E%bool_decide_eq_false|E%negb_false_iff].
      - rewrite Hst in E. destruct (sn_RunState s0); simpl in Hrun; try done. by rewrite Hrun.
      - by rewrite E, orb_true_r. }
    rewrite Hsame. eexists _, _. split; [reflexivity|]. rewrite orb_false_r, Hch. cbn [orb]. split_and!; [|split|done|done]; try done.
    + split; [done| |done]. rewrite Hq, Hst, Hact. apply H0.
    + split; try done. intros Hr. apply andb_false_iff in E as [E%bool_decide_eq_false|E%negb_false_iff]; [done|congruence].
    + exists []. by rewrite app_nil_r.
Qed.

Lemma with_extensions_same s : with_extensions s (sn_ExtensionJournal s) = s.
Proof. by destruct s. Qed.
Lemma with_journal_same s : with_journal s (sn_RunJournal s) = s.
Proof. by destruct s. Qed.

(** The aggregate after the loops over extensions, attempts and journal. *)
Record settled (sid : string) (s s2 : Snapshot) (changed : bool) : Prop := {
  st_core : wf_core sid s2;
  st_paired : paired (sn_History s2) (sn_RunJournal s2);
  st_extensions : forall e, e ∈ sn_ExtensionJournal s2 -> xe_Status e ≠ InvocationPending;
  st_attempts : forall id, is_Some (attemptFacts (sn_History s2) id).1 -> is_Some (attemptFacts (sn_History s2) id).2;
  st_journal : forall e, e ∈ sn_RunJournal s2 -> je_Status e ≠ JournalPending;
  st_prepared : existsb (prepared_of (sn_ActiveRunID s)) (sn_RunJournal s2) = existsb (prepared_of (sn_ActiveRunID s)) (sn_RunJournal s);
  st_history : exists news, sn_History s2 = sn_History s ++ news /\ length news <= length (sn_History s) + length (sn_RunJournal s);
  st_unchanged : changed = false -> s2 = s;
}.

Lemma recover_loops r sid s :
  let s1 := with_extensions s (recover_extensions (at_extension r) (sn_ExtensionJournal s)) in
  let maps := attempt_maps (sn_History s) in
  sane r -> wf_snapshot sid s -> enough_room s ->
  exists n1 c1 news j' c2,
    terminate_attempts (at_fact r) s1 maps.2 (existsb is_pending_extension (sn_ExtensionJournal s)) (iterate r maps.1) = (extend s1 n1, Ok c1) /\
    recover_journal (at_fact r) (sn_ActiveRunID s) (extend s1 n1) [] (sn_RunJournal s) false c1 =
      (with_journal (extend s1 news) j', Ok (existsb (prepared_of (sn_ActiveRunID s)) (sn_RunJournal s), c2)) /\
    settled sid s (with_journal (extend s1 news) j') c2.
Proof.
  intros s1 maps Hr [Hcore _ Hp] Hroom. pose proof Hr as [Hf Hxc _].
  assert (Hx : wf_core sid s1) by (apply with_extensions_core, recover_extensions_wf; [done|done|apply Hcore]).
  destruct (started_entries r (sn_History s) Hr) as (S1&S2&S3&S4). destruct (attempt_maps_spec (sn_History s)) as [_ M2]. fold maps in S1, S2, S3, S4, M2.
  destruct (terminate_attempts_total (at_fact r) sid maps.2 (iterate r maps.1) Hf s1 (existsb is_pending_extension (sn_ExtensionJournal s)))
    as (n1&c1&Heq1&Hw1&[A1 A2 A3 A4 A5]&Hc1); [done|unfold enough_room, room in *; cbn [s1 with_extensions sn_History]; lia|done|exact S3|].
  unfold s1 in A3, A4, A5. cbn [with_extensions sn_History] in A3, A4, A5.
  assert (Hp1 : paired (sn_History s ++ n1) (sn_RunJournal s)) by (apply paired_app; [eapply Forall_impl; [exact A2|]; by intros f (?&_)|done]).
  destruct (recover_journal_total (at_fact r) sid (sn_ActiveRunID s) (sn_RunJournal s) Hf (extend s1 n1) [] false c1)
    as (n2&j'&c2&Heq2&Hw2&Hp2&J1&J2&J3&J4&Hc2); [done|apply Hcore|exact Hp1| |constructor|].
  { rewrite history_extend, length_app. unfold enough_room, room, s1 in *. cbn [with_extensions sn_History]. lia. }
  exists n1, c1, (n1 ++ n2), j', c2. rewrite <-extend_app. split_and!; [done|by rewrite Heq2|].
  assert (Hh2 : sn_History (with_journal (extend (extend s1 n1) n2) j') = (sn_History s ++ n1) ++ n2) by done. split; rewrite ?Hh2; try done.
  - intros e. apply recover_extensions_done.
  - intros id. rewrite !attemptFacts_app by (eapply Forall_impl; [exact J3|]; by intros f (_&_&?)). rewrite A3. intros Hid.
    destruct (A5 id (S4 id Hid)) as [Ht|]; [by apply A4, M2|done].
  - by apply Forall_forall.
  - exists (n1 ++ n2). rewrite app_assoc, length_app. split; [done|lia].
  - intros ->. destruct Hc2 as (->&->&->); [done|]. destruct Hc1 as [Hc1 ->]; [done|]. rewrite !extend_nil. unfold s1.
    rewrite recover_extensions_same, with_extensions_same by done. apply with_journal_same.
Qed.

(** Recovery of a well-formed aggregate succeeds, whatever is in it. *)
Lemma recoverAggregate_total r sid s :
  sane r -> wf_snapshot sid s -> enough_room s ->
  exists s' changed, recoverAggregate r s = (s', Ok changed) /\ wf_snapshot sid s' /\ recovery s s' changed /\
    sn_ExtensionJournal s' = recover_extensions (at_extension r) (sn_ExtensionJournal s).
Proof.
  intros Hr Hs Hroom. destruct (recover_loops r sid s Hr Hs Hroom) as (n1&c1&news&j'&c2&Heq1&Heq2&[T1 T2 T3 T4 T5 T6 (n&Hn&Hlen) T8]).
  unfold recoverAggregate. cbv zeta. change (sn_History (with_extensions s (recover_extensions (at_extension r) (sn_ExtensionJournal s)))) with (sn_History s).
  destruct (attempt_maps (sn_History s)) as [starts terminal]. cbn [fst snd] in Heq1. rewrite Heq1.
  change (sn_RunJournal (extend _ n1)) with (sn_RunJournal s). change (sn_ActiveRunID (with_extensions s _)) with (sn_ActiveRunID s). rewrite Heq2.
  set (s2 := with_journal _ j') in *.
  destruct (recover_finish (at_fact r) sid s s2 c2 (existsb (prepared_of (sn_ActiveRunID s)) (sn_RunJournal s) || existsb (prepared_completion (sn_ActiveRunID s)) (sn_ExtensionJournal s2)))
    as (s'&c3&Heq3&Hw3&[R1 [n3 R2] R3 R4 R5 R6]&Hc3&Hx3); try done.
  - apply Hr.
  - rewrite Hn, length_app. unfold enough_room, room in *. lia.
  - unfold resumable. rewrite <-T6. done.
  - rewrite Heq3. exists s', c3. split_and!; [done..| |by rewrite Hx3]. split; try done.
    + exists (n ++ n3). by rewrite R2, Hn, app_assoc.
    + intros Hc. rewrite R6 by done. apply T8, Hc3, Hc.
Qed.

(** ** Recovery is idempotent *)
Lemma terminate_attempts_closed clock s terminal changed started :
  (forall id, id ∈ started.*1 -> id ∈ terminal) -> terminate_attempts clock s terminal changed started = (s, Ok changed).
Proof.
  induction started as [|[id a] started IH]; [done|]; simpl. intros H. rewrite bool_decide_eq_true_2 by (apply H; left).
  apply IH. intros id' Hin. apply H. by right.
Qed.

Lemma recover_journal_settled clock runID s visited entries prepared changed :
  (forall e, e ∈ entries -> je_Status e ≠ JournalPending /\ is_Some (je_ToolCall e)) ->
  recover_journal clock runID s visited entries prepared changed =
    (with_journal s (visited ++ entries), Ok (prepared || existsb (prepared_of runID) entries, changed)).
Proof.
  revert visited prepared; induction entries as [|e entries IH]; intros visited prepared H; simpl; [by rewrite app_nil_r, orb_false_r|].
  destruct (H e (list_elem_of_here _ _)) as [Hne [call Hc]]. rewrite Hc.
  assert (H' : forall e, e ∈ entries -> je_Status e ≠ JournalPending /\ is_Some (je_ToolCall e)) by (intros e' He'; apply H; by right).
  fold (prepared_of runID e). destruct (prepared_of runID e) eqn:E.
  - rewrite IH, <-app_assoc by done. by rewrite orb_true_r.
  - rewrite bool_decide_eq_false_2 by done. simpl. by rewrite IH, <-app_assoc.
Qed.

Lemma recover_recovered r sid s :
  (forall m, iterate r m ≡ₚ map_to_list m) -> wf_core sid s -> recovered s -> recoverAggregate r s = (s, Ok false).
Proof.
  intros Hit Hs [R1 R2 R3 R4]. unfold recoverAggregate. cbv zeta.
  assert (Hx : existsb is_pending_extension (sn_ExtensionJournal s) = false).
  { apply not_true_is_false. intros (e&Hin&He)%existsb_exists. apply list_elem_of_In in Hin. apply bool_decide_eq_true in He. by apply (R1 e). }
  rewrite recover_extensions_same, with_extensions_same, Hx by done.
  destruct (attempt_maps_spec (sn_History s)) as [M1 M2]. destruct (attempt_maps (sn_History s)) as [starts terminal]. cbn [fst snd] in *.
  rewrite terminate_attempts_closed.
  2:{ intros id Hin. apply M2, R2. apply list_elem_of_fmap in Hin as ([id' a]&->&Hin). rewrite Hit, elem_of_map_to_list, M1 in Hin. eauto. }
  rewrite recover_journal_settled.
  2:{ intros e He. split; [by apply R3|]. destruct (wc_journal _ _ Hs) as [Hj _]. rewrite Forall_forall in Hj.
      destruct (JournalEntry_Validate_call e sid (Hj e He)) as (call&->&_). eauto. }
  simpl app. rewrite with_journal_same. cbn [orb]. fold (prepared_of (sn_ActiveRunID s)). 
  change (existsb (prepared_of (sn_ActiveRunID s)) (sn_RunJournal s) || existsb (prepared_completion (sn_ActiveRunID s)) (sn_ExtensionJournal s)) with (resumable s).
  pose proof (wc_run _ _ Hs) as Hrun. unfold recover_run, recover_queue.
  destruct (bool_decide (sn_RunState s = RunRunning)) eqn:E.
  - apply bool_decide_eq_true in E. rewrite R4 by done. simpl. by rewrite orb_true_r.
  - apply bool_decide_eq_false in E. destruct (sn_RunState s); try done. simpl in Hrun. rewrite Hrun. done.
Qed.

End Recover.

(** * Evolution of the extension journal

    Entries are never removed; an entry keeps its identity, its status only
    advances, and what it recorded when it finished is final. *)

(** The fields compared by [sameExtensionIdentity] and
    [sameExtensionTerminalOutcome]. *)
Definition xe_identity (e : ExtensionJournalEntry) :=
  (xe_InvocationID e, xe_Sequence e, xe_Descriptor e, xe_Boundary e, xe_SessionID e, xe_RunID e, xe_StepID e, xe_TargetStepID e,
   (xe_MessageID e, xe_ToolCallID e, xe_GoalID e, xe_GoalVersion e, xe_LifecyclePhase e, xe_LifecycleOpenKind e, xe_InputDigest e,
    xe_PreparedRevision e, xe_PreparedAt e)).
Definition xe_outcome (e : ExtensionJournalEntry) :=
  (xe_PendingAt e, xe_FinishedAt e, xe_Result e, xe_ErrorCode e, xe_ErrorReason e, xe_ContextDigest e, xe_ContextBytes e).

Lemma sameExtensionIdentity_eq l r : sameExtensionIdentity l r = true <-> xe_identity l = xe_identity r.
Proof.
  unfold sameExtensionIdentity, xe_identity. rewrite !andb_true_iff, !bool_decide_eq_true, !String.eqb_eq, !Z.eqb_eq. split.
  - intros H. repeat match type of H with _ /\ _ => let Hx := fresh in destruct H as [H Hx]; try rewrite Hx end. by rewrite H.
  - intros [=]. tauto.
Qed.

Lemma sameExtensionTerminalOutcome_eq l r : sameExtensionTerminalOutcome l r = true <-> xe_outcome l = xe_outcome r.
Proof.
  unfold sameExtensionTerminalOutcome, xe_outcome. rewrite !andb_true_iff, !bool_decide_eq_true, !String.eqb_eq, !Z.eqb_eq. split.
  - intros H. repeat match type of H with _ /\ _ => let Hx := fresh in destruct H as [H Hx]; try rewrite Hx end. by rewrite H.
  - intros [=]. tauto.
Qed.

Definition status_rank (s : InvocationStatus) : nat :=
  match s with InvocationPrepared => 0 | InvocationPending => 1 | _ => 2 end.

Record entry_evolves (e e' : ExtensionJournalEntry) : Prop := {
  ee_identity : xe_identity e' = xe_identity e;
  ee_status : status_rank (xe_Status e) <= status_rank (xe_Status e');
  ee_pending : 1 <= status_rank (xe_Status e) -> xe_PendingAt e' = xe_PendingAt e;
  ee_outcome : 2 <= status_rank (xe_Status e) -> xe_Status e' = xe_Status e /\ xe_outcome e' = xe_outcome e;
  ee_effect : 2 <= status_rank (xe_Status e) -> xe_EffectDisposition e = EffectApplied \/ xe_EffectDisposition e = EffectDiscarded ->
    xe_EffectDisposition e' = xe_EffectDisposition e;
  ee_context : 2 <= status_rank (xe_Status e) ->
    xe_ContextDisposition e = ContextNone \/ xe_ContextDisposition e = ContextConsumed \/ xe_ContextDisposition e = ContextDiscarded ->
    xe_ContextDisposition e' = xe_ContextDisposition e;
}.

Definition ext_evolves (x x' : list ExtensionJournalEntry) : Prop :=
  forall i e, x !! i = Some e -> exists e', x' !! i = Some e' /\ entry_evolves e e'.

#[export] Instance entry_evolves_preorder : PreOrder entry_evolves.
Proof.
  split; [by intros e; split|]. intros a b c [A1 A2 A3 A4 A5 A6] [B1 B2 B3 B4 B5 B6]. split.
  - congruence.
  - lia.
  - intros H. rewrite B3 by lia. by apply A3.
  - intros H. destruct (A4 H) as [Hs Ho]. destruct B4 as [Hs' Ho']; [by rewrite Hs|]. split; congruence.
  - intros H He. destruct (A4 H) as [Hs _]. rewrite B5; [by apply A5|by rewrite Hs|by rewrite A5].
  - intros H He. destruct (A4 H) as [Hs _]. rewrite B6; [by apply A6|by rewrite Hs|by rewrite A6].
Qed.

#[export] Instance ext_evolves_preorder : PreOrder ext_evolves.
Proof.
  split; [intros x i e H; by exists e|]. intros x y z Hxy Hyz i e H. destruct (Hxy i e H) as (e1&H1&He1).
  destruct (Hyz i e1 H1) as (e2&H2&He2). exists e2. split; [done|by etrans].
Qed.

Lemma transition_evolves cur next :
  sameExtensionIdentity cur next = true -> validateExtensionTransition cur next = Ok tt -> entry_evolves cur next.
Proof.
  intros Hid%sameExtensionIdentity_eq H. unfold validateExtensionTransition in H.
  destruct (xe_Status cur) eqn:Es; cbv zeta in H.
  1:{ inv_ok. split; rewrite ?Es; simpl; try lia; done. }
  1:{ inv_ok. bool_simpl. split; rewrite ?Es; simpl; try lia; try done.
      destruct (xe_Status next); simpl in *; done || lia. }
  all: apply bind_Ok in H as (?&H1&H); apply reject_if_Ok in H1; bool_simpl;
    match goal with Hs : xe_Status ?nx = _, Ho : sameExtensionTerminalOutcome _ _ = true |- _ =>
      apply sameExtensionTerminalOutcome_eq in Ho; rename Hs into Hst; rename Ho into Hout end;
    apply bind_Ok in H as (?&He&H); apply bind_Ok in H as (?&Hc&_);
    (split; rewrite ?Es, ?Hst; simpl; try done; try lia;
     [intros _; unfold xe_outcome in Hout; by injection Hout
     |intros _ [Hx|Hx]; rewrite Hx in *; by inv_ok; bool_simpl
     |intros _ [Hx|[Hx|Hx]]; rewrite Hx in *; by inv_ok; bool_simpl]).
Qed.

Section ExtensionFacts.
Context {J : JsonOps} {F : Fingerprints}.

Lemma applyExtensionJournal_evolves sid x next x' : applyExtensionJournal sid x next = Ok x' -> ext_evolves x x'.
Proof.
  intros (_&[(->&_)|(i&cur&Hi&->&Hid&Ht)])%applyExtensionJournal_Ok k e Hk.
  - exists e. split; [by apply lookup_app_l_Some|done].
  - destruct (decide (i = k)) as [->|Hne].
    + simplify_eq. exists next. split; [apply list_lookup_insert_eq; by eapply lookup_lt_Some|by apply transition_evolves].
    + exists e. by rewrite list_lookup_insert_ne.
Qed.

Lemma recover_extension_evolves now e : entry_evolves e (recover_extension now e).
Proof.
  unfold recover_extension. destruct (bool_decide (xe_Status e = InvocationPending)) eqn:E; simpl; [|done].
  apply bool_decide_eq_true in E. split; rewrite ?E; simpl; try done; lia.
Qed.

Lemma recover_extensions_evolves clock x : ext_evolves x (recover_extensions clock x).
Proof.
  intros i e Hi. exists (recover_extension (clock i) e). split; [|apply recover_extension_evolves].
  unfold recover_extensions. by rewrite list_lookup_imap, Hi.
Qed.

(** One change of a commit. *)
Lemma append_fact_extensions clock s sid source actor s' :
  append_fact clock s sid source actor = Ok s' -> sn_ExtensionJournal s' = sn_ExtensionJournal s.
Proof. by intros ->%append_fact_Ok. Qed.
Lemma append_or_conflict_extensions clock s sid source actor s' :
  append_or_conflict clock s sid source actor = Ok s' -> sn_ExtensionJournal s' = sn_ExtensionJournal s.
Proof. by intros ?%map_err_Ok%append_fact_extensions. Qed.

Lemma apply_change_extensions clock request s c s' :
  apply_change clock request s c = Ok s' -> ext_evolves (sn_ExtensionJournal s) (sn_ExtensionJournal s').
Proof.
  destruct (decide (ch_Kind c = UpdateExtensionJournal)) as [Ek|Hne]; intros H.
  { unfold apply_change in H. rewrite Ek in H. inv_ok. by eapply applyExtensionJournal_evolves. }
  enough (sn_ExtensionJournal s' = sn_ExtensionJournal s) as -> by done. unfold apply_change in H.
  destruct (ch_Kind c) eqn:Ek; cbv zeta in H; try (apply bind_Ok in H as (p&Hp&H)); try done;
  try (inv_ok; repeat match goal with x : (_ * _)%type |- _ => destruct x end; inv_ok; done).
  - inv_ok. by eapply append_or_conflict_extensions.
  - unfold apply_AppendToolCall in H. apply bind_Ok in H as (?&_&H). destruct (findMessage _ _); [|done]. inv_ok.
    by eapply append_or_conflict_extensions.
  - inv_ok. by eapply append_or_conflict_extensions.
  - unfold appendRunFact in H. destruct (runFacts _ _). inv_ok. by eapply append_fact_extensions.
  - unfold appendModelAttemptFact in H. inv_ok. by eapply append_fact_extensions.
  - unfold appendContextContributionFact in H. inv_ok. by eapply append_or_conflict_extensions.
  - unfold appendRunBudgetExceededFact in H. inv_ok. by eapply append_fact_extensions.
  - unfold appendRunLimitExceededFact in H. inv_ok. by eapply append_fact_extensions.
  - inv_ok. match goal with Ha : append_or_conflict _ _ _ _ _ = _ |- _ => by apply append_or_conflict_extensions in Ha end.
  - destruct (queueIndex _ _); [|done]. by inv_ok.
  - unfold apply_SetContext in H. by inv_ok.
  - unfold applyRunState in H. by destruct (rsc_State p); inv_ok.
  - unfold applyJournal in H. apply bind_Ok in H as (?&_&H). destruct (journalIndex _ _); [|by inv_ok].
    apply bind_Ok in H as (?&_&H). apply bind_Ok in H as (?&_&H). apply bind_Ok in H as (?&_&H).
    repeat (destruct (bool_decide _); [by inv_ok|]). destruct (je_ToolResult p); by inv_ok.
Qed.

Lemma applyChanges_extensions clock s request s' :
  applyChanges clock s request = Ok s' -> ext_evolves (sn_ExtensionJournal s) (sn_ExtensionJournal s').
Proof.
  intros H. unfold applyChanges in H. do 3 (apply bind_Ok in H as (?&_&H)). apply bind_Ok in H as (s1&Hf&H).
  do 2 (apply bind_Ok in H as (?&_&H)). injection H as ->.
  apply (foldM_preserves _ (fun t => ext_evolves (sn_ExtensionJournal s) (sn_ExtensionJournal t)) _ _ _) in Hf; [done| |done].
  intros c t t' _ Ht Hc. etrans; [exact Ht|by eapply apply_change_extensions].
Qed.

End ExtensionFacts.
