(* ===== verification/SessionStoreFacts.v ===== *)
(** * The store over time

    The operations of the store as a step relation, the invariant of every
    reachable store, and what all later stores keep of an aggregate. *)

From Stdlib Require Import Ascii.
From stdpp Require Import relations.
From S2P Require Import Prelude GoStrings AgentTypes ModelContracts SessionTypes ExtensionJournal.
From S2P Require Import SessionValidate SessionHistory SessionApply SessionRecover SessionCreate SessionStore TextFacts SessionHistoryFacts SessionCreateFacts.
From S2P Require Import SessionInvariant SessionCommitFacts SessionRecoverFacts.

(** ** Calls that can change the store *)
Inductive operation :=
  | OpCreate (initial : NewSession)
  | OpCommit (request : CommitRequest)
  | OpRecover (id : string)
  | OpListSessions (request : ListRequest).

(** A call and everything it reads from its environment. *)
Record call := MkCall { cl_readings : Readings; cl_fresh : Identity; cl_context : context; cl_operation : operation }.

(** What never changes about a Session. *)
Definition session_identity (s : Session) :=
  (sess_ID s, sess_AgentID s, sess_WorkspaceID s, sess_ParentSessionID s, sess_ParentRevision s).

Section StoreFacts.
Context {J : JsonOps} {F : Fingerprints} {R : RequestFingerprint} {K : CursorCodec}.

Definition invoke (c : call) (st : MemoryStore) : MemoryStore :=
  match cl_operation c with
  | OpCreate n => (Create (cl_readings c) (cl_fresh c) (cl_context c) st n).1
  | OpCommit q => (Commit (cl_readings c) (cl_fresh c) (cl_context c) st q).1
  | OpRecover id => (Recover (cl_readings c) (cl_fresh c) (cl_context c) st id).1
  | OpListSessions q => (ListSessions (cl_fresh c) (cl_context c) st q).1
  end.

(** A recovery runs with working clocks, and the history is far from the end
    of its 64-bit sequence numbers. *)
Definition admitted (c : call) (st : MemoryStore) : Prop :=
  match cl_operation c with
  | OpRecover id => sane (cl_readings c) /\ forall a, st_sessions st !! id = Some a -> enough_room (ag_snapshot a)
  | _ => True
  end.

Definition step (st st' : MemoryStore) : Prop := exists c, admitted c st /\ invoke c st = st'.
Definition reachable (st : MemoryStore) : Prop := exists n, nsteps step n NewMemoryStore st.

Record wf_aggregate (id : string) (a : memoryAggregate) : Prop := {
  wa_snapshot : wf_snapshot id (ag_snapshot a);
  wa_records : forall key m, ag_idempotency a !! key = Some m ->
    co_Applied (mc_commit m) = true /\ co_SessionID (mc_commit m) = id;
}.
Definition wf_store (st : MemoryStore) : Prop := map_Forall wf_aggregate (st_sessions st).

(** What [n] later steps keep of an aggregate. *)
Record agg_evolves (n : nat) (a a' : memoryAggregate) : Prop := {
  ae_history : sn_History (ag_snapshot a) `prefix_of` sn_History (ag_snapshot a');
  ae_session : session_identity (sn_Session (ag_snapshot a')) = session_identity (sn_Session (ag_snapshot a));
  ae_records : ag_idempotency a ⊆ ag_idempotency a';
  ae_revision : exists k, k <= n /\ u64 (sn_Revision (ag_snapshot a')) = u64 (sn_Revision (ag_snapshot a) + Z.of_nat k);
  ae_extensions : ext_evolves (sn_ExtensionJournal (ag_snapshot a)) (sn_ExtensionJournal (ag_snapshot a'));
}.

Lemma agg_evolves_refl n a : agg_evolves n a a.
Proof. split; try done. exists 0. split; [lia|by rewrite Z.add_0_r]. Qed.

Lemma u64_add a b k : u64 a = u64 b -> u64 (a + k) = u64 (b + k).
Proof. unfold u64. intros H. by rewrite Z.add_mod, H, <-Z.add_mod by lia. Qed.

Lemma agg_evolves_trans n m a b c : agg_evolves n a b -> agg_evolves m b c -> agg_evolves (n + m) a c.
Proof.
  intros [A1 A2 A3 (k&Hk&A4) A5] [B1 B2 B3 (l&Hl&B4) B5]. split.
  - by etrans.
  - congruence.
  - by etrans.
  - exists (k + l). split; [lia|]. rewrite B4, Nat2Z.inj_add, Z.add_assoc. by apply u64_add.
  - by etrans.
Qed.

Lemma wf_snapshot_revision sid s r : wf_snapshot sid s -> wf_snapshot sid (with_revision s r).
Proof. intros [[] Hq Hp]. split; [|done|done]. by split. Qed.

(** ** One commit *)
Lemma Commit_inv r fresh ctx st q st' out :
  Commit r fresh ctx st q = (st', out) ->
  st' = st /\ (forall c, out = Ok c -> co_Applied c = false) \/
  exists a s' fp upd,
    let s := with_revision s' (u64 (sn_Revision s' + 1)) in
    let range := appendedHistoryRange (length (sn_History (ag_snapshot a))) (length (sn_History s')) in
    let c := MkCommit (cr_SessionID q) (sn_Revision s) range.1 range.2 true in
    st_sessions st !! cr_SessionID q = Some a /\ CommitRequest_Validate q = Ok tt /\ requestFingerprint q = Some fp /\
    ag_idempotency a !! cr_IdempotencyKey q = None /\ cr_ExpectedRevision q = sn_Revision (ag_snapshot a) /\
    applyChanges (at_fact r) (ag_snapshot a) q = Ok s' /\ out = Ok c /\
    st_sessions st' = <[cr_SessionID q := MkAggregate s (<[cr_IdempotencyKey q := MkMemoryCommit fp c]> (ag_idempotency a)) upd]> (st_sessions st).
Proof.
  intros H. unfold Commit in H. destruct (contextErr ctx "session.commit" ;; _) as [a|e|msg] eqn:E; simplify_eq; [|by left..].
  apply bind_Ok in E as (u1&_&E). apply bind_Ok in E as (u2&Hv&E). apply map_err_Ok in Hv. destruct u2.
  unfold find_aggregate in E. destruct (st_sessions st !! cr_SessionID q) as [a'|] eqn:Ea; [|done]. injection E as ->.
  unfold commit_aggregate in H. destruct (requestFingerprint q) as [fp|] eqn:Ef; cbn [mbind result_bind] in H; [|simplify_eq; by left].
  destruct (ag_idempotency a !! cr_IdempotencyKey q) as [previous|] eqn:Ek.
  - left. destruct (negb _); simpl in H; simplify_eq; [done|]. split; [done|]. by intros c [= <-].
  - destruct (negb (Z.eqb _ _)) eqn:Er; simpl in H; [simplify_eq; by left|]. apply negb_false_iff, Z.eqb_eq in Er.
    destruct (applyChanges _ _ _) as [s'|e|msg] eqn:Es; simpl in H; [|simplify_eq; by left..]. right.
    destruct (appendedHistoryRange _ _) as [first last] eqn:Eh. simpl in H. injection H as <- <-.
    eexists a, s', fp, _. cbn. rewrite Eh. by split_and!.
Qed.

(** ** One step *)
Lemma commit_step r fresh ctx st q :
  wf_store st -> wf_store (Commit r fresh ctx st q).1 /\
  forall id a, st_sessions st !! id = Some a ->
    exists a', st_sessions (Commit r fresh ctx st q).1 !! id = Some a' /\ agg_evolves 1 a a'.
Proof.
  intros Hst. destruct (Commit r fresh ctx st q) as [st' out] eqn:E. simpl.
  apply Commit_inv in E as [[-> _]|(a&s'&fp&upd&Ha&Hv&_&Hk&_&Happ&_&Hs)].
  { split; [done|]. intros id a Ha. exists a. split; [done|apply agg_evolves_refl]. }
  destruct (Hst _ _ Ha) as [Hw Hrec]. destruct (applyChanges_wf _ _ _ _ Hw Happ) as [Hw' (Hh&Hsess&Hrev&_)].
  split.
  - unfold wf_store. rewrite Hs. apply map_Forall_insert_2; [|done]. split; [by apply wf_snapshot_revision|]. simpl.
    intros key m [[<- <-]|[_ Hm]]%lookup_insert_Some; [done|by apply (Hrec key)].
  - intros id b Hb. rewrite Hs. destruct (decide (cr_SessionID q = id)) as [<-|Hne].
    + simplify_eq. eexists. split; [apply lookup_insert_eq|]. split; simpl.
      * destruct Hh as [news ->]. by exists news.
      * by rewrite Hsess.
      * by apply insert_subseteq.
      * exists 1. split; [done|]. rewrite Hrev. unfold u64. rewrite Z.mod_mod by lia. done.
      * by eapply applyChanges_extensions.
    + exists b. split; [by rewrite lookup_insert_ne|apply agg_evolves_refl].
Qed.

Lemma create_step r fresh ctx st n :
  wf_store st -> wf_store (Create r fresh ctx st n).1 /\
  forall id a, st_sessions st !! id = Some a ->
    exists a', st_sessions (Create r fresh ctx st n).1 !! id = Some a' /\ agg_evolves 1 a a'.
Proof.
  intros Hst. assert (Hsame : wf_store st /\ forall id a, st_sessions st !! id = Some a -> exists a', st_sessions st !! id = Some a' /\ agg_evolves 1 a a').
  { split; [done|]. intros id a Ha. exists a. split; [done|apply agg_evolves_refl]. }
  unfold Create. destruct (contextErr ctx "session.create" ;; _) as [history|e|msg] eqn:E; [|done..].
  apply bind_Ok in E as (u1&_&E). apply bind_Ok in E as (u2&Hv&E). destruct u2.
  destruct (present _) eqn:Ep; [done|]. apply present_false in Ep. destruct (recordCreate _ _ _ _) as [index upd]. simpl. split.
  - apply map_Forall_insert_2; [|done]. split; [by eapply initial_wf|]. cbn. intros key m Hm. by apply lookup_empty_Some in Hm.
  - intros id a Ha. exists a. split; [|apply agg_evolves_refl]. rewrite lookup_insert_ne by congruence. done.
Qed.

Lemma recover_step r fresh ctx st id :
  wf_store st -> sane r -> (forall a, st_sessions st !! id = Some a -> enough_room (ag_snapshot a)) ->
  wf_store (Recover r fresh ctx st id).1 /\
  forall id' a, st_sessions st !! id' = Some a ->
    exists a', st_sessions (Recover r fresh ctx st id).1 !! id' = Some a' /\ agg_evolves 1 a a'.
Proof.
  intros Hst Hr Hroom. unfold Recover. destruct (contextErr ctx "session.recover" ;; _) as [a|e|msg] eqn:E.
  2,3: simpl; split; [done|]; intros id' a Ha; exists a; split; [done|apply agg_evolves_refl].
  apply bind_Ok in E as (u1&_&E). apply bind_Ok in E as (u2&_&E). unfold find_aggregate in E.
  destruct (st_sessions st !! id) as [a'|] eqn:Ea; [|done]. injection E as ->. destruct (Hst _ _ Ea) as [Hw Hrec].
  destruct (recoverAggregate_total r id (ag_snapshot a) Hr Hw (Hroom a eq_refl)) as (s'&ch&Heq&Hw'&[_ [news Hh] Hs Hrev _ _]&Hx). rewrite Heq.
  assert (Hev : forall rev upd, u64 rev = u64 (sn_Revision (ag_snapshot a)) \/ u64 rev = u64 (sn_Revision (ag_snapshot a) + 1) ->
    agg_evolves 1 a (MkAggregate (with_revision s' rev) (ag_idempotency a) upd)).
  { intros rev upd Hcase. split; simpl; [by exists news|by rewrite Hs|done| |rewrite Hx; apply recover_extensions_evolves].
    destruct Hcase; [exists 0|exists 1]; (split; [lia|]); [by rewrite Z.add_0_r|done]. }
  assert (Hput : forall rev upd index, u64 rev = u64 (sn_Revision (ag_snapshot a)) \/ u64 rev = u64 (sn_Revision (ag_snapshot a) + 1) ->
    let st' := put st id (MkAggregate (with_revision s' rev) (ag_idempotency a) upd) index in
    wf_store st' /\ forall id' b, st_sessions st !! id' = Some b -> exists b', st_sessions st' !! id' = Some b' /\ agg_evolves 1 b b').
  { intros rev upd index Hcase st'. split.
    - apply map_Forall_insert_2; [|done]. split; [by apply wf_snapshot_revision|done].
    - intros id' b Hb. unfold st'; simpl. destruct (decide (id = id')) as [<-|Hne].
      + simplify_eq. eexists. split; [apply lookup_insert_eq|by apply Hev].
      + exists b. split; [by rewrite lookup_insert_ne|apply agg_evolves_refl]. }
  destruct ch.
  - cbv beta iota zeta. destruct (nextUpdatedAt fresh (at_update r) (st_list st) (ag_updatedAt a)) as [index upd]. simpl. apply Hput. right. rewrite Hrev. unfold u64. by rewrite Z.mod_mod by lia.
  - assert (Hsame : with_revision s' (sn_Revision s') = s').
    { pose proof (wc_revision _ _ (ws_core _ _ Hw')) as Hrev'. clear -Hrev'. destruct s' as [[] ?]; simpl in *. by subst. }
    pose proof (Hput (sn_Revision s') (ag_updatedAt a) (st_list st)) as Hp. rewrite Hsame in Hp. apply Hp. left. by rewrite Hrev.
Qed.

Lemma step_evolves st st' :
  wf_store st -> step st st' -> wf_store st' /\
  forall id a, st_sessions st !! id = Some a -> exists a', st_sessions st' !! id = Some a' /\ agg_evolves 1 a a'.
Proof.
  intros Hst ([r fresh ctx op]&Hadm&<-). unfold invoke, admitted in *. simpl in *. destruct op as [n|q|id|q].
  - by apply create_step.
  - by apply commit_step.
  - destruct Hadm. by apply recover_step.
  - unfold ListSessions. destruct (contextErr _ _ ;; _); simpl; (split; [done|]; intros id b Hb; exists b; split; [done|apply agg_evolves_refl]).
Qed.

Lemma nsteps_evolves n st st' :
  wf_store st -> nsteps step n st st' -> wf_store st' /\
  forall id a, st_sessions st !! id = Some a -> exists a', st_sessions st' !! id = Some a' /\ agg_evolves n a a'.
Proof.
  intros Hst H. revert Hst. induction H as [st|n st st1 st2 H1 H IH]; intros Hst.
  - split; [done|]. intros id a Ha. exists a. split; [done|apply agg_evolves_refl].
  - destruct (step_evolves st st1 Hst H1) as [Hst1 E1]. destruct (IH Hst1) as [Hst2 E2]. split; [done|].
    intros id a Ha. destruct (E1 id a Ha) as (a1&Ha1&Hev1). destruct (E2 id a1 Ha1) as (a2&Ha2&Hev2). exists a2. split; [done|].
    by apply (agg_evolves_trans 1 n a a1 a2).
Qed.

Lemma store_reachable_wf st : reachable st -> wf_store st.
Proof. intros [n H]. by apply (nsteps_evolves n NewMemoryStore st) in H as [? _]; [|apply map_Forall_empty]. Qed.

End StoreFacts.

(** * A concrete store

    Instances of the interfaces of the Session component and the history of
    one session: it is created idle; a first commit starts a run, opens a tool
    call and a model attempt and prepares an extension; a second commit makes
    the extension pending. *)

(** ** Instances *)
#[export] Program Instance plainJson : JsonOps := {|
  json_Valid raw := nonempty raw;
  jsonvalue_Valid raw := nonempty raw;
  jsonvalue_Equal a b := String.eqb a b;
|}.
Next Obligation. intros raw _. apply String.eqb_refl. Qed.
Next Obligation. intros a b ->%String.eqb_eq. apply String.eqb_refl. Qed.
Next Obligation. intros a b c ->%String.eqb_eq H. exact H. Qed.

#[export] Instance plainFingerprints : Fingerprints := {| FingerprintTypedInput _ := Some (MkFingerprint "" 1) |}.
(** Distinct requests of the example use distinct keys. *)
#[export] Instance plainRequestFingerprint : RequestFingerprint := {| requestFingerprint q := Some (cr_IdempotencyKey q) |}.

(** Cursors as the bits of their [Countable] code. *)
Fixpoint bits (p : positive) : string :=
  match p with xH => "" | xO p => String "0"%char (bits p) | xI p => String "1"%char (bits p) end.
Fixpoint of_bits (s : string) : positive :=
  match s with EmptyString => xH | String c s => if Ascii.eqb c "0"%char then xO (of_bits s) else xI (of_bits s) end.
Lemma of_bits_bits p : of_bits (bits p) = p.
Proof. induction p as [p IH|p IH|]; [by simpl; rewrite IH..|done]. Qed.

Definition cursor_fields : Type := (Z * string * string * string * Z * Z * string)%type.
Definition plain_sign (c : sessionListCursor) : string :=
  String "c"%char (bits (encode (A := cursor_fields)
    (cu_Version c, cu_Epoch c, cu_AgentID c, cu_WorkspaceID c, cu_CreationCutoff c, cu_UpdatedAt c, cu_SessionID c))).
Definition plain_verify (encoded : string) : option sessionListCursor :=
  match encoded with
  | String _ rest =>
    match decode (A := cursor_fields) (of_bits rest) with
    | Some (v, e, a, w, n, t, s) => Some (MkCursor v e a w n t s)
    | None => None
    end
  | EmptyString => None
  end.
#[export] Program Instance plainCodec : CursorCodec := {|
  sign_cursor key c := Some (plain_sign c);
  verify_cursor key encoded := plain_verify encoded;
|}.
Next Obligation. intros key [] encoded [= <-]. unfold plain_sign, plain_verify. by rewrite of_bits_bits, decode_encode. Qed.
Next Obligation. by intros key c encoded [= <-]. Qed.

Definition plainReadings : Readings :=
  MkReadings (fun n => Z.of_nat n + 1)%Z (fun n => Z.of_nat n + 1)%Z 5 map_to_list.
Definition plainIdentity : Identity := MkIdentity "key" "epoch".

Lemma plainReadings_sane : sane plainReadings.
Proof. split; simpl; [lia|lia|done]. Qed.

(** ** Values *)
Definition config0 : Config := MkConfig "provider" "model" ReasoningDefault (MkParameters None None).
Definition no_view : ContextView := MkContextView 0 0 0 0 (MkModelRequest "" "" "" config0 0 [] []).
Definition new0 : NewSession := MkNewSession (MkSession "s" "a" "w" "" 0 0) [] no_view [] [] config0 RunIdle "" None.
Definition message0 : Message := MkMessage "m1" "" "s" "r1" "p1" RoleAssistant [] None 1.
Definition call0 : ToolCall := MkToolCall "c1" "" "m1" "s" "r1" "p1" "tool" "{}".
Definition run0 : RunFact := MkRunFact "s" "r1" RunStarted config0 1 "" None.
Definition attempt0 : ModelAttemptFact := MkModelAttemptFact "t1" "r1" "p1" AttemptStarted "provider" "model" "" no_usage "" "".
Definition digest0 : string := "sha256:0123456789abcdef0123456789abcdef0123456789abcdef0123456789abcdef".
Definition item0 : QueueItem := MkQueueItem (MkMessage "q1" "" "s" "" "" RoleUser [MkMessagePart PartText "hi" "" "" ""] None 1) DeliverySteer "".
Definition extension0 (status : InvocationStatus) (pending : Z) : ExtensionJournalEntry :=
  MkExtensionJournalEntry "i1" 1 (MkExtensionDescriptor "key" digest0) BoundaryToolPreflight "s" "r1" "p1" "" "" "c1" "" 0
    (PhaseOther "") (OpenOther "") digest0 1 1 pending 0 status None "" "" EffectNone ContextNone [] "" 0.

Definition no_change (k : ChangeKind) : Change :=
  MkChange k None None None None None None None None None None None None None None None None false None None None None.
Definition change_Message m := MkChange AppendMessage (Some m) None None None None None None None None None None None None None None None false None None None None.
Definition change_ToolCall c := MkChange AppendToolCall None (Some c) None None None None None None None None None None None None None None false None None None None.
Definition change_RunFact f := MkChange AppendRunFact None None None (Some f) None None None None None None None None None None None None false None None None None.
Definition change_ModelAttempt f := MkChange AppendModelAttempt None None None None (Some f) None None None None None None None None None None None false None None None None.
Definition change_Enqueue i := MkChange EnqueueMessage None None None None None None None None None (Some i) None None None None None None false None None None None.
Definition change_RunState s := MkChange SetRunState None None None None None None None None None None None None None None None None false None (Some s) None None.
Definition change_Journal e := MkChange UpdateRunJournal None None None None None None None None None None None None None None None None false None None (Some e) None.
Definition change_Extension e := MkChange UpdateExtensionJournal None None None None None None None None None None None None None None None None false None None None (Some e).

Definition request1 : CommitRequest := MkCommitRequest "s" 1 "k1" (MkActorIdentity ActorLocalUser "u")
  [change_RunState (MkRunStateChange "r1" RunRunning); change_RunFact run0; change_ModelAttempt attempt0; change_Message message0;
   change_ToolCall call0; change_Journal (MkJournalEntry "r1" "p1" (Some call0) None JournalPending);
   change_Enqueue item0; change_Extension (extension0 InvocationPrepared 0)].
Definition request2 : CommitRequest := MkCommitRequest "s" 2 "k2" no_actor [change_Extension (extension0 InvocationPending 2)].

(** ** Runs *)
Definition call_of (op : operation) : call := MkCall plainReadings plainIdentity Live op.
Definition store1 : MemoryStore := invoke (call_of (OpCreate new0)) NewMemoryStore.
Definition store2 : MemoryStore := invoke (call_of (OpCommit request1)) store1.
Definition store3 : MemoryStore := invoke (call_of (OpCommit request2)) store2.
Definition store4 : MemoryStore := invoke (call_of (OpRecover "s")) store3.

Definition applied (r : result Commit_) : bool := match r with Ok c => co_Applied c | _ => false end.
Example store2_applied : applied (Commit plainReadings plainIdentity Live store1 request1).2 = true.
Proof. vm_compute. reflexivity. Qed.
Example store3_applied : applied (Commit plainReadings plainIdentity Live store2 request2).2 = true.
Proof. vm_compute. reflexivity. Qed.
