(* ===== verification/SessionSafety.v ===== *)
(** * The validation and application of a commit never panics

    The code dereferences optional payloads and indexes slices; every such
    access is guarded by a check made earlier.  The same argument shows that
    the fuel of [ValidateInputs] is enough. *)

From S2P Require Import Prelude GoStrings AgentTypes ModelContracts SessionTypes ExtensionJournal.
From S2P Require Import SessionValidate SessionHistory SessionApply SessionRecover TextFacts SessionHistoryFacts SessionInvariant SessionCommitFacts.

(** The call returns, with a value or an error. *)
Definition returns {A} (r : result A) : Prop := forall msg, r ≠ Panic msg.

Lemma returns_Ok {A} (a : A) : returns (Ok a).
Proof. done. Qed.
Lemma returns_Err {A} e : returns (A := A) (Err e).
Proof. done. Qed.
Lemma returns_bind {A B} (m : result A) (f : A -> result B) : returns m -> (forall a, m = Ok a -> returns (f a)) -> returns (m ≫= f).
Proof. intros Hm Hf msg. destruct m as [a|e|msg']; simpl; [by apply Hf|done|]. by destruct (Hm msg'). Qed.
Lemma returns_reject bad e : returns (reject_if bad e).
Proof. by destruct bad. Qed.
Lemma returns_map_err {A} w (r : result A) : returns r -> returns (map_err w r).
Proof. intros H msg. destruct r as [a|e|msg']; simpl; [done|done|]. by destruct (H msg'). Qed.
Lemma returns_forM {A} (f : A -> result unit) l : (forall a, a ∈ l -> returns (f a)) -> returns (forM_ f l).
Proof.
  induction l as [|a l IH]; [done|]; simpl. intros H. apply returns_bind; [apply H; left|]. intros _ _. apply IH. intros b Hb. apply H. by right.
Qed.
Lemma returns_foldM {S A} (f : S -> A -> result S) l s : (forall a t, a ∈ l -> returns (f t a)) -> returns (foldM f l s).
Proof.
  revert s; induction l as [|a l IH]; intros s H; [done|]; simpl. apply returns_bind; [apply H; left|]. intros t _. apply IH. intros b u Hb.
  apply H. by right.
Qed.

Create HintDb returns.
#[export] Hint Resolve returns_Ok returns_Err returns_reject : returns.

(** Follow the structure of a computation without partial operations. *)
Ltac returns :=
  repeat match goal with
  | |- returns (_ ≫= _) => apply returns_bind; [|intros ? ?]
  | |- returns (map_err _ _) => apply returns_map_err
  | |- returns (forM_ _ _) => apply returns_forM; intros ? ?
  | |- returns (match ?x with _ => _ end) => destruct x
  | |- returns (let _ := _ in _) => cbv zeta
  | _ => solve [auto with returns]
  end.

Section Validation.
Context {J : JsonOps} {F : Fingerprints}.

Lemma Config_Validate_returns c : returns (Config_Validate c).
Proof. unfold Config_Validate. returns. Qed.
Lemma TokenUsage_Validate_returns u : returns (TokenUsage_Validate u).
Proof. unfold TokenUsage_Validate. returns. Qed.
Lemma ValidateErrorMessage_returns m : returns (ValidateErrorMessage m).
Proof. unfold ValidateErrorMessage. returns. Qed.
Lemma ValidateSafeReason_returns m : returns (ValidateSafeReason m).
Proof. unfold ValidateSafeReason. returns. Qed.
Lemma RunTermination_Validate_returns t : returns (RunTermination_Validate t).
Proof. unfold RunTermination_Validate. returns. Qed.
Lemma ToolDefinition_Validate_returns d : returns (ToolDefinition_Validate d).
Proof. unfold ToolDefinition_Validate. returns. Qed.
Lemma ExtensionDescriptor_Validate_returns d : returns (ExtensionDescriptor_Validate d).
Proof. unfold ExtensionDescriptor_Validate. returns. Qed.
Lemma Metadata_Validate_returns m : returns (Metadata_Validate m).
Proof. unfold Metadata_Validate. returns. Qed.
Hint Resolve Config_Validate_returns TokenUsage_Validate_returns ValidateErrorMessage_returns ValidateSafeReason_returns
  RunTermination_Validate_returns ToolDefinition_Validate_returns ExtensionDescriptor_Validate_returns Metadata_Validate_returns : returns.

Lemma validate_artifacts_returns seen l : returns (validate_artifacts seen l).
Proof. revert seen; induction l; intros seen; simpl; returns. Qed.
Hint Resolve validate_artifacts_returns : returns.
Lemma ToolResult_Validate_returns r : returns (ToolResult_Validate r).
Proof. unfold ToolResult_Validate. returns. Qed.
Lemma RunFact_Validate_returns f sid : returns (RunFact_Validate f sid).
Proof. unfold RunFact_Validate. returns. Qed.
Lemma ModelAttemptFact_Validate_returns f : returns (ModelAttemptFact_Validate f).
Proof. unfold ModelAttemptFact_Validate. returns. Qed.
Lemma RunBudgetExceededFact_Validate_returns f : returns (RunBudgetExceededFact_Validate f).
Proof. unfold RunBudgetExceededFact_Validate. returns. Qed.
Lemma RunLimitExceededFact_Validate_returns f : returns (RunLimitExceededFact_Validate f).
Proof. unfold RunLimitExceededFact_Validate. returns. Qed.
Lemma SessionEvent_Validate_returns e : returns (SessionEvent_Validate e).
Proof. unfold SessionEvent_Validate. returns. Qed.
Lemma ContextContributionFact_Validate_returns f sid : returns (ContextContributionFact_Validate f sid).
Proof. unfold ContextContributionFact_Validate. returns. Qed.
Hint Resolve ToolResult_Validate_returns RunFact_Validate_returns ModelAttemptFact_Validate_returns RunBudgetExceededFact_Validate_returns
  RunLimitExceededFact_Validate_returns SessionEvent_Validate_returns ContextContributionFact_Validate_returns : returns.

(** ** The input protocol *)
Lemma take_calls_returns m calls all inputs : returns (take_calls m calls all inputs).
Proof. revert calls all; induction inputs; intros; simpl; returns. Qed.
Lemma take_results_returns calls results inputs : returns (take_results calls results inputs).
Proof. revert results; induction inputs; intros; simpl; returns. Qed.
Hint Resolve take_calls_returns take_results_returns : returns.

Lemma take_calls_length m calls all inputs c a rest : take_calls m calls all inputs = Ok (c, a, rest) -> length rest <= length inputs.
Proof.
  revert calls all; induction inputs as [|i inputs IH]; intros calls all; simpl; [by intros [= _ _ <-]|].
  destruct (in_ToolCall i); [|by intros [= _ _ <-]]. intros H. apply bind_Ok in H as (?&_&H). apply IH in H. lia.
Qed.
Lemma take_results_length calls results inputs r rest : take_results calls results inputs = Ok (r, rest) -> length rest <= length inputs.
Proof.
  revert results; induction inputs as [|i inputs IH]; intros results; simpl; [by intros [= _ <-]|].
  destruct (in_ToolResult i); [|by intros [= _ <-]]. intros H. apply bind_Ok in H as (?&_&H). apply IH in H. lia.
Qed.

Lemma validate_exchanges_returns fuel messages all inputs : length inputs <= fuel -> returns (validate_exchanges fuel messages all inputs).
Proof.
  revert messages all inputs; induction fuel as [|fuel IH]; intros messages all [|input rest] Hlen; simpl in *; try (by apply returns_Ok); [lia|].
  apply returns_bind; [auto with returns|intros ? _]. apply returns_bind; [auto with returns|intros ? _].
  destruct (in_Message input); [|auto with returns]. apply returns_bind; [auto with returns|intros ? _].
  destruct (_ || _); [apply IH; lia|]. apply returns_bind; [auto with returns|]. intros [[calls all'] rest1] H1%take_calls_length.
  apply returns_bind; [auto with returns|]. intros [results rest2] H2%take_results_length. apply returns_bind; [auto with returns|intros ? _].
  apply IH. lia.
Qed.

Lemma ValidateInputs_returns inputs : returns (ValidateInputs inputs).
Proof.
  unfold ValidateInputs. destruct inputs as [|i rest]; [done|]. destruct (present _); [|by apply validate_exchanges_returns].
  apply returns_bind; [auto with returns|]. intros ? _. by apply validate_exchanges_returns.
Qed.
Hint Resolve ValidateInputs_returns : returns.

(** ** Facts, entries and changes *)
Lemma validateExtensionContextInputs_returns inputs sid : returns (validateExtensionContextInputs inputs sid).
Proof. unfold validateExtensionContextInputs. returns. Qed.
Hint Resolve validateExtensionContextInputs_returns : returns.
Lemma validateSubject_returns e : returns (validateSubject e).
Proof. unfold validateSubject. returns. Qed.
Lemma validateBoundaryResult_returns e d : returns (validateBoundaryResult e d).
Proof. unfold validateBoundaryResult. returns. Qed.
Hint Resolve validateSubject_returns validateBoundaryResult_returns : returns.
Lemma validateStatusShape_returns e : returns (validateStatusShape e).
Proof. unfold validateStatusShape, InvocationResult_Validate. returns. Qed.
Lemma ext_validateContext_returns e sid : returns (ext_validateContext e sid).
Proof. unfold ext_validateContext. returns. Qed.
Hint Resolve validateStatusShape_returns ext_validateContext_returns : returns.
Lemma ext_Validate_returns e sid : returns (ext_Validate e sid).
Proof. unfold ext_Validate. returns. Qed.
Lemma JournalEntry_Validate_returns e sid : returns (JournalEntry_Validate e sid).
Proof. unfold JournalEntry_Validate. returns. Qed.
Lemma validatePayload_returns f sid : returns (validatePayload f sid).
Proof. unfold validatePayload. apply returns_bind; [auto with returns|intros ? _]. returns. Qed.
Hint Resolve ext_Validate_returns JournalEntry_Validate_returns validatePayload_returns : returns.
Lemma HistoryFact_Validate_returns f sid : returns (HistoryFact_Validate f sid).
Proof. unfold HistoryFact_Validate. returns. Qed.
Hint Resolve HistoryFact_Validate_returns : returns.

Lemma required_returns {A} (p : option A) missing (validate : A -> result unit) :
  (forall a, returns (validate a)) -> returns (required p missing validate).
Proof. intros H. unfold required. destruct p; [done|auto with returns]. Qed.

Lemma Change_Validate_returns c sid : returns (Change_Validate c sid).
Proof.
  unfold Change_Validate. do 2 (apply returns_bind; [auto with returns|intros ? _]).
  destruct (ch_Kind c); cbv zeta; try apply returns_Err; apply required_returns; intros ?; returns.
Qed.
Hint Resolve Change_Validate_returns : returns.
Lemma CommitRequest_Validate_returns q : returns (CommitRequest_Validate q).
Proof. unfold CommitRequest_Validate. returns. Qed.

End Validation.

#[export] Hint Resolve Config_Validate_returns HistoryFact_Validate_returns validatePayload_returns JournalEntry_Validate_returns
  ext_Validate_returns RunBudgetExceededFact_Validate_returns RunLimitExceededFact_Validate_returns ValidateInputs_returns
  ToolDefinition_Validate_returns Change_Validate_returns CommitRequest_Validate_returns : returns.

(** ** Applying a validated change set *)
Section Application.
Context {J : JsonOps} {F : Fingerprints}.

Lemma returns_deref {A} (p : option A) : is_Some p -> returns (deref p).
Proof. by intros [a ->]. Qed.

(** The payloads that a valid change carries. *)
Lemma Change_Validate_payload c sid :
  Change_Validate c sid = Ok tt ->
  match ch_Kind c with
  | AppendMessage => is_Some (ch_Message c)
  | AppendToolCall => is_Some (ch_ToolCall c)
  | AppendToolResult => is_Some (ch_ToolResult c)
  | AppendRunFact => is_Some (ch_RunFact c)
  | AppendModelAttempt => is_Some (ch_ModelAttempt c)
  | AppendContextContribution => is_Some (ch_ContextContribution c)
  | AppendRunBudgetExceeded => is_Some (ch_RunBudgetExceeded c)
  | AppendRunLimitExceeded => is_Some (ch_RunLimitExceeded c)
  | AppendSessionEvent => exists ev, ch_SessionEvent c = Some ev /\ is_Some (ev_ModelConfigChanged ev)
  | EnqueueMessage => is_Some (ch_QueueItem c)
  | ClaimQueue => is_Some (ch_QueueClaim c)
  | ConsumeQueue => is_Some (ch_QueueConsume c)
  | EditQueue => is_Some (ch_QueueEdit c)
  | DeleteQueue => is_Some (ch_QueueDelete c)
  | ReclassifyQueue => is_Some (ch_QueueReclassification c)
  | SetContext => is_Some (ch_Context c)
  | SetModelConfig => is_Some (ch_ModelConfig c)
  | SetRunState => is_Some (ch_RunState c)
  | UpdateRunJournal => exists e, ch_Journal c = Some e /\ JournalEntry_Validate e sid = Ok tt
  | UpdateExtensionJournal => is_Some (ch_Extension c)
  | ChangeOther _ => False
  end.
Proof.
  unfold Change_Validate. intros H. apply bind_Ok in H as (u1&_&H). apply bind_Ok in H as (u2&_&H).
  destruct (ch_Kind c); unfold required in H; try discriminate H;
    match type of H with match ?p with _ => _ end = _ => destruct p eqn:?; [|discriminate H] end; try (by eexists); try (by eauto).
  eexists. split; [done|]. cbv zeta in H. apply bind_Ok in H as (u&_&H). unfold SessionEvent_Validate in H.
  destruct (ev_Kind _); [|done]. destruct (ev_ModelConfigChanged _); [eauto|done].
Qed.

Lemma append_fact_returns clock s sid source actor : returns (append_fact clock s sid source actor).
Proof. unfold append_fact, appendHistoryFact. cbv zeta. returns. Qed.
Lemma append_or_conflict_returns clock s sid source actor : returns (append_or_conflict clock s sid source actor).
Proof. apply returns_map_err, append_fact_returns. Qed.
Hint Resolve append_fact_returns append_or_conflict_returns returns_deref : returns.

Lemma unclaimed_item_returns q id msg : returns (unclaimed_item q id msg).
Proof.
  unfold unclaimed_item. destruct (queueIndex q id) as [i|] eqn:E; [|auto with returns]. apply queueIndex_Some in E as (item&Hi&_).
  rewrite Hi. simpl. returns.
Qed.
Hint Resolve unclaimed_item_returns : returns.

Lemma applyJournal_returns s e sid : JournalEntry_Validate e sid = Ok tt -> returns (applyJournal s e sid).
Proof.
  intros Hv. destruct (JournalEntry_Validate_call e sid Hv) as (call&Hc&_). unfold applyJournal. rewrite Hv. simpl.
  destruct (journalIndex (sn_RunJournal s) e) as [i|] eqn:E; [|returns]. apply journalIndex_Some in E as (cur&Hi&_).
  rewrite Hi, Hc. simpl. returns.
Qed.

Lemma applyExtensionJournal_returns sid x next : returns (applyExtensionJournal sid x next).
Proof.
  unfold applyExtensionJournal. apply returns_bind; [returns|intros ? _]. cbv zeta. destruct (Z.eqb _ _); [returns|].
  destruct (_ || _) eqn:E; [auto with returns|]. bool_simpl.
  destruct (lookup_lt_is_Some_2 x (Z.to_nat (i64 (i64 (xe_Sequence next) - 1)))) as [cur ->]; [lia|].
  apply returns_bind; [auto with returns|intros ? _]. apply returns_bind; [|intros; auto with returns].
  unfold validateExtensionTransition. cbv zeta. destruct (xe_Status cur); returns.
Qed.

Lemma budget_scan_returns run h : returns (foldM (budget_step run) h 0%Z).
Proof. apply returns_foldM. intros f used _. unfold budget_step. cbv zeta. returns. Qed.
Lemma limit_scan_returns l h : returns (foldM (limit_step l) h (0%Z, 0%Z)).
Proof. apply returns_foldM. intros f used _. unfold limit_step. cbv zeta. returns. Qed.
Lemma validateContext_returns v sid : returns (validateContext v sid).
Proof. unfold validateContext. cbv zeta. returns. Qed.
Hint Resolve budget_scan_returns limit_scan_returns validateContext_returns : returns.

Lemma apply_change_returns clock request s c :
  Change_Validate c (cr_SessionID request) = Ok tt -> returns (apply_change clock request s c).
Proof.
  intros Hv%Change_Validate_payload. unfold apply_change. cbv zeta.
  destruct (ch_Kind c); try done; try (apply returns_bind; [by apply returns_deref|intros p Hp; apply deref_Ok in Hp]).
  - returns.
  - unfold apply_AppendToolCall. returns.
  - returns.
  - unfold appendRunFact. returns.
  - unfold appendModelAttemptFact. cbv zeta. returns.
  - unfold appendContextContributionFact. returns.
  - unfold appendRunBudgetExceededFact. returns.
  - unfold appendRunLimitExceededFact. cbv zeta. returns.
  - destruct Hv as (ev&Hev&Hm). rewrite Hev. simpl. returns.
  - returns.
  - returns.
  - destruct (queueIndex _ _) as [i|] eqn:E; [|auto with returns]. apply queueIndex_Some in E as (item&Hi&_). rewrite Hi. simpl. returns.
  - returns.
  - returns.
  - returns.
  - unfold apply_SetContext, validateContextRun. cbv zeta. returns.
  - returns.
  - unfold applyRunState. returns.
  - destruct Hv as (e&He&Hv). rewrite He. simpl. by apply applyJournal_returns.
  - apply returns_bind; [apply applyExtensionJournal_returns|auto with returns].
Qed.
(** The entries collected from validated changes are valid. *)
Definition valid_entries (sid : string) (m : gmap string JournalEntry) : Prop := map_Forall (fun _ e => JournalEntry_Validate e sid = Ok tt) m.
Record collected_entries (sid : string) (t : tool_changes) : Prop := {
  ce_prepared : valid_entries sid (tc_prepared t);
  ce_pending : valid_entries sid (tc_pending t);
  ce_terminal : map_Forall (fun _ e => JournalEntry_Validate e sid = Ok tt /\ is_Some (je_ToolResult e)) (tc_terminal t);
}.

Lemma JournalEntry_Validate_result e sid :
  JournalEntry_Validate e sid = Ok tt -> je_Status e ≠ JournalPrepared -> je_Status e ≠ JournalPending -> is_Some (je_ToolResult e).
Proof.
  intros (call&_&_&_&Ht)%JournalEntry_Validate_call H1 H2. destruct Ht as (r&Hr&_); [|by eexists].
  unfold terminal_entry. by destruct (je_Status e).
Qed.

Lemma collect_step_returns sid t c : Change_Validate c sid = Ok tt -> returns (collect_tool_change t c).
Proof.
  intros Hv%Change_Validate_payload. unfold collect_tool_change. destruct (ch_Kind c); try done; try (returns; done).
  destruct Hv as (e&->&(call&Hc&_)%JournalEntry_Validate_call). simpl. rewrite Hc. simpl. destruct (je_Status e); auto with returns.
Qed.

Lemma collect_step_valid sid t c t' :
  Change_Validate c sid = Ok tt -> collected_entries sid t -> collect_tool_change t c = Ok t' -> collected_entries sid t'.
Proof.
  intros Hv%Change_Validate_payload [H1 H2 H3] H. unfold collect_tool_change in H. destruct (ch_Kind c) eqn:Ek; inv_ok; try by split.
  match goal with He : ch_Journal c = Some ?x, Hd : deref (ch_Journal c) = Ok _, Hv : JournalEntry_Validate ?x sid = _ |- _ =>
    apply deref_Ok in Hd; rewrite He in Hd; injection Hd as <-; pose proof (JournalEntry_Validate_result x sid Hv) as Hr; rename x into e end.
  destruct (je_Status e) eqn:Es; inv_ok; split; try done; apply map_Forall_insert_2; try done; split; try done; by apply Hr.
Qed.

Lemma check_step_returns sid history t c :
  Change_Validate c sid = Ok tt -> collected_entries sid t -> returns (check_tool_change history t c).
Proof.
  intros Hv%Change_Validate_payload [H1 H2 H3]. unfold check_tool_change. destruct (ch_Kind c); try done.
  - apply returns_bind; [by apply returns_deref|intros call Hcall].
    destruct (match tc_prepared t !! call_ID call with Some e => Some e | None => tc_pending t !! call_ID call end) as [e|] eqn:E; [|auto with returns].
    assert (JournalEntry_Validate e sid = Ok tt) as (call'&->&_)%JournalEntry_Validate_call.
    { destruct (tc_prepared t !! call_ID call) eqn:E1; [simplify_eq; by apply (H1 _ _ E1)|by apply (H2 _ _ E)]. }
    simpl. auto with returns.
  - apply returns_bind; [by apply returns_deref|intros r Hr]. destruct (tc_terminal t !! res_CallID r) as [e|] eqn:E; [|auto with returns].
    destruct (H3 _ _ E) as [_ [r' ->]]. simpl. auto with returns.
  - destruct Hv as (e&->&Hv). pose proof (JournalEntry_Validate_result e sid Hv) as Hr. simpl.
    apply JournalEntry_Validate_call in Hv as (call&->&_). simpl. destruct (_ || _) eqn:E1; [returns|].
    destruct (negb _) eqn:E2; [|auto with returns]. bool_simpl. destruct (tc_results t !! call_ID call); [|auto with returns].
    destruct (findToolCall _ _); [|auto with returns]. apply returns_bind; [auto with returns|intros ? _].
    apply returns_bind; [by apply returns_deref, Hr|auto with returns].
Qed.

Lemma validateToolTransactions_returns sid history changes :
  (forall c, c ∈ changes -> Change_Validate c sid = Ok tt) -> returns (validateToolTransactions history changes).
Proof.
  intros Hv. unfold validateToolTransactions. apply returns_bind; [apply returns_foldM; intros c t Hc; by eapply collect_step_returns, Hv|].
  intros t Ht. assert (collected_entries sid t) as Hcol.
  { apply (foldM_preserves _ (collected_entries sid)) in Ht; [done| |by split; apply map_Forall_empty].
    intros c t1 t2 Hc H1. apply collect_step_valid; [by apply Hv|done]. }
  apply returns_bind.
  - apply returns_forM. intros c Hc. specialize (Change_Validate_payload c sid (Hv c Hc)) as Hp. unfold check_empty_message.
    destruct (ch_Kind c); auto with returns. apply returns_bind; [auto with returns|intros m _]. returns.
  - intros ? _. apply returns_forM. intros c Hc. by eapply check_step_returns; [apply Hv|].
Qed.

Lemma validateModelConfigTransaction_returns sid current changes :
  (forall c, c ∈ changes -> Change_Validate c sid = Ok tt) -> returns (validateModelConfigTransaction current changes).
Proof.
  intros Hv. unfold validateModelConfigTransaction. apply returns_bind.
  - apply returns_foldM. intros c t Hc. specialize (Change_Validate_payload c sid (Hv c Hc)) as Hp. unfold collect_config_change.
    destruct (ch_Kind c); auto with returns; [|by returns]. destruct Hp as (ev&->&_). simpl. returns.
  - intros [selected event] _. cbv zeta. returns.
Qed.

(** [applyChanges] returns on every snapshot and request. *)
Lemma applyChanges_returns clock s request : returns (applyChanges clock s request).
Proof.
  unfold applyChanges. cbv zeta. apply returns_bind; [returns|]. intros ? Hv. rewrite forM__Ok in Hv.
  assert (forall c, c ∈ cr_Changes request -> Change_Validate c (cr_SessionID request) = Ok tt) as Hc.
  { intros c Hin. specialize (Hv c Hin). by apply map_err_Ok in Hv. }
  apply returns_bind; [by eapply validateToolTransactions_returns|intros ? _].
  apply returns_bind; [by eapply validateModelConfigTransaction_returns|intros ? _].
  apply returns_bind; [apply returns_foldM; intros c t Hin; by apply apply_change_returns, Hc|intros s' _].
  apply returns_bind; [auto with returns|intros ? _]. apply returns_bind; [unfold validateQueueClaims; auto with returns|auto with returns].
Qed.

End Application.
