(* ===== verification/SessionProperties.v ===== *)
(** * What the store promises its clients

    The invariant of every reachable store, atomic commits with optimistic
    concurrency and idempotent replay, an append-only history, extension
    records that only advance, and recovery that succeeds and is idempotent. *)

From stdpp Require Import sorting.
From stdpp Require Import relations.
From S2P Require Import Prelude GoStrings AgentTypes ModelContracts SessionTypes ExtensionJournal.
From S2P Require Import SessionValidate SessionHistory SessionApply SessionRecover SessionCreate SessionStore TextFacts SessionHistoryFacts SessionCreateFacts.
From S2P Require Import SessionInvariant SessionCommitFacts SessionRecoverFacts SessionStoreFacts SessionSafety.

Lemma reachable_call c st : reachable st -> admitted c st -> reachable (invoke c st).
Proof. intros [n H] Ha. exists (n + 1). eapply nsteps_trans; [exact H|]. eapply nsteps_l; [by exists c|constructor]. Qed.

Section Promises.
Context {J : JsonOps} {F : Fingerprints} {R : RequestFingerprint} {K : CursorCodec}.

Lemma Commit_returns r fresh ctx st q : returns (Commit r fresh ctx st q).2.
Proof.
  unfold Commit. destruct (contextErr ctx "session.commit" ;; _) as [a|e|msg] eqn:E; [|done|].
  - clear E. unfold commit_aggregate. destruct (requestFingerprint q); [|done]. cbn [mbind result_bind].
    destruct (_ !! _); [by destruct (negb _)|]. destruct (negb _); [done|]. simpl.
    pose proof (applyChanges_returns (at_fact r) (ag_snapshot a) q) as Hr. destruct (applyChanges _ _ _) as [s'|e|msg]; [|done|by destruct (Hr msg)].
    simpl. by destruct (appendedHistoryRange _ _).
  - enough (returns (contextErr ctx "session.commit" ;; map_err (fun e => invalid "session.commit" (error_text e)) (CommitRequest_Validate q) ;;
      find_aggregate st "session.commit" (cr_SessionID q))) as Hr by (by destruct (Hr msg)). clear E.
    apply returns_bind; [by destruct ctx|intros ? _]. apply returns_bind; [apply returns_map_err; auto with returns|intros ? _].
    unfold find_aggregate. by destruct (st_sessions st !! _).
Qed.

(** What an applied commit did to the aggregate [a]. *)
Record commit_effect (st st' : MemoryStore) (q : CommitRequest) (c : Commit_) (a a' : memoryAggregate) : Prop := {
  cm_before : st_sessions st !! cr_SessionID q = Some a;
  cm_after : st_sessions st' = <[cr_SessionID q := a']> (st_sessions st);
  cm_expected : cr_ExpectedRevision q = sn_Revision (ag_snapshot a);
  cm_session : co_SessionID c = cr_SessionID q;
  cm_revision : co_Revision c = u64 (sn_Revision (ag_snapshot a) + 1) /\ sn_Revision (ag_snapshot a') = co_Revision c;
  cm_history : exists news, sn_History (ag_snapshot a') = sn_History (ag_snapshot a) ++ news /\
    (co_FirstHistorySequence c, co_LastHistorySequence c) =
      match news with
      | [] => (0, 0)%Z
      | _ => (u64 (Z.of_nat (length (sn_History (ag_snapshot a))) + 1), u64 (Z.of_nat (length (sn_History (ag_snapshot a')))))
      end;
  cm_wf : wf_snapshot (cr_SessionID q) (ag_snapshot a');
  cm_key : ag_idempotency a !! cr_IdempotencyKey q = None /\
    exists fp, requestFingerprint q = Some fp /\ ag_idempotency a' = <[cr_IdempotencyKey q := MkMemoryCommit fp c]> (ag_idempotency a);
}.

Lemma appendedHistoryRange_app (h news : list HistoryFact) :
  appendedHistoryRange (length h) (length (h ++ news)) =
    match news with [] => (0, 0)%Z | _ => (u64 (Z.of_nat (length h) + 1), u64 (Z.of_nat (length (h ++ news)))) end.
Proof.
  unfold appendedHistoryRange. rewrite length_app. destruct news as [|f news]; simpl.
  - by rewrite Nat.add_0_r, Nat.leb_refl.
  - destruct (Nat.leb_spec (length h + S (length news)) (length h)); [lia|done].
Qed.

Lemma Commit_effect r fresh ctx st q st' c :
  wf_store st -> Commit r fresh ctx st q = (st', Ok c) -> co_Applied c = true -> exists a a', commit_effect st st' q c a a'.
Proof.
  intros Hst H Happ. apply Commit_inv in H as [[_ H]|(a&s'&fp&upd&Ha&_&Hfp&Hk&He&Hc&Hout&Hs)]; [rewrite H in Happ; done|].
  destruct (Hst _ _ Ha) as [Hw _]. destruct (applyChanges_wf _ _ _ _ Hw Hc) as [Hw' ([news Hh]&_&Hrev&_)].
  injection Hout as ->. exists a. eexists. split; try done; simpl.
  - by rewrite Hrev.
  - exists news. split; [done|]. rewrite Hh, appendedHistoryRange_app. by destruct news.
  - by apply wf_snapshot_revision.
  - split; [done|]. by exists fp.
Qed.

(** C9. Every aggregate of a reachable store satisfies the invariant: its
    history is well formed (each fact carries its store-assigned envelope, has
    one valid payload and was admissible after its predecessors), its queue has
    valid, distinct messages claimed only by the active run, its run journal
    and extension journal are valid with unique keys, its context and model
    configuration are valid, and a finished journal entry has its result in the
    history. *)
Theorem store_invariant st :
  reachable st -> forall id a, st_sessions st !! id = Some a -> wf_snapshot id (ag_snapshot a).
Proof. intros Hr id a Ha. by destruct (store_reachable_wf st Hr id a Ha). Qed.

(** C10. A commit is atomic and never panics: it reports an error or a replay
    and leaves the store as it was, or it is applied to the aggregate it names
    and to nothing else, at exactly the expected revision, appending to the
    history precisely the facts whose sequence range it reports. *)
Theorem Commit_atomic r fresh ctx st q st' out :
  reachable st -> Commit r fresh ctx st q = (st', out) ->
  match out with
  | Panic _ => False
  | Err _ => st' = st
  | Ok c => if co_Applied c then exists a a', commit_effect st st' q c a a' else st' = st
  end.
Proof.
  intros Hst%store_reachable_wf H. pose proof (Commit_returns r fresh ctx st q) as Hr. rewrite H in Hr.
  destruct out as [c|e|msg]; [|by apply Commit_inv in H as [[-> _]|(?&?&?&?&?&?&?&?&?&?&[=]&_)]|by destruct (Hr msg)].
  destruct (co_Applied c) eqn:Ec; [by eapply Commit_effect|].
  apply Commit_inv in H as [[-> _]|(?&?&?&?&?&?&?&?&?&?&[= Hc]&_)]; [done|]. by rewrite Hc in Ec.
Qed.

(** Optimistic concurrency: after one commit was applied at a revision, no
    other commit that expects the same revision of that session is applied,
    whatever happened in between (fewer than 2^64 operations). *)
Theorem commit_compare_and_swap r1 fresh1 ctx1 st q1 st1 c1 n st2 r2 fresh2 ctx2 q2 st3 out :
  reachable st -> Commit r1 fresh1 ctx1 st q1 = (st1, Ok c1) -> co_Applied c1 = true ->
  nsteps step n st1 st2 -> (Z.of_nat n < 2 ^ 64 - 1)%Z ->
  cr_SessionID q2 = cr_SessionID q1 -> cr_ExpectedRevision q2 = cr_ExpectedRevision q1 ->
  Commit r2 fresh2 ctx2 st2 q2 = (st3, out) ->
  st3 = st2 /\ (forall c, out = Ok c -> co_Applied c = false).
Proof.
  intros Hst%store_reachable_wf H1 Ha Hn Hlt Hid Hexp H2. pose proof (commit_step r1 fresh1 ctx1 st q1 Hst) as [Hst1 _]. rewrite H1 in Hst1.
  destruct (Commit_effect _ _ _ _ _ _ _ Hst H1 Ha) as (a&a1&[_ Hs1 He1 _ [Hr1 Hr1'] _ _ _]).
  destruct (nsteps_evolves n st1 st2 Hst1 Hn) as [_ Hev]. destruct (Hev (cr_SessionID q1) a1) as (a2&Ha2&[_ _ _ (k&Hk&Hrev) _]).
  { by rewrite Hs1, lookup_insert_eq. }
  apply Commit_inv in H2 as [?|(b&s'&fp&upd&Hb&_&_&_&He2&_)]; [done|]. exfalso. rewrite Hid in Hb. simplify_eq.
  rewrite Hr1', Hr1 in Hrev. rewrite Hexp, He1 in He2. rewrite <-He2 in Hrev. clear -Hrev Hk Hlt. unfold u64 in Hrev.
  rewrite Zplus_mod_idemp_l in Hrev. set (e := sn_Revision (ag_snapshot a)) in *. set (m := (2 ^ 64)%Z) in *.
  assert (Hm : m = 18446744073709551616%Z) by reflexivity.
  pose proof (Z.div_mod e m) as D1. pose proof (Z.div_mod (e + 1 + Z.of_nat k) m) as D2.
  pose proof (Z.mod_pos_bound e m). pose proof (Z.mod_pos_bound (e + 1 + Z.of_nat k) m). rewrite <-Hrev in D2.
  assert (0 < (e + 1 + Z.of_nat k) / m - e / m < 1)%Z by nia. lia.
Qed.

(** C12. Idempotent replay: the request of an applied commit can be sent again
    after any later operations; the store answers with the same commit, not
    applied, and does not change. *)
Theorem commit_replay r fresh ctx st q st1 c n st2 r' fresh' :
  reachable st -> Commit r fresh ctx st q = (st1, Ok c) -> co_Applied c = true -> nsteps step n st1 st2 ->
  Commit r' fresh' Live st2 q =
    (st2, Ok (MkCommit (co_SessionID c) (co_Revision c) (co_FirstHistorySequence c) (co_LastHistorySequence c) false)).
Proof.
  intros Hst%store_reachable_wf H Ha Hn. pose proof (commit_step r fresh ctx st q Hst) as [Hst1 _]. rewrite H in Hst1.
  assert (Hv : CommitRequest_Validate q = Ok tt).
  { apply Commit_inv in H as [[_ Hx]|(?&?&?&?&_&Hv&_)]; [rewrite Hx in Ha; done|exact Hv]. }
  destruct (Commit_effect _ _ _ _ _ _ _ Hst H Ha) as (a&a1&[_ Hs1 _ _ _ _ _ [_ (fp&Hfp&Hrec)]]).
  destruct (nsteps_evolves n st1 st2 Hst1 Hn) as [_ Hev]. destruct (Hev (cr_SessionID q) a1) as (a2&Ha2&[_ _ Hsub _ _]).
  { by rewrite Hs1, lookup_insert_eq. }
  assert (Hk : ag_idempotency a2 !! cr_IdempotencyKey q = Some (MkMemoryCommit fp c)).
  { eapply lookup_weaken; [|exact Hsub]. by rewrite Hrec, lookup_insert_eq. }
  unfold Commit. cbn [contextErr mbind result_bind]. rewrite Hv. cbn [map_err mbind result_bind]. unfold find_aggregate. rewrite Ha2.
  unfold commit_aggregate. rewrite Hfp. cbn [mbind result_bind]. rewrite Hk. cbn [mc_fingerprint mc_commit]. by rewrite String.eqb_refl.
Qed.

(** C13. The history is append-only: along any operations a session stays in
    the store under its identity, its history only grows at the end, its
    revision advances by at most one per operation, and no idempotency record
    is lost. *)
Theorem history_append_only n st st' id a :
  reachable st -> nsteps step n st st' -> st_sessions st !! id = Some a ->
  exists a', st_sessions st' !! id = Some a' /\
    sn_History (ag_snapshot a) `prefix_of` sn_History (ag_snapshot a') /\
    session_identity (sn_Session (ag_snapshot a')) = session_identity (sn_Session (ag_snapshot a)) /\
    ag_idempotency a ⊆ ag_idempotency a' /\
    exists k, k <= n /\ u64 (sn_Revision (ag_snapshot a')) = u64 (sn_Revision (ag_snapshot a) + Z.of_nat k).
Proof.
  intros Hst%store_reachable_wf Hn Ha. destruct (nsteps_evolves n st st' Hst Hn) as [_ Hev].
  destruct (Hev id a Ha) as (a'&Ha'&[]). by exists a'.
Qed.

(** C14. The extension journal: an entry keeps its place and its identity, its
    status only advances from prepared over pending to a final one, and what a
    finished entry recorded (outcome, applied or discarded effect, consumed or
    discarded context) never changes again. *)
Theorem extension_evolution n st st' id a :
  reachable st -> nsteps step n st st' -> st_sessions st !! id = Some a ->
  exists a', st_sessions st' !! id = Some a' /\
    forall i e, sn_ExtensionJournal (ag_snapshot a) !! i = Some e ->
      exists e', sn_ExtensionJournal (ag_snapshot a') !! i = Some e' /\ entry_evolves e e'.
Proof.
  intros Hst%store_reachable_wf Hn Ha. destruct (nsteps_evolves n st st' Hst Hn) as [_ Hev].
  destruct (Hev id a Ha) as (a'&Ha'&[_ _ _ _ Hx]). by exists a'.
Qed.

(** C15. Recovery succeeds on every reachable session, keeps the invariant and
    the history, touches no other session, and leaves nothing of unknown
    outcome: no pending extension, no open model attempt, no pending tool call,
    and a running run only if it has work to resume.  A second recovery, with
    any readings, changes nothing. *)
Theorem Recover_resolves r fresh st id a :
  reachable st -> sane r -> st_sessions st !! id = Some a -> enough_room (ag_snapshot a) ->
  exists st' s', Recover r fresh Live st id = (st', Ok s') /\ wf_snapshot id s' /\ recovered s' /\
    sn_History (ag_snapshot a) `prefix_of` sn_History s' /\
    (forall id', id' ≠ id -> st_sessions st' !! id' = st_sessions st !! id') /\
    forall r' fresh', (forall m, iterate r' m ≡ₚ map_to_list m) -> Recover r' fresh' Live st' id = (st', Ok s').
Proof.
  intros Hst%store_reachable_wf Hr Ha Hroom. destruct (Hst _ _ Ha) as [Hw _]. pose proof (wc_valid _ _ (ws_core _ _ Hw)) as Hid.
  destruct (recoverAggregate_total r id (ag_snapshot a) Hr Hw Hroom) as (s'&ch&Heq&Hw'&[Hrec [news Hh] _ _ _ Hun]&_).
  assert (Hlive : forall st' b, st_sessions st' !! id = Some b -> (contextErr Live "session.recover" ;;
     reject_if (negb (ID_Valid id)) (invalid "session.recover" (plain "session ID is required")) ;;
     find_aggregate st' "session.recover" id) = Ok b).
  { intros st' b Hb. simpl. rewrite Hid. simpl. unfold find_aggregate. by rewrite Hb. }
  set (s2 := if ch then with_revision s' (u64 (sn_Revision s' + 1)) else s').
  assert (Hw2 : wf_snapshot id s2) by (unfold s2; destruct ch; [by apply wf_snapshot_revision|done]).
  assert (Hrec2 : recovered s2) by (unfold s2; destruct ch; [|done]; destruct Hrec; by split).
  assert (Hst' : exists index upd, Recover r fresh Live st id = (put st id (MkAggregate s2 (ag_idempotency a) upd) index, Ok s2)).
  { unfold Recover. rewrite (Hlive st a Ha), Heq. unfold s2. destruct ch; [|by do 2 eexists].
    cbv beta iota zeta. destruct (nextUpdatedAt fresh (at_update r) (st_list st) (ag_updatedAt a)) as [index upd]. by do 2 eexists. }
  destruct Hst' as (index&upd&Heq'). eexists _, s2. split; [exact Heq'|]. split_and!; [done|done| | |].
  - exists news. unfold s2. by destruct ch.
  - intros id' Hne. simpl. by rewrite lookup_insert_ne.
  - intros r' fresh' Hit. unfold Recover. erewrite Hlive by apply lookup_insert_eq. cbn [ag_snapshot ag_idempotency ag_updatedAt].
    rewrite (recover_recovered r' id s2 Hit (ws_core _ _ Hw2) Hrec2). unfold put. simpl. by rewrite insert_insert_eq.
Qed.

End Promises.

(** ** The promises at work *)
Lemma reachable_store1 : reachable store1.
Proof. apply (reachable_call (call_of (OpCreate new0))); [by exists 0; constructor|exact I]. Qed.
Lemma reachable_store2 : reachable store2.
Proof. apply (reachable_call (call_of (OpCommit request1))); [exact reachable_store1|exact I]. Qed.
Lemma reachable_store3 : reachable store3.
Proof. apply (reachable_call (call_of (OpCommit request2))); [exact reachable_store2|exact I]. Qed.
Lemma store2_to_store3 : nsteps step 1 store2 store3.
Proof. eapply nsteps_l; [by exists (call_of (OpCommit request2))|constructor]. Qed.

Lemma pair_of {A B} (p : A * B) a b : p.1 = a -> p.2 = b -> p = (a, b).
Proof. by destruct p; simpl; intros -> ->. Qed.
Lemma commit1 : Commit plainReadings plainIdentity Live store1 request1 = (store2, Ok (MkCommit "s" 2 1 4 true)).
Proof. apply pair_of; [reflexivity|vm_compute; reflexivity]. Qed.

(** The aggregate of the example session. *)
Definition aggregate_in (st : MemoryStore) : memoryAggregate := default (MkAggregate (initial_snapshot new0 []) ∅ 0) (st_sessions st !! "s").
Definition commit_of (r : result Commit_) : Commit_ := match r with Ok c => c | _ => MkCommit "" 0 0 0 false end.

Lemma store_invariant_witness : wf_snapshot "s" (ag_snapshot (aggregate_in store3)).
Proof. apply (store_invariant store3 reachable_store3 "s"). vm_compute. reflexivity. Defined.

Lemma Commit_atomic_witness : exists st' c a a', Commit plainReadings plainIdentity Live store1 request1 = (st', Ok c) /\ commit_effect store1 st' request1 c a a'.
Proof.
  destruct (Commit_atomic plainReadings plainIdentity Live store1 request1 store2 (Ok (MkCommit "s" 2 1 4 true)) reachable_store1 commit1) as (a&a'&H).
  exists store2, (MkCommit "s" 2 1 4 true), a, a'. split; [exact commit1|exact H].
Defined.

(** A second commit at revision 1. *)
Definition request_stale : CommitRequest := MkCommitRequest "s" 1 "k3" no_actor [change_Enqueue item0].

Lemma commit_compare_and_swap_witness : (Commit plainReadings plainIdentity Live store3 request_stale).1 = store3.
Proof.
  eapply (commit_compare_and_swap plainReadings plainIdentity Live store1 request1 store2 (MkCommit "s" 2 1 4 true) 1 store3
    plainReadings plainIdentity Live request_stale).
  - exact reachable_store1.
  - exact commit1.
  - reflexivity.
  - exact store2_to_store3.
  - reflexivity.
  - reflexivity.
  - reflexivity.
  - apply pair_of; reflexivity.
Defined.

Lemma commit_replay_witness : Commit plainReadings plainIdentity Live store3 request1 = (store3, Ok (MkCommit "s" 2 1 4 false)).
Proof.
  apply (commit_replay plainReadings plainIdentity Live store1 request1 store2 (MkCommit "s" 2 1 4 true) 1 store3).
  - exact reachable_store1.
  - exact commit1.
  - reflexivity.
  - exact store2_to_store3.
Defined.

Lemma history_append_only_witness :
  exists a', st_sessions store3 !! "s" = Some a' /\ sn_History (ag_snapshot (aggregate_in store2)) `prefix_of` sn_History (ag_snapshot a').
Proof.
  destruct (history_append_only 1 store2 store3 "s" (aggregate_in store2) reachable_store2 store2_to_store3) as (a'&Ha'&Hp&_);
    [vm_compute; reflexivity|]. exists a'. split; [exact Ha'|exact Hp].
Defined.

Lemma extension_evolution_witness :
  exists a' e e', st_sessions store3 !! "s" = Some a' /\ sn_ExtensionJournal (ag_snapshot (aggregate_in store2)) !! 0 = Some e /\
    sn_ExtensionJournal (ag_snapshot a') !! 0 = Some e' /\ entry_evolves e e'.
Proof.
  destruct (extension_evolution 1 store2 store3 "s" (aggregate_in store2) reachable_store2 store2_to_store3) as (a'&Ha'&Hx);
    [vm_compute; reflexivity|]. destruct (Hx 0 (extension0 InvocationPrepared 0)) as (e'&He'&Hev); [vm_compute; reflexivity|].
  exists a', (extension0 InvocationPrepared 0), e'. split; [exact Ha'|]. split; [vm_compute; reflexivity|]. split; [exact He'|exact Hev].
Defined.

Lemma Recover_resolves_witness :
  exists st' s', Recover plainReadings plainIdentity Live store3 "s" = (st', Ok s') /\ recovered s'.
Proof.
  destruct (Recover_resolves plainReadings plainIdentity store3 "s" (aggregate_in store3)) as (st'&s'&H&_&Hr&_).
  - exact reachable_store3.
  - exact plainReadings_sane.
  - vm_compute. reflexivity.
  - vm_compute. reflexivity.
  - exists st', s'. split; [exact H|exact Hr].
Defined.

(** * Commits that are accepted and cannot be read back

    [validateHistoryConsistency] is what a new aggregate with a history, and
    every document that [session/file_store.go] reads, must pass.  The changes
    of a commit are checked by other code; here are commits that the latter
    accepts and the former refuses. *)

(** The session of the example and the history check of its snapshot. *)
Definition readable (st : MemoryStore) : bool :=
  let s := ag_snapshot (aggregate_in st) in is_ok (validateHistoryConsistency "s" (sn_History s) (sn_RunJournal s)).

(** Commit to the new session of the example: was it applied, and can the
    result be read back? *)
Definition attempt (changes : list Change) : bool * bool :=
  let '(st, r) := Commit plainReadings plainIdentity Live store1 (MkCommitRequest "s" 1 "k" no_actor changes) in
  (applied r, readable st).

Definition start_run : list Change := [change_RunState (MkRunStateChange "r1" RunRunning); change_RunFact run0].
Definition pending0 : JournalEntry := MkJournalEntry "r1" "p1" (Some call0) None JournalPending.
Definition run_end : RunFact := MkRunFact "s" "r1" RunCompleted config0 1 "" None.

Lemma ordinary_call_is_readable :
  attempt (start_run ++ [change_Message message0; change_ToolCall call0; change_Journal pending0]) = (true, true).
Proof. vm_compute. reflexivity. Qed.

(** A pending journal entry for a call the history does not have. *)
Lemma pending_without_call_is_accepted : attempt (start_run ++ [change_Journal pending0]) = (true, false).
Proof. vm_compute. reflexivity. Qed.

(** After recovery the session has a result without a call, and still cannot be
    read back. *)
Lemma pending_without_call_recovers_to_orphan :
  let st := (Commit plainReadings plainIdentity Live store1 (MkCommitRequest "s" 1 "k" no_actor (start_run ++ [change_Journal pending0]))).1 in
  let '(st', r) := Recover plainReadings plainIdentity Live st "s" in
  is_ok r = true /\ findToolCall (sn_History (ag_snapshot (aggregate_in st'))) "c1" = None /\
  findToolResult (sn_History (ag_snapshot (aggregate_in st'))) "c1" = Some (toolUnknown "c1") /\ readable st' = false.
Proof. vm_compute. repeat split. Qed.

(** A model attempt that starts after the end of its run. *)
Lemma attempt_after_run_end_is_accepted :
  attempt (start_run ++ [change_RunFact run_end; change_ModelAttempt attempt0]) = (true, false).
Proof. vm_compute. reflexivity. Qed.

(** An unfinished entry of a run that is no longer the active one. *)
Definition request_switch : CommitRequest := MkCommitRequest "s" 1 "k" no_actor
  (start_run ++ [change_Message message0; change_ToolCall call0; change_Journal (MkJournalEntry "r1" "p1" (Some call0) None JournalPrepared);
                 change_RunState (MkRunStateChange "r1" RunIdle); change_RunState (MkRunStateChange "r2" RunRunning)]).
Lemma run_switch_strands_prepared_call :
  let st := (Commit plainReadings plainIdentity Live store1 request_switch).1 in
  let st' := (Recover plainReadings plainIdentity Live st "s").1 in
  let s := ag_snapshot (aggregate_in st') in
  applied (Commit plainReadings plainIdentity Live store1 request_switch).2 = true /\
  sn_RunState s = RunIdle /\ existsb (fun e => unfinishedJournal (je_Status e)) (sn_RunJournal s) = true.
Proof. vm_compute. repeat split. Qed.

(** The history check identifies a context source by joining run, step and
    source key with NUL; identifiers may contain NUL, so two different
    sources can have the same key. *)
Definition source_of (step key : string) : ContextContributionFact := MkContextContributionFact "r" step key [].
Lemma contribution_key_collides :
  contribution_key (source_of ("p" +:+ NUL +:+ "q") "k") = contribution_key (source_of "p" ("q" +:+ NUL +:+ "k")) /\
  ID_Valid ("p" +:+ NUL +:+ "q") = true.
Proof. split; vm_compute; reflexivity. Qed.

(** A tool preflight entry that carries the identity of a lifecycle event. *)
Definition lifecycle_on_tool : ExtensionJournalEntry :=
  MkExtensionJournalEntry "i1" 1 (MkExtensionDescriptor "key" digest0) BoundaryToolPreflight "s" "r1" "p1" "" "" "c1" "" 0
    LifecycleClose (OpenOther "") digest0 1 1 0 0 InvocationPrepared None "" "" EffectNone ContextNone [] "" 0.
Lemma lifecycle_identity_on_tool_is_accepted : ext_Validate lifecycle_on_tool "s" = Ok tt.
Proof. vm_compute. reflexivity. Qed.

(** * The order of a session listing

    Summaries are sorted by time, newest first, and then by Session ID; sorting
    forgets the order in which the candidates were found.  The index only moves
    forward in time. *)

#[export] Instance string_le_trans : Transitive string_le.
Proof. intros a b c H1%Is_true_true H2%Is_true_true. apply Is_true_true. exact (transitivity (R := String.le) H1 H2). Qed.
Lemma string_le_total a b : string_le a b \/ string_le b a.
Proof. apply String.leb_total. Qed.
#[export] Instance string_le_antisym : AntiSymm (=) string_le.
Proof. intros a b. apply String.leb_antisym. Qed.

#[export] Instance summary_le_trans : Transitive summary_le.
Proof.
  intros a b c [H1|[H1 H1']] [H2|[H2 H2']]; unfold summary_le; [left; lia|left; lia|left; lia|right].
  split; [congruence|by etrans].
Qed.
#[export] Instance summary_le_total : Total summary_le.
Proof.
  intros a b. unfold summary_le. destruct (Z.lt_trichotomy (ss_UpdatedAt a) (ss_UpdatedAt b)) as [H|[H|H]]; [by auto| |by auto].
  destruct (string_le_total (ss_SessionID a) (ss_SessionID b)); auto.
Qed.
Lemma summary_le_same a b : summary_le a b -> summary_le b a -> ss_UpdatedAt a = ss_UpdatedAt b /\ ss_SessionID a = ss_SessionID b.
Proof. intros [H1|[H1 H1']] [H2|[H2 H2']]; try lia. split; [done|by apply (anti_symm string_le)]. Qed.

Lemma NoDup_fmap_same {A B} (f : A -> B) l a b : NoDup (f <$> l) -> a ∈ l -> b ∈ l -> f a = f b -> a = b.
Proof.
  induction l as [|c l IH]; simpl; intros Hn Ha Hb Hf; [by apply not_elem_of_nil in Ha|].
  apply NoDup_cons in Hn as [Hc Hn]. apply elem_of_cons in Ha as [->|Ha]; apply elem_of_cons in Hb as [->|Hb]; [done| | |by apply IH].
  - destruct Hc. rewrite Hf. by apply list_elem_of_fmap_2.
  - destruct Hc. rewrite <-Hf. by apply list_elem_of_fmap_2.
Qed.

Lemma sortSessionSummaries_perm l l' : l ≡ₚ l' -> NoDup (ss_SessionID <$> l) -> sortSessionSummaries l = sortSessionSummaries l'.
Proof.
  intros Hp Hn. apply (StronglySorted_unique_strong summary_le).
  - intros a b Ha Hb H1 H2. apply (NoDup_fmap_same ss_SessionID l); [done| | |by apply summary_le_same].
    + by rewrite <-(merge_sort_Permutation summary_le l).
    + rewrite Hp. by rewrite <-(merge_sort_Permutation summary_le l').
  - apply StronglySorted_merge_sort; apply _.
  - apply StronglySorted_merge_sort; apply _.
  - unfold sortSessionSummaries. by rewrite !merge_sort_Permutation.
Qed.

(** ** The index *)
Definition ensured (index : sessionListIndex) : Prop := empty (ix_epoch index) = false /\ is_Some (ix_created index).

Lemma ensure_ensured fresh index : ensured index -> ensure fresh index = index.
Proof. intros [H1 [c H2]]. unfold ensure. by rewrite H1, H2. Qed.

Lemma nextUpdatedAt_forward fresh now index previous index' next : ensured index -> nextUpdatedAt fresh now index previous = (index', next) ->
  ensured index' /\ ix_lastUpdatedAt index' = next /\ (ix_lastUpdatedAt index < next)%Z /\ (previous < next)%Z.
Proof.
  intros He H. unfold nextUpdatedAt in H. rewrite ensure_ensured in H by done. injection H as <- <-. split_and!; [done|done|..].
  - destruct (Z.ltb_spec (ix_lastUpdatedAt index) (if Z.ltb previous now then now else previous + 1)); lia.
  - destruct (Z.ltb_spec previous now); [destruct (Z.ltb_spec (ix_lastUpdatedAt index) now)|destruct (Z.ltb_spec (ix_lastUpdatedAt index) (previous + 1))]; lia.
Qed.

Lemma recordCreate_forward fresh now index id index' next : ensured index -> recordCreate fresh now index id = (index', next) ->
  ensured index' /\ ix_lastUpdatedAt index' = next /\ (ix_lastUpdatedAt index < next)%Z /\ (0 < next)%Z.
Proof.
  intros He H. unfold recordCreate in H. rewrite ensure_ensured in H by done.
  apply nextUpdatedAt_forward in H; [done|]. destruct He. split; [done|by eauto].
Qed.

Section Paginate.
Context {K : CursorCodec}.

Lemma filter_Permutation {A} (f : A -> bool) l l' : l ≡ₚ l' -> List.filter f l ≡ₚ List.filter f l'.
Proof.
  induction 1 as [|a l l' _ IH|a b l|l1 l2 l3 _ IH1 _ IH2]; simpl; [done|destruct (f a); [by constructor|done]| |by etrans].
  destruct (f a), (f b); first [done|constructor].
Qed.

Lemma NoDup_fmap_filter {A B} (g : A -> B) (f : A -> bool) l : NoDup (g <$> l) -> NoDup (g <$> List.filter f l).
Proof.
  induction l as [|a l IH]; simpl; [done|]. intros [Ha Hn]%NoDup_cons. destruct (f a); [|by auto]. cbn. apply NoDup_cons. split; [|by auto].
  intros Hin. apply Ha. apply list_elem_of_fmap in Hin as (b&->&Hb). apply list_elem_of_fmap_2. apply list_elem_of_In, filter_In in Hb as [Hb _].
  by apply list_elem_of_In.
Qed.

(** The order of the candidates does not matter. *)
Lemma paginate_perm index request l l' :
  l ≡ₚ l' -> NoDup ((fun s => ss_SessionID (ls_summary s)) <$> l) -> paginate index request l = paginate index request l'.
Proof.
  intros Hp Hn. unfold paginate. destruct (if empty _ then _ else _) as [cursor| |]; [|done..]. cbn [mbind result_bind]. cbv zeta.
  rewrite (sortSessionSummaries_perm (ls_summary <$> List.filter (eligible cursor) l) (ls_summary <$> List.filter (eligible cursor) l')); [done| |].
  - by apply Permutation_map, filter_Permutation.
  - rewrite <-list_fmap_compose. by apply (NoDup_fmap_filter (fun s => ss_SessionID (ls_summary s))).
Qed.
End Paginate.
