(* ===== verification/HistoryDiscipline.v ===== *)
(** * What a stored history tells its readers

    Consequences of well-formedness: identities are used once, every fact has
    its cause before it, and the budget a fact reports is the exact sum of the
    usage recorded before it. *)

From stdpp Require Import relations.
From S2P Require Import Prelude GoStrings AgentTypes ModelContracts SessionTypes ExtensionJournal.
From S2P Require Import SessionValidate SessionHistory SessionApply SessionRecover SessionCreate SessionStore TextFacts SessionHistoryFacts SessionCreateFacts.
From S2P Require Import SessionInvariant SessionRecoverFacts SessionStoreFacts SessionProperties.

(** ** Identities *)
Definition message_ids (h : list HistoryFact) : list string := omap (fun f => msg_ID <$> hf_Message f) h.
Definition call_ids (h : list HistoryFact) : list string := omap (fun f => call_ID <$> hf_ToolCall f) h.
Definition result_ids (h : list HistoryFact) : list string := omap (fun f => res_CallID <$> hf_ToolResult f) h.
Definition run_ids (started : bool) (h : list HistoryFact) : list string :=
  omap (fun f => r ← hf_Run f; if Bool.eqb (is_started r) started then Some (rf_RunID r) else None) h.
Definition attempt_ids (started : bool) (h : list HistoryFact) : list string :=
  omap (fun f => a ← hf_ModelAttempt f; if Bool.eqb (is_attempt_start a) started then Some (ma_AttemptID a) else None) h.

Lemma NoDup_omap_snoc {A} (g : A -> option string) (l : list A) a :
  NoDup (omap g l) -> (forall id, g a = Some id -> id ∉ omap g l) -> NoDup (omap g (l ++ [a])).
Proof.
  intros Hn Ha. rewrite omap_snoc. destruct (g a) as [id|]; [|by rewrite app_nil_r]. apply NoDup_app. split_and!; [done| |apply NoDup_singleton].
  intros x Hx ->%list_elem_of_singleton. by apply (Ha id).
Qed.

(** A lookup that finds nothing. *)
Lemma head_omap_None {A B} (g : A -> option B) (l : list A) a b : head (omap g l) = None -> a ∈ l -> g a = Some b -> False.
Proof.
  intros H Ha Hb. assert (b ∈ omap g l) by (apply list_elem_of_omap; by exists a). destruct (omap g l); [by eapply not_elem_of_nil|done].
Qed.

Lemma findMessage_fresh h id : findMessage h id = None -> id ∉ message_ids h.
Proof.
  intros H (f&Hf&Hid)%list_elem_of_omap. destruct (hf_Message f) as [m|] eqn:E; [|done]. injection Hid as Hid.
  eapply head_omap_None; [exact H|exact Hf|]. simpl. rewrite E. simpl. by rewrite Hid, String.eqb_refl.
Qed.
Lemma findToolCall_fresh h id : findToolCall h id = None -> id ∉ call_ids h.
Proof.
  intros H (f&Hf&Hid)%list_elem_of_omap. destruct (hf_ToolCall f) as [m|] eqn:E; [|done]. injection Hid as Hid.
  eapply head_omap_None; [exact H|exact Hf|]. simpl. rewrite E. simpl. by rewrite Hid, String.eqb_refl.
Qed.
Lemma findToolResult_fresh h id : findToolResult h id = None -> id ∉ result_ids h.
Proof.
  intros H (f&Hf&Hid)%list_elem_of_omap. destruct (hf_ToolResult f) as [m|] eqn:E; [|done]. injection Hid as Hid.
  eapply head_omap_None; [exact H|exact Hf|]. simpl. rewrite E. simpl. by rewrite Hid, String.eqb_refl.
Qed.

Lemma last_filter_None {A} (p : A -> bool) (l : list A) a : last (List.filter p l) = None -> a ∈ l -> p a = true -> False.
Proof.
  intros H Ha Hp. apply last_None in H. apply list_elem_of_In in Ha.
  assert (In a (List.filter p l)) as Hin by (by apply filter_In). by rewrite H in Hin.
Qed.

Lemma runFacts_fresh (started : bool) h id :
  (if started then (runFacts h id).1 else (runFacts h id).2) = None -> id ∉ run_ids started h.
Proof.
  intros H (f&Hf&Hid)%list_elem_of_omap. destruct (hf_Run f) as [r|] eqn:E; [|done]. simpl in Hid.
  destruct (Bool.eqb _ _) eqn:Es; [|done]. injection Hid as Hid. apply eqb_prop in Es.
  assert (r ∈ run_facts_of h id).
  { apply list_elem_of_omap. exists f. split; [done|]. rewrite E. simpl. by rewrite Hid, String.eqb_refl. }
  unfold runFacts in H. destruct started; cbn [fst snd] in H; (eapply last_filter_None; [exact H|eassumption|]); simpl; by rewrite Es.
Qed.
Lemma attemptFacts_fresh (started : bool) h id :
  (if started then (attemptFacts h id).1 else (attemptFacts h id).2) = None -> id ∉ attempt_ids started h.
Proof.
  intros H (f&Hf&Hid)%list_elem_of_omap. destruct (hf_ModelAttempt f) as [r|] eqn:E; [|done]. simpl in Hid.
  destruct (Bool.eqb _ _) eqn:Es; [|done]. injection Hid as Hid. apply eqb_prop in Es.
  assert (r ∈ attempt_facts_of h id).
  { apply list_elem_of_omap. exists f. split; [done|]. rewrite E. simpl. by rewrite Hid, String.eqb_refl. }
  unfold attemptFacts in H. destruct started; cbn [fst snd] in H; (eapply last_filter_None; [exact H|eassumption|]); simpl; by rewrite Es.
Qed.

Record unique_identities (h : list HistoryFact) : Prop := {
  ui_messages : NoDup (message_ids h);
  ui_calls : NoDup (call_ids h);
  ui_results : NoDup (result_ids h);
  ui_runs : forall started, NoDup (run_ids started h);
  ui_attempts : forall started, NoDup (attempt_ids started h);
}.

(** The cause of a fact among the facts before it. *)
Record caused (pre : list HistoryFact) (f : HistoryFact) : Prop := {
  cs_call : forall c, hf_ToolCall f = Some c -> exists g m, g ∈ pre /\ hf_Message g = Some m /\ msg_ID m = call_MessageID c /\
    msg_Role m = RoleAssistant /\ msg_RunID m = call_RunID c /\ msg_StepID m = call_StepID c;
  cs_result : forall r, hf_ToolResult f = Some r -> r = toolUnknown (res_CallID r) \/
    exists g c, g ∈ pre /\ hf_ToolCall g = Some c /\ call_ID c = res_CallID r;
  cs_run : forall r, hf_Run f = Some r -> is_started r = false -> exists g s, g ∈ pre /\ hf_Run g = Some s /\ is_started s = true /\
    rf_RunID s = rf_RunID r /\ rf_ConfigRevision s = rf_ConfigRevision r /\ sameModelConfig (rf_ModelConfig s) (rf_ModelConfig r) = true;
  cs_attempt : forall a, hf_ModelAttempt f = Some a -> is_attempt_start a = false -> exists g s, g ∈ pre /\ hf_ModelAttempt g = Some s /\
    is_attempt_start s = true /\ ma_AttemptID s = ma_AttemptID a /\ ma_RunID s = ma_RunID a /\ ma_StepID s = ma_StepID a;
  cs_started : forall a, hf_ModelAttempt f = Some a -> is_attempt_start a = true -> exists g s, g ∈ pre /\ hf_Run g = Some s /\
    is_started s = true /\ rf_RunID s = ma_RunID a /\ cfg_ProviderKey (rf_ModelConfig s) = ma_ProviderKey a /\
    cfg_ModelID (rf_ModelConfig s) = ma_ModelID a;
}.

Lemma head_Some_elem {A} (l : list A) a : head l = Some a -> a ∈ l.
Proof. destruct l; [done|]. intros [= ->]. left. Qed.

Lemma findMessage_in h id m : findMessage h id = Some m -> exists g, g ∈ h /\ hf_Message g = Some m /\ msg_ID m = id.
Proof.
  intros (g&Hg&Hm)%head_Some_elem%list_elem_of_omap. exists g. destruct (hf_Message g) as [m'|]; simpl in Hm; [|done].
  destruct (String.eqb _ _) eqn:E; [|done]. injection Hm as ->. by apply String.eqb_eq in E.
Qed.
Lemma findToolCall_in h id c : findToolCall h id = Some c -> exists g, g ∈ h /\ hf_ToolCall g = Some c /\ call_ID c = id.
Proof.
  intros (g&Hg&Hm)%head_Some_elem%list_elem_of_omap. exists g. destruct (hf_ToolCall g) as [m'|]; simpl in Hm; [|done].
  destruct (String.eqb _ _) eqn:E; [|done]. injection Hm as ->. by apply String.eqb_eq in E.
Qed.
Lemma runFacts_started h id s : (runFacts h id).1 = Some s -> exists g, g ∈ h /\ hf_Run g = Some s /\ is_started s = true /\ rf_RunID s = id.
Proof.
  intros H. destruct (runFacts_in h id s (or_introl H)) as (g&Hg&Hr&Hid). exists g. split_and!; try done.
  unfold runFacts in H. cbn [fst] in H. by apply last_Some_elem_of, list_elem_of_In, filter_In in H as [_ H].
Qed.
Lemma attemptFacts_started h id s :
  (attemptFacts h id).1 = Some s -> exists g, g ∈ h /\ hf_ModelAttempt g = Some s /\ is_attempt_start s = true /\ ma_AttemptID s = id.
Proof.
  intros H. destruct (attemptFacts_in h id s (or_introl H)) as (g&Hg&Hr&Hid). exists g. split_and!; try done.
  unfold attemptFacts in H. cbn [fst] in H. by apply last_Some_elem_of, list_elem_of_In, filter_In in H as [_ H].
Qed.

Section Discipline.
Context {J : JsonOps} {F : Fingerprints}.

Lemma admissible_caused pre f : admissible pre f -> caused pre f.
Proof.
  intros [_ Hcall Hres Hrun Hatt _ _]. split.
  - intros c Hc. destruct (Hcall c Hc) as (_&m&(g&Hg&Hm&Hid)%findMessage_in&H1&H2&H3). exists g, m. by split_and!.
  - intros r Hr. destruct (Hres r Hr) as (_&[[c (g&Hg&Hc&Hid)%findToolCall_in]|Hu]); [right; by exists g, c|by left].
  - intros r Hr Hs. specialize (Hrun r Hr). unfold run_admissible in Hrun. rewrite Hs in Hrun. destruct Hrun as (s&Heq&H1&H2).
    destruct (runFacts_started pre (rf_RunID r) s) as (g&?&?&?&?); [by rewrite Heq|]. exists g, s. by split_and!.
  - intros a Ha Hs. specialize (Hatt a Ha). unfold attempt_admissible in Hatt. rewrite Hs in Hatt. destruct Hatt as (s&Heq&H1&H2&_).
    destruct (attemptFacts_started pre (ma_AttemptID a) s) as (g&?&?&?&?); [by rewrite Heq|]. exists g, s. by split_and!.
  - intros a Ha Hs. specialize (Hatt a Ha). unfold attempt_admissible in Hatt. rewrite Hs in Hatt. destruct Hatt as (_&s&Heq&H1&H2).
    destruct (runFacts_started pre (ma_RunID a) s Heq) as (g&?&?&?&?). exists g, s. by split_and!.
Qed.

Lemma unique_snoc h f : unique_identities h -> admissible h f -> unique_identities (h ++ [f]).
Proof.
  intros [U1 U2 U3 U4 U5] [A1 A2 A3 A4 A5 _ _]. split; [| | |intros started..];
    (apply NoDup_omap_snoc; [first [exact U1|exact U2|exact U3|exact (U4 started)|exact (U5 started)]|intros id Hid]).
  - destruct (hf_Message f) as [m|]; [|done]. injection Hid as <-. by apply findMessage_fresh, A1.
  - destruct (hf_ToolCall f) as [c|]; [|done]. injection Hid as <-. apply findToolCall_fresh. by apply A2.
  - destruct (hf_ToolResult f) as [r|]; [|done]. injection Hid as <-. apply findToolResult_fresh. by apply A3.
  - destruct (hf_Run f) as [r|]; [|done]. simpl in Hid. destruct (Bool.eqb _ _) eqn:Es; [|done]. injection Hid as <-. apply eqb_prop in Es.
    apply runFacts_fresh. specialize (A4 r eq_refl). unfold run_admissible in A4. rewrite Es in A4. destruct started; [done|].
    by destruct A4 as (s&->&_).
  - destruct (hf_ModelAttempt f) as [a|]; [|done]. simpl in Hid. destruct (Bool.eqb _ _) eqn:Es; [|done]. injection Hid as <-. apply eqb_prop in Es.
    apply attemptFacts_fresh. specialize (A5 a eq_refl). unfold attempt_admissible in A5. rewrite Es in A5. destruct started.
    + by destruct A5 as [-> _].
    + by destruct A5 as (s&->&_).
Qed.

(** Admission looks at payloads only. *)
Lemma admissible_payload h f g : payload_of f = payload_of g -> admissible h f -> admissible h g.
Proof.
  intros He [A1 A2 A3 A4 A5 A6 A7]. unfold payload_of in He.
  assert (hf_Message f = hf_Message g /\ hf_ToolCall f = hf_ToolCall g /\ hf_ToolResult f = hf_ToolResult g /\ hf_Run f = hf_Run g /\
    hf_ModelAttempt f = hf_ModelAttempt g /\ hf_RunBudgetExceeded f = hf_RunBudgetExceeded g /\ hf_RunLimitExceeded f = hf_RunLimitExceeded g)
    as (E1&E2&E3&E4&E5&E6&E7) by (by injection He).
  rewrite E1 in A1. rewrite E2 in A2. rewrite E3 in A3. rewrite E4 in A4. rewrite E5 in A5. rewrite E6 in A6. rewrite E7 in A7. by split.
Qed.

Lemma wf_history_unique sid h : wf_history sid h -> unique_identities h.
Proof.
  induction 1 as [|h clock source actor f Hh IH Ha Hv]; [split; try (intros started); constructor|]. apply unique_snoc; [done|].
  by eapply admissible_payload; [|exact Ha].
Qed.

Lemma wf_history_split sid h pre f post : wf_history sid h -> h = pre ++ f :: post -> wf_history sid pre /\ admissible pre f.
Proof.
  intros Hh. revert pre f post. induction Hh as [|h clock source actor g Hh IH Ha Hv]; intros pre f post Heq; [by destruct pre|].
  destruct post as [|x post _] using rev_ind.
  - apply app_inj_tail in Heq as [-> <-]. split; [done|]. by eapply admissible_payload; [|exact Ha].
  - rewrite app_comm_cons, app_assoc in Heq. apply app_inj_tail in Heq as [-> _]. by apply (IH pre f post).
Qed.


(** ** Budgets *)
Definition usage_of (run : string) (f : HistoryFact) : option Z :=
  a ← hf_ModelAttempt f; if String.eqb (ma_RunID a) run && negb (is_attempt_start a) then Some (use_TotalTokens (ma_Usage a)) else None.
Definition used_tokens (run : string) (h : list HistoryFact) : Z := foldr Z.add 0%Z (omap (usage_of run) h).
(** The facts that end the counting of a run. *)
Definition exceeded (run : string) (f : HistoryFact) : bool :=
  match hf_RunBudgetExceeded f with Some b => String.eqb (rb_RunID b) run | None => false end ||
  match hf_RunLimitExceeded f with Some l => String.eqb (rl_RunID l) run | None => false end.
(** Token counts are non-negative Go [int64] values. *)
Definition int64_usage (h : list HistoryFact) : Prop :=
  forall f a, f ∈ h -> hf_ModelAttempt f = Some a -> (0 <= use_TotalTokens (ma_Usage a) < 2 ^ 63)%Z.

Lemma budget_step_exact run used f next :
  (0 <= used < 2 ^ 63)%Z -> (forall a, hf_ModelAttempt f = Some a -> (0 <= use_TotalTokens (ma_Usage a) < 2 ^ 63)%Z) ->
  budget_step run used f = Ok next ->
  exceeded run f = false /\ next = (used + default 0 (usage_of run f))%Z /\ (0 <= next < 2 ^ 63)%Z.
Proof.
  intros Hu Ha H. unfold budget_step in H. apply bind_Ok in H as (?&H1&H). apply bind_Ok in H as (?&H2&H). apply reject_if_Ok in H1, H2.
  split; [unfold exceeded; by rewrite H1, H2|]. unfold usage_of. destruct (hf_ModelAttempt f) as [a|]; simpl; [|injection H as <-; simpl; lia].
  specialize (Ha a eq_refl).
  destruct (String.eqb (ma_RunID a) run), (is_attempt_start a); simpl in *; try (injection H as <-; simpl; lia).
  apply bind_Ok in H as (?&Hov&H). injection H as <-. apply reject_if_Ok, Z.ltb_ge in Hov.
  destruct (Z.lt_ge_cases (used + use_TotalTokens (ma_Usage a)) (2 ^ 63)).
  - rewrite i64_small in * by lia. lia.
  - exfalso. unfold i64 in Hov. replace (used + use_TotalTokens (ma_Usage a) + 2 ^ 63)%Z with ((used + use_TotalTokens (ma_Usage a) - 2 ^ 63) + 1 * 2 ^ 64)%Z in Hov by lia.
    rewrite Z.mod_add, Z.mod_small in Hov by lia. lia.
Qed.

Lemma budget_scan_exact run h : int64_usage h -> forall used next,
  (0 <= used < 2 ^ 63)%Z -> foldM (budget_step run) h used = Ok next ->
  existsb (exceeded run) h = false /\ next = (used + used_tokens run h)%Z /\ (0 <= next < 2 ^ 63)%Z.
Proof.
  induction h as [|f h IH]; intros Hi used next Hu H; simpl in H.
  - injection H as <-. unfold used_tokens. simpl. rewrite Z.add_0_r. done.
  - apply bind_Ok in H as (used'&Hf&H). apply budget_step_exact in Hf as (He&Hused&Hu'); [|done|intros a; by apply Hi; left].
    destruct (IH (fun g a Hg => Hi g a (list_elem_of_further _ _ _ Hg)) used' next Hu' H) as (He'&Hn&Hr).
    simpl. rewrite He, He'. split_and!; [done| |lia|lia]. unfold used_tokens. rewrite Hn, Hused. csimpl.
    destruct (usage_of run f); simpl; unfold used_tokens; lia.
Qed.

(** C17. The tokens that a budget fact reports are exactly the sum, without
    overflow, of the usage of all model attempts of the run that ended before
    it, they reach the maximum, and the fact is the first of its run to report
    an exceeded budget or limit. *)
Theorem budget_fact_exact {R : RequestFingerprint} {K : CursorCodec} st id a pre f post b :
  reachable st -> st_sessions st !! id = Some a -> int64_usage (sn_History (ag_snapshot a)) ->
  sn_History (ag_snapshot a) = pre ++ f :: post -> hf_RunBudgetExceeded f = Some b ->
  rb_UsedTokens b = used_tokens (rb_RunID b) pre /\ (rb_MaxTokens b <= rb_UsedTokens b < 2 ^ 63)%Z /\ existsb (exceeded (rb_RunID b)) pre = false.
Proof.
  intros Hst%store_reachable_wf Ha Hi Heq Hb. destruct (Hst _ _ Ha) as [Hw _]. pose proof (wc_history _ _ (ws_core _ _ Hw)) as Hh.
  destruct (wf_history_split _ _ _ _ _ Hh Heq) as [_ [_ _ _ _ _ Hbud _]].
  destruct (budget_scan_exact (rb_RunID b) pre) with (used := 0%Z) (next := rb_UsedTokens b) as (He&Hu&Hr); [|lia|by apply Hbud|].
  { intros g x Hg. apply Hi. rewrite Heq. apply elem_of_app. by left. }
  split_and!; [lia| |lia|done].
  assert (Hv : validatePayload f id = Ok tt) by (eapply wf_history_elem; [exact Hh|]; rewrite Heq; apply elem_of_app; right; left).
  unfold validatePayload in Hv. apply bind_Ok in Hv as (?&Hc&Hv). apply reject_if_Ok, negb_false_iff, Nat.eqb_eq in Hc.
  unfold payloads in Hc. rewrite Hb in *. 
  destruct (hf_Message f), (hf_ToolCall f), (hf_ToolResult f), (hf_Run f), (hf_ModelAttempt f), (hf_ModelConfigChanged f), (hf_ContextContribution f); try discriminate Hc.
  unfold RunBudgetExceededFact_Validate in Hv. apply reject_if_Ok in Hv. bool_simpl. lia.
Qed.

End Discipline.


(** A run that used ten tokens of at most five. *)
Definition change_Budget b := MkChange AppendRunBudgetExceeded None None None None None None (Some b) None None None None None None None None None false None None None None.
Definition attempt_end : ModelAttemptFact :=
  MkModelAttemptFact "t1" "r1" "p1" AttemptSucceeded "provider" "model" "" (MkTokenUsage 6 4 0 0 0 10 false "") "" "".
Definition request_budget : CommitRequest := MkCommitRequest "s" 1 "k1" no_actor
  [change_RunState (MkRunStateChange "r1" RunRunning); change_RunFact run0; change_ModelAttempt attempt0; change_ModelAttempt attempt_end;
   change_Budget (MkRunBudgetExceededFact "r1" 10 5)].
Definition store_budget : MemoryStore := invoke (call_of (OpCommit request_budget)) store1.
Definition budget_history : list HistoryFact := sn_History (ag_snapshot (aggregate_in store_budget)).

Lemma reachable_store_budget : reachable store_budget.
Proof. apply (reachable_call (call_of (OpCommit request_budget))); [exact reachable_store1|exact I]. Qed.

Definition int64_usageb (h : list HistoryFact) : bool :=
  forallb (fun f => match hf_ModelAttempt f with Some a => Z.leb 0 (use_TotalTokens (ma_Usage a)) && Z.ltb (use_TotalTokens (ma_Usage a)) (2 ^ 63) | None => true end) h.
Lemma int64_usageb_spec h : int64_usageb h = true -> int64_usage h.
Proof.
  unfold int64_usageb. rewrite forallb_forall. intros H f a Hf Ha. apply list_elem_of_In in Hf. specialize (H f Hf). rewrite Ha in H.
  apply andb_true_iff in H as [H1 H2]. apply Z.leb_le in H1. by apply Z.ltb_lt in H2.
Qed.

Lemma budget_fact_exact_witness : 10%Z = used_tokens "r1" (take 3 budget_history).
Proof.
  destruct (budget_fact_exact store_budget "s" (aggregate_in store_budget) (take 3 budget_history)
    (default no_fact (budget_history !! 3)) [] (MkRunBudgetExceededFact "r1" 10 5)) as [H _].
  - exact reachable_store_budget.
  - vm_compute. reflexivity.
  - apply int64_usageb_spec. vm_compute. reflexivity.
  - vm_compute. reflexivity.
  - vm_compute. reflexivity.
  - exact H.
Defined.
