(* ===== verification/PageFacts.v ===== *)
(** * Pages of the history

    One page is a segment of the history with a bounded number of steps that
    never begins inside a step; following the pages backwards reads the whole
    history, each fact once. *)

From stdpp Require Import relations.
From S2P Require Import Prelude GoStrings AgentTypes ModelContracts SessionTypes ExtensionJournal.
From S2P Require Import SessionValidate SessionHistory SessionApply SessionRecover SessionCreate SessionStore TextFacts SessionHistoryFacts SessionCreateFacts.
From S2P Require Import SessionInvariant SessionRecoverFacts SessionStoreFacts SessionProperties.

Definition valid_step (h : list HistoryFact) (j : nat) : bool := ID_Valid (step_at h j).
Definition valid_run (h : list HistoryFact) (j : nat) : bool := ID_Valid (run_at h j).

(** What the backward scan from [n] found; [seen] and [steps] are what it
    started with. *)
Record scanned (h : list HistoryFact) (limit n : nat) (seen : gset string) (steps s : nat) (runs' : gset string) (steps' : nat) : Prop := {
  sc_le : s <= n;
  sc_runs : forall j, s <= j < n -> valid_step h j = true -> valid_run h j = true -> run_at h j ∈ runs';
  sc_stop : s = 0 \/ valid_step h (s - 1) = true /\ step_at h (s - 1) ∉ seen /\ (forall j, s <= j < n -> step_at h (s - 1) ≠ step_at h j) /\ steps' = limit;
  sc_some : steps < steps' -> exists j, s <= j < n /\ valid_step h j = true;
  sc_steps : exists seen', seen ⊆ seen' /\ size seen' + steps <= size seen + steps' /\
    forall j, s <= j < n -> valid_step h j = true -> step_at h j ∈ seen';
  sc_limit : steps <= limit -> steps <= steps' <= limit;
}.

Lemma page_scan_mono h limit n : forall seen runs steps, let '(_, runs', _) := page_scan h limit n n seen runs steps in runs ⊆ runs'.
Proof.
  induction n as [|index IH]; intros seen runs steps; simpl; [done|]. destruct (_ && Nat.eqb _ _); [done|].
  match goal with |- context [page_scan h limit index index ?a ?b ?c] => specialize (IH a b c); destruct (page_scan h limit index index a b c) as [[? ?] ?] end.
  etrans; [|exact IH]. destruct (_ && _); set_solver.
Qed.

Lemma page_scan_spec h limit n : forall seen runs steps,
  let '(s, runs', steps') := page_scan h limit n n seen runs steps in scanned h limit n seen steps s runs' steps'.
Proof.
  induction n as [|index IH]; intros seen runs steps; simpl.
  { split; [lia|intros; lia|by left|lia|exists seen; split_and!; [done|lia|intros; lia]|lia]. }
  fold (valid_step h index) (valid_run h index). destruct (valid_step h index && negb (bool_decide (step_at h index ∈ seen))) eqn:Ef; simpl.
  - destruct (Nat.eqb_spec steps limit) as [->|Hne].
    + apply andb_true_iff in Ef as [Hv Hn%negb_true_iff%bool_decide_eq_false]. split.
      * lia.
      * intros; lia.
      * right. replace (S index - 1) with index by lia. split_and!; [done|done|intros; lia|done].
      * lia.
      * exists seen. split_and!; [done|lia|intros; lia].
      * lia.
    + apply andb_true_iff in Ef as [Hv Hn%negb_true_iff%bool_decide_eq_false].
      match goal with |- context [page_scan h limit index index ?a ?b ?c] => specialize (IH a b c); pose proof (page_scan_mono h limit index a b c) as Hmono;
        destruct (page_scan h limit index index a b c) as [[s runs'] steps'] end.
      destruct IH as [I1 I2 I3 I4 (seen'&I5&I6&I7) I8]. assert (steps < steps') by (rewrite size_union, size_singleton in I6 by set_solver; 
        assert (size ({[step_at h index]} ∪ seen) <= size seen') by (by apply subseteq_size); rewrite size_union, size_singleton in * by set_solver; lia). split.
      * lia.
      * intros j Hj Hvj Hrj. destruct (decide (j = index)) as [->|]; [|apply I2; [lia|done|done]]. apply Hmono. rewrite Hv, Hrj. set_solver.
      * destruct I3 as [->|(S1&S2&S3&S4)]; [by left|]. right. split_and!; [done|set_solver| |done].
        intros j Hj. destruct (decide (j = index)) as [->|]; [set_solver|apply S3; lia].
      * intros _. destruct (decide (s <= index)); [exists index; split; [lia|done]|lia].
      * exists seen'. rewrite size_union, size_singleton in I6 by set_solver. split_and!; [set_solver|lia|].
        intros j Hj Hvj. destruct (decide (j = index)) as [->|]; [set_solver|apply I7; [lia|done]].
      * intros Hl. lia.
  - match goal with |- context [page_scan h limit index index ?a ?b ?c] => specialize (IH a b c); pose proof (page_scan_mono h limit index a b c) as Hmono;
      destruct (page_scan h limit index index a b c) as [[s runs'] steps'] end.
    destruct IH as [I1 I2 I3 I4 (seen'&I5&I6&I7) I8]. 
    assert (Hseen : valid_step h index = true -> step_at h index ∈ seen).
    { intros Hv. rewrite Hv in Ef. simpl in Ef. by apply negb_false_iff, bool_decide_eq_true in Ef. } split.
    + lia.
    + intros j Hj Hvj Hrj. destruct (decide (j = index)) as [->|]; [|apply I2; [lia|done|done]]. apply Hmono. rewrite Hvj, Hrj. set_solver.
    + destruct I3 as [->|(S1&S2&S3&S4)]; [by left|]. right. split_and!; [done|done| |done].
      intros j Hj. destruct (decide (j = index)) as [->|]; [|apply S3; lia]. intros Heq. unfold valid_step in *. rewrite Heq in S1, S2. by apply S2, Hseen.
    + intros Hlt. destruct (I4 Hlt) as (j&Hj&Hvj). exists j. split; [lia|done].
    + exists seen'. split_and!; [done|lia|]. intros j Hj Hvj. destruct (decide (j = index)) as [->|]; [by apply I5, Hseen|apply I7; [lia|done]].
    + done.
Qed.

(** Skipping facts of older runs. *)
Lemma skip_older_runs_spec h runs fuel start :
  let t := skip_older_runs h runs fuel start in
  start <= t <= start + fuel /\ (forall j, start <= j < t -> valid_run h j = true /\ run_at h j ∉ runs).
Proof.
  revert start; induction fuel as [|fuel IH]; intros start; simpl; [split; [lia|intros; lia]|].
  fold (valid_run h start). destruct (valid_run h start && negb (bool_decide (run_at h start ∈ runs))) eqn:E; [|split; [lia|intros; lia]].
  destruct (IH (S start)) as [H1 H2]. split; [lia|]. intros j Hj. destruct (decide (j = start)) as [->|]; [|apply H2; lia].
  by apply andb_true_iff in E as [Hv Hn%negb_true_iff%bool_decide_eq_false].
Qed.

(** The beginning of a page: it is not empty, it does not begin inside a step,
    and it has at most [limit] steps. *)
Record page_begin (h : list HistoryFact) (limit stop start : nat) : Prop := {
  pb_before : start < stop;
  pb_step : 0 < start -> valid_step h start = true -> step_at h (start - 1) ≠ step_at h start;
  pb_limit : exists steps : gset string, size steps <= limit /\ forall j, start <= j < stop -> valid_step h j = true -> step_at h j ∈ steps;
}.

Lemma page_start_begin h limit stop : 0 < limit -> 0 < stop -> page_begin h limit stop (page_start h limit stop).
Proof.
  intros Hl Hs. unfold page_start. pose proof (page_scan_spec h limit stop ∅ ∅ 0) as Hscan.
  destruct (page_scan h limit stop stop ∅ ∅ 0) as [[s runs] steps]. destruct Hscan as [I1 I2 I3 I4 (seen&_&I6&I7) I8]. rewrite size_empty in I6.
  destruct steps as [|steps].
  - simpl. assert (Hno : forall j, s <= j < stop -> valid_step h j = true -> False).
    { intros j Hj Hv. apply I7 in Hv; [|done]. assert (seen = ∅) as -> by (apply leibniz_equiv, size_empty_iff; lia). set_solver. }
    destruct I3 as [->|(_&_&_&?)]; [|lia]. set (start := if Nat.ltb limit stop then stop - limit else 0).
    assert (Hstart : start < stop) by (unfold start; destruct (Nat.ltb_spec limit stop); lia). split; [done| |].
    + intros _ Hv. exfalso. apply (Hno start); [lia|done].
    + exists ∅. rewrite size_empty. split; [lia|]. intros j Hj Hv. exfalso. apply (Hno j); [lia|done].
  - simpl. destruct (skip_older_runs_spec h runs (stop - s) s) as [K1 K2]. set (t := skip_older_runs h runs (stop - s) s) in *.
    destruct I4 as (j&Hj&Hvj); [lia|]. assert (Ht : t <= j).
    { destruct (decide (t <= j)) as [|Hn]; [done|]. destruct (K2 j) as [Hr Hnot]; [lia|]. exfalso. by apply Hnot, I2. }
    split; [lia| |exists seen; split; [lia|intros i Hi; apply I7; lia]]. intros Hpos Hv. destruct (decide (t = s)) as [->|Hne].
    + destruct I3 as [->|(_&_&S3&_)]; [lia|]. apply S3. lia.
    + destruct (K2 (t - 1)) as [Hr Hnot]; [lia|]. intros Heq. apply Hnot, I2; [lia| |done]. unfold valid_step in *. by rewrite Heq.
Qed.

(** Sequence numbers are positions. *)
Definition numbered (h : list HistoryFact) : Prop := forall i f, h !! i = Some f -> hf_Sequence f = (Z.of_nat i + 1)%Z.

Lemma count_before_numbered h k (n : Z) :
  (forall i f, h !! i = Some f -> hf_Sequence f = (n + Z.of_nat i + 1)%Z) -> k <= length h -> count_before h (n + Z.of_nat k + 1) = k.
Proof.
  revert k n; induction h as [|f h IH]; intros k n Hn Hk; simpl in *; [lia|]. rewrite (Hn 0 f eq_refl). destruct k as [|k].
  - rewrite (proj2 (Z.ltb_ge _ _)) by lia. done.
  - rewrite (proj2 (Z.ltb_lt _ _)) by lia. f_equal. replace (n + Z.of_nat (S k) + 1)%Z with ((n + 1) + Z.of_nat k + 1)%Z by lia.
    apply IH; [|lia]. intros i g Hi. rewrite (Hn (S i) g Hi). lia.
Qed.

(** The next page ends where this one began. *)
Lemma page_end_next h limit stop start :
  numbered h -> stop <= length h -> page_begin h limit stop start -> 0 < start -> page_end h (Z.of_nat start + 1) = start.
Proof.
  intros Hn Hle [H1 H2 _] Hpos. unfold page_end. rewrite (proj2 (Z.eqb_neq _ _)) by lia.
  assert (Hc : count_before h (Z.of_nat start + 1) = start) by (apply (count_before_numbered h start 0); [intros i f Hi; by rewrite (Hn i f Hi)|lia]).
  rewrite Hc.
  destruct (Nat.ltb 0 start && Nat.ltb start (length h) && ID_Valid (step_at h start) && String.eqb (step_at h (start - 1)) (step_at h start)) eqn:E; [|done].
  apply andb_true_iff in E as [E Heq%String.eqb_eq]. apply andb_true_iff in E as [_ Hv]. by destruct (H2 Hpos Hv).
Qed.

Section Pages.
Context {J : JsonOps} {F : Fingerprints}.

Lemma wf_history_numbered sid h : wf_history sid h -> room (length h) -> numbered h.
Proof.
  intros Hh Hr i f Hi. destruct (wf_history_fact _ _ _ _ Hh Hi) as [-> _]. apply lookup_lt_Some in Hi. unfold room in Hr. apply u64_small. lia.
Qed.

(** One page of a history. *)
Lemma historyPage_spec h req page :
  historyPage h req = Ok page -> let stop := page_end h (hpr_Before req) in
  stop = 0 /\ page = empty_page \/
  exists limit start, 0 < limit <= 100 /\ (hpr_StepLimit req = 0%Z /\ limit = 100 \/ hpr_StepLimit req = Z.of_nat limit) /\
    page_begin h limit stop start /\ hp_Facts page = take (stop - start) (drop start h) /\ hp_HasMore page = Nat.ltb 0 start.
Proof.
  intros H stop. unfold historyPage in H. apply bind_Ok in H as (?&_&H). cbv zeta in H. apply bind_Ok in H as (?&Hlim&H). apply reject_if_Ok in Hlim.
  fold stop in H. destruct (Nat.eqb_spec stop 0) as [Hz|Hne]; [injection H as <-; by left|]. injection H as <-. right.
  set (l := if Z.eqb (hpr_StepLimit req) 0 then historyPageLimit else hpr_StepLimit req) in *. unfold historyPageLimit in *. bool_simpl.
  assert (0 < l)%Z by (unfold l in *; destruct (Z.eqb_spec (hpr_StepLimit req) 0); lia).
  exists (Z.to_nat l), (page_start h (Z.to_nat l) stop). split_and!; [lia|lia| |apply page_start_begin; lia|done|done].
  unfold l. destruct (Z.eqb_spec (hpr_StepLimit req) 0); [left|right]; [done|]. unfold l in *. destruct (Z.eqb_spec (hpr_StepLimit req) 0); [done|lia].
Qed.

Lemma historyPage_returns h req :
  ID_Valid (hpr_SessionID req) = true -> (0 <= hpr_StepLimit req <= 100)%Z -> exists page, historyPage h req = Ok page.
Proof.
  intros Hid Hl. unfold historyPage. rewrite Hid. simpl. unfold historyPageLimit.
  assert (Hb : (Z.ltb (if Z.eqb (hpr_StepLimit req) 0 then 100 else hpr_StepLimit req) 0 || Z.ltb 100 (if Z.eqb (hpr_StepLimit req) 0 then 100 else hpr_StepLimit req))%Z = false).
  { destruct (Z.eqb_spec (hpr_StepLimit req) 0); [done|]. apply orb_false_iff. split; apply Z.ltb_ge; lia. }
  rewrite Hb. simpl. destruct (Nat.eqb _ 0); eauto.
Qed.

End Pages.

(** ** Reading a whole history *)
Lemma count_before_le h before : count_before h before <= length h.
Proof. induction h as [|f h IH]; simpl; [done|]. destruct (Z.ltb _ _); lia. Qed.
Lemma step_back_le h s n : step_back h s n <= n.
Proof. induction n as [|n IH]; simpl; [done|]. destruct (String.eqb _ _); lia. Qed.
Lemma page_end_le h before : page_end h before <= length h.
Proof.
  unfold page_end. destruct (Z.eqb before 0); [done|]. pose proof (count_before_le h before).
  destruct (_ && _); [|done]. etrans; [apply step_back_le|done].
Qed.

Section ReadBack.
Context {J : JsonOps} {F : Fingerprints} {R : RequestFingerprint} {K : CursorCodec}.

(** A reader that asks for the page before [before], and then for the page
    before the oldest fact it got, until there are no more. *)
Fixpoint read_back (st : MemoryStore) (id : string) (limit : Z) (pages : nat) (before : Z) : result (list HistoryFact) :=
  match pages with
  | 0 => Err (ErrNew "too many pages")
  | S pages =>
    page ← HistoryPage_ Live st (MkHistoryPageRequest id before limit);
    if hp_HasMore page then
      match head (hp_Facts page) with
      | None => Panic "index out of range"
      | Some oldest =>
        older ← read_back st id limit pages (hf_Sequence oldest);
        Ok (older ++ hp_Facts page)
      end
    else Ok (hp_Facts page)
  end.

Lemma HistoryPage_found st id a before limit :
  st_sessions st !! id = Some a -> ID_Valid id = true ->
  HistoryPage_ Live st (MkHistoryPageRequest id before limit) =
  (page ← historyPage (sn_History (ag_snapshot a)) (MkHistoryPageRequest id before limit);
   let sess := sn_Session (ag_snapshot a) in
   Ok (MkHistoryPage (sess_AgentID sess) (sess_WorkspaceID sess) (sn_Revision (ag_snapshot a)) (hp_Facts page) (hp_HasMore page))).
Proof. intros Ha Hid. unfold HistoryPage_. simpl. rewrite Hid. simpl. unfold find_aggregate. by rewrite Ha. Qed.

Lemma read_back_from st id a limit :
  st_sessions st !! id = Some a -> ID_Valid id = true -> numbered (sn_History (ag_snapshot a)) -> (0 <= limit <= 100)%Z ->
  forall pages before, page_end (sn_History (ag_snapshot a)) before <= length (sn_History (ag_snapshot a)) ->
    page_end (sn_History (ag_snapshot a)) before < pages ->
    read_back st id limit pages before = Ok (take (page_end (sn_History (ag_snapshot a)) before) (sn_History (ag_snapshot a))).
Proof.
  intros Ha Hid Hn Hl. set (h := sn_History (ag_snapshot a)) in *. induction pages as [|pages IH]; intros before Hle Hlt; [lia|]. cbn [read_back].
  rewrite (HistoryPage_found st id a) by done. fold h.
  destruct (historyPage_returns h (MkHistoryPageRequest id before limit)) as [page Hpage]; [done|done|]. rewrite Hpage.
  apply historyPage_spec in Hpage as Hspec. cbn [mbind result_bind hp_HasMore hp_Facts]. simpl hpr_Before in Hspec. set (stop := page_end h before) in *.
  destruct Hspec as [[Hz ->]|(l&start&_&_&Hbegin&Hfacts&Hmore)]; [by rewrite Hz|]. rewrite Hmore, Hfacts.
  destruct (Nat.ltb_spec 0 start) as [Hpos|Hzero].
  - pose proof (pb_before _ _ _ _ Hbegin) as Hb. destruct (h !! start) as [f|] eqn:Ef; [|apply lookup_ge_None in Ef; lia].
    assert (Hd : drop start h = f :: drop (S start) h) by (by apply drop_S).
    destruct (stop - start) as [|k] eqn:Ek; [lia|]. rewrite Hd at 1. cbn [take head].
    assert (Hend : page_end h (hf_Sequence f) = start).
    { rewrite (Hn start f Ef). by apply (page_end_next h l stop). }
    rewrite IH by (rewrite Hend; lia). rewrite Hend. cbn [mbind result_bind]. f_equal. rewrite <-Ek.
    rewrite <-(take_drop start (take stop h)). rewrite take_take, Nat.min_l by lia. f_equal. rewrite take_drop_commute. f_equal. f_equal. lia.
  - replace start with 0 by lia. by rewrite Nat.sub_0_r.
Qed.

(** C18. Reading a session backwards page by page, with any step limit the
    store accepts, returns exactly its history: no fact is lost, repeated or
    reordered, although a page never begins inside a step and the facts of
    older runs may be left to the page before; and it takes at most one more
    page than there are facts. *)
Theorem history_pages_tile st id a limit :
  reachable st -> st_sessions st !! id = Some a -> room (length (sn_History (ag_snapshot a))) -> (0 <= limit <= 100)%Z ->
  read_back st id limit (S (length (sn_History (ag_snapshot a)))) 0 = Ok (sn_History (ag_snapshot a)).
Proof.
  intros Hst Ha Hr Hl. destruct (store_reachable_wf st Hst id a Ha) as [[Hc _ _] _]. destruct Hc.
  assert (Hend : page_end (sn_History (ag_snapshot a)) 0 = length (sn_History (ag_snapshot a))) by reflexivity.
  rewrite (read_back_from st id a limit Ha); [|done|by eapply wf_history_numbered|done|lia|lia]. by rewrite Hend, firstn_all.
Qed.

(** One page of a reachable session: it is a segment of the history that
    ends where the request says, it is empty only when nothing is before that
    place, it has at most [limit] steps and does not begin inside one, and it
    reports more pages exactly when facts are before it. *)
Theorem history_page_bounds st id a before limit page :
  reachable st -> st_sessions st !! id = Some a -> HistoryPage_ Live st (MkHistoryPageRequest id before limit) = Ok page ->
  let h := sn_History (ag_snapshot a) in
  exists start, let stop := page_end h before in
    hp_Facts page = take (stop - start) (drop start h) /\ hp_HasMore page = Nat.ltb 0 start /\ hp_Revision page = sn_Revision (ag_snapshot a) /\
    stop <= length h /\ (start = stop /\ stop = 0 \/
      page_begin h (Z.to_nat (if Z.eqb limit 0 then historyPageLimit else limit)) stop start).
Proof.
  intros Hst Ha H h. destruct (store_reachable_wf st Hst id a Ha) as [[Hc _ _] _]. destruct Hc.
  rewrite (HistoryPage_found st id a) in H by done. fold h in H. apply bind_Ok in H as (p&Hp&H). injection H as <-. simpl.
  apply historyPage_spec in Hp. simpl in Hp. pose proof (page_end_le h before) as Hle. set (stop := page_end h before) in *.
  destruct Hp as [[Hz ->]|(l&start&Hl&Heq&Hbegin&Hfacts&Hmore)].
  - exists 0. rewrite Hz. split_and!; [done|done|done|lia|by left].
  - exists start. split_and!; [done|done|done|done|]. right. destruct Heq as [[-> ->]| ->]; [done|].
    rewrite (proj2 (Z.eqb_neq _ _)) by lia. by rewrite Nat2Z.id.
Qed.

End ReadBack.

(** ** The example session read one step at a time *)
Lemma history_pages_tile_witness : read_back store3 "s" 1 5 0 = Ok (sn_History (ag_snapshot (aggregate_in store3))).
Proof. apply (history_pages_tile store3 "s" (aggregate_in store3) 1); [exact reachable_store3|vm_compute; reflexivity|vm_compute; reflexivity|vm_compute; split; discriminate]. Defined.

Definition page_of (r : result HistoryPage) : HistoryPage := match r with Ok p => p | _ => empty_page end.
Lemma history_page_bounds_witness : exists start, let stop := page_end (sn_History (ag_snapshot (aggregate_in store3))) 3 in start <= stop /\ stop <= 4.
Proof.
  destruct (history_page_bounds store3 "s" (aggregate_in store3) 3 1 (page_of (HistoryPage_ Live store3 (MkHistoryPageRequest "s" 3 1)))) as (start&_&_&_&Hle&Hcase).
  - exact reachable_store3.
  - vm_compute. reflexivity.
  - vm_compute. reflexivity.
  - exists start. split; [|exact Hle]. destruct Hcase as [[Heq _]|[Hlt _ _]]; [rewrite Heq; exact (Nat.le_refl _)|exact (Nat.lt_le_incl _ _ Hlt)].
Defined.
