(* ===== verification/SessionFile.v ===== *)
(** * The Session store in files

    Models [FileStore] of [session/file_store.go]: one document per Session,
    validated on every read and replaced by a rename.

    The directory is a map from names to files.  Each system call of a write
    leaves a directory behind; a crash leaves one of them.  Which calls fail is
    read from a record of faults. *)

From S2P Require Import Prelude GoStrings AgentTypes ModelContracts SessionTypes ExtensionJournal.
From S2P Require Import SessionValidate SessionHistory SessionApply SessionRecover SessionCreate SessionStore.
From S2P Require Import SessionHistoryFacts.

Definition fileStoreFormatV1 : string := "agentslot.session-file/v1".
Definition fileStoreFormatV2 : string := "agentslot.session-file/v2".
Definition maxFileStoreDocumentBytes : Z := 256 * 2 ^ 20.

(** [fileStoreCommit] has the fields of [memoryCommit]. *)
Record fileStoreDocument := MkDocument {
  fd_Format : string;
  fd_Snapshot : Snapshot;
  fd_UpdatedAt : Time;
  fd_Idempotency : gmap string memoryCommit;
}.

(** [strings.HasSuffix(name, ".json")] *)
Definition is_json (name : string) : bool := String.eqb (String.substring (String.length name - 5) 5 name) ".json".

(** What the store uses of encoding/json, of crypto/sha256 and encoding/hex for
    the names of files, and of os.CreateTemp.  A document is portable when
    encoding and decoding give it back, as for a document whose strings are
    UTF-8 and whose raw JSON is compact; the extension journal of an encoded
    document is absent exactly when it is empty ([omitempty]). *)
Class DocumentCodec : Type := {
  encode_document : fileStoreDocument -> option string;
  decode_document : string -> result fileStoreDocument;
  trailing_data : string -> bool;
  extensionFieldPresent : string -> result bool;
  portable : fileStoreDocument -> Prop;
  file_name : string -> string;
  encode_portable d : portable d -> is_Some (encode_document d);
  decode_encoded d data : portable d -> encode_document d = Some data ->
    decode_document data = Ok d /\ trailing_data data = false /\
    extensionFieldPresent data = Ok (negb (bool_decide (sn_ExtensionJournal (fd_Snapshot d) = [])));
  file_name_inj : Inj (=) (=) file_name;
  file_name_json id : is_json (file_name id) = true;
}.

(** ** The directory *)
Record file := MkFile { fi_data : string; fi_ModTime : Time }.
Notation directory := (gmap string file).

(** Failing system calls: [None] is success. *)
Record ReadFaults := MkReadFaults { rf_open : option error; rf_stat : option error; rf_seek : option error; rf_restat : option error }.
Record WriteFaults := MkWriteFaults {
  wf_createTemp : string + error;      (* the fresh name *)
  wf_chmod : option error;
  wf_write : option (nat * option error);  (* a short or failed write *)
  wf_syncFile : option error;
  wf_closeFile : option error;
  wf_rename : option error;
  wf_remove : option error;
  wf_openDirectory : option error;
  wf_syncDirectory : option error;
  wf_closeDirectory : option error;
}.

Definition CodeSessionUnrecoverable := "session_unrecoverable".
Definition CodeApplicationNotStarted := "application_not_started".

Definition unrecoverableFile (id message : string) (cause : option error) : error :=
  NewCodedError ErrorInternal CodeSessionUnrecoverable "session.file_store"
    ((message, [AStr id]) :: match cause with Some e => error_text e | None => [] end) cause.
Definition unavailable (op message : string) (cause : error) : error := NewError ErrorUnavailable op (plain message) (Some cause).

(** [if err != nil { return wrap(err) }] *)
Definition fail_with (fault : option error) (wrap : error -> error) : result unit :=
  match fault with Some e => Err (wrap e) | None => Ok tt end.

(** ** Validation of a document *)
Fixpoint forM_index {A} (f : nat -> A -> result unit) (i : nat) (l : list A) : result unit :=
  match l with
  | [] => Ok tt
  | a :: l => f i a ;; forM_index f (S i) l
  end.

Section Validation.
Context {J : JsonOps} {F : Fingerprints}.

Definition validate_file_format (d : fileStoreDocument) : result unit :=
  let extensions := bool_decide (sn_ExtensionJournal (fd_Snapshot d) = []) in
  reject_if (negb (String.eqb (fd_Format d) fileStoreFormatV1) && negb (String.eqb (fd_Format d) fileStoreFormatV2))
    (Errorf "unsupported format" [AStr (fd_Format d)]) ;;
  reject_if (String.eqb (fd_Format d) fileStoreFormatV1 && negb extensions) (ErrNew "v1 session file cannot contain an extension journal") ;;
  reject_if (String.eqb (fd_Format d) fileStoreFormatV2 && extensions) (ErrNew "v2 session file requires an extension journal").

Definition validate_file_identity (id : string) (s : Snapshot) : result unit :=
  let sess := sn_Session s in
  reject_if (negb (String.eqb (sess_ID sess) id) || Z.eqb (sn_Revision s) 0 || negb (Z.eqb (sess_Revision sess) (sn_Revision s)))
    (ErrNew "session identity or revision is inconsistent") ;;
  reject_if (negb (ID_Valid (sess_AgentID sess)) || negb (ID_Valid (sess_WorkspaceID sess))) (ErrNew "session scope is incomplete") ;;
  match sn_Fork s with
  | None => Ok tt
  | Some fork =>
    reject_if (negb (String.eqb (fork_ParentSessionID fork) (sess_ParentSessionID sess)) || negb (ID_Valid (fork_ParentSessionID fork)))
      (ErrNew "fork provenance is inconsistent") ;;
    reject_if (Z.ltb (Z.of_nat (length (sn_History s))) (fork_CutoffSequence fork)) (ErrNew "fork cutoff exceeds the durable History prefix") ;;
    forM_ (fun f =>
      if Z.leb (hf_Sequence f) (fork_CutoffSequence fork) then
        reject_if (negb (ID_Valid (hf_OriginFactID f))) (ErrNew "forked History prefix fact has no source identity")
      else reject_if (nonempty (hf_OriginFactID f)) (ErrNew "child History fact unexpectedly carries source identity"))
      (sn_History s)
  end.

Definition validate_file_run (id : string) (s : Snapshot) : result unit :=
  let running runID := bool_decide (sn_RunState s = RunRunning) && String.eqb runID (sn_ActiveRunID s) in
  Config_Validate (sn_ModelConfig s) ;;
  reject_if (negb (RunState_Valid (sn_RunState s)) || negb (Bool.eqb (bool_decide (sn_RunState s = RunRunning)) (ID_Valid (sn_ActiveRunID s))))
    (ErrNew "run state and active run are inconsistent") ;;
  forM_index (fun i f =>
    HistoryFact_Validate f id ;;
    reject_if (negb (Z.eqb (hf_Sequence f) (u64 (Z.of_nat i + 1)))) (ErrNew "history sequence is not contiguous")) 0 (sn_History s) ;;
  forM_ (fun item =>
    reject_if (negb (validQueueItem item id)) (ErrNew "invalid queue item") ;;
    reject_if (Claimed item && negb (running (qi_ClaimedBy item))) (ErrNew "claimed queue item does not belong to the active run")) (sn_Queue s) ;;
  reject_if (duplicateQueueMessage ∅ (sn_Queue s)) (ErrNew "duplicate queue message") ;;
  forM_ (fun e =>
    JournalEntry_Validate e id ;;
    reject_if (unfinishedJournal (je_Status e) && negb (running (je_RunID e))) (ErrNew "unfinished journal does not belong to the active run"))
    (sn_RunJournal s).

(** The loop over the extension journal: [seen] are the invocations so far. *)
Fixpoint validate_file_extensions (id : string) (i : nat) (seen : gset string) (l : list ExtensionJournalEntry) : result unit :=
  match l with
  | [] => Ok tt
  | e :: l =>
    ext_Validate e id ;;
    reject_if (negb (Z.eqb (xe_Sequence e) (u64 (Z.of_nat i + 1)))) (ErrNew "extension sequence is not contiguous") ;;
    reject_if (bool_decide (xe_InvocationID e ∈ seen)) (ErrNew "duplicate extension invocation ID") ;;
    validate_file_extensions id (S i) ({[xe_InvocationID e]} ∪ seen) l
  end.

(** The loop over the retained contexts. *)
Fixpoint validate_retained (id : string) (s : Snapshot) (previous : Z) (l : list ContextView) : result unit :=
  match l with
  | [] => Ok tt
  | v :: l =>
    validateContext v id ;;
    validateContextRun (sn_History s) v ;;
    reject_if ((negb (Z.eqb previous 0) && Z.leb (cv_Version v) previous) || Z.leb (cv_Version (sn_Context s)) (cv_Version v))
      (ErrNew "retained context versions are inconsistent") ;;
    validate_retained id s (cv_Version v) l
  end.

Definition validate_file_contexts (id : string) (s : Snapshot) : result unit :=
  validateContext (sn_Context s) id ;;
  validateContextRun (sn_History s) (sn_Context s) ;;
  validate_retained id s 0 (sn_RetainedContexts s) ;;
  validateHistoryConsistency id (sn_History s) (sn_RunJournal s).

Definition bad_record (id : string) (s : Snapshot) (record : string * memoryCommit) : bool :=
  let c := mc_commit record.2 in
  empty record.1 || empty (mc_fingerprint record.2) || negb (String.eqb (co_SessionID c) id) || Z.eqb (co_Revision c) 0 ||
  Z.ltb (sn_Revision s) (co_Revision c).

Definition validate_file_records (id : string) (d : fileStoreDocument) : result unit :=
  let s := fd_Snapshot d in
  forM_ (fun e => reject_if (negb (is_ok (SessionEvent_Validate e)) || Z.eqb (ev_Revision e) 0 || Z.ltb (sn_Revision s) (ev_Revision e))
    (ErrNew "invalid session event")) (sn_Events s) ;;
  reject_if (existsb (bad_record id s) (map_to_list (fd_Idempotency d))) (ErrNew "invalid idempotency record").

Definition validateFileDocument (id : string) (d : fileStoreDocument) : result unit :=
  validate_file_format d ;;
  validate_file_identity id (fd_Snapshot d) ;;
  validate_file_run id (fd_Snapshot d) ;;
  validate_file_extensions id 0 ∅ (sn_ExtensionJournal (fd_Snapshot d)) ;;
  validate_file_contexts id (fd_Snapshot d) ;;
  validate_file_records id d.

End Validation.

(** ** Reading *)
Section FileStore.
Context {J : JsonOps} {F : Fingerprints} {R : RequestFingerprint} {K : CursorCodec} {D : DocumentCodec}.

(** A v1 document must not have the field that v2 added, not even empty. *)
Definition check_schema (faults : ReadFaults) (id data : string) (document : fileStoreDocument) : result unit :=
  if String.eqb (fd_Format document) fileStoreFormatV1 then
    found ← map_err (fun e => unrecoverableFile id "cannot inspect session file schema" (Some e))
      (fail_with (rf_seek faults) (fun e => e) ;; extensionFieldPresent data);
    reject_if found (unrecoverableFile id "v1 session file contains a v2 field" None)
  else Ok tt.

(** [readDocumentLocked] *)
Definition readDocument (faults : ReadFaults) (d : directory) (name expectedID : string) : result fileStoreDocument :=
  let broken message cause := unrecoverableFile expectedID message cause in
  let load := "session.file_store.load" in
  found ← match d !! name with
    | None => Err (NewCodedError ErrorNotFound CodeSessionNotFound load (plain "session not found") None)
    | Some found => Ok found
    end;
  fail_with (rf_open faults) (unavailable load "cannot open session file") ;;
  fail_with (rf_stat faults) (unavailable load "cannot inspect session file") ;;
  let data := fi_data found in
  let oversized := Z.ltb maxFileStoreDocumentBytes (Z.of_nat (String.length data)) in
  reject_if oversized (broken "session file exceeds the configured safety limit" None) ;;
  document ← map_err (fun e => broken "cannot decode session file" (Some e)) (decode_document data);
  reject_if (trailing_data data) (broken "session file contains trailing data" None) ;;
  check_schema faults expectedID data document ;;
  fail_with (rf_restat faults) (fun e => broken "session file changed or exceeded the safety limit while reading" (Some e)) ;;
  let id := if ID_Valid expectedID then expectedID else sess_ID (sn_Session (fd_Snapshot document)) in
  let document := MkDocument (fd_Format document) (fd_Snapshot document)
    (if IsZero (fd_UpdatedAt document) then fi_ModTime found else fd_UpdatedAt document) (fd_Idempotency document) in
  map_err (fun e => unrecoverableFile id "session file violates aggregate invariants" (Some e)) (validateFileDocument id document) ;;
  Ok document.

Definition read (faults : ReadFaults) (d : directory) (id : string) : result fileStoreDocument := readDocument faults d (file_name id) id.

(** ** Writing *)
Definition persist_op : string := "session.file_store.persist".

(** What is in the temporary file when the write stops, and why it stopped. *)
Definition write_temp (faults : WriteFaults) (ctx : context) (data : string) : string * result unit :=
  match wf_chmod faults with
  | Some e => ("", Err (unavailable persist_op "cannot secure temporary session file" e))
  | None =>
    let '(content, failure) := match wf_write faults with
      | None => (data, None)
      | Some (n, e) =>
        (String.substring 0 n data,
         if Nat.eqb n (String.length data) then e else Some (ErrJoin (match e with Some e => [e] | None => [] end ++ [ErrNew "short write"])))
      end in
    (content,
     fail_with failure (unavailable persist_op "cannot write complete temporary session file") ;;
     fail_with (wf_syncFile faults) (unavailable persist_op "cannot sync temporary session file") ;;
     fail_with (wf_closeFile faults) (unavailable persist_op "cannot close temporary session file") ;;
     contextErr ctx persist_op ;;
     fail_with (wf_rename faults) (unavailable persist_op "cannot atomically replace session file"))
  end.

Definition sync_directory (faults : WriteFaults) : result unit :=
  fail_with (wf_openDirectory faults) (unavailable persist_op "cannot open storage directory for sync") ;;
  match wf_syncDirectory faults, wf_closeDirectory faults with
  | None, None => Ok tt
  | a, b => Err (unavailable persist_op "cannot sync storage directory"
      (ErrJoin (match a with Some e => [e] | None => [] end ++ match b with Some e => [e] | None => [] end)))
  end.

(** [persistLocked]: the directories after its system calls, the last one being
    the final one.  [ctx'] is the context at its second test, [now] the time the
    file gets. *)
Definition persist (faults : WriteFaults) (ctx ctx' : context) (now : Time) (d : directory) (name : string) (document : fileStoreDocument)
    : list directory * directory * result unit :=
  match
    (contextErr ctx persist_op ;;
     match encode_document document with
     | None => Err (NewError ErrorInternal persist_op (plain "cannot encode session aggregate") None)
     | Some data =>
       match wf_createTemp faults with
       | inr e => Err (unavailable persist_op "cannot create temporary session file" e)
       | inl temporary => Ok (data, temporary)
       end
     end)
  with
  | Err e => ([], d, Err e)
  | Panic msg => ([], d, Panic msg)
  | Ok (data, temporary) =>
    let created := <[temporary := MkFile "" now]> d in
    let '(content, outcome) := write_temp faults ctx' data in
    let written := <[temporary := MkFile content now]> d in
    match outcome with
    | Ok _ =>
      let renamed := <[name := MkFile content now]> (delete temporary d) in
      ([d; created; written], renamed, sync_directory faults)
    | failed => ([d; created; written], if present (wf_remove faults) then written else delete temporary written, failed)
    end
  end.

(** ** Operations *)
Record FileStore := MkFileStore { fs_opened : bool; fs_list : sessionListIndex; fs_directory : directory }.

(** Everything an operation reads from outside: the clocks, the faults of its
    system calls, and its context at the start, at the start of the write and
    before the rename. *)
Record Outside := MkOutside {
  ou_readings : Readings; ou_fresh : Identity; ou_read : ReadFaults; ou_write : WriteFaults;
  ou_context : context; ou_persist : context; ou_rename : context; ou_stat : option error;
}.

Definition ensureOpen (s : FileStore) (op : string) : result unit :=
  reject_if (negb (fs_opened s)) (NewCodedError ErrorUnavailable CodeApplicationNotStarted op (plain "FileStore is not open") None).

(** [Open] and [Close]; the directory is there and can be used. *)
Definition Open (fresh : Identity) (ctx : context) (s : FileStore) : FileStore * result unit :=
  match
    (contextErr ctx "session.file_store.open" ;;
     reject_if (fs_opened s) (NewError ErrorConflict "session.file_store.open" (plain "FileStore is already open") None))
  with
  | Ok _ => (MkFileStore true (reset fresh) (fs_directory s), Ok tt)
  | Err e => (s, Err e)
  | Panic msg => (s, Panic msg)
  end.
Definition Close_ (ctx : context) (s : FileStore) : FileStore * result unit :=
  match contextErr ctx "session.file_store.close" with
  | Ok _ => (MkFileStore false (fs_list s) (fs_directory s), Ok tt)
  | Err e => (s, Err e)
  | Panic msg => (s, Panic msg)
  end.

(** Write [document] and report [r] if that succeeds; the index has advanced
    in any case. *)
Definition persist_and_return {A} (o : Outside) (s : FileStore) (index : sessionListIndex) (id : string) (document : fileStoreDocument) (r : A)
    : FileStore * result A :=
  let '(_, d, outcome) := persist (ou_write o) (ou_persist o) (ou_rename o) (at_update (ou_readings o)) (fs_directory s) (file_name id) document in
  (MkFileStore (fs_opened s) index d, _ ← outcome; Ok r).

Definition File_Create (o : Outside) (s : FileStore) (initial : NewSession) : FileStore * result Snapshot :=
  let id := sess_ID (ns_Session initial) in
  match
    (contextErr (ou_context o) "session.file_store.create" ;;
     validateNewSession initial ;;
     history ← prepareInitialHistory (at_fact (ou_readings o)) id (ns_History initial);
     ensureOpen s "session.file_store.create" ;;
     reject_if (absent (ou_stat o) && present (fs_directory s !! file_name id))
       (NewCodedError ErrorConflict CodeSessionAlreadyExists "session.file_store.create" (plain "session already exists") None) ;;
     fail_with (ou_stat o) (unavailable "session.file_store.create" "cannot inspect session file") ;;
     Ok history)
  with
  | Ok history =>
    let snapshot := initial_snapshot initial history in
    let '(index, updatedAt) := recordCreate (ou_fresh o) (at_update (ou_readings o)) (fs_list s) id in
    persist_and_return o s index id (MkDocument fileStoreFormatV1 snapshot updatedAt ∅) snapshot
  | Err e => (s, Err e)
  | Panic msg => (s, Panic msg)
  end.

(** Open, with a valid Session ID, and the document read. *)
Definition opened_document (o : Outside) (s : FileStore) (op id : string) : result fileStoreDocument :=
  contextErr (ou_context o) op ;;
  reject_if (negb (ID_Valid id)) (invalid op (plain "session ID is required")) ;;
  ensureOpen s op ;;
  read (ou_read o) (fs_directory s) id.

Definition File_Load (o : Outside) (s : FileStore) (id : string) : result Snapshot :=
  fd_Snapshot <$> opened_document o s "session.file_store.load" id.

Definition File_HistoryPage (o : Outside) (s : FileStore) (request : HistoryPageRequest) : result HistoryPage :=
  document ← opened_document o s "session.file_store.history_page" (hpr_SessionID request);
  page ← historyPage (sn_History (fd_Snapshot document)) request;
  let sess := sn_Session (fd_Snapshot document) in
  Ok (MkHistoryPage (sess_AgentID sess) (sess_WorkspaceID sess) (sn_Revision (fd_Snapshot document)) (hp_Facts page) (hp_HasMore page)).

Definition File_ExtensionDiagnostics (o : Outside) (s : FileStore) (request : ExtensionPageRequest) : result ExtensionPage :=
  document ← opened_document o s "session.file_store.extension_diagnostics" (epr_SessionID request);
  page ← extensionPage (sn_ExtensionJournal (fd_Snapshot document)) request;
  let sess := sn_Session (fd_Snapshot document) in
  Ok (MkExtensionPage (sess_AgentID sess) (sess_WorkspaceID sess) (sn_Revision (fd_Snapshot document)) (ep_Diagnostics page) (ep_HasMore page)).

Definition File_Recover (o : Outside) (s : FileStore) (id : string) : FileStore * result Snapshot :=
  match opened_document o s "session.file_store.recover" id with
  | Ok document =>
    match recoverAggregate (ou_readings o) (fd_Snapshot document) with
    | (snapshot, Ok true) =>
      let snapshot := with_revision snapshot (u64 (sn_Revision snapshot + 1)) in
      let '(index, updatedAt) := nextUpdatedAt (ou_fresh o) (at_update (ou_readings o)) (fs_list s) (fd_UpdatedAt document) in
      persist_and_return o s index id (MkDocument (fd_Format document) snapshot updatedAt (fd_Idempotency document)) snapshot
    | (snapshot, Ok false) => (s, Ok snapshot)
    | (_, Err e) => (s, Err e)
    | (_, Panic msg) => (s, Panic msg)
    end
  | Err e => (s, Err e)
  | Panic msg => (s, Panic msg)
  end.

(** A v1 document with an extension journal becomes a v2 document. *)
Definition upgraded (document : fileStoreDocument) (working : Snapshot) : string :=
  if String.eqb (fd_Format document) fileStoreFormatV1 && negb (bool_decide (sn_ExtensionJournal working = [])) then fileStoreFormatV2
  else fd_Format document.

(** [Commit] between the read and the write. *)
Definition commit_document (r : Readings) (document : fileStoreDocument) (request : CommitRequest) : result (option (Snapshot * string) * Commit_) :=
  let commit := "session.file_store.commit" in
  let snapshot := fd_Snapshot document in
  fingerprint ← match requestFingerprint request with
    | Some fp => Ok fp
    | None => Err (NewError ErrorInternal commit (plain "cannot fingerprint idempotent request") None)
    end;
  match fd_Idempotency document !! cr_IdempotencyKey request with
  | Some previous =>
    reject_if (negb (String.eqb (mc_fingerprint previous) fingerprint))
      (NewCodedError ErrorConflict CodeRevisionConflict commit (plain "idempotency key was already used for another request") None) ;;
    let c := mc_commit previous in
    Ok (None, MkCommit (co_SessionID c) (co_Revision c) (co_FirstHistorySequence c) (co_LastHistorySequence c) false)
  | None =>
    reject_if (negb (Z.eqb (cr_ExpectedRevision request) (sn_Revision snapshot)))
      (NewCodedError ErrorConflict CodeRevisionConflict commit (plain "expected revision does not match") None) ;;
    working ← applyChanges (at_fact r) snapshot request;
    let working := with_revision working (u64 (sn_Revision working + 1)) in
    let '(first, last) := appendedHistoryRange (length (sn_History snapshot)) (length (sn_History working)) in
    Ok (Some (working, fingerprint), MkCommit (cr_SessionID request) (sn_Revision working) first last true)
  end.

Definition File_Commit (o : Outside) (s : FileStore) (request : CommitRequest) : FileStore * result Commit_ :=
  match
    (contextErr (ou_context o) "session.file_store.commit" ;;
     map_err (fun e => invalid "session.file_store.commit" (error_text e)) (CommitRequest_Validate request) ;;
     ensureOpen s "session.file_store.commit" ;;
     document ← read (ou_read o) (fs_directory s) (cr_SessionID request);
     outcome ← commit_document (ou_readings o) document request;
     Ok (document, outcome))
  with
  | Ok (document, (Some (working, fingerprint), c)) =>
    let '(index, updatedAt) := nextUpdatedAt (ou_fresh o) (at_update (ou_readings o)) (fs_list s) (fd_UpdatedAt document) in
    let records := <[cr_IdempotencyKey request := MkMemoryCommit fingerprint c]> (fd_Idempotency document) in
    persist_and_return o s index (cr_SessionID request) (MkDocument (upgraded document working) working updatedAt records) c
  | Ok (_, (None, c)) => (s, Ok c)
  | Err e => (s, Err e)
  | Panic msg => (s, Panic msg)
  end.

(** [observeUpdatedAt] *)
Definition observeUpdatedAt (fresh : Identity) (index : sessionListIndex) (value : Time) : sessionListIndex :=
  let index := ensure fresh index in
  if Z.ltb (ix_lastUpdatedAt index) value then
    MkIndex (ix_epoch index) (ix_cursorKey index) (ix_generation index) (ix_created index) value
  else index.

(** The loop over the directory, in the order of the names; entries that are
    not regular files are not in the model.  A failing read leaves the index as
    far as it got. *)
Fixpoint list_entries (o : Outside) (request : ListRequest) (d : directory) (names : list string) (index : sessionListIndex)
    (listed : list listedSession) : sessionListIndex * result (list listedSession) :=
  match names with
  | [] => (index, Ok listed)
  | name :: names =>
    if negb (is_json name) then list_entries o request d names index listed
    else
      match readDocument (ou_read o) d name "" with
      | Ok document =>
        let current := fd_Snapshot document in
        let sess := sn_Session current in
        let index := observeUpdatedAt (ou_fresh o) index (fd_UpdatedAt document) in
        if String.eqb (sess_AgentID sess) (lr_AgentID request) && String.eqb (sess_WorkspaceID sess) (lr_WorkspaceID request) then
          list_entries o request d names index
            (listed ++ [MkListedSession
              (MkSessionSummary (sess_ID sess) (sess_AgentID sess) (sess_WorkspaceID sess) (sn_Revision current) (fd_UpdatedAt document))
              (generationFor index (sess_ID sess))])
        else list_entries o request d names index listed
      | Err e => (index, Err e)
      | Panic msg => (index, Panic msg)
      end
  end.

Definition file_names (d : directory) : list string := merge_sort string_le (elements (dom d)).

Definition File_ListSessions (o : Outside) (readDir : option error) (s : FileStore) (request : ListRequest) : FileStore * result ListResult :=
  let list := "session.file_store.list" in
  match
    (contextErr (ou_context o) list ;;
     map_err (fun e => invalid list (error_text e)) (ListRequest_Validate request) ;;
     ensureOpen s list ;;
     fail_with readDir (unavailable list "cannot read storage directory"))
  with
  | Ok _ =>
    let '(index, sessions) := list_entries o request (fs_directory s) (file_names (fs_directory s)) (fs_list s) [] in
    match sessions with
    | Ok sessions =>
      let index := ensure (ou_fresh o) index in
      (MkFileStore (fs_opened s) index (fs_directory s),
       map_err (fun e => invalid list (error_text e)) (paginate index request sessions))
    | Err e => (MkFileStore (fs_opened s) index (fs_directory s), Err e)
    | Panic msg => (MkFileStore (fs_opened s) index (fs_directory s), Panic msg)
    end
  | Err e => (s, Err e)
  | Panic msg => (s, Panic msg)
  end.

End FileStore.

(** * Crash safety of the file store

    A document that was accepted can be read back, and a write that stops
    anywhere leaves the old document or the complete new one. *)

(** No system call of a read fails. *)
Definition quiet_read : ReadFaults := MkReadFaults None None None None.
Definition no_write_fault (temporary : string) : WriteFaults :=
  MkWriteFaults (inl temporary) None None None None None None None None None.

Lemma substring_all s : String.substring 0 (String.length s) s = s.
Proof. induction s as [|c s IH]; [done|]. simpl. by rewrite IH. Qed.

Section FileFacts.
Context {J : JsonOps} {F : Fingerprints} {D : DocumentCodec}.

(** What a reader accepts as the document of Session [id]. *)
Record acceptable (id : string) (document : fileStoreDocument) : Prop := {
  ac_portable : portable document;
  ac_size data : encode_document document = Some data -> (Z.of_nat (String.length data) <= maxFileStoreDocumentBytes)%Z;
  ac_time : fd_UpdatedAt document ≠ 0%Z;
  ac_valid : validateFileDocument id document = Ok tt;
}.

Lemma validate_format_v1 id document :
  validateFileDocument id document = Ok tt -> fd_Format document = fileStoreFormatV1 -> sn_ExtensionJournal (fd_Snapshot document) = [].
Proof.
  intros H Hf. apply bind_Ok in H as (u&H&_). unfold validate_file_format in H. inv_ok. rewrite Hf in *.
  match goal with H : String.eqb fileStoreFormatV1 fileStoreFormatV1 && _ = false |- _ => rewrite String.eqb_refl in H; cbn in H end.
  bool_simpl. done.
Qed.

Lemma validate_identity id document : validateFileDocument id document = Ok tt -> sess_ID (sn_Session (fd_Snapshot document)) = id.
Proof.
  intros H. unfold validateFileDocument in H. apply bind_Ok in H as (u&_&H). apply bind_Ok in H as (u'&H&_).
  unfold validate_file_identity in H. apply bind_Ok in H as (u2&H&_). apply reject_if_Ok in H. by bool_simpl.
Qed.

(** An acceptable document reads back, by its name or found in a listing. *)
Lemma read_acceptable d name id expected document data t :
  acceptable id document -> encode_document document = Some data -> d !! name = Some (MkFile data t) ->
  expected = id \/ expected = "" -> readDocument quiet_read d name expected = Ok document.
Proof.
  intros [Hp Hsize Ht Hv] He Hd Hex. destruct (decode_encoded _ _ Hp He) as (Hdec&Htrail&Hfield). unfold readDocument. rewrite Hd.
  cbn [mbind result_bind fail_with rf_open rf_stat rf_seek rf_restat quiet_read fi_data].
  rewrite (proj2 (Z.ltb_ge _ _)) by (by apply Hsize). cbn [reject_if mbind result_bind]. rewrite Hdec, Htrail.
  cbn [reject_if map_err mbind result_bind].
  assert (Hformat : check_schema quiet_read expected data document = Ok tt).
  { unfold check_schema. destruct (String.eqb _ _) eqn:E; [|done]. apply String.eqb_eq in E. cbn [rf_seek quiet_read fail_with mbind result_bind].
    rewrite Hfield. cbn [map_err mbind result_bind]. by rewrite (validate_format_v1 _ _ Hv E), bool_decide_eq_true_2. }
  rewrite Hformat. cbn [mbind result_bind].
  assert (Hsame : MkDocument (fd_Format document) (fd_Snapshot document)
    (if IsZero (fd_UpdatedAt document) then fi_ModTime (MkFile data t) else fd_UpdatedAt document) (fd_Idempotency document) = document).
  { destruct document as [f s u i]. unfold IsZero. simpl in *. by rewrite (proj2 (Z.eqb_neq u 0)). }
  rewrite Hsame. assert (Hid : (if ID_Valid expected then expected else sess_ID (sn_Session (fd_Snapshot document))) = id).
  { destruct Hex as [-> | ->]; [destruct (ID_Valid id)|]; [done|by apply validate_identity..]. }
  by rewrite Hid, Hv.
Qed.

(** ** Writing *)

(** Only the temporary file and, at the rename, the file called [name] change. *)
Inductive written_to (d : directory) (name temporary : string) (new : file) : directory -> Prop :=
  | before : written_to d name temporary new d
  | pending content : written_to d name temporary new (<[temporary := content]> d)
  | replaced : written_to d name temporary new (<[name := new]> d).

Lemma written_to_lookup d name temporary new d' : temporary ≠ name -> written_to d name temporary new d' ->
  (d' !! name = d !! name \/ d' !! name = Some new) /\ forall other, other ≠ temporary -> other ≠ name -> d' !! other = d !! other.
Proof.
  intros Hne [|content|].
  - split; [by left|done].
  - split; [left; by rewrite lookup_insert_ne|intros other H1 H2; by rewrite lookup_insert_ne].
  - split; [right; by rewrite lookup_insert_eq|intros other H1 H2; by rewrite lookup_insert_ne].
Qed.

Lemma delete_temporary (d : directory) temporary f g : d !! temporary = None -> delete temporary (<[temporary := f]> (<[temporary := g]> d)) = d.
Proof. intros H. rewrite insert_insert_eq, delete_insert_eq. by apply delete_id. Qed.

Lemma sync_directory_returns faults : sync_directory faults = Ok tt \/ exists e, sync_directory faults = Err e.
Proof.
  unfold sync_directory. destruct (wf_openDirectory faults); simpl; [by eauto|].
  destruct (wf_syncDirectory faults), (wf_closeDirectory faults); eauto.
Qed.

Lemma write_temp_returns faults ctx data content outcome :
  write_temp faults ctx data = (content, outcome) -> outcome = Ok tt /\ content = data \/ exists e, outcome = Err e.
Proof.
  unfold write_temp. destruct (wf_chmod faults); [intros [= <- <-]; by eauto|].
  intros H. assert (Hout : exists failure, (failure = None -> content = data) /\ outcome = (
     fail_with failure (unavailable persist_op "cannot write complete temporary session file") ;;
     fail_with (wf_syncFile faults) (unavailable persist_op "cannot sync temporary session file") ;;
     fail_with (wf_closeFile faults) (unavailable persist_op "cannot close temporary session file") ;;
     contextErr ctx persist_op ;;
     fail_with (wf_rename faults) (unavailable persist_op "cannot atomically replace session file"))).
  { destruct (wf_write faults) as [[n e]|]; injection H as <- <-; [|by exists None].
    eexists. split; [|reflexivity]. destruct (Nat.eqb_spec n (String.length data)) as [->|_]; [|done]. intros _. apply substring_all. }
  destruct Hout as (failure&Hf&->).
  destruct failure, (wf_syncFile faults), (wf_closeFile faults), ctx, (wf_rename faults); simpl; eauto.
Qed.

(** How a write goes: it does nothing, it gives up before the rename and
    removes its temporary file, or it replaces the document. *)
Lemma persist_cases faults ctx ctx' now d name document temporary trace final outcome :
  wf_createTemp faults = inl temporary -> d !! temporary = None ->
  persist faults ctx ctx' now d name document = (trace, final, outcome) ->
  (trace = [] /\ final = d /\ exists e, outcome = Err e) \/
  exists data, encode_document document = Some data /\
    let new := MkFile data now in
    Forall (written_to d name temporary new) trace /\
    (final = <[name := new]> d /\ outcome = sync_directory faults \/
     (exists e, outcome = Err e) /\ exists rest, final = (if present (wf_remove faults) then <[temporary := MkFile rest now]> d else d)).
Proof.
  intros Ht Hfresh H. unfold persist in H. rewrite Ht in H. destruct ctx; [|injection H as <- <- <-; left; by eauto..].
  cbn [contextErr mbind result_bind] in H.
  destruct (encode_document document) as [data|]; [|injection H as <- <- <-; left; by eauto]. cbn [mbind result_bind] in H. cbv zeta in H.
  destruct (write_temp faults ctx' data) as [content out] eqn:E. right. exists data. split; [done|].
  apply write_temp_returns in E as [[-> ->]|[e ->]]; injection H as <- <- <-; cbv zeta.
  - split; [repeat constructor|]. left. by rewrite delete_id.
  - split; [repeat constructor|]. right. split; [by eauto|]. exists content.
    destruct (present _); [done|]. by rewrite delete_insert_eq, delete_id.
Qed.


End FileFacts.
