(* ===== verification/SessionFileRefinement.v ===== *)
(** * The file store behaves like the store in memory

    One request language for both stores, the relation between a directory and
    the aggregates it represents, and the simulation. *)

From S2P Require Import Prelude GoStrings AgentTypes ModelContracts SessionTypes ExtensionJournal.
From S2P Require Import SessionValidate SessionHistory SessionApply SessionRecover SessionCreate SessionStore SessionFile.
From S2P Require Import TextFacts SessionHistoryFacts SessionCreateFacts SessionInvariant SessionCommitFacts SessionRecoverFacts.
From S2P Require Import SessionStoreFacts SessionFile SessionProperties.

(** ** Requests and answers *)
Inductive request :=
  | ReqCreate (initial : NewSession)
  | ReqLoad (id : string)
  | ReqHistoryPage (q : HistoryPageRequest)
  | ReqExtensionDiagnostics (q : ExtensionPageRequest)
  | ReqListSessions (q : ListRequest)
  | ReqCommit (q : CommitRequest)
  | ReqRecover (id : string).

Inductive answer :=
  | AnsSnapshot (r : result Snapshot)
  | AnsHistory (r : result HistoryPage)
  | AnsExtensions (r : result ExtensionPage)
  | AnsList (r : result ListResult)
  | AnsCommit (r : result Commit_).

(** Two stores name their operations differently in errors; a client sees the
    kind and the code. *)
Definition error_class (e : error) : option (string * string) :=
  match e with ErrClassified c _ => Some (ce_kind c, ce_code c) | _ => None end.
Definition agree {A B} (P : A -> B -> Prop) (r : result A) (r' : result B) : Prop :=
  match r, r' with
  | Ok a, Ok b => P a b
  | Err e, Err e' => error_class e = error_class e'
  | Panic m, Panic m' => m = m'
  | _, _ => False
  end.
Definition same_answer (a b : answer) : Prop :=
  match a, b with
  | AnsSnapshot r, AnsSnapshot r' => agree (=) r r'
  | AnsHistory r, AnsHistory r' => agree (=) r r'
  | AnsExtensions r, AnsExtensions r' => agree (=) r r'
  | AnsList r, AnsList r' => agree (=) r r'
  | AnsCommit r, AnsCommit r' => agree (=) r r'
  | _, _ => False
  end.

Lemma agree_refl {A} (r : result A) : agree (=) r r.
Proof. by destruct r. Qed.
Lemma agree_bind {A B A' B'} (P : A -> A' -> Prop) (Q : B -> B' -> Prop) r r' (f : A -> result B) (f' : A' -> result B') :
  agree P r r' -> (forall a a', P a a' -> agree Q (f a) (f' a')) -> agree Q (r ≫= f) (r' ≫= f').
Proof. destruct r, r'; simpl; auto; done. Qed.
Lemma agree_fmap {A B A' B'} (P : A -> A' -> Prop) (Q : B -> B' -> Prop) r r' (f : A -> B) (f' : A' -> B') :
  agree P r r' -> (forall a a', P a a' -> Q (f a) (f' a')) -> agree Q (f <$> r) (f' <$> r').
Proof. destruct r, r'; simpl; auto; done. Qed.
Lemma agree_contextErr ctx op op' : agree (=) (contextErr ctx op) (contextErr ctx op').
Proof. by destruct ctx. Qed.
Lemma agree_reject bad e e' : error_class e = error_class e' -> agree (=) (reject_if bad e) (reject_if bad e').
Proof. by destruct bad. Qed.
Lemma agree_map_err {A} w w' (r : result A) : (forall e, error_class (w e) = error_class (w' e)) -> agree (=) (map_err w r) (map_err w' r).
Proof. intros H. destruct r; simpl; auto. Qed.

Section Refinement.
Context {J : JsonOps} {F : Fingerprints} {R : RequestFingerprint} {K : CursorCodec} {D : DocumentCodec}.

(** ** Both stores on a request *)
Definition memory_request (o : Outside) (st : MemoryStore) (q : request) : MemoryStore * answer :=
  match q with
  | ReqCreate n => prod_map id AnsSnapshot (Create (ou_readings o) (ou_fresh o) (ou_context o) st n)
  | ReqLoad id => (st, AnsSnapshot (Load (ou_context o) st id))
  | ReqHistoryPage q => (st, AnsHistory (HistoryPage_ (ou_context o) st q))
  | ReqExtensionDiagnostics q => (st, AnsExtensions (ExtensionDiagnostics (ou_context o) st q))
  | ReqListSessions q => prod_map id AnsList (ListSessions (ou_fresh o) (ou_context o) st q)
  | ReqCommit q => prod_map id AnsCommit (Commit (ou_readings o) (ou_fresh o) (ou_context o) st q)
  | ReqRecover id' => prod_map id AnsSnapshot (Recover (ou_readings o) (ou_fresh o) (ou_context o) st id')
  end.

Definition file_request (o : Outside) (s : FileStore) (q : request) : FileStore * answer :=
  match q with
  | ReqCreate n => prod_map id AnsSnapshot (File_Create o s n)
  | ReqLoad id => (s, AnsSnapshot (File_Load o s id))
  | ReqHistoryPage q => (s, AnsHistory (File_HistoryPage o s q))
  | ReqExtensionDiagnostics q => (s, AnsExtensions (File_ExtensionDiagnostics o s q))
  | ReqListSessions q => prod_map id AnsList (File_ListSessions o None s q)
  | ReqCommit q => prod_map id AnsCommit (File_Commit o s q)
  | ReqRecover id' => prod_map id AnsSnapshot (File_Recover o s id')
  end.

(** ** The relation *)
Definition document_of (a : memoryAggregate) : fileStoreDocument :=
  MkDocument (if bool_decide (sn_ExtensionJournal (ag_snapshot a) = []) then fileStoreFormatV1 else fileStoreFormatV2)
    (ag_snapshot a) (ag_updatedAt a) (ag_idempotency a).

(** Every aggregate is a document that a reader accepts: its strings survive
    the encoding, it is not too large, and it is valid. *)
Definition durable (st : MemoryStore) : Prop := map_Forall (fun id a => acceptable id (document_of a)) (st_sessions st).

(** The directory holds exactly the aggregates of [st]. *)
Record stored (st : MemoryStore) (d : directory) : Prop := {
  sd_durable : durable st;
  sd_found id a : st_sessions st !! id = Some a ->
    exists data t, d !! file_name id = Some (MkFile data t) /\ encode_document (document_of a) = Some data;
  sd_missing id : st_sessions st !! id = None -> d !! file_name id = None;
  sd_names name : is_json name = true -> is_Some (d !! name) -> exists id, name = file_name id /\ is_Some (st_sessions st !! id);
}.

Record represents (st : MemoryStore) (s : FileStore) : Prop := {
  rp_opened : fs_opened s = true;
  rp_index : fs_list s = st_list st;
  rp_ensured : ensured (st_list st);
  rp_stored : stored st (fs_directory s);
  rp_time id a : st_sessions st !! id = Some a -> (0 < ag_updatedAt a <= ix_lastUpdatedAt (st_list st))%Z;
}.

(** No system call of the operation fails, the name of the temporary file is
    fresh, and the context does not end between the start and the rename. *)
Record quiet (o : Outside) (s : FileStore) : Prop := {
  qu_read : ou_read o = quiet_read;
  qu_write : exists temporary, ou_write o = no_write_fault temporary /\ fs_directory s !! temporary = None;
  qu_persist : ou_persist o = Live;
  qu_rename : ou_rename o = Live;
  qu_stat : ou_stat o = None;
}.

Lemma read_found o st s id expected a : stored st (fs_directory s) -> quiet o s -> st_sessions st !! id = Some a -> expected = id \/ expected = "" ->
  readDocument (ou_read o) (fs_directory s) (file_name id) expected = Ok (document_of a).
Proof.
  intros Hr [-> _ _ _ _] Ha Hex. destruct (sd_found _ _ Hr id a Ha) as (data&t&Hd&He).
  apply (read_acceptable _ _ id _ _ data t); [by apply (sd_durable _ _ Hr)|done..].
Qed.

Lemma opened_agree o st s op op' id : fs_opened s = true -> stored st (fs_directory s) -> quiet o s ->
  agree (fun a d => d = document_of a /\ st_sessions st !! id = Some a)
    (contextErr (ou_context o) op' ;; reject_if (negb (ID_Valid id)) (invalid op' (plain "session ID is required")) ;; find_aggregate st op' id)
    (opened_document o s op id).
Proof.
  intros Ho Hr Hq. unfold opened_document. apply (agree_bind (=)); [apply agree_contextErr|intros _ _ _].
  apply (agree_bind (=)); [by apply agree_reject|intros _ _ _]. unfold ensureOpen. rewrite Ho. cbn [negb reject_if mbind result_bind].
  unfold find_aggregate, read. destruct (st_sessions st !! id) as [a|] eqn:Ha.
  - rewrite (read_found _ _ _ _ _ _ Hr Hq Ha) by auto. done.
  - unfold readDocument. by rewrite (sd_missing _ _ Hr id Ha).
Qed.

Lemma rp_durable st s : represents st s -> durable st.
Proof. intros Hr. exact (sd_durable _ _ (rp_stored _ _ Hr)). Qed.
Lemma rp_found st s : represents st s -> forall id a, st_sessions st !! id = Some a ->
  exists data t, fs_directory s !! file_name id = Some (MkFile data t) /\ encode_document (document_of a) = Some data.
Proof. intros Hr. exact (sd_found _ _ (rp_stored _ _ Hr)). Qed.
Lemma rp_missing st s : represents st s -> forall id, st_sessions st !! id = None -> fs_directory s !! file_name id = None.
Proof. intros Hr. exact (sd_missing _ _ (rp_stored _ _ Hr)). Qed.
Lemma rp_names st s : represents st s -> forall name, is_json name = true -> is_Some (fs_directory s !! name) ->
  exists id, name = file_name id /\ is_Some (st_sessions st !! id).
Proof. intros Hr. exact (sd_names _ _ (rp_stored _ _ Hr)). Qed.

(** ** Writing an aggregate *)
Lemma persist_quiet o s name document data : quiet o s -> encode_document document = Some data ->
  exists trace, persist (ou_write o) (ou_persist o) (ou_rename o) (at_update (ou_readings o)) (fs_directory s) name document =
    (trace, <[name := MkFile data (at_update (ou_readings o))]> (fs_directory s), Ok tt).
Proof.
  intros [_ (temporary&->&Hfresh) -> -> _] He. unfold persist. rewrite He. simpl. rewrite delete_id by done. by eexists.
Qed.

Lemma put_represents {A} o st s id a index (r : A) :
  represents st s -> quiet o s -> ensured index -> (ix_lastUpdatedAt (st_list st) < ix_lastUpdatedAt index)%Z ->
  ag_updatedAt a = ix_lastUpdatedAt index -> (0 < ag_updatedAt a)%Z -> durable (put st id a index) ->
  exists s', persist_and_return o s index id (document_of a) r = (s', Ok r) /\ represents (put st id a index) s'.
Proof.
  intros Hr Hq Hi Hlast Hupd Hpos Hdur. assert (Hacc : acceptable id (document_of a)) by (apply (Hdur id a); apply lookup_insert_eq).
  destruct (encode_portable _ (ac_portable _ _ Hacc)) as [data He]. unfold persist_and_return.
  destruct (persist_quiet o s (file_name id) _ _ Hq He) as [trace ->]. eexists. split; [reflexivity|].
  pose proof file_name_inj as Hinj. split; simpl; [by apply Hr|done|done| |].
  2:{ intros id' b [[<- <-]|[Hne Hb]]%lookup_insert_Some; [lia|]. pose proof (rp_time _ _ Hr id' b Hb). lia. }
  split; simpl; [done|..].
  - intros id' b [[<- <-]|[Hne Hb]]%lookup_insert_Some; [by rewrite lookup_insert_eq; eauto|].
    rewrite lookup_insert_ne by (intros Heq; by apply Hne, Hinj). by apply (rp_found _ _ Hr).
  - intros id' [Hb Hne]%lookup_insert_None. rewrite lookup_insert_ne by (intros Heq; by apply Hne, Hinj). by apply (rp_missing _ _ Hr).
  - intros name Hj Hs. destruct (decide (file_name id = name)) as [<-|Hne].
    + exists id. split; [done|]. rewrite lookup_insert_eq. eauto.
    + rewrite lookup_insert_ne in Hs by done. destruct (rp_names _ _ Hr name Hj Hs) as (id'&->&Hid). exists id'. split; [done|].
      rewrite lookup_insert_ne; [done|]. congruence.
Qed.

(** ** The operations that write *)
Definition simulated (x : MemoryStore * answer) (y : FileStore * answer) : Prop := represents x.1 y.1 /\ same_answer x.2 y.2.

Lemma create_simulated o st s n : represents st s -> quiet o s -> durable (memory_request o st (ReqCreate n)).1 ->
  simulated (memory_request o st (ReqCreate n)) (file_request o s (ReqCreate n)).
Proof.
  intros Hr Hq. unfold memory_request, file_request, Create, File_Create. 
  destruct (ou_context o); [|by split..]. cbn [contextErr mbind result_bind].
  destruct (validateNewSession n) as [[]| |]; [|by split..]. cbn [mbind result_bind].
  destruct (prepareInitialHistory _ _ _) as [history| |]; [|by split..]. cbn [mbind result_bind]. unfold ensureOpen. rewrite (rp_opened _ _ Hr).
  rewrite (qu_stat _ _ Hq). cbn [negb absent present reject_if mbind result_bind andb fail_with].
  set (id' := sess_ID (ns_Session n)). destruct (st_sessions st !! id') as [a|] eqn:Ha; cbn [present].
  { intros _. destruct (rp_found _ _ Hr _ _ Ha) as (data&t&->&_). by split. }
  rewrite (rp_missing _ _ Hr id' Ha), (rp_index _ _ Hr). cbn [present reject_if mbind result_bind].
  destruct (recordCreate _ _ _ _) as [index upd] eqn:E. apply recordCreate_forward in E as (E1&E2&E3&E4); [|by apply Hr]. intros Hdur.
  destruct (put_represents o st s id' (MkAggregate (initial_snapshot n history) ∅ upd) index (initial_snapshot n history)) as (s'&Heq&Hr'); try first [done|exact Hdur|simpl; lia].
  change (MkDocument fileStoreFormatV1 (initial_snapshot n history) upd ∅) with (document_of (MkAggregate (initial_snapshot n history) ∅ upd)).
  rewrite Heq. by split.
Qed.

Lemma ext_evolves_nonempty x x' : ext_evolves x x' -> x ≠ [] -> x' ≠ [].
Proof. intros Hx Hne ->. destruct x as [|e x]; [done|]. by destruct (Hx 0 e eq_refl) as (e'&He'&_). Qed.

Lemma upgraded_format a working records upd : ext_evolves (sn_ExtensionJournal (ag_snapshot a)) (sn_ExtensionJournal working) ->
  upgraded (document_of a) working = fd_Format (document_of (MkAggregate working records upd)).
Proof.
  intros Hx. unfold upgraded, document_of; simpl. destruct (bool_decide (sn_ExtensionJournal (ag_snapshot a) = [])) eqn:E; simpl.
  - by destruct (bool_decide (sn_ExtensionJournal working = [])).
  - rewrite bool_decide_eq_false_2; [done|]. apply bool_decide_eq_false in E. by apply (ext_evolves_nonempty _ _ Hx).
Qed.

Lemma commit_document_agree r a q : agree (=) (commit_aggregate r a q) (commit_document r (document_of a) q).
Proof.
  unfold commit_aggregate, commit_document. apply (agree_bind (=)); [by destruct (requestFingerprint q)|intros fp _ <-].
  simpl. destruct (ag_idempotency a !! cr_IdempotencyKey q) as [previous|].
  - apply (agree_bind (=)); [by apply agree_reject|intros _ _ _]. done.
  - apply (agree_bind (=)); [by apply agree_reject|intros _ _ _]. apply agree_refl.
Qed.

(** Under the lock both stores compute the same change; the file store writes it. *)
Lemma commit_aggregate_evolves r a q working fp c :
  commit_aggregate r a q = Ok (Some (working, fp), c) -> ext_evolves (sn_ExtensionJournal (ag_snapshot a)) (sn_ExtensionJournal working).
Proof.
  intros H. unfold commit_aggregate in H. destruct (requestFingerprint q); [|done]. cbn [mbind result_bind] in H.
  destruct (ag_idempotency a !! _); [by destruct (negb _)|]. destruct (negb _); [done|]. cbn [reject_if mbind result_bind] in H.
  destruct (applyChanges _ _ _) as [w| |] eqn:E; [|done..]. cbn [mbind result_bind] in H. cbv zeta in H. destruct (appendedHistoryRange _ _). injection H as <- _ _.
  apply (applyChanges_extensions _ _ _ _ E).
Qed.

Lemma commit_simulated o st s q : represents st s -> quiet o s -> durable (memory_request o st (ReqCommit q)).1 ->
  simulated (memory_request o st (ReqCommit q)) (file_request o s (ReqCommit q)).
Proof.
  intros Hr Hq. unfold memory_request, file_request, Commit, File_Commit.
  destruct (ou_context o); [|by split..]. cbn [contextErr mbind result_bind].
  destruct (CommitRequest_Validate q) as [[]| |]; [|by split..]. cbn [map_err mbind result_bind].
  unfold ensureOpen. rewrite (rp_opened _ _ Hr). cbn [negb reject_if mbind result_bind]. unfold find_aggregate, read.
  destruct (st_sessions st !! cr_SessionID q) as [a|] eqn:Ha.
  2:{ unfold readDocument. rewrite (rp_missing _ _ Hr _ Ha). by split. }
  rewrite (read_found _ _ _ _ _ _ (rp_stored _ _ Hr) Hq Ha) by auto. cbn [mbind result_bind].
  pose proof (commit_document_agree (ou_readings o) a q) as Hag. pose proof (commit_aggregate_evolves (ou_readings o) a q) as Hev.
  destruct (commit_aggregate _ _ _) as [[[[working fp]|] c]|e|m], (commit_document _ _ _) as [x'|e'|m']; try done; simpl in Hag; subst.
  - cbn [mbind result_bind]. rewrite (rp_index _ _ Hr). cbn [fd_UpdatedAt fd_Idempotency document_of].
    destruct (nextUpdatedAt _ _ _ _) as [index upd] eqn:E. pose proof (rp_time _ _ Hr _ _ Ha) as Ht.
    apply nextUpdatedAt_forward in E as (E1&E2&E3&E4); [|by apply Hr]. intros Hdur.
    set (records := <[cr_IdempotencyKey q := MkMemoryCommit fp c]> (ag_idempotency a)) in *.
    destruct (put_represents o st s (cr_SessionID q) (MkAggregate working records upd) index c) as (s'&Heq&Hr'); try first [done|exact Hdur|simpl; lia].
    rewrite (upgraded_format a working records upd) by by eapply Hev.
    change (MkDocument (fd_Format (document_of (MkAggregate working records upd))) working upd records) with (document_of (MkAggregate working records upd)).
    rewrite Heq. by split.
  - by split.
Qed.

Lemma recover_simulated o st s id' : wf_store st -> represents st s -> quiet o s ->
  admitted (MkCall (ou_readings o) (ou_fresh o) (ou_context o) (OpRecover id')) st -> durable (memory_request o st (ReqRecover id')).1 ->
  simulated (memory_request o st (ReqRecover id')) (file_request o s (ReqRecover id')).
Proof.
  intros Hst Hr Hq [Hsane Hroom]. unfold memory_request, file_request, Recover, File_Recover. cbn [cl_readings] in Hsane.
  pose proof (opened_agree o st s "session.file_store.recover" "session.recover" id' (rp_opened _ _ Hr) (rp_stored _ _ Hr) Hq) as Hag.
  destruct (contextErr (ou_context o) "session.recover" ;; _) as [a|e|m] eqn:E, (opened_document o s _ id') as [d|e'|m'] eqn:E'; try done; [|by split..].
  destruct Hag as [-> Ha]. cbn [fd_Snapshot fd_Format fd_UpdatedAt fd_Idempotency document_of]. clear E E'.
  destruct (Hst _ _ Ha) as [Hw _].
  destruct (recoverAggregate_total _ _ _ Hsane Hw (Hroom a Ha)) as (s'&ch&Heq&_&Hrec&Hx). rewrite Heq.
  destruct ch; cbv beta iota zeta.
  - rewrite (rp_index _ _ Hr). destruct (nextUpdatedAt _ _ _ _) as [index upd] eqn:E. pose proof (rp_time _ _ Hr _ _ Ha) as Ht.
    apply nextUpdatedAt_forward in E as (E1&E2&E3&E4); [|by apply Hr]. intros Hdur. set (s2 := with_revision s' (u64 (sn_Revision s' + 1))) in *.
    destruct (put_represents o st s id' (MkAggregate s2 (ag_idempotency a) upd) index s2) as (t&Hput&Hr'); try first [done|exact Hdur|simpl; lia].
    assert (Hf : fd_Format (document_of a) = fd_Format (document_of (MkAggregate s2 (ag_idempotency a) upd))).
    { simpl. rewrite Hx. destruct (sn_ExtensionJournal (ag_snapshot a)) as [|x l] eqn:El; [done|].
      rewrite !bool_decide_eq_false_2; [done| |done]. by apply (ext_evolves_nonempty (x :: l)); [apply recover_extensions_evolves|]. }
    cbn [document_of fd_Format] in Hf. rewrite Hf.
    change (MkDocument _ s2 upd (ag_idempotency a)) with (document_of (MkAggregate s2 (ag_idempotency a) upd)). rewrite Hput. by split.
  - rewrite (rv_unchanged _ _ _ Hrec eq_refl). intros _. split; [|done]. simpl.
    enough (put st id' (MkAggregate (ag_snapshot a) (ag_idempotency a) (ag_updatedAt a)) (st_list st) = st) as -> by done.
    destruct st, a; unfold put; simpl in *. by rewrite insert_id.
Qed.

(** ** Reading *)
Lemma load_agree o st s id' : fs_opened s = true -> stored st (fs_directory s) -> quiet o s ->
  agree (=) (Load (ou_context o) st id') (File_Load o s id').
Proof.
  intros Ho Hs Hq. pose proof (opened_agree o st s "session.file_store.load" "session.load" id' Ho Hs Hq) as Hag.
  unfold Load, File_Load. destruct (contextErr _ _) as [[]| |]; [|by destruct (opened_document _ _ _ _)..].
  cbn [mbind result_bind] in *. destruct (reject_if _ _); [|by destruct (opened_document _ _ _ _)..]. cbn [mbind result_bind] in *.
  apply (agree_fmap _ _ _ _ _ _ Hag). by intros ? d [-> _].
Qed.

(** The pages of both stores are computed from the same journals. *)
Lemma history_simulated o st s q : represents st s -> quiet o s -> simulated (memory_request o st (ReqHistoryPage q)) (file_request o s (ReqHistoryPage q)).
Proof.
  intros Hr Hq. split; [done|]. pose proof (opened_agree o st s "session.file_store.history_page" "session.history_page" (hpr_SessionID q) (rp_opened _ _ Hr) (rp_stored _ _ Hr) Hq) as Hag. simpl.
  unfold HistoryPage_, File_HistoryPage. destruct (contextErr _ _) as [[]| |]; [|by destruct (opened_document _ _ _ _)..].
  cbn [mbind result_bind] in *. destruct (reject_if _ _); [|by destruct (opened_document _ _ _ _)..]. cbn [mbind result_bind] in *.
  apply (agree_bind _ _ _ _ _ _ Hag). intros ? d [-> _]. apply agree_refl.
Qed.

Lemma extensions_simulated o st s q : represents st s -> quiet o s ->
  simulated (memory_request o st (ReqExtensionDiagnostics q)) (file_request o s (ReqExtensionDiagnostics q)).
Proof.
  intros Hr Hq. split; [done|].
  pose proof (opened_agree o st s "session.file_store.extension_diagnostics" "session.extension_diagnostics" (epr_SessionID q) (rp_opened _ _ Hr) (rp_stored _ _ Hr) Hq) as Hag. simpl.
  unfold ExtensionDiagnostics, File_ExtensionDiagnostics. destruct (contextErr _ _) as [[]| |]; [|by destruct (opened_document _ _ _ _)..].
  cbn [mbind result_bind] in *. destruct (reject_if _ _); [|by destruct (opened_document _ _ _ _)..]. cbn [mbind result_bind] in *.
  apply (agree_bind _ _ _ _ _ _ Hag). intros ? d [-> _]. apply agree_refl.
Qed.

(** ** Listing *)
Definition in_scope (index : sessionListIndex) (q : ListRequest) (document : fileStoreDocument) : option listedSession :=
  let current := fd_Snapshot document in
  let sess := sn_Session current in
  if String.eqb (sess_AgentID sess) (lr_AgentID q) && String.eqb (sess_WorkspaceID sess) (lr_WorkspaceID q) then
    Some (MkListedSession (MkSessionSummary (sess_ID sess) (sess_AgentID sess) (sess_WorkspaceID sess) (sn_Revision current) (fd_UpdatedAt document))
            (generationFor index (sess_ID sess)))
  else None.

(** What the loop collects for one entry of the directory. *)
Definition listed_name (st : MemoryStore) (s : FileStore) (q : ListRequest) (name : string) : option listedSession :=
  if is_json name then
    match readDocument quiet_read (fs_directory s) name "" with Ok document => in_scope (st_list st) q document | _ => None end
  else None.

Lemma observe_same fresh index t : ensured index -> (t <= ix_lastUpdatedAt index)%Z -> observeUpdatedAt fresh index t = index.
Proof. intros Hi Ht. unfold observeUpdatedAt. rewrite ensure_ensured by done. by rewrite (proj2 (Z.ltb_ge _ _)). Qed.

Lemma list_entries_spec o st s q names acc : represents st s -> quiet o s -> (forall name, name ∈ names -> is_Some (fs_directory s !! name)) ->
  list_entries o q (fs_directory s) names (st_list st) acc = (st_list st, Ok (acc ++ omap (listed_name st s q) names)).
Proof.
  intros Hr Hq. revert acc; induction names as [|name names IH]; intros acc Hn; simpl; [by rewrite app_nil_r|].
  assert (Hn' : forall name, name ∈ names -> is_Some (fs_directory s !! name)) by (intros n Hin; apply Hn; by right).
  unfold listed_name at 1. destruct (is_json name) eqn:Hj; simpl; [|by apply IH].
  destruct (rp_names _ _ Hr name Hj (Hn _ (list_elem_of_here _ _))) as (id&->&[a Ha]).
  rewrite (read_found _ _ _ _ _ _ (rp_stored _ _ Hr) Hq Ha) by auto. rewrite <-(qu_read _ _ Hq), (read_found _ _ _ _ _ _ (rp_stored _ _ Hr) Hq Ha) by auto.
  rewrite observe_same by (try apply Hr; by apply (rp_time _ _ Hr id)). unfold in_scope.
  destruct (String.eqb _ _ && String.eqb _ _); [|by apply IH]. by rewrite IH, <-app_assoc.
Qed.

Lemma omap_filter_same {A B} (f : A -> option B) (P : A -> Prop) `{!forall x, Decision (P x)} (l : list A) :
  (forall x, ~ P x -> f x = None) -> omap f l = omap f (filter P l).
Proof.
  intros Hn. induction l as [|x l IH]; [done|]. rewrite filter_cons. cbn.
  destruct (decide (P x)) as [Hp|Hp]; [cbn; by rewrite IH|by rewrite Hn].
Qed.

Lemma listed_names_perm o st s q : represents st s -> quiet o s ->
  omap (listed_name st s q) (file_names (fs_directory s)) ≡ₚ omap (listed (st_list st) q) (map_to_list (st_sessions st)).
Proof.
  intros Hr Hq. pose proof file_name_inj as Hinj. unfold file_names. rewrite merge_sort_Permutation.
  rewrite (omap_filter_same _ (fun name => is_json name = true)) by (intros name Hj; unfold listed_name; by destruct (is_json name)).
  assert (Hp : filter (fun name => is_json name = true) (elements (dom (fs_directory s))) ≡ₚ (fun e => file_name e.1) <$> map_to_list (st_sessions st)).
  { apply NoDup_Permutation.
    - apply NoDup_filter, NoDup_elements.
    - change (NoDup ((file_name ∘ fst) <$> map_to_list (st_sessions st))). rewrite list_fmap_compose. apply NoDup_fmap; [apply _|apply NoDup_fst_map_to_list].
    - intros name. rewrite list_elem_of_filter, elem_of_elements, elem_of_dom, list_elem_of_fmap. split.
      + intros [Hj Hs]. destruct (rp_names _ _ Hr name Hj Hs) as (id&->&[a Ha]). exists (id, a). by rewrite elem_of_map_to_list.
      + intros ([id a]&->&Ha). apply elem_of_map_to_list in Ha. split; [apply file_name_json|]. cbn [fst].
        destruct (rp_found _ _ Hr id a Ha) as (data&t&->&_). eauto. }
  rewrite Hp. enough (Hall : forall l : list (string * memoryAggregate), (forall e, e ∈ l -> st_sessions st !! e.1 = Some e.2) ->
      omap (listed_name st s q) ((fun e => file_name e.1) <$> l) = omap (listed (st_list st) q) l).
  { rewrite Hall; [done|]. intros [id a] He. by apply elem_of_map_to_list. }
  induction l as [|[id a] l IH]; intros Hl; [done|]. specialize (IH (fun e He => Hl e (list_elem_of_further _ _ _ He))).
  enough (listed_name st s q (file_name id) = listed (st_list st) q (id, a)) as Heq.
  { rewrite fmap_cons. cbn [omap list_omap fst]. rewrite Heq. destruct (listed _ _ _); [f_equal|]; exact IH. }
  unfold listed_name. rewrite file_name_json, <-(qu_read _ _ Hq), (read_found _ _ _ id "" a (rp_stored _ _ Hr) Hq) by (auto; apply (Hl (id, a)), list_elem_of_here). done.
Qed.

Lemma listed_ids index q (l : list (string * memoryAggregate)) : (forall e, e ∈ l -> sess_ID (sn_Session (ag_snapshot e.2)) = e.1) -> NoDup l.*1 ->
  NoDup ((fun e => ss_SessionID (ls_summary e)) <$> omap (listed index q) l).
Proof.
  intros Hid Hn. enough (Hsub : (fun e => ss_SessionID (ls_summary e)) <$> omap (listed index q) l `sublist_of` l.*1) by (by eapply sublist_NoDup).
  clear Hn. induction l as [|[id a] l IH]; [done|]. simpl. assert (IH' := IH (fun e He => Hid e (list_elem_of_further _ _ _ He))).
  unfold listed at 1. simpl. destruct (_ && _); simpl; [|by constructor].
  pose proof (Hid (id, a) (list_elem_of_here _ _)) as Hsame. cbn [fst snd] in Hsame. rewrite Hsame. by constructor.
Qed.

Lemma list_simulated o st s q : represents st s -> quiet o s ->
  simulated (memory_request o st (ReqListSessions q)) (file_request o s (ReqListSessions q)).
Proof.
  intros Hr Hq. unfold memory_request, file_request, ListSessions, File_ListSessions.
  destruct (ou_context o); [|by split..]. cbn [contextErr mbind result_bind].
  destruct (ListRequest_Validate q) as [[]| |]; [|by split..]. cbn [map_err mbind result_bind].
  unfold ensureOpen. rewrite (rp_opened _ _ Hr). cbn [negb reject_if mbind result_bind fail_with].
  rewrite (rp_index _ _ Hr), (list_entries_spec o st s) by (try done; intros name Hn; unfold file_names in Hn;
    rewrite merge_sort_Permutation, elem_of_elements, elem_of_dom in Hn; done).
  rewrite !ensure_ensured by apply Hr. simpl app.
  rewrite (paginate_perm (st_list st) q _ _ (symmetry (listed_names_perm o st s q Hr Hq))).
  2:{ apply listed_ids; [|apply NoDup_fst_map_to_list]. intros [id a] Ha. apply elem_of_map_to_list in Ha.
      apply (validate_identity id (document_of a)). by apply (rp_durable _ _ Hr id a). }
  split; [|simpl; by destruct (paginate _ _ _)]. simpl.
  destruct st as [sessions index], Hr as [R1 R2 R3 R4 R5]. by split.
Qed.

(** ** Runs *)

(** What a call must satisfy: no faults, working clocks and room for a
    recovery, and documents that can be read back. *)
Definition usable_call (o : Outside) (q : request) (st : MemoryStore) (s : FileStore) : Prop :=
  quiet o s /\ durable (memory_request o st q).1 /\
  match q with ReqRecover id => admitted (MkCall (ou_readings o) (ou_fresh o) (ou_context o) (OpRecover id)) st | _ => True end.

Lemma request_simulated o st s q : wf_store st -> represents st s -> usable_call o q st s ->
  simulated (memory_request o st q) (file_request o s q).
Proof.
  intros Hst Hr (Hq&Hd&Hadm). destruct q.
  - by apply create_simulated.
  - split; [done|]. apply load_agree; [apply Hr..|done].
  - by apply history_simulated.
  - by apply extensions_simulated.
  - by apply list_simulated.
  - by apply commit_simulated.
  - by apply recover_simulated.
Qed.

Lemma request_wf o st s q : wf_store st -> usable_call o q st s -> wf_store (memory_request o st q).1.
Proof.
  intros Hst (_&_&Hadm). destruct q as [n|id'|q|q|q|q|id']; try done; simpl.
  - by apply (create_step (ou_readings o) (ou_fresh o) (ou_context o) st n).
  - unfold ListSessions. by destruct (contextErr _ _ ;; _).
  - by apply (commit_step (ou_readings o) (ou_fresh o) (ou_context o) st q).
  - destruct Hadm. by apply (recover_step (ou_readings o) (ou_fresh o) (ou_context o) st id').
Qed.

Fixpoint memory_run (st : MemoryStore) (calls : list (Outside * request)) : MemoryStore * list answer :=
  match calls with
  | [] => (st, [])
  | (o, q) :: calls => let '(st, a) := memory_request o st q in let '(st, answers) := memory_run st calls in (st, a :: answers)
  end.
Fixpoint file_run (s : FileStore) (calls : list (Outside * request)) : FileStore * list answer :=
  match calls with
  | [] => (s, [])
  | (o, q) :: calls => let '(s, a) := file_request o s q in let '(s, answers) := file_run s calls in (s, a :: answers)
  end.
Fixpoint usable (calls : list (Outside * request)) (st : MemoryStore) (s : FileStore) : Prop :=
  match calls with
  | [] => True
  | (o, q) :: calls => usable_call o q st s /\ usable calls (memory_request o st q).1 (file_request o s q).1
  end.

Lemma run_simulated calls st s : wf_store st -> represents st s -> usable calls st s ->
  represents (memory_run st calls).1 (file_run s calls).1 /\ Forall2 same_answer (memory_run st calls).2 (file_run s calls).2.
Proof.
  revert st s; induction calls as [|[o q] calls IH]; intros st s Hst Hr Hu; simpl in *; [by split; [|constructor]|].
  destruct Hu as [Hc Hu]. destruct (request_simulated o st s q Hst Hr Hc) as [Hr' Ha]. pose proof (request_wf o st s q Hst Hc) as Hst'.
  destruct (memory_request o st q) as [st1 a], (file_request o s q) as [s1 b]. simpl in *.
  destruct (IH st1 s1 Hst' Hr' Hu) as [Hr2 Has]. destruct (memory_run st1 calls), (file_run s1 calls). simpl in *. by split; [|constructor].
Qed.

(** An opened store over a directory without documents is an empty store. *)
Lemma open_represents fresh d : empty (id_epoch fresh) = false -> (forall name, is_json name = true -> d !! name = None) ->
  represents (MkMemoryStore ∅ (reset fresh)) (MkFileStore true (reset fresh) d).
Proof.
  intros He Hd. split; simpl; [done|done|split; [done|by eauto]|split; simpl|].
  - apply map_Forall_empty.
  - intros id a Ha. by apply lookup_empty_Some in Ha.
  - intros id _. apply Hd, file_name_json.
  - intros name Hj [f Hf]. by rewrite Hd in Hf.
  - intros id a Ha. by apply lookup_empty_Some in Ha.
Qed.

End Refinement.

(** * What the file store promises

    Every run against files gives the answers of the same run in memory, and a
    store that is opened again over the same directory still has every Session.
    The witness is a run over a concrete codec. *)

Section Promises.
Context {J : JsonOps} {F : Fingerprints} {R : RequestFingerprint} {K : CursorCodec} {D : DocumentCodec}.

End Promises.

(** ** A codec for the documents of one run *)
Lemma length_append a b : String.length (a +:+ b) = String.length a + String.length b.
Proof. induction a as [|c a IH]; [done|]. simpl. by rewrite IH. Qed.
Lemma append_cancel a b c : a +:+ c = b +:+ c -> a = b.
Proof.
  revert b; induction a as [|x a IH]; intros [|y b] H; [done| | |].
  - apply (f_equal String.length) in H. rewrite !length_append in H. simpl in H. lia.
  - apply (f_equal String.length) in H. rewrite !length_append in H. simpl in H. lia.
  - injection H as -> H. by rewrite (IH b H).
Qed.
Lemma substring_append a b : String.substring (String.length a) (String.length b) (a +:+ b) = b.
Proof. induction a as [|c a IH]; [apply substring_all|exact IH]. Qed.

Definition outside0 : Outside :=
  MkOutside plainReadings plainIdentity quiet_read (no_write_fault "session.tmp") Live Live Live None.
Definition memory0 : MemoryStore := MkMemoryStore ∅ (reset plainIdentity).
Definition memory1 : MemoryStore := (memory_request outside0 memory0 (ReqCreate new0)).1.
Definition memory2 : MemoryStore := (memory_request outside0 memory1 (ReqCommit request1)).1.
Definition aggregate_in (st : MemoryStore) : memoryAggregate := default (MkAggregate (initial_snapshot new0 []) ∅ 0) (st_sessions st !! "s").
Definition document_in (st : MemoryStore) : fileStoreDocument := document_of (aggregate_in st).

Definition plain_encode (document : fileStoreDocument) : option string := Some (if Z.eqb (sn_Revision (fd_Snapshot document)) 1 then "1" else "2").
Definition plain_decode (data : string) : result fileStoreDocument :=
  if String.eqb data "1" then Ok (document_in memory1) else if String.eqb data "2" then Ok (document_in memory2) else Err (ErrNew "unexpected end of JSON input").
#[export] Instance plainDocuments : DocumentCodec.
Proof.
  refine {| encode_document := plain_encode; decode_document := plain_decode; trailing_data _ := false;
    extensionFieldPresent data := Ok (String.eqb data "2");
    portable document := document = document_in memory1 \/ document = document_in memory2;
    file_name id := String.append id ".json" |}.
  - intros d _. by eexists.
  - intros d data [-> | ->] H; vm_compute in H; injection H as <-; (split_and!; [reflexivity|reflexivity|]); vm_compute; reflexivity.
  - intros a b. apply append_cancel.
  - intros id. unfold is_json. apply String.eqb_eq. rewrite length_append. change (String.length ".json") with 5.
    rewrite Nat.add_sub. exact (substring_append id ".json").
Defined.

(** ** A run *)
Definition calls0 : list (Outside * request) :=
  [(outside0, ReqCreate new0); (outside0, ReqCommit request1); (outside0, ReqLoad "s"); (outside0, ReqListSessions (MkListRequest "a" "w" 0 ""))].
Definition file0 : FileStore := (Open plainIdentity Live (MkFileStore false new_index ∅)).1.

Lemma acceptable_small id document :
  portable document -> negb (Z.eqb (fd_UpdatedAt document) 0) = true -> validateFileDocument id document = Ok tt -> acceptable id document.
Proof.
  intros Hp Ht Hv. split; [done| |by bool_simpl|done]. intros data Hd. enough (String.length data = 1) as -> by done.
  unfold encode_document, plainDocuments, plain_encode in Hd. injection Hd as <-. by destruct (Z.eqb _ 1).
Qed.

Lemma doc1_acceptable : acceptable "s" (document_in memory1).
Proof. apply acceptable_small; [by left|vm_compute; reflexivity..].  Qed.
Lemma doc2_acceptable : acceptable "s" (document_in memory2).
Proof. apply acceptable_small; [by right|vm_compute; reflexivity..].  Qed.

Lemma durable_one st document : st_sessions st = {["s" := document]} -> acceptable "s" (document_of document) -> durable st.
Proof. intros Hs Hacc id a Ha. rewrite Hs in Ha. by apply lookup_singleton_Some in Ha as [<- <-]. Qed.

Lemma durable1 : durable memory1.
Proof. apply (durable_one _ (aggregate_in memory1)); [vm_compute; reflexivity|exact doc1_acceptable]. Qed.
Lemma durable2 : durable memory2.
Proof. apply (durable_one _ (aggregate_in memory2)); [vm_compute; reflexivity|exact doc2_acceptable]. Qed.

Lemma quiet0 s : fs_directory s !! "session.tmp" = None -> quiet outside0 s.
Proof. intros H. split; try done. by exists "session.tmp". Qed.

Lemma durable_list o st q : durable st -> durable (memory_request o st (ReqListSessions q)).1.
Proof. intros H. simpl. unfold ListSessions. by destruct (contextErr _ _ ;; _). Qed.

Lemma calls0_usable : usable calls0 memory0 file0.
Proof.
  split; [|split; [|split; [|split; [|exact I]]]]; (split; [apply quiet0; vm_compute; reflexivity|split; [|exact I]]).
  - exact durable1.
  - exact durable2.
  - exact durable2.
  - apply durable_list. exact durable2.
Qed.


Definition old0 : directory := {[file_name "s" := MkFile "1" 3]}.
Definition run0_write : list directory * directory * result unit :=
  persist (no_write_fault "session.tmp") Live Live 5 old0 (file_name "s") (document_in memory2).
