(* ===== verification/JsonValue.v ===== *)
(** * JSON values

    Models [internal/jsonvalue]: parsing of one unambiguous JSON value, equality
    in the data model, and the canonical encoding; and of encoding/json what
    they use: the tokens of a [json.Decoder] with [UseNumber] and the encoding
    of a string by [json.Marshal].  Input and output are bytes. *)

From S2P Require Import Prelude GoStrings.

Notation byte_list := (list Z).
Definition of_bytes (l : byte_list) : string := bytes (Z.to_nat <$> l).

(** ** Values *)

(** [digits] times ten to the [exponent]. *)
Record number := MkNumber { nu_negative : bool; nu_digits : byte_list; nu_exponent : Z }.
#[export] Instance number_eq_dec : EqDecision number.
Proof. solve_decision. Defined.

(** The members of an object are in the order of the text; names are distinct.
    In Go they are a map. *)
Inductive value :=
  | VNull
  | VBoolean (b : bool)
  | VNumber (n : number)
  | VString (text : string)
  | VArray (items : list value)
  | VObject (members : list (string * value)).

(** ** Strings *)
Definition is_space (b : Z) : bool := Z.eqb b 32 || Z.eqb b 9 || Z.eqb b 10 || Z.eqb b 13.
Definition is_digit (b : Z) : bool := within 48 57 b.
Definition hex_value (b : Z) : option Z :=
  if is_digit b then Some (b - 48)%Z
  else if within 97 102 b then Some (b - 87)%Z
  else if within 65 70 b then Some (b - 55)%Z
  else None.
(** Four hexadecimal digits. *)
Definition hex4 (l : byte_list) : option (Z * byte_list) :=
  match l with
  | a :: b :: c :: d :: l =>
    match hex_value a, hex_value b, hex_value c, hex_value d with
    | Some a, Some b, Some c, Some d => Some (((a * 16 + b) * 16 + c) * 16 + d, l)%Z
    | _, _, _, _ => None
    end
  | _ => None
  end.

(** [utf8.AppendRune] for a rune that is not a surrogate. *)
Definition encode_rune (r : Z) : byte_list :=
  if Z.ltb r 128 then [r]
  else if Z.ltb r 2048 then [192 + r / 64; 128 + r mod 64]%Z
  else if Z.ltb r 65536 then [224 + r / 4096; 128 + r / 64 mod 64; 128 + r mod 64]%Z
  else [240 + r / 262144; 128 + r / 4096 mod 64; 128 + r / 64 mod 64; 128 + r mod 64]%Z.
Definition replacement : Z := 65533.
Definition is_high (r : Z) : bool := within 55296 56319 r.
Definition is_low (r : Z) : bool := within 56320 57343 r.

(** A rune after [\u] and its digits; a surrogate pairs with the next escape or
    is replaced. *)
Definition escaped_rune (r : Z) (l : byte_list) : Z * byte_list :=
  if is_high r || is_low r then
    match l with
    | 92%Z :: 117%Z :: l' =>
      match hex4 l' with
      | Some (low, l'') =>
        if is_high r && is_low low then ((r - 55296) * 1024 + (low - 56320) + 65536, l'')%Z else (replacement, l)
      | None => (replacement, l)
      end
    | _ => (replacement, l)
    end
  else (r, l).

(** What [\c] stands for. *)
Definition simple_escape (c : Z) : option Z :=
  if Z.eqb c 98 then Some 8%Z
  else if Z.eqb c 102 then Some 12%Z
  else if Z.eqb c 110 then Some 10%Z
  else if Z.eqb c 114 then Some 13%Z
  else if Z.eqb c 116 then Some 9%Z
  else if Z.eqb c 34 || Z.eqb c 92 || Z.eqb c 47 then Some c
  else None.

(** The next character of a string literal: the bytes it decodes to and the
    rest of the input; [None] at a syntax error. *)
Definition next_char (l : byte_list) : option (byte_list * byte_list) :=
  match l with
  | [] => None
  | b :: l' =>
    if Z.eqb b 92 then
      match l' with
      | c :: l'' =>
        if Z.eqb c 117 then
          '(r, rest) ← hex4 l'';
          let '(r, rest) := escaped_rune r rest in
          Some (encode_rune r, rest)
        else
          r ← simple_escape c;
          Some ([r], l'')
      | [] => None
      end
    else if Z.ltb b 32 then None
    else
      match decode_rune l with
      | Some (r, rest) => Some (take (length l - length rest) l, rest)
      | None => Some (encode_rune replacement, l')
      end
  end.

(** The literal after its opening quote. *)
Fixpoint read_string (fuel : nat) (l : byte_list) : option (byte_list * byte_list) :=
  match fuel, l with
  | S fuel, b :: l' =>
    if Z.eqb b 34 then Some ([], l')
    else
      '(c, rest) ← next_char l;
      '(text, rest) ← read_string fuel rest;
      Some (c ++ text, rest)
  | _, _ => None
  end.

(** [json.Marshal] of a string. *)
Definition hex_digit (d : Z) : Z := (if Z.ltb d 10 then 48 + d else 87 + d)%Z.
Definition escape_u (r : Z) : byte_list :=
  [92; 117; hex_digit (r / 4096 mod 16); hex_digit (r / 256 mod 16); hex_digit (r / 16 mod 16); hex_digit (r mod 16)]%Z.
Definition quote_rune (r : Z) (encoded : byte_list) : byte_list :=
  if Z.eqb r 34 || Z.eqb r 92 then [92; r]%Z
  else if Z.eqb r 8 then [92; 98]%Z
  else if Z.eqb r 12 then [92; 102]%Z
  else if Z.eqb r 10 then [92; 110]%Z
  else if Z.eqb r 13 then [92; 114]%Z
  else if Z.eqb r 9 then [92; 116]%Z
  else if Z.ltb r 32 || Z.eqb r 60 || Z.eqb r 62 || Z.eqb r 38 || Z.eqb r 8232 || Z.eqb r 8233 then escape_u r
  else encoded.
Fixpoint quote_bytes (fuel : nat) (l : byte_list) : byte_list :=
  match fuel, l with
  | S fuel, b :: l' =>
    match decode_rune l with
    | Some (r, rest) => quote_rune r (take (length l - length rest) l) ++ quote_bytes fuel rest
    | None => escape_u replacement ++ quote_bytes fuel l'
    end
  | _, _ => []
  end.
Definition quote (s : string) : byte_list :=
  let l := byte_values s in 34%Z :: quote_bytes (length l) l ++ [34%Z].

(** ** Numbers *)
Fixpoint span_digits (l : byte_list) : byte_list * byte_list :=
  match l with
  | b :: l' => if is_digit b then let '(digits, rest) := span_digits l' in (b :: digits, rest) else ([], l)
  | [] => ([], [])
  end.
Definition some_digits (l : byte_list) : option (byte_list * byte_list) :=
  match span_digits l with ([], _) => None | found => Some found end.

(** [if len(l) > 0 && l[0] == c { l = l[1:] }] *)
Definition strip (c : Z) (l : byte_list) : bool * byte_list :=
  match l with b :: l' => if Z.eqb b c then (true, l') else (false, l) | [] => (false, []) end.

(** A part of a number that may be absent. *)
Definition optional_part (starts : Z -> bool) (part : byte_list -> option (byte_list * byte_list)) (l : byte_list) : option (byte_list * byte_list) :=
  match l with
  | b :: l' => if starts b then '(p, rest) ← part l'; Some (b :: p, rest) else Some ([], l)
  | [] => Some ([], [])
  end.
Definition integer_part (l : byte_list) : option (byte_list * byte_list) :=
  match strip 48 l with
  | (true, rest) => Some ([48%Z], rest)
  | (false, _) => some_digits l
  end.
Definition fraction_part : byte_list -> option (byte_list * byte_list) := optional_part (Z.eqb 46) some_digits.
Definition exponent_part : byte_list -> option (byte_list * byte_list) :=
  optional_part (fun b => Z.eqb b 101 || Z.eqb b 69) (fun l =>
    match l with
    | b :: l' => if Z.eqb b 43 || Z.eqb b 45 then '(digits, rest) ← some_digits l'; Some (b :: digits, rest) else some_digits l
    | [] => None
    end).

(** The longest number literal the input starts with. *)
Definition lex_number (l : byte_list) : option (byte_list * byte_list) :=
  let '(negative, l) := strip 45 l in
  '(int, l) ← integer_part l;
  '(fraction, l) ← fraction_part l;
  '(exponent, l) ← exponent_part l;
  Some ((if negative then [45%Z] else []) ++ int ++ fraction ++ exponent, l).

Definition digits_value (l : byte_list) : Z := foldl (fun a d => a * 10 + (d - 48))%Z 0%Z l.

(** [big.Int.SetString(text, 10)] *)
Definition SetString (text : byte_list) : option Z :=
  let '(negative, digits) := strip 45 text in
  let '(_, digits) := if negative then (false, digits) else strip 43 digits in
  match digits with
  | [] => None
  | _ => if forallb is_digit digits then Some (if negative then - digits_value digits else digits_value digits)%Z else None
  end.

(** [bytes.IndexAny] and the two parts around the place it finds. *)
Fixpoint cut (found : Z -> bool) (l : byte_list) : option (byte_list * byte_list) :=
  match l with
  | [] => None
  | b :: l' => if found b then Some ([], l') else '(before, after) ← cut found l'; Some (b :: before, after)
  end.
Fixpoint trim_zeros (l : byte_list) : byte_list :=
  match l with b :: l' => if Z.eqb b 48 then trim_zeros l' else l | [] => [] end.

Definition normalizeNumber (raw : byte_list) : result number :=
  let '(negative, raw) := strip 45 raw in
  let '(raw, exponentText) := match cut (fun b => Z.eqb b 101 || Z.eqb b 69) raw with Some (before, after) => (before, after) | None => (raw, [48%Z]) end in
  let exponentText := (strip 43 exponentText).2 in
  match SetString exponentText with
  | None => Err (ErrNew "jsonvalue: invalid number exponent")
  | Some exponent =>
    let '(raw, fractionDigits) := match cut (Z.eqb 46) raw with Some (before, after) => (before ++ after, length after) | None => (raw, 0) end in
    let digits := trim_zeros raw in
    match digits with
    | [] => Ok (MkNumber false [48%Z] 0)
    | _ =>
      let kept := rev (trim_zeros (rev digits)) in
      let trailingZeros := (length digits - length kept)%nat in
      Ok (MkNumber negative kept (exponent - Z.of_nat fractionDigits + Z.of_nat trailingZeros))
    end
  end.

(** [big.Int.String]: decimal digits, most significant first. *)
Fixpoint decimal (fuel : nat) (n : Z) : byte_list :=
  match fuel with
  | O => []
  | S fuel => if Z.ltb n 10 then [48 + n]%Z else decimal fuel (n / 10) ++ [48 + n mod 10]%Z
  end.
Definition big_String (z : Z) : byte_list :=
  let digits n := decimal (S (Z.to_nat (Z.log2 n))) n in
  if Z.ltb z 0 then 45%Z :: digits (- z)%Z else digits z.

(** ** Tokens *)
Inductive token :=
  | TokNull
  | TokBool (b : bool)
  | TokNumber (literal : byte_list)
  | TokString (text : string)
  | TokDelim (c : Z).

Inductive token_state := TopValue | ArrayStart | ArrayValue | ArrayComma | ObjectStart | ObjectKey | ObjectColon | ObjectValue | ObjectComma.
#[export] Instance token_state_eq_dec : EqDecision token_state.
Proof. solve_decision. Defined.

Record decoder := MkDecoder { de_input : byte_list; de_state : token_state; de_stack : list token_state }.

Fixpoint skip_space (l : byte_list) : byte_list :=
  match l with b :: l' => if is_space b then skip_space l' else l | [] => [] end.

Definition value_allowed (s : token_state) : bool :=
  match s with TopValue | ArrayStart | ArrayValue | ObjectValue => true | _ => false end.
Definition value_end (s : token_state) : token_state :=
  match s with ArrayStart | ArrayValue => ArrayComma | ObjectValue => ObjectComma | s => s end.

Definition io_EOF : error := ErrNew "EOF".
Definition syntax_error : error := ErrNew "invalid character".

Fixpoint drop_bytes (prefix l : byte_list) : option byte_list :=
  match prefix, l with
  | [], _ => Some l
  | a :: prefix, b :: l => if Z.eqb a b then drop_bytes prefix l else None
  | _ :: _, [] => None
  end.
Definition lex_word (t : token) (prefix l : byte_list) : result (token * byte_list) :=
  match drop_bytes prefix l with Some rest => Ok (t, rest) | None => Err syntax_error end.

(** A scalar; [l] starts with it. *)
Definition lex_scalar (l : byte_list) : result (token * byte_list) :=
  match l with
  | [] => Err syntax_error
  | b :: rest =>
    if Z.eqb b 110 then lex_word TokNull [117; 108; 108]%Z rest
    else if Z.eqb b 116 then lex_word (TokBool true) [114; 117; 101]%Z rest
    else if Z.eqb b 102 then lex_word (TokBool false) [97; 108; 115; 101]%Z rest
    else if Z.eqb b 34 then
      match read_string (length rest) rest with Some (text, rest) => Ok (TokString (of_bytes text), rest) | None => Err syntax_error end
    else match lex_number l with Some (literal, rest) => Ok (TokNumber literal, rest) | None => Err syntax_error end
  end.

Definition open_delim (d : decoder) (c : Z) (inside : token_state) (rest : byte_list) : result (token * decoder) :=
  reject_if (negb (value_allowed (de_state d))) syntax_error ;;
  Ok (TokDelim c, MkDecoder rest inside (de_state d :: de_stack d)).
Definition close_delim (d : decoder) (c : Z) (allowed : bool) (rest : byte_list) : result (token * decoder) :=
  reject_if (negb allowed) syntax_error ;;
  match de_stack d with
  | outer :: stack => Ok (TokDelim c, MkDecoder rest (value_end outer) stack)
  | [] => Panic "slice bounds out of range"
  end.

(** [json.Decoder.Token]; a colon and a comma are passed over, at most once
    each, which is the fuel. *)
Fixpoint Token (fuel : nat) (d : decoder) : result (token * decoder) :=
  let s := de_state d in
  match fuel, skip_space (de_input d) with
  | O, _ => Panic "fuel"
  | _, [] => Err io_EOF
  | S fuel, c :: rest =>
    let goto s := Token fuel (MkDecoder rest s (de_stack d)) in
    if Z.eqb c 91 then open_delim d c ArrayStart rest
    else if Z.eqb c 93 then close_delim d c (bool_decide (s = ArrayStart) || bool_decide (s = ArrayComma)) rest
    else if Z.eqb c 123 then open_delim d c ObjectStart rest
    else if Z.eqb c 125 then close_delim d c (bool_decide (s = ObjectStart) || bool_decide (s = ObjectComma)) rest
    else if Z.eqb c 58 then if decide (s = ObjectColon) then goto ObjectValue else Err syntax_error
    else if Z.eqb c 44 then
      match s with ArrayComma => goto ArrayValue | ObjectComma => goto ObjectKey | _ => Err syntax_error end
    else if Z.eqb c 34 && (bool_decide (s = ObjectStart) || bool_decide (s = ObjectKey)) then
      '(t, rest) ← lex_scalar (c :: rest);
      Ok (t, MkDecoder rest ObjectColon (de_stack d))
    else
      reject_if (negb (value_allowed s)) syntax_error ;;
      '(t, rest) ← lex_scalar (c :: rest);
      Ok (t, MkDecoder rest (value_end s) (de_stack d))
  end.
Definition next_token : decoder -> result (token * decoder) := Token 3.

(** [json.Decoder.More] *)
Definition More (d : decoder) : bool :=
  match skip_space (de_input d) with [] => false | c :: _ => negb (Z.eqb c 93) && negb (Z.eqb c 125) end.

(** ** Parsing *)
Definition closing (d : decoder) (c : Z) (message : string) : result decoder :=
  '(t, d) ← next_token d;
  match t with TokDelim c' => if Z.eqb c' c then Ok d else Err (ErrNew message) | _ => Err (ErrNew message) end.

(** Every call of [decode] consumes a token, and a loop calls [decode], so twice
    the length of the input is fuel enough. *)
Fixpoint decode (fuel : nat) (d : decoder) : result (value * decoder) :=
  match fuel with
  | O => Panic "fuel"
  | S fuel =>
    '(t, d) ← next_token d;
    match t with
    | TokNull => Ok (VNull, d)
    | TokBool b => Ok (VBoolean b, d)
    | TokString text => Ok (VString text, d)
    | TokNumber literal => n ← normalizeNumber literal; Ok (VNumber n, d)
    | TokDelim c =>
      if Z.eqb c 91 then
        '(items, d) ← decode_items fuel d;
        d ← closing d 93 "jsonvalue: invalid array closing delimiter";
        Ok (VArray items, d)
      else if Z.eqb c 123 then
        '(members, d) ← decode_members fuel d [];
        d ← closing d 125 "jsonvalue: invalid object closing delimiter";
        Ok (VObject members, d)
      else Err (ErrNew "jsonvalue: unexpected delimiter")
    end
  end
with decode_items (fuel : nat) (d : decoder) : result (list value * decoder) :=
  match fuel with
  | O => Panic "fuel"
  | S fuel =>
    if More d then
      '(item, d) ← decode fuel d;
      '(items, d) ← decode_items fuel d;
      Ok (item :: items, d)
    else Ok ([], d)
  end
with decode_members (fuel : nat) (d : decoder) (members : list (string * value)) : result (list (string * value) * decoder) :=
  match fuel with
  | O => Panic "fuel"
  | S fuel =>
    if More d then
      '(t, d) ← next_token d;
      match t with
      | TokString name =>
        reject_if (bool_decide (name ∈ members.*1)) (ErrNew "jsonvalue: duplicate object member") ;;
        '(member, d) ← decode fuel d;
        decode_members fuel d (members ++ [(name, member)])
      | _ => Err (ErrNew "jsonvalue: object member name is not a string")
      end
    else Ok (members, d)
  end.

Definition parse (raw : string) : result value :=
  let input := byte_values raw in
  '(parsed, d) ← decode (2 * length input + 2) (MkDecoder input TopValue []);
  match next_token d with
  | Ok _ => Err (ErrNew "jsonvalue: multiple top-level values")
  | Err e => if errors_Is e "EOF" then Ok parsed else Err e
  | Panic msg => Panic msg
  end.

Definition Valid (raw : string) : bool := is_ok (parse raw).

(** ** Equality *)
Definition lookup_member {A} (name : string) (members : list (string * A)) : option A :=
  snd <$> head (List.filter (fun m => String.eqb m.1 name) members).

Fixpoint equal (left right : value) : bool :=
  match left, right with
  | VNull, VNull => true
  | VBoolean a, VBoolean b => Bool.eqb a b
  | VNumber a, VNumber b => bool_decide (a = b)
  | VString a, VString b => String.eqb a b
  | VArray a, VArray b =>
    (fix equal_items (a b : list value) : bool :=
       match a, b with
       | [], [] => true
       | x :: a, y :: b => equal x y && equal_items a b
       | _, _ => false
       end) a b
  | VObject a, VObject b =>
    Nat.eqb (length a) (length b) &&
    (fix equal_members (a : list (string * value)) : bool :=
       match a with
       | [] => true
       | (name, x) :: a => match lookup_member name b with Some y => equal x y | None => false end && equal_members a
       end) a
  | _, _ => false
  end.

Definition Equal (left right : string) : bool :=
  match parse left, parse right with Ok l, Ok r => equal l r | _, _ => false end.

(** ** The canonical encoding *)
Definition member_le (a b : string * byte_list) : Prop := string_le a.1 b.1.
#[export] Instance member_le_dec a b : Decision (member_le a b).
Proof. unfold member_le; apply _. Defined.

(** The parts with commas between them. *)
Fixpoint separated (parts : list byte_list) : byte_list :=
  match parts with
  | [] => []
  | [part] => part
  | part :: parts => part ++ 44%Z :: separated parts
  end.
Definition write_number (n : number) : byte_list :=
  (if nu_negative n then [45%Z] else []) ++ nu_digits n ++
  (if Z.eqb (nu_exponent n) 0 then [] else 101%Z :: big_String (nu_exponent n)).

Fixpoint writeCanonical (current : value) : byte_list :=
  match current with
  | VNull => [110; 117; 108; 108]%Z
  | VBoolean true => [116; 114; 117; 101]%Z
  | VBoolean false => [102; 97; 108; 115; 101]%Z
  | VNumber n => write_number n
  | VString text => quote text
  | VArray items => 91%Z :: separated (map writeCanonical items) ++ [93%Z]
  | VObject members =>
    let written := merge_sort member_le (map (fun m => (m.1, writeCanonical m.2)) members) in
    123%Z :: separated (map (fun m => quote m.1 ++ 58%Z :: m.2) written) ++ [125%Z]
  end.

Definition Canonical (raw : string) : result string := (fun v => of_bytes (writeCanonical v)) <$> parse raw.

Example canonical_numbers : Canonical " [1.50e+3, -0.0, 12e-1,true ] " = Ok "[15e2,0,12e-1,true]".
Proof. vm_compute. reflexivity. Qed.
Example canonical_members :
  Canonical (of_bytes [123; 34; 98; 34; 58; 49; 44; 34; 92; 117; 48; 48; 54; 49; 34; 58; 34; 60; 34; 125]%Z) =
  Ok (of_bytes [123; 34; 97; 34; 58; 34; 92; 117; 48; 48; 51; 99; 34; 44; 34; 98; 34; 58; 49; 125]%Z).
Proof. vm_compute. reflexivity. Qed.
