(* ===== verification/JsonTextFacts.v ===== *)
(** * Strings in JSON

    UTF-8 encoding and decoding are inverse, and reading back what
    [json.Marshal] writes gives the same text. *)

From S2P Require Import Prelude GoStrings JsonValue.

#[local] Ltac Zify.zify_post_hook ::= Z.to_euclidean_division_equations.

(** ** Bytes *)
Definition is_byte (b : Z) : Prop := (0 <= b < 256)%Z.

Lemma byte_values_range s : Forall is_byte (byte_values s).
Proof.
  unfold byte_values. rewrite Forall_fmap. apply Forall_true. intros a. simpl. pose proof (Ascii.nat_ascii_bounded a).
  unfold is_byte. lia.
Qed.
Lemma of_bytes_values s : of_bytes (byte_values s) = s.
Proof.
  unfold of_bytes, bytes, byte_values. rewrite <-!list_fmap_compose.
  assert (H : forall l : list Ascii.ascii, (Ascii.ascii_of_nat ∘ (Z.to_nat ∘ (fun a => Z.of_nat (Ascii.nat_of_ascii a)))) <$> l = l).
  { induction l as [|a l IH]; [done|]. rewrite fmap_cons, IH. unfold compose. by rewrite Nat2Z.id, Ascii.ascii_nat_embedding. }
  rewrite H. apply String.string_of_list_ascii_of_string.
Qed.
Lemma values_of_bytes l : Forall is_byte l -> byte_values (of_bytes l) = l.
Proof.
  intros H. unfold of_bytes, bytes, byte_values. rewrite String.list_ascii_of_string_of_list_ascii, <-!list_fmap_compose.
  induction H as [|b l Hb _ IH]; [done|]. rewrite fmap_cons, IH. unfold compose, is_byte in *. rewrite Ascii.nat_ascii_embedding by lia.
  by rewrite Z2Nat.id by lia.
Qed.
Lemma of_bytes_inj l l' : Forall is_byte l -> Forall is_byte l' -> of_bytes l = of_bytes l' -> l = l'.
Proof. intros H H' Heq. by rewrite <-(values_of_bytes l), <-(values_of_bytes l'), Heq. Qed.

(** ** UTF-8 *)
Lemma within_spec lo hi b : within lo hi b = true <-> (lo <= b <= hi)%Z.
Proof. unfold within. rewrite andb_true_iff, !Z.leb_le. done. Qed.

Lemma lor_shift a b n : (0 <= n)%Z -> (0 <= b < 2 ^ n)%Z -> Z.lor (Z.shiftl a n) b = (a * 2 ^ n + b)%Z.
Proof.
  intros Hn Hb. rewrite <-Z.add_nocarry_lor; [by rewrite Z.shiftl_mul_pow2|]. apply Z.bits_inj_iff'. intros k Hk.
  rewrite Z.land_spec, Z.bits_0. destruct (Z.lt_ge_cases k n).
  - by rewrite Z.shiftl_spec_low.
  - rewrite <-(Z.mod_small b (2 ^ n)), Z.mod_pow2_bits_high by lia. apply andb_false_r.
Qed.
Lemma land_low b n : (0 <= n)%Z -> Z.land b (Z.ones n) = (b mod 2 ^ n)%Z.
Proof. intros Hn. by apply Z.land_ones. Qed.

(** What [decode_rune] computes, with arithmetic in place of bit operations. *)
Inductive rune_at : byte_list -> Z -> Prop :=
  | Rune1 b0 : (0 <= b0 < 128)%Z -> rune_at [b0] b0
  | Rune2 b0 b1 : (194 <= b0 <= 223)%Z -> (128 <= b1 <= 191)%Z -> rune_at [b0; b1] ((b0 - 192) * 64 + (b1 - 128))%Z
  | Rune3 b0 b1 b2 : (224 <= b0 <= 239)%Z -> (128 <= b1 <= 191)%Z -> (b0 = 224 -> 160 <= b1)%Z -> (b0 = 237 -> b1 <= 159)%Z -> (128 <= b2 <= 191)%Z ->
    rune_at [b0; b1; b2] ((b0 - 224) * 4096 + (b1 - 128) * 64 + (b2 - 128))%Z
  | Rune4 b0 b1 b2 b3 : (240 <= b0 <= 244)%Z -> (128 <= b1 <= 191)%Z -> (b0 = 240 -> 144 <= b1)%Z -> (b0 = 244 -> b1 <= 143)%Z ->
    (128 <= b2 <= 191)%Z -> (128 <= b3 <= 191)%Z ->
    rune_at [b0; b1; b2; b3] ((b0 - 240) * 262144 + (b1 - 128) * 4096 + (b2 - 128) * 64 + (b3 - 128))%Z.

Lemma tail_bits b : (128 <= b <= 191)%Z -> Z.land b 63 = (b - 128)%Z.
Proof. intros H. change 63%Z with (Z.ones 6). rewrite land_low by lia. change (2 ^ 6)%Z with 64%Z. lia. Qed.
Lemma head_bits b n low : (0 <= n)%Z -> (low mod 2 ^ n = 0)%Z -> (low <= b < low + 2 ^ n)%Z -> Z.land b (Z.ones n) = (b - low)%Z.
Proof.
  intros Hn Hlow Hb. rewrite land_low by done. apply Z.mod_divide in Hlow; [|lia]. destruct Hlow as [k ->].
  symmetry. apply (Z.mod_unique_pos _ _ k); lia.
Qed.

Lemma head_bits2 b : (192 <= b <= 223)%Z -> Z.land b 31 = (b - 192)%Z.
Proof. intros H. apply (head_bits b 5 192); [lia|reflexivity|lia]. Qed.
Lemma head_bits3 b : (224 <= b <= 239)%Z -> Z.land b 15 = (b - 224)%Z.
Proof. intros H. apply (head_bits b 4 224); [lia|reflexivity|lia]. Qed.
Lemma head_bits4 b : (240 <= b <= 247)%Z -> Z.land b 7 = (b - 240)%Z.
Proof. intros H. apply (head_bits b 3 240); [lia|reflexivity|lia]. Qed.

Lemma within_true lo hi b : (lo <= b <= hi)%Z -> within lo hi b = true.
Proof. apply within_spec. Qed.
Lemma within_false lo hi b : (b < lo \/ hi < b)%Z -> within lo hi b = false.
Proof. intros H. destruct (within lo hi b) eqn:E; [|done]. apply within_spec in E. lia. Qed.

(** The first rune, and its bytes, do not depend on what follows. *)
Lemma decode_rune_app pre r rest : rune_at pre r -> decode_rune (pre ++ rest) = Some (r, rest).
Proof.
  intros H. destruct H as [b0 H0|b0 b1 H0 H1|b0 b1 b2 H0 H1 Hlo Hhi H2|b0 b1 b2 b3 H0 H1 Hlo Hhi H2 H3]; cbn [app decode_rune].
  - by rewrite (proj2 (Z.ltb_lt _ _)) by lia.
  - rewrite (proj2 (Z.ltb_ge _ _)) by lia. rewrite !within_true by lia.
    rewrite tail_bits, head_bits2, lor_shift by lia. do 2 f_equal; lia.
  - rewrite (proj2 (Z.ltb_ge _ _)) by lia. rewrite (within_false 194 223), (within_true 224 239), (within_true _ _ b2) by lia.
    rewrite (within_true _ _ b1) by (destruct (Z.eqb_spec b0 224), (Z.eqb_spec b0 237); lia). cbn [andb].
    rewrite !tail_bits, head_bits3, (lor_shift (b1 - 128) _ 6), lor_shift by lia. do 2 f_equal; lia.
  - rewrite (proj2 (Z.ltb_ge _ _)) by lia. rewrite (within_false 194 223), (within_false 224 239), (within_true 240 244), (within_true _ _ b2), (within_true _ _ b3) by lia.
    rewrite (within_true _ _ b1) by (destruct (Z.eqb_spec b0 240), (Z.eqb_spec b0 244); lia). cbn [andb].
    rewrite !tail_bits, head_bits4, (lor_shift (b2 - 128) _ 6), (lor_shift (b1 - 128) _ 12), lor_shift by lia. do 2 f_equal; lia.
Qed.

Lemma decode_rune_inv l r rest : Forall is_byte l -> decode_rune l = Some (r, rest) -> exists pre, l = pre ++ rest /\ rune_at pre r.
Proof.
  intros Hl H. destruct l as [|b0 l1]; [done|]. apply Forall_cons in Hl as [Hb0 _]. unfold is_byte in Hb0. cbn [decode_rune] in H.
  destruct (Z.ltb_spec b0 128) as [H0|H0].
  { injection H as <- <-. exists [b0]. split; [done|]. constructor. lia. }
  destruct l1 as [|b1 l2]; [done|]. destruct (within 194 223 b0) eqn:E0.
  { apply within_spec in E0. destruct (within 128 191 b1) eqn:E1; [|done]. apply within_spec in E1. injection H as <- <-.
    exists [b0; b1]. split; [done|]. rewrite tail_bits, head_bits2, lor_shift by lia. by constructor. }
  destruct l2 as [|b2 l3]; [done|]. destruct (within 224 239 b0) eqn:E1.
  { apply within_spec in E1. destruct (_ && _) eqn:E in H; [|done]. apply andb_true_iff in E as [E E2]. apply within_spec in E, E2. injection H as <- <-.
    assert (128 <= b1 <= 191)%Z by (destruct (Z.eqb_spec b0 224), (Z.eqb_spec b0 237); lia).
    exists [b0; b1; b2]. split; [done|]. rewrite !tail_bits, head_bits3, (lor_shift (b1 - 128) _ 6), lor_shift by lia.
    replace ((b0 - 224) * 2 ^ 12 + ((b1 - 128) * 2 ^ 6 + (b2 - 128)))%Z with ((b0 - 224) * 4096 + (b1 - 128) * 64 + (b2 - 128))%Z by lia.
    constructor; [lia..|intros ->; exact (proj1 E)|intros ->; exact (proj2 E)|lia]. }
  destruct l3 as [|b3 l4]; [done|]. destruct (_ && _) eqn:E in H; [|done]. apply andb_true_iff in E as [E E3]. apply andb_true_iff in E as [E E2].
  apply andb_true_iff in E as [E4 E]. apply within_spec in E, E2, E3, E4. injection H as <- <-.
  assert (128 <= b1 <= 191)%Z by (destruct (Z.eqb_spec b0 240), (Z.eqb_spec b0 244); lia).
  exists [b0; b1; b2; b3]. split; [done|]. rewrite !tail_bits, head_bits4, (lor_shift (b2 - 128) _ 6), (lor_shift (b1 - 128) _ 12), lor_shift by lia.
  replace ((b0 - 240) * 2 ^ 18 + ((b1 - 128) * 2 ^ 12 + ((b2 - 128) * 2 ^ 6 + (b3 - 128))))%Z
    with ((b0 - 240) * 262144 + (b1 - 128) * 4096 + (b2 - 128) * 64 + (b3 - 128))%Z by lia.
  constructor; [lia..|intros ->; exact (proj1 E)|intros ->; exact (proj2 E)|lia|lia].
Qed.

(** Runes that are not surrogates are encoded. *)
Definition scalar (r : Z) : Prop := (0 <= r < 55296 \/ 57344 <= r < 1114112)%Z.

Lemma encode_rune_at r : scalar r -> rune_at (encode_rune r) r.
Proof.
  intros Hr. unfold encode_rune, scalar in *. destruct (Z.ltb_spec r 128); [by constructor; lia|].
  destruct (Z.ltb_spec r 2048).
  { replace r with ((192 + r / 64 - 192) * 64 + (128 + r mod 64 - 128))%Z at 3 by lia. constructor; lia. }
  destruct (Z.ltb_spec r 65536).
  { replace r with ((224 + r / 4096 - 224) * 4096 + (128 + r / 64 mod 64 - 128) * 64 + (128 + r mod 64 - 128))%Z at 4 by lia. constructor; lia. }
  replace r with ((240 + r / 262144 - 240) * 262144 + (128 + r / 4096 mod 64 - 128) * 4096 + (128 + r / 64 mod 64 - 128) * 64 + (128 + r mod 64 - 128))%Z at 5 by lia.
  constructor; lia.
Qed.

Lemma rune_at_encode pre r : rune_at pre r -> encode_rune r = pre /\ scalar r.
Proof.
  intros H. unfold encode_rune, scalar. destruct H as [b0 H0|b0 b1 H0 H1|b0 b1 b2 H0 H1 Hlo Hhi H2|b0 b1 b2 b3 H0 H1 Hlo Hhi H2 H3].
  - by rewrite (proj2 (Z.ltb_lt _ _)) by lia; split; [|lia].
  - rewrite (proj2 (Z.ltb_ge _ 128)), (proj2 (Z.ltb_lt _ 2048)) by lia. split; [repeat f_equal; lia|lia].
  - rewrite (proj2 (Z.ltb_ge _ 128)), (proj2 (Z.ltb_ge _ 2048)), (proj2 (Z.ltb_lt _ 65536)) by lia. split; [repeat f_equal; lia|lia].
  - rewrite (proj2 (Z.ltb_ge _ 128)), (proj2 (Z.ltb_ge _ 2048)), (proj2 (Z.ltb_ge _ 65536)) by lia. split; [repeat f_equal; lia|lia].
Qed.

Inductive utf8 : byte_list -> Prop :=
  | utf8_nil : utf8 []
  | utf8_rune pre r l : rune_at pre r -> utf8 l -> utf8 (pre ++ l).

Lemma rune_at_bytes pre r : rune_at pre r -> Forall is_byte pre.
Proof. intros []; repeat (apply Forall_cons; split; [unfold is_byte; lia|]); apply Forall_nil_2. Qed.
Lemma utf8_bytes l : utf8 l -> Forall is_byte l.
Proof. induction 1; [constructor|apply Forall_app; eauto using rune_at_bytes]. Qed.
Lemma utf8_app l l' : utf8 l -> utf8 l' -> utf8 (l ++ l').
Proof. induction 1 as [|pre r l Hr _ IH]; intros H'; [done|]. rewrite <-app_assoc. apply (utf8_rune _ r); auto. Qed.
Lemma utf8_one pre r : rune_at pre r -> utf8 pre.
Proof. intros H. rewrite <-(app_nil_r pre). apply (utf8_rune _ r); [done|constructor]. Qed.
Lemma rune_at_nonempty pre r : rune_at pre r -> pre ≠ [].
Proof. by intros []. Qed.

Lemma take_prefix (pre rest : byte_list) : take (length (pre ++ rest) - length rest) (pre ++ rest) = pre.
Proof. rewrite length_app. replace (length pre + length rest - length rest) with (length pre) by lia. apply take_app_length. Qed.

(** ** Reading *)
Lemma hex_value_range b d : hex_value b = Some d -> (0 <= d < 16)%Z.
Proof.
  unfold hex_value, is_digit. destruct (within 48 57 b) eqn:E1; [apply within_spec in E1; intros [= <-]; lia|].
  destruct (within 97 102 b) eqn:E2; [apply within_spec in E2; intros [= <-]; lia|].
  destruct (within 65 70 b) eqn:E3; [apply within_spec in E3; intros [= <-]; lia|done].
Qed.
Lemma hex4_spec l r rest : hex4 l = Some (r, rest) -> (0 <= r < 65536)%Z /\ exists used, l = used ++ rest.
Proof.
  unfold hex4. destruct l as [|a [|b [|c [|d l]]]]; [done..|].
  destruct (hex_value a) as [va|] eqn:Ea, (hex_value b) as [vb|] eqn:Eb, (hex_value c) as [vc|] eqn:Ec, (hex_value d) as [vd|] eqn:Ed; try done.
  apply hex_value_range in Ea, Eb, Ec, Ed. intros [= <- <-]. split; [lia|]. by exists [a; b; c; d].
Qed.
Lemma escaped_rune_spec r l r' rest : (0 <= r < 65536)%Z -> escaped_rune r l = (r', rest) -> scalar r' /\ exists used, l = used ++ rest.
Proof.
  intros Hr H. unfold escaped_rune in H. assert (Hrep : scalar replacement) by (unfold scalar, replacement; lia).
  destruct (is_high r || is_low r) eqn:E.
  - assert (Hkeep : (replacement, l) = (r', rest) -> scalar r' /\ exists used, l = used ++ rest) by (intros [= <- <-]; split; [done|by exists []]).
    destruct l as [|b l]; [by apply Hkeep|]. destruct (decide (b = 92)%Z) as [->|]; [|by split_match H; apply Hkeep].
    destruct l as [|c l]; [by apply Hkeep|]. destruct (decide (c = 117)%Z) as [->|]; [|by split_match H; apply Hkeep].
    destruct (hex4 l) as [[low rest']|] eqn:E4; [|by apply Hkeep]. destruct (is_high r && is_low low) eqn:Epair; [|by apply Hkeep].
    apply andb_true_iff in Epair as [E1 E2]. apply within_spec in E1, E2. injection H as <- <-. apply hex4_spec in E4 as [_ [used ->]].
    split; [unfold scalar; lia|]. by exists (92 :: 117 :: used)%Z.
  - injection H as <- <-. split; [|by exists []]. apply orb_false_iff in E as [E1 E2]. unfold scalar, is_high, is_low in *.
    destruct (Z.lt_ge_cases r 55296); [lia|]. destruct (Z.lt_ge_cases 57343 r); [lia|].
    destruct (Z.lt_ge_cases r 56320); [rewrite within_true in E1 by lia|rewrite within_true in E2 by lia]; done.
Qed.

Lemma simple_escape_range c r : simple_escape c = Some r -> (0 <= r < 128)%Z.
Proof.
  unfold simple_escape. destruct (Z.eqb c 98); [intros [= <-]; lia|]. destruct (Z.eqb c 102); [intros [= <-]; lia|].
  destruct (Z.eqb c 110); [intros [= <-]; lia|]. destruct (Z.eqb c 114); [intros [= <-]; lia|]. destruct (Z.eqb c 116); [intros [= <-]; lia|].
  destruct (Z.eqb_spec c 34), (Z.eqb_spec c 92), (Z.eqb_spec c 47); simpl; intros [= <-]; lia.
Qed.

Lemma next_char_spec l c rest : Forall is_byte l -> next_char l = Some (c, rest) -> utf8 c /\ exists used, l = used ++ rest /\ used ≠ [].
Proof.
  intros Hl H. destruct l as [|b l']; [done|]. unfold next_char in H. destruct (Z.eqb b 92).
  - destruct l' as [|c' l'']; [done|]. destruct (Z.eqb c' 117).
    + destruct (hex4 l'') as [[r rest']|] eqn:E4; [|done]. simpl in H. destruct (escaped_rune r rest') as [r' rest''] eqn:Ee. injection H as <- <-.
      apply hex4_spec in E4 as [Hr [used ->]]. apply escaped_rune_spec in Ee as [Hs [used' ->]]; [|done].
      split; [by eapply utf8_one, encode_rune_at|]. exists (b :: c' :: used ++ used'). by rewrite <-!app_comm_cons, <-app_assoc.
    + destruct (simple_escape c') as [r|] eqn:Er; [|done]. simpl in H. injection H as <- <-. apply simple_escape_range in Er.
      split; [by apply (utf8_one _ r); constructor|by exists [b; c']].
  - destruct (Z.ltb b 32); [done|]. destruct (decode_rune (b :: l')) as [[r rest']|] eqn:E.
    + apply decode_rune_inv in E as (pre&Heq&Hr); [|done]. rewrite Heq, take_prefix in H. injection H as <- <-. rewrite Heq.
      split; [by eapply utf8_one|]. exists pre. split; [done|by eapply rune_at_nonempty].
    + injection H as <- <-. split; [apply (utf8_one _ replacement), encode_rune_at; unfold scalar, replacement; lia|by exists [b]].
Qed.

Lemma Forall_suffix {A} (P : A -> Prop) l used rest : Forall P l -> l = used ++ rest -> Forall P rest.
Proof. intros H ->. by apply Forall_app in H as [_ H]. Qed.

Lemma read_string_spec fuel l text rest : Forall is_byte l -> read_string fuel l = Some (text, rest) ->
  utf8 text /\ exists used, l = used ++ rest /\ used ≠ [].
Proof.
  revert l text rest; induction fuel as [|fuel IH]; intros l text rest Hl H; [done|]. destruct l as [|b l']; [done|]. cbn [read_string] in H.
  destruct (Z.eqb b 34).
  { injection H as <- <-. split; [constructor|by exists [b]]. }
  destruct (next_char (b :: l')) as [[c rest1]|] eqn:E; [|done]. cbn [mbind option_bind] in H.
  destruct (read_string fuel rest1) as [[text' rest2]|] eqn:E2; [|done]. injection H as <- <-.
  apply next_char_spec in E as [Hc (used&Heq&Hne)]; [|done]. rewrite Heq in *. apply Forall_app in Hl as [_ Hl].
  apply IH in E2 as [Ht (used'&->&_)]; [|done]. split; [by apply utf8_app|]. exists (used ++ used'). rewrite <-app_assoc. split; [done|].
  by destruct used.
Qed.

(** ** Writing and reading back *)
Lemma hex_digit_value d : (0 <= d < 16)%Z -> hex_value (hex_digit d) = Some d.
Proof.
  intros H. unfold hex_value, hex_digit, is_digit. destruct (Z.ltb_spec d 10).
  - rewrite within_true by lia. f_equal. lia.
  - rewrite within_false, within_true by lia. f_equal. lia.
Qed.

Lemma next_char_escape_u r pre rest : rune_at pre r -> (r < 65536)%Z -> next_char (escape_u r ++ rest) = Some (pre, rest).
Proof.
  intros Hr Hlt. destruct (rune_at_encode _ _ Hr) as [<- Hs]. unfold scalar in Hs. unfold escape_u. cbn [app next_char].
  rewrite !Z.eqb_refl. unfold hex4. rewrite !hex_digit_value by lia. cbn [mbind option_bind].
  replace ((((r / 4096 mod 16) * 16 + r / 256 mod 16) * 16 + r / 16 mod 16) * 16 + r mod 16)%Z with r by lia.
  unfold escaped_rune, is_high, is_low. by rewrite !within_false by lia.
Qed.

Lemma next_char_simple c r pre rest : rune_at pre r -> (r < 128)%Z -> c ≠ 117%Z -> simple_escape c = Some r -> next_char (92%Z :: c :: rest) = Some (pre, rest).
Proof.
  intros Hr Hlt Hc Hs. destruct (rune_at_encode _ _ Hr) as [<- Hsc]. unfold encode_rune. rewrite (proj2 (Z.ltb_lt _ _)) by done.
  unfold next_char. rewrite (proj2 (Z.eqb_neq c 117)) by done. by rewrite Hs.
Qed.

(** A written rune does not begin with a quote, and reads back as its bytes. *)
Lemma quote_rune_reads r pre rest : rune_at pre r ->
  exists b l, quote_rune r pre = b :: l /\ b ≠ 34%Z /\ next_char (quote_rune r pre ++ rest) = Some (pre, rest).
Proof.
  intros Hr. unfold quote_rune.
  destruct (Z.eqb r 34 || Z.eqb r 92) eqn:E1.
  { eexists _, _. split; [done|]. split; [done|]. apply (next_char_simple r r); [done|..]; destruct (Z.eqb_spec r 34), (Z.eqb_spec r 92); subst; done. }
  apply orb_false_iff in E1 as [E34 E92]. apply Z.eqb_neq in E34, E92.
  do 5 (match goal with |- context [Z.eqb r ?c] => destruct (Z.eqb_spec r c) as [->|] end;
    [eexists _, _; split; [done|]; split; [done|]; by eapply next_char_simple|]).
  destruct (_ || _) eqn:E in |- *.
  { unfold escape_u at 1. eexists _, _. split; [done|]. split; [done|]. apply next_char_escape_u; [done|].
    destruct (Z.ltb_spec r 32), (Z.eqb_spec r 60), (Z.eqb_spec r 62), (Z.eqb_spec r 38), (Z.eqb_spec r 8232), (Z.eqb_spec r 8233); subst; try done; lia. }
  assert (H32 : (32 <= r)%Z) by (destruct (Z.ltb_spec r 32); [done|lia]). clear E.
  pose proof (decode_rune_app pre r rest Hr) as Hd. destruct pre as [|b pre]; [by apply rune_at_nonempty in Hr|].
  assert (Hb : (32 <= b)%Z /\ b ≠ 34%Z /\ b ≠ 92%Z) by (inversion Hr; subst; lia).
  exists b, pre. split; [done|]. split; [apply Hb|]. unfold next_char. cbn [app]. rewrite (proj2 (Z.eqb_neq b 92)) by apply Hb.
  rewrite (proj2 (Z.ltb_ge b 32)) by apply Hb. cbn [app] in Hd. rewrite Hd. change (b :: pre ++ rest) with ((b :: pre) ++ rest). by rewrite take_prefix.
Qed.

Lemma quote_bytes_step n pre r l : rune_at pre r -> length (pre ++ l) <= S n -> quote_bytes (S n) (pre ++ l) = quote_rune r pre ++ quote_bytes n l.
Proof.
  intros Hr Hn. cbn [quote_bytes]. rewrite (decode_rune_app _ _ _ Hr), take_prefix. destruct (pre ++ l) as [|b l'] eqn:E; [|done].
  apply app_eq_nil in E as [E _]. by destruct (rune_at_nonempty _ _ Hr).
Qed.

Lemma quote_bytes_reads text : utf8 text -> forall n fuel rest, length text <= n -> length (quote_bytes n text) < fuel ->
  read_string fuel (quote_bytes n text ++ 34%Z :: rest) = Some (text, rest).
Proof.
  induction 1 as [|pre r l Hr Hl IH]; intros n fuel rest Hn Hf.
  - destruct fuel; [lia|]. by destruct n.
  - assert (Hpre : length pre ≠ 0) by (destruct pre; [by apply rune_at_nonempty in Hr|done]). rewrite length_app in Hn.
    destruct n as [|n]; [lia|]. assert (Hstep : quote_bytes (S n) (pre ++ l) = quote_rune r pre ++ quote_bytes n l) by (apply quote_bytes_step; [done|rewrite length_app; lia]).
    rewrite Hstep in *. rewrite <-app_assoc.
    destruct (quote_rune_reads r pre (quote_bytes n l ++ 34%Z :: rest) Hr) as (b&q&Hq&Hb&Hnext). rewrite length_app in Hf.
    destruct fuel as [|fuel]; [lia|]. rewrite Hq in *. cbn [app read_string length] in *. rewrite (proj2 (Z.eqb_neq b 34)) by done.
    rewrite Hnext. cbn [mbind option_bind]. by rewrite IH by lia.
Qed.

(** A text that is UTF-8 is read back from its quotation. *)
Lemma quote_reads s rest : utf8 (byte_values s) ->
  exists l, quote s = 34%Z :: l /\ read_string (length (l ++ rest)) (l ++ rest) = Some (byte_values s, rest).
Proof.
  intros H. unfold quote. eexists. split; [done|]. rewrite <-app_assoc. apply quote_bytes_reads; [done|done|]. rewrite !length_app. simpl. lia.
Qed.

(** * Numbers in JSON

    The literals the lexer finds, what [normalizeNumber] makes of one, the
    value of a literal, and reading back a canonical number. *)

#[local] Ltac Zify.zify_post_hook ::= Z.to_euclidean_division_equations.

Definition digits (l : byte_list) : Prop := Forall (fun b => is_digit b = true) l.

Lemma digits_app l l' : digits (l ++ l') <-> digits l /\ digits l'.
Proof. apply Forall_app. Qed.
Lemma digits_forallb l : forallb is_digit l = true <-> digits l.
Proof.
  unfold digits. induction l as [|b l IH]; [done|]. cbn [forallb]. rewrite andb_true_iff, IH, Forall_cons. done.
Qed.
Lemma is_digit_spec b : is_digit b = true <-> (48 <= b <= 57)%Z.
Proof. apply within_spec. Qed.

(** ** Decimal digits *)
Lemma digits_value_app l l' : digits_value (l ++ l') = (digits_value l * 10 ^ Z.of_nat (length l') + digits_value l')%Z.
Proof.
  unfold digits_value. rewrite foldl_app. generalize (foldl (fun a d => (a * 10 + (d - 48))%Z) 0%Z l) as a. intros a.
  enough (H : forall l' a c, foldl (fun a d => (a * 10 + (d - 48))%Z) (a + c)%Z l' =
    (a * 10 ^ Z.of_nat (length l') + foldl (fun a d => (a * 10 + (d - 48))%Z) c l')%Z) by (rewrite <-H; f_equal; lia).
  clear l a l'. induction l' as [|d l' IH]; intros a c; [simpl; lia|]. simpl foldl. replace ((a + c) * 10 + (d - 48))%Z with (a * 10 + (c * 10 + (d - 48)))%Z by lia.
  rewrite IH. simpl length. rewrite Nat2Z.inj_succ, Z.pow_succ_r by lia. lia.
Qed.
Lemma digits_value_one d : digits_value [d] = (d - 48)%Z.
Proof. unfold digits_value. simpl. lia. Qed.
Lemma digits_value_nonneg l : digits l -> (0 <= digits_value l)%Z.
Proof.
  induction l as [|d l IH] using rev_ind; [done|]. intros [Hl Hd]%digits_app. rewrite digits_value_app, digits_value_one. apply (proj1 (Forall_singleton _ _)) in Hd.
  apply is_digit_spec in Hd. specialize (IH Hl). simpl. lia.
Qed.

Lemma decimal_spec fuel n : 0 < fuel -> (0 <= n < 2 ^ Z.of_nat fuel)%Z -> digits (decimal fuel n) /\ digits_value (decimal fuel n) = n /\
  exists d l, decimal fuel n = d :: l /\ (0 < n -> d ≠ 48)%Z.
Proof.
  revert n; induction fuel as [|fuel IH]; intros n Hf Hn; [lia|]. cbn [decimal]. destruct (Z.ltb_spec n 10).
  - split; [apply Forall_singleton, is_digit_spec; lia|]. rewrite digits_value_one. split; [lia|]. exists (48 + n)%Z, []. split; [done|lia].
  - rewrite Nat2Z.inj_succ, Z.pow_succ_r in Hn by lia. destruct fuel as [|fuel]; [simpl in Hn; lia|].
    destruct (IH (n / 10)%Z) as (H1&H2&d&l&H3&H4); [lia|lia|]. split.
    + apply digits_app. split; [done|]. apply Forall_singleton, is_digit_spec. lia.
    + rewrite digits_value_app, H2, digits_value_one. split; [simpl; lia|]. exists d, (l ++ [48 + n mod 10])%Z. rewrite H3. split; [done|]. intros _. apply H4. lia.
Qed.

Definition big_digits (n : Z) : byte_list := decimal (S (Z.to_nat (Z.log2 n))) n.
Lemma big_digits_spec n : (0 <= n)%Z -> digits (big_digits n) /\ digits_value (big_digits n) = n /\ exists d l, big_digits n = d :: l /\ (0 < n -> d ≠ 48)%Z.
Proof.
  intros Hn. apply decimal_spec; [lia|]. rewrite Nat2Z.inj_succ, Z2Nat.id by apply Z.log2_nonneg. split; [done|].
  destruct (decide (n = 0)%Z) as [->|]; [done|]. apply Z.log2_spec. lia.
Qed.
Lemma big_String_eq z : big_String z = if Z.ltb z 0 then 45%Z :: big_digits (- z) else big_digits z.
Proof. done. Qed.

Lemma strip_same c l : strip c (c :: l) = (true, l).
Proof. unfold strip. by rewrite Z.eqb_refl. Qed.
Lemma strip_digits c l : digits l -> is_digit c = false -> strip c l = (false, l).
Proof.
  intros Hl Hc. destruct l as [|b l]; [done|]. apply Forall_cons in Hl as [Hb _]. unfold strip. destruct (Z.eqb_spec b c) as [->|]; [congruence|done].
Qed.

Lemma SetString_digits negative l : digits l -> l ≠ [] ->
  SetString ((if negative : bool then [45%Z] else []) ++ l) = Some (if negative then - digits_value l else digits_value l)%Z.
Proof.
  intros Hl Hne. unfold SetString. destruct negative; cbn [app].
  - rewrite strip_same. destruct l; [done|]. by rewrite (proj2 (digits_forallb _) Hl).
  - rewrite !strip_digits by done. destruct l; [done|]. by rewrite (proj2 (digits_forallb _) Hl).
Qed.

Lemma big_String_value z : SetString (big_String z) = Some z.
Proof.
  rewrite big_String_eq. destruct (Z.ltb_spec z 0).
  - destruct (big_digits_spec (- z)) as (H1&H2&d&l&H3&_); [lia|]. change (45%Z :: big_digits (- z)) with ([45%Z] ++ big_digits (- z)).
    rewrite (SetString_digits true) by (done || by rewrite H3). rewrite H2. f_equal. lia.
  - destruct (big_digits_spec z) as (H1&H2&d&l&H3&_); [lia|]. change (big_digits z) with ([] ++ big_digits z).
    rewrite (SetString_digits false) by (done || by rewrite H3). by rewrite H2.
Qed.

(** ** Literals *)
Record literal := MkLiteral {
  li_negative : bool;
  li_integer : byte_list;
  li_fraction : option byte_list;
  li_exponent : option (Z * option Z * byte_list);   (* the letter, a sign, digits *)
}.
Definition show_fraction (f : option byte_list) : byte_list := match f with Some f => 46%Z :: f | None => [] end.
Definition show_exponent (e : option (Z * option Z * byte_list)) : byte_list :=
  match e with Some (letter, sign, e) => letter :: option_list sign ++ e | None => [] end.
Definition show (l : literal) : byte_list :=
  (if li_negative l then [45%Z] else []) ++ li_integer l ++ show_fraction (li_fraction l) ++ show_exponent (li_exponent l).

Definition is_exponent_letter (b : Z) : bool := Z.eqb b 101 || Z.eqb b 69.
Record wf_literal (l : literal) : Prop := {
  wl_integer : digits (li_integer l) /\ li_integer l ≠ [];
  wl_fraction f : li_fraction l = Some f -> digits f /\ f ≠ [];
  wl_exponent letter sign e : li_exponent l = Some (letter, sign, e) ->
    is_exponent_letter letter = true /\ (sign = None \/ sign = Some 43%Z \/ sign = Some 45%Z) /\ digits e /\ e ≠ [];
}.

(** The digits without the point, and the exponent that stands for it. *)
Definition fraction_digits (l : literal) : byte_list := default [] (li_fraction l).
Definition exponent_value (l : literal) : Z :=
  match li_exponent l with
  | Some (_, sign, e) => if decide (sign = Some 45%Z) then - digits_value e else digits_value e
  | None => 0
  end%Z.
Definition mantissa (l : literal) : byte_list := li_integer l ++ fraction_digits l.
Definition scale (l : literal) : Z := (exponent_value l - Z.of_nat (length (fraction_digits l)))%Z.

(** Without leading and trailing zeros. *)
Definition normal (negative : bool) (d : byte_list) (e : Z) : number :=
  match trim_zeros d with
  | [] => MkNumber false [48%Z] 0
  | d => let kept := rev (trim_zeros (rev d)) in MkNumber negative kept (e + Z.of_nat (length d - length kept))
  end.

(** ** Lexing *)
Lemma span_digits_spec l d rest : span_digits l = (d, rest) -> l = d ++ rest /\ digits d /\ (forall b l', rest = b :: l' -> is_digit b = false).
Proof.
  revert d rest; induction l as [|b l IH]; intros d rest H; simpl in H.
  { injection H as <- <-. by split; [|split; [constructor|]]. }
  destruct (is_digit b) eqn:E.
  - destruct (span_digits l) as [d' rest']. injection H as <- <-. destruct (IH d' rest' eq_refl) as (->&H1&H2). split; [done|]. split; [by constructor|done].
  - injection H as <- <-. split; [done|]. split; [constructor|]. by intros ? ? [= <- <-].
Qed.
Lemma some_digits_spec l d rest : some_digits l = Some (d, rest) -> l = d ++ rest /\ digits d /\ d ≠ [].
Proof.
  unfold some_digits. destruct (span_digits l) as [d' rest'] eqn:E. apply span_digits_spec in E as (->&H1&_).
  destruct d'; [done|]. intros [= <- <-]. done.
Qed.

Lemma integer_part_spec l d rest : integer_part l = Some (d, rest) -> l = d ++ rest /\ digits d /\ d ≠ [].
Proof.
  unfold integer_part, strip. destruct l as [|b l]; [done|]. destruct (Z.eqb_spec b 48) as [->|]; [|apply some_digits_spec].
  intros [= <- <-]. split; [done|]. split; [by apply Forall_singleton|done].
Qed.
Lemma fraction_part_spec l f rest : fraction_part l = Some (f, rest) ->
  exists o, f = show_fraction o /\ l = f ++ rest /\ forall d, o = Some d -> digits d /\ d ≠ [].
Proof.
  unfold fraction_part, optional_part. destruct l as [|b l]; [intros [= <- <-]; by exists None|].
  destruct (Z.eqb_spec 46 b) as [<-|]; [|intros [= <- <-]; by exists None].
  destruct (some_digits l) as [[d rest']|] eqn:E; [|done]. intros [= <- <-]. apply some_digits_spec in E as (->&H1&H2).
  exists (Some d). split; [done|]. split; [done|]. by intros ? [= <-].
Qed.
Lemma exponent_part_spec l e rest : exponent_part l = Some (e, rest) ->
  exists o, e = show_exponent o /\ l = e ++ rest /\ forall letter sign d, o = Some (letter, sign, d) ->
    is_exponent_letter letter = true /\ (sign = None \/ sign = Some 43%Z \/ sign = Some 45%Z) /\ digits d /\ d ≠ [].
Proof.
  unfold exponent_part, optional_part. destruct l as [|b l]; [intros [= <- <-]; by exists None|].
  destruct (Z.eqb b 101 || Z.eqb b 69) eqn:Eb; [|intros [= <- <-]; by exists None]. destruct l as [|c l]; [done|].
  destruct (Z.eqb c 43 || Z.eqb c 45) eqn:Ec.
  - destruct (some_digits l) as [[d rest']|] eqn:E; [|done]. intros [= <- <-]. apply some_digits_spec in E as (->&H1&H2).
    exists (Some (b, Some c, d)). split; [done|]. split; [done|]. intros ? ? ? [= <- <- <-]. split_and!; [done| |done|done].
    apply orb_true_iff in Ec as [->%Z.eqb_eq| ->%Z.eqb_eq]; auto.
  - destruct (some_digits (c :: l)) as [[d rest']|] eqn:E; [|done]. intros [= <- <-]. apply some_digits_spec in E as (H0&H1&H2). rewrite H0.
    exists (Some (b, None, d)). split; [done|]. split; [done|]. intros ? ? ? [= <- <- <-]. split_and!; auto.
Qed.

Lemma lex_number_spec l text rest : lex_number l = Some (text, rest) -> l = text ++ rest /\ exists L, wf_literal L /\ text = show L.
Proof.
  unfold lex_number. destruct (strip 45 l) as [negative l1] eqn:E0. intros H.
  destruct (integer_part l1) as [[d l2]|] eqn:E1; [|done]. cbn [mbind option_bind] in H.
  destruct (fraction_part l2) as [[f l3]|] eqn:E2; [|done]. cbn [mbind option_bind] in H.
  destruct (exponent_part l3) as [[e l4]|] eqn:E3; [|done]. injection H as <- <-.
  apply integer_part_spec in E1 as (->&H1&H2). apply fraction_part_spec in E2 as (fo&->&->&H3). apply exponent_part_spec in E3 as (eo&->&->&H4).
  split.
  - rewrite <-!app_assoc. unfold strip in E0. destruct l as [|b l]; [by injection E0 as <- <-|].
    destruct (Z.eqb_spec b 45) as [->|]; by injection E0 as <- <-.
  - exists (MkLiteral negative d fo eo). by split.
Qed.

(** ** Normalization *)
Lemma cut_found f a b c : Forall (fun x => f x = false) a -> f b = true -> cut f (a ++ b :: c) = Some (a, c).
Proof. induction 1 as [|x a Hx _ IH]; intros Hb; simpl; [by rewrite Hb|]. by rewrite Hx, IH. Qed.
Lemma cut_absent f a : Forall (fun x => f x = false) a -> cut f a = None.
Proof. induction 1 as [|x a Hx _ IH]; simpl; [done|]. by rewrite Hx, IH. Qed.
Lemma digits_not f l : digits l -> (forall b, is_digit b = true -> f b = false) -> Forall (fun x => f x = false) l.
Proof. intros Hl Hf. apply (Forall_impl _ _ _ Hl). auto. Qed.
Lemma letter_not_digit b : is_digit b = true -> Z.eqb b 101 || Z.eqb b 69 = false.
Proof. intros [H1 H2]%is_digit_spec. by rewrite !(proj2 (Z.eqb_neq _ _)) by lia. Qed.
Lemma point_not_digit b : is_digit b = true -> Z.eqb 46 b = false.
Proof. intros [H1 H2]%is_digit_spec. by rewrite (proj2 (Z.eqb_neq _ _)) by lia. Qed.

Lemma exponent_text sign e : (sign = None \/ sign = Some 43%Z \/ sign = Some 45%Z) -> digits e -> e ≠ [] ->
  SetString (strip 43 (option_list sign ++ e)).2 = Some (if decide (sign = Some 45%Z) then - digits_value e else digits_value e)%Z.
Proof.
  intros Hs Hd Hne. destruct Hs as [->|[->| ->]].
  - rewrite decide_False by done. change (option_list None ++ e) with e. rewrite strip_digits by done. by apply (SetString_digits false).
  - rewrite decide_False by done. change (option_list (Some 43%Z) ++ e) with (43%Z :: e). rewrite strip_same. by apply (SetString_digits false).
  - rewrite decide_True by done. change (option_list (Some 45%Z) ++ e) with (45%Z :: e). by apply (SetString_digits true).
Qed.

Lemma normalize_literal L : wf_literal L -> normalizeNumber (show L) = Ok (normal (li_negative L) (mantissa L) (scale L)).
Proof.
  intros [[Hi Hine] Hf He]. unfold normalizeNumber, show.
  assert (Hsign : strip 45 ((if li_negative L then [45%Z] else []) ++ li_integer L ++ show_fraction (li_fraction L) ++ show_exponent (li_exponent L)) =
    (li_negative L, li_integer L ++ show_fraction (li_fraction L) ++ show_exponent (li_exponent L))).
  { destruct (li_negative L); cbn [app]; [apply strip_same|]. destruct (li_integer L) as [|b l]; [done|]. apply Forall_cons in Hi as [Hb _].
    cbn [app]. unfold strip. destruct (Z.eqb_spec b 45) as [->|]; done. }
  rewrite Hsign. clear Hsign. rewrite app_assoc. set (significand := li_integer L ++ show_fraction (li_fraction L)).
  assert (Hsig : Forall (fun x => Z.eqb x 101 || Z.eqb x 69 = false) significand).
  { apply Forall_app. split; [by apply digits_not, letter_not_digit|]. destruct (li_fraction L) as [f|] eqn:E; [|constructor].
    constructor; [done|]. apply digits_not; [by apply (Hf f)|apply letter_not_digit]. }
  assert (Hexp : match cut (fun b => Z.eqb b 101 || Z.eqb b 69) (significand ++ show_exponent (li_exponent L)) with
     Some (before, after) => (before, after) | None => (significand ++ show_exponent (li_exponent L), [48%Z]) end =
     (significand, match li_exponent L with Some (_, sign, e) => option_list sign ++ e | None => [48%Z] end)).
  { destruct (li_exponent L) as [[[letter sign] e]|] eqn:E; cbn [show_exponent].
    - destruct (He _ _ _ eq_refl) as (Hl&_). by rewrite cut_found.
    - by rewrite app_nil_r, cut_absent. }
  rewrite Hexp. clear Hexp.
  assert (Hval : SetString (strip 43 (match li_exponent L with Some (_, sign, e) => option_list sign ++ e | None => [48%Z] end)).2 = Some (exponent_value L)).
  { unfold exponent_value. destruct (li_exponent L) as [[[letter sign] e]|] eqn:E; [|done]. destruct (He _ _ _ eq_refl) as (_&Hs&Hd&Hne). by apply exponent_text. }
  rewrite Hval. assert (Hpoint : match cut (Z.eqb 46) significand with Some (before, after) => (before ++ after, length after) | None => (significand, 0) end =
    (mantissa L, length (fraction_digits L))).
  { unfold significand, mantissa, fraction_digits. destruct (li_fraction L) as [f|] eqn:E; cbn [show_fraction default].
    - rewrite cut_found; [done|by apply digits_not, point_not_digit|done].
    - rewrite !app_nil_r, cut_absent; [done|]. by apply digits_not, point_not_digit. }
  rewrite Hpoint. unfold normal, scale. destruct (trim_zeros (mantissa L)); [done|]. cbv zeta. do 3 f_equal.
Qed.

Lemma trim_zeros_spec l : exists k, l = replicate k 48%Z ++ trim_zeros l /\ (forall b l', trim_zeros l = b :: l' -> b ≠ 48%Z).
Proof.
  induction l as [|b l IH]; [by exists 0|]. simpl. destruct (Z.eqb_spec b 48) as [->|Hb].
  - destruct IH as (k&Hl&H). exists (S k). split; [simpl; by rewrite <-Hl|done].
  - exists 0. split; [done|]. by intros ? ? [= <- <-].
Qed.
Lemma trim_zeros_same b l : b ≠ 48%Z -> trim_zeros (b :: l) = b :: l.
Proof. intros H. simpl. by rewrite (proj2 (Z.eqb_neq b 48)). Qed.

(** Canonical numbers: zero, or digits that neither begin nor end with zero. *)
Definition canonical (n : number) : Prop :=
  n = MkNumber false [48%Z] 0 \/
  digits (nu_digits n) /\ (exists d l, nu_digits n = d :: l /\ d ≠ 48%Z) /\ (exists d l, nu_digits n = l ++ [d] /\ d ≠ 48%Z).

Lemma rev_zeros k : rev (replicate k 48%Z) = replicate k 48%Z.
Proof. induction k as [|k IH]; [done|]. simpl. rewrite IH. symmetry. apply (replicate_cons_app k). Qed.

(** Trailing zeros, seen from the end. *)
Lemma trim_end_spec l : exists k, l = rev (trim_zeros (rev l)) ++ replicate k 48%Z /\
  (forall d l', rev (trim_zeros (rev l)) = l' ++ [d] -> d ≠ 48%Z).
Proof.
  destruct (trim_zeros_spec (rev l)) as (k&Hk&Hlast). exists k. split.
  - rewrite <-rev_zeros, <-rev_app_distr, <-Hk. symmetry. apply rev_involutive.
  - intros d l' Heq. apply (f_equal (@rev Z)) in Heq. rewrite rev_involutive, rev_app_distr in Heq. by apply (Hlast d (rev l')).
Qed.

(** Either there are only zeros, or what is left is surrounded by them. *)
Lemma normal_spec negative d e : digits d ->
  (exists k, d = replicate k 48%Z) /\ normal negative d e = MkNumber false [48%Z] 0 \/
  exists j k kept, d = replicate j 48%Z ++ kept ++ replicate k 48%Z /\ normal negative d e = MkNumber negative kept (e + Z.of_nat k) /\
    digits kept /\ (exists b l, kept = b :: l /\ b ≠ 48%Z) /\ (exists b l, kept = l ++ [b] /\ b ≠ 48%Z).
Proof.
  intros Hd. unfold normal. destruct (trim_zeros_spec d) as (j&Hj&Hhead). destruct (trim_zeros d) as [|b l] eqn:E.
  { left. rewrite app_nil_r in Hj. eauto. }
  right. specialize (Hhead b l eq_refl). destruct (trim_end_spec (b :: l)) as (k&Hk&Hlast). cbv zeta. set (kept := rev (trim_zeros (rev (b :: l)))) in *.
  assert (Hkept : exists l', kept = b :: l').
  { destruct kept as [|b' l']; [|injection Hk as <- _; eauto]. exfalso. destruct k; simpl in Hk; [done|]. by injection Hk as -> _. }
  exists j, k, kept. assert (Hdk : digits kept) by (rewrite Hj, Hk in Hd; by apply digits_app in Hd as [_ [Hd _]%digits_app]).
  split_and!; [by rewrite Hj, Hk| |done| |].
  - do 2 f_equal. apply (f_equal length) in Hk. rewrite length_app, length_replicate in Hk. lia.
  - destruct Hkept as [l' Hkept]. by exists b, l'.
  - destruct Hkept as [l' Hkept]. destruct (exists_last (l := kept)) as (l2&d'&Heq); [by rewrite Hkept|].
    exists d', l2. split; [done|by apply (Hlast d' l2)].
Qed.

Lemma normal_canonical negative d e : digits d -> canonical (normal negative d e).
Proof.
  intros Hd. destruct (normal_spec negative d e Hd) as [[_ ->]|(j&k&kept&_&->&H1&H2&H3)]; [by left|right]. split_and!; [done|..].
  - destruct H2 as (b&l&H2&Hb). by exists b, l.
  - destruct H3 as (b&l&H3&Hb). by exists b, l.
Qed.

(** ** Reading back a canonical number *)
Definition literal_of (n : number) : literal :=
  MkLiteral (nu_negative n) (nu_digits n) None
    (if Z.eqb (nu_exponent n) 0 then None
     else Some (101%Z, if Z.ltb (nu_exponent n) 0 then Some 45%Z else None, big_digits (Z.abs (nu_exponent n)))).

Lemma show_literal_of n : show (literal_of n) = write_number n.
Proof.
  unfold show, literal_of, write_number; simpl. do 2 f_equal. destruct (Z.eqb (nu_exponent n) 0); [done|]. simpl. rewrite big_String_eq.
  destruct (Z.ltb_spec (nu_exponent n) 0); simpl; [by rewrite Z.abs_neq by lia|by rewrite Z.abs_eq by lia].
Qed.

Lemma canonical_digits n : canonical n -> digits (nu_digits n) /\ nu_digits n ≠ [].
Proof. intros [->|(H&(d&l&Heq&_)&_)]; [split; [by apply Forall_singleton|done]|split; [done|by rewrite Heq]]. Qed.

Lemma wf_literal_of n : canonical n -> wf_literal (literal_of n).
Proof.
  intros Hn. split; simpl; [by apply canonical_digits|done|]. intros letter sign e. destruct (Z.eqb_spec (nu_exponent n) 0); [done|].
  intros [= <- <- <-]. destruct (big_digits_spec (Z.abs (nu_exponent n))) as (H1&_&d&l&H2&_); [lia|].
  split_and!; [done|destruct (Z.ltb (nu_exponent n) 0); auto|done|by rewrite H2].
Qed.

Lemma scale_literal_of n : scale (literal_of n) = nu_exponent n.
Proof.
  unfold scale, exponent_value, fraction_digits, literal_of; simpl. destruct (Z.eqb_spec (nu_exponent n) 0) as [->|H]; [done|].
  destruct (big_digits_spec (Z.abs (nu_exponent n))) as (_&H2&_); [lia|]. rewrite H2.
  destruct (Z.ltb_spec (nu_exponent n) 0); [rewrite decide_True by done|rewrite decide_False by done]; lia.
Qed.

Lemma normal_canonical_same n : canonical n -> normal (nu_negative n) (nu_digits n) (nu_exponent n) = n.
Proof.
  intros [->|(Hd&(b&l&Hb&Hb')&(c&l'&Hc&Hc'))]; [done|]. unfold normal. destruct n as [negative d e]; simpl in *.
  assert (Htrim : trim_zeros d = d) by (rewrite Hb; by apply trim_zeros_same).
  assert (Hend : rev (trim_zeros (rev d)) = d) by (by rewrite Hc, rev_app_distr; cbn [rev app]; rewrite trim_zeros_same by done; cbn [rev]; rewrite rev_involutive).
  rewrite Htrim. destruct d as [|z d]; [done|]. cbv zeta. change (rev d ++ [z]) with (rev (z :: d)). rewrite Hend. f_equal. simpl. lia.
Qed.

Lemma normalize_write n : canonical n -> normalizeNumber (write_number n) = Ok n.
Proof.
  intros Hn. rewrite <-show_literal_of, normalize_literal by by apply wf_literal_of. rewrite scale_literal_of. unfold mantissa, fraction_digits; simpl.
  rewrite app_nil_r. f_equal. by apply normal_canonical_same.
Qed.

(** What may follow a number in a document. *)
Definition stops (rest : byte_list) : Prop := match rest with [] => True | b :: _ => is_digit b = false /\ b ≠ 46%Z /\ is_exponent_letter b = false end.

Lemma span_digits_app d rest : digits d -> (match rest with [] => True | b :: _ => is_digit b = false end) -> span_digits (d ++ rest) = (d, rest).
Proof.
  intros Hd Hr. induction Hd as [|b d Hb _ IH]; simpl; [|by rewrite Hb, IH]. destruct rest as [|b rest]; [done|]. simpl. by rewrite Hr.
Qed.
Lemma some_digits_app d rest : digits d -> d ≠ [] -> (match rest with [] => True | b :: _ => is_digit b = false end) -> some_digits (d ++ rest) = Some (d, rest).
Proof. intros Hd Hne Hr. unfold some_digits. rewrite span_digits_app by done. by destruct d. Qed.

Lemma integer_part_app d rest : digits d -> (d = [48%Z] \/ exists b l, d = b :: l /\ b ≠ 48%Z) -> (match rest with [] => True | b :: _ => is_digit b = false end) ->
  integer_part (d ++ rest) = Some (d, rest).
Proof.
  intros Hd Hshape Hr. unfold integer_part. destruct Hshape as [->|(b&l&->&Hb)]; [done|]. cbn [app]. unfold strip.
  rewrite (proj2 (Z.eqb_neq b 48)) by done. by apply (some_digits_app (b :: l)).
Qed.
Lemma fraction_part_absent rest : stops rest -> fraction_part rest = Some ([], rest).
Proof. unfold fraction_part, optional_part. destruct rest as [|b rest]; [done|]. intros (_&H&_). by rewrite (proj2 (Z.eqb_neq 46 b)). Qed.
Lemma exponent_part_absent rest : stops rest -> exponent_part rest = Some ([], rest).
Proof. unfold exponent_part, optional_part. destruct rest as [|b rest]; [done|]. intros (_&_&H). unfold is_exponent_letter in H. by rewrite H. Qed.

Lemma exponent_part_app z rest : stops rest -> exponent_part (101%Z :: big_String z ++ rest) = Some (101%Z :: big_String z, rest).
Proof.
  intros Hr. assert (Hr' : match rest with [] => True | b :: _ => is_digit b = false end) by (destruct rest; [done|apply Hr]).
  unfold exponent_part, optional_part. rewrite Z.eqb_refl. cbn [orb]. rewrite big_String_eq. destruct (Z.ltb_spec z 0).
  - destruct (big_digits_spec (- z)) as (H1&_&d&l&H2&_); [lia|]. cbn [app]. change (Z.eqb 45 43 || Z.eqb 45 45) with true. cbv iota.
    rewrite some_digits_app by (done || by rewrite H2). done.
  - destruct (big_digits_spec z) as (H1&_&d&l&H2&_); [lia|]. rewrite H2 in *. cbn [app]. pose proof H1 as H1'. apply Forall_cons in H1' as [Hd _]. apply is_digit_spec in Hd.
    rewrite !(proj2 (Z.eqb_neq _ _)) by lia. cbn [orb]. change (d :: l ++ rest) with ((d :: l) ++ rest). by rewrite some_digits_app.
Qed.

(** A canonical number is found where it was written. *)
Lemma lex_write n rest : canonical n -> stops rest -> lex_number (write_number n ++ rest) = Some (write_number n, rest).
Proof.
  intros Hn Hr. destruct (canonical_digits n Hn) as [Hd Hne].
  assert (Hshape : nu_digits n = [48%Z] \/ exists b l, nu_digits n = b :: l /\ b ≠ 48%Z).
  { destruct Hn as [->|(_&(b&l&H1&H2)&_)]; [by left|right]. by exists b, l. }
  unfold write_number. rewrite <-!app_assoc. set (tail := (if Z.eqb (nu_exponent n) 0 then [] else 101%Z :: big_String (nu_exponent n)) ++ rest).
  assert (Htail : match tail with [] => True | b :: _ => is_digit b = false end).
  { unfold tail. destruct (Z.eqb _ 0); [|done]. destruct rest; [done|apply Hr]. }
  assert (Hfraction : fraction_part tail = Some ([], tail)).
  { unfold tail. destruct (Z.eqb _ 0); [by apply fraction_part_absent|done]. }
  assert (Hexponent : exponent_part tail = Some (if Z.eqb (nu_exponent n) 0 then [] else 101%Z :: big_String (nu_exponent n), rest)).
  { unfold tail. destruct (Z.eqb _ 0); [by apply exponent_part_absent|by apply exponent_part_app]. }
  unfold lex_number.
  assert (Hsign : strip 45 ((if nu_negative n then [45%Z] else []) ++ nu_digits n ++ tail) = (nu_negative n, nu_digits n ++ tail)).
  { destruct (nu_negative n); cbn [app]; [apply strip_same|]. destruct (nu_digits n) as [|b l]; [done|]. apply Forall_cons in Hd as [Hb _].
    cbn [app]. unfold strip. destruct (Z.eqb_spec b 45) as [->|]; done. }
  rewrite Hsign, integer_part_app by done. cbn [mbind option_bind]. rewrite Hfraction. cbn [mbind option_bind]. rewrite Hexponent. done.
Qed.

(** ** The number a literal stands for *)

(** [m * 10 ^ e] and [m' * 10 ^ e'] are the same rational number: they agree
    when both are scaled to integers. *)
Definition same_rational (m e m' e' : Z) : Prop :=
  exists low, (low <= e)%Z /\ (low <= e')%Z /\ (m * 10 ^ (e - low) = m' * 10 ^ (e' - low))%Z.
Definition signed (negative : bool) (d : byte_list) : Z := (if negative then - digits_value d else digits_value d)%Z.

Lemma pow10_pos k : (0 <= k -> 0 < 10 ^ k)%Z.
Proof. intros H. by apply Z.pow_pos_nonneg. Qed.
Lemma pow10_split a b : (0 <= a -> 0 <= b -> 10 ^ (a + b) = 10 ^ a * 10 ^ b)%Z.
Proof. intros. by apply Z.pow_add_r. Qed.

(** Any lower scale will do. *)
Lemma same_rational_at low m e m' e' : (low <= e)%Z -> (low <= e')%Z ->
  same_rational m e m' e' <-> (m * 10 ^ (e - low) = m' * 10 ^ (e' - low))%Z.
Proof.
  intros H1 H2. split; [|by exists low]. intros (low'&H1'&H2'&Heq).
  assert (Hgen : forall a b, (a <= e -> a <= e' -> b <= a -> m * 10 ^ (e - a) = m' * 10 ^ (e' - a) <-> m * 10 ^ (e - b) = m' * 10 ^ (e' - b))%Z).
  { intros a b Ha Ha' Hb. replace (e - b)%Z with ((e - a) + (a - b))%Z by lia. replace (e' - b)%Z with ((e' - a) + (a - b))%Z by lia.
    rewrite !pow10_split, !Z.mul_assoc by lia. assert (0 < 10 ^ (a - b))%Z by (apply pow10_pos; lia). split; [by intros ->|]. intros H0. apply Z.mul_reg_r in H0; [done|lia]. }
  destruct (Z.le_ge_cases low low') as [Hle|Hle]; [by apply (Hgen low' low)|by apply (Hgen low low')].
Qed.

Lemma same_rational_sym m e m' e' : same_rational m e m' e' -> same_rational m' e' m e.
Proof. intros (low&H1&H2&H). by exists low. Qed.
Lemma same_rational_trans m1 e1 m2 e2 m3 e3 : same_rational m1 e1 m2 e2 -> same_rational m2 e2 m3 e3 -> same_rational m1 e1 m3 e3.
Proof.
  intros H1 H2. set (low := Z.min e1 (Z.min e2 e3)). apply (same_rational_at low) in H1, H2; try lia. exists low.
  split_and!; [lia|lia|congruence].
Qed.

Lemma digits_value_zeros k : digits_value (replicate k 48%Z) = 0%Z.
Proof. induction k as [|k IH]; [done|]. rewrite replicate_S_end, digits_value_app, IH. done. Qed.

Lemma normal_value negative d e : digits d ->
  same_rational (signed negative d) e (signed (nu_negative (normal negative d e)) (nu_digits (normal negative d e))) (nu_exponent (normal negative d e)).
Proof.
  intros Hd. destruct (normal_spec negative d e Hd) as [[[k ->] ->]|(j&k&kept&->&->&_)]; simpl.
  - exists (Z.min e 0). split_and!; [lia|lia|]. change (signed false [48%Z]) with 0%Z. unfold signed. rewrite digits_value_zeros. by destruct negative.
  - exists e. split_and!; [lia|lia|]. rewrite Z.sub_diag. replace (e + Z.of_nat k - e)%Z with (Z.of_nat k) by lia. unfold signed.
    rewrite !digits_value_app, !digits_value_zeros, !length_replicate. destruct negative; lia.
Qed.

Lemma digits_value_inj l l' : digits l -> digits l' -> (forall b r, l = b :: r -> b ≠ 48%Z) -> (forall b r, l' = b :: r -> b ≠ 48%Z) ->
  digits_value l = digits_value l' -> l = l'.
Proof.
  assert (Hpos : forall l, digits l -> (forall b r, l = b :: r -> b ≠ 48%Z) -> l ≠ [] -> (0 < digits_value l)%Z).
  { clear. intros l Hl Hh Hne. destruct l as [|b l]; [done|]. change (b :: l) with ([b] ++ l). rewrite digits_value_app, digits_value_one.
    apply Forall_cons in Hl as [Hb Hl]. apply is_digit_spec in Hb. pose proof (Hh b l eq_refl). pose proof (digits_value_nonneg l Hl). assert (0 < 10 ^ Z.of_nat (length l))%Z by (apply pow10_pos; lia). nia. }
  revert l'; induction l as [|d l IH] using rev_ind; intros l' Hl Hl' Hh Hh' Heq.
  { destruct l' as [|b l']; [done|]. pose proof (Hpos (b :: l') Hl' Hh'). change (digits_value []) with 0%Z in Heq. exfalso. enough (0 < 0)%Z by lia. rewrite Heq at 2. by apply H. }
  destruct l' as [|d' l' _] using rev_ind.
  { pose proof (Hpos (l ++ [d]) Hl Hh). change (digits_value []) with 0%Z in Heq. exfalso. enough (0 < 0)%Z by lia. rewrite <-Heq at 2. apply H. by destruct l. }
  rewrite !digits_value_app, !digits_value_one in Heq. apply digits_app in Hl as [Hl Hd], Hl' as [Hl' Hd'].
  apply (proj1 (Forall_singleton _ _)) in Hd, Hd'. apply is_digit_spec in Hd, Hd'. change (10 ^ Z.of_nat (length [d']))%Z with 10%Z in Heq. change (10 ^ Z.of_nat (length [d]))%Z with 10%Z in Heq.
  assert (d = d') as -> by lia. f_equal. apply IH; [done|done| | |lia].
  - intros b r ->. by apply (Hh b (r ++ [d'])).
  - intros b r ->. by apply (Hh' b (r ++ [d'])).
Qed.

(** The value of digits that do not end with zero is not a multiple of ten. *)
Lemma digits_value_mod l d : digits (l ++ [d]) -> d ≠ 48%Z -> (digits_value (l ++ [d]) mod 10 ≠ 0)%Z.
Proof.
  intros [_ Hd]%digits_app Hne. apply (proj1 (Forall_singleton _ _)) in Hd. apply is_digit_spec in Hd. rewrite digits_value_app, digits_value_one. simpl. lia.
Qed.

Lemma canonical_same n n' : canonical n -> canonical n' ->
  same_rational (signed (nu_negative n) (nu_digits n)) (nu_exponent n) (signed (nu_negative n') (nu_digits n')) (nu_exponent n') -> n = n'.
Proof.
  assert (Hsplit : forall n, canonical n -> n = MkNumber false [48%Z] 0 \/
    (digits (nu_digits n) /\ (forall b r, nu_digits n = b :: r -> b ≠ 48%Z) /\ (0 < digits_value (nu_digits n))%Z /\ (digits_value (nu_digits n) mod 10 ≠ 0)%Z)).
  { intros m [->|(Hd&(b&r&Hb&Hb')&(c&l&Hc&Hc'))]; [by left|right].
    assert (Hm : (digits_value (nu_digits m) mod 10 ≠ 0)%Z) by (rewrite Hc in *; by apply digits_value_mod).
    split_and!; [done| | |done]; [|pose proof (digits_value_nonneg _ Hd); lia]. intros b1 r1 H1. rewrite H1 in Hb. by injection Hb as -> _. }
  intros H H' Hsame. set (low := Z.min (nu_exponent n) (nu_exponent n')). apply (same_rational_at low) in Hsame; [|lia..].
  assert (P : (0 < 10 ^ (nu_exponent n - low))%Z) by (apply pow10_pos; lia). assert (P' : (0 < 10 ^ (nu_exponent n' - low))%Z) by (apply pow10_pos; lia).
  destruct (Hsplit n H) as [->|(H1&H2&H3&H4)], (Hsplit n' H') as [->|(H1'&H2'&H3'&H4')]; [done| | |].
  - exfalso. unfold signed in Hsame. simpl in Hsame. change (digits_value [48%Z]) with 0%Z in Hsame. destruct (nu_negative n'); nia.
  - exfalso. unfold signed in Hsame. simpl in Hsame. change (digits_value [48%Z]) with 0%Z in Hsame. destruct (nu_negative n); nia.
  - destruct n as [neg d e], n' as [neg' d' e']; simpl in *.
    assert (Hneg : neg = neg') by (unfold signed in Hsame; destruct neg, neg'; (done || (exfalso; nia))). subst neg'.
    assert (Habs : (digits_value d * 10 ^ (e - low) = digits_value d' * 10 ^ (e' - low))%Z) by (unfold signed in Hsame; destruct neg; lia).
    assert (Hten : forall a b k, (0 < k -> a = b * 10 ^ k -> a mod 10 = 0)%Z).
    { intros a b k Hk ->. replace k with (Z.succ (k - 1)) by lia. rewrite Z.pow_succ_r by lia. apply Z.mod_divide; [done|]. exists (b * 10 ^ (k - 1))%Z. lia. }
    assert (He : e = e').
    { destruct (Z.lt_trichotomy e e') as [Hlt|[?|Hlt]]; [|done|]; exfalso.
      - apply H4. apply (Hten _ (digits_value d') (e' - low)%Z); [lia|]. rewrite <-Habs. replace (e - low)%Z with 0%Z by lia. lia.
      - apply H4'. apply (Hten _ (digits_value d) (e - low)%Z); [lia|]. rewrite Habs. replace (e' - low)%Z with 0%Z by lia. lia. }
    subst e'. f_equal. apply digits_value_inj; try done. apply Z.mul_reg_r in Habs; [done|lia].
Qed.

Lemma normal_same L L' : wf_literal L -> wf_literal L' ->
  normal (li_negative L) (mantissa L) (scale L) = normal (li_negative L') (mantissa L') (scale L') <->
  same_rational (signed (li_negative L) (mantissa L)) (scale L) (signed (li_negative L') (mantissa L')) (scale L').
Proof.
  assert (Hm : forall L, wf_literal L -> digits (mantissa L)).
  { intros l [[Hi _] Hf _]. unfold mantissa, fraction_digits. apply digits_app. split; [done|].
    destruct (li_fraction l) as [f|]; [by apply (Hf f)|constructor]. }
  intros H%Hm H'%Hm. pose proof (normal_value (li_negative L) _ (scale L) H) as V. pose proof (normal_value (li_negative L') _ (scale L') H') as V'. split.
  - intros Heq. rewrite <-Heq in V'. eapply same_rational_trans; [exact V|by apply same_rational_sym].
  - intros Hs. apply canonical_same; [by apply normal_canonical..|]. eapply same_rational_trans; [by apply same_rational_sym|].
    eapply same_rational_trans; [exact Hs|exact V'].
Qed.
