(* ===== verification/JsonProperties.v ===== *)
(** * What the JSON values promise

    The canonical encoding is a fixed point and decides equality; numbers are
    equal when they are the same rational number; and the operations satisfy
    the laws the rest of the program relies on. *)

From stdpp Require Import sorting.
From S2P Require Import Prelude GoStrings AgentTypes JsonValue JsonTextFacts.
From S2P Require Import SessionProperties.

(** * Reading back what was written

    The parser only yields well-formed values and never panics; the canonical
    encoding of a value parses to its normal form; and [equal] compares normal
    forms. *)

(** ** Values *)
Section ValueInduction.
Variable P : value -> Prop.
Hypothesis Hnull : P VNull.
Hypothesis Hbool : forall b, P (VBoolean b).
Hypothesis Hnumber : forall n, P (VNumber n).
Hypothesis Hstring : forall t, P (VString t).
Hypothesis Harray : forall items, Forall P items -> P (VArray items).
Hypothesis Hobject : forall members, Forall (fun m => P m.2) members -> P (VObject members).

Fixpoint value_nested_ind (v : value) : P v :=
  match v with
  | VNull => Hnull
  | VBoolean b => Hbool b
  | VNumber n => Hnumber n
  | VString t => Hstring t
  | VArray items => Harray items ((fix go (l : list value) : Forall P l := match l with [] => Forall_nil_2 P | x :: l => Forall_cons_2 P x l (value_nested_ind x) (go l) end) items)
  | VObject members => Hobject members
      ((fix go (l : list (string * value)) : Forall (fun m => P m.2) l :=
          match l with [] => Forall_nil_2 _ | m :: l => Forall_cons_2 _ m l (value_nested_ind m.2) (go l) end) members)
  end.
End ValueInduction.

Inductive wf_value : value -> Prop :=
  | wf_null : wf_value VNull
  | wf_boolean b : wf_value (VBoolean b)
  | wf_number n : canonical n -> wf_value (VNumber n)
  | wf_string t : utf8 (byte_values t) -> wf_value (VString t)
  | wf_array items : Forall wf_value items -> wf_value (VArray items)
  | wf_object members : NoDup members.*1 -> Forall (fun m => utf8 (byte_values m.1) /\ wf_value m.2) members -> wf_value (VObject members).

(** ** Sorting members by name *)
Definition by_name {A} (a b : string * A) : Prop := string_le a.1 b.1.
#[export] Instance by_name_dec {A} (a b : string * A) : Decision (by_name a b).
Proof. unfold by_name; apply _. Defined.
#[export] Instance by_name_trans {A} : Transitive (@by_name A).
Proof. intros a b c. unfold by_name. apply string_le_trans. Qed.
#[export] Instance by_name_total {A} : Total (@by_name A).
Proof. intros a b. apply string_le_total. Qed.

Definition sorted_members {A} (l : list (string * A)) : list (string * A) := merge_sort by_name l.

Lemma sorted_members_perm {A} (l : list (string * A)) : sorted_members l ≡ₚ l.
Proof. apply merge_sort_Permutation. Qed.

Lemma by_name_unique {A} (l l' : list (string * A)) : NoDup l.*1 -> l ≡ₚ l' -> StronglySorted by_name l -> StronglySorted by_name l' -> l = l'.
Proof.
  intros Hn Hp Hl Hl'. apply (StronglySorted_unique_strong by_name); [|done..]. intros a b Ha Hb H1 H2.
  apply (NoDup_fmap_same fst l); [done|done|by rewrite Hp|]. by apply (anti_symm string_le).
Qed.
Lemma sorted_members_sorted {A} (l : list (string * A)) : StronglySorted by_name (sorted_members l).
Proof. apply StronglySorted_merge_sort; apply _. Qed.

Lemma map_names {A B} (f : A -> B) (l : list (string * A)) : (map (fun m => (m.1, f m.2)) l).*1 = l.*1.
Proof. induction l as [|m l IH]; [done|]. cbn. f_equal. exact IH. Qed.

(** Sorting looks only at the names. *)
Lemma sorted_members_map {A B} (f : A -> B) (l : list (string * A)) : NoDup l.*1 ->
  sorted_members (map (fun m => (m.1, f m.2)) l) = map (fun m => (m.1, f m.2)) (sorted_members l).
Proof.
  intros Hn. apply by_name_unique.
  - rewrite sorted_members_perm. by rewrite map_names.
  - rewrite sorted_members_perm. apply Permutation_map. symmetry. apply sorted_members_perm.
  - apply sorted_members_sorted.
  - apply (StronglySorted_fmap (fun m => (m.1, f m.2)) by_name by_name); [done|apply sorted_members_sorted].
Qed.

(** The normal form: objects sorted by name, all the way down. *)
Fixpoint norm (v : value) : value :=
  match v with
  | VArray items => VArray (map norm items)
  | VObject members => VObject (sorted_members (map (fun m => (m.1, norm m.2)) members))
  | v => v
  end.

(** ** Tokens of written values *)
Definition starts_value (b : Z) : Prop := (is_space b = false /\ b ≠ 44 /\ b ≠ 58 /\ b ≠ 93 /\ b ≠ 125)%Z.
(** What follows a value in canonical text. *)
Definition follows (rest : byte_list) : Prop := match rest with [] => True | b :: _ => b = 44%Z \/ b = 93%Z \/ b = 125%Z end.

Lemma follows_stops rest : follows rest -> stops rest.
Proof. destruct rest as [|b rest]; [done|]. intros [->|[->| ->]]; done. Qed.

Lemma skip_space_start b l : is_space b = false -> skip_space (b :: l) = b :: l.
Proof. intros H. simpl. by rewrite H. Qed.

(** A comma and a colon are passed over. *)
Lemma Token_enough fuel b l s stack : starts_value b -> Token (S fuel) (MkDecoder (b :: l) s stack) = Token 1 (MkDecoder (b :: l) s stack).
Proof.
  intros (Hs&H44&H58&_). cbn [Token de_input de_state de_stack]. rewrite skip_space_start by done.
  rewrite !(proj2 (Z.eqb_neq b 44)), !(proj2 (Z.eqb_neq b 58)) by done. done.
Qed.
Lemma Token_comma_array b l stack : starts_value b ->
  next_token (MkDecoder (44%Z :: b :: l) ArrayComma stack) = next_token (MkDecoder (b :: l) ArrayValue stack).
Proof. intros Hb. unfold next_token at 1. transitivity (Token 2 (MkDecoder (b :: l) ArrayValue stack)); [done|]. unfold next_token. by rewrite !(Token_enough _ b). Qed.
Lemma Token_comma_object b l stack : starts_value b ->
  next_token (MkDecoder (44%Z :: b :: l) ObjectComma stack) = next_token (MkDecoder (b :: l) ObjectKey stack).
Proof. intros Hb. unfold next_token at 1. transitivity (Token 2 (MkDecoder (b :: l) ObjectKey stack)); [done|]. unfold next_token. by rewrite !(Token_enough _ b). Qed.
Lemma Token_colon b l stack : starts_value b ->
  next_token (MkDecoder (58%Z :: b :: l) ObjectColon stack) = next_token (MkDecoder (b :: l) ObjectValue stack).
Proof. intros Hb. unfold next_token at 1. transitivity (Token 2 (MkDecoder (b :: l) ObjectValue stack)); [done|]. unfold next_token. by rewrite !(Token_enough _ b). Qed.

Lemma decode_same fuel d d' : next_token d = next_token d' -> decode fuel d = decode fuel d'.
Proof. destruct fuel; [done|]. cbn [decode]. by intros ->. Qed.

(** A scalar where a value is allowed. *)
Lemma Token_scalar b l s stack t rest : starts_value b -> b ≠ 91%Z -> b ≠ 123%Z -> value_allowed s = true -> s ≠ ObjectStart -> s ≠ ObjectKey ->
  lex_scalar (b :: l) = Ok (t, rest) -> next_token (MkDecoder (b :: l) s stack) = Ok (t, MkDecoder rest (value_end s) stack).
Proof.
  intros Hb H91 H123 Hs Hs1 Hs2 Hl. unfold next_token. rewrite Token_enough by done. destruct Hb as (Hsp&H44&H58&H93&H125).
  cbn [Token de_input de_state de_stack]. rewrite skip_space_start by done.
  rewrite !(proj2 (Z.eqb_neq _ _)) by done. rewrite !bool_decide_eq_false_2 by done. rewrite andb_false_r, Hs. cbn [negb reject_if mbind result_bind]. by rewrite Hl.
Qed.

Lemma quote_starts s : exists l, quote s = 34%Z :: l.
Proof. by eexists. Qed.

Lemma lex_scalar_quote s rest : utf8 (byte_values s) -> lex_scalar (quote s ++ rest) = Ok (TokString s, rest).
Proof. intros H. destruct (quote_reads s rest H) as (l&->&Hl). cbn [app lex_scalar]. rewrite Hl. by rewrite of_bytes_values. Qed.

Lemma Token_key s l st stack : utf8 (byte_values s) -> st = ObjectStart \/ st = ObjectKey ->
  next_token (MkDecoder (quote s ++ l) st stack) = Ok (TokString s, MkDecoder l ObjectColon stack).
Proof.
  intros Hu Hs. pose proof (lex_scalar_quote s l Hu) as Hl. destruct (quote_starts s) as [q Hq]. rewrite Hq in *. cbn [app] in *.
  unfold next_token. cbn [Token de_input de_state de_stack]. rewrite skip_space_start by done.
  assert (Hb : bool_decide (st = ObjectStart) || bool_decide (st = ObjectKey) = true) by (destruct Hs as [->| ->]; done).
  rewrite Hb. cbn [Z.eqb Pos.eqb andb]. by rewrite Hl.
Qed.

Lemma Token_open c inside l s stack : (c = 91%Z /\ inside = ArrayStart \/ c = 123%Z /\ inside = ObjectStart) -> value_allowed s = true ->
  next_token (MkDecoder (c :: l) s stack) = Ok (TokDelim c, MkDecoder l inside (s :: stack)).
Proof. intros [[-> ->]|[-> ->]] Hs; unfold next_token; cbn [Token de_input de_state de_stack]; unfold open_delim; simpl; by rewrite Hs. Qed.

Lemma closing_spec c s rest outer stack message : (c = 93%Z /\ (s = ArrayStart \/ s = ArrayComma) \/ c = 125%Z /\ (s = ObjectStart \/ s = ObjectComma)) ->
  closing (MkDecoder (c :: rest) s (outer :: stack)) c message = Ok (MkDecoder rest (value_end outer) stack).
Proof. by intros [[-> [->| ->]]|[-> [->| ->]]]. Qed.

(** ** Reading values *)
Definition number_start (b : Z) : Prop := is_digit b = true \/ b = 45%Z.
Lemma number_start_range b : number_start b -> (45 <= b <= 57)%Z /\ b ≠ 46%Z.
Proof. intros [H%is_digit_spec| ->]; lia. Qed.

Lemma write_number_starts n : canonical n -> exists b l, write_number n = b :: l /\ number_start b.
Proof.
  intros Hn. destruct (canonical_digits n Hn) as [Hd Hne]. unfold write_number. destruct (nu_negative n); [by exists 45%Z; eexists; split; [|right]|].
  destruct (nu_digits n) as [|b l]; [done|]. apply Forall_cons in Hd as [Hb _]. exists b. eexists. split; [done|by left].
Qed.

Lemma lex_scalar_number n rest : canonical n -> follows rest -> lex_scalar (write_number n ++ rest) = Ok (TokNumber (write_number n), rest).
Proof.
  intros Hn Hr. pose proof (lex_write n rest Hn (follows_stops _ Hr)) as Hl. destruct (write_number_starts n Hn) as (b&l&Hw&Hb%number_start_range).
  rewrite Hw in *. cbn [app lex_scalar] in *. rewrite !(proj2 (Z.eqb_neq b _)) by lia. by rewrite Hl.
Qed.

Lemma write_starts v : wf_value v -> exists b l, writeCanonical v = b :: l /\ starts_value b.
Proof.
  intros Hv. destruct Hv as [|[]|n Hn|t Ht|items Hi|members Hn Hm]; try (eexists _, _; split; [reflexivity|done]).
  destruct (write_number_starts n Hn) as (b&l&Hw&Hb%number_start_range). exists b, l. split; [done|]. unfold starts_value, is_space.
  rewrite !(proj2 (Z.eqb_neq b _)) by lia. split_and!; [done|lia..].
Qed.

Definition commas (parts : list byte_list) : byte_list := concat (map (cons 44%Z) parts).
Lemma separated_cons part parts : separated (part :: parts) = part ++ commas parts.
Proof.
  unfold commas. revert part; induction parts as [|p parts IH]; intros part; [simpl; by rewrite app_nil_r|].
  change (separated (part :: p :: parts)) with (part ++ 44%Z :: separated (p :: parts)). by rewrite IH.
Qed.
Lemma commas_cons part parts : commas (part :: parts) = 44%Z :: part ++ commas parts.
Proof. done. Qed.
Lemma follows_commas parts b rest : b = 93%Z \/ b = 125%Z -> follows (commas parts ++ b :: rest).
Proof. destruct parts; simpl; auto. Qed.

(** [v] is read from its encoding wherever a value may stand. *)
Definition reads (v : value) : Prop := forall fuel rest s stack, value_allowed s = true -> follows rest -> length (writeCanonical v) < fuel ->
  decode fuel (MkDecoder (writeCanonical v ++ rest) s stack) = Ok (norm v, MkDecoder rest (value_end s) stack).

Lemma More_start b l s stack : starts_value b \/ b = 44%Z -> More (MkDecoder (b :: l) s stack) = true.
Proof.
  intros [(Hs&_&_&H1&H2)| ->]; [|done]. unfold More. cbn [de_input]. rewrite skip_space_start by done. by rewrite !(proj2 (Z.eqb_neq b _)) by done.
Qed.

Lemma reads_after_comma v fuel rest stack : wf_value v -> reads v -> follows rest -> length (writeCanonical v) < fuel ->
  decode fuel (MkDecoder (44%Z :: writeCanonical v ++ rest) ArrayComma stack) = Ok (norm v, MkDecoder rest ArrayComma stack).
Proof.
  intros Hw Hv Hr Hf. etrans; [|exact (Hv fuel rest ArrayValue stack eq_refl Hr Hf)]. destruct (write_starts v Hw) as (b&l&->&Hb). cbn [app].
  by apply decode_same, Token_comma_array.
Qed.
Lemma reads_after_colon v fuel rest stack : wf_value v -> reads v -> follows rest -> length (writeCanonical v) < fuel ->
  decode fuel (MkDecoder (58%Z :: writeCanonical v ++ rest) ObjectColon stack) = Ok (norm v, MkDecoder rest ObjectComma stack).
Proof.
  intros Hw Hv Hr Hf. etrans; [|exact (Hv fuel rest ObjectValue stack eq_refl Hr Hf)]. destruct (write_starts v Hw) as (b&l&->&Hb). cbn [app].
  by apply decode_same, Token_colon.
Qed.

Lemma items_after_comma items : Forall wf_value items -> Forall reads items -> forall fuel rest stack,
  length (commas (map writeCanonical items)) < fuel ->
  decode_items fuel (MkDecoder (commas (map writeCanonical items) ++ 93%Z :: rest) ArrayComma stack) =
    Ok (map norm items, MkDecoder (93%Z :: rest) ArrayComma stack).
Proof.
  induction items as [|v items IH]; intros Hw Hv fuel rest stack Hf; (destruct fuel as [|fuel]; [lia|]); [done|].
  apply Forall_cons in Hw as [Hw Hws], Hv as [Hv Hvs]. cbn [map] in *. rewrite commas_cons in *. cbn [decode_items app].
  rewrite More_start by auto. cbn [length] in Hf. rewrite length_app in Hf. rewrite <-app_assoc.
  rewrite reads_after_comma by first [done|lia|apply follows_commas; auto]. cbn [mbind result_bind].
  by rewrite IH by (done || lia).
Qed.

Lemma reads_array items : Forall wf_value items -> Forall reads items -> reads (VArray items).
Proof.
  intros Hw Hv fuel rest s stack Hs Hr Hf. destruct fuel as [|fuel]; [lia|]. cbn [writeCanonical norm] in *. cbn [length] in Hf. rewrite length_app in Hf.
  cbn [decode app]. rewrite (Token_open _ ArrayStart) by auto. cbn [mbind result_bind]. rewrite Z.eqb_refl.
  destruct fuel as [|fuel]; [simpl in Hf; lia|]. destruct items as [|v items]; cbn [map] in *.
  - simpl. done.
  - apply Forall_cons in Hw as [Hw Hws], Hv as [Hv Hvs]. rewrite separated_cons in *. rewrite length_app in Hf. cbn [length] in Hf.
    rewrite <-!app_assoc. cbn [decode_items app]. destruct (write_starts v Hw) as (b&l&Hb&Hstart).
    assert (Hmore : More (MkDecoder (writeCanonical v ++ commas (map writeCanonical items) ++ 93%Z :: rest) ArrayStart (s :: stack)) = true)
      by (rewrite Hb; apply More_start; auto).
    rewrite Hmore. rewrite Hv by first [done|lia|apply follows_commas; auto]. cbn [mbind result_bind value_end].
    rewrite items_after_comma by (done || lia). cbn [mbind result_bind]. rewrite closing_spec by auto. done.
Qed.

Definition write_member (m : string * value) : byte_list := quote m.1 ++ 58%Z :: writeCanonical m.2.
Definition norm_member (m : string * value) : string * value := (m.1, norm m.2).

Definition member_ok (m : string * value) : Prop := utf8 (byte_values m.1) /\ wf_value m.2 /\ reads m.2.

(** One member, up to the comma or the closing brace that follows it. *)
Lemma reads_member m fuel l s stack acc : member_ok m -> s = ObjectStart \/ s = ObjectComma -> follows l -> m.1 ∉ acc.*1 ->
  length (write_member m) < fuel ->
  decode_members (S fuel) (MkDecoder ((if decide (s = ObjectComma) then [44%Z] else []) ++ write_member m ++ l) s stack) acc =
    decode_members fuel (MkDecoder l ObjectComma stack) (acc ++ [norm_member m]).
Proof.
  intros (Hu&Hw&Hv) Hs Hl Hnew Hf. unfold write_member in *. rewrite length_app in Hf. cbn [length] in Hf.
  rewrite <-app_assoc. cbn [decode_members app].
  assert (Htok : next_token (MkDecoder ((if decide (s = ObjectComma) then [44%Z] else []) ++ quote m.1 ++ 58%Z :: writeCanonical m.2 ++ l) s stack) =
    Ok (TokString m.1, MkDecoder (58%Z :: writeCanonical m.2 ++ l) ObjectColon stack)).
  { destruct Hs as [->| ->]; cbn [decide app]; [by apply Token_key; auto|].
    etrans; [|apply (Token_key m.1 _ ObjectKey); auto]. destruct (quote_starts m.1) as [q Hq]. rewrite Hq. cbn [app]. by apply Token_comma_object. }
  assert (Hmore : More (MkDecoder ((if decide (s = ObjectComma) then [44%Z] else []) ++ quote m.1 ++ 58%Z :: writeCanonical m.2 ++ l) s stack) = true).
  { destruct Hs as [->| ->]; cbn [decide app]; [|done]. destruct (quote_starts m.1) as [q Hq]. rewrite Hq. done. }
  rewrite Hmore, Htok. cbn [mbind result_bind]. rewrite bool_decide_eq_false_2 by done. cbn [reject_if mbind result_bind].
  rewrite reads_after_colon by first [done|lia]. done.
Qed.

Lemma fst_norm_member members : (map norm_member members).*1 = members.*1.
Proof. induction members as [|m members IH]; [done|]. cbn. f_equal. exact IH. Qed.

Lemma members_after_comma members : Forall member_ok members -> forall fuel rest stack acc,
  NoDup (acc.*1 ++ members.*1) -> length (commas (map write_member members)) < fuel ->
  decode_members fuel (MkDecoder (commas (map write_member members) ++ 125%Z :: rest) ObjectComma stack) acc =
    Ok (acc ++ map norm_member members, MkDecoder (125%Z :: rest) ObjectComma stack).
Proof.
  induction members as [|m members IH]; intros Hm fuel rest stack acc Hn Hf; (destruct fuel as [|fuel]; [lia|]).
  { cbn [map]. rewrite app_nil_r. done. }
  apply Forall_cons in Hm as [Hm Hms]. cbn [map] in *. rewrite commas_cons in *. cbn [length] in Hf. rewrite length_app in Hf.
  pose proof (reads_member m fuel (commas (map write_member members) ++ 125%Z :: rest) ObjectComma stack acc Hm) as Hread.
  cbn [decide app] in Hread. rewrite <-app_comm_cons, <-app_assoc.
  assert (Hnew : m.1 ∉ acc.*1) by (intros Hin; rewrite fmap_cons in Hn; apply NoDup_app in Hn as (_&Hn&_); apply (Hn _ Hin); left).
  etrans; [apply Hread; [by right|apply follows_commas; by right|done|lia]|]. rewrite IH; [|done| |lia].
  - rewrite <-app_assoc. done.
  - rewrite fmap_app, <-app_assoc. done.
Qed.

Lemma written_members members : NoDup members.*1 ->
  map (fun m => quote m.1 ++ 58%Z :: m.2) (merge_sort member_le (map (fun m => (m.1, writeCanonical m.2)) members)) =
    map write_member (sorted_members members).
Proof.
  intros Hn. change (merge_sort member_le (map (fun m => (m.1, writeCanonical m.2)) members)) with (sorted_members (map (fun m => (m.1, writeCanonical m.2)) members)).
  rewrite sorted_members_map by done. rewrite map_map. done.
Qed.

Lemma reads_object members : NoDup members.*1 -> Forall member_ok members -> reads (VObject members).
Proof.
  intros Hn Hm fuel rest s stack Hs Hr Hf. destruct fuel as [|fuel]; [lia|]. cbn [writeCanonical norm] in *. rewrite written_members in * by done.
  rewrite (sorted_members_map norm) by done. cbn [length] in Hf. rewrite length_app in Hf. cbn [decode app].
  rewrite (Token_open _ ObjectStart) by auto. cbn [mbind result_bind]. change (Z.eqb 123 91) with false. rewrite Z.eqb_refl. cbv iota.
  assert (Hm' : Forall member_ok (sorted_members members)) by (by rewrite sorted_members_perm).
  assert (Hn' : NoDup (sorted_members members).*1) by (by rewrite sorted_members_perm). clear Hn Hm. rewrite <-app_assoc.
  assert (Hloop : exists st, decode_members fuel (MkDecoder (separated (map write_member (sorted_members members)) ++ [125%Z] ++ rest) ObjectStart (s :: stack)) [] =
    Ok (map norm_member (sorted_members members), MkDecoder (125%Z :: rest) st (s :: stack)) /\ (st = ObjectStart \/ st = ObjectComma)).
  { destruct fuel as [|fuel]; [simpl in Hf; lia|]. destruct (sorted_members members) as [|m members']; [exists ObjectStart; auto|].
    exists ObjectComma. split; [|by right]. apply Forall_cons in Hm' as [Hm Hms]. cbn [map] in *. rewrite separated_cons in *. rewrite length_app in Hf.
    cbn [length] in Hf. rewrite <-app_assoc. etrans; [apply (reads_member m fuel _ ObjectStart); [done|auto|apply follows_commas; auto|apply not_elem_of_nil|lia]|].
    cbn [app]. rewrite members_after_comma; [done|done|done|lia]. }
  destruct Hloop as (st&Hloop&Hst). rewrite Hloop. cbn [mbind result_bind]. rewrite closing_spec by auto. done.
Qed.

Lemma reads_scalar v b l t : writeCanonical v = b :: l -> starts_value b -> b ≠ 91%Z -> b ≠ 123%Z ->
  (forall rest, follows rest -> lex_scalar (writeCanonical v ++ rest) = Ok (t, rest)) ->
  match t with
  | TokNull => norm v = VNull
  | TokBool x => norm v = VBoolean x
  | TokString text => norm v = VString text
  | TokNumber literal => exists n, normalizeNumber literal = Ok n /\ norm v = VNumber n
  | TokDelim _ => False
  end -> reads v.
Proof.
  intros Hw Hb H91 H123 Hlex Ht fuel rest s stack Hs Hr Hf. destruct fuel as [|fuel]; [lia|]. specialize (Hlex rest Hr). rewrite Hw in *. cbn [app decode] in *.
  rewrite (Token_scalar b _ s stack t rest) by (try done; by destruct s). cbn [mbind result_bind].
  destruct t; try done; [by rewrite Ht..| |by rewrite Ht]. destruct Ht as (n&Hn&->). by rewrite Hn.
Qed.

(** A well-formed value is read from its canonical encoding, up to the order of
    members. *)
Lemma wf_reads v : wf_value v -> reads v.
Proof.
  induction v as [|b|n|t|items IH|members IH] using value_nested_ind; intros Hw.
  - by apply (reads_scalar _ 110 [117; 108; 108]%Z TokNull).
  - destruct b; [by apply (reads_scalar _ 116 [114; 117; 101]%Z (TokBool true))|by apply (reads_scalar _ 102 [97; 108; 115; 101]%Z (TokBool false))].
  - inversion Hw as [| |n' Hn| | |]; subst. destruct (write_starts _ Hw) as (b&l&Hb&Hs). destruct (write_number_starts n Hn) as (b'&l'&Hb'&Hs'%number_start_range).
    simpl in Hb. rewrite Hb in Hb'. injection Hb' as <- <-.
    apply (reads_scalar _ b l (TokNumber (write_number n))); [done|done|lia|lia|intros rest; by apply lex_scalar_number|]. exists n. split; [by apply normalize_write|done].
  - inversion Hw as [| | |t' Ht| |]; subst. destruct (quote_starts t) as [l Hl]. apply (reads_scalar _ 34%Z l (TokString t)); [done|done|done|done| |done].
    intros rest _. by apply lex_scalar_quote.
  - inversion Hw as [| | | |items' Hi|]; subst. apply reads_array; [done|]. rewrite Forall_forall in *. auto.
  - inversion Hw as [| | | | |members' Hn Hm]; subst. apply reads_object; [done|]. rewrite Forall_forall in *. intros m Hin.
    destruct (Hm m Hin) as [Hu Hwm]. split_and!; [done|done|by apply (IH m)].
Qed.

(** * The parser is sound

    On any input the parser returns, without running out of fuel, an error or a
    well-formed value; equality compares normal forms; and the canonical
    encoding parses to the normal form. *)

(** Bytes to read, and [TopValue] at the bottom of the stack. *)
Record good (d : decoder) : Prop := {
  go_bytes : Forall is_byte (de_input d);
  go_bottom : last (de_state d :: de_stack d) = Some TopValue;
}.
Definition size_of (d : decoder) : nat := length (de_input d).

Definition wf_token (t : token) : Prop :=
  match t with
  | TokNumber literal => exists L, wf_literal L /\ literal = show L
  | TokString text => utf8 (byte_values text)
  | _ => True
  end.

(** The outcome of reading [d]: an error, or something with [P] and less input. *)
Definition reading {A} (P : A -> Prop) (d : decoder) (r : result (A * decoder)) : Prop :=
  match r with
  | Ok (a, d') => P a /\ good d' /\ size_of d' < size_of d
  | Err _ => True
  | Panic _ => False
  end.

Lemma Forall_skip_space l : Forall is_byte l -> Forall is_byte (skip_space l) /\ length (skip_space l) <= length l.
Proof.
  induction 1 as [|b l Hb Hl [IH1 IH2]]; simpl; [by split|]. destruct (is_space b); simpl; [split; [done|lia]|]. split; [by constructor|done].
Qed.

Lemma suffix_bytes used rest : Forall is_byte (used ++ rest) -> Forall is_byte rest.
Proof. by intros [_ H]%Forall_app. Qed.

Lemma drop_bytes_spec p l rest : drop_bytes p l = Some rest -> l = p ++ rest.
Proof.
  revert l; induction p as [|a p IH]; intros l H; simpl in H; [by injection H as ->|]. destruct l as [|b l]; [done|].
  destruct (Z.eqb_spec a b) as [->|]; [|done]. by rewrite (IH l H).
Qed.

Lemma lex_scalar_sound l t rest : Forall is_byte l -> lex_scalar l = Ok (t, rest) ->
  wf_token t /\ Forall is_byte rest /\ length rest < length l.
Proof.
  intros Hl H. destruct l as [|b l]; [done|]. cbn [lex_scalar] in H. apply Forall_cons in Hl as [Hb Hl].
  assert (Hword : forall t' p, wf_token t' -> lex_word t' p l = Ok (t, rest) -> wf_token t /\ Forall is_byte rest /\ length rest < S (length l)).
  { intros t' p Ht'. unfold lex_word. destruct (drop_bytes p l) as [r|] eqn:E; [|done]. intros [= <- <-]. apply drop_bytes_spec in E as ->.
    split; [done|]. split; [by eapply suffix_bytes|]. rewrite length_app. lia. }
  destruct (Z.eqb b 110); [by apply (Hword TokNull [117; 108; 108]%Z)|]. destruct (Z.eqb b 116); [by apply (Hword (TokBool true) [114; 117; 101]%Z)|].
  destruct (Z.eqb b 102); [by apply (Hword (TokBool false) [97; 108; 115; 101]%Z)|]. destruct (Z.eqb b 34).
  - destruct (read_string _ l) as [[text r]|] eqn:E; [|done]. injection H as <- <-. apply read_string_spec in E as [Ht (used&->&_)]; [|done].
    split; [simpl; by rewrite values_of_bytes by by apply utf8_bytes|]. split; [by eapply suffix_bytes|]. simpl. rewrite length_app. lia.
  - destruct (lex_number (b :: l)) as [[text r]|] eqn:E; [|done]. injection H as <- <-. apply lex_number_spec in E as [Heq (L&HL&->)].
    split; [simpl; eauto|]. assert (Hall : Forall is_byte (b :: l)) by by constructor. rewrite Heq in Hall |- *. split; [by eapply suffix_bytes|].
    rewrite length_app. enough (show L ≠ []) by (destruct (show L); [done|simpl; lia]). destruct HL as [[_ Hne] _ _]. unfold show.
    destruct (li_negative L); [done|]. by destruct (li_integer L).
Qed.

Lemma last_value_end s stack : last (s :: stack) = Some TopValue -> last (value_end s :: stack) = Some TopValue.
Proof. destruct stack; [|done]. intros [= ->]. done. Qed.
Lemma last_change s s' stack : last (s :: stack) = Some TopValue -> s ≠ TopValue -> last (s' :: stack) = Some TopValue.
Proof. destruct stack; [|done]. by intros [= ->]. Qed.

Lemma open_reading d c inside rest : good d -> Forall is_byte rest -> length rest < size_of d -> reading wf_token d (open_delim d c inside rest).
Proof.
  intros [_ Hbot] Hr Hlt. unfold open_delim. destruct (value_allowed _); [|done]. simpl. split; [done|]. split; [|done]. by split.
Qed.
Lemma close_reading d c (allowed : bool) rest : good d -> Forall is_byte rest -> length rest < size_of d -> (allowed = true -> de_state d ≠ TopValue) ->
  reading wf_token d (close_delim d c allowed rest).
Proof.
  intros [_ Hbot] Hr Hlt Ha. unfold close_delim. destruct allowed; [|done]. specialize (Ha eq_refl). simpl.
  destruct (de_stack d) as [|outer stack] eqn:E; [simpl in Hbot; by injection Hbot as Hbot|]. split; [done|]. split; [|done].
  split; [done|]. simpl de_state. simpl de_stack. apply last_value_end. exact Hbot.
Qed.
Lemma scalar_reading d s' l : good d -> Forall is_byte l -> length l <= size_of d -> last (s' :: de_stack d) = Some TopValue ->
  reading wf_token d ('(t, rest) ← lex_scalar l; Ok (t, MkDecoder rest s' (de_stack d))).
Proof.
  intros Hd Hl Hlen Hbot. destruct (lex_scalar l) as [[t rest]|e|m] eqn:E; [|done|].
  - apply lex_scalar_sound in E as (Ht&Hr&Hlt); [|done]. simpl. split; [done|]. split; [by split|]. unfold size_of in *. simpl. lia.
  - exfalso. destruct l as [|b l]; [done|]. cbn [lex_scalar] in E. unfold lex_word in E.
    repeat match type of E with context [match ?x with _ => _ end] => destruct x; try done end.
Qed.

(** Fuel for the comma or the colon before a token. *)
Definition skips (s : token_state) : nat :=
  match s with ObjectColon | ArrayComma | ObjectComma => 1 | _ => 0 end.

Lemma Token_reading fuel d : good d -> skips (de_state d) < fuel -> reading wf_token d (Token fuel d).
Proof.
  revert d; induction fuel as [|fuel IH]; intros d Hd Hf; [lia|]. cbn [Token].
  destruct (Forall_skip_space (de_input d) (go_bytes d Hd)) as [Hs Hlen]. destruct (skip_space (de_input d)) as [|c rest]; [done|].
  apply Forall_cons in Hs as [Hc Hrest]. pose proof (go_bottom d Hd) as Hbot. assert (Hlt : length rest < size_of d) by (unfold size_of; simpl in Hlen; lia).
  assert (Hgoto : forall s', de_state d ≠ TopValue -> skips s' = 0 -> skips (de_state d) = 1 -> reading wf_token d (Token fuel (MkDecoder rest s' (de_stack d)))).
  { intros s' Hne H0 H1. assert (Hr : reading wf_token (MkDecoder rest s' (de_stack d)) (Token fuel (MkDecoder rest s' (de_stack d)))).
    { apply IH; [split; [done|by apply (last_change (de_state d))]|simpl; lia]. }
    destruct (Token fuel _) as [[t d']| |]; [|done..]. destruct Hr as (H2&H3&H4). split_and!; [done|done|]. unfold size_of in *. simpl in *. lia. }
  destruct (Z.eqb c 91); [by apply open_reading|].
  destruct (Z.eqb c 93); [apply close_reading; [done..|]; intros H Heq; rewrite Heq in H; by vm_compute in H|].
  destruct (Z.eqb c 123); [by apply open_reading|].
  destruct (Z.eqb c 125); [apply close_reading; [done..|]; intros H Heq; rewrite Heq in H; by vm_compute in H|].
  destruct (Z.eqb c 58). { destruct (decide (de_state d = ObjectColon)) as [E|]; [|done]. apply Hgoto; by rewrite ?E. }
  destruct (Z.eqb c 44). { destruct (de_state d) eqn:E; try done; apply Hgoto; by rewrite ?E. }
  destruct (Z.eqb c 34 && _) eqn:Ekey.
  - apply scalar_reading; [done|by constructor|simpl; lia|]. apply (last_change (de_state d)); [done|]. intros Heq. rewrite Heq in Ekey.
    by rewrite andb_false_r in Ekey.
  - destruct (value_allowed (de_state d)); [|done]. cbn [negb reject_if mbind result_bind].
    apply scalar_reading; [done|by constructor|simpl; lia|by apply last_value_end].
Qed.

Lemma next_token_reading d : good d -> reading wf_token d (next_token d).
Proof. intros Hd. apply Token_reading; [done|]. destruct (de_state d); simpl; lia. Qed.

Lemma closing_reading d c message : good d -> match closing d c message with Ok d' => good d' /\ size_of d' < size_of d | Err _ => True | Panic _ => False end.
Proof.
  intros Hd. unfold closing. pose proof (next_token_reading d Hd) as H. destruct (next_token d) as [[t d']| |]; [|done..]. destruct H as (_&H1&H2).
  simpl. destruct t; try done. by destruct (Z.eqb _ _).
Qed.

(** The loops may stop at once. *)
Definition loop_reading {A} (P : A -> Prop) (d : decoder) (r : result (A * decoder)) : Prop :=
  match r with
  | Ok (a, d') => P a /\ good d' /\ size_of d' <= size_of d
  | Err _ => True
  | Panic _ => False
  end.

Definition wf_members (members : list (string * value)) : Prop :=
  NoDup members.*1 /\ Forall (fun m => utf8 (byte_values m.1) /\ wf_value m.2) members.

Lemma decode_reading fuel :
  (forall d, good d -> 2 * size_of d < fuel -> reading wf_value d (decode fuel d)) /\
  (forall d, good d -> 2 * size_of d + 1 < fuel -> loop_reading (Forall wf_value) d (decode_items fuel d)) /\
  (forall d members, good d -> 2 * size_of d + 1 < fuel -> wf_members members -> loop_reading wf_members d (decode_members fuel d members)).
Proof.
  induction fuel as [|fuel (IHv&IHi&IHm)]; [split_and!; intros; lia|]. split_and!.
  - intros d Hd Hf. cbn [decode]. pose proof (next_token_reading d Hd) as Ht. destruct (next_token d) as [[t d1]| |]; [|done..].
    destruct Ht as (Ht&Hd1&Hlt). cbn [mbind result_bind]. destruct t as [|b|literal|text|c]; [split_and!; (done || constructor)..| | |].
    + destruct Ht as (L&HL&->). rewrite normalize_literal by done. split_and!; [|done|done]. constructor. apply normal_canonical.
      unfold mantissa, fraction_digits. apply digits_app. split; [apply (wl_integer _ HL)|]. destruct (li_fraction L) as [f|] eqn:E; [by apply (wl_fraction _ HL f)|constructor].
    + split_and!; [by constructor|done|done].
    + destruct (Z.eqb c 91).
      * pose proof (IHi d1 Hd1) as Hi. destruct (decode_items fuel d1) as [[items d2]| |]; [|done|apply Hi; lia].
        destruct Hi as (Hi&Hd2&Hle); [lia|]. cbn [mbind result_bind]. pose proof (closing_reading d2 93 "jsonvalue: invalid array closing delimiter" Hd2) as Hcl.
        destruct (closing _ _ _); [|done..]. destruct Hcl. split_and!; [by constructor|done|lia].
      * destruct (Z.eqb c 123); [|done]. pose proof (IHm d1 [] Hd1) as Hm. destruct (decode_members fuel d1 []) as [[members d2]| |]; [|done|apply Hm; [lia|by split; constructor]].
        destruct Hm as ([Hn Hm]&Hd2&Hle); [lia|by split; constructor|]. cbn [mbind result_bind].
        pose proof (closing_reading d2 125 "jsonvalue: invalid object closing delimiter" Hd2) as Hcl.
        destruct (closing _ _ _); [|done..]. destruct Hcl. split_and!; [by constructor|done|lia].
  - intros d Hd Hf. cbn [decode_items]. destruct (More d); [|split_and!; [constructor|done|lia]].
    pose proof (IHv d Hd) as Hv. destruct (decode fuel d) as [[v d1]| |]; [|done|apply Hv; lia]. destruct Hv as (Hv&Hd1&Hlt); [lia|]. cbn [mbind result_bind].
    pose proof (IHi d1 Hd1) as Hi. destruct (decode_items fuel d1) as [[items d2]| |]; [|done|apply Hi; lia]. destruct Hi as (Hi&Hd2&Hle); [lia|].
    split_and!; [by constructor|done|lia].
  - intros d members Hd Hf Hm. cbn [decode_members]. destruct (More d); [|split_and!; [done|done|lia]].
    pose proof (next_token_reading d Hd) as Ht. destruct (next_token d) as [[t d1]| |]; [|done..]. destruct Ht as (Ht&Hd1&Hlt). cbn [mbind result_bind].
    destruct t as [| | |name|]; try done. destruct (bool_decide _) eqn:Edup; [done|]. cbn [reject_if mbind result_bind]. apply bool_decide_eq_false in Edup.
    pose proof (IHv d1 Hd1) as Hv. destruct (decode fuel d1) as [[v d2]| |]; [|done|apply Hv; lia]. destruct Hv as (Hv&Hd2&Hlt2); [lia|]. cbn [mbind result_bind].
    destruct Hm as [Hn Hm]. assert (Hm' : wf_members (members ++ [(name, v)])).
    { split; [|apply Forall_app; split; [done|by apply Forall_singleton]]. rewrite fmap_app. apply NoDup_app. split; [done|]. split; [|apply NoDup_singleton].
      intros x Hx ->%list_elem_of_singleton. done. }
    pose proof (IHm d2 (members ++ [(name, v)]) Hd2) as Hrec. destruct (decode_members fuel d2 _) as [[ms d3]| |]; [|done|apply Hrec; [lia|done]].
    destruct Hrec as (Hms&Hd3&Hle); [lia|done|]. split_and!; [done|done|lia].
Qed.

Lemma parse_sound raw : match parse raw with Ok v => wf_value v | Err _ => True | Panic _ => False end.
Proof.
  unfold parse. set (d := MkDecoder (byte_values raw) TopValue []). assert (Hd : good d) by (split; [apply byte_values_range|done]).
  destruct (decode_reading (2 * length (byte_values raw) + 2)) as (Hv&_). specialize (Hv d Hd). 
  destruct (decode _ d) as [[v d1]| |]; [|done|apply Hv; unfold size_of; simpl; lia]. destruct Hv as (Hv&Hd1&_); [unfold size_of; simpl; lia|].
  cbn [mbind result_bind]. pose proof (next_token_reading d1 Hd1) as Ht. destruct (next_token d1) as [| |]; [done| |done].
  by destruct (errors_Is _ _).
Qed.

(** ** Equality *)
Lemma equal_array a b : equal (VArray a) (VArray b) = true <-> Forall2 (fun x y => equal x y = true) a b.
Proof.
  revert b; induction a as [|x a IH]; intros [|y b].
  - split; intros; [constructor|reflexivity].
  - split; [done|by inversion 1].
  - split; [done|by inversion 1].
  - change (equal (VArray (x :: a)) (VArray (y :: b))) with (equal x y && equal (VArray a) (VArray b)).
    rewrite andb_true_iff, IH, Forall2_cons. done.
Qed.

Lemma lookup_member_elem {A} name (l : list (string * A)) y : lookup_member name l = Some y -> (name, y) ∈ l.
Proof.
  unfold lookup_member. induction l as [|[n x] l IH]; [done|]. simpl. destruct (String.eqb_spec n name) as [->|]; simpl; [intros [= ->]; left|right; auto].
Qed.
Lemma elem_lookup_member {A} name (l : list (string * A)) y : NoDup l.*1 -> (name, y) ∈ l -> lookup_member name l = Some y.
Proof.
  unfold lookup_member. induction l as [|[n x] l IH]; intros Hn H; [by apply not_elem_of_nil in H|]. simpl. cbn in Hn. apply NoDup_cons in Hn as [Hx Hn].
  apply elem_of_cons in H as [[= -> ->]|H]; [by rewrite String.eqb_refl|]. destruct (String.eqb_spec n name) as [->|]; [|by apply IH].
  destruct Hx. by apply (list_elem_of_fmap_2 fst) in H.
Qed.

Lemma equal_object a b : equal (VObject a) (VObject b) = true <->
  length a = length b /\ Forall (fun m => exists y, lookup_member m.1 b = Some y /\ equal m.2 y = true) a.
Proof.
  cbn [equal]. rewrite andb_true_iff, Nat.eqb_eq. apply and_iff_compat_l. induction a as [|[n x] a IH]; [by split; [constructor|]|].
  rewrite andb_true_iff, IH, Forall_cons. apply and_iff_compat_r. simpl. destruct (lookup_member n b) as [y|]; [|naive_solver].
  split; [by eauto|]. by intros (y'&[= ->]&H).
Qed.

(** Permutations of members with distinct names. *)
Lemma sorted_same {A} (a b : list (string * A)) : NoDup a.*1 -> sorted_members a = sorted_members b <-> a ≡ₚ b.
Proof.
  intros Hn. split.
  - intros H. by rewrite <-(sorted_members_perm a), H, sorted_members_perm.
  - intros H. apply by_name_unique; [by rewrite sorted_members_perm|by rewrite !sorted_members_perm|apply sorted_members_sorted..].
Qed.

Lemma equal_members a b : NoDup a.*1 -> NoDup b.*1 ->
  (forall m y, m ∈ a -> (m.1, y) ∈ b -> equal m.2 y = true <-> norm m.2 = norm y) ->
  equal (VObject a) (VObject b) = true <-> map norm_member a ≡ₚ map norm_member b.
Proof.
  intros Ha Hb Heq. rewrite equal_object. split.
  - intros [Hlen Hall]. apply submseteq_length_Permutation; [|by rewrite !length_map; lia]. apply NoDup_submseteq.
    { apply (NoDup_fmap_1 fst). by rewrite fst_norm_member. }
    intros m' Hm'. apply (list_elem_of_fmap norm_member) in Hm' as (m&->&Hm). rewrite Forall_forall in Hall. destruct (Hall m Hm) as (y&Hy%lookup_member_elem&He).
    apply (list_elem_of_fmap norm_member). exists (m.1, y). split; [|done]. unfold norm_member. simpl. f_equal. by apply Heq.
  - intros Hp. split; [apply Permutation_length in Hp; by rewrite !length_map in Hp|]. apply Forall_forall. intros m Hm.
    assert (Hin : norm_member m ∈ map norm_member b) by (rewrite <-Hp; by apply (list_elem_of_fmap_2 norm_member)).
    apply (list_elem_of_fmap norm_member) in Hin as ([n y]&Hnm&Hy). unfold norm_member in Hnm. injection Hnm as Hn Hv. simpl in *. subst n. exists y. split.
    + by apply elem_lookup_member.
    + by apply Heq.
Qed.

Lemma equal_norm v : forall w, wf_value v -> wf_value w -> equal v w = true <-> norm v = norm w.
Proof.
  induction v as [|b|n|t|items IH|members IH] using value_nested_ind; intros w Hv Hw; destruct w; try (split; done); simpl.
  - rewrite Bool.eqb_true_iff. split; [by intros ->|by intros [= ->]].
  - rewrite bool_decide_eq_true. split; [by intros ->|by intros [= ->]].
  - rewrite String.eqb_eq. split; [by intros ->|by intros [= ->]].
  - change (equal (VArray items) (VArray items0) = true <-> VArray (map norm items) = VArray (map norm items0)). rewrite equal_array.
    inversion Hv as [| | | |? Hi|]; inversion Hw as [| | | |? Hi0|]; subst.
    transitivity (Forall2 (fun x y => norm x = norm y) items items0).
    + clear Hv Hw. split; intros H; (induction H as [|x y l k Hxy H IHl]; [constructor|]);
        apply Forall_cons in IH as [IHx IH], Hi as [Hx Hi], Hi0 as [Hy Hi0]; (constructor; [by apply (IHx y Hx Hy)|by apply IHl]).
    + split; [intros H; f_equal; clear -H; induction H; [done|simpl; by f_equal]|]. intros [= H]. clear -H. revert items0 H.
      induction items as [|x l IHl]; intros [|y k] H; try done. injection H as H1 H2. constructor; auto.
  - change (equal (VObject members) (VObject members0) = true <->
      VObject (sorted_members (map norm_member members)) = VObject (sorted_members (map norm_member members0))).
    inversion Hv as [| | | | |? Hn Hm]; inversion Hw as [| | | | |? Hn0 Hm0]; subst. rewrite Forall_forall in *.
    rewrite equal_members; [|done|done|].
    + rewrite <-sorted_same by by rewrite fst_norm_member. split; [by intros ->|by intros [= H]].
    + intros m y Hin Hin0. apply (IH m Hin); [by apply Hm|by apply (Hm0 _ Hin0)].
Qed.

(** ** Writing *)
Lemma norm_wf v : wf_value v -> wf_value (norm v).
Proof.
  induction v as [|b|n|t|items IH|members IH] using value_nested_ind; intros Hw; try done; simpl; inversion Hw as [| | | |? Hi|? Hn Hm]; subst; constructor.
  - rewrite Forall_forall in *. intros x Hx. apply (list_elem_of_fmap norm) in Hx as (y&->&Hy). auto.
  - rewrite sorted_members_perm. by rewrite fst_norm_member.
  - rewrite sorted_members_perm. rewrite Forall_forall in *. intros m' Hm'. apply (list_elem_of_fmap norm_member) in Hm' as (m&->&Hin).
    destruct (Hm m Hin). split; [done|]. by apply (IH m).
Qed.

Lemma sorted_members_idemp {A} (l : list (string * A)) : NoDup l.*1 -> sorted_members (sorted_members l) = sorted_members l.
Proof. intros Hn. apply sorted_same; [by rewrite sorted_members_perm|]. apply sorted_members_perm. Qed.

Lemma write_object members : NoDup members.*1 ->
  writeCanonical (VObject members) = 123%Z :: separated (map write_member (sorted_members members)) ++ [125%Z].
Proof. intros Hn. cbn [writeCanonical]. by rewrite written_members. Qed.

Lemma write_norm v : wf_value v -> writeCanonical (norm v) = writeCanonical v.
Proof.
  induction v as [|b|n|t|items IH|members IH] using value_nested_ind; intros Hw; try done; inversion Hw as [| | | |? Hi|? Hn Hm]; subst; rewrite Forall_forall in *.
  - cbn [norm writeCanonical]. do 3 f_equal. rewrite map_map. apply map_ext_in. intros x Hx. apply list_elem_of_In in Hx. auto.
  - assert (Hn' : NoDup (map norm_member members).*1) by (by rewrite fst_norm_member).
    change (norm (VObject members)) with (VObject (sorted_members (map norm_member members))).
    rewrite !write_object by (by rewrite ?sorted_members_perm). rewrite sorted_members_idemp by done. do 3 f_equal.
    change (map norm_member members) with (map (fun m : string * value => (m.1, norm m.2)) members).
    rewrite (sorted_members_map norm), map_map by done. apply map_ext_in. intros m Hin. apply list_elem_of_In in Hin. rewrite sorted_members_perm in Hin.
    unfold write_member. simpl. destruct (Hm m Hin). by rewrite (IH m Hin).
Qed.

Lemma quote_rune_bytes r pre : (0 <= r < 1114112)%Z -> Forall is_byte pre -> Forall is_byte (quote_rune r pre).
Proof.
  intros Hr Hp. assert (Hhex : forall d, (0 <= d < 16)%Z -> is_byte (hex_digit d)) by (intros d Hd; unfold hex_digit, is_byte; destruct (Z.ltb_spec d 10); lia).
  assert (Hu : Forall is_byte (escape_u r)) by (unfold escape_u; repeat (apply Forall_cons; split; [first [apply Hhex, Z.mod_pos_bound; lia|unfold is_byte; lia]|]); constructor).
  unfold quote_rune. destruct (Z.eqb_spec r 34), (Z.eqb_spec r 92); simpl; subst; try (repeat (apply Forall_cons; split; [unfold is_byte; lia|]); constructor).
  repeat match goal with |- context [if ?c then _ else _] => destruct c end; try done; repeat (apply Forall_cons; split; [unfold is_byte; lia|]); constructor.
Qed.

Lemma quote_utf8_bytes t : utf8 (byte_values t) -> Forall is_byte (quote t).
Proof.
  intros Ht. unfold quote. apply Forall_cons. split; [unfold is_byte; lia|]. apply Forall_app. split; [|by apply Forall_singleton; unfold is_byte; lia].
  generalize (le_n (length (byte_values t))). generalize (length (byte_values t)) at 2 3 as n. induction Ht as [|pre r l Hr Hl IH]; intros n Hn; [by destruct n; constructor|].
  assert (Hpre : length pre ≠ 0) by (destruct pre; [by apply rune_at_nonempty in Hr|done]). rewrite length_app in Hn. destruct n as [|n]; [lia|].
  rewrite (quote_bytes_step _ _ r) by (done || (rewrite length_app; lia)). apply Forall_app. split; [|apply IH; lia].
  apply quote_rune_bytes; [|by eapply rune_at_bytes]. destruct (rune_at_encode _ _ Hr) as [_ Hs]. unfold scalar in Hs. lia.
Qed.

Lemma digits_bytes l : digits l -> Forall is_byte l.
Proof. intros H. apply (Forall_impl _ _ _ H). intros b Hb%is_digit_spec. unfold is_byte. lia. Qed.
Lemma write_number_bytes n : canonical n -> Forall is_byte (write_number n).
Proof.
  intros Hn. destruct (canonical_digits n Hn) as [Hd _]. unfold write_number. apply Forall_app. split; [destruct (nu_negative n); repeat constructor; unfold is_byte; lia|].
  apply Forall_app. split; [by apply digits_bytes|]. destruct (Z.eqb _ 0); [constructor|]. apply Forall_cons. split; [unfold is_byte; lia|]. rewrite big_String_eq.
  destruct (Z.ltb_spec (nu_exponent n) 0).
  - apply Forall_cons. split; [unfold is_byte; lia|]. apply digits_bytes, big_digits_spec. lia.
  - apply digits_bytes, big_digits_spec. lia.
Qed.

Lemma separated_bytes parts : Forall (Forall is_byte) parts -> Forall is_byte (separated parts).
Proof.
  induction 1 as [|p parts Hp Hps IH]; [constructor|]. destruct parts as [|q parts]; [done|].
  change (separated (p :: q :: parts)) with (p ++ 44%Z :: separated (q :: parts)). apply Forall_app. split; [done|]. constructor; [unfold is_byte; lia|done].
Qed.

Lemma concrete_bytes l : forallb (within 0 255) l = true -> Forall is_byte l.
Proof.
  induction l as [|b l IH]; [by constructor|]. cbn [forallb]. intros [Hb%within_spec Hl]%andb_true_iff. constructor; [unfold is_byte; lia|by apply IH].
Qed.

Lemma write_bytes v : wf_value v -> Forall is_byte (writeCanonical v).
Proof.
  assert (Hwrap : forall a l b, is_byte a -> Forall is_byte l -> is_byte b -> Forall is_byte (a :: l ++ [b])).
  { intros a l b Ha Hl Hb. constructor; [done|]. apply Forall_app. split; [done|by apply Forall_singleton]. }
  induction v as [|b|n|t|items IH|members IH] using value_nested_ind; intros Hw; inversion Hw as [| |? Hn|? Ht|? Hi|? Hn Hm]; subst.
  - by apply concrete_bytes.
  - by destruct b; apply concrete_bytes.
  - by apply write_number_bytes.
  - by apply quote_utf8_bytes.
  - cbn [writeCanonical]. apply Hwrap; [unfold is_byte; lia| |unfold is_byte; lia]. apply separated_bytes. apply Forall_forall. intros p Hp.
    apply (list_elem_of_fmap writeCanonical) in Hp as (x&->&Hx). rewrite Forall_forall in IH, Hi. apply IH; auto.
  - cbn [writeCanonical]. rewrite written_members by done. apply Hwrap; [unfold is_byte; lia| |unfold is_byte; lia]. apply separated_bytes.
    rewrite Forall_forall in IH, Hm. apply Forall_forall. intros p Hp. apply (list_elem_of_fmap write_member) in Hp as (m&->&Hin). rewrite sorted_members_perm in Hin.
    destruct (Hm m Hin). unfold write_member. apply Forall_app. split; [by apply quote_utf8_bytes|]. constructor; [unfold is_byte; lia|]. by apply (IH m).
Qed.

(** The canonical encoding parses to the normal form. *)
Lemma parse_written v : wf_value v -> parse (of_bytes (writeCanonical v)) = Ok (norm v).
Proof.
  intros Hw. unfold parse. rewrite values_of_bytes by by apply write_bytes. rewrite <-(app_nil_r (writeCanonical v)) at 2.
  rewrite (wf_reads v Hw) by (done || lia). done.
Qed.

Lemma norm_equal v w : wf_value v -> wf_value w -> norm v = norm w <-> writeCanonical v = writeCanonical w.
Proof.
  intros Hv Hw. split; intros H.
  - by rewrite <-(write_norm v), H, write_norm.
  - pose proof (parse_written v Hv) as H1. rewrite H, parse_written in H1 by done. by injection H1.
Qed.

(** * What the JSON values promise *)

Lemma Canonical_parse raw : Canonical raw = (fun v => of_bytes (writeCanonical v)) <$> parse raw.
Proof. done. Qed.

(** Claim C28: canonical encodings round-trip.  Parsing and encoding never
    panic, whatever the bytes; when a canonical encoding is returned it is
    valid, equal to its source, and its own canonical encoding; and it is
    returned for exactly the valid inputs. *)
Theorem canonical_roundtrip raw :
  match Canonical raw with
  | Ok c => Valid raw = true /\ Valid c = true /\ Equal raw c = true /\ Canonical c = Ok c
  | Err _ => Valid raw = false
  | Panic _ => False
  end.
Proof.
  pose proof (parse_sound raw) as Hs. rewrite Canonical_parse. unfold Valid, Equal. destruct (parse raw) as [v|e|m] eqn:E; cbn [fmap result_fmap is_ok]; [|done|done].
  pose proof (parse_written v Hs) as Hp. rewrite Canonical_parse, Hp. cbn [fmap result_fmap is_ok].
  split_and!; [done|done| |by rewrite write_norm].
  apply equal_norm; [done|by apply norm_wf|]. apply norm_equal; [done|by apply norm_wf|]. symmetry. by apply write_norm.
Qed.

Lemma Equal_canonical_iff a b : Equal a b = true <-> exists c, Canonical a = Ok c /\ Canonical b = Ok c.
Proof.
  rewrite !Canonical_parse. unfold Equal. pose proof (parse_sound a) as Ha. pose proof (parse_sound b) as Hb.
  destruct (parse a) as [v|e|m]; [|split; [done|by intros (c&[=]&_)]..]. destruct (parse b) as [w|e|m]; [|split; [done|by intros (c&_&[=])]..].
  rewrite equal_norm, norm_equal by done. cbn [fmap result_fmap]. split; [intros ->; by eexists|]. intros (c&Hc&Hd). injection Hc as <-. injection Hd as Hd.
  symmetry. apply of_bytes_inj; [by apply write_bytes..|done].
Qed.

(** Two texts are equal JSON values exactly when they have the same
    canonical encoding, so that a digest of it identifies the value; equality is
    symmetric and transitive, and reflexive on valid texts. *)
Theorem Equal_iff_canonical :
  (forall a b, Equal a b = true <-> exists c, Canonical a = Ok c /\ Canonical b = Ok c) /\
  (forall raw, Valid raw = true <-> Equal raw raw = true) /\
  (forall a b, Equal a b = Equal b a) /\
  (forall a b c, Equal a b = true -> Equal b c = true -> Equal a c = true).
Proof.
  split; [apply Equal_canonical_iff|]. split_and!.
  - intros raw. rewrite Equal_canonical_iff, Canonical_parse. unfold Valid. destruct (parse raw); simpl; [|by split; [|intros (?&[=]&_)]..].
    split; [by eexists|done].
  - intros a b. apply eq_true_iff_eq. rewrite !Equal_canonical_iff. naive_solver.
  - intros a b c. rewrite !Equal_canonical_iff. intros (x&H1&H2) (y&H3&H4). rewrite H2 in H3. injection H3 as <-. by exists x.
Qed.

(** ** Number literals *)

(** A literal of the JSON grammar: no leading zero. *)
Definition json_literal (L : literal) : Prop :=
  wf_literal L /\ (li_integer L = [48%Z] \/ exists b l, li_integer L = b :: l /\ b ≠ 48%Z).

Lemma show_exponent_head e : match show_exponent e with [] => True | b :: _ => exists letter sign d, e = Some (letter, sign, d) /\ b = letter end.
Proof. destruct e as [[[letter sign] d]|]; [|done]. simpl. by eexists _, _, _. Qed.

Lemma letter_range b : is_exponent_letter b = true -> b = 101%Z \/ b = 69%Z.
Proof. unfold is_exponent_letter. destruct (Z.eqb_spec b 101), (Z.eqb_spec b 69); auto; done. Qed.

Lemma exponent_part_show e : (forall letter sign d, e = Some (letter, sign, d) ->
    is_exponent_letter letter = true /\ (sign = None \/ sign = Some 43%Z \/ sign = Some 45%Z) /\ digits d /\ d ≠ []) ->
  exponent_part (show_exponent e) = Some (show_exponent e, []).
Proof.
  intros H. destruct e as [[[letter sign] d]|]; [|done]. destruct (H _ _ _ eq_refl) as (Hl&Hs&Hd&Hne). unfold exponent_part, optional_part. cbn [show_exponent].
  unfold is_exponent_letter in Hl. rewrite Hl. pose proof (some_digits_app d [] Hd Hne I) as Hsome. rewrite app_nil_r in Hsome.
  destruct Hs as [->|[->| ->]].
  - change (option_list None ++ d) with d. destruct d as [|b d]; [done|]. pose proof Hd as Hd'. apply Forall_cons in Hd' as [Hb _]. apply is_digit_spec in Hb.
    rewrite !(proj2 (Z.eqb_neq b _)) by lia. cbn [orb]. by rewrite Hsome.
  - change (option_list (Some 43%Z) ++ d) with (43%Z :: d). cbn -[some_digits]. by rewrite Hsome.
  - change (option_list (Some 45%Z) ++ d) with (45%Z :: d). cbn -[some_digits]. by rewrite Hsome.
Qed.

Lemma lex_number_show L : json_literal L -> lex_number (show L) = Some (show L, []).
Proof.
  intros [[[Hi Hne] Hf He] Hshape]. unfold lex_number, show.
  assert (Hsign : strip 45 ((if li_negative L then [45%Z] else []) ++ li_integer L ++ show_fraction (li_fraction L) ++ show_exponent (li_exponent L)) =
    (li_negative L, li_integer L ++ show_fraction (li_fraction L) ++ show_exponent (li_exponent L))).
  { destruct (li_negative L); cbn [app]; [apply strip_same|]. destruct (li_integer L) as [|b l]; [done|]. apply Forall_cons in Hi as [Hb _].
    cbn [app]. unfold strip. destruct (Z.eqb_spec b 45) as [->|]; done. }
  assert (Hexp : match show_exponent (li_exponent L) with [] => True | b :: _ => is_digit b = false /\ b ≠ 46%Z end).
  { destruct (li_exponent L) as [[[letter sign] d]|] eqn:E; [|done]. simpl. destruct (He _ _ _ eq_refl) as (Hl&_). by destruct (letter_range _ Hl) as [->| ->]. }
  rewrite Hsign, integer_part_app; [|done|done|destruct (li_fraction L); [done|]; simpl; destruct (show_exponent _); [done|apply Hexp]].
  cbn [mbind option_bind].
  assert (Hfrac : fraction_part (show_fraction (li_fraction L) ++ show_exponent (li_exponent L)) =
    Some (show_fraction (li_fraction L), show_exponent (li_exponent L))).
  { unfold fraction_part, optional_part. destruct (li_fraction L) as [f|] eqn:E; cbn [show_fraction app].
    - destruct (Hf f eq_refl) as [Hfd Hfne]. rewrite some_digits_app; [done|done|done|]. destruct (show_exponent _); [done|apply Hexp].
    - destruct (show_exponent _) as [|b l]; [done|]. destruct Hexp as [_ Hb]. by rewrite (proj2 (Z.eqb_neq 46 b)). }
  rewrite Hfrac. cbn [mbind option_bind]. rewrite exponent_part_show by done. done.
Qed.

Lemma show_starts L : wf_literal L -> exists b l, show L = b :: l /\ number_start b.
Proof.
  intros [[Hi Hne] _ _]. unfold show. destruct (li_negative L); [by exists 45%Z; eexists; split; [|right]|].
  destruct (li_integer L) as [|b l]; [done|]. apply Forall_cons in Hi as [Hb _]. exists b. eexists. split; [done|by left].
Qed.

Lemma show_bytes L : wf_literal L -> Forall is_byte (show L).
Proof.
  intros [[Hi _] Hf He]. unfold show. repeat (apply Forall_app; split).
  - destruct (li_negative L); [by apply concrete_bytes|constructor].
  - by apply digits_bytes.
  - destruct (li_fraction L) as [f|] eqn:E; [|constructor]. simpl. constructor; [unfold is_byte; lia|]. apply digits_bytes. by apply (Hf f).
  - destruct (li_exponent L) as [[[letter sign] d]|] eqn:E; [|constructor]. destruct (He _ _ _ eq_refl) as (Hl&Hs&Hd&_). simpl.
    constructor; [unfold is_byte; destruct (letter_range _ Hl); lia|]. apply Forall_app. split; [|by apply digits_bytes].
    destruct Hs as [->|[->| ->]]; by apply concrete_bytes.
Qed.

Lemma parse_literal L : json_literal L -> parse (of_bytes (show L)) = Ok (VNumber (normal (li_negative L) (mantissa L) (scale L))).
Proof.
  intros HL. destruct HL as [Hw Hshape] eqn:Heq. clear Heq. unfold parse. rewrite values_of_bytes by by apply show_bytes.
  destruct (show_starts L Hw) as (b&l&Hb&Hs%number_start_range). pose proof (lex_number_show L HL) as Hl. pose proof (normalize_literal L Hw) as Hn.
  replace (2 * length (show L) + 2) with (S (2 * length (show L) + 1)) by lia. cbn [decode]. rewrite Hb in *.
  assert (Htok : next_token (MkDecoder (b :: l) TopValue []) = Ok (TokNumber (b :: l), MkDecoder [] TopValue [])).
  { apply Token_scalar; [|lia|lia|done|done|done|].
    - unfold starts_value, is_space. rewrite !(proj2 (Z.eqb_neq b _)) by lia. split_and!; [done|lia..].
    - cbn [lex_scalar]. rewrite !(proj2 (Z.eqb_neq b _)) by lia. by rewrite Hl. }
  rewrite Htok. cbn [mbind result_bind]. rewrite Hn. done.
Qed.

(** Two number literals are equal exactly when they stand for the
    same rational number, whatever their spelling: zeros, the place of the
    point and the exponent do not matter, and nothing is rounded. *)
Theorem Equal_numbers L L' :
  json_literal L -> json_literal L' ->
  Equal (of_bytes (show L)) (of_bytes (show L')) = true <->
  same_rational (signed (li_negative L) (mantissa L)) (scale L) (signed (li_negative L') (mantissa L')) (scale L').
Proof.
  intros H H'. unfold Equal. rewrite !parse_literal by done. simpl. rewrite bool_decide_eq_true. by apply normal_same; [apply H|apply H'].
Qed.

(** ** The interface *)

(** The operations of this package are those the other components rely on. *)
Program Definition jsonvalue_operations (json_Valid : string -> bool) : JsonOps := {|
  AgentTypes.json_Valid := json_Valid;
  jsonvalue_Valid := Valid;
  jsonvalue_Equal := Equal;
|}.
Next Obligation. intros _ raw H. apply Equal_canonical_iff. rewrite Canonical_parse. unfold Valid in H. destruct (parse raw); [by eexists|done..]. Qed.
Next Obligation. intros _ a b. rewrite !Equal_canonical_iff. naive_solver. Qed.
Next Obligation.
  intros _ a b c. rewrite !Equal_canonical_iff. intros (x&H1&H2) (y&H3&H4). rewrite H2 in H3. injection H3 as <-. by exists x.
Qed.

(** ** Examples *)

(** [-1.50e+3] and [-15E2]. *)
Definition literal1 : literal := MkLiteral true [49]%Z (Some [53; 48]%Z) (Some (101, Some 43, [51]))%Z.
Definition literal2 : literal := MkLiteral true [49; 53]%Z None (Some (69, None, [50]))%Z.

Lemma literal1_json : json_literal literal1.
Proof.
  split; [|right; by exists 49%Z, []]. split; simpl.
  - split; [by apply Forall_singleton|done].
  - intros f [= <-]. split; [by repeat constructor|done].
  - intros letter sign e [= <- <- <-]. split_and!; [done|by auto|by apply Forall_singleton|done].
Qed.
Lemma literal2_json : json_literal literal2.
Proof.
  split; [|right; by exists 49%Z, [53%Z]]. split; simpl.
  - split; [by repeat constructor|done].
  - done.
  - intros letter sign e [= <- <- <-]. split_and!; [done|by auto|by apply Forall_singleton|done].
Qed.

Example Equal_numbers_witness : Equal "-1.50e+3" "-15E2" = true.
Proof.
  change (Equal (of_bytes (show literal1)) (of_bytes (show literal2)) = true).
  apply (Equal_numbers literal1 literal2); [exact literal1_json|exact literal2_json|]. exists 0%Z. vm_compute. split_and!; done.
Defined.
