(* ===== verification/SessionManager.v ===== *)
(** * The Session manager

    Models [Manager] of [session/memory_manager.go]: it allocates identities
    and derives new aggregates (fork, summary) over a Session store; all
    durable state stays behind the store.  The calls of one manager are taken
    one after the other: the counter is the only state they share. *)

From stdpp Require Import pretty.
From S2P Require Import Prelude GoStrings AgentTypes ModelContracts SessionTypes ExtensionJournal.
From S2P Require Import SessionValidate SessionHistory SessionApply SessionCreate SessionStore.

(** ** The store, as the manager sees it

    The operations of the interface [SessionStore] the manager calls.  [E] is
    what a call takes from outside the program (its context, the clock, fresh
    random bytes), [S] the state of the store. *)
Class SessionStore (E S : Type) : Type := {
  store_Create : E -> S -> NewSession -> S * result Snapshot;
  store_Load : E -> S -> string -> S * result Snapshot;
  store_Recover : E -> S -> string -> S * result Snapshot;
}.

(** ** Requests *)
Record CreateRequest := MkCreateRequest { crq_AgentID : string; crq_WorkspaceID : string; crq_ModelConfig : option Config }.
Record ResumeRequest := MkResumeRequest { rrq_SessionID : string }.
Inductive ForkMode := ForkFullHistory | ForkHistoryPrefix | ForkModeOther (s : string).
#[export] Instance ForkMode_eq_dec : EqDecision ForkMode.
Proof. solve_decision. Defined.
Definition ForkMode_Valid (m : ForkMode) : bool := bool_decide (m = ForkFullHistory) || bool_decide (m = ForkHistoryPrefix).
Record ForkRequest := MkForkRequest {
  frq_SourceSessionID : string; frq_Mode : ForkMode; frq_CutoffSequence : Z;
  frq_AgentID : string; frq_WorkspaceID : string; frq_ModelConfig : option Config }.
Record SummaryRequest := MkSummaryRequest {
  srq_SourceSessionID : string; srq_AgentID : string; srq_WorkspaceID : string;
  srq_Messages : list MessageInput; srq_ModelConfig : option Config }.

(** ** Identities *)
Record Manager := MkManager { mg_defaultConfig : Config; mg_idPrefix : string; mg_sequence : Z }.
(** [fmt.Sprintf("%s-%s-%d", prefix, m.idPrefix, n)] *)
Definition identity (prefix idPrefix : string) (n : Z) : string := prefix +:+ "-" +:+ idPrefix +:+ "-" +:+ pretty (Z.to_N n).
(** [m.sequence.Add(1)] *)
Definition add1 (sequence : Z) : Z := u64 (sequence + 1).
Definition nextID (m : Manager) (prefix : string) : Manager * string :=
  let n := add1 (mg_sequence m) in
  (MkManager (mg_defaultConfig m) (mg_idPrefix m) n, identity prefix (mg_idPrefix m) n).

Definition chooseConfig (explicit : option Config) (fallback : Config) : result Config :=
  match explicit with
  | Some config => map_err (fun e => invalid "session.model_config" (error_text e)) (Config_Validate config) ;; Ok config
  | None => Ok fallback
  end.

Definition validateScope (agentID workspaceID : string) : result unit :=
  reject_if (negb (ID_Valid agentID) || negb (ID_Valid workspaceID)) (ErrNew "agent and workspace IDs are required").

(** [NewManager]; [prefix] is what [randomIDPrefix] read. *)
Definition NewManager (hasStore : bool) (defaultConfig : Config) (prefix : result string) : result Manager :=
  reject_if (negb hasStore) (invalid "session.manager" (plain "store is required")) ;;
  map_err (fun e => invalid "session.manager" (("invalid default model config", []) :: error_text e)) (Config_Validate defaultConfig) ;;
  prefix ← map_err (fun e => NewError ErrorInternal "session.manager" (plain "cannot initialize ID allocator") (Some e)) prefix;
  Ok (MkManager defaultConfig prefix 0).

(** ** Renaming

    The five maps [messageIDs], [callIDs], [runIDs], [stepIDs] and
    [attemptIDs] of [rewriteForFork] are one map over kind and old identity;
    the constructors carry the prefix given to [nextID]. *)
Inductive id_kind := KMessage | KCall | KRun | KStep | KAttempt.
#[export] Instance id_kind_eq_dec : EqDecision id_kind.
Proof. solve_decision. Defined.
Definition kind_prefix (k : id_kind) : string :=
  match k with KMessage => "message" | KCall => "call" | KRun => "run" | KStep => "step" | KAttempt => "attempt" end.
Definition kind_of_prefix (s : string) : id_kind :=
  if String.eqb s "message" then KMessage else if String.eqb s "call" then KCall
  else if String.eqb s "run" then KRun else if String.eqb s "step" then KStep else KAttempt.
#[export] Instance id_kind_countable : Countable id_kind.
Proof. refine (inj_countable' kind_prefix kind_of_prefix _). by intros []. Defined.

Record renamer := MkRenamer { rn_manager : Manager; rn_names : gmap (id_kind * string) string }.

(** Computations that allocate and remember names. *)
Definition renaming (A : Type) : Type := renamer -> renamer * A.
#[export] Instance renaming_ret : MRet renaming := fun A a r => (r, a).
#[export] Instance renaming_bind : MBind renaming := fun A B f m r => let '(r, a) := m r in f a r.

Definition rename_id (k : id_kind) (old : string) : renaming string := fun r =>
  match rn_names r !! (k, old) with
  | Some mapped => (r, mapped)
  | None =>
    let '(m, mapped) := nextID (rn_manager r) (kind_prefix k) in
    (MkRenamer m (<[(k, old) := mapped]> (rn_names r)), mapped)
  end.
(** [if old == "" { return "" }] *)
Definition rename_optional (k : id_kind) (old : string) : renaming string :=
  if empty old then mret "" else rename_id k old.
Definition messageID : string -> renaming string := rename_optional KMessage.
Definition runID : string -> renaming string := rename_optional KRun.
Definition stepID : string -> renaming string := rename_optional KStep.
Definition callID : string -> renaming string := rename_id KCall.
Definition attemptID : string -> renaming string := rename_id KAttempt.

(** [if p != nil { ... }] *)
Definition on_payload {A} (rewrite_ : A -> renaming A) (p : option A) : renaming (option A) :=
  match p with Some a => b ← rewrite_ a; mret (Some b) | None => mret None end.

Definition rewrite_message (sessionID : string) (m : Message) : renaming Message :=
  id ← messageID (msg_ID m);
  run ← runID (msg_RunID m);
  step ← stepID (msg_StepID m);
  mret (MkMessage id (msg_ClientMessageID m) sessionID run step (msg_Role m) (msg_Parts m) (msg_ModelContinuation m) (msg_CreatedAt m)).
Definition rewrite_call (sessionID : string) (c : ToolCall) : renaming ToolCall :=
  id ← callID (call_ID c);
  message ← messageID (call_MessageID c);
  run ← runID (call_RunID c);
  step ← stepID (call_StepID c);
  mret (MkToolCall id (call_CorrelationID c) message sessionID run step (call_Name c) (call_Arguments c)).
Definition rewrite_result (r : ToolResult) : renaming ToolResult :=
  id ← callID (res_CallID r);
  mret (MkToolResult id (res_Status r) (res_Output r) (res_Error r) (res_Artifacts r)).
Definition rewrite_run (sessionID : string) (r : RunFact) : renaming RunFact :=
  run ← runID (rf_RunID r);
  mret (MkRunFact sessionID run (rf_Kind r) (rf_ModelConfig r) (rf_ConfigRevision r) (rf_LegacyCompletionMode r) (rf_Termination r)).
Definition rewrite_attempt (a : ModelAttemptFact) : renaming ModelAttemptFact :=
  id ← attemptID (ma_AttemptID a);
  run ← runID (ma_RunID a);
  step ← stepID (ma_StepID a);
  mret (MkModelAttemptFact id run step (ma_Kind a) (ma_ProviderKey a) (ma_ModelID a) (ma_ProviderRequestID a) (ma_Usage a)
          (ma_ErrorCode a) (ma_ErrorMessage a)).

Definition rewriteForkInput (sessionID : string) (input : Input) : renaming Input :=
  message ← on_payload (rewrite_message sessionID) (in_Message input);
  call ← on_payload (rewrite_call sessionID) (in_ToolCall input);
  res ← on_payload rewrite_result (in_ToolResult input);
  mret (MkInput (in_SystemPrompt input) message call res).
Definition rewriteForkInputs (sessionID : string) (inputs : list Input) : renaming (list Input) :=
  mapM (rewriteForkInput sessionID) inputs.

Definition rewrite_contribution (sessionID : string) (c : ContextContributionFact) : renaming ContextContributionFact :=
  run ← runID (cc_RunID c);
  step ← stepID (cc_StepID c);
  inputs ← rewriteForkInputs sessionID (cc_Inputs c);
  mret (MkContextContributionFact run step (cc_SourceKey c) inputs).
Definition rewrite_budget (b : RunBudgetExceededFact) : renaming RunBudgetExceededFact :=
  run ← runID (rb_RunID b);
  mret (MkRunBudgetExceededFact run (rb_UsedTokens b) (rb_MaxTokens b)).
Definition rewrite_limit (l : RunLimitExceededFact) : renaming RunLimitExceededFact :=
  run ← runID (rl_RunID l);
  step ← stepID (rl_StepID l);
  attempt ← (if nonempty (rl_TriggerAttemptID l) then attemptID (rl_TriggerAttemptID l) else mret (rl_TriggerAttemptID l));
  call ← (if nonempty (rl_TriggerToolCallID l) then callID (rl_TriggerToolCallID l) else mret (rl_TriggerToolCallID l));
  mret (MkRunLimitExceededFact run step (rl_Kind l) (rl_Used l) (rl_Max l) (rl_Requested l) attempt call).

(** The body of the loop over [source.History]. *)
Definition rewrite_fact (sessionID : string) (f : HistoryFact) : renaming HistoryFact :=
  message ← on_payload (rewrite_message sessionID) (hf_Message f);
  call ← on_payload (rewrite_call sessionID) (hf_ToolCall f);
  res ← on_payload rewrite_result (hf_ToolResult f);
  run ← on_payload (rewrite_run sessionID) (hf_Run f);
  attempt ← on_payload rewrite_attempt (hf_ModelAttempt f);
  contribution ← on_payload (rewrite_contribution sessionID) (hf_ContextContribution f);
  budget ← on_payload rewrite_budget (hf_RunBudgetExceeded f);
  limit ← on_payload rewrite_limit (hf_RunLimitExceeded f);
  mret (MkHistoryFact (hf_FactID f) (hf_FactID f) (hf_Sequence f) (hf_SessionID f) (hf_RunID f) (hf_StepID f) (hf_At f) (hf_Actor f)
          (hf_Kind f) message call res run attempt (hf_ModelConfigChanged f) contribution budget limit).

Definition no_context : ContextView :=
  MkContextView 0 0 0 0 (MkModelRequest "" "" "" (MkConfig "" "" (ReasoningOther "") (MkParameters None None)) 0 [] []).

Definition rewriteForFork (source : Snapshot) (newSessionID agentID workspaceID : string) (m : Manager) : Manager * Snapshot :=
  let '(r, history) := mapM (rewrite_fact newSessionID) (sn_History source) (MkRenamer m ∅) in
  (rn_manager r,
   MkSnapshot (MkSession newSessionID agentID workspaceID "" 0 0) 0 history no_context [] [] [] (sn_ExtensionJournal source) []
     (sn_ModelConfig source) RunIdle "" (sn_Fork source)).

(** ** The prefix of a fork *)
Definition completedForkBoundary (history : list HistoryFact) (index : nat) (activeRunID : string) : bool :=
  match history !! index with
  | None => false
  | Some fact =>
    let is_last := Nat.eqb index (length history - 1) in
    if is_last && ID_Valid activeRunID && String.eqb (hf_RunID fact) activeRunID then false
    else if ID_Valid (hf_StepID fact) then is_last || negb (String.eqb (step_at history (S index)) (hf_StepID fact))
    else match hf_Run fact with Some r => negb (bool_decide (rf_Kind r = RunStarted)) | None => false end
  end.

(** The four sets of [validateForkProtocol]. *)
Record protocol := Protocol { pr_calls : gset string; pr_results : gset string; pr_attempts : gset string; pr_terminals : gset string }.
Definition collect_protocol (p : protocol) (f : HistoryFact) : protocol :=
  let p := match hf_ToolCall f with
    | Some c => Protocol ({[ call_ID c ]} ∪ pr_calls p) (pr_results p) (pr_attempts p) (pr_terminals p) | None => p end in
  let p := match hf_ToolResult f with
    | Some r => Protocol (pr_calls p) ({[ res_CallID r ]} ∪ pr_results p) (pr_attempts p) (pr_terminals p) | None => p end in
  match hf_ModelAttempt f with
  | Some a =>
    if bool_decide (ma_Kind a = AttemptStarted)
    then Protocol (pr_calls p) (pr_results p) ({[ ma_AttemptID a ]} ∪ pr_attempts p) (pr_terminals p)
    else Protocol (pr_calls p) (pr_results p) (pr_attempts p) ({[ ma_AttemptID a ]} ∪ pr_terminals p)
  | None => p
  end.

(** Go walks the maps in any order, so which unpaired identity is reported is
    not determined: the error names the kind only. *)
Definition validateForkProtocol (history : list HistoryFact) : result unit :=
  let p := foldl collect_protocol (Protocol ∅ ∅ ∅ ∅) history in
  reject_if (negb (bool_decide (pr_calls p ⊆ pr_results p))) (ErrNew "fork cutoff leaves tool call unpaired") ;;
  reject_if (negb (bool_decide (pr_attempts p ⊆ pr_terminals p))) (ErrNew "fork cutoff leaves model attempt unterminated").

Definition fork_error (message : string) : error := invalid "session.manager.fork" (plain message).

(** The index of the first fact with this sequence. *)
Definition fact_index (history : list HistoryFact) (sequence : Z) : option nat :=
  fst <$> list_find (fun f => hf_Sequence f = sequence) history.

Definition selectForkHistory (history : list HistoryFact) (activeRunID : string) (mode : ForkMode) (requested : Z)
    : result (Z * list HistoryFact) :=
  if bool_decide (mode = ForkHistoryPrefix) && Z.eqb requested 0 then Ok (0%Z, [])
  else match last history with
  | None => if bool_decide (mode = ForkFullHistory) then Ok (0%Z, []) else Err (fork_error "fork cutoff does not exist")
  | Some latest =>
    let cutoff := if bool_decide (mode = ForkFullHistory) then hf_Sequence latest else requested in
    match fact_index history cutoff with
    | None => Err (fork_error "fork cutoff does not exist")
    | Some stop =>
      reject_if (bool_decide (mode = ForkHistoryPrefix) && negb (completedForkBoundary history stop activeRunID))
        (fork_error "fork cutoff is not a completed Step boundary") ;;
      let selected := take (S stop) history in
      map_err (fun e => invalid "session.manager.fork" (error_text e)) (validateForkProtocol selected) ;;
      Ok (cutoff, selected)
    end
  end.

(** ** Sessions: what the manager hands out *)
Record memorySession := MkMemorySession { ms_id : string; ms_revision : Z }.
Definition newMemorySession (s : Snapshot) : memorySession := MkMemorySession (sess_ID (sn_Session s)) (u64 (sn_Revision s)).

(** A call that allocates identities returns the manager and the store. *)
Section Manager.
Context {E S : Type} {I : SessionStore E S}.

Definition outcome (A : Type) : Type := Manager * S * result A.
Definition attempt_ {A B} (m : Manager) (st : S) (r : result A) (k : A -> outcome B) : outcome B :=
  match r with Ok a => k a | Err e => (m, st, Err e) | Panic msg => (m, st, Panic msg) end.

Definition View (e : E) (st : S) (s : memorySession) : S * memorySession * result Snapshot :=
  let '(st, out) := store_Load e st (ms_id s) in
  match out with
  | Ok snapshot => (st, MkMemorySession (ms_id s) (u64 (sn_Revision snapshot)), Ok snapshot)
  | out => (st, s, out)
  end.

(** [m.store.Create] and [newMemorySession] on what it returns. *)
Definition create_session (e : E) (m : Manager) (st : S) (n : NewSession) : outcome memorySession :=
  let '(st, out) := store_Create e st n in
  (m, st, newMemorySession <$> out).

Definition Manager_Create (e : E) (m : Manager) (st : S) (request : CreateRequest) : outcome memorySession :=
  attempt_ m st (map_err (fun e => invalid "session.manager.create" (error_text e))
    (validateScope (crq_AgentID request) (crq_WorkspaceID request))) (fun _ =>
  attempt_ m st (chooseConfig (crq_ModelConfig request) (mg_defaultConfig m)) (fun config =>
  let '(m, id) := nextID m "session" in
  create_session e m st
    (MkNewSession (MkSession id (crq_AgentID request) (crq_WorkspaceID request) "" 0 0) [] no_context [] [] config RunIdle "" None))).

Definition Manager_Resume (e : E) (m : Manager) (st : S) (request : ResumeRequest) : outcome memorySession :=
  attempt_ m st (reject_if (negb (ID_Valid (rrq_SessionID request))) (invalid "session.manager.resume" (plain "session ID is required"))) (fun _ =>
  let '(st, out) := store_Recover e st (rrq_SessionID request) in
  (m, st, newMemorySession <$> out)).

(** What [Fork] stores: the copied history under the new identity. *)
Definition derived_session (source : Snapshot) (request : ForkRequest) (config : Config) (cutoff : Z) (history : list HistoryFact)
    (m : Manager) : Manager * NewSession :=
  let '(m, newID) := nextID m "session" in
  let selected := MkSnapshot (sn_Session source) (sn_Revision source) history (sn_Context source) (sn_RetainedContexts source)
    (sn_Queue source) (sn_RunJournal source) (sn_ExtensionJournal source) (sn_Events source) (sn_ModelConfig source)
    (sn_RunState source) (sn_ActiveRunID source) (sn_Fork source) in
  let '(m, derived) := rewriteForFork selected newID (frq_AgentID request) (frq_WorkspaceID request) m in
  let sess := sn_Session derived in
  (m, MkNewSession
        (MkSession (sess_ID sess) (sess_AgentID sess) (sess_WorkspaceID sess) (sess_ID (sn_Session source)) (sn_Revision source) 0)
        (sn_History derived) (sn_Context derived) (sn_Queue derived) (sn_RunJournal derived) config RunIdle ""
        (Some (MkForkProvenance (sess_ID (sn_Session source)) cutoff))).

Definition validate_fork_request (request : ForkRequest) : result unit :=
  reject_if (negb (ID_Valid (frq_SourceSessionID request)) || negb (ID_Valid (frq_AgentID request)) ||
             negb (ID_Valid (frq_WorkspaceID request))) (fork_error "source session, agent, and workspace are required") ;;
  reject_if (negb (ForkMode_Valid (frq_Mode request))) (fork_error "fork mode is required") ;;
  reject_if (bool_decide (frq_Mode request = ForkFullHistory) && negb (Z.eqb (frq_CutoffSequence request) 0))
    (fork_error "full-history fork cannot specify a cutoff").

Definition Manager_Fork (e : E) (m : Manager) (st : S) (request : ForkRequest) : outcome memorySession :=
  attempt_ m st (validate_fork_request request) (fun _ =>
  let '(st, loaded) := store_Load e st (frq_SourceSessionID request) in
  attempt_ m st loaded (fun source =>
  attempt_ m st (reject_if (bool_decide (frq_Mode request = ForkFullHistory) && bool_decide (sn_RunState source = RunRunning))
    (NewCodedError ErrorConflict CodeActiveRun "session.manager.fork" (plain "cannot fork a session while a run is active") None)) (fun _ =>
  attempt_ m st (selectForkHistory (sn_History source) (sn_ActiveRunID source) (frq_Mode request) (frq_CutoffSequence request))
    (fun '(cutoff, history) =>
  attempt_ m st (chooseConfig (frq_ModelConfig request) (sn_ModelConfig source)) (fun config =>
  let '(m, initial) := derived_session source request config cutoff history m in
  create_session e m st initial))))).

(** The loop over [request.Messages]. *)
Fixpoint summary_history (m : Manager) (sessionID : string) (messages : list MessageInput) : Manager * result (list HistoryFact) :=
  match messages with
  | [] => (m, Ok [])
  | input :: messages =>
    if negb (MessageInput_Valid input) then
      (m, Err (invalid "session.manager.summary" (plain "summary contains invalid message input")))
    else
      let '(m, id) := nextID m "message" in
      let '(m, rest) := summary_history m sessionID messages in
      (m, cons (fact_Message (MkMessage id "" sessionID "" "" RoleUser input None 0)) <$> rest)
  end.

(** The defaults of a summary: of the manager, or of the source session. *)
Definition summary_source (e : E) (m : Manager) (st : S) (request : SummaryRequest) : S * result (Config * string * Z) :=
  if empty (srq_SourceSessionID request) then (st, Ok (mg_defaultConfig m, "", 0%Z))
  else if negb (ID_Valid (srq_SourceSessionID request)) then
    (st, Err (invalid "session.manager.summary" (plain "source session ID is invalid")))
  else
    let '(st, loaded) := store_Load e st (srq_SourceSessionID request) in
    (st, (fun source => (sn_ModelConfig source, sess_ID (sn_Session source), sn_Revision source)) <$> loaded).

Definition Manager_StartFromSummary (e : E) (m : Manager) (st : S) (request : SummaryRequest) : outcome memorySession :=
  attempt_ m st (map_err (fun e => invalid "session.manager.summary" (error_text e))
    (validateScope (srq_AgentID request) (srq_WorkspaceID request))) (fun _ =>
  attempt_ m st (reject_if (bool_decide (srq_Messages request = []))
    (invalid "session.manager.summary" (plain "at least one summary message is required"))) (fun _ =>
  let '(st, source) := summary_source e m st request in
  attempt_ m st source (fun '(fallback, parentID, parentRevision) =>
  attempt_ m st (chooseConfig (srq_ModelConfig request) fallback) (fun config =>
  let '(m, sessionID) := nextID m "session" in
  let '(m, history) := summary_history m sessionID (srq_Messages request) in
  attempt_ m st history (fun history =>
  create_session e m st
    (MkNewSession (MkSession sessionID (srq_AgentID request) (srq_WorkspaceID request) parentID parentRevision 0) history no_context
       [] [] config RunIdle "" None)))))).

End Manager.
