(* ===== verification/SessionManagerFacts.v ===== *)
(** * Facts about the manager's renaming and its fork

    The renaming of a copied history computes a pure renaming of identities
    that is injective on the identities that occur and issues fresh names. *)

From stdpp Require Import pretty.
From S2P Require Import Prelude GoStrings AgentTypes ModelContracts SessionTypes ExtensionJournal.
From S2P Require Import SessionValidate SessionHistory SessionApply SessionCreate SessionStore SessionManager HistoryDiscipline.
From S2P Require Import SessionRecover TextFacts SessionHistoryFacts PageFacts.

(** ** Identities differ *)
Lemma append_inj_l (p a b : string) : p +:+ a = p +:+ b -> a = b.
Proof. induction p as [|c p IH]; simpl; [done|]. intros [= H]. by apply IH. Qed.

Lemma identity_number prefix idPrefix a b :
  (0 <= a)%Z -> (0 <= b)%Z -> identity prefix idPrefix a = identity prefix idPrefix b -> a = b.
Proof. unfold identity. intros ?? H. do 4 apply append_inj_l in H. apply (inj pretty) in H. lia. Qed.

Lemma identity_kind k k' idPrefix a b : identity (kind_prefix k) idPrefix a = identity (kind_prefix k') idPrefix b -> k = k'.
Proof. by destruct k, k'. Qed.

Lemma identity_nonempty k idPrefix n : identity (kind_prefix k) idPrefix n ≠ "".
Proof. by destruct k. Qed.

(** ** Pure renamings *)
Definition optional_kind (k : id_kind) : bool := match k with KMessage | KRun | KStep => true | KCall | KAttempt => false end.
Notation names := (gmap (id_kind * string) string).
(** The renaming that a table describes. *)
Definition table (t : names) (k : id_kind) (old : string) : string :=
  if optional_kind k && empty old then "" else default "" (t !! (k, old)).

Section Pure.
Variable rho : id_kind -> string -> string.
Variable sid : string.

Definition renamed_message (m : Message) : Message :=
  MkMessage (rho KMessage (msg_ID m)) (msg_ClientMessageID m) sid (rho KRun (msg_RunID m)) (rho KStep (msg_StepID m)) (msg_Role m)
    (msg_Parts m) (msg_ModelContinuation m) (msg_CreatedAt m).
Definition renamed_call (c : ToolCall) : ToolCall :=
  MkToolCall (rho KCall (call_ID c)) (call_CorrelationID c) (rho KMessage (call_MessageID c)) sid (rho KRun (call_RunID c))
    (rho KStep (call_StepID c)) (call_Name c) (call_Arguments c).
Definition renamed_result (r : ToolResult) : ToolResult :=
  MkToolResult (rho KCall (res_CallID r)) (res_Status r) (res_Output r) (res_Error r) (res_Artifacts r).
Definition renamed_run (r : RunFact) : RunFact :=
  MkRunFact sid (rho KRun (rf_RunID r)) (rf_Kind r) (rf_ModelConfig r) (rf_ConfigRevision r) (rf_LegacyCompletionMode r) (rf_Termination r).
Definition renamed_attempt (a : ModelAttemptFact) : ModelAttemptFact :=
  MkModelAttemptFact (rho KAttempt (ma_AttemptID a)) (rho KRun (ma_RunID a)) (rho KStep (ma_StepID a)) (ma_Kind a) (ma_ProviderKey a)
    (ma_ModelID a) (ma_ProviderRequestID a) (ma_Usage a) (ma_ErrorCode a) (ma_ErrorMessage a).
Definition renamed_input (i : Input) : Input :=
  MkInput (in_SystemPrompt i) (renamed_message <$> in_Message i) (renamed_call <$> in_ToolCall i) (renamed_result <$> in_ToolResult i).
Definition renamed_contribution (c : ContextContributionFact) : ContextContributionFact :=
  MkContextContributionFact (rho KRun (cc_RunID c)) (rho KStep (cc_StepID c)) (cc_SourceKey c) (renamed_input <$> cc_Inputs c).
Definition renamed_budget (b : RunBudgetExceededFact) : RunBudgetExceededFact :=
  MkRunBudgetExceededFact (rho KRun (rb_RunID b)) (rb_UsedTokens b) (rb_MaxTokens b).
Definition renamed_trigger (k : id_kind) (id : string) : string := if nonempty id then rho k id else id.
Definition renamed_limit (l : RunLimitExceededFact) : RunLimitExceededFact :=
  MkRunLimitExceededFact (rho KRun (rl_RunID l)) (rho KStep (rl_StepID l)) (rl_Kind l) (rl_Used l) (rl_Max l) (rl_Requested l)
    (renamed_trigger KAttempt (rl_TriggerAttemptID l)) (renamed_trigger KCall (rl_TriggerToolCallID l)).
Definition renamed_fact (f : HistoryFact) : HistoryFact :=
  MkHistoryFact (hf_FactID f) (hf_FactID f) (hf_Sequence f) (hf_SessionID f) (hf_RunID f) (hf_StepID f) (hf_At f) (hf_Actor f) (hf_Kind f)
    (renamed_message <$> hf_Message f) (renamed_call <$> hf_ToolCall f) (renamed_result <$> hf_ToolResult f) (renamed_run <$> hf_Run f)
    (renamed_attempt <$> hf_ModelAttempt f) (hf_ModelConfigChanged f) (renamed_contribution <$> hf_ContextContribution f)
    (renamed_budget <$> hf_RunBudgetExceeded f) (renamed_limit <$> hf_RunLimitExceeded f).
End Pure.

(** ** The identities that occur, in the order the code meets them *)
Notation key := (id_kind * string)%type.
Definition id_of (k : id_kind) (id : string) : list key := if optional_kind k && empty id then [] else [(k, id)].
Definition ids_message (m : Message) : list key := id_of KMessage (msg_ID m) ++ id_of KRun (msg_RunID m) ++ id_of KStep (msg_StepID m).
Definition ids_call (c : ToolCall) : list key :=
  id_of KCall (call_ID c) ++ id_of KMessage (call_MessageID c) ++ id_of KRun (call_RunID c) ++ id_of KStep (call_StepID c).
Definition ids_result (r : ToolResult) : list key := id_of KCall (res_CallID r).
Definition ids_run (r : RunFact) : list key := id_of KRun (rf_RunID r).
Definition ids_attempt (a : ModelAttemptFact) : list key :=
  id_of KAttempt (ma_AttemptID a) ++ id_of KRun (ma_RunID a) ++ id_of KStep (ma_StepID a).
Definition ids_present {A} (ids : A -> list key) (p : option A) : list key := match p with Some a => ids a | None => [] end.
Definition ids_input (i : Input) : list key :=
  ids_present ids_message (in_Message i) ++ ids_present ids_call (in_ToolCall i) ++ ids_present ids_result (in_ToolResult i).
Definition ids_contribution (c : ContextContributionFact) : list key :=
  id_of KRun (cc_RunID c) ++ id_of KStep (cc_StepID c) ++ concat (map ids_input (cc_Inputs c)).
Definition ids_budget (b : RunBudgetExceededFact) : list key := id_of KRun (rb_RunID b).
Definition ids_trigger (k : id_kind) (id : string) : list key := if nonempty id then id_of k id else [].
Definition ids_limit (l : RunLimitExceededFact) : list key :=
  id_of KRun (rl_RunID l) ++ id_of KStep (rl_StepID l) ++ ids_trigger KAttempt (rl_TriggerAttemptID l) ++
  ids_trigger KCall (rl_TriggerToolCallID l).
Definition fact_ids (f : HistoryFact) : list key :=
  ids_present ids_message (hf_Message f) ++ ids_present ids_call (hf_ToolCall f) ++ ids_present ids_result (hf_ToolResult f) ++
  ids_present ids_run (hf_Run f) ++ ids_present ids_attempt (hf_ModelAttempt f) ++
  ids_present ids_contribution (hf_ContextContribution f) ++ ids_present ids_budget (hf_RunBudgetExceeded f) ++
  ids_present ids_limit (hf_RunLimitExceeded f).
Definition history_ids (h : list HistoryFact) : list key := concat (map fact_ids h).

(** ** The state of a renaming *)
Record issued (base : Z) (m : Manager) (r : renamer) : Prop := {
  is_config : mg_defaultConfig (rn_manager r) = mg_defaultConfig m;
  is_prefix : mg_idPrefix (rn_manager r) = mg_idPrefix m;
  is_base : (0 <= base <= mg_sequence (rn_manager r))%Z;
  is_names : forall k old new, rn_names r !! (k, old) = Some new ->
    exists n, (base < n <= mg_sequence (rn_manager r))%Z /\ new = identity (kind_prefix k) (mg_idPrefix m) n;
  is_inj : forall key key' new, rn_names r !! key = Some new -> rn_names r !! key' = Some new -> key = key';
}.

(** [c] issues names for [ids], no more, and returns what the pure renaming
    gives under the final table or any extension of it. *)
Definition renames {A} (base : Z) (m : Manager) (c : renaming A) (ids : list key) (pure : (id_kind -> string -> string) -> A) : Prop :=
  forall r r' a, c r = (r', a) -> issued base m r -> (mg_sequence (rn_manager r) + Z.of_nat (length ids) < 2 ^ 64)%Z ->
    issued base m r' /\ rn_names r ⊆ rn_names r' /\
    (mg_sequence (rn_manager r') <= mg_sequence (rn_manager r) + Z.of_nat (length ids))%Z /\
    (forall key, key ∈ ids -> is_Some (rn_names r' !! key)) /\
    (forall t, rn_names r' ⊆ t -> a = pure (table t)).

Section Renames.
Context (base : Z) (m : Manager).

Lemma renames_ret {A} (a : A) : renames base m (mret a) [] (fun _ => a).
Proof. intros r r' a' [= <- <-] H _. split; [done|]. split; [done|]. split; [simpl; lia|]. split; [set_solver|done]. Qed.

Lemma renames_bind {A B} (c : renaming A) ids pure (f : A -> renaming B) ids' pure' :
  renames base m c ids pure -> (forall a, renames base m (f a) ids' (pure' a)) ->
  renames base m (c ≫= f) (ids ++ ids') (fun rho => pure' (pure rho) rho).
Proof.
  intros Hc Hf r r' b H Hi Hb. unfold mbind, renaming_bind in H. destruct (c r) as [r1 a] eqn:E. rewrite length_app in *.
  destruct (Hc r r1 a E Hi) as (H1&Hs1&Hn1&Hk1&Ha); [lia|]. destruct (Hf a r1 r' b H H1) as (H2&Hs2&Hn2&Hk2&Hb2); [lia|].
  split; [done|]. split; [by etrans|]. split; [lia|]. split.
  - intros key [Hk|Hk]%elem_of_app; [|by apply Hk2]. destruct (Hk1 key Hk) as [new Hnew]. exists new. eapply lookup_weaken; eauto.
  - intros t Ht. rewrite (Hb2 t Ht). by rewrite <-(Ha t) by (by etrans).
Qed.

Lemma renames_id k old : optional_kind k && empty old = false -> renames base m (rename_id k old) [(k, old)] (fun rho => rho k old).
Proof.
  intros Eo r r' new H Hi Hb. cbn [length] in Hb. unfold rename_id in H. destruct (rn_names r !! (k, old)) as [mapped|] eqn:El.
  - injection H as <- <-. split; [done|]. split; [done|]. split; [simpl; lia|]. split.
    + intros key ->%list_elem_of_singleton. eauto.
    + intros t Ht. unfold table. rewrite Eo. by rewrite (lookup_weaken _ _ _ _ El Ht).
  - pose proof Hi as [Hcfg Hpre Hbase Hnames Hinj]. unfold nextID in H.
    assert (add1 (mg_sequence (rn_manager r)) = mg_sequence (rn_manager r) + 1)%Z as Hs by (apply u64_small; lia).
    rewrite Hs, Hpre in H. injection H as <- <-.
    split; [|split; [by apply insert_subseteq|split; [cbn; lia|split]]].
    + split; cbn [rn_names rn_manager mg_sequence mg_defaultConfig mg_idPrefix]; [done|done|lia| |].
      * intros k' old' new'. rewrite lookup_insert. case_decide as Hk; [intros [= <-]; simplify_eq; eexists; split; [|done]; lia|].
        intros Hn. destruct (Hnames k' old' new' Hn) as (n&?&?). exists n. split; [lia|done].
      * assert (Hfresh : forall key, rn_names r !! key ≠ Some (identity (kind_prefix k) (mg_idPrefix m) (mg_sequence (rn_manager r) + 1))).
        { intros [k' old'] Hn. destruct (Hnames _ _ _ Hn) as (n&Hr&He). pose proof (identity_kind _ _ _ _ _ He) as <-.
          apply identity_number in He; lia. }
        intros key key' new'. rewrite !lookup_insert. do 2 case_decide; intros; simplify_eq; try done.
        -- by edestruct Hfresh.
        -- by edestruct Hfresh.
        -- by eapply Hinj.
    + intros key ->%list_elem_of_singleton. cbn [rn_names]. rewrite lookup_insert_eq. eauto.
    + intros t Ht. unfold table. rewrite Eo. erewrite lookup_weaken; [|apply lookup_insert_eq|exact Ht]. done.
Qed.

Lemma renames_id_of k old : optional_kind k = false -> renames base m (rename_id k old) (id_of k old) (fun rho => rho k old).
Proof. intros Hk. unfold id_of. rewrite Hk. apply renames_id. by rewrite Hk. Qed.

Lemma renames_eq {A} (c : renaming A) ids ids' pure pure' :
  renames base m c ids pure -> ids = ids' -> (forall t, pure (table t) = pure' (table t)) -> renames base m c ids' pure'.
Proof.
  intros H <- Hp r r' a Hc Hi Hb. destruct (H r r' a Hc Hi Hb) as (?&?&?&?&Ha). do 4 (split; [done|]).
  intros t Ht. rewrite <-Hp. by apply Ha.
Qed.

(** [renames_bind] with the composed renaming left to an equation. *)
Lemma renames_then {A B} (c : renaming A) ids pure (f : A -> renaming B) ids' pure' composed :
  renames base m c ids pure -> (forall a, renames base m (f a) ids' (pure' a)) ->
  (forall rho, composed rho = pure' (pure rho) rho) -> renames base m (c ≫= f) (ids ++ ids') composed.
Proof. intros Hc Hf He. eapply renames_eq; [by eapply renames_bind|done|]. intros t. by rewrite He. Qed.

Lemma renames_optional k old : optional_kind k = true -> renames base m (rename_optional k old) (id_of k old) (fun rho => rho k old).
Proof.
  intros Hk. unfold rename_optional, id_of. rewrite Hk. simpl. destruct (empty old) eqn:E.
  - eapply renames_eq; [apply renames_ret|done|]. intros t. unfold table. by rewrite Hk, E.
  - apply renames_id. by rewrite Hk.
Qed.

Lemma renames_trigger k id : optional_kind k = false ->
  renames base m (if nonempty id then rename_id k id else mret id) (ids_trigger k id) (fun rho => renamed_trigger rho k id).
Proof.
  intros Hk. unfold ids_trigger, renamed_trigger. destruct (nonempty id); [by apply renames_id_of|apply renames_ret].
Qed.

End Renames.

(** Walk through a sequence of renamings, each solved by [leaf]. *)
Ltac renames_walk leaf :=
  first
    [ refine (renames_ret _ _ _)
    | eapply renames_then; [solve [leaf]|intros ?; renames_walk leaf|intros ?; reflexivity] ].

Section Loops.
Context (base : Z) (m : Manager).

Lemma renames_present {A} (rewrite_ : A -> renaming A) ids pure (p : option A) :
  (forall a, renames base m (rewrite_ a) (ids a) (fun rho => pure rho a)) ->
  renames base m (on_payload rewrite_ p) (ids_present ids p) (fun rho => pure rho <$> p).
Proof.
  intros H. destruct p as [a|]; cbn [on_payload ids_present]; [|apply renames_ret].
  eapply renames_eq; [renames_walk ltac:(apply H)|by rewrite app_nil_r|done].
Qed.

Lemma renames_mapM {A} (rewrite_ : A -> renaming A) ids pure (l : list A) :
  (forall a, renames base m (rewrite_ a) (ids a) (fun rho => pure rho a)) ->
  renames base m (mapM rewrite_ l) (concat (map ids l)) (fun rho => pure rho <$> l).
Proof.
  intros H. induction l as [|a l IH]; [apply renames_ret|].
  change (mapM rewrite_ (a :: l)) with (b ← rewrite_ a; bs ← mapM rewrite_ l; mret (b :: bs) : renaming (list A)).
  eapply renames_eq; [renames_walk ltac:(first [apply H|apply IH])|by rewrite app_nil_r|done].
Qed.
End Loops.

(** ** The renaming of a copied fact *)
Create HintDb renames.
#[export] Hint Extern 1 (renames _ _ (on_payload _ _) _ _) => apply renames_present; intros ? : renames.
#[export] Hint Extern 1 (renames _ _ (messageID _) _ _) => apply renames_optional; reflexivity : renames.
#[export] Hint Extern 1 (renames _ _ (runID _) _ _) => apply renames_optional; reflexivity : renames.
#[export] Hint Extern 1 (renames _ _ (stepID _) _ _) => apply renames_optional; reflexivity : renames.
#[export] Hint Extern 1 (renames _ _ (callID _) _ _) => apply renames_id_of; reflexivity : renames.
#[export] Hint Extern 1 (renames _ _ (attemptID _) _ _) => apply renames_id_of; reflexivity : renames.
#[export] Hint Extern 1 (renames _ _ (if nonempty _ then attemptID _ else _) _ _) => apply renames_trigger; reflexivity : renames.
#[export] Hint Extern 1 (renames _ _ (if nonempty _ then callID _ else _) _ _) => apply renames_trigger; reflexivity : renames.

Ltac renames_steps :=
  intros; eapply renames_eq; [renames_walk ltac:(eauto with renames)|rewrite ?app_nil_r; reflexivity|reflexivity].

Section Fact.
Context (base : Z) (mg : Manager) (sid : string).

Lemma renames_message m : renames base mg (rewrite_message sid m) (ids_message m) (fun rho => renamed_message rho sid m).
Proof. renames_steps. Qed.
Lemma renames_call c : renames base mg (rewrite_call sid c) (ids_call c) (fun rho => renamed_call rho sid c).
Proof. renames_steps. Qed.
Lemma renames_result r : renames base mg (rewrite_result r) (ids_result r) (fun rho => renamed_result rho r).
Proof. renames_steps. Qed.
Lemma renames_run r : renames base mg (rewrite_run sid r) (ids_run r) (fun rho => renamed_run rho sid r).
Proof. renames_steps. Qed.
Lemma renames_attempt a : renames base mg (rewrite_attempt a) (ids_attempt a) (fun rho => renamed_attempt rho a).
Proof. renames_steps. Qed.
Lemma renames_budget b : renames base mg (rewrite_budget b) (ids_budget b) (fun rho => renamed_budget rho b).
Proof. renames_steps. Qed.
Lemma renames_limit l : renames base mg (rewrite_limit l) (ids_limit l) (fun rho => renamed_limit rho l).
Proof. renames_steps. Qed.
End Fact.
#[export] Hint Extern 1 (renames _ _ (rewrite_message _ _) _ _) => apply renames_message : renames.
#[export] Hint Extern 1 (renames _ _ (rewrite_call _ _) _ _) => apply renames_call : renames.
#[export] Hint Extern 1 (renames _ _ (rewrite_result _) _ _) => apply renames_result : renames.
#[export] Hint Extern 1 (renames _ _ (rewrite_run _ _) _ _) => apply renames_run : renames.
#[export] Hint Extern 1 (renames _ _ (rewrite_attempt _) _ _) => apply renames_attempt : renames.
#[export] Hint Extern 1 (renames _ _ (rewrite_budget _) _ _) => apply renames_budget : renames.
#[export] Hint Extern 1 (renames _ _ (rewrite_limit _) _ _) => apply renames_limit : renames.

Section Inputs.
Context (base : Z) (mg : Manager) (sid : string).

Lemma renames_input i : renames base mg (rewriteForkInput sid i) (ids_input i) (fun rho => renamed_input rho sid i).
Proof. renames_steps. Qed.
Lemma renames_inputs l : renames base mg (rewriteForkInputs sid l) (concat (map ids_input l)) (fun rho => renamed_input rho sid <$> l).
Proof. apply renames_mapM. apply renames_input. Qed.
End Inputs.
#[export] Hint Extern 1 (renames _ _ (rewriteForkInputs _ _) _ _) => apply renames_inputs : renames.

Lemma renames_contribution base mg sid c :
  renames base mg (rewrite_contribution sid c) (ids_contribution c) (fun rho => renamed_contribution rho sid c).
Proof. renames_steps. Qed.
#[export] Hint Extern 1 (renames _ _ (rewrite_contribution _ _) _ _) => apply renames_contribution : renames.

Lemma renames_fact base mg sid f : renames base mg (rewrite_fact sid f) (fact_ids f) (fun rho => renamed_fact rho sid f).
Proof. renames_steps. Qed.

Lemma renames_history base mg sid h :
  renames base mg (mapM (rewrite_fact sid) h) (history_ids h) (fun rho => renamed_fact rho sid <$> h).
Proof. apply renames_mapM, renames_fact. Qed.

(** ** Only identities that are there are renamed *)
Definition required (k : key) : Prop := optional_kind k.1 && empty k.2 = false.

Lemma id_of_required k id : Forall required (id_of k id).
Proof. unfold id_of. destruct (optional_kind k && empty id) eqn:E; [constructor|by constructor]. Qed.
Lemma ids_present_required {A} (ids : A -> list key) p : (forall a, Forall required (ids a)) -> Forall required (ids_present ids p).
Proof. intros H. destruct p; [apply H|constructor]. Qed.
Lemma ids_trigger_required k id : Forall required (ids_trigger k id).
Proof. unfold ids_trigger. destruct (nonempty id); [apply id_of_required|constructor]. Qed.
Lemma ids_concat_required {A} (ids : A -> list key) l : (forall a, Forall required (ids a)) -> Forall required (concat (map ids l)).
Proof. intros H. induction l; simpl; [constructor|]. apply Forall_app. auto. Qed.
#[export] Hint Resolve id_of_required ids_present_required ids_trigger_required ids_concat_required : renames.

Ltac required_steps := intros; rewrite ?Forall_app; split_and?; auto with renames.

Lemma message_required m : Forall required (ids_message m).
Proof. unfold ids_message. required_steps. Qed.
Lemma call_required c : Forall required (ids_call c).
Proof. unfold ids_call. required_steps. Qed.
Lemma result_required r : Forall required (ids_result r).
Proof. unfold ids_result. required_steps. Qed.
#[export] Hint Resolve message_required call_required result_required : renames.
Lemma input_required i : Forall required (ids_input i).
Proof. unfold ids_input. required_steps. Qed.
#[export] Hint Resolve input_required : renames.
Lemma history_required h : Forall required (history_ids h).
Proof.
  apply ids_concat_required. intros f. unfold fact_ids. rewrite !Forall_app. split_and!; apply ids_present_required; intros a;
    unfold ids_run, ids_attempt, ids_contribution, ids_budget, ids_limit; required_steps.
Qed.

(** * What a store promises the manager, and what a fork copies

    The laws of a Session store that the manager's theorems rest on, their
    proof for the in-memory store, and the facts about the copied prefix. *)

Section Laws.
Context {J : JsonOps} {F : Fingerprints}.

(** What [store_Create] did: it admitted the aggregate under a fresh identity,
    with the supplied history in store-owned envelopes. *)
Record created_as (before after : gmap string Snapshot) (n : NewSession) (s : Snapshot) : Prop := {
  cr_fresh : before !! sess_ID (ns_Session n) = None;
  cr_after : after = <[sess_ID (ns_Session n) := s]> before;
  cr_valid : validateNewSession n = Ok tt;
  cr_snapshot : exists clock history,
    prepareInitialHistory clock (sess_ID (ns_Session n)) (ns_History n) = Ok history /\ s = initial_snapshot n history;
}.

Class SessionStoreLaws (E S : Type) `{!SessionStore E S} : Type := {
  contents : S -> gmap string Snapshot;
  create_law : forall e st n st' out, store_Create e st n = (st', out) ->
    match out with Ok s => created_as (contents st) (contents st') n s | _ => contents st' = contents st end;
  load_law : forall e st id st' out, store_Load e st id = (st', out) ->
    contents st' = contents st /\ forall s, out = Ok s -> contents st !! id = Some s;
  recover_law : forall e st id st' out, store_Recover e st id = (st', out) ->
    delete id (contents st') = delete id (contents st) /\ forall s, out = Ok s -> contents st' !! id = Some s;
}.

(** ** The in-memory store *)
Record memory_env := MkMemoryEnv { me_readings : Readings; me_fresh : Identity; me_context : context }.

Context {R : RequestFingerprint} {K : CursorCodec}.

#[export] Instance memory_SessionStore : SessionStore memory_env MemoryStore := {
  store_Create e st n := Create (me_readings e) (me_fresh e) (me_context e) st n;
  store_Load e st id := (st, Load (me_context e) st id);
  store_Recover e st id := Recover (me_readings e) (me_fresh e) (me_context e) st id;
}.

Definition memory_contents (st : MemoryStore) : gmap string Snapshot := ag_snapshot <$> st_sessions st.

Lemma memory_create r fresh ctx st n st' out : Create r fresh ctx st n = (st', out) ->
  match out with Ok s => created_as (memory_contents st) (memory_contents st') n s | _ => memory_contents st' = memory_contents st end.
Proof.
  unfold Create. destruct (contextErr ctx "session.create" ;; _) as [history|e|msg] eqn:E; [|by intros [= <- <-]..].
  apply bind_Ok in E as (u1&_&E). apply bind_Ok in E as ([]&Hv&Hh).
  destruct (st_sessions st !! sess_ID (ns_Session n)) as [a|] eqn:Ea; simpl; [by intros [= <- <-]|].
  destruct (recordCreate fresh (at_update r) (st_list st) (sess_ID (ns_Session n))) as [index upd]. intros [= <- <-]. unfold memory_contents. split; simpl.
  - by rewrite lookup_fmap, Ea.
  - by rewrite fmap_insert.
  - done.
  - by exists (at_fact r), history.
Qed.

Lemma delete_put id (m : gmap string Snapshot) s : delete id (<[id := s]> m) = delete id m.
Proof. by rewrite delete_insert_eq. Qed.

Lemma memory_recover r fresh ctx st id st' out : Recover r fresh ctx st id = (st', out) ->
  delete id (memory_contents st') = delete id (memory_contents st) /\ forall s, out = Ok s -> memory_contents st' !! id = Some s.
Proof.
  unfold Recover, memory_contents. destruct (contextErr ctx "session.recover" ;; _) as [a|e|msg]; [|by intros [= <- <-]..].
  destruct (recoverAggregate r (ag_snapshot a)) as [s [[]|e|msg]]; [destruct (nextUpdatedAt fresh (at_update r) (st_list st) (ag_updatedAt a)) as [index upd]|..];
    intros [= <- <-]; simpl; rewrite fmap_insert, delete_put; (split; [done|]); intros s' Hs; simplify_eq; by rewrite lookup_insert_eq.
Qed.

Lemma memory_load ctx st id st' out : (st, Load ctx st id) = (st', out) ->
  memory_contents st' = memory_contents st /\ forall s, out = Ok s -> memory_contents st !! id = Some s.
Proof.
  intros H. apply pair_equal_spec in H as [<- <-]. split; [done|]. intros s H. unfold Load, find_aggregate in H.
  apply bind_Ok in H as (u&_&H). apply bind_Ok in H as (v&_&H). unfold memory_contents. rewrite lookup_fmap.
  destruct (st_sessions st !! id); [|done]. by injection H as <-.
Qed.

#[export] Program Instance memory_laws : SessionStoreLaws memory_env MemoryStore := {| contents := memory_contents |}.
Next Obligation. intros e st n st' out H. unfold store_Create, memory_SessionStore in H. exact (memory_create _ _ _ _ _ _ _ H). Qed.
Next Obligation. intros e st id st' out H. unfold store_Load, memory_SessionStore in H. exact (memory_load _ _ _ _ _ H). Qed.
Next Obligation. intros e st id st' out H. unfold store_Recover, memory_SessionStore in H. exact (memory_recover _ _ _ _ _ _ _ H). Qed.

(** ** Copied histories *)

(** The envelopes replace the store-owned fields and keep the payload. *)
Lemma prepareInitialHistory_copies clock sid source h :
  prepareInitialHistory clock sid source = Ok h -> stripped <$> h = stripped <$> source /\ Forall (fun f => hf_SessionID f = sid) h.
Proof.
  intros H. apply (foldM_invariant _ (fun done t => stripped <$> t = stripped <$> done /\ Forall (fun f => hf_SessionID f = sid) t)) in H; [done| |done].
  intros pre f t t' [IH IHs] Hs. apply map_err_Ok, appendHistoryFact_Ok in Hs as (->&_&_). rewrite !fmap_app, IH. split; [done|].
  apply Forall_app. split; [done|]. by apply Forall_singleton.
Qed.

(** ** Pairing *)
Lemma omap_snoc_fmap {A} (g : A -> option string) l a : omap g (l ++ [a]) = omap g l ++ from_option (fun x => [x]) [] (g a).
Proof. rewrite omap_app. by destruct (g a) eqn:E; cbn; rewrite E. Qed.

Lemma collect_protocol_spec h :
  let p := foldl collect_protocol (Protocol ∅ ∅ ∅ ∅) h in
  (forall id, id ∈ pr_calls p <-> id ∈ call_ids h) /\ (forall id, id ∈ pr_results p <-> id ∈ result_ids h) /\
  (forall id, id ∈ pr_attempts p <-> id ∈ attempt_ids true h) /\ (forall id, id ∈ pr_terminals p <-> id ∈ attempt_ids false h).
Proof.
  induction h as [|f h IH] using rev_ind; [cbn; set_solver|].
  rewrite foldl_app. cbn [foldl]. destruct IH as (Hc&Hr&Ha&Ht). set (p := foldl _ _ h) in *.
  unfold call_ids, result_ids, attempt_ids in *. rewrite !omap_snoc_fmap. unfold collect_protocol, is_attempt_start.
  destruct (hf_ToolCall f), (hf_ToolResult f), (hf_ModelAttempt f) as [a|]; cbn -[bool_decide];
    try (destruct (bool_decide (ma_Kind a = AttemptStarted)); cbn); set_solver.
Qed.

Lemma validateForkProtocol_Ok h :
  validateForkProtocol h = Ok tt -> call_ids h ⊆ result_ids h /\ attempt_ids true h ⊆ attempt_ids false h.
Proof.
  unfold validateForkProtocol. intros H. inv_ok. bool_simpl. destruct (collect_protocol_spec h) as (Hc&Hr&Ha&Ht).
  split; intros id Hid; [apply Hr, H, Hc, Hid|apply Ht, H0, Ha, Hid].
Qed.

(** ** The selected prefix *)
(** The first [n] facts of [h] end at a place where a fork may cut. *)
Inductive cut_at (h : list HistoryFact) (active : string) (mode : ForkMode) (requested : Z) : nat -> Prop :=
  | cut_nothing : mode = ForkHistoryPrefix -> requested = 0%Z -> cut_at h active mode requested 0
  | cut_empty : mode = ForkFullHistory -> h = [] -> cut_at h active mode requested 0
  | cut_all k f latest : mode = ForkFullHistory -> last h = Some latest -> h !! k = Some f -> hf_Sequence f = hf_Sequence latest ->
      cut_at h active mode requested (S k)
  | cut_step k f : mode = ForkHistoryPrefix -> h !! k = Some f -> hf_Sequence f = requested ->
      completedForkBoundary h k active = true -> cut_at h active mode requested (S k).

Lemma selectForkHistory_Ok h active mode requested cutoff selected :
  selectForkHistory h active mode requested = Ok (cutoff, selected) -> ForkMode_Valid mode = true ->
  exists n, n <= length h /\ selected = take n h /\ cut_at h active mode requested n /\
    call_ids selected ⊆ result_ids selected /\ attempt_ids true selected ⊆ attempt_ids false selected.
Proof.
  unfold selectForkHistory. intros H Hm. destruct (bool_decide (mode = ForkHistoryPrefix) && Z.eqb requested 0) eqn:E0.
  { injection H as <- <-. bool_simpl. exists 0. split_and!; [lia|done|by apply cut_nothing|set_solver..]. }
  destruct (last h) as [latest|] eqn:El.
  2:{ destruct (bool_decide (mode = ForkFullHistory)) eqn:Ef; [|done]. injection H as <- <-. bool_simpl. apply last_None in El as ->.
      exists 0. split_and!; [lia|done|by apply cut_empty|set_solver..]. }
  unfold fact_index in H. set (cut := if bool_decide (mode = ForkFullHistory) then _ else _) in H. cbv zeta in H.
  destruct (list_find _ h) as [[k f]|] eqn:Ek; simpl in H; [|done]. apply list_find_Some in Ek as (Hk&Hseq&_). inv_ok.
  match goal with Hp : validateForkProtocol _ = _ |- _ => apply validateForkProtocol_Ok in Hp as [Hcalls Hattempts] end.
  pose proof (lookup_lt_Some _ _ _ Hk). exists (S k). split_and!; [lia|done| |done..].
  unfold cut in Hseq. unfold ForkMode_Valid in Hm. destruct (bool_decide (mode = ForkFullHistory)) eqn:Ef; bool_simpl; [by eapply cut_all|].
  simpl in Hm. bool_simpl. subst mode. eapply cut_step; [done..|].
  match goal with Hb : _ && _ = false |- _ => simpl in Hb; by apply negb_false_iff in Hb end.
Qed.

(** On a history numbered from one, a full fork copies everything and a
    prefix is as long as its cutoff says. *)
Lemma cut_at_numbered h active mode requested n : numbered h -> cut_at h active mode requested n ->
  (mode = ForkFullHistory -> n = length h) /\ (mode = ForkHistoryPrefix -> Z.of_nat n = requested).
Proof.
  intros Hn Hc. destruct Hc as [Hm Hr|Hm He|k f latest Hm Hl Hk Hs|k f Hm Hk Hs _]; split; intros; simplify_eq; try done.
  - rewrite last_lookup in Hl. rewrite (Hn _ _ Hk), (Hn _ _ Hl) in Hs. apply lookup_lt_Some in Hl. lia.
  - rewrite (Hn _ _ Hk). lia.
Qed.
End Laws.
