(* ===== verification/SessionManagerProperties.v ===== *)
(** * What the Session manager promises

    A fork copies a settled prefix of the parent under fresh, injectively
    renamed identities and touches nothing else; a failing call of the manager
    leaves the stored Sessions as they were. *)

From S2P Require Import Prelude GoStrings AgentTypes ModelContracts SessionTypes ExtensionJournal.
From S2P Require Import SessionValidate SessionHistory SessionApply SessionRecover SessionCreate SessionStore SessionManager TextFacts SessionHistoryFacts.
From S2P Require Import HistoryDiscipline PageFacts SessionManagerFacts SessionStoreFacts.

(** ** Identities of renamed histories *)
Lemma omap_fmap_ext {A B} (g : A -> option string) (g' : B -> option string) (rho : string -> string) (c : A -> B) (l : list A) :
  (forall a, g' (c a) = rho <$> g a) -> omap g' (c <$> l) = rho <$> omap g l.
Proof. intros H. induction l as [|a l IH]; [done|]. cbn. rewrite (H a). destruct (g a); cbn; [f_equal|]; apply IH. Qed.

Lemma ids_stripped h : call_ids (stripped <$> h) = call_ids h /\ result_ids (stripped <$> h) = result_ids h /\
  forall b, attempt_ids b (stripped <$> h) = attempt_ids b h.
Proof.
  split_and!; [..|intros b]; (etrans; [eapply (omap_fmap_ext _ _ id)|by rewrite list_fmap_id]); intros a; cbn;
    [by destruct (hf_ToolCall a)|by destruct (hf_ToolResult a)|destruct (hf_ModelAttempt a); [|done]; cbn; by destruct (Bool.eqb _ _)].
Qed.

Lemma ids_renamed rho sid h :
  call_ids (renamed_fact rho sid <$> h) = rho KCall <$> call_ids h /\ result_ids (renamed_fact rho sid <$> h) = rho KCall <$> result_ids h /\
  forall b, attempt_ids b (renamed_fact rho sid <$> h) = rho KAttempt <$> attempt_ids b h.
Proof.
  split_and!; [..|intros b]; apply omap_fmap_ext; intros a; cbn;
    [by destruct (hf_ToolCall a)|by destruct (hf_ToolResult a)|].
  destruct (hf_ModelAttempt a) as [at_|]; [|done]. cbn. unfold is_attempt_start. cbn. by destruct (Bool.eqb _ _).
Qed.

Lemma subset_fmap (rho : string -> string) (a b : list string) : a ⊆ b -> rho <$> a ⊆ rho <$> b.
Proof. intros H x (y&->&Hy)%list_elem_of_fmap. apply list_elem_of_fmap. eauto. Qed.

Lemma history_ids_take n h : length (history_ids (take n h)) <= length (history_ids h).
Proof.
  unfold history_ids. rewrite <-(take_drop n h) at 2. rewrite map_app, concat_app, length_app. lia.
Qed.

(** Nobody waits: every call is answered, every attempt has ended. *)
Definition settled (h : list HistoryFact) : Prop := call_ids h ⊆ result_ids h /\ attempt_ids true h ⊆ attempt_ids false h.

Lemma settled_copy rho sid h h' : settled h -> stripped <$> h' = stripped <$> (renamed_fact rho sid <$> h) -> settled h'.
Proof.
  intros [Hc Ha] Heq. destruct (ids_stripped h') as (S1&S2&S3). destruct (ids_stripped (renamed_fact rho sid <$> h)) as (T1&T2&T3).
  destruct (ids_renamed rho sid h) as (R1&R2&R3). unfold settled. rewrite <-S1, <-S2, <-!S3, Heq, T1, T2, !T3, R1, R2, !R3.
  split; by apply subset_fmap.
Qed.

Section Fork.
Context {J : JsonOps} {F : Fingerprints} {E S : Type} `{!SessionStore E S, !SessionStoreLaws E S}.

(** The names one call issued for the identities that occur in [h]. *)
Record fresh_names (m m' : Manager) (rho : id_kind -> string -> string) (h : list HistoryFact) : Prop := {
  fn_injective : forall k a b, (k, a) ∈ history_ids h -> (k, b) ∈ history_ids h -> rho k a = rho k b -> a = b;
  fn_issued : forall k a, (k, a) ∈ history_ids h -> exists i,
    (mg_sequence m < i <= mg_sequence m')%Z /\ rho k a = identity (kind_prefix k) (mg_idPrefix m) i;
}.

(** [child] is the fork of [parent] that [request] asks for. *)
Record fork_of (m m' : Manager) (request : ForkRequest) (parent child : Snapshot) (id : string) : Prop := {
  fo_identity : id = identity "session" (mg_idPrefix m) (mg_sequence m + 1);
  fo_session : sn_Session child = MkSession id (frq_AgentID request) (frq_WorkspaceID request) (sess_ID (sn_Session parent)) (sn_Revision parent) 1;
  fo_config : sn_ModelConfig child = default (sn_ModelConfig parent) (frq_ModelConfig request);
  fo_idle : sn_RunState child = RunIdle /\ sn_ActiveRunID child = "" /\ sn_Queue child = [] /\ sn_RunJournal child = [] /\
    sn_ExtensionJournal child = [] /\ sn_Events child = [] /\ sn_RetainedContexts child = [] /\ sn_Context child = no_context;
  fo_provenance : sn_Fork child = Some (MkForkProvenance (sess_ID (sn_Session parent)) (Z.of_nat (length (sn_History child))));
  fo_history : exists n rho,
    cut_at (sn_History parent) (sn_ActiveRunID parent) (frq_Mode request) (frq_CutoffSequence request) n /\ n <= length (sn_History parent) /\
    fresh_names m m' rho (take n (sn_History parent)) /\
    stripped <$> sn_History child = stripped <$> (renamed_fact rho id <$> take n (sn_History parent));
  fo_settled : settled (sn_History child);
  fo_not_running : frq_Mode request = ForkFullHistory -> sn_RunState parent ≠ RunRunning;
}.

Lemma attempt_Ok {A B} (m : Manager) (st : S) (r : result A) (k : A -> outcome (S := S) B) m' st' b :
  attempt_ m st r k = (m', st', Ok b) -> exists a, r = Ok a /\ k a = (m', st', Ok b).
Proof. destruct r; simpl; [eauto|done..]. Qed.

Lemma create_session_Ok e (m : Manager) (st : S) n m' st' s :
  create_session e m st n = (m', st', Ok s) -> m' = m /\ exists snapshot,
    created_as (contents st) (contents st') n snapshot /\ s = newMemorySession snapshot.
Proof.
  unfold create_session. destruct (store_Create e st n) as [st1 out] eqn:Ec. intros H. injection H as <- <- Ho.
  apply create_law in Ec. destruct out as [snapshot| |]; [|done..]. injection Ho as <-. eauto.
Qed.

Lemma chooseConfig_Ok explicit fallback config : chooseConfig explicit fallback = Ok config -> config = default fallback explicit.
Proof. unfold chooseConfig. destruct explicit; intros H; inv_ok; done. Qed.

(** What [rewriteForFork] computed, in terms of one pure renaming. *)
Lemma rewrite_history_spec m sid h m' r history :
  mapM (rewrite_fact sid) h (MkRenamer m ∅) = (r, history) -> rn_manager r = m' ->
  (0 <= mg_sequence m)%Z -> (mg_sequence m + Z.of_nat (length (history_ids h)) < 2 ^ 64)%Z ->
  exists rho, history = renamed_fact rho sid <$> h /\ fresh_names m m' rho h /\ (mg_sequence m <= mg_sequence m')%Z.
Proof.
  intros H <- Hpos Hroom.
  destruct (renames_history (mg_sequence m) m sid h (MkRenamer m ∅) r history H) as (Hi&_&Hle&Hk&Hh); [|done|].
  { split; simpl; [done|done|lia| |]; intros *; by rewrite ?lookup_empty. }
  exists (table (rn_names r)). split; [by apply Hh|].
  assert (Ht : forall k a, (k, a) ∈ history_ids h -> rn_names r !! (k, a) = Some (table (rn_names r) k a)).
  { intros k a Ha. destruct (Hk _ Ha) as [new Hnew]. unfold table.
    pose proof (history_required h) as Hreq. rewrite Forall_forall in Hreq. rewrite (Hreq _ Ha). by rewrite Hnew. }
  destruct Hi as [_ _ Hb Hn Hinj]. split; [|cbn in *; lia]. split.
  - intros k a b Ha Hb' Heq. pose proof (Ht _ _ Ha) as H1. pose proof (Ht _ _ Hb') as H2. rewrite <-Heq in H2.
    specialize (Hinj _ _ _ H1 H2). by injection Hinj.
  - intros k a Ha. destruct (Hn _ _ _ (Ht _ _ Ha)) as (i&Hr&He). exists i. done.
Qed.

Lemma initial_history n clock history s :
  prepareInitialHistory clock (sess_ID (ns_Session n)) (ns_History n) = Ok history -> s = initial_snapshot n history ->
  stripped <$> sn_History s = stripped <$> ns_History n /\ length (sn_History s) = length (ns_History n).
Proof.
  intros H ->. apply prepareInitialHistory_copies in H as [H _]. split; [done|].
  by rewrite <-(length_fmap stripped), <-(length_fmap stripped (ns_History n)), <-H.
Qed.

Lemma validateNewSession_fork n fork : validateNewSession n = Ok tt -> ns_Fork n = Some fork ->
  fork_CutoffSequence fork = Z.of_nat (length (ns_History n)).
Proof.
  unfold validateNewSession, validate_identity. intros H Hf. rewrite Hf in H. apply bind_Ok in H as ([]&H&_). inv_ok. bool_simpl. done.
Qed.

(** [derived_session] from the manager's side: two steps of allocation. *)
Lemma derived_session_spec source request config cutoff history m m' n :
  derived_session source request config cutoff history m = (m', n) ->
  (0 <= mg_sequence m)%Z -> (mg_sequence m + 1 + Z.of_nat (length (history_ids history)) < 2 ^ 64)%Z ->
  let id := identity "session" (mg_idPrefix m) (mg_sequence m + 1) in
  exists rho, fresh_names m m' rho history /\
    n = MkNewSession (MkSession id (frq_AgentID request) (frq_WorkspaceID request) (sess_ID (sn_Session source)) (sn_Revision source) 0)
          (renamed_fact rho id <$> history) no_context [] [] config RunIdle ""
          (Some (MkForkProvenance (sess_ID (sn_Session source)) cutoff)).
Proof.
  intros H Hpos Hroom id. unfold derived_session, rewriteForFork, nextID in H.
  assert (Hs : add1 (mg_sequence m) = (mg_sequence m + 1)%Z) by (apply u64_small; lia). rewrite Hs in H. fold id in H. cbn in H.
  destruct ((mapM (rewrite_fact id) history : renaming (list HistoryFact)) _) as [r h] eqn:Er in H. injection H as <- <-.
  destruct (rewrite_history_spec _ _ _ _ _ _ Er eq_refl) as (rho&->&[Hi Hn]&Hle); [cbn; lia..|]. cbn in *.
  exists rho. split; [|done]. split; [done|]. intros k a Ha. destruct (Hn k a Ha) as (i&?&?). exists i. split; [lia|done].
Qed.
Lemma Fork_inv e m st request m' st' s : Manager_Fork e m st request = (m', st', Ok s) ->
  exists st1 parent cutoff history config n,
    validate_fork_request request = Ok tt /\ contents st1 = contents st /\ contents st !! frq_SourceSessionID request = Some parent /\
    bool_decide (frq_Mode request = ForkFullHistory) && bool_decide (sn_RunState parent = RunRunning) = false /\
    selectForkHistory (sn_History parent) (sn_ActiveRunID parent) (frq_Mode request) (frq_CutoffSequence request) = Ok (cutoff, history) /\
    config = default (sn_ModelConfig parent) (frq_ModelConfig request) /\
    derived_session parent request config cutoff history m = (m', n) /\
    exists child, created_as (contents st1) (contents st') n child /\ s = newMemorySession child.
Proof.
  unfold Manager_Fork. intros H. apply attempt_Ok in H as ([]&Hv&H).
  destruct (store_Load e st (frq_SourceSessionID request)) as [st1 loaded] eqn:El. apply load_law in El as [Hst Hl].
  apply attempt_Ok in H as (parent&->&H). apply attempt_Ok in H as ([]&Hrun&H). apply reject_if_Ok in Hrun.
  apply attempt_Ok in H as ([cutoff history]&Hsel&H). apply attempt_Ok in H as (config&Hc&H). apply chooseConfig_Ok in Hc.
  destruct (derived_session parent request config cutoff history m) as [m1 n] eqn:Ed.
  apply create_session_Ok in H as (->&child&Hcr&->). specialize (Hl _ eq_refl).
  exists st1, parent, cutoff, history, config, n. split_and!; try done. by exists child.
Qed.

(** C31. A fork that succeeds adds one Session under a fresh identity and
    changes no stored Session, the parent included.  The new history is a
    prefix of the parent's that ends where a fork may cut, copied fact by fact
    under an injective renaming of message, call, run, step and attempt
    identities to names issued by this call; every copied tool call has its
    result and every copied attempt its end; the child is idle, owes no queue
    item, journal entry or extension, and records where it came from.  On a
    history numbered from one, a full fork copies all of it. *)
Theorem Fork_derives e m st request m' st' s :
  Manager_Fork e m st request = (m', st', Ok s) ->
  (0 <= mg_sequence m)%Z ->
  (forall parent, contents st !! frq_SourceSessionID request = Some parent ->
     (mg_sequence m + 1 + Z.of_nat (length (history_ids (sn_History parent))) < 2 ^ 64)%Z) ->
  exists parent child, contents st !! frq_SourceSessionID request = Some parent /\ contents st !! ms_id s = None /\
    contents st' = <[ms_id s := child]> (contents st) /\ fork_of m m' request parent child (ms_id s) /\
    (numbered (sn_History parent) -> frq_Mode request = ForkFullHistory -> length (sn_History child) = length (sn_History parent)).
Proof.
  intros H Hpos Hroom. apply Fork_inv in H as (st1&parent&cutoff&history&config&n&Hv&Hst&Hp&Hrun&Hsel&Hcfg&Hd&child&Hcr&->).
  specialize (Hroom _ Hp). unfold validate_fork_request in Hv. inv_ok. bool_simpl.
  apply selectForkHistory_Ok in Hsel as (k&Hk&Hhist&Hcut&Hcalls&Hatt); [|done].
  assert (Hlen : length (history_ids history) <= length (history_ids (sn_History parent))) by (subst history; apply history_ids_take).
  destruct (derived_session_spec _ _ _ _ _ _ _ _ Hd Hpos) as (rho&Hnames&Hn); [lia|]. cbv zeta in Hn.
  set (id := identity "session" (mg_idPrefix m) (mg_sequence m + 1)) in *.
  destruct Hcr as [Hfresh Hafter Hvalid (clock&h&Hh&Hchild)]. rewrite Hst in *.
  destruct (initial_history _ _ _ _ Hh Hchild) as [Hcopy Hlength].
  pose proof (validateNewSession_fork n (MkForkProvenance (sess_ID (sn_Session parent)) cutoff) Hvalid) as Hcutoff.
  rewrite Hn in Hcutoff, Hcopy, Hlength, Hfresh, Hafter. cbn in Hcutoff, Hcopy, Hlength, Hfresh, Hafter. specialize (Hcutoff eq_refl).
  rewrite length_fmap in *. assert (Hid : ms_id (newMemorySession child) = id) by (by rewrite Hchild, Hn). rewrite Hid.
  exists parent, child. split; [done|]. split; [done|]. split; [done|]. split.
  - split; [done|by rewrite Hchild, Hn|by rewrite Hchild, Hn|by rewrite Hchild, Hn|..].
    + rewrite Hlength, <-Hcutoff. by rewrite Hchild, Hn.
    + exists k, rho. subst history. done.
    + eapply settled_copy; [|exact Hcopy]. by split.
    + intros Hm Hr. by rewrite Hm, Hr in Hrun.
  - intros Hnum Hm. destruct (cut_at_numbered _ _ _ _ _ Hnum Hcut) as [Hfull _]. rewrite Hlength, Hhist, length_take, (Hfull Hm). lia.
Qed.
(** ** Failures *)

(** A call that returned no value. *)
Definition failed {A} (o : outcome (S := S) A) (m' : Manager) (st' : S) : Prop := exists out, o = (m', st', out) /\ is_ok out = false.

Lemma failed_attempt {A B} m st (r : result A) (k : A -> outcome (S := S) B) m' st' :
  failed (attempt_ m st r k) m' st' ->
  is_ok r = false /\ st' = st /\ m' = m \/ exists a, r = Ok a /\ failed (k a) m' st'.
Proof.
  intros (out&H&Hf). destruct r as [a|e|msg]; simpl in H; [right; exists a; by split; [|exists out]|left..]; by injection H as <- <- _.
Qed.

Lemma failed_create e m st n m' st' : failed (create_session e m st n) m' st' -> contents st' = contents st.
Proof.
  intros (out&H&Hf). unfold create_session in H. destruct (store_Create e st n) as [st1 out1] eqn:Ec. injection H as <- <- <-.
  apply create_law in Ec. by destruct out1.
Qed.

Ltac failed_step :=
  repeat match goal with x : unit |- _ => destruct x | x : (_ * _)%type |- _ => destruct x end;
  cbv beta iota in *;
  match goal with
  | H : failed (attempt_ _ _ _ _) _ _ |- _ => apply failed_attempt in H as [(_ & -> & _)|(? & ? & H)]; [try done|]
  | H : failed (create_session _ _ _ _) _ _ |- _ => by apply failed_create in H
  end.

Lemma summary_source_contents e m st request st' out : summary_source e m st request = (st', out) -> contents st' = contents st.
Proof.
  unfold summary_source. destruct (empty _); [by intros [= <- _]|]. destruct (negb _); [by intros [= <- _]|].
  destruct (store_Load e st _) as [st1 loaded] eqn:El. apply load_law in El as [El _]. by intros [= <- _].
Qed.

Lemma Create_failed e m st request m' st' : failed (Manager_Create e m st request) m' st' -> contents st' = contents st.
Proof. unfold Manager_Create. intros H. do 2 failed_step. destruct (nextID m "session"). failed_step. Qed.

Lemma Fork_failed e m st request m' st' : failed (Manager_Fork e m st request) m' st' -> contents st' = contents st.
Proof.
  unfold Manager_Fork. intros H. failed_step. destruct (store_Load e st _) as [st1 loaded] eqn:El. apply load_law in El as [<- _].
  do 3 failed_step. failed_step. destruct (derived_session _ _ _ _ _ _). failed_step.
Qed.

Lemma Summary_failed e m st request m' st' : failed (Manager_StartFromSummary e m st request) m' st' -> contents st' = contents st.
Proof.
  unfold Manager_StartFromSummary. intros H. do 2 failed_step. destruct (summary_source e m st request) as [st1 source] eqn:Es.
  apply summary_source_contents in Es as <-. failed_step. failed_step.
  destruct (nextID m "session") as [m1 id]. destruct (summary_history m1 id _) as [m2 history]. do 2 failed_step.
Qed.

(** [selectForkHistory] never panics and refuses as invalid input. *)
Lemma selectForkHistory_refuses h active mode requested :
  (exists cutoff selected, selectForkHistory h active mode requested = Ok (cutoff, selected)) \/
  exists err, selectForkHistory h active mode requested = Err err /\ IsKind err ErrorInvalidInput = true.
Proof.
  unfold selectForkHistory. destruct (bool_decide _ && Z.eqb _ _); [by eauto|].
  destruct (last h) as [latest|]; [|destruct (bool_decide _); [by eauto|right; by (eexists; split)]].
  destruct (fact_index _ _) as [stop|]; [|right; by (eexists; split)]. simpl. destruct (bool_decide (mode = ForkHistoryPrefix) && _); simpl; [right; by (eexists; split)|].
  unfold validateForkProtocol, reject_if. do 2 destruct (negb _); simpl; first [by eauto|right; by (eexists; split)].
Qed.

End Fork.

(** ** A Session and its fork *)
Definition attempt1 : ModelAttemptFact :=
  MkModelAttemptFact "t1" "r1" "p1" AttemptSucceeded "provider" "model" "" no_usage "" "".
Definition history_f : list HistoryFact :=
  [fact_Run run0; fact_ModelAttempt attempt0; fact_ModelAttempt attempt1; fact_Message message0; fact_ToolCall call0;
   fact_ToolResult (MkToolResult "c1" ResultSucceeded "ok" None []); fact_Run (MkRunFact "s" "r1" RunCompleted config0 1 "" None)].
Definition new_f : NewSession := MkNewSession (MkSession "s" "a" "w" "" 0 0) history_f no_view [] [] config0 RunIdle "" None.
Definition env_f : memory_env := MkMemoryEnv plainReadings plainIdentity Live.
Definition store_f : MemoryStore := (store_Create env_f NewMemoryStore new_f).1.
Definition manager_f : Manager := MkManager config0 "abc" 0.
Definition request_f : ForkRequest := MkForkRequest "s" ForkFullHistory 0 "a2" "w2" None.
Definition forked : Manager * MemoryStore * result memorySession := Manager_Fork env_f manager_f store_f request_f.

Example Fork_derives_witness :
  Manager_Fork env_f manager_f store_f request_f = (forked.1.1, forked.1.2, Ok (MkMemorySession "session-abc-1" 1)) /\
  exists parent child, contents store_f !! "s" = Some parent /\ contents forked.1.2 = <["session-abc-1" := child]> (contents store_f) /\
    length (sn_History child) = 7.
Proof.
  assert (Hf : Manager_Fork env_f manager_f store_f request_f = (forked.1.1, forked.1.2, Ok (MkMemorySession "session-abc-1" 1))) by (vm_compute; reflexivity).
  split; [exact Hf|].
  destruct (Fork_derives env_f manager_f store_f request_f forked.1.1 forked.1.2 (MkMemorySession "session-abc-1" 1) Hf) as (parent&child&Hp&_&Hc&Hfork&Hlen).
  - by vm_compute.
  - intros parent Hp. assert (Hs : contents store_f !! "s" = Some parent) by exact Hp. vm_compute in Hs. injection Hs as <-. by vm_compute.
  - exists parent, child. split; [exact Hp|]. split; [exact Hc|].
    assert (Hs : contents store_f !! "s" = Some parent) by exact Hp. vm_compute in Hs. injection Hs as <-.
    rewrite Hlen; [reflexivity| |reflexivity]. intros i f Hi. do 7 (destruct i as [|i]; [by injection Hi as <-|]). discriminate Hi.
Defined.

