(* ===== verification/ModelStream.v ===== *)
(** * Model streams, attempts and capabilities

    Models the rest of [model/contracts.go] (attempt records, capabilities,
    completions and stream events), [model/stream_state.go],
    [model/modality.go], [model/catalog.go] and the records of
    [model/attempt_observer.go]. *)

From S2P Require Import Prelude GoStrings AgentTypes ModelContracts.

(** ** Modalities *)
Inductive Modality := ModalityText | ModalityImage | ModalityAudio | ModalityOther (code : Z).
#[export] Instance Modality_eq_dec : EqDecision Modality.
Proof. solve_decision. Defined.
Definition AllModalities : list Modality := [ModalityText; ModalityImage; ModalityAudio].
Definition Modality_Valid (m : Modality) : bool := match m with ModalityOther _ => false | _ => true end.

(** [Modality.String]; an unknown code is rendered, here by its number. *)
Definition Modality_String (m : Modality) : string + Z :=
  match m with
  | ModalityText => inl "text" | ModalityImage => inl "image" | ModalityAudio => inl "audio"
  | ModalityOther code => inr code
  end.
Definition ErrUnknownModality : error := ErrNew "unknown model modality".
Definition ParseModality (value : string) : result Modality :=
  if String.eqb value "text" then Ok ModalityText
  else if String.eqb value "image" then Ok ModalityImage
  else if String.eqb value "audio" then Ok ModalityAudio
  else Err (ErrWrap ErrUnknownModality "%w %q" [AStr value]).

Record Capabilities := MkCapabilities {
  cap_InputModalities : list Modality; cap_OutputModalities : list Modality; cap_ToolCalling : bool }.

(** The loop of [validateModalities] with the set [seen] (a list of values of
    a type with decidable equality). *)
Fixpoint modalities_distinct (direction : string) (seen modalities : list Modality) : result unit :=
  match modalities with
  | [] => Ok tt
  | m :: modalities =>
    reject_if (negb (Modality_Valid m)) (ErrWrap ErrUnknownModality "model: %s: %w %q" [AStr direction]) ;;
    reject_if (bool_decide (m ∈ seen)) (Errorf "model: duplicate %s modality %q" [AStr direction]) ;;
    modalities_distinct direction (m :: seen) modalities
  end.
Definition validateModalities (direction : string) (modalities : list Modality) : result unit :=
  reject_if (bool_decide (modalities = [])) (Errorf "model: at least one %s modality is required" [AStr direction]) ;;
  modalities_distinct direction [] modalities.
Definition Capabilities_Validate (c : Capabilities) : result unit :=
  validateModalities "input" (cap_InputModalities c) ;;
  validateModalities "output" (cap_OutputModalities c).
Definition contains_modality (modalities : list Modality) (candidate : Modality) : bool :=
  Modality_Valid candidate && existsb (fun m => bool_decide (m = candidate)) modalities.
Definition SupportsInput (c : Capabilities) (m : Modality) : bool := contains_modality (cap_InputModalities c) m.
Definition SupportsOutput (c : Capabilities) (m : Modality) : bool := contains_modality (cap_OutputModalities c) m.

(** ** Capabilities of an executor, and the static catalog *)
Record ExecutionCapabilities := MkExecutionCapabilities {
  ec_Media : Capabilities; ec_Reasoning : list Reasoning; ec_ContextWindowTokens : Z; ec_MaxOutputTokens : Z }.

Fixpoint reasoning_distinct (seen reasonings : list Reasoning) : result unit :=
  match reasonings with
  | [] => Ok tt
  | r :: reasonings =>
    reject_if (negb (Reasoning_Valid r) || bool_decide (r ∈ seen)) (ErrNew "model: invalid or duplicate reasoning capability") ;;
    reasoning_distinct (r :: seen) reasonings
  end.
Definition ExecutionCapabilities_Validate (c : ExecutionCapabilities) : result unit :=
  reject_if (Z.leb (ec_ContextWindowTokens c) 0 || Z.ltb (ec_MaxOutputTokens c) 0 ||
             Z.ltb (ec_ContextWindowTokens c) (ec_MaxOutputTokens c)) (ErrNew "model: invalid token capabilities") ;;
  Capabilities_Validate (ec_Media c) ;;
  reject_if (bool_decide (ec_Reasoning c = [])) (ErrNew "model: reasoning capabilities are required") ;;
  reasoning_distinct [] (ec_Reasoning c).

Record Descriptor := MkDescriptor { de_ProviderKey : string; de_ModelID : string; de_Title : string; de_Capabilities : ExecutionCapabilities }.
Definition Descriptor_Validate (d : Descriptor) : result unit :=
  reject_if (empty (de_ProviderKey d) || empty (de_ModelID d) || empty (de_Title d)) (ErrNew "model: descriptor identity and title are required") ;;
  ExecutionCapabilities_Validate (de_Capabilities d).

(** [NewStaticCatalog]: a catalog is its descriptors. *)
Definition catalog_key (d : Descriptor) : string := de_ProviderKey d +:+ bytes [0] +:+ de_ModelID d.
Definition add_descriptor (seen : gset string) (d : Descriptor) : result (gset string) :=
  Descriptor_Validate d ;;
  reject_if (bool_decide (catalog_key d ∈ seen)) (ErrNew "model: duplicate catalog model") ;;
  Ok ({[ catalog_key d ]} ∪ seen).
Definition NewStaticCatalog (descriptors : list Descriptor) : result (list Descriptor) :=
  foldM add_descriptor descriptors ∅ ;; Ok descriptors.

(** ** Physical attempts *)
Inductive AttemptOutcome := OutcomeSucceeded | OutcomeFailed | OutcomeCanceled | OutcomeOther (s : string).
#[export] Instance AttemptOutcome_eq_dec : EqDecision AttemptOutcome.
Proof. solve_decision. Defined.
Definition AttemptOutcome_Valid (o : AttemptOutcome) : bool := match o with OutcomeOther _ => false | _ => true end.

Record AttemptStart := MkAttemptStart { ats_AttemptID : string; ats_ProviderKey : string; ats_ModelID : string }.
Definition AttemptStart_Validate (a : AttemptStart) : result unit :=
  reject_if (negb (ID_Valid (ats_AttemptID a)) || empty (ats_ModelID a)) (ErrNew "model: invalid attempt start").

Record AttemptFinish := MkAttemptFinish {
  atf_AttemptID : string; atf_Outcome : AttemptOutcome; atf_ProviderRequestID : string; atf_Usage : TokenUsage;
  atf_ErrorCode : string; atf_ErrorMessage : string }.
Definition AttemptFinish_Validate (a : AttemptFinish) : result unit :=
  reject_if (negb (ID_Valid (atf_AttemptID a)) || negb (AttemptOutcome_Valid (atf_Outcome a))) (ErrNew "model: invalid attempt finish") ;;
  TokenUsage_Validate (atf_Usage a) ;;
  ValidateErrorMessage (atf_ErrorMessage a) ;;
  reject_if (bool_decide (atf_Outcome a = OutcomeSucceeded) && (nonempty (atf_ErrorCode a) || nonempty (atf_ErrorMessage a)))
    (ErrNew "model: succeeded attempt cannot contain an error") ;;
  reject_if (negb (bool_decide (atf_Outcome a = OutcomeSucceeded)) && empty (atf_ErrorCode a))
    (ErrNew "model: unsuccessful attempt requires a safe error code").

Record AttemptIdentity := MkAttemptIdentity {
  ai_SessionID : string; ai_RunID : string; ai_StepID : string; ai_AttemptID : string; ai_ConfigRevision : Z; ai_Config : Config }.
Definition AttemptIdentity_Validate (i : AttemptIdentity) : result unit :=
  reject_if (negb (ID_Valid (ai_SessionID i)) || negb (ID_Valid (ai_RunID i)) || negb (ID_Valid (ai_StepID i)) ||
             negb (ID_Valid (ai_AttemptID i)) || Z.eqb (ai_ConfigRevision i) 0 || negb (is_ok (Config_Validate (ai_Config i))))
    (ErrNew "model: invalid attempt identity").
Record AttemptFinished := MkAttemptFinished {
  afd_Identity : AttemptIdentity; afd_Outcome : AttemptOutcome; afd_ProviderRequestID : string; afd_Usage : TokenUsage; afd_ErrorCode : string }.
Definition AttemptFinished_Validate (a : AttemptFinished) : result unit :=
  AttemptIdentity_Validate (afd_Identity a) ;;
  AttemptFinish_Validate
    (MkAttemptFinish (ai_AttemptID (afd_Identity a)) (afd_Outcome a) (afd_ProviderRequestID a) (afd_Usage a) (afd_ErrorCode a) "").

(** ** Stream events *)
Record ToolCallRequest := MkToolCallRequest { tcr_CorrelationID : string; tcr_Name : string; tcr_Arguments : string }.
#[export] Instance ToolCallRequest_eq_dec : EqDecision ToolCallRequest.
Proof. solve_decision. Defined.
Record Completion := MkCompletion { cmp_Parts : list MessagePart; cmp_ToolCalls : list ToolCallRequest; cmp_Continuation : string }.
#[export] Instance Completion_eq_dec : EqDecision Completion.
Proof. solve_decision. Defined.

Inductive ModelEventKind := EventDelta | EventReset | EventComplete | EventFailed | ModelEventOther (s : string).
#[export] Instance ModelEventKind_eq_dec : EqDecision ModelEventKind.
Proof. solve_decision. Defined.
Record ModelEvent := MkModelEvent {
  me_Kind : ModelEventKind; me_AttemptID : string; me_Text : string; me_Output : option Completion; me_Err : option error }.

(** [ErrStreamClosed] *)
Definition StreamClosed : string := "model: stream is closed".

(** ** The state of one logical stream *)
Record StreamState := MkStreamState { ss_attemptID : string; ss_visible : bool; ss_terminal : bool }.
Definition new_stream : StreamState := MkStreamState "" false false.

Definition CodeModelStreamInvalid := "model_stream_invalid".
Definition invalidStream (message : string) (cause : option error) : error :=
  NewCodedError ErrorInternal CodeModelStreamInvalid "model.stream" [(message, [])] cause.

Section ModelStream.
Context {J : JsonOps}.

Definition ToolCallRequest_Valid (c : ToolCallRequest) : bool := nonempty (tcr_Name c) && jsonvalue_Valid (tcr_Arguments c).

Definition Completion_Valid (c : Completion) : bool :=
  if bool_decide (cmp_Parts c = []) && bool_decide (cmp_ToolCalls c = []) then false
  else forallb MessagePart_Valid (cmp_Parts c) && forallb ToolCallRequest_Valid (cmp_ToolCalls c) &&
       negb (nonempty (cmp_Continuation c) && negb (json_Valid (cmp_Continuation c))).

Definition ModelEvent_Validate (e : ModelEvent) : result unit :=
  match me_Kind e with
  | EventDelta =>
    reject_if (empty (me_Text e) || present (me_Output e) || present (me_Err e))
      (ErrNew "model: delta event requires text and no terminal payload")
  | EventReset =>
    reject_if (nonempty (me_Text e) || present (me_Output e) || present (me_Err e)) (ErrNew "model: reset event cannot carry content or error")
  | EventComplete =>
    reject_if (nonempty (me_Text e) || match me_Output e with None => true | Some c => negb (Completion_Valid c) end || present (me_Err e))
      (ErrNew "model: complete event requires output and no error")
  | EventFailed =>
    reject_if (nonempty (me_Text e) || absent (me_Err e) || present (me_Output e)) (ErrNew "model: failed event requires an error and no message")
  | ModelEventOther kind => Err (Errorf "model: unknown event kind %q" [AStr kind])
  end.

(** [requireAttempt] *)
Definition require_attempt (k : ModelEventKind) : bool :=
  match k with EventDelta | EventReset | EventComplete => true | EventFailed | ModelEventOther _ => false end.

(** The switch of [Accept]. *)
Definition accept_kind (s : StreamState) (event : ModelEvent) : result StreamState :=
  let differs := nonempty (ss_attemptID s) && negb (String.eqb (ss_attemptID s) (me_AttemptID event)) in
  match me_Kind event with
  | EventDelta =>
    reject_if differs (invalidStream "AttemptID changed without resetting temporary output" None) ;;
    Ok (MkStreamState (me_AttemptID event) true (ss_terminal s))
  | EventReset =>
    reject_if (negb (ss_visible s) || empty (ss_attemptID s) || negb (String.eqb (ss_attemptID s) (me_AttemptID event)))
      (invalidStream "reset does not match visible temporary output" None) ;;
    Ok (MkStreamState "" false (ss_terminal s))
  | EventComplete =>
    reject_if differs (invalidStream "completed AttemptID differs from visible output" None) ;;
    Ok (MkStreamState (ss_attemptID s) (ss_visible s) true)
  | EventFailed =>
    reject_if (ss_visible s) (invalidStream "failed stream exposed temporary output without reset" None) ;;
    reject_if (nonempty (ss_attemptID s) && nonempty (me_AttemptID event) && negb (String.eqb (ss_attemptID s) (me_AttemptID event)))
      (invalidStream "failed AttemptID differs from the active attempt" None) ;;
    Ok (MkStreamState (ss_attemptID s) (ss_visible s) true)
  | ModelEventOther _ => Ok s
  end.

(** [StreamState.Accept] on a state that exists. *)
Definition Accept (s : StreamState) (event : ModelEvent) : result StreamState :=
  reject_if (ss_terminal s) (invalidStream "event arrived after the logical terminal" None) ;;
  map_err (fun e => invalidStream "event violates the portable model contract" (Some e)) (ModelEvent_Validate event) ;;
  reject_if (require_attempt (me_Kind event) && negb (ID_Valid (me_AttemptID event)))
    (invalidStream "temporary or completed event requires a valid AttemptID" None) ;;
  reject_if (nonempty (me_AttemptID event) && negb (ID_Valid (me_AttemptID event))) (invalidStream "event contains an invalid AttemptID" None) ;;
  accept_kind s event.

(** [StreamState.End]; [None] is a nil error. *)
Definition End_ (s : StreamState) (err : option error) : option error :=
  if match err with Some e => errors_Is e StreamClosed | None => false end then
    if negb (ss_terminal s) then Some (invalidStream "stream closed before a logical terminal" err) else None
  else if ss_terminal s then Some (invalidStream "stream returned a non-closure error after its logical terminal" err)
  else err.
Definition Terminal (s : StreamState) : bool := ss_terminal s.

End ModelStream.

(** * The language of model streams

    [StreamState.Accept] accepts exactly the event sequences of a grammar:
    physical attempts whose output is discarded by a reset, followed by
    nothing, by a visible attempt, by its completion, or by a failure. *)

Section Grammar.
Context {J : JsonOps}.

(** A well-formed event of a kind, from an attempt. *)
Record event_of (k : ModelEventKind) (a : string) (e : ModelEvent) : Prop := {
  eo_kind : me_Kind e = k;
  eo_attempt : me_AttemptID e = a;
  eo_valid : ModelEvent_Validate e = Ok tt;
  eo_known : require_attempt k = true \/ nonempty a = true -> ID_Valid a = true;
}.

(** Physical attempts that were given up: visible output, then its reset. *)
Inductive given_up : list ModelEvent -> Prop :=
  | given_up_nil : given_up []
  | given_up_attempt es a ds r :
      given_up es -> ds ≠ [] -> Forall (event_of EventDelta a) ds -> event_of EventReset a r -> given_up (es ++ ds ++ [r]).

(** One logical call, as far as it got; the flag says whether it is over. *)
Inductive logical_call : list ModelEvent -> bool -> Prop :=
  | call_open es a ds : given_up es -> Forall (event_of EventDelta a) ds -> logical_call (es ++ ds) false
  | call_completed es a ds c :
      given_up es -> Forall (event_of EventDelta a) ds -> event_of EventComplete a c -> logical_call (es ++ ds ++ [c]) true
  | call_failed es a f : given_up es -> event_of EventFailed a f -> logical_call (es ++ [f]) true.

(** What the state remembers of an accepted sequence. *)
Inductive remembers : list ModelEvent -> StreamState -> Prop :=
  | remembers_nothing es : given_up es -> remembers es new_stream
  | remembers_attempt es a ds : given_up es -> ds ≠ [] -> Forall (event_of EventDelta a) ds ->
      remembers (es ++ ds) (MkStreamState a true false)
  | remembers_end es s : logical_call es true -> ss_terminal s = true -> remembers es s.

Lemma ID_Valid_nonempty a : ID_Valid a = true -> nonempty a = true /\ empty a = false.
Proof. by destruct a. Qed.

Lemma Accept_event s e s' : Accept s e = Ok s' ->
  ss_terminal s = false /\ event_of (me_Kind e) (me_AttemptID e) e /\ accept_kind s e = Ok s'.
Proof.
  unfold Accept. intros H. inv_ok. split; [done|]. split; [|done]. split; [done|done|done|]. intros [Hr|Hn].
  - rewrite Hr in H1. simpl in H1. by apply negb_false_iff in H1.
  - rewrite Hn in H2. simpl in H2. by apply negb_false_iff in H2.
Qed.

Lemma event_accept s e k a : ss_terminal s = false -> event_of k a e -> Accept s e = accept_kind s e.
Proof.
  intros Ht [Hk Ha Hv Hid]. unfold Accept. rewrite Ht, Hv, Hk, Ha. simpl.
  destruct (require_attempt k) eqn:Er; simpl.
  - rewrite (Hid (or_introl eq_refl)). simpl. by rewrite andb_false_r.
  - destruct (nonempty a) eqn:En; simpl; [|done]. by rewrite (Hid (or_intror eq_refl)).
Qed.

Lemma accept_step es s e s' : remembers es s -> Accept s e = Ok s' -> remembers (es ++ [e]) s'.
Proof.
  intros Hr H. apply Accept_event in H as (Ht&He&H). unfold accept_kind in H.
  assert (Hid : require_attempt (me_Kind e) = true -> nonempty (me_AttemptID e) = true /\ empty (me_AttemptID e) = false).
  { intros Hq. apply ID_Valid_nonempty, (eo_known _ _ _ He). by left. }
  destruct Hr as [es Hg|es a ds Hg Hne Hds|es s _ Hs]; [| |congruence].
  - destruct (me_Kind e) eqn:Ek; simpl in H; inv_ok; try done.
    + apply (remembers_attempt es (me_AttemptID e) [e]); [done|done|by apply Forall_singleton].
    + apply remembers_end; [|done]. apply (call_completed es (me_AttemptID e) []); [done|constructor|done].
    + apply remembers_end; [|done]. by eapply call_failed.
    + by destruct He as [? ? Hv _]; unfold ModelEvent_Validate in Hv; rewrite Ek in Hv.
  - assert (Ha : nonempty a = true /\ empty a = false).
    { destruct ds as [|d ds]; [done|]. apply Forall_cons in Hds as [[_ _ _ Hd] _]. apply ID_Valid_nonempty, Hd. by left. }
    destruct Ha as [Ha1 Ha2]. destruct (me_Kind e) eqn:Ek; simpl in H; rewrite ?Ha1, ?Ha2 in H; simpl in H; inv_ok; bool_simpl; subst; try done.
    + rewrite <-app_assoc. apply remembers_attempt; [done|by destruct ds|]. apply Forall_app. split; [done|by apply Forall_singleton].
    + apply remembers_nothing. rewrite <-app_assoc. by econstructor.
    + apply remembers_end; [|done]. rewrite <-app_assoc. by eapply call_completed.
    + by destruct He as [? ? Hv _]; unfold ModelEvent_Validate in Hv; rewrite Ek in Hv.
Qed.

Lemma accept_all_remembers es s : foldM Accept es new_stream = Ok s -> remembers es s.
Proof.
  intros H. apply (foldM_invariant Accept remembers) in H; [done| |by apply remembers_nothing; constructor].
  intros; by eapply accept_step.
Qed.

(** ** Running the grammar *)
Lemma run_deltas a ds s : Forall (event_of EventDelta a) ds -> ss_terminal s = false -> ss_attemptID s = "" \/ ss_attemptID s = a ->
  foldM Accept ds s = Ok (if bool_decide (ds = []) then s else MkStreamState a true false).
Proof.
  revert s; induction ds as [|d ds IH]; intros s Hd Ht Hs; [done|]. apply Forall_cons in Hd as [Hd Hds]. cbn [foldM].
  rewrite (event_accept s d EventDelta a) by done. unfold accept_kind. destruct Hd as [Hk Ha _ _]. rewrite Hk, Ha.
  assert (Hdiff : nonempty (ss_attemptID s) && negb (String.eqb (ss_attemptID s) a) = false).
  { destruct Hs as [->| ->]; [done|]. rewrite String.eqb_refl. by rewrite andb_false_r. }
  rewrite Hdiff. simpl. rewrite Ht. rewrite IH; [by destruct ds|done|done|by right].
Qed.

Lemma run_given_up es : given_up es -> foldM Accept es new_stream = Ok new_stream.
Proof.
  induction 1 as [|es a ds r Hg IH Hne Hds Hr]; [done|]. rewrite foldM_app, IH. cbn [mbind result_bind].
  rewrite foldM_app, (run_deltas a) by (try done; by left). rewrite bool_decide_eq_false_2 by done. cbn [foldM mbind result_bind].
  rewrite (event_accept _ r EventReset a) by done. unfold accept_kind. pose proof Hr as [Hk Ha _ Hid]. rewrite Hk, Ha. simpl.
  destruct (ID_Valid_nonempty a) as [_ He]; [by apply Hid; left|]. by rewrite He, String.eqb_refl.
Qed.

Lemma run_logical_call es over : logical_call es over -> exists s, foldM Accept es new_stream = Ok s /\ Terminal s = over.
Proof.
  intros [es' a ds Hg Hd|es' a ds c Hg Hd Hc|es' a f Hg Hf]; rewrite foldM_app, (run_given_up _ Hg); cbn [mbind result_bind].
  - rewrite (run_deltas a) by (try done; by left). eexists. split; [done|]. by destruct (bool_decide _).
  - rewrite foldM_app, (run_deltas a) by (try done; by left). cbn [foldM mbind result_bind].
    rewrite (event_accept _ c EventComplete a); [|by destruct (bool_decide _)|done]. unfold accept_kind. destruct Hc as [Hk Ha _ _]. rewrite Hk, Ha.
    destruct (bool_decide (ds = [])); simpl; [by eexists|]. rewrite String.eqb_refl, andb_false_r. simpl. by eexists.
  - cbn [foldM]. rewrite (event_accept _ f EventFailed a) by done. unfold accept_kind. destruct Hf as [Hk Ha _ _]. rewrite Hk, Ha. simpl. by eexists.
Qed.

(** C33. A stream checker accepts a sequence of events exactly when it is (a
    prefix of) one logical call: attempts that were given up, each showing
    output of a single attempt and then resetting it, followed by at most one
    more attempt that completes under its own identity, or by a failure with
    no output left visible.  The checker reports the end exactly when a
    completion or failure was accepted, and a stream may close exactly then. *)
Theorem Accept_iff_logical_call es over :
  (exists s, foldM Accept es new_stream = Ok s /\ Terminal s = over /\
     End_ s (Some (ErrNew StreamClosed)) = if over then None else
       Some (invalidStream "stream closed before a logical terminal" (Some (ErrNew StreamClosed)))) <->
  logical_call es over.
Proof.
  split.
  - intros (s&H&Ht&_). apply accept_all_remembers in H. destruct H as [es Hg|es a ds Hg _ Hd|es s Hc Hs]; simpl in Ht.
    + subst. rewrite <-(app_nil_r es). by apply (call_open es "").
    + subst. by eapply call_open.
    + unfold Terminal in Ht. rewrite Hs in Ht. by subst.
  - intros H. destruct (run_logical_call _ _ H) as (s&Hs&Ht). exists s. split; [done|]. split; [done|].
    unfold End_, Terminal in *. rewrite Ht. by destruct over.
Qed.
End Grammar.
