(* ===== verification/ContextCompaction.v ===== *)
(** * The tail compactor

    Models [context/contracts.go] and [context/tail_compactor.go]: a compactor
    that keeps the most recent protocol-complete groups of the inputs. *)

From S2P Require Import Prelude GoStrings AgentTypes ModelContracts.
From S2P Require Import SessionStoreFacts.

Record CompactionInput := MkCompactionInput { ci_SessionID : string; ci_Revision : Z; ci_Inputs : list Input; ci_Config : Config }.
Record CompactionOutput := MkCompactionOutput { cout_SourceRevision : Z; cout_Inputs : list Input }.

Definition NewTailCompactor (maxInputs : Z) : result Z :=
  reject_if (Z.leb maxInputs 0) (ErrNew "context: max inputs must be positive") ;; Ok maxInputs.

(** The run of the last input that names one. *)
Definition input_run (i : Input) : option string :=
  match in_Message i with
  | Some m => if nonempty (msg_RunID m) then Some (msg_RunID m)
              else match in_ToolCall i with Some c => if nonempty (call_RunID c) then Some (call_RunID c) else None | None => None end
  | None => match in_ToolCall i with Some c => if nonempty (call_RunID c) then Some (call_RunID c) else None | None => None end
  end.
Definition latestRunID (inputs : list Input) : string := default "" (last (omap input_run inputs)).

(** How many of the inputs follow an assistant message as its exchange. *)
Fixpoint exchange_length (inputs : list Input) : nat :=
  match inputs with
  | i :: inputs => if present (in_ToolCall i) || present (in_ToolResult i) then S (exchange_length inputs) else 0
  | [] => 0
  end.
Definition is_assistant (i : Input) : bool :=
  match in_Message i with Some m => bool_decide (msg_Role m = RoleAssistant) | None => false end.
Definition group_length (i : Input) (rest : list Input) : nat := if is_assistant i then S (exchange_length rest) else 1.

(** [protocolGroups] from index [start] on; every group has an input, so the
    number of inputs is enough fuel. *)
Fixpoint groups_from (fuel start : nat) (inputs : list Input) : list (nat * nat) :=
  match fuel, inputs with
  | S fuel, i :: rest =>
    let n := group_length i rest in
    (start, start + n) :: groups_from fuel (start + n) (drop n inputs)
  | _, _ => []
  end.
Definition protocolGroups (inputs : list Input) : list (nat * nat) := groups_from (length inputs) 0 inputs.

(** The backward loop of [Compact]: [groups] are the groups before [start],
    the nearest first. *)
Fixpoint keep_tail (maxInputs : Z) (groups : list (nat * nat)) (start : nat) (count : Z) : nat :=
  match groups with
  | [] => start
  | g :: groups =>
    let groupSize := Z.of_nat (g.2 - g.1) in
    if Z.ltb 0 count && Z.ltb maxInputs (count + groupSize) then start
    else keep_tail maxInputs groups (start - 1) (count + groupSize)
  end.

(** A group whose message belongs to the active run and carries a
    continuation. *)
Definition has_continuation (inputs : list Input) (activeRunID : string) (g : nat * nat) : bool :=
  match inputs !! g.1 with
  | Some i => match in_Message i with
              | Some m => String.eqb (msg_RunID m) activeRunID && present (msg_ModelContinuation m)
              | None => false
              end
  | None => false
  end.
(** The index of the last such group. *)
Fixpoint required_group (inputs : list Input) (activeRunID : string) (index : nat) (groups : list (nat * nat)) (found : option nat)
    : option nat :=
  match groups with
  | [] => found
  | g :: groups =>
    required_group inputs activeRunID (S index) groups (if has_continuation inputs activeRunID g then Some index else found)
  end.

(** The first index that is kept. *)
Definition compact_start (maxInputs : Z) (inputs : list Input) : nat :=
  let groups := protocolGroups inputs in
  let start := keep_tail maxInputs (rev groups) (length groups) 0 in
  let start := match required_group inputs (latestRunID inputs) 0 groups None with
    | Some required => if Nat.ltb required start then required else start
    | None => start
    end in
  if Nat.ltb start (length groups) then default 0 (fst <$> groups !! start) else 0.

Section Compactor.
Context {J : JsonOps}.

(** [ctxErr] is [ctx.Err()]. *)
Definition Compact (ctxErr : option error) (maxInputs : Z) (input : CompactionInput) : result CompactionOutput :=
  match ctxErr with Some e => Err e | None => Ok tt end ;;
  ValidateInputs (ci_Inputs input) ;;
  Ok (MkCompactionOutput (ci_Revision input) (drop (compact_start maxInputs (ci_Inputs input)) (ci_Inputs input))).

End Compactor.

(** * What compaction keeps

    The inputs fall into protocol groups; any tail of a valid sequence that
    starts at a group is valid, and the compactor keeps such a tail. *)

(** ** Groups *)
Fixpoint split_groups (fuel : nat) (inputs : list Input) : list (list Input) :=
  match fuel, inputs with
  | S fuel, i :: rest => take (group_length i rest) inputs :: split_groups fuel (drop (group_length i rest) inputs)
  | _, _ => []
  end.
Definition groups_of (inputs : list Input) : list (list Input) := split_groups (length inputs) inputs.

(** The index pairs of consecutive groups. *)
Fixpoint spans (start : nat) (gs : list (list Input)) : list (nat * nat) :=
  match gs with
  | g :: gs => (start, start + length g) :: spans (start + length g) gs
  | [] => []
  end.

Lemma exchange_length_le l : exchange_length l <= length l.
Proof. induction l as [|i l IH]; simpl; [lia|]. destruct (_ || _); lia. Qed.
Lemma group_length_le i rest : 1 <= group_length i rest <= length (i :: rest).
Proof. unfold group_length. pose proof (exchange_length_le rest). destruct (is_assistant i); simpl; lia. Qed.

Lemma split_groups_concat fuel l : length l <= fuel -> concat (split_groups fuel l) = l.
Proof.
  revert l; induction fuel as [|fuel IH]; intros [|i l] H; simpl in *; try done; [lia|].
  pose proof (group_length_le i l). rewrite IH; [|rewrite length_drop; simpl; lia]. by rewrite take_drop.
Qed.
Lemma groups_of_concat l : concat (groups_of l) = l.
Proof. by apply split_groups_concat. Qed.

Lemma groups_from_spans fuel start l : groups_from fuel start l = spans start (split_groups fuel l).
Proof.
  revert start l; induction fuel as [|fuel IH]; intros start [|i l]; simpl; try done.
  pose proof (group_length_le i l) as H. rewrite length_take, Nat.min_l by (simpl in *; lia). by rewrite IH.
Qed.
Lemma protocolGroups_spans l : protocolGroups l = spans 0 (groups_of l).
Proof. apply groups_from_spans. Qed.

Lemma split_groups_nonempty fuel l : Forall (fun g => g ≠ []) (split_groups fuel l).
Proof.
  revert l; induction fuel as [|fuel IH]; intros [|i l]; simpl; try constructor; [|apply IH].
  pose proof (group_length_le i l). destruct (group_length i l); [lia|done].
Qed.

Lemma spans_app start a b : spans start (a ++ b) = spans start a ++ spans (start + length (concat a)) b.
Proof.
  revert start; induction a as [|g a IH]; intros start; simpl; [by rewrite Nat.add_0_r|].
  rewrite IH, length_app. by rewrite Nat.add_assoc.
Qed.
Lemma length_spans start gs : length (spans start gs) = length gs.
Proof. revert start; induction gs; intros; simpl; [done|by f_equal]. Qed.
Lemma spans_lookup start gs k g : gs !! k = Some g ->
  spans start gs !! k = Some (start + length (concat (take k gs)), start + length (concat (take k gs)) + length g).
Proof.
  revert start k; induction gs as [|h gs IH]; intros start [|k]; simpl; try done.
  - intros [= ->]. by rewrite Nat.add_0_r.
  - intros H. rewrite (IH _ _ H), length_app. by rewrite Nat.add_assoc.
Qed.

Lemma drop_concat k (gs : list (list Input)) : drop (length (concat (take k gs))) (concat gs) = concat (drop k gs).
Proof.
  rewrite <-(take_drop k gs) at 2. rewrite concat_app. by rewrite drop_app_length.
Qed.

(** ** The backward loop *)
Definition size_of (gs : list (list Input)) : Z := Z.of_nat (length (concat gs)).

Lemma keep_tail_spec maxInputs pre : forall count, (0 <= count)%Z -> Forall (fun g => g ≠ []) pre ->
  let s := keep_tail maxInputs (rev (spans 0 pre)) (length pre) count in
  s <= length pre /\
  (s = length pre \/ (count + size_of (drop s pre) <= maxInputs)%Z \/ count = 0%Z /\ S s = length pre) /\
  (count = 0%Z -> pre ≠ [] -> s < length pre) /\
  (s = 0 \/ (maxInputs < count + size_of (drop (s - 1) pre))%Z).
Proof.
  induction pre as [|g pre IH] using rev_ind; intros count Hc Hne s; [split_and!; [done|by left|done|by left]|].
  subst s. rewrite spans_app, rev_app_distr. cbn [spans rev app keep_tail fst snd]. apply Forall_app in Hne as [Hne Hg].
  apply (proj1 (Forall_singleton _ _)) in Hg. assert (0 < length g) as Hlen by (destruct g; [done|simpl; lia]).
  rewrite length_app. cbn [length]. replace (length pre + 1 - 1) with (length pre) by lia.
  set (size := Z.of_nat (0 + length (concat pre) + length g - (0 + length (concat pre)))).
  assert (Hsize : size = Z.of_nat (length g)) by (unfold size; lia).
  assert (Hdrop : forall k, k <= length pre -> size_of (drop k (pre ++ [g])) = (size_of (drop k pre) + size)%Z).
  { intros k Hk. rewrite drop_app_le by done. unfold size_of. rewrite concat_app, length_app. cbn [concat]. rewrite app_nil_r. lia. }
  destruct (Z.ltb 0 count && Z.ltb maxInputs (count + size)) eqn:E.
  - bool_simpl. split_and!; [lia|by left|lia|]. right. replace (length pre + 1 - 1) with (length pre) by lia.
    rewrite Hdrop, drop_all by lia. unfold size_of. simpl. lia.
  - destruct (IH (count + size)%Z) as (H1&H2&_&H4); [lia|done|]. set (s := keep_tail _ _ _ _) in *. split_and!; [lia| |lia|].
    + rewrite Hdrop by done. destruct H2 as [H2|[H2|H2]]; [|right; left; lia|lia]. apply andb_false_iff in E as [E|E]; bool_simpl.
      * right. right. lia.
      * right. left. rewrite H2, drop_all. unfold size_of. simpl. lia.
    + destruct H4 as [H4|H4]; [by left|right]. rewrite Hdrop by lia. lia.
Qed.

(** ** The required group *)
Lemma required_group_spec inputs active gs index found :
  match required_group inputs active index gs found with
  | Some r => (exists g, index <= r /\ gs !! (r - index) = Some g /\ has_continuation inputs active g = true /\
                 forall k h, r - index < k -> gs !! k = Some h -> has_continuation inputs active h = false) \/
              found = Some r /\ forall k h, gs !! k = Some h -> has_continuation inputs active h = false
  | None => found = None /\ forall k h, gs !! k = Some h -> has_continuation inputs active h = false
  end.
Proof.
  revert index found; induction gs as [|g gs IH]; intros index found; simpl.
  - destruct found; [right|]; (split; [done|]; intros k h Hk; by rewrite lookup_nil in Hk).
  - specialize (IH (S index) (if has_continuation inputs active g then Some index else found)).
    assert (Hcons : has_continuation inputs active g = false -> (forall k h, gs !! k = Some h -> has_continuation inputs active h = false) ->
      forall k h, (g :: gs) !! k = Some h -> has_continuation inputs active h = false).
    { intros Hg Hgs [|k] h Hk; [by injection Hk as <-|by eapply Hgs]. }
    destruct (required_group _ _ _ _ _) as [r|].
    + destruct IH as [(h&Hr&Hh&Hc&Hlater)|[Hf Hnone]].
      * left. exists h. split; [lia|]. replace (r - index) with (S (r - S index)) by lia. split; [done|]. split; [done|].
        intros [|k] h' Hk Hl; [lia|]. by apply (Hlater k); [lia|].
      * destruct (has_continuation inputs active g) eqn:Eg; [|right; by split; [|apply Hcons]].
        injection Hf as <-. left. exists g. rewrite Nat.sub_diag. split_and!; [lia|done|done|].
        intros [|k] h' Hk Hl; [lia|]. by eapply Hnone.
    + destruct IH as [Hf Hnone]. destruct (has_continuation inputs active g) eqn:Eg; [done|]. split; [done|by apply Hcons].
Qed.

(** ** Validity of tails *)
Section Validity.
Context {J : JsonOps}.

Definition in_exchange (i : Input) : bool := present (in_ToolCall i) || present (in_ToolResult i).

(** A valid item is exactly one of the four kinds. *)
Lemma Input_Valid_kind i : Input_Valid i = true ->
  (present (in_Message i) = true -> in_exchange i = false /\ in_SystemPrompt i = None) /\
  (in_exchange i = true -> in_Message i = None) /\ (present (in_SystemPrompt i) = true -> in_exchange i = false /\ in_Message i = None).
Proof. unfold Input_Valid, in_exchange. by destruct (in_SystemPrompt i), (in_Message i), (in_ToolCall i), (in_ToolResult i). Qed.

Lemma take_calls_spec m c a l c1 a1 rest : take_calls m c a l = Ok (c1, a1, rest) ->
  exists cs, l = cs ++ rest /\ Forall (fun i => in_exchange i = true /\ Input_Valid i = true) cs.
Proof.
  revert c a; induction l as [|i l IH]; intros c a; simpl; [intros [= _ _ <-]; by exists []|].
  destruct (in_ToolCall i) as [call|] eqn:Ei; [|intros [= _ _ <-]; by exists []]. intros H. apply bind_Ok in H as (?&Hr&H).
  apply IH in H as (cs&->&Hcs). exists (i :: cs). split; [done|]. constructor; [|done].
  apply reject_if_Ok in Hr. bool_simpl. split; [by unfold in_exchange; rewrite Ei|done].
Qed.

Lemma take_results_spec c s l s1 rest : take_results c s l = Ok (s1, rest) ->
  exists rs, l = rs ++ rest /\ Forall (fun i => in_exchange i = true /\ Input_Valid i = true) rs.
Proof.
  revert s; induction l as [|i l IH]; intros s; simpl; [intros [= _ <-]; by exists []|].
  destruct (in_ToolResult i) as [r|] eqn:Ei; [|intros [= _ <-]; by exists []]. intros H. apply bind_Ok in H as (?&Hr&H).
  apply IH in H as (rs&->&Hrs). exists (i :: rs). split; [done|]. constructor; [|done].
  apply reject_if_Ok in Hr. bool_simpl. split; [by unfold in_exchange; rewrite Ei, orb_true_r|done].
Qed.

(** Fewer known calls accept the same exchange. *)
Lemma take_calls_mono m c a a' l c1 a1 rest : take_calls m c a l = Ok (c1, a1, rest) -> a' ⊆ a ->
  exists a1', a1' ⊆ a1 /\ take_calls m c a' l = Ok (c1, a1', rest).
Proof.
  revert c a a'; induction l as [|i l IH]; intros c a a'; simpl; [intros [= <- <- <-]; by exists a'|].
  destruct (in_ToolCall i) as [call|]; [|intros [= <- <- <-]; by exists a']. intros H Ha. apply bind_Ok in H as (?&Hr&H).
  apply reject_if_Ok, orb_false_iff in Hr as [Hr Hall]. rewrite Hr. bool_simpl. rewrite (bool_decide_eq_false_2 (_ ∈ a')) by set_solver. simpl.
  eapply IH; [exact H|set_solver].
Qed.

(** The first group of a valid sequence is its first message with its
    exchange; the rest is valid on its own. *)
Lemma validate_exchanges_group fuel ms cs i rest : validate_exchanges fuel ms cs (i :: rest) = Ok tt ->
  present (in_Message i) = true /\ Input_Valid i = true /\
  Forall (fun j => in_exchange j = true /\ Input_Valid j = true) (take (group_length i rest - 1) rest) /\
  exists fuel' ms' cs', validate_exchanges fuel' ms' cs' (drop (group_length i rest) (i :: rest)) = Ok tt.
Proof.
  destruct fuel as [|fuel]; [done|]. cbn [validate_exchanges]. intros H. apply bind_Ok in H as (u&Hv&H). apply bind_Ok in H as (u'&Hs&H).
  apply reject_if_Ok in Hv, Hs. bool_simpl. destruct (in_Message i) as [m|] eqn:Em; [|done]. apply bind_Ok in H as (u''&_&H).
  split; [done|]. split; [done|]. unfold group_length, is_assistant. rewrite Em.
  assert (Hhead : forall fuel ms cs l, validate_exchanges fuel ms cs l = Ok tt -> exchange_length l = 0).
  { clear. intros [|fuel] ms cs [|i l] H; try done. cbn [validate_exchanges] in H. apply bind_Ok in H as (u&Hv&H). apply bind_Ok in H as (u'&_&H).
    apply reject_if_Ok, negb_false_iff in Hv. destruct (in_Message i) eqn:Em; [|done]. destruct (Input_Valid_kind i Hv) as [Hk _].
    rewrite Em in Hk. destruct (Hk eq_refl) as [He _]. unfold in_exchange in He. simpl. by rewrite He. }
  destruct (negb (bool_decide (msg_Role m = RoleAssistant)) || _) eqn:Eb.
  - assert (Hlen : (if bool_decide (msg_Role m = RoleAssistant) then S (exchange_length rest) else 1) = 1).
    { destruct (bool_decide _); [|done]. f_equal. by eapply Hhead. }
    rewrite Hlen. simpl. split; [constructor|]. eauto.
  - apply orb_false_iff in Eb as [Ea Eb]. apply negb_false_iff in Ea. rewrite Ea. simpl. rewrite Nat.sub_0_r.
    apply bind_Ok in H as ([[calls all] rest1]&Hc&H). apply bind_Ok in H as ([results rest2]&Hr&H). apply bind_Ok in H as (u3&_&H).
    apply take_calls_spec in Hc as (c1&->&Hc1). apply take_results_spec in Hr as (r1&->&Hr1). pose proof (Hhead _ _ _ _ H) as H0.
    assert (Hx : forall l, Forall (fun j => in_exchange j = true /\ Input_Valid j = true) l -> forall k, exchange_length (l ++ k) = length l + exchange_length k).
    { clear. induction 1 as [|j l [Hj _] _ IH]; intros k; [done|]. simpl. unfold in_exchange in Hj. rewrite Hj. f_equal. apply IH. }
    rewrite (Hx c1 Hc1), (Hx r1 Hr1), H0, Nat.add_0_r, app_assoc, <-length_app. rewrite take_app_length, drop_app_length.
    split; [by apply Forall_app|]. eauto.
Qed.

Lemma validate_exchanges_mono fuel ms cs l : validate_exchanges fuel ms cs l = Ok tt -> forall fuel' ms' cs', length l <= fuel' -> ms' ⊆ ms ->
  cs' ⊆ cs -> validate_exchanges fuel' ms' cs' l = Ok tt.
Proof.
  revert ms cs l; induction fuel as [|fuel IH]; intros ms cs [|i l] H [|fuel'] ms' cs' Hlen Hms Hcs; try done; [simpl in Hlen; lia|].
  cbn [length] in Hlen. cbn [validate_exchanges] in *. apply bind_Ok in H as ([]&->&H). apply bind_Ok in H as ([]&->&H). cbn [mbind result_bind].
  destruct (in_Message i) as [m|]; [|done]. apply bind_Ok in H as ([]&Hd&H). apply reject_if_Ok in Hd. bool_simpl.
  rewrite (bool_decide_eq_false_2 (_ ∈ ms')) by set_solver. cbn [reject_if mbind result_bind].
  destruct (negb (bool_decide (msg_Role m = RoleAssistant)) || _); [eapply IH; [exact H|lia|set_solver|done]|].
  apply bind_Ok in H as ([[calls all] rest1]&Hc&H). apply bind_Ok in H as ([results rest2]&Hr&H). apply bind_Ok in H as ([]&He&H).
  pose proof (take_calls_spec _ _ _ _ _ _ _ Hc) as (c1&Hl&_). pose proof (take_results_spec _ _ _ _ _ Hr) as (r1&Hl1&_).
  destruct (take_calls_mono _ _ _ cs' _ _ _ _ Hc Hcs) as (all'&Hall&->). cbn [mbind result_bind]. rewrite Hr. cbn [mbind result_bind].
  rewrite He. cbn [mbind result_bind]. eapply IH; [exact H| |set_solver|done]. subst l rest1. rewrite !length_app in Hlen. lia.
Qed.

Lemma ValidateInputs_exchanges fuel ms cs l : validate_exchanges fuel ms cs l = Ok tt -> ValidateInputs l = Ok tt.
Proof.
  intros H. destruct l as [|i l]; [done|]. unfold ValidateInputs. destruct (validate_exchanges_group _ _ _ _ _ H) as (Hm&Hv&_).
  destruct (Input_Valid_kind i Hv) as [Hk _]. destruct (Hk Hm) as [_ Hs]. rewrite Hs. cbn [present].
  eapply (validate_exchanges_mono _ _ _ (i :: l) H); [done|set_solver..].
Qed.

(** A group: its head, and items of the exchange after it. *)
Definition protocol_group (g : list Input) : Prop := exists i rest, g = i :: rest /\ in_exchange i = false /\ Forall (fun j => in_Message j = None) rest.

Lemma split_groups_valid fuel : forall ms cs vfuel l, length l <= fuel -> validate_exchanges vfuel ms cs l = Ok tt ->
  Forall protocol_group (split_groups fuel l) /\ forall k, ValidateInputs (concat (drop k (split_groups fuel l))) = Ok tt.
Proof.
  induction fuel as [|fuel IH]; intros ms cs vfuel [|i l] Hlen H; try (split; [by apply Forall_nil|by intros [|k]]).
  destruct (validate_exchanges_group _ _ _ _ _ H) as (Hm&Hv&Hg&fuel'&ms'&cs'&Hrest). pose proof (group_length_le i l) as Hgl. cbn [length] in *.
  destruct (IH ms' cs' fuel' (drop (group_length i l) (i :: l))) as [H1 H2]; [rewrite length_drop; simpl; lia|done|]. cbn [split_groups]. split.
  - constructor; [|done]. destruct (group_length i l) as [|n] eqn:En; [lia|]. exists i, (take n l). split; [done|].
    destruct (Input_Valid_kind i Hv) as [Hk _]. split; [by apply Hk|]. cbn in Hg. rewrite Nat.sub_0_r in Hg.
    eapply Forall_impl; [exact Hg|]. intros j [Hj Hjv]. destruct (Input_Valid_kind j Hjv) as (_&Hk'&_). by apply Hk'.
  - intros [|k]; [|apply H2]. cbn [drop concat]. rewrite split_groups_concat by (rewrite length_drop; simpl; lia). rewrite take_drop.
    by eapply ValidateInputs_exchanges.
Qed.

Lemma groups_of_valid l : ValidateInputs l = Ok tt ->
  Forall protocol_group (groups_of l) /\ forall k, ValidateInputs (concat (drop k (groups_of l))) = Ok tt.
Proof.
  intros H. destruct l as [|i l]; [split; [by apply Forall_nil|by intros [|k]]|]. pose proof H as Hall. unfold ValidateInputs in H.
  destruct (present (in_SystemPrompt i)) eqn:Es; [|by eapply split_groups_valid].
  apply bind_Ok in H as ([]&Hv&H). apply reject_if_Ok, negb_false_iff in Hv. destruct (Input_Valid_kind i Hv) as (_&_&Hk). destruct (Hk Es) as [Hx Hm].
  unfold groups_of. cbn [length split_groups]. assert (Hn : group_length i l = 1) by (unfold group_length, is_assistant; by rewrite Hm). rewrite Hn.
  cbn [take drop]. destruct (split_groups_valid (length l) ∅ ∅ (length l) l) as [H1 H2]; [done|done|]. split.
  - constructor; [|done]. by exists i, [].
  - intros [|k]; [|apply H2]. cbn [drop concat]. by rewrite split_groups_concat.
Qed.

(** ** The compactor *)

(** A message of the active run that carries a continuation. *)
Definition continues (active : string) (i : Input) : bool :=
  match in_Message i with Some m => String.eqb (msg_RunID m) active && present (msg_ModelContinuation m) | None => false end.

Lemma group_head_lookup (gs : list (list Input)) k g i rest : gs !! k = Some g -> g = i :: rest -> concat gs !! length (concat (take k gs)) = Some i.
Proof. intros Hk ->. rewrite <-(take_drop_middle _ _ _ Hk) at 2. rewrite concat_app, lookup_app_r, Nat.sub_diag by lia. done. Qed.

Lemma has_continuation_group gs k g i rest active : gs !! k = Some g -> g = i :: rest ->
  has_continuation (concat gs) active (length (concat (take k gs)), length (concat (take k gs)) + length g) = continues active i.
Proof. intros Hk Hg. unfold has_continuation, continues. cbn [fst]. by rewrite (group_head_lookup _ _ _ _ _ Hk Hg). Qed.

(** The tail that [Compact] keeps, as a number of groups to drop. *)
Record kept (maxInputs : Z) (l : list Input) (k : nat) : Prop := {
  kp_bound : k <= length (groups_of l);
  kp_nonempty : l ≠ [] -> k < length (groups_of l);
  kp_size : (size_of (drop k (groups_of l)) <= maxInputs)%Z \/ S k = length (groups_of l) \/
    exists i rest, groups_of l !! k = Some (i :: rest) /\ continues (latestRunID l) i = true /\
      forall k' i' rest', k < k' -> groups_of l !! k' = Some (i' :: rest') -> continues (latestRunID l) i' = false;
  kp_maximal : k = 0 \/ (maxInputs < size_of (drop (k - 1) (groups_of l)))%Z;
  kp_continuation : forall k' i rest, k' < k -> groups_of l !! k' = Some (i :: rest) -> continues (latestRunID l) i = true ->
    exists k'' i' rest', k <= k'' /\ groups_of l !! k'' = Some (i' :: rest') /\ continues (latestRunID l) i' = true;
}.

Lemma size_of_drop_le a b gs : a <= b -> (size_of (drop b gs) <= size_of (drop a gs))%Z.
Proof.
  intros H. unfold size_of. replace b with (a + (b - a)) by lia. rewrite <-drop_drop. rewrite <-(take_drop (b - a) (drop a gs)) at 2.
  rewrite concat_app, length_app. lia.
Qed.

Lemma required_kept l : match required_group l (latestRunID l) 0 (spans 0 (groups_of l)) None with
  | Some r => exists g, groups_of l !! r = Some g /\ (forall i rest, g = i :: rest -> continues (latestRunID l) i = true) /\
      forall k i rest, r < k -> groups_of l !! k = Some (i :: rest) -> continues (latestRunID l) i = false
  | None => forall k i rest, groups_of l !! k = Some (i :: rest) -> continues (latestRunID l) i = false
  end.
Proof.
  assert (Hspan : forall k i rest, groups_of l !! k = Some (i :: rest) -> exists p, spans 0 (groups_of l) !! k = Some p /\
    has_continuation l (latestRunID l) p = continues (latestRunID l) i).
  { intros k i rest Hk. eexists. split; [by apply spans_lookup|]. rewrite <-(groups_of_concat l) at 1.
    by eapply has_continuation_group. }
  pose proof (required_group_spec l (latestRunID l) (spans 0 (groups_of l)) 0 None) as H. destruct (required_group _ _ _ _ _) as [r|].
  - destruct H as [(p&_&Hp&Hc&Hlater)|[H _]]; [|done]. rewrite Nat.sub_0_r in *.
    destruct (lookup_lt_is_Some_2 (groups_of l) r) as [g Hg]; [rewrite <-(length_spans 0); by eapply lookup_lt_Some|].
    exists g. split; [done|]. split.
    + intros i rest ->. destruct (Hspan _ _ _ Hg) as (p'&Hp'&Heq). rewrite Hp in Hp'. injection Hp' as <-. by rewrite <-Heq.
    + intros k i rest Hk Hki. destruct (Hspan _ _ _ Hki) as (p'&Hp'&Heq). rewrite <-Heq. by eapply Hlater.
  - destruct H as [_ H]. intros k i rest Hk. destruct (Hspan _ _ _ Hk) as (p'&Hp'&Heq). rewrite <-Heq. by eapply H.
Qed.

Lemma drop_start k l : (l ≠ [] -> k < length (groups_of l)) -> drop (if Nat.ltb k (length (groups_of l)) then default 0 (fst <$> spans 0 (groups_of l) !! k) else 0) l =
  concat (drop k (groups_of l)).
Proof.
  intros Hlt. destruct l as [|i l]; [by destruct k|]. specialize (Hlt ltac:(done)). revert Hlt. generalize (i :: l); clear i l; intros l Hlt.
  destruct (Nat.ltb_spec k (length (groups_of l))) as [Hk|]; [|lia].
  destruct (lookup_lt_is_Some_2 _ _ Hk) as [g Hg]. rewrite (spans_lookup 0 _ _ _ Hg). cbn [fmap option_fmap option_map default fst from_option].
  pose proof (drop_concat k (groups_of l)) as H. by rewrite groups_of_concat in H.
Qed.

Lemma compact_start_kept maxInputs l : (0 < maxInputs)%Z -> exists k, kept maxInputs l k /\
  drop (compact_start maxInputs l) l = concat (drop k (groups_of l)).
Proof.
  intros Hmax. unfold compact_start. rewrite protocolGroups_spans, length_spans. set (gs := groups_of l).
  destruct (keep_tail_spec maxInputs gs 0) as (H1&H2&H3&H4); [lia|apply split_groups_nonempty|]. set (s := keep_tail _ _ _ _) in *.
  pose proof (required_kept l) as Hreq. fold gs in Hreq. destruct (required_group _ _ _ _ _) as [r|]; cbv zeta.
  - destruct Hreq as (g&Hg&Hgc&Hlater). pose proof (lookup_lt_Some _ _ _ Hg) as Hr.
    destruct g as [|i rest]; [by eapply Forall_lookup_1 in Hg; [|apply split_groups_nonempty]|].
    assert (Hk : kept maxInputs l (if Nat.ltb r s then r else s)).
    { split; fold gs.
      - destruct (Nat.ltb_spec r s); lia.
      - intros _. destruct (Nat.ltb_spec r s); [lia|]. apply H3; [done|]. by destruct gs.
      - destruct (Nat.ltb_spec r s); [right; right; exists i, rest; eauto|]. destruct H2 as [H2|[H2|H2]]; [|left; lia|right; left; lia].
        left. rewrite H2, drop_all. unfold size_of. simpl. lia.
      - destruct (Nat.ltb_spec r s); [|lia]. destruct H4 as [H4|H4]; [lia|]. right. pose proof (size_of_drop_le (r - 1) (s - 1) gs). lia.
      - intros k' i' rest' Hk' Hi' Hc. destruct (decide (r < k')) as [Hrk|]; [by rewrite (Hlater _ _ _ Hrk Hi') in Hc|].
        exists r, i, rest. split; [destruct (Nat.ltb_spec r s); lia|]. split; [done|by eapply Hgc]. }
    eexists. split; [exact Hk|]. set (k := if Nat.ltb r s then r else s) in *. apply drop_start, Hk.
  - assert (Hlt : l ≠ [] -> s < length gs).
    { intros Hl. apply H3; [done|]. intros Hgs. apply Hl. pose proof (groups_of_concat l) as Hl'. fold gs in Hl'. by rewrite Hgs in Hl'. }
    exists s. split; [split; fold gs|by apply drop_start].
    + done.
    + done.
    + destruct H2 as [H2|[H2|H2]]; [|left; lia|right; left; lia]. left. rewrite H2, drop_all. unfold size_of. simpl. lia.
    + destruct H4 as [H4|H4]; [by left|right; lia].
    + intros k' i rest _ Hi Hc. by rewrite (Hreq _ _ _ Hi) in Hc.
Qed.
End Validity.

Section CompactSound.
Context {J : JsonOps}.

End CompactSound.

(** ** A conversation of two exchanges, one of them with a tool *)
Definition said (id run : string) (role : Role) (text : string) : Input :=
  MkInput None (Some (MkMessage id "" "s" run (if empty run then "" else "p1") role [MkMessagePart PartText text "" "" ""] None 1)) None None.
Definition conversation : list Input :=
  [said "m1" "" RoleUser "first"; said "m2" "r1" RoleAssistant "calling";
   MkInput None None (Some (MkToolCall "c1" "" "m2" "s" "r1" "p1" "tool" "{}")) None;
   MkInput None None None (Some (MkToolResult "c1" ResultSucceeded "ok" None []));
   said "m3" "" RoleUser "second"].
Definition compaction : CompactionInput := MkCompactionInput "s" 7 conversation config0.

