(* ===== verification/ProviderStream.v ===== *)
(** * The provider adapter

    Models [model/openaicompat/stream.go] and the configuration and
    [Inspect] of [model/openaicompat/executor.go]: how one logical model call
    becomes physical attempts at a Chat Completions provider, and the answers
    of the provider become the events of a stream.

    The goroutine [eventStream.run] is a computation that asks its surroundings
    (the recorder, the connection, the channel of events, the clock) one
    question after the other; their answers are functions of the number of
    questions asked so far.  The wire structs that encoding/json decodes and
    the dates of net/http are the class [WireFormat]. *)

From stdpp Require Import pretty sorting.
From S2P Require Import JsonValue.
From S2P Require Import Prelude GoStrings AgentTypes ModelContracts TextFacts ModelStream.

(** ** Configuration *)
Record ProviderModel := MkProviderModel { pm_ID : string; pm_Title : string; pm_Capabilities : ExecutionCapabilities }.
(** What [newExecutor] looks at of a parsed URL, and its text. *)
Record parsedURL := MkParsedURL {
  url_Scheme : string; url_Host : string; url_hasUser : bool; url_RawQuery : string; url_Fragment : string; url_String : string }.
(** [credential.Ref] by its ID; whether there are a resolver and a store. *)
Record ProviderConfig := MkProviderConfig {
  pc_ProviderKey : string; pc_BaseURL : string; pc_CredentialRef : string; pc_hasResolver : bool; pc_Models : list ProviderModel;
  pc_MaxAttempts : Z; pc_RetryBackoff : Z; pc_RequestTimeout : Z; pc_MaxEventBytes : Z; pc_MaxOutputBytes : Z; pc_MaxAttachmentBytes : Z;
  pc_hasArtifactStore : bool }.
Record Executor := MkExecutor {
  ex_providerKey : string; ex_endpoint : string; ex_credentialRef : string; ex_hasResolver : bool; ex_models : gmap string ProviderModel;
  ex_descriptors : list Descriptor; ex_maxAttempts : Z; ex_retryBackoff : Z; ex_requestTimeout : Z; ex_maxEventBytes : Z; ex_maxOutputBytes : Z;
  ex_maxAttachmentBytes : Z }.

(** [Ref.Validate] *)
Definition Ref_Validate (id : string) : result unit :=
  reject_if (empty id || negb (String.eqb (TrimSpace id) id) || Z.ltb 256 (Z.of_nat (String.length id)))
    (ErrNew "credential: Ref ID must contain 1 to 256 bytes without surrounding whitespace").

(** [strings.TrimRight(s, "/")] *)
Fixpoint trim_slashes (fuel : nat) (s : string) : string :=
  match fuel, s with
  | S fuel, String a s => if Ascii.eqb a (Ascii.ascii_of_nat 47) then trim_slashes fuel s else String a s
  | _, _ => s
  end.
Definition TrimRight_slashes (s : string) : string := rev_string (trim_slashes (String.length s) (rev_string s)).

Definition or_default (value fallback : Z) : Z := if Z.eqb value 0 then fallback else value.
Definition Millisecond : Z := 1000000.
Definition Second : Z := 1000000000.

(** The loop over the models: the map, the descriptors, and whether one of them
    takes images. *)
Definition add_model (providerKey : string) (acc : gmap string ProviderModel * list Descriptor * bool) (m : ProviderModel)
    : result (gmap string ProviderModel * list Descriptor * bool) :=
  let '(models, descriptors, images) := acc in
  let media := ec_Media (pm_Capabilities m) in
  reject_if (empty (pm_ID m) || empty (pm_Title m)) (ErrNew "openaicompat: model ID and title are required") ;;
  map_err (fun err => ErrWrap err "openaicompat: model %q capabilities: %w" [AStr (pm_ID m)]) (ExecutionCapabilities_Validate (pm_Capabilities m)) ;;
  reject_if (SupportsInput media ModalityAudio || SupportsOutput media ModalityImage || SupportsOutput media ModalityAudio)
    (Errorf "openaicompat: model %q declares media unsupported by the Chat Completions adapter" [AStr (pm_ID m)]) ;;
  reject_if (present (models !! pm_ID m)) (Errorf "openaicompat: duplicate model %q" [AStr (pm_ID m)]) ;;
  Ok (<[pm_ID m := m]> models, descriptors ++ [MkDescriptor providerKey (pm_ID m) (pm_Title m) (pm_Capabilities m)],
      images || SupportsInput media ModalityImage).

Definition descriptor_le (a b : Descriptor) : Prop := string_le (de_ModelID a) (de_ModelID b).
#[export] Instance descriptor_le_dec a b : Decision (descriptor_le a b).
Proof. unfold descriptor_le. apply _. Defined.

(** [parse] is [url.Parse]. *)
Definition newExecutor (parse : string -> option parsedURL) (c : ProviderConfig) (allowMissingArtifactStore allowMissingCredentialResolver : bool)
    : result Executor :=
  let base_error := ErrNew "openaicompat: base URL must be an absolute HTTP(S) URL without credentials, query, or fragment" in
  reject_if (empty (pc_ProviderKey c)) (ErrNew "openaicompat: provider key is required") ;;
  match parse (pc_BaseURL c) with
  | None => Err base_error
  | Some u =>
    reject_if (empty (url_Scheme u) || empty (url_Host u) || negb (String.eqb (url_Scheme u) "http" || String.eqb (url_Scheme u) "https") ||
               url_hasUser u || nonempty (url_RawQuery u) || nonempty (url_Fragment u)) base_error ;;
    reject_if (bool_decide (pc_Models c = [])) (ErrNew "openaicompat: at least one model is required") ;;
    '(models, descriptors, images) ← foldM (add_model (pc_ProviderKey c)) (pc_Models c) (∅, [], false);
    let maxAttempts := or_default (pc_MaxAttempts c) 3 in
    reject_if (Z.ltb maxAttempts 1 || Z.ltb 10 maxAttempts) (ErrNew "openaicompat: MaxAttempts must be between 1 and 10") ;;
    reject_if (Z.ltb (pc_RetryBackoff c) 0 || Z.ltb (pc_RequestTimeout c) 0 || Z.ltb (pc_MaxEventBytes c) 0 || Z.ltb (pc_MaxOutputBytes c) 0 ||
               Z.ltb (pc_MaxAttachmentBytes c) 0) (ErrNew "openaicompat: timeouts and size limits cannot be negative") ;;
    reject_if (images && negb (pc_hasArtifactStore c) && negb allowMissingArtifactStore)
      (ErrNew "openaicompat: ArtifactStore is required by an image-capable model") ;;
    (if nonempty (pc_CredentialRef c) then
       map_err (fun _ => ErrNew "openaicompat: CredentialRef is invalid") (Ref_Validate (pc_CredentialRef c)) ;;
       reject_if (negb (pc_hasResolver c) && negb allowMissingCredentialResolver)
         (ErrNew "openaicompat: CredentialResolver is required by CredentialRef")
     else reject_if (pc_hasResolver c) (ErrNew "openaicompat: CredentialResolver requires CredentialRef")) ;;
    Ok (MkExecutor (pc_ProviderKey c) (TrimRight_slashes (url_String u) +:+ "/chat/completions") (pc_CredentialRef c) (pc_hasResolver c) models
      (merge_sort descriptor_le descriptors) maxAttempts (or_default (pc_RetryBackoff c) (250 * Millisecond))
      (or_default (pc_RequestTimeout c) (120 * Second)) (or_default (pc_MaxEventBytes c) (Z.shiftl 4 20))
      (or_default (pc_MaxOutputBytes c) (Z.shiftl 16 20)) (or_default (pc_MaxAttachmentBytes c) (Z.shiftl 20 20)))
  end.

(** [Executor.Inspect] while its context is alive. *)
Definition Inspect (e : Executor) (config : Config) : result ExecutionCapabilities :=
  let unsupported kind message := NewCodedError kind "model_not_supported" "openaicompat.inspect" [(message, [])] None in
  map_err (fun err => NewError ErrorInvalidInput "openaicompat.inspect" [("invalid model config", [])] (Some err)) (Config_Validate config) ;;
  reject_if (negb (String.eqb (cfg_ProviderKey config) (ex_providerKey e))) (unsupported ErrorNotFound "provider is not configured by this executor") ;;
  match ex_models e !! cfg_ModelID config with
  | Some m =>
    let c := pm_Capabilities m in
    reject_if (negb (existsb (fun r => bool_decide (r = cfg_Reasoning config)) (ec_Reasoning c)))
      (unsupported ErrorNotFound "model or reasoning mode is not supported") ;;
    reject_if (match par_MaxTokens (cfg_Parameters config) with
               | Some maximum => Z.ltb 0 (ec_MaxOutputTokens c) && Z.ltb (ec_MaxOutputTokens c) maximum
               | None => false end) (unsupported ErrorInvalidInput "requested max tokens exceed model capability") ;;
    Ok c
  | None => Err (unsupported ErrorNotFound "model or reasoning mode is not supported")
  end.

(** ** The wire *)
Record toolFragment := MkFragment { fr_Index : Z; fr_ID : string; fr_Name : string; fr_Arguments : string }.
Record chatChoice := MkChoice { ch_Content : string; ch_ToolCalls : list toolFragment; ch_finished : bool }.
Record chunkUsage := MkChunkUsage {
  cu_PromptTokens : Z; cu_CompletionTokens : Z; cu_TotalTokens : Z; cu_CachedTokens : option Z; cu_ReasoningTokens : option Z }.
Record chatChunk := MkChunk { ck_Choices : list chatChoice; ck_Usage : option chunkUsage }.

Definition size_of (s : string) : Z := Z.of_nat (String.length s).
(** The strings of a decoded choice are in memory. *)
Definition in_memory (c : chatChoice) : Prop :=
  (size_of (ch_Content c) < 2 ^ 48)%Z /\
  Forall (fun f => size_of (fr_ID f) + size_of (fr_Name f) + size_of (fr_Arguments f) < 2 ^ 48)%Z (ch_ToolCalls c).

(** [json.Unmarshal] into a chunk and into the two messages of a provider error,
    and [http.ParseTime]. *)
Class WireFormat := {
  decode_chunk : string -> chatChunk + error;
  decode_chunk_in_memory : forall payload chunk, decode_chunk payload = inl chunk -> Forall in_memory (ck_Choices chunk);
  decode_error : string -> option (string * string);
  ParseTime : string -> option Time }.

(** A body and how reading it ends, [None] for its end; whether the scanner has
    already seen this when it delivers the last lines. *)
Record body := MkBody { bd_bytes : string; bd_error : option error; bd_seen : bool }.

(** *** Lines

    [bufio.Scanner] with [ScanLines]: the lines without their ends, and whether
    it gives up on a line that does not fit its buffer. *)
Definition newline : Ascii.ascii := Ascii.ascii_of_nat 10.
Definition dropCR (line : string) : string :=
  match rev_string line with
  | String a rest => if Ascii.eqb a (Ascii.ascii_of_nat 13) then rev_string rest else line
  | EmptyString => line
  end.
(** [line] is what was read of the current line, backwards. *)
Fixpoint scan (limit : Z) (line : list Ascii.ascii) (s : string) : list string * bool :=
  let token := dropCR (String.string_of_list_ascii (rev line)) in
  match s with
  | EmptyString => match line with [] => ([], false) | _ => ([token], false) end
  | String a s =>
    if Ascii.eqb a newline then let '(lines, tooLong) := scan limit [] s in (token :: lines, tooLong)
    else if Z.leb limit (Z.of_nat (length line) + 1) then ([], true)
    else scan limit (a :: line) s
  end.
Definition ErrTooLong : error := ErrNew "bufio.Scanner: token too long".
(** The buffer starts with 64 KB and grows up to the maximum. *)
Definition scanner (maxEventBytes : Z) (s : string) : list string * bool := scan (Z.max (Z.shiftl 64 10) maxEventBytes) [] s.

Definition trim_prefix (p s : string) : string := match drop_prefix p s with Some s => s | None => s end.

(** ** Error messages of a provider *)

(** The runes of a string; an invalid byte is the replacement character. *)
Fixpoint lenient_runes (fuel : nat) (l : list Z) : list Z :=
  match fuel, l with
  | S fuel, _ :: l' =>
    match decode_rune l with
    | Some (r, rest) => r :: lenient_runes fuel rest
    | None => replacement :: lenient_runes fuel l'
    end
  | _, _ => []
  end.
Definition string_of_runes (rs : list Z) : string := bytes (Z.to_nat <$> concat (encode_rune <$> rs)).

(** [unicode.IsSpace] *)
Definition IsSpace (r : Z) : bool :=
  within 9 13 r || Z.eqb r 32 || Z.eqb r 133 || Z.eqb r 160 || Z.eqb r 5760 || within 8192 8202 r || Z.eqb r 8232 || Z.eqb r 8233 ||
  Z.eqb r 8239 || Z.eqb r 8287 || Z.eqb r 12288.
(** [strings.Fields]; [field] is the current one, backwards. *)
Fixpoint fields (field : list Z) (rs : list Z) : list (list Z) :=
  let ended := match field with [] => [] | _ => [rev field] end in
  match rs with
  | [] => ended
  | r :: rs => if IsSpace r then ended ++ fields [] rs else fields (r :: field) rs
  end.
Fixpoint join_runes (fs : list (list Z)) : list Z :=
  match fs with
  | [] => []
  | [f] => f
  | f :: fs => f ++ 32%Z :: join_runes fs
  end.
(** The runes that fit. *)
Fixpoint bounded_runes (room : Z) (rs : list Z) : list Z :=
  match rs with
  | [] => []
  | r :: rs =>
    let size := Z.of_nat (length (encode_rune r)) in
    if Z.ltb room size then [] else r :: bounded_runes (room - size) rs
  end.
Definition normalizeProviderErrorMessage (message : string) : string :=
  let runes := lenient_runes (String.length message) (byte_values message) in
  let mapped := map (fun r => if IsControl r || IsFormat r then 32%Z else r) runes in
  let joined := join_runes (fields [] mapped) in
  let message := string_of_runes joined in
  if Z.leb (Z.of_nat (String.length message)) MaxErrorMessageBytes then message
  else TrimSpace (string_of_runes (bounded_runes MaxErrorMessageBytes joined)).

Definition maxProviderErrorBodyBytes : Z := Z.shiftl 64 10.

(** [strconv.ParseInt(s, 10, 64)] *)
Fixpoint digits (acc : Z) (l : list Z) : option Z :=
  match l with
  | [] => Some acc
  | b :: l => if within 48 57 b then digits (acc * 10 + (b - 48)) l else None
  end.
Definition ParseInt (s : string) : option Z :=
  let '(sign, l) := match byte_values s with 43%Z :: l => (1, l) | 45%Z :: l => (-1, l) | l => (1, l) end%Z in
  match l with
  | [] => None
  | _ =>
    n ← digits 0 l;
    if Z.leb (- 2 ^ 63) (sign * n) && Z.ltb (sign * n) (2 ^ 63) then Some (sign * n)%Z else None
  end.

Definition retryableHTTPStatus (status : Z) : bool := bool_decide (status ∈ [408; 429; 502; 503; 504]%Z).

(** How long to wait before the attempt after number [attempt]. *)
Fixpoint doubled (times : nat) (provided : bool) (delay : Z) : Z :=
  match times with
  | O => delay
  | S times => if Z.ltb delay (10 * Second) then doubled times provided (if provided then delay else i64 (delay * 2)) else delay
  end.
Definition retry_delay (base providerDelay : Z) (attempt : nat) : Z :=
  let provided := Z.ltb 0 providerDelay in
  let delay := doubled (attempt - 1) provided (if provided then providerDelay else base) in
  if negb provided && Z.ltb (10 * Second) delay then 10 * Second else delay.

Section Wire.
Context {J : JsonOps} {W : WireFormat}.

Definition providerErrorMessage (b : body) : string :=
  if present (bd_error b) || Z.ltb maxProviderErrorBodyBytes (Z.of_nat (String.length (bd_bytes b))) then ""
  else
    match decode_error (bd_bytes b) with
    | None => ""
    | Some (nested, message) =>
      let message := normalizeProviderErrorMessage (if empty nested then message else nested) in
      if is_ok (ValidateErrorMessage message) then message else ""
    end.

Definition retryAfter (value : string) (now : Time) : Z :=
  if empty value then 0%Z
  else
    match ParseInt (TrimSpace value) with
    | Some seconds => if Z.ltb 0 seconds then i64 (seconds * Second) else 0%Z
    | None => match ParseTime value with Some at_ => if Z.ltb now at_ then (at_ - now)%Z else 0%Z | None => 0%Z end
    end.

(** ** The surroundings *)

(** How an exchange with the provider ends. *)
Inductive exchange :=
  | NotBuilt (err : error)
  | NotSent (err : error)
  | Answered (status : Z) (requestID retryAfter : string) (answer : body).

(** [sr_canceled n]: the context of the stream is done when question [n] is
    asked; it stays done.  The channel takes an event and the timer fires unless
    this happens first; when both have happened [sr_taken] and [sr_waited] say
    which case [select] chose. *)
Record surroundings := MkSurroundings {
  sr_exhausted : nat -> bool; sr_sequence : nat -> N; sr_Started : nat -> AttemptStart -> option error;
  sr_Finished : nat -> AttemptFinish -> option error; sr_exchange : nat -> exchange; sr_now : nat -> Time; sr_canceled : nat -> bool;
  sr_taken : nat -> bool; sr_waited : nat -> Z -> bool;
  sr_stays : forall n m, (n <= m)%nat -> sr_canceled n = true -> sr_canceled m = true }.

(** What happened, in order. *)
Inductive effect :=
  | Emitted (event : ModelEvent)
  | RecordedStart (start : AttemptStart) (err : option error)
  | RecordedFinish (finish : AttemptFinish) (err : option error).
Record io := MkIo { io_asked : nat; io_log : list effect }.
Definition IO (A : Type) : Type := io -> io * A.
#[export] Instance io_ret : MRet IO := fun A a s => (s, a).
#[export] Instance io_bind : MBind IO := fun A B f m s => let '(s, a) := m s in f a s.
(** The answer to the next question. *)
Definition ask_next {A} (f : nat -> A) : IO A := fun s => (MkIo (S (io_asked s)) (io_log s), f (io_asked s)).
Definition note (x : effect) : IO unit := fun s => (MkIo (io_asked s) (io_log s ++ [x]), tt).

Variables (ex : Executor) (sr : surroundings).

Definition emit (event : ModelEvent) : IO bool :=
  sent ← ask_next (fun n => negb (sr_canceled sr (S n)) || sr_taken sr n);
  if (sent : bool) then note (Emitted event) ;; mret true else mret false.
Definition waitRetry (delay : Z) : IO bool := ask_next (fun n => negb (sr_canceled sr (S n)) || sr_waited sr n delay).
Definition ctx_done : IO bool := ask_next (sr_canceled sr).
Definition Exhausted_now : IO bool := ask_next (sr_exhausted sr).
Definition Started (start : AttemptStart) : IO (option error) :=
  out ← ask_next (fun n => sr_Started sr n start);
  note (RecordedStart start out) ;; mret out.
Definition Finished (finish : AttemptFinish) : IO (option error) :=
  out ← ask_next (fun n => sr_Finished sr n finish);
  note (RecordedFinish finish out) ;; mret out.

Definition delta (attemptID text : string) : ModelEvent := MkModelEvent EventDelta attemptID text None None.
Definition reset (attemptID : string) : ModelEvent := MkModelEvent EventReset attemptID "" None None.
Definition complete (attemptID : string) (c : Completion) : ModelEvent := MkModelEvent EventComplete attemptID "" (Some c) None.
Definition failed (attemptID : string) (err : error) : ModelEvent := MkModelEvent EventFailed attemptID "" None (Some err).

(** ** The parser of one answer *)
Record accumulator := MkAccumulator { acc_id : string; acc_name : string; acc_arguments : string }.
Record sseParser := MkParser {
  sp_text : string; sp_tools : gmap Z accumulator; sp_emitted : bool; sp_finished : bool; sp_done : bool; sp_outputBytes : Z; sp_usage : TokenUsage }.
Definition new_parser : sseParser := MkParser "" ∅ false false false 0 no_usage.
Definition set_usage (p : sseParser) (u : TokenUsage) : sseParser :=
  MkParser (sp_text p) (sp_tools p) (sp_emitted p) (sp_finished p) (sp_done p) (sp_outputBytes p) u.
Definition set_done (p : sseParser) : sseParser :=
  MkParser (sp_text p) (sp_tools p) (sp_emitted p) (sp_finished p) true (sp_outputBytes p) (sp_usage p).
Definition set_finished (p : sseParser) : sseParser :=
  MkParser (sp_text p) (sp_tools p) (sp_emitted p) true (sp_done p) (sp_outputBytes p) (sp_usage p).
Definition add_text (p : sseParser) (text : string) : sseParser :=
  MkParser (sp_text p +:+ text) (sp_tools p) true (sp_finished p) (sp_done p) (sp_outputBytes p) (sp_usage p).

(** The parser with the size added, and the error. *)
Definition addOutputBytes (p : sseParser) (size : Z) : sseParser * option error :=
  let total := i64 (sp_outputBytes p + size) in
  (MkParser (sp_text p) (sp_tools p) (sp_emitted p) (sp_finished p) (sp_done p) total (sp_usage p),
   if Z.ltb (ex_maxOutputBytes ex) total then Some (ErrNew "provider output exceeds configured size limit") else None).

Definition chunk_usage (u : chunkUsage) : TokenUsage :=
  MkTokenUsage (cu_PromptTokens u) (cu_CompletionTokens u) (default 0%Z (cu_CachedTokens u)) 0 (default 0%Z (cu_ReasoningTokens u)) (cu_TotalTokens u)
    false "".

Definition add_fragment (p : sseParser) (f : toolFragment) : sseParser * option error :=
  let '(p, err) := addOutputBytes p (size_of (fr_ID f) + size_of (fr_Name f) + size_of (fr_Arguments f)) in
  match err with
  | Some err => (p, Some err)
  | None =>
    let a := default (MkAccumulator "" "" "") (sp_tools p !! fr_Index f) in
    let a := MkAccumulator (acc_id a +:+ fr_ID f) (acc_name a +:+ fr_Name f) (acc_arguments a +:+ fr_Arguments f) in
    (MkParser (sp_text p) (<[fr_Index f := a]> (sp_tools p)) (sp_emitted p) (sp_finished p) (sp_done p) (sp_outputBytes p) (sp_usage p), None)
  end.
Fixpoint add_fragments (p : sseParser) (fs : list toolFragment) : sseParser * option error :=
  match fs with
  | [] => (p, None)
  | f :: fs =>
    match add_fragment p f with
    | (p, None) => add_fragments p fs
    | (p, Some err) => (p, Some err)
    end
  end.

Definition add_content (attemptID : string) (p : sseParser) (text : string) : IO (sseParser * option error) :=
  if empty text then mret (p, None)
  else
    match addOutputBytes p (size_of text) with
    | (p, Some err) => mret (p, Some err)
    | (p, None) =>
      sent ← emit (delta attemptID text);
      mret (add_text p text, if (sent : bool) then None else Some (ErrNew "context canceled"))
    end.
Fixpoint add_choices (attemptID : string) (p : sseParser) (choices : list chatChoice) : IO (sseParser * option error) :=
  match choices with
  | [] => mret (p, None)
  | choice :: choices =>
    '(p, err) ← add_content attemptID p (ch_Content choice);
    match (err : option error) with
    | Some err => mret (p, Some err)
    | None =>
      match add_fragments p (ch_ToolCalls choice) with
      | (p, Some err) => mret (p, Some err)
      | (p, None) => add_choices attemptID (if ch_finished choice then set_finished p else p) choices
      end
    end
  end.

(** The closure [process] of [consume] on the lines of one event. *)
Definition process (attemptID : string) (p : sseParser) (data : list string) : IO (sseParser * option error) :=
  match data with
  | [] => mret (p, None)
  | _ =>
    let payload := String.concat (String newline "") data in
    if String.eqb payload "[DONE]" then mret (set_done p, None)
    else
      match decode_chunk payload with
      | inr err => mret (p, Some err)
      | inl chunk =>
        match chunk_usage <$> ck_Usage chunk with
        | Some u =>
          if is_ok (TokenUsage_Validate u) then add_choices attemptID (set_usage p u) (ck_Choices chunk)
          else mret (p, Some (ErrNew "provider returned invalid usage"))
        | None => add_choices attemptID p (ck_Choices chunk)
        end
      end
  end.

(** The loop over the lines: the parser and the open event, or the error. *)
Fixpoint consume_lines (attemptID : string) (p : sseParser) (data : list string) (dataBytes : Z) (lines : list string)
    : IO (sseParser * (list string + error)) :=
  match lines with
  | [] => mret (p, inl data)
  | line :: lines =>
    if empty line then
      '(p, err) ← process attemptID p data;
      match (err : option error) with
      | Some err => mret (p, inr err)
      | None => if sp_done p then mret (p, inl []) else consume_lines attemptID p [] 0 lines
      end
    else
      match drop_prefix "data:" line with
      | Some value =>
        let value := trim_prefix " " value in
        let dataBytes := (dataBytes + size_of value)%Z in
        if Z.ltb (ex_maxEventBytes ex) dataBytes then mret (p, inr (ErrNew "provider event exceeds configured size limit"))
        else consume_lines attemptID p (data ++ [value]) dataBytes lines
      | None => consume_lines attemptID p data dataBytes lines
      end
  end.

Definition tool_call (a : accumulator) : ToolCallRequest :=
  MkToolCallRequest (acc_id a) (acc_name a) (if empty (acc_arguments a) then "{}" else acc_arguments a).
Definition index_le (a b : Z * accumulator) : Prop := (a.1 <= b.1)%Z.
#[local] Instance index_le_dec a b : Decision (index_le a b).
Proof. unfold index_le. apply _. Defined.
(** The accumulators in the order of their indexes. *)
Definition tool_calls (tools : gmap Z accumulator) : list ToolCallRequest := map (fun x => tool_call x.2) (merge_sort index_le (map_to_list tools)).
Definition completion_of (p : sseParser) : Completion + error :=
  let completion := MkCompletion (if empty (sp_text p) then [] else [MkMessagePart PartText (sp_text p) "" "" ""]) (tool_calls (sp_tools p)) "" in
  if negb (forallb ToolCallRequest_Valid (cmp_ToolCalls completion)) then inr (ErrNew "provider returned an invalid tool call")
  else if negb (Completion_Valid completion) then inr (ErrNew "provider returned an empty completion")
  else inl completion.

(** [sseParser.consume]: the parser afterwards holds [emitted], the usage and
    the size. *)
Definition consume (attemptID : string) (b : body) : IO (sseParser * (Completion + error)) :=
  let '(lines, tooLong) := scanner (ex_maxEventBytes ex) (bd_bytes b) in
  '(p, out) ← consume_lines attemptID new_parser [] 0 lines;
  match (out : list string + error) with
  | inr err => mret (p, inr err)
  | inl data =>
    let scanned := if sp_done p then (if bd_seen b then bd_error b else None) else if tooLong then Some ErrTooLong else bd_error b in
    match scanned with
    | Some err => mret (p, inr err)
    | None =>
      '(p, err) ← process attemptID p data;
      mret (p, match (err : option error) with
               | Some err => inr err
               | None =>
                 if negb (sp_done p) && negb (sp_finished p) then inr (ErrNew "provider stream ended before a terminal marker")
                 else completion_of p
               end)
    end
  end.

(** ** One attempt *)
Record attemptResult := MkAttemptResult {
  ar_outcome : Completion + error; ar_emitted : bool; ar_retryable : bool; ar_retryDelay : Z; ar_usage : TokenUsage; ar_providerRequestID : string;
  ar_outputBytes : Z; ar_errorCode : string; ar_errorMessage : string }.
Definition failed_attempt (retryable : bool) (delay : Z) (requestID code message : string) (err : error) : attemptResult :=
  MkAttemptResult (inr err) false retryable delay no_usage requestID 0 code message.
Definition errCredentialUnavailable : string := "openaicompat: provider credential is unavailable".

Definition attempt_ (attemptID : string) : IO attemptResult :=
  answer ← ask_next (sr_exchange sr);
  match (answer : exchange) with
  | NotBuilt err => mret (failed_attempt false 0 "" "request_build" "" err)
  | NotSent err => mret (failed_attempt true 0 "" (if errors_Is err errCredentialUnavailable then "credential_unavailable" else "transport") "" err)
  | Answered status requestID after b =>
    if Z.ltb status 200 || Z.leb 300 status then
      at_ ← ask_next (sr_now sr);
      mret (failed_attempt (retryableHTTPStatus status) (retryAfter after at_) requestID ("http_" +:+ pretty status) (providerErrorMessage b)
        (Errorf "provider returned HTTP status %d" [AInt status]))
    else
      '(p, out) ← consume attemptID b;
      mret (MkAttemptResult out (sp_emitted p) true 0 (sp_usage p) requestID (sp_outputBytes p)
        (match (out : Completion + error) with inl _ => "" | inr _ => "stream" end) "")
  end.

(** ** The attempts of a call *)
Variables (config : Config) (inputTokenEstimate : Z).

Definition attempt_usage (r : attemptResult) : TokenUsage :=
  if bool_decide (ar_usage r = no_usage) then
    let output := ((ar_outputBytes r + 3) / 4)%Z in
    MkTokenUsage inputTokenEstimate output 0 0 0 (i64 (inputTokenEstimate + output)) true "openaicompat.local_semantic_estimate"
  else ar_usage r.
(** The record of the end of an attempt; [canceled] says whether the context is
    done. *)
Definition attempt_finish (attemptID : string) (r : attemptResult) (canceled : bool) : AttemptFinish :=
  let finish outcome code := MkAttemptFinish attemptID outcome (ar_providerRequestID r) (attempt_usage r) code (ar_errorMessage r) in
  match ar_outcome r with
  | inl _ => finish OutcomeSucceeded ""
  | inr err =>
    if errors_Is err "context canceled" || canceled then finish OutcomeCanceled "canceled"
    else finish OutcomeFailed (if errors_Is err "context deadline exceeded" then "timeout" else ar_errorCode r)
  end.
Definition budget_exceeded : error := ErrNew "model: run token budget exhausted".
Definition attempt_id (n : N) : string := ex_providerKey ex +:+ "-attempt-" +:+ pretty n.

(** [emit] where the result does not matter. *)
Definition emit_last (event : ModelEvent) : IO unit := emit event ;; mret tt.
(** [result.emitted && !s.emit(reset)] *)
Definition stopped_at_reset (attemptID : string) (r : attemptResult) : IO bool :=
  if ar_emitted r then sent ← emit (reset attemptID); mret (negb sent) else mret false.

(** The loop of [run] from number [attempt] on, with [tries] attempts left. *)
Fixpoint run_from (tries attempt : nat) : IO unit :=
  match tries with
  | O => mret tt
  | S tries =>
    exhausted ← Exhausted_now;
    if (exhausted : bool) then emit_last (failed "" budget_exceeded)
    else
      n ← ask_next (sr_sequence sr);
      let attemptID := attempt_id n in
      refused ← Started (MkAttemptStart attemptID (cfg_ProviderKey config) (cfg_ModelID config));
      match (refused : option error) with
      | Some err => emit_last (failed attemptID err)
      | None =>
        r ← attempt_ attemptID;
        done ← ctx_done;
        unrecorded ← Finished (attempt_finish attemptID r done);
        match (unrecorded : option error), ar_outcome r with
        | Some err, _ => emit_last (failed attemptID err)
        | None, inl completion => emit_last (complete attemptID completion)
        | None, inr err =>
          done ← ctx_done;
          if (done : bool) then mret tt
          else if negb (ar_retryable r) || Nat.eqb tries 0 then
            stopped ← stopped_at_reset attemptID r;
            if (stopped : bool) then mret tt
            else emit_last (failed attemptID (NewError ErrorUnavailable "openaicompat.stream" [("model provider request failed", [])] (Some err)))
          else
            stopped ← stopped_at_reset attemptID r;
            if (stopped : bool) then mret tt
            else
              exhausted ← Exhausted_now;
              if (exhausted : bool) then emit_last (failed attemptID budget_exceeded)
              else
                waited ← waitRetry (retry_delay (ex_retryBackoff ex) (ar_retryDelay r) attempt);
                if (waited : bool) then run_from tries (S attempt) else mret tt
        end
      end
  end.
Definition run : IO unit := run_from (Z.to_nat (ex_maxAttempts ex)) 1.

End Wire.
