(* ===== verification/ProviderStreamFacts.v ===== *)
(** * A provider call is a legal stream

    What [ProviderStream.run] does for one logical call, whatever its
    surroundings answer: every physical attempt is recorded exactly once, and
    the events it emits are ones that [StreamState.Accept] accepts. *)

From stdpp Require Import pretty.
From S2P Require Import JsonValue.
From S2P Require Import Prelude GoStrings AgentTypes ModelContracts TextFacts ModelStream ProviderStream SessionStoreFacts.

(** ** What is promised *)

(** Where a call stands with its recorder: no attempt is open; one is open; it
    succeeded, so that its completion is due; the recorder refused, so that a
    failure is due; the call is over. *)
Inductive phase := Between | Opened (id : string) | Succeeded (id : string) | Refused | Over.

Definition ensure {A} (b : bool) (a : A) : option A := if b then Some a else None.
(** The next effect, if it is in order; the number counts the attempts. *)
Definition ledger_step (l : phase * nat) (x : effect) : option (phase * nat) :=
  let '(ph, n) := l in
  match ph, x with
  | Between, RecordedStart start err =>
    ensure (is_ok (AttemptStart_Validate start)) (if present err then (Refused, n) else (Opened (ats_AttemptID start), S n))
  | Between, Emitted e =>
    match me_Kind e with EventReset => Some (Between, n) | EventFailed => Some (Over, n) | _ => None end
  | Opened id, Emitted e => ensure (bool_decide (me_Kind e = EventDelta) && String.eqb (me_AttemptID e) id) (Opened id, n)
  | Opened id, RecordedFinish finish err =>
    ensure (is_ok (AttemptFinish_Validate finish) && String.eqb (atf_AttemptID finish) id)
      (if present err then Refused else if decide (atf_Outcome finish = OutcomeSucceeded) then Succeeded id else Between, n)
  | Succeeded id, Emitted e => ensure (bool_decide (me_Kind e = EventComplete) && String.eqb (me_AttemptID e) id) (Over, n)
  | Refused, Emitted e => ensure (bool_decide (me_Kind e = EventFailed)) (Over, n)
  | _, _ => None
  end.
Definition ledger (log : list effect) : option (phase * nat) := foldl (fun acc x => l ← acc; ledger_step l x) (Some (Between, 0%nat)) log.

(** The events, in order. *)
Definition events_of (log : list effect) : list ModelEvent := omap (fun x => match x with Emitted e => Some e | _ => None end) log.

(** The text that a subscriber sees after some events. *)
Definition shown_step (text : string) (e : ModelEvent) : string :=
  match me_Kind e with EventDelta => text +:+ me_Text e | EventReset => "" | _ => text end.
Definition shown (es : list ModelEvent) : string := foldl shown_step "" es.
Definition completion_text (c : Completion) : string := foldr (fun p text => part_Text p +:+ text) "" (cmp_Parts c).
(** A completion has the text that was shown before it. *)
Definition faithful (es : list ModelEvent) : Prop :=
  forall before e after c, es = before ++ e :: after -> me_Output e = Some c -> completion_text c = shown before.

Lemma ledger_snoc log x : ledger (log ++ [x]) = l ← ledger log; ledger_step l x.
Proof. unfold ledger. by rewrite foldl_app. Qed.
Lemma events_snoc log x : events_of (log ++ [x]) = events_of log ++ match x with Emitted e => [e] | _ => [] end.
Proof. unfold events_of. rewrite omap_app. by destruct x. Qed.
Lemma shown_snoc es e : shown (es ++ [e]) = shown_step (shown es) e.
Proof. unfold shown. by rewrite foldl_app. Qed.
Lemma faithful_snoc es e : faithful es -> (forall c, me_Output e = Some c -> completion_text c = shown es) -> faithful (es ++ [e]).
Proof.
  intros Hf He before e' after c Heq Hc. destruct after as [|x after _] using rev_ind.
  - apply app_inj_tail in Heq as [<- <-]. by apply He.
  - rewrite app_comm_cons, app_assoc in Heq. apply app_inj_tail in Heq as [-> _]. by eapply Hf.
Qed.

(** ** Reasoning about computations *)
Definition triple {A} (P : io -> Prop) (m : IO A) (Q : A -> io -> Prop) : Prop := forall s, P s -> Q (m s).2 (m s).1.

Lemma call_bind {A B} P (m : IO A) R (f : A -> IO B) Q :
  triple P m R -> (forall a, triple (R a) (f a) Q) -> triple P (m ≫= f) Q.
Proof.
  intros Hm Hf s H. unfold mbind, io_bind. specialize (Hm s H). destruct (m s) as [s' a]. by apply Hf.
Qed.
Lemma bind_eq {A B} (m : IO A) (f : A -> IO B) s : (m ≫= f) s = f (m s).2 (m s).1.
Proof. unfold mbind, io_bind. by destruct (m s). Qed.
Lemma call_conseq {A} (P P' : io -> Prop) (m : IO A) (Q Q' : A -> io -> Prop) :
  triple P' m Q' -> (forall s, P s -> P' s) -> (forall a s, Q' a s -> Q a s) -> triple P m Q.
Proof. intros Hm HP HQ s H. by apply HQ, Hm, HP. Qed.
Lemma call_ask {A} (P : io -> Prop) (f : nat -> A) (Q : A -> io -> Prop) :
  (forall n log, P (MkIo n log) -> Q (f n) (MkIo (S n) log)) -> triple P (ask_next f) Q.
Proof. intros H [n log] Hp. by apply H. Qed.
Lemma call_note (P : io -> Prop) x (Q : unit -> io -> Prop) :
  (forall n log, P (MkIo n log) -> Q tt (MkIo n (log ++ [x]))) -> triple P (note x) Q.
Proof. intros H [n log] Hp. by apply H. Qed.

Section Facts.
Context {J : JsonOps} {W : WireFormat}.
Variables (ex : Executor) (sr : surroundings).

Definition canceled (s : io) : Prop := sr_canceled sr (io_asked s) = true.

(** Where a call stands: the stream checker, the text that is shown and the
    recorder. *)
Definition stands (st : StreamState) (text : string) (l : phase * nat) (s : io) : Prop :=
  foldM Accept (events_of (io_log s)) new_stream = Ok st /\ shown (events_of (io_log s)) = text /\ faithful (events_of (io_log s)) /\
  ledger (io_log s) = Some l.
(** The checker when an attempt has shown a text. *)
Definition showing (id text : string) : StreamState := if empty text then new_stream else MkStreamState id true false.

Lemma canceled_ask n log : canceled (MkIo n log) -> canceled (MkIo (S n) log).
Proof. intros H. exact (sr_stays sr n (S n) (Nat.le_succ_diag_r n) H). Qed.

Lemma stands_note st text l l' n log x : match x with Emitted _ => False | _ => True end -> ledger_step l x = Some l' ->
  stands st text l (MkIo n log) -> stands st text l' (MkIo n (log ++ [x])).
Proof.
  unfold stands. simpl. intros Hx Hl (Ha&Ht&Hf&Hg). rewrite ledger_snoc, events_snoc, Hg. destruct x; [done| |]; by rewrite app_nil_r.
Qed.
Lemma stands_emitted st st' text l l' e n log :
  Accept st e = Ok st' -> ledger_step l (Emitted e) = Some l' -> (forall c, me_Output e = Some c -> completion_text c = text) ->
  stands st text l (MkIo n log) -> stands st' (shown_step text e) l' (MkIo n (log ++ [Emitted e])).
Proof.
  unfold stands. simpl. intros He Hl Hc (Ha&Ht&Hf&Hg). rewrite ledger_snoc, events_snoc, Hg, shown_snoc, Ht, foldM_app, Ha. simpl.
  rewrite He. split_and!; [done|done|by apply faithful_snoc; rewrite ?Ht|done].
Qed.

Lemma emit_stands st st' text l l' e :
  Accept st e = Ok st' -> ledger_step l (Emitted e) = Some l' -> (forall c, me_Output e = Some c -> completion_text c = text) ->
  triple (stands st text l) (emit sr e)
    (fun sent s => if (sent : bool) then stands st' (shown_step text e) l' s else stands st text l s /\ canceled s).
Proof.
  intros He Hl Hc. unfold emit. apply (call_bind _ _ (fun sent s => stands st text l s /\ ((sent : bool) = false -> canceled s))).
  - apply call_ask. intros n log H. split; [done|]. unfold canceled. simpl. intros Hs. by destruct (sr_canceled sr (S n)).
  - intros [].
    + apply (call_bind _ _ (fun _ => stands st' (shown_step text e) l')); [|by intros ? s H].
      apply call_note. intros n log [H _]. by eapply stands_emitted.
    + intros s [H Hs]. split; [done|]. by apply Hs.
Qed.

(** ** One answer of the provider *)

(** What the parser keeps. *)
Record parser_ok (p : sseParser) : Prop := {
  po_emitted : sp_emitted p = nonempty (sp_text p);
  po_usage : TokenUsage_Validate (sp_usage p) = Ok tt;
  po_bytes : (0 <= sp_outputBytes p < ex_maxOutputBytes ex + 2 ^ 48)%Z;
}.
Hypothesis bounded : (0 <= ex_maxOutputBytes ex <= 2 ^ 62)%Z.

Section Attempt.
Variables (id : string) (n : nat).
Hypothesis id_valid : ID_Valid id = true.

(** The attempt has shown what the parser has read, unless the context ended in
    between. *)
Definition follows (p : sseParser) (failure : bool) (s : io) : Prop :=
  parser_ok p /\ (failure = false -> (sp_outputBytes p <= ex_maxOutputBytes ex)%Z) /\
  exists text, stands (showing id text) text (Opened id, n) s /\ (text = sp_text p \/ failure = true /\ canceled s).

Lemma size_nonneg s : (0 <= size_of s)%Z.
Proof. unfold size_of. lia. Qed.
Lemma new_parser_ok : parser_ok new_parser.
Proof. split; [done|done|]. simpl. lia. Qed.
Lemma addOutputBytes_ok p size : parser_ok p -> (sp_outputBytes p <= ex_maxOutputBytes ex)%Z -> (0 <= size < 2 ^ 48)%Z ->
  exists p', addOutputBytes ex p size = (p', if Z.ltb (ex_maxOutputBytes ex) (sp_outputBytes p') then Some (ErrNew "provider output exceeds configured size limit") else None) /\
    parser_ok p' /\ sp_text p' = sp_text p.
Proof.
  intros [He Hu Hb] Hm Hs. unfold addOutputBytes.
  assert (Hi : i64 (sp_outputBytes p + size) = (sp_outputBytes p + size)%Z) by (apply i64_small; lia). rewrite Hi.
  exists (MkParser (sp_text p) (sp_tools p) (sp_emitted p) (sp_finished p) (sp_done p) (sp_outputBytes p + size) (sp_usage p)). split; [done|]. split; [split; [done..|cbn [sp_outputBytes]; lia]|done].
Qed.
Lemma add_fragment_ok p f p' err : parser_ok p -> (sp_outputBytes p <= ex_maxOutputBytes ex)%Z ->
  (size_of (fr_ID f) + size_of (fr_Name f) + size_of (fr_Arguments f) < 2 ^ 48)%Z -> add_fragment ex p f = (p', err) ->
  parser_ok p' /\ sp_text p' = sp_text p /\ (err = None -> (sp_outputBytes p' <= ex_maxOutputBytes ex)%Z).
Proof.
  intros Hp Hm Hf. unfold add_fragment.
  destruct (addOutputBytes_ok p _ Hp Hm (conj (Z.add_nonneg_nonneg _ _ (Z.add_nonneg_nonneg _ _ (size_nonneg (fr_ID f)) (size_nonneg (fr_Name f))) (size_nonneg (fr_Arguments f))) Hf)) as (q&->&Hq&Ht).
  destruct (Z.ltb_spec (ex_maxOutputBytes ex) (sp_outputBytes q)); intros [= <- <-]; [done|].
  split; [by destruct Hq|]. split; [done|]. simpl. lia.
Qed.
Lemma add_fragments_ok fs p p' err : parser_ok p -> (sp_outputBytes p <= ex_maxOutputBytes ex)%Z ->
  Forall (fun f => size_of (fr_ID f) + size_of (fr_Name f) + size_of (fr_Arguments f) < 2 ^ 48)%Z fs -> add_fragments ex p fs = (p', err) ->
  parser_ok p' /\ sp_text p' = sp_text p /\ (err = None -> (sp_outputBytes p' <= ex_maxOutputBytes ex)%Z).
Proof.
  revert p; induction fs as [|f fs IH]; intros p Hp Hm Hf; cbn [add_fragments]; [by intros [= <- <-]|]. apply Forall_cons in Hf as [Hf Hfs].
  destruct (add_fragment ex p f) as [q e] eqn:E. apply add_fragment_ok in E as (Hq&Ht&Hle); [|done..].
  destruct e; [by intros [= <- <-]|]. rewrite <-Ht. apply IH; auto.
Qed.

Lemma id_nonempty : nonempty id = true /\ empty id = false.
Proof. by apply ID_Valid_nonempty. Qed.
Lemma showing_terminal a text : ss_terminal (showing a text) = false.
Proof. unfold showing. by destruct (empty text). Qed.
Lemma Accept_delta s t : t ≠ "" -> Accept (showing id s) (delta id t) = Ok (showing id (s +:+ t)).
Proof.
  intros Ht. rewrite (event_accept _ _ EventDelta id); [|apply showing_terminal|]; [|split; [done|done| |done]].
  - unfold accept_kind, showing. destruct t; [done|]. destruct s; simpl; [done|]. rewrite String.eqb_refl, andb_false_r. done.
  - unfold ModelEvent_Validate; simpl. by destruct t.
Qed.
Lemma Accept_reset s : s ≠ "" -> Accept (showing id s) (reset id) = Ok new_stream.
Proof.
  intros Hs. rewrite (event_accept _ _ EventReset id); [|apply showing_terminal|by split].
  unfold accept_kind, showing. destruct s; [done|]. simpl. destruct id_nonempty as [_ ->]. by rewrite String.eqb_refl.
Qed.
Lemma Accept_complete s c : Completion_Valid c = true ->
  Accept (showing id s) (complete id c) = Ok (MkStreamState (ss_attemptID (showing id s)) (ss_visible (showing id s)) true).
Proof.
  intros Hc. rewrite (event_accept _ _ EventComplete id); [|apply showing_terminal|]; [|split; [done|done| |done]].
  - unfold accept_kind, showing. destruct s; simpl; [done|]. by rewrite String.eqb_refl, andb_false_r.
  - unfold ModelEvent_Validate; simpl. by rewrite Hc.
Qed.
Lemma Accept_failed a err : a = "" \/ ID_Valid a = true -> Accept new_stream (failed a err) = Ok (MkStreamState "" false true).
Proof.
  intros Ha. rewrite (event_accept _ _ EventFailed a); [done|done|]. split; [done|done|done|]. intros [|Hn]; [done|].
  destruct Ha as [->|Ha]; done.
Qed.

(** A parser that changed nothing that was shown. *)
Lemma follows_same p q failure s : follows p false s -> parser_ok q -> sp_text q = sp_text p ->
  (failure = false -> (sp_outputBytes q <= ex_maxOutputBytes ex)%Z) -> follows q failure s.
Proof.
  intros (_&_&text&Hs&[->|[[=] _]]) Hq Ht Hm. split; [done|]. split; [done|]. rewrite <-Ht in Hs. exists (sp_text q). by split; [|left].
Qed.

Lemma ledger_delta t : ledger_step (Opened id, n) (Emitted (delta id t)) = Some (Opened id, n).
Proof. unfold ledger_step, ensure, delta. cbn [me_AttemptID me_Kind]. by rewrite String.eqb_refl. Qed.

Definition read {E} (x : sseParser * option E) (s : io) : Prop := follows x.1 (present x.2) s.

Lemma add_content_spec p text : (size_of text < 2 ^ 48)%Z -> triple (follows p false) (add_content ex sr id p text) read.
Proof.
  intros Hsize. unfold add_content. destruct (empty text) eqn:Et; [by intros s H|]. assert (Hne : text ≠ "") by (by destruct text).
  intros s H. pose proof H as (Hp&Hm&t&Hs&[->|[[=] _]]).
  destruct (addOutputBytes_ok p (size_of text) Hp (Hm eq_refl) (conj (size_nonneg text) Hsize)) as (q&->&Hq&Ht).
  destruct (Z.ltb_spec (ex_maxOutputBytes ex) (sp_outputBytes q)) as [Hlt|Hle]; [by apply (follows_same p)|].
  assert (Ha : parser_ok (add_text q text)).
  { destruct Hq as [He Hu Hb]. split; [|done|done]. simpl. by destruct (sp_text q), text. }
  pose proof (emit_stands _ _ _ _ (Opened id, n) _ (Accept_delta (sp_text p) text Hne) (ledger_delta text) (fun c H => ltac:(done)) s Hs) as He.
  rewrite bind_eq. destruct (emit sr (delta id text) s) as [s' []]; (split; [done|split; [intros; done|]]).
  - exists (sp_text q +:+ text). split; [|by left]. by rewrite Ht.
  - destruct He as [He Hc]. exists (sp_text p). split; [done|by right].
Qed.

Lemma add_choices_spec cs p : Forall in_memory cs -> triple (follows p false) (add_choices ex sr id p cs) read.
Proof.
  revert p; induction cs as [|c cs IH]; intros p Hcs; cbn [add_choices]; [by intros s H|]. apply Forall_cons in Hcs as [[Hc Hf] Hcs].
  apply (call_bind _ _ read); [by apply add_content_spec|]. intros [q [err|]]; [by intros s H|].
  destruct (add_fragments ex q (ch_ToolCalls c)) as [q' err] eqn:E. unfold read at 1. cbn [fst snd present].
  intros s H. pose proof H as (Hq&Hm&_). apply add_fragments_ok in E as (Hq'&Ht&Hle); [|auto..].
  destruct err as [err|]; [by apply (follows_same q)|]. apply IH; [done|].
  apply (follows_same q); destruct (ch_finished c); auto. by destruct Hq'.
Qed.

Lemma process_spec p data : triple (follows p false) (process ex sr id p data) read.
Proof.
  unfold process. destruct data as [|d data]; [by intros s H|]. destruct (String.eqb _ _).
  { intros s H. pose proof H as ([? ? ?]&Hm&_). by apply (follows_same p). }
  destruct (decode_chunk _) as [chunk|err] eqn:E; [|by intros s H; apply (follows_same p); destruct H].
  apply decode_chunk_in_memory in E. destruct (ck_Usage chunk) as [u|]; cbn [fmap option_fmap option_map]; [|by apply add_choices_spec].
  destruct (TokenUsage_Validate (chunk_usage u)) as [[]| |] eqn:Eu; simpl; [|by intros s H; apply (follows_same p); destruct H..].
  intros s H. apply (add_choices_spec _ (set_usage p (chunk_usage u)) E). pose proof H as ([? ? ?]&Hm&_). by apply (follows_same p).
Qed.

Lemma consume_lines_spec lines p data size :
  triple (follows p false) (consume_lines ex sr id p data size lines)
    (fun x => follows x.1 (match x.2 with inr _ => true | inl _ => false end)).
Proof.
  revert p data size; induction lines as [|line lines IH]; intros p data size; cbn [consume_lines]; [by intros s H|].
  destruct (empty line).
  - apply (call_bind _ _ read); [apply process_spec|]. intros [q [err|]]; [by intros s H|]. destruct (sp_done q); [by intros s H|apply IH].
  - destruct (drop_prefix "data:" line) as [value|]; [|apply IH]. destruct (Z.ltb _ _); [|apply IH].
    intros s H. by apply (follows_same p); destruct H.
Qed.

Lemma completion_of_ok p c : completion_of p = inl c -> Completion_Valid c = true /\ completion_text c = sp_text p.
Proof.
  unfold completion_of. destruct (negb (forallb _ _)); [done|]. destruct (Completion_Valid _) eqn:E; simpl; [|done].
  intros [= <-]. split; [done|]. destruct (sp_text p) as [|a t]; [done|]. unfold completion_text. simpl. apply string_app_nil.
Qed.

(** What [consume] returns. *)
Definition consumed (x : sseParser * (Completion + error)) (s : io) : Prop :=
  follows x.1 (match x.2 with inr _ => true | inl _ => false end) s /\
  forall c, x.2 = inl c -> Completion_Valid c = true /\ completion_text c = sp_text x.1.

Lemma consume_spec b : triple (follows new_parser false) (consume ex sr id b) consumed.
Proof.
  unfold consume. destruct (scanner _ _) as [lines tooLong]. eapply call_bind; [apply consume_lines_spec|]. intros [p [data|err]]; [|by intros s H].
  match goal with |- context [match ?x with Some _ => _ | None => _ end] => destruct x as [err|] end.
  { intros s H. split; [|done]. by apply (follows_same p); destruct H. }
  apply (call_bind _ _ read); [apply process_spec|]. intros [q [err|]] s H; [by split|]. destruct (negb _ && negb _).
  { split; [|done]. by apply (follows_same q); destruct H. }
  destruct (completion_of q) as [c|err] eqn:E; split; [done| |by apply (follows_same q); destruct H|done].
  intros c' [= <-]. by apply completion_of_ok.
Qed.

(** What one attempt leaves: its result can be recorded, and it shows the text
    of its completion unless the context ended. *)
Record result_ok (r : attemptResult) : Prop := {
  ro_usage : TokenUsage_Validate (ar_usage r) = Ok tt;
  ro_bytes : (0 <= ar_outputBytes r < 2 ^ 62 + 2 ^ 48)%Z;
  ro_message : ValidateErrorMessage (ar_errorMessage r) = Ok tt;
  ro_error : match ar_outcome r with inl _ => ar_errorMessage r = "" | inr _ => ar_errorCode r ≠ "" end;
}.
Definition shows (r : attemptResult) (l : phase * nat) (s : io) : Prop :=
  exists text, stands (showing id text) text l s /\
    ((ar_emitted r = nonempty text /\ forall c, ar_outcome r = inl c -> Completion_Valid c = true /\ completion_text c = text) \/
     (exists err, ar_outcome r = inr err) /\ canceled s).
Definition attempted (r : attemptResult) (s : io) : Prop := result_ok r /\ shows r (Opened id, n) s.

Lemma providerErrorMessage_valid b : ValidateErrorMessage (providerErrorMessage b) = Ok tt.
Proof.
  unfold providerErrorMessage. destruct (_ || _); [done|]. destruct (decode_error _) as [[nested message]|]; [|done].
  destruct (ValidateErrorMessage (normalizeProviderErrorMessage _)) as [[]| |] eqn:E; [by simpl; rewrite E|done..].
Qed.

Lemma failed_attempt_ok retryable delay requestID code message err s :
  stands new_stream "" (Opened id, n) s -> code ≠ "" -> ValidateErrorMessage message = Ok tt ->
  attempted (failed_attempt retryable delay requestID code message err) s.
Proof. intros Hs Hc Hm. split; [by split; try done; simpl; lia|]. exists "". split; [done|]. by left. Qed.

Lemma attempt_spec : triple (stands new_stream "" (Opened id, n)) (attempt_ ex sr id) attempted.
Proof.
  unfold attempt_. apply (call_bind _ _ (fun _ => stands new_stream "" (Opened id, n))); [by apply call_ask|].
  intros [err|err|status requestID after b].
  - intros s H. by apply failed_attempt_ok.
  - intros s H. apply failed_attempt_ok; [done|by destruct (errors_Is _ _)|done].
  - destruct (_ || _).
    + apply (call_bind _ _ (fun _ => stands new_stream "" (Opened id, n))); [by apply call_ask|].
      intros at_ s H. apply failed_attempt_ok; [done|done|apply providerErrorMessage_valid].
    + apply (call_bind _ _ consumed).
      * eapply call_conseq; [apply consume_spec| |done]. intros s H. split; [apply new_parser_ok|]. split; [intros _; simpl; lia|].
        exists "". by split; [|left].
      * intros [p out] s [(Hp&Hm&text&Hs&Ht) Hc]. simpl in *. split.
        { destruct Hp. split; [done|simpl; lia|done|]. by destruct out. }
        exists text. split; [done|]. destruct Ht as [->|[Hf Hd]].
        { left. split; [apply Hp|done]. }
        right. destruct out as [|err]; [done|]. split; [by exists err|done].
Qed.
End Attempt.

(** ** The attempts of a call *)
Variables (config : Config) (estimate : Z).
Hypothesis estimated : (0 <= estimate <= 2 ^ 62)%Z.
Hypothesis model_named : cfg_ModelID config ≠ "".
Hypothesis key_trimmed : TrimSpace (ex_providerKey ex) = ex_providerKey ex.

Lemma attempt_id_valid k : ID_Valid (attempt_id ex k) = true.
Proof.
  apply ID_Valid_spec. unfold attempt_id. destruct (pretty_N_last k) as (pre&d&->&Hd).
  change ("-attempt-" +:+ pre +:+ String d "") with (String (Ascii.ascii_of_nat 45) ("attempt-" +:+ pre +:+ String d "")).
  rewrite <-(string_app_assoc "attempt-"). split; [by destruct (ex_providerKey ex)|]. by apply TrimSpace_app.
Qed.

Lemma estimate_valid r : result_ok r -> TokenUsage_Validate (attempt_usage estimate r) = Ok tt.
Proof.
  intros [Hu Hb _ _]. unfold attempt_usage. destruct (bool_decide _); [|done].
  pose proof (Z.div_mod (ar_outputBytes r + 3) 4 ltac:(done)). pose proof (Z.mod_pos_bound (ar_outputBytes r + 3) 4 ltac:(done)).
  assert (Hi : i64 (estimate + (ar_outputBytes r + 3) / 4) = (estimate + (ar_outputBytes r + 3) / 4)%Z) by (apply i64_small; lia).
  unfold TokenUsage_Validate. cbn. rewrite Hi.
  rewrite !(proj2 (Z.ltb_ge _ _)) by lia. done.
Qed.

Lemma finish_valid id r done : ID_Valid id = true -> result_ok r -> AttemptFinish_Validate (attempt_finish estimate id r done) = Ok tt.
Proof.
  intros Hid Hr. pose proof (estimate_valid r Hr) as Hu. destruct Hr as [_ _ Hm He]. unfold attempt_finish, AttemptFinish_Validate.
  destruct (ar_outcome r) as [c|err]; [|destruct (_ || _); [|destruct (errors_Is _ _)]]; cbn; rewrite Hid, Hu, ?He, ?Hm; try done.
  cbn. by destruct (ar_errorCode r).
Qed.

(** The recorder failed to record an end. *)
Definition unrecorded (s : io) : Prop := exists finish err, RecordedFinish finish (Some err) ∈ io_log s.
(** The call is over, after at most so many attempts. *)
Definition closed (most : nat) (s : io) : Prop :=
  (exists ph k, ledger (io_log s) = Some (ph, k) /\ (forall id, ph ≠ Opened id) /\ (k <= most)%nat) /\
  (unrecorded s \/ exists st, foldM Accept (events_of (io_log s)) new_stream = Ok st /\ (Terminal st = true \/ canceled s) /\
                          faithful (events_of (io_log s))).

Lemma stands_closed most st text ph k s : stands st text (ph, k) s -> (forall id, ph ≠ Opened id) -> (k <= most)%nat ->
  Terminal st = true \/ canceled s -> closed most s.
Proof. intros (Ha&_&Hf&Hl) Hp Hk Hs. split; [by exists ph, k|]. right. by exists st. Qed.

Lemma emit_last_spec most st st' text ph k e :
  Accept st e = Ok st' -> Terminal st' = true -> ledger_step (ph, k) (Emitted e) = Some (Over, k) ->
  (forall c, me_Output e = Some c -> completion_text c = text) -> (forall id, ph ≠ Opened id) -> (k <= most)%nat ->
  triple (stands st text (ph, k)) (emit_last sr e) (fun _ => closed most).
Proof.
  intros He Ht Hl Hc Hp Hk s H. unfold emit_last. rewrite bind_eq. pose proof (emit_stands _ _ _ _ _ _ He Hl Hc s H) as Hs.
  destruct (emit sr e s) as [s' []].
  - by eapply stands_closed; [exact Hs| |done|left].
  - destruct Hs as [Hs Hd]. eapply stands_closed; [exact Hs|done|done|by right].
Qed.

Lemma refused_spec most k a err : (k <= most)%nat ->
  triple (fun s => ledger (io_log s) = Some (Refused, k) /\ unrecorded s) (emit_last sr (failed a err)) (fun _ => closed most).
Proof.
  intros Hk [i log] [Hl (f&e&Hu)]. unfold emit_last, emit. rewrite !bind_eq. simpl. simpl in Hl, Hu. destruct (_ || _); split; simpl.
  - exists Over, k. by rewrite ledger_snoc, Hl.
  - left. exists f, e. apply elem_of_app. by left.
  - by exists Refused, k.
  - left. by exists f, e.
Qed.

Lemma stopped_at_reset_spec most id r text k : ID_Valid id = true -> ar_emitted r = nonempty text -> (k <= most)%nat ->
  triple (stands (showing id text) text (Between, k)) (stopped_at_reset sr id r)
    (fun stopped s => if (stopped : bool) then closed most s else stands new_stream "" (Between, k) s).
Proof.
  intros Hid Hr Hk s H. unfold stopped_at_reset. rewrite Hr. destruct (decide (text = "")) as [->|Hne]; [done|].
  assert (nonempty text = true) as -> by (by destruct text). rewrite bind_eq.
  pose proof (emit_stands _ _ text (Between, k) (Between, k) _ (Accept_reset id Hid text Hne) eq_refl (fun c H => ltac:(done)) s H) as Hs.
  destruct (emit sr (reset id) s) as [s' []]; simpl; [done|]. destruct Hs as [Hs Hd]. by eapply stands_closed; [| | |right].
Qed.

(** Why the attempt was over for the recorder. *)
Definition ended (r : attemptResult) (id : string) : phase := match ar_outcome r with inl _ => Succeeded id | inr _ => Between end.

Lemma Started_spec k id :
  ID_Valid id = true ->
  triple (stands new_stream "" (Between, k)) (Started sr (MkAttemptStart id (cfg_ProviderKey config) (cfg_ModelID config)))
    (fun err => stands new_stream "" (match err with Some _ => (Refused, k) | None => (Opened id, S k) end)).
Proof.
  intros Hid [i log] H. unfold Started. rewrite bind_eq. simpl. apply (stands_note _ _ (Between, k)); [done| |done].
  unfold ledger_step, AttemptStart_Validate. cbn. rewrite Hid. destruct (cfg_ModelID config); [done|]. cbn. by destruct (sr_Started sr i _).
Qed.

Lemma Finished_spec k id r over : ID_Valid id = true ->
  triple (attempted id k r) (Finished sr (attempt_finish estimate id r over))
    (fun err s => match err with
                  | None => shows id r (ended r id, k) s
                  | Some _ => ledger (io_log s) = Some (Refused, k) /\ unrecorded s
                  end).
Proof.
  intros Hid [i log] [Hr (text&Hs&Ht)]. unfold Finished. rewrite bind_eq. simpl.
  assert (Hl : ledger_step (Opened id, k) (RecordedFinish (attempt_finish estimate id r over) (sr_Finished sr i (attempt_finish estimate id r over))) =
    Some (match sr_Finished sr i (attempt_finish estimate id r over) with Some _ => Refused | None => ended r id end, k)).
  { unfold ledger_step. rewrite finish_valid by done. unfold attempt_finish, ended.
    destruct (ar_outcome r) as [c|err]; [|destruct (_ || _)]; cbn; rewrite String.eqb_refl; by destruct (sr_Finished sr i _). }
  pose proof (stands_note _ _ _ _ (S i) _ (RecordedFinish _ _) I Hl Hs) as Hn.
  destruct (sr_Finished sr i _) as [err|] eqn:E.
  - split; [apply Hn|]. exists (attempt_finish estimate id r over), err. simpl. apply elem_of_app. right. by apply list_elem_of_singleton.
  - exists text. split; [done|]. destruct Ht as [Ht|[He Hc]]; [by left|right]. split; [done|]. by apply (canceled_ask i log).
Qed.

Lemma ctx_done_spec most id r err k : ar_outcome r = inr err -> (k <= most)%nat ->
  triple (shows id r (Between, k)) (ctx_done sr)
    (fun over s => if (over : bool) then closed most s
                   else exists text, ar_emitted r = nonempty text /\ stands (showing id text) text (Between, k) s).
Proof.
  intros Hr Hk. apply call_ask. intros i log (text&Hs&Ht). destruct (sr_canceled sr i) eqn:E.
  - eapply (stands_closed _ _ _ _ _ (MkIo (S i) log)); [exact Hs|done|done|right]. by apply canceled_ask.
  - exists text. split; [|done]. destruct Ht as [[Ht _]|[_ Hc]]; [done|]. unfold canceled in Hc. simpl in Hc. congruence.
Qed.

Lemma failed_spec most k id err : id = "" \/ ID_Valid id = true -> (k <= most)%nat ->
  triple (stands new_stream "" (Between, k)) (emit_last sr (failed id err)) (fun _ => closed most).
Proof. intros Hid Hk. by eapply emit_last_spec; [apply Accept_failed| | | | |]. Qed.

Lemma complete_spec most k id r c : ID_Valid id = true -> ar_outcome r = inl c -> (k <= most)%nat ->
  triple (shows id r (Succeeded id, k)) (emit_last sr (complete id c)) (fun _ => closed most).
Proof.
  intros Hid Hr Hk s (text&Hs&[[_ Hc]|[[err He] _]]); [|congruence]. destruct (Hc c Hr) as [Hv Ht].
  eapply (emit_last_spec most (showing id text) _ text (Succeeded id) k); [by apply Accept_complete|done| | |done|done|done].
  - unfold ledger_step, ensure, complete. cbn [me_Kind me_AttemptID]. by rewrite String.eqb_refl.
  - by intros c' [= <-].
Qed.

Lemma waited_spec most k m (f : nat -> bool) (next : IO unit) : (k <= most)%nat ->
  (forall i, f i = false -> sr_canceled sr (S i) = true) -> m = ask_next f ->
  triple (stands new_stream "" (Between, k)) next (fun _ => closed most) ->
  triple (stands new_stream "" (Between, k)) (waited ← m; if (waited : bool) then next else mret tt) (fun _ => closed most).
Proof.
  intros Hk Hf -> Hn [i log] H. rewrite bind_eq. simpl. destruct (f i) eqn:E; [by apply Hn|].
  eapply (stands_closed _ _ _ _ _ (MkIo (S i) log)); [exact H|done|done|]. right. by apply Hf.
Qed.

(** Another attempt keeps the promise if those after it do. *)
Lemma run_from_spec most tries k attempt : (0 < tries)%nat -> (k + tries <= most)%nat ->
  triple (stands new_stream "" (Between, k)) (run_from ex sr config estimate tries attempt) (fun _ => closed most).
Proof.
  revert k attempt; induction tries as [|tries IH]; intros k attempt Hpos Hk; [lia|]. cbn [run_from].
  apply (call_bind _ _ (fun _ => stands new_stream "" (Between, k))); [by apply call_ask|]. intros [].
  { apply failed_spec; [by left|lia]. }
  apply (call_bind _ _ (fun _ => stands new_stream "" (Between, k))); [by apply call_ask|]. intros number.
  pose proof (attempt_id_valid number) as Hid. set (id := attempt_id ex number) in *.
  eapply call_bind; [by apply Started_spec|]. intros [err|].
  { eapply emit_last_spec; [apply Accept_failed; by right|done..|lia]. }
  eapply call_bind; [by apply attempt_spec|]. intros r.
  apply (call_bind _ _ (fun _ => attempted id (S k) r)).
  { apply call_ask. intros i log [Hr (text&Hs&Ht)]. split; [done|]. exists text. split; [done|].
    destruct Ht as [Ht|[He Hc]]; [by left|right]. split; [done|by apply canceled_ask]. }
  intros over. eapply call_bind; [by apply Finished_spec|]. intros [err|]; [apply refused_spec; lia|]. unfold ended.
  destruct (ar_outcome r) as [c|err] eqn:Er; [apply complete_spec; [done..|lia]|].
  eapply call_bind; [apply (ctx_done_spec most id r err (S k) Er); lia|]. intros []; [by intros s H|].
  intros s (text&He&Hs). destruct (negb (ar_retryable r) || Nat.eqb tries 0) eqn:Et.
  - rewrite bind_eq. pose proof (stopped_at_reset_spec most id r text (S k) Hid He ltac:(lia) s Hs) as Hr.
    destruct (stopped_at_reset sr id r s) as [s' []]; [done|]. apply (failed_spec most (S k)); [by right|lia|done].
  - rewrite bind_eq. pose proof (stopped_at_reset_spec most id r text (S k) Hid He ltac:(lia) s Hs) as Hr.
    destruct (stopped_at_reset sr id r s) as [s' []]; [done|]. simpl. revert s' Hr.
    change (triple (stands new_stream "" (Between, S k)) (exhausted ← Exhausted_now sr;
      if (exhausted : bool) then emit_last sr (failed id budget_exceeded)
      else waited ← waitRetry sr (retry_delay (ex_retryBackoff ex) (ar_retryDelay r) attempt);
           if (waited : bool) then run_from ex sr config estimate tries (S attempt) else mret tt) (fun _ => closed most)).
    apply (call_bind _ _ (fun _ => stands new_stream "" (Between, S k))); [by apply call_ask|]. intros [].
    { apply failed_spec; [by right|lia]. }
    eapply waited_spec; [lia| |done|].
    { intros i Hi. simpl in Hi. by destruct (sr_canceled sr (S i)). }
    apply IH; [|lia]. apply orb_false_iff in Et as [_ Et]. apply Nat.eqb_neq in Et. lia.
Qed.
End Facts.

(** ** A configured executor *)
Section Configured.
Context {J : JsonOps} {W : WireFormat}.

Lemma newExecutor_limits parse c a1 a2 ex : newExecutor parse c a1 a2 = Ok ex -> (pc_MaxOutputBytes c <= 2 ^ 62)%Z ->
  ex_providerKey ex = pc_ProviderKey c /\ (1 <= ex_maxAttempts ex <= 10)%Z /\ (0 <= ex_maxOutputBytes ex <= 2 ^ 62)%Z.
Proof.
  unfold newExecutor. intros H Hmax. apply bind_Ok in H as ([]&_&H). destruct (parse (pc_BaseURL c)) as [u|]; [|done].
  apply bind_Ok in H as ([]&_&H). apply bind_Ok in H as ([]&_&H). apply bind_Ok in H as ([[models descriptors] images]&_&H).
  apply bind_Ok in H as ([]&Ha&H). apply bind_Ok in H as ([]&Hl&H). apply bind_Ok in H as ([]&_&H). apply bind_Ok in H as ([]&_&H).
  apply reject_if_Ok in Ha, Hl. bool_simpl. inv_ok. cbn [ex_providerKey ex_maxAttempts ex_maxOutputBytes].
  assert (Hd : Z.shiftl 16 20 = 16777216%Z) by reflexivity. unfold or_default at 3 4. rewrite Hd.
  split; [done|]. split; [lia|]. destruct (Z.eqb _ 0); lia.
Qed.

Lemma Inspect_named e config caps : Inspect e config = Ok caps -> cfg_ModelID config ≠ "".
Proof.
  unfold Inspect, Config_Validate. intros H. apply bind_Ok in H as ([]&H&_). apply map_err_Ok in H. apply bind_Ok in H as ([]&H&_).
  apply reject_if_Ok in H. by destruct (cfg_ModelID config).
Qed.

End Configured.

(** ** A call that is retried

    The first answer breaks off after some text, the second one is complete. *)
Definition hello : chatChunk := MkChunk [MkChoice "hello" [] true] None.
#[local] Program Instance helloWire : WireFormat := {|
  decode_chunk payload := if String.eqb payload "{}" then inl hello else inr (ErrNew "invalid character");
  decode_error _ := None;
  ParseTime _ := None;
|}.
Next Obligation.
  intros payload chunk H. cbn in H. destruct (String.eqb payload "{}"); [|done]. injection H as <-. repeat constructor.
Qed.

Definition example_url : parsedURL := MkParsedURL "https" "host" false "" "" "https://host/v1/".
Definition example_capabilities : ExecutionCapabilities :=
  MkExecutionCapabilities (MkCapabilities [ModalityText] [ModalityText] true) [ReasoningDefault] 1000 100.
Definition example_config : ProviderConfig :=
  MkProviderConfig "p" "https://host/v1/" "" false [MkProviderModel "m" "Model" example_capabilities] 0 0 0 0 0 0 false.
Definition example_executor : Executor :=
  match newExecutor (fun _ => Some example_url) example_config false false with
  | Ok e => e
  | _ => MkExecutor "" "" "" false ∅ [] 0 0 0 0 0 0
  end.
Definition example_model : Config := MkConfig "p" "m" ReasoningDefault (MkParameters None None).
Definition line (s : string) : string := s +:+ String newline (String newline "").
Definition broken : exchange := Answered 200 "r1" "" (MkBody (line "data: {}") (Some (ErrNew "unexpected EOF")) false).
Definition whole : exchange := Answered 200 "r2" "" (MkBody (line "data: {}" +:+ line "data: [DONE]") None false).
(** [recorded n] is the answer of the recorder to question [n]; the first
    exchange is question 3. *)
Program Definition example_surroundings (recorded : nat -> option error) : surroundings :=
  {| sr_exhausted _ := false; sr_sequence := N.of_nat; sr_Started _ _ := None; sr_Finished n _ := recorded n;
     sr_exchange n := if Nat.eqb n 3 then broken else whole; sr_now _ := 0%Z; sr_canceled _ := false; sr_taken _ := true; sr_waited _ _ := true |}.
Next Obligation. done. Qed.

Definition call_events (recorded : nat -> option error) : list ModelEvent :=
  events_of (io_log (run example_executor (example_surroundings recorded) example_model 7 (MkIo 0 [])).1).
Example retried_call :
  (fun e => (me_Kind e, me_AttemptID e, me_Text e)) <$> call_events (fun _ => None) =
  [(EventDelta, "p-attempt-1", "hello"); (EventReset, "p-attempt-1", ""); (EventDelta, "p-attempt-12", "hello");
   (EventComplete, "p-attempt-12", "")].
Proof. vm_compute. reflexivity. Qed.

(** When the recorder cannot record the end of an attempt that has shown text,
    the failure comes without a reset, which the stream checker refuses. *)
Example unrecorded_end_refused :
  let es := call_events (fun _ => Some (ErrNew "disk full")) in
  me_Kind <$> es = [EventDelta; EventFailed] /\
  foldM Accept es new_stream = Err (invalidStream "failed stream exposed temporary output without reset" None).
Proof. split; vm_compute; reflexivity. Qed.

Definition failed_record (x : effect) : bool := match x with RecordedFinish _ (Some _) => true | _ => false end.
Lemma no_failed_record log : existsb failed_record log = false -> forall finish err, RecordedFinish finish (Some err) ∉ log.
Proof.
  intros H finish err Hin. assert (existsb failed_record log = true); [|congruence].
  apply existsb_exists. exists (RecordedFinish finish (Some err)). split; [by apply list_elem_of_In|done].
Qed.

