(* ===== verification/EventHub.v ===== *)
(** * The event hub of a Session runtime

    Models [standardagent/event_stream.go] and the events of
    [interaction/contracts.go].  Streams are named by numbers; a stream lives
    on after the hub has dropped it, because its subscriber holds it.  Each
    method runs under the mutexes of the code, so a call is one step; a
    receiver that finds nothing waits for the channel [changed] to close and
    looks again.  [Close] and [close] take the mutex of the hub and then those of
    the streams; here they are one step. *)

From S2P Require Import Prelude GoStrings AgentTypes.

Inductive EventKind := EventChunk | EventReset | EventRevision | EventKindOther (s : string).
#[export] Instance EventKind_eq_dec : EqDecision EventKind.
Proof. solve_decision. Defined.
Record Event := MkEvent {
  evt_Kind : EventKind; evt_SessionID : string; evt_RunID : string; evt_StepID : string; evt_MessageID : string;
  evt_AttemptID : string; evt_Revision : Z; evt_Text : string }.

Definition ErrEventStreamClosed : error := ErrNew "interaction: event stream closed".
Definition ErrEventStreamOverflow : error := ErrNew "interaction: event stream subscriber fell behind".

Definition eventStreamBufferLimit : nat := 1024.
#[global] Opaque eventStreamBufferLimit.

(** [rs_changed_open] says whether the channel [changed] is open: closing a
    closed channel panics. *)
Record runtimeEventStream := MkStream {
  rs_queue : list Event; rs_closed : bool; rs_err : option error; rs_changed_open : bool }.
Definition new_event_stream : runtimeEventStream := MkStream [] false None true.

Definition close_changed {A} (s : runtimeEventStream) (k : A) : result A :=
  if rs_changed_open s then Ok k else Panic "close of closed channel".

(** Events that a slow subscriber may miss. *)
Definition temporary (e : Event) : bool := bool_decide (evt_Kind e = EventChunk) || bool_decide (evt_Kind e = EventReset).

(** The queue without its first temporary event. *)
Fixpoint drop_temporary (queue : list Event) : option (list Event) :=
  match queue with
  | [] => None
  | e :: queue => if temporary e then Some queue else cons e <$> drop_temporary queue
  end.

Definition push (s : runtimeEventStream) (queue : list Event) (event : Event) : result (runtimeEventStream * bool) :=
  close_changed s (MkStream (queue ++ [event]) (rs_closed s) (rs_err s) true, true).

(** [enqueue]: false tells the hub to drop the stream. *)
Definition enqueue (s : runtimeEventStream) (event : Event) : result (runtimeEventStream * bool) :=
  if rs_closed s then Ok (s, false)
  else if Nat.leb eventStreamBufferLimit (length (rs_queue s)) then
    if temporary event then Ok (s, true)
    else match drop_temporary (rs_queue s) with
    | Some queue => push s queue event
    | None => close_changed s (MkStream [] true (Some ErrEventStreamOverflow) false, false)
    end
  else push s (rs_queue s) event.

(** What a receiver finds when it looks. *)
Inductive received := Received (e : Event) | Ended (err : error) | Waiting.
Definition recv (s : runtimeEventStream) : runtimeEventStream * received :=
  match rs_queue s with
  | event :: queue => (MkStream queue (rs_closed s) (rs_err s) (rs_changed_open s), Received event)
  | [] => if rs_closed s then (s, Ended (default ErrEventStreamClosed (rs_err s))) else (s, Waiting)
  end.

(** [Close] and [closeFromHub] on the stream. *)
Definition close_stream (s : runtimeEventStream) : result runtimeEventStream :=
  if rs_closed s then Ok s else close_changed s (MkStream [] true (rs_err s) false).

(** ** The hub *)
Record eventHub := MkHub {
  hub_streams : gmap nat runtimeEventStream;
  hub_subscribers : gset nat;
  hub_closed : bool;
}.
Definition newEventHub : eventHub := MkHub ∅ ∅ false.

Definition subscribe (h : eventHub) : eventHub * result nat :=
  if hub_closed h then (h, Err ErrEventStreamClosed : result nat)
  else
    let id := fresh (dom (hub_streams h) : gset nat) in
    (MkHub (<[id := new_event_stream]> (hub_streams h)) ({[ id ]} ∪ hub_subscribers h) false, Ok id).

(** One round of the loop in [publish]. *)
Definition publish_to (event : Event) (h : eventHub) (id : nat) : result eventHub :=
  match hub_streams h !! id with
  | None => Ok h
  | Some s =>
    '(s, keep) ← enqueue s event;
    Ok (MkHub (<[id := s]> (hub_streams h)) (if keep : bool then hub_subscribers h else hub_subscribers h ∖ {[ id ]}) (hub_closed h))
  end.
(** The order in which Go walks the map does not matter: the streams are
    independent. *)
Definition publish (h : eventHub) (event : Event) : result eventHub :=
  if hub_closed h then Ok h else foldM (publish_to event) (elements (hub_subscribers h)) h.

Definition Recv (h : eventHub) (id : nat) : eventHub * received :=
  match hub_streams h !! id with
  | None => (h, Waiting)
  | Some s => let '(s, out) := recv s in (MkHub (<[id := s]> (hub_streams h)) (hub_subscribers h) (hub_closed h), out)
  end.

(** [runtimeEventStream.Close]: closes the stream and leaves the hub. *)
Definition Close_stream (h : eventHub) (id : nat) : result eventHub :=
  match hub_streams h !! id with
  | None => Ok h
  | Some s =>
    if rs_closed s then Ok h
    else
      s ← close_stream s;
      Ok (MkHub (<[id := s]> (hub_streams h)) (hub_subscribers h ∖ {[ id ]}) (hub_closed h))
  end.

Definition close_from_hub (h : eventHub) (id : nat) : result eventHub :=
  match hub_streams h !! id with
  | None => Ok h
  | Some s => s ← close_stream s; Ok (MkHub (<[id := s]> (hub_streams h)) (hub_subscribers h) (hub_closed h))
  end.
Definition close_hub (h : eventHub) : result eventHub :=
  if hub_closed h then Ok h
  else foldM close_from_hub (elements (hub_subscribers h)) (MkHub (hub_streams h) ∅ true).

(** * What subscribers of the event hub see

    Runs of the hub record, per stream, what was published since the
    subscription and what was received. *)

(** ** Runs *)
Inductive hub_op := HSubscribe | HPublish (e : Event) | HRecv (id : nat) | HClose (id : nat) | HCloseHub.

Record hub_run := MkHubRun {
  hr_hub : eventHub;
  hr_published : gmap nat (list Event);
  hr_received : gmap nat (list Event);
}.
Definition no_run : hub_run := MkHubRun newEventHub ∅ ∅.

Definition hub_step (r : hub_run) (op : hub_op) : result hub_run :=
  match op with
  | HSubscribe =>
    match subscribe (hr_hub r) with
    | (h, Ok id) => Ok (MkHubRun h (<[id := []]> (hr_published r)) (<[id := []]> (hr_received r)))
    | (h, _) => Ok (MkHubRun h (hr_published r) (hr_received r))
    end
  | HPublish e =>
    h ← publish (hr_hub r) e;
    Ok (MkHubRun h (if hub_closed (hr_hub r) then hr_published r else (fun p => p ++ [e]) <$> hr_published r) (hr_received r))
  | HRecv id =>
    match Recv (hr_hub r) id with
    | (h, Received e) => Ok (MkHubRun h (hr_published r) (alter (fun p => p ++ [e]) id (hr_received r)))
    | (h, _) => Ok (MkHubRun h (hr_published r) (hr_received r))
    end
  | HClose id => h ← Close_stream (hr_hub r) id; Ok (MkHubRun h (hr_published r) (hr_received r))
  | HCloseHub => h ← close_hub (hr_hub r); Ok (MkHubRun h (hr_published r) (hr_received r))
  end.

(** ** One stream *)
Definition durable (es : list Event) : list Event := List.filter (fun e => negb (temporary e)) es.

Lemma durable_app a b : durable (a ++ b) = durable a ++ durable b.
Proof. apply List.filter_app. Qed.

(** [p] was published and [r] received since the subscription. *)
Record delivered (p r : list Event) (s : runtimeEventStream) : Prop := {
  dl_order : r ++ rs_queue s `sublist_of` p;
  dl_bound : length (rs_queue s) <= eventStreamBufferLimit;
  dl_open : rs_closed s = false -> durable (r ++ rs_queue s) = durable p /\ rs_err s = None;
  dl_closed : rs_closed s = true -> rs_queue s = [];
  dl_err : forall err, rs_err s = Some err -> err = ErrEventStreamOverflow /\
    length (durable r) + eventStreamBufferLimit < length (durable p);
  dl_changed : rs_changed_open s = negb (rs_closed s);
}.

Lemma delivered_new : delivered [] [] new_event_stream.
Proof. split; cbn; [done|lia|done|done|done|done]. Qed.

Lemma drop_temporary_spec q : match drop_temporary q with
  | Some q' => q' `sublist_of` q /\ durable q' = durable q /\ length q = S (length q')
  | None => durable q = q
  end.
Proof.
  unfold durable. induction q as [|e q IH]; simpl; [done|]. destruct (temporary e) eqn:Et; simpl.
  - split_and!; [by apply sublist_cons|done|done].
  - destruct (drop_temporary q) as [q'|]; simpl; [|by rewrite IH]. destruct IH as (H1&H2&H3). rewrite Et. simpl.
    split_and!; [by apply sublist_skip|by rewrite H2|by rewrite H3].
Qed.

(** Events that arrive after the stream was closed. *)
Lemma delivered_missed p r s e : delivered p r s -> rs_closed s = true -> delivered (p ++ [e]) r s.
Proof.
  intros [H1 H2 H3 H4 H5 H6] Hc. split; [by apply sublist_inserts_r|done|by rewrite Hc|done| |done].
  intros err Herr. destruct (H5 err Herr) as [-> Hlen]. split; [done|]. rewrite durable_app, length_app. lia.
Qed.

Lemma enqueue_delivered p r s e : delivered p r s ->
  exists s' keep, enqueue s e = Ok (s', keep) /\ delivered (p ++ [e]) r s' /\ keep = negb (rs_closed s').
Proof.
  intros Hd. pose proof Hd as [H1 H2 H3 H4 H5 H6]. unfold enqueue. destruct (rs_closed s) eqn:Ec.
  { exists s, false. split; [done|]. split; [by apply delivered_missed|by rewrite Ec]. }
  destruct (H3 eq_refl) as [Hdur Herr]. unfold push, close_changed. rewrite H6, Ec. cbn [negb].
  assert (Hpush : forall q, q `sublist_of` rs_queue s -> durable q = durable (rs_queue s) -> S (length q) <= eventStreamBufferLimit ->
    delivered (p ++ [e]) r (MkStream (q ++ [e]) (rs_closed s) (rs_err s) true)).
  { intros q Hq Hdq Hlen. split; cbn [rs_queue rs_closed rs_err rs_changed_open].
    - rewrite app_assoc. apply sublist_app; [|done]. etrans; [|exact H1]. by apply sublist_app.
    - rewrite length_app. simpl. lia.
    - intros _. split; [|done]. rewrite !durable_app, Hdq. rewrite durable_app in Hdur. by rewrite app_assoc, Hdur.
    - by rewrite Ec.
    - by rewrite Herr.
    - by rewrite Ec. }
  rewrite Ec in Hpush. destruct (Nat.leb_spec eventStreamBufferLimit (length (rs_queue s))) as [Hfull|Hroom].
  - destruct (temporary e) eqn:Et.
    + exists s, true. split; [done|]. split; [|by rewrite Ec]. split; [by apply sublist_inserts_r|done| |by rewrite Ec|by rewrite Herr|by rewrite Ec].
      intros _. split; [|done]. rewrite (durable_app p), Hdur. unfold durable at 3. simpl. by rewrite Et, app_nil_r.
    + pose proof (drop_temporary_spec (rs_queue s)) as Hdrop. destruct (drop_temporary (rs_queue s)) as [q|].
      * destruct Hdrop as (Hq&Hdq&Hlen). eexists _, true. split; [done|]. split; [|done]. apply Hpush; [done|done|lia].
      * eexists _, false. split; [done|]. split; [|done]. split; cbn [rs_queue rs_closed rs_err rs_changed_open].
        -- rewrite app_nil_r. apply sublist_inserts_r. etrans; [|exact H1]. by apply sublist_inserts_r.
        -- cbn. lia.
        -- done.
        -- done.
        -- intros err [= <-]. split; [done|]. rewrite (durable_app p), <-Hdur, (durable_app r), Hdrop, !length_app.
           assert (durable [e] = [e]) as -> by (unfold durable; cbn; by rewrite Et). cbn [length]. lia.
        -- done.
  - eexists _, true. split; [done|]. split; [|done]. apply Hpush; [done|done|lia].
Qed.

Lemma recv_delivered p r s : delivered p r s ->
  match recv s with
  | (s', Received e) => delivered p (r ++ [e]) s' /\ rs_closed s' = rs_closed s
  | (s', Ended err) => s' = s /\ rs_closed s = true
  | (s', Waiting) => s' = s /\ rs_closed s = false
  end.
Proof.
  intros [H1 H2 H3 H4 H5 H6]. unfold recv. destruct (rs_queue s) as [|e q] eqn:Eq; [by destruct (rs_closed s)|].
  split; [|done]. split; cbn [rs_queue rs_closed rs_err rs_changed_open].
  - by rewrite <-app_assoc.
  - simpl in H2. lia.
  - by rewrite <-app_assoc.
  - intros Hc. specialize (H4 Hc). done.
  - intros err Herr. destruct (rs_closed s) eqn:Ec; [by specialize (H4 eq_refl)|]. destruct (H3 eq_refl) as [_ Hn]. congruence.
  - done.
Qed.

Lemma close_delivered p r s : delivered p r s -> exists s', close_stream s = Ok s' /\ delivered p r s' /\ rs_closed s' = true.
Proof.
  intros Hd. pose proof Hd as [H1 H2 H3 H4 H5 H6]. unfold close_stream. destruct (rs_closed s) eqn:Ec; [by exists s|].
  unfold close_changed. rewrite H6. eexists. split; [done|]. split; [|done]. split; cbn [rs_queue rs_closed rs_err rs_changed_open]; try done.
  - rewrite app_nil_r. etrans; [|exact H1]. by apply sublist_inserts_r.
  - simpl. lia.
Qed.

(** ** The hub *)
Record hub_inv (r : hub_run) : Prop := {
  hi_delivered : forall id s, hub_streams (hr_hub r) !! id = Some s -> exists p q,
    hr_published r !! id = Some p /\ hr_received r !! id = Some q /\ delivered p q s;
  hi_known : forall id, hub_streams (hr_hub r) !! id = None -> hr_published r !! id = None /\ hr_received r !! id = None;
  hi_open : forall id s, hub_streams (hr_hub r) !! id = Some s -> rs_closed s = false -> id ∈ hub_subscribers (hr_hub r);
  hi_closed : hub_closed (hr_hub r) = true -> hub_subscribers (hr_hub r) = ∅;
}.

(** A loop over distinct streams does each of them once. *)
Lemma streams_loop (f : eventHub -> nat -> result eventHub) (g : runtimeEventStream -> runtimeEventStream -> Prop) (ids : list nat) :
  (forall h id, (forall s, hub_streams h !! id = Some s -> exists s', g s s') -> exists h', f h id = Ok h' /\
     hub_closed h' = hub_closed h /\ (forall id', id' ≠ id -> hub_streams h' !! id' = hub_streams h !! id') /\
     (forall s, hub_streams h !! id = Some s -> exists s', hub_streams h' !! id = Some s' /\ g s s') /\
     (hub_streams h !! id = None -> hub_streams h' !! id = None) /\
     (forall id', id' ∈ hub_subscribers h' -> id' ∈ hub_subscribers h) /\
     (forall id', id' ∈ hub_subscribers h -> id' ∈ hub_subscribers h' \/ id' = id /\ exists s', hub_streams h' !! id = Some s' /\ rs_closed s' = true)) ->
  forall h, NoDup ids -> (forall id s, id ∈ ids -> hub_streams h !! id = Some s -> exists s', g s s') ->
  exists h', foldM f ids h = Ok h' /\ hub_closed h' = hub_closed h /\
    (forall id, id ∉ ids -> hub_streams h' !! id = hub_streams h !! id) /\
    (forall id s, id ∈ ids -> hub_streams h !! id = Some s -> exists s', hub_streams h' !! id = Some s' /\ g s s') /\
    (forall id, hub_streams h !! id = None -> hub_streams h' !! id = None) /\
    (forall id, id ∈ hub_subscribers h' -> id ∈ hub_subscribers h) /\
    (forall id, id ∈ hub_subscribers h -> id ∈ hub_subscribers h' \/ exists s', hub_streams h' !! id = Some s' /\ rs_closed s' = true).
Proof.
  intros Hf. induction ids as [|id ids IH]; intros h Hnd Hg.
  { exists h. split_and!; try done; [intros id s Hin; by apply elem_of_nil in Hin|by left]. }
  apply NoDup_cons in Hnd as [Hid Hnd]. destruct (Hf h id) as (h1&Hh1&Hc1&Hother1&Hs1&Hn1&Hsub1&Hsub1'); [intros s; apply Hg; by left|].
  destruct (IH h1 Hnd) as (h2&Hh2&Hc2&Hother2&Hs2&Hn2&Hsub2&Hsub2').
  { intros id' s Hin Hs. apply (Hg id'); [by right|]. rewrite <-Hother1; [done|]. by intros ->. }
  exists h2. split; [cbn [foldM]; by rewrite Hh1|]. split; [congruence|]. split_and!.
  - intros id' Hid'. rewrite Hother2 by set_solver. apply Hother1. set_solver.
  - intros id' s [->|Hin]%elem_of_cons Hs.
    + destruct (Hs1 s Hs) as (s'&Hs'&Hgs). exists s'. by rewrite Hother2.
    + eapply Hs2; [done|]. rewrite Hother1; [done|]. by intros ->.
  - intros id' Hn. apply Hn2. destruct (decide (id' = id)) as [->|]; [by apply Hn1|by rewrite Hother1].
  - intros id' Hin. by apply Hsub1, Hsub2.
  - intros id' Hin. destruct (Hsub1' id' Hin) as [Hin1|(->&s'&Hs'&Hcl)]; [by apply Hsub2'|].
    right. exists s'. by rewrite Hother2.
Qed.

Lemma publish_loop e h : (forall id s, hub_streams h !! id = Some s -> exists p r, delivered p r s) ->
  exists h', foldM (publish_to e) (elements (hub_subscribers h)) h = Ok h' /\ hub_closed h' = hub_closed h /\
    (forall id, id ∉ hub_subscribers h -> hub_streams h' !! id = hub_streams h !! id) /\
    (forall id s, id ∈ hub_subscribers h -> hub_streams h !! id = Some s -> exists s', hub_streams h' !! id = Some s' /\
       exists keep, enqueue s e = Ok (s', keep)) /\
    (forall id, hub_streams h !! id = None -> hub_streams h' !! id = None) /\
    (forall id, id ∈ hub_subscribers h' -> id ∈ hub_subscribers h) /\
    (forall id, id ∈ hub_subscribers h -> id ∈ hub_subscribers h' \/ exists s', hub_streams h' !! id = Some s' /\ rs_closed s' = true).
Proof.
  intros Hd. destruct (streams_loop (publish_to e) (fun s s' => exists keep, enqueue s e = Ok (s', keep) /\ keep = negb (rs_closed s'))
    (elements (hub_subscribers h))) with (h := h) as (h'&H1&H2&H3&H4&H5&H6&H7).
  - intros h0 id Hg. unfold publish_to. destruct (hub_streams h0 !! id) as [s|] eqn:Es.
    2:{ exists h0. split_and!; try done. by left. }
    destruct (Hg s eq_refl) as (s'&keep&He&Hk). rewrite He. cbn [mbind result_bind]. eexists. split; [done|]. cbn [hub_closed hub_streams hub_subscribers].
    split; [done|]. split_and!.
    + intros id' Hne. by rewrite lookup_insert_ne.
    + intros s0 [= <-]. exists s'. rewrite lookup_insert_eq. split; [done|]. by exists keep.
    + done.
    + intros id'. destruct keep; set_solver.
    + intros id' Hin. destruct keep; [by left|]. destruct (decide (id' = id)) as [->|]; [right|left; set_solver].
      split; [done|]. exists s'. rewrite lookup_insert_eq. split; [done|]. by destruct (rs_closed s').
  - apply NoDup_elements.
  - intros id s _ Hs. destruct (Hd id s Hs) as (p&r&Hdel). destruct (enqueue_delivered p r s e Hdel) as (s'&keep&He&_&Hk). by exists s', keep.
  - exists h'. split; [done|]. split; [done|]. split_and!.
    + intros id Hid. apply H3. by rewrite elem_of_elements.
    + intros id s Hin Hs. destruct (H4 id s) as (s'&Hs'&keep&He&_); [by rewrite elem_of_elements|done|]. exists s'. split; [done|]. by exists keep.
    + done.
    + done.
    + done.
Qed.

Lemma close_loop h : (forall id s, hub_streams h !! id = Some s -> exists p r, delivered p r s) ->
  exists h', foldM close_from_hub (elements (hub_subscribers h)) (MkHub (hub_streams h) ∅ true) = Ok h' /\ hub_closed h' = true /\
    hub_subscribers h' = ∅ /\
    (forall id, id ∉ hub_subscribers h -> hub_streams h' !! id = hub_streams h !! id) /\
    (forall id s, id ∈ hub_subscribers h -> hub_streams h !! id = Some s -> exists s', hub_streams h' !! id = Some s' /\
       close_stream s = Ok s' /\ rs_closed s' = true) /\
    (forall id, hub_streams h !! id = None -> hub_streams h' !! id = None).
Proof.
  intros Hd. destruct (streams_loop close_from_hub (fun s s' => close_stream s = Ok s' /\ rs_closed s' = true)
    (elements (hub_subscribers h))) with (h := MkHub (hub_streams h) ∅ true) as (h'&H1&H2&H3&H4&H5&H6&_).
  - intros h0 id Hg. unfold close_from_hub. destruct (hub_streams h0 !! id) as [s|] eqn:Es.
    2:{ exists h0. split_and!; try done. by left. }
    destruct (Hg s eq_refl) as (s'&He&Hk). rewrite He. cbn [mbind result_bind]. eexists. split; [done|]. cbn [hub_closed hub_streams hub_subscribers].
    split; [done|]. split_and!; try done.
    + intros id' Hne. by rewrite lookup_insert_ne.
    + intros s0 [= <-]. exists s'. by rewrite lookup_insert_eq.
    + by left.
  - apply NoDup_elements.
  - intros id s _ Hs. destruct (Hd id s Hs) as (p&r&Hdel). destruct (close_delivered p r s Hdel) as (s'&He&_&Hk). by exists s'.
  - exists h'. split; [done|]. split; [done|]. split_and!.
    + apply set_eq. intros id. split; [|set_solver]. intros Hin. apply H6 in Hin. done.
    + intros id Hid. apply H3. by rewrite elem_of_elements.
    + intros id s Hin Hs. apply H4; [by rewrite elem_of_elements|done].
    + done.
Qed.

Lemma hub_inv_new : hub_inv no_run.
Proof. split; cbn; [intros id s; by rewrite lookup_empty|intros id; by rewrite !lookup_empty|intros id s; by rewrite lookup_empty|done]. Qed.

Lemma hub_inv_streams r : hub_inv r -> forall id s, hub_streams (hr_hub r) !! id = Some s -> exists p q, delivered p q s.
Proof. intros Hi id s Hs. destruct (hi_delivered r Hi id s Hs) as (p&q&_&_&Hd). eauto. Qed.

(** Replacing one stream by another with the same past. *)
Lemma hub_inv_update r id s s' received' : hub_inv r -> hub_streams (hr_hub r) !! id = Some s -> rs_closed s' = rs_closed s ->
  (forall p q, hr_published r !! id = Some p -> hr_received r !! id = Some q -> delivered p q s ->
     exists q', received' !! id = Some q' /\ delivered p q' s') ->
  (forall id', id' ≠ id -> received' !! id' = hr_received r !! id') ->
  hub_inv (MkHubRun (MkHub (<[id := s']> (hub_streams (hr_hub r))) (hub_subscribers (hr_hub r)) (hub_closed (hr_hub r))) (hr_published r) received').
Proof.
  intros [H1 H2 H3 H4] Hs Hc Hd Hother. split; cbn.
  - intros id' s0. rewrite lookup_insert. case_decide as Hid; [intros [= <-]; subst|].
    + destruct (H1 _ _ Hs) as (p&q&Hp&Hq&Hdel). destruct (Hd p q Hp Hq Hdel) as (q'&?&?). by exists p, q'.
    + intros Hs0. rewrite Hother by done. by apply H1.
  - intros id'. rewrite lookup_insert. case_decide as Hid; [done|]. rewrite Hother by done. apply H2.
  - intros id' s0. rewrite lookup_insert. case_decide as Hid; [intros [= <-]; subst|apply H3]. rewrite Hc. by apply H3.
  - done.
Qed.

Lemma subscribe_inv r : hub_inv r -> exists r', hub_step r HSubscribe = Ok r' /\ hub_inv r'.
Proof.
  intros Hi. pose proof Hi as [H1 H2 H3 H4]. cbn [hub_step].
  unfold subscribe. destruct (hub_closed (hr_hub r)) eqn:Ec; [eexists; split; [done|]; by destruct r|].
  set (id := fresh _). assert (Hid : hub_streams (hr_hub r) !! id = None).
  { apply not_elem_of_dom. unfold id. apply is_fresh. }
  eexists. split; [done|]. split; cbn; [| | |done].
  + intros id' s. rewrite !lookup_insert. case_decide; [intros [= <-]; exists [], []; split_and!; [done|done|apply delivered_new]|apply H1].
  + intros id'. rewrite !lookup_insert. case_decide; [done|apply H2].
  + intros id' s. rewrite lookup_insert. case_decide; [set_solver|]. intros Hs Hc. apply elem_of_union_r. by eapply H3.
Qed.

Lemma publish_inv r e : hub_inv r -> exists r', hub_step r (HPublish e) = Ok r' /\ hub_inv r'.
Proof.
  intros Hi. pose proof Hi as [H1 H2 H3 H4]. cbn [hub_step].
  unfold publish. destruct (hub_closed (hr_hub r)) eqn:Ec; [eexists; split; [done|]; by destruct r|].
  destruct (publish_loop e (hr_hub r) (hub_inv_streams r Hi)) as (h'&Hp&Hcl&Hout&Hin&Hn&Hsub&Hsub'). rewrite Hp. cbn [mbind result_bind].
  eexists. split; [done|]. split; cbn.
  + intros id s' Hs'. destruct (hub_streams (hr_hub r) !! id) as [s|] eqn:Es; [|by rewrite (Hn id Es) in Hs'].
    destruct (H1 _ _ Es) as (p&q&Hpp&Hq&Hdel). exists (p ++ [e]), q. rewrite lookup_fmap, Hpp. split; [done|]. split; [done|].
    destruct (decide (id ∈ hub_subscribers (hr_hub r))) as [Hid|Hid].
    * destruct (Hin id s Hid Es) as (s0&Hs0&keep&He). rewrite Hs' in Hs0. injection Hs0 as <-.
      destruct (enqueue_delivered p q s e Hdel) as (s1&k1&He1&Hd1&_). rewrite He in He1. by injection He1 as <- <-.
    * rewrite Hout in Hs' by done. rewrite Es in Hs'. injection Hs' as <-. apply delivered_missed; [done|].
      destruct (rs_closed s) eqn:Ecl; [done|]. by destruct Hid; eapply H3.
  + intros id Hid. rewrite lookup_fmap. destruct (hub_streams (hr_hub r) !! id) as [s|] eqn:Es; [|destruct (H2 id Es) as [-> ->]; done].
    destruct (decide (id ∈ hub_subscribers (hr_hub r))) as [Hin'|Hnin]; [destruct (Hin id s Hin' Es) as (s0&Hs0&_)|rewrite Hout in Hid by done]; congruence.
  + intros id s' Hs' Hc. destruct (hub_streams (hr_hub r) !! id) as [s|] eqn:Es; [|by rewrite (Hn id Es) in Hs'].
    destruct (decide (id ∈ hub_subscribers (hr_hub r))) as [Hid|Hid]; [|rewrite Hout, Es in Hs' by done; injection Hs' as <-; by destruct Hid; eapply H3].
    destruct (Hsub' id Hid) as [|(s0&Hs0&Hc0)]; [done|]. rewrite Hs' in Hs0. congruence.
  + congruence.
Qed.

Lemma recv_inv r id : hub_inv r -> exists r', hub_step r (HRecv id) = Ok r' /\ hub_inv r'.
Proof.
  intros Hi. pose proof Hi as [H1 H2 H3 H4]. cbn [hub_step].
  unfold Recv. destruct (hub_streams (hr_hub r) !! id) as [s|] eqn:Es; [|eexists; split; [done|]; by destruct r].
  destruct (H1 _ _ Es) as (p&q&Hp&Hq&Hdel). pose proof (recv_delivered p q s Hdel) as Hr. destruct (recv s) as [s' [e|err|]].
  + destruct Hr as [Hr Hc]. eexists. split; [done|]. eapply hub_inv_update; [done|exact Es|done| |].
    * intros p' q' Hp' Hq' _. rewrite Hp in Hp'. rewrite Hq in Hq'. injection Hp' as <-. injection Hq' as <-. exists (q ++ [e]).
      by rewrite lookup_alter_eq, Hq.
    * intros id' Hne. by rewrite lookup_alter_ne.
  + destruct Hr as [-> Hc]. eexists. split; [done|]. eapply hub_inv_update; [done|exact Es|done|eauto|done].
  + destruct Hr as [-> Hc]. eexists. split; [done|]. eapply hub_inv_update; [done|exact Es|done|eauto|done].
Qed.

Lemma close_inv r id : hub_inv r -> exists r', hub_step r (HClose id) = Ok r' /\ hub_inv r'.
Proof.
  intros Hi. pose proof Hi as [H1 H2 H3 H4]. cbn [hub_step].
  unfold Close_stream. destruct (hub_streams (hr_hub r) !! id) as [s|] eqn:Es; [|eexists; split; [done|]; by destruct r].
  destruct (rs_closed s) eqn:Ec; [eexists; split; [done|]; by destruct r|]. destruct (H1 _ _ Es) as (p&q&Hp&Hq&Hdel).
  destruct (close_delivered p q s Hdel) as (s'&Hs'&Hd'&Hc'). rewrite Hs'. cbn [mbind result_bind]. eexists. split; [done|]. split; cbn.
  + intros id' s0. rewrite lookup_insert. case_decide; [intros [= <-]; subst; by exists p, q|apply H1].
  + intros id'. rewrite lookup_insert. case_decide; [done|apply H2].
  + intros id' s0. rewrite lookup_insert. case_decide; [intros [= <-]; congruence|]. intros Hs0 Hc. apply elem_of_difference.
    split; [by eapply H3|set_solver].
  + intros Hc. rewrite (H4 Hc). set_solver.
Qed.

Lemma close_hub_inv r : hub_inv r -> exists r', hub_step r HCloseHub = Ok r' /\ hub_inv r'.
Proof.
  intros Hi. pose proof Hi as [H1 H2 H3 H4]. cbn [hub_step].
  unfold close_hub. destruct (hub_closed (hr_hub r)) eqn:Ec; [eexists; split; [done|]; by destruct r|].
  destruct (close_loop (hr_hub r) (hub_inv_streams r Hi)) as (h'&Hp&Hcl&Hemp&Hout&Hin&Hn). rewrite Hp. cbn [mbind result_bind].
  eexists. split; [done|]. split; cbn.
  + intros id s' Hs'. destruct (hub_streams (hr_hub r) !! id) as [s|] eqn:Es; [|by rewrite (Hn id Es) in Hs'].
    destruct (H1 _ _ Es) as (p&q&Hpp&Hq&Hdel). exists p, q. split; [done|]. split; [done|].
    destruct (decide (id ∈ hub_subscribers (hr_hub r))) as [Hid|Hid]; [|rewrite Hout, Es in Hs' by done; by injection Hs' as <-].
    destruct (Hin id s Hid Es) as (s0&Hs0&He&_). rewrite Hs' in Hs0. injection Hs0 as <-.
    destruct (close_delivered p q s Hdel) as (s1&He1&Hd1&_). rewrite He in He1. by injection He1 as <-.
  + intros id Hid. destruct (hub_streams (hr_hub r) !! id) as [s|] eqn:Es; [|by apply H2].
    destruct (decide (id ∈ hub_subscribers (hr_hub r))) as [Hin'|Hnin]; [destruct (Hin id s Hin' Es) as (s0&Hs0&_)|rewrite Hout in Hid by done]; congruence.
  + intros id s' Hs' Hc. destruct (hub_streams (hr_hub r) !! id) as [s|] eqn:Es; [|by rewrite (Hn id Es) in Hs'].
    destruct (decide (id ∈ hub_subscribers (hr_hub r))) as [Hid|Hid].
    * destruct (Hin id s Hid Es) as (s0&Hs0&_&Hc0). congruence.
    * rewrite Hout, Es in Hs' by done. injection Hs' as <-. by destruct Hid; eapply H3.
  + done.
Qed.

(** C35. Whatever clients, the runtime and the hub do, no step of the hub
    panics, and every subscriber sees its events in the order in which they
    were published since it subscribed: what it received and what still waits
    for it is a subsequence of the published events that, as long as the
    stream is open, misses only temporary chunks and resets; at most 1024
    events wait; and a stream is only ever ended as overflown when more than
    1024 durable events were published that its subscriber had not read. *)
Theorem hub_delivers ops :
  exists r, foldM hub_step ops no_run = Ok r /\
    forall id s, hub_streams (hr_hub r) !! id = Some s ->
      exists published read, hr_published r !! id = Some published /\ hr_received r !! id = Some read /\ delivered published read s.
Proof.
  assert (H : forall r, hub_inv r -> exists r', foldM hub_step ops r = Ok r' /\ hub_inv r').
  { induction ops as [|op ops IH]; intros r Hr; [by exists r|]. cbn [foldM].
    assert (exists r', hub_step r op = Ok r' /\ hub_inv r') as (r'&->&Hr') by
      (destruct op; [by apply subscribe_inv|by apply publish_inv|by apply recv_inv|by apply close_inv|by apply close_hub_inv]).
    by apply IH. }
  destruct (H no_run hub_inv_new) as (r&Hr&Hi). exists r. split; [done|]. apply (hi_delivered r Hi).
Qed.
