(* ===== verification/ToolDispatcher.v ===== *)
(** * The tool dispatcher

    Models [standardagent/tool_dispatcher.go]: authorization, invocation and
    batching of the tool calls of one step.  A component the dispatcher calls
    (a guard, the approval service, the callback before an invocation, a tool)
    is a function of the position of the call and of what it is given; the
    dispatcher asks each of them at most once per call, so any behaviour over
    time is such a function.  What happens is recorded as a list of effects
    per call; the calls of a parallel batch run concurrently, so the effects
    of a batch are any interleaving of those lists. *)

From S2P Require Import Prelude GoStrings AgentTypes ModelContracts.

(** * Policy decisions

    Models [policy/contracts.go]: proposals, decisions and the guard that
    decides by tool key. *)

Inductive ActionKind := ActionTool | ActionOther (s : string).
#[export] Instance ActionKind_eq_dec : EqDecision ActionKind.
Proof. solve_decision. Defined.

(** [tool.Call] *)
Record Call := MkToolProposal { tcall_ID : string; tcall_Name : string; tcall_Arguments : string }.
Record ToolAction := MkToolAction {
  ta_ToolKey : string; ta_Call : Call; ta_SessionID : string; ta_AgentID : string; ta_WorkspaceID : string; ta_RunID : string; ta_StepID : string }.
Record Action := MkAction { act_Kind : ActionKind; act_Tool : option ToolAction }.

Definition Action_Validate (a : Action) : result unit :=
  match act_Kind a, act_Tool a with
  | ActionTool, Some t =>
    reject_if (empty (ta_ToolKey t) || negb (String.eqb (tcall_Name (ta_Call t)) (ta_ToolKey t)) || negb (ID_Valid (tcall_ID (ta_Call t))) ||
               negb (ID_Valid (ta_SessionID t)) || negb (ID_Valid (ta_AgentID t)) || negb (ID_Valid (ta_WorkspaceID t)) ||
               negb (ID_Valid (ta_RunID t)) || negb (ID_Valid (ta_StepID t)))
      (ErrNew "policy: tool proposal identity is incomplete")
  | _, _ => Err (ErrNew "policy: action must contain one tool proposal")
  end.

Inductive Effect := Allow | Deny | RequireApproval | EffectOther (s : string).
#[export] Instance Effect_eq_dec : EqDecision Effect.
Proof. solve_decision. Defined.
Record PolicyDecision := MkPolicyDecision { dec_Effect : Effect; dec_Reason : string }.

Definition PolicyDecision_Validate (d : PolicyDecision) : result unit :=
  match dec_Effect d with
  | Allow => Ok tt
  | Deny | RequireApproval => reject_if (empty (dec_Reason d)) (ErrNew "policy: deny and approval decisions require a reason")
  | EffectOther s => Err (Errorf "policy: unknown effect %q" [AStr s])
  end.

Record ApprovalRequest := MkApprovalRequest { apr_Action : Action; apr_Reason : string }.
Record ApprovalDecision := MkApprovalDecision { apd_Approved : bool; apd_Reason : string }.

(** ** The guard that decides by tool key *)
Record ToolRule := MkToolRule { rule_ToolKey : string; rule_Decision : PolicyDecision }.
Record toolRuleGuard := MkToolRuleGuard { trg_fallback : PolicyDecision; trg_decisions : gmap string PolicyDecision }.

Definition add_rule (decisions : gmap string PolicyDecision) (rule : ToolRule) : result (gmap string PolicyDecision) :=
  reject_if (empty (rule_ToolKey rule)) (ErrNew "policy: tool rule key is required") ;;
  PolicyDecision_Validate (rule_Decision rule) ;;
  reject_if (present (decisions !! rule_ToolKey rule)) (Errorf "policy: duplicate rule for %q" [AStr (rule_ToolKey rule)]) ;;
  Ok (<[rule_ToolKey rule := rule_Decision rule]> decisions).
Definition NewToolRuleGuard (fallback : PolicyDecision) (rules : list ToolRule) : result toolRuleGuard :=
  PolicyDecision_Validate fallback ;;
  decisions ← foldM add_rule rules ∅;
  Ok (MkToolRuleGuard fallback decisions).

(** [ctxErr] is [ctx.Err()]. *)
Definition toolRuleGuard_Evaluate (ctxErr : option error) (g : toolRuleGuard) (action : Action) : result PolicyDecision :=
  match ctxErr, act_Tool action with
  | Some e, _ => Err e
  | None, None => Err (ErrNew "policy: tool rule guard received a non-tool action")
  | None, Some t => Ok (default (trg_fallback g) (trg_decisions g !! ta_ToolKey t))
  end.

(** * The tool dispatcher *)

Inductive ParallelSafety := ParallelSafe | Serial | SafetyOther (s : string).
#[export] Instance ParallelSafety_eq_dec : EqDecision ParallelSafety.
Proof. solve_decision. Defined.
Definition ParallelSafety_Valid (s : ParallelSafety) : bool := bool_decide (s = ParallelSafe) || bool_decide (s = Serial).

(** [workspace.Scope]; a boundary is opaque to the dispatcher. *)
Record Scope := MkScope { scope_AgentID : string; scope_WorkspaceID : string }.

Record ToolInvocation := MkToolInvocation {
  tinv_Call : Call; tinv_SessionID : string; tinv_AgentID : string; tinv_WorkspaceID : string; tinv_Actor : ActorIdentity;
  tinv_WorkspaceBoundary : option nat; tinv_MaxInlineOutputBytes : Z; tinv_RunID : string; tinv_StepID : string }.

(** The interface [Tool]. *)
Record Tool := MkTool { tool_Definition : ToolDefinition; tool_ParallelSafety : ParallelSafety; tool_Invoke : nat -> ToolInvocation -> result ToolResult }.
Definition PolicyGuard : Type := nat -> Action -> result PolicyDecision.
Definition ApprovalService : Type := nat -> ApprovalRequest -> result ApprovalDecision.

Record installedTool := MkInstalled { it_value : Tool; it_definition : ToolDefinition; it_safety : ParallelSafety }.
Record toolDispatcher := MkDispatcher {
  td_tools : gmap string installedTool;
  td_orderedDefinitions : list ToolDefinition;
  td_guards : list PolicyGuard;
  td_approval : option ApprovalService;
  td_maxInlineOutputBytes : Z;
}.

Definition invalidInput (op : string) (message : text) : error := NewError ErrorInvalidInput op message None.

(** *** Assembly *)
Definition key_le (a b : string * Tool) : Prop := string_le a.1 b.1.
#[export] Instance key_le_dec a b : Decision (key_le a b).
Proof. unfold key_le; apply _. Defined.

Definition install_tool (d : toolDispatcher) (named : string * Tool) : result toolDispatcher :=
  let definition := tool_Definition named.2 in
  map_err (fun e => invalidInput "standardagent.tools" (error_text e)) (ToolDefinition_Validate definition) ;;
  reject_if (negb (String.eqb (def_Name definition) named.1))
    (invalidInput "standardagent.tools" [("Tool Slot key must match Definition name", [])]) ;;
  let safety := tool_ParallelSafety named.2 in
  reject_if (negb (ParallelSafety_Valid safety)) (invalidInput "standardagent.tools" [("Tool must declare Serial or ParallelSafe", [])]) ;;
  Ok (MkDispatcher (<[named.1 := MkInstalled named.2 definition safety]> (td_tools d)) (td_orderedDefinitions d ++ [definition])
        (td_guards d) (td_approval d) (td_maxInlineOutputBytes d)).
Definition newToolDispatcher (installed : list (string * Tool)) (guards : list PolicyGuard) (approval : option ApprovalService)
    (maxInlineOutputBytes : Z) : result toolDispatcher :=
  foldM install_tool (merge_sort key_le installed) (MkDispatcher ∅ [] guards approval maxInlineOutputBytes).

(** *** Preflight *)
Record toolPreflightAuthorization := MkPreflight { pf_denied : bool; pf_approvalReasons : list string }.
Definition no_preflight : toolPreflightAuthorization := MkPreflight false [].
(** [merge], for the boundary result of one preflight extension. *)
Definition merge_preflight (a : toolPreflightAuthorization) (r : option InvocationResult) : toolPreflightAuthorization :=
  match r with
  | None => a
  | Some r =>
    match inv_Decision r with
    | DecisionDeny => MkPreflight true (pf_approvalReasons a)
    | DecisionRequireApproval => MkPreflight (pf_denied a) (pf_approvalReasons a ++ [inv_Reason r])
    | _ => a
    end
  end.
Definition authorizationAt (authorizations : list toolPreflightAuthorization) (index : nat) : toolPreflightAuthorization :=
  default no_preflight (authorizations !! index).

(** ** Effects *)
Inductive effect :=
  | Audited (decision : string)
  | Evaluated (guard : nat)
  | Asked (reason : string)
  | Crossed
  | TraceStarted
  | Invoked (invocation : ToolInvocation)
  | TraceCompleted (status : ResultStatus).

Definition failedToolResult (callID code message : string) : ToolResult :=
  MkToolResult callID ResultFailed "" (Some (MkStructuredError code message)) [].

(** [strings.Join(reasons, "; ")] *)
Definition join_reasons (reasons : list string) : string := String.concat "; " reasons.

(** [evaluateGuard] and [decideApproval]: a panic becomes an error. *)
Definition recovered {A} (message : string) (r : result A) : result A :=
  match r with Panic _ => Err (ErrNew message) | r => r end.

(** The proposal [authorize] builds for a call. *)
Definition tool_action (call : ToolCall) (scope : Scope) : Action :=
  MkAction ActionTool (Some (MkToolAction (call_Name call) (MkToolProposal (call_ID call) (call_Name call) (call_Arguments call))
    (call_SessionID call) (scope_AgentID scope) (scope_WorkspaceID scope) (call_RunID call) (call_StepID call))).

(** The loop over the guards, from number [k] on: the failure to return, or the
    reasons collected. *)
Fixpoint evaluate_guards (index : nat) (callID : string) (action : Action) (k : nat) (guards : list PolicyGuard) (reasons : list string)
    : list effect * (ToolResult + list string) :=
  match guards with
  | [] => ([], inr reasons)
  | guard :: guards =>
    let failure code message audit := ([Evaluated k; Audited audit], inl (failedToolResult callID code message)) in
    match recovered "policy guard panicked" (guard index action) with
    | Ok decision =>
      if negb (is_ok (PolicyDecision_Validate decision)) then failure "policy_error" "tool authorization failed" "error"
      else
        match dec_Effect decision with
        | Deny => failure "policy_denied" "tool execution was denied by policy" "deny"
        | RequireApproval =>
          let '(effects, out) := evaluate_guards index callID action (S k) guards (reasons ++ [dec_Reason decision]) in (Evaluated k :: effects, out)
        | _ => let '(effects, out) := evaluate_guards index callID action (S k) guards reasons in (Evaluated k :: effects, out)
        end
    | _ => failure "policy_error" "tool authorization failed" "error"
    end
  end.

Definition authorize (d : toolDispatcher) (index : nat) (call : ToolCall) (scope : Scope) (preflight : toolPreflightAuthorization)
    : list effect * option ToolResult :=
  let action := tool_action call scope in
  let failed audit code message := ([Audited audit], Some (failedToolResult (call_ID call) code message)) in
  if negb (is_ok (Action_Validate action)) then failed "error" "policy_error" "tool authorization failed"
  else if pf_denied preflight then failed "preflight_deny" "preflight_denied" "tool execution was denied by preflight policy"
  else
    let '(effects, out) := evaluate_guards index (call_ID call) action 0 (td_guards d) (pf_approvalReasons preflight) in
    match out with
    | inl failure => (effects, Some failure)
    | inr [] => (effects ++ [Audited "allow"], None)
    | inr reasons =>
      match td_approval d with
      | None => (effects ++ [Audited "approval_required"],
                 Some (failedToolResult (call_ID call) "approval_required" "tool execution requires approval"))
      | Some approval =>
        let reason := join_reasons reasons in
        match recovered "approval service panicked" (approval index (MkApprovalRequest action reason)) with
        | Ok decision =>
          if negb (apd_Approved decision) then
            (effects ++ [Asked reason; Audited "approval_denied"],
             Some (failedToolResult (call_ID call) "approval_denied" "tool execution approval was denied"))
          else (effects ++ [Asked reason; Audited "approved"], None)
        | _ => (effects ++ [Asked reason; Audited "approval_error"],
                Some (failedToolResult (call_ID call) "approval_error" "tool approval failed"))
        end
      end
    end.

Section Dispatch.
Context {J : JsonOps}.
(** The compiled JSON schema of a tool is third-party: its verdict on raw
    arguments. *)
Context (schema_accepts : InputSchema -> string -> bool).

(** [InputSchema.ValidateArguments] *)
Definition ValidateArguments (s : InputSchema) (raw : string) : bool := schema_compiled s && schema_accepts s raw.

Definition validateCall (d : toolDispatcher) (call : ToolCall) : option ToolResult :=
  match td_tools d !! call_Name call with
  | None => Some (failedToolResult (call_ID call) "tool_not_found" "requested tool is not installed")
  | Some installed =>
    if negb (ValidateArguments (def_InputSchema (it_definition installed)) (call_Arguments call)) then
      Some (failedToolResult (call_ID call) "invalid_arguments" "tool arguments do not match the declared schema")
    else None
  end.

(** What the tool is given. *)
Definition tool_invocation (d : toolDispatcher) (call : ToolCall) (scope : Scope) (boundary : option nat) : ToolInvocation :=
  MkToolInvocation (MkToolProposal (call_ID call) (call_Name call) (call_Arguments call)) (call_SessionID call) (scope_AgentID scope)
    (scope_WorkspaceID scope) (MkActorIdentity ActorAgent (scope_AgentID scope)) boundary (td_maxInlineOutputBytes d) (call_RunID call)
    (call_StepID call).

(** What becomes of the value the tool returned; the flag is a contract
    violation. *)
Definition tool_outcome (d : toolDispatcher) (call : ToolCall) (out : result ToolResult) : ToolResult * bool :=
  match out with
  | Ok r =>
    if bool_decide (res_Status r = ResultUnknown) then
      (failedToolResult (call_ID call) "invalid_tool_result" "outcome_unknown is reserved for crash recovery", true)
    else if negb (String.eqb (res_CallID r) (call_ID call)) || negb (is_ok (ToolResult_ValidateWithin r (td_maxInlineOutputBytes d))) then
      (failedToolResult (call_ID call) "invalid_tool_result" "tool returned an invalid or oversized result", true)
    else (r, false)
  | _ => (failedToolResult (call_ID call) "tool_internal" "tool execution failed", true)
  end.

(** [beforeInvoke]: [None] is the nil callback. *)
Definition before_invoke : Type := option (nat -> ToolCall -> option error).
Definition crossing (before : before_invoke) (index : nat) (call : ToolCall) : list effect * bool :=
  match before with
  | None => ([], true)
  | Some f => ([Crossed], match f index call with Some _ => false | None => true end)
  end.

Definition invoke_call (d : toolDispatcher) (before : before_invoke) (scope : Scope) (boundary : option nat)
    (index : nat) (call : ToolCall) (preflight : toolPreflightAuthorization) : list effect * ToolResult * bool :=
  match validateCall d call, td_tools d !! call_Name call with
  | Some failure, _ => ([], failure, false)
  | None, None => ([], failedToolResult (call_ID call) "tool_not_found" "requested tool is not installed", false)
  | None, Some installed =>
    match authorize d index call scope preflight with
    | (effects, Some failure) => (effects, failure, false)
    | (effects, None) =>
      let '(crossed, safe) := crossing before index call in
      if negb safe then
        (effects ++ crossed, failedToolResult (call_ID call) "execution_state_error" "tool execution could not be started safely", false)
      else
        let invocation := tool_invocation d call scope boundary in
        let '(r, violation) := tool_outcome d call (tool_Invoke (it_value installed) index invocation) in
        (effects ++ crossed ++ [TraceStarted; Invoked invocation; TraceCompleted (res_Status r)], r, violation)
    end
  end.

(** ** Batches *)
Definition parallel_call (d : toolDispatcher) (call : ToolCall) : bool :=
  match td_tools d !! call_Name call with Some installed => bool_decide (it_safety installed = ParallelSafe) | None => false end.
(** The call is run on its own: [!ok || installed.safety == tool.Serial]. *)
Definition serial_call (d : toolDispatcher) (call : ToolCall) : bool :=
  match td_tools d !! call_Name call with Some installed => bool_decide (it_safety installed = Serial) | None => true end.
Fixpoint parallel_prefix (d : toolDispatcher) (calls : list ToolCall) : nat :=
  match calls with
  | call :: calls => if parallel_call d call then S (parallel_prefix d calls) else 0
  | [] => 0
  end.

(** [batches] lists, per batch, the effects of each of its calls. *)
Record toolDispatchOutcome := MkOutcome { to_results : list ToolResult; to_contractViolation : bool; to_batches : list (list (list effect)) }.

(** The loop from position [index] on.  A batch of parallel calls is never
    empty, because every installed tool is serial or parallel-safe; were it
    empty the code would not advance, and here the fuel runs out. *)
Fixpoint dispatch_from (fuel : nat) (d : toolDispatcher) (before : before_invoke) (scope : Scope) (boundary : option nat)
    (preflight : list toolPreflightAuthorization) (index : nat) (calls : list ToolCall) (violated : bool) : result toolDispatchOutcome :=
  match calls with
  | [] => Ok (MkOutcome [] violated [])
  | call :: rest =>
    if violated then
      Ok (MkOutcome ((fun c => failedToolResult (call_ID c) "tool_batch_aborted" "tool batch stopped after a component contract violation") <$> calls) true [])
    else match fuel with
    | O => Panic "out of fuel"
    | S fuel =>
      let size := if serial_call d call then 1 else parallel_prefix d calls in
      let outs := imap (fun i c => invoke_call d before scope boundary (index + i) c (authorizationAt preflight (index + i))) (take size calls) in
      tail ← dispatch_from fuel d before scope boundary preflight (index + size) (drop size calls) (existsb snd outs);
      Ok (MkOutcome (((fun o => o.1.2) <$> outs) ++ to_results tail) (to_contractViolation tail) (((fun o => o.1.1) <$> outs) :: to_batches tail))
    end
  end.

(** [dispatchPreparedAuthorized] *)
Definition dispatchPreparedAuthorized (d : toolDispatcher) (before : before_invoke) (scope : Scope) (boundary : option nat)
    (preflight : list toolPreflightAuthorization) (calls : list ToolCall) : result toolDispatchOutcome :=
  dispatch_from (length calls) d before scope boundary preflight 0 calls false.

End Dispatch.
