(* ===== verification/ToolDispatcherFacts.v ===== *)
(** * What the dispatcher guarantees

    A tool only runs after its call was validated, authorized and durably
    started; results line up with calls; serial tools run alone. *)

From S2P Require Import Prelude GoStrings AgentTypes ModelContracts ToolDispatcher SessionStoreFacts.

Definition is_invoked (e : effect) : bool := match e with Invoked _ => true | _ => false end.
Definition never_invoked (es : list effect) : Prop := Forall (fun e => is_invoked e = false) es.

(** ** Authorization *)

(** The guards' decisions on an action, none of them a denial. *)
Definition consents (index : nat) (action : Action) (guards : list PolicyGuard) (decisions : list PolicyDecision) : Prop :=
  Forall2 (fun guard decision => guard index action = Ok decision /\ PolicyDecision_Validate decision = Ok tt /\ dec_Effect decision ≠ Deny) guards decisions.
Definition required_reasons (decisions : list PolicyDecision) : list string :=
  dec_Reason <$> List.filter (fun d => bool_decide (dec_Effect d = RequireApproval)) decisions.

(** The call is authorized, with these effects. *)
Record authorized (d : toolDispatcher) (index : nat) (call : ToolCall) (scope : Scope) (preflight : toolPreflightAuthorization)
    (effects : list effect) : Prop := {
  au_action : Action_Validate (tool_action call scope) = Ok tt;
  au_preflight : pf_denied preflight = false;
  au_guards : exists decisions, consents index (tool_action call scope) (td_guards d) decisions /\
    let reasons := pf_approvalReasons preflight ++ required_reasons decisions in
    let evaluated := Evaluated <$> seq 0 (length (td_guards d)) in
    if bool_decide (reasons = []) then effects = evaluated ++ [Audited "allow"]
    else exists approval decision, td_approval d = Some approval /\
      approval index (MkApprovalRequest (tool_action call scope) (join_reasons reasons)) = Ok decision /\ apd_Approved decision = true /\
      effects = evaluated ++ [Asked (join_reasons reasons); Audited "approved"];
}.

Lemma recovered_Ok {A} message (r : result A) a : recovered message r = Ok a -> r = Ok a.
Proof. by destruct r. Qed.

Lemma evaluate_guards_spec index callID action guards : forall k reasons effects out,
  evaluate_guards index callID action k guards reasons = (effects, out) ->
  never_invoked effects /\
  match out with
  | inr reasons' => exists decisions, consents index action guards decisions /\ reasons' = reasons ++ required_reasons decisions /\
      effects = Evaluated <$> seq k (length guards)
  | inl r => exists code message, r = failedToolResult callID code message /\ nonempty code = true /\ nonempty message = true
  end.
Proof.
  induction guards as [|guard guards IH]; intros k reasons effects out; cbn [evaluate_guards].
  { intros [= <- <-]. split; [constructor|]. exists []. split_and!; [constructor|by rewrite app_nil_r|done]. }
  destruct (recovered _ _) as [decision|e|msg] eqn:Er.
  2,3: intros [= <- <-]; split; [by repeat constructor|by eexists _, _].
  apply recovered_Ok in Er. destruct (PolicyDecision_Validate decision) as [[]|e|msg] eqn:Ev; cbn [is_ok negb].
  2,3: intros [= <- <-]; split; [by repeat constructor|by eexists _, _].
  assert (Hstep : forall reasons' effects' out', evaluate_guards index callID action (S k) guards reasons' = (effects', out') -> dec_Effect decision ≠ Deny ->
    reasons' = reasons ++ required_reasons [decision] -> effects = Evaluated k :: effects' -> out = out' ->
    never_invoked effects /\ match out with
    | inr reasons' => exists decisions, consents index action (guard :: guards) decisions /\ reasons' = reasons ++ required_reasons decisions /\
        effects = Evaluated <$> seq k (length (guard :: guards))
    | inl r => exists code message, r = failedToolResult callID code message /\ nonempty code = true /\ nonempty message = true
    end).
  { intros reasons' effects' out' He Hd -> -> ->. destruct (IH _ _ _ _ He) as [Hn Hout]. split; [by constructor|]. destruct out' as [r|rs]; [done|].
    destruct Hout as (ds&Hc&->&->). exists (decision :: ds). split; [by constructor|]. split; [|done].
    rewrite <-app_assoc. f_equal. unfold required_reasons. cbn [List.filter]. by destruct (bool_decide _). }
  destruct (dec_Effect decision) eqn:Ee; [| | |unfold PolicyDecision_Validate in Ev; by rewrite Ee in Ev].
  - destruct (evaluate_guards index callID action (S k) guards reasons) as [effects' out'] eqn:Eg. intros [= <- <-].
    eapply Hstep; [exact Eg|done| |done|done]. unfold required_reasons. cbn [List.filter]. rewrite Ee. by rewrite app_nil_r.
  - intros [= <- <-]. split; [by repeat constructor|by eexists _, _].
  - destruct (evaluate_guards index callID action (S k) guards (reasons ++ [dec_Reason decision])) as [effects' out'] eqn:Eg. intros [= <- <-].
    eapply Hstep; [exact Eg|done| |done|done]. unfold required_reasons. cbn [List.filter]. by rewrite Ee.
Qed.

Lemma authorize_spec d index call scope preflight effects out :
  authorize d index call scope preflight = (effects, out) ->
  never_invoked effects /\
  match out with
  | None => authorized d index call scope preflight effects
  | Some r => exists code message, r = failedToolResult (call_ID call) code message /\ nonempty code = true /\ nonempty message = true
  end.
Proof.
  unfold authorize. destruct (Action_Validate _) as [[]|e|msg] eqn:Ea; cbn [is_ok negb].
  2,3: intros [= <- <-]; split; [by repeat constructor|by eexists _, _].
  destruct (pf_denied preflight) eqn:Ep; [intros [= <- <-]; split; [by repeat constructor|by eexists _, _]|].
  destruct (evaluate_guards _ _ _ _ _ _) as [effects' out'] eqn:Eg. destruct (evaluate_guards_spec _ _ _ _ _ _ _ _ Eg) as [Hn Hout].
  assert (Htail : forall es, never_invoked es -> never_invoked (effects' ++ es)) by (intros es Hes; by apply Forall_app).
  destruct out' as [failure|reasons]; [intros [= <- <-]; by split|]. destruct Hout as (ds&Hc&Hr&He).
  destruct reasons as [|reason reasons].
  { intros [= <- <-]. split; [apply Htail; by repeat constructor|]. split; [done|done|]. exists ds. split; [done|]. cbv zeta. rewrite <-Hr, bool_decide_eq_true_2 by done. by rewrite He. }
  destruct (td_approval d) as [approval|] eqn:Eap; [|intros [= <- <-]; split; [apply Htail; by repeat constructor|by eexists _, _]].
  destruct (recovered _ _) as [decision|e|msg] eqn:Er.
  2,3: intros [= <- <-]; split; [apply Htail; by repeat constructor|by eexists _, _].
  apply recovered_Ok in Er. destruct (apd_Approved decision) eqn:Ed; cbn [negb]; intros [= <- <-]; (split; [apply Htail; by repeat constructor|]); [|by eexists _, _].
  split; [done|done|]. exists ds. split; [done|]. cbv zeta. rewrite <-Hr, bool_decide_eq_false_2 by done. exists approval, decision. split; [done|]. split; [done|].
  split; [done|]. by rewrite He.
Qed.

Section Dispatch.
Context {J : JsonOps} (schema_accepts : InputSchema -> string -> bool).

(** A failure the dispatcher builds for a call with an identity is a valid
    result within any positive budget. *)
Lemma failedToolResult_valid callID code message maxBytes :
  ID_Valid callID = true -> nonempty code = true -> nonempty message = true -> (0 < maxBytes)%Z ->
  ToolResult_ValidateWithin (failedToolResult callID code message) maxBytes = Ok tt.
Proof.
  unfold ToolResult_ValidateWithin, ToolResult_Validate, failedToolResult, nonempty, empty. cbn. intros -> Hc Hm Hmax.
  rewrite (proj2 (Z.leb_gt _ _) Hmax). cbn. apply negb_true_iff in Hc, Hm. rewrite Hc, Hm. cbn.
  by rewrite (proj2 (Z.ltb_ge _ _)) by lia.
Qed.

(** ** One call *)

(** The tool of the call may run: with these effects, in this order. *)
Record permitted (d : toolDispatcher) (before : before_invoke) (scope : Scope) (boundary : option nat) (index : nat) (call : ToolCall)
    (preflight : toolPreflightAuthorization) (effects : list effect) : Prop := {
  pm_valid : validateCall schema_accepts d call = None;
  pm_effects : exists installed status auth_effects,
    td_tools d !! call_Name call = Some installed /\ authorized d index call scope preflight auth_effects /\ never_invoked auth_effects /\
    (crossing before index call).2 = true /\
    effects = auth_effects ++ (crossing before index call).1 ++ [TraceStarted; Invoked (tool_invocation d call scope boundary); TraceCompleted status];
}.

(** A result that may be recorded for the call. *)
Definition recordable (maxBytes : Z) (call : ToolCall) (r : ToolResult) : Prop :=
  res_CallID r = call_ID call /\ res_Status r ≠ ResultUnknown /\ ToolResult_ValidateWithin r maxBytes = Ok tt.

Lemma failed_recordable maxBytes call code message : ID_Valid (call_ID call) = true -> nonempty code = true -> nonempty message = true ->
  (0 < maxBytes)%Z -> recordable maxBytes call (failedToolResult (call_ID call) code message).
Proof. intros. split; [done|]. split; [done|]. by apply failedToolResult_valid. Qed.

Lemma tool_outcome_recordable d call out : ID_Valid (call_ID call) = true -> (0 < td_maxInlineOutputBytes d)%Z ->
  recordable (td_maxInlineOutputBytes d) call (tool_outcome d call out).1.
Proof.
  intros Hid Hmax. unfold tool_outcome. destruct out as [r|e|msg]; [|by apply failed_recordable..].
  destruct (bool_decide _) eqn:Eu; [by apply failed_recordable|]. destruct (_ || _) eqn:Ev; [by apply failed_recordable|]. bool_simpl.
  split; [done|]. split; [done|]. cbn [fst]. revert H0. by destruct (ToolResult_ValidateWithin r _) as [[]| |].
Qed.

Lemma crossing_never before index call : never_invoked (crossing before index call).1.
Proof. unfold crossing. destruct before; by repeat constructor. Qed.

Lemma invoke_call_spec d before scope boundary index call preflight effects r violation :
  invoke_call schema_accepts d before scope boundary index call preflight = (effects, r, violation) ->
  ID_Valid (call_ID call) = true -> (0 < td_maxInlineOutputBytes d)%Z ->
  recordable (td_maxInlineOutputBytes d) call r /\
  (never_invoked effects /\ violation = false \/ permitted d before scope boundary index call preflight effects).
Proof.
  unfold invoke_call. intros H Hid Hmax. destruct (validateCall schema_accepts d call) as [failure|] eqn:Ev.
  { injection H as <- <- <-. split; [|left; by split; [constructor|]]. unfold validateCall in Ev.
    destruct (td_tools d !! _); [destruct (negb _); [|done]|]; injection Ev as <-; by apply failed_recordable. }
  destruct (td_tools d !! call_Name call) as [installed|] eqn:Et; [|injection H as <- <- <-; split; [by apply failed_recordable|left; by split; [constructor|]]].
  destruct (authorize d index call scope preflight) as [auth_effects [failure|]] eqn:Ea; apply authorize_spec in Ea as [Hn Ha].
  { injection H as <- <- <-. destruct Ha as (code&message&->&?&?). split; [by apply failed_recordable|left; by split]. }
  pose proof (crossing_never before index call) as Hcn. destruct (crossing before index call) as [crossed safe] eqn:Ec. destruct safe; cbn [negb] in H.
  - pose proof (tool_outcome_recordable d call (tool_Invoke (it_value installed) index (tool_invocation d call scope boundary)) Hid Hmax) as Hr.
    destruct (tool_outcome d call _) as [r' v']. injection H as <- <- <-. split; [done|]. right. split; [done|].
    exists installed, (res_Status r'), auth_effects. rewrite Ec. done.
  - injection H as <- <- <-. split; [by apply failed_recordable|]. left. split; [|done]. by apply Forall_app.
Qed.

(** ** All calls *)

(** Every batch is one call or only parallel-safe calls. *)
Fixpoint batched (d : toolDispatcher) (calls : list ToolCall) (batches : list (list (list effect))) : Prop :=
  match batches with
  | [] => True
  | batch :: batches =>
    batch ≠ [] /\ length batch <= length calls /\
    (length batch = 1 \/ Forall (fun c => parallel_call d c = true) (take (length batch) calls)) /\
    batched d (drop (length batch) calls) batches
  end.

Definition well_assembled (d : toolDispatcher) : Prop :=
  map_Forall (fun _ installed => ParallelSafety_Valid (it_safety installed) = true) (td_tools d).

Lemma newToolDispatcher_well installed guards approval maxBytes d :
  newToolDispatcher installed guards approval maxBytes = Ok d ->
  well_assembled d /\ td_guards d = guards /\ td_approval d = approval /\ td_maxInlineOutputBytes d = maxBytes.
Proof.
  intros H. unfold newToolDispatcher in H.
  apply (foldM_preserves _ (fun d => well_assembled d /\ td_guards d = guards /\ td_approval d = approval /\ td_maxInlineOutputBytes d = maxBytes)) in H; [done| |done].
  intros named t t' _ (Hw&Hg&Ha&Hm) Hi. unfold install_tool in Hi. apply bind_Ok in Hi as (?&_&Hi). apply bind_Ok in Hi as (?&_&Hi).
  apply bind_Ok in Hi as (?&Hs&Hi). injection Hi as <-. apply reject_if_Ok, negb_false_iff in Hs. split; [|done]. by apply map_Forall_insert_2.
Qed.

Lemma serial_or_parallel d call : well_assembled d -> serial_call d call = false -> parallel_call d call = true.
Proof.
  unfold serial_call, parallel_call. intros Hw H. destruct (td_tools d !! call_Name call) as [i|] eqn:Ei; [|done].
  specialize (Hw _ _ Ei). unfold ParallelSafety_Valid in Hw. rewrite H in Hw. by rewrite orb_false_r in Hw.
Qed.

Lemma parallel_prefix_spec d calls : parallel_prefix d calls <= length calls /\
  Forall (fun c => parallel_call d c = true) (take (parallel_prefix d calls) calls).
Proof.
  induction calls as [|c calls [IH1 IH2]]; cbn [parallel_prefix length]; [split; [lia|constructor]|].
  destruct (parallel_call d c) eqn:Ec; [|split; [lia|constructor]]. split; [lia|]. by constructor.
Qed.

(** The size of the next batch. *)
Lemma batch_size d call rest : well_assembled d ->
  let n := if serial_call d call then 1 else parallel_prefix d (call :: rest) in
  0 < n <= length (call :: rest) /\ (n = 1 \/ Forall (fun c => parallel_call d c = true) (take n (call :: rest))).
Proof.
  intros Hw n. subst n. destruct (serial_call d call) eqn:Es; [cbn; split; [lia|by left]|].
  destruct (parallel_prefix_spec d (call :: rest)) as [H1 H2]. split; [|by right]. split; [|done].
  cbn [parallel_prefix]. rewrite (serial_or_parallel d call Hw Es). lia.
Qed.

(** ** The loop *)
Definition aborted (call : ToolCall) : ToolResult :=
  failedToolResult (call_ID call) "tool_batch_aborted" "tool batch stopped after a component contract violation".

(** What a dispatch of [calls] that starts at position [index] may report. *)
Record dispatched (d : toolDispatcher) (before : before_invoke) (scope : Scope) (boundary : option nat)
    (preflight : list toolPreflightAuthorization) (index : nat) (calls : list ToolCall) (out : toolDispatchOutcome) : Prop := {
  dp_results : Forall2 (recordable (td_maxInlineOutputBytes d)) calls (to_results out);
  dp_batches : batched d calls (to_batches out);
  dp_started : length (concat (to_batches out)) <= length calls;
  dp_permitted : forall i effects, concat (to_batches out) !! i = Some effects -> exists call, calls !! i = Some call /\
    (never_invoked effects \/ permitted d before scope boundary (index + i) call (authorizationAt preflight (index + i)) effects);
  dp_aborted : length (concat (to_batches out)) < length calls -> to_contractViolation out = true /\
    drop (length (concat (to_batches out))) (to_results out) = aborted <$> drop (length (concat (to_batches out))) calls;
}.

Section Loop.
Variables (d : toolDispatcher) (before : before_invoke) (scope : Scope) (boundary : option nat) (preflight : list toolPreflightAuthorization).
Hypothesis (Hwell : well_assembled d) (Hmax : (0 < td_maxInlineOutputBytes d)%Z).

Notation identified := (Forall (fun c => ID_Valid (call_ID c) = true)).

Lemma dispatched_aborted index calls : identified calls -> dispatched d before scope boundary preflight index calls (MkOutcome (aborted <$> calls) true []).
Proof.
  intros Hid. split; cbn; [|done|lia|done|by rewrite !drop_0].
  apply Forall2_fmap_r, Forall_Forall2_diag. eapply Forall_impl; [exact Hid|]. intros c Hc. by apply failed_recordable.
Qed.

(** The calls of one batch. *)
Definition batch_outs (index : nat) (calls : list ToolCall) : list (list effect * ToolResult * bool) :=
  imap (fun i c => invoke_call schema_accepts d before scope boundary (index + i) c (authorizationAt preflight (index + i))) calls.

Lemma batch_outs_spec index calls : identified calls ->
  Forall2 (recordable (td_maxInlineOutputBytes d)) calls ((fun o => o.1.2) <$> batch_outs index calls) /\
  length (batch_outs index calls) = length calls /\
  (forall i effects, ((fun o => o.1.1) <$> batch_outs index calls) !! i = Some effects -> exists call, calls !! i = Some call /\
    (never_invoked effects \/ permitted d before scope boundary (index + i) call (authorizationAt preflight (index + i)) effects)).
Proof.
  intros Hid. unfold batch_outs. rewrite length_imap.
  assert (Hcall : forall i c, calls !! i = Some c ->
    exists effects r violation, invoke_call schema_accepts d before scope boundary (index + i) c (authorizationAt preflight (index + i)) = (effects, r, violation) /\
    recordable (td_maxInlineOutputBytes d) c r /\
    (never_invoked effects \/ permitted d before scope boundary (index + i) c (authorizationAt preflight (index + i)) effects)).
  { intros i c Hc. destruct (invoke_call _ _ _ _ _ _ _ _) as [[effects r] violation] eqn:Ei. exists effects, r, violation. split; [done|].
    rewrite Forall_lookup in Hid. destruct (invoke_call_spec _ _ _ _ _ _ _ _ _ _ Ei (Hid _ _ Hc) Hmax) as [Hr He]. split; [done|].
    destruct He as [[He _]|He]; [by left|by right]. }
  split_and!; [|done|].
  - apply Forall2_fmap_r, Forall2_lookup. intros i. rewrite list_lookup_imap. destruct (calls !! i) as [c|] eqn:Ec; cbn; [|constructor].
    constructor. destruct (Hcall i c Ec) as (?&?&?&Hi&Hr&_). by rewrite Hi.
  - intros i effects. rewrite list_lookup_fmap, list_lookup_imap. destruct (calls !! i) as [c|] eqn:Ec; cbn; [|done].
    destruct (Hcall i c Ec) as (?&?&?&Hi&_&He). rewrite Hi. cbn. intros [= <-]. by exists c.
Qed.

(** One batch before the rest. *)
Lemma dispatched_batch index calls size out : identified calls -> 0 < size <= length calls ->
  (size = 1 \/ Forall (fun c => parallel_call d c = true) (take size calls)) ->
  dispatched d before scope boundary preflight (index + size) (drop size calls) out ->
  let outs := batch_outs index (take size calls) in
  dispatched d before scope boundary preflight index calls
    (MkOutcome (((fun o => o.1.2) <$> outs) ++ to_results out) (to_contractViolation out) (((fun o => o.1.1) <$> outs) :: to_batches out)).
Proof.
  intros Hid Hsize Hpar [H1 H2 H3 H4 H5] outs. destruct (batch_outs_spec index (take size calls)) as (B1&B2&B3); [by apply Forall_take|].
  fold outs in B1, B2, B3. assert (Hlen : length outs = size) by (rewrite B2, length_take; lia).
  assert (Hlen1 : length ((fun o => o.1.1) <$> outs) = size) by (by rewrite length_fmap).
  assert (Hlen2 : length ((fun o => o.1.2) <$> outs) = size) by (by rewrite length_fmap).
  rewrite length_drop in H3, H5.
  split; cbn [to_results to_batches to_contractViolation concat batched].
  - rewrite <-(take_drop size calls). by apply Forall2_app.
  - rewrite Hlen1. split_and!; [|lia|done|done]. intros He. rewrite He in Hlen1. cbn in Hlen1. lia.
  - rewrite length_app, Hlen1. lia.
  - intros i effects Hi. apply lookup_app_Some in Hi as [Hi|[Hle Hi]].
    + destruct (B3 i effects Hi) as (c&Hc&?). exists c. split; [|done]. by apply lookup_take_Some in Hc as [? _].
    + rewrite Hlen1 in Hle, Hi. destruct (H4 _ _ Hi) as (c&Hc&He). exists c. rewrite lookup_drop in Hc.
      replace (size + (i - size)) with i in Hc by lia. replace (index + size + (i - size)) with (index + i) in He by lia. done.
  - rewrite length_app, Hlen1. intros Hlt. destruct H5 as [H5 H6]; [lia|]. split; [done|].
    rewrite <-!drop_drop. rewrite drop_app_length' by done. exact H6.
Qed.

Lemma dispatch_from_spec : forall fuel index calls violated, length calls <= fuel -> identified calls ->
  exists out, dispatch_from schema_accepts fuel d before scope boundary preflight index calls violated = Ok out /\
    dispatched d before scope boundary preflight index calls out.
Proof.
  induction fuel as [|fuel IH]; intros index [|call rest] violated Hfuel Hid; cbn [length] in Hfuel; try lia.
  1,2: eexists; split; [done|]; split; cbn; [constructor|done|lia|done|lia].
  cbn [dispatch_from]. destruct violated.
  { eexists. split; [done|]. by apply dispatched_aborted. }
  destruct (batch_size d call rest Hwell) as [Hsize Hpar].
  set (size := if serial_call d call then 1 else parallel_prefix d (call :: rest)) in *. cbn [length] in Hsize.
  destruct (IH (index + size) (drop size (call :: rest)) (existsb snd (batch_outs index (take size (call :: rest))))) as (tail&Ht&Hd).
  { rewrite length_drop. cbn [length]. lia. }
  { by apply Forall_drop. }
  unfold batch_outs in Ht at 1. cbv zeta. rewrite Ht. cbn [mbind result_bind]. eexists. split; [done|].
  by apply dispatched_batch.
Qed.
End Loop.

End Dispatch.

(** A serial tool and a parallel-safe one; a guard asks for an approval of the
    first. *)
Definition tool_read : Tool :=
  MkTool (MkToolDefinition "read" "" (MkInputSchema "{}" true)) ParallelSafe (fun _ i => Ok (MkToolResult (tcall_ID (tinv_Call i)) ResultSucceeded "text" None [])).
Definition tool_bash : Tool :=
  MkTool (MkToolDefinition "bash" "" (MkInputSchema "{}" true)) Serial (fun _ _ => Panic "boom").
Definition ask_for_bash : PolicyGuard := fun _ a =>
  Ok (if bool_decide (ta_ToolKey <$> act_Tool a = Some "bash") then MkPolicyDecision RequireApproval "shell" else MkPolicyDecision Allow "").
Definition always_approve : ApprovalService := fun _ _ => Ok (MkApprovalDecision true "").
Definition example_call (id name : string) : ToolCall := MkToolCall id "" "" "session" "run" "step" name "{}".
Definition example_dispatcher : toolDispatcher :=
  match newToolDispatcher [("read", tool_read); ("bash", tool_bash)] [ask_for_bash] (Some always_approve) 100 with
  | Ok d => d
  | _ => MkDispatcher ∅ [] [] None 0
  end.

