(* ===== verification/LoopProtocol.v ===== *)
(** * The controlled run of an agent loop

    Models [loop/contracts.go], [standardagent/loop_module.go] and, of
    [standardagent/runtime_execution.go], the boundary [runtimeLoopRun] through
    which a replaceable loop drives one run: its actions, the deprecated
    [Step], and the verdict on what the loop returned.  The capabilities an
    action uses (the model request, the tool preflights, the dispatcher, the
    commit of the results) are arguments; an action between [beginAction] and
    [endAction] is in flight, and only then may another one be refused for
    running concurrently. *)

From S2P Require Import Prelude GoStrings AgentTypes ModelContracts SessionTypes ToolDispatcher.

(** ** The contract *)
Inductive Outcome :=
  | OutcomeContinue | OutcomeCompleted | OutcomeFailed | OutcomeCanceled | OutcomeBudgetExceeded | OutcomeWaiting | OutcomeOther (s : string).
#[export] Instance Outcome_eq_dec : EqDecision Outcome.
Proof. solve_decision. Defined.
Definition no_outcome : Outcome := OutcomeOther "".
Definition Outcome_Valid (o : Outcome) : bool := match o with OutcomeOther _ => false | _ => true end.
Definition Outcome_Terminal (o : Outcome) : bool := Outcome_Valid o && negb (bool_decide (o = OutcomeContinue)).

Inductive ActionKind := ActionRequestModel | ActionExecuteTools | ActionContinue | ActionFinish | ActionWait | ActionUnknown (s : string).
#[export] Instance ActionKind_eq_dec : EqDecision ActionKind.
Proof. solve_decision. Defined.
Record Action := MkLoopAction { lact_Kind : ActionKind; lact_Outcome : Outcome }.
Definition Action_Validate (a : Action) : option error :=
  match lact_Kind a with
  | ActionRequestModel | ActionExecuteTools | ActionContinue | ActionWait =>
    if bool_decide (lact_Outcome a = no_outcome) then None else Some (ErrNew "loop: only finish actions carry an outcome")
  | ActionFinish =>
    if negb (Outcome_Terminal (lact_Outcome a)) || bool_decide (lact_Outcome a = OutcomeWaiting)
    then Some (ErrNew "loop: finish requires a non-waiting terminal outcome") else None
  | ActionUnknown _ => Some (ErrNew "loop: unknown action")
  end.

Inductive State :=
  | StateReadyForModel | StateToolsReady | StateContinueReady | StateCompleted | StateFailed | StateCanceled | StateBudgetExceeded | StateWaiting.
#[export] Instance State_eq_dec : EqDecision State.
Proof. solve_decision. Defined.

Definition loopOutcomeFromState (s : State) : Outcome :=
  match s with
  | StateCompleted => OutcomeCompleted
  | StateCanceled => OutcomeCanceled
  | StateBudgetExceeded => OutcomeBudgetExceeded
  | StateWaiting => OutcomeWaiting
  | StateFailed => OutcomeFailed
  | _ => OutcomeContinue
  end.

(** ** Results of a step *)
Inductive stepOutcome := stepNatural | stepContinue | stepFailed | stepCanceled | stepBudgetExceeded | stepWaiting | stepToolsReady.
#[export] Instance stepOutcome_eq_dec : EqDecision stepOutcome.
Proof. solve_decision. Defined.

Definition loopStateFromStep (o : stepOutcome) : State :=
  match o with
  | stepContinue => StateContinueReady
  | stepNatural => StateCompleted
  | stepCanceled => StateCanceled
  | stepBudgetExceeded => StateBudgetExceeded
  | stepWaiting => StateWaiting
  | stepToolsReady => StateToolsReady
  | stepFailed => StateFailed
  end.
Definition stepOutcomeFromLoop (o : Outcome) : stepOutcome :=
  match o with
  | OutcomeCompleted => stepNatural
  | OutcomeCanceled => stepCanceled
  | OutcomeBudgetExceeded => stepBudgetExceeded
  | OutcomeWaiting => stepWaiting
  | _ => stepFailed
  end.

(** *** Terminations *)
Definition CodeLoopFailed := "loop_failed".
Definition CodeLoopProtocolViolation := "loop_protocol_violation".
Definition CodeToolExecutionFailed := "tool_execution_failed".
Definition CodeRunWaiting := "run_waiting".
Definition CodeSessionOperationFailed := "session_operation_failed".

Definition fixedRunTermination (source : TerminationSource) (kind code : string) : RunTermination := MkRunTermination source kind code "".
Definition canceledRunTermination : RunTermination := fixedRunTermination TerminationRuntime ErrorCanceled CodeCanceled.
Definition budgetRunTermination : RunTermination := fixedRunTermination TerminationBudget ErrorUnavailable CodeRunTokenBudgetExceeded.
Definition runLimitTermination (code : string) : RunTermination := fixedRunTermination TerminationBudget ErrorUnavailable code.

(** A message is shown only when the termination is valid with it. *)
Definition with_safe_message (t : RunTermination) (message : string) : RunTermination :=
  let shown := MkRunTermination (term_Source t) (term_Kind t) (term_Code t) message in
  if is_ok (RunTermination_Validate shown) then shown else t.

(** [toolPreflightBatchFailure] and [toolResultHookFailure] *)
Record extensionFailure := MkExtensionFailure { xf_code : string; xf_reason : string }.
(** [toolPreflightTermination] and [toolResultHookTermination] *)
Definition extensionTermination (f : extensionFailure) : RunTermination :=
  with_safe_message (fixedRunTermination TerminationExtension ErrorUnavailable (xf_code f)) (xf_reason f).

Definition preflightFailedResults (calls : list ToolCall) : list ToolResult :=
  (fun call => failedToolResult (call_ID call) "tool_preflight_failed" "tool batch stopped because authorization advice failed") <$> calls.

Section Terminations.
(** What [fmt] made of the format and the arguments of a message. *)
Context (rendered : text -> string).

Definition terminationFromError (source : TerminationSource) (fallback : string) (err : error) : RunTermination :=
  if errors_Is err "context canceled" then canceledRunTermination
  else
    let kind := if errors_Is err "context deadline exceeded" then ErrorDeadline else KindOf err in
    let kind := if negb (ErrorKind_Valid kind) then ErrorInternal else kind in
    let code := if empty (CodeOf err) then fallback else CodeOf err in
    let termination := fixedRunTermination source kind code in
    match errors_As err with
    | Some c => if nonempty (rendered (ce_message c)) then with_safe_message termination (rendered (ce_message c)) else termination
    | None => termination
    end.

(** ** The driver *)
(** [lr_state] is [None] for the zero value of the code.  [lr_active] holds the
    action between [beginAction] and [endAction]. *)
Record runtimeLoopRun := MkLoopRun {
  lr_step : string; lr_closed : bool; lr_active : option Action; lr_terminal : bool; lr_outcome : Outcome; lr_state : option State;
  lr_nextStep : string; lr_pendingTools : list ToolCall; lr_termination : option RunTermination }.

(** What [runLoopWithPrepared] gives to the loop. *)
Definition new_loop_run (step : string) (prepared : list ToolCall) : runtimeLoopRun :=
  MkLoopRun step false None false no_outcome (match prepared with [] => None | _ => Some StateToolsReady end) "" prepared None.

Definition LoopState (d : runtimeLoopRun) : State := default StateReadyForModel (lr_state d).

(** Answers of the capabilities: the outcome of a model step with the next
    step, the calls and the termination; the authorizations of a batch, with a
    failure of an extension or an error; and what the commit of the results
    returned: the next step, a failure of an extension, a cancellation. *)
Definition model_answer : Type := stepOutcome * string * list ToolCall * option RunTermination.
Definition preflight_answer : Type := list toolPreflightAuthorization * option extensionFailure * option error.
Definition commit_answer : Type := string * option extensionFailure * bool * option error.

(** The fixed capabilities, as they answer one action. *)
Record capabilities := MkCapabilities {
  cap_requestModel : string -> model_answer;
  cap_evaluateToolPreflights : list ToolCall -> preflight_answer;
  cap_dispatch : list ToolCall -> list toolPreflightAuthorization -> toolDispatchOutcome;
  cap_commitToolResults : list ToolCall -> list ToolResult -> commit_answer;
}.

(** The uses of the capabilities, with their answers. *)
Inductive loop_effect :=
  | ModelRequested (step : string) (answer : model_answer)
  | PreflightsEvaluated (calls : list ToolCall) (answer : preflight_answer)
  | ToolsDispatched (calls : list ToolCall) (preflight : list toolPreflightAuthorization) (answer : toolDispatchOutcome)
  | ResultsCommitted (calls : list ToolCall) (results : list ToolResult) (answer : commit_answer).

Definition settled (d : runtimeLoopRun) (st : State) (next : string) (pending : list ToolCall) (termination : option RunTermination) : runtimeLoopRun :=
  MkLoopRun (lr_step d) (lr_closed d) (lr_active d) (lr_terminal d) (lr_outcome d) (Some st) next pending termination.
Definition ended (d : runtimeLoopRun) (st : State) (o : Outcome) (termination : option RunTermination) : runtimeLoopRun :=
  MkLoopRun (lr_step d) (lr_closed d) (lr_active d) true o (Some st) (lr_nextStep d) (lr_pendingTools d) termination.

Definition finishAllowed (s : State) (o : Outcome) : bool :=
  match s with
  | StateReadyForModel | StateContinueReady => bool_decide (o = OutcomeCompleted) || bool_decide (o = OutcomeFailed)
  | _ => bool_decide (loopOutcomeFromState s = o)
  end.

(** The case [ActionExecuteTools]. *)
Definition execute_tools (d : runtimeLoopRun) (c : capabilities) : runtimeLoopRun * list loop_effect * (State * option error) :=
  let calls := lr_pendingTools d in
  let evaluated := cap_evaluateToolPreflights c calls in
  let '(preflight, preflightFailure, preflightErr) := evaluated in
  match preflightErr with
  | Some e =>
    (settled d StateFailed (lr_nextStep d) [] (Some (terminationFromError TerminationSession CodeSessionOperationFailed e)),
     [PreflightsEvaluated calls evaluated], (StateFailed, Some e))
  | None =>
    let '(dispatched, results, contractViolation) :=
      match preflightFailure with
      | None => let out := cap_dispatch c calls preflight in ([ToolsDispatched calls preflight out], to_results out, to_contractViolation out)
      | Some _ => ([], preflightFailedResults calls, false)
      end in
    let committed := cap_commitToolResults c calls results in
    let '(next, postFailure, canceled, err) := committed in
    let failed termination := settled d StateFailed (lr_nextStep d) [] (Some termination) in
    let d' :=
      match err, preflightFailure, postFailure with
      | Some e, _, _ => failed (terminationFromError TerminationSession CodeSessionOperationFailed e)
      | None, Some f, _ => failed (extensionTermination f)
      | None, None, Some f => failed (extensionTermination f)
      | None, None, None =>
        if (contractViolation : bool) then failed (fixedRunTermination TerminationTool ErrorInternal CodeToolExecutionFailed)
        else if (canceled : bool) then settled d StateCanceled (lr_nextStep d) [] (Some canceledRunTermination)
        else settled d StateContinueReady next [] (lr_termination d)
      end in
    (d', PreflightsEvaluated calls evaluated :: dispatched ++ [ResultsCommitted calls results committed], (LoopState d', err))
  end.

(** The part of [Act] between [beginAction] and [endAction]. *)
Definition act_body (d0 : runtimeLoopRun) (a : Action) (c : capabilities) : runtimeLoopRun * list loop_effect * (State * option error) :=
  let refused d message := (d, [], (StateFailed, Some (ErrNew message))) in
  if lr_terminal d0 then refused d0 "standardagent: AgentLoop submitted an action after terminal state"
  else
    let st := LoopState d0 in
    let d := settled d0 st (lr_nextStep d0) (lr_pendingTools d0) (lr_termination d0) in
    match lact_Kind a with
    | ActionRequestModel =>
      if negb (bool_decide (st = StateReadyForModel)) then refused d "standardagent: model action is not valid in the current Run state"
      else
        let answer := cap_requestModel c (lr_step d) in
        let '(outcome, next, calls, termination) := answer in
        (settled d (loopStateFromStep outcome) next calls termination, [ModelRequested (lr_step d) answer], (loopStateFromStep outcome, None))
    | ActionContinue =>
      if negb (bool_decide (st = StateContinueReady)) || negb (ID_Valid (lr_nextStep d)) then
        refused d "standardagent: continue action is not valid in the current Run state"
      else
        (MkLoopRun (lr_nextStep d) (lr_closed d) (lr_active d) (lr_terminal d) (lr_outcome d) (Some StateReadyForModel) ""
           (lr_pendingTools d) (lr_termination d), [], (StateReadyForModel, None))
    | ActionExecuteTools =>
      if negb (bool_decide (st = StateToolsReady)) || match lr_pendingTools d with [] => true | _ => false end then
        refused d "standardagent: no prepared Tool batch is available"
      else execute_tools d c
    | ActionWait =>
      if negb (bool_decide (st = StateReadyForModel)) && negb (bool_decide (st = StateContinueReady)) then
        refused d "standardagent: wait action is not valid in the current Run state"
      else
        (ended d StateWaiting OutcomeWaiting (Some (fixedRunTermination TerminationLoop ErrorUnavailable CodeRunWaiting)), [], (StateWaiting, None))
    | ActionFinish =>
      if negb (finishAllowed st (lact_Outcome a)) then refused d "standardagent: finish outcome does not match Runtime state"
      else
        let termination :=
          match lact_Outcome a with
          | OutcomeFailed => Some (default (fixedRunTermination TerminationLoop ErrorInternal CodeLoopFailed) (lr_termination d))
          | OutcomeCanceled => Some canceledRunTermination
          | OutcomeBudgetExceeded => Some (default budgetRunTermination (lr_termination d))
          | _ => lr_termination d
          end in
        (ended d st (lact_Outcome a) termination, [], (st, None))
    | ActionUnknown _ => refused d "standardagent: unsupported Run action"
    end.

Definition set_active (d : runtimeLoopRun) (a : option Action) : runtimeLoopRun :=
  MkLoopRun (lr_step d) (lr_closed d) a (lr_terminal d) (lr_outcome d) (lr_state d) (lr_nextStep d) (lr_pendingTools d) (lr_termination d).

Definition beginAction (d : runtimeLoopRun) (a : Action) : runtimeLoopRun * option error :=
  if lr_closed d then (d, Some (ErrNew "standardagent: AgentLoop submitted an action after Run returned"))
  else if present (lr_active d) then (d, Some (ErrNew "standardagent: AgentLoop submitted concurrent actions"))
  else (set_active d (Some a), None).

(** The part of [Act] up to [beginAction]; [Some] is its early return. *)
Definition act_begin (d : runtimeLoopRun) (ctxErr runErr : option error) (a : Action) : runtimeLoopRun * option (State * option error) :=
  match ctxErr, runErr, Action_Validate a with
  | Some e, _, _ => (d, Some (StateCanceled, Some e))
  | None, Some e, _ => (d, Some (StateCanceled, Some e))
  | None, None, Some e => (d, Some (StateFailed, Some e))
  | None, None, None =>
    match beginAction d a with
    | (d, Some e) => (d, Some (StateFailed, Some e))
    | (d, None) => (d, None)
    end
  end.

(** The rest of [Act], with [endAction]. *)
Definition act_end (d : runtimeLoopRun) (c : capabilities) : runtimeLoopRun * list loop_effect * (State * option error) :=
  match lr_active d with
  | None => (d, [], (StateFailed, None))
  | Some a => let '(d, effects, out) := act_body d a c in (set_active d None, effects, out)
  end.

(** [closeActions], before it waits for the action in flight; the flag says
    that there is one. *)
Definition closeActions (d : runtimeLoopRun) : runtimeLoopRun * bool :=
  (MkLoopRun (lr_step d) true (lr_active d) (lr_terminal d) (lr_outcome d) (lr_state d) (lr_nextStep d) (lr_pendingTools d) (lr_termination d),
   present (lr_active d)).

(** [invokeAgentLoop]: a panic of the loop is a failure. *)
Definition invokeAgentLoop (returned : result (Outcome * option error)) : Outcome * option error :=
  match returned with
  | Ok r => r
  | _ => (OutcomeFailed, Some (ErrNew "standardagent: AgentLoop panicked"))
  end.

(** The end of a round of [runLoopWithPrepared]: what [finishRun] is told. *)
Definition loop_verdict (d : runtimeLoopRun) (escapedAction : bool) (runErr : option error) (returned : Outcome * option error)
    : stepOutcome * option RunTermination :=
  let '(outcome, termination) :=
    match returned.2 with
    | Some e =>
      if errors_Is e "context canceled" || present runErr then (OutcomeCanceled, Some canceledRunTermination)
      else (OutcomeFailed, Some (terminationFromError TerminationLoop CodeLoopFailed e))
    | None => (returned.1, lr_termination d)
    end in
  if escapedAction || negb (Outcome_Terminal outcome) || negb (lr_terminal d) || negb (bool_decide (lr_outcome d = outcome)) then
    (stepFailed, Some (fixedRunTermination TerminationLoop ErrorInternal CodeLoopProtocolViolation))
  else (stepOutcomeFromLoop outcome, termination).

(** ** Sequential use *)
(** What the [k]th action of a loop meets: its context, that of the run, and
    the capabilities. *)
Record world := MkWorld { w_ctxErr : option error; w_runErr : option error; w_capabilities : capabilities }.

(** A loop runs over a driver, counting its actions and recording effects. *)
Record loop_state := MkLoopState { ls_driver : runtimeLoopRun; ls_acts : nat; ls_effects : list loop_effect }.

Definition Act (env : nat -> world) (s : loop_state) (a : Action) : loop_state * (State * option error) :=
  let w := env (ls_acts s) in
  match act_begin (ls_driver s) (w_ctxErr w) (w_runErr w) a with
  | (d, Some out) => (MkLoopState d (S (ls_acts s)) (ls_effects s), out)
  | (d, None) => let '(d, effects, out) := act_end d (w_capabilities w) in (MkLoopState d (S (ls_acts s)) (ls_effects s ++ effects), out)
  end.

Definition plain_action (k : ActionKind) : Action := MkLoopAction k no_outcome.

(** The loop of [standardLoop.Run] from the last state on; [None] when [fuel]
    actions were not enough. *)
Fixpoint standardLoop_from (fuel : nat) (env : nat -> world) (s : loop_state) (state : State) : loop_state * option (Outcome * option error) :=
  match fuel with
  | O => (s, None)
  | S fuel =>
    let go kind :=
      match Act env s (plain_action kind) with
      | (s, (_, Some e)) => (s, Some (OutcomeFailed, Some e))
      | (s, (state, None)) => standardLoop_from fuel env s state
      end in
    match state with
    | StateToolsReady => go ActionExecuteTools
    | StateContinueReady => go ActionContinue
    | StateReadyForModel => go ActionRequestModel
    | _ =>
      let outcome := loopOutcomeFromState state in
      match Act env s (MkLoopAction ActionFinish outcome) with
      | (s, (_, Some e)) => (s, Some (OutcomeFailed, Some e))
      | (s, (_, None)) => (s, Some (outcome, None))
      end
    end
  end.
Definition standardLoop_Run (fuel : nat) (env : nat -> world) (s : loop_state) : loop_state * option (Outcome * option error) :=
  standardLoop_from fuel env s (LoopState (ls_driver s)).

(** An action taken only in the given state; an error ends the step. *)
Definition when_state (env : nat -> world) (guard : State) (kind : ActionKind) (s : loop_state) (state : State) : loop_state * (State * option error) :=
  if bool_decide (state = guard) then Act env s (plain_action kind) else (s, (state, None)).

(** [Step], from its end to its start; its calls are sequential, so the flag
    against concurrent steps is never seen set. *)
Definition step_finish (env : nat -> world) (s : loop_state) (state : State) : loop_state * (Outcome * option error) :=
  let outcome := loopOutcomeFromState state in
  if negb (Outcome_Terminal outcome) then (s, (OutcomeFailed, Some (ErrNew "standardagent: Runtime returned an unknown Loop state")))
  else if bool_decide (outcome = OutcomeWaiting) then (s, (outcome, None))
  else
    match Act env s (MkLoopAction ActionFinish outcome) with
    | (s, (_, Some e)) => (s, (OutcomeFailed, Some e))
    | (s, (_, None)) => (s, (outcome, None))
    end.
Definition step_tools (env : nat -> world) (s : loop_state) (state : State) : loop_state * (Outcome * option error) :=
  match when_state env StateToolsReady ActionExecuteTools s state with
  | (s, (_, Some e)) => (s, (OutcomeFailed, Some e))
  | (s, (state, None)) => if bool_decide (state = StateContinueReady) then (s, (OutcomeContinue, None)) else step_finish env s state
  end.
Definition step_model (env : nat -> world) (s : loop_state) (state : State) : loop_state * (Outcome * option error) :=
  match when_state env StateReadyForModel ActionRequestModel s state with
  | (s, (_, Some e)) => (s, (OutcomeFailed, Some e))
  | (s, (state, None)) => step_tools env s state
  end.
Definition Step (env : nat -> world) (s : loop_state) : loop_state * (Outcome * option error) :=
  match when_state env StateContinueReady ActionContinue s (LoopState (ls_driver s)) with
  | (s, (_, Some e)) => (s, (OutcomeFailed, Some e))
  | (s, (state, None)) => step_model env s state
  end.

End Terminations.
