(* ===== verification/LoopProtocolFacts.v ===== *)
(** * What a loop can do to a run

    Whatever actions a loop submits, in whatever order and with whatever
    overlap, the runtime uses its capabilities only in the order of the
    protocol, and a run ends with the outcome of the runtime or, at a point
    where the loop may decide, with that of the loop. *)

From S2P Require Import Prelude GoStrings AgentTypes ModelContracts SessionTypes ToolDispatcher LoopProtocol.

Section Protocol.
Context (rendered : text -> string).

(** ** Events *)
Inductive loop_event :=
  | EvBegin (ctxErr runErr : option error) (a : Action)
  | EvEnd (c : capabilities)
  | EvClose.
Definition loop_step (s : runtimeLoopRun * list loop_effect) (ev : loop_event) : runtimeLoopRun * list loop_effect :=
  match ev with
  | EvBegin ctxErr runErr a => ((act_begin s.1 ctxErr runErr a).1, s.2)
  | EvEnd c => let '(d, effects, _) := act_end rendered s.1 c in (d, s.2 ++ effects)
  | EvClose => ((closeActions s.1).1, s.2)
  end.
Definition loop_run (events : list loop_event) (s : runtimeLoopRun * list loop_effect) : runtimeLoopRun * list loop_effect :=
  fold_left loop_step events s.

(** ** The protocol *)
Inductive phase :=
  | AtModel (step : string)
  | AtTools (calls : list ToolCall)
  | AtNext (next : string)
  | AtEnd (o : stepOutcome) (termination : option RunTermination).

Definition after_model (a : model_answer) : phase :=
  match a with
  | (stepContinue, next, _, _) => AtNext next
  | (stepToolsReady, _, calls, _) => AtTools calls
  | (o, _, _, termination) => AtEnd o termination
  end.

(** Calls that are ready are evaluated once; when no extension stops the
    batch, the dispatcher gets the authorizations, and its results are
    committed. *)
Inductive tools_round (calls : list ToolCall) : list loop_effect -> phase -> Prop :=
  | round_unevaluated preflight failure e :
      tools_round calls [PreflightsEvaluated calls (preflight, failure, Some e)]
        (AtEnd stepFailed (Some (terminationFromError rendered TerminationSession CodeSessionOperationFailed e)))
  | round_stopped preflight f answer termination :
      tools_round calls [PreflightsEvaluated calls (preflight, Some f, None); ResultsCommitted calls (preflightFailedResults calls) answer]
        (AtEnd stepFailed termination)
  | round_failed preflight out answer termination :
      to_contractViolation out = true \/ present answer.2 = true \/ present answer.1.1.2 = true ->
      tools_round calls [PreflightsEvaluated calls (preflight, None, None); ToolsDispatched calls preflight out; ResultsCommitted calls (to_results out) answer]
        (AtEnd stepFailed termination)
  | round_canceled preflight out next :
      to_contractViolation out = false ->
      tools_round calls [PreflightsEvaluated calls (preflight, None, None); ToolsDispatched calls preflight out;
          ResultsCommitted calls (to_results out) (next, None, true, None)]
        (AtEnd stepCanceled (Some canceledRunTermination))
  | round_done preflight out next :
      to_contractViolation out = false ->
      tools_round calls [PreflightsEvaluated calls (preflight, None, None); ToolsDispatched calls preflight out;
          ResultsCommitted calls (to_results out) (next, None, false, None)]
        (AtNext next).

Inductive follows (start : phase) : list loop_effect -> phase -> Prop :=
  | follows_start : follows start [] start
  | follows_model t step answer : follows start t (AtModel step) -> follows start (t ++ [ModelRequested step answer]) (after_model answer)
  | follows_tools t calls effects p : follows start t (AtTools calls) -> calls ≠ [] -> tools_round calls effects p -> follows start (t ++ effects) p
  | follows_next t next : follows start t (AtNext next) -> ID_Valid next = true -> follows start t (AtModel next).

(** The state of a driver that was not ended yet. *)
Definition in_phase (d : runtimeLoopRun) (p : phase) : Prop :=
  match p with
  | AtModel step => LoopState d = StateReadyForModel /\ lr_step d = step
  | AtTools calls => LoopState d = StateToolsReady /\ lr_pendingTools d = calls
  | AtNext next => LoopState d = StateContinueReady /\ lr_nextStep d = next
  | AtEnd o termination => LoopState d = loopStateFromStep o /\ o ≠ stepContinue /\ o ≠ stepToolsReady /\ lr_termination d = termination
  end.

(** How the loop may end a run. *)
Definition may_conclude (p : phase) (o : Outcome) (termination : option RunTermination) : Prop :=
  match p with
  | AtModel _ | AtNext _ => o = OutcomeCompleted \/ o = OutcomeFailed \/ o = OutcomeWaiting
  | AtTools _ => False
  | AtEnd stepNatural t => o = OutcomeCompleted /\ termination = t
  | AtEnd stepCanceled _ => o = OutcomeCanceled /\ termination = Some canceledRunTermination
  | AtEnd stepBudgetExceeded t => o = OutcomeBudgetExceeded /\ termination = Some (default budgetRunTermination t)
  | AtEnd stepFailed t => o = OutcomeFailed /\ termination = Some (default (fixedRunTermination TerminationLoop ErrorInternal CodeLoopFailed) t)
  | AtEnd _ _ => False
  end.

(** ** One event *)
Record loop_inv (start : phase) (s : runtimeLoopRun * list loop_effect) (p : phase) : Prop := {
  li_follows : follows start s.2 p;
  li_open : lr_terminal s.1 = false -> in_phase s.1 p;
  li_ended : lr_terminal s.1 = true -> may_conclude p (lr_outcome s.1) (lr_termination s.1);
  li_active : forall a, lr_active s.1 = Some a -> Action_Validate a = None;
}.

Lemma in_phase_LoopState d st next pending termination : LoopState (settled d st next pending termination) = st.
Proof. done. Qed.

Lemma after_model_in_phase d answer :
  let '(o, next, calls, termination) := answer in
  in_phase (settled d (loopStateFromStep o) next calls termination) (after_model answer).
Proof. by destruct answer as [[[[] next] calls] termination]. Qed.

Lemma finish_concludes d p o termination : in_phase d p -> Outcome_Terminal o = true -> o ≠ OutcomeWaiting -> finishAllowed (LoopState d) o = true ->
  termination = match o with
    | OutcomeFailed => Some (default (fixedRunTermination TerminationLoop ErrorInternal CodeLoopFailed) (lr_termination d))
    | OutcomeCanceled => Some canceledRunTermination
    | OutcomeBudgetExceeded => Some (default budgetRunTermination (lr_termination d))
    | _ => lr_termination d
    end ->
  may_conclude p o termination.
Proof.
  intros Hp Ho Hw Hf ->. destruct p as [step|calls|next|so t]; cbn [in_phase] in Hp.
  1,3: destruct Hp as [Hs _]; rewrite Hs in Hf; cbn in Hf |- *; apply orb_true_iff in Hf as [Hf|Hf]; apply bool_decide_eq_true in Hf; auto.
  - destruct Hp as [Hs _]. rewrite Hs in Hf. cbn in Hf. bool_simpl. by subst o.
  - destruct Hp as (Hs&Hc&Ht&Hterm). rewrite Hs in Hf. destruct so; try done; cbn in Hf; bool_simpl; subst o; cbn; rewrite ?Hterm; done.
Qed.

Lemma execute_tools_round d c : exists effects d' out p, execute_tools rendered d c = (d', effects, out) /\
  tools_round (lr_pendingTools d) effects p /\ in_phase d' p /\ lr_terminal d' = lr_terminal d.
Proof.
  unfold execute_tools. destruct (cap_evaluateToolPreflights c _) as [[preflight failure] [e|]].
  { eexists _, _, _, _. split; [done|]. split; [constructor|]. done. }
  destruct failure as [f|].
  { destruct (cap_commitToolResults c _ _) as [[[next post] canceled] [e|]] eqn:Ec; eexists _, _, _, _; (split; [done|]); (split; [constructor|]); done. }
  set (out := cap_dispatch c _ _). destruct (cap_commitToolResults c _ _) as [[[next post] canceled] err] eqn:Ec.
  destruct err as [e|]; [|destruct post as [f|]; [|destruct (to_contractViolation out) eqn:Ev; [|destruct canceled]]];
    eexists _, _, _, _; (split; [reflexivity|]).
  1,2,3: split; [apply round_failed; cbn; auto|done].
  - split; [by apply round_canceled|done].
  - split; [by apply round_done|done].
Qed.

Lemma act_body_inv start d t p a c : loop_inv start (d, t) p -> Action_Validate a = None ->
  exists d' effects out p', act_body rendered d a c = (d', effects, out) /\ follows start (t ++ effects) p' /\
    (lr_terminal d' = false -> in_phase d' p') /\
    (lr_terminal d' = true -> may_conclude p' (lr_outcome d') (lr_termination d')) /\
    (lr_terminal d = true -> effects = []).
Proof.
  intros [Hf Ho He _] Ha. cbn [fst snd] in *. unfold act_body. destruct (lr_terminal d) eqn:Et.
  { eexists _, _, _, p. rewrite app_nil_r, Et. split_and!; [done|done|done|by intros _; apply He|done]. }
  specialize (Ho eq_refl). set (d1 := settled d (LoopState d) (lr_nextStep d) (lr_pendingTools d) (lr_termination d)).
  assert (Ht1 : lr_terminal d1 = false) by done.
  assert (Hd1 : in_phase d1 p) by (by destruct p).
  assert (Hrefused : forall message : string, exists d' effects out p', (d1, [] : list loop_effect, (StateFailed, Some (ErrNew message))) = (d', effects, out) /\
    follows start (t ++ effects) p' /\ (lr_terminal d' = false -> in_phase d' p') /\
    (lr_terminal d' = true -> may_conclude p' (lr_outcome d') (lr_termination d')) /\ (false = true -> effects = [])).
  { intros message. eexists _, _, _, p. rewrite app_nil_r, Ht1. split_and!; done. }
  destruct (lact_Kind a) eqn:Ek.
  - destruct (negb _) eqn:Es; [apply Hrefused|]. bool_simpl. destruct p as [step|calls|next|o termination]; cbn [in_phase] in Ho; try (destruct Ho as [Ho _]; congruence).
    2:{ destruct Ho as (Ho&_&_&_). rewrite Es in Ho. by destruct o. }
    destruct Ho as [_ <-]. change (lr_step d1) with (lr_step d). pose proof (after_model_in_phase d1 (cap_requestModel c (lr_step d))) as Hm.
    destruct (cap_requestModel c (lr_step d)) as [[[o next] calls] termination] eqn:Ec.
    eexists _, _, _, _. split; [done|]. split; [by apply follows_model|]. split; [by intros _|]. by cbn; rewrite Et.
  - destruct (_ || _) eqn:Es; [apply Hrefused|]. bool_simpl.
    destruct p as [step|calls|next|o termination]; cbn [in_phase] in Ho; try (destruct Ho as [Ho _]; congruence).
    2:{ destruct Ho as (Ho&?&?&?). rewrite Ho in *. by destruct o. }
    destruct Ho as [_ Hc]. destruct (execute_tools_round d1 c) as (effects&d'&out&p'&He'&Hr&Hp'&Ht'). rewrite He'.
    change (lr_pendingTools d1) with (lr_pendingTools d) in Hr. rewrite Hc in Hr. rewrite Ht1 in Ht'.
    eexists _, _, _, _. split; [done|]. split; [eapply follows_tools; [done| |done]|]. { intros ->. change (lr_pendingTools d1) with (lr_pendingTools d) in *. by rewrite Hc in *. }
    rewrite Ht'. done.
  - destruct (_ || _) eqn:Es; [apply Hrefused|]. bool_simpl. destruct p as [step|calls|next|o termination]; cbn [in_phase] in Ho; try (destruct Ho as [Ho _]; congruence).
    2:{ destruct Ho as (Ho&?&?&?). rewrite Ho in *. by destruct o. }
    destruct Ho as [_ Hn]. eexists _, _, _, _. split; [done|]. rewrite app_nil_r. split; [eapply follows_next; [exact Hf|]|].
    { change (lr_nextStep d1) with (lr_nextStep d) in *. by rewrite Hn in *. }
    cbn. rewrite Et, Hn. done.
  - destruct (negb _) eqn:Es; [apply Hrefused|]. bool_simpl. unfold Action_Validate in Ha. rewrite Ek in Ha.
    destruct (_ || _) eqn:Eo in Ha; [done|]. bool_simpl. eexists _, _, _, p. split; [done|]. rewrite app_nil_r. split; [done|]. split; [done|]. split; [|done].
    intros _. by eapply (finish_concludes d1).
  - destruct (_ && _) eqn:Es; [apply Hrefused|]. eexists _, _, _, p. split; [done|]. rewrite app_nil_r. split; [done|]. split; [done|]. split; [|done].
    intros _. cbn. apply andb_false_iff in Es as [Es|Es]; bool_simpl; (destruct p as [step|calls|next|o termination]; cbn [in_phase] in Ho; cbn; auto;
      [destruct Ho as [Ho _]; congruence|destruct Ho as (Ho&?&?&?); rewrite Ho in Es; by destruct o]).
  - apply Hrefused.
Qed.

Lemma set_active_phase d a p : in_phase (set_active d a) p <-> in_phase d p.
Proof. by destruct p. Qed.

Lemma loop_step_inv start s p ev : loop_inv start s p ->
  exists p', loop_inv start (loop_step s ev) p' /\
    (lr_terminal s.1 = true -> lr_terminal (loop_step s ev).1 = true /\ (loop_step s ev).2 = s.2) /\
    (lr_closed s.1 = true -> lr_active s.1 = None ->
      lr_closed (loop_step s ev).1 = true /\ lr_active (loop_step s ev).1 = None /\ (loop_step s ev).2 = s.2).
Proof.
  destruct s as [d t]. intros Hi. pose proof Hi as [Hf Ho He Ha]. cbn [fst snd] in *. destruct ev as [ctxErr runErr a|c|]; cbn [loop_step fst snd].
  - exists p. unfold act_begin, beginAction.
    destruct ctxErr; [done|]. destruct runErr; [done|]. destruct (Action_Validate a) eqn:Ev; [done|].
    destruct (lr_closed d) eqn:Ec; [by split|]. destruct (present (lr_active d)) eqn:Ea; [by split|]. cbn [fst snd].
    split; [|by split]. split; cbn; [done|by rewrite set_active_phase|done|by intros ? [= <-]].
  - unfold act_end. destruct (lr_active d) as [a|] eqn:Ea; cbn [fst snd].
    2:{ exists p. rewrite app_nil_r. split; [|done]. split; cbn; [done|done|done|by rewrite Ea]. }
    destruct (act_body_inv start d t p a c Hi (Ha a eq_refl)) as (d'&effects&out&p'&Hb&Hf'&Ho'&He'&Ht'). rewrite Hb. cbn [fst snd].
    exists p'. split; [split; cbn; [done|by rewrite set_active_phase|done|done]|]. split; [|done].
    intros Hterm. rewrite (Ht' Hterm), app_nil_r. split; [|done]. unfold act_body in Hb. rewrite Hterm in Hb. by injection Hb as <- _ _.
  - exists p. split; [|done]. split; cbn; [done|by destruct p|done|done].
Qed.

Lemma loop_run_inv start events : forall s p, loop_inv start s p ->
  exists p', loop_inv start (loop_run events s) p' /\
    (lr_terminal s.1 = true -> (loop_run events s).2 = s.2) /\
    (lr_closed s.1 = true -> lr_active s.1 = None -> (loop_run events s).2 = s.2).
Proof.
  induction events as [|ev events IH]; intros s p Hi; [by exists p|]. destruct (loop_step_inv start s p ev Hi) as (p1&Hi1&Ht&Hc).
  destruct (IH _ _ Hi1) as (p2&Hi2&Ht2&Hc2). exists p2. split; [done|]. split.
  - intros Hterm. destruct (Ht Hterm) as [Ht1 Heq]. unfold loop_run in *. cbn [fold_left]. rewrite <-Heq. by apply Ht2.
  - intros Hcl Ha. destruct (Hc Hcl Ha) as (Hcl1&Ha1&Heq). unfold loop_run in *. cbn [fold_left]. rewrite <-Heq. by apply Hc2.
Qed.

(** Where a round of [runLoopWithPrepared] begins. *)
Definition start_phase (step : string) (prepared : list ToolCall) : phase :=
  match prepared with [] => AtModel step | _ => AtTools prepared end.

Lemma loop_inv_start step prepared : loop_inv (start_phase step prepared) (new_loop_run step prepared, []) (start_phase step prepared).
Proof. split; cbn; [constructor| |done|done]. by destruct prepared. Qed.

(** What [finishRun] is told when the loop returned and everything it started
    has ended. *)
Definition protocol_violation : stepOutcome * option RunTermination :=
  (stepFailed, Some (fixedRunTermination TerminationLoop ErrorInternal CodeLoopProtocolViolation)).

Lemma loop_verdict_spec start s p escaped runErr returned o termination : loop_inv start s p ->
  loop_verdict rendered s.1 escaped runErr returned = (o, termination) ->
  (o, termination) = protocol_violation \/
  escaped = false /\ lr_terminal s.1 = true /\ may_conclude p (lr_outcome s.1) (lr_termination s.1) /\ o = stepOutcomeFromLoop (lr_outcome s.1) /\
  (returned.2 = None -> termination = lr_termination s.1).
Proof.
  intros [_ _ He _] Hv. unfold loop_verdict in Hv. destruct (match returned.2 with Some _ => _ | None => _ end) as [outcome term] eqn:Ep.
  destruct (_ || _) eqn:Eb in Hv; injection Hv as <- <-; [by left|]. bool_simpl. right. split; [done|]. split; [done|]. split; [by apply He|].
  split; [congruence|]. intros Hn. rewrite Hn in Ep. congruence.
Qed.

End Protocol.
