(* ===== verification/LoopStandard.v ===== *)
(** * The standard loop

    The fallback loop of the profile ends every run whose model answers stop
    asking for more, with the outcome of the runtime, and loops written
    against the deprecated [Step] behave in the same way. *)

From S2P Require Import Prelude GoStrings AgentTypes ModelContracts SessionTypes ToolDispatcher LoopProtocol LoopProtocolFacts.

Section Standard.
Context (rendered : text -> string).
Notation Act := (Act rendered).
Notation Step := (Step rendered).

(** A loop of the first API: it steps until the outcome is not to continue. *)
Fixpoint stepping (fuel : nat) (env : nat -> world) (s : loop_state) : loop_state * option (Outcome * option error) :=
  match fuel with
  | O => (s, None)
  | S fuel =>
    match Step env s with
    | (s, (OutcomeContinue, None)) => stepping fuel env s
    | (s, returned) => (s, Some returned)
    end
  end.

(** What the fixed runtime never answers: a wait, a batch without calls, a
    next step without an identity. *)
Record well_answered (c : capabilities) : Prop := {
  wa_model : forall step, match cap_requestModel c step with
    | (stepWaiting, _, _, _) => False
    | (stepToolsReady, _, calls, _) => calls ≠ []
    | (stepContinue, next, _, _) => ID_Valid next = true
    | _ => True
    end;
  wa_commit : forall calls results, match cap_commitToolResults c calls results with (next, None, false, None) => ID_Valid next = true | _ => True end;
}.
(** The model does not ask for another step. *)
Definition settles (c : capabilities) : Prop :=
  forall step, (cap_requestModel c step).1.1.1 ≠ stepContinue /\ (cap_requestModel c step).1.1.1 ≠ stepToolsReady.

(** ** One action *)
Definition after_act (a : Action) (c : capabilities) (st : State) : Prop :=
  match lact_Kind a with
  | ActionRequestModel => exists step, st = loopStateFromStep (cap_requestModel c step).1.1.1
  | ActionExecuteTools => st = StateFailed \/ st = StateCanceled \/ st = StateContinueReady
  | ActionContinue => st = StateReadyForModel
  | _ => True
  end.

Lemma execute_tools_state d c : exists d' effects st err, execute_tools rendered d c = (d', effects, (st, err)) /\ LoopState d' = st /\
  (st = StateFailed \/ st = StateCanceled \/ st = StateContinueReady).
Proof.
  unfold execute_tools. destruct (cap_evaluateToolPreflights c _) as [[preflight failure] [e|]]; [eexists _, _, _, _; split; [done|]; cbn; auto|].
  destruct failure as [f|].
  { destruct (cap_commitToolResults c _ _) as [[[next post] canceled] [e|]] eqn:Ec; eexists _, _, _, _; (split; [done|]); cbn; auto. }
  destruct (cap_commitToolResults c _ _) as [[[next post] canceled] err].
  eexists _, _, _, _; (split; [done|]); (split; [done|]).
  destruct err as [e|]; [|destruct post as [f|]; [|destruct (to_contractViolation _); [|destruct canceled]]]; cbn; auto.
Qed.

Lemma act_body_state d a c d' effects st : act_body rendered d a c = (d', effects, (st, None)) -> LoopState d' = st /\ after_act a c st.
Proof.
  unfold act_body, after_act. destruct (lr_terminal d); [done|]. destruct (lact_Kind a) eqn:Ek.
  - destruct (negb _); [done|]. destruct (cap_requestModel c _) as [[[o next] calls] termination] eqn:Ec. intros [= <- <- <-].
    split; [done|]. eexists. by rewrite Ec.
  - destruct (_ || _); [done|]. match goal with |- context [execute_tools _ ?d1 c] => destruct (execute_tools_state d1 c) as (d2&es&st2&err&He&Hs&Hst) end.
    rewrite He. intros [= <- <- <- ->]. done.
  - destruct (_ || _); [done|]. by intros [= <- <- <-].
  - destruct (negb _); [done|]. by intros [= <- <- <-].
  - destruct (_ && _); [done|]. by intros [= <- <- <-].
  - done.
Qed.

Lemma Act_state env s a s' st : Act env s a = (s', (st, None)) ->
  LoopState (ls_driver s') = st /\ ls_acts s' = S (ls_acts s) /\ after_act a (w_capabilities (env (ls_acts s))) st.
Proof.
  unfold LoopProtocol.Act. destruct (act_begin _ _ _ _) as [d [out|]] eqn:Eb.
  - intros [= <- ->]. unfold act_begin in Eb. destruct (w_ctxErr _); [by injection Eb|]. destruct (w_runErr _); [by injection Eb|].
    destruct (Action_Validate a); [by injection Eb|]. destruct (beginAction _ _) as [? [?|]]; by injection Eb.
  - assert (Ha : lr_active d = Some a).
    { unfold act_begin in Eb. destruct (w_ctxErr _); [done|]. destruct (w_runErr _); [done|]. destruct (Action_Validate a); [done|].
      unfold beginAction in Eb. destruct (lr_closed _); [done|]. destruct (present _); [done|]. by injection Eb as <-. }
    unfold act_end. rewrite Ha. destruct (act_body _ _ _ _) as [[d' effects] out] eqn:Ebody. intros [= <- ->].
    apply act_body_state in Ebody as [Hs Hafter]. done.
Qed.

(** ** The two loops *)
(** A loop goes on after a step as its result says. *)
Definition goes_on (env : nat -> world) (step : loop_state * (Outcome * option error)) (out : loop_state * option (Outcome * option error)) : Prop :=
  exists n, match step with (s, (OutcomeContinue, None)) => stepping n env s | (s, returned) => (s, Some returned) end = out.

Lemma goes_on_error env s e out : (s, Some (OutcomeFailed, Some e)) = out -> goes_on env (s, (OutcomeFailed, Some e)) out.
Proof. intros <-. by exists 0. Qed.

Definition ending (st : State) : Prop := st = StateCompleted \/ st = StateFailed \/ st = StateCanceled \/ st = StateBudgetExceeded.

Lemma standard_end fuel env s st : ending st -> standardLoop_from rendered (S fuel) env s st =
  match Act env s (MkLoopAction ActionFinish (loopOutcomeFromState st)) with
  | (s, (_, Some e)) => (s, Some (OutcomeFailed, Some e))
  | (s, (_, None)) => (s, Some (loopOutcomeFromState st, None))
  end.
Proof. by intros [-> | [-> | [-> | ->]]]. Qed.

Lemma step_finish_agrees fuel env s st out : ending st -> standardLoop_from rendered (S fuel) env s st = out -> goes_on env (step_finish rendered env s st) out.
Proof.
  intros He. rewrite standard_end by done. unfold step_finish. intros <-.
  rewrite (bool_decide_eq_false_2 (loopOutcomeFromState st = OutcomeWaiting)) by (by destruct He as [-> | [-> | [-> | ->]]]).
  assert (Outcome_Terminal (loopOutcomeFromState st) = true) as -> by (by destruct He as [-> | [-> | [-> | ->]]]). cbn [negb].
  exists 0. destruct (Act env s _) as [s1 [st1 [e|]]]; [done|]. by destruct He as [-> | [-> | [-> | ->]]].
Qed.

Section Equivalence.
Context (env : nat -> world).
Hypothesis no_wait : forall k step, (cap_requestModel (w_capabilities (env k)) step).1.1.1 ≠ stepWaiting.

(** The claim for a number of actions. *)
Definition agrees (fuel : nat) : Prop := forall s s' r, LoopState (ls_driver s) ≠ StateWaiting ->
  standardLoop_from rendered fuel env s (LoopState (ls_driver s)) = (s', Some r) -> goes_on env (Step env s) (s', Some r).

Lemma agrees_continue fuel s out : agrees fuel -> LoopState (ls_driver s) = StateContinueReady ->
  standardLoop_from rendered fuel env s StateContinueReady = (out.1, Some out.2) -> goes_on env (s, (OutcomeContinue, None)) (out.1, Some out.2).
Proof. intros IH Hs Hl. destruct (IH s out.1 out.2) as [n Hn]; [by rewrite Hs|by rewrite Hs|]. by exists (S n). Qed.

Lemma step_tools_agrees fuel s st s' r : (forall k, k < fuel -> agrees k) -> (st = StateContinueReady -> agrees fuel) -> LoopState (ls_driver s) = st -> st ≠ StateWaiting -> st ≠ StateReadyForModel ->
  standardLoop_from rendered fuel env s st = (s', Some r) -> goes_on env (step_tools rendered env s st) (s', Some r).
Proof.
  intros IH IHc Hs Hw Hr Hl. destruct fuel as [|fuel]; [done|]. unfold step_tools, when_state. case_bool_decide as Ht.
  - subst st. rewrite Ht in Hl. cbn [standardLoop_from] in Hl. destruct (Act env s (plain_action ActionExecuteTools)) as [s1 [st1 [e|]]] eqn:Ea; [by apply goes_on_error|].
    apply Act_state in Ea as (Hs1&_&Hafter). case_bool_decide as Hc; [subst st1|].
    + rewrite Hc in *. apply (agrees_continue fuel s1 (s', r)); [apply IH; lia|done|done].
    + destruct fuel as [|fuel]; [done|]. eapply step_finish_agrees; [|exact Hl].
      destruct Hafter as [-> | [-> | ->]]; [right; by left|right; right; by left|done].
  - case_bool_decide as Hc; [subst st; rewrite Hc in Hl; apply (agrees_continue (S fuel) s (s', r)); [by apply IHc|done|done]|].
    eapply step_finish_agrees; [|exact Hl]. unfold ending. destruct st; try done; auto.
Qed.

Lemma step_model_agrees fuel s st s' r : (forall k, k < fuel -> agrees k) -> LoopState (ls_driver s) = st -> st ≠ StateWaiting -> st ≠ StateContinueReady ->
  standardLoop_from rendered fuel env s st = (s', Some r) -> goes_on env (step_model rendered env s st) (s', Some r).
Proof.
  intros IH Hs Hw Hc Hl. unfold step_model, when_state. case_bool_decide as Ht; [|by eapply (step_tools_agrees fuel)].
  destruct fuel as [|fuel]; [done|]. subst st. rewrite Ht in Hl. cbn [standardLoop_from] in Hl.
  destruct (Act env s (plain_action ActionRequestModel)) as [s1 [st1 [e|]]] eqn:Ea; [by apply goes_on_error|].
  apply Act_state in Ea as (Hs1&_&step&Hst). eapply (step_tools_agrees fuel); [| |done| | |exact Hl].
  - intros k Hk. apply IH. lia.
  - intros _. apply IH. lia.
  - rewrite Hst. specialize (no_wait (ls_acts s) step). by destruct (cap_requestModel _ _) as [[[[] ?] ?] ?].
  - rewrite Hst. by destruct (cap_requestModel _ _) as [[[[] ?] ?] ?].
Qed.

Lemma Step_agrees fuel : agrees fuel.
Proof.
  induction fuel as [fuel IH] using lt_wf_ind. intros s s' r Hw Hl. unfold LoopProtocol.Step, when_state. case_bool_decide as Hc.
  - destruct fuel as [|fuel]; [done|]. rewrite Hc in Hl. cbn [standardLoop_from] in Hl.
    destruct (Act env s (plain_action ActionContinue)) as [s1 [st1 [e|]]] eqn:Ea; [by apply goes_on_error|].
    apply Act_state in Ea as (Hs1&_&Hst). change (st1 = StateReadyForModel) in Hst.
    apply (step_model_agrees fuel s1 st1 s' r); [|done|by rewrite Hst|by rewrite Hst|done].
    intros k Hk. apply IH. lia.
  - by apply (step_model_agrees fuel).
Qed.
End Equivalence.

(** ** How a run of the standard loop ends *)
Section Reports.
Context (start : phase) (env : nat -> world).
Hypothesis uninterrupted : forall k, w_ctxErr (env k) = None /\ w_runErr (env k) = None.
Hypothesis answered : forall k, well_answered (w_capabilities (env k)).

(** The loop is in control of an open run. *)
Record in_control (s : loop_state) (p : phase) : Prop := {
  ic_inv : loop_inv rendered start (ls_driver s, ls_effects s) p;
  ic_open : lr_terminal (ls_driver s) = false;
  ic_not_closed : lr_closed (ls_driver s) = false;
  ic_idle : lr_active (ls_driver s) = None;
  ic_phase : match p with AtNext next => ID_Valid next = true | AtTools calls => calls ≠ [] | AtEnd stepWaiting _ => False | _ => True end;
}.

(** The error a capability reported while tools were handled. *)
Definition tools_error (effects : list loop_effect) (e : error) : Prop :=
  (exists t calls preflight failure, effects = t ++ [PreflightsEvaluated calls (preflight, failure, Some e)]) \/
  (exists t calls results next post canceled, effects = t ++ [ResultsCommitted calls results (next, post, canceled, Some e)]).

Lemma Act_body s p a : in_control s p -> Action_Validate a = None ->
  Act env s a = (let '(d, effects, out) := act_body rendered (set_active (ls_driver s) (Some a)) a (w_capabilities (env (ls_acts s))) in
    (MkLoopState (set_active d None) (S (ls_acts s)) (ls_effects s ++ effects), out)).
Proof.
  intros [_ _ Hc Ha _] Hv. unfold LoopProtocol.Act, act_begin, beginAction. destruct (uninterrupted (ls_acts s)) as [-> ->].
  rewrite Hv, Hc, Ha. cbn [present]. unfold act_end. cbn [lr_active set_active].
  by destruct (act_body _ _ _ _) as [[d effects] out].
Qed.

Lemma in_control_inv s p a : in_control s p -> Action_Validate a = None ->
  exists p', loop_inv rendered start (ls_driver (Act env s a).1, ls_effects (Act env s a).1) p'.
Proof.
  intros Hic Hv. rewrite (Act_body s p a Hic Hv). pose proof Hic as [Hi Ho Hc Ha _].
  destruct (loop_step_inv rendered start _ p (EvBegin None None a) Hi) as (p1&Hi1&_).
  unfold loop_step in Hi1. cbn [fst snd] in Hi1. unfold act_begin, beginAction in Hi1. rewrite Hv, Hc, Ha in Hi1. cbn [present fst] in Hi1.
  destruct (loop_step_inv rendered start _ p1 (EvEnd (w_capabilities (env (ls_acts s)))) Hi1) as (p2&Hi2&_). exists p2.
  unfold loop_step in Hi2. cbn [fst snd] in Hi2. unfold act_end in Hi2. cbn [lr_active set_active] in Hi2.
  by destruct (act_body _ _ _ _) as [[d effects] out].
Qed.

(** *** Actions of the standard loop *)
Definition batch_phase (p : phase) : Prop :=
  match p with AtEnd o _ => o = stepFailed \/ o = stepCanceled | AtNext next => ID_Valid next = true | _ => False end.

Lemma execute_tools_report d c : well_answered c -> exists effects d' st err, execute_tools rendered d c = (d', effects, (st, err)) /\
  lr_terminal d' = lr_terminal d /\ lr_closed d' = lr_closed d /\ lr_active d' = lr_active d /\
  match err with
  | Some e => tools_error effects e
  | None => LoopState d' = st /\ exists p, tools_round rendered (lr_pendingTools d) effects p /\ in_phase d' p /\ batch_phase p
  end.
Proof.
  intros Hw. unfold execute_tools, tools_error. destruct (cap_evaluateToolPreflights c _) as [[preflight failure] [e|]].
  { eexists _, _, _, _. split; [done|]. split_and!; [done..|]. left. by eexists [], _, _, _. }
  destruct failure as [f|].
  { destruct (cap_commitToolResults c _ _) as [[[next post] canceled] [e|]] eqn:Ec; eexists _, _, _, _; (split; [done|]); (split_and!; [done..|]).
    - right. exists [PreflightsEvaluated (lr_pendingTools d) (preflight, Some f, None)]. by eexists _, _, _, _, _.
    - eexists. split; [eapply round_stopped|]. split; [done|]. by left. }
  set (out := cap_dispatch c _ _). pose proof (wa_commit c Hw (lr_pendingTools d) (to_results out)) as Hnext.
  destruct (cap_commitToolResults c _ _) as [[[next post] canceled] err] eqn:Ec.
  destruct err as [e|]; [|destruct post as [f|]; [|destruct (to_contractViolation out) eqn:Ev; [|destruct canceled]]];
    eexists _, _, _, _; (split; [reflexivity|]); (split_and!; [done..|]).
  - right. exists [PreflightsEvaluated (lr_pendingTools d) (preflight, None, None); ToolsDispatched (lr_pendingTools d) preflight out].
    by eexists _, _, _, _, _.
  - eexists. split; [eapply round_failed; cbn; auto|]. split; [done|by left].
  - eexists. split; [eapply round_failed; cbn; auto|]. split; [done|by left].
  - eexists. split; [by apply round_canceled|]. split; [done|by right].
  - eexists. split; [by apply round_done|]. by split.
Qed.

Lemma tools_error_app t effects e : tools_error effects e -> tools_error (t ++ effects) e.
Proof.
  intros [(t'&calls&preflight&failure&->)|(t'&calls&results&next&post&canceled&->)]; [left; eexists (t ++ t'), _, _, _|right; eexists (t ++ t'), _, _, _, _, _];
    by rewrite <-app_assoc.
Qed.

Lemma act_model s step : in_control s (AtModel step) -> exists s',
  Act env s (plain_action ActionRequestModel) =
    (s', (loopStateFromStep (cap_requestModel (w_capabilities (env (ls_acts s))) step).1.1.1, None)) /\
  ls_acts s' = S (ls_acts s) /\ LoopState (ls_driver s') = loopStateFromStep (cap_requestModel (w_capabilities (env (ls_acts s))) step).1.1.1 /\
  in_control s' (after_model (cap_requestModel (w_capabilities (env (ls_acts s))) step)).
Proof.
  intros Hic. pose proof Hic as [[Hf Ho He Hact] Ht Hc Ha _]. cbn [fst snd] in *. destruct (Ho Ht) as [Hs Hstep].
  rewrite (Act_body _ _ _ Hic) by done. unfold act_body. cbn [lr_terminal set_active]. rewrite Ht.
  change (LoopState (set_active (ls_driver s) (Some (plain_action ActionRequestModel)))) with (LoopState (ls_driver s)). rewrite Hs. cbn -[after_model].
  rewrite Hstep. pose proof (wa_model _ (answered (ls_acts s)) step) as Hw.
  destruct (cap_requestModel (w_capabilities (env (ls_acts s))) step) as [[[o next] calls] termination] eqn:Ec. cbn [fst].
  eexists. split; [done|]. split; [done|]. split; [done|]. split; cbn -[after_model]; [|done|done|done|by destruct o].
  split; cbn -[after_model].
  - by apply follows_model.
  - intros _. by destruct o.
  - by rewrite Ht.
  - done.
Qed.

Lemma act_next s next : in_control s (AtNext next) -> exists s',
  Act env s (plain_action ActionContinue) = (s', (StateReadyForModel, None)) /\ ls_acts s' = S (ls_acts s) /\
  LoopState (ls_driver s') = StateReadyForModel /\ in_control s' (AtModel next).
Proof.
  intros Hic. pose proof Hic as [[Hf Ho He Hact] Ht Hc Ha Hv]. cbn [fst snd] in *. destruct (Ho Ht) as [Hs Hnext].
  rewrite (Act_body _ _ _ Hic) by done. unfold act_body. cbn [lr_terminal set_active]. rewrite Ht.
  change (LoopState (set_active (ls_driver s) (Some (plain_action ActionContinue)))) with (LoopState (ls_driver s)). rewrite Hs. cbn.
  rewrite Hnext, Hv. cbn. eexists. split; [done|]. split; [done|]. split; [done|]. split; cbn; [|done|done|done|done].
  split; cbn; [rewrite app_nil_r; by eapply follows_next|done|by rewrite Ht|done].
Qed.

Lemma act_tools s calls : in_control s (AtTools calls) -> exists s' st err,
  Act env s (plain_action ActionExecuteTools) = (s', (st, err)) /\ ls_acts s' = S (ls_acts s) /\
  match err with
  | None => LoopState (ls_driver s') = st /\ exists p, in_control s' p /\ batch_phase p
  | Some e => lr_terminal (ls_driver s') = false /\ tools_error (ls_effects s') e
  end.
Proof.
  intros Hic. pose proof Hic as [[Hf Ho He Hact] Ht Hc Ha Hv]. cbn [fst snd] in *. destruct (Ho Ht) as [Hs Hcalls].
  rewrite (Act_body _ _ _ Hic) by done. unfold act_body. cbn [lr_terminal set_active]. rewrite Ht.
  change (LoopState (set_active (ls_driver s) (Some (plain_action ActionExecuteTools)))) with (LoopState (ls_driver s)). rewrite Hs.
  cbn [plain_action lact_Kind]. rewrite bool_decide_eq_true_2 by done. cbn [negb orb].
  match goal with |- context [execute_tools rendered ?x _] => set (d1 := x) end.
  assert (Hp : lr_pendingTools d1 = calls) by done. rewrite Hp.
  destruct (execute_tools_report d1 (w_capabilities (env (ls_acts s)))) as (effects&d'&st&err&He'&Ht'&Hc'&Ha'&Hr); [done|]. rewrite He'. rewrite Hp in Hr.
  destruct calls as [|call calls]; [done|]. eexists _, st, err. split; [done|]. split; [done|]. cbn [ls_driver ls_effects set_active lr_terminal].
  change (lr_terminal d1) with (lr_terminal (ls_driver s)) in Ht'. change (lr_closed d1) with (lr_closed (ls_driver s)) in Hc'.
  destruct err as [e|]; [split; [by rewrite Ht'|by apply tools_error_app]|]. destruct Hr as (Hst&p&Hround&Hin&Hb).
  split; [done|]. exists p. split; [|done]. split; cbn.
  - split; cbn; [by eapply follows_tools|by rewrite set_active_phase|by rewrite Ht', Ht|done].
  - by rewrite Ht'.
  - by rewrite Hc'.
  - done.
  - destruct p as [| | |[]]; try done; destruct Hb; done.
Qed.

(** What is reported when the loop ends a run where the runtime did. *)
Definition reported (o : stepOutcome) (termination : option RunTermination) : option RunTermination :=
  match o with
  | stepFailed => Some (default (fixedRunTermination TerminationLoop ErrorInternal CodeLoopFailed) termination)
  | stepCanceled => Some canceledRunTermination
  | stepBudgetExceeded => Some (default budgetRunTermination termination)
  | _ => termination
  end.

Lemma act_finish s o termination : in_control s (AtEnd o termination) ->
  exists s', Act env s (MkLoopAction ActionFinish (loopOutcomeFromState (loopStateFromStep o))) = (s', (loopStateFromStep o, None)) /\
    follows rendered start (ls_effects s') (AtEnd o termination) /\
    loop_verdict rendered (ls_driver s') false None (loopOutcomeFromState (loopStateFromStep o), None) = (o, reported o termination).
Proof.
  intros Hic. pose proof Hic as [[Hf Ho He Hact] Ht Hc Ha Hv]. cbn [fst snd] in *. destruct (Ho Ht) as (Hs&Hn1&Hn2&Hterm).
  rewrite (Act_body _ _ _ Hic) by (by destruct o). unfold act_body. cbn [lr_terminal set_active]. rewrite Ht.
  change (LoopState (set_active (ls_driver s) (Some _))) with (LoopState (ls_driver s)). rewrite Hs.
  destruct o; try done; (eexists; split; [cbn; rewrite ?Hterm; reflexivity|]); (split; [cbn; by rewrite app_nil_r|done]).
Qed.

(** *** The whole run *)
Definition rank (p : phase) : nat := match p with AtTools _ => 4 | AtNext _ => 3 | AtModel _ => 2 | AtEnd _ _ => 1 end.

(** How the standard loop can return. *)
Definition standard_return (s : loop_state) (returned : Outcome * option error) : Prop :=
  (exists o termination, follows rendered start (ls_effects s) (AtEnd o termination) /\
    loop_verdict rendered (ls_driver s) false None returned = (o, reported o termination)) \/
  (exists e, returned = (OutcomeFailed, Some e) /\ tools_error (ls_effects s) e /\ loop_verdict rendered (ls_driver s) false None returned = protocol_violation).

Lemma standardLoop_returns n (Hsettle : forall k, n <= k -> settles (w_capabilities (env k))) : forall fuel s p,
  in_control s p -> 3 * (n - ls_acts s) + rank p <= fuel ->
  exists s' returned, standardLoop_from rendered fuel env s (LoopState (ls_driver s)) = (s', Some returned) /\ standard_return s' returned.
Proof.
  induction fuel as [|fuel IH]; intros s p Hic Hfuel; [destruct p; cbn in Hfuel; lia|].
  pose proof Hic as [[_ Ho _ _] Ht _ _ Hv]. specialize (Ho Ht). cbn [fst] in Ho.
  destruct p as [step|calls|next|o termination]; cbn [in_phase] in Ho.
  - destruct Ho as [-> _]. cbn [standardLoop_from]. destruct (act_model s step Hic) as (s'&Ha&Hk&Hs'&Hic'). rewrite Ha, <-Hs'.
    eapply IH; [exact Hic'|]. pose proof (wa_model _ (answered (ls_acts s)) step) as Hw.
    destruct (decide (n <= ls_acts s)) as [Hn|Hn].
    + destruct (Hsettle _ Hn step) as [Hs1 Hs2]. destruct (cap_requestModel _ _) as [[[[] ?] ?] ?]; try done; cbn [after_model rank] in *; lia.
    + assert (rank (after_model (cap_requestModel (w_capabilities (env (ls_acts s))) step)) <= 4) by (destruct (after_model _); cbn; lia). cbn in Hfuel. lia.
  - destruct Ho as [-> _]. cbn [standardLoop_from]. destruct (act_tools s calls Hic) as (s'&st&err&Ha&Hk&Hr). rewrite Ha. destruct err as [e|].
    + destruct Hr as [Hterm He]. eexists _, _. split; [done|]. right. exists e. split; [done|]. split; [done|]. unfold loop_verdict. cbn. rewrite Hterm.
      destruct (errors_Is e _); cbn; done.
    + destruct Hr as [<- (p&Hic'&Hb)]. eapply IH; [exact Hic'|]. destruct p; try done; cbn in Hfuel |- *; lia.
  - destruct Ho as [-> _]. cbn [standardLoop_from]. destruct (act_next s next Hic) as (s'&Ha&Hk&Hs'&Hic'). rewrite Ha, <-Hs'.
    eapply IH; [exact Hic'|]. cbn in Hfuel |- *. lia.
  - destruct Ho as (Hs&Hn1&Hn2&_). rewrite Hs. rewrite standard_end by (unfold ending; destruct o; try done; cbn; auto).
    destruct (act_finish s o termination Hic) as (s'&Ha&Hf&Hr). rewrite Ha. eexists _, _. split; [done|]. left. by eexists _, _.
Qed.
End Reports.

Lemma in_control_start step prepared : in_control (start_phase step prepared) (MkLoopState (new_loop_run step prepared) 0 []) (start_phase step prepared).
Proof. split; [apply loop_inv_start|done|done|done|]. by destruct prepared. Qed.

End Standard.

(** A run with one tool call: the model asks for it at the first action and is
    content afterwards. *)
Definition example_loop_call : ToolCall := MkToolCall "call" "" "message" "session" "run" "step" "read" "{}".
Definition example_capabilities (k : nat) : capabilities := MkCapabilities
  (fun _ => if Nat.eqb k 0 then (stepToolsReady, "", [example_loop_call], None) else (stepNatural, "", [], None))
  (fun _ => ([], None, None))
  (fun calls _ => MkOutcome ((fun c => MkToolResult (call_ID c) ResultSucceeded "" None []) <$> calls) false [])
  (fun _ _ => ("step-2", None, false, None)).
Definition example_world (k : nat) : world := MkWorld None None (example_capabilities k).

