(* ===== verification/Goal.v ===== *)
(** * Goals

    Models [goal/contracts.go] and [goal/memory_store.go], and the helper
    [recordGoalDecisionIdempotently] with which the runtime records a decision
    in a store that may be remote.  The clock is the argument [now]. *)

From stdpp Require Import pretty.
From S2P Require Import Prelude GoStrings AgentTypes.

Inductive GoalStatus := StatusActive | StatusPaused | StatusCompleted | StatusCanceled | StatusOther (s : string).
#[export] Instance GoalStatus_eq_dec : EqDecision GoalStatus.
Proof. solve_decision. Defined.
Definition GoalStatus_Valid (s : GoalStatus) : bool := match s with StatusOther _ => false | _ => true end.

Record Goal := MkGoal {
  goal_ID : string; goal_SessionID : string; goal_Objective : string; goal_Status : GoalStatus; goal_Version : Z;
  goal_FollowOns : Z; goal_MaxFollowOns : Z; goal_UpdatedAt : Time }.
#[export] Instance Goal_eq_dec : EqDecision Goal.
Proof. solve_decision. Defined.

(** A trimmed text that is not empty. *)
Definition trimmed (s : string) : bool := nonempty (TrimSpace s) && String.eqb (TrimSpace s) s.

Definition Goal_Validate (g : Goal) : result unit :=
  reject_if (empty (goal_ID g) || negb (ID_Valid (goal_SessionID g)) || negb (trimmed (goal_Objective g)) || negb (GoalStatus_Valid (goal_Status g)) ||
             Z.eqb (goal_Version g) 0 || Z.ltb (goal_FollowOns g) 0 || Z.leb (goal_MaxFollowOns g) 0 ||
             Z.ltb (goal_MaxFollowOns g) (goal_FollowOns g) || IsZero (goal_UpdatedAt g))
    (ErrNew "goal: invalid goal").

Record SetRequest := MkSetRequest { srq_SessionID : string; srq_Objective : string; srq_ExpectedVersion : Z; srq_MaxFollowOns : Z }.
Record StateChangeRequest := MkStateChangeRequest { scr_SessionID : string; scr_ExpectedVersion : Z; scr_Status : GoalStatus }.

Inductive GoalDecision := DecisionContinue | DecisionBlocked | DecisionDone | DecisionOther (s : string).
#[export] Instance GoalDecision_eq_dec : EqDecision GoalDecision.
Proof. solve_decision. Defined.
Definition GoalDecision_Valid (d : GoalDecision) : bool := match d with DecisionOther _ => false | _ => true end.

Inductive ReasonCode :=
  | ReasonProgressPossible | ReasonObjectiveMet | ReasonNeedsInput | ReasonExternalBlocker | ReasonFollowOnLimit | ReasonEvaluatorFailure
  | ReasonOther (s : string).
#[export] Instance ReasonCode_eq_dec : EqDecision ReasonCode.
Proof. solve_decision. Defined.
Definition ReasonCode_Valid (r : ReasonCode) : bool := match r with ReasonOther _ => false | _ => true end.

Record Evaluation := MkEvaluation { ev_Decision : GoalDecision; ev_Reason : ReasonCode; ev_NextInstruction : MessageInput }.
#[export] Instance Evaluation_eq_dec : EqDecision Evaluation.
Proof. solve_decision. Defined.

Definition Evaluation_Validate (e : Evaluation) : result unit :=
  reject_if (negb (GoalDecision_Valid (ev_Decision e)) || negb (ReasonCode_Valid (ev_Reason e))) (ErrNew "goal: invalid evaluation decision") ;;
  if bool_decide (ev_Decision e = DecisionContinue) then
    reject_if (negb (bool_decide (ev_Reason e = ReasonProgressPossible)) || negb (MessageInput_Valid (ev_NextInstruction e)))
      (ErrNew "goal: continue requires a valid next instruction")
  else
    reject_if (bool_decide (ev_Decision e = DecisionDone) && negb (bool_decide (ev_Reason e = ReasonObjectiveMet)))
      (ErrNew "goal: done requires objective_met") ;;
    reject_if (bool_decide (ev_Decision e = DecisionBlocked) &&
               negb (bool_decide (ev_Reason e ∈ [ReasonNeedsInput; ReasonExternalBlocker; ReasonFollowOnLimit; ReasonEvaluatorFailure])))
      (ErrNew "goal: blocked requires a blocking reason") ;;
    reject_if (MessageInput_Valid (ev_NextInstruction e)) (ErrNew "goal: terminal evaluation cannot carry next instruction").

Record DecisionRecord := MkDecisionRecord {
  dr_ID : string; dr_GoalID : string; dr_SessionID : string; dr_RunID : string; dr_StepID : string; dr_ExpectedVersion : Z;
  dr_Evaluation : Evaluation; dr_RecordedAt : Time }.
#[export] Instance DecisionRecord_eq_dec : EqDecision DecisionRecord.
Proof. solve_decision. Defined.

(** ** The store in memory *)
Definition ErrVersionConflict : error := ErrNew "goal: version conflict".

Record decisionEntry := MkDecisionEntry { de_record : DecisionRecord; de_result : Goal }.
Record MemoryStore := MkGoalStore { gs_sequence : Z; gs_goals : gmap string Goal; gs_decisions : gmap string decisionEntry }.
Definition NewMemoryStore : MemoryStore := MkGoalStore 0 ∅ ∅.

Definition Current (s : MemoryStore) (sessionID : string) : result (option Goal) :=
  reject_if (negb (ID_Valid sessionID)) (ErrNew "goal: invalid SessionID") ;;
  Ok (gs_goals s !! sessionID).

(** A failing call leaves the store as it is. *)
Definition run_or_keep {A} (s : MemoryStore) (r : result (MemoryStore * A)) : MemoryStore * result A :=
  match r with
  | Ok (s, a) => (s, Ok a)
  | Err e => (s, Err e)
  | Panic msg => (s, Panic msg)
  end.

Definition set_goal (now : Time) (s : MemoryStore) (request : SetRequest) : result (MemoryStore * Goal) :=
  reject_if (negb (ID_Valid (srq_SessionID request)) || negb (trimmed (srq_Objective request)) || Z.leb (srq_MaxFollowOns request) 0)
    (ErrNew "goal: invalid set request") ;;
  let current := gs_goals s !! srq_SessionID request in
  reject_if (match current with
             | None => negb (Z.eqb (srq_ExpectedVersion request) 0)
             | Some g => negb (Z.eqb (goal_Version g) (srq_ExpectedVersion request))
             end) ErrVersionConflict ;;
  let sequence := u64 (gs_sequence s + 1) in
  let value := MkGoal ("goal-" +:+ pretty (Z.to_N sequence)) (srq_SessionID request) (srq_Objective request) StatusActive
                 (u64 (srq_ExpectedVersion request + 1)) 0 (srq_MaxFollowOns request) now in
  Ok (MkGoalStore sequence (<[srq_SessionID request := value]> (gs_goals s)) (gs_decisions s), value).
Definition Set_ (now : Time) (s : MemoryStore) (request : SetRequest) : MemoryStore * result Goal := run_or_keep s (set_goal now s request).

Definition validStatusTransition (from to : GoalStatus) : bool :=
  match from, to with
  | StatusActive, (StatusPaused | StatusCompleted | StatusCanceled) => true
  | StatusPaused, (StatusActive | StatusCanceled) => true
  | _, _ => false
  end.

Definition change_status (now : Time) (s : MemoryStore) (request : StateChangeRequest) : result (MemoryStore * Goal) :=
  reject_if (negb (ID_Valid (scr_SessionID request)) || negb (GoalStatus_Valid (scr_Status request))) (ErrNew "goal: invalid state change") ;;
  match gs_goals s !! scr_SessionID request with
  | None => Err (ErrNew "goal: not found")
  | Some g =>
    reject_if (negb (Z.eqb (goal_Version g) (scr_ExpectedVersion request))) ErrVersionConflict ;;
    if bool_decide (goal_Status g = scr_Status request) then Ok (s, g)
    else
      reject_if (negb (validStatusTransition (goal_Status g) (scr_Status request))) (ErrNew "goal: invalid status transition") ;;
      let value := MkGoal (goal_ID g) (goal_SessionID g) (goal_Objective g) (scr_Status request) (u64 (goal_Version g + 1))
                     (goal_FollowOns g) (goal_MaxFollowOns g) now in
      Ok (MkGoalStore (gs_sequence s) (<[scr_SessionID request := value]> (gs_goals s)) (gs_decisions s), value)
  end.
Definition ChangeStatus (now : Time) (s : MemoryStore) (request : StateChangeRequest) : MemoryStore * result Goal :=
  run_or_keep s (change_status now s request).

(** The effect of a decision on an active goal. *)
Definition decide_goal (g : Goal) (d : GoalDecision) : result (GoalStatus * Z) :=
  match d with
  | DecisionContinue =>
    reject_if (Z.leb (goal_MaxFollowOns g) (goal_FollowOns g)) (ErrNew "goal: follow-on limit reached") ;;
    Ok (goal_Status g, i64 (goal_FollowOns g + 1))
  | DecisionBlocked => Ok (StatusPaused, goal_FollowOns g)
  | DecisionDone => Ok (StatusCompleted, goal_FollowOns g)
  | DecisionOther _ => Ok (goal_Status g, goal_FollowOns g)
  end.

Definition record_decision (s : MemoryStore) (record : DecisionRecord) : result (MemoryStore * Goal) :=
  reject_if (empty (dr_ID record) || empty (dr_GoalID record) || negb (ID_Valid (dr_SessionID record)) || negb (ID_Valid (dr_RunID record)) ||
             negb (ID_Valid (dr_StepID record)) || Z.eqb (dr_ExpectedVersion record) 0 || IsZero (dr_RecordedAt record) ||
             negb (is_ok (Evaluation_Validate (dr_Evaluation record))))
    (ErrNew "goal: invalid decision record") ;;
  match gs_decisions s !! dr_ID record with
  | Some existing =>
    if bool_decide (de_record existing = record) then Ok (s, de_result existing)
    else Err (ErrNew "goal: decision idempotency conflict")
  | None =>
    match gs_goals s !! dr_SessionID record with
    | None => Err (ErrNew "goal: not found")
    | Some g =>
      reject_if (negb (String.eqb (goal_ID g) (dr_GoalID record))) (ErrNew "goal: not found") ;;
      reject_if (negb (Z.eqb (goal_Version g) (dr_ExpectedVersion record))) ErrVersionConflict ;;
      reject_if (negb (bool_decide (goal_Status g = StatusActive))) (ErrNew "goal: only an active goal may accept a decision") ;;
      reject_if (Before (dr_RecordedAt record) (goal_UpdatedAt g)) (ErrNew "goal: decision time precedes current state") ;;
      '(status, followOns) ← decide_goal g (ev_Decision (dr_Evaluation record));
      let value := MkGoal (goal_ID g) (goal_SessionID g) (goal_Objective g) status (u64 (goal_Version g + 1)) followOns (goal_MaxFollowOns g)
                     (dr_RecordedAt record) in
      Ok (MkGoalStore (gs_sequence s) (<[dr_SessionID record := value]> (gs_goals s))
            (<[dr_ID record := MkDecisionEntry record value]> (gs_decisions s)), value)
    end
  end.
Definition RecordDecision (s : MemoryStore) (record : DecisionRecord) : MemoryStore * result Goal := run_or_keep s (record_decision s record).

(** ** Recording through a store that may lose answers

    [store_RecordDecision k] is the [k]th call of the interface [Store]. *)
Class GoalStore (S : Type) : Type := { store_RecordDecision : nat -> S -> DecisionRecord -> S * result Goal }.

Definition recordGoalDecisionIdempotently {S} `{GoalStore S} (s : S) (record : DecisionRecord) : S * result unit :=
  match store_RecordDecision 0 s record with
  | (s, Ok _) => (s, Ok tt)
  | (s, Panic msg) => (s, Panic msg)
  | (s, Err e) =>
    match store_RecordDecision 1 s record with
    | (s, Ok _) => (s, Ok tt)
    | (s, Panic msg) => (s, Panic msg)
    | (s, Err retryErr) =>
      if errors_Is e "goal: version conflict" || errors_Is retryErr "goal: version conflict" then (s, Err ErrVersionConflict)
      else (s, Err (ErrJoin [e; retryErr]))
    end
  end.

(** * What the goal store counts

    Every stored goal is valid, its follow-ons are exactly the recorded
    decisions to continue it, and a decision is applied once even when answers
    are lost. *)

(** ** Runs *)
Inductive goal_op := GSet (now : Time) (q : SetRequest) | GChange (now : Time) (q : StateChangeRequest) | GRecord (record : DecisionRecord).
Definition goal_step (s : MemoryStore) (op : goal_op) : MemoryStore :=
  match op with
  | GSet now q => (Set_ now s q).1
  | GChange now q => (ChangeStatus now s q).1
  | GRecord record => (RecordDecision s record).1
  end.
Definition goal_run (ops : list goal_op) (s : MemoryStore) : MemoryStore := fold_left goal_step ops s.

(** The clock never shows the zero time, and a limit is a machine integer. *)
Definition sane_op (op : goal_op) : bool :=
  match op with
  | GSet now q => negb (IsZero now) && Z.ltb (srq_MaxFollowOns q) (2 ^ 63)
  | GChange now _ => negb (IsZero now)
  | GRecord _ => true
  end.

(** ** Counting *)
Definition continues (goalID : string) (e : decisionEntry) : Prop :=
  dr_GoalID (de_record e) = goalID /\ ev_Decision (dr_Evaluation (de_record e)) = DecisionContinue.
#[export] Instance continues_dec goalID e : Decision (continues goalID e).
Proof. unfold continues; apply _. Defined.
Definition follow_ons (goalID : string) (m : gmap string decisionEntry) : nat := size (filter (fun kv => continues goalID kv.2) m).

Lemma follow_ons_insert goalID m id e : m !! id = None ->
  follow_ons goalID (<[id := e]> m) = (if bool_decide (continues goalID e) then 1 else 0) + follow_ons goalID m.
Proof.
  intros Hid. unfold follow_ons. case_bool_decide as Hc.
  - rewrite map_filter_insert_True by done. rewrite map_size_insert_None; [done|]. rewrite map_lookup_filter, Hid. done.
  - rewrite map_filter_insert_False by done. by rewrite delete_id.
Qed.

Definition goal_name (k : Z) : string := "goal-" +:+ pretty (Z.to_N k).
Lemma goal_name_inj a b : (0 <= a)%Z -> (0 <= b)%Z -> goal_name a = goal_name b -> a = b.
Proof. intros Ha Hb H. unfold goal_name in H. apply (inj (String.append _)), (inj pretty) in H. lia. Qed.

Lemma follow_ons_unknown n m : (0 <= n)%Z ->
  (forall id e, m !! id = Some e -> exists k, (1 <= k <= n)%Z /\ dr_GoalID (de_record e) = goal_name k) -> follow_ons (goal_name (n + 1)) m = 0.
Proof.
  intros Hn Hm. unfold follow_ons. apply map_size_empty_iff, map_empty. intros id.
  apply map_lookup_filter_None. right. intros e He [Hc _]. cbn in Hc.
  destruct (Hm id e He) as (k&Hk&Hname). rewrite Hname in Hc. apply goal_name_inj in Hc; lia.
Qed.

(** ** The invariant *)
Record goal_ok (s : MemoryStore) (n : nat) (id : string) (g : Goal) : Prop := {
  go_session : goal_SessionID g = id;
  go_valid_id : ID_Valid id = true;
  go_objective : trimmed (goal_Objective g) = true;
  go_status : GoalStatus_Valid (goal_Status g) = true;
  go_version : (1 <= goal_Version g <= Z.of_nat n)%Z;
  go_limit : (0 < goal_MaxFollowOns g < 2 ^ 63)%Z;
  go_follow : (0 <= goal_FollowOns g <= goal_MaxFollowOns g)%Z;
  go_time : IsZero (goal_UpdatedAt g) = false;
  go_name : exists k, (1 <= k <= gs_sequence s)%Z /\ goal_ID g = goal_name k;
  go_count : goal_FollowOns g = Z.of_nat (follow_ons (goal_ID g) (gs_decisions s));
}.

(** [n] calls were made. *)
Record store_inv (n : nat) (s : MemoryStore) : Prop := {
  si_sequence : (0 <= gs_sequence s <= Z.of_nat n)%Z;
  si_goals : forall id g, gs_goals s !! id = Some g -> goal_ok s n id g;
  si_unique : forall a b g h, gs_goals s !! a = Some g -> gs_goals s !! b = Some h -> goal_ID g = goal_ID h -> a = b;
  si_decisions : forall id e, gs_decisions s !! id = Some e -> dr_ID (de_record e) = id /\
    exists k, (1 <= k <= gs_sequence s)%Z /\ dr_GoalID (de_record e) = goal_name k;
}.

Lemma goal_ok_valid s n id g : goal_ok s n id g -> Goal_Validate g = Ok tt.
Proof.
  intros [H1 H2 H3 H4 H5 H6 H7 H8 (k&_&H9) _]. unfold Goal_Validate. rewrite H1, H2, H3, H4, H8, H9.
  rewrite (proj2 (Z.eqb_neq _ _)), (proj2 (Z.ltb_ge _ _)), (proj2 (Z.leb_gt _ _)), (proj2 (Z.ltb_ge _ _)) by lia. done.
Qed.

Lemma goal_ok_mono s n id g : goal_ok s n id g -> goal_ok s (S n) id g.
Proof. intros []. split; try done. lia. Qed.

Lemma store_inv_keep n s : store_inv n s -> store_inv (S n) s.
Proof. intros [H1 H2 H3 H4]. split; [lia| |done|done]. intros id g Hg. by apply goal_ok_mono, H2. Qed.

(** Replacing the goal of a session by one of the same name. *)
Lemma store_inv_update n s id g value decisions : store_inv n s -> gs_goals s !! id = Some g -> goal_ID value = goal_ID g ->
  (forall name, name ≠ goal_ID g -> follow_ons name decisions = follow_ons name (gs_decisions s)) ->
  (forall id' e, decisions !! id' = Some e -> dr_ID (de_record e) = id' /\ exists k, (1 <= k <= gs_sequence s)%Z /\ dr_GoalID (de_record e) = goal_name k) ->
  goal_ok (MkGoalStore (gs_sequence s) (<[id := value]> (gs_goals s)) decisions) (S n) id value ->
  store_inv (S n) (MkGoalStore (gs_sequence s) (<[id := value]> (gs_goals s)) decisions).
Proof.
  intros [H1 H2 H3 H4] Hg Hname Hcount Hd Hv. split; cbn; [lia| | |done].
  - intros id' g'. rewrite lookup_insert. case_decide as Hid; [by intros [= <-]; subst id'|]. intros Hg'.
    destruct (H2 _ _ Hg'). split; try done; cbn; [lia|]. rewrite Hcount; [done|]. intros Heq. by apply Hid, (H3 _ _ _ _ Hg Hg').
  - intros a b ga gb. rewrite !lookup_insert. repeat case_decide; subst; [done|intros [= <-] Hb|intros Ha [= <-]|by apply H3]; rewrite Hname; intros Heq.
    + by apply (H3 _ _ _ _ Hg Hb).
    + by apply (H3 _ _ _ _ Ha Hg).
Qed.

Lemma set_goal_inv n s now q : store_inv n s -> (Z.of_nat n + 1 < 2 ^ 64)%Z -> sane_op (GSet now q) = true -> store_inv (S n) (goal_step s (GSet now q)).
Proof.
  intros Hi Hn Hs. cbn in Hs |- *. bool_simpl. unfold Set_, run_or_keep. destruct (set_goal now s q) as [[s' g]|e|msg] eqn:E; [|by apply store_inv_keep..].
  pose proof Hi as [H1 H2 H3 H4]. unfold set_goal in E.
  apply bind_Ok in E as (u&Hu0&E). apply bind_Ok in E as (u1&Hv0&E). injection E as <- <-. apply reject_if_Ok in Hu0, Hv0. bool_simpl. cbn [fst].
  assert (Hseq : u64 (gs_sequence s + 1) = (gs_sequence s + 1)%Z) by (unfold u64; apply Z.mod_small; lia). rewrite Hseq.
  set (id := srq_SessionID q) in *.
  assert (Hver : (0 <= srq_ExpectedVersion q <= Z.of_nat n)%Z).
  { destruct (gs_goals s !! id) as [g0|] eqn:Eg; bool_simpl; [destruct (H2 _ _ Eg)|]; lia. }
  assert (Hid : forall id' g', gs_goals s !! id' = Some g' -> goal_ID g' ≠ goal_name (gs_sequence s + 1)).
  { intros id' g' Hg'. destruct (go_name _ _ _ _ (H2 _ _ Hg')) as (k&Hk&->). intros Heq%goal_name_inj; lia. }
  assert (Hu : u64 (srq_ExpectedVersion q + 1) = (srq_ExpectedVersion q + 1)%Z) by (unfold u64; apply Z.mod_small; lia).
  split; cbn; [lia| | |].
  - intros id' g'. rewrite lookup_insert. case_decide as Hne.
    + intros [= <-]. subst id'. split; cbn; try done; [rewrite Hu; lia|lia| |].
      * exists (gs_sequence s + 1)%Z. split; [lia|done].
      * rewrite (follow_ons_unknown (gs_sequence s)); [done|lia|]. intros id' e He. by destruct (H4 _ _ He).
    + intros Hg'. destruct (H2 _ _ Hg') as [? ? ? ? ? ? ? ? (k&Hk&Hname) ?]. split; try done; cbn; [lia|]. exists k. split; [lia|done].
  - intros a b ga gb. rewrite !lookup_insert. repeat case_decide; subst; [done|intros [= <-] Hb|intros Ha [= <-]|by apply H3]; cbn; intros Heq.
    + by destruct (Hid _ _ Hb).
    + by destruct (Hid _ _ Ha).
  - intros id' e He. destruct (H4 _ _ He) as (Hd&k&Hk&Hname). split; [done|]. exists k. split; [lia|done].
Qed.

Lemma change_status_inv n s now q : store_inv n s -> (Z.of_nat n + 1 < 2 ^ 64)%Z -> sane_op (GChange now q) = true -> store_inv (S n) (goal_step s (GChange now q)).
Proof.
  intros Hi Hn Hs. cbn in Hs |- *. bool_simpl. unfold ChangeStatus, run_or_keep. destruct (change_status now s q) as [[s' g']|e|msg] eqn:E; [|by apply store_inv_keep..].
  unfold change_status in E. apply bind_Ok in E as (u&Hu&E). apply reject_if_Ok in Hu. bool_simpl.
  destruct (gs_goals s !! scr_SessionID q) as [g|] eqn:Eg; [|done]. apply bind_Ok in E as (u1&Hv&E). case_bool_decide; [injection E as <- <-; by apply store_inv_keep|].
  apply bind_Ok in E as (u2&Ht&E). injection E as <- <-. cbn [fst]. pose proof (si_goals _ _ Hi _ _ Eg) as [].
  eapply store_inv_update; [done|exact Eg|done|done|apply Hi|]. split; cbn; try done.
  unfold u64. rewrite Z.mod_small by lia. lia.
Qed.

Lemma record_decision_inv n s record : store_inv n s -> (Z.of_nat n + 1 < 2 ^ 64)%Z -> store_inv (S n) (goal_step s (GRecord record)).
Proof.
  intros Hi Hn. cbn. unfold RecordDecision, run_or_keep. destruct (record_decision s record) as [[s' g']|e|msg] eqn:E; [|by apply store_inv_keep..].
  unfold record_decision in E. apply bind_Ok in E as (u&Hu&E). apply reject_if_Ok in Hu. bool_simpl. cbn [fst].
  destruct (gs_decisions s !! dr_ID record) as [existing|] eqn:Ed; [case_bool_decide; [injection E as <- <-; by apply store_inv_keep|done]|].
  destruct (gs_goals s !! dr_SessionID record) as [g|] eqn:Eg; [|done].
  apply bind_Ok in E as (u1&Hname&E). apply bind_Ok in E as (u2&Hver&E). apply bind_Ok in E as (u3&Hact&E). apply bind_Ok in E as (u4&Htime&E).
  apply bind_Ok in E as ([status followOns]&Hdec&E). injection E as <- <-. apply reject_if_Ok in Hname, Hver, Hact. bool_simpl.
  pose proof (si_goals _ _ Hi _ _ Eg) as [].
  assert (Hcount : forall name, follow_ons name (<[dr_ID record := MkDecisionEntry record
      (MkGoal (goal_ID g) (goal_SessionID g) (goal_Objective g) status (u64 (goal_Version g + 1)) followOns (goal_MaxFollowOns g) (dr_RecordedAt record))]> (gs_decisions s)) =
    (if bool_decide (goal_ID g = name /\ ev_Decision (dr_Evaluation record) = DecisionContinue) then 1 else 0) + follow_ons name (gs_decisions s)).
  { intros name. rewrite follow_ons_insert by done. f_equal.
    rewrite (bool_decide_ext _ (goal_ID g = name /\ ev_Decision (dr_Evaluation record) = DecisionContinue)); [done|].
    unfold continues. cbn [de_record]. by rewrite <-Hname. }
  eapply store_inv_update; [done|exact Eg|done| | |].
  - intros name Hne. rewrite Hcount. rewrite bool_decide_eq_false_2; [done|]. intros [? _]. by apply Hne.
  - intros id' e. rewrite lookup_insert. destruct (decide (dr_ID record = id')) as [Hid|Hid]; [|apply (si_decisions _ _ Hi)]. intros [= <-]. cbn. rewrite <-Hname. done.
  - assert (Hsf : GoalStatus_Valid status = true /\ (0 <= followOns <= goal_MaxFollowOns g)%Z /\
      followOns = Z.of_nat ((if bool_decide (goal_ID g = goal_ID g /\ ev_Decision (dr_Evaluation record) = DecisionContinue) then 1 else 0) +
        follow_ons (goal_ID g) (gs_decisions s))).
    { unfold decide_goal in Hdec. destruct (ev_Decision (dr_Evaluation record)) eqn:Edec; [apply bind_Ok in Hdec as (u5&Hlim&Hdec); apply reject_if_Ok in Hlim; bool_simpl|..];
        injection Hdec as <- <-; (case_bool_decide as Hb; [|try (by destruct Hb)]); try (by destruct Hb); (split; [done|]); [|lia..].
      unfold i64. rewrite Z.mod_small by lia. lia. }
    destruct Hsf as (Hst&Hf&Hfc). split; cbn; try done.
    + unfold u64. rewrite Z.mod_small by lia. lia.
    + by rewrite Hcount.
Qed.

Lemma goal_run_inv ops : forall n s, store_inv n s -> (Z.of_nat n + Z.of_nat (length ops) < 2 ^ 64)%Z -> forallb sane_op ops = true ->
  store_inv (n + length ops) (goal_run ops s).
Proof.
  induction ops as [|op ops IH]; intros n s Hi Hn Hs; [by rewrite Nat.add_0_r|]. cbn in Hn, Hs. apply andb_true_iff in Hs as [Hop Hs].
  replace (n + length (op :: ops)) with (S n + length ops) by (cbn; lia). cbn [goal_run fold_left]. apply IH; [|lia|done].
  destruct op; [by apply set_goal_inv; [|lia|]|by apply change_status_inv; [|lia|]|by apply record_decision_inv; [|lia]].
Qed.

Lemma store_inv_new : store_inv 0 NewMemoryStore.
Proof. split; cbn; [lia|intros id g; by rewrite lookup_empty|intros a b g h; by rewrite lookup_empty|intros id e; by rewrite lookup_empty]. Qed.

(** ** Recorded decisions *)
Definition record_valid (record : DecisionRecord) : bool :=
  negb (empty (dr_ID record) || empty (dr_GoalID record) || negb (ID_Valid (dr_SessionID record)) || negb (ID_Valid (dr_RunID record)) ||
        negb (ID_Valid (dr_StepID record)) || Z.eqb (dr_ExpectedVersion record) 0 || IsZero (dr_RecordedAt record) ||
        negb (is_ok (Evaluation_Validate (dr_Evaluation record)))).

Lemma record_known s record g : record_valid record = true -> gs_decisions s !! dr_ID record = Some (MkDecisionEntry record g) ->
  RecordDecision s record = (s, Ok g).
Proof.
  unfold record_valid, RecordDecision, record_decision. intros Hv He. apply negb_true_iff in Hv. rewrite Hv. cbn [reject_if mbind result_bind].
  rewrite He. cbn [de_record de_result]. by rewrite bool_decide_eq_true_2.
Qed.

Lemma record_result s record s' out : RecordDecision s record = (s', out) ->
  match out with
  | Ok g => record_valid record = true /\ gs_decisions s' !! dr_ID record = Some (MkDecisionEntry record g)
  | _ => s' = s
  end.
Proof.
  unfold RecordDecision, run_or_keep. destruct (record_decision s record) as [[s1 g]|e|msg] eqn:E; intros [= <- <-]; [|done|done].
  unfold record_decision in E. apply bind_Ok in E as (u&Hu&E). apply reject_if_Ok in Hu. split; [unfold record_valid; by rewrite Hu|].
  destruct (gs_decisions s !! dr_ID record) as [existing|] eqn:Ed; [case_bool_decide as Heq; [injection E as <- <-|done]|].
  - rewrite Ed, <-Heq. by destruct existing.
  - destruct (gs_goals s !! dr_SessionID record) as [g0|] eqn:Eg; [|done].
    apply bind_Ok in E as (u1&_&E). apply bind_Ok in E as (u2&_&E). apply bind_Ok in E as (u3&_&E). apply bind_Ok in E as (u4&_&E).
    apply bind_Ok in E as ([status followOns]&_&E). injection E as <- <-. cbn. by rewrite lookup_insert_eq.
Qed.

Lemma decisions_kept ops : forall s id e, gs_decisions s !! id = Some e -> gs_decisions (goal_run ops s) !! id = Some e.
Proof.
  induction ops as [|op ops IH]; intros s id e He; [done|]. apply IH. clear IH.
  destruct op as [now q|now q|record]; cbn; unfold Set_, ChangeStatus, RecordDecision, run_or_keep.
  - destruct (set_goal now s q) as [[s' g]| |] eqn:E; [|done..]. unfold set_goal in E. inv_ok. done.
  - destruct (change_status now s q) as [[s' g]| |] eqn:E; [|done..]. unfold change_status in E. apply bind_Ok in E as (u&_&E).
    destruct (gs_goals s !! _); [|done]. apply bind_Ok in E as (u1&_&E). case_bool_decide; [by injection E as <- _|]. inv_ok. done.
  - destruct (record_decision s record) as [[s' g]| |] eqn:E; [|done..]. unfold record_decision in E. apply bind_Ok in E as (u&_&E).
    destruct (gs_decisions s !! dr_ID record) as [existing|] eqn:Ed; [case_bool_decide; [by injection E as <- _|done]|].
    destruct (gs_goals s !! _) as [g0|]; [|done]. apply bind_Ok in E as (u1&_&E). apply bind_Ok in E as (u2&_&E). apply bind_Ok in E as (u3&_&E).
    apply bind_Ok in E as (u4&_&E). apply bind_Ok in E as ([status followOns]&_&E). injection E as <- <-. cbn.
    rewrite lookup_insert_ne; [done|]. intros Heq. congruence.
Qed.

(** A store behind a connection: a call may fail before it reaches the store,
    or be carried out and its answer lost. *)
Definition lossy (faults : nat -> option (bool * error)) : GoalStore MemoryStore := {|
  store_RecordDecision k s record :=
    match faults k with
    | None => RecordDecision s record
    | Some (applied, e) => (if applied then (RecordDecision s record).1 else s, Err e)
    end |}.

Lemma lossy_call faults k s record s' out : @store_RecordDecision _ (lossy faults) k s record = (s', out) ->
  (s' = s \/ s' = (RecordDecision s record).1) /\
  match out with Ok g => record_valid record = true /\ gs_decisions s' !! dr_ID record = Some (MkDecisionEntry record g) | _ => True end.
Proof.
  cbn. destruct (faults k) as [[applied e]|].
  - intros [= <- <-]. split; [|done]. destruct applied; [by right|by left].
  - intros H. split; [right; by rewrite H|]. by apply record_result in H; destruct out.
Qed.

Lemma record_again s record : (RecordDecision (RecordDecision s record).1 record).1 = (RecordDecision s record).1.
Proof.
  destruct (RecordDecision s record) as [s' out] eqn:E. cbn [fst]. pose proof (record_result _ _ _ _ E) as Hr. destruct out as [g|e|msg].
  - destruct Hr as [Hv He]. by rewrite (record_known s' record g Hv He).
  - subst s'. by rewrite E.
  - subst s'. by rewrite E.
Qed.

Lemma idempotent_record faults s record s' out : @recordGoalDecisionIdempotently _ (lossy faults) s record = (s', out) ->
  (s' = s \/ s' = (RecordDecision s record).1) /\
  (out = Ok tt -> exists g, record_valid record = true /\ gs_decisions s' !! dr_ID record = Some (MkDecisionEntry record g)).
Proof.
  unfold recordGoalDecisionIdempotently. destruct (store_RecordDecision 0 s record) as [s1 out1] eqn:E1. apply lossy_call in E1 as [Hs1 Ho1].
  destruct out1 as [g|e|msg]; [intros [= <- <-]; split; [done|]; by exists g| |intros [= <- <-]; by split].
  destruct (store_RecordDecision 1 s1 record) as [s2 out2] eqn:E2. apply lossy_call in E2 as [Hs2 Ho2].
  assert (Hs : s2 = s \/ s2 = (RecordDecision s record).1).
  { destruct Hs1 as [-> | ->]; [done|]. right. destruct Hs2 as [-> | ->]; [done|apply record_again]. }
  destruct out2 as [g|e2|msg]; [intros [= <- <-]; split; [done|]; by exists g| |intros [= <- <-]; by split].
  destruct (_ || _); intros [= <- <-]; by split.
Qed.

(** C39. After any calls the goal of a session is valid and its follow-ons are
    exactly the recorded decisions to continue it, within its limit.  When the
    runtime records a decision through a store that may lose calls and
    answers, the decision is applied at most once, and once the runtime was
    told that it is recorded, repeating it at any later time returns the
    recorded result and changes nothing. *)
Theorem goal_decisions_once ops :
  forallb sane_op ops = true -> (Z.of_nat (length ops) < 2 ^ 64)%Z ->
  let s := goal_run ops NewMemoryStore in
  (forall id g, gs_goals s !! id = Some g ->
     Goal_Validate g = Ok tt /\ goal_SessionID g = id /\ (goal_FollowOns g <= goal_MaxFollowOns g)%Z /\
     goal_FollowOns g = Z.of_nat (follow_ons (goal_ID g) (gs_decisions s))) /\
  (forall faults record s' out, @recordGoalDecisionIdempotently _ (lossy faults) s record = (s', out) ->
     (s' = s \/ s' = (RecordDecision s record).1) /\
     (out = Ok tt -> exists g, gs_decisions s' !! dr_ID record = Some (MkDecisionEntry record g) /\
        forall more, RecordDecision (goal_run more s') record = (goal_run more s', Ok g))).
Proof.
  intros Hs Hn s. pose proof (goal_run_inv ops 0 NewMemoryStore store_inv_new Hn Hs) as Hi. fold s in Hi. split.
  - intros id g Hg. pose proof (si_goals _ _ Hi _ _ Hg) as Hok. split; [by eapply goal_ok_valid|]. destruct Hok. split_and!; [done|lia|done].
  - intros faults record s' out Hr. apply idempotent_record in Hr as [Hs' Hout]. split; [done|]. intros Ho.
    destruct (Hout Ho) as (g&Hv&He). exists g. split; [done|]. intros more. apply record_known; [done|]. by apply decisions_kept.
Qed.

(** A goal that is continued once, through a connection that loses the first
    answer. *)
Definition example_continue : DecisionRecord :=
  MkDecisionRecord "decision-1" "goal-1" "session" "run" "step" 1
    (MkEvaluation DecisionContinue ReasonProgressPossible [MkMessagePart PartText "go on" "" "" ""]) 20.
Definition example_goal_ops : list goal_op := [GSet 10 (MkSetRequest "session" "write tests" 0 3); GRecord example_continue].

Lemma goal_decisions_once_witness :
  (forall id g, gs_goals (goal_run example_goal_ops NewMemoryStore) !! id = Some g ->
     Goal_Validate g = Ok tt /\ goal_SessionID g = id /\ (goal_FollowOns g <= goal_MaxFollowOns g)%Z /\
     goal_FollowOns g = Z.of_nat (follow_ons (goal_ID g) (gs_decisions (goal_run example_goal_ops NewMemoryStore)))) /\
  (goal_FollowOns <$> gs_goals (goal_run example_goal_ops NewMemoryStore) !! "session") = Some 1%Z.
Proof.
  assert (Hs : forallb sane_op example_goal_ops = true) by reflexivity.
  assert (Hn : (Z.of_nat (length example_goal_ops) < 2 ^ 64)%Z) by reflexivity.
  split; [exact (proj1 (goal_decisions_once example_goal_ops Hs Hn))|vm_compute; reflexivity].
Defined.
