(* ===== verification/HookViews.v ===== *)
(** * The typed boundaries of extensions

    Models the views, scopes and results of [hook/completion.go],
    [hook/tool_preflight.go], [hook/tool_result.go], [hook/input_gate.go] and
    [hook/session_lifecycle.go], and [validateContextProposal] of
    [hook/invocation.go]. *)

From S2P Require Import Prelude GoStrings AgentTypes ModelContracts SessionTypes.

(** ** Scopes *)
Record ToolScope := MkToolScope { ts_All : bool; ts_ToolKeys : list string }.

Fixpoint scope_keys_valid (scope : string) (seen : gset string) (keys : list string) : result unit :=
  match keys with
  | [] => Ok tt
  | key :: keys =>
    reject_if (negb (validSafeIdentity key MaxExtensionKeyBytes)) (ErrNew ("hook: " +:+ scope +:+ " key is invalid")) ;;
    reject_if (bool_decide (key ∈ seen)) (Errorf ("hook: " +:+ scope +:+ " key %q is duplicated") [AStr key]) ;;
    scope_keys_valid scope ({[key]} ∪ seen) keys
  end.

Definition ToolScope_Validate (s : ToolScope) : result unit :=
  if ts_All s then
    reject_if (negb (Nat.eqb (length (ts_ToolKeys s)) 0)) (ErrNew "hook: all-tools scope cannot also name tool keys")
  else
    reject_if (Nat.eqb (length (ts_ToolKeys s)) 0 || Nat.ltb 64 (length (ts_ToolKeys s)))
      (ErrNew "hook: tool scope requires a bounded explicit key set") ;;
    scope_keys_valid "tool scope" ∅ (ts_ToolKeys s).

Definition ToolScope_Matches (s : ToolScope) (toolKey : string) : bool :=
  ts_All s || existsb (fun key => String.eqb key toolKey) (ts_ToolKeys s).

Record ToolResultScope := MkToolResultScope { trs_All : bool; trs_ToolKeys : list string; trs_Statuses : list ResultStatus }.

(** [%q] of a status, of a phase. *)
Definition status_text (s : ResultStatus) : string :=
  match s with ResultSucceeded => "succeeded" | ResultFailed => "failed" | ResultUnknown => "outcome_unknown" | ResultOther s => s end.
Definition phase_text (p : LifecyclePhase) : string := match p with LifecycleOpen => "open" | LifecycleClose => "close" | PhaseOther s => s end.

Fixpoint scope_statuses_valid (seen statuses : list ResultStatus) : result unit :=
  match statuses with
  | [] => Ok tt
  | status :: statuses =>
    reject_if (negb (bool_decide (status = ResultSucceeded)) && negb (bool_decide (status = ResultFailed)))
      (Errorf "hook: tool result scope status %q is not post-execution eligible" [AStr (status_text status)]) ;;
    reject_if (bool_decide (status ∈ seen)) (Errorf "hook: tool result scope status %q is duplicated" [AStr (status_text status)]) ;;
    scope_statuses_valid (status :: seen) statuses
  end.

Definition ToolResultScope_Validate (s : ToolResultScope) : result unit :=
  reject_if (trs_All s && negb (Nat.eqb (length (trs_ToolKeys s)) 0)) (ErrNew "hook: all-tools result scope cannot also name tool keys") ;;
  reject_if (negb (trs_All s) && (Nat.eqb (length (trs_ToolKeys s)) 0 || Nat.ltb 64 (length (trs_ToolKeys s))))
    (ErrNew "hook: tool result scope requires a bounded explicit key set") ;;
  scope_keys_valid "tool result scope" ∅ (trs_ToolKeys s) ;;
  reject_if (Nat.eqb (length (trs_Statuses s)) 0 || Nat.ltb 2 (length (trs_Statuses s)))
    (ErrNew "hook: tool result scope requires a finite terminal status set") ;;
  scope_statuses_valid [] (trs_Statuses s).

Definition ToolResultScope_Matches (s : ToolResultScope) (toolKey : string) (status : ResultStatus) : bool :=
  (trs_All s || existsb (fun key => String.eqb key toolKey) (trs_ToolKeys s)) && bool_decide (status ∈ trs_Statuses s).

Record LifecycleScope := MkLifecycleScope { ls_Phases : list LifecyclePhase }.

Fixpoint scope_phases_valid (seen phases : list LifecyclePhase) : result unit :=
  match phases with
  | [] => Ok tt
  | phase :: phases =>
    reject_if (negb (LifecyclePhase_Valid phase)) (ErrNew "hook: lifecycle scope phase is invalid") ;;
    reject_if (bool_decide (phase ∈ seen)) (Errorf "hook: lifecycle scope phase %q is duplicated" [AStr (phase_text phase)]) ;;
    scope_phases_valid (phase :: seen) phases
  end.
Definition LifecycleScope_Validate (s : LifecycleScope) : result unit :=
  reject_if (Nat.eqb (length (ls_Phases s)) 0 || Nat.ltb 2 (length (ls_Phases s)))
    (ErrNew "hook: lifecycle scope requires a bounded phase set") ;;
  scope_phases_valid [] (ls_Phases s).
Definition LifecycleScope_Matches (s : LifecycleScope) (phase : LifecyclePhase) : bool := bool_decide (phase ∈ ls_Phases s).

(** ** Views *)
Record ToolPreflightView := MkToolPreflightView {
  tpv_InvocationID : string; tpv_SessionID : string; tpv_AgentID : string; tpv_WorkspaceID : string; tpv_Revision : Z;
  tpv_RunID : string; tpv_StepID : string; tpv_MessageID : string; tpv_ToolCallID : string; tpv_ToolKey : string; tpv_Arguments : string }.

Record ToolResultView := MkToolResultView {
  trv_InvocationID : string; trv_SessionID : string; trv_AgentID : string; trv_WorkspaceID : string; trv_Revision : Z;
  trv_RunID : string; trv_StepID : string; trv_NextStepID : string; trv_MessageID : string; trv_ToolCallID : string;
  trv_ToolKey : string; trv_Arguments : string; trv_Result : ToolResult }.

Record SessionLifecycleView := MkLifecycleView {
  slv_InvocationID : string; slv_SessionID : string; slv_AgentID : string; slv_WorkspaceID : string; slv_Revision : Z;
  slv_Phase : LifecyclePhase; slv_OpenKind : OpenKind }.

Inductive InputOperation := InputSend | InputSteer | InputEditQueued | InputOperationOther (s : string).
#[export] Instance InputOperation_eq_dec : EqDecision InputOperation.
Proof. solve_decision. Defined.
Definition InputOperation_Valid (o : InputOperation) : bool := match o with InputOperationOther _ => false | _ => true end.

Record InputGateView := MkInputGateView {
  igv_InvocationID : string; igv_Operation : InputOperation; igv_SessionID : string; igv_AgentID : string; igv_WorkspaceID : string;
  igv_Revision : Z; igv_MessageID : string; igv_ClientMessageID : string; igv_Input : MessageInput; igv_PreviousInputDigest : string }.

Record CompletionGoalCandidate := MkGoalCandidate { cgc_GoalID : string; cgc_Version : Z }.
Definition CompletionGoalCandidate_Validate (c : CompletionGoalCandidate) : result unit :=
  reject_if (negb (CompletionGoalCandidate_Valid (cgc_GoalID c) (cgc_Version c))) (ErrNew "hook: invalid completion goal candidate").

Record CompletionView := MkCompletionView {
  cpv_InvocationID : string; cpv_SessionID : string; cpv_AgentID : string; cpv_WorkspaceID : string; cpv_Revision : Z;
  cpv_RunID : string; cpv_StepID : string; cpv_NextStepID : string; cpv_LastAssistantMessage : Message; cpv_Budget : TokenBudget;
  cpv_FollowOns : Z; cpv_GoalCandidate : option CompletionGoalCandidate }.

(** What [hook.FingerprintTypedInput] is applied to, besides context inputs:
    JSON encoding and SHA-256 are outside the program. *)
Inductive hook_view :=
  | PreflightView (v : ToolPreflightView)
  | ResultView (v : ToolResultView)
  | LifecycleView (v : SessionLifecycleView)
  | GateView (v : InputGateView)
  | CompletionGateView (v : CompletionView)
  | InputView (v : MessageInput).
Class ViewFingerprints : Type := { FingerprintView : hook_view -> option TypedInputFingerprint }.

Definition not_encodable : error := ErrNew "hook: typed input cannot be encoded".
Definition fingerprint_of (p : option TypedInputFingerprint) : result TypedInputFingerprint :=
  match p with Some f => Ok f | None => Err not_encodable end.

Definition SessionLifecycleView_Validate (v : SessionLifecycleView) : result unit :=
  reject_if (negb (InvocationID_Valid (slv_InvocationID v)) || negb (ID_Valid (slv_SessionID v)) || negb (ID_Valid (slv_AgentID v)) ||
             negb (ID_Valid (slv_WorkspaceID v)) || Z.eqb (slv_Revision v) 0 || negb (LifecyclePhase_Valid (slv_Phase v)))
    (ErrNew "hook: invalid session lifecycle view") ;;
  if bool_decide (slv_Phase v = LifecycleOpen) then
    reject_if (negb (OpenKind_Valid (slv_OpenKind v))) (ErrNew "hook: open lifecycle view requires an open kind")
  else
    reject_if (negb (bool_decide (slv_OpenKind v = OpenOther ""))) (ErrNew "hook: close lifecycle view cannot carry an open kind").

Definition InputGateView_Validate (v : InputGateView) : result unit :=
  reject_if (negb (InvocationID_Valid (igv_InvocationID v)) || negb (InputOperation_Valid (igv_Operation v)) || negb (ID_Valid (igv_SessionID v)) ||
             negb (ID_Valid (igv_AgentID v)) || negb (ID_Valid (igv_WorkspaceID v)) || Z.eqb (igv_Revision v) 0 || negb (ID_Valid (igv_MessageID v)) ||
             negb (MessageInput_Valid (igv_Input v)) || (nonempty (igv_ClientMessageID v) && negb (ID_Valid (igv_ClientMessageID v))))
    (ErrNew "hook: invalid input gate view") ;;
  if bool_decide (igv_Operation v = InputEditQueued) then
    reject_if (negb (ValidDigest (igv_PreviousInputDigest v))) (ErrNew "hook: edit input gate requires the previous input digest")
  else
    reject_if (nonempty (igv_PreviousInputDigest v)) (ErrNew "hook: only edit input gate may carry a previous input digest").

Section HookViews.
Context {J : JsonOps} {F : Fingerprints}.

Definition ToolPreflightView_Validate (v : ToolPreflightView) : result unit :=
  reject_if (negb (InvocationID_Valid (tpv_InvocationID v)) || negb (ID_Valid (tpv_SessionID v)) || negb (ID_Valid (tpv_AgentID v)) ||
             negb (ID_Valid (tpv_WorkspaceID v)) || Z.eqb (tpv_Revision v) 0 || negb (ID_Valid (tpv_RunID v)) || negb (ID_Valid (tpv_StepID v)) ||
             negb (ID_Valid (tpv_MessageID v)) || negb (ID_Valid (tpv_ToolCallID v)) || negb (validSafeIdentity (tpv_ToolKey v) MaxExtensionKeyBytes) ||
             negb (jsonvalue_Valid (tpv_Arguments v)))
    (ErrNew "hook: invalid tool preflight view").

Definition ToolResultView_Validate (v : ToolResultView) : result unit :=
  reject_if (negb (InvocationID_Valid (trv_InvocationID v)) || negb (ID_Valid (trv_SessionID v)) || negb (ID_Valid (trv_AgentID v)) ||
             negb (ID_Valid (trv_WorkspaceID v)) || Z.eqb (trv_Revision v) 0 || negb (ID_Valid (trv_RunID v)) || negb (ID_Valid (trv_StepID v)) ||
             negb (ID_Valid (trv_NextStepID v)) || negb (ID_Valid (trv_MessageID v)) || negb (ID_Valid (trv_ToolCallID v)) ||
             negb (validSafeIdentity (trv_ToolKey v) MaxExtensionKeyBytes) || negb (json_Valid (trv_Arguments v)) ||
             negb (is_ok (ToolResult_Validate (trv_Result v))) || negb (String.eqb (res_CallID (trv_Result v)) (trv_ToolCallID v)) ||
             bool_decide (res_Status (trv_Result v) = ResultUnknown))
    (ErrNew "hook: invalid tool result view").

Definition CompletionView_Validate (v : CompletionView) : result unit :=
  let m := cpv_LastAssistantMessage v in
  reject_if (negb (InvocationID_Valid (cpv_InvocationID v)) || negb (ID_Valid (cpv_SessionID v)) || negb (ID_Valid (cpv_AgentID v)) ||
             negb (ID_Valid (cpv_WorkspaceID v)) || Z.eqb (cpv_Revision v) 0 || negb (ID_Valid (cpv_RunID v)) || negb (ID_Valid (cpv_StepID v)) ||
             negb (ID_Valid (cpv_NextStepID v)) || String.eqb (cpv_StepID v) (cpv_NextStepID v) || Z.ltb (cpv_FollowOns v) 0 ||
             negb (is_ok (TokenBudget_Validate (cpv_Budget v))) || negb (Message_Valid m) || negb (String.eqb (msg_SessionID m) (cpv_SessionID v)) ||
             negb (String.eqb (msg_RunID m) (cpv_RunID v)) || negb (String.eqb (msg_StepID m) (cpv_StepID v)) ||
             negb (bool_decide (msg_Role m = RoleAssistant)) || nonempty (msg_ClientMessageID m) || present (msg_ModelContinuation m) ||
             negb (IsZero (msg_CreatedAt m)))
    (ErrNew "hook: invalid completion view") ;;
  match cpv_GoalCandidate v with Some c => CompletionGoalCandidate_Validate c | None => Ok tt end.

(** ** Results *)
Definition validateContextProposal (inputs : list Input) (sessionID : string) : result unit :=
  reject_if (Z.ltb MaxContextInputs (Z.of_nat (length inputs))) (ErrNew "hook: extension context exceeds the input limit") ;;
  forM_ (fun input =>
    let wrongMessageSession := match in_Message input with Some m => negb (String.eqb (msg_SessionID m) sessionID) | None => false end in
    let wrongCallSession := match in_ToolCall input with Some c => negb (String.eqb (call_SessionID c) sessionID) | None => false end in
    reject_if (negb (Input_Valid input) || present (in_SystemPrompt input) || wrongMessageSession || wrongCallSession)
      (ErrNew "hook: invalid extension context")) inputs ;;
  map_err (fun _ => ErrNew "hook: extension context violates the model protocol") (ValidateInputs inputs) ;;
  match inputs with
  | [] => Ok tt
  | _ =>
    match FingerprintTypedInput inputs with
    | Some fingerprint => reject_if (Z.ltb MaxContextBytes (fp_Bytes fingerprint)) (ErrNew "hook: extension context exceeds the byte limit")
    | None => Err (ErrNew "hook: extension context exceeds the byte limit")
    end
  end.

Record ToolPreflightResult := MkToolPreflightResult { tpr_Decision : Decision_; tpr_Reason : string }.
Definition ToolPreflightResult_Validate (r : ToolPreflightResult) : result unit :=
  reject_if (negb (bool_decide (tpr_Decision r = DecisionAllow)) && negb (bool_decide (tpr_Decision r = DecisionDeny)) &&
             negb (bool_decide (tpr_Decision r = DecisionRequireApproval)))
    (ErrNew "hook: tool preflight decision must be allow, deny, or require_approval") ;;
  ValidateSafeReason (tpr_Reason r) ;;
  reject_if ((bool_decide (tpr_Decision r = DecisionDeny) || bool_decide (tpr_Decision r = DecisionRequireApproval)) && empty (tpr_Reason r))
    (ErrNew "hook: restrictive tool preflight decision requires a reason").

Record ToolResultHookResult := MkToolResultHookResult { thr_Context : list Input }.
Definition ToolResultHookResult_Validate (r : ToolResultHookResult) (sessionID : string) : result unit :=
  map_err (fun e => ErrWrap e "hook: invalid tool result context: %w" []) (validateContextProposal (thr_Context r) sessionID).

Record SessionLifecycleResult := MkLifecycleResult { slr_Context : list Input }.
Definition SessionLifecycleResult_Validate (r : SessionLifecycleResult) (view : SessionLifecycleView) : result unit :=
  SessionLifecycleView_Validate view ;;
  reject_if (bool_decide (slv_Phase view = LifecycleClose) && negb (Nat.eqb (length (slr_Context r)) 0))
    (ErrNew "hook: close lifecycle result cannot contribute context") ;;
  map_err (fun e => ErrWrap e "hook: invalid session lifecycle context: %w" []) (validateContextProposal (slr_Context r) (slv_SessionID view)).

Record InputGateResult := MkInputGateResult { igr_Decision : Decision_; igr_Reason : string; igr_Context : list Input }.
Definition InputGateResult_Validate (r : InputGateResult) (sessionID : string) : result unit :=
  reject_if (negb (bool_decide (igr_Decision r = DecisionAccept)) && negb (bool_decide (igr_Decision r = DecisionReject)))
    (ErrNew "hook: input gate decision must be accept or reject") ;;
  ValidateSafeReason (igr_Reason r) ;;
  if bool_decide (igr_Decision r = DecisionReject) then
    reject_if (empty (igr_Reason r) || negb (Nat.eqb (length (igr_Context r)) 0))
      (ErrNew "hook: rejected input requires a reason and cannot contribute context")
  else
    map_err (fun e => ErrWrap e "hook: invalid input gate context: %w" []) (validateContextProposal (igr_Context r) sessionID).

Record CompletionGateResult := MkCompletionGateResult { cgr_Decision : Decision_; cgr_Reason : string; cgr_Context : list Input }.
Definition CompletionDecision_Valid (d : Decision_) : bool := bool_decide (d = DecisionComplete) || bool_decide (d = DecisionContinue).
(** A contribution of a gate is a message of the user in the next step. *)
Definition off_next_step (view : CompletionView) (input : Input) : bool :=
  match in_Message input with
  | None => true
  | Some m =>
    present (in_SystemPrompt input) || present (in_ToolCall input) || present (in_ToolResult input) ||
    negb (String.eqb (msg_RunID m) (cpv_RunID view)) || negb (String.eqb (msg_StepID m) (cpv_NextStepID view)) ||
    negb (bool_decide (msg_Role m = RoleUser))
  end.
Definition CompletionGateResult_Validate (r : CompletionGateResult) (view : CompletionView) : result unit :=
  reject_if (negb (CompletionDecision_Valid (cgr_Decision r))) (ErrNew "hook: completion gate decision must be complete or continue") ;;
  ValidateSafeReason (cgr_Reason r) ;;
  if bool_decide (cgr_Decision r = DecisionComplete) then
    reject_if (negb (Nat.eqb (length (cgr_Context r)) 0)) (ErrNew "hook: completed gate cannot contribute context")
  else
    reject_if (Nat.eqb (length (cgr_Context r)) 0) (ErrNew "hook: continued gate requires context") ;;
    map_err (fun e => ErrWrap e "hook: invalid completion context: %w" []) (validateContextProposal (cgr_Context r) (cpv_SessionID view)) ;;
    forM_ (fun input => reject_if (off_next_step view input) (ErrNew "hook: completion context is not bound to the allocated next step"))
      (cgr_Context r).

(** [InvocationFailure.Validate]; the cause is not looked at. *)
Record InvocationFailure := MkInvocationFailure { if_Status : InvocationStatus; if_Code : string; if_Reason : string; if_Cause : option error }.
Definition InvocationFailure_Validate (f : InvocationFailure) : result unit :=
  reject_if ((negb (bool_decide (if_Status f = InvocationFailed)) && negb (bool_decide (if_Status f = InvocationCanceled)) &&
              negb (bool_decide (if_Status f = InvocationOutcomeUnknown))) || negb (validSafeIdentity (if_Code f) MaxExtensionKeyBytes))
    (ErrNew "hook: invalid invocation failure") ;;
  ValidateSafeReason (if_Reason f).

End HookViews.
