(* ===== verification/RuntimeState.v ===== *)
(** * The state of a Session runtime

    Models [runtimeInstance] and [activeRun] of [standardagent/runtime.go] and
    [runtime_execution.go], and what all its operations share: the allocation
    of identities, reading and committing the aggregate, and the changes that
    start a run.

    The operations are computations over the store and one runtime.  A region
    under the mutex of the runtime is one computation; between two of them
    anything may happen.  Runs are pointers in the code: here they are numbers
    into a table that only grows.  A channel is the flag that it is open, and
    closing it twice panics.  The gauges over the size of the extension journal
    and the records for observers other than commit notices are left out. *)

From stdpp Require Import pretty.
From S2P Require Import Prelude GoStrings AgentTypes ModelContracts SessionTypes ExtensionJournal.
From S2P Require Import SessionValidate SessionHistory SessionApply SessionRecover SessionCreate SessionStore SessionManager HookViews.

Inductive runtimeLifecycle := runtimeOpening | runtimeIdle | runtimeRunning | runtimeClosed.
#[export] Instance runtimeLifecycle_eq_dec : EqDecision runtimeLifecycle.
Proof. solve_decision. Defined.

(** [ar_canceled]: the context of the run is canceled; [ar_done]: the channel
    [done] is open; [ar_prepared]: the revision stored when [prepared] was
    closed. *)
Record activeRun := MkActiveRun {
  ar_id : string; ar_config : Config; ar_configRevision : Z; ar_canceled : bool; ar_done : bool; ar_cancelRequested : bool;
  ar_prepared : option Z; ar_usedTokens : Z; ar_modelAttempts : Z; ar_toolCalls : Z; ar_controlActor : ActorIdentity;
  ar_recoveredToolPreflights : option (list ExtensionJournalEntry) }.

(** [session.CommitNotice] *)
Record CommitNotice := MkNotice { cn_SessionID : string; cn_Revision : Z; cn_First : Z; cn_Last : Z }.

(** [ri_idleSignal], [ri_closeDone] and [ri_openDone]: the channel is open.
    [ri_sequence] counts the calls [r.sequence.Add(1)].  [ri_closers] are the
    goroutines [finishClose], with the run each of them waits for. *)
Record runtimeInstance := MkRuntime {
  ri_session : memorySession; ri_agentID : string; ri_workspaceID : string; ri_hasInputGateJournal : bool;
  ri_state : runtimeLifecycle; ri_active : option nat; ri_runs : list activeRun; ri_idleSignal : bool;
  ri_closing : bool; ri_closeDone : bool; ri_closeReceipt : Z; ri_closeErr : option error; ri_closers : list (option nat);
  ri_openDone : bool; ri_openErr : option error; ri_prefix : string; ri_sequence : Z; ri_revision : Z; ri_notices : list CommitNotice }.

Definition ri_id (r : runtimeInstance) : string := ms_id (ri_session r).

(** *** Field assignments *)
Definition set_session (r : runtimeInstance) (v : memorySession) : runtimeInstance :=
  MkRuntime v (ri_agentID r) (ri_workspaceID r) (ri_hasInputGateJournal r) (ri_state r) (ri_active r) (ri_runs r) (ri_idleSignal r) (ri_closing r)
    (ri_closeDone r) (ri_closeReceipt r) (ri_closeErr r) (ri_closers r) (ri_openDone r) (ri_openErr r) (ri_prefix r) (ri_sequence r) (ri_revision r) (ri_notices r).
Definition set_gate_journal (r : runtimeInstance) (v : bool) : runtimeInstance :=
  MkRuntime (ri_session r) (ri_agentID r) (ri_workspaceID r) v (ri_state r) (ri_active r) (ri_runs r) (ri_idleSignal r) (ri_closing r)
    (ri_closeDone r) (ri_closeReceipt r) (ri_closeErr r) (ri_closers r) (ri_openDone r) (ri_openErr r) (ri_prefix r) (ri_sequence r) (ri_revision r) (ri_notices r).
Definition set_state (r : runtimeInstance) (v : runtimeLifecycle) : runtimeInstance :=
  MkRuntime (ri_session r) (ri_agentID r) (ri_workspaceID r) (ri_hasInputGateJournal r) v (ri_active r) (ri_runs r) (ri_idleSignal r) (ri_closing r)
    (ri_closeDone r) (ri_closeReceipt r) (ri_closeErr r) (ri_closers r) (ri_openDone r) (ri_openErr r) (ri_prefix r) (ri_sequence r) (ri_revision r) (ri_notices r).
Definition set_active (r : runtimeInstance) (v : option nat) : runtimeInstance :=
  MkRuntime (ri_session r) (ri_agentID r) (ri_workspaceID r) (ri_hasInputGateJournal r) (ri_state r) v (ri_runs r) (ri_idleSignal r) (ri_closing r)
    (ri_closeDone r) (ri_closeReceipt r) (ri_closeErr r) (ri_closers r) (ri_openDone r) (ri_openErr r) (ri_prefix r) (ri_sequence r) (ri_revision r) (ri_notices r).
Definition set_runs (r : runtimeInstance) (v : list activeRun) : runtimeInstance :=
  MkRuntime (ri_session r) (ri_agentID r) (ri_workspaceID r) (ri_hasInputGateJournal r) (ri_state r) (ri_active r) v (ri_idleSignal r) (ri_closing r)
    (ri_closeDone r) (ri_closeReceipt r) (ri_closeErr r) (ri_closers r) (ri_openDone r) (ri_openErr r) (ri_prefix r) (ri_sequence r) (ri_revision r) (ri_notices r).
Definition set_idleSignal (r : runtimeInstance) (v : bool) : runtimeInstance :=
  MkRuntime (ri_session r) (ri_agentID r) (ri_workspaceID r) (ri_hasInputGateJournal r) (ri_state r) (ri_active r) (ri_runs r) v (ri_closing r)
    (ri_closeDone r) (ri_closeReceipt r) (ri_closeErr r) (ri_closers r) (ri_openDone r) (ri_openErr r) (ri_prefix r) (ri_sequence r) (ri_revision r) (ri_notices r).
Definition set_closing (r : runtimeInstance) (v : bool) : runtimeInstance :=
  MkRuntime (ri_session r) (ri_agentID r) (ri_workspaceID r) (ri_hasInputGateJournal r) (ri_state r) (ri_active r) (ri_runs r) (ri_idleSignal r) v
    (ri_closeDone r) (ri_closeReceipt r) (ri_closeErr r) (ri_closers r) (ri_openDone r) (ri_openErr r) (ri_prefix r) (ri_sequence r) (ri_revision r) (ri_notices r).
Definition set_closeDone (r : runtimeInstance) (v : bool) : runtimeInstance :=
  MkRuntime (ri_session r) (ri_agentID r) (ri_workspaceID r) (ri_hasInputGateJournal r) (ri_state r) (ri_active r) (ri_runs r) (ri_idleSignal r) (ri_closing r)
    v (ri_closeReceipt r) (ri_closeErr r) (ri_closers r) (ri_openDone r) (ri_openErr r) (ri_prefix r) (ri_sequence r) (ri_revision r) (ri_notices r).
Definition set_closeResult (r : runtimeInstance) (receipt : Z) (err : option error) : runtimeInstance :=
  MkRuntime (ri_session r) (ri_agentID r) (ri_workspaceID r) (ri_hasInputGateJournal r) (ri_state r) (ri_active r) (ri_runs r) (ri_idleSignal r) (ri_closing r)
    (ri_closeDone r) receipt err (ri_closers r) (ri_openDone r) (ri_openErr r) (ri_prefix r) (ri_sequence r) (ri_revision r) (ri_notices r).
Definition set_closers (r : runtimeInstance) (v : list (option nat)) : runtimeInstance :=
  MkRuntime (ri_session r) (ri_agentID r) (ri_workspaceID r) (ri_hasInputGateJournal r) (ri_state r) (ri_active r) (ri_runs r) (ri_idleSignal r) (ri_closing r)
    (ri_closeDone r) (ri_closeReceipt r) (ri_closeErr r) v (ri_openDone r) (ri_openErr r) (ri_prefix r) (ri_sequence r) (ri_revision r) (ri_notices r).
Definition set_open (r : runtimeInstance) (done : bool) (err : option error) : runtimeInstance :=
  MkRuntime (ri_session r) (ri_agentID r) (ri_workspaceID r) (ri_hasInputGateJournal r) (ri_state r) (ri_active r) (ri_runs r) (ri_idleSignal r) (ri_closing r)
    (ri_closeDone r) (ri_closeReceipt r) (ri_closeErr r) (ri_closers r) done err (ri_prefix r) (ri_sequence r) (ri_revision r) (ri_notices r).
Definition set_sequence (r : runtimeInstance) (v : Z) : runtimeInstance :=
  MkRuntime (ri_session r) (ri_agentID r) (ri_workspaceID r) (ri_hasInputGateJournal r) (ri_state r) (ri_active r) (ri_runs r) (ri_idleSignal r) (ri_closing r)
    (ri_closeDone r) (ri_closeReceipt r) (ri_closeErr r) (ri_closers r) (ri_openDone r) (ri_openErr r) (ri_prefix r) v (ri_revision r) (ri_notices r).
Definition set_revision (r : runtimeInstance) (v : Z) : runtimeInstance :=
  MkRuntime (ri_session r) (ri_agentID r) (ri_workspaceID r) (ri_hasInputGateJournal r) (ri_state r) (ri_active r) (ri_runs r) (ri_idleSignal r) (ri_closing r)
    (ri_closeDone r) (ri_closeReceipt r) (ri_closeErr r) (ri_closers r) (ri_openDone r) (ri_openErr r) (ri_prefix r) (ri_sequence r) v (ri_notices r).
Definition set_notices (r : runtimeInstance) (v : list CommitNotice) : runtimeInstance :=
  MkRuntime (ri_session r) (ri_agentID r) (ri_workspaceID r) (ri_hasInputGateJournal r) (ri_state r) (ri_active r) (ri_runs r) (ri_idleSignal r) (ri_closing r)
    (ri_closeDone r) (ri_closeReceipt r) (ri_closeErr r) (ri_closers r) (ri_openDone r) (ri_openErr r) (ri_prefix r) (ri_sequence r) (ri_revision r) v.

Definition with_canceled (a : activeRun) : activeRun :=
  MkActiveRun (ar_id a) (ar_config a) (ar_configRevision a) true (ar_done a) (ar_cancelRequested a) (ar_prepared a) (ar_usedTokens a)
    (ar_modelAttempts a) (ar_toolCalls a) (ar_controlActor a) (ar_recoveredToolPreflights a).
Definition with_done (a : activeRun) (open : bool) : activeRun :=
  MkActiveRun (ar_id a) (ar_config a) (ar_configRevision a) (ar_canceled a) open (ar_cancelRequested a) (ar_prepared a) (ar_usedTokens a)
    (ar_modelAttempts a) (ar_toolCalls a) (ar_controlActor a) (ar_recoveredToolPreflights a).
Definition with_cancelRequested (a : activeRun) : activeRun :=
  MkActiveRun (ar_id a) (ar_config a) (ar_configRevision a) (ar_canceled a) (ar_done a) true (ar_prepared a) (ar_usedTokens a)
    (ar_modelAttempts a) (ar_toolCalls a) (ar_controlActor a) (ar_recoveredToolPreflights a).
Definition with_prepared (a : activeRun) (revision : Z) : activeRun :=
  MkActiveRun (ar_id a) (ar_config a) (ar_configRevision a) (ar_canceled a) (ar_done a) (ar_cancelRequested a) (Some revision) (ar_usedTokens a)
    (ar_modelAttempts a) (ar_toolCalls a) (ar_controlActor a) (ar_recoveredToolPreflights a).
Definition with_counters (a : activeRun) (tokens attempts calls : Z) : activeRun :=
  MkActiveRun (ar_id a) (ar_config a) (ar_configRevision a) (ar_canceled a) (ar_done a) (ar_cancelRequested a) (ar_prepared a) tokens attempts calls
    (ar_controlActor a) (ar_recoveredToolPreflights a).
Definition with_controlActor (a : activeRun) (actor : ActorIdentity) : activeRun :=
  MkActiveRun (ar_id a) (ar_config a) (ar_configRevision a) (ar_canceled a) (ar_done a) (ar_cancelRequested a) (ar_prepared a) (ar_usedTokens a)
    (ar_modelAttempts a) (ar_toolCalls a) actor (ar_recoveredToolPreflights a).
Definition with_recovered (a : activeRun) (entries : option (list ExtensionJournalEntry)) : activeRun :=
  MkActiveRun (ar_id a) (ar_config a) (ar_configRevision a) (ar_canceled a) (ar_done a) (ar_cancelRequested a) (ar_prepared a) (ar_usedTokens a)
    (ar_modelAttempts a) (ar_toolCalls a) (ar_controlActor a) entries.

(** ** Computations over the store and one runtime

    An error keeps the state reached so far, as in the code. *)
Record world := World { w_store : MemoryStore; w_rt : runtimeInstance }.
Definition M (A : Type) : Type := world -> world * result A.

#[export] Instance M_ret : MRet M := fun A a w => (w, Ok a).
#[export] Instance M_bind : MBind M := fun A B f m w =>
  match m w with
  | (w, Ok a) => f a w
  | (w, Err e) => (w, Err e)
  | (w, Panic msg) => (w, Panic msg)
  end.
Definition lift {A} (r : result A) : M A := fun w => (w, r).
Definition fail {A} (e : error) : M A := lift (Err e).
Definition fail_if (bad : bool) (e : error) : M unit := lift (reject_if bad e).
Definition gets {A} (f : runtimeInstance -> A) : M A := fun w => (w, Ok (f (w_rt w))).
Definition self : M runtimeInstance := gets (fun r => r).
Definition modify (f : runtimeInstance -> runtimeInstance) : M unit := fun w => (World (w_store w) (f (w_rt w)), Ok tt).
(** The error of a call as a value: [x, err := f()]. *)
Definition catch {A} (m : M A) : M (A + error) := fun w =>
  match m w with
  | (w, Ok a) => (w, Ok (inl a))
  | (w, Err e) => (w, Ok (inr e))
  | (w, Panic msg) => (w, Panic msg)
  end.
Fixpoint mapM_ {A B} (f : A -> M B) (l : list A) : M (list B) :=
  match l with
  | [] => mret []
  | a :: l => b ← f a; bs ← mapM_ f l; mret (b :: bs)
  end.

(** What a call reads from outside: times, what its store calls read, fresh
    random bytes, and its context.  Readings are indexed by the identities
    allocated so far. *)
Record environment := MkEnv { en_now : Z -> Time; en_readings : Z -> Readings; en_fresh : Z -> Identity; en_ctx : context }.

(** [ctx.Err()] *)
Definition ctx_Err (ctx : context) : option error :=
  match ctx with
  | Live => None
  | DeadlineExceeded => Some (ErrNew "context deadline exceeded")
  | ContextCanceled => Some (ErrNew "context canceled")
  end.
Definition context_Canceled : error := ErrNew "context canceled".

(** *** Codes of the runtime *)
Definition CodeNoPendingWork := "no_pending_work".
Definition CodeRuntimeClosed := "runtime_closed".
Definition CodeRuntimeUnavailable := "runtime_unavailable".
Definition CodeRuntimeFailed := "runtime_failed".
Definition CodeCompatibilityConfirmationRequired := "compatibility_confirmation_required".

(** ** Runs in the table *)
Definition dereference : string := "nil pointer dereference".
Definition get_run (k : nat) : M activeRun := fun w =>
  match ri_runs (w_rt w) !! k with Some a => (w, Ok a) | None => (w, Panic dereference) end.
Definition update_run (k : nat) (f : activeRun -> activeRun) : M unit := modify (fun r => set_runs r (alter f k (ri_runs r))).
(** [r.active != run] *)
Definition is_active (r : runtimeInstance) (k : nat) : bool := bool_decide (ri_active r = Some k).

Definition closed_twice : string := "close of closed channel".
Definition close_done (k : nat) : M unit :=
  a ← get_run k;
  if ar_done a then update_run k (fun a => with_done a false) else lift (Panic closed_twice).
Definition close_idleSignal : M unit :=
  r ← self;
  if ri_idleSignal r then modify (fun r => set_idleSignal r false) else lift (Panic closed_twice).
Definition close_closeDone : M unit :=
  r ← self;
  if ri_closeDone r then modify (fun r => set_closeDone r false) else lift (Panic closed_twice).
Definition close_openDone (err : option error) : M unit :=
  r ← self;
  if ri_openDone r then modify (fun r => set_open r false err) else lift (Panic closed_twice).

(** [signalPrepared]: once *)
Definition signal (revision : Z) (a : activeRun) : activeRun :=
  match ar_prepared a with Some _ => a | None => with_prepared a revision end.
Definition signalPrepared (k : nat) : M unit :=
  revision ← gets ri_revision;
  update_run k (signal revision).

(** [r.nextID]: the atomic counter is 64 bits wide. *)
Definition nextID (kind : string) : M string := fun w =>
  let n := (ri_sequence (w_rt w) + 1)%Z in
  (World (w_store w) (set_sequence (w_rt w) n), Ok (identity kind (ri_prefix (w_rt w)) (u64 n))).
Definition now (e : environment) : M Time := fun w => (w, Ok (en_now e (ri_sequence (w_rt w)))).

Definition runtimeClosedError (operation : string) : error :=
  NewCodedError ErrorConflict CodeRuntimeClosed operation (plain "Session Runtime is closed") None.
Definition ensureOpenLocked (operation : string) : M unit :=
  r ← self;
  fail_if (bool_decide (ri_state r = runtimeClosed) || ri_closing r) (runtimeClosedError operation) ;;
  fail_if (bool_decide (ri_state r = runtimeOpening))
    (NewCodedError ErrorUnavailable CodeRuntimeUnavailable operation (plain "Session Runtime is still opening") None).

(** [interaction.RevisionConflictError] *)
Definition RevisionConflictError (current : Z) (cause : error) : error := ErrWrap cause "interaction: revision conflict" [AInt current].

Section Store.
Context {J : JsonOps} {F : Fingerprints} {R : RequestFingerprint} {K : CursorCodec}.

(** [r.session.View] *)
Definition session_View (ctx : context) : M Snapshot := fun w =>
  match Load ctx (w_store w) (ri_id (w_rt w)) with
  | Ok snapshot => (World (w_store w) (set_session (w_rt w) (MkMemorySession (ri_id (w_rt w)) (u64 (sn_Revision snapshot)))), Ok snapshot)
  | out => (w, out)
  end.
Definition viewLocked (ctx : context) : M Snapshot :=
  snapshot ← session_View ctx;
  modify (fun r => set_revision r (u64 (sn_Revision snapshot))) ;;
  mret snapshot.

Definition store_Commit (e : environment) (ctx : context) (request : CommitRequest) : M Commit_ := fun w =>
  let n := ri_sequence (w_rt w) in
  let '(st, out) := Commit (en_readings e n) (en_fresh e n) ctx (w_store w) request in
  (World st (w_rt w), out).
Definition store_Recover (e : environment) (ctx : context) : M Snapshot := fun w =>
  let n := ri_sequence (w_rt w) in
  let '(st, out) := Recover (en_readings e n) (en_fresh e n) ctx (w_store w) (ri_id (w_rt w)) in
  (World st (w_rt w), out).

(** [fmt.Sprintf("runtime-%s-%s", operation, r.nextID("commit"))] *)
Definition commit_key (operation id : string) : string := "runtime-" +:+ operation +:+ "-" +:+ id.

Definition commitLockedAs (e : environment) (ctx : context) (expected : Z) (operation : string) (actor : ActorIdentity) (changes : list Change)
    : M Commit_ :=
  id ← nextID "commit";
  sessionID ← gets ri_id;
  commit ← store_Commit e ctx (MkCommitRequest sessionID expected (commit_key operation id) actor changes);
  modify (fun r => set_revision r (u64 (co_Revision commit))) ;;
  (if co_Applied commit then
     modify (fun r => set_notices r (ri_notices r ++
       [MkNotice sessionID (co_Revision commit) (co_FirstHistorySequence commit) (co_LastHistorySequence commit)]))
   else mret tt) ;;
  mret commit.
Definition commitLocked (e : environment) (ctx : context) (expected : Z) (operation : string) (changes : list Change) : M Commit_ :=
  commitLockedAs e ctx expected operation no_actor changes.

(** On a revision conflict the answer carries the current revision. *)
Definition commitExternalLocked (e : environment) (ctx : context) (expected : Z) (operation : string) (actor : ActorIdentity) (changes : list Change)
    : M Commit_ :=
  out ← catch (commitLockedAs e ctx expected operation actor changes);
  match out with
  | inl commit => mret commit
  | inr err =>
    if negb (IsCode err CodeRevisionConflict) then fail err
    else
      viewed ← catch (session_View ctx);
      match viewed with
      | inl snapshot => modify (fun r => set_revision r (u64 (sn_Revision snapshot)))
      | inr _ => mret tt
      end ;;
      current ← gets ri_revision;
      fail (RevisionConflictError current err)
  end.

End Store.

(** ** A new runtime

    [resolve] binds the workspace of the scope; it accepts when there is no
    workspace manager.  [prefix] is what [crypto/rand] gave. *)
Definition hasInputGateJournal (entries : list ExtensionJournalEntry) : bool :=
  existsb (fun e => bool_decide (xe_Boundary e = BoundaryInputGate)) entries.
Definition runtime_error (message : string) : error := NewError ErrorInternal "standardagent.runtime" (plain message) None.
Definition newRuntimeInstance (ctx : context) (st : MemoryStore) (s : memorySession) (resolve : string -> string -> result unit) (prefix : option string)
    : result runtimeInstance :=
  snapshot ← Load ctx st (ms_id s);
  let sess := sn_Session snapshot in
  reject_if (negb (String.eqb (sess_ID sess) (ms_id s)) || negb (is_ok (validateScope (sess_AgentID sess) (sess_WorkspaceID sess))))
    (runtime_error "framework Manager returned invalid Session identity") ;;
  resolve (sess_AgentID sess) (sess_WorkspaceID sess) ;;
  match prefix with
  | None => Err (runtime_error "cannot initialize Runtime ID allocator")
  | Some prefix =>
    let revision := u64 (sn_Revision snapshot) in
    reject_if (negb (ID_Valid (ms_id s))) (runtime_error "framework Manager returned an invalid SessionID") ;;
    Ok (MkRuntime (MkMemorySession (ms_id s) revision) (sess_AgentID sess) (sess_WorkspaceID sess) (hasInputGateJournal (sn_ExtensionJournal snapshot))
          runtimeOpening None [] false false true 0 None [] true None prefix 0 revision [])
  end.

(** ** Changes *)
Definition change (k : ChangeKind) : Change :=
  MkChange k None None None None None None None None None None None None None None None None false None None None None.
Definition AppendMessage_ (m : Message) : Change :=
  MkChange AppendMessage (Some m) None None None None None None None None None None None None None None None false None None None None.
Definition AppendToolCall_ (c : ToolCall) : Change :=
  MkChange AppendToolCall None (Some c) None None None None None None None None None None None None None None false None None None None.
Definition AppendToolResult_ (r : ToolResult) : Change :=
  MkChange AppendToolResult None None (Some r) None None None None None None None None None None None None None false None None None None.
Definition AppendRunFact_ (f : RunFact) : Change :=
  MkChange AppendRunFact None None None (Some f) None None None None None None None None None None None None false None None None None.
Definition AppendModelAttempt_ (f : ModelAttemptFact) : Change :=
  MkChange AppendModelAttempt None None None None (Some f) None None None None None None None None None None None false None None None None.
Definition AppendContextContribution_ (f : ContextContributionFact) : Change :=
  MkChange AppendContextContribution None None None None None (Some f) None None None None None None None None None None false None None None None.
Definition AppendRunBudgetExceeded_ (f : RunBudgetExceededFact) : Change :=
  MkChange AppendRunBudgetExceeded None None None None None None (Some f) None None None None None None None None None false None None None None.
Definition AppendRunLimitExceeded_ (f : RunLimitExceededFact) : Change :=
  MkChange AppendRunLimitExceeded None None None None None None None (Some f) None None None None None None None None false None None None None.
Definition AppendSessionEvent_ (e : SessionEvent) : Change :=
  MkChange AppendSessionEvent None None None None None None None None (Some e) None None None None None None None false None None None None.
Definition EnqueueMessage_ (i : QueueItem) : Change :=
  MkChange EnqueueMessage None None None None None None None None None (Some i) None None None None None None false None None None None.
Definition ClaimQueue_ (c : QueueClaim) : Change :=
  MkChange ClaimQueue None None None None None None None None None None (Some c) None None None None None false None None None None.
Definition ConsumeQueue_ (c : QueueConsume) : Change :=
  MkChange ConsumeQueue None None None None None None None None None None None (Some c) None None None None false None None None None.
Definition EditQueue_ (c : QueueEdit) : Change :=
  MkChange EditQueue None None None None None None None None None None None None (Some c) None None None false None None None None.
Definition DeleteQueue_ (c : QueueDelete) : Change :=
  MkChange DeleteQueue None None None None None None None None None None None None None (Some c) None None false None None None None.
Definition ReclassifyQueue_ (c : QueueReclassify) : Change :=
  MkChange ReclassifyQueue None None None None None None None None None None None None None None (Some c) None false None None None None.
Definition SetContext_ (v : ContextView) (retain : bool) : Change :=
  MkChange SetContext None None None None None None None None None None None None None None None (Some v) retain None None None None.
Definition SetModelConfig_ (c : Config) : Change :=
  MkChange SetModelConfig None None None None None None None None None None None None None None None None false (Some c) None None None.
Definition SetRunState_ (s : RunStateChange) : Change :=
  MkChange SetRunState None None None None None None None None None None None None None None None None false None (Some s) None None.
Definition UpdateRunJournal_ (e : JournalEntry) : Change :=
  MkChange UpdateRunJournal None None None None None None None None None None None None None None None None false None None (Some e) None.
Definition UpdateExtensionJournal_ (e : ExtensionJournalEntry) : Change :=
  MkChange UpdateExtensionJournal None None None None None None None None None None None None None None None None false None None None (Some e).
