(* ===== verification/RuntimeCommands.v ===== *)
(** * Commands of a Session runtime

    Models [standardagent/runtime_commands.go], the queue and context helpers
    it uses ([runtime_execution.go], [runtime_input_gate_context.go],
    [runtime_lifecycle.go]) and the start of a run.  A command that waits is
    two computations: the region under the mutex, and what it returns when the
    channel it waits for is closed. *)

From S2P Require Import Prelude GoStrings AgentTypes ModelContracts SessionTypes ExtensionJournal.
From S2P Require Import SessionValidate SessionHistory SessionApply SessionRecover SessionCreate SessionStore SessionManager HookViews ModelStream RuntimeState.

Definition invalidInput (op message : string) : error := NewError ErrorInvalidInput op (plain message) None.

(** ** The queue *)
Definition firstPending (queue : list QueueItem) (delivery : Delivery) : option QueueItem :=
  List.find (fun item => negb (Claimed item) && bool_decide (qi_Delivery item = delivery)) queue.
Definition pendingByDelivery (queue : list QueueItem) (delivery : Delivery) : list QueueItem :=
  List.filter (fun item => negb (Claimed item) && bool_decide (qi_Delivery item = delivery)) queue.
Definition queueByID (queue : list QueueItem) (id : string) : option QueueItem :=
  List.find (fun item => String.eqb (msg_ID (qi_Message item)) id) queue.

(** ** Contexts of extensions that wait for a step *)
Definition with_entry_context (e : ExtensionJournalEntry) (d : ContextDisposition) (inputs : list Input) : ExtensionJournalEntry :=
  MkExtensionJournalEntry (xe_InvocationID e) (xe_Sequence e) (xe_Descriptor e) (xe_Boundary e) (xe_SessionID e) (xe_RunID e) (xe_StepID e)
    (xe_TargetStepID e) (xe_MessageID e) (xe_ToolCallID e) (xe_GoalID e) (xe_GoalVersion e) (xe_LifecyclePhase e) (xe_LifecycleOpenKind e)
    (xe_InputDigest e) (xe_PreparedRevision e) (xe_PreparedAt e) (xe_PendingAt e) (xe_FinishedAt e) (xe_Status e) (xe_Result e) (xe_ErrorCode e)
    (xe_ErrorReason e) (xe_EffectDisposition e) d inputs (xe_ContextDigest e) (xe_ContextBytes e).

Definition context_source (e : ExtensionJournalEntry) : string :=
  "hook:" +:+ ext_Key (xe_Descriptor e) +:+ ":" +:+ xe_InvocationID e.
Definition inputGateContextSource : ExtensionJournalEntry -> string := context_source.

(** The fact that hands the context of an entry to a step, and the entry after. *)
Definition consume_context (e : ExtensionJournalEntry) (inputs : list Input) (runID stepID : string) : list Change :=
  [AppendContextContribution_ (MkContextContributionFact runID stepID (context_source e) inputs);
   UpdateExtensionJournal_ (with_entry_context e ContextConsumed [])].

Definition accepted_context (messageID : string) (e : ExtensionJournalEntry) : bool :=
  bool_decide (xe_Boundary e = BoundaryInputGate) && String.eqb (xe_MessageID e) messageID && bool_decide (xe_Status e = InvocationSucceeded) &&
  match xe_Result e with Some r => bool_decide (inv_Decision r = DecisionAccept) | None => false end &&
  bool_decide (xe_EffectDisposition e = EffectApplied) && bool_decide (xe_ContextDisposition e = ContextPending).
Definition consumePendingInputContexts (s : Snapshot) (messageID runID stepID : string) : list Change :=
  concat (map (fun e => consume_context e (xe_ContextInputs e) runID stepID) (List.filter (accepted_context messageID) (sn_ExtensionJournal s))).

Definition discardable_context (messageID : string) (e : ExtensionJournalEntry) : bool :=
  bool_decide (xe_Boundary e = BoundaryInputGate) && String.eqb (xe_MessageID e) messageID &&
  bool_decide (xe_EffectDisposition e = EffectApplied) && bool_decide (xe_ContextDisposition e = ContextPending).
Definition discardPendingInputContexts (s : Snapshot) (messageID : string) : list Change :=
  map (fun e => UpdateExtensionJournal_ (with_entry_context e ContextDiscarded [])) (List.filter (discardable_context messageID) (sn_ExtensionJournal s)).

Definition rebind_message (runID stepID : string) (m : Message) : Message :=
  MkMessage (msg_ID m) (msg_ClientMessageID m) (msg_SessionID m) runID stepID (msg_Role m) (msg_Parts m) (msg_ModelContinuation m) (msg_CreatedAt m).
Definition bindLifecycleContext (inputs : list Input) (runID stepID : string) : list Input :=
  map (fun i => MkInput (in_SystemPrompt i) (rebind_message runID stepID <$> in_Message i) (in_ToolCall i) (in_ToolResult i)) inputs.
Definition open_context (e : ExtensionJournalEntry) : bool :=
  bool_decide (xe_Boundary e = BoundarySessionLifecycle) && bool_decide (xe_LifecyclePhase e = LifecycleOpen) &&
  bool_decide (xe_Status e = InvocationSucceeded) && bool_decide (xe_EffectDisposition e = EffectApplied) &&
  bool_decide (xe_ContextDisposition e = ContextPending).
Definition consumePendingLifecycleContexts (s : Snapshot) (runID stepID : string) : list Change :=
  concat (map (fun e => consume_context e (bindLifecycleContext (xe_ContextInputs e) runID stepID) runID stepID)
    (List.filter open_context (sn_ExtensionJournal s))).

(** ** Starting a run *)
Definition appendInputConsumption (s : Snapshot) (item : QueueItem) (runID stepID : string) : list Change :=
  let id := msg_ID (qi_Message item) in
  [ClaimQueue_ (MkQueueClaim id runID); ConsumeQueue_ (MkQueueConsume id runID); AppendMessage_ (rebind_message runID stepID (qi_Message item))] ++
  consumePendingInputContexts s id runID stepID.

Definition new_run (id : string) (s : Snapshot) : activeRun :=
  MkActiveRun id (sn_ModelConfig s) (sn_Revision s) false true false None 0 0 0 no_actor None.

Definition startChangesLocked (s : Snapshot) (item : QueueItem) (enqueue : bool) : M (activeRun * string * list Change) :=
  runID ← nextID "run";
  stepID ← nextID "step";
  sessionID ← gets ri_id;
  mret (new_run runID s, stepID,
    (if enqueue then [EnqueueMessage_ item] else []) ++
    [SetRunState_ (MkRunStateChange runID RunRunning);
     AppendRunFact_ (MkRunFact sessionID runID RunStarted (sn_ModelConfig s) (sn_Revision s) "" None)] ++
    consumePendingLifecycleContexts s runID stepID ++
    appendInputConsumption s item runID stepID).

(** The new run enters the table: its number. *)
Definition activateLocked (run : activeRun) : M nat := fun w =>
  let k := length (ri_runs (w_rt w)) in
  let r := set_runs (w_rt w) (ri_runs (w_rt w) ++ [run]) in
  (World (w_store w) (set_idleSignal (set_active (set_state r runtimeRunning) (Some k)) true), Ok k).

Record EnqueueReceipt := MkEnqueueReceipt { er_MessageID : string; er_Revision : Z }.
(** A run was started; the goroutine [runLoop] begins at this step. *)
Record started_run := MkStarted { sr_MessageID : string; sr_run : nat; sr_step : string }.

Section Commands.
Context {J : JsonOps} {F : Fingerprints} {R : RequestFingerprint} {K : CursorCodec}.

(** ** Input *)
Record SendRequest := MkSendRequest {
  snd_SessionID : string; snd_ExpectedRevision : Z; snd_Actor : ActorIdentity; snd_ClientMessageID : string; snd_Input : MessageInput }.
(** [SteerRequest] has the same fields. *)
Definition SteerRequest := SendRequest.

Definition request_invalid (sessionID : string) (request : SendRequest) : bool :=
  negb (String.eqb (snd_SessionID request) sessionID) || negb (MessageInput_Valid (snd_Input request)) ||
  (nonempty (snd_ClientMessageID request) && negb (ID_Valid (snd_ClientMessageID request))).

Definition new_message (e : environment) (request : SendRequest) : M Message :=
  id ← nextID "message";
  at_ ← now e;
  sessionID ← gets ri_id;
  mret (MkMessage id (snd_ClientMessageID request) sessionID "" "" RoleUser (snd_Input request) None at_).

(** [send] without input gates: a queued message, or a started run. *)
Definition send (e : environment) (request : SendRequest) : M (EnqueueReceipt + started_run) :=
  r ← self;
  fail_if (request_invalid (ri_id r) request)
    (invalidInput "gateway.send" "SessionID, valid optional ClientMessageID, and message input are required") ;;
  ensureOpenLocked "gateway.send" ;;
  snapshot ← viewLocked (en_ctx e);
  message ← new_message e request;
  let item := MkQueueItem message DeliveryNormal "" in
  if bool_decide (ri_state r = runtimeRunning) then
    commit ← commitExternalLocked e (en_ctx e) (snd_ExpectedRevision request) "send" (snd_Actor request) [EnqueueMessage_ item];
    mret (inl (MkEnqueueReceipt (msg_ID message) (co_Revision commit)))
  else
    '(run, step, changes) ← startChangesLocked snapshot item true;
    commitExternalLocked e (en_ctx e) (snd_ExpectedRevision request) "send-start" (snd_Actor request) changes ;;
    k ← activateLocked run;
    mret (inr (MkStarted (msg_ID message) k step)).

(** The [select] after a start: the run is prepared, or the context ended;
    [None] while it waits.  When both are ready Go picks either. *)
Definition await_prepared (ctx : context) (prefer_ctx : bool) (k : nat) : M (option Z) :=
  a ← get_run k;
  match ar_prepared a, ctx_Err ctx with
  | Some revision, Some err => if prefer_ctx then fail err else mret (Some revision)
  | Some revision, None => mret (Some revision)
  | None, Some err => fail err
  | None, None => mret None
  end.

Definition no_active_run (r : runtimeInstance) : bool := negb (bool_decide (ri_state r = runtimeRunning)) || absent (ri_active r).

Definition steer (e : environment) (request : SteerRequest) : M EnqueueReceipt :=
  r ← self;
  fail_if (request_invalid (ri_id r) request)
    (invalidInput "gateway.steer" "SessionID, valid optional ClientMessageID, and message input are required") ;;
  ensureOpenLocked "gateway.steer" ;;
  fail_if (no_active_run r) (NewCodedError ErrorConflict CodeNoActiveRun "gateway.steer" (plain "session has no active Run") None) ;;
  message ← new_message e request;
  commit ← commitExternalLocked e (en_ctx e) (snd_ExpectedRevision request) "steer" (snd_Actor request)
    [EnqueueMessage_ (MkQueueItem message DeliverySteer "")];
  mret (MkEnqueueReceipt (msg_ID message) (co_Revision commit)).

Record ControlRequest := MkControlRequest { ctl_SessionID : string; ctl_ExpectedRevision : Z; ctl_Actor : ActorIdentity }.

Definition pending (e : environment) (request : ControlRequest) : M started_run :=
  r ← self;
  fail_if (negb (String.eqb (ctl_SessionID request) (ri_id r))) (invalidInput "gateway.run_pending" "SessionID is required") ;;
  ensureOpenLocked "gateway.run_pending" ;;
  fail_if (bool_decide (ri_state r = runtimeRunning))
    (NewCodedError ErrorConflict CodeActiveRun "gateway.run_pending" (plain "session already has an active Run") None) ;;
  snapshot ← viewLocked (en_ctx e);
  match firstPending (sn_Queue snapshot) DeliveryNormal with
  | None => fail (NewCodedError ErrorConflict CodeNoPendingWork "gateway.run_pending" (plain "session has no pending normal input") None)
  | Some item =>
    '(run, step, changes) ← startChangesLocked snapshot item false;
    commitExternalLocked e (en_ctx e) (ctl_ExpectedRevision request) "run-pending" (ctl_Actor request) changes ;;
    k ← activateLocked run;
    mret (MkStarted "" k step)
  end.

(** ** Control *)
Definition check_revision (op : string) (expected : Z) (s : Snapshot) : M unit :=
  fail_if (negb (Z.eqb expected (sn_Revision s)))
    (RevisionConflictError (sn_Revision s) (NewCodedError ErrorConflict CodeRevisionConflict op (plain "expected revision does not match") None)).

Definition set_controlActor (k : nat) (actor : ActorIdentity) : M unit :=
  if ActorIdentity_Valid actor then update_run k (fun a => with_controlActor a actor) else mret tt.

Definition cancel (e : environment) (request : ControlRequest) : M unit :=
  r ← self;
  fail_if (negb (String.eqb (ctl_SessionID request) (ri_id r))) (invalidInput "gateway.cancel" "SessionID is required") ;;
  ensureOpenLocked "gateway.cancel" ;;
  snapshot ← viewLocked (en_ctx e);
  check_revision "gateway.cancel" (ctl_ExpectedRevision request) snapshot ;;
  match ri_active r with
  | None => mret tt
  | Some k =>
    if bool_decide (ri_state r = runtimeIdle) then mret tt
    else
      set_controlActor k (ctl_Actor request) ;;
      update_run k (fun a => with_canceled (with_cancelRequested a))
  end.

(** One round of [idle]: it returns, or it waits for a channel. *)
Inductive idle_wait := IdleReached | WaitIdleSignal | WaitCloseDone.
Definition idle (sessionID : string) : M idle_wait :=
  r ← self;
  fail_if (negb (String.eqb sessionID (ri_id r))) (invalidInput "gateway.when_idle" "SessionID is required") ;;
  mret (if bool_decide (ri_state r = runtimeClosed) || bool_decide (ri_state r = runtimeIdle) then IdleReached
        else if ri_closing r then WaitCloseDone else WaitIdleSignal).

(** ** Closing *)
Definition startCloseLocked : M unit :=
  modify (fun r => set_closing r true) ;;
  r ← self;
  match ri_active r with
  | Some k => update_run k (fun a => with_canceled (with_cancelRequested a))
  | None => mret tt
  end ;;
  modify (fun r' => set_closers r' (ri_closers r' ++ [ri_active r])).

(** [close] after [openDone] is closed; [None] while it waits for that. *)
Definition close : M (option unit) :=
  r ← self;
  if ri_openDone r then mret None
  else
    (if bool_decide (ri_state r = runtimeClosed) then mret tt
     else if ri_closing r then mret tt else startCloseLocked) ;;
    mret (Some tt).

(** The end of [finishClose] for one of its goroutines, when the run it waits
    for is done; [closeErr] is what the lifecycle hooks and the diagnostics
    reported. *)
Definition finishClose (c : nat) (closeErr : option error) : M bool := fun w =>
  let r := w_rt w in
  match ri_closers r !! c with
  | None => (w, Ok false)
  | Some runDone =>
    let waiting := match runDone with
      | Some k => match ri_runs r !! k with Some a => ar_done a | None => false end
      | None => false
      end in
    if waiting then (w, Ok false)
    else if bool_decide (ri_state r = runtimeClosed) then (w, Ok true)
    else
      let receipt := ri_revision r in
      (modify (fun r => set_closeResult (set_active (set_state r runtimeClosed) None) receipt closeErr) ;;
       close_closeDone ;; mret true) w
  end.

(** ** Queue commands *)
Record EditQueuedRequest := MkEditQueuedRequest {
  eqr_SessionID : string; eqr_MessageID : string; eqr_ExpectedRevision : Z; eqr_Actor : ActorIdentity; eqr_Input : MessageInput }.
(** [editQueued] without input gates. *)
Definition editQueued (e : environment) (request : EditQueuedRequest) : M Z :=
  r ← self;
  fail_if (negb (String.eqb (eqr_SessionID request) (ri_id r)) || negb (ID_Valid (eqr_MessageID request)) || negb (MessageInput_Valid (eqr_Input request)))
    (invalidInput "gateway.edit_queued" "SessionID, MessageID, and input are required") ;;
  ensureOpenLocked "gateway.edit_queued" ;;
  snapshot ← viewLocked (en_ctx e);
  match queueByID (sn_Queue snapshot) (eqr_MessageID request) with
  | None => fail (NewCodedError ErrorNotFound CodeQueueItemNotFound "gateway.edit_queued" (plain "queue item was not found") None)
  | Some item =>
    commit ← commitExternalLocked e (en_ctx e) (eqr_ExpectedRevision request) "queue-edit" (eqr_Actor request)
      (EditQueue_ (MkQueueEdit (eqr_MessageID request) (eqr_Input request) (qi_Delivery item)) ::
       discardPendingInputContexts snapshot (eqr_MessageID request));
    mret (co_Revision commit)
  end.

Record DeleteQueuedRequest := MkDeleteQueuedRequest { dqr_SessionID : string; dqr_MessageID : string; dqr_ExpectedRevision : Z; dqr_Actor : ActorIdentity }.
Definition deleteQueued (e : environment) (request : DeleteQueuedRequest) : M Z :=
  r ← self;
  fail_if (negb (String.eqb (dqr_SessionID request) (ri_id r)) || negb (ID_Valid (dqr_MessageID request)))
    (invalidInput "gateway.delete_queued" "SessionID and MessageID are required") ;;
  ensureOpenLocked "gateway.delete_queued" ;;
  discarded ← (if ri_hasInputGateJournal r then
      snapshot ← viewLocked (en_ctx e); mret (discardPendingInputContexts snapshot (dqr_MessageID request))
    else mret []);
  commit ← commitExternalLocked e (en_ctx e) (dqr_ExpectedRevision request) "queue-delete" (dqr_Actor request)
    (DeleteQueue_ (MkQueueDelete (dqr_MessageID request)) :: discarded);
  mret (co_Revision commit).

Record ReclassifyQueuedRequest := MkReclassifyQueuedRequest {
  rqr_SessionID : string; rqr_MessageID : string; rqr_ExpectedRevision : Z; rqr_Actor : ActorIdentity; rqr_Delivery : Delivery }.
Definition reclassifyQueued (e : environment) (request : ReclassifyQueuedRequest) : M Z :=
  r ← self;
  fail_if (negb (String.eqb (rqr_SessionID request) (ri_id r)) || negb (ID_Valid (rqr_MessageID request)) || negb (Delivery_Valid (rqr_Delivery request)))
    (invalidInput "gateway.reclassify_queued" "SessionID, MessageID, and delivery are required") ;;
  ensureOpenLocked "gateway.reclassify_queued" ;;
  commit ← commitExternalLocked e (en_ctx e) (rqr_ExpectedRevision request) "queue-reclassify" (rqr_Actor request)
    [ReclassifyQueue_ (MkQueueReclassify (rqr_MessageID request) (rqr_Delivery request))];
  mret (co_Revision commit).

End Commands.
