(* ===== verification/RuntimeRun.v ===== *)
(** * Running a run

    Models the regions under the mutex in which [standardagent/runtime_execution.go]
    advances the active run: the record of model attempts, the completion of a
    model step, tool executions and their results, the continuation with new
    input, the end of a run with the start of the next one, recovery when that
    end cannot be committed, and the restoration of a run when a Session is
    opened.  Where the code goes on in a goroutine, the computation returns what
    that goroutine is started with. *)

From S2P Require Import Prelude GoStrings AgentTypes ModelContracts SessionTypes ExtensionJournal.
From S2P Require Import SessionValidate SessionHistory SessionApply SessionRecover SessionCreate SessionStore SessionManager HookViews ModelStream.
From S2P Require Import ToolDispatcher LoopProtocol RuntimeState RuntimeCommands.

(** What the runtime was assembled with: its limits, and the descriptors and
    scopes of the extensions.  The code of the extensions is not part of it. *)
Record runtimeComponents := MkComponents {
  rc_MaxTokensPerRun : Z; rc_MaxModelAttemptsPerRun : Z; rc_MaxToolCallsPerRun : Z;
  rc_inputGates : list ExtensionDescriptor;
  rc_toolPreflights : list (ToolScope * ExtensionDescriptor);
  rc_toolResultHooks : list (ToolResultScope * ExtensionDescriptor);
  rc_completionGates : list ExtensionDescriptor;
  rc_sessionLifecycles : list (LifecycleScope * ExtensionDescriptor) }.

Definition CodeRunLimit (kind : RunLimitKind) : string :=
  if bool_decide (kind = RunLimitToolCalls) then CodeRunToolCallLimitExceeded else CodeRunModelAttemptLimitExceeded.
Definition runLimitCode := CodeRunLimit.
(** [runLimitErrorCode] *)
Definition runLimitErrorCode (err : error) : option string :=
  let code := CodeOf err in
  if String.eqb code CodeRunModelAttemptLimitExceeded || String.eqb code CodeRunToolCallLimitExceeded then Some code else None.

Definition modelAttemptLimitError : error :=
  NewCodedError ErrorUnavailable CodeRunModelAttemptLimitExceeded "standardagent.model_attempt" (plain "Run model attempt limit exceeded") None.
Definition toolCallLimitError : error :=
  NewCodedError ErrorUnavailable CodeRunToolCallLimitExceeded "standardagent.tool_calls" (plain "Run tool call limit exceeded") None.

(** [sameRuntimeConfig] *)
Definition sameRuntimeConfig (l r : Config) : bool :=
  String.eqb (cfg_ProviderKey l) (cfg_ProviderKey r) && String.eqb (cfg_ModelID l) (cfg_ModelID r) &&
  bool_decide (cfg_Reasoning l = cfg_Reasoning r) &&
  sameFloat (par_Temperature (cfg_Parameters l)) (par_Temperature (cfg_Parameters r)) &&
  sameInt (par_MaxTokens (cfg_Parameters l)) (par_MaxTokens (cfg_Parameters r)).

(** ** Reserving the extensions of a tool call *)
Definition prepared_entry (id : string) (sequence : Z) (d : ExtensionDescriptor) (b : BoundaryKind) (sessionID runID stepID target messageID callID : string)
    (digest : string) (revision : Z) (at_ : Time) : ExtensionJournalEntry :=
  MkExtensionJournalEntry id sequence d b sessionID runID stepID target messageID callID "" 0 (PhaseOther "") (OpenOther "") digest revision at_ 0 0
    InvocationPrepared None "" "" EffectNone ContextNone [] "" 0.

(** [matchingToolResultHooks] *)
Definition matchingToolResultHooks (c : runtimeComponents) (toolKey : string) (status : ResultStatus) : list (ToolResultScope * ExtensionDescriptor) :=
  List.filter (fun b => ToolResultScope_Matches b.1 toolKey status) (rc_toolResultHooks c).

(** What was reserved for the result of one call. *)
Record toolResultHookOccurrence := MkResultOccurrence {
  ro_call : ToolCall; ro_result : ToolResult; ro_nextStep : string; ro_bindings : list (ToolResultScope * ExtensionDescriptor);
  ro_entries : list ExtensionJournalEntry }.

Section Reservations.
Context {V : ViewFingerprints} (c : runtimeComponents).

Fixpoint reserve_preflights (e : environment) (call : ToolCall) (revision : Z) (at_ : Time) (sequence : Z)
    (bindings : list (ToolScope * ExtensionDescriptor)) : M (list Change * Z) :=
  match bindings with
  | [] => mret ([], sequence)
  | (scope, descriptor) :: bindings =>
    if negb (ToolScope_Matches scope (call_Name call)) then reserve_preflights e call revision at_ sequence bindings
    else
      id ← nextID "preflight";
      r ← self;
      let view := MkToolPreflightView id (ri_id r) (ri_agentID r) (ri_workspaceID r) revision (call_RunID call) (call_StepID call)
        (call_MessageID call) (call_ID call) (call_Name call) (call_Arguments call) in
      fingerprint ← lift (fingerprint_of (FingerprintView (PreflightView view)));
      '(changes, sequence') ← reserve_preflights e call revision at_ (u64 (sequence + 1)) bindings;
      mret (UpdateExtensionJournal_ (prepared_entry id sequence descriptor BoundaryToolPreflight (ri_id r) (call_RunID call) (call_StepID call) ""
              (call_MessageID call) (call_ID call) (fp_Digest fingerprint) revision at_) :: changes, sequence')
  end.
Definition appendToolPreflightReservations (e : environment) (call : ToolCall) (revision sequence : Z) : M (list Change * Z) :=
  match rc_toolPreflights c with
  | [] => mret ([], sequence)
  | bindings =>
    fail_if (Z.eqb sequence 0) (NewError ErrorInternal "standardagent.tool_preflight" (plain "extension sequence allocator is invalid") None) ;;
    at_ ← now e;
    reserve_preflights e call revision at_ sequence bindings
  end.

(** The changes of [commitCompletion] for its calls. *)
Fixpoint completion_changes (e : environment) (runID stepID : string) (revision sequence : Z) (calls : list ToolCall) : M (list Change) :=
  match calls with
  | [] => mret []
  | call :: calls =>
    '(reserved, sequence) ← appendToolPreflightReservations e call revision sequence;
    rest ← completion_changes e runID stepID revision sequence calls;
    mret ([AppendToolCall_ call; UpdateRunJournal_ (MkJournalEntry runID stepID (Some call) None JournalPrepared)] ++ reserved ++ rest)
  end.

Fixpoint reserve_results (e : environment) (call : ToolCall) (result : ToolResult) (nextStep : string) (revision : Z) (at_ : Time) (sequence : Z)
    (bindings : list (ToolResultScope * ExtensionDescriptor)) : M (list ExtensionJournalEntry * Z) :=
  match bindings with
  | [] => mret ([], sequence)
  | (scope, descriptor) :: bindings =>
    id ← nextID "post-result";
    r ← self;
    let view := MkToolResultView id (ri_id r) (ri_agentID r) (ri_workspaceID r) revision (call_RunID call) (call_StepID call) nextStep
      (call_MessageID call) (call_ID call) (call_Name call) (call_Arguments call) result in
    fingerprint ← lift (fingerprint_of (FingerprintView (ResultView view)));
    '(entries, sequence') ← reserve_results e call result nextStep revision at_ (u64 (sequence + 1)) bindings;
    mret (prepared_entry id sequence descriptor BoundaryToolResult (ri_id r) (call_RunID call) (call_StepID call) nextStep
            (call_MessageID call) (call_ID call) (fp_Digest fingerprint) revision at_ :: entries, sequence')
  end.

Definition pending_call (s : Snapshot) (id : string) : bool :=
  existsb (fun e => bool_decide (je_Status e = JournalPending) && match je_ToolCall e with Some c => String.eqb (call_ID c) id | None => false end)
    (sn_RunJournal s).

(** Only results of calls that crossed the execution boundary are shown. *)
Definition reservable (s : Snapshot) (call : ToolCall) (result : ToolResult) : bool :=
  pending_call s (call_ID call) && String.eqb (res_CallID result) (call_ID call) &&
  (bool_decide (res_Status result = ResultSucceeded) || bool_decide (res_Status result = ResultFailed)).

Fixpoint reserve_batch (e : environment) (s : Snapshot) (nextStep : string) (revision : Z) (at_ : Time) (sequence : Z) (batch : list (ToolCall * ToolResult))
    : M (list toolResultHookOccurrence) :=
  match batch with
  | [] => mret []
  | (call, result) :: batch =>
    let bindings := matchingToolResultHooks c (call_Name call) (res_Status result) in
    if negb (reservable s call result) || Nat.eqb (length bindings) 0 then reserve_batch e s nextStep revision at_ sequence batch
    else
      '(entries, sequence) ← reserve_results e call result nextStep revision at_ sequence bindings;
      rest ← reserve_batch e s nextStep revision at_ sequence batch;
      mret (MkResultOccurrence call result nextStep bindings entries :: rest)
  end.
Definition appendToolResultReservations (e : environment) (s : Snapshot) (calls : list ToolCall) (results : list ToolResult) (nextStep : string) (revision : Z)
    : M (list toolResultHookOccurrence * list Change) :=
  match rc_toolResultHooks c with
  | [] => mret ([], [])
  | _ =>
    fail_if (negb (Nat.eqb (length calls) (length results)) || negb (ID_Valid nextStep) || Z.eqb revision 0)
      (NewError ErrorInternal "standardagent.tool_result_hook" (plain "tool result reservation input is invalid") None) ;;
    at_ ← now e;
    occurrences ← reserve_batch e s nextStep revision at_ (u64 (Z.of_nat (length (sn_ExtensionJournal s)) + 1)) (zip calls results);
    mret (occurrences, UpdateExtensionJournal_ <$> concat (map ro_entries occurrences))
  end.

End Reservations.

Section RuntimeRun.
Context {J : JsonOps} {F : Fingerprints} {R : RequestFingerprint} {K : CursorCodec} {V : ViewFingerprints} (c : runtimeComponents).

(** [r.active != run || run.cancelRequested || r.closing] *)
Definition run_stopped (k : nat) : M bool :=
  r ← self;
  if negb (is_active r k) then mret true
  else a ← get_run k; mret (ar_cancelRequested a || ri_closing r).

(** ** Tool executions *)
Definition markToolExecuting (e : environment) (k : nat) (call : ToolCall) : M unit :=
  stopped ← run_stopped k;
  fail_if stopped context_Canceled ;;
  snapshot ← viewLocked Live;
  commitLocked e Live (sn_Revision snapshot) "tool-executing"
    [UpdateRunJournal_ (MkJournalEntry (call_RunID call) (call_StepID call) (Some call) None JournalPending)] ;;
  mret tt.

(** ** Model attempts *)
Definition recordRunLimitExceededLocked (e : environment) (s : Snapshot) (fact : RunLimitExceededFact) : M unit :=
  commitLocked e Live (sn_Revision s) "run-limit" [AppendRunLimitExceeded_ fact] ;; mret tt.

(** Whether the limit was exceeded; the fact about it is committed. *)
Definition recordModelAttemptLimitLocked (e : environment) (k : nat) (step attemptID : string) : M bool :=
  a ← get_run k;
  let maximum := rc_MaxModelAttemptsPerRun c in
  if Z.leb maximum 0 || Z.ltb (ar_modelAttempts a) maximum then mret false
  else
    snapshot ← viewLocked Live;
    recordRunLimitExceededLocked e snapshot
      (MkRunLimitExceededFact (ar_id a) step RunLimitModelAttempts (ar_modelAttempts a) maximum 1 attemptID "") ;;
    mret true.

(** [Started] up to the attempt observers: the identity they are shown. *)
Definition attempt_admitted (e : environment) (k : nat) (step : string) (started : AttemptStart) : M AttemptIdentity :=
  lift (AttemptStart_Validate started) ;;
  stopped ← run_stopped k;
  fail_if stopped context_Canceled ;;
  a ← get_run k;
  fail_if (negb (String.eqb (ats_ProviderKey started) (cfg_ProviderKey (ar_config a))) || negb (String.eqb (ats_ModelID started) (cfg_ModelID (ar_config a))))
    (NewError ErrorInvalidInput "standardagent.model_attempt" (plain "Executor attempt does not match the frozen Run model") None) ;;
  exceeded ← recordModelAttemptLimitLocked e k step (ats_AttemptID started);
  fail_if exceeded modelAttemptLimitError ;;
  sessionID ← gets ri_id;
  mret (MkAttemptIdentity sessionID (ar_id a) step (ats_AttemptID started) (ar_configRevision a) (ar_config a)).

(** [Started] after the observers accepted: the durable start. *)
Definition attempt_started (e : environment) (k : nat) (step : string) (started : AttemptStart) : M unit :=
  stopped ← run_stopped k;
  fail_if stopped context_Canceled ;;
  exceeded ← recordModelAttemptLimitLocked e k step (ats_AttemptID started);
  fail_if exceeded modelAttemptLimitError ;;
  snapshot ← viewLocked Live;
  a ← get_run k;
  commitLocked e Live (sn_Revision snapshot) "attempt-start"
    [AppendModelAttempt_ (MkModelAttemptFact (ats_AttemptID started) (ar_id a) step AttemptStarted (ats_ProviderKey started) (ats_ModelID started)
       "" no_usage "" "")] ;;
  update_run k (fun a => with_counters a (ar_usedTokens a) (i64 (ar_modelAttempts a + 1)) (ar_toolCalls a)) ;;
  signalPrepared k.

(** [compensateAttemptStart]: the accepted observers are told, last first;
    [failure] is what telling each of them returned. *)
Definition compensateAttemptStart (failures : list (option error)) (cause : error) : error :=
  foldl (fun cause failure =>
    match failure with
    | Some err => ErrJoin [cause; ErrWrap err "standardagent: compensate accepted attempt observer: %w" []]
    | None => cause
    end) cause (rev failures).

Definition attempt_kind (o : AttemptOutcome) : ModelAttemptKind :=
  match o with ModelStream.OutcomeSucceeded => AttemptSucceeded | ModelStream.OutcomeCanceled => AttemptCanceled | _ => AttemptFailed end.

(** [Finished] after the observers; [observerErr] is what they returned. *)
Definition attempt_finished (e : environment) (k : nat) (step : string) (finished : AttemptFinish) (observerErr : option error) : M unit :=
  lift (AttemptFinish_Validate finished) ;;
  r ← self;
  fail_if (negb (is_active r k)) context_Canceled ;;
  a ← get_run k;
  let joined err := match observerErr with Some o => ErrJoin [o; err] | None => ErrJoin [err] end in
  out ← catch (
    snapshot ← viewLocked Live;
    commitLocked e Live (sn_Revision snapshot) "attempt-finish"
      [AppendModelAttempt_ (MkModelAttemptFact (atf_AttemptID finished) (ar_id a) step (attempt_kind (atf_Outcome finished))
         (cfg_ProviderKey (ar_config a)) (cfg_ModelID (ar_config a)) (atf_ProviderRequestID finished) (atf_Usage finished)
         (atf_ErrorCode finished) (atf_ErrorMessage finished))]);
  match out with
  | inr err => fail (joined err)
  | inl _ =>
    update_run k (fun a => with_counters a (i64 (ar_usedTokens a + use_TotalTokens (atf_Usage finished))) (ar_modelAttempts a) (ar_toolCalls a)) ;;
    match observerErr with Some err => fail err | None => mret tt end
  end.

(** ** Budgets *)
Definition runBudget (k : nat) : M TokenBudget :=
  a ← get_run k;
  mret (MkTokenBudget (rc_MaxTokensPerRun c) (ar_usedTokens a)).

Definition recordBudgetExceeded (e : environment) (k : nat) : M unit :=
  r ← self;
  fail_if (negb (is_active r k)) context_Canceled ;;
  a ← get_run k;
  fail_if (Z.leb (rc_MaxTokensPerRun c) 0 || Z.ltb (ar_usedTokens a) (rc_MaxTokensPerRun c))
    (NewError ErrorInternal "standardagent.run_budget" (plain "Executor reported an unexhausted Run budget") None) ;;
  snapshot ← viewLocked Live;
  commitLocked e Live (sn_Revision snapshot) "run-budget"
    [AppendRunBudgetExceeded_ (MkRunBudgetExceededFact (ar_id a) (ar_usedTokens a) (rc_MaxTokensPerRun c))] ;;
  mret tt.

(** ** The completion of a model step *)
Definition new_call (message : Message) (requested : ToolCallRequest) : M ToolCall :=
  id ← nextID "call";
  mret (MkToolCall id (tcr_CorrelationID requested) (msg_ID message) (msg_SessionID message) (msg_RunID message) (msg_StepID message)
          (tcr_Name requested) (tcr_Arguments requested)).

(** The calls, or [None] for a canceled run. *)
Definition commitCompletion (e : environment) (k : nat) (step messageID : string) (output : Completion) : M (option (list ToolCall)) :=
  stopped ← run_stopped k;
  if (stopped : bool) then mret None
  else
    snapshot ← viewLocked Live;
    a ← get_run k;
    r ← self;
    at_ ← now e;
    let continuation := if nonempty (cmp_Continuation output)
      then Some (MkModelContinuation (cfg_ProviderKey (ar_config a)) (cfg_ModelID (ar_config a)) (cmp_Continuation output)) else None in
    let assistant := MkMessage messageID "" (ri_id r) (ar_id a) step RoleAssistant (cmp_Parts output) continuation at_ in
    calls ← mapM_ (new_call assistant) (cmp_ToolCalls output);
    let maximum := rc_MaxToolCallsPerRun c in
    let requested := Z.of_nat (length calls) in
    if Z.ltb 0 maximum && Z.ltb (i64 (maximum - ar_toolCalls a)) requested then
      match calls with
      | [] => lift (Panic "index out of range")
      | first :: _ =>
        recordRunLimitExceededLocked e snapshot
          (MkRunLimitExceededFact (ar_id a) step RunLimitToolCalls (ar_toolCalls a) maximum requested "" (call_ID first)) ;;
        fail toolCallLimitError
      end
    else
      let sequence := u64 (Z.of_nat (length (sn_ExtensionJournal snapshot)) + 1) in
      changes ← completion_changes c e (ar_id a) step (Next (sn_Revision snapshot)) sequence calls;
      commitLocked e Live (sn_Revision snapshot) "model-complete" (AppendMessage_ assistant :: changes) ;;
      update_run k (fun a => with_counters a (ar_usedTokens a) (ar_modelAttempts a) (i64 (ar_toolCalls a + requested))) ;;
      mret (Some calls).

(** ** Tool results *)
Definition journal_status (s : ResultStatus) : JournalStatus :=
  match s with ResultSucceeded => JournalSucceeded | ResultUnknown => JournalOutcomeUnknown | _ => JournalFailed end.
Definition result_changes (call : ToolCall) (result : ToolResult) : list Change :=
  [AppendToolResult_ result;
   UpdateRunJournal_ (MkJournalEntry (call_RunID call) (call_StepID call) (Some call) (Some result) (journal_status (res_Status result)))].

(** [commitToolResults] up to the hooks: the next step, what was reserved for
    the hooks, and whether the run was canceled meanwhile; [None] when the run
    is no longer active. *)
Definition commitToolResults (e : environment) (k : nat) (calls : list ToolCall) (results : list ToolResult)
    : M (option (string * list toolResultHookOccurrence * bool)) :=
  r ← self;
  if negb (is_active r k) then mret None
  else
    a ← get_run k;
    snapshot ← viewLocked Live;
    if Nat.ltb (length calls) (length results) then lift (Panic "index out of range")
    else
      nextStep ← nextID "step";
      '(occurrences, reserved) ← appendToolResultReservations c e snapshot calls results nextStep (Next (sn_Revision snapshot));
      commitLocked e Live (sn_Revision snapshot) "tool-results"
        (concat (zip_with result_changes calls results) ++ reserved ++
         concat (map (fun item => appendInputConsumption snapshot item (ar_id a) nextStep) (pendingByDelivery (sn_Queue snapshot) DeliverySteer))) ;;
      mret (Some (nextStep, occurrences, ar_cancelRequested a || ri_closing r)).

(** ** Continuation with new input *)
Definition proposal_changes (e : environment) (s : Snapshot) (runID step : string) (parts : MessageInput) : M (list Change) :=
  id ← nextID "message";
  at_ ← now e;
  sessionID ← gets ri_id;
  let item := MkQueueItem (MkMessage id "" sessionID "" "" RoleUser parts None at_) DeliverySteer "" in
  mret (EnqueueMessage_ item :: appendInputConsumption s item runID step).

(** The end of [continueAfterCompletionOnce]: steers of the user, or else the
    proposals of the goal and of the hooks, start a step. *)
Inductive continuation := RunCanceledMeanwhile | NoContinuation | ContinueAt (step : string).
Definition followOn (e : environment) (k : nat) (proposals : list MessageInput) : M continuation :=
  stopped ← run_stopped k;
  if (stopped : bool) then mret RunCanceledMeanwhile
  else
    snapshot ← viewLocked Live;
    a ← get_run k;
    let steers := pendingByDelivery (sn_Queue snapshot) DeliverySteer in
    let proposals := match steers with [] => proposals | _ => [] end in
    match steers, proposals with
    | [], [] => mret NoContinuation
    | _, _ =>
      nextStep ← nextID "step";
      proposed ← mapM_ (proposal_changes e snapshot (ar_id a) nextStep) proposals;
      commitLocked e Live (sn_Revision snapshot) "follow-on"
        (concat (map (fun item => appendInputConsumption snapshot item (ar_id a) nextStep) steers) ++ concat proposed) ;;
      mret (ContinueAt nextStep)
    end.

(** ** The end of a run *)
Definition settled_run (sessionID : string) (a : activeRun) (s : Snapshot) : bool :=
  let runs := omap (fun f => r ← hf_Run f; if String.eqb (rf_RunID r) (ar_id a) then Some r else None) (sn_History s) in
  forallb (fun f => is_ok (HistoryFact_Validate f sessionID)) (sn_History s) &&
  forallb (fun f => Z.eqb (rf_ConfigRevision f) (ar_configRevision a) && sameRuntimeConfig (rf_ModelConfig f) (ar_config a)) runs &&
  Nat.eqb (length (List.filter is_started runs)) 1 && Nat.eqb (length (List.filter (fun f => negb (is_started f)) runs)) 1 &&
  forallb (fun e => is_ok (JournalEntry_Validate e sessionID) && negb (bool_decide (je_Status e = JournalPrepared)) &&
                    negb (bool_decide (je_Status e = JournalPending))) (sn_RunJournal s).
Definition recoveredRunIsSettled (s : Snapshot) (sessionID : string) (a : activeRun) : bool :=
  String.eqb (sess_ID (sn_Session s)) sessionID && bool_decide (sn_RunState s = RunIdle) && negb (ID_Valid (sn_ActiveRunID s)) &&
  settled_run sessionID a s.

Definition recoverAfterRunFailureLocked (e : environment) (k : nat) : M unit :=
  out ← catch (store_Recover e Live);
  a ← get_run k;
  update_run k with_canceled ;;
  close_done k ;;
  modify (fun r => set_active r None) ;;
  close_idleSignal ;;
  sessionID ← gets ri_id;
  match out with
  | inl snapshot =>
    if recoveredRunIsSettled snapshot sessionID a then
      modify (fun r => set_state (set_revision r (u64 (sn_Revision snapshot))) runtimeIdle)
    else modify (fun r => set_closing (set_state r runtimeClosed) true) ;; close_closeDone
  | inr _ => modify (fun r => set_closing (set_state r runtimeClosed) true) ;; close_closeDone
  end.

Definition terminal_kind (outcome : stepOutcome) (termination : option RunTermination) : RunFactKind :=
  match outcome with
  | stepNatural => RunCompleted
  | stepCanceled => RunCanceled
  | stepBudgetExceeded | stepWaiting => RunInterrupted
  | stepFailed =>
    match termination with
    | Some t => if bool_decide (term_Source t = TerminationExtension) then RunInterrupted else RunFailed
    | None => RunFailed
    end
  | _ => RunFailed
  end.
Definition terminal_termination (kind : RunFactKind) (termination : option RunTermination) : option RunTermination :=
  match kind, termination with
  | RunCompleted, _ => None
  | _, Some t => Some t
  | RunCanceled, None => Some canceledRunTermination
  | RunInterrupted, None => Some (fixedRunTermination TerminationRuntime ErrorUnavailable CodeRuntimeInterrupted)
  | _, None => Some (fixedRunTermination TerminationRuntime ErrorInternal CodeRuntimeFailed)
  end.

(** The run that follows, and the step it starts with. *)
Definition finishRun (e : environment) (k : nat) (outcome : stepOutcome) (termination : option RunTermination) : M (option (nat * string)) :=
  r ← self;
  if negb (is_active r k) then mret None
  else
    a ← get_run k;
    let stopped := ar_cancelRequested a || ri_closing r in
    let outcome := if stopped then stepCanceled else outcome in
    let termination := if stopped then Some canceledRunTermination else termination in
    let natural := bool_decide (outcome = stepNatural) in
    viewed ← catch (viewLocked Live);
    match viewed with
    | inr _ => recoverAfterRunFailureLocked e k ;; mret None
    | inl snapshot =>
      let held := if natural then [] else
        map (fun item => ReclassifyQueue_ (MkQueueReclassify (msg_ID (qi_Message item)) DeliveryHeld)) (pendingByDelivery (sn_Queue snapshot) DeliverySteer) in
      let kind := terminal_kind outcome termination in
      let ending := [AppendRunFact_ (MkRunFact (ri_id r) (ar_id a) kind (ar_config a) (ar_configRevision a) "" (terminal_termination kind termination));
                     SetRunState_ (MkRunStateChange (ar_id a) RunIdle)] in
      next ← (match (if natural && negb (ri_closing r) then firstPending (sn_Queue snapshot) DeliveryNormal else None) with
              | Some item => started ← startChangesLocked snapshot item false; mret (Some started)
              | None => mret None
              end);
      let actor :=
        if bool_decide (kind = RunCanceled) && ActorIdentity_Valid (ar_controlActor a) then ar_controlActor a
        else if bool_decide (kind = RunCompleted) then MkActorIdentity ActorAgent (sess_AgentID (sn_Session snapshot))
        else no_actor in
      let following := match next with Some (_, _, changes) => changes | None => [] end in
      committed ← catch (commitLockedAs e Live (sn_Revision snapshot) "run-finish" actor (held ++ ending ++ following));
      match committed with
      | inr _ => recoverAfterRunFailureLocked e k ;; mret None
      | inl _ =>
        update_run k with_canceled ;;
        close_done k ;;
        match next with
        | Some (run, step, _) =>
          k' ← gets (fun r => length (ri_runs r));
          modify (fun r => set_state (set_active (set_runs r (ri_runs r ++ [run])) (Some k')) runtimeRunning) ;;
          mret (Some (k', step))
        | None =>
          modify (fun r => set_state (set_active r None) runtimeIdle) ;;
          close_idleSignal ;;
          mret None
        end
      end
    end.

End RuntimeRun.
