(* ===== verification/RuntimeLifecycle.v ===== *)
(** * Opening and closing a Session runtime

    Models the opening of a runtime ([standardagent/runtime_lifecycle.go],
    [runtime_extension_recovery.go], [runtime_tool_result_recovery.go],
    [runtime_input_gate_recovery.go], [restorePreparedRun] of
    [runtime_execution.go]) and the beginning of an explicit close.

    While a runtime opens, its other commands are refused, so [finishOpen] is
    one computation; the lifecycle hooks are an oracle by position. *)

From S2P Require Import Prelude GoStrings AgentTypes ModelContracts SessionTypes ExtensionJournal.
From S2P Require Import SessionValidate SessionHistory SessionApply SessionRecover SessionCreate SessionStore SessionManager HookViews.
From S2P Require Import ToolDispatcher LoopProtocol RuntimeState RuntimeCommands RuntimeRun.

(** ** Entries *)

(** Assign status, times, result and effect of an entry; its context stays. *)
Definition with_outcome (e : ExtensionJournalEntry) (status : InvocationStatus) (pendingAt finishedAt : Time) (result : option InvocationResult)
    (code reason : string) (effect : EffectDisposition) : ExtensionJournalEntry :=
  MkExtensionJournalEntry (xe_InvocationID e) (xe_Sequence e) (xe_Descriptor e) (xe_Boundary e) (xe_SessionID e) (xe_RunID e) (xe_StepID e)
    (xe_TargetStepID e) (xe_MessageID e) (xe_ToolCallID e) (xe_GoalID e) (xe_GoalVersion e) (xe_LifecyclePhase e) (xe_LifecycleOpenKind e)
    (xe_InputDigest e) (xe_PreparedRevision e) (xe_PreparedAt e) pendingAt finishedAt status result code reason effect
    (xe_ContextDisposition e) (xe_ContextInputs e) (xe_ContextDigest e) (xe_ContextBytes e).
Definition with_effect (e : ExtensionJournalEntry) (effect : EffectDisposition) : ExtensionJournalEntry :=
  with_outcome e (xe_Status e) (xe_PendingAt e) (xe_FinishedAt e) (xe_Result e) (xe_ErrorCode e) (xe_ErrorReason e) effect.
Definition with_new_context (e : ExtensionJournalEntry) (inputs : list Input) (fingerprint : TypedInputFingerprint) : ExtensionJournalEntry :=
  MkExtensionJournalEntry (xe_InvocationID e) (xe_Sequence e) (xe_Descriptor e) (xe_Boundary e) (xe_SessionID e) (xe_RunID e) (xe_StepID e)
    (xe_TargetStepID e) (xe_MessageID e) (xe_ToolCallID e) (xe_GoalID e) (xe_GoalVersion e) (xe_LifecyclePhase e) (xe_LifecycleOpenKind e)
    (xe_InputDigest e) (xe_PreparedRevision e) (xe_PreparedAt e) (xe_PendingAt e) (xe_FinishedAt e) (xe_Status e) (xe_Result e) (xe_ErrorCode e)
    (xe_ErrorReason e) (xe_EffectDisposition e) ContextPending inputs (fp_Digest fingerprint) (fp_Bytes fingerprint).

(** [if t.Before(bound) { t = bound }] *)
Definition not_before (t bound : Time) : Time := if Before t bound then bound else t.
Definition started_entry (e : ExtensionJournalEntry) (at_ : Time) : ExtensionJournalEntry :=
  with_outcome e InvocationPending (not_before at_ (xe_PreparedAt e)) (xe_FinishedAt e) (xe_Result e) (xe_ErrorCode e) (xe_ErrorReason e) (xe_EffectDisposition e).
(** Discard a context that still waits. *)
Definition drop_context (e : ExtensionJournalEntry) : ExtensionJournalEntry :=
  if bool_decide (xe_ContextDisposition e = ContextPending) then with_entry_context e ContextDiscarded [] else e.

Definition extensionEntryByInvocation (entries : list ExtensionJournalEntry) (id : string) : option ExtensionJournalEntry :=
  List.find (fun e => String.eqb (xe_InvocationID e) id) entries.

(** ** The recovery plan *)
Record extensionRecoveryPlan := MkPlan {
  pl_lifecycle : list ExtensionJournalEntry; pl_inputGate : list ExtensionJournalEntry; pl_toolPreflight : list ExtensionJournalEntry;
  pl_toolResult : list ExtensionJournalEntry; pl_completion : list ExtensionJournalEntry }.
Definition entries_at (b : BoundaryKind) (s : Snapshot) : list ExtensionJournalEntry :=
  List.filter (fun e => bool_decide (xe_Boundary e = b)) (sn_ExtensionJournal s).
Definition planExtensionRecovery (s : Snapshot) : extensionRecoveryPlan :=
  MkPlan (entries_at BoundarySessionLifecycle s) (entries_at BoundaryInputGate s) (entries_at BoundaryToolPreflight s)
    (entries_at BoundaryToolResult s) (entries_at BoundaryCompletion s).
Definition extensionEntriesForRun (entries : list ExtensionJournalEntry) (runID : string) : list ExtensionJournalEntry :=
  List.filter (fun e => String.eqb (xe_RunID e) runID) entries.
Definition unsettledCompletionEntries (entries : list ExtensionJournalEntry) (runID : string) : list ExtensionJournalEntry :=
  List.filter (prepared_completion runID) entries.

Definition recover_lifecycle_entry (at_ : Time) (e : ExtensionJournalEntry) : option ExtensionJournalEntry :=
  let settled := match xe_Status e with
    | InvocationPrepared =>
      Some (with_outcome e InvocationCanceled (xe_PendingAt e) (not_before at_ (xe_PreparedAt e)) (xe_Result e) "session_lifecycle_recovery_canceled"
        "abandoned lifecycle invocation was canceled during recovery" EffectDiscarded)
    | InvocationPending =>
      Some (with_outcome e InvocationOutcomeUnknown (xe_PendingAt e) (not_before at_ (xe_PendingAt e)) (xe_Result e) "hook_outcome_unknown"
        "lifecycle outcome is unknown after process recovery" EffectDiscarded)
    | _ =>
      if negb (ModelContracts.Terminal (xe_Status e)) || negb (bool_decide (xe_EffectDisposition e = EffectPending)) then None
      else Some (with_effect e EffectDiscarded)
    end in
  (fun e => if negb (bool_decide (xe_EffectDisposition e = EffectApplied)) then drop_context e else e) <$> settled.

Definition recover_result_entry (at_ : Time) (e : ExtensionJournalEntry) : option ExtensionJournalEntry :=
  drop_context <$> match xe_Status e with
    | InvocationPrepared =>
      Some (with_outcome e InvocationCanceled (xe_PendingAt e) (not_before at_ (xe_PreparedAt e)) (xe_Result e) "tool_result_hook_recovery_canceled"
        (xe_ErrorReason e) EffectDiscarded)
    | InvocationPending =>
      Some (with_outcome e InvocationOutcomeUnknown (xe_PendingAt e) (not_before at_ (xe_PendingAt e)) (xe_Result e) "hook_outcome_unknown"
        "tool result hook outcome is unknown after recovery" EffectApplied)
    | status =>
      if negb (ModelContracts.Terminal status) || negb (bool_decide (xe_EffectDisposition e = EffectPending)) then None
      else Some (with_effect e (if bool_decide (status = InvocationSucceeded) then EffectDiscarded else EffectApplied))
    end.
Definition toolResultRecoveryChanges (entries : list ExtensionJournalEntry) (at_ : Time) : list Change :=
  UpdateExtensionJournal_ <$> omap (recover_result_entry at_) entries.

Definition unclaimed_message (s : Snapshot) (id : string) : bool :=
  existsb (fun item => negb (Claimed item) && String.eqb (msg_ID (qi_Message item)) id) (sn_Queue s).
(** The updates of one entry, in order. *)
Definition recover_gate_entry (s : Snapshot) (at_ : Time) (e : ExtensionJournalEntry) : list ExtensionJournalEntry :=
  match xe_Status e with
  | InvocationPrepared =>
    let failed := with_outcome e InvocationFailed (xe_PendingAt e) (not_before at_ (xe_PreparedAt e)) (xe_Result e) "extension_input_unavailable"
      "prepared input gate cannot be replayed without the original proposed input" EffectPending in
    [failed; with_effect failed EffectDiscarded]
  | InvocationPending =>
    let unknown := with_outcome e InvocationOutcomeUnknown (xe_PendingAt e) (not_before at_ (xe_PendingAt e)) (xe_Result e) "extension_outcome_unknown"
      "pending input gate outcome is unknown after recovery" EffectPending in
    [unknown; with_effect unknown EffectDiscarded]
  | status =>
    if negb (ModelContracts.Terminal status) then []
    else if bool_decide (xe_EffectDisposition e = EffectPending) then [drop_context (with_effect e EffectDiscarded)]
    else if bool_decide (xe_ContextDisposition e = ContextPending) then
      if unclaimed_message s (xe_MessageID e) then [] else [with_entry_context e ContextDiscarded []]
    else []
  end.
Definition inputGateRecoveryChanges (s : Snapshot) (entries : list ExtensionJournalEntry) (at_ : Time) : list Change :=
  UpdateExtensionJournal_ <$> concat (map (recover_gate_entry s at_) entries).

(** What a component of the product answers: a value, an error, perhaps with a
    declared [hook.InvocationFailure] in it, or a panic. *)
Inductive answer (A : Type) := Returned (a : A) | Failed_ (err : error) (declared : option InvocationFailure) | Panicked.
Arguments Returned {A} a. Arguments Failed_ {A} err declared. Arguments Panicked {A}.

Definition CodeExtensionFailed := "extension_failed".
Record lifecycleFailure := MkLifecycleFailure { lf_status : InvocationStatus; lf_code : string; lf_reason : string; lf_cause : option error }.

Definition valid_declared (declared : option InvocationFailure) : option InvocationFailure :=
  f ← declared; if is_ok (InvocationFailure_Validate f) then Some f else None.
Definition classifyLifecycleFailure (err : error) (declared : option InvocationFailure) : lifecycleFailure :=
  match valid_declared declared with
  | Some f => MkLifecycleFailure (if_Status f) (if_Code f) (if_Reason f) (Some err)
  | None =>
    if errors_Is err "context canceled" then MkLifecycleFailure InvocationCanceled CodeCanceled "session lifecycle component was canceled" (Some err)
    else MkLifecycleFailure InvocationFailed CodeExtensionFailed "session lifecycle component failed" (Some err)
  end.

(** ** Lifecycle hooks *)
Record sessionLifecycleOccurrence := MkLifecycleOccurrence {
  lo_phase : LifecyclePhase; lo_kind : OpenKind; lo_actor : ActorIdentity; lo_entries : list ExtensionJournalEntry; lo_views : list SessionLifecycleView }.
Definition with_lifecycle_entries (o : sessionLifecycleOccurrence) (entries : list ExtensionJournalEntry) : sessionLifecycleOccurrence :=
  MkLifecycleOccurrence (lo_phase o) (lo_kind o) (lo_actor o) entries (lo_views o).

Definition matchingSessionLifecycles (c : runtimeComponents) (phase : LifecyclePhase) : list ExtensionDescriptor :=
  snd <$> List.filter (fun b => LifecycleScope_Matches b.1 phase) (rc_sessionLifecycles c).

Definition discardSupersededLifecycleContexts (s : Snapshot) (o : sessionLifecycleOccurrence) (succeeded : list ExtensionJournalEntry) : list Change :=
  let replaces (e : ExtensionJournalEntry) := existsb (fun p => bool_decide (xe_ContextDisposition p = ContextPending) &&
    String.eqb (ext_Key (xe_Descriptor p)) (ext_Key (xe_Descriptor e))) succeeded in
  map (fun e => UpdateExtensionJournal_ (with_entry_context e ContextDiscarded []))
    (List.filter (fun e => bool_decide (xe_Boundary e = BoundarySessionLifecycle) && bool_decide (xe_LifecyclePhase e = LifecycleOpen) &&
        bool_decide (xe_ContextDisposition e = ContextPending) && absent (extensionEntryByInvocation (lo_entries o) (xe_InvocationID e)) && replaces e)
      (sn_ExtensionJournal s)).

Section RuntimeLifecycle.
Context {J : JsonOps} {F : Fingerprints} {R : RequestFingerprint} {K : CursorCodec} {V : ViewFingerprints} (c : runtimeComponents).

Definition lifecycle_error (message : string) (cause : option error) : error :=
  NewError ErrorInternal "standardagent.session_lifecycle" (plain message) cause.

(** The loop of [prepareSessionLifecycle] over the bindings. *)
Fixpoint prepare_lifecycles (s : Snapshot) (phase : LifecyclePhase) (kind : OpenKind) (at_ : Time) (index : nat) (descriptors : list ExtensionDescriptor)
    : M (list (ExtensionJournalEntry * SessionLifecycleView)) :=
  match descriptors with
  | [] => mret []
  | descriptor :: descriptors =>
    id ← nextID "lifecycle";
    r ← self;
    let revision := Next (sn_Revision s) in
    let view := MkLifecycleView id (ri_id r) (ri_agentID r) (ri_workspaceID r) revision phase kind in
    lift (map_err (fun err => lifecycle_error "Runtime constructed an invalid lifecycle view" (Some err)) (SessionLifecycleView_Validate view)) ;;
    fingerprint ← lift (fingerprint_of (FingerprintView (LifecycleView view)));
    let entry := MkExtensionJournalEntry id (u64 (Z.of_nat (length (sn_ExtensionJournal s) + index) + 1)) descriptor BoundarySessionLifecycle (ri_id r)
      "" "" "" "" "" "" 0 phase kind (fp_Digest fingerprint) revision at_ 0 0 InvocationPrepared None "" "" EffectNone ContextNone [] "" 0 in
    rest ← prepare_lifecycles s phase kind at_ (S index) descriptors;
    mret ((entry, view) :: rest)
  end.

Definition prepareSessionLifecycle (e : environment) (s : Snapshot) (phase : LifecyclePhase) (kind : OpenKind) (actor : ActorIdentity)
    : M (option sessionLifecycleOccurrence) :=
  match matchingSessionLifecycles c phase with
  | [] => mret None
  | descriptors =>
    at_ ← now e;
    prepared ← prepare_lifecycles s phase kind at_ 0 descriptors;
    commitLockedAs e Live (sn_Revision s) "session-lifecycle-prepare" actor (UpdateExtensionJournal_ <$> prepared.*1) ;;
    mret (Some (MkLifecycleOccurrence phase kind actor prepared.*1 prepared.*2))
  end.

Definition commitLifecycleEntries (e : environment) (actor : ActorIdentity) (operation : string) (entries : list ExtensionJournalEntry) : M unit :=
  snapshot ← viewLocked Live;
  commitLockedAs e Live (sn_Revision snapshot) operation actor (UpdateExtensionJournal_ <$> entries) ;;
  mret tt.

(** The updates of [finalizeSessionLifecycle] for the entry at [index]. *)
Definition finalize_entry (s : Snapshot) (at_ : Time) (succeeded : nat) (failedIndex : option nat) (index : nat) (entry : ExtensionJournalEntry)
    : list ExtensionJournalEntry :=
  if Nat.ltb index succeeded then
    let terminal := match extensionEntryByInvocation (sn_ExtensionJournal s) (xe_InvocationID entry) with
      | Some current => if bool_decide (xe_Status current = InvocationPending) then [entry] else []
      | None => []
      end in
    terminal ++ [if absent failedIndex then with_effect entry EffectApplied else drop_context (with_effect entry EffectDiscarded)]
  else if bool_decide (failedIndex = Some index) then [entry; with_effect entry EffectApplied]
  else
    [with_outcome entry InvocationCanceled (xe_PendingAt entry) (not_before at_ (xe_PreparedAt entry)) (xe_Result entry) "session_lifecycle_chain_stopped"
       "earlier lifecycle component stopped the chain" EffectDiscarded].

(** [failedIndex] is [None] when every hook succeeded.  The code returns the
    failure as an error, also the empty one, and its callers look for it. *)
Definition finalizeSessionLifecycle (e : environment) (o : sessionLifecycleOccurrence) (succeeded : list ExtensionJournalEntry)
    (failed : option (nat * lifecycleFailure)) : M (option lifecycleFailure) :=
  snapshot ← viewLocked Live;
  at_ ← now e;
  let superseded := if absent failed && bool_decide (lo_phase o = LifecycleOpen) then discardSupersededLifecycleContexts snapshot o succeeded else [] in
  let updates := concat (imap (finalize_entry snapshot at_ (length succeeded) (fst <$> failed)) (lo_entries o)) in
  let changes := superseded ++ (UpdateExtensionJournal_ <$> updates) in
  match changes with
  | [] => mret (snd <$> failed)
  | _ =>
    commitLockedAs e Live (sn_Revision snapshot) "session-lifecycle-apply" (lo_actor o) changes ;;
    mret (snd <$> failed)
  end.

Definition mismatch (cause : option error) : lifecycleFailure :=
  MkLifecycleFailure InvocationFailed "session_lifecycle_definition_mismatch"
    "prepared lifecycle invocation does not match the current application" cause.

(** What one hook made of its invocation: its terminal entry, or a failure. *)
Definition lifecycle_outcome (at_ : Time) (entry : ExtensionJournalEntry) (view : SessionLifecycleView) (a : answer SessionLifecycleResult)
    : result (ExtensionJournalEntry * option lifecycleFailure) :=
  let finishedAt := not_before at_ (xe_PendingAt entry) in
  let failed f := Ok (with_outcome entry (lf_status f) (xe_PendingAt entry) finishedAt (xe_Result entry) (lf_code f) (lf_reason f) EffectPending, Some f) in
  match a with
  | Panicked => failed (classifyLifecycleFailure (ErrNew "session lifecycle component panicked") None)
  | Failed_ err declared => failed (classifyLifecycleFailure err declared)
  | Returned r =>
    match SessionLifecycleResult_Validate r view with
    | Ok _ =>
      let terminal := with_outcome entry InvocationSucceeded (xe_PendingAt entry) finishedAt (Some (MkInvocationResult DecisionNone ""))
        (xe_ErrorCode entry) (xe_ErrorReason entry) EffectPending in
      match slr_Context r with
      | [] => Ok (terminal, None)
      | inputs =>
        fingerprint ← fingerprint_of (FingerprintTypedInput inputs);
        Ok (with_new_context terminal inputs fingerprint, None)
      end
    | Err err => failed (MkLifecycleFailure InvocationFailed CodeExtensionFailed "lifecycle component returned an invalid result" (Some err))
    | Panic msg => Panic msg
    end
  end.

(** The chain from [index] on; [rest] are its remaining hooks, the first of
    them already pending. *)
Fixpoint lifecycle_chain (e : environment) (evaluate : nat -> SessionLifecycleView -> answer SessionLifecycleResult) (o : sessionLifecycleOccurrence)
    (succeeded : list ExtensionJournalEntry) (index : nat) (rest : list (ExtensionDescriptor * SessionLifecycleView)) : M (option lifecycleFailure) :=
  match rest with
  | [] => mret None
  | (descriptor, view) :: rest =>
    match lo_entries o !! index with
    | None => lift (Panic "index out of range")
    | Some entry =>
      let fingerprint := FingerprintView (LifecycleView view) in
      if match fingerprint with Some f => negb (String.eqb (fp_Digest f) (xe_InputDigest entry)) || negb (bool_decide (descriptor = xe_Descriptor entry))
         | None => true end
      then finalizeSessionLifecycle e o succeeded (Some (index, mismatch (match fingerprint with Some _ => None | None => Some not_encodable end)))
      else
        at_ ← now e;
        '(terminal, failure) ← lift (lifecycle_outcome at_ entry view (evaluate index view));
        let o := with_lifecycle_entries o (<[index := terminal]> (lo_entries o)) in
        match failure with
        | Some f => finalizeSessionLifecycle e o succeeded (Some (index, f))
        | None =>
          match rest with
          | [] => finalizeSessionLifecycle e o (succeeded ++ [terminal]) None
          | _ =>
            match lo_entries o !! S index with
            | None => lift (Panic "index out of range")
            | Some next =>
              let next := started_entry next at_ in
              commitLifecycleEntries e (lo_actor o) "session-lifecycle-terminal" [terminal; next] ;;
              lifecycle_chain e evaluate (with_lifecycle_entries o (<[S index := next]> (lo_entries o))) (succeeded ++ [terminal]) (S index) rest
            end
          end
        end
    end
  end.

Definition executeSessionLifecycle (e : environment) (evaluate : nat -> SessionLifecycleView -> answer SessionLifecycleResult) (o : sessionLifecycleOccurrence)
    : M (option lifecycleFailure) :=
  let descriptors := matchingSessionLifecycles c (lo_phase o) in
  match lo_entries o with
  | [] => mret None
  | first :: others =>
    at_ ← now e;
    if negb (Nat.eqb (length descriptors) (length (lo_entries o))) then
      let f := MkLifecycleFailure InvocationFailed "session_lifecycle_definition_mismatch" "lifecycle definition changed before execution" None in
      let entry := with_outcome first InvocationFailed (xe_PendingAt first) (not_before at_ (xe_PreparedAt first)) (xe_Result first) (lf_code f)
        "lifecycle definition changed before execution" EffectPending in
      finalizeSessionLifecycle e (with_lifecycle_entries o (entry :: others)) [] (Some (0, f))
    else
      let first := started_entry first at_ in
      commitLifecycleEntries e (lo_actor o) "session-lifecycle-pending" [first] ;;
      lifecycle_chain e evaluate (with_lifecycle_entries o (first :: others)) [] 0 (zip descriptors (lo_views o))
  end.

(** ** Recovery when a runtime opens *)
Definition recoverSessionLifecycleEntries (e : environment) (s : Snapshot) (entries : list ExtensionJournalEntry) : M Snapshot :=
  at_ ← now e;
  match omap (recover_lifecycle_entry at_) entries with
  | [] => mret s
  | updates =>
    commitLocked e Live (sn_Revision s) "session-lifecycle-recovery" (UpdateExtensionJournal_ <$> updates) ;;
    session_View Live
  end.

Definition recoverExtensionsAfterOpen (e : environment) (s : Snapshot) (plan : extensionRecoveryPlan) : M Snapshot :=
  at_ ← now e;
  match inputGateRecoveryChanges s (pl_inputGate plan) at_ ++ toolResultRecoveryChanges (pl_toolResult plan) at_ with
  | [] => mret s
  | changes =>
    commitLocked e Live (sn_Revision s) "extension-recovery-after-open" changes ;;
    session_View Live
  end.

(** ** Restoring a run *)
Definition prepared_calls (s : Snapshot) : list (string * ToolCall) :=
  omap (fun e => call ← je_ToolCall e;
    if bool_decide (je_Status e = JournalPrepared) && String.eqb (je_RunID e) (sn_ActiveRunID s) then Some (je_StepID e, call) else None) (sn_RunJournal s).
(** The step of the prepared calls; [step.Valid() && step != entry.StepID] is an
    error. *)
Definition prepared_step (calls : list (string * ToolCall)) : result string :=
  foldM (fun step entry =>
    reject_if (ID_Valid step && negb (String.eqb step entry.1))
      (NewError ErrorInternal "standardagent.restore" (plain "prepared ToolCalls span multiple steps") None) ;;
    Ok entry.1) calls "".

(** The counters of a run in its history. *)
Definition attempts_of (runID : string) (h : list HistoryFact) : list ModelAttemptFact :=
  omap (fun f => a ← hf_ModelAttempt f; if String.eqb (ma_RunID a) runID then Some a else None) h.
Definition restored_tokens (runID : string) (h : list HistoryFact) : Z :=
  foldl (fun n a => if is_attempt_start a then n else i64 (n + use_TotalTokens (ma_Usage a))) 0%Z (attempts_of runID h).
Definition restored_attempts (runID : string) (h : list HistoryFact) : Z :=
  foldl (fun n a => if is_attempt_start a then i64 (n + 1) else n) 0%Z (attempts_of runID h).
Definition restored_calls (runID : string) (h : list HistoryFact) : Z :=
  foldl (fun n f => match hf_ToolCall f with Some call => if String.eqb (call_RunID call) runID then i64 (n + 1) else n | None => n end) 0%Z h.
Definition persisted_termination (runID : string) (h : list HistoryFact) : option RunTermination :=
  foldl (fun t f =>
    let t := match hf_RunBudgetExceeded f with
      | Some b => if String.eqb (rb_RunID b) runID then Some budgetRunTermination else t | None => t end in
    match hf_RunLimitExceeded f with
    | Some l => if String.eqb (rl_RunID l) runID then Some (runLimitTermination (runLimitCode (rl_Kind l))) else t | None => t end) None h.

(** What the goroutine of a restored run does first. *)
Inductive resumption :=
  | NothingToResume
  | ResumeFinish (run : nat) (termination : RunTermination)
  | ResumeCompletion (run : nat) (s : Snapshot) (entries : list ExtensionJournalEntry)
  | ResumeTools (run : nat) (step : string) (calls : list ToolCall).

Definition restore_error (message : string) : error := NewError ErrorInternal "standardagent.restore" (plain message) None.

Definition restored_run (s : Snapshot) (started : RunFact) (preflights : list ExtensionJournalEntry) : activeRun :=
  let runID := sn_ActiveRunID s in
  MkActiveRun runID (rf_ModelConfig started) (rf_ConfigRevision started) false true false None
    (restored_tokens runID (sn_History s)) (restored_attempts runID (sn_History s)) (restored_calls runID (sn_History s)) no_actor
    (Some (extensionEntriesForRun preflights runID)).

Definition activate_prepared (s : Snapshot) (run : activeRun) : M nat :=
  k ← activateLocked run;
  update_run k (signal (sn_Revision s)) ;;
  mret k.

Definition restorePreparedRun (s : Snapshot) (plan : extensionRecoveryPlan) : M resumption :=
  if negb (bool_decide (sn_RunState s = RunRunning)) then mret NothingToResume
  else
    let runID := sn_ActiveRunID s in
    let prepared := prepared_calls s in
    step ← lift (prepared_step prepared);
    let calls := prepared.*2 in
    let completion := unsettledCompletionEntries (pl_completion plan) runID in
    let nocalls := Nat.eqb (length calls) 0 in
    let nocompletion := Nat.eqb (length completion) 0 in
    fail_if (negb nocalls && negb nocompletion) (restore_error "running Session has conflicting resumable work") ;;
    match (runFacts (sn_History s) runID).1 with
    | None => fail (restore_error "prepared Run has no RunStarted fact")
    | Some started =>
      let run := restored_run s started (pl_toolPreflight plan) in
      match persisted_termination runID (sn_History s) with
      | Some termination =>
        fail_if (negb nocalls || negb nocompletion) (restore_error "limited Run still has resumable work") ;;
        k ← activate_prepared s run;
        mret (ResumeFinish k termination)
      | None =>
        fail_if ((nocalls || negb (ID_Valid step)) && nocompletion) (restore_error "running Session has no resumable prepared ToolCall") ;;
        k ← activate_prepared s run;
        mret (if nocompletion then ResumeTools k step calls else ResumeCompletion k s completion)
      end
    end.

(** ** Opening *)
Definition finishOpen (e : environment) (evaluate : nat -> SessionLifecycleView -> answer SessionLifecycleResult) (kind : OpenKind) : M resumption :=
  fail_if (negb (OpenKind_Valid kind)) (lifecycle_error "Runtime received an invalid open kind" None) ;;
  snapshot ← session_View Live;
  let plan := planExtensionRecovery snapshot in
  snapshot ← recoverSessionLifecycleEntries e snapshot (pl_lifecycle plan);
  occurrence ← prepareSessionLifecycle e snapshot LifecycleOpen kind no_actor;
  match occurrence with
  | Some o => executeSessionLifecycle e evaluate o ;; mret tt
  | None => mret tt
  end ;;
  snapshot ← session_View Live;
  snapshot ← recoverExtensionsAfterOpen e snapshot plan;
  resumed ← restorePreparedRun snapshot plan;
  modify (fun r => if bool_decide (ri_state r = runtimeOpening) then set_state r runtimeIdle else r) ;;
  mret resumed.

(** [open]: once; afterwards [openDone] is closed, with the error if any. *)
Definition open (e : environment) (evaluate : nat -> SessionLifecycleView -> answer SessionLifecycleResult) (kind : OpenKind) : M resumption :=
  r ← self;
  if negb (ri_openDone r) then match ri_openErr r with Some err => fail err | None => mret NothingToResume end
  else
    out ← catch (finishOpen e evaluate kind);
    match out with
    | inl resumed => close_openDone None ;; mret resumed
    | inr err => close_openDone (Some err) ;; fail err
    end.
Definition abortOpen (cause : error) : M unit :=
  r ← self;
  if ri_openDone r then close_openDone (Some cause) else mret tt.

(** ** An explicit close

    The goroutine [finishClose] gets the prepared hooks. *)
Definition beginClose (e : environment) (request : ControlRequest) : M (option sessionLifecycleOccurrence) :=
  r ← self;
  fail_if (negb (String.eqb (ctl_SessionID request) (ri_id r))) (invalidInput "gateway.close_session" "SessionID is required") ;;
  ensureOpenLocked "gateway.close_session" ;;
  snapshot ← viewLocked (en_ctx e);
  check_revision "gateway.close_session" (ctl_ExpectedRevision request) snapshot ;;
  match ri_active r with
  | Some k => set_controlActor k (ctl_Actor request)
  | None => mret tt
  end ;;
  occurrence ← prepareSessionLifecycle e snapshot LifecycleClose (OpenOther "") (ctl_Actor request);
  startCloseLocked ;;
  mret occurrence.

End RuntimeLifecycle.
