(* ===== verification/RuntimeHooks.v ===== *)
(** * The hooks of a running step

    Models [standardagent/runtime_tool_preflight.go] and
    [runtime_tool_result.go]: how the preflights authorize a batch of tool
    calls and how the result hooks see their results.

    These functions take the mutex of the runtime several times and call the
    hooks without it.  They are programs: a tree of regions, each one
    computation under the mutex (or one atomic read), of invocations, and of
    questions to the other components.  Whatever else happens between two nodes
    is not part of the program. *)

From S2P Require Import ContextCompaction Goal.
From S2P Require Import Prelude GoStrings AgentTypes ModelContracts SessionTypes ExtensionJournal.
From S2P Require Import SessionValidate SessionHistory SessionApply SessionRecover SessionCreate SessionStore SessionManager HookViews ModelStream.
From S2P Require Import ToolDispatcher LoopProtocol RuntimeState RuntimeCommands RuntimeRun RuntimeLifecycle.

(** ** Questions

    What a run asks the components that the application supplies, with the type
    of their answer. *)
Record RunCompleteView := MkRunCompleteView {
  rcv_SessionID : string; rcv_RunID : string; rcv_Revision : Z; rcv_ModelConfig : Config; rcv_Messages : list Message }.
Record EvaluationRequest := MkEvaluationRequest {
  evr_Goal : Goal.Goal; evr_RunID : string; evr_StepID : string; evr_Revision : Z; evr_ModelConfig : Config; evr_Messages : list Message }.
Record ContextInput := MkContextInput { cin_SessionID : string; cin_Revision : Z; cin_Inputs : list Input; cin_Config : Config }.

(** [RecordingDecision] asks for what the goal store is going to answer to the
    decision that is recorded next.  A stream is its events and the error that
    [Recv] returns after them; there may be none. *)
Inductive question : Type -> Type :=
  | CurrentGoal (sessionID : string) : question (option Goal.Goal + error)
  | EvaluateGoal (request : EvaluationRequest) : question (Evaluation + error)
  | RecordingDecision : question (DecisionRecord -> option error)
  | BeforeRunComplete (hook : nat) (view : RunCompleteView) : question (list MessageInput + error)
  | Contribute (source : string) (input : ContextInput) : question (list Input + error)
  | Inspect_ (config : Config) : question (ExecutionCapabilities + error)
  | CountTokens_ (request : ModelRequest) : question (Z + error)
  | CompactInputs (input : CompactionInput) : question (CompactionOutput + error)
  | Execute_ (request : ModelRequest) : question (option (list ModelEvent * error) + error).

(** ** Programs

    [Q] is what the hooks of the boundary answer.  A [Crash] is a panic outside
    the regions. *)
Inductive prog (Q A : Type) : Type :=
  | Done (a : A)
  | Crash (message : string)
  | Region {B : Type} (m : M B) (k : B + error -> prog Q A)
  | Invoke (descriptor : ExtensionDescriptor) (view : hook_view) (k : answer Q -> prog Q A)
  | Ask {B : Type} (q : question B) (k : B -> prog Q A).
Arguments Done {Q A} a. Arguments Crash {Q A} message. Arguments Region {Q A B} m k. Arguments Invoke {Q A} descriptor view k.
Arguments Ask {Q A B} q k.

Fixpoint prog_bind {Q A B} (p : prog Q A) (f : A -> prog Q B) : prog Q B :=
  match p with
  | Done a => f a
  | Crash message => Crash message
  | Region m k => Region m (fun out => prog_bind (k out) f)
  | Invoke descriptor view k => Invoke descriptor view (fun a => prog_bind (k a) f)
  | Ask q k => Ask q (fun b => prog_bind (k b) f)
  end.
#[export] Instance prog_ret Q : MRet (prog Q) := fun A a => Done a.
#[export] Instance prog_mbind Q : MBind (prog Q) := fun A B f p => prog_bind p f.

Definition region {Q B} (m : M B) : prog Q (B + error) := Region m Done.
Definition invoke_hook {Q} (descriptor : ExtensionDescriptor) (view : hook_view) : prog Q (answer Q) := Invoke descriptor view Done.
Definition ask {Q B} (q : question B) : prog Q B := Ask q Done.
(** A read that cannot fail. *)
Definition read {Q B} (m : M B) : prog Q B :=
  Region m (fun out => match out with inl b => Done b | inr _ => Crash "unreachable" end).
Definition clock {Q} (e : environment) : prog Q Time := read (now e).
(** A field of a run, read without the mutex. *)
Definition run_field {B} (k : nat) (f : activeRun -> B) (absent : B) : M B :=
  gets (fun r => match ri_runs r !! k with Some a => f a | None => absent end).
Definition index_out_of_range : string := "index out of range".

(** ** Entries *)

(** [entry.Status, entry.FinishedAt = Canceled, at] with a discarded effect. *)
Definition canceled_entry (e : ExtensionJournalEntry) (at_ : Time) (code : string) : ExtensionJournalEntry :=
  with_outcome e InvocationCanceled (xe_PendingAt e) at_ (xe_Result e) code (xe_ErrorReason e) EffectDiscarded.
Definition unknown_entry (e : ExtensionJournalEntry) (at_ : Time) (code reason : string) : ExtensionJournalEntry :=
  with_outcome e InvocationOutcomeUnknown (xe_PendingAt e) (not_before at_ (xe_PendingAt e)) (xe_Result e) code reason EffectPending.
(** The effect of an entry that is not applied as part of its batch. *)
Definition settled_effect (e : ExtensionJournalEntry) : ExtensionJournalEntry :=
  with_effect e (if bool_decide (xe_Status e = InvocationSucceeded) then EffectDiscarded else EffectApplied).
Definition awaits_effect (e : ExtensionJournalEntry) : bool :=
  ModelContracts.Terminal (xe_Status e) && bool_decide (xe_EffectDisposition e = EffectPending).
Definition updates (entries : list ExtensionJournalEntry) : list Change := UpdateExtensionJournal_ <$> entries.

(** What becomes of an entry that is not invoked any more. *)
Definition settle_entry (at_ : Time) (drop : ExtensionJournalEntry -> ExtensionJournalEntry) (code : string) (x : ExtensionJournalEntry)
    : option ExtensionJournalEntry :=
  if bool_decide (xe_Status x = InvocationPrepared) then Some (canceled_entry x (not_before at_ (xe_PreparedAt x)) code)
  else if awaits_effect x then Some (drop (settled_effect x))
  else None.

(** The first entry of every invocation, as with a map [seen]. *)
Fixpoint first_of_each (seen : list string) (entries : list ExtensionJournalEntry) : list ExtensionJournalEntry :=
  match entries with
  | [] => []
  | entry :: entries =>
    if bool_decide (xe_InvocationID entry ∈ seen) then first_of_each seen entries
    else entry :: first_of_each (xe_InvocationID entry :: seen) entries
  end.

Section Hooks.
Context {J : JsonOps} {F : Fingerprints} {R : RequestFingerprint} {K : CursorCodec} {V : ViewFingerprints} (c : runtimeComponents).

(** [if r.active != run { return context.Canceled }] *)
Definition require_active (k : nat) : M unit :=
  r ← self;
  fail_if (negb (is_active r k)) context_Canceled.
(** also when the run is being canceled or the runtime closes *)
Definition require_running (k : nat) : M unit :=
  stopped ← run_stopped k;
  fail_if stopped context_Canceled.

(** ** Settling after a commit that failed

    What became of the pending invocations of the [selected] entries is unknown;
    then everything that is left is settled.  [drop] says what becomes of a
    context that waits. *)
Definition settle_snapshot (e : environment) (snapshot : Snapshot) (selected : ExtensionJournalEntry -> bool)
    (unknown : Time -> ExtensionJournalEntry -> ExtensionJournalEntry) (drop : ExtensionJournalEntry -> ExtensionJournalEntry)
    (code op_unknown op_settle : string) : M unit :=
  at_ ← now e;
  snapshot ← (match unknown at_ <$> List.filter (fun x => selected x && bool_decide (xe_Status x = InvocationPending)) (sn_ExtensionJournal snapshot) with
    | [] => mret snapshot
    | entries => commitLocked e Live (sn_Revision snapshot) op_unknown (updates entries) ;; viewLocked Live
    end);
  match omap (settle_entry at_ drop code) (List.filter selected (sn_ExtensionJournal snapshot)) with
  | [] => mret tt
  | entries => commitLocked e Live (sn_Revision snapshot) op_settle (updates entries) ;; mret tt
  end.

(** ** Tool preflights *)
(** What [evaluateToolPreflights] returns. *)
Inductive preflight_outcome :=
  | PreflightAuthorized (authorizations : list toolPreflightAuthorization)
  | PreflightFailed (failure : extensionFailure)
  | PreflightError (err : error).

Definition matchingToolPreflights (key : string) : list ExtensionDescriptor :=
  snd <$> List.filter (fun b => ToolScope_Matches b.1 key) (rc_toolPreflights c).

Definition toolPreflightView (r : runtimeInstance) (entry : ExtensionJournalEntry) (call : ToolCall) : ToolPreflightView :=
  MkToolPreflightView (xe_InvocationID entry) (ri_id r) (ri_agentID r) (ri_workspaceID r) (xe_PreparedRevision entry) (call_RunID call) (call_StepID call)
    (call_MessageID call) (call_ID call) (call_Name call) (call_Arguments call).

Definition reservation_mismatch (r : runtimeInstance) (call : ToolCall) (descriptor : ExtensionDescriptor) (entry : ExtensionJournalEntry) : bool :=
  negb (bool_decide (xe_Descriptor entry = descriptor)) || negb (String.eqb (xe_ToolCallID entry) (call_ID call)) ||
  negb (String.eqb (xe_RunID entry) (call_RunID call)) || negb (String.eqb (xe_StepID entry) (call_StepID call)) ||
  match FingerprintView (PreflightView (toolPreflightView r entry call)) with
  | Some f => negb (String.eqb (fp_Digest f) (xe_InputDigest entry))
  | None => true
  end.
(** [validateToolPreflightReservations]; its callers only look whether it fails. *)
Definition validateToolPreflightReservations (r : runtimeInstance) (call : ToolCall) (expected : list ExtensionDescriptor) (entries : list ExtensionJournalEntry) : bool :=
  Nat.eqb (length expected) (length entries) && forallb (fun p => negb (reservation_mismatch r call p.1 p.2)) (zip expected entries).

Definition toolPreflightSnapshot (k : nat) : M Snapshot :=
  require_running k ;;
  viewLocked Live.

Definition preflight_entry_of (callID : string) (entry : ExtensionJournalEntry) : bool :=
  bool_decide (xe_Boundary entry = BoundaryToolPreflight) && String.eqb (xe_ToolCallID entry) callID.
Definition supplement_conflict (message : string) : error := NewError ErrorConflict "standardagent.tool_preflight" (plain message) None.
Definition supplementToolPreflightReservations (e : environment) (k : nat) (call : ToolCall) (expected : list ExtensionDescriptor)
    : M (list ExtensionJournalEntry) :=
  require_running k ;;
  latest ← viewLocked Live;
  fail_if (existsb (preflight_entry_of (call_ID call)) (sn_ExtensionJournal latest))
    (supplement_conflict "partial ToolPreflight reservation set cannot be supplemented") ;;
  '(changes, _) ← appendToolPreflightReservations c e call (Next (sn_Revision latest)) (u64 (Z.of_nat (length (sn_ExtensionJournal latest)) + 1));
  fail_if (negb (Nat.eqb (length changes) (length expected)))
    (NewError ErrorInternal "standardagent.tool_preflight" (plain "ToolPreflight scope changed after assembly") None) ;;
  commitLocked e Live (sn_Revision latest) "tool-preflight-supplement" changes ;;
  updated ← viewLocked Live;
  mret (List.filter (preflight_entry_of (call_ID call)) (sn_ExtensionJournal updated)).

Definition commitToolPreflightEntries (e : environment) (k : nat) (operation : string) (entries : list ExtensionJournalEntry) : M unit :=
  match entries with
  | [] => mret tt
  | _ =>
    require_running k ;;
    snapshot ← viewLocked Live;
    commitLocked e Live (sn_Revision snapshot) operation (updates entries) ;;
    mret tt
  end.

Definition settleToolPreflightsAfterPersistenceError (e : environment) (k : nat) (code : string) : M unit :=
  require_active k ;;
  a ← get_run k;
  snapshot ← viewLocked Live;
  settle_snapshot e snapshot (fun x => bool_decide (xe_Boundary x = BoundaryToolPreflight) && String.eqb (xe_RunID x) (ar_id a))
    (fun at_ x => unknown_entry x at_ code "tool preflight persistence outcome is unknown") (fun x => x) code
    "tool-preflight-persistence-unknown" "tool-preflight-persistence-settle".

Definition outcome_error (out : unit + error) : option error := match out with inl _ => None | inr err => Some err end.

Notation preflights := (prog ToolPreflightResult).

Definition toolPreflightPersistenceFailure (e : environment) (k : nat) (cause : error) : preflights preflight_outcome :=
  out ← region (settleToolPreflightsAfterPersistenceError e k "tool_preflight_persistence_unknown");
  mret (match out with
        | inr settleErr => PreflightError (ErrJoin [cause; settleErr])
        | inl _ => PreflightFailed (MkExtensionFailure "hook_outcome_unknown" "tool preflight persistence outcome is unknown")
        end).

(** The clock is read for each entry, outside the mutex. *)
Fixpoint cancel_prepared (e : environment) (code : string) (entries : list ExtensionJournalEntry) : preflights (list ExtensionJournalEntry) :=
  match entries with
  | [] => mret []
  | entry :: entries =>
    if bool_decide (xe_Status entry = InvocationPrepared) then
      at_ ← clock e;
      rest ← cancel_prepared e code entries;
      mret (canceled_entry entry at_ code :: rest)
    else cancel_prepared e code entries
  end.
Definition cancelToolPreflightEntries (e : environment) (k : nat) (entries : list ExtensionJournalEntry) (code : string) : preflights (unit + error) :=
  canceled ← cancel_prepared e code entries;
  region (commitToolPreflightEntries e k "tool-preflight-canceled" canceled).

Definition finalizeToolPreflightEffects (e : environment) (k : nat) (entries : list ExtensionJournalEntry) (disposition : EffectDisposition)
    : preflights (unit + error) :=
  let waiting := List.filter (fun x => bool_decide (xe_Status x = InvocationSucceeded) && bool_decide (xe_EffectDisposition x = EffectPending)) entries in
  region (commitToolPreflightEntries e k "tool-preflight-effect" (map (fun x => with_effect x disposition) (first_of_each [] waiting))).

Fixpoint mismatch_updates (e : environment) (entries : list ExtensionJournalEntry) : preflights (list ExtensionJournalEntry) :=
  match entries with
  | [] => mret []
  | entry :: entries =>
    if bool_decide (xe_Status entry = InvocationPrepared) then
      at_ ← clock e;
      rest ← mismatch_updates e entries;
      mret (canceled_entry entry at_ "tool_preflight_definition_mismatch" :: rest)
    else
      rest ← mismatch_updates e entries;
      mret (if awaits_effect entry then settled_effect entry :: rest else rest)
  end.
Definition settleToolPreflightDefinitionMismatch (e : environment) (k : nat) (entries : list ExtensionJournalEntry) : preflights (unit + error) :=
  updates ← mismatch_updates e (first_of_each [] entries);
  region (commitToolPreflightEntries e k "tool-preflight-definition-mismatch" updates).

(** The entries of the batch by call; the slices of the code share them. *)
Definition entries_of (byCall : gmap string (list ExtensionJournalEntry)) (callID : string) : list ExtensionJournalEntry := default [] (byCall !! callID).
Definition remainingToolPreflightEntries (calls : list ToolCall) (byCall : gmap string (list ExtensionJournalEntry)) : list ExtensionJournalEntry :=
  concat (map (fun call => entries_of byCall (call_ID call)) calls).
Definition put_entry (byCall : gmap string (list ExtensionJournalEntry)) (callID : string) (i : nat) (entry : ExtensionJournalEntry)
    : gmap string (list ExtensionJournalEntry) := <[callID := <[i := entry]> (entries_of byCall callID)]> byCall.

Definition failToolPreflightBatch (e : environment) (k : nat) (failed : option ExtensionJournalEntry) (succeeded currentRemaining : list ExtensionJournalEntry)
    (futureCalls : list ToolCall) (byCall : gmap string (list ExtensionJournalEntry)) : preflights (unit + error) :=
  out ← finalizeToolPreflightEffects e k succeeded EffectDiscarded;
  match out with
  | inr err => mret (inr err)
  | inl _ =>
    out ← (match failed with
      | None => mret (inl tt)
      | Some failed =>
        if negb (InvocationID_Valid (xe_InvocationID failed)) then mret (inl tt)
        else
          out ← region (commitToolPreflightEntries e k "tool-preflight-failed" [failed]);
          match out with
          | inr err => mret (inr err)
          | inl _ => region (commitToolPreflightEntries e k "tool-preflight-failure-applied" [with_effect failed EffectApplied])
          end
      end);
    match out with
    | inr err => mret (inr err)
    | inl _ => cancelToolPreflightEntries e k (currentRemaining ++ remainingToolPreflightEntries futureCalls byCall) "tool_preflight_batch_aborted"
    end
  end.

Definition classifyToolPreflightFailure (declared : option InvocationFailure) : InvocationStatus * string * string :=
  match valid_declared declared with
  | Some f => (if_Status f, if_Code f, if_Reason f)
  | None => (InvocationFailed, "hook_preflight_failed", "tool preflight failed")
  end.

(** What the loop over the calls carries on. *)
Record preflight_state := MkPreflightState {
  ps_byCall : gmap string (list ExtensionJournalEntry); ps_succeeded : list ExtensionJournalEntry; ps_pipelined : list string }.

(** *** One call *)
Section Call.
Variables (e : environment) (k : nat) (call : ToolCall) (future : list ToolCall).

(** Cancel what follows entry [i] of the call, or fail to. *)
Definition short_circuit (s : preflight_state) (i : nat) (denied : toolPreflightAuthorization)
    : preflights (preflight_outcome + toolPreflightAuthorization * preflight_state) :=
  out ← cancelToolPreflightEntries e k (drop (S i) (entries_of (ps_byCall s) (call_ID call))) "tool_preflight_short_circuited";
  match out with
  | inr err => stop ← toolPreflightPersistenceFailure e k err; mret (inl stop)
  | inl _ => mret (inr (denied, s))
  end.

Definition abort_batch (s : preflight_state) (i : nat) (failed : option ExtensionJournalEntry) (code reason : string)
    : preflights (preflight_outcome + toolPreflightAuthorization * preflight_state) :=
  out ← failToolPreflightBatch e k failed (ps_succeeded s) (drop (S i) (entries_of (ps_byCall s) (call_ID call))) future (ps_byCall s);
  match out with
  | inr err => stop ← toolPreflightPersistenceFailure e k err; mret (inl stop)
  | inl _ => mret (inl (PreflightFailed (MkExtensionFailure code reason)))
  end.

(** An entry that ended before without an outcome to reuse. *)
Definition settled_before (s : preflight_state) (i : nat) (entry : ExtensionJournalEntry)
    : preflights (preflight_outcome + toolPreflightAuthorization * preflight_state) :=
  let '(_, code, reason) :=
    if negb (ModelContracts.Terminal (xe_Status entry)) || empty (xe_ErrorCode entry) then
      classifyToolPreflightFailure (Some (MkInvocationFailure InvocationOutcomeUnknown "hook_preflight_outcome_unknown" "tool preflight outcome is unknown" None))
    else (xe_Status entry, xe_ErrorCode entry, xe_ErrorReason entry) in
  out ← (if awaits_effect entry then region (commitToolPreflightEntries e k "tool-preflight-unknown-applied" [with_effect entry EffectApplied])
         else mret (inl tt));
  match out with
  | inr err => stop ← toolPreflightPersistenceFailure e k err; mret (inl stop)
  | inl _ => abort_batch s i None code reason
  end.

(** The entry after [i] becomes pending together with the end of entry [i]. *)
Definition pipeline_next (s : preflight_state) (i : nat) (decision : Decision_) : preflights (option ExtensionJournalEntry) :=
  match entries_of (ps_byCall s) (call_ID call) !! S i with
  | Some next =>
    if bool_decide (decision = DecisionDeny) then mret None
    else at_ ← clock e; mret (Some (started_entry next at_))
  | None => mret None
  end.

(** Start entry [i], if it is not pipelined, invoke its preflight and record
    the outcome. *)
Definition run_preflight (s : preflight_state) (auth : toolPreflightAuthorization) (i : nat) (descriptor : ExtensionDescriptor) (entry : ExtensionJournalEntry)
    : preflights (preflight_outcome + toolPreflightAuthorization * preflight_state) :=
  started ← (if bool_decide (xe_Status entry = InvocationPrepared) then
      at_ ← clock e;
      let pending := with_outcome entry InvocationPending at_ (xe_FinishedAt entry) (xe_Result entry) (xe_ErrorCode entry) (xe_ErrorReason entry)
        (xe_EffectDisposition entry) in
      out ← region (commitToolPreflightEntries e k "tool-preflight-pending" [pending]);
      match out with
      | inr err => mret (inr err)
      | inl _ => mret (inl (pending, MkPreflightState (put_entry (ps_byCall s) (call_ID call) i pending) (ps_succeeded s) (ps_pipelined s)))
      end
    else mret (inl (entry, s)));
  match started with
  | inr err => stop ← toolPreflightPersistenceFailure e k err; mret (inl stop)
  | inl (pending, s) =>
    r ← read self;
    answer ← invoke_hook descriptor (PreflightView (toolPreflightView r pending call));
    let returned := match answer with Returned result => if is_ok (ToolPreflightResult_Validate result) then Some result else None | _ => None end in
    match returned with
    | None =>
      let '(status, code, reason) := classifyToolPreflightFailure (match answer with Failed_ _ declared => declared | _ => None end) in
      at_ ← clock e;
      abort_batch s i (Some (with_outcome pending status (xe_PendingAt pending) at_ (xe_Result pending) code reason EffectPending)) code reason
    | Some result =>
      at_ ← clock e;
      let finished := with_outcome pending InvocationSucceeded (xe_PendingAt pending) at_
        (Some (MkInvocationResult (tpr_Decision result) (tpr_Reason result))) (xe_ErrorCode pending) (xe_ErrorReason pending) EffectPending in
      next ← pipeline_next s i (tpr_Decision result);
      let s := match next with
        | Some next => MkPreflightState (put_entry (ps_byCall s) (call_ID call) (S i) next) (ps_succeeded s) (xe_InvocationID next :: ps_pipelined s)
        | None => s
        end in
      out ← region (commitToolPreflightEntries e k "tool-preflight-finished" (finished :: option_list next));
      match out with
      | inr err => stop ← toolPreflightPersistenceFailure e k err; mret (inl stop)
      | inl _ =>
        let s := MkPreflightState (put_entry (ps_byCall s) (call_ID call) i finished) (ps_succeeded s ++ [finished]) (ps_pipelined s) in
        let auth := merge_preflight auth (xe_Result finished) in
        if bool_decide (tpr_Decision result = DecisionDeny) then short_circuit s i auth else mret (inr (auth, s))
      end
    end
  end.

(** The entries of the call from [i] on, each with the preflight expected there. *)
Fixpoint call_preflights (s : preflight_state) (auth : toolPreflightAuthorization) (i : nat) (expected : list ExtensionDescriptor)
    : preflights (preflight_outcome + toolPreflightAuthorization * preflight_state) :=
  match expected with
  | [] => mret (inr (auth, s))
  | descriptor :: expected =>
    match entries_of (ps_byCall s) (call_ID call) !! i with
    | None => Crash index_out_of_range
    | Some entry =>
      let reused (s : preflight_state) :=
        match xe_Result entry with
        | None => Crash dereference
        | Some result =>
          let auth := merge_preflight auth (Some result) in
          if bool_decide (inv_Decision result = DecisionDeny) then short_circuit s i auth else mret (inr (auth, s))
        end in
      out ← (if bool_decide (xe_Status entry = InvocationSucceeded) && bool_decide (xe_EffectDisposition entry = EffectApplied) then reused s
             else if bool_decide (xe_Status entry = InvocationSucceeded) && bool_decide (xe_EffectDisposition entry = EffectPending) then
               reused (MkPreflightState (ps_byCall s) (ps_succeeded s ++ [entry]) (ps_pipelined s))
             else if bool_decide (xe_Status entry = InvocationPrepared) ||
                     (bool_decide (xe_Status entry = InvocationPending) && bool_decide (xe_InvocationID entry ∈ ps_pipelined s)) then
               run_preflight s auth i descriptor entry
             else settled_before s i entry);
      match out with
      | inl stop => mret (inl stop)
      | inr (auth, s) => if pf_denied auth then mret (inr (auth, s)) else call_preflights s auth (S i) expected
      end
    end
  end.

End Call.

(** *** The batch *)
Section Batch.
Variables (ValidateArguments : InputSchema -> string -> bool) (d : toolDispatcher) (e : environment) (k : nat).

(** [if run.recoveredToolPreflights != nil]: taken once. *)
Definition take_recovered : M (option (list ExtensionJournalEntry)) :=
  entries ← run_field k ar_recoveredToolPreflights None;
  update_run k (fun a => with_recovered a None) ;;
  mret entries.

Fixpoint group_by_call (entries : list ExtensionJournalEntry) : gmap string (list ExtensionJournalEntry) :=
  match entries with
  | [] => ∅
  | entry :: entries => let m := group_by_call entries in <[xe_ToolCallID entry := entry :: entries_of m (xe_ToolCallID entry)]> m
  end.

(** One call of the batch: its authorization, or how the batch stops. *)
Definition batch_call (s : preflight_state) (call : ToolCall) (future : list ToolCall)
    : preflights (preflight_outcome + toolPreflightAuthorization * preflight_state) :=
  let expected := matchingToolPreflights (call_Name call) in
  let entries := entries_of (ps_byCall s) (call_ID call) in
  supplemented ← (if Nat.eqb (length entries) 0 && negb (Nat.eqb (length expected) 0) then
      out ← region (supplementToolPreflightReservations e k call expected);
      match out with
      | inr err => mret (inr err)
      | inl entries => mret (inl (entries, MkPreflightState (<[call_ID call := entries]> (ps_byCall s)) (ps_succeeded s) (ps_pipelined s)))
      end
    else mret (inl (entries, s)));
  match supplemented with
  | inr err => mret (inl (PreflightError err))
  | inl (entries, s) =>
    r ← read self;
    if negb (validateToolPreflightReservations r call expected entries) then
      out ← settleToolPreflightDefinitionMismatch e k (ps_succeeded s ++ remainingToolPreflightEntries (call :: future) (ps_byCall s));
      match out with
      | inr err => stop ← toolPreflightPersistenceFailure e k err; mret (inl stop)
      | inl _ => mret (inl (PreflightFailed (MkExtensionFailure "tool_preflight_definition_mismatch"
                              "prepared tool preflight definitions do not match the current application")))
      end
    else
      match validateCall ValidateArguments d call with
      | Some _ =>
        out ← cancelToolPreflightEntries e k entries "tool_preflight_not_applicable";
        match out with
        | inr err => stop ← toolPreflightPersistenceFailure e k err; mret (inl stop)
        | inl _ => mret (inr (no_preflight, s))
        end
      | None => call_preflights e k call future s no_preflight 0 expected
      end
  end.

Fixpoint batch_calls (s : preflight_state) (authorizations : list toolPreflightAuthorization) (calls : list ToolCall) : preflights preflight_outcome :=
  match calls with
  | [] =>
    out ← finalizeToolPreflightEffects e k (ps_succeeded s) EffectApplied;
    match out with
    | inr err => toolPreflightPersistenceFailure e k err
    | inl _ => mret (PreflightAuthorized authorizations)
    end
  | call :: calls =>
    out ← batch_call s call calls;
    match out with
    | inl stop => mret stop
    | inr (auth, s) => batch_calls s (authorizations ++ [auth]) calls
    end
  end.

Definition evaluateToolPreflights (calls : list ToolCall) : preflights preflight_outcome :=
  match rc_toolPreflights c with
  | [] => mret (PreflightAuthorized [])
  | _ =>
    viewed ← region (toolPreflightSnapshot k);
    match viewed with
    | inr err => mret (PreflightError err)
    | inl snapshot =>
      taken ← read take_recovered;
      runID ← read (run_field k ar_id "");
      let journal := default (sn_ExtensionJournal snapshot) taken in
      let own := List.filter (fun x => bool_decide (xe_Boundary x = BoundaryToolPreflight) && String.eqb (xe_RunID x) runID) journal in
      batch_calls (MkPreflightState (group_by_call own) [] []) [] calls
    end
  end.

End Batch.


(** ** Tool result hooks *)
Notation results := (prog ToolResultHookResult).

(** What an occurrence gives each of its hooks. *)
Record result_slot := MkResultSlot { rl_call : ToolCall; rl_result : ToolResult; rl_nextStep : string; rl_descriptor : ExtensionDescriptor }.
Definition slots_of (o : toolResultHookOccurrence) : list result_slot :=
  map (fun b => MkResultSlot (ro_call o) (ro_result o) (ro_nextStep o) b.2) (ro_bindings o).

Definition toolResultView (r : runtimeInstance) (invocationID : string) (revision : Z) (slot : result_slot) : ToolResultView :=
  let call := rl_call slot in
  MkToolResultView invocationID (ri_id r) (ri_agentID r) (ri_workspaceID r) revision (call_RunID call) (call_StepID call) (rl_nextStep slot)
    (call_MessageID call) (call_ID call) (call_Name call) (call_Arguments call) (rl_result slot).

Definition off_target (sessionID runID stepID : string) (input : Input) : bool :=
  match in_Message input with
  | None => true
  | Some m =>
    present (in_ToolCall input) || present (in_ToolResult input) || negb (String.eqb (msg_SessionID m) sessionID) ||
    negb (String.eqb (msg_RunID m) runID) || negb (String.eqb (msg_StepID m) stepID) || negb (bool_decide (msg_Role m = RoleUser))
  end.
Definition validateToolResultContextTarget (inputs : list Input) (sessionID runID stepID : string) : bool :=
  forallb (fun input => negb (off_target sessionID runID stepID input)) inputs.

Definition commitToolResultHookChanges (e : environment) (k : nat) (operation : string) (changes : list Change) : M unit :=
  match changes with
  | [] => mret tt
  | _ =>
    require_active k ;;
    snapshot ← viewLocked Live;
    commitLocked e Live (sn_Revision snapshot) operation changes ;;
    mret tt
  end.
Definition commitToolResultHookEntries (e : environment) (k : nat) (operation : string) (entries : list ExtensionJournalEntry) : M unit :=
  commitToolResultHookChanges e k operation (updates entries).

Definition finalizeToolResultHookEntries (entries : list ExtensionJournalEntry) (disposition : EffectDisposition) : list Change :=
  updates (map (fun x => drop_context (with_effect x disposition))
    (List.filter (fun x => bool_decide (xe_Status x = InvocationSucceeded) && bool_decide (xe_EffectDisposition x = EffectPending)) entries)).
(** The clock is read for each entry. *)
Fixpoint cancel_entries {Q} (e : environment) (code : string) (entries : list ExtensionJournalEntry) : prog Q (list Change) :=
  match entries with
  | [] => mret []
  | entry :: entries =>
    if bool_decide (xe_Status entry = InvocationPrepared) then
      at_ ← clock e;
      rest ← cancel_entries e code entries;
      mret (UpdateExtensionJournal_ (canceled_entry entry (not_before at_ (xe_PreparedAt entry)) code) :: rest)
    else cancel_entries e code entries
  end.
Definition cancelToolResultHookEntries {Q} := @cancel_entries Q.

Definition settleToolResultHooksAfterPersistenceError (e : environment) (k : nat) (ids : list string) (code : string) : M unit :=
  match ids with
  | [] => mret tt
  | _ =>
    require_active k ;;
    snapshot ← viewLocked Live;
    settle_snapshot e snapshot (fun x => bool_decide (xe_InvocationID x ∈ ids))
      (fun at_ x => unknown_entry x at_ code "tool result hook persistence outcome is unknown") drop_context code
      "tool-result-hook-persistence-unknown" "tool-result-hook-persistence-settle"
  end.

Definition consumeToolResultHookContexts (e : environment) (k : nat) (entries : list ExtensionJournalEntry) : M unit :=
  let consume entry :=
    let entry := with_effect entry EffectApplied in
    if bool_decide (xe_ContextDisposition entry = ContextPending) then consume_context entry (xe_ContextInputs entry) (xe_RunID entry) (xe_TargetStepID entry)
    else [UpdateExtensionJournal_ entry] in
  commitToolResultHookChanges e k "tool-result-hook-consume"
    (concat (map consume (List.filter (fun x => bool_decide (xe_Status x = InvocationSucceeded) && bool_decide (xe_EffectDisposition x = EffectPending)) entries))).

Definition classifyToolResultHookFailure (err : error) (declared : option InvocationFailure) : InvocationStatus * string * string :=
  match valid_declared declared with
  | Some f => (if_Status f, if_Code f, if_Reason f)
  | None =>
    if errors_Is err "context canceled" then (InvocationCanceled, CodeCanceled, "tool result hook was canceled")
    else (InvocationFailed, CodeExtensionFailed, "tool result hook failed")
  end.

(** The failure of an answer, if any. *)
Definition result_failure (sessionID runID stepID : string) (a : answer ToolResultHookResult) : (InvocationStatus * string * string) + ToolResultHookResult :=
  match a with
  | Panicked => inl (classifyToolResultHookFailure (ErrNew "tool result hook panicked") None)
  | Failed_ err declared => inl (classifyToolResultHookFailure err declared)
  | Returned result =>
    if negb (is_ok (ToolResultHookResult_Validate result sessionID)) || negb (validateToolResultContextTarget (thr_Context result) sessionID runID stepID) then
      inl (InvocationFailed, CodeExtensionFailed, "tool result hook returned invalid context")
    else inr result
  end.

(** [nil, canceled, err], or a failure. *)
Definition results_return : Type := option extensionFailure * bool * option error.

Section Results.
Variables (e : environment) (k : nat).

Definition run_canceled : M bool := run_field k ar_canceled false.

(** [errors.Join(err, settleErr)] after the invocations were settled. *)
Definition results_unsettled (entries : list ExtensionJournalEntry) (err : error) (canceled : bool) (code : string) : results results_return :=
  out ← region (settleToolResultHooksAfterPersistenceError e k (map xe_InvocationID entries) code);
  mret (None, canceled, Some (ErrJoin (err :: option_list (outcome_error out)))).

Definition settleToolResultHookAbort (succeeded remaining : list ExtensionJournalEntry) (code : string) : results (unit + error) :=
  canceled ← cancelToolResultHookEntries e code remaining;
  region (commitToolResultHookChanges e k "tool-result-hook-abort" (finalizeToolResultHookEntries succeeded EffectDiscarded ++ canceled)).
Definition settleToolResultHookFailure (succeeded : list ExtensionJournalEntry) (failed : ExtensionJournalEntry) (remaining : list ExtensionJournalEntry)
    : results (unit + error) :=
  canceled ← cancelToolResultHookEntries e "tool_result_hook_batch_aborted" remaining;
  region (commitToolResultHookChanges e k "tool-result-hook-failure"
    (finalizeToolResultHookEntries succeeded EffectDiscarded ++ [UpdateExtensionJournal_ (drop_context (with_effect failed EffectApplied))] ++ canceled)).

(** The run was canceled. *)
Definition results_canceled (entries succeeded remaining : list ExtensionJournalEntry) : results results_return :=
  out ← settleToolResultHookAbort succeeded remaining "tool_result_hook_canceled";
  match out with
  | inr err => results_unsettled entries err true "tool_result_hook_canceled"
  | inl _ => mret (None, true, None)
  end.

(** The terminal state of an invocation, with its context; [None] when the
    context cannot be encoded. *)
Definition result_terminal (pending : ExtensionJournalEntry) (at_ : Time) (outcome : (InvocationStatus * string * string) + ToolResultHookResult)
    : option ExtensionJournalEntry :=
  let finishedAt := not_before at_ (xe_PendingAt pending) in
  match outcome with
  | inl (status, code, reason) => Some (with_outcome pending status (xe_PendingAt pending) finishedAt (xe_Result pending) code reason EffectPending)
  | inr result =>
    let terminal := with_outcome pending InvocationSucceeded (xe_PendingAt pending) finishedAt (Some (MkInvocationResult DecisionNone ""))
      (xe_ErrorCode pending) (xe_ErrorReason pending) EffectPending in
    match thr_Context result with
    | [] => Some terminal
    | inputs => with_new_context terminal inputs <$> FingerprintTypedInput inputs
    end
  end.

(** The hook of entry [i], which is pending: its outcome is recorded, together
    with the start of the next one.  [inl] ends the loop. *)
Definition result_hook (entries succeeded : list ExtensionJournalEntry) (i : nat) (slot : result_slot) (pending : ExtensionJournalEntry) (view : ToolResultView)
    : results (results_return + list ExtensionJournalEntry * list ExtensionJournalEntry) :=
  answer ← invoke_hook (rl_descriptor slot) (ResultView view);
  r ← read self;
  runID ← read (run_field k ar_id "");
  let outcome := result_failure (ri_id r) runID (rl_nextStep slot) answer in
  at_ ← clock e;
  match result_terminal pending at_ outcome with
  | None => mret (inl (None, false, Some not_encodable))
  | Some terminal =>
    canceled ← read run_canceled;
    next ← (match outcome, entries !! S i with
      | inr _, Some next => if (canceled : bool) then mret None else at_ ← clock e; mret (Some (started_entry next at_))
      | _, _ => mret None
      end);
    let entries := match next with Some next => <[S i := next]> entries | None => entries end in
    out ← region (commitToolResultHookEntries e k "tool-result-hook-terminal" (terminal :: option_list next));
    match out with
    | inr err => stop ← results_unsettled entries err false "tool_result_hook_persistence_unknown"; mret (inl stop)
    | inl _ =>
      let entries := <[i := terminal]> entries in
      match outcome with
      | inr _ => mret (inr (entries, succeeded ++ [terminal]))
      | inl (_, code, reason) =>
        out ← settleToolResultHookFailure succeeded terminal (drop (S i) entries);
        match out with
        | inr err => stop ← results_unsettled entries err false "tool_result_hook_failure_commit_failed"; mret (inl stop)
        | inl _ =>
          canceled ← read run_canceled;
          mret (inl (if (canceled : bool) then (None, true, None) else (Some (MkExtensionFailure code reason), false, None)))
        end
      end
    end
  end.

(** Entry [i]: [inl] ends the loop. *)
Definition result_entry (entries succeeded : list ExtensionJournalEntry) (i : nat) (slot : result_slot) (entry : ExtensionJournalEntry)
    : results (results_return + list ExtensionJournalEntry * list ExtensionJournalEntry) :=
  canceled ← read run_canceled;
  if (canceled : bool) && bool_decide (xe_Status entry = InvocationPrepared) then
    stop ← results_canceled entries succeeded (drop i entries); mret (inl stop)
  else
    r ← read self;
    let view := toolResultView r (xe_InvocationID entry) (xe_PreparedRevision entry) slot in
    if match FingerprintView (ResultView view) with
       | Some f => negb (String.eqb (fp_Digest f) (xe_InputDigest entry)) || negb (bool_decide (rl_descriptor slot = xe_Descriptor entry))
       | None => true
       end
    then
      out ← settleToolResultHookAbort succeeded (drop i entries) "tool_result_hook_definition_mismatch";
      mret (inl (match out with
        | inr settleErr => (None, false, Some settleErr)
        | inl _ => (Some (MkExtensionFailure "tool_result_hook_definition_mismatch" "prepared tool result hooks do not match the current application"), false, None)
        end))
    else if bool_decide (xe_Status entry = InvocationPrepared) then
      at_ ← clock e;
      let pending := started_entry entry at_ in
      out ← region (commitToolResultHookEntries e k "tool-result-hook-pending" [pending]);
      match out with
      | inr err => stop ← results_unsettled entries err false "tool_result_hook_persistence_failed"; mret (inl stop)
      | inl _ => result_hook (<[i := pending]> entries) succeeded i slot pending view
      end
    else if bool_decide (xe_Status entry = InvocationPending) then result_hook entries succeeded i slot entry view
    else mret (inl (None, false,
      Some (NewError ErrorInternal "standardagent.tool_result_hook" (plain "tool result hook invocation is not executable") None))).

Fixpoint result_loop (entries succeeded : list ExtensionJournalEntry) (i : nat) (slots : list result_slot) : results results_return :=
  match slots with
  | [] =>
    canceled ← read run_canceled;
    if (canceled : bool) then results_canceled entries succeeded []
    else
      out ← region (consumeToolResultHookContexts e k succeeded);
      match out with
      | inr err => results_unsettled entries err false "tool_result_hook_context_commit_failed"
      | inl _ => mret (None, false, None)
      end
  | slot :: slots =>
    match entries !! i with
    | None => Crash index_out_of_range
    | Some entry =>
      out ← result_entry entries succeeded i slot entry;
      match out with
      | inl stop => mret stop
      | inr (entries, succeeded) => result_loop entries succeeded (S i) slots
      end
    end
  end.

(** The loops over the occurrences and over the entries of each are one loop. *)
Definition evaluateToolResultHooks (occurrences : list toolResultHookOccurrence) : results results_return :=
  match occurrences with
  | [] => mret (None, false, None)
  | _ => result_loop (concat (map ro_entries occurrences)) [] 0 (concat (map slots_of occurrences))
  end.

End Results.
End Hooks.
