(* ===== verification/RuntimeGates.v ===== *)
(** * Input gates and completion gates

    Models [standardagent/runtime_input_gate.go], the rest of
    [runtime_input_gate_context.go], [runtime_extension_diagnostics.go] and
    [runtime_completion.go]: the gates a proposed input passes before it is
    queued or starts a run, and the gates a run passes before it is complete.
    As in [RuntimeHooks] they are programs of regions and invocations. *)

From stdpp Require Import pretty.
From S2P Require Import Goal.
From S2P Require Import Prelude GoStrings AgentTypes ModelContracts SessionTypes ExtensionJournal.
From S2P Require Import SessionValidate SessionHistory SessionApply SessionRecover SessionCreate SessionStore SessionManager HookViews ModelStream.
From S2P Require Import ToolDispatcher LoopProtocol RuntimeState RuntimeCommands RuntimeRun RuntimeLifecycle RuntimeHooks.

Definition CodeInputRejected := "input_rejected".
Definition CodeExtensionDeadline := "extension_deadline_exceeded".

(** ** Input gates *)
Record inputGateOccurrence := MkGateOccurrence {
  ig_message : Message; ig_previousInputDigest : string; ig_originalRunID : string; ig_originalDelivery : Delivery; ig_actor : ActorIdentity;
  ig_entries : list ExtensionJournalEntry; ig_views : list InputGateView }.
(** [occurrence.input] *)
Definition ig_input (o : inputGateOccurrence) : MessageInput := msg_Parts (ig_message o).
Definition with_gate_entries (o : inputGateOccurrence) (entries : list ExtensionJournalEntry) : inputGateOccurrence :=
  MkGateOccurrence (ig_message o) (ig_previousInputDigest o) (ig_originalRunID o) (ig_originalDelivery o) (ig_actor o) entries (ig_views o).
Definition with_delivery (o : inputGateOccurrence) (delivery : Delivery) : inputGateOccurrence :=
  MkGateOccurrence (ig_message o) (ig_previousInputDigest o) (ig_originalRunID o) delivery (ig_actor o) (ig_entries o) (ig_views o).

(** [interaction.InputGateError] *)
Record InputGateError := MkInputGateError { ige_SessionID : string; ige_CurrentRevision : Z; ige_Diagnostics : list ExtensionDiagnostic; ige_Cause : error }.
(** The error of [executeInputGateOccurrence]: the failure of a gate is an error
    of a type of its own. *)
Inductive gate_failure := GateFailed (f : InvocationFailure) | GateStopped (err : error).
Inductive gate_error := PlainError (err : gate_failure) | Refused (e : InputGateError).

(** *** Entries of an occurrence *)
Definition finalizeAcceptedInputEntries (o : inputGateOccurrence) : list Change :=
  updates (map (fun x => with_effect x EffectApplied) (ig_entries o)).
Definition consumeAcceptedInputEntries (o : inputGateOccurrence) (runID stepID : string) : list Change :=
  concat (map (fun x =>
    let x := with_effect x EffectApplied in
    if bool_decide (xe_ContextDisposition x = ContextPending) then consume_context x (xe_ContextInputs x) runID stepID
    else [UpdateExtensionJournal_ x]) (ig_entries o)).
Definition discardAcceptedInputEntries (o : inputGateOccurrence) : list Change :=
  updates (map (fun x => drop_context (with_effect x EffectDiscarded))
    (List.filter (fun x => bool_decide (xe_EffectDisposition x = EffectPending)) (ig_entries o))).
Definition discardOlderInputContexts (s : Snapshot) (o : inputGateOccurrence) : list Change :=
  updates (map (fun x => with_entry_context x ContextDiscarded [])
    (List.filter (fun x => bool_decide (xe_Boundary x = BoundaryInputGate) && String.eqb (xe_MessageID x) (msg_ID (ig_message o)) &&
        bool_decide (xe_ContextDisposition x = ContextPending) && absent (extensionEntryByInvocation (ig_entries o) (xe_InvocationID x)))
      (sn_ExtensionJournal s))).

(** The entry that decided against the input. *)
Definition decides (x : ExtensionJournalEntry) : bool :=
  (bool_decide (xe_Status x = InvocationSucceeded) && match xe_Result x with Some r => bool_decide (inv_Decision r = DecisionReject) | None => false end) ||
  bool_decide (xe_Status x = InvocationFailed) || bool_decide (xe_Status x = InvocationOutcomeUnknown) ||
  (bool_decide (xe_Status x = InvocationCanceled) && bool_decide (xe_EffectDisposition x = EffectPending)).
Fixpoint first_index (p : ExtensionJournalEntry -> bool) (i : nat) (entries : list ExtensionJournalEntry) : option nat :=
  match entries with [] => None | x :: entries => if p x then Some i else first_index p (S i) entries end.
Definition rejected_updates (entries : list ExtensionJournalEntry) : list Change :=
  let decisive := first_index decides 0 entries in
  updates (concat (imap (fun i x =>
    if awaits_effect x then [drop_context (with_effect x (if bool_decide (decisive = Some i) then EffectApplied else EffectDiscarded))] else []) entries)).

Definition classifyInputGateOperationError (err : gate_failure) : error :=
  let classify kind code message cause := NewCodedError kind code "standardagent.input_gate" (plain message) cause in
  match err with
  | GateFailed f =>
    if bool_decide (if_Status f = InvocationCanceled) || String.eqb (if_Code f) CodeCanceled then
      classify ErrorCanceled (if_Code f) "input gate was canceled" (if_Cause f)
    else if String.eqb (if_Code f) CodeExtensionDeadline then classify ErrorDeadline (if_Code f) "input gate deadline expired" (if_Cause f)
    else classify ErrorUnavailable (if_Code f) "input gate failed" (if_Cause f)
  | GateStopped err =>
    if IsCode err CodeInputRejected then err
    else if errors_Is err "context canceled" then classify ErrorCanceled CodeCanceled "input gate was canceled" (Some err)
    else if errors_Is err "context deadline exceeded" then classify ErrorDeadline CodeExtensionDeadline "input gate deadline expired" (Some err)
    else classify ErrorUnavailable CodeExtensionFailed "input gate failed" (Some err)
  end.

Section Gates.
Context {J : JsonOps} {F : Fingerprints} {R : RequestFingerprint} {K : CursorCodec} {V : ViewFingerprints} (c : runtimeComponents).

(** *** Diagnostics *)
Definition store_ExtensionDiagnostics (request : ExtensionPageRequest) : M ExtensionPage := fun w =>
  (w, contextErr Live "session.extension_diagnostics" ;;
      reject_if (negb (ID_Valid (epr_SessionID request))) (invalid "session.extension_diagnostics" [("session ID is required", [])]) ;;
      a ← find_aggregate (w_store w) "session.extension_diagnostics" (epr_SessionID request);
      let s := ag_snapshot a in
      page ← extensionPage (sn_ExtensionJournal s) request;
      Ok (MkExtensionPage (sess_AgentID (sn_Session s)) (sess_WorkspaceID (sn_Session s)) (sn_Revision s) (ep_Diagnostics page) (ep_HasMore page))).
Definition sequence_le (a b : ExtensionDiagnostic) : Prop := (xd_Sequence a <= xd_Sequence b)%Z.
#[export] Instance sequence_le_dec a b : Decision (sequence_le a b).
Proof. unfold sequence_le. apply _. Defined.
Definition extensionDiagnosticsForEntries (entries : list ExtensionJournalEntry) : M (list ExtensionDiagnostic) :=
  match entries with
  | [] => mret []
  | _ =>
    sessionID ← gets ri_id;
    page ← store_ExtensionDiagnostics (MkExtensionPageRequest sessionID 0 MaxExtensionPageLimit);
    mret (merge_sort sequence_le (List.filter (fun x => present (extensionEntryByInvocation entries (xd_InvocationID x))) (ep_Diagnostics page)))
  end.
Definition inputGateError (revision : Z) (o : inputGateOccurrence) (cause : error) : M InputGateError :=
  out ← catch (extensionDiagnosticsForEntries (ig_entries o));
  sessionID ← gets ri_id;
  mret (match out with
        | inl diagnostics => MkInputGateError sessionID revision diagnostics cause
        | inr err => MkInputGateError sessionID revision [] (ErrJoin [cause; err])
        end).

(** *** Preparing an occurrence *)
Fixpoint prepare_gates (expected : Z) (operation : InputOperation) (message : Message) (digest : string) (at_ : Time) (journal : nat)
    (gates : list ExtensionDescriptor) : M (list (InputGateView * ExtensionJournalEntry)) :=
  match gates with
  | [] => mret []
  | descriptor :: gates =>
    id ← nextID "extension";
    r ← self;
    let view := MkInputGateView id operation (ri_id r) (ri_agentID r) (ri_workspaceID r) (Next expected) (msg_ID message) (msg_ClientMessageID message)
      (msg_Parts message) digest in
    lift (map_err (fun err => NewError ErrorInternal "standardagent.input_gate" (plain "Runtime constructed an invalid input gate view") (Some err))
      (InputGateView_Validate view)) ;;
    fingerprint ← lift (map_err (fun err => NewError ErrorInternal "standardagent.input_gate" (plain "input gate view could not be fingerprinted") (Some err))
      (fingerprint_of (FingerprintView (GateView view))));
    let entry := prepared_entry id (u64 (Z.of_nat journal + 1)) descriptor BoundaryInputGate (ri_id r) "" "" "" (msg_ID message) "" (fp_Digest fingerprint) 0 at_ in
    rest ← prepare_gates expected operation message digest at_ (S journal) gates;
    mret ((view, entry) :: rest)
  end.

Definition prepareInputGateLocked (e : environment) (s : Snapshot) (expected : Z) (actor : ActorIdentity) (operation : InputOperation) (message : Message)
    (originalRunID previousInputDigest : string) : M inputGateOccurrence :=
  at_ ← now e;
  prepared ← prepare_gates expected operation message previousInputDigest at_ (length (sn_ExtensionJournal s)) (rc_inputGates c);
  commit ← commitExternalLocked e (en_ctx e) expected "input-gate-prepare" actor (updates prepared.*2);
  fail_if (negb (Z.eqb (co_Revision commit) (Next expected)))
    (NewError ErrorInternal "standardagent.input_gate" (plain "prepared input gate commit returned an unexpected revision") None) ;;
  modify (fun r => set_gate_journal r true) ;;
  mret (MkGateOccurrence message previousInputDigest originalRunID (DeliveryOther "") actor prepared.*2 prepared.*1).

Definition prepare_send (e : environment) (request : SendRequest) : M inputGateOccurrence :=
  ensureOpenLocked "gateway.send" ;;
  snapshot ← viewLocked (en_ctx e);
  message ← new_message e request;
  prepareInputGateLocked e snapshot (snd_ExpectedRevision request) (snd_Actor request) InputSend message "" "".
Definition prepare_steer (e : environment) (request : SteerRequest) : M inputGateOccurrence :=
  ensureOpenLocked "gateway.steer" ;;
  r ← self;
  fail_if (no_active_run r) (NewCodedError ErrorConflict CodeNoActiveRun "gateway.steer" (plain "session has no active Run") None) ;;
  snapshot ← viewLocked (en_ctx e);
  message ← new_message e request;
  runID ← (match ri_active r with Some k => a ← get_run k; mret (ar_id a) | None => lift (Panic dereference) end);
  prepareInputGateLocked e snapshot (snd_ExpectedRevision request) (snd_Actor request) InputSteer message runID "".
Definition with_parts (m : Message) (parts : MessageInput) : Message :=
  MkMessage (msg_ID m) (msg_ClientMessageID m) (msg_SessionID m) (msg_RunID m) (msg_StepID m) (msg_Role m) parts (msg_ModelContinuation m) (msg_CreatedAt m).
Definition prepare_edit (e : environment) (request : EditQueuedRequest) : M inputGateOccurrence :=
  ensureOpenLocked "gateway.edit_queued" ;;
  snapshot ← viewLocked (en_ctx e);
  match queueByID (sn_Queue snapshot) (eqr_MessageID request) with
  | None => fail (NewCodedError ErrorNotFound CodeQueueItemNotFound "gateway.edit_queued" (plain "queue item was not found") None)
  | Some item =>
    previous ← lift (map_err (fun err => NewError ErrorInternal "gateway.edit_queued" (plain "queued input could not be fingerprinted") (Some err))
      (fingerprint_of (FingerprintView (InputView (msg_Parts (qi_Message item))))));
    o ← prepareInputGateLocked e snapshot (eqr_ExpectedRevision request) (eqr_Actor request) InputEditQueued
      (with_parts (qi_Message item) (eqr_Input request)) "" (fp_Digest previous);
    mret (with_delivery o (qi_Delivery item))
  end.

(** *** Executing an occurrence *)
Notation gates := (prog InputGateResult).

Definition commitInputGateEntry (e : environment) (actor : ActorIdentity) (entry : ExtensionJournalEntry) (operation : string) : M unit :=
  r ← self;
  fail_if (bool_decide (ri_state r = runtimeClosed)) (runtimeClosedError operation) ;;
  fail_if (ri_closing r && bool_decide (xe_Status entry = InvocationPending)) (runtimeClosedError operation) ;;
  snapshot ← viewLocked Live;
  commitLockedAs e Live (sn_Revision snapshot) operation actor [UpdateExtensionJournal_ entry] ;;
  mret tt.

(** The entries after the prepared ones from [start] on were canceled, when that
    could be committed. *)
Definition cancelPreparedInputGates (e : environment) (o : inputGateOccurrence) (start : nat) : gates inputGateOccurrence :=
  at_ ← clock e;
  let canceled x := with_outcome x InvocationCanceled (xe_PendingAt x) (not_before at_ (xe_PreparedAt x)) (xe_Result x) CodeCanceled
    "input gate was not started" EffectDiscarded in
  let prepared x := bool_decide (xe_Status x = InvocationPrepared) in
  match List.filter prepared (drop start (ig_entries o)) with
  | [] => mret o
  | entries =>
    out ← region (
      r ← self;
      if bool_decide (ri_state r = runtimeClosed) then mret false
      else
        snapshot ← viewLocked Live;
        commitLockedAs e Live (sn_Revision snapshot) "input-gate-cancel" (ig_actor o) (updates (map canceled entries)) ;;
        mret true);
    mret (match out with
          | inl true => with_gate_entries o (take start (ig_entries o) ++ map (fun x => if prepared x then canceled x else x) (drop start (ig_entries o)))
          | _ => o
          end)
  end.

(** [evaluateInputGate] after the gate: [ctx_err] is its context then. *)
Definition gate_outcome (view : InputGateView) (a : answer InputGateResult) (ctx_err : option error) : InvocationFailure + InputGateResult :=
  let failed status code reason cause := inl (MkInvocationFailure status code reason cause) in
  match a with
  | Panicked => failed InvocationFailed CodeExtensionFailed "input gate panicked" None
  | Failed_ err declared =>
    match valid_declared declared, ctx_err with
    | Some f, _ => inl f
    | None, Some cause =>
      if errors_Is cause "context deadline exceeded" then failed InvocationFailed CodeExtensionDeadline "input gate deadline expired" (Some cause)
      else failed InvocationCanceled CodeCanceled "input gate was canceled" (Some cause)
    | None, None => failed InvocationFailed CodeExtensionFailed "input gate component failed" (Some err)
    end
  | Returned result =>
    match ctx_err with
    | Some cause =>
      if errors_Is cause "context deadline exceeded" then failed InvocationFailed CodeExtensionDeadline "input gate deadline expired" (Some cause)
      else failed InvocationCanceled CodeCanceled "input gate was canceled" (Some cause)
    | None =>
      match InputGateResult_Validate result (igv_SessionID view) with
      | Err err => failed InvocationFailed CodeExtensionFailed "input gate returned an invalid result" (Some err)
      | _ =>
        let proposal := MkMessage (igv_MessageID view) (igv_ClientMessageID view) (igv_SessionID view) "" "" RoleUser (igv_Input view) None 0 in
        match ValidateInputs (MkInput None (Some proposal) None None :: igr_Context result) with
        | Err err => failed InvocationFailed CodeExtensionFailed "input gate context conflicts with the proposed input" (Some err)
        | _ => inr result
        end
      end
    end
  end.

Definition inputRejected : error :=
  NewCodedError ErrorForbidden CodeInputRejected "standardagent.input_gate" (plain "input was rejected") None.
(** The terminal state of an invocation; [None] when its context cannot be
    encoded. *)
Definition gate_terminal (pending : ExtensionJournalEntry) (at_ : Time) (outcome : InvocationFailure + InputGateResult) : option ExtensionJournalEntry :=
  let finishedAt := not_before at_ (xe_PendingAt pending) in
  match outcome with
  | inl f => Some (with_outcome pending (if_Status f) (xe_PendingAt pending) finishedAt (xe_Result pending) (if_Code f) (if_Reason f) EffectPending)
  | inr result =>
    let terminal := with_outcome pending InvocationSucceeded (xe_PendingAt pending) finishedAt
      (Some (MkInvocationResult (igr_Decision result) (igr_Reason result))) (xe_ErrorCode pending) (xe_ErrorReason pending) EffectPending in
    match igr_Context result with
    | [] => Some terminal
    | inputs => with_new_context terminal inputs <$> FingerprintTypedInput inputs
    end
  end.

(** The context of the submission, canceled when the runtime closes; it is read
    at the times the identities allocated so far count. *)
Variable (e : environment) (ctx : Z -> option error).
Definition ctx_Err_now : M (option error) := fun w => (w, Ok (ctx (ri_sequence (w_rt w)))).

Fixpoint execute_gates (o : inputGateOccurrence) (i : nat) (gates_ : list ExtensionDescriptor) : gates (inputGateOccurrence * option gate_failure) :=
  match gates_ with
  | [] => mret (o, None)
  | descriptor :: gates_ =>
    done ← read ctx_Err_now;
    match done with
    | Some err => o ← cancelPreparedInputGates e o i; mret (o, Some (GateStopped err))
    | None =>
      match ig_entries o !! i, ig_views o !! i with
      | Some entry, Some view =>
        at_ ← clock e;
        let pending := started_entry entry at_ in
        out ← region (commitInputGateEntry e (ig_actor o) pending "input-gate-pending");
        match out with
        | inr err => o ← cancelPreparedInputGates e o (if IsCode err CodeRuntimeClosed then i else S i); mret (o, Some (GateStopped err))
        | inl _ =>
          let o := with_gate_entries o (<[i := pending]> (ig_entries o)) in
          answer ← invoke_hook descriptor (GateView view);
          done ← read ctx_Err_now;
          let outcome := gate_outcome view answer done in
          at_ ← clock e;
          match gate_terminal pending at_ outcome with
          | None => mret (o, Some (GateStopped not_encodable))
          | Some terminal =>
            out ← region (commitInputGateEntry e (ig_actor o) terminal "input-gate-terminal");
            match out with
            | inr err => o ← cancelPreparedInputGates e o (S i); mret (o, Some (GateStopped err))
            | inl _ =>
              let o := with_gate_entries o (<[i := terminal]> (ig_entries o)) in
              match outcome with
              | inl f => o ← cancelPreparedInputGates e o (S i); mret (o, Some (GateFailed f))
              | inr result =>
                if bool_decide (igr_Decision result = DecisionReject) then o ← cancelPreparedInputGates e o (S i); mret (o, Some (GateStopped inputRejected))
                else execute_gates o (S i) gates_
              end
            end
          end
        end
      | _, _ => Crash index_out_of_range
      end
    end
  end.
Definition executeInputGateOccurrence (o : inputGateOccurrence) : gates (inputGateOccurrence * option gate_failure) :=
  execute_gates o 0 (rc_inputGates c).

(** *** The end of an occurrence *)
Definition finalizeRejectedInput (o : inputGateOccurrence) (failure : gate_failure) : M gate_error :=
  viewed ← catch (viewLocked Live);
  match viewed with
  | inr _ => mret (PlainError failure)
  | inl snapshot =>
    out ← (match rejected_updates (ig_entries o) with
      | [] => mret (inl (sn_Revision snapshot))
      | changes =>
        out ← catch (commitLockedAs e Live (sn_Revision snapshot) "input-gate-reject" (ig_actor o) changes);
        mret (match out with inl commit => inl (co_Revision commit) | inr err => inr err end)
      end);
    match out with
    | inr err => mret (PlainError (GateStopped err))
    | inl revision => refused ← inputGateError revision o (classifyInputGateOperationError failure); mret (Refused refused)
    end
  end.

Definition discardAcceptedInputLocked (o : inputGateOccurrence) (cause : error) : M gate_error :=
  viewed ← catch (viewLocked Live);
  match viewed with
  | inr _ => mret (PlainError (GateStopped cause))
  | inl snapshot =>
    out ← (match discardAcceptedInputEntries o with
      | [] => mret (inl (sn_Revision snapshot))
      | changes =>
        out ← catch (commitLockedAs e Live (sn_Revision snapshot) "input-gate-discard" (ig_actor o) changes);
        mret (match out with inl commit => inl (co_Revision commit) | inr err => inr err end)
      end);
    match out with
    | inr err => mret (PlainError (GateStopped err))
    | inl revision => refused ← inputGateError revision o (RevisionConflictError revision cause); mret (Refused refused)
    end
  end.

(** A region whose errors are those of a plain error. *)
Definition accepted {A} (m : M (gate_error + A)) : M (gate_error + A) :=
  out ← catch m;
  mret (match out with inl r => r | inr err => inl (PlainError (GateStopped err)) end).
Definition still_open {A} (o : inputGateOccurrence) (operation : string) (m : M (gate_error + A)) : M (gate_error + A) :=
  out ← catch (ensureOpenLocked operation);
  match out with
  | inr err => refused ← discardAcceptedInputLocked o err; mret (inl refused)
  | inl _ => m
  end.

Definition finalizeAcceptedSend (o : inputGateOccurrence) : M (gate_error + (EnqueueReceipt + started_run)) :=
  accepted (still_open o "gateway.send" (
    snapshot ← viewLocked Live;
    r ← self;
    let item := MkQueueItem (ig_message o) DeliveryNormal "" in
    if bool_decide (ri_state r = runtimeRunning) then
      commit ← commitLockedAs e Live (sn_Revision snapshot) "input-gate-send" (ig_actor o) (EnqueueMessage_ item :: finalizeAcceptedInputEntries o);
      mret (inr (inl (MkEnqueueReceipt (msg_ID (ig_message o)) (co_Revision commit))))
    else
      '(run, step, changes) ← startChangesLocked snapshot item true;
      commitLockedAs e Live (sn_Revision snapshot) "input-gate-send-start" (ig_actor o) (changes ++ consumeAcceptedInputEntries o (ar_id run) step) ;;
      k ← activateLocked run;
      mret (inr (inr (MkStarted (msg_ID (ig_message o)) k step))))).

Definition finalizeAcceptedSteer (o : inputGateOccurrence) : M (gate_error + EnqueueReceipt) :=
  accepted (still_open o "gateway.steer" (
    snapshot ← viewLocked Live;
    r ← self;
    let active := match ri_active r with Some k => ar_id <$> ri_runs r !! k | None => None end in
    if negb (bool_decide (ri_state r = runtimeRunning)) || negb (bool_decide (active = Some (ig_originalRunID o))) then
      refused ← discardAcceptedInputLocked o
        (NewCodedError ErrorConflict CodeNoActiveRun "gateway.steer" (plain "the active Run changed while input gates executed") None);
      mret (inl refused)
    else
      commit ← commitLockedAs e Live (sn_Revision snapshot) "input-gate-steer" (ig_actor o)
        (EnqueueMessage_ (MkQueueItem (ig_message o) DeliverySteer "") :: finalizeAcceptedInputEntries o);
      mret (inr (MkEnqueueReceipt (msg_ID (ig_message o)) (co_Revision commit))))).

Definition finalizeAcceptedEdit (o : inputGateOccurrence) : M (gate_error + Z) :=
  let changed code cause := NewCodedError ErrorConflict code "gateway.edit_queued" (plain "queued input changed while input gates executed") cause in
  accepted (still_open o "gateway.edit_queued" (
    snapshot ← viewLocked Live;
    match queueByID (sn_Queue snapshot) (msg_ID (ig_message o)) with
    | Some item =>
      if Claimed item then refused ← discardAcceptedInputLocked o (changed CodeQueueItemClaimed None); mret (inl refused)
      else
        let current := FingerprintView (InputView (msg_Parts (qi_Message item))) in
        if match current with Some f => negb (String.eqb (fp_Digest f) (ig_previousInputDigest o)) | None => true end ||
           negb (bool_decide (qi_Delivery item = ig_originalDelivery o))
        then
          refused ← discardAcceptedInputLocked o (changed CodeRevisionConflict (match current with Some _ => None | None => Some not_encodable end));
          mret (inl refused)
        else
          commit ← commitLockedAs e Live (sn_Revision snapshot) "input-gate-edit" (ig_actor o)
            (EditQueue_ (MkQueueEdit (msg_ID (ig_message o)) (ig_input o) (qi_Delivery item)) ::
             discardOlderInputContexts snapshot o ++ finalizeAcceptedInputEntries o);
          mret (inr (co_Revision commit))
    | None => refused ← discardAcceptedInputLocked o (changed CodeQueueItemClaimed None); mret (inl refused)
    end)).

(** *** The three submissions

    They hold [submissionMu], so that only one of them runs at a time. *)
Definition through_gates {A} (prepare : M inputGateOccurrence) (finalize : inputGateOccurrence -> M (gate_error + A)) : gates (gate_error + A) :=
  prepared ← region prepare;
  match prepared with
  | inr err => mret (inl (PlainError (GateStopped err)))
  | inl o =>
    '(o, failure) ← executeInputGateOccurrence o;
    out ← region (match failure with
      | Some failure => refused ← finalizeRejectedInput o failure; mret (inl refused)
      | None => finalize o
      end);
    match out with
    | inl r => mret r
    | inr err => mret (inl (PlainError (GateStopped err)))
    end
  end.
Definition sendThroughInputGates (request : SendRequest) : gates (gate_error + (EnqueueReceipt + started_run)) :=
  through_gates (prepare_send e request) finalizeAcceptedSend.
Definition steerThroughInputGates (request : SteerRequest) : gates (gate_error + EnqueueReceipt) :=
  through_gates (prepare_steer e request) finalizeAcceptedSteer.
Definition editThroughInputGates (request : EditQueuedRequest) : gates (gate_error + Z) :=
  through_gates (prepare_edit e request) finalizeAcceptedEdit.

End Gates.

(** ** Completion gates *)

(** [completionGateRunError] *)
Record completionGateRunError := MkGateRunError { ge_code : string; ge_reason : string; ge_cause : option error }.
Inductive completion_error := GateRunError (g : completionGateRunError) | OtherError (err : error).
(** [completionGateTermination] *)
Definition completionGateTermination (err : completion_error) : option RunTermination :=
  match err with GateRunError g => Some (extensionTermination (MkExtensionFailure (ge_code g) (ge_reason g))) | OtherError _ => None end.

Record completionOccurrence := MkCompletionOccurrence {
  oc_step : string; oc_nextStep : string; oc_goal : option DecisionRecord; oc_entries : list ExtensionJournalEntry; oc_views : list CompletionView;
  oc_continued : bool }.

Definition lastAssistantForRun (h : list HistoryFact) (runID : string) : option Message :=
  List.find (fun m => String.eqb (msg_RunID m) runID && bool_decide (msg_Role m = RoleAssistant)) (rev (omap hf_Message h)).
Definition completionAssistantViewMessage (m : Message) : Message :=
  MkMessage (msg_ID m) "" (msg_SessionID m) (msg_RunID m) (msg_StepID m) (msg_Role m) (msg_Parts m) None 0.

Definition decided_to_continue (e : ExtensionJournalEntry) : bool :=
  bool_decide (xe_Status e = InvocationSucceeded) && match xe_Result e with Some r => bool_decide (inv_Decision r = DecisionContinue) | None => false end.
(** The number of steps that gates have asked for. *)
Definition completionFollowOns (entries : list ExtensionJournalEntry) (runID : string) : Z :=
  let continued e := bool_decide (xe_Boundary e = BoundaryCompletion) && String.eqb (xe_RunID e) runID && decided_to_continue e &&
    bool_decide (xe_EffectDisposition e = EffectApplied) in
  Z.of_nat (size (list_to_set (C := gset string) (xe_TargetStepID <$> List.filter continued entries))).

Definition with_recorded_at (d : DecisionRecord) (at_ : Time) : DecisionRecord :=
  MkDecisionRecord (dr_ID d) (dr_GoalID d) (dr_SessionID d) (dr_RunID d) (dr_StepID d) (dr_ExpectedVersion d) (dr_Evaluation d) at_.
Definition goal_candidate (d : DecisionRecord) : CompletionGoalCandidate := MkGoalCandidate (dr_GoalID d) (dr_ExpectedVersion d).
(** [entry.GoalID, entry.GoalVersion = candidate...] *)
Definition with_goal (e : ExtensionJournalEntry) (candidate : option DecisionRecord) : ExtensionJournalEntry :=
  match candidate with
  | None => e
  | Some d =>
    MkExtensionJournalEntry (xe_InvocationID e) (xe_Sequence e) (xe_Descriptor e) (xe_Boundary e) (xe_SessionID e) (xe_RunID e) (xe_StepID e)
      (xe_TargetStepID e) (xe_MessageID e) (xe_ToolCallID e) (dr_GoalID d) (dr_ExpectedVersion d) (xe_LifecyclePhase e) (xe_LifecycleOpenKind e)
      (xe_InputDigest e) (xe_PreparedRevision e) (xe_PreparedAt e) (xe_PendingAt e) (xe_FinishedAt e) (xe_Status e) (xe_Result e) (xe_ErrorCode e)
      (xe_ErrorReason e) (xe_EffectDisposition e) (xe_ContextDisposition e) (xe_ContextInputs e) (xe_ContextDigest e) (xe_ContextBytes e)
  end.

Definition finalizeCompletionEntries (entries : list ExtensionJournalEntry) (disposition : EffectDisposition) : list Change :=
  updates (map (fun x => drop_context (with_effect x disposition)) (List.filter awaits_effect entries)).
Definition finalizeCompletionEntriesFromSnapshot (s : Snapshot) (entries : list ExtensionJournalEntry) (disposition : EffectDisposition) : list Change :=
  updates (concat (map (fun entry =>
    match extensionEntryByInvocation (sn_ExtensionJournal s) (xe_InvocationID entry) with
    | None => []
    | Some current =>
      let unstored := bool_decide (xe_Status current = InvocationPending) && awaits_effect entry in
      let current := if unstored then entry else current in
      (if unstored then [entry] else []) ++ (if awaits_effect current then [drop_context (with_effect current disposition)] else [])
    end) entries)).

Definition classifyCompletionGateFailure (err : error) (declared : option InvocationFailure) : InvocationStatus * string * string :=
  match valid_declared declared with
  | Some f => (if_Status f, if_Code f, if_Reason f)
  | None =>
    if errors_Is err "context canceled" then (InvocationCanceled, CodeCanceled, "completion gate was canceled")
    else (InvocationFailed, CodeExtensionFailed, "completion gate failed")
  end.

(** [continued, superseded, retryGoal, err] *)
Definition completion_return : Type := bool * bool * bool * option completion_error.
Definition completion_failed (err : completion_error) : completion_return := (false, false, false, Some err).
(** [errors.Join(context.Canceled, err)] *)
Definition canceled_with (out : unit + error) : completion_error := OtherError (ErrJoin (context_Canceled :: option_list (outcome_error out))).

Section CompletionGates.
Context {J : JsonOps} {F : Fingerprints} {R : RequestFingerprint} {K : CursorCodec} {V : ViewFingerprints} (c : runtimeComponents).
Variables (e : environment) (k : nat).

(** *** Preparing *)
Definition completion_view (r : runtimeInstance) (a : activeRun) (id : string) (revision : Z) (last : Message) (step nextStep : string) (followOns : Z)
    (candidate : option DecisionRecord) : CompletionView :=
  MkCompletionView id (ri_id r) (ri_agentID r) (ri_workspaceID r) revision (ar_id a) step nextStep (completionAssistantViewMessage last)
    (MkTokenBudget (rc_MaxTokensPerRun c) (ar_usedTokens a)) followOns (goal_candidate <$> candidate).

Fixpoint prepare_completion (a : activeRun) (revision : Z) (last : Message) (nextStep : string) (followOns : Z) (candidate : option DecisionRecord)
    (at_ : Time) (journal : nat) (gates : list ExtensionDescriptor) : M (list (CompletionView * ExtensionJournalEntry)) :=
  match gates with
  | [] => mret []
  | descriptor :: gates =>
    id ← nextID "completion";
    r ← self;
    let view := completion_view r a id revision last (msg_StepID last) nextStep followOns candidate in
    lift (map_err (fun err => NewError ErrorInternal "standardagent.completion_gate" (plain "Runtime constructed an invalid completion view") (Some err))
      (CompletionView_Validate view)) ;;
    fingerprint ← lift (fingerprint_of (FingerprintView (CompletionGateView view)));
    let entry := with_goal (prepared_entry id (u64 (Z.of_nat journal + 1)) descriptor BoundaryCompletion (ri_id r) (ar_id a) (msg_StepID last) nextStep (msg_ID last) ""
      (fp_Digest fingerprint) revision at_) candidate in
    rest ← prepare_completion a revision last nextStep followOns candidate at_ (S journal) gates;
    mret ((view, entry) :: rest)
  end.

Definition among (entries : list ExtensionJournalEntry) (x : ExtensionJournalEntry) : bool := bool_decide (xe_InvocationID x ∈ map xe_InvocationID entries).

Definition settleCompletionPreparationLocked (entries : list ExtensionJournalEntry) : M unit :=
  require_active k ;;
  snapshot ← viewLocked Live;
  at_ ← now e;
  match List.filter (fun x => among entries x && bool_decide (xe_Status x = InvocationPrepared)) (sn_ExtensionJournal snapshot) with
  | [] => mret tt
  | prepared =>
    commitLocked e Live (sn_Revision snapshot) "completion-gate-prepare-settle"
      (updates (map (fun x => canceled_entry x (not_before at_ (xe_PreparedAt x)) "completion_gate_prepare_failed") prepared)) ;;
    mret tt
  end.

(** [nil, superseded, nil], or an occurrence. *)
Definition prepareCompletionOccurrence (candidate : option DecisionRecord) : M (bool + completionOccurrence) :=
  match rc_completionGates c with
  | [] => mret (inl false)
  | gates =>
    require_running k ;;
    a ← get_run k;
    snapshot ← viewLocked Live;
    match pendingByDelivery (sn_Queue snapshot) DeliverySteer with
    | _ :: _ => mret (inl true)
    | [] =>
      match lastAssistantForRun (sn_History snapshot) (ar_id a) with
      | None => fail (NewError ErrorInternal "standardagent.completion_gate" (plain "completed Run has no assistant message") None)
      | Some last =>
        nextStep ← nextID "step";
        let revision := Next (sn_Revision snapshot) in
        at_ ← now e;
        let candidate := (fun d => with_recorded_at d at_) <$> candidate in
        prepared ← prepare_completion a revision last nextStep (completionFollowOns (sn_ExtensionJournal snapshot) (ar_id a)) candidate at_
          (length (sn_ExtensionJournal snapshot)) gates;
        out ← catch (commitLocked e Live (sn_Revision snapshot) "completion-gate-prepare" (updates prepared.*2));
        match out with
        | inr err =>
          settled ← catch (settleCompletionPreparationLocked prepared.*2);
          fail (ErrJoin (err :: option_list (outcome_error settled)))
        | inl commit =>
          fail_if (negb (Z.eqb (co_Revision commit) revision))
            (NewError ErrorInternal "standardagent.completion_gate" (plain "prepared completion commit returned an unexpected revision") None) ;;
          mret (inr (MkCompletionOccurrence (msg_StepID last) nextStep candidate prepared.*2 prepared.*1 false))
        end
      end
    end
  end.

(** *** Restoring *)
Definition restored_mismatch (first entry : ExtensionJournalEntry) (descriptor : ExtensionDescriptor) : bool :=
  negb (String.eqb (xe_StepID entry) (xe_StepID first)) || negb (String.eqb (xe_TargetStepID entry) (xe_TargetStepID first)) ||
  negb (String.eqb (xe_MessageID entry) (xe_MessageID first)) || negb (String.eqb (xe_GoalID entry) (xe_GoalID first)) ||
  negb (Z.eqb (xe_GoalVersion entry) (xe_GoalVersion first)) || negb (bool_decide (xe_Descriptor entry = descriptor)).
Definition restored_goal (r : runtimeInstance) (a : activeRun) (first : ExtensionJournalEntry) : option DecisionRecord :=
  if empty (xe_GoalID first) then None
  else Some (MkDecisionRecord
    ("goal-decision-" +:+ ar_id a +:+ "-" +:+ xe_StepID first +:+ "-" +:+ pretty (Z.to_N (xe_GoalVersion first)))
    (xe_GoalID first) (ri_id r) (ar_id a) (xe_StepID first) (xe_GoalVersion first) (MkEvaluation DecisionDone ReasonObjectiveMet []) (xe_PreparedAt first)).
Definition restore_completion_error (message : string) (cause : option error) : error :=
  NewError ErrorInternal "standardagent.restore_completion" (plain message) cause.

Definition restoreCompletionOccurrence (r : runtimeInstance) (s : Snapshot) (a : activeRun) (entries : list ExtensionJournalEntry) : result completionOccurrence :=
  match entries with
  | [] => Err (restore_completion_error "prepared CompletionGate chain does not match the current application" None)
  | first :: _ =>
    reject_if (negb (Nat.eqb (length entries) (length (rc_completionGates c))))
      (restore_completion_error "prepared CompletionGate chain does not match the current application" None) ;;
    let unavailable := restore_completion_error "prepared CompletionGate assistant input is unavailable" None in
    match findMessage (sn_History s) (xe_MessageID first) with
    | None => Err unavailable
    | Some last =>
      reject_if (negb (bool_decide (msg_Role last = RoleAssistant)) || negb (String.eqb (msg_RunID last) (ar_id a)) ||
                 negb (String.eqb (msg_StepID last) (xe_StepID first))) unavailable ;;
      let candidate := restored_goal r a first in
      let followOns := completionFollowOns (sn_ExtensionJournal s) (ar_id a) in
      views ← foldM (fun views (p : ExtensionJournalEntry * ExtensionDescriptor) =>
        let '(entry, descriptor) := p in
        reject_if (restored_mismatch first entry descriptor) (restore_completion_error "prepared CompletionGate occurrence is inconsistent" None) ;;
        let view := completion_view r a (xe_InvocationID entry) (xe_PreparedRevision entry) last (xe_StepID entry) (xe_TargetStepID entry) followOns candidate in
        let changed cause := restore_completion_error "prepared CompletionGate input does not match durable evidence" cause in
        match FingerprintView (CompletionGateView view) with
        | None => Err (changed (Some not_encodable))
        | Some f => reject_if (negb (String.eqb (fp_Digest f) (xe_InputDigest entry))) (changed None) ;; Ok (views ++ [view])
        end) (zip entries (rc_completionGates c)) [];
      Ok (MkCompletionOccurrence (xe_StepID first) (xe_TargetStepID first) candidate entries views (existsb decided_to_continue entries))
    end
  end.

(** [if entry.FinishedAt.Before(entry.PreparedAt)] *)
Definition finished_after_prepared (x : ExtensionJournalEntry) : ExtensionJournalEntry :=
  with_outcome x (xe_Status x) (xe_PendingAt x) (not_before (xe_FinishedAt x) (xe_PreparedAt x)) (xe_Result x)
    (xe_ErrorCode x) (xe_ErrorReason x) (xe_EffectDisposition x).
Definition settleCompletionRecoveryEntries (entries : list ExtensionJournalEntry) (code : string) : M unit :=
  require_active k ;;
  snapshot ← viewLocked Live;
  at_ ← now e;
  match omap (settle_entry at_ (fun x => finished_after_prepared (drop_context x)) code) (List.filter (among entries) (sn_ExtensionJournal snapshot)) with
  | [] => mret tt
  | settled => commitLocked e Live (sn_Revision snapshot) "completion-gate-recovery-settle" (updates settled) ;; mret tt
  end.

(** *** Settling *)
Definition commitCompletionEntries (operation : string) (entries : list ExtensionJournalEntry) : M unit := commitToolResultHookChanges e k operation (updates entries).

(** The clock is read for each entry. *)
Fixpoint cancelCompletionEntries (code : string) (entries : list ExtensionJournalEntry) : M (list Change) :=
  match entries with
  | [] => mret []
  | entry :: entries =>
    if bool_decide (xe_Status entry = InvocationPrepared) then
      at_ ← now e;
      rest ← cancelCompletionEntries code entries;
      mret (UpdateExtensionJournal_ (canceled_entry entry (not_before at_ (xe_PreparedAt entry)) code) :: rest)
    else cancelCompletionEntries code entries
  end.

Definition settleCompletionAbortLocked (succeeded remaining : list ExtensionJournalEntry) (code : string) : M unit :=
  require_active k ;;
  snapshot ← viewLocked Live;
  canceled ← cancelCompletionEntries code remaining;
  match finalizeCompletionEntriesFromSnapshot snapshot succeeded EffectDiscarded ++ canceled with
  | [] => mret tt
  | changes => commitLocked e Live (sn_Revision snapshot) "completion-gate-abort" changes ;; mret tt
  end.

Definition settleCompletionFailure (succeeded : list ExtensionJournalEntry) (failed : ExtensionJournalEntry) (remaining : list ExtensionJournalEntry) : M unit :=
  canceled ← cancelCompletionEntries "completion_gate_batch_aborted" remaining;
  require_active k ;;
  snapshot ← viewLocked Live;
  commitLocked e Live (sn_Revision snapshot) "completion-gate-failure"
    (finalizeCompletionEntries succeeded EffectDiscarded ++ UpdateExtensionJournal_ (with_effect failed EffectApplied) :: canceled) ;;
  mret tt.

Definition persistence_unknown (causes : list error) : completion_error :=
  GateRunError (MkGateRunError "completion_gate_persistence_unknown" "completion gate persistence outcome is unknown" (Some (ErrJoin causes))).
Definition completionPersistenceFailureLocked (cause : error) : M completion_error :=
  r ← self;
  if negb (is_active r k) then mret (OtherError cause)
  else
    a ← get_run k;
    viewed ← catch (viewLocked Live);
    match viewed with
    | inr err => mret (OtherError (ErrJoin [cause; err]))
    | inl snapshot =>
      out ← catch (settle_snapshot e snapshot (fun x => bool_decide (xe_Boundary x = BoundaryCompletion) && String.eqb (xe_RunID x) (ar_id a))
        (fun at_ x => with_outcome x InvocationOutcomeUnknown (xe_PendingAt x) (not_before at_ (xe_PreparedAt x)) (xe_Result x)
          "completion_gate_persistence_unknown" "completion gate persistence outcome is unknown" EffectPending)
        (fun x => finished_after_prepared (drop_context x)) "completion_gate_persistence_unknown"
        "completion-gate-persistence-unknown" "completion-gate-persistence-settle");
      mret (persistence_unknown (cause :: option_list (outcome_error out)))
    end.

(** *** Applying the gates' decisions *)

(** Apply the effect of a succeeded entry and hand its context to the step. *)
Definition apply_completion (runID nextStep : string) (x : ExtensionJournalEntry) : list Change :=
  let x := with_effect x EffectApplied in
  if bool_decide (xe_ContextDisposition x = ContextPending) then consume_context x (xe_ContextInputs x) runID nextStep else [UpdateExtensionJournal_ x].

(** The changes for the succeeded entries; [None] when the journal moved. *)
Fixpoint completion_applications (s : Snapshot) (runID nextStep : string) (succeeded : list ExtensionJournalEntry) : list Change + error :=
  match succeeded with
  | [] => inl []
  | entry :: succeeded =>
    match extensionEntryByInvocation (sn_ExtensionJournal s) (xe_InvocationID entry) with
    | None => inr (ErrNew "completion gate journal entry disappeared")
    | Some current =>
      if bool_decide (xe_Status current = InvocationPending) || awaits_effect current then
        match completion_applications s runID nextStep succeeded with
        | inl rest =>
          inl ((if bool_decide (xe_Status current = InvocationPending) then [UpdateExtensionJournal_ entry] else []) ++ apply_completion runID nextStep entry ++ rest)
        | inr err => inr err
        end
      else inr (ErrNew "completion gate journal state changed before application")
    end
  end.

Definition completionApplyAlreadyDurableLocked (entries : list ExtensionJournalEntry) : M bool :=
  require_active k ;;
  snapshot ← viewLocked Live;
  mret (forallb (fun expected =>
    match extensionEntryByInvocation (sn_ExtensionJournal snapshot) (xe_InvocationID expected) with
    | Some current => bool_decide (xe_Status current = InvocationSucceeded) && bool_decide (xe_EffectDisposition current = EffectApplied) &&
        negb (bool_decide (xe_ContextDisposition current = ContextPending))
    | None => false
    end) entries).

Definition application_failed (reason : string) (cause : option error) : completion_error :=
  GateRunError (MkGateRunError "completion_goal_application_failed" reason cause).
Fixpoint retry_applications (runID nextStep : string) (journal : list ExtensionJournalEntry) : option (list Change) :=
  match journal with
  | [] => Some []
  | current :: journal =>
    if negb (bool_decide (xe_Status current = InvocationSucceeded)) || bool_decide (xe_EffectDisposition current = EffectApplied) then
      retry_applications runID nextStep journal
    else if negb (bool_decide (xe_EffectDisposition current = EffectPending)) then None
    else rest ← retry_applications runID nextStep journal; Some (apply_completion runID nextStep current ++ rest)
  end.
Definition retryCompletionApplyAfterGoalLocked (a : activeRun) (nextStep : string) (entries : list ExtensionJournalEntry) : M (option completion_error) :=
  r ← self;
  if negb (is_active r k) then mret (Some (OtherError context_Canceled))
  else
    viewed ← catch (viewLocked Live);
    match viewed with
    | inr err => mret (Some (OtherError err))
    | inl snapshot =>
      match retry_applications (ar_id a) nextStep (List.filter (among entries) (sn_ExtensionJournal snapshot)) with
      | None => mret (Some (application_failed "completion Goal was committed but its gate effect is inconsistent" None))
      | Some [] => mret None
      | Some changes =>
        out ← catch (commitLocked e Live (sn_Revision snapshot) "completion-gate-apply-retry" changes);
        mret (match out with
              | inl _ => None
              | inr err => Some (application_failed "completion Goal was committed but its gate effect could not be finalized" (Some err))
              end)
      end
    end.

(** Abort the application: [superseded] and [retryGoal] as given. *)
Definition aborted (succeeded : list ExtensionJournalEntry) (code : string) (superseded retryGoal : bool) : M completion_return :=
  out ← catch (settleCompletionAbortLocked succeeded [] code);
  mret (false, superseded, retryGoal, OtherError <$> outcome_error out).

(** [recorded] is what recording the goal decision gives, twice if needed. *)
Definition finalizeCompletionOccurrence (recorded : DecisionRecord -> option error) (nextStep : string) (goal : option DecisionRecord) (continued : bool)
    (succeeded : list ExtensionJournalEntry) : M completion_return :=
  stopped ← run_stopped k;
  if (stopped : bool) then
    out ← catch (settleCompletionAbortLocked succeeded [] "completion_gate_canceled");
    mret (completion_failed (canceled_with out))
  else
    a ← get_run k;
    viewed ← catch (viewLocked Live);
    match viewed with
    | inr err => mret (completion_failed (OtherError err))
    | inl snapshot =>
      match pendingByDelivery (sn_Queue snapshot) DeliverySteer with
      | _ :: _ => aborted succeeded "completion_gate_superseded" true false
      | [] =>
        let decision := if continued then None else goal in
        match (d ← decision; recorded d) with
        | Some err =>
          if errors_Is err "goal: version conflict" then aborted succeeded "completion_goal_version_changed" false true
          else
            out ← catch (settleCompletionAbortLocked succeeded [] "completion_goal_commit_failed");
            mret (completion_failed (GateRunError (MkGateRunError "completion_goal_commit_failed" "completion Goal decision could not be committed"
              (Some (ErrJoin (err :: option_list (outcome_error out)))))))
        | None =>
          match completion_applications snapshot (ar_id a) nextStep succeeded with
          | inr err => failure ← completionPersistenceFailureLocked err; mret (completion_failed failure)
          | inl [] => mret (continued, false, false, None)
          | inl changes =>
            out ← catch (commitLocked e Live (sn_Revision snapshot) "completion-gate-apply" changes);
            match out with
            | inl _ => mret (continued, false, false, None)
            | inr err =>
              match decision with
              | Some _ => failure ← retryCompletionApplyAfterGoalLocked a nextStep succeeded; mret (false, false, false, failure)
              | None =>
                durable ← catch (completionApplyAlreadyDurableLocked succeeded);
                match durable with
                | inl true => mret (continued, false, false, None)
                | inl false => failure ← completionPersistenceFailureLocked err; mret (completion_failed failure)
                | inr verifyErr => failure ← completionPersistenceFailureLocked (ErrJoin [err; verifyErr]); mret (completion_failed failure)
                end
              end
            end
          end
        end
      end
    end.

(** *** Executing *)
Notation completions := (prog CompletionGateResult).

Definition completionSteerPending : M bool :=
  require_running k ;;
  snapshot ← viewLocked Live;
  mret (negb (Nat.eqb (length (pendingByDelivery (sn_Queue snapshot) DeliverySteer)) 0)).

Definition completionPersistenceFailure (cause : error) : completions completion_return :=
  failure ← read (completionPersistenceFailureLocked cause);
  mret (completion_failed failure).

(** [completionFailure] *)
Definition completionFailure (succeeded : list ExtensionJournalEntry) (failed : ExtensionJournalEntry) (remaining : list ExtensionJournalEntry)
    (code reason : string) (cause : option error) : completions completion_return :=
  '(failed, causes) ← (if bool_decide (xe_Status failed = InvocationPending) then
      at_ ← clock e;
      let failed := with_outcome failed InvocationFailed (xe_PendingAt failed) at_ (xe_Result failed) code reason EffectPending in
      out ← region (commitCompletionEntries "completion-gate-invalid" [failed]);
      mret (failed, option_list cause ++ option_list (outcome_error out))
    else mret (failed, option_list cause));
  out ← region (settleCompletionFailure succeeded failed remaining);
  mret (completion_failed (GateRunError (MkGateRunError code reason
    (match causes ++ option_list (outcome_error out) with [] => None | causes => Some (ErrJoin causes) end)))).

(** The answer of a gate: a failure with its cause, or a result. *)
Definition completion_outcome (view : CompletionView) (a : answer CompletionGateResult)
    : (InvocationStatus * string * string * option error) + CompletionGateResult :=
  match a with
  | Panicked => inl (classifyCompletionGateFailure (ErrNew "completion gate panicked") None, Some (ErrNew "completion gate panicked"))
  | Failed_ err declared => inl (classifyCompletionGateFailure err declared, Some err)
  | Returned result =>
    match CompletionGateResult_Validate result view with
    | Err err => inl (InvocationFailed, CodeExtensionFailed, "completion gate returned an invalid result", Some err)
    | _ => inr result
    end
  end.
Definition completion_terminal (entry : ExtensionJournalEntry) (at_ : Time) (outcome : (InvocationStatus * string * string * option error) + CompletionGateResult)
    : option ExtensionJournalEntry :=
  let finishedAt := not_before at_ (xe_PendingAt entry) in
  match outcome with
  | inl (status, code, reason, _) => Some (with_outcome entry status (xe_PendingAt entry) finishedAt (xe_Result entry) code reason EffectPending)
  | inr result =>
    let terminal := with_outcome entry InvocationSucceeded (xe_PendingAt entry) finishedAt
      (Some (MkInvocationResult (cgr_Decision result) (cgr_Reason result))) (xe_ErrorCode entry) (xe_ErrorReason entry) EffectPending in
    match cgr_Context result with
    | [] => Some terminal
    | inputs => with_new_context terminal inputs <$> FingerprintTypedInput inputs
    end
  end.

(** What the loop over the gates carries on. *)
Record completion_state := MkCompletionState {
  cs_entries : list ExtensionJournalEntry; cs_succeeded : list ExtensionJournalEntry; cs_pipelined : list string; cs_continued : bool }.

Definition definition_mismatch (entry : ExtensionJournalEntry) (descriptor : ExtensionDescriptor) (view : CompletionView) : option (option error) :=
  match FingerprintView (CompletionGateView view) with
  | None => Some (Some not_encodable)
  | Some f =>
    if negb (String.eqb (fp_Digest f) (xe_InputDigest entry)) || negb (bool_decide (descriptor = xe_Descriptor entry)) then Some None else None
  end.
Definition mismatch_failure (s : completion_state) (i : nat) (entry : ExtensionJournalEntry) (cause : option error) : completions completion_return :=
  completionFailure (cs_succeeded s) entry (drop (S i) (cs_entries s)) "completion_gate_definition_mismatch"
    "prepared completion gate does not match the current application" cause.

Section Execute.
Variables (recorded : DecisionRecord -> option error) (goal : option DecisionRecord) (nextStep : string).

Definition finalize_completion (s : completion_state) : completions completion_return :=
  read (finalizeCompletionOccurrence recorded nextStep goal (cs_continued s) (cs_succeeded s)).

(** The gate of entry [i], which is pending; [inl] ends the loop. *)
Definition completion_gate (s : completion_state) (i : nat) (descriptor : ExtensionDescriptor) (entry : ExtensionJournalEntry) (view : CompletionView)
    : completions (completion_return + completion_state) :=
  match definition_mismatch entry descriptor view with
  | Some cause => stop ← mismatch_failure s i entry cause; mret (inl stop)
  | None =>
    answer ← invoke_hook descriptor (CompletionGateView view);
    let outcome := completion_outcome view answer in
    at_ ← clock e;
    match completion_terminal entry at_ outcome with
    | None => mret (inl (completion_failed (OtherError not_encodable)))
    | Some terminal =>
      let s := MkCompletionState (cs_entries s) (cs_succeeded s) (cs_pipelined s)
        (match outcome with inr result => cs_continued s || bool_decide (cgr_Decision result = DecisionContinue) | inl _ => cs_continued s end) in
      next ← (match outcome, cs_entries s !! S i with
        | inr _, Some next => at_ ← clock e; mret (Some (started_entry next at_))
        | _, _ => mret None
        end);
      let s := match next with
        | Some next => MkCompletionState (<[S i := next]> (cs_entries s)) (cs_succeeded s) (xe_InvocationID next :: cs_pipelined s) (cs_continued s)
        | None => s
        end in
      let finished := MkCompletionState (<[i := terminal]> (cs_entries s)) (cs_succeeded s ++ [terminal]) (cs_pipelined s) (cs_continued s) in
      match outcome, next, goal with
      | inr _, None, None => stop ← finalize_completion finished; mret (inl stop)
      | _, _, _ =>
        out ← region (commitCompletionEntries "completion-gate-terminal" (terminal :: option_list next));
        match out with
        | inr err => stop ← completionPersistenceFailure err; mret (inl stop)
        | inl _ =>
          match outcome with
          | inr _ => mret (inr finished)
          | inl (_, code, reason, cause) =>
            out ← region (settleCompletionFailure (cs_succeeded s) terminal (drop (S i) (cs_entries s)));
            mret (inl (completion_failed (GateRunError (MkGateRunError code reason
              (match option_list cause ++ option_list (outcome_error out) with [] => None | causes => Some (ErrJoin causes) end)))))
          end
        end
      end
    end
  end.

(** Entry [i], before its gate. *)
Definition completion_entry (s : completion_state) (i : nat) (descriptor : ExtensionDescriptor) (entry : ExtensionJournalEntry) (view : CompletionView)
    : completions (completion_return + completion_state) :=
  let remaining := drop i (cs_entries s) in
  canceled ← read (run_field k ar_canceled false);
  if (canceled : bool) then
    out ← region (settleCompletionAbortLocked (cs_succeeded s) remaining "completion_gate_canceled");
    mret (inl (completion_failed (canceled_with out)))
  else
    steered ← region completionSteerPending;
    match steered with
    | inr err => mret (inl (completion_failed (OtherError err)))
    | inl true =>
      out ← region (settleCompletionAbortLocked (cs_succeeded s) remaining "completion_gate_superseded");
      mret (inl (false, true, false, OtherError <$> outcome_error out))
    | inl false =>
      if bool_decide (xe_Status entry = InvocationSucceeded) && bool_decide (xe_EffectDisposition entry = EffectPending) then
        match definition_mismatch entry descriptor view with
        | Some cause => stop ← mismatch_failure s i entry cause; mret (inl stop)
        | None => mret (inr (MkCompletionState (cs_entries s) (cs_succeeded s ++ [entry]) (cs_pipelined s) (cs_continued s)))
        end
      else if awaits_effect entry then
        out ← region (settleCompletionFailure (cs_succeeded s) entry (drop (S i) (cs_entries s)));
        let '(code, reason) := if empty (xe_ErrorCode entry) then ("completion_gate_outcome_unknown", "completion gate outcome is unknown")
          else (xe_ErrorCode entry, xe_ErrorReason entry) in
        mret (inl (completion_failed (GateRunError (MkGateRunError code reason (outcome_error out)))))
      else if bool_decide (xe_Status entry = InvocationPrepared) then
        at_ ← clock e;
        let pending := started_entry entry at_ in
        out ← region (commitCompletionEntries "completion-gate-pending" [pending]);
        match out with
        | inr err => stop ← completionPersistenceFailure err; mret (inl stop)
        | inl _ => completion_gate (MkCompletionState (<[i := pending]> (cs_entries s)) (cs_succeeded s) (cs_pipelined s) (cs_continued s)) i descriptor pending view
        end
      else if negb (bool_decide (xe_InvocationID entry ∈ cs_pipelined s)) || negb (bool_decide (xe_Status entry = InvocationPending)) then
        stop ← completionFailure (cs_succeeded s) entry (drop (S i) (cs_entries s)) "completion_gate_state_invalid" "completion gate state is not executable" None;
        mret (inl stop)
      else completion_gate s i descriptor entry view
    end.

Fixpoint completion_loop (s : completion_state) (views : list CompletionView) (i : nat) (gates : list ExtensionDescriptor) : completions completion_return :=
  match gates with
  | [] => finalize_completion s
  | descriptor :: gates =>
    match cs_entries s !! i, views !! i with
    | Some entry, Some view =>
      out ← completion_entry s i descriptor entry view;
      match out with
      | inl stop => mret stop
      | inr s => completion_loop s views (S i) gates
      end
    | _, _ => Crash index_out_of_range
    end
  end.

End Execute.

Definition executeCompletionOccurrence (recorded : DecisionRecord -> option error) (o : option completionOccurrence) : completions completion_return :=
  match o with
  | None => mret (false, false, false, None)
  | Some o => completion_loop recorded (oc_goal o) (oc_nextStep o) (MkCompletionState (oc_entries o) [] [] (oc_continued o)) (oc_views o) 0 (rc_completionGates c)
  end.

End CompletionGates.
