(* ===== verification/RuntimeSteps.v ===== *)
(** * The steps of a run

    Models [standardagent/runtime_context.go] and the capabilities of
    [runtime_execution.go] that the loop drives: how a model request is
    prepared, made and completed, what becomes of a completed run (the goal,
    the completion gates, the hooks, new input), how the results of tools are
    committed, and how a completion that a crash interrupted is resumed.

    Each is a program over the runtime.  The loops that start again when the
    Session has moved meanwhile take the number of rounds; a program that needs
    more ends [Unfinished]. *)

From stdpp Require Import pretty.
From S2P Require Import ContextCompaction Goal EventHub.
From S2P Require Import Prelude GoStrings AgentTypes ModelContracts SessionTypes ExtensionJournal.
From S2P Require Import SessionValidate SessionHistory SessionApply SessionRecover SessionCreate SessionStore SessionManager HookViews ModelStream.
From S2P Require Import ToolDispatcher LoopProtocol RuntimeState RuntimeCommands RuntimeRun RuntimeLifecycle RuntimeHooks RuntimeGates.

(** ** The components of a step

    The fixed configuration, the keys of the context sources, whether there are
    a compactor, a goal store with an evaluator, and how many hooks. *)
Record stepComponents := MkStepComponents {
  sc_SystemPrompt : string; sc_HardTokenLimit : Z; sc_retainAll : bool; sc_sources : list string; sc_compactor : bool;
  sc_definitions : list ToolDefinition; sc_goals : bool; sc_hooks : nat }.

(** How far a program with rounds got. *)
Inductive progress (A : Type) := Finished (a : A) | Failed (err : error) | Unfinished.
Arguments Finished {A} a. Arguments Failed {A} err. Arguments Unfinished {A}.
Definition progress_of {A} (out : A + error) : progress A := match out with inl a => Finished a | inr err => Failed err end.
Definition proceed {Q A B} (p : prog Q (progress A)) (f : A -> prog Q (progress B)) : prog Q (progress B) :=
  out ← p;
  match out with
  | Finished a => f a
  | Failed err => mret (Failed err)
  | Unfinished => mret Unfinished
  end.
Definition attempt {Q A} (p : prog Q (A + error)) : prog Q (progress A) := out ← p; mret (progress_of out).
(** A check; none of them panics. *)
Definition checked {Q} (r : result unit) : prog Q (progress unit) :=
  mret (match r with Ok _ => Finished tt | Err err => Failed err | Panic message => Failed (ErrNew message) end).

(** ** The context of a model request *)
Definition CodeContextLimitExceeded := "context_limit_exceeded".
Definition CodeModelNotSupported := "model_not_supported".
Definition CodeContextPreparationFailed := "context_preparation_failed".
Definition CodeModelExecutionFailed := "model_execution_failed".
Definition ErrTokenBudgetExceeded : string := "model: run token budget exhausted".

Definition contextLimitError (tokens limit : Z) : error :=
  NewCodedError ErrorInvalidInput CodeContextLimitExceeded "standardagent.context"
    [("model request uses %d tokens and exceeds the hard limit %d", [AInt tokens; AInt limit])] None.
Definition modelNotSupported (message : string) (cause : option error) : error :=
  NewCodedError ErrorInvalidInput CodeModelNotSupported "standardagent.model" (plain message) cause.
Definition context_invalid (message : string) (cause : option error) : error :=
  NewError ErrorInvalidInput "standardagent.context" (plain message) cause.

Definition latestHistorySequence (history : list HistoryFact) : Z := default 0%Z (hf_Sequence <$> last history).

(** [historyInputs] *)
Definition fact_inputs (runID stepID : string) (fact : HistoryFact) : list Input :=
  match hf_ContextContribution fact, hf_Message fact, hf_ToolCall fact, hf_ToolResult fact with
  | Some c, _, _, _ => if String.eqb (cc_RunID c) runID && String.eqb (cc_StepID c) stepID then cc_Inputs c else []
  | None, Some m, _, _ => [MkInput None (Some m) None None]
  | None, None, Some call, _ => [MkInput None None (Some call) None]
  | None, None, None, Some r => [MkInput None None None (Some r)]
  | None, None, None, None => []
  end.
Definition historyInputs (history : list HistoryFact) (runID stepID : string) : list Input := concat (map (fact_inputs runID stepID) history).

(** [attachmentModality]: lower case maps two letters outside ASCII into it, of
    which the prefixes contain one, the dotted capital I. *)
Fixpoint lower_prefix (prefix s : string) : bool :=
  match prefix, s with
  | EmptyString, _ => true
  | String p prefix, String a s =>
    let a' := if (65 <=? Ascii.nat_of_ascii a)%nat && (Ascii.nat_of_ascii a <=? 90)%nat then Ascii.ascii_of_nat (Ascii.nat_of_ascii a + 32) else a in
    if Ascii.eqb p a' then lower_prefix prefix s
    else
      match s with
      | String b s => Ascii.eqb p (Ascii.ascii_of_nat 105) && (Ascii.nat_of_ascii a =? 196)%nat && (Ascii.nat_of_ascii b =? 176)%nat && lower_prefix prefix s
      | EmptyString => false
      end
  | _, EmptyString => false
  end.
Definition attachmentModality (mediaType : string) : option Modality :=
  if lower_prefix "image/" mediaType then Some ModalityImage
  else if lower_prefix "audio/" mediaType then Some ModalityAudio
  else None.

Section Context_.
Context {J : JsonOps}.

(** The loop of [validateDynamicInputs] over the inputs. *)
Fixpoint check_dynamic (sessionID : string) (inputs : list Input) : result unit :=
  match inputs with
  | [] => Ok tt
  | input :: inputs =>
    reject_if (present (in_SystemPrompt input)) (context_invalid "Context components cannot supply SystemPrompt" None) ;;
    reject_if (match in_Message input with Some m => negb (String.eqb (msg_SessionID m) sessionID) | None => false end)
      (context_invalid "Context message belongs to another Session" None) ;;
    reject_if (match in_ToolCall input with Some call => negb (String.eqb (call_SessionID call) sessionID) | None => false end)
      (context_invalid "Context tool call belongs to another Session" None) ;;
    check_dynamic sessionID inputs
  end.
Definition validateDynamicInputs (sessionID : string) (inputs : list Input) : result unit :=
  check_dynamic sessionID inputs ;;
  map_err (fun err => context_invalid "Context violates the model protocol" (Some err)) (ValidateInputs inputs).

(** [durable] of [validateModelContinuations]: the last message of an identity
    counts. *)
Definition durable_continuations (history : list HistoryFact) : gmap string (option ModelContinuation) :=
  foldl (fun durable m => <[msg_ID m := msg_ModelContinuation m]> durable) ∅ (omap hf_Message history).
Definition required_continuation (history : list HistoryFact) (activeRunID : string) : string :=
  foldl (fun required m => if present (msg_ModelContinuation m) && String.eqb (msg_RunID m) activeRunID then msg_ID m else required) ""
    (omap hf_Message history).
Definition check_continuation (durable : gmap string (option ModelContinuation)) (m : Message) : result unit :=
  match durable !! msg_ID m, msg_ModelContinuation m with
  | None, actual => reject_if (present actual) (context_invalid "Context component invented opaque model continuation state" None)
  | Some None, None => Ok tt
  | Some (Some expected), Some actual =>
    reject_if (negb (bool_decide (expected = actual))) (context_invalid "Context component modified opaque model continuation state" None)
  | Some _, _ => Err (context_invalid "Context component removed opaque model continuation state" None)
  end.
Definition validateModelContinuations (history : list HistoryFact) (inputs : list Input) (activeRunID : string) : result unit :=
  let required := required_continuation history activeRunID in
  let messages := omap in_Message inputs in
  foldM (fun (_ : unit) m => check_continuation (durable_continuations history) m) messages tt ;;
  reject_if (nonempty required && negb (existsb (fun m => String.eqb (msg_ID m) required) messages))
    (context_invalid "Context component removed active opaque model continuation state" None).

Section Rendering.
(** What [fmt] makes of a message. *)
Context (rendered : text -> string).

Definition project_part (media : Capabilities) (part : MessagePart) : MessagePart :=
  if negb (bool_decide (part_Kind part = PartAttachment)) ||
     match attachmentModality (part_MediaType part) with Some m => SupportsInput media m | None => false end
  then part
  else
    let name := if nonempty (part_Name part) then rendered [(" name=%q", [AStr (part_Name part)])] else "" in
    MkMessagePart PartText (rendered [("[attachment id=%q media_type=%q%s omitted: selected model does not support this modality]",
      [AStr (part_AttachmentID part); AStr (part_MediaType part); AStr name])]) "" "" "".
Definition project_message (media : Capabilities) (m : Message) : Message :=
  MkMessage (msg_ID m) (msg_ClientMessageID m) (msg_SessionID m) (msg_RunID m) (msg_StepID m) (msg_Role m) (map (project_part media) (msg_Parts m))
    (msg_ModelContinuation m) (msg_CreatedAt m).
Definition projectUnsupportedAttachments (inputs : list Input) (media : Capabilities) : list Input :=
  map (fun i => MkInput (in_SystemPrompt i) (project_message media <$> in_Message i) (in_ToolCall i) (in_ToolResult i)) inputs.
End Rendering.
End Context_.

Section Steps.
Context {J : JsonOps} {F : Fingerprints} {R : RequestFingerprint} {K : CursorCodec} {V : ViewFingerprints}.
Context (c : runtimeComponents) (sc : stepComponents) (rendered : text -> string).
Variables (e : environment) (k : nat).

(** *** The run, as its goroutine sees it *)
Definition run_ctx : M context :=
  canceled ← run_canceled k;
  mret (if (canceled : bool) then ContextCanceled else Live).
(** [r.session.View(run.ctx)] *)
Definition run_View : M Snapshot := ctx ← run_ctx; session_View ctx.
Definition no_run : activeRun := MkActiveRun "" (MkConfig "" "" ReasoningDefault (MkParameters None None)) 0 false false false None 0 0 0 no_actor None.
(** The fields that never change. *)
Definition this_run : M activeRun := run_field k (fun a => a) no_run.

(** *** Preparing a model request *)
Section Request.
Context {Q : Type}.
Notation steps := (prog Q).

Definition assembleModelRequest (sessionID : string) (a : activeRun) (step : string) (dynamic : list Input) : ModelRequest :=
  MkModelRequest sessionID (ar_id a) step (ar_config a) (ar_configRevision a)
    ((if nonempty (sc_SystemPrompt sc) then [MkInput (Some (sc_SystemPrompt sc)) None None None] else []) ++ dynamic) (sc_definitions sc).

Definition inspected (config : Config) (out : ExecutionCapabilities + error) : ExecutionCapabilities + error :=
  match out with
  | inr err => inr (modelNotSupported "model configuration is not supported" (Some err))
  | inl capabilities =>
    match ExecutionCapabilities_Validate capabilities with
    | Err err => inr (modelNotSupported "ModelExecutor returned invalid capabilities" (Some err))
    | Panic message => inr (ErrNew message)
    | Ok _ =>
      if negb (bool_decide (cfg_Reasoning config ∈ ec_Reasoning capabilities)) then inr (modelNotSupported "selected reasoning mode is not supported" None)
      else if match par_MaxTokens (cfg_Parameters config) with
              | Some maximum => Z.ltb 0 (ec_MaxOutputTokens capabilities) && Z.ltb (ec_MaxOutputTokens capabilities) maximum
              | None => false end
      then inr (modelNotSupported "requested output token limit exceeds model capability" None)
      else inl capabilities
    end
  end.
Definition inspectModel (config : Config) : steps (progress ExecutionCapabilities) :=
  out ← ask (Inspect_ config);
  mret (progress_of (inspected config out)).

Definition validated (sessionID : string) (a : activeRun) (history : list HistoryFact) (inputs : list Input) : result unit :=
  validateDynamicInputs sessionID inputs ;; validateModelContinuations history inputs (ar_id a).

(** [CountTokens] with the check of its answer. *)
Definition counted (request : ModelRequest) : steps (progress Z) :=
  proceed (attempt (ask (CountTokens_ request))) (fun tokens =>
  mret (if Z.ltb tokens 0 then Failed (NewError ErrorInternal "standardagent.context" (plain "TokenCounter returned a negative token count") None)
        else Finished tokens)).

(** The request and its tokens. *)
Definition buildContextCandidate (step : string) (snapshot : Snapshot) (sourceDynamic : list Input) : steps (progress (ModelRequest * Z)) :=
  r ← read self;
  a ← read this_run;
  let check inputs := checked (validated (ri_id r) a (sn_History snapshot) inputs) in
  proceed (inspectModel (ar_config a)) (fun capabilities =>
  if match sc_definitions sc with [] => false | _ => true end && negb (cap_ToolCalling (ec_Media capabilities)) then
    mret (Failed (modelNotSupported "selected model does not support tool calling" None))
  else
    let project inputs := projectUnsupportedAttachments rendered inputs (ec_Media capabilities) in
    proceed (check sourceDynamic) (fun _ =>
    let dynamic := project sourceDynamic in
    proceed (checked (validateDynamicInputs (ri_id r) dynamic)) (fun _ =>
    let request := assembleModelRequest (ri_id r) a step dynamic in
    proceed (counted request) (fun tokens =>
    let limit := if Z.ltb 0 (sc_HardTokenLimit sc) && Z.ltb (sc_HardTokenLimit sc) (ec_ContextWindowTokens capabilities)
      then sc_HardTokenLimit sc else ec_ContextWindowTokens capabilities in
    if Z.leb tokens limit then mret (Finished (request, tokens))
    else if negb (sc_compactor sc) then mret (Failed (contextLimitError tokens limit))
    else
      proceed (attempt (ask (CompactInputs (MkCompactionInput (ri_id r) (sn_Revision snapshot) dynamic (ar_config a))))) (fun compacted =>
      if negb (Z.eqb (cout_SourceRevision compacted) (sn_Revision snapshot)) then
        mret (Failed (NewCodedError ErrorConflict CodeRevisionConflict "standardagent.context.compact"
          (plain "compactor output was based on a different Session revision") None))
      else
        proceed (check (cout_Inputs compacted)) (fun _ =>
        let request := assembleModelRequest (ri_id r) a step (project (cout_Inputs compacted)) in
        proceed (counted request) (fun tokens =>
        mret (if Z.ltb limit tokens then Failed (contextLimitError tokens limit) else Finished (request, tokens))))))))).

(** Commit what was computed from a snapshot, unless the Session has moved:
    then the latest snapshot. *)
Definition commit_from (snapshot : Snapshot) (op : string) (ch : Change) : M (option Snapshot) :=
  require_running k ;;
  ctx ← run_ctx;
  latest ← viewLocked ctx;
  if negb (Z.eqb (sn_Revision latest) (sn_Revision snapshot)) then mret (Some latest)
  else commitLocked e ctx (sn_Revision snapshot) op [ch] ;; mret None.

(** One context source; [rounds] attempts. *)
Fixpoint contribute (rounds : nat) (step source : string) (snapshot : Snapshot) (dynamic : list Input) : steps (progress (Snapshot * list Input)) :=
  match rounds with
  | O => mret Unfinished
  | S rounds =>
    r ← read self;
    a ← read this_run;
    proceed (attempt (ask (Contribute source (MkContextInput (ri_id r) (sn_Revision snapshot) dynamic (ar_config a))))) (fun contribution =>
    let candidate := dynamic ++ contribution in
    proceed (checked (validated (ri_id r) a (sn_History snapshot) candidate)) (fun _ =>
    proceed (attempt (region (commit_from snapshot "context-source"
      (AppendContextContribution_ (MkContextContributionFact (ar_id a) step source contribution))))) (fun moved =>
    match moved with
    | Some latest => contribute rounds step source latest dynamic
    | None => proceed (attempt (region run_View)) (fun snapshot => mret (Finished (snapshot, candidate)))
    end)))
  end.
Fixpoint contributions (rounds : nat) (step : string) (sources : list string) (snapshot : Snapshot) (dynamic : list Input)
    : steps (progress (Snapshot * list Input)) :=
  match sources with
  | [] => mret (Finished (snapshot, dynamic))
  | source :: sources =>
    proceed (contribute rounds step source snapshot dynamic) (fun '(snapshot, dynamic) => contributions rounds step sources snapshot dynamic)
  end.
Definition persistContextContributions (rounds : nat) (step : string) (snapshot : Snapshot) : steps (progress (Snapshot * list Input)) :=
  r ← read self;
  a ← read this_run;
  let dynamic := historyInputs (sn_History snapshot) (ar_id a) step in
  proceed (checked (validated (ri_id r) a (sn_History snapshot) dynamic)) (fun _ =>
  contributions rounds step (sc_sources sc) snapshot dynamic).

Definition context_view (snapshot : Snapshot) (request : ModelRequest) (tokens : Z) : ContextView :=
  MkContextView (u64 (cv_Version (sn_Context snapshot) + 1)) (sn_Revision snapshot) (latestHistorySequence (sn_History snapshot)) tokens request.
Definition publish_context (snapshot : Snapshot) (request : ModelRequest) (tokens : Z) : M (option Snapshot) :=
  commit_from snapshot "context" (SetContext_ (context_view snapshot request tokens) (sc_retainAll sc)).

Fixpoint publish_request (rounds : nat) (step : string) (snapshot : Snapshot) (dynamic : list Input) : steps (progress ModelRequest) :=
  match rounds with
  | O => mret Unfinished
  | S rounds =>
    proceed (buildContextCandidate step snapshot dynamic) (fun '(request, tokens) =>
    proceed (attempt (region (publish_context snapshot request tokens))) (fun moved =>
    match moved with
    | Some latest => publish_request rounds step latest dynamic
    | None => mret (Finished request)
    end))
  end.
Definition first_view : M Snapshot :=
  require_running k ;;
  ctx ← run_ctx;
  viewLocked ctx.
Definition prepareModelRequest (rounds : nat) (step : string) : steps (progress ModelRequest) :=
  proceed (attempt (region first_view)) (fun snapshot =>
  proceed (persistContextContributions rounds step snapshot) (fun '(snapshot, dynamic) =>
  publish_request rounds step snapshot dynamic)).
End Request.

(** *** A completed run *)
Notation completions := (prog CompletionGateResult).

(** [errors.Is(err, context.Canceled)] *)
Definition completion_canceled (err : completion_error) : bool :=
  match err with
  | OtherError err => errors_Is err "context canceled"
  | GateRunError g => match ge_cause g with Some cause => errors_Is cause "context canceled" | None => false end
  end.

Definition goalEvaluationStep (s : Snapshot) (runID : string) : string :=
  match List.find (fun m => String.eqb (msg_RunID m) runID && ID_Valid (msg_StepID m)) (rev (omap hf_Message (sn_History s))) with
  | Some m => msg_StepID m
  | None => "goal-evaluation"
  end.
Definition cloneHookMessages (history : list HistoryFact) : list Message := omap hf_Message history.

(** [recordGoalDecisionIdempotently] outside the mutex. *)
Definition record_decision (d : DecisionRecord) : completions (option error) :=
  recorded ← ask RecordingDecision;
  mret (recorded d).

(** The proposals, [handled], the candidate. *)
Definition goal_return : Type := list MessageInput * bool * option DecisionRecord.
Definition goal_record (r : runtimeInstance) (a : activeRun) (g : Goal.Goal) (step : string) (evaluation : Evaluation) (at_ : Time) : DecisionRecord :=
  MkDecisionRecord ("goal-decision-" +:+ ar_id a +:+ "-" +:+ step +:+ "-" +:+ pretty (Z.to_N (goal_Version g))) (goal_ID g) (ri_id r) (ar_id a) step
    (goal_Version g) evaluation at_.
Definition evaluate_goal (a : activeRun) (g : Goal.Goal) (step : string) (snapshot : Snapshot) : completions Evaluation :=
  if Z.leb (goal_MaxFollowOns g) (goal_FollowOns g) then mret (MkEvaluation Goal.DecisionBlocked ReasonFollowOnLimit [])
  else
    out ← ask (EvaluateGoal (MkEvaluationRequest g (ar_id a) step (sn_Revision snapshot) (ar_config a) (cloneHookMessages (sn_History snapshot))));
    mret (match out with
          | inl evaluation => if is_ok (Evaluation_Validate evaluation) then evaluation else MkEvaluation Goal.DecisionBlocked ReasonEvaluatorFailure []
          | inr _ => MkEvaluation Goal.DecisionBlocked ReasonEvaluatorFailure []
          end).
Definition evaluateGoalCompletion (snapshot : Snapshot) : completions (goal_return + error) :=
  if negb (sc_goals sc) then mret (inl ([], false, None))
  else
    r ← read self;
    a ← read this_run;
    current ← ask (CurrentGoal (ri_id r));
    match current with
    | inr err => mret (inr (ErrWrap err "standardagent: load current goal" []))
    | inl None => mret (inl ([], false, None))
    | inl (Some g) =>
      if negb (bool_decide (goal_Status g = StatusActive)) then mret (inl ([], false, None))
      else
        let step := goalEvaluationStep snapshot (ar_id a) in
        at_ ← clock e;
        evaluation ← evaluate_goal a g step snapshot;
        let record := goal_record r a g step evaluation at_ in
        latest ← region run_View;
        match latest with
        | inr err => mret (inr (ErrWrap err "standardagent: verify goal decision revision" []))
        | inl latest =>
          match pendingByDelivery (sn_Queue latest) DeliverySteer with
          | _ :: _ => mret (inl ([], true, None))
          | [] =>
            if bool_decide (ev_Decision evaluation = Goal.DecisionDone) then mret (inl ([], true, Some record))
            else
              out ← record_decision record;
              mret (match out with
                    | Some err =>
                      if errors_Is err "goal: version conflict" then inl ([], true, None)
                      else inr (ErrWrap err "standardagent: record goal decision" [])
                    | None =>
                      inl (if bool_decide (ev_Decision evaluation = Goal.DecisionContinue) then [ev_NextInstruction evaluation] else [], true, None)
                    end)
          end
        end
    end.

(** [superseded, retry] *)
Definition finalizeGoalCompletionCandidate (recorded : DecisionRecord -> option error) (record : DecisionRecord) : M (bool * bool) :=
  require_running k ;;
  snapshot ← viewLocked Live;
  match pendingByDelivery (sn_Queue snapshot) DeliverySteer with
  | _ :: _ => mret (true, false)
  | [] =>
    match recorded record with
    | None => mret (false, false)
    | Some err =>
      if errors_Is err "goal: version conflict" then mret (false, true)
      else fail (ErrWrap err "standardagent: record goal decision" [])
    end
  end.

(** The valid proposals of the hooks from number [i] on; their failures do not
    count. *)
Fixpoint hook_proposals (n i : nat) (view : RunCompleteView) : completions (list MessageInput) :=
  match n with
  | O => mret []
  | S n =>
    out ← ask (BeforeRunComplete i view);
    rest ← hook_proposals n (S i) view;
    mret (match out with inl messages => List.filter MessageInput_Valid messages | inr _ => [] end ++ rest)
  end.

(** What [continueAfterCompletionOnce] returns: an error or the end of
    [followOn]; [None] when it is to be tried again. *)
Inductive completion_end :=
  | CompletionFailed (err : completion_error) (canceled : bool)
  | Continued (next : continuation).
Definition completion_stopped (err : error) : completion_end := CompletionFailed (OtherError err) (errors_Is err "context canceled").

(** The end: new input, when the session has any. *)
Definition follow_on (proposals : list MessageInput) : completions completion_end :=
  out ← region (followOn e k proposals);
  mret (match out with inl next => Continued next | inr err => CompletionFailed (OtherError err) false end).
Definition complete_view (r : runtimeInstance) (a : activeRun) (snapshot : Snapshot) : RunCompleteView :=
  MkRunCompleteView (ri_id r) (ar_id a) (sn_Revision snapshot) (ar_config a) (cloneHookMessages (sn_History snapshot)).

(** The gates, then the goal that was reached: [inl] is an early return, else
    whether a steer superseded the completion. *)
Definition gates_decide (candidate : option DecisionRecord) : completions (option completion_end + bool) :=
  prepared ← region (prepareCompletionOccurrence c e k candidate);
  match prepared with
  | inr err => mret (inl (Some (completion_stopped err)))
  | inl (inr occurrence) =>
    recorded ← ask RecordingDecision;
    '(continued, superseded, retryGoal, err) ← executeCompletionOccurrence c e k recorded (Some occurrence);
    mret (match err with
          | Some err => inl (Some (CompletionFailed err (completion_canceled err)))
          | None =>
            if (retryGoal : bool) then inl None
            else if (continued : bool) then inl (Some (Continued (ContinueAt (oc_nextStep occurrence))))
            else inr (superseded : bool)
          end)
  | inl (inl true) => mret (inr true)
  | inl (inl false) =>
    match candidate with
    | None => mret (inr false)
    | Some record =>
      recorded ← ask RecordingDecision;
      out ← region (finalizeGoalCompletionCandidate recorded record);
      mret (match out with
            | inr err => inl (Some (CompletionFailed (OtherError err) false))
            | inl (_, true) => inl None
            | inl (superseded, false) => inr superseded
            end)
    end
  end.

Definition continueAfterCompletionOnce : completions (option completion_end) :=
  viewed ← region run_View;
  match viewed with
  | inr err => mret (Some (completion_stopped err))
  | inl snapshot =>
    match pendingByDelivery (sn_Queue snapshot) DeliverySteer with
    | _ :: _ => out ← follow_on []; mret (Some out)
    | [] =>
      goal ← evaluateGoalCompletion snapshot;
      match goal with
      | inr err => mret (Some (CompletionFailed (OtherError err) false))
      | inl (proposals, true, None) => out ← follow_on proposals; mret (Some out)
      | inl (proposals, _, candidate) =>
        decided ← gates_decide candidate;
        match decided, candidate with
        | inl out, _ => mret out
        | inr false, None =>
          r ← read self;
          a ← read this_run;
          hooked ← hook_proposals (sc_hooks sc) 0 (complete_view r a snapshot);
          out ← follow_on (proposals ++ hooked); mret (Some out)
        | inr _, _ => out ← follow_on proposals; mret (Some out)
        end
      end
    end
  end.

(** The loop of [continueAfterCompletion]; [None] when [rounds] were not enough. *)
Fixpoint continueAfterCompletion (rounds : nat) : completions (option completion_end) :=
  match rounds with
  | O => mret None
  | S rounds =>
    out ← continueAfterCompletionOnce;
    match out with
    | None => continueAfterCompletion rounds
    | Some out => mret (Some out)
    end
  end.

(** *** Requesting the model

    An answer is that of [requestModel] to the driver of the loop. *)
Definition failed_step (source : TerminationSource) (fallback : string) (err : error) : model_answer :=
  (stepFailed, "", [], Some (terminationFromError rendered source fallback err)).
Definition canceled_step : model_answer := (stepCanceled, "", [], Some canceledRunTermination).
Definition budget_step : completions model_answer :=
  out ← region (recordBudgetExceeded c e k);
  mret (match out with
        | inr err => failed_step TerminationSession CodeSessionOperationFailed err
        | inl _ => (stepBudgetExceeded, "", [], Some budgetRunTermination)
        end).
(** An error of the executor or of its stream; [cancels] when it is looked at
    for a cancellation. *)
Definition execution_failed (cancels : bool) (err : error) : completions model_answer :=
  if errors_Is err ErrTokenBudgetExceeded then budget_step
  else
    mret (match runLimitErrorCode err with
          | Some code => (stepBudgetExceeded, "", [], Some (runLimitTermination code))
          | None =>
            if cancels && errors_Is err "context canceled" then canceled_step
            else failed_step TerminationModel CodeModelExecutionFailed err
          end).

Definition completion_answer (out : completion_end) : model_answer :=
  match out with
  | CompletionFailed _ true | Continued RunCanceledMeanwhile => canceled_step
  | CompletionFailed (GateRunError g) false => (stepFailed, "", [], completionGateTermination (GateRunError g))
  | CompletionFailed (OtherError err) false => failed_step TerminationRuntime CodeRuntimeFailed err
  | Continued NoContinuation => (stepNatural, "", [], None)
  | Continued (ContinueAt next) => (stepContinue, next, [], None)
  end.
(** The event [EventComplete]. *)
Definition complete_step (rounds : nat) (step messageID : string) (output : Completion) : completions (option model_answer) :=
  out ← region (commitCompletion c e k step messageID output);
  match out with
  | inl None => mret (Some canceled_step)
  | inr err =>
    mret (Some (match runLimitErrorCode err with
      | Some code => (stepBudgetExceeded, "", [], Some (runLimitTermination code))
      | None => failed_step TerminationSession CodeSessionOperationFailed err
      end))
  | inl (Some []) => out ← continueAfterCompletion rounds; mret (completion_answer <$> out)
  | inl (Some calls) => mret (Some (stepToolsReady, "", calls, None))
  end.

(** The loop over the stream, with the events that were published. *)
Definition stream_event (r : runtimeInstance) (a : activeRun) (step messageID : string) (event : ModelEvent) : list Event :=
  match me_Kind event with
  | EventDelta => [MkEvent EventChunk (ri_id r) (ar_id a) step messageID (me_AttemptID event) 0 (me_Text event)]
  | ModelStream.EventReset => [MkEvent EventHub.EventReset (ri_id r) (ar_id a) step messageID (me_AttemptID event) 0 ""]
  | _ => []
  end.
Fixpoint model_stream (rounds : nat) (step messageID : string) (s : StreamState) (published : list Event) (events : list ModelEvent) (closed : error)
    : completions (list Event * option model_answer) :=
  match events with
  | [] => answer ← execution_failed true (default (ErrNew "") (End_ s (Some closed))); mret (published, Some answer)
  | event :: events =>
    match Accept s event with
    | Err err => mret (published, Some (failed_step TerminationModel CodeModelStreamInvalid err))
    | Panic message => Crash message
    | Ok s =>
      match me_Kind event, me_Output event with
      | EventFailed, _ => answer ← execution_failed false (default (ErrNew "") (me_Err event)); mret (published, Some answer)
      | EventComplete, Some output => answer ← complete_step rounds step messageID output; mret (published, answer)
      | EventComplete, None => Crash dereference
      | _, _ =>
        r ← read self;
        a ← read this_run;
        model_stream rounds step messageID s (published ++ stream_event r a step messageID event) events closed
      end
    end
  end.

Definition request_step (rounds : nat) (step : string) : completions (list Event * option model_answer) :=
  exhausted ← read (run_field k (fun a => Exhausted (MkTokenBudget (rc_MaxTokensPerRun c) (ar_usedTokens a))) false);
  if (exhausted : bool) then answer ← budget_step; mret ([], Some answer)
  else
    prepared ← prepareModelRequest rounds step;
    match prepared with
    | Unfinished => mret ([], None)
    | Failed err =>
      region (signalPrepared k) ;;
      mret ([], Some (if errors_Is err "context canceled" then canceled_step else failed_step TerminationContext CodeContextPreparationFailed err))
    | Finished request =>
      stream ← ask (Execute_ request);
      match stream with
      | inr err => region (signalPrepared k) ;; answer ← execution_failed true err; mret ([], Some answer)
      | inl None =>
        region (signalPrepared k) ;;
        mret ([], Some (stepFailed, "", [], Some (fixedRunTermination TerminationModel ErrorInternal CodeModelStreamInvalid)))
      | inl (Some (events, closed)) =>
        messageID ← read (nextID "message");
        model_stream rounds step messageID new_stream [] events closed
      end
    end.
Definition requestModel (rounds : nat) (step : string) : completions (list Event * option model_answer) :=
  out ← request_step rounds step;
  region (signalPrepared k) ;;
  mret out.

(** *** The results of tools *)
Definition toolResults (calls : list ToolCall) (results : list ToolResult) : prog ToolResultHookResult commit_answer :=
  out ← region (commitToolResults c e k calls results);
  match out with
  | inr err => mret ("", None, false, Some err)
  | inl None => mret ("", None, true, None)
  | inl (Some (nextStep, occurrences, true)) =>
    let entries := concat (map ro_entries occurrences) in
    '(_, _, err) ← results_canceled e k entries [] entries;
    mret (match err with Some _ => "" | None => nextStep end, None, true, err)
  | inl (Some (nextStep, occurrences, false)) =>
    '(failure, canceled, err) ← evaluateToolResultHooks e k occurrences;
    mret (nextStep, failure, canceled, err)
  end.

(** *** Resuming a completion

    The occurrence that [restorePreparedRun] restores, or its failure. *)
Definition restored_completion (r : runtimeInstance) (s : Snapshot) (entries : list ExtensionJournalEntry)
    : completionOccurrence + list ExtensionJournalEntry * completionGateRunError :=
  let mismatch cause := inr (entries, MkGateRunError "completion_gate_definition_mismatch" "prepared completion gate does not match the current application" cause) in
  match ri_runs r !! k with
  | None => mismatch None
  | Some a =>
    match restoreCompletionOccurrence c r s a entries with
    | Ok o => inl o
    | Err err => mismatch (Some err)
    | Panic message => mismatch (Some (ErrNew message))
    end
  end.

(** What [runCompletionRecovery] does next: [runLoop], or [finishRun]. *)
Inductive recovery_end := LoopFrom (step : string) | FinishWith (outcome : stepOutcome) (termination : option RunTermination).
Definition recovery_failed (err : completion_error) : recovery_end :=
  if completion_canceled err then FinishWith stepCanceled (Some canceledRunTermination)
  else
    match err with
    | GateRunError g => FinishWith stepFailed (completionGateTermination (GateRunError g))
    | OtherError err => FinishWith stepFailed (Some (terminationFromError rendered TerminationRuntime CodeRuntimeFailed err))
    end.
Definition recovery_continued (out : completion_end) : recovery_end :=
  match out with
  | CompletionFailed _ true | Continued RunCanceledMeanwhile => FinishWith stepCanceled (Some canceledRunTermination)
  | CompletionFailed err false => recovery_failed err
  | Continued NoContinuation => FinishWith stepNatural None
  | Continued (ContinueAt next) => LoopFrom next
  end.
Definition runCompletionRecovery (rounds : nat) (o : completionOccurrence + list ExtensionJournalEntry * completionGateRunError)
    : completions (option recovery_end) :=
  match o with
  | inr (entries, g) =>
    out ← region (settleCompletionRecoveryEntries e k entries (ge_code g));
    mret (Some (FinishWith stepFailed (completionGateTermination
      (GateRunError (MkGateRunError (ge_code g) (ge_reason g) (Some (ErrJoin (option_list (ge_cause g) ++ option_list (outcome_error out)))))))))
  | inl o =>
    recorded ← ask RecordingDecision;
    '(continued, superseded, retryGoal, err) ← executeCompletionOccurrence c e k recorded (Some o);
    match err with
    | Some err => mret (Some (recovery_failed err))
    | None =>
      if (superseded : bool) || (retryGoal : bool) then out ← continueAfterCompletion rounds; mret (recovery_continued <$> out)
      else mret (Some (if (continued : bool) then LoopFrom (oc_nextStep o) else FinishWith stepNatural None))
    end
  end.

End Steps.
