(* ===== verification/RuntimeFacts.v ===== *)
(** * What the computations of a runtime change

    The run a snapshot records and the model attempts and tool calls of its
    history, what a commit and a recovery do to them, and a Hoare logic for the
    computations of a runtime.  A computation is quiet when it leaves these and
    the fields of the runtime as they are, except the revision, the counter of
    identities and the notices. *)

From stdpp Require Import pretty.
From S2P Require Import Prelude GoStrings AgentTypes ModelContracts SessionTypes ExtensionJournal.
From S2P Require Import SessionValidate SessionHistory SessionApply SessionRecover SessionCreate SessionStore SessionManager HookViews.
From S2P Require Import TextFacts SessionHistoryFacts SessionInvariant SessionCommitFacts SessionRecoverFacts SessionStoreFacts SessionSafety SessionProperties.
From S2P Require Import ToolDispatcher LoopProtocol RuntimeState RuntimeCommands RuntimeRun RuntimeLifecycle.
From S2P Require Import ModelStream.

(** ** The run of a snapshot *)
Definition attempts (h : list HistoryFact) : list ModelAttemptFact := omap hf_ModelAttempt h.
Definition tool_calls (h : list HistoryFact) : list ToolCall := omap hf_ToolCall h.

(** The run state with the active run, the attempts and the calls. *)
Definition run_view : Type := RunState * string * list ModelAttemptFact * list ToolCall.
Definition view_of (s : Snapshot) : run_view := (sn_RunState s, sn_ActiveRunID s, attempts (sn_History s), tool_calls (sn_History s)).

(** What one change of a commit does to it. *)
Definition change_attempt (c : Change) : option ModelAttemptFact := if bool_decide (ch_Kind c = AppendModelAttempt) then ch_ModelAttempt c else None.
Definition change_call (c : Change) : option ToolCall := if bool_decide (ch_Kind c = AppendToolCall) then ch_ToolCall c else None.
Definition change_run (run : RunState * string) (c : Change) : RunState * string :=
  if bool_decide (ch_Kind c = SetRunState) then
    match ch_RunState c with
    | Some r => if bool_decide (rsc_State r = RunRunning) then (RunRunning, rsc_RunID r) else (RunIdle, "")
    | None => run
    end
  else run.
Definition view_changed (v : run_view) (c : Change) : run_view :=
  let '(run, a, t) := v in (change_run run c, a ++ option_list (change_attempt c), t ++ option_list (change_call c)).
Definition view_after (cs : list Change) (v : run_view) : run_view := foldl view_changed v cs.

Definition quiet_change (c : Change) : Prop := forall v, view_changed v c = v.

Section Applied.
Context {J : JsonOps} {F : Fingerprints}.

Lemma append_fact_view clock s sid source actor s' :
  append_fact clock s sid source actor = Ok s' ->
  view_of s' = (sn_RunState s, sn_ActiveRunID s, attempts (sn_History s) ++ option_list (hf_ModelAttempt source),
                tool_calls (sn_History s) ++ option_list (hf_ToolCall source)).
Proof.
  intros ->%append_fact_Ok. unfold view_of, attempts, tool_calls; simpl. rewrite !omap_app. simpl.
  by destruct (hf_ModelAttempt source), (hf_ToolCall source).
Qed.

Lemma append_or_conflict_view clock s sid source actor s' :
  append_or_conflict clock s sid source actor = Ok s' ->
  view_of s' = (sn_RunState s, sn_ActiveRunID s, attempts (sn_History s) ++ option_list (hf_ModelAttempt source),
                tool_calls (sn_History s) ++ option_list (hf_ToolCall source)).
Proof. unfold append_or_conflict. intros H%map_err_Ok. by eapply append_fact_view. Qed.

Ltac fact_view :=
  match goal with
  | H : append_fact _ _ _ _ _ = Ok ?s |- view_of ?s = _ => apply append_fact_view in H; rewrite H; simpl; by rewrite ?app_nil_r
  | H : append_or_conflict _ _ _ _ _ = Ok ?s |- view_of ?s = _ => apply append_or_conflict_view in H; rewrite H; simpl; by rewrite ?app_nil_r
  end.

Lemma journal_view s e sid s' : applyJournal s e sid = Ok s' -> view_of s' = view_of s.
Proof.
  unfold applyJournal. intros H. apply bind_Ok in H as (?&_&H). destruct (journalIndex _ _); [|by inv_ok].
  apply bind_Ok in H as (?&_&H). apply bind_Ok in H as (?&_&H). cbv zeta in H. apply bind_Ok in H as (?&_&H).
  destruct (bool_decide _); [done|]. destruct (bool_decide _); [by inv_ok|]. destruct (je_ToolResult e); [|done]. by inv_ok.
Qed.

Ltac other_view := repeat match goal with x : (_ * _)%type |- _ => destruct x end; inv_ok; unfold view_of; simpl; by rewrite ?app_nil_r.

Lemma apply_change_view clock request s c s' : apply_change clock request s c = Ok s' -> view_of s' = view_changed (view_of s) c.
Proof.
  intros H. unfold view_changed, view_of at 2, change_run, change_attempt, change_call.
  unfold apply_change in H. destruct (ch_Kind c) eqn:Ek; cbv zeta in H;
    repeat first [rewrite (bool_decide_eq_true_2 (_ = _)) by congruence | rewrite (bool_decide_eq_false_2 (_ = _)) by congruence].
  - inv_ok. fact_view.
  - apply bind_Ok in H as (call&Hc%deref_Ok&H). unfold apply_AppendToolCall in H. rewrite Hc.
    apply bind_Ok in H as (?&_&H). destruct (findMessage _ _); [|done]. inv_ok. fact_view.
  - inv_ok. fact_view.
  - inv_ok. unfold appendRunFact in *. destruct (runFacts _ _). inv_ok. fact_view.
  - apply bind_Ok in H as (a&Ha%deref_Ok&H). rewrite Ha. unfold appendModelAttemptFact in H. cbv zeta in H.
    apply bind_Ok in H as (?&_&H). fact_view.
  - inv_ok. unfold appendContextContributionFact in *. inv_ok. fact_view.
  - inv_ok. unfold appendRunBudgetExceededFact in *. inv_ok. fact_view.
  - inv_ok. unfold appendRunLimitExceededFact in *. inv_ok. fact_view.
  - inv_ok. fact_view.
  - inv_ok. other_view.
  - inv_ok. other_view.
  - apply bind_Ok in H as (?&_&H). destruct (queueIndex _ _); [|done]. inv_ok. other_view.
  - inv_ok. other_view.
  - inv_ok. other_view.
  - inv_ok. other_view.
  - inv_ok. unfold apply_SetContext in *. inv_ok. other_view.
  - inv_ok. other_view.
  - apply bind_Ok in H as (r&Hr%deref_Ok&H). rewrite Hr. unfold applyRunState in H. destruct (rsc_State r); inv_ok; other_view.
  - inv_ok. match goal with H : applyJournal _ _ _ = Ok _ |- _ => apply journal_view in H; rewrite H end. other_view.
  - inv_ok. other_view.
  - inv_ok. other_view.
Qed.

Lemma apply_changes_view clock request cs s s' : foldM (apply_change clock request) cs s = Ok s' -> view_of s' = view_after cs (view_of s).
Proof.
  revert s; induction cs as [|c cs IH]; simpl; intros s H; [by injection H as <-|]. apply bind_Ok in H as (s1&Hc&H).
  rewrite (IH _ H). by rewrite (apply_change_view _ _ _ _ _ Hc).
Qed.

Lemma applyChanges_view clock s request s' : applyChanges clock s request = Ok s' -> view_of s' = view_after (cr_Changes request) (view_of s).
Proof.
  unfold applyChanges. cbv zeta. intros H. apply bind_Ok in H as (?&_&H). apply bind_Ok in H as (?&_&H). apply bind_Ok in H as (?&_&H).
  apply bind_Ok in H as (s1&Hf&H). apply bind_Ok in H as (?&_&H). apply bind_Ok in H as (?&_&H). injection H as <-. by eapply apply_changes_view.
Qed.

(** ** Recovery *)
Definition starts (h : list HistoryFact) : list ModelAttemptFact := List.filter is_attempt_start (attempts h).

Record recovers (s0 s : Snapshot) : Prop := {
  rc_calls : tool_calls (sn_History s) = tool_calls (sn_History s0);
  rc_starts : starts (sn_History s) = starts (sn_History s0);
  rc_runs : forall a, a ∈ attempts (sn_History s) -> exists a0, a0 ∈ attempts (sn_History s0) /\ ma_RunID a0 = ma_RunID a;
  rc_run : (sn_RunState s, sn_ActiveRunID s) = (sn_RunState s0, sn_ActiveRunID s0) \/ (sn_RunState s, sn_ActiveRunID s) = (RunIdle, "");
}.

Lemma recovers_refl s : recovers s s.
Proof. split; eauto. Qed.

(** Steps that keep the history and the run. *)
Lemma recovers_same s0 s s' : recovers s0 s -> sn_History s' = sn_History s ->
  (sn_RunState s', sn_ActiveRunID s') = (sn_RunState s, sn_ActiveRunID s) \/ (sn_RunState s', sn_ActiveRunID s') = (RunIdle, "") -> recovers s0 s'.
Proof. intros [H1 H2 H3 H4] Hh Hr. split; rewrite ?Hh; try done. destruct Hr as [->|]; [done|by right]. Qed.

Lemma recover_append_recovers clock message s0 s fact :
  recovers s0 s -> hf_ToolCall fact = None ->
  (forall a, hf_ModelAttempt fact = Some a -> is_attempt_start a = false /\ exists a0, a0 ∈ attempts (sn_History s0) /\ ma_RunID a0 = ma_RunID a) ->
  recovers s0 (recover_append clock message s fact).1.
Proof.
  intros [H1 H2 H3 H4] Hc Ha. unfold recover_append. destruct (append_fact _ _ _ _ _) as [s'|e|msg] eqn:E; simpl; try by split.
  apply append_fact_view in E. unfold view_of in E. injection E as Hr Hi Hat Hcl. split.
  - rewrite Hcl, H1, Hc. simpl. by rewrite app_nil_r.
  - unfold starts in *. rewrite Hat, List.filter_app, H2. destruct (hf_ModelAttempt fact) as [a|]; simpl; [|by rewrite app_nil_r].
    destruct (Ha a eq_refl) as [-> _]. by rewrite app_nil_r.
  - intros a. rewrite Hat, elem_of_app. intros [?|Hin]; [by apply H3|]. destruct (hf_ModelAttempt fact) as [a'|]; [|by apply elem_of_nil in Hin].
    apply list_elem_of_singleton in Hin as ->. by destruct (Ha a' eq_refl).
  - by rewrite Hr, Hi.
Qed.

Lemma terminate_attempts_recovers clock s0 terminal started : forall s changed,
  recovers s0 s -> (forall id a, (id, a) ∈ started -> a ∈ attempts (sn_History s0)) -> recovers s0 (terminate_attempts clock s terminal changed started).1.
Proof.
  induction started as [|[id a] started IH]; intros s changed Hs Hin; [done|]. simpl. destruct (bool_decide _); [apply IH; [done|set_solver]|].
  pose proof (recover_append_recovers clock "cannot terminate orphaned model attempt" s0 s (fact_ModelAttempt (interrupted_attempt a)) Hs eq_refl) as Hr.
  destruct (recover_append _ _ _ _) as [s' [u|e|msg]]; simpl in *; [apply IH; [|set_solver]|..];
    (apply Hr; intros ? [= <-]; split; [done|]; exists a; split; [by apply (Hin id); left|done]).
Qed.

Lemma recover_journal_recovers clock runID s0 entries : forall s visited prepared changed,
  recovers s0 s -> recovers s0 (recover_journal clock runID s visited entries prepared changed).1.
Proof.
  induction entries as [|e entries IH]; intros s visited prepared changed Hs; simpl.
  { eapply recovers_same; [exact Hs|done|by left]. }
  destruct (je_ToolCall e) as [call|]; [|by apply IH]. destruct (_ && _); [by apply IH|]. destruct (negb _); [by apply IH|].
  assert (recovers s0 (if hasToolResult (sn_History s) (call_ID call) then (s, Ok tt)
    else recover_append clock "cannot append unknown tool result" s (fact_ToolResult (toolUnknown (call_ID call)))).1) as Hr.
  { destruct (hasToolResult _ _); [done|]. by apply recover_append_recovers. }
  destruct (if hasToolResult _ _ then _ else _) as [s' [u|err|msg]]; simpl in *; [by apply IH|..]; (eapply recovers_same; [exact Hr|done|by left]).
Qed.

Lemma recover_run_recovers clock runID recoverable changed s0 s :
  recovers s0 s -> recovers s0 (recover_run clock runID recoverable changed s).1.
Proof.
  intros Hs. unfold recover_run. destruct (_ && _); [|done].
  assert (forall started, let out := recover_append clock "cannot append interrupted run" s
    (fact_Run (interrupted_run started (recoveredRunTermination (sn_History s) runID))) in recovers s0 out.1) as Hr
    by (intros started out; by apply recover_append_recovers).
  assert (recovers s0 (with_run s RunIdle "")) by (by eapply recovers_same; [exact Hs|done|right]).
  destruct (runFacts _ _) as [[started|] [terminal|]]; cbv beta iota; simpl; [done| |done..].
  specialize (Hr started). cbv zeta in Hr. destruct (recover_append _ _ _ _) as [s' [u|err|msg]]; simpl in *; [|done..].
  eapply recovers_same; [exact Hr|done|by right].
Qed.

Lemma attempt_maps_in h id a : (attempt_maps h).1 !! id = Some a -> a ∈ attempts h.
Proof.
  induction h as [|f h IH] using rev_ind; [done|]. rewrite attempt_maps_snoc. unfold attempts in *. rewrite omap_app. simpl.
  destruct (hf_ModelAttempt f) as [b|]; [|by rewrite app_nil_r]. destruct (is_attempt_start b); simpl; [|set_solver].
  intros [[_ ->]|[_ ?]]%lookup_insert_Some; set_solver.
Qed.

Lemma recoverAggregate_recovers r s : (forall m, iterate r m ≡ₚ map_to_list m) -> recovers s (recoverAggregate r s).1.
Proof.
  intros Hit. unfold recoverAggregate. cbv zeta. destruct (attempt_maps _) as [started terminal] eqn:Em.
  assert (recovers s (terminate_attempts (at_fact r) (with_extensions s (recover_extensions (at_extension r) (sn_ExtensionJournal s))) terminal
    (existsb is_pending_extension (sn_ExtensionJournal s)) (iterate r started)).1) as Hs1.
  { apply terminate_attempts_recovers; [eapply recovers_same; [apply recovers_refl|done|by left]|].
    intros id a Hin. rewrite Hit in Hin. apply elem_of_map_to_list in Hin. apply (attempt_maps_in _ id). simpl in Em. by rewrite Em. }
  destruct (terminate_attempts _ _ _ _ _) as [s1 [changed|e|msg]]; [|done..].
  pose proof (recover_journal_recovers (at_fact r) (sn_ActiveRunID s) s (sn_RunJournal s1) s1 [] false changed Hs1) as Hs2. simpl in *.
  destruct (recover_journal _ _ _ _ _ _ _) as [s2 [[prepared changed']|e|msg]]; simpl in *; [|done..].
  pose proof (recover_run_recovers (at_fact r) (sn_ActiveRunID s) (prepared || existsb (prepared_completion (sn_ActiveRunID s)) (sn_ExtensionJournal s2)) changed' s s2 Hs2) as Hs3.
  destruct (recover_run _ _ _ _ _) as [s3 [changed''|e|msg]]; simpl in *; [|done..].
  unfold recover_queue. destruct (_ || _); simpl; [done|]. eapply recovers_same; [exact Hs3|done|by left].
Qed.

End Applied.

(** ** Identities end in their number *)
Fixpoint dashless (s : string) : bool := match s with EmptyString => true | String c s => negb (Ascii.eqb c (Ascii.ascii_of_nat 45)) && dashless s end.

Lemma dashless_suffix a x : dashless (a +:+ "-" +:+ x) = false.
Proof. induction a as [|c a IH]; [done|]. simpl. rewrite IH. by destruct (negb _). Qed.
Lemma last_segment a b x y : dashless x = true -> dashless y = true -> a +:+ "-" +:+ x = b +:+ "-" +:+ y -> x = y.
Proof.
  intros Hx Hy. revert b. induction a as [|c a IH]; intros [|d b]; simpl; intros H; injection H; clear H; intros H0; try intros _.
  - done.
  - change (x = b +:+ "-" +:+ y) in H0. by rewrite H0, dashless_suffix in Hx.
  - change (a +:+ "-" +:+ x = y) in H0. by rewrite <-H0, dashless_suffix in Hy.
  - by eapply IH.
Qed.

Lemma dashless_digit x s : dashless (String (pretty_N_char x) s) = dashless s.
Proof. simpl. unfold pretty_N_char. by repeat case_match. Qed.
Lemma dashless_go x s : dashless s = true -> dashless (pretty_N_go x s) = true.
Proof.
  revert s. induction (N.lt_wf_0 x) as [x _ IH]; intros s Hs. destruct (decide (0 < x)%N) as [Hx|Hx].
  - rewrite pretty_N_go_step by done. apply IH; [apply N.div_lt; lia|]. by rewrite dashless_digit.
  - replace x with 0%N by lia. by rewrite pretty_N_go_0.
Qed.
Lemma dashless_pretty (n : N) : dashless (pretty n) = true.
Proof. unfold pretty, pretty_N. destruct (decide _); [done|]. by apply dashless_go. Qed.

Lemma append_assoc (a b c : string) : (a +:+ b) +:+ c = a +:+ b +:+ c.
Proof. induction a as [|x a IH]; [done|]. change (String x ((a +:+ b) +:+ c) = String x (a +:+ b +:+ c)). by rewrite IH. Qed.

Lemma identity_last kind kind' p p' a b :
  (0 <= a)%Z -> (0 <= b)%Z -> identity kind p a = identity kind' p' b -> a = b.
Proof.
  unfold identity. intros Ha Hb H.
  assert (forall k q n, k +:+ "-" +:+ q +:+ "-" +:+ pretty n = (k +:+ "-" +:+ q) +:+ "-" +:+ pretty (A := N) n) as Hs
    by (intros; by rewrite !append_assoc).
  rewrite !Hs in H. apply last_segment in H; [|apply dashless_pretty..]. apply (inj pretty) in H. lia.
Qed.

Lemma commit_key_last op op' kind kind' p p' a b :
  (0 <= a)%Z -> (0 <= b)%Z -> commit_key op (identity kind p a) = commit_key op' (identity kind' p' b) -> a = b.
Proof.
  unfold commit_key, identity. intros Ha Hb H.
  assert (forall o k q n, "runtime-" +:+ o +:+ "-" +:+ k +:+ "-" +:+ q +:+ "-" +:+ pretty n =
    ("runtime-" +:+ o +:+ "-" +:+ k +:+ "-" +:+ q) +:+ "-" +:+ pretty (A := N) n) as Hs by (intros; by rewrite !append_assoc).
  rewrite !Hs in H. apply last_segment in H; [|apply dashless_pretty..]. apply (inj pretty) in H. lia.
Qed.

(** ** Triples

    A computation started in [P] returns a value in [Q] or an error in [E],
    and never panics. *)
Definition triple {A} (P : world -> Prop) (m : M A) (Q : A -> world -> Prop) (E : world -> Prop) : Prop :=
  forall w, P w -> match m w with (w', Ok a) => Q a w' | (w', Err _) => E w' | (_, Panic _) => False end.

Lemma triple_ret {A} (P : world -> Prop) (a : A) (E : world -> Prop) (Q : A -> world -> Prop) : (forall w, P w -> Q a w) -> triple P (mret a) Q E.
Proof. intros H w Hw. by apply H. Qed.
Lemma triple_bind {A B} P (m : M A) (f : A -> M B) Q R E :
  triple P m Q E -> (forall a, triple (Q a) (f a) R E) -> triple P (m ≫= f) R E.
Proof. intros Hm Hf w Hw. specialize (Hm w Hw). unfold mbind, M_bind. destruct (m w) as [w' [a|e|msg]]; [by apply (Hf a)|done..]. Qed.
Lemma triple_weaken {A} P P' (m : M A) (Q Q' : A -> world -> Prop) (E E' : world -> Prop) :
  triple P' m Q' E' -> (forall w, P w -> P' w) -> (forall a w, Q' a w -> Q a w) -> (forall w, E' w -> E w) -> triple P m Q E.
Proof. intros H HP HQ HE w Hw. specialize (H w (HP w Hw)). destruct (m w) as [w' [a|e|msg]]; auto. Qed.
Lemma triple_pre {A} (P : world -> Prop) (m : M A) Q E : (forall w, P w -> triple (fun w' => w' = w) m Q E) -> triple P m Q E.
Proof. intros H w Hw. by apply (H w Hw). Qed.
Lemma triple_lift {A} (P : world -> Prop) (r : result A) (Q : A -> world -> Prop) (E : world -> Prop) :
  returns r -> (forall a w, r = Ok a -> P w -> Q a w) -> (forall w, P w -> E w) -> triple P (lift r) Q E.
Proof. intros Hr HQ HE w Hw. unfold lift. destruct r as [a|e|msg]; [by apply HQ|by apply HE|]. by destruct (Hr msg). Qed.
Lemma triple_fail {A} (P : world -> Prop) e (Q : A -> world -> Prop) (E : world -> Prop) : (forall w, P w -> E w) -> triple P (fail e) Q E.
Proof. intros H. by apply triple_lift. Qed.
Lemma triple_fail_if (P : world -> Prop) bad e (Q : unit -> world -> Prop) (E : world -> Prop) :
  (forall w, bad = false -> P w -> Q tt w) -> (forall w, P w -> E w) -> triple P (fail_if bad e) Q E.
Proof. intros HQ HE. apply triple_lift; [apply returns_reject| |done]. intros [] w H%reject_if_Ok. by apply HQ. Qed.
Lemma triple_gets {A} (P : world -> Prop) (f : runtimeInstance -> A) E : triple P (gets f) (fun a w => P w /\ a = f (w_rt w)) E.
Proof. by intros w Hw. Qed.
Lemma triple_modify (P : world -> Prop) f (Q : unit -> world -> Prop) E :
  (forall w, P w -> Q tt (World (w_store w) (f (w_rt w)))) -> triple P (modify f) Q E.
Proof. intros H w Hw. by apply H. Qed.
Lemma triple_catch {A} P (m : M A) Q E E' : triple P m Q E -> triple P (catch m) (fun r w => match r with inl a => Q a w | inr _ => E w end) E'.
Proof. intros H w Hw. specialize (H w Hw). unfold catch. by destruct (m w) as [w' [a|e|msg]]. Qed.
Lemma triple_mapM {A B} (P : world -> Prop) (f : A -> M B) l E : (forall a, triple P (f a) (fun _ => P) E) -> triple P (mapM_ f l) (fun _ => P) E.
Proof.
  intros H. induction l as [|a l IH]; [by apply triple_ret|]. simpl. eapply triple_bind; [apply H|]. intros b. eapply triple_bind; [exact IH|].
  intros bs. by apply triple_ret.
Qed.

(** ** What stays the same *)

(** A runtime without the parts that every operation moves. *)
Definition frame (r : runtimeInstance) : runtimeInstance := set_notices (set_revision (set_sequence (set_session r (MkMemorySession (ri_id r) 0)) 0) 0) [].
Definition stored (w : world) : option memoryAggregate := st_sessions (w_store w) !! ri_id (w_rt w).
Definition stored_view (w : world) : option run_view := (view_of ∘ ag_snapshot) <$> stored w.
Definition sequence (w : world) : Z := ri_sequence (w_rt w).
(** A 64-bit number that no identity of the runtime has yet. *)
Definition unused (w : world) (n : Z) : Prop := (sequence w < n < 2 ^ 64)%Z.

Section Triples.
Context {J : JsonOps} {F : Fingerprints} {R : RequestFingerprint} {K : CursorCodec}.

Record sound (w : world) : Prop := {
  so_wf : wf_store (w_store w);
  so_stored : is_Some (stored w);
  so_keys : forall a op n, stored w = Some a -> unused w n -> ag_idempotency a !! commit_key op (identity "commit" (ri_prefix (w_rt w)) n) = None;
  so_sequence : (0 <= sequence w)%Z;
}.

Record after (w0 w : world) : Prop := {
  af_sound : sound w;
  af_frame : frame (w_rt w) = frame (w_rt w0);
  af_view : stored_view w = stored_view w0;
  af_sequence : (sequence w0 <= sequence w)%Z;
}.
Definition quiet {A} (w0 : world) (m : M A) : Prop := triple (after w0) m (fun _ => after w0) (after w0).

(** The world after the changes [cs] were committed, as long as the identities
    have not run out. *)
Record committed (w0 : world) (cs : list Change) (w : world) : Prop := {
  cm_sound : sound w;
  cm_frame : frame (w_rt w) = frame (w_rt w0);
  cm_view : stored_view w = stored_view w0 \/ stored_view w = view_after cs <$> stored_view w0;
  cm_applied : (sequence w < 2 ^ 64)%Z -> stored_view w = view_after cs <$> stored_view w0;
  cm_sequence : (sequence w0 < sequence w)%Z;
}.

Lemma after_refl w : sound w -> after w w.
Proof. intros H. by split. Qed.
Lemma frame_id r r' : frame r = frame r' -> ri_id r = ri_id r'.
Proof. intros H. by apply (f_equal ri_id) in H. Qed.
Lemma frame_prefix r r' : frame r = frame r' -> ri_prefix r = ri_prefix r'.
Proof. intros H. by apply (f_equal ri_prefix) in H. Qed.

(** Moving the revision, the notices or the counter. *)
Lemma after_move w0 w r' :
  after w0 w -> frame r' = frame (w_rt w) -> (ri_sequence (w_rt w) <= ri_sequence r')%Z -> after w0 (World (w_store w) r').
Proof.
  intros [[S1 S2 S3 S4] Hf Hv Hs] Hr Hq. pose proof (frame_id _ _ Hr) as Hid. unfold stored_view, stored, unused, sequence in *. split; simpl; [split; simpl|..].
  - done.
  - unfold stored; simpl. by rewrite Hid.
  - intros a op n. unfold stored, unused, sequence; simpl. rewrite Hid, (frame_prefix _ _ Hr). intros Ha Hn. apply S3; [done|lia].
  - unfold sequence; simpl. lia.
  - congruence.
  - unfold stored_view, stored; simpl. rewrite Hid. exact Hv.
  - unfold sequence; simpl. lia.
Qed.

Lemma quiet_bind {A B} w0 (m : M A) (f : A -> M B) : quiet w0 m -> (forall a, quiet w0 (f a)) -> quiet w0 (m ≫= f).
Proof. intros Hm Hf. by eapply triple_bind. Qed.
Lemma quiet_ret {A} w0 (a : A) : quiet w0 (mret a).
Proof. by apply triple_ret. Qed.
Lemma quiet_lift {A} w0 (r : result A) : returns r -> quiet w0 (lift r).
Proof. intros H. by apply triple_lift. Qed.
Lemma quiet_fail {A} w0 e : quiet w0 (fail (A := A) e).
Proof. by apply triple_fail. Qed.
Lemma quiet_fail_if w0 bad e : quiet w0 (fail_if bad e).
Proof. by apply triple_fail_if. Qed.
Lemma quiet_gets {A} w0 (f : runtimeInstance -> A) : quiet w0 (gets f).
Proof. by intros w Hw. Qed.
Lemma quiet_now w0 e : quiet w0 (now e).
Proof. by intros w Hw. Qed.
(** After a check it is known that it passed. *)
Lemma quiet_guard {B} w0 bad e (f : unit -> M B) : (bad = false -> quiet w0 (f tt)) -> quiet w0 (fail_if bad e ≫= f).
Proof.
  intros H. eapply triple_bind; [apply (triple_fail_if (after w0) bad e (fun _ w => after w0 w /\ bad = false)); [by split|done]|].
  intros [] w [Hw Hb]. by apply H.
Qed.

(** What is read from the runtime has the frame it had. *)
Lemma quiet_self {A} w0 (f : runtimeInstance -> M A) :
  (forall r, frame r = frame (w_rt w0) -> quiet w0 (f r)) -> quiet w0 (self ≫= f).
Proof. intros H w Hw. by apply (H (w_rt w) (af_frame _ _ Hw) w). Qed.
Lemma quiet_modify w0 f :
  (forall r, frame (f r) = frame r) -> (forall r, ri_sequence (f r) = ri_sequence r) -> quiet w0 (modify f).
Proof. intros Hf Hs. apply triple_modify. intros w Hw. apply after_move; [done|done|by rewrite Hs]. Qed.
Lemma quiet_mapM {A B} w0 (f : A -> M B) l : (forall a, quiet w0 (f a)) -> quiet w0 (mapM_ f l).
Proof. apply triple_mapM. Qed.
Lemma quiet_catch {A} w0 (m : M A) : quiet w0 m -> quiet w0 (catch m).
Proof. intros H. eapply triple_weaken; [by eapply triple_catch|done| |done]. by intros [a|e] w. Qed.

Lemma nextID_spec w0 kind :
  triple (after w0) (nextID kind)
    (fun id w => after w0 w /\ exists n, (sequence w0 < n <= sequence w)%Z /\ id = identity kind (ri_prefix (w_rt w0)) (u64 n)) (after w0).
Proof.
  intros w Hw. unfold nextID. pose proof (af_sequence _ _ Hw) as Hs. split.
  - apply after_move; [done|done|]. simpl. lia.
  - exists (ri_sequence (w_rt w) + 1)%Z. unfold sequence in *. simpl. split; [lia|]. by rewrite (frame_prefix _ _ (af_frame _ _ Hw)).
Qed.
Lemma quiet_nextID w0 kind : quiet w0 (nextID kind).
Proof. eapply triple_weaken; [apply nextID_spec|done| |done]. by intros id w [? _]. Qed.

(** *** Reading the aggregate *)
Definition loaded (w0 : world) (s : Snapshot) (w : world) : Prop := after w0 w /\ exists a, stored w = Some a /\ ag_snapshot a = s.

Lemma Load_Ok ctx st id s : Load ctx st id = Ok s -> exists a, st_sessions st !! id = Some a /\ ag_snapshot a = s.
Proof.
  unfold Load. intros H. apply bind_Ok in H as (?&_&H). apply bind_Ok in H as (?&_&H). unfold find_aggregate in H.
  destruct (st_sessions st !! id) as [a|]; [|done]. injection H as <-. by exists a.
Qed.
Lemma Load_returns ctx st id : returns (Load ctx st id).
Proof.
  unfold Load, find_aggregate, contextErr. apply returns_bind; [by destruct ctx|]. intros _ _. apply returns_bind; [apply returns_reject|].
  intros _ _. by destruct (st_sessions st !! id).
Qed.

Lemma session_View_spec w0 ctx : triple (after w0) (session_View ctx) (loaded w0) (after w0).
Proof.
  intros w Hw. unfold session_View. pose proof (Load_returns ctx (w_store w) (ri_id (w_rt w))) as Hr.
  destruct (Load _ _ _) as [s|e|msg] eqn:E; [|done|by destruct (Hr msg)]. apply Load_Ok in E as (a&Ha&<-). split; [by apply after_move|].
  by exists a.
Qed.
Lemma viewLocked_spec w0 ctx : triple (after w0) (viewLocked ctx) (loaded w0) (after w0).
Proof.
  unfold viewLocked. eapply triple_bind; [apply session_View_spec|]. intros s. eapply triple_bind.
  - apply triple_modify with (Q := fun _ => loaded w0 s). intros w (Hw&a&Ha&Hs). split; [by apply after_move|]. by exists a.
  - intros u. by apply triple_ret.
Qed.
Lemma quiet_session_View w0 ctx : quiet w0 (session_View ctx).
Proof. eapply triple_weaken; [apply session_View_spec|done| |done]. by intros s w [? _]. Qed.
Lemma quiet_viewLocked w0 ctx : quiet w0 (viewLocked ctx).
Proof. eapply triple_weaken; [apply viewLocked_spec|done| |done]. by intros s w [? _]. Qed.

(** *** Commits *)
Lemma Commit_replayed r fresh ctx st q st' c :
  Commit r fresh ctx st q = (st', Ok c) -> co_Applied c = false ->
  exists a, st_sessions st !! cr_SessionID q = Some a /\ is_Some (ag_idempotency a !! cr_IdempotencyKey q).
Proof.
  intros H Hc. unfold Commit in H. destruct (contextErr ctx "session.commit" ;; _) as [a|e|msg] eqn:E; simplify_eq.
  apply bind_Ok in E as (u1&_&E). apply bind_Ok in E as (u2&_&E). unfold find_aggregate in E.
  destruct (st_sessions st !! cr_SessionID q) as [a'|] eqn:Ea; [|done]. injection E as ->. exists a. split; [done|].
  unfold commit_aggregate in H. destruct (requestFingerprint q) as [fp|]; cbn [mbind result_bind] in H; [|done].
  destruct (ag_idempotency a !! cr_IdempotencyKey q) as [previous|]; [done|]. exfalso.
  destruct (reject_if _ _) as [u|e|msg]; cbn [mbind result_bind] in H; [|done..].
  destruct (applyChanges _ _ _) as [s'|e|msg]; cbn [mbind result_bind] in H; [|done..].
  destruct (appendedHistoryRange _ _). injection H as _ <-. done.
Qed.

(** Moving the revision or the notices. *)
Lemma committed_move w0 cs w r' :
  committed w0 cs w -> frame r' = frame (w_rt w) -> ri_sequence r' = ri_sequence (w_rt w) -> committed w0 cs (World (w_store w) r').
Proof.
  intros [Hs Hf Hv Hb Hq] Hr Hn. pose proof (after_move w w r' (after_refl w Hs) Hr) as [A1 A2 A3 A4]; [lia|].
  split; [done|congruence|by rewrite A3| |]; unfold sequence in *; simpl in *; rewrite Hn; [by rewrite A3|lia].
Qed.

Lemma commit_stored r fresh ctx w0 w q st' out op :
  after w0 w -> cr_SessionID q = ri_id (w_rt w) ->
  cr_IdempotencyKey q = commit_key op (identity "commit" (ri_prefix (w_rt w)) (u64 (sequence w + 1))) ->
  Commit r fresh ctx (w_store w) q = (st', out) ->
  let w' := World st' (set_sequence (w_rt w) (sequence w + 1)) in
  match out with Ok _ => committed w0 (cr_Changes q) w' | Err _ => after w0 w' | Panic _ => False end.
Proof.
  intros Hw Hid Hkey HC w'. pose proof (Commit_returns r fresh ctx (w_store w) q) as Hret. rewrite HC in Hret. simpl in Hret.
  destruct Hw as [[S1 S2 S3 S4] Hf Hv Hs]. pose proof (commit_step r fresh ctx (w_store w) q S1) as [Hwf' _]. rewrite HC in Hwf'. simpl in Hwf'.
  assert (frame (w_rt w') = frame (w_rt w0)) as Hfr by exact Hf.
  pose proof (Commit_inv _ _ _ _ _ _ _ HC) as [[-> Hrep]|(a&s'&fp&upd&Ha&_&_&_&_&Happ&->&Hst)].
  - assert (after w0 w') as Ha.
    { apply (after_move w0 w (set_sequence (w_rt w) (sequence w + 1))); [by split|done|]. simpl. unfold sequence. lia. }
    destruct out as [c|e|msg]; [|done|by destruct (Hret msg)]. destruct Ha as [A1 A2 A3 A4].
    assert (sequence w' = sequence w + 1)%Z as Hq by done.
    split; try done; [by left| |lia]. intros Hb. exfalso.
    destruct (Commit_replayed _ _ _ _ _ _ _ HC (Hrep c eq_refl)) as (a&Ha&[m Hm]). rewrite Hkey in Hm. rewrite Hid in Ha.
    rewrite (S3 a op) in Hm; [done|done|]. unfold unused, u64 in *. rewrite Z.mod_small by lia. lia.
  - rewrite Hid in *.
    assert (stored w' = Some (MkAggregate (with_revision s' (u64 (sn_Revision s' + 1)))
        (<[cr_IdempotencyKey q := MkMemoryCommit fp (MkCommit (ri_id (w_rt w)) (sn_Revision (with_revision s' (u64 (sn_Revision s' + 1))))
           (appendedHistoryRange (length (sn_History (ag_snapshot a))) (length (sn_History s'))).1
           (appendedHistoryRange (length (sn_History (ag_snapshot a))) (length (sn_History s'))).2 true)]> (ag_idempotency a)) upd)) as Hst'.
    { unfold stored; simpl. rewrite Hst. apply lookup_insert_eq. }
    assert (stored_view w' = view_after (cr_Changes q) <$> stored_view w0) as Hview.
    { rewrite <-Hv. unfold stored_view. rewrite Hst'. unfold stored. rewrite Ha. simpl. f_equal. exact (applyChanges_view _ _ _ _ Happ). }
    split; [|done|by right|done|unfold w', sequence in *; simpl in *; lia].
    split; [done|by rewrite Hst'| |unfold w', sequence in *; simpl in *; lia].
    intros b op' n. rewrite Hst'. intros [= <-] Hn. cbn [ag_idempotency]. unfold unused, w', sequence in Hn; simpl in Hn.
    unfold sequence in *. rewrite lookup_insert_ne.
    + apply (S3 a op' n); [done|]. unfold unused, sequence. lia.
    + rewrite Hkey. intros Heq. apply commit_key_last in Heq; [|unfold u64..]; [|apply Z.mod_pos_bound; lia|lia].
      unfold u64 in Heq. rewrite Z.mod_small in Heq; lia.
Qed.

Lemma commitLockedAs_spec w0 e ctx expected op actor cs :
  triple (after w0) (commitLockedAs e ctx expected op actor cs) (fun _ => committed w0 cs) (after w0).
Proof.
  intros w Hw. cbv beta iota zeta delta [commitLockedAs mbind M_bind RuntimeState.nextID gets store_Commit].
  cbn [w_rt w_store]. destruct (Commit _ _ _ _ _) as [st' out] eqn:HC.
  apply (commit_stored _ _ _ w0 w _ st' out op) in HC; [|done..]. cbn [cr_Changes] in HC.
  destruct out as [c|err|msg]; [|exact HC|done]. unfold modify. cbn [w_rt w_store]. destruct (co_Applied c).
  - refine (committed_move w0 cs _ _ HC _ _); reflexivity.
  - refine (committed_move w0 cs _ _ HC _ _); reflexivity.
Qed.

Lemma committed_quiet w0 cs w : committed w0 cs w -> Forall quiet_change cs -> after w0 w.
Proof.
  intros [Hs Hf Hv _ Hq] Hc. assert (forall v, view_after cs v = v) as Hsame.
  { clear -Hc. induction Hc as [|c cs Hc _ IH]; intros v; [done|]. unfold view_after in *. simpl. by rewrite Hc. }
  split; [done|done| |lia]. destruct Hv as [->| ->]; [done|]. destruct (stored_view w0); [|done]. simpl. by rewrite Hsame.
Qed.
Lemma quiet_commitLockedAs w0 e ctx expected op actor cs : Forall quiet_change cs -> quiet w0 (commitLockedAs e ctx expected op actor cs).
Proof. intros Hc. eapply triple_weaken; [apply commitLockedAs_spec|done| |done]. intros c w Hw. exact (committed_quiet w0 cs w Hw Hc). Qed.
Lemma quiet_commitLocked w0 e ctx expected op cs : Forall quiet_change cs -> quiet w0 (commitLocked e ctx expected op cs).
Proof. apply quiet_commitLockedAs. Qed.

Lemma commitExternalLocked_spec w0 e ctx expected op actor cs :
  triple (after w0) (commitExternalLocked e ctx expected op actor cs) (fun _ => committed w0 cs) (after w0).
Proof.
  unfold commitExternalLocked. eapply triple_bind; [apply triple_catch, commitLockedAs_spec|]. intros [c|err]; [by apply triple_ret|].
  destruct (negb _); [by apply triple_fail|]. eapply triple_bind; [apply triple_catch, (quiet_session_View w0)|]. intros viewed.
  eapply triple_bind with (Q := fun _ => after w0).
  - destruct viewed; [by apply quiet_modify|apply quiet_ret].
  - intros _. eapply triple_bind; [apply (quiet_gets w0)|]. intros current. apply triple_fail. done.
Qed.
Lemma quiet_commitExternalLocked w0 e ctx expected op actor cs :
  Forall quiet_change cs -> quiet w0 (commitExternalLocked e ctx expected op actor cs).
Proof. intros Hc. eapply triple_weaken; [apply commitExternalLocked_spec|done| |done]. intros c w Hw. exact (committed_quiet w0 cs w Hw Hc). Qed.

End Triples.

(** * The quiet computations of a runtime

    Everything a runtime does except starting and ending runs and recording
    model attempts and tool calls leaves the run of its Session as it is, also
    the commits of the hooks and of the queue. *)

Create HintDb quiet.

(** ** Changes *)
Lemma quiet_kind c :
  ch_Kind c ≠ AppendModelAttempt -> ch_Kind c ≠ AppendToolCall -> ch_Kind c ≠ SetRunState -> quiet_change c.
Proof.
  intros H1 H2 H3 [[run a] t]. unfold view_changed, change_run, change_attempt, change_call. rewrite !bool_decide_eq_false_2 by done.
  simpl. by rewrite !app_nil_r.
Qed.

Definition quiet_changes (cs : list Change) : Prop := Forall quiet_change cs.
Lemma quiet_nil : quiet_changes [].
Proof. constructor. Qed.
Lemma quiet_cons c cs : quiet_change c -> quiet_changes cs -> quiet_changes (c :: cs).
Proof. by constructor. Qed.
Lemma quiet_app a b : quiet_changes a -> quiet_changes b -> quiet_changes (a ++ b).
Proof. apply Forall_app_2. Qed.
Lemma quiet_concat {A} (f : A -> list Change) l : (forall a, quiet_changes (f a)) -> quiet_changes (concat (map f l)).
Proof. intros H. induction l as [|a l IH]; [constructor|]. simpl. by apply quiet_app. Qed.
Lemma quiet_map {A} (f : A -> Change) l : (forall a, quiet_change (f a)) -> quiet_changes (map f l).
Proof. intros H. by apply Forall_fmap, Forall_true. Qed.
Lemma quiet_if (b : bool) x y : quiet_changes x -> quiet_changes y -> quiet_changes (if b then x else y).
Proof. by destruct b. Qed.
Lemma quiet_extension e : quiet_change (UpdateExtensionJournal_ e).
Proof. by apply quiet_kind. Qed.
#[export] Hint Resolve quiet_nil quiet_cons quiet_app quiet_concat quiet_map quiet_if quiet_extension : quiet.
#[export] Hint Extern 1 (quiet_change _) => (apply quiet_kind; discriminate) : quiet.

Lemma quiet_extensions es : quiet_changes (UpdateExtensionJournal_ <$> es).
Proof. by apply quiet_map, quiet_extension. Qed.
Lemma quiet_consume_context e inputs runID stepID : quiet_changes (consume_context e inputs runID stepID).
Proof. unfold consume_context. auto with quiet. Qed.
#[export] Hint Resolve quiet_extensions quiet_consume_context : quiet.

Lemma quiet_consumePendingInputContexts s id runID stepID : quiet_changes (consumePendingInputContexts s id runID stepID).
Proof. unfold consumePendingInputContexts. auto with quiet. Qed.
Lemma quiet_discardPendingInputContexts s id : quiet_changes (discardPendingInputContexts s id).
Proof. unfold discardPendingInputContexts. auto with quiet. Qed.
Lemma quiet_consumePendingLifecycleContexts s runID stepID : quiet_changes (consumePendingLifecycleContexts s runID stepID).
Proof. unfold consumePendingLifecycleContexts. auto with quiet. Qed.
#[export] Hint Resolve quiet_consumePendingInputContexts quiet_discardPendingInputContexts quiet_consumePendingLifecycleContexts : quiet.
Lemma quiet_appendInputConsumption s item runID stepID : quiet_changes (appendInputConsumption s item runID stepID).
Proof. unfold appendInputConsumption. cbv zeta. auto 10 with quiet. Qed.
Lemma quiet_result_changes call result : quiet_changes (result_changes call result).
Proof. unfold result_changes. auto with quiet. Qed.
#[export] Hint Resolve quiet_appendInputConsumption quiet_result_changes : quiet.
Lemma quiet_zip calls results : quiet_changes (concat (zip_with result_changes calls results)).
Proof. revert results; induction calls; intros []; simpl; auto with quiet. Qed.
Lemma quiet_inputGateRecovery s es at_ : quiet_changes (inputGateRecoveryChanges s es at_).
Proof. unfold inputGateRecoveryChanges. auto with quiet. Qed.
Lemma quiet_toolResultRecovery es at_ : quiet_changes (toolResultRecoveryChanges es at_).
Proof. unfold toolResultRecoveryChanges. auto with quiet. Qed.
Lemma quiet_superseded s o es : quiet_changes (discardSupersededLifecycleContexts s o es).
Proof. unfold discardSupersededLifecycleContexts. auto with quiet. Qed.
#[export] Hint Resolve quiet_zip quiet_inputGateRecovery quiet_toolResultRecovery quiet_superseded : quiet.

(** ** Computations *)
#[export] Hint Resolve quiet_ret quiet_fail quiet_fail_if quiet_gets quiet_now quiet_nextID quiet_session_View quiet_viewLocked
  quiet_mapM quiet_catch quiet_commitLocked quiet_commitLockedAs quiet_commitExternalLocked : quiet.
#[export] Hint Extern 2 (Forall quiet_change _) => (change (Forall quiet_change) with quiet_changes) : quiet.
#[export] Hint Extern 2 (quiet _ (lift _)) => (apply quiet_lift) : quiet.

(** Follow the structure of a quiet computation. *)
Ltac quiet :=
  repeat match goal with
  | |- quiet _ (fail_if _ _ ≫= _) => apply quiet_guard; intros ?; try discriminate
  | |- quiet _ (self ≫= _) => apply quiet_self; intros ? ?
  | |- quiet _ (_ ≫= _) => apply quiet_bind; [|intros ?]
  | |- quiet _ (match ?x with _ => _ end) => destruct x eqn:?
  | |- quiet _ (let _ := _ in _) => cbv zeta
  | |- quiet _ (mapM_ _ _) => apply quiet_mapM; intros ?
  | _ => solve [auto 10 with quiet returns]
  end.

Lemma AttemptStart_Validate_returns s : returns (AttemptStart_Validate s).
Proof. unfold AttemptStart_Validate. returns. Qed.
#[export] Hint Resolve AttemptStart_Validate_returns : returns.

Section Quiet.
Context {J : JsonOps} {F : Fingerprints} {R : RequestFingerprint} {K : CursorCodec} {V : ViewFingerprints} (c : runtimeComponents).

(** A quiet computation whose value satisfies [P]. *)
Definition quietly {A} (w0 : world) (m : M A) (P : A -> Prop) : Prop := triple (after w0) m (fun a w => after w0 w /\ P a) (after w0).
Lemma quietly_quiet {A} w0 (m : M A) P : quietly w0 m P -> quiet w0 m.
Proof. intros H. eapply triple_weaken; [exact H|done| |done]. by intros a w [? _]. Qed.
Lemma quietly_True {A} w0 (m : M A) (P : A -> Prop) : quiet w0 m -> (forall a, P a) -> quietly w0 m P.
Proof. intros H HP. eapply triple_weaken; [exact H|done| |done]. done. Qed.
Lemma quietly_ret {A} w0 (a : A) (P : A -> Prop) : P a -> quietly w0 (mret a) P.
Proof. intros H. by apply triple_ret. Qed.
Lemma quietly_bind {A B} w0 (m : M A) (f : A -> M B) P Q :
  quietly w0 m P -> (forall a, P a -> quietly w0 (f a) Q) -> quietly w0 (m ≫= f) Q.
Proof. intros Hm Hf. eapply triple_bind; [exact Hm|]. intros a w [Hw Ha]. by apply Hf. Qed.
Lemma quietly_after {A B} w0 (m : M A) (f : A -> M B) Q : quiet w0 m -> (forall a, quietly w0 (f a) Q) -> quietly w0 (m ≫= f) Q.
Proof. intros Hm Hf. eapply triple_bind; [exact Hm|]. intros a. apply Hf. Qed.
Lemma quiet_value {A B} w0 (m : M A) (f : A -> M B) P : quietly w0 m P -> (forall a, P a -> quiet w0 (f a)) -> quiet w0 (m ≫= f).
Proof. intros Hm Hf. eapply triple_bind; [exact Hm|]. intros a w [Hw Ha]. by apply Hf. Qed.
Lemma quietly_fail {A} w0 e (P : A -> Prop) : quietly w0 (fail e) P.
Proof. by apply triple_fail. Qed.
Lemma quietly_mapM {A B} w0 (f : A -> M B) l (P : B -> Prop) : (forall a, quietly w0 (f a) P) -> quietly w0 (mapM_ f l) (Forall P).
Proof.
  intros H. induction l as [|a l IH]; [by apply quietly_ret|]. simpl. eapply quietly_bind; [apply H|]. intros b Hb.
  eapply quietly_bind; [exact IH|]. intros bs Hbs. apply quietly_ret. by constructor.
Qed.

Lemma quiet_ensureOpenLocked w0 op : quiet w0 (ensureOpenLocked op).
Proof. unfold ensureOpenLocked. quiet. Qed.
Lemma quiet_new_message w0 e request : quiet w0 (new_message e request).
Proof. unfold new_message. quiet. Qed.
Lemma quiet_check_revision w0 op expected s : quiet w0 (check_revision op expected s).
Proof. unfold check_revision. quiet. Qed.
Hint Resolve quiet_ensureOpenLocked quiet_new_message quiet_check_revision : quiet.

Lemma quiet_steer w0 e request : quiet w0 (steer e request).
Proof. unfold steer. quiet. Qed.
Lemma quiet_editQueued w0 e request : quiet w0 (editQueued e request).
Proof. unfold editQueued. quiet. Qed.
Lemma quiet_deleteQueued w0 e request : quiet w0 (deleteQueued e request).
Proof.
  unfold deleteQueued. apply quiet_self. intros r _. apply quiet_bind; [auto with quiet|intros ?]. apply quiet_bind; [auto with quiet|intros ?].
  eapply (quiet_value _ _ _ quiet_changes).
  - destruct (ri_hasInputGateJournal r); [|by apply quietly_ret, quiet_nil]. apply quietly_after; [auto with quiet|]. intros s.
    apply quietly_ret. auto with quiet.
  - intros cs Hcs. quiet.
Qed.
Lemma quiet_reclassifyQueued w0 e request : quiet w0 (reclassifyQueued e request).
Proof. unfold reclassifyQueued. quiet. Qed.

(** ** The active run *)

(** The active run is in the table. *)
Definition lively (r : runtimeInstance) : Prop := forall k, ri_active r = Some k -> is_Some (ri_runs r !! k).

Lemma get_run_spec w0 k a : ri_runs (w_rt w0) !! k = Some a -> quietly w0 (get_run k) (fun a' => a' = a).
Proof.
  intros Ha w Hw. unfold get_run. pose proof (f_equal ri_runs (af_frame _ _ Hw)) as Hr. simpl in Hr. rewrite Hr, Ha. by split.
Qed.
Lemma quiet_get_run {B} w0 k (f : activeRun -> M B) :
  is_Some (ri_runs (w_rt w0) !! k) -> (forall a, ri_runs (w_rt w0) !! k = Some a -> quiet w0 (f a)) -> quiet w0 (get_run k ≫= f).
Proof. intros [a Ha] Hf. eapply quiet_value; [by apply get_run_spec|]. intros ? ->. by apply Hf. Qed.

Lemma is_active_frame r r0 k : frame r = frame r0 -> is_active r k = is_active r0 k.
Proof. intros H. apply (f_equal ri_active) in H. simpl in H. unfold is_active. by rewrite H. Qed.
Lemma is_active_true r k : is_active r k = true <-> ri_active r = Some k.
Proof. unfold is_active. by rewrite bool_decide_eq_true. Qed.

Lemma run_stopped_spec w0 k : lively (w_rt w0) -> quietly w0 (run_stopped k) (fun b => b = false -> ri_active (w_rt w0) = Some k).
Proof.
  intros Hl w Hw. unfold run_stopped. pose proof (af_frame _ _ Hw) as Hf. unfold self, gets, mbind, M_bind at 1.
  rewrite (is_active_frame _ _ k Hf). destruct (is_active (w_rt w0) k) eqn:Ea; simpl; [|by split].
  apply is_active_true in Ea. destruct (Hl k Ea) as [a Ha]. pose proof (get_run_spec w0 k a Ha w Hw) as Hg. unfold mbind, M_bind.
  destruct (get_run k w) as [w' [a'|err|msg]]; [|done..]. destruct Hg as [Hw' ->]. by split.
Qed.
Lemma quiet_stopped {B} w0 k (f : bool -> M B) :
  lively (w_rt w0) -> quiet w0 (f true) -> (ri_active (w_rt w0) = Some k -> quiet w0 (f false)) -> quiet w0 (run_stopped k ≫= f).
Proof. intros Hl Ht Hf. eapply quiet_value; [by apply run_stopped_spec|]. intros [] H; [done|]. by apply Hf, H. Qed.

Section Active.
Variable w0 : world.
Hypothesis Hl : lively (w_rt w0).

Ltac stopped := apply quiet_stopped; [exact Hl|quiet|intros ?; simpl].

Lemma quiet_markToolExecuting e k call : quiet w0 (markToolExecuting e k call).
Proof. unfold markToolExecuting. stopped. quiet. Qed.
Lemma quiet_recordRunLimitExceededLocked e s fact : quiet w0 (recordRunLimitExceededLocked e s fact).
Proof. unfold recordRunLimitExceededLocked. quiet. Qed.
Hint Resolve quiet_recordRunLimitExceededLocked : quiet.

Lemma quiet_recordModelAttemptLimitLocked e k step id :
  is_Some (ri_runs (w_rt w0) !! k) -> quiet w0 (recordModelAttemptLimitLocked c e k step id).
Proof. intros Hk. unfold recordModelAttemptLimitLocked. apply quiet_get_run; [done|]. intros a _. quiet. Qed.
Hint Resolve quiet_recordModelAttemptLimitLocked : quiet.

Lemma quiet_attempt_admitted e k step started : quiet w0 (attempt_admitted c e k step started).
Proof.
  unfold attempt_admitted. apply quiet_bind; [quiet|intros _]. stopped. apply quiet_guard. intros _.
  apply quiet_get_run; [by apply Hl|]. intros a _. apply quiet_guard. intros _.
  apply quiet_bind; [apply quiet_recordModelAttemptLimitLocked; by apply Hl|intros exceeded]. quiet.
Qed.

(** The rest of a computation that checked that [k] is the active run. *)
Lemma active_run r k : frame r = frame (w_rt w0) -> negb (is_active r k) = false -> is_Some (ri_runs (w_rt w0) !! k).
Proof. intros Hr Ha%negb_false_iff. rewrite (is_active_frame _ _ k Hr) in Ha. apply Hl. by apply is_active_true. Qed.

Lemma quiet_recordBudgetExceeded e k : quiet w0 (recordBudgetExceeded c e k).
Proof.
  unfold recordBudgetExceeded. apply quiet_self. intros r Hr. apply quiet_guard. intros Ha.
  apply quiet_get_run; [by eapply active_run|]. intros a _. quiet.
Qed.

(** ** Reservations *)
Lemma quiet_fingerprint p : quiet w0 (lift (fingerprint_of p)).
Proof. apply quiet_lift. by destruct p. Qed.
Hint Resolve quiet_fingerprint : quiet.

Lemma quietly_reserve_preflights e call revision at_ bindings : forall sequence,
  quietly w0 (reserve_preflights e call revision at_ sequence bindings) (fun p => quiet_changes p.1).
Proof.
  induction bindings as [|[scope descriptor] bindings IH]; intros sequence; simpl; [by apply quietly_ret, quiet_nil|].
  destruct (negb _); [apply IH|]. apply quietly_after; [auto with quiet|intros id].
  apply quietly_after; [apply quiet_gets|intros r]. apply quietly_after; [auto with quiet|intros fp].
  eapply quietly_bind; [apply IH|]. intros [cs next] Hcs. apply quietly_ret. simpl in *. auto with quiet.
Qed.
Lemma quietly_appendToolPreflightReservations e call revision sequence :
  quietly w0 (appendToolPreflightReservations c e call revision sequence) (fun p => quiet_changes p.1).
Proof.
  unfold appendToolPreflightReservations. destruct (rc_toolPreflights c); [by apply quietly_ret, quiet_nil|].
  apply quietly_after; [auto with quiet|intros _]. apply quietly_after; [auto with quiet|intros at_]. apply quietly_reserve_preflights.
Qed.

Lemma quiet_reserve_results e call result nextStep revision at_ bindings : forall sequence,
  quiet w0 (reserve_results e call result nextStep revision at_ sequence bindings).
Proof.
  induction bindings as [|[scope descriptor] bindings IH]; intros sequence; simpl; [apply quiet_ret|].
  apply quiet_bind; [auto with quiet|intros id]. apply quiet_self. intros r _. apply quiet_bind; [auto with quiet|intros fp].
  apply quiet_bind; [apply IH|]. intros [entries next]. apply quiet_ret.
Qed.
Lemma quiet_reserve_batch e s nextStep revision at_ batch : forall sequence,
  quiet w0 (reserve_batch c e s nextStep revision at_ sequence batch).
Proof.
  induction batch as [|[call result] batch IH]; intros sequence; simpl; [apply quiet_ret|].
  destruct (_ || _); [apply IH|]. apply quiet_bind; [apply quiet_reserve_results|]. intros [entries next].
  apply quiet_bind; [apply IH|]. intros rest. apply quiet_ret.
Qed.
Lemma quietly_appendToolResultReservations e s calls results nextStep revision :
  quietly w0 (appendToolResultReservations c e s calls results nextStep revision) (fun p => quiet_changes p.2).
Proof.
  unfold appendToolResultReservations. destruct (rc_toolResultHooks c); [by apply quietly_ret, quiet_nil|].
  apply quietly_after; [auto with quiet|intros _]. apply quietly_after; [auto with quiet|intros at_].
  apply quietly_after; [apply quiet_reserve_batch|intros occurrences]. apply quietly_ret. apply quiet_extensions.
Qed.

Lemma quiet_commitToolResults e k calls results :
  length results <= length calls -> quiet w0 (commitToolResults c e k calls results).
Proof.
  intros Hlen. unfold commitToolResults. apply quiet_self. intros r Hr. destruct (negb _) eqn:Ea; [apply quiet_ret|].
  apply quiet_get_run; [by eapply active_run|]. intros a _. apply quiet_bind; [auto with quiet|intros s].
  destruct (Nat.ltb_spec (length calls) (length results)); [lia|]. apply quiet_bind; [auto with quiet|intros nextStep].
  eapply quiet_value; [apply quietly_appendToolResultReservations|]. intros [occurrences reserved] Hr'. simpl in Hr'.
  apply quiet_bind; [|intros _; apply quiet_ret]. apply quiet_commitLocked. change (quiet_changes (concat (zip_with result_changes calls results) ++ reserved ++
         concat (map (fun item => appendInputConsumption s item (ar_id a) nextStep) (pendingByDelivery (sn_Queue s) DeliverySteer)))). auto with quiet.
Qed.

(** ** Continuation *)
Lemma quietly_proposal_changes e s runID step parts : quietly w0 (proposal_changes e s runID step parts) quiet_changes.
Proof. unfold proposal_changes. do 3 (apply quietly_after; [auto with quiet|intros ?]). apply quietly_ret. cbv zeta. auto with quiet. Qed.
Lemma quiet_followOn e k proposals : quiet w0 (followOn e k proposals).
Proof.
  unfold followOn. stopped. apply quiet_bind; [auto with quiet|intros s].
  apply quiet_get_run; [by apply Hl|]. intros a _. cbv zeta.
  assert (forall steers proposals, quiet w0 (nextStep ← nextID "step"; proposed ← mapM_ (proposal_changes e s (ar_id a) nextStep) proposals;
      commitLocked e Live (sn_Revision s) "follow-on"
        (concat (map (fun item => appendInputConsumption s item (ar_id a) nextStep) steers) ++ concat proposed) ;; mret (ContinueAt nextStep))) as Hgo.
  { intros steers proposals'. apply quiet_bind; [auto with quiet|intros nextStep].
    eapply quiet_value; [apply quietly_mapM, quietly_proposal_changes|]. intros proposed Hp.
    apply quiet_bind; [|intros _; apply quiet_ret]. apply quiet_commitLocked, Forall_app_2; [apply quiet_concat; auto with quiet|].
    by apply Forall_concat. }
  destruct (pendingByDelivery _ _); [destruct proposals; [apply quiet_ret|apply (Hgo [])]|apply (Hgo (_ :: _))].
Qed.

End Active.

(** ** Lifecycle hooks *)
Lemma SessionLifecycleView_Validate_returns v : returns (SessionLifecycleView_Validate v).
Proof. unfold SessionLifecycleView_Validate. returns. Qed.
Hint Resolve SessionLifecycleView_Validate_returns : returns.
Lemma validateContextProposal_returns inputs sid : returns (validateContextProposal inputs sid).
Proof. unfold validateContextProposal. cbv zeta. returns. Qed.
Hint Resolve validateContextProposal_returns : returns.
Lemma SessionLifecycleResult_Validate_returns r v : returns (SessionLifecycleResult_Validate r v).
Proof. unfold SessionLifecycleResult_Validate. returns. Qed.
Lemma lifecycle_outcome_returns at_ entry view a : returns (lifecycle_outcome at_ entry view a).
Proof.
  unfold lifecycle_outcome. cbv zeta. destruct a as [r|err declared|]; [|apply returns_Ok..].
  pose proof (SessionLifecycleResult_Validate_returns r view) as Hr. destruct (SessionLifecycleResult_Validate r view) as [u|err|msg]; [|apply returns_Ok|by destruct (Hr msg)].
  destruct (slr_Context r); [apply returns_Ok|]. apply returns_bind; [by destruct (FingerprintTypedInput _)|]. intros ? _. apply returns_Ok.
Qed.

Lemma quiet_prepare_lifecycles w0 s phase kind at_ descriptors : forall index, quiet w0 (prepare_lifecycles s phase kind at_ index descriptors).
Proof.
  induction descriptors as [|d descriptors IH]; intros index; simpl; [apply quiet_ret|].
  apply quiet_bind; [apply quiet_nextID|intros id]. apply quiet_self. intros r _. cbv zeta.
  apply quiet_bind; [apply quiet_lift, returns_map_err, SessionLifecycleView_Validate_returns|intros _].
  apply quiet_bind; [apply quiet_fingerprint|intros fp]. apply quiet_bind; [apply IH|intros rest]. apply quiet_ret.
Qed.
Lemma quiet_prepareSessionLifecycle w0 e s phase kind actor : quiet w0 (prepareSessionLifecycle c e s phase kind actor).
Proof.
  unfold prepareSessionLifecycle. destruct (matchingSessionLifecycles c phase); [apply quiet_ret|].
  apply quiet_bind; [apply quiet_now|intros at_]. apply quiet_bind; [apply quiet_prepare_lifecycles|intros prepared].
  apply quiet_bind; [apply quiet_commitLockedAs, quiet_extensions|intros ?]. apply quiet_ret.
Qed.
Lemma quiet_commitLifecycleEntries w0 e actor op entries : quiet w0 (commitLifecycleEntries e actor op entries).
Proof.
  unfold commitLifecycleEntries. apply quiet_bind; [apply quiet_viewLocked|intros s].
  apply quiet_bind; [apply quiet_commitLockedAs, quiet_extensions|intros ?]. apply quiet_ret.
Qed.
Lemma quiet_finalizeSessionLifecycle w0 e o succeeded failed : quiet w0 (finalizeSessionLifecycle e o succeeded failed).
Proof.
  unfold finalizeSessionLifecycle. apply quiet_bind; [apply quiet_viewLocked|intros s]. apply quiet_bind; [apply quiet_now|intros at_]. cbv zeta.
  match goal with |- quiet _ (match ?cs with _ => _ end) => assert (quiet_changes cs) as Hcs by (destruct (_ && _); auto with quiet); destruct cs end;
    [apply quiet_ret|]. apply quiet_bind; [by apply quiet_commitLockedAs|intros ?]. apply quiet_ret.
Qed.

Lemma quiet_lifecycle_chain w0 e evaluate rest : forall o succeeded index,
  index + length rest <= length (lo_entries o) -> quiet w0 (lifecycle_chain e evaluate o succeeded index rest).
Proof.
  induction rest as [|[d view] rest IH]; intros o succeeded index Hlen; simpl; [apply quiet_ret|]. simpl in Hlen.
  destruct (lookup_lt_is_Some_2 (lo_entries o) index) as [entry ->]; [lia|]. cbv zeta.
  match goal with |- quiet _ (if ?b then _ else _) => destruct b end; [apply quiet_finalizeSessionLifecycle|].
  apply quiet_bind; [apply quiet_now|intros at_]. apply quiet_bind; [apply quiet_lift, lifecycle_outcome_returns|intros [terminal failure]].
  destruct failure as [f|]; [apply quiet_finalizeSessionLifecycle|]. destruct rest as [|r rest]; [apply quiet_finalizeSessionLifecycle|].
  simpl in Hlen. destruct (lookup_lt_is_Some_2 (<[index:=terminal]> (lo_entries o)) (S index)) as [next ->];
    [simpl; rewrite length_insert; lia|].
  apply quiet_bind; [apply quiet_commitLifecycleEntries|intros _]. apply IH. simpl. rewrite !length_insert. simpl. lia.
Qed.
Lemma quiet_executeSessionLifecycle w0 e evaluate o : quiet w0 (executeSessionLifecycle c e evaluate o).
Proof.
  unfold executeSessionLifecycle. cbv zeta. destruct (lo_entries o) as [|first others] eqn:Eo; [apply quiet_ret|].
  apply quiet_bind; [apply quiet_now|intros at_]. destruct (negb _) eqn:El; [apply quiet_finalizeSessionLifecycle|].
  apply negb_false_iff, Nat.eqb_eq in El. apply quiet_bind; [apply quiet_commitLifecycleEntries|intros _]. apply quiet_lifecycle_chain.
  rewrite length_zip_with. simpl in *. lia.
Qed.

(** ** Recovery of the extensions *)
Lemma quiet_then_view w0 (m : M Commit_) : quiet w0 m -> triple (after w0) (m ;; session_View Live) (loaded w0) (after w0).
Proof. intros Hm. eapply triple_bind; [exact Hm|]. intros ?. apply session_View_spec. Qed.
Lemma loaded_after w0 s w : loaded w0 s w -> after w0 w.
Proof. by intros [? _]. Qed.

Lemma recoverSessionLifecycleEntries_spec w0 e s entries :
  triple (loaded w0 s) (recoverSessionLifecycleEntries e s entries) (loaded w0) (after w0).
Proof.
  unfold recoverSessionLifecycleEntries. intros w Hw. unfold now at 1, mbind at 1, M_bind at 1.
  destruct (omap _ entries) as [|u us]; [done|]. exact (quiet_then_view w0 _ (quiet_commitLocked w0 e Live _ _ _ (quiet_extensions _)) w (proj1 Hw)).
Qed.
Lemma recoverExtensionsAfterOpen_spec w0 e s plan :
  triple (loaded w0 s) (recoverExtensionsAfterOpen e s plan) (loaded w0) (after w0).
Proof.
  unfold recoverExtensionsAfterOpen. intros w Hw. unfold now at 1, mbind at 1, M_bind at 1.
  match goal with |- context [match ?cs with _ => _ end] => assert (quiet_changes cs) as Hcs by auto with quiet; destruct cs end; [done|].
  exact (quiet_then_view w0 _ (quiet_commitLocked w0 e Live _ _ _ Hcs) w (proj1 Hw)).
Qed.

End Quiet.

#[export] Hint Resolve quiet_ensureOpenLocked quiet_new_message quiet_check_revision quiet_fingerprint quiet_prepareSessionLifecycle
  quiet_executeSessionLifecycle : quiet.
