(* ===== verification/RuntimeInvariant.v ===== *)
(** * The invariant of a Session runtime

    The state machine of the runtime and the aggregate in the store agree: a
    run is active exactly when the store says so, the counters of the active
    run are those of the history, no run exceeds its limits, and no channel is
    closed twice.  Every computation of the runtime keeps this as long as its
    64-bit counter of identities does not wrap around. *)

From S2P Require Import Prelude GoStrings AgentTypes ModelContracts SessionTypes ExtensionJournal.
From S2P Require Import SessionValidate SessionHistory SessionApply SessionRecover SessionCreate SessionStore SessionManager HookViews ModelStream SessionSafety.
From S2P Require Import SessionInvariant SessionRecoverFacts SessionStoreFacts.
From S2P Require Import ToolDispatcher LoopProtocol RuntimeState RuntimeCommands RuntimeRun RuntimeLifecycle RuntimeFacts.

(** ** Counting in a history *)
Definition in_run (runID : string) (a : ModelAttemptFact) : bool := String.eqb (ma_RunID a) runID.
Definition tokens_in (runID : string) (l : list ModelAttemptFact) : Z :=
  foldl (fun n a => if negb (in_run runID a) || is_attempt_start a then n else i64 (n + use_TotalTokens (ma_Usage a))) 0%Z l.
Definition attempts_in (runID : string) (l : list ModelAttemptFact) : nat := length (List.filter (fun a => in_run runID a && is_attempt_start a) l).
Definition calls_in (runID : string) (l : list ToolCall) : nat := length (List.filter (fun t => String.eqb (call_RunID t) runID) l).

Lemma i64_add a b : i64 (i64 a + b) = i64 (a + b).
Proof.
  unfold i64. replace ((a + 2 ^ 63) mod 2 ^ 64 - 2 ^ 63 + b + 2 ^ 63)%Z with ((a + 2 ^ 63) mod 2 ^ 64 + b)%Z by lia.
  rewrite Z.add_mod_idemp_l by lia. f_equal. f_equal. lia.
Qed.

Lemma tokens_in_app runID l a :
  tokens_in runID (l ++ [a]) =
    if negb (in_run runID a) || is_attempt_start a then tokens_in runID l else i64 (tokens_in runID l + use_TotalTokens (ma_Usage a)).
Proof. unfold tokens_in. by rewrite foldl_app. Qed.
Lemma attempts_in_app runID l a :
  attempts_in runID (l ++ [a]) = attempts_in runID l + (if in_run runID a && is_attempt_start a then 1 else 0).
Proof. unfold attempts_in. rewrite List.filter_app, length_app. simpl. by destruct (_ && _). Qed.
Lemma calls_in_app runID l l' : calls_in runID (l ++ l') = calls_in runID l + calls_in runID l'.
Proof. unfold calls_in. by rewrite List.filter_app, length_app. Qed.
Lemma calls_in_own runID l : Forall (fun t => call_RunID t = runID) l -> calls_in runID l = length l.
Proof.
  unfold calls_in. induction 1 as [|t l Ht _ IH]; [done|]. simpl. rewrite (proj2 (String.eqb_eq _ _) Ht). simpl. by rewrite IH.
Qed.
Lemma calls_in_other runID other l : Forall (fun t => call_RunID t = other) l -> other ≠ runID -> calls_in runID l = 0.
Proof.
  intros H Hne. unfold calls_in. induction H as [|t l Ht _ IH]; [done|]. simpl.
  destruct (String.eqb_spec (call_RunID t) runID); [congruence|done].
Qed.

(** What a snapshot says about the run it records. *)
Lemma restored_attempts_count runID h : restored_attempts runID h = i64 (Z.of_nat (attempts_in runID (attempts h))).
Proof.
  unfold restored_attempts, attempts_in, attempts_of, attempts. induction h as [|f h IH] using rev_ind; [done|].
  rewrite !omap_app, foldl_app, List.filter_app, length_app, IH. simpl. destruct (hf_ModelAttempt f) as [a|]; simpl; [|by rewrite Nat.add_0_r].
  unfold in_run. destruct (String.eqb _ _); simpl; [|by rewrite Nat.add_0_r]. destruct (is_attempt_start a); simpl; [|by rewrite Nat.add_0_r].
  rewrite i64_add. f_equal. lia.
Qed.
Lemma restored_tokens_sum runID h : restored_tokens runID h = tokens_in runID (attempts h).
Proof.
  unfold restored_tokens, tokens_in, attempts_of, attempts. induction h as [|f h IH] using rev_ind; [done|].
  rewrite !omap_app, !foldl_app, IH. simpl. destruct (hf_ModelAttempt f) as [a|]; simpl; [|done]. unfold in_run.
  by destruct (String.eqb _ _).
Qed.
Lemma restored_calls_count runID h : restored_calls runID h = i64 (Z.of_nat (calls_in runID (tool_calls h))).
Proof.
  unfold restored_calls, calls_in, tool_calls. induction h as [|f h IH] using rev_ind; [done|].
  rewrite omap_app, foldl_app, List.filter_app, length_app, IH. simpl. destruct (hf_ToolCall f) as [t|]; simpl; [|by rewrite Nat.add_0_r].
  destruct (String.eqb _ _); simpl; [|by rewrite Nat.add_0_r]. rewrite i64_add. f_equal. lia.
Qed.

(** ** Changes *)
Lemma view_after_app cs cs' v : view_after (cs ++ cs') v = view_after cs' (view_after cs v).
Proof. apply foldl_app. Qed.
Lemma view_after_quiet cs v : quiet_changes cs -> view_after cs v = v.
Proof. intros H. revert v. induction H as [|c cs Hc _ IH]; intros v; [done|]. unfold view_after in *. simpl. by rewrite Hc. Qed.

(** The run [runID] does not occur. *)
Definition absent_run (runID : string) (v : run_view) : Prop :=
  let '(_, active, al, tl) := v in active ≠ runID /\ (forall a, a ∈ al -> ma_RunID a ≠ runID) /\ (forall t, t ∈ tl -> call_RunID t ≠ runID).

Lemma absent_attempts runID al : (forall a, a ∈ al -> ma_RunID a ≠ runID) -> attempts_in runID al = 0 /\ tokens_in runID al = 0%Z.
Proof.
  intros H. induction al as [|a al IH] using rev_ind; [done|]. rewrite attempts_in_app, tokens_in_app.
  destruct IH as [-> ->]; [set_solver|]. assert (ma_RunID a ≠ runID) as Hne by (apply H; set_solver).
  unfold in_run. by destruct (String.eqb_spec (ma_RunID a) runID).
Qed.
Lemma absent_calls runID tl : (forall t, t ∈ tl -> call_RunID t ≠ runID) -> calls_in runID tl = 0.
Proof.
  intros H. unfold calls_in. induction tl as [|t tl IH]; [done|]. simpl. assert (call_RunID t ≠ runID) as Hne by (apply H; left).
  destruct (String.eqb_spec (call_RunID t) runID); [done|]. apply IH. set_solver.
Qed.

(** ** The invariant *)
Definition run_identity (w : world) (n : Z) : string := identity "run" (ri_prefix (w_rt w)) n.

(** The counters of the active run are those of its history. *)
Definition run_agrees (a : activeRun) (v : run_view) : Prop :=
  let '(state, active, al, tl) := v in
  state = RunRunning /\ active = ar_id a /\ ar_usedTokens a = tokens_in (ar_id a) al /\
  ar_modelAttempts a = i64 (Z.of_nat (attempts_in (ar_id a) al)) /\ ar_toolCalls a = i64 (Z.of_nat (calls_in (ar_id a) tl)).

Section Invariant.
Context {J : JsonOps} {F : Fingerprints} {R : RequestFingerprint} {K : CursorCodec} {V : ViewFingerprints} (c : runtimeComponents).

Definition within_limits (runID : string) (v : run_view) : Prop :=
  let '(_, _, al, tl) := v in
  ((0 < rc_MaxModelAttemptsPerRun c)%Z -> (Z.of_nat (attempts_in runID al) <= rc_MaxModelAttemptsPerRun c)%Z) /\
  ((0 < rc_MaxToolCallsPerRun c)%Z -> (Z.of_nat (calls_in runID tl) <= rc_MaxToolCallsPerRun c)%Z).

(** Where the runtime is, and what the store then says. *)
Definition located (r : runtimeInstance) (v : run_view) : Prop :=
  match ri_state r with
  | runtimeRunning => exists k a, ri_active r = Some k /\ ri_runs r !! k = Some a /\ ar_done a = true /\ run_agrees a v
  | runtimeIdle => ri_active r = None /\ v.1.1.1 = RunIdle
  | _ => ri_active r = None
  end.

Record channels (r : runtimeInstance) : Prop := {
  ch_idle : ri_idleSignal r = bool_decide (ri_state r = runtimeRunning);
  ch_closeDone : ri_closeDone r = negb (bool_decide (ri_state r = runtimeClosed));
  ch_openDone : ri_openDone r = true -> ri_state r = runtimeOpening /\ ri_closing r = false;
  ch_closers : forall runDone, runDone ∈ ri_closers r -> ri_closing r = true /\ (ri_active r = None \/ ri_active r = runDone);
}.

Record invariant (w : world) : Prop := {
  in_sound : sound w;
  in_view : exists v, stored_view w = Some v /\ located (w_rt w) v /\
    (forall n, unused w n -> absent_run (run_identity w n) v) /\
    Forall (fun a => within_limits (ar_id a) v) (ri_runs (w_rt w)) /\
    (ri_openDone (w_rt w) = true -> within_limits v.1.1.2 v);
  in_channels : channels (w_rt w);
}.

(** What the invariant depends on is in the frame. *)
Lemma invariant_after w0 w : invariant w0 -> after w0 w -> invariant w.
Proof.
  intros [_ (v&Hv&Hl&Hn&Hr&Ho) Hc] [Hs Hf Hview Hseq]. split; [done| |].
  - exists v. unfold located in *. unfold run_identity, unused in *. unfold frame in Hf. destruct w as [st r], w0 as [st0 r0]. simpl in *.
    destruct r, r0. unfold set_session, set_sequence, set_revision, set_notices in Hf. simpl in Hf. injection Hf as. simplify_eq/=.
    split_and!; [by rewrite Hview|done| |done|done]. intros n Hb. apply Hn. unfold sequence in *. simpl in *. lia.
  - destruct w as [st r], w0 as [st0 r0]. simpl in *. destruct r, r0. unfold frame, set_session, set_sequence, set_revision, set_notices in Hf. simpl in Hf.
    injection Hf as. simplify_eq/=. by destruct Hc.
Qed.

(** ** What keeps it *)
Definition bounded (w : world) : Prop := (sequence w < 2 ^ 64)%Z.
Definition kept (w : world) : Prop := bounded w -> invariant w.
Definition keeps {A} (m : M A) : Prop := triple invariant m (fun _ => kept) kept.

Lemma after_kept w0 w : invariant w0 -> after w0 w -> kept w.
Proof. intros H0 Hw _. by eapply invariant_after. Qed.
Lemma keeps_at {A} (m : M A) : (forall w0, invariant w0 -> triple (after w0) m (fun _ => kept) kept) -> keeps m.
Proof. intros H w Hw. by apply (H w Hw), after_refl, Hw. Qed.
Lemma quiet_kept {A} w0 (m : M A) : invariant w0 -> quiet w0 m -> triple (after w0) m (fun _ => kept) kept.
Proof. intros H0 Hm. eapply triple_weaken; [exact Hm|done| |]; intros; by eapply after_kept. Qed.
Lemma quiet_keeps {A} (m : M A) : (forall w0, invariant w0 -> quiet w0 m) -> keeps m.
Proof. intros H. apply keeps_at. intros w0 H0. apply quiet_kept; auto. Qed.
(** A quiet computation and what follows it. *)
Lemma kept_bind {A B} w0 (m : M A) (f : A -> M B) P :
  invariant w0 -> quietly w0 m P -> (forall a, P a -> triple (after w0) (f a) (fun _ => kept) kept) -> triple (after w0) (m ≫= f) (fun _ => kept) kept.
Proof.
  intros H0 Hm Hf. eapply triple_bind.
  - eapply triple_weaken; [exact Hm|done|done|]. intros w. by apply after_kept.
  - intros a w [Hw Ha]. by apply Hf.
Qed.
Lemma kept_quiet {A B} w0 (m : M A) (f : A -> M B) :
  invariant w0 -> quiet w0 m -> (forall a, triple (after w0) (f a) (fun _ => kept) kept) -> triple (after w0) (m ≫= f) (fun _ => kept) kept.
Proof. intros H0 Hm Hf. eapply kept_bind; [done|by apply (quietly_True w0 m (fun _ => True))|auto]. Qed.
Lemma kept_self {B} w0 (f : runtimeInstance -> M B) :
  (forall r, frame r = frame (w_rt w0) -> triple (after w0) (f r) (fun _ => kept) kept) -> triple (after w0) (self ≫= f) (fun _ => kept) kept.
Proof. intros H w Hw. by apply (H (w_rt w) (af_frame _ _ Hw) w). Qed.
Lemma kept_guard {B} w0 bad e (f : unit -> M B) :
  invariant w0 -> (bad = false -> triple (after w0) (f tt) (fun _ => kept) kept) -> triple (after w0) (fail_if bad e ≫= f) (fun _ => kept) kept.
Proof.
  intros H0 H. eapply (kept_bind w0 _ _ (fun _ => bad = false)); [done| |by intros []].
  by apply (triple_fail_if (after w0) bad e (fun _ w => after w0 w /\ bad = false)).
Qed.

Lemma invariant_lively w : invariant w -> lively (w_rt w).
Proof.
  intros [_ (v&_&Hl&_) _] k Hk. unfold located in Hl. destruct (ri_state (w_rt w)); try congruence; [destruct Hl; congruence|].
  destruct Hl as (k'&a&Ha&Hr&_). rewrite Hk in Ha. injection Ha as ->. by eexists.
Qed.

(** [ensureOpenLocked] *)
Definition opened (r : runtimeInstance) : Prop := (ri_state r = runtimeIdle \/ ri_state r = runtimeRunning) /\ ri_closing r = false.
Lemma frame_state r r0 : frame r = frame r0 -> ri_state r = ri_state r0 /\ ri_active r = ri_active r0 /\ ri_closing r = ri_closing r0 /\ ri_runs r = ri_runs r0.
Proof. intros H. split_and!; [by apply (f_equal ri_state) in H|by apply (f_equal ri_active) in H|by apply (f_equal ri_closing) in H|by apply (f_equal ri_runs) in H]. Qed.
Lemma ensureOpenLocked_spec w0 op : quietly w0 (ensureOpenLocked op) (fun _ => opened (w_rt w0)).
Proof.
  intros w Hw. unfold ensureOpenLocked, self, gets, mbind, M_bind. destruct (frame_state _ _ (af_frame _ _ Hw)) as (Hs&_&Hc&_).
  rewrite Hs, Hc. unfold fail_if, lift. destruct (bool_decide (ri_state (w_rt w0) = runtimeClosed)) eqn:E1; [done|]. simpl.
  destruct (ri_closing (w_rt w0)) eqn:E2; [done|]. simpl. destruct (bool_decide (ri_state (w_rt w0) = runtimeOpening)) eqn:E3; simpl; [done|].
  split; [done|]. apply bool_decide_eq_false in E1, E3. split; [|done]. destruct (ri_state (w_rt w0)); auto; done.
Qed.

(** ** Starting a run *)

(** Changes that start the run [run], whose identity is the [n]th. *)
Definition starts_run (w0 : world) (n : Z) (run : activeRun) (cs : list Change) : Prop :=
  ar_id run = identity "run" (ri_prefix (w_rt w0)) (u64 n) /\ (exists s, run = new_run (ar_id run) s) /\
  forall v, view_after cs v = (RunRunning, ar_id run, v.1.2, v.2).

Lemma after_trans w0 w1 w2 : after w0 w1 -> after w1 w2 -> after w0 w2.
Proof. intros [A1 A2 A3 A4] [B1 B2 B3 B4]. split; [done|congruence|congruence|lia]. Qed.

Lemma startChangesLocked_spec w0 s item enqueue :
  triple (after w0) (startChangesLocked s item enqueue)
    (fun out w => after w0 w /\ exists n, (sequence w0 < n <= sequence w)%Z /\ starts_run w0 n out.1.1 out.2) (after w0).
Proof.
  unfold startChangesLocked. eapply triple_bind; [apply nextID_spec|]. intros runID.
  apply triple_pre. intros w [Hw (n&Hn&->)]. set (id := identity "run" (ri_prefix (w_rt w0)) (u64 n)).
  assert (forall stepID sessionID v, view_after ((if enqueue then [EnqueueMessage_ item] else []) ++
      [SetRunState_ (MkRunStateChange id RunRunning);
       AppendRunFact_ (MkRunFact sessionID id RunStarted (sn_ModelConfig s) (sn_Revision s) "" None)] ++
      consumePendingLifecycleContexts s id stepID ++ appendInputConsumption s item id stepID) v = (RunRunning, id, v.1.2, v.2)) as Hview.
  { intros stepID sessionID [[[st i] al] tl]. rewrite !view_after_app, (view_after_quiet (if enqueue then _ else _)) by (destruct enqueue; auto with quiet).
    rewrite (view_after_quiet (consumePendingLifecycleContexts _ _ _)), (view_after_quiet (appendInputConsumption _ _ _ _)) by auto with quiet.
    unfold view_after, view_changed, change_run, change_attempt, change_call. simpl. by rewrite !app_nil_r. }
  eapply triple_weaken with (P' := after w) (E' := after w).
  - eapply triple_bind; [apply quiet_nextID|]. intros stepID. eapply triple_bind; [apply (quiet_gets w)|]. intros sessionID.
    apply triple_ret with (Q := fun out w' => after w w' /\ starts_run w0 n out.1.1 out.2). intros w' Hw'. split; [done|].
    split_and!; [done|by eexists|]. exact (Hview stepID sessionID).
  - intros w' ->. apply after_refl, Hw.
  - intros out w' [Hw' Hs]. split; [by eapply after_trans|]. exists n. pose proof (af_sequence _ _ Hw'). split; [lia|done].
  - intros w' Hw'. by eapply after_trans.
Qed.

Lemma sound_move w r' :
  sound w -> ri_id r' = ri_id (w_rt w) -> ri_prefix r' = ri_prefix (w_rt w) -> ri_sequence r' = ri_sequence (w_rt w) -> sound (World (w_store w) r').
Proof.
  intros [S1 S2 S3 S4] Hi Hp Hs. unfold stored, unused, sequence in *. split; simpl; unfold stored, unused, sequence; simpl; rewrite ?Hi, ?Hp, ?Hs; done.
Qed.
Lemma stored_view_move w r' : ri_id r' = ri_id (w_rt w) -> stored_view (World (w_store w) r') = stored_view w.
Proof. intros Hi. unfold stored_view, stored. simpl. by rewrite Hi. Qed.

Lemma started_view w0 n run cs w :
  invariant w0 -> (sequence w0 < n <= sequence w)%Z -> starts_run w0 n run cs -> committed w0 cs w -> bounded w ->
  exists v, stored_view w = Some v /\ run_agrees run v /\ (forall m, unused w m -> absent_run (run_identity w m) v) /\
    Forall (fun a => within_limits (ar_id a) v) (ri_runs (w_rt w) ++ [run]).
Proof.
  intros [Hs0 ([[[st i] al] tl]&Hv&_&Hn&Hr&_) _] Hseq (Hid&[s Hrun]&Hcs) [Hs Hf _ Happ _] Hb. specialize (Happ Hb).
  rewrite Hv in Happ. simpl in Happ. rewrite Hcs in Happ. simpl in Happ.
  pose proof (so_sequence _ Hs0) as H0. unfold bounded in Hb. assert (u64 n = n) as Hu by (unfold u64; rewrite Z.mod_small; lia). rewrite Hu in Hid.
  assert (absent_run (ar_id run) (st, i, al, tl)) as (_&Ha&Ht) by (rewrite Hid; apply Hn; unfold unused; lia).
  destruct (absent_attempts _ _ Ha) as [Hat Htok]. pose proof (absent_calls _ _ Ht) as Hcl.
  exists (RunRunning, ar_id run, al, tl). split_and!; [done| | |].
  - unfold run_agrees. rewrite Hat, Htok, Hcl. rewrite Hrun. by split_and!.
  - intros m Hm. unfold run_identity. rewrite (frame_prefix _ _ Hf). unfold unused in Hm.
    destruct (Hn m) as (_&Ha'&Ht'); [unfold unused; lia|]. split_and!; [|exact Ha'|exact Ht']. rewrite Hid. intros Heq.
    apply identity_last in Heq; lia.
  - apply Forall_app_2.
    + destruct (frame_state _ _ Hf) as (_&_&_&->). eapply Forall_impl; [exact Hr|]. done.
    + constructor; [|done]. unfold within_limits. rewrite Hat, Hcl. split; intros; simpl; lia.
Qed.

(** The runtime after [activateLocked]. *)
Definition activated (run : activeRun) (r : runtimeInstance) : runtimeInstance :=
  set_idleSignal (set_active (set_state (set_runs r (ri_runs r ++ [run])) runtimeRunning) (Some (length (ri_runs r)))) true.
Lemma activateLocked_eq run w : activateLocked run w = (World (w_store w) (activated run (w_rt w)), Ok (length (ri_runs (w_rt w)))).
Proof. done. Qed.

Lemma activated_kept w0 n run cs w :
  invariant w0 -> ri_state (w_rt w0) = runtimeIdle -> ri_closing (w_rt w0) = false -> (sequence w0 < n <= sequence w)%Z ->
  starts_run w0 n run cs -> committed w0 cs w -> kept (World (w_store w) (activated run (w_rt w))).
Proof.
  intros H0 Hidle Hcl Hseq Hst Hcm Hb. destruct (started_view w0 n run cs w H0 Hseq Hst Hcm Hb) as (v&Hv&Hag&Hn&Hlim).
  destruct Hcm as [Hs Hf _ _ _]. destruct (frame_state _ _ Hf) as (Es&Ea&Ec&Er).
  destruct H0 as [_ _ [C1 C2 C3 C4]]. split.
  - by apply sound_move.
  - exists v. rewrite stored_view_move by done. split_and!; [done| |exact Hn|exact Hlim|].
    + unfold located. simpl. eexists _, run. split_and!; [done|by apply list_lookup_middle| |done].
      destruct Hst as (_&[s ->]&_). done.
    + simpl. intros Ho. apply (f_equal ri_openDone) in Hf. simpl in Hf. rewrite Hf in Ho. destruct (C3 Ho). congruence.
  - split; simpl; [done| | |].
    + apply (f_equal ri_closeDone) in Hf. simpl in Hf. by rewrite Hf, C2, Hidle.
    + intros Ho. apply (f_equal ri_openDone) in Hf. simpl in Hf. rewrite Hf in Ho. destruct (C3 Ho). congruence.
    + intros d Hd. apply (f_equal ri_closers) in Hf. simpl in Hf. rewrite Hf in Hd. destruct (C4 d Hd). congruence.
Qed.

Lemma committed_rebase w0 w cs w' : after w0 w -> committed w cs w' -> committed w0 cs w'.
Proof. intros [A1 A2 A3 A4] [B1 B2 B3 B4 B5]. rewrite A3 in *. split; [done|congruence|done|done|lia]. Qed.

(** A commit of any kind. *)
Definition commits {A} (m : M A) (cs : list Change) : Prop := forall w, triple (after w) m (fun _ => committed w cs) (after w).

Lemma starts_run_more w0 n run cs extra : starts_run w0 n run cs -> quiet_changes extra -> starts_run w0 n run (cs ++ extra).
Proof. intros (H1&H2&H3) Hq. split; [done|]. split; [done|]. intros v. by rewrite view_after_app, (view_after_quiet extra). Qed.

(** The commit may have quiet changes besides those that start the run. *)
Lemma start_kept {A B} w0 s item enqueue (commit : activeRun -> string -> list Change -> M A) (extra : activeRun -> string -> list Change) (g : string -> nat -> B) :
  invariant w0 -> ri_state (w_rt w0) = runtimeIdle -> ri_closing (w_rt w0) = false ->
  (forall run step cs, commits (commit run step cs) (cs ++ extra run step)) -> (forall run step, quiet_changes (extra run step)) ->
  triple (after w0) ('(run, step, changes) ← startChangesLocked s item enqueue; commit run step changes ;; k ← activateLocked run; mret (g step k))
    (fun _ => kept) kept.
Proof.
  intros H0 Hidle Hcl Hc Hextra. eapply triple_bind; [eapply triple_weaken; [apply startChangesLocked_spec|done|done|intros; by eapply after_kept]|].
  intros [[run step] cs]. apply triple_pre. intros w [Hw (n&Hn&Hstart)]. simpl in Hstart.
  eapply triple_bind with (Q := fun _ => committed w (cs ++ extra run step)).
  - eapply triple_weaken; [exact (Hc run step cs w)| |done|].
    + intros ? ->. apply after_refl, Hw.
    + intros w' Hw'. apply (after_kept w0); [done|by eapply after_trans].
  - intros a w' Hw'. unfold mbind, M_bind. rewrite activateLocked_eq.
    apply (activated_kept w0 n run (cs ++ extra run step) w'); [done..| |by apply starts_run_more|by eapply committed_rebase].
    pose proof (cm_sequence _ _ _ Hw'). lia.
Qed.

Lemma keeps_send e request : keeps (send e request).
Proof.
  apply keeps_at. intros w0 H0. unfold send. apply kept_self. intros r Hr. destruct (frame_state _ _ Hr) as (Es&Ea&Ec&Er).
  apply kept_guard; [done|intros _]. eapply kept_bind; [done|apply ensureOpenLocked_spec|]. intros _ [Hst Hcl].
  apply kept_quiet; [done|apply quiet_viewLocked|]. intros s. apply kept_quiet; [done|apply quiet_new_message|]. intros m. cbv zeta.
  destruct (bool_decide (ri_state r = runtimeRunning)) eqn:Erun.
  - apply quiet_kept; [done|]. apply quiet_bind; [apply quiet_commitExternalLocked; repeat constructor; auto with quiet|intros ?]. apply quiet_ret.
  - apply bool_decide_eq_false in Erun. destruct Hst as [Hidle|Hrun]; [|congruence].
    apply (start_kept _ _ _ _ (fun _ _ => _) (fun _ _ => [])); [done..| |constructor]. intros run step cs. rewrite app_nil_r. intros w. apply commitExternalLocked_spec.
Qed.

Lemma keeps_pending e request : keeps (pending e request).
Proof.
  apply keeps_at. intros w0 H0. unfold pending. apply kept_self. intros r Hr. destruct (frame_state _ _ Hr) as (Es&Ea&Ec&Er).
  apply kept_guard; [done|intros _]. eapply kept_bind; [done|apply ensureOpenLocked_spec|]. intros _ [Hst Hcl].
  apply kept_guard; [done|intros Erun]. apply bool_decide_eq_false in Erun. destruct Hst as [Hidle|Hrun]; [|congruence].
  apply kept_quiet; [done|apply quiet_viewLocked|]. intros s. destruct (firstPending _ _) as [item|].
  - apply (start_kept _ _ _ _ (fun _ _ => _) (fun _ _ => [])); [done..| |constructor]. intros run step cs. rewrite app_nil_r. intros w. apply commitExternalLocked_spec.
  - apply quiet_kept; [done|apply quiet_fail].
Qed.

(** ** Changes of a run that do not matter *)
Definition harmless (f : activeRun -> activeRun) : Prop := forall a,
  ar_id (f a) = ar_id a /\ ar_done (f a) = ar_done a /\ ar_usedTokens (f a) = ar_usedTokens a /\ ar_modelAttempts (f a) = ar_modelAttempts a /\
  ar_toolCalls (f a) = ar_toolCalls a.

Lemma Forall_alter_id {v} (f : activeRun -> activeRun) k l :
  (forall a, ar_id (f a) = ar_id a) -> Forall (fun a => within_limits (ar_id a) v) l -> Forall (fun a => within_limits (ar_id a) v) (alter f k l).
Proof.
  intros Hf H. rewrite Forall_forall in *. intros a Ha. apply list_elem_of_lookup in Ha as [i Hi].
  destruct (decide (i = k)) as [->|Hne]; [|rewrite list_lookup_alter_ne in Hi by done; apply H; by eapply list_elem_of_lookup_2].
  rewrite list_lookup_alter_eq in Hi. destruct (l !! k) as [b|] eqn:Eb; [|done]. injection Hi as <-. rewrite Hf. apply H.
  by eapply list_elem_of_lookup_2.
Qed.

Lemma invariant_update f k w :
  harmless f -> invariant w -> invariant (World (w_store w) (set_runs (w_rt w) (alter f k (ri_runs (w_rt w))))).
Proof.
  intros Hf [Hs (v&Hv&Hl&Hn&Hr&Ho) [C1 C2 C3 C4]]. split; [by apply sound_move| |by split].
  exists v. rewrite stored_view_move by done. split_and!; [done| |done| |done].
  - unfold located in *. simpl. destruct (ri_state (w_rt w)); try done. destruct Hl as (k'&a&Ha&Hk&Hd&Hag). exists k'.
    destruct (decide (k' = k)) as [->|Hne].
    + exists (f a). rewrite list_lookup_alter_eq, Hk. destruct (Hf a) as (F1&F2&F3&F4&F5). split_and!; [done|done|congruence|].
      unfold run_agrees in *. destruct v as [[[st i] al] tl]. by rewrite F1, F3, F4, F5.
    + exists a. by rewrite list_lookup_alter_ne.
  - simpl. apply Forall_alter_id; [|done]. intros a. apply Hf.
Qed.
Lemma update_run_kept f k w0 : harmless f -> triple invariant (update_run k f) (fun _ => invariant) w0.
Proof. intros Hf. apply triple_modify. intros w Hw. by apply invariant_update. Qed.

Lemma harmless_actor actor : harmless (fun a => with_controlActor a actor).
Proof. done. Qed.
Lemma harmless_cancel : harmless (fun a => with_canceled (with_cancelRequested a)).
Proof. done. Qed.
Lemma harmless_signal revision : harmless (signal revision).
Proof. intros a. unfold signal. by destruct (ar_prepared a). Qed.

(** A quiet computation between two that keep the invariant. *)
Lemma invariant_quiet {A} (m : M A) : (forall w0, quiet w0 m) -> triple invariant m (fun _ => invariant) invariant.
Proof.
  intros H w Hw. pose proof (H w w (after_refl w (in_sound _ Hw))) as Hm. destruct (m w) as [w' [a|err|msg]]; [..|done]; by eapply invariant_after.
Qed.
Lemma invariant_kept w : invariant w -> kept w.
Proof. by intros H _. Qed.
Lemma strong_keeps {A} (m : M A) : triple invariant m (fun _ => invariant) invariant -> keeps m.
Proof. intros H. eapply triple_weaken; [exact H|done| |]; intros; by apply invariant_kept. Qed.

Lemma set_controlActor_kept k actor : triple invariant (set_controlActor k actor) (fun _ => invariant) invariant.
Proof. unfold set_controlActor. destruct (ActorIdentity_Valid actor); [apply update_run_kept, harmless_actor|by apply triple_ret]. Qed.

Lemma keeps_cancel e request : keeps (cancel e request).
Proof.
  apply strong_keeps. unfold cancel. eapply triple_bind; [apply triple_gets|]. intros r. 
  eapply triple_weaken with (P' := invariant) (Q' := fun _ => invariant) (E' := invariant); [|by intros w [? _]|done..].
  do 4 (eapply triple_bind; [apply invariant_quiet; intros w0; auto with quiet|intros ?]).
  destruct (ri_active r) as [k|]; [|by apply triple_ret]. destruct (bool_decide _); [by apply triple_ret|].
  eapply triple_bind; [apply set_controlActor_kept|intros ?]. apply update_run_kept, harmless_cancel.
Qed.

(** ** Closing *)
Lemma invariant_closing w : invariant w -> ri_openDone (w_rt w) = false -> invariant (World (w_store w) (set_closing (w_rt w) true)).
Proof.
  intros [Hs (v&Hv&Hl&Hn&Hr&Ho) [C1 C2 C3 C4]] Hop. split; [by apply sound_move| |].
  - exists v. by rewrite stored_view_move.
  - split; simpl; [done|done|congruence|]. intros d Hd. split; [done|]. by destruct (C4 d Hd).
Qed.
Lemma invariant_closers w : invariant w -> ri_closing (w_rt w) = true ->
  invariant (World (w_store w) (set_closers (w_rt w) (ri_closers (w_rt w) ++ [ri_active (w_rt w)]))).
Proof.
  intros [Hs (v&Hv&Hl&Hn&Hr&Ho) [C1 C2 C3 C4]] Hcl. split; [by apply sound_move| |].
  - exists v. by rewrite stored_view_move.
  - split; simpl; [done..|]. intros d. rewrite elem_of_app, list_elem_of_singleton. intros [Hd| ->]; [by apply C4|auto].
Qed.

Lemma startCloseLocked_kept :
  triple (fun w => invariant w /\ ri_openDone (w_rt w) = false) startCloseLocked (fun _ => invariant) invariant.
Proof.
  unfold startCloseLocked. eapply triple_bind with (Q := fun _ w => invariant w /\ ri_closing (w_rt w) = true).
  - apply triple_modify. intros w [Hw Ho]. split; [by apply invariant_closing|done].
  - intros ?. eapply triple_bind; [apply triple_gets|]. intros r. cbv beta.
    eapply triple_bind with (Q := fun _ w => invariant w /\ ri_closing (w_rt w) = true /\ ri_active (w_rt w) = ri_active r).
    + destruct (ri_active r) as [k|] eqn:Ek; [|apply triple_ret; by intros w [[? ?] ->]].
      apply triple_modify. intros w [[Hw Hc] ->]. split_and!; [by apply invariant_update, Hw; apply harmless_cancel|done|done].
    + intros ?. apply triple_modify. intros w (Hw&Hc&<-). by apply invariant_closers.
Qed.

Lemma not_opening w : invariant w -> ri_openDone (w_rt w) = true -> ri_state (w_rt w) = runtimeOpening.
Proof. intros [_ _ [_ _ C3 _]] Ho. by destruct (C3 Ho). Qed.

Lemma keeps_close : keeps close.
Proof.
  apply strong_keeps. unfold close. eapply triple_bind; [apply triple_gets|]. intros r. destruct (ri_openDone r) eqn:Ho.
  - apply triple_ret. by intros w [? _].
  - eapply triple_bind with (Q := fun _ => invariant); [|intros ?; by apply triple_ret].
    destruct (bool_decide _); [apply triple_ret; by intros w [? _]|]. destruct (ri_closing r); [apply triple_ret; by intros w [? _]|].
    eapply triple_weaken; [apply startCloseLocked_kept| |done|done]. intros w [Hw ->]. by rewrite Ho.
Qed.
Lemma keeps_abortOpen cause : keeps (abortOpen cause).
Proof.
  apply strong_keeps. intros w Hw. unfold abortOpen, close_openDone, self, gets, mbind, M_bind. cbn [w_rt w_store].
  destruct (ri_openDone (w_rt w)) eqn:Ho; [|done]. rewrite Ho. unfold modify.
  destruct Hw as [Hs (v&Hv&Hl&Hn&Hr&Hop) [C1 C2 C3 C4]]. split; [by apply sound_move| |by split].
  exists v. rewrite stored_view_move by done. by split_and!.
Qed.

Lemma keeps_beginClose e request : keeps (beginClose c e request).
Proof.
  apply keeps_at. intros w0 H0. unfold beginClose. apply kept_self. intros r Hr. destruct (frame_state _ _ Hr) as (Es&Ea&Ec&Er).
  apply kept_guard; [done|intros _]. eapply kept_bind; [done|apply ensureOpenLocked_spec|]. intros _ [Hst Hcl].
  apply kept_quiet; [done|apply quiet_viewLocked|]. intros s. apply kept_quiet; [done|apply quiet_check_revision|]. intros ?.
  eapply triple_weaken with (Q' := fun _ => invariant) (E' := invariant) (P' := fun w => invariant w /\ ri_openDone (w_rt w) = false).
  - eapply triple_bind with (Q := fun _ w => invariant w /\ ri_openDone (w_rt w) = false).
    + destruct (ri_active r) as [k|]; [|by apply triple_ret]. unfold set_controlActor. destruct (ActorIdentity_Valid _); [|by apply triple_ret].
      apply triple_modify. intros w [Hw Ho]. split; [by apply invariant_update; [apply harmless_actor|]|done].
    + intros ?. eapply triple_bind with (Q := fun _ w => invariant w /\ ri_openDone (w_rt w) = false).
      * intros w [Hw Ho]. pose proof (quiet_prepareSessionLifecycle c w e s LifecycleClose (OpenOther "") (ctl_Actor request) w (after_refl w (in_sound _ Hw))) as Hq.
        destruct (prepareSessionLifecycle _ _ _ _ _ _ w) as [w' [o|err|msg]]; [|by eapply invariant_after|done].
        split; [by eapply invariant_after|]. pose proof (af_frame _ _ Hq) as Hf. apply (f_equal ri_openDone) in Hf. simpl in Hf. by rewrite Hf.
      * intros o. eapply triple_bind; [apply startCloseLocked_kept|]. intros ?. by apply triple_ret.
  - intros w Hw. split; [by eapply invariant_after|]. pose proof (af_frame _ _ Hw) as Hf. apply (f_equal ri_openDone) in Hf. simpl in Hf. rewrite Hf.
    destruct (ri_openDone (w_rt w0)) eqn:Ho; [|done]. apply not_opening in Ho; [|done]. destruct Hst; congruence.
  - intros ? w. apply invariant_kept.
  - intros w. apply invariant_kept.
Qed.

Lemma keeps_finishClose d err : keeps (finishClose d err).
Proof.
  apply strong_keeps. intros w Hw. unfold finishClose. cbv zeta. destruct (ri_closers (w_rt w) !! d) as [runDone|] eqn:Ed; [|done].
  match goal with |- context [if ?b then (w, Ok false) else _] => destruct b eqn:Ewait; [done|] end.
  match goal with |- context [if ?b then (w, Ok true) else _] => destruct b eqn:Ecl; [done|] end. apply bool_decide_eq_false in Ecl.
  destruct Hw as [Hs (v&Hv&Hl&Hn&Hr&Hop) [C1 C2 C3 C4]]. destruct (C4 runDone) as [Hcl Hact]; [by eapply list_elem_of_lookup_2|].
  assert (ri_active (w_rt w) = None /\ ri_state (w_rt w) ≠ runtimeRunning) as [Hnone Hrun].
  { unfold located in Hl. destruct (ri_state (w_rt w)); [done|by destruct Hl| |done]. destruct Hl as (k&a&Ha&Hk&Hd&_).
    destruct Hact as [|Hact]; [congruence|]. rewrite <-Hact, Ha, Hk in Ewait. congruence. }
  unfold modify, close_closeDone, self, gets, mbind, M_bind, modify. cbn [w_rt w_store].
  assert (ri_closeDone (w_rt w) = true) as Hcd by (rewrite C2; by rewrite bool_decide_eq_false_2).
  cbn [set_closeResult set_active set_state ri_closeDone]. rewrite Hcd. cbn. split; [by apply (sound_move w)| |].
  - exists v. rewrite (stored_view_move w) by done. split_and!; [done|done|exact Hn|exact Hr|exact Hop].
  - split; simpl.
    + by rewrite C1, bool_decide_eq_false_2.
    + done.
    + intros Ho. destruct (C3 Ho). congruence.
    + intros d' Hd'. split; [by destruct (C4 d' Hd')|by left].
Qed.

(** ** Recording what the active run does *)
Lemma attempts_other runID other al al' :
  Forall (fun a => ma_RunID a = other) al' -> other ≠ runID -> attempts_in runID (al ++ al') = attempts_in runID al.
Proof.
  intros H Hne. unfold attempts_in. rewrite List.filter_app, length_app.
  assert (List.filter (fun a => in_run runID a && is_attempt_start a) al' = []) as ->; [|simpl; lia].
  induction H as [|a l Ha _ IH]; [done|]. simpl. unfold in_run at 1. by destruct (String.eqb_spec (ma_RunID a) runID); [congruence|].
Qed.

(** Changes that append the attempts [al'] and the calls [tl'] of one run. *)
Definition records (runID : string) (cs : list Change) (al' : list ModelAttemptFact) (tl' : list ToolCall) : Prop :=
  (forall st i al tl, view_after cs (st, i, al, tl) = (st, i, al ++ al', tl ++ tl')) /\
  Forall (fun a => ma_RunID a = runID) al' /\ Forall (fun t => call_RunID t = runID) tl'.

(** The counters follow the history, and the limits hold. *)
Definition counts (f : activeRun -> activeRun) (a : activeRun) (al' : list ModelAttemptFact) (tl' : list ToolCall) : Prop :=
  (forall b, ar_id (f b) = ar_id b /\ ar_done (f b) = ar_done b) /\
  forall al tl, let v := (RunRunning, ar_id a, al, tl) in let v' := (RunRunning, ar_id a, al ++ al', tl ++ tl') in
    run_agrees a v -> within_limits (ar_id a) v -> run_agrees (f a) v' /\ within_limits (ar_id a) v'.

Lemma within_limits_other runID other st i al tl al' tl' :
  Forall (fun a => ma_RunID a = other) al' -> Forall (fun t => call_RunID t = other) tl' -> other ≠ runID ->
  within_limits runID (st, i, al, tl) -> within_limits runID (st, i, al ++ al', tl ++ tl').
Proof.
  intros Ha Ht Hne [H1 H2]. split; intros Hm.
  - rewrite (attempts_other runID other) by done. by apply H1.
  - rewrite calls_in_app, (calls_in_other runID other tl') by done. rewrite Nat.add_0_r. by apply H2.
Qed.

Lemma recorded_kept w0 k a cs al' tl' f w :
  invariant w0 -> ri_active (w_rt w0) = Some k -> ri_runs (w_rt w0) !! k = Some a -> committed w0 cs w ->
  records (ar_id a) cs al' tl' -> counts f a al' tl' -> kept (World (w_store w) (set_runs (w_rt w) (alter f k (ri_runs (w_rt w))))).
Proof.
  intros [_ ([[[st i] al] tl]&Hv&Hl&Hn&Hr&Ho) [C1 C2 C3 C4]] Hact Hk [Hs Hf _ Happ Hseq] (Hcs&Hal&Htl) [Hid Hcount] Hb. specialize (Happ Hb).
  rewrite Hv in Happ. simpl in Happ. rewrite Hcs in Happ. destruct (frame_state _ _ Hf) as (Es&Ea&Ec&Er).
  assert (ri_state (w_rt w0) = runtimeRunning /\ ar_done a = true /\ run_agrees a (st, i, al, tl)) as (Hrun&Hd&Hag).
  { unfold located in Hl. destruct (ri_state (w_rt w0)); [congruence|destruct Hl; congruence| |congruence].
    destruct Hl as (k'&a'&Ha'&Hk'&Hd&Hag). rewrite Hact in Ha'. injection Ha' as <-. rewrite Hk in Hk'. by injection Hk' as <-. }
  pose proof Hag as (->&->&_). assert (within_limits (ar_id a) (RunRunning, ar_id a, al, tl)) as Hlim.
  { rewrite Forall_lookup in Hr. by apply (Hr k). }
  destruct (Hcount al tl Hag Hlim) as [Hag' Hlim'].
  assert (ri_openDone (w_rt w) = false) as Hop.
  { apply (f_equal ri_openDone) in Hf. simpl in Hf. rewrite Hf. destruct (ri_openDone (w_rt w0)); [|done]. destruct C3; [done|congruence]. }
  split; [by apply sound_move| |].
  - exists (RunRunning, ar_id a, al ++ al', tl ++ tl'). rewrite (stored_view_move w) by done. split_and!; [done| | | |simpl; congruence].
    + unfold located. simpl. rewrite Es, Hrun. exists k, (f a). rewrite Ea, list_lookup_alter_eq, Er, Hk. split; [done|]. split; [done|]. split; [|exact Hag'].
      destruct (Hid a). congruence.
    + intros m Hm. unfold run_identity. simpl. rewrite (frame_prefix _ _ Hf). destruct (Hn m) as (N1&N2&N3); [unfold unused, sequence in *; simpl in *; lia|].
      rewrite Forall_forall in Hal. rewrite Forall_forall in Htl. split_and!; [done|..]; intros x [Hx|Hx]%elem_of_app; [by apply N2|by rewrite (Hal x Hx)|by apply N3|by rewrite (Htl x Hx)].
    + cbn [w_rt ri_runs set_runs]. apply Forall_alter_id; [intros b; apply Hid|]. rewrite Er. rewrite Forall_forall in Hr. apply Forall_forall. intros b Hb'.
      destruct (decide (ar_id b = ar_id a)) as [->|Hne]; [done|]. apply (within_limits_other _ (ar_id a)); [exact Hal|exact Htl|done|by apply Hr].
  - split; simpl; rewrite ?Es, ?Ea, ?Ec; [..|congruence|].
    + apply (f_equal ri_idleSignal) in Hf. simpl in Hf. by rewrite Hf.
    + apply (f_equal ri_closeDone) in Hf. simpl in Hf. by rewrite Hf.
    + apply (f_equal ri_closers) in Hf. simpl in Hf. by rewrite Hf.
Qed.

Lemma kept_update f k E : harmless f -> triple kept (update_run k f) (fun _ => kept) E.
Proof. intros Hf. apply triple_modify. intros w Hw Hb. by apply invariant_update, Hw. Qed.
Lemma kept_signalPrepared k E : triple kept (signalPrepared k) (fun _ => kept) E.
Proof.
  unfold signalPrepared. eapply triple_bind; [apply triple_gets|]. intros revision. eapply triple_weaken; [apply (kept_update (signal revision) k E)|by intros w [? _]|done..].
  apply harmless_signal.
Qed.
Lemma recorded_update w0 k a cs al' tl' f E :
  invariant w0 -> ri_active (w_rt w0) = Some k -> ri_runs (w_rt w0) !! k = Some a ->
  records (ar_id a) cs al' tl' -> counts f a al' tl' -> triple (committed w0 cs) (update_run k f) (fun _ => kept) E.
Proof. intros H0 Hact Hk Hrec Hcount. apply triple_modify. intros w Hw. by eapply recorded_kept. Qed.

(** A commit by the active run. *)
Lemma commit_kept {B} w0 e ctx expected op cs (g : Commit_ -> M B) :
  invariant w0 -> (forall r, triple (committed w0 cs) (g r) (fun _ => kept) kept) ->
  triple (after w0) (commitLocked e ctx expected op cs ≫= g) (fun _ => kept) kept.
Proof.
  intros H0 Hg. eapply triple_bind; [|exact Hg]. eapply triple_weaken; [apply commitLockedAs_spec|done|done|]. intros w. by apply after_kept.
Qed.

Section Limits.
(** The limits are [int64]. *)
Hypothesis limits : (rc_MaxModelAttemptsPerRun c < 2 ^ 63)%Z /\ (rc_MaxToolCallsPerRun c < 2 ^ 63)%Z.

Lemma limit_check_spec w0 e k a step id :
  ri_runs (w_rt w0) !! k = Some a ->
  quietly w0 (recordModelAttemptLimitLocked c e k step id)
    (fun b => b = false -> (rc_MaxModelAttemptsPerRun c <= 0 \/ ar_modelAttempts a < rc_MaxModelAttemptsPerRun c)%Z).
Proof.
  intros Hk. unfold recordModelAttemptLimitLocked. eapply quietly_bind; [by apply get_run_spec|]. intros ? ->. cbv zeta.
  destruct (_ || _) eqn:E; [apply quietly_ret; intros _; bool_simpl; lia|].
  apply quietly_after; [apply quiet_viewLocked|intros s]. apply quietly_after; [apply quiet_recordRunLimitExceededLocked|intros ?]. by apply quietly_ret.
Qed.

Lemma attempt_start_counts a fact :
  ma_RunID fact = ar_id a -> is_attempt_start fact = true ->
  (rc_MaxModelAttemptsPerRun c <= 0 \/ ar_modelAttempts a < rc_MaxModelAttemptsPerRun c)%Z ->
  counts (fun a => with_counters a (ar_usedTokens a) (i64 (ar_modelAttempts a + 1)) (ar_toolCalls a)) a [fact] [].
Proof.
  intros Hid Hstart Hroom. split; [done|]. intros al tl v v' (_&_&Htok&Hat&Hcl) [L1 L2]. unfold v', run_agrees, within_limits, with_counters; cbn [ar_id ar_usedTokens ar_modelAttempts ar_toolCalls].
  rewrite tokens_in_app, attempts_in_app, app_nil_r, Hstart, orb_true_r, andb_true_r. unfold in_run. rewrite (proj2 (String.eqb_eq _ _) Hid).
  rewrite Hat, i64_add. split_and!; try done; [f_equal; lia|]. intros Hm. specialize (L1 Hm). rewrite Hat in Hroom. rewrite i64_small in Hroom by lia. lia.
Qed.

Lemma active_lookup w k : invariant w -> ri_active (w_rt w) = Some k -> exists a, ri_runs (w_rt w) !! k = Some a.
Proof. intros Hw Hk. destruct (invariant_lively w Hw k Hk) as [a Ha]. by exists a. Qed.

Lemma keeps_attempt_started e k step started : keeps (attempt_started c e k step started).
Proof.
  apply keeps_at. intros w0 H0. unfold attempt_started. eapply kept_bind; [done|apply run_stopped_spec, invariant_lively, H0|].
  intros stopped Hact. apply kept_guard; [done|]. intros ->. specialize (Hact eq_refl). destruct (active_lookup w0 k H0 Hact) as [a Hk].
  eapply kept_bind; [done|by apply limit_check_spec|]. intros exceeded Hroom. apply kept_guard; [done|]. intros ->. specialize (Hroom eq_refl).
  apply kept_quiet; [done|apply quiet_viewLocked|]. intros s. eapply kept_bind; [done|by apply get_run_spec|]. intros ? ->.
  set (fact := MkModelAttemptFact _ _ _ _ _ _ _ _ _ _). apply commit_kept; [done|]. intros ?. eapply triple_bind; [|intros ?; apply kept_signalPrepared].
  apply (recorded_update w0 k a [AppendModelAttempt_ fact] [fact] []); [done..| |by apply attempt_start_counts].
  split_and!; [|by repeat constructor..]. intros st i al tl. unfold view_after, view_changed; simpl. by rewrite !app_nil_r.
Qed.

Lemma attempt_finish_counts a fact :
  ma_RunID fact = ar_id a -> is_attempt_start fact = false ->
  counts (fun a => with_counters a (i64 (ar_usedTokens a + use_TotalTokens (ma_Usage fact))) (ar_modelAttempts a) (ar_toolCalls a)) a [fact] [].
Proof.
  intros Hid Hstart. split; [done|]. intros al tl v v' (_&_&Htok&Hat&Hcl) [L1 L2]. unfold v', run_agrees, within_limits, with_counters; cbn [ar_id ar_usedTokens ar_modelAttempts ar_toolCalls].
  rewrite tokens_in_app, attempts_in_app, app_nil_r, Hstart, orb_false_r, andb_false_r, Nat.add_0_r. unfold in_run. rewrite (proj2 (String.eqb_eq _ _) Hid).
  by rewrite Htok.
Qed.

Hint Resolve TokenUsage_Validate_returns ValidateErrorMessage_returns : returns.
Lemma AttemptFinish_Validate_returns f : returns (AttemptFinish_Validate f).
Proof. unfold AttemptFinish_Validate. returns. Qed.

Lemma keeps_attempt_finished e k step finished observerErr : keeps (attempt_finished e k step finished observerErr).
Proof.
  apply keeps_at. intros w0 H0. unfold attempt_finished. apply kept_quiet; [done|apply quiet_lift, AttemptFinish_Validate_returns|]. intros u.
  apply kept_self. intros r Hr. apply kept_guard; [done|intros Ha%negb_false_iff]. rewrite (is_active_frame _ _ k Hr) in Ha. apply is_active_true in Ha.
  destruct (active_lookup w0 k H0 Ha) as [a Hk]. eapply kept_bind; [done|by apply get_run_spec|]. intros ? ->. cbv zeta.
  set (fact := MkModelAttemptFact _ _ _ _ _ _ _ _ _ _).
  assert (is_attempt_start fact = false) as Hstart by (unfold fact, is_attempt_start, attempt_kind; simpl; by destruct (atf_Outcome finished)).
  eapply triple_bind with (Q := fun out w => match out with inl _ => committed w0 [AppendModelAttempt_ fact] w | inr _ => after w0 w end).
  - apply triple_catch. eapply triple_bind; [apply quiet_viewLocked|]. intros s. apply commitLockedAs_spec.
  - intros [out|err].
    + eapply triple_bind.
      * apply (recorded_update w0 k a [AppendModelAttempt_ fact] [fact] []); [done..| |exact (attempt_finish_counts a fact eq_refl Hstart)].
        split_and!; [|by repeat constructor..]. intros st i al tl. unfold view_after, view_changed; simpl. by rewrite !app_nil_r.
      * intros ?. destruct observerErr; [by apply triple_fail|by apply triple_ret].
    + apply triple_fail. intros w. by apply after_kept.
Qed.

Lemma active_facts w k a :
  invariant w -> ri_active (w_rt w) = Some k -> ri_runs (w_rt w) !! k = Some a ->
  ri_state (w_rt w) = runtimeRunning /\ ar_done a = true /\
  exists al tl, let v := (RunRunning, ar_id a, al, tl) in stored_view w = Some v /\ run_agrees a v /\ within_limits (ar_id a) v.
Proof.
  intros [_ ([[[st i] al] tl]&Hv&Hl&_&Hr&_) _] Hact Hk. unfold located in Hl. destruct (ri_state (w_rt w)); [congruence|destruct Hl; congruence| |congruence].
  destruct Hl as (k'&a'&Ha'&Hk'&Hd&Hag). rewrite Hact in Ha'. injection Ha' as <-. rewrite Hk in Hk'. injection Hk' as <-.
  split; [done|]. split; [done|]. pose proof Hag as (->&->&_). exists al, tl. split; [done|]. split; [done|]. rewrite Forall_lookup in Hr. by apply (Hr k).
Qed.

Lemma quietly_completion_changes w0 e runID step revision calls : forall sequence,
  quietly w0 (completion_changes c e runID step revision sequence calls)
    (fun cs => forall st i al tl, view_after cs (st, i, al, tl) = (st, i, al, tl ++ calls)).
Proof.
  induction calls as [|call calls IH]; intros sequence; simpl.
  { apply quietly_ret. intros. by rewrite app_nil_r. }
  eapply quietly_bind; [apply quietly_appendToolPreflightReservations|]. intros [reserved next] Hres. simpl in Hres.
  eapply quietly_bind; [apply IH|]. intros rest Hrest. apply quietly_ret. intros st i al tl.
  change (view_after ([AppendToolCall_ call; UpdateRunJournal_ (MkJournalEntry runID step (Some call) None JournalPrepared)] ++ reserved ++ rest) (st, i, al, tl) = (st, i, al, tl ++ call :: calls)).
  rewrite !view_after_app, (view_after_quiet reserved) by done.
  assert (forall e', view_after [AppendToolCall_ call; UpdateRunJournal_ e'] (st, i, al, tl) = (st, i, al, tl ++ [call])) as ->
    by (intros; unfold view_after, view_changed; simpl; by rewrite !app_nil_r).
  rewrite Hrest. by rewrite <-app_assoc.
Qed.

Lemma quietly_new_call w0 message requested : quietly w0 (new_call message requested) (fun t => call_RunID t = msg_RunID message).
Proof. unfold new_call. apply quietly_after; [apply quiet_nextID|]. intros id. by apply quietly_ret. Qed.

Lemma completion_counts a calls :
  Forall (fun t => call_RunID t = ar_id a) calls ->
  ((0 < rc_MaxToolCallsPerRun c)%Z -> (Z.of_nat (length calls) <= i64 (rc_MaxToolCallsPerRun c - ar_toolCalls a))%Z) ->
  counts (fun a => with_counters a (ar_usedTokens a) (ar_modelAttempts a) (i64 (ar_toolCalls a + Z.of_nat (length calls)))) a [] calls.
Proof.
  intros Hid Hroom. split; [done|]. intros al tl v v' (_&_&Htok&Hat&Hcl) [L1 L2]. unfold v', run_agrees, within_limits, with_counters; cbn [ar_id ar_usedTokens ar_modelAttempts ar_toolCalls].
  rewrite app_nil_r, calls_in_app, (calls_in_own _ calls) by done. rewrite Hcl, i64_add. split_and!; try done; [f_equal; lia|].
  intros Hm. specialize (L2 Hm). specialize (Hroom Hm). rewrite Hcl in Hroom. rewrite (i64_small (Z.of_nat _)) in Hroom by lia.
  rewrite i64_small in Hroom by lia. lia.
Qed.

Lemma keeps_commitCompletion e k step messageID output : keeps (commitCompletion c e k step messageID output).
Proof.
  apply keeps_at. intros w0 H0. unfold commitCompletion. eapply kept_bind; [done|apply run_stopped_spec, invariant_lively, H0|].
  intros [] Hact; [by apply quiet_kept, quiet_ret|]. specialize (Hact eq_refl). destruct (active_lookup w0 k H0 Hact) as [a Hk].
  destruct (active_facts w0 k a H0 Hact Hk) as (_&_&al&tl&_&(_&_&_&_&Hcl)&[_ L2]).
  apply kept_quiet; [done|apply quiet_viewLocked|]. intros s. eapply kept_bind; [done|by apply get_run_spec|]. intros ? ->.
  apply kept_self. intros r _. apply kept_quiet; [done|apply quiet_now|]. intros at_. cbv zeta. set (assistant := MkMessage _ _ _ _ _ _ _ _ _).
  eapply kept_bind; [done|apply quietly_mapM; intros requested; apply (quietly_new_call w0 assistant)|]. intros calls Hcalls.
  change (msg_RunID assistant) with (ar_id a) in Hcalls. destruct (_ && _) eqn:Elim.
  - apply andb_true_iff in Elim as [Hm Hlt]. apply Z.ltb_lt in Hm, Hlt. apply quiet_kept; [done|]. destruct calls as [|first rest].
    + exfalso. specialize (L2 Hm). rewrite Hcl in Hlt. rewrite (i64_small (Z.of_nat _)) in Hlt by lia. rewrite i64_small in Hlt by lia. simpl in Hlt. lia.
    + apply quiet_bind; [apply quiet_recordRunLimitExceededLocked|intros ?; apply quiet_fail].
  - eapply kept_bind; [done|apply quietly_completion_changes|]. intros cs Hcs. apply commit_kept; [done|]. intros ?.
    eapply triple_bind with (Q := fun _ => kept); [|intros ?; by apply triple_ret]. apply (recorded_update w0 k a (AppendMessage_ assistant :: cs) [] calls); [done..| |].
    + split_and!; [|done|done]. intros st i al' tl'. change (view_after ([AppendMessage_ assistant] ++ cs) (st, i, al', tl') = (st, i, al' ++ [], tl' ++ calls)).
      rewrite view_after_app, (view_after_quiet [AppendMessage_ assistant]) by auto with quiet. rewrite Hcs. by rewrite app_nil_r.
    + apply completion_counts; [done|]. intros Hm. apply andb_false_iff in Elim as [Hm'|Hlt]; [apply Z.ltb_ge in Hm'; lia|]. apply Z.ltb_ge in Hlt. lia.
Qed.

(** ** The end of a run *)

Lemma Recover_stored r fresh ctx st id a st' out :
  wf_store st -> sane r -> st_sessions st !! id = Some a -> enough_room (ag_snapshot a) -> Recover r fresh ctx st id = (st', out) ->
  returns out /\ wf_store st' /\ exists a', st_sessions st' !! id = Some a' /\ ag_idempotency a' = ag_idempotency a /\
    recovers (ag_snapshot a) (ag_snapshot a') /\ forall s, out = Ok s -> s = ag_snapshot a'.
Proof.
  intros Hst Hr Ha Hroom H. pose proof (recover_step r fresh ctx st id Hst Hr) as Hstep. rewrite H in Hstep. simpl in Hstep.
  destruct Hstep as [Hwf _]; [intros a' Ha'; rewrite Ha in Ha'; by injection Ha' as <-|].
  destruct (Hst _ _ Ha) as [Hw _]. destruct (recoverAggregate_total r id (ag_snapshot a) Hr Hw Hroom) as (s'&ch&Heq&_).
  pose proof (recoverAggregate_recovers r (ag_snapshot a) (sn_iterate _ Hr)) as Hrec. rewrite Heq in Hrec. simpl in Hrec.
  unfold Recover in H. destruct (contextErr ctx "session.recover" ;; _) as [a0|e|msg] eqn:E.
  - apply bind_Ok in E as (u1&_&E). apply bind_Ok in E as (u2&_&E). unfold find_aggregate in E. rewrite Ha in E. injection E as <-.
    rewrite Heq in H. destruct ch.
    + cbv beta iota zeta in H. destruct (nextUpdatedAt _ _ _ _) as [index upd]. injection H as <- <-. split; [done|]. split; [done|].
      eexists. split; [apply lookup_insert_eq|]. split; [done|]. split; [|by intros s [= <-]]. by destruct Hrec.
    + injection H as <- <-. split; [done|]. split; [done|]. eexists. split; [apply lookup_insert_eq|]. split; [done|]. split; [done|]. by intros s [= <-].
  - injection H as <- <-. split; [done|]. split; [done|]. exists a. split; [done|]. split; [done|]. split; [apply recovers_refl|done].
  - exfalso. clear -E Ha. unfold contextErr, find_aggregate in E. rewrite Ha in E. destruct ctx; simpl in E; try done. by destruct (negb (ID_Valid id)).
Qed.

Lemma attempts_in_starts runID al : attempts_in runID al = length (List.filter (in_run runID) (List.filter is_attempt_start al)).
Proof.
  unfold attempts_in. induction al as [|a al IH]; [done|]. simpl. destruct (is_attempt_start a); simpl; destruct (in_run runID a); simpl; by rewrite ?IH.
Qed.

Lemma recovered_view s s' runID : recovers s s' -> within_limits runID (view_of s) -> within_limits runID (view_of s').
Proof.
  intros [H1 H2 _ _]. unfold within_limits, view_of. rewrite !attempts_in_starts. unfold starts in H2. by rewrite H1, H2.
Qed.
Lemma run_identity_nonempty w n : run_identity w n ≠ "".
Proof. done. Qed.
Lemma recovered_absent s s' w n : recovers s s' -> absent_run (run_identity w n) (view_of s) -> absent_run (run_identity w n) (view_of s').
Proof.
  intros [H1 _ H3 H4] (A1&A2&A3). unfold absent_run, view_of. rewrite H1. split; [|split; [|exact A3]].
  - destruct H4 as [[= _ ->]|[= _ ->]]; [done|]. intros H. by apply (run_identity_nonempty w n).
  - intros a Ha. destruct (H3 a Ha) as (a0&Ha0&<-). by apply A2.
Qed.

(** The runtime after the run [k] was given up. *)
Definition given_up (k : nat) (r : runtimeInstance) : runtimeInstance :=
  set_idleSignal (set_active (set_runs r (alter (fun a => with_done a false) k (alter with_canceled k (ri_runs r)))) None) false.
Definition failed_closed (r : runtimeInstance) : runtimeInstance := set_closeDone (set_closing (set_state r runtimeClosed) true) false.

Lemma recoverAfterRunFailureLocked_eq e k w a st' out :
  ri_runs (w_rt w) !! k = Some a -> ar_done a = true -> ri_idleSignal (w_rt w) = true -> ri_closeDone (w_rt w) = true ->
  store_Recover e Live w = (World st' (w_rt w), out) -> returns out ->
  recoverAfterRunFailureLocked e k w =
    (World st' (match out with
      | Ok s => if recoveredRunIsSettled s (ri_id (w_rt w)) a
                then set_state (set_revision (given_up k (w_rt w)) (u64 (sn_Revision s))) runtimeIdle
                else failed_closed (given_up k (w_rt w))
      | _ => failed_closed (given_up k (w_rt w)) end), Ok tt).
Proof.
  intros Hk Hd Hi Hc Hrec Hret. unfold recoverAfterRunFailureLocked, catch, mbind, M_bind. rewrite Hrec.
  assert (ri_runs (set_runs (w_rt w) (alter with_canceled k (ri_runs (w_rt w)))) !! k = Some (with_canceled a)) as Hk'
    by (simpl; by rewrite list_lookup_alter_eq, Hk).
  destruct out as [s|err|msg]; [| |by destruct (Hret msg)].
  all: unfold get_run at 1; cbn [w_rt w_store]; rewrite Hk; unfold update_run at 1, modify at 1; cbn [w_rt w_store].
  all: unfold close_done, get_run, mbind, M_bind; cbn [w_rt w_store]; rewrite Hk'; cbn [with_canceled ar_done]; rewrite Hd.
  all: unfold update_run, modify, close_idleSignal, close_closeDone, self, gets, mbind, M_bind; cbn.
  all: rewrite Hi; cbn.
  - change (recoveredRunIsSettled s (ri_id (set_idleSignal _ false)) a) with (recoveredRunIsSettled s (ri_id (w_rt w)) a).
    destruct (recoveredRunIsSettled s (ri_id (w_rt w)) a); [done|]. cbn. by rewrite Hc.
  - by rewrite Hc.
Qed.

(** What the recovery of the aggregate needs: readings of a sane clock, and
    room for the facts it appends. *)
Definition ready (e : environment) (w : world) : Prop :=
  (forall n, sane (en_readings e n)) /\ forall a, stored w = Some a -> enough_room (ag_snapshot a).

(** The run is over in the runtime and, when it goes on, in the store. *)
Lemma invariant_retired k w st' a a' r' :
  invariant w -> ri_active (w_rt w) = Some k -> stored w = Some a -> wf_store st' -> st_sessions st' !! ri_id (w_rt w) = Some a' ->
  ag_idempotency a' = ag_idempotency a -> recovers (ag_snapshot a) (ag_snapshot a') ->
  ((exists n, r' = set_state (set_revision (given_up k (w_rt w)) n) runtimeIdle) /\ sn_RunState (ag_snapshot a') = RunIdle \/
   r' = failed_closed (given_up k (w_rt w))) ->
  invariant (World st' r').
Proof.
  intros Hw Hact Ha Hwf Ha' Hkeys Hrec Hr. destruct (active_lookup w k Hw Hact) as [b Hb]. destruct (active_facts w k b Hw Hact Hb) as (Hst&_).
  destruct Hw as [[_ _ S3 S4] (v&Hv&_&Hn&Hlim&Hop) [C1 C2 C3 C4]].
  assert (v = view_of (ag_snapshot a)) as -> by (unfold stored_view in Hv; rewrite Ha in Hv; by injection Hv as <-).
  assert (ri_id r' = ri_id (w_rt w) /\ ri_prefix r' = ri_prefix (w_rt w) /\ ri_sequence r' = ri_sequence (w_rt w) /\
    ri_runs r' = ri_runs (given_up k (w_rt w)) /\ ri_openDone r' = ri_openDone (w_rt w) /\ ri_closers r' = ri_closers (w_rt w) /\ ri_active r' = None) as
    (Hid&Hpre&Hseq&Hruns&Hopen&Hclosers&Hnone) by (by destruct Hr as [[[n ->] _]| ->]).
  assert (ri_openDone (w_rt w) = false) as Ho by (destruct (ri_openDone (w_rt w)); [destruct C3; [done|congruence]|done]).
  split.
  - split; unfold stored, unused, sequence in *; simpl; rewrite ?Hid, ?Hpre, ?Hseq; [done|by eexists| |done].
    rewrite Ha'. intros x op n [= <-]. rewrite Hkeys. by apply S3.
  - exists (view_of (ag_snapshot a')). split_and!; [unfold stored_view, stored; simpl; by rewrite Hid, Ha'| | | |simpl; congruence].
    + unfold located. simpl. destruct Hr as [[[n ->] Hi]| ->]; [by split|done].
    + intros n Hu. unfold run_identity; simpl. rewrite Hpre. apply (recovered_absent (ag_snapshot a)); [done|]. apply Hn.
      unfold unused, sequence in *; simpl in *. by rewrite <-Hseq.
    + cbn [w_rt]. rewrite Hruns. cbn [given_up ri_runs set_idleSignal set_active set_runs]. do 2 (apply Forall_alter_id; [done|]). eapply Forall_impl; [exact Hlim|]. intros x. by apply recovered_view.
  - split; simpl; rewrite ?Hopen, ?Hclosers, ?Ho, ?Hnone; [..|done|].
    + by destruct Hr as [[[n ->] _]| ->].
    + destruct Hr as [[[n ->] _]| ->]; simpl; [|done]. by rewrite C2, Hst.
    + intros d Hd. split; [|by left]. destruct (C4 d Hd) as [Hc _]. by destruct Hr as [[[n ->] _]| ->].
Qed.

Lemma recoverAfterRunFailureLocked_kept e k w :
  invariant w -> ri_active (w_rt w) = Some k -> ready e w ->
  match recoverAfterRunFailureLocked e k w with (w', Panic _) => False | (w', _) => invariant w' end.
Proof.
  intros Hw Hact [Hsane Hroom]. destruct (active_lookup w k Hw Hact) as [b Hb]. destruct (active_facts w k b Hw Hact Hb) as (Hst&Hd&_).
  pose proof Hw as [[S1 [a Ha] _ _] _ [C1 C2 _ _]].
  destruct (Recover (en_readings e (ri_sequence (w_rt w))) (en_fresh e (ri_sequence (w_rt w))) Live (w_store w) (ri_id (w_rt w))) as [st' out] eqn:E.
  destruct (Recover_stored _ _ _ _ _ a st' out S1 (Hsane _) Ha (Hroom a Ha) E) as (Hret&Hwf&a'&Ha'&Hkeys&Hrec&Hout).
  rewrite (recoverAfterRunFailureLocked_eq e k w b st' out); [|done|done|by rewrite C1, Hst|by rewrite C2, Hst|unfold store_Recover; by rewrite E|done].
  apply (invariant_retired k w st' a a'); [done..|]. destruct out as [s|err|msg]; [|by right|by right].
  destruct (recoveredRunIsSettled _ _ _) eqn:Es; [left|by right]. split; [by eexists|]. rewrite <-(Hout s eq_refl).
  unfold recoveredRunIsSettled in Es. do 2 apply andb_true_iff in Es as [Es _]. apply andb_true_iff in Es as [_ Es]. by apply bool_decide_eq_true in Es.
Qed.

(** A computation that moves the world as [after] says, and not the store. *)
Definition same_store (w0 w : world) : Prop := after w0 w /\ w_store w = w_store w0.
Lemma same_store_refl w : sound w -> same_store w w.
Proof. split; [by apply after_refl|done]. Qed.
Lemma ready_same e w0 w : same_store w0 w -> ready e w0 -> ready e w.
Proof. intros [[_ Hf _ _] Hs] [H1 H2]. split; [done|]. unfold stored in *. by rewrite Hs, (frame_id _ _ Hf). Qed.

Lemma same_store_viewLocked w0 ctx : triple (same_store w0) (viewLocked ctx) (fun _ => same_store w0) (same_store w0).
Proof.
  intros w [Hw Hs]. pose proof (quiet_viewLocked w0 ctx w Hw) as H. unfold viewLocked, session_View, modify, mbind, M_bind, mret, M_ret in *.
  destruct (Load _ _ _) as [s|err|msg]; [by split|by split|exact H].
Qed.
Lemma same_store_nextID w0 kind : triple (same_store w0) (nextID kind) (fun _ => same_store w0) (same_store w0).
Proof. intros w [Hw Hs]. by split; [apply (quiet_nextID w0 kind w Hw)|]. Qed.
Lemma commit_failed w0 e ctx expected op actor cs :
  triple (same_store w0) (commitLockedAs e ctx expected op actor cs) (fun _ => committed w0 cs) (same_store w0).
Proof.
  intros w [Hw Hs]. pose proof (commitLockedAs_spec w0 e ctx expected op actor cs w Hw) as H.
  cbv beta iota zeta delta [commitLockedAs mbind M_bind RuntimeState.nextID gets store_Commit] in *. cbn [w_rt w_store] in *.
  destruct (Commit _ _ _ _ _) as [st' out] eqn:HC. destruct out as [r|err|msg]; [unfold modify in *; cbn [w_rt w_store] in *; destruct (co_Applied r); exact H| |exact H]. split; [exact H|].
  apply Commit_inv in HC as [[-> _]|(?&?&?&?&_&_&_&_&_&_&?&_)]; [done|discriminate].
Qed.

Lemma startChangesLocked_same w0 s item enqueue :
  triple (same_store w0) (startChangesLocked s item enqueue)
    (fun out w => same_store w0 w /\ exists n, (sequence w0 < n <= sequence w)%Z /\ starts_run w0 n out.1.1 out.2) (same_store w0).
Proof.
  intros w [Hw Hs]. pose proof (startChangesLocked_spec w0 s item enqueue w Hw) as H.
  assert (w_store (startChangesLocked s item enqueue w).1 = w_store w) as Hst by done.
  destruct (startChangesLocked s item enqueue w) as [w' [out|err|msg]]; cbn [fst] in Hst; [|split; [exact H|congruence]|exact H].
  destruct H as [Ha Hn]. split; [split; [exact Ha|congruence]|exact Hn].
Qed.

(** [run.cancel()] and [close(run.done)] *)
Definition retired (k : nat) (r : runtimeInstance) : runtimeInstance :=
  set_runs r (alter (fun a => with_done a false) k (alter with_canceled k (ri_runs r))).
Lemma retire_eq {A} k w a (m : M A) :
  ri_runs (w_rt w) !! k = Some a -> ar_done a = true ->
  (update_run k with_canceled ;; close_done k ;; m) w = m (World (w_store w) (retired k (w_rt w))).
Proof.
  intros Hk Hd. unfold update_run at 1, modify at 1, close_done, get_run, mbind, M_bind; cbn [w_rt w_store set_runs ri_runs].
  rewrite list_lookup_alter_eq, Hk. cbn. rewrite Hd. done.
Qed.

Lemma retired_limits k r v : Forall (fun a => within_limits (ar_id a) v) (ri_runs r) -> Forall (fun a => within_limits (ar_id a) v) (ri_runs (retired k r)).
Proof. intros H. cbn [retired ri_runs set_runs]. by do 2 (apply Forall_alter_id; [done|]). Qed.

Lemma running_channels w k : invariant w -> ri_active (w_rt w) = Some k ->
  ri_idleSignal (w_rt w) = true /\ ri_closeDone (w_rt w) = true /\ ri_openDone (w_rt w) = false.
Proof.
  intros Hw Hact. destruct (active_lookup w k Hw Hact) as [a Hk]. destruct (active_facts w k a Hw Hact Hk) as (Hst&_).
  destruct Hw as [_ _ [C1 C2 C3 _]]. rewrite C1, C2, Hst. split_and!; [done|done|].
  destruct (ri_openDone (w_rt w)); [|done]. destruct C3; [done|congruence].
Qed.
Lemma frame_flags r r0 : frame r = frame r0 -> ri_idleSignal r = ri_idleSignal r0 /\ ri_closeDone r = ri_closeDone r0 /\ ri_openDone r = ri_openDone r0 /\
  ri_closers r = ri_closers r0.
Proof. intros H. split_and!; [by apply (f_equal ri_idleSignal) in H|by apply (f_equal ri_closeDone) in H|by apply (f_equal ri_openDone) in H|by apply (f_equal ri_closers) in H]. Qed.

(** The next run takes over. *)
Lemma switched_kept w0 k n run cs w :
  invariant w0 -> ri_active (w_rt w0) = Some k -> (sequence w0 < n <= sequence w)%Z -> starts_run w0 n run cs -> committed w0 cs w ->
  ri_closing (w_rt w0) = false ->
  kept (World (w_store w) (set_state (set_active (set_runs (retired k (w_rt w)) (ri_runs (retired k (w_rt w)) ++ [run]))
    (Some (length (ri_runs (retired k (w_rt w)))))) runtimeRunning)).
Proof.
  intros H0 Hact Hseq Hst Hcm Hcl Hb. destruct (started_view w0 n run cs w H0 Hseq Hst Hcm Hb) as (v&Hv&Hag&Hn&[Hlim Hnew]%Forall_app).
  destruct (running_channels w0 k H0 Hact) as (I1&I2&I3). destruct Hcm as [Hs Hf _ _ _]. destruct (frame_state _ _ Hf) as (Es&Ea&Ec&Er).
  destruct (frame_flags _ _ Hf) as (F1&F2&F3&F4). pose proof H0 as [_ _ [_ _ _ C4]].
  split; [by apply sound_move| |].
  - exists v. rewrite stored_view_move by done. split; [done|]. split; [|split; [exact Hn|split; [|simpl; congruence]]].
    + unfold located. simpl. eexists _, run. split_and!; [done|by apply list_lookup_middle| |done]. destruct Hst as (_&[s ->]&_). done.
    + cbn [w_rt ri_runs set_state set_active set_runs]. apply Forall_app_2; [by apply retired_limits|exact Hnew].
  - split; simpl; rewrite ?F1, ?F2, ?F3, ?F4; [done|done|congruence|]. intros d Hd. destruct (C4 d Hd). congruence.
Qed.

(** Nothing follows. *)
Lemma ended_kept w0 k cs w :
  invariant w0 -> ri_active (w_rt w0) = Some k -> committed w0 cs w ->
  (forall v, view_after cs v = (RunIdle, "", v.1.2, v.2)) ->
  kept (World (w_store w) (set_idleSignal (set_state (set_active (retired k (w_rt w)) None) runtimeIdle) false)).
Proof.
  intros H0 Hact [Hs Hf _ Happ Hq] Hcs Hb. specialize (Happ Hb). destruct (running_channels w0 k H0 Hact) as (I1&I2&I3).
  destruct (frame_state _ _ Hf) as (Es&Ea&Ec&Er). destruct (frame_flags _ _ Hf) as (F1&F2&F3&F4).
  destruct H0 as [_ ([[[st i] al] tl]&Hv&_&Hn&Hlim&_) [_ _ _ C4]]. rewrite Hv in Happ. cbn [fmap option_fmap option_map] in Happ. rewrite Hcs in Happ.
  split; [by apply sound_move| |].
  - exists (RunIdle, "", al, tl). rewrite stored_view_move by done. split; [done|]. split; [done|]. split; [|split; [|simpl; congruence]].
    + intros m Hm. unfold run_identity; simpl. rewrite (frame_prefix _ _ Hf). destruct (Hn m) as (_&N2&N3); [unfold unused, sequence in *; simpl in *; lia|].
      split; [done|by split].
    + cbn [w_rt ri_runs set_idleSignal set_state set_active]. apply retired_limits. rewrite Er. exact Hlim.
  - split; simpl; rewrite ?F2, ?F3, ?F4; [done|done|congruence|]. intros d Hd. rewrite Ec. split; [by destruct (C4 d Hd)|by left].
Qed.

Lemma recovery_kept {A} e k w0 w (a : A) :
  invariant w0 -> ri_active (w_rt w0) = Some k -> ready e w0 -> same_store w0 w ->
  match (recoverAfterRunFailureLocked e k ;; mret a) w with (w', Panic _) => False | (w', _) => kept w' end.
Proof.
  intros H0 Hact Hready Hw. pose proof (invariant_after w0 w H0 (proj1 Hw)) as Hi. destruct (frame_state _ _ (af_frame _ _ (proj1 Hw))) as (_&Ea&_).
  pose proof (recoverAfterRunFailureLocked_kept e k w Hi) as H. rewrite Ea in H. specialize (H Hact (ready_same e w0 w Hw Hready)).
  unfold mbind, M_bind. destruct (recoverAfterRunFailureLocked e k w) as [w' [?|?|?]]; [by intros _|by intros _|done].
Qed.

Lemma view_after_ending fact runID v :
  view_after [AppendRunFact_ fact; SetRunState_ (MkRunStateChange runID RunIdle)] v = (RunIdle, "", v.1.2, v.2).
Proof. destruct v as [[[st i] al] tl]. unfold view_after, view_changed; simpl. by rewrite !app_nil_r. Qed.

Lemma quiet_held (natural : bool) l :
  quiet_changes (if natural then [] else map (fun item => ReclassifyQueue_ (MkQueueReclassify (msg_ID (qi_Message item)) DeliveryHeld)) l).
Proof. destruct natural; [constructor|]. induction l; constructor; auto with quiet. Qed.

(** What [finishRun] commits for the next run. *)
Definition follows (w0 : world) (closing : bool) (next : option (activeRun * string * list Change)) (w : world) : Prop :=
  same_store w0 w /\
  match next with
  | Some (run, _, changes) => closing = false /\ exists n, (sequence w0 < n <= sequence w)%Z /\ starts_run w0 n run changes
  | None => True
  end.

Lemma next_run_spec w0 s (natural closing : bool) :
  triple (same_store w0)
    (match (if natural && negb closing then firstPending (sn_Queue s) DeliveryNormal else None) with
     | Some item => started ← startChangesLocked s item false; mret (Some started)
     | None => mret None
     end) (follows w0 closing) (same_store w0).
Proof.
  destruct (natural && negb closing) eqn:E; [|apply triple_ret; intros w Hw; by split].
  apply andb_true_iff in E as [_ E%negb_true_iff]. destruct (firstPending _ _) as [item|]; [|apply triple_ret; intros w Hw; by split].
  eapply triple_bind; [apply startChangesLocked_same|]. intros [[run step] cs]. apply triple_ret. intros w [Hw Hn]. by split.
Qed.

Lemma same_store_trans w0 w1 w2 : same_store w0 w1 -> same_store w1 w2 -> same_store w0 w2.
Proof. intros [A1 A2] [B1 B2]. split; [by eapply after_trans|congruence]. Qed.

Lemma finished_kept w0 e k a s (prefix : list Change) fact actor next w1 :
  invariant w0 -> ri_active (w_rt w0) = Some k -> ri_runs (w_rt w0) !! k = Some a -> ready e w0 ->
  quiet_changes prefix -> follows w0 (ri_closing (w_rt w0)) next w1 ->
  let following := match next with Some (_, _, changes) => changes | None => [] end in
  let ending := [AppendRunFact_ fact; SetRunState_ (MkRunStateChange (ar_id a) RunIdle)] in
  match (committed ← catch (commitLockedAs e Live (sn_Revision s) "run-finish" actor (prefix ++ ending ++ following));
      match committed with
      | inr _ => recoverAfterRunFailureLocked e k ;; mret None
      | inl _ =>
        update_run k with_canceled ;; close_done k ;;
        match next with
        | Some (run, step, _) =>
          k' ← gets (fun r => length (ri_runs r));
          modify (fun r => set_state (set_active (set_runs r (ri_runs r ++ [run])) (Some k')) runtimeRunning) ;;
          mret (Some (k', step))
        | None => modify (fun r => set_state (set_active r None) runtimeIdle) ;; close_idleSignal ;; mret None
        end
      end) w1 with (w', Panic _) => False | (w', _) => kept w' end.
Proof.
  intros H0 Hact Hk Hready Hquiet [Hw Hnext] following ending. destruct (active_facts w0 k a H0 Hact Hk) as (_&Hd&_).
  pose proof (commit_failed w1 e Live (sn_Revision s) "run-finish" actor (prefix ++ ending ++ following) w1 (same_store_refl w1 (af_sound _ _ (proj1 Hw)))) as Hc.
  unfold mbind at 1, M_bind at 1, catch. destruct (commitLockedAs _ _ _ _ _ _ w1) as [w [out|err|msg]]; [| |done].
  2: { apply (recovery_kept e k w0); [done..|]. by eapply same_store_trans. }
  pose proof (cm_sequence _ _ _ Hc) as Hgrow. apply (committed_rebase w0) in Hc; [|exact (proj1 Hw)].
  assert (ri_runs (w_rt w) !! k = Some a) as Hk' by (destruct (frame_state _ _ (cm_frame _ _ _ Hc)) as (_&_&_&->); exact Hk).
  rewrite (retire_eq k w a) by done. destruct next as [[[run step] changes]|]; cbn [following] in *.
  - destruct Hnext as (Hcl&n&Hn&Hst). apply (switched_kept w0 k n run (prefix ++ ending ++ changes) w); [done|done|lia| |done|done].
    destruct Hst as (S1&S2&S3). split; [done|]. split; [done|]. intros v.
    by rewrite !view_after_app, (view_after_quiet prefix), (view_after_ending fact (ar_id a)), S3.
  - assert (ri_idleSignal (w_rt w) = true) as Hidle.
    { destruct (running_channels w0 k H0 Hact) as (I1&_). destruct (frame_flags _ _ (cm_frame _ _ _ Hc)) as (->&_). exact I1. }
    unfold close_idleSignal, self, gets, modify, mbind, M_bind. cbn [w_rt w_store ri_idleSignal set_state set_active retired set_runs]. rewrite Hidle.
    apply (ended_kept w0 k (prefix ++ ending ++ following) w); [done..|]. intros v.
    by rewrite !view_after_app, (view_after_quiet prefix), (view_after_ending fact (ar_id a)).
Qed.

Lemma keeps_finishRun e k outcome termination :
  triple (fun w => invariant w /\ ready e w) (finishRun e k outcome termination) (fun _ => kept) kept.
Proof.
  intros w0 [H0 Hready]. unfold finishRun. unfold self, gets. unfold mbind at 1, M_bind at 1.
  destruct (is_active (w_rt w0) k) eqn:Ha; [|by intros _]. apply is_active_true in Ha. destruct (active_lookup w0 k H0 Ha) as [a Hk].
  cbn [negb]. unfold mbind at 1, M_bind at 1, get_run. rewrite Hk. cbv zeta. unfold mbind at 1, M_bind at 1, catch at 1.
  pose proof (same_store_viewLocked w0 Live w0 (same_store_refl w0 (in_sound _ H0))) as Hv.
  destruct (viewLocked Live w0) as [w [s|err|msg]]; [| |done]; cbv beta iota.
  2: exact (recovery_kept e k w0 w None H0 Ha Hready Hv).
  unfold mbind at 1, M_bind at 1.
  match goal with |- context [if ?natural && negb (ri_closing (w_rt w0)) then _ else None] =>
    pose proof (next_run_spec w0 s natural (ri_closing (w_rt w0)) w Hv) as Hnext; cbv beta iota zeta in Hnext end.
  match type of Hnext with let (_, _) := ?m in _ => destruct m as [w1 [next|err|msg]] end; [| |exact Hnext].
  - apply (finished_kept w0 e k a s); [done..|apply quiet_held|exact Hnext].
  - apply (after_kept w0); [done|]. exact (proj1 Hnext).
Qed.

(** ** Opening *)

(** The invariant, once [openDone] is closed. *)
Definition opens (w : world) : Prop := ri_openDone (w_rt w) = true /\ forall err, invariant (World (w_store w) (set_open (w_rt w) false err)).

Lemma close_openDone_kept err w : opens w -> match close_openDone err w with (w', Ok _) => kept w' | _ => False end.
Proof. intros [Ho H]. unfold close_openDone, self, gets, mbind, M_bind. rewrite Ho. intros _. apply H. Qed.

Lemma invariant_opens w : invariant w -> ri_openDone (w_rt w) = true -> opens w.
Proof.
  intros [Hs (v&Hv&Hl&Hn&Hr&Hop) [C1 C2 C3 C4]] Ho. split; [done|]. intros err. split; [by apply sound_move| |by split].
  exists v. rewrite stored_view_move by done. by split_and!.
Qed.

(** The runtime is idle, when the snapshot is. *)
Lemma opens_idle w0 s w :
  invariant w0 -> ri_openDone (w_rt w0) = true -> loaded w0 s w -> sn_RunState s = RunIdle ->
  opens (World (w_store w) (set_state (w_rt w) runtimeIdle)).
Proof.
  intros H0 Ho [Hw (a&Ha&<-)] Hidle. pose proof (invariant_after w0 w H0 Hw) as Hi. destruct (frame_flags _ _ (af_frame _ _ Hw)) as (F1&F2&F3&F4).
  rewrite Ho in F3. destruct Hi as [Hs (v&Hv&Hl&Hn&Hr&Hop) [C1 C2 C3 C4]]. destruct (C3 F3) as [Hst Hcl]. unfold located in Hl. rewrite Hst in Hl.
  assert (v = view_of (ag_snapshot a)) as -> by (unfold stored_view in Hv; rewrite Ha in Hv; by injection Hv as <-).
  split; [done|]. intros err. split; [by apply (sound_move w)| |].
  - exists (view_of (ag_snapshot a)). rewrite (stored_view_move w) by done. split; [done|]. split; [by split|]. split; [exact Hn|]. by split.
  - split; simpl; [by rewrite C1, Hst|by rewrite C2, Hst|done|exact C4].
Qed.

Lemma restored_agrees s started preflights :
  sn_RunState s = RunRunning -> run_agrees (restored_run s started preflights) (view_of s).
Proof.
  intros Hr. unfold run_agrees, view_of, restored_run; cbn [ar_id ar_usedTokens ar_modelAttempts ar_toolCalls].
  split_and!; [done|done|apply restored_tokens_sum|apply restored_attempts_count|apply restored_calls_count].
Qed.

(** The restored run is active. *)
Lemma opens_restored w0 s w started preflights :
  invariant w0 -> ri_openDone (w_rt w0) = true -> loaded w0 s w -> sn_RunState s = RunRunning ->
  let r := activated (restored_run s started preflights) (w_rt w) in
  opens (World (w_store w) (set_runs r (alter (signal (sn_Revision s)) (length (ri_runs (w_rt w))) (ri_runs r)))).
Proof.
  intros H0 Ho [Hw (a&Ha&<-)] Hrun r. pose proof (invariant_after w0 w H0 Hw) as Hi. destruct (frame_flags _ _ (af_frame _ _ Hw)) as (F1&F2&F3&F4).
  rewrite Ho in F3. destruct Hi as [Hs (v&Hv&Hl&Hn&Hr&Hop) [C1 C2 C3 C4]]. destruct (C3 F3) as [Hst Hcl]. specialize (Hop F3).
  assert (v = view_of (ag_snapshot a)) as -> by (unfold stored_view in Hv; rewrite Ha in Hv; by injection Hv as <-).
  split; [done|]. intros err. apply (invariant_update (signal (sn_Revision (ag_snapshot a))) (length (ri_runs (w_rt w)))
    (World (w_store w) (set_open r false err)) (harmless_signal _)). split; [by apply (sound_move w)| |].
  - exists (view_of (ag_snapshot a)). rewrite (stored_view_move w) by done. split; [done|]. split; [|split; [exact Hn|split; [|done]]].
    + unfold located. simpl. eexists _, (restored_run (ag_snapshot a) started preflights). split; [done|]. split; [by apply list_lookup_middle|]. split; [done|].
      by apply restored_agrees.
    + cbn [w_rt ri_runs set_open activated r set_idleSignal set_active set_state set_runs]. apply Forall_app_2; [exact Hr|]. constructor; [|done]. exact Hop.
  - split; simpl; [done|by rewrite C2, Hst|done|]. intros d Hd. destruct (C4 d Hd). congruence.
Qed.

Lemma prepared_step_returns calls : returns (prepared_step calls).
Proof. apply returns_foldM. intros entry step _. by apply returns_bind; [apply returns_reject|]. Qed.

Definition restored (w0 : world) (s : Snapshot) (w : world) : Prop :=
  loaded w0 s w /\ sn_RunState s = RunIdle \/ opens w /\ ri_state (w_rt w) = runtimeRunning.

Lemma activate_prepared_spec w0 s started preflights :
  invariant w0 -> ri_openDone (w_rt w0) = true -> sn_RunState s = RunRunning ->
  triple (loaded w0 s) (activate_prepared s (restored_run s started preflights)) (fun _ => restored w0 s) (after w0).
Proof.
  intros H0 Ho Hrun w Hw. unfold activate_prepared, mbind, M_bind. rewrite activateLocked_eq. unfold update_run, modify. cbn [w_rt w_store].
  right. split; [by apply (opens_restored w0)|done].
Qed.

Lemma restorePreparedRun_spec w0 s plan :
  invariant w0 -> ri_openDone (w_rt w0) = true -> triple (loaded w0 s) (restorePreparedRun s plan) (fun _ => restored w0 s) (after w0).
Proof.
  intros H0 Ho. unfold restorePreparedRun. destruct (bool_decide (sn_RunState s = RunRunning)) eqn:Erun; cbn [negb].
  - apply bool_decide_eq_true in Erun. cbv zeta.
    eapply triple_bind with (Q := fun _ => loaded w0 s); [apply triple_lift; [apply prepared_step_returns|done|by intros w [? _]]|]. intros step.
    assert (forall bad e, triple (loaded w0 s) (fail_if bad e) (fun _ => loaded w0 s) (after w0)) as Hfail
      by (intros bad e; apply triple_fail_if; [done|by intros w [? _]]).
    eapply triple_bind; [apply Hfail|]. intros ?. destruct (runFacts _ _).1 as [started|]; [|apply triple_fail; by intros w [? _]].
    destruct (persisted_termination _ _) as [t|]; (eapply triple_bind; [apply Hfail|]; intros ?; eapply triple_bind; [by apply activate_prepared_spec|];
      intros ?; by apply triple_ret).
  - apply bool_decide_eq_false in Erun. apply triple_ret. intros w Hw. left. split; [done|]. destruct Hw as [[Hs _ _ _] (a&Ha&<-)].
    destruct (so_wf _ Hs _ _ Ha) as [[Hcore _ _] _]. pose proof (wc_run _ _ Hcore) as Hwf. unfold wf_run_state in Hwf.
    by destruct (sn_RunState (ag_snapshot a)).
Qed.

Lemma finishOpen_spec w0 e evaluate kind :
  invariant w0 -> ri_openDone (w_rt w0) = true -> triple (after w0) (finishOpen c e evaluate kind) (fun _ => opens) (after w0).
Proof.
  intros H0 Ho. unfold finishOpen. eapply triple_bind; [apply quiet_fail_if|]. intros ?. eapply triple_bind; [apply session_View_spec|]. intros s. cbv zeta.
  eapply triple_bind; [apply recoverSessionLifecycleEntries_spec|]. intros s1.
  eapply triple_bind with (Q := fun _ => after w0).
  { eapply triple_weaken; [apply (quiet_prepareSessionLifecycle c w0)|by intros w [? _]|done..]. }
  intros o.
  eapply triple_bind with (Q := fun _ => after w0).
  { destruct o; [|apply quiet_ret]. apply quiet_bind; [apply quiet_executeSessionLifecycle|intros ?; apply quiet_ret]. }
  intros ?. eapply triple_bind; [apply session_View_spec|]. intros s2. eapply triple_bind; [apply recoverExtensionsAfterOpen_spec|]. intros s3.
  eapply triple_bind; [by apply restorePreparedRun_spec|]. intros resumed. eapply triple_bind with (Q := fun _ => opens); [|intros ?; by apply triple_ret].
  apply triple_modify. intros w [[Hw Hidle]|[Hw Hrun]].
  - destruct (frame_state _ _ (af_frame _ _ (proj1 Hw))) as (Es&_). destruct (in_channels _ H0) as [_ _ C3 _]. destruct (C3 Ho) as [Hst _].
    rewrite bool_decide_eq_true_2 by congruence. by apply (opens_idle w0 s3).
  - rewrite bool_decide_eq_false_2 by congruence. by destruct w.
Qed.

Lemma keeps_open e evaluate kind : keeps (open c e evaluate kind).
Proof.
  intros w0 H0. unfold open, self, gets. unfold mbind at 1, M_bind at 1. destruct (ri_openDone (w_rt w0)) eqn:Ho; cbn [negb].
  2: { destruct (ri_openErr (w_rt w0)); by apply invariant_kept. }
  unfold mbind at 1, M_bind at 1, catch.
  pose proof (finishOpen_spec w0 e evaluate kind H0 Ho w0 (after_refl w0 (in_sound _ H0))) as H.
  destruct (finishOpen c e evaluate kind w0) as [w [resumed|err|msg]]; [..|done]; unfold mbind, M_bind.
  - pose proof (close_openDone_kept None w H) as Hc. destruct (close_openDone None w) as [w' [[]|?|?]]; done.
  - assert (opens w) as Hop.
    { apply invariant_opens; [by eapply invariant_after|]. destruct (frame_flags _ _ (af_frame _ _ H)) as (_&_&->&_). done. }
    pose proof (close_openDone_kept (Some err) w Hop) as Hc. destruct (close_openDone (Some err) w) as [w' [[]|?|?]]; done.
Qed.

End Limits.

End Invariant.
