(* ===== verification/RuntimePrograms.v ===== *)
(** * Programs over a runtime

    What every later world keeps of the extension journal, the computations
    that respect it, and the safety of a program: its regions keep the
    invariant of the runtime whatever happens between them, it never panics,
    and a hook is only invoked when the journal in the store says that its
    invocation has begun. *)

From S2P Require Import Prelude GoStrings AgentTypes ModelContracts SessionTypes ExtensionJournal.
From S2P Require Import SessionValidate SessionHistory SessionApply SessionRecover SessionCreate SessionStore SessionManager HookViews ModelStream SessionSafety.
From S2P Require Import SessionInvariant SessionCommitFacts SessionRecoverFacts SessionStoreFacts.
From S2P Require Import ToolDispatcher LoopProtocol RuntimeState RuntimeCommands RuntimeRun RuntimeLifecycle RuntimeHooks RuntimeFacts RuntimeInvariant.

(** ** The journal of a world *)
Definition journal (w : world) : list ExtensionJournalEntry :=
  match stored w with Some a => sn_ExtensionJournal (ag_snapshot a) | None => [] end.

(** The Session a runtime is for. *)
Definition rt_identity (r : runtimeInstance) : string * string * string := (ri_id r, ri_agentID r, ri_workspaceID r).

(** What a world keeps of an earlier one. *)
Record grows (w w' : world) : Prop := {
  gr_id : rt_identity (w_rt w') = rt_identity (w_rt w);
  gr_journal : ext_evolves (journal w) (journal w');
}.
#[export] Instance grows_preorder : PreOrder grows.
Proof. split; [by intros w; split|]. intros x y z [A1 A2] [B1 B2]. split; [congruence|by etrans]. Qed.

(** The store knows that the invocation of the entry has begun. *)
Definition begun (w : world) (e : ExtensionJournalEntry) : Prop :=
  exists i x, journal w !! i = Some x /\ xe_identity x = xe_identity e /\ 1 <= status_rank (xe_Status x) /\ xe_PendingAt x ≠ 0%Z.

Lemma begun_grows w w' e : begun w e -> grows w w' -> begun w' e.
Proof.
  intros (i&x&Hi&Hid&Hs&Hp) [_ H]. destruct (H i x Hi) as (x'&Hi'&[E1 E2 E3 _ _ _]). exists i, x'. split; [done|].
  split; [congruence|]. split; [lia|]. by rewrite E3.
Qed.
Lemma begun_identity w e e' : begun w e -> xe_identity e' = xe_identity e -> begun w e'.
Proof. intros (i&x&Hi&Hid&H) He. exists i, x. split; [done|]. split; [congruence|done]. Qed.

(** What the programs rely on in an entry that they read. *)
Definition entry_ok (w : world) (e : ExtensionJournalEntry) : Prop :=
  (xe_Status e = InvocationSucceeded -> is_Some (xe_Result e)) /\ (xe_Status e = InvocationPending -> begun w e).
Lemma entry_ok_grows w w' e : entry_ok w e -> grows w w' -> entry_ok w' e.
Proof. intros [H1 H2] Hw. split; [done|]. intros Hp. by eapply begun_grows; [apply H2|]. Qed.
Lemma entries_ok_grows w w' l : Forall (entry_ok w) l -> grows w w' -> Forall (entry_ok w') l.
Proof. intros H Hw. eapply Forall_impl; [exact H|]. intros e He. by eapply entry_ok_grows. Qed.

(** The entries that a restored run keeps for its preflights. *)
Definition recovered_ok (w : world) : Prop :=
  Forall (fun a => Forall (entry_ok w) (default [] (ar_recoveredToolPreflights a))) (ri_runs (w_rt w)).

(** ** Values *)

(** Every value of the computation satisfies [P]. *)
Definition yields {A} (m : M A) (P : A -> Prop) : Prop := forall w a, (m w).2 = Ok a -> P a.
Lemma yields_bind {A B} (m : M A) (f : A -> M B) P Q : yields m P -> (forall a, P a -> yields (f a) Q) -> yields (m ≫= f) Q.
Proof.
  intros Hm Hf w b. unfold mbind, M_bind. pose proof (Hm w) as H. destruct (m w) as [w' [a|err|msg]]; [|done..]. apply Hf. by apply H.
Qed.
Lemma yields_then {A B} (m : M A) (f : A -> M B) Q : (forall a, yields (f a) Q) -> yields (m ≫= f) Q.
Proof. intros Hf. by eapply (yields_bind _ _ (fun _ => True)). Qed.
Lemma yields_ret {A} (a : A) (P : A -> Prop) : P a -> yields (mret a) P.
Proof. by intros H w ? [= <-]. Qed.
Lemma yields_fail {A} err (P : A -> Prop) : yields (fail err) P.
Proof. by intros w a. Qed.


(** ** Regular computations *)
Section Regular.
Context {J : JsonOps} {F : Fingerprints} {R : RequestFingerprint} {K : CursorCodec}.

Record moves (w0 w : world) : Prop := {
  mv_wf : wf_store (w_store w);
  mv_grows : grows w0 w;
  mv_recovered : recovered_ok w0 -> recovered_ok w;
}.
Lemma moves_refl w : wf_store (w_store w) -> moves w w.
Proof. by split. Qed.
Lemma moves_trans w0 w1 w2 : moves w0 w1 -> moves w1 w2 -> moves w0 w2.
Proof. intros [A1 A2 A3] [B1 B2 B3]. split; [done|by etrans|auto]. Qed.

Definition regularly {A} (w0 : world) (m : M A) (Q : A -> world -> Prop) : Prop :=
  forall w, moves w0 w -> moves w0 (m w).1 /\ forall a, (m w).2 = Ok a -> Q a (m w).1.
Definition regular {A} (m : M A) : Prop := forall w0, regularly w0 m (fun _ _ => True).

Lemma regularly_bind {A B} w0 (m : M A) (f : A -> M B) Q Q' :
  regularly w0 m Q -> (forall a, forall w, moves w0 w -> Q a w -> moves w0 (f a w).1 /\ forall b, (f a w).2 = Ok b -> Q' b (f a w).1) ->
  regularly w0 (m ≫= f) Q'.
Proof.
  intros Hm Hf w Hw. destruct (Hm w Hw) as [H1 H2]. unfold mbind, M_bind. destruct (m w) as [w' [a|e|msg]]; [|done..]. by apply Hf; [|apply H2].
Qed.
Lemma regular_bind {A B} (m : M A) (f : A -> M B) : regular m -> (forall a, regular (f a)) -> regular (m ≫= f).
Proof. intros Hm Hf w0. eapply regularly_bind; [apply Hm|]. intros a w Hw _. by apply (Hf a w0). Qed.
Lemma regular_same {A} (m : M A) : (forall w, (m w).1 = w) -> regular m.
Proof. intros H w0 w Hw. by rewrite H. Qed.
Lemma regular_ret {A} (a : A) : regular (mret a).
Proof. by apply regular_same. Qed.
Lemma regular_lift {A} (r : result A) : regular (lift r).
Proof. by apply regular_same. Qed.
Lemma regular_fail {A} e : regular (fail (A := A) e).
Proof. by apply regular_same. Qed.
Lemma regular_fail_if bad e : regular (fail_if bad e).
Proof. by apply regular_same. Qed.
Lemma regular_gets {A} (f : runtimeInstance -> A) : regular (gets f).
Proof. by apply regular_same. Qed.
Lemma regular_self : regular self.
Proof. by apply regular_same. Qed.
Lemma regular_now e : regular (now e).
Proof. by apply regular_same. Qed.
Lemma regular_get_run k : regular (get_run k).
Proof. apply regular_same. intros w. unfold get_run. by destruct (_ !! k). Qed.
Lemma regular_catch {A} (m : M A) : regular m -> regular (catch m).
Proof. intros H w0 w Hw. destruct (H w0 w Hw) as [H1 _]. unfold catch. by destruct (m w) as [w' [a|e|msg]]. Qed.
Lemma regular_mapM {A B} (f : A -> M B) l : (forall a, regular (f a)) -> regular (mapM_ f l).
Proof. intros H. induction l as [|a l IH]; [apply regular_ret|]. simpl. repeat (apply regular_bind; [done|intros ?]). apply regular_ret. Qed.

(** Moving the runtime. *)
Lemma journal_rt w r : rt_identity r = rt_identity (w_rt w) -> journal (World (w_store w) r) = journal w.
Proof. intros [= H _ _]. unfold journal, stored. simpl. by rewrite H. Qed.
Lemma grows_rt w r : rt_identity r = rt_identity (w_rt w) -> grows w (World (w_store w) r).
Proof. intros H. split; [done|]. by rewrite journal_rt. Qed.
Lemma recovered_move w r :
  rt_identity r = rt_identity (w_rt w) ->
  (forall a, a ∈ ri_runs r -> ar_recoveredToolPreflights a = None \/
    exists b, b ∈ ri_runs (w_rt w) /\ ar_recoveredToolPreflights b = ar_recoveredToolPreflights a) ->
  recovered_ok w -> recovered_ok (World (w_store w) r).
Proof.
  unfold recovered_ok. rewrite !Forall_forall. intros Hid Hr Hw a Ha. destruct (Hr a Ha) as [->|(b&Hb&<-)]; [by constructor|].
  eapply entries_ok_grows; [by apply Hw|by apply grows_rt].
Qed.
Lemma regular_modify f :
  (forall r, rt_identity (f r) = rt_identity r) ->
  (forall r a, a ∈ ri_runs (f r) -> ar_recoveredToolPreflights a = None \/
    exists b, b ∈ ri_runs r /\ ar_recoveredToolPreflights b = ar_recoveredToolPreflights a) ->
  regular (modify f).
Proof.
  intros Hid Hr w0 w [H1 H2 H3]. split; [|done]. split; [done|etrans; [exact H2|by apply grows_rt]|].
  intros H0. apply recovered_move; auto.
Qed.
Lemma regular_modify_same f : (forall r, rt_identity (f r) = rt_identity r) -> (forall r, ri_runs (f r) = ri_runs r) -> regular (modify f).
Proof. intros Hid Hr. apply regular_modify; [done|]. intros r a. rewrite Hr. intros Ha. right. by exists a. Qed.
Lemma regular_update_run k f :
  (forall a, ar_recoveredToolPreflights (f a) = None \/ ar_recoveredToolPreflights (f a) = ar_recoveredToolPreflights a) -> regular (update_run k f).
Proof.
  intros Hf. apply regular_modify; [done|]. intros r a Ha. simpl in Ha. apply list_elem_of_lookup in Ha as [i Hi].
  destruct (decide (i = k)) as [->|Hne].
  - rewrite list_lookup_alter_eq in Hi. destruct (ri_runs r !! k) as [b|] eqn:Eb; [|done]. injection Hi as <-.
    destruct (Hf b) as [?|Heq]; [by left|]. right. exists b. split; [by eapply list_elem_of_lookup_2|done].
  - rewrite list_lookup_alter_ne in Hi by done. right. exists a. split; [by eapply list_elem_of_lookup_2|done].
Qed.
Lemma moves_rt w0 w r : moves w0 w -> rt_identity r = rt_identity (w_rt w) -> ri_runs r = ri_runs (w_rt w) -> moves w0 (World (w_store w) r).
Proof.
  intros [H1 H2 H3] Hid Hr. split; [done|etrans; [exact H2|by apply grows_rt]|]. intros H0. apply recovered_move; [done| |auto].
  intros a. rewrite Hr. intros Ha. right. by exists a.
Qed.
Lemma regular_nextID kind : regular (nextID kind).
Proof. intros w0 w Hw. split; [by apply moves_rt|done]. Qed.
Lemma regular_session_View ctx : regular (session_View ctx).
Proof.
  intros w0 w Hw. unfold session_View. destruct (Load _ _ _) as [s|e|msg]; [|done..]. split; [by apply moves_rt|done].
Qed.
Lemma regular_viewLocked ctx : regular (viewLocked ctx).
Proof. unfold viewLocked. apply regular_bind; [apply regular_session_View|intros s]. apply regular_bind; [by apply regular_modify_same|intros ?]. apply regular_ret. Qed.

(** The calls of the store. *)
Lemma moves_step w0 w st' :
  moves w0 w -> step (w_store w) st' -> moves w0 (World st' (w_rt w)).
Proof.
  intros [H1 H2 H3] Hs. destruct (step_evolves _ _ H1 Hs) as [Hwf Hev].
  assert (grows w (World st' (w_rt w))) as Hg.
  { split; [done|]. unfold journal, stored; simpl. destruct (st_sessions (w_store w) !! ri_id (w_rt w)) as [a|] eqn:E.
    - destruct (Hev _ _ E) as (a'&->&Ha). apply Ha.
    - intros i e Hi. by rewrite lookup_nil in Hi. }
  split; [done|by etrans|]. intros H0. eapply Forall_impl; [by apply H3|]. intros a Ha. exact (entries_ok_grows _ _ _ Ha Hg).
Qed.
Lemma regular_store_Commit e ctx q : regular (store_Commit e ctx q).
Proof.
  intros w0 w Hw. unfold store_Commit. destruct (Commit _ _ _ _ _) as [st' out] eqn:HC. split; [|done]. apply moves_step; [done|].
  exists (MkCall (en_readings e (ri_sequence (w_rt w))) (en_fresh e (ri_sequence (w_rt w))) ctx (OpCommit q)). split; [done|]. unfold invoke; simpl. by rewrite HC.
Qed.
Lemma regular_commitLockedAs e ctx expected op actor cs : regular (commitLockedAs e ctx expected op actor cs).
Proof.
  unfold commitLockedAs. apply regular_bind; [apply regular_nextID|intros id]. apply regular_bind; [apply regular_gets|intros sessionID].
  apply regular_bind; [apply regular_store_Commit|intros commit]. apply regular_bind; [by apply regular_modify_same|intros ?].
  apply regular_bind; [|intros ?; apply regular_ret]. destruct (co_Applied commit); [by apply regular_modify_same|apply regular_ret].
Qed.
Lemma regular_commitLocked e ctx expected op cs : regular (commitLocked e ctx expected op cs).
Proof. apply regular_commitLockedAs. Qed.

End Regular.

Create HintDb regular.
#[export] Hint Resolve regular_ret regular_lift regular_fail regular_fail_if regular_gets regular_self regular_now regular_get_run regular_catch
  regular_nextID regular_session_View regular_viewLocked regular_store_Commit regular_commitLockedAs regular_commitLocked : regular.
#[export] Hint Extern 2 (regular (modify _)) => (apply regular_modify_same; intros; solve [done | by case_match]) : regular.
#[export] Hint Extern 2 (regular (update_run _ _)) => (apply regular_update_run; intros ?; simpl; unfold signal; solve [tauto | case_match; simpl; tauto]) : regular.

(** Follow the structure of a computation. *)
Ltac regular :=
  repeat match goal with
  | |- regular (_ ≫= _) => apply regular_bind; [|intros ?]
  | |- regular (match ?x with _ => _ end) => destruct x eqn:?
  | |- regular (let _ := _ in _) => cbv zeta
  | |- regular (mapM_ _ _) => apply regular_mapM; intros ?
  | |- regular (catch _) => apply regular_catch
  | _ => solve [auto with regular]
  end.

(** ** The computations of a runtime are regular *)
Section Computations.
Context {J : JsonOps} {F : Fingerprints} {R : RequestFingerprint} {K : CursorCodec} {V : ViewFingerprints} (c : runtimeComponents).

Lemma regular_commitExternalLocked e ctx expected op actor cs : regular (commitExternalLocked e ctx expected op actor cs).
Proof. unfold commitExternalLocked. regular. Qed.
Hint Resolve regular_commitExternalLocked : regular.
Lemma regular_ensureOpenLocked op : regular (ensureOpenLocked op).
Proof. unfold ensureOpenLocked. regular. Qed.
Lemma regular_new_message e request : regular (new_message e request).
Proof. unfold new_message. regular. Qed.
Lemma regular_startChangesLocked s item enqueue : regular (startChangesLocked s item enqueue).
Proof. unfold startChangesLocked. regular. Qed.
Lemma regular_close_done k : regular (close_done k).
Proof. unfold close_done. regular. Qed.
Lemma regular_close_idleSignal : regular close_idleSignal.
Proof. unfold close_idleSignal. regular. Qed.
Lemma regular_close_closeDone : regular close_closeDone.
Proof. unfold close_closeDone. regular. Qed.
Lemma regular_close_openDone err : regular (close_openDone err).
Proof. unfold close_openDone. regular. Qed.
Lemma regular_signalPrepared k : regular (signalPrepared k).
Proof. unfold signalPrepared. regular. Qed.
Lemma regular_run_stopped k : regular (run_stopped k).
Proof. unfold run_stopped. regular. Qed.
Lemma regular_set_controlActor k actor : regular (set_controlActor k actor).
Proof. unfold set_controlActor. regular. Qed.
Lemma regular_check_revision op expected s : regular (check_revision op expected s).
Proof. unfold check_revision. regular. Qed.
Hint Resolve regular_ensureOpenLocked regular_new_message regular_startChangesLocked regular_close_done regular_close_idleSignal regular_close_closeDone
  regular_close_openDone regular_signalPrepared regular_run_stopped regular_set_controlActor regular_check_revision : regular.

(** A run that is not restored keeps no entries. *)
Lemma regular_append_run f run :
  ar_recoveredToolPreflights run = None -> (forall r, rt_identity (f r) = rt_identity r) -> (forall r, ri_runs (f r) = ri_runs r ++ [run]) -> regular (modify f).
Proof.
  intros Hrun Hid Hr. apply regular_modify; [done|]. intros r a. rewrite Hr, elem_of_app, list_elem_of_singleton. intros [Ha| ->]; [right; by exists a|by left].
Qed.
Lemma startChangesLocked_fresh s item enqueue w0 :
  regularly w0 (startChangesLocked s item enqueue) (fun out _ => ar_recoveredToolPreflights out.1.1 = None).
Proof.
  intros w Hw. split; [by apply (regular_startChangesLocked s item enqueue w0)|]. intros out. unfold startChangesLocked, mbind, M_bind.
  destruct (nextID "run" w) as [w1 [runID|e|msg]]; [|done..]. destruct (nextID "step" w1) as [w2 [stepID|e|msg]]; [|done..]. simpl. by intros [= <-].
Qed.

Lemma regular_start {A B} s item enqueue (commit : activeRun -> string -> list Change -> M A) (g : string -> nat -> B) :
  (forall run step cs, regular (commit run step cs)) ->
  regular ('(run, step, changes) ← startChangesLocked s item enqueue; commit run step changes ;; k ← activateLocked run; mret (g step k)).
Proof.
  intros Hc w0. eapply regularly_bind; [apply startChangesLocked_fresh|]. intros [[run step] changes] w Hw Hrun. cbv beta iota in Hrun |- *.
  refine ((_ : regular _) w0 w Hw). apply regular_bind; [apply Hc|intros ?]. apply regular_bind; [|intros ?; apply regular_ret].
  intros w1 w2 Hw2. unfold activateLocked. split; [|done].
  by refine (proj1 (regular_append_run (activated run) run Hrun _ _ w1 w2 Hw2)).
Qed.

Lemma regular_send e q : regular (send e q).
Proof.
  unfold send. do 3 (apply regular_bind; [solve [auto with regular]|intros ?]). apply regular_bind; [auto with regular|intros s].
  apply regular_bind; [auto with regular|intros m]. cbv zeta. destruct (bool_decide _); [regular|]. apply (regular_start _ _ _ (fun _ _ => _)). auto with regular.
Qed.
Lemma regular_pending e q : regular (RuntimeCommands.pending e q).
Proof.
  unfold RuntimeCommands.pending. do 4 (apply regular_bind; [solve [auto with regular]|intros ?]). apply regular_bind; [auto with regular|intros s].
  destruct (firstPending _ _); [|auto with regular]. apply (regular_start _ _ _ (fun _ _ => _)). auto with regular.
Qed.
Lemma regular_steer e q : regular (steer e q).
Proof. unfold steer. regular. Qed.
Lemma regular_editQueued e q : regular (editQueued e q).
Proof. unfold editQueued. regular. Qed.
Lemma regular_deleteQueued e q : regular (deleteQueued e q).
Proof. unfold deleteQueued. regular. Qed.
Lemma regular_reclassifyQueued e q : regular (reclassifyQueued e q).
Proof. unfold reclassifyQueued. regular. Qed.
Lemma regular_cancel e q : regular (cancel e q).
Proof. unfold cancel. regular. Qed.
Lemma regular_startCloseLocked : regular startCloseLocked.
Proof. unfold startCloseLocked. regular. Qed.
Hint Resolve regular_startCloseLocked : regular.
Lemma regular_close : regular close.
Proof. unfold close. regular. Qed.
Lemma regular_finishClose d err : regular (finishClose d err).
Proof.
  intros w0 w Hw. unfold finishClose. destruct (ri_closers (w_rt w) !! d) as [runDone|]; [|done]. cbv zeta.
  match goal with |- context [if ?b then _ else _] => destruct b; [done|] end. destruct (bool_decide _); [done|].
  refine ((_ : regular _) w0 w Hw). regular.
Qed.

(** *** Running a run *)
Lemma regular_markToolExecuting e k call : regular (markToolExecuting e k call).
Proof. unfold markToolExecuting. regular. Qed.
Lemma regular_recordRunLimitExceededLocked e s fact : regular (recordRunLimitExceededLocked e s fact).
Proof. unfold recordRunLimitExceededLocked. regular. Qed.
Hint Resolve regular_recordRunLimitExceededLocked : regular.
Lemma regular_recordModelAttemptLimitLocked e k step id : regular (recordModelAttemptLimitLocked c e k step id).
Proof. unfold recordModelAttemptLimitLocked. regular. Qed.
Hint Resolve regular_recordModelAttemptLimitLocked : regular.
Lemma regular_attempt_admitted e k step started : regular (attempt_admitted c e k step started).
Proof. unfold attempt_admitted. regular. Qed.
Lemma regular_attempt_started e k step started : regular (attempt_started c e k step started).
Proof. unfold attempt_started. regular. Qed.
Lemma regular_attempt_finished e k step finished err : regular (attempt_finished e k step finished err).
Proof. unfold attempt_finished. regular. Qed.
Lemma regular_runBudget k : regular (runBudget c k).
Proof. unfold runBudget. regular. Qed.
Lemma regular_recordBudgetExceeded e k : regular (recordBudgetExceeded c e k).
Proof. unfold recordBudgetExceeded. regular. Qed.
Lemma regular_reserve_preflights e call revision at_ bindings : forall sequence, regular (reserve_preflights e call revision at_ sequence bindings).
Proof. induction bindings as [|[scope d] bindings IH]; intros sequence; simpl; regular. Qed.
Hint Resolve regular_reserve_preflights : regular.
Lemma regular_appendToolPreflightReservations e call revision sequence : regular (appendToolPreflightReservations c e call revision sequence).
Proof. unfold appendToolPreflightReservations. regular. Qed.
Hint Resolve regular_appendToolPreflightReservations : regular.
Lemma regular_completion_changes e runID stepID revision calls : forall sequence, regular (completion_changes c e runID stepID revision sequence calls).
Proof. induction calls as [|call calls IH]; intros sequence; simpl; regular. Qed.
Hint Resolve regular_completion_changes : regular.
Lemma regular_commitCompletion e k step id output : regular (commitCompletion c e k step id output).
Proof. unfold commitCompletion, new_call. regular. Qed.
Lemma regular_reserve_results e call result nextStep revision at_ bindings : forall sequence,
  regular (reserve_results e call result nextStep revision at_ sequence bindings).
Proof. induction bindings as [|[scope d] bindings IH]; intros sequence; simpl; regular. Qed.
Hint Resolve regular_reserve_results : regular.
Lemma regular_reserve_batch e s nextStep revision at_ batch : forall sequence, regular (reserve_batch c e s nextStep revision at_ sequence batch).
Proof. induction batch as [|[call result] batch IH]; intros sequence; simpl; regular. Qed.
Hint Resolve regular_reserve_batch : regular.
Lemma regular_commitToolResults e k calls results : regular (commitToolResults c e k calls results).
Proof. unfold commitToolResults, appendToolResultReservations. regular. Qed.
Lemma regular_followOn e k proposals : regular (followOn e k proposals).
Proof. unfold followOn, proposal_changes. regular. Qed.

(** *** Lifecycle hooks *)
Lemma regular_prepare_lifecycles s phase kind at_ ds : forall index, regular (prepare_lifecycles s phase kind at_ index ds).
Proof. induction ds as [|d ds IH]; intros index; simpl; regular. Qed.
Hint Resolve regular_prepare_lifecycles : regular.
Lemma regular_prepareSessionLifecycle e s phase kind actor : regular (prepareSessionLifecycle c e s phase kind actor).
Proof. unfold prepareSessionLifecycle. regular. Qed.
Lemma regular_finalizeSessionLifecycle e o succeeded failed : regular (finalizeSessionLifecycle e o succeeded failed).
Proof. unfold finalizeSessionLifecycle. regular. Qed.
Lemma regular_commitLifecycleEntries e actor op entries : regular (commitLifecycleEntries e actor op entries).
Proof. unfold commitLifecycleEntries. regular. Qed.
Hint Resolve regular_prepareSessionLifecycle regular_finalizeSessionLifecycle regular_commitLifecycleEntries : regular.
Lemma regular_lifecycle_chain e evaluate rest : forall o succeeded index, regular (lifecycle_chain e evaluate o succeeded index rest).
Proof. induction rest as [|[d view] rest IH]; intros o succeeded index; simpl; regular. Qed.
Hint Resolve regular_lifecycle_chain : regular.
Lemma regular_executeSessionLifecycle e evaluate o : regular (executeSessionLifecycle c e evaluate o).
Proof. unfold executeSessionLifecycle. regular. Qed.
Lemma regular_beginClose e q : regular (beginClose c e q).
Proof. unfold beginClose. regular. Qed.

(** *** The end of a run *)
Lemma ready_store e w w' : w_store w' = w_store w -> ri_id (w_rt w') = ri_id (w_rt w) -> ready e w -> ready e w'.
Proof. intros Hs Hi [H1 H2]. split; [done|]. unfold stored in *. by rewrite Hs, Hi. Qed.
Lemma viewLocked_store ctx w : w_store (viewLocked ctx w).1 = w_store w.
Proof. unfold viewLocked, session_View, modify, mbind, M_bind, mret, M_ret. by destruct (Load _ _ _). Qed.
Lemma commit_refused e ctx expected op actor cs w w' err :
  commitLockedAs e ctx expected op actor cs w = (w', Err err) -> w_store w' = w_store w.
Proof.
  cbv beta iota zeta delta [commitLockedAs mbind M_bind RuntimeState.nextID gets store_Commit]. cbn [w_rt w_store].
  destruct (Commit _ _ _ _ _) as [st' [r|err'|msg]] eqn:HC; [by destruct (co_Applied r)| |done]. intros [= <- _].
  apply Commit_inv in HC as [[-> _]|(?&?&?&?&_&_&_&_&_&_&?&_)]; [done|discriminate].
Qed.

Lemma recovery_moves e k w0 w : moves w0 w -> ready e w -> moves w0 (recoverAfterRunFailureLocked e k w).1.
Proof.
  intros Hw [Hsane Hroom]. unfold recoverAfterRunFailureLocked. unfold mbind at 1, M_bind at 1, catch, store_Recover.
  destruct (Recover _ _ _ _ _) as [st' out] eqn:HR.
  assert (moves w0 (World st' (w_rt w))) as Hm.
  { apply moves_step; [done|]. exists (MkCall (en_readings e (ri_sequence (w_rt w))) (en_fresh e (ri_sequence (w_rt w))) Live (OpRecover (ri_id (w_rt w)))).
    split; [split; [apply Hsane|exact Hroom]|]. unfold invoke; simpl. by rewrite HR. }
  destruct out as [s|err|msg]; [| |done]; (refine (proj1 ((_ : regular _) w0 _ Hm)); regular).
Qed.

Lemma regularly_next w0 s (go : bool) :
  regularly w0 (match (if go then firstPending (sn_Queue s) DeliveryNormal else None) with
     | Some item => started ← startChangesLocked s item false; mret (Some started)
     | None => mret None
     end) (fun next _ => match next with Some (run, _, _) => ar_recoveredToolPreflights run = None | None => True end).
Proof.
  destruct (if go then _ else _) as [item|]; [|intros w Hw; split; [done|by intros a [= <-]]].
  eapply regularly_bind; [apply startChangesLocked_fresh|]. intros [[run step] cs] w Hw Hrun. split; [done|]. by intros a [= <-].
Qed.
Lemma next_store s (go : bool) w :
  w_store ((match (if go then firstPending (sn_Queue s) DeliveryNormal else None) with
     | Some item => started ← startChangesLocked s item false; mret (Some started)
     | None => mret None
     end) w).1 = w_store w.
Proof. by destruct (if go then _ else _). Qed.

Lemma moves_ready w0 w w' e : moves w0 w -> moves w0 w' -> w_store w' = w_store w -> ready e w -> ready e w'.
Proof. intros H H' Hs. apply ready_store; [done|]. destruct H as [_ [[= E _ _] _] _], H' as [_ [[= E' _ _] _] _]. congruence. Qed.

Lemma finishRun_moves e k outcome termination w0 : wf_store (w_store w0) -> ready e w0 -> moves w0 (finishRun e k outcome termination w0).1.
Proof.
  intros Hwf Hready. pose proof (moves_refl w0 Hwf) as H0. unfold finishRun. unfold self, gets. unfold mbind at 1, M_bind at 1.
  destruct (negb _); [done|]. unfold mbind at 1, M_bind at 1, get_run. destruct (ri_runs (w_rt w0) !! k) as [a|]; [|done]. cbv zeta.
  unfold mbind at 1, M_bind at 1, catch at 1. pose proof (proj1 (regular_viewLocked Live w0 w0 H0)) as Hv. pose proof (viewLocked_store Live w0) as Hvs.
  destruct (viewLocked Live w0) as [w [s|err|msg]]; cbn [fst] in *; [| |done]; cbv beta iota.
  2: { pose proof (recovery_moves e k w0 w Hv (moves_ready _ _ _ _ H0 Hv Hvs Hready)) as H. unfold mbind, M_bind.
       by destruct (recoverAfterRunFailureLocked e k w) as [w' [?|?|?]]. }
  unfold mbind at 1, M_bind at 1.
  match goal with |- context [if ?go then firstPending _ _ else None] =>
    pose proof (regularly_next w0 s go w Hv) as [Hn Hnext]; pose proof (next_store s go w) as Hns end.
  match type of Hns with w_store (?m).1 = _ => destruct m as [w1 [next|err|msg]] end; cbn [fst snd] in *; [|done..].
  specialize (Hnext next eq_refl). unfold mbind at 1, M_bind at 1, catch at 1.
  match goal with |- context [commitLockedAs ?e' ?ctx ?x ?o ?ac ?cs w1] =>
    pose proof (proj1 (regular_commitLockedAs e' ctx x o ac cs w0 w1 Hn)) as Hc; pose proof (commit_refused e' ctx x o ac cs w1) as Href;
    destruct (commitLockedAs e' ctx x o ac cs w1) as [w2 [out|err|msg]] end; cbn [fst] in *; [| |done]; cbv beta iota.
  - refine (proj1 ((_ : regular _) w0 w2 Hc)). do 2 (apply regular_bind; [solve [auto with regular]|intros ?]). destruct next as [[[run step] cs]|]; [|regular].
    apply regular_bind; [by apply regular_same|intros k']. apply regular_bind; [|intros ?; apply regular_ret]. by apply (regular_append_run _ run Hnext).
  - assert (ready e w2) as Hr2 by (apply (moves_ready w0 w0 w2 e H0 Hc); [by rewrite (Href _ _ eq_refl), Hns|done]).
    pose proof (recovery_moves e k w0 w2 Hc Hr2) as H. unfold mbind, M_bind. by destruct (recoverAfterRunFailureLocked e k w2) as [w' [?|?|?]].
Qed.

(** *** Opening *)
Lemma stored_entries_ok w : wf_store (w_store w) -> Forall (entry_ok w) (journal w).
Proof.
  intros Hwf. unfold journal. destruct (stored w) as [a|] eqn:Ea; [|constructor]. destruct (Hwf _ _ Ea) as [[Hcore _ _] _].
  destruct (wc_extensions _ _ Hcore) as [Hval _]. rewrite Forall_forall. intros x Hx. apply list_elem_of_lookup in Hx as [i Hi].
  destruct (Hval i x Hi) as [_ Hv]. unfold ext_Validate in Hv. repeat (apply bind_Ok in Hv as (?&?&Hv)). match goal with H : validateStatusShape x = Ok _ |- _ => rename H into Hsh end.
  split.
  - intros Hs. unfold validateStatusShape in Hsh. rewrite Hs in Hsh. apply bind_Ok in Hsh as (?&_&Hsh). by destruct (xe_Result x).
  - intros Hs. exists i, x. split; [unfold journal; by rewrite Ea|]. split; [done|]. rewrite Hs. split; [simpl; lia|].
    unfold validateStatusShape in Hsh. rewrite Hs in Hsh. apply reject_if_Ok in Hsh. unfold IsZero in Hsh. intros Hz. by rewrite Hz in Hsh.
Qed.
Lemma session_View_entries ctx w0 : regularly w0 (session_View ctx) (fun s w => Forall (entry_ok w) (sn_ExtensionJournal s)).
Proof.
  intros w Hw. destruct (regular_session_View ctx w0 w Hw) as [H _]. split; [done|]. intros s Hs. unfold session_View in *.
  destruct (Load _ _ _) as [s'|err|msg] eqn:El; [|done..]. injection Hs as ->. cbn [fst] in *. apply Load_Ok in El as (a&Ha&<-).
  pose proof (stored_entries_ok _ (mv_wf _ _ H)) as Hok. unfold journal, stored in Hok. cbn [w_rt w_store set_session ri_id ri_session] in *.
  replace (st_sessions _ !! _) with (Some a) in Hok by (symmetry; exact Ha). exact Hok.
Qed.
Lemma viewLocked_entries ctx w0 : regularly w0 (viewLocked ctx) (fun s w => Forall (entry_ok w) (sn_ExtensionJournal s)).
Proof.
  unfold viewLocked. eapply regularly_bind; [apply session_View_entries|]. intros s w Hw Hs. split; [by apply moves_rt|].
  intros s' [= <-]. eapply entries_ok_grows; [exact Hs|by apply grows_rt].
Qed.

(** From a later world on. *)
Lemma regularly_from {A} w0 w (m : M A) Q :
  moves w0 w -> regularly w m Q -> moves w0 (m w).1 /\ forall a, (m w).2 = Ok a -> Q a (m w).1.
Proof. intros Hw H. destruct (H w (moves_refl w (mv_wf _ _ Hw))) as [H1 H2]. split; [by eapply moves_trans|done]. Qed.
Lemma regularly_then {A B} w0 (m : M A) (f : A -> M B) Q : regular m -> (forall a, regularly w0 (f a) Q) -> regularly w0 (m ≫= f) Q.
Proof. intros Hm Hf. eapply regularly_bind; [apply Hm|]. intros a w Hw _. by apply Hf. Qed.
Lemma regularly_regular {A} w0 (m : M A) : regular m -> regularly w0 m (fun _ _ => True).
Proof. intros H. apply H. Qed.

Lemma regularly_activate w0 s run :
  Forall (entry_ok w0) (default [] (ar_recoveredToolPreflights run)) -> regularly w0 (activate_prepared s run) (fun _ _ => True).
Proof.
  intros Hrun. unfold activate_prepared. eapply regularly_bind with (Q := fun _ _ => True).
  - intros w Hw. unfold activateLocked. split; [|done]. destruct Hw as [H1 H2 H3]. split; [done|etrans; [exact H2|by apply grows_rt]|].
    intros H0. unfold recovered_ok. simpl. apply Forall_app_2.
    + eapply Forall_impl; [by apply H3|]. intros a Ha. eapply entries_ok_grows; [exact Ha|by apply grows_rt].
    + constructor; [|done]. eapply entries_ok_grows; [exact Hrun|etrans; [exact H2|by apply grows_rt]].
  - intros k w Hw _. refine ((_ : regular _) w0 w Hw). regular.
Qed.
(** The entries that the goroutine of a restored run is started with. *)
Definition resumable (w : world) (o : resumption) : Prop :=
  match o with ResumeCompletion _ _ entries => Forall (entry_ok w) entries | _ => True end.
Lemma resumable_grows w w' o : resumable w o -> grows w w' -> resumable w' o.
Proof. destruct o; try done. apply entries_ok_grows. Qed.

Lemma filtered_ok w f l : Forall (entry_ok w) l -> Forall (entry_ok w) (List.filter f l).
Proof. rewrite !Forall_forall. intros H x [Hx _]%list_elem_of_In%List.filter_In. apply H. by apply list_elem_of_In. Qed.
Lemma regularly_restorePreparedRun w0 s plan :
  Forall (entry_ok w0) (pl_toolPreflight plan) -> Forall (entry_ok w0) (pl_completion plan) -> regularly w0 (restorePreparedRun s plan) (fun o w => resumable w o).
Proof.
  intros Hplan Hcompletion. unfold restorePreparedRun. destruct (negb _); [intros w Hw; split; [done|by intros ? [= <-]]|]. cbv zeta.
  apply regularly_then; [apply regular_lift|intros step]. apply regularly_then; [apply regular_fail_if|intros ?].
  destruct (runFacts _ _).1 as [started|]; [|intros w Hw; by split].
  assert (forall f : nat -> resumption, (forall k w, moves w0 w -> resumable w (f k)) ->
    regularly w0 (k ← activate_prepared s (restored_run s started (pl_toolPreflight plan)); mret (f k)) (fun o w => resumable w o)) as Hgo.
  { intros f Hf. eapply regularly_bind; [apply regularly_activate; by apply filtered_ok|].
    intros k w Hw _. split; [done|]. intros ? [= <-]. by apply Hf. }
  destruct (persisted_termination _ _); (apply regularly_then; [apply regular_fail_if|intros ?]); apply Hgo; [done|]. intros k w Hw.
  destruct (Nat.eqb _ _); [done|]. simpl. apply (entries_ok_grows w0); [by apply filtered_ok|by apply Hw].
Qed.
Lemma regularly_finishOpen w0 e evaluate kind : regularly w0 (finishOpen c e evaluate kind) (fun o w => resumable w o).
Proof.
  unfold finishOpen. apply regularly_then; [apply regular_fail_if|intros ?]. eapply regularly_bind; [apply session_View_entries|].
  intros s w Hw Hs. refine (regularly_from w0 w _ (fun o w => resumable w o) Hw _). cbv beta zeta in Hs |- *.
  apply regularly_then; [unfold recoverSessionLifecycleEntries; regular|intros s1]. apply regularly_then; [auto with regular|intros o].
  apply regularly_then; [destruct o; [apply regular_bind; [apply regular_executeSessionLifecycle|intros ?]|]; apply regular_ret|intros ?].
  apply regularly_then; [auto with regular|intros s2]. apply regularly_then; [unfold recoverExtensionsAfterOpen; regular|intros s3].
  eapply regularly_bind; [apply regularly_restorePreparedRun; by apply filtered_ok|].
  intros resumed w1 Hw1 Hr. split; [refine (proj1 ((_ : regular _) w w1 Hw1)); regular|].
  intros ? [= <-]. cbn [fst]. eapply resumable_grows; [exact Hr|]. simpl. apply grows_rt. by case_match.
Qed.
Lemma regularly_open w0 e evaluate kind : regularly w0 (open c e evaluate kind) (fun o w => resumable w o).
Proof.
  unfold open. apply regularly_then; [auto with regular|intros r]. destruct (negb _).
  { destruct (ri_openErr r); intros w Hw; [by split|]. split; [done|]. by intros ? [= <-]. }
  intros w Hw. pose proof (regularly_finishOpen w0 e evaluate kind w Hw) as [H1 H2]. unfold mbind, M_bind, catch in *.
  destruct (finishOpen c e evaluate kind w) as [w1 [resumed|err|msg]]; cbn [fst snd] in *; [| |by split].
  - pose proof (regular_close_openDone None w0 w1 H1) as [H3 _]. unfold M_bind. destruct (close_openDone None w1) as [w2 [[]|err|msg]] eqn:Ec; cbn [fst snd] in *; [|by split..].
    split; [done|]. intros ? [= <-]. eapply resumable_grows; [by apply H2|]. revert Ec. unfold close_openDone, self, gets, modify, lift, mbind, M_bind.
    destruct (ri_openDone (w_rt w1)); [|done]. intros [= <-]. by apply grows_rt.
  - pose proof (regular_close_openDone (Some err) w0 w1 H1) as [H3 _]. destruct (close_openDone (Some err) w1) as [w2 [[]|err'|msg]]; by split.
Qed.
Lemma regular_open e evaluate kind : regular (open c e evaluate kind).
Proof. intros w0 w Hw. destruct (regularly_open w0 e evaluate kind w Hw) as [H _]. by split. Qed.
Lemma regular_abortOpen cause : regular (abortOpen cause).
Proof. unfold abortOpen. regular. Qed.

End Computations.

#[export] Hint Resolve regular_commitExternalLocked regular_ensureOpenLocked regular_new_message regular_run_stopped regular_startChangesLocked
  regular_appendToolPreflightReservations : regular.

(** ** Safe programs *)
Create HintDb safe.

(** The identity of the invocation that a view is made for. *)
Definition view_invocation (v : hook_view) : string :=
  match v with
  | PreflightView v => tpv_InvocationID v
  | ResultView v => trv_InvocationID v
  | LifecycleView v => slv_InvocationID v
  | GateView v => igv_InvocationID v
  | CompletionGateView v => cpv_InvocationID v
  | InputView _ => ""
  end.

Section Safe.
Context {J : JsonOps} {F : Fingerprints} {R : RequestFingerprint} {K : CursorCodec} {V : ViewFingerprints} (c : runtimeComponents).

(** The store knows that the invocation has begun, of this very extension with
    this very input. *)
Definition recorded (w : world) (d : ExtensionDescriptor) (v : hook_view) : Prop :=
  exists e f, begun w e /\ xe_InvocationID e = view_invocation v /\ xe_Descriptor e = d /\ FingerprintView v = Some f /\ xe_InputDigest e = fp_Digest f.
Lemma recorded_grows w w' d v : recorded w d v -> grows w w' -> recorded w' d v.
Proof. intros (e&f&H&Hr) Hw. exists e, f. split; [by eapply begun_grows|done]. Qed.

Definition good (w : world) : Prop := invariant c w /\ recovered_ok w.

(** The program [p], started in the world [w] or later: every region keeps what
    is good, until the identities run out, and does not panic; every hook is
    invoked with a recorded invocation; the value satisfies [P]. *)
Fixpoint safe {Q A} (w : world) (p : prog Q A) (P : A -> world -> Prop) : Prop :=
  match p with
  | Done a => forall w', grows w w' -> P a w'
  | Crash _ => False
  | Region m k => forall w', grows w w' -> good w' ->
      match m w' with
      | (w'', Ok b) => bounded w'' -> good w'' /\ grows w' w'' /\ safe w'' (k (inl b)) P
      | (w'', Err err) => bounded w'' -> good w'' /\ grows w' w'' /\ safe w'' (k (inr err)) P
      | (_, Panic _) => False
      end
  | Invoke d v k => recorded w d v /\ forall a, safe w (k a) P
  | Ask q k => forall b, safe w (k b) P
  end.

Lemma safe_grows {Q A} (p : prog Q A) P : forall w w', safe w p P -> grows w w' -> safe w' p P.
Proof.
  induction p as [a|msg|B m k IH|d v k IH|B q k IH]; simpl; intros w w' H Hw.
  - intros w2 H2. apply H. by etrans.
  - done.
  - intros w2 H2. apply H. by etrans.
  - destruct H as [H1 H2]. split; [by eapply recorded_grows|]. intros a. by eapply IH.
  - intros b. by eapply IH.
Qed.
Lemma safe_weaken {Q A} (p : prog Q A) P P' : (forall a w, P a w -> P' a w) -> forall w, safe w p P -> safe w p P'.
Proof.
  intros HP. induction p as [a|msg|B m k IH|d v k IH|B q k IH]; simpl; intros w H; [auto|done| | |].
  - intros w' Hw Hg. specialize (H w' Hw Hg). destruct (m w') as [w'' [b|err|msg]]; [..|done]; intros Hb; destruct (H Hb) as (H1&H2&H3); auto.
  - destruct H as [H1 H2]. split; [done|]. intros a. by apply IH.
  - intros b. by apply IH.
Qed.
Lemma safe_bind {Q A B} (p : prog Q A) (f : A -> prog Q B) P P' : forall w,
  safe w p P -> (forall a w', grows w w' -> P a w' -> safe w' (f a) P') -> safe w (p ≫= f) P'.
Proof.
  unfold mbind, prog_mbind. induction p as [a|msg|B' m k IH|d v k IH|B' q k IH]; simpl; intros w H Hf.
  - apply Hf; [done|by apply H].
  - done.
  - intros w' Hw Hg. specialize (H w' Hw Hg). destruct (m w') as [w'' [b|err|msg]]; [..|done]; intros Hb; destruct (H Hb) as (H1&H2&H3);
      (split; [done|]; split; [done|]); apply IH; [done| |done|]; intros a w3 Hw3; apply Hf; etrans; [exact Hw| |exact Hw|]; by etrans.
  - destruct H as [H1 H2]. split; [done|]. intros a. by apply IH.
  - intros b. by apply IH.
Qed.
Lemma safe_ret {Q A} w (a : A) (P : A -> world -> Prop) : (forall w', grows w w' -> P a w') -> safe w (mret a : prog Q A) P.
Proof. done. Qed.

Lemma safe_ask {Q B} w (q : question B) : safe w (ask q : prog Q B) (fun _ _ => True).
Proof. done. Qed.

(** *** Regions *)

(** A region whose value satisfies [X], and that can fail only if [E]. *)
Definition region_ok {B} (m : M B) (X : B -> world -> Prop) (E : Prop) : Prop :=
  forall w, good w -> moves w (m w).1 /\
    match m w with
    | (w', Ok b) => kept c w' /\ (bounded w' -> X b w')
    | (w', Err _) => kept c w' /\ E
    | (_, Panic _) => False
    end.
Lemma safe_Region {Q A B} w (m : M B) (k : B + error -> prog Q A) P X E :
  region_ok m X E -> (forall b w', grows w w' -> X b w' -> safe w' (k (inl b)) P) ->
  (E -> forall err w', grows w w' -> safe w' (k (inr err)) P) -> safe w (Region m k) P.
Proof.
  intros Hm Hk He. simpl. intros w' Hw Hg. destruct (Hm w' Hg) as [[M1 M2 M3] Ho].
  destruct (m w') as [w'' [b|err|msg]]; cbn [fst] in *; [| |done]; destruct Ho as [H1 H2]; intros Hb;
    (split; [split; [by apply H1|by apply M3, Hg]|]; split; [done|]).
  - apply Hk; [by etrans|auto].
  - apply He; [done|by etrans].
Qed.
Definition stable {B} (X : B -> world -> Prop) : Prop := forall b w w', X b w -> grows w w' -> X b w'.
Lemma safe_region {Q B} w (m : M B) X E :
  region_ok m X E -> stable X -> safe w (region m : prog Q (B + error)) (fun out w' => match out with inl b => X b w' | inr _ => E end).
Proof. intros Hm HX. eapply safe_Region; [exact Hm|..]; simpl; eauto. Qed.
Lemma safe_read {Q B} w (m : M B) X : region_ok m X False -> stable X -> safe w (read m : prog Q B) X.
Proof. intros Hm HX. eapply safe_Region; [exact Hm|..]; simpl; eauto. Qed.

Lemma good_wf w : good w -> wf_store (w_store w).
Proof. intros [[[H _ _ _] _ _] _]. exact H. Qed.
Lemma region_quiet {B} (m : M B) X :
  (forall w0, invariant c w0 -> quiet w0 m) -> (forall w0, regularly w0 m X) -> region_ok m X True.
Proof.
  intros Hq Hr w Hg. destruct (Hr w w (moves_refl w (good_wf w Hg))) as [H1 H2]. split; [done|].
  destruct Hg as [Hi _]. pose proof (quiet_kept c w m Hi (Hq w Hi) w (after_refl w (in_sound _ _ Hi))) as H.
  destruct (m w) as [w' [b|err|msg]]; cbn [fst snd] in *; [|done..]. split; [done|]. intros _. by apply H2.
Qed.
Lemma region_regular {B} (m : M B) : (forall w0, invariant c w0 -> quiet w0 m) -> regular m -> region_ok m (fun _ _ => True) True.
Proof. intros Hq Hr. by apply region_quiet. Qed.
Lemma region_value {B} (m : M B) (f : world -> B) X : (forall w, m w = (w, Ok (f w))) -> (forall w, good w -> X (f w) w) -> region_ok m X False.
Proof. intros Hm HX w Hg. rewrite Hm. split; [by apply moves_refl, good_wf|]. split; [by intros _; apply Hg|auto]. Qed.

Lemma safe_clock {Q} w e : safe w (clock e : prog Q Time) (fun _ _ => True).
Proof. apply safe_read; [|done]. by eapply region_value. Qed.
Lemma safe_self {Q} w : safe w (read self : prog Q runtimeInstance) (fun r w' => rt_identity r = rt_identity (w_rt w')).
Proof. apply safe_read; [by eapply (region_value _ w_rt)|]. intros r w1 w2 H [Hg _]. congruence. Qed.
Lemma safe_field {Q B} w k (f : activeRun -> B) d : safe w (read (run_field k f d) : prog Q B) (fun _ _ => True).
Proof. apply safe_read; [|done]. by eapply region_value. Qed.

(** *** Commits of entries *)
Definition pending_begun (w : world) (entries : list ExtensionJournalEntry) : Prop :=
  Forall (fun x => xe_Status x = InvocationPending -> begun w x) entries.
Lemma pending_begun_grows w w' l : pending_begun w l -> grows w w' -> pending_begun w' l.
Proof. intros H Hw. eapply Forall_impl; [exact H|]. intros x Hx Hp. eapply begun_grows; [by apply Hx|done]. Qed.

Definition journal_begun (x : list ExtensionJournalEntry) (e : ExtensionJournalEntry) : Prop :=
  exists i y, x !! i = Some y /\ xe_identity y = xe_identity e /\ 1 <= status_rank (xe_Status y) /\ xe_PendingAt y ≠ 0%Z.
Lemma journal_begun_evolves x x' e : journal_begun x e -> ext_evolves x x' -> journal_begun x' e.
Proof.
  intros (i&y&Hi&Hid&Hs&Hp) H. destruct (H i y Hi) as (y'&Hi'&[E1 E2 E3 _ _ _]). exists i, y'. split; [done|].
  split; [congruence|]. split; [lia|]. by rewrite E3.
Qed.
Lemma applyExtensionJournal_begun sid x next x' :
  applyExtensionJournal sid x next = Ok x' -> xe_Status next = InvocationPending -> journal_begun x' next.
Proof.
  intros (Hv&[(_&Hp&_)|(i&cur&Hi&->&_)])%applyExtensionJournal_Ok Hs; [congruence|]. exists i, next.
  split; [apply list_lookup_insert_eq; by eapply lookup_lt_Some|]. split; [done|]. rewrite Hs. split; [simpl; lia|].
  unfold ext_Validate in Hv. repeat (apply bind_Ok in Hv as (?&?&Hv)).
  match goal with H : validateStatusShape next = Ok _ |- _ => unfold validateStatusShape in H; rewrite Hs in H; apply reject_if_Ok in H; rename H into Hsh end.
  unfold IsZero in Hsh. intros Hz. by rewrite Hz in Hsh.
Qed.
Lemma apply_changes_begun clock q e cs : forall s s',
  foldM (apply_change clock q) cs s = Ok s' -> UpdateExtensionJournal_ e ∈ cs -> xe_Status e = InvocationPending -> journal_begun (sn_ExtensionJournal s') e.
Proof.
  induction cs as [|ch cs IH]; simpl; intros s s' H Hin Hs; [by apply elem_of_nil in Hin|]. apply bind_Ok in H as (s1&Hc&H).
  apply elem_of_cons in Hin as [<-|Hin]; [|by eapply IH]. apply (journal_begun_evolves (sn_ExtensionJournal s1)).
  - unfold apply_change in Hc. cbn in Hc. apply bind_Ok in Hc as (x'&Hx&Hc). injection Hc as <-. by eapply applyExtensionJournal_begun.
  - apply (foldM_preserves _ (fun t => ext_evolves (sn_ExtensionJournal s1) (sn_ExtensionJournal t)) _ _ _) in H; [done| |done].
    intros ch' t t' _ Ht Hch. etrans; [exact Ht|by eapply apply_change_extensions].
Qed.

(** What a commit that was answered has done: its identity is new, so the answer
    is not that of an earlier one. *)
Lemma commitLockedAs_applied w0 e ctx expected op actor cs w :
  after w0 w ->
  match commitLockedAs e ctx expected op actor cs w with
  | (w', Ok _) => bounded w' -> exists a clock q s' revision,
      stored w = Some a /\ sn_Revision (ag_snapshot a) = expected /\ cr_Changes q = cs /\ applyChanges clock (ag_snapshot a) q = Ok s' /\
      ag_snapshot <$> stored w' = Some (with_revision s' revision)
  | (_, Err _) => True
  | (_, Panic _) => False
  end.
Proof.
  intros Hw. cbv beta iota zeta delta [commitLockedAs mbind M_bind RuntimeState.nextID gets store_Commit].
  cbn [w_rt w_store]. destruct (Commit _ _ _ _ _) as [st' out] eqn:HC.
  pose proof HC as Hc. apply (commit_stored _ _ _ w0 w _ st' out op) in Hc; [|done..]. pose proof (Commit_inv _ _ _ _ _ _ _ HC) as Hinv.
  destruct out as [r|err|msg]; [|done|done]. unfold modify. cbn [w_rt w_store].
  assert (bounded (World st' (set_sequence (w_rt w) (sequence w + 1))) -> exists a clock q s' revision,
    stored w = Some a /\ sn_Revision (ag_snapshot a) = expected /\ cr_Changes q = cs /\ applyChanges clock (ag_snapshot a) q = Ok s' /\
    ag_snapshot <$> stored (World st' (set_sequence (w_rt w) (sequence w + 1))) = Some (with_revision s' revision)) as Hgo.
  { intros Hb. destruct Hinv as [[-> Hrep]|(a&s'&fp&upd&Ha&_&_&_&Hrev&Happ&_&Hst)].
    - exfalso. destruct (Commit_replayed _ _ _ _ _ _ _ HC (Hrep r eq_refl)) as (a&Ha&[m Hm]). simpl in Ha, Hm.
      destruct Hw as [[_ _ S3 S4] _ _ _]. unfold bounded, sequence in *. simpl in Hb.
      rewrite (S3 a op (u64 (ri_sequence (w_rt w) + 1)) Ha) in Hm; [done|]. unfold unused, sequence, u64. rewrite Z.mod_small; lia.
    - eexists a, _, _, s', _. split; [exact Ha|]. split; [by rewrite <-Hrev|]. split; [|split; [exact Happ|]]; [done|].
      unfold stored. simpl. rewrite Hst. simpl. by rewrite lookup_insert_eq. }
  unfold bounded, sequence in *. destruct (co_Applied r); exact Hgo.
Qed.
Lemma commitLockedAs_begun w0 e ctx expected op actor cs :
  triple (after w0) (commitLockedAs e ctx expected op actor cs)
    (fun _ w => bounded w -> forall x, UpdateExtensionJournal_ x ∈ cs -> xe_Status x = InvocationPending -> begun w x) (fun _ => True).
Proof.
  intros w Hw. pose proof (commitLockedAs_applied w0 e ctx expected op actor cs w Hw) as H.
  destruct (commitLockedAs e ctx expected op actor cs w) as [w' [r|err|msg]]; [|done|done].
  intros Hb x Hx Hs. destruct (H Hb) as (a&clock&q&s'&revision&_&_&Hq&Happ&Hsn).
  unfold applyChanges in Happ. rewrite Hq in Happ. do 3 (apply bind_Ok in Happ as (?&_&Happ)). apply bind_Ok in Happ as (s1&Hf&Happ).
  do 2 (apply bind_Ok in Happ as (?&_&Happ)). injection Happ as <-. pose proof (apply_changes_begun _ _ x _ _ _ Hf Hx Hs) as (i&y&Hi&Hy).
  exists i, y. split; [|exact Hy]. unfold journal. destruct (stored w') as [a'|]; [|done]. injection Hsn as ->. exact Hi.
Qed.

Lemma triple_and {A} P (m : M A) Q Q' (E E' : world -> Prop) : triple P m Q E -> triple P m Q' E' -> triple P m (fun a w => Q a w /\ Q' a w) (fun w => E w /\ E' w).
Proof. intros H H' w Hw. specialize (H w Hw). specialize (H' w Hw). by destruct (m w) as [w' [a|e|msg]]. Qed.
(** A commit of entries of the journal. *)
Lemma commit_entries w0 e ctx expected op actor entries :
  triple (after w0) (commitLockedAs e ctx expected op actor (updates entries)) (fun _ w => after w0 w /\ (bounded w -> pending_begun w entries)) (after w0).
Proof.
  eapply triple_weaken; [eapply triple_and; [apply quiet_commitLockedAs; apply (quiet_extensions entries)|apply commitLockedAs_begun]|done| |by intros w [? _]].
  intros r w [Hw Hb]. split; [done|]. intros Hbd. apply Forall_forall. intros x Hx Hs. apply Hb; [done| |done]. unfold updates.
  by apply list_elem_of_fmap_2.
Qed.
Lemma region_triple {B} (m : M B) X :
  (forall w0, invariant c w0 -> triple (after w0) m (fun b w => after w0 w /\ (bounded w -> X b w)) (after w0)) -> regular m -> region_ok m X True.
Proof.
  intros Hq Hr w Hg. destruct (Hr w w (moves_refl w (good_wf w Hg))) as [H1 _]. split; [done|].
  destruct Hg as [Hi _]. pose proof (Hq w Hi w (after_refl w (in_sound _ _ Hi))) as H.
  destruct (m w) as [w' [b|err|msg]]; [|split; [by eapply after_kept|done]|done]. destruct H as [H2 H3]. split; [by eapply after_kept|done].
Qed.
End Safe.
Arguments safe : simpl never.

#[export] Hint Resolve safe_clock safe_self safe_field : safe.
