(* ===== verification/RuntimeHookFacts.v ===== *)
(** * The hooks of a running step are safe

    The preflights of a batch of tool calls and the hooks of its results keep
    what is good, invoke no hook whose invocation is not recorded in the store,
    and never panic, whatever happens to the runtime between their regions. *)

From S2P Require Import Prelude GoStrings AgentTypes ModelContracts SessionTypes ExtensionJournal.
From S2P Require Import SessionValidate SessionHistory SessionApply SessionRecover SessionCreate SessionStore SessionManager HookViews ModelStream SessionSafety.
From S2P Require Import SessionInvariant SessionCommitFacts SessionRecoverFacts SessionStoreFacts.
From S2P Require Import ToolDispatcher LoopProtocol RuntimeState RuntimeCommands RuntimeRun RuntimeLifecycle RuntimeHooks RuntimeFacts RuntimeInvariant.
From S2P Require Import RuntimePrograms.

Section HookFacts.
Context {J : JsonOps} {F : Fingerprints} {R : RequestFingerprint} {K : CursorCodec} {V : ViewFingerprints} (c : runtimeComponents).

(** ** Guards *)
Lemma require_active_spec w0 k : quietly w0 (require_active k) (fun _ => ri_active (w_rt w0) = Some k).
Proof.
  intros w Hw. unfold require_active, self, gets, fail_if, lift, mbind, M_bind. rewrite (is_active_frame _ _ k (af_frame _ _ Hw)).
  destruct (is_active (w_rt w0) k) eqn:Ea; simpl; [|done]. split; [done|]. by apply is_active_true.
Qed.
Lemma require_running_spec w0 k : lively (w_rt w0) -> quietly w0 (require_running k) (fun _ => ri_active (w_rt w0) = Some k).
Proof.
  intros Hl. unfold require_running. eapply quietly_bind; [by apply run_stopped_spec|]. intros [] H; [apply quietly_fail|].
  intros w Hw. split; [done|]. by apply H.
Qed.
Lemma quiet_require_active w0 k : quiet w0 (require_active k).
Proof. eapply quietly_quiet, require_active_spec. Qed.
Lemma quiet_require_running w0 k : lively (w_rt w0) -> quiet w0 (require_running k).
Proof. intros Hl. by eapply quietly_quiet, require_running_spec. Qed.
Lemma regular_require_active k : regular (require_active k).
Proof. unfold require_active. regular. Qed.
Lemma regular_require_running k : regular (require_running k).
Proof. unfold require_running. regular. Qed.
Lemma quiet_updates entries : quiet_changes (updates entries).
Proof. apply quiet_extensions. Qed.
Hint Resolve quiet_require_active quiet_require_running quiet_updates invariant_lively : quiet.
Hint Resolve regular_require_active regular_require_running : regular.

Lemma quiet_settle_snapshot w0 e s selected unknown drop code op op' : quiet w0 (settle_snapshot e s selected unknown drop code op op').
Proof. unfold settle_snapshot. quiet. Qed.
Lemma regular_settle_snapshot e s selected unknown drop code op op' : regular (settle_snapshot e s selected unknown drop code op op').
Proof. unfold settle_snapshot. regular. Qed.
Hint Resolve quiet_settle_snapshot : quiet.
Hint Resolve regular_settle_snapshot : regular.

(** ** The regions of the preflights *)
Lemma commitToolPreflightEntries_ok e k op entries :
  region_ok c (commitToolPreflightEntries e k op entries) (fun _ w => pending_begun w entries) True.
Proof.
  apply region_triple; [|unfold commitToolPreflightEntries; regular]. intros w0 Hi. unfold commitToolPreflightEntries.
  destruct entries as [|x entries]; [apply triple_ret; intros w Hw; split; [done|by constructor]|].
  eapply triple_bind; [apply quiet_require_running; by eapply invariant_lively|]. intros ?. eapply triple_bind; [apply quiet_viewLocked|]. intros s.
  eapply triple_bind; [apply commit_entries|]. intros r. by apply triple_ret.
Qed.
Lemma settleToolPreflights_ok e k code : region_ok c (settleToolPreflightsAfterPersistenceError e k code) (fun _ _ => True) True.
Proof.
  apply region_regular; [|unfold settleToolPreflightsAfterPersistenceError; regular]. intros w0 Hi. unfold settleToolPreflightsAfterPersistenceError.
  eapply quiet_value; [apply require_active_spec|]. intros ? Ha. cbv beta in Ha. apply quiet_get_run; [by apply (invariant_lively c w0 Hi)|]. intros run _. quiet.
Qed.
Lemma toolPreflightSnapshot_ok k : region_ok c (toolPreflightSnapshot k) (fun s w => Forall (entry_ok w) (sn_ExtensionJournal s)) True.
Proof.
  unfold toolPreflightSnapshot. apply region_quiet.
  - intros w0 Hi. apply quiet_bind; [eauto with quiet|intros _]. apply quiet_viewLocked.
  - intros w0. apply regularly_then; [auto with regular|intros _]. apply viewLocked_entries.
Qed.
Lemma supplement_ok e k call expected :
  region_ok c (supplementToolPreflightReservations c e k call expected) (fun entries w => Forall (entry_ok w) entries) True.
Proof.
  unfold supplementToolPreflightReservations. apply region_quiet.
  - intros w0 Hi. apply quiet_bind; [eauto with quiet|intros ?]. apply quiet_bind; [apply quiet_viewLocked|intros latest].
    apply quiet_bind; [auto with quiet|intros ?]. eapply quiet_value; [apply quietly_appendToolPreflightReservations|]. intros [changes next] Hq. simpl in Hq.
    apply quiet_bind; [auto with quiet|intros ?]. apply quiet_bind; [by apply quiet_commitLocked|intros ?]. apply quiet_bind; [apply quiet_viewLocked|intros updated].
    apply quiet_ret.
  - intros w0. apply regularly_then; [auto with regular|intros ?]. apply regularly_then; [auto with regular|intros latest].
    apply regularly_then; [auto with regular|intros ?]. apply regularly_then; [auto with regular|intros [changes next]].
    do 2 (apply regularly_then; [auto with regular|intros ?]). eapply regularly_bind; [apply viewLocked_entries|].
    intros updated w Hw Hu. split; [done|]. intros entries [= <-]. by apply filtered_ok.
Qed.
Lemma take_recovered_ok k : region_ok c (take_recovered k) (fun entries w => Forall (entry_ok w) (default [] entries)) False.
Proof.
  intros w [Hi Hr]. split.
  - assert (regular (take_recovered k)) as H by (unfold take_recovered, run_field; regular). apply (H w w), moves_refl, (good_wf c). by split.
  - unfold take_recovered, run_field, gets, update_run, modify, mbind, M_bind. simpl. split.
    + intros _. by apply (invariant_update c).
    + intros _. destruct (ri_runs (w_rt w) !! k) as [a|] eqn:Ea; [|by constructor].
      eapply entries_ok_grows; [|by apply grows_rt]. unfold recovered_ok in Hr. rewrite Forall_forall in Hr. apply Hr. by eapply list_elem_of_lookup_2.
Qed.

(** ** The programs of the preflights *)
Notation preflights := (prog ToolPreflightResult).
Implicit Types w : world.

(** A program from whose value nothing is needed. *)
Definition runs {Q A} w (p : prog Q A) : Prop := safe c w p (fun _ _ => True).
Lemma runs_bind {Q A B} w (p : prog Q A) (f : A -> prog Q B) : runs w p -> (forall a w', grows w w' -> runs w' (f a)) -> runs w (p ≫= f).
Proof. intros Hp Hf. eapply safe_bind; [exact Hp|]. intros a w' Hw _. by apply Hf. Qed.
Lemma runs_ret {Q A} w (a : A) : runs w (mret a : prog Q A).
Proof. by apply safe_ret. Qed.
Lemma runs_region {Q B} w (m : M B) X E : region_ok c m X E -> runs w (region m : prog Q (B + error)).
Proof. intros H. eapply safe_Region; [exact H|..]; done. Qed.
Lemma runs_safe {Q A} w (p : prog Q A) P : safe c w p P -> runs w p.
Proof. apply safe_weaken. done. Qed.

Lemma runs_toolPreflightPersistenceFailure w e k cause : runs w (toolPreflightPersistenceFailure e k cause).
Proof. unfold toolPreflightPersistenceFailure. apply runs_bind; [by eapply runs_region, settleToolPreflights_ok|intros out w' _]. apply runs_ret. Qed.
Lemma runs_clock {Q} w e : runs w (clock e : prog Q Time).
Proof. eapply runs_safe, safe_clock. Qed.
Lemma runs_cancel_prepared e code entries : forall w, runs w (cancel_prepared e code entries).
Proof.
  induction entries as [|x entries IH]; intros w; [apply runs_ret|]. cbn [cancel_prepared]. destruct (bool_decide _); [|apply IH].
  apply runs_bind; [apply runs_clock|intros at_ w1 _]. apply runs_bind; [apply IH|intros rest w2 _]. apply runs_ret.
Qed.
Lemma runs_commit w e k op entries : runs w (region (commitToolPreflightEntries e k op entries) : preflights (unit + error)).
Proof. eapply runs_region, commitToolPreflightEntries_ok. Qed.
Lemma runs_cancelToolPreflightEntries w e k entries code : runs w (cancelToolPreflightEntries e k entries code).
Proof. unfold cancelToolPreflightEntries. apply runs_bind; [apply runs_cancel_prepared|intros canceled w1 _]. apply runs_commit. Qed.
Lemma runs_finalizeToolPreflightEffects w e k entries d : runs w (finalizeToolPreflightEffects e k entries d).
Proof. apply runs_commit. Qed.
Lemma runs_mismatch_updates e entries : forall w, runs w (mismatch_updates e entries).
Proof.
  induction entries as [|x entries IH]; intros w; [apply runs_ret|]. cbn [mismatch_updates]. destruct (bool_decide _).
  - apply runs_bind; [apply runs_clock|intros at_ w1 _]. apply runs_bind; [apply IH|intros rest w2 _]. apply runs_ret.
  - apply runs_bind; [apply IH|intros rest w2 _]. apply runs_ret.
Qed.
Lemma runs_settleToolPreflightDefinitionMismatch w e k entries : runs w (settleToolPreflightDefinitionMismatch e k entries).
Proof. unfold settleToolPreflightDefinitionMismatch. apply runs_bind; [apply runs_mismatch_updates|intros us w1 _]. apply runs_commit. Qed.
Lemma runs_failToolPreflightBatch w e k failed succeeded current future byCall :
  runs w (failToolPreflightBatch e k failed succeeded current future byCall).
Proof.
  unfold failToolPreflightBatch. apply runs_bind; [apply runs_finalizeToolPreflightEffects|intros [[]|err] w1 _]; [|apply runs_ret].
  apply runs_bind.
  - destruct failed as [failed|]; [|apply runs_ret]. destruct (negb _); [apply runs_ret|].
    apply runs_bind; [apply runs_commit|intros [[]|err] w2 _]; [apply runs_commit|apply runs_ret].
  - intros [[]|err] w2 _; [apply runs_cancelToolPreflightEntries|apply runs_ret].
Qed.

Lemma safe_invoke {Q} w d v : recorded w d v -> runs w (invoke_hook d v : prog Q (answer Q)).
Proof. intros H. by split. Qed.

(** *** What was reserved for a call *)
Definition reserved w (call : ToolCall) (d : ExtensionDescriptor) (x : ExtensionJournalEntry) : Prop :=
  xe_Descriptor x = d /\ exists f, FingerprintView (PreflightView (toolPreflightView (w_rt w) x call)) = Some f /\ xe_InputDigest x = fp_Digest f.
Lemma identity_fields x x' : xe_identity x = xe_identity x' ->
  xe_InvocationID x = xe_InvocationID x' /\ xe_Descriptor x = xe_Descriptor x' /\ xe_InputDigest x = xe_InputDigest x' /\
  xe_PreparedRevision x = xe_PreparedRevision x'.
Proof. unfold xe_identity. intros H. injection H. intros. by split_and!. Qed.
Lemma preflight_view_same r r' x x' call :
  rt_identity r = rt_identity r' -> xe_identity x = xe_identity x' -> toolPreflightView r x call = toolPreflightView r' x' call.
Proof. unfold rt_identity, toolPreflightView. intros [= -> -> ->] (->&_&_&->)%identity_fields. done. Qed.
Lemma reserved_same w w' call d x x' :
  reserved w call d x -> rt_identity (w_rt w') = rt_identity (w_rt w) -> xe_identity x' = xe_identity x -> reserved w' call d x'.
Proof.
  intros (Hd&f&Hf&Hx) Hr He. pose proof (preflight_view_same _ _ x' x call Hr He) as Hv. unfold reserved. apply identity_fields in He as (_&->&->&_). split; [done|].
  exists f. by rewrite Hv.
Qed.
Lemma reserved_recorded w call d x r :
  reserved w call d x -> begun w x -> rt_identity r = rt_identity (w_rt w) -> recorded w d (PreflightView (toolPreflightView r x call)).
Proof. intros (Hd&f&Hf&Hx) Hb Hr. exists x, f. rewrite (preflight_view_same _ (w_rt w) x x) by done. by split_and!. Qed.

Definition state_ok w (s : preflight_state) : Prop := forall id, Forall (entry_ok w) (entries_of (ps_byCall s) id).
(** The entries of the call from [i] on are those reserved for [expected]. *)
Definition call_ok w (s : preflight_state) (call : ToolCall) (i : nat) (expected : list ExtensionDescriptor) : Prop :=
  state_ok w s /\ forall n d, expected !! n = Some d -> exists x, entries_of (ps_byCall s) (call_ID call) !! (i + n) = Some x /\ reserved w call d x.
Lemma state_ok_grows w w' s : state_ok w s -> grows w w' -> state_ok w' s.
Proof. intros H Hw id. by eapply entries_ok_grows. Qed.
Lemma call_ok_grows w w' s call i expected : call_ok w s call i expected -> grows w w' -> call_ok w' s call i expected.
Proof.
  intros [H1 H2] Hw. split; [by eapply state_ok_grows|]. intros n d Hd. destruct (H2 n d Hd) as (x&Hx&Hr). exists x. split; [done|].
  eapply reserved_same; [done|apply Hw|done].
Qed.
Lemma call_ok_tail w s call i d expected : call_ok w s call i (d :: expected) -> call_ok w s call (S i) expected.
Proof. intros [H1 H2]. split; [done|]. intros n d' Hd. destruct (H2 (S n) d' Hd) as (x&Hx&Hr). exists x. split; [by rewrite <-Hx, Nat.add_succ_r|done]. Qed.
Lemma entries_of_put m id i x id' :
  entries_of (put_entry m id i x) id' = if decide (id = id') then <[i := x]> (entries_of m id') else entries_of m id'.
Proof.
  unfold entries_of at 1, put_entry. destruct (decide (id = id')) as [<-|Hne]; [by rewrite lookup_insert_eq|by rewrite lookup_insert_ne].
Qed.
Lemma call_ok_put w s call i expected j x y succeeded pipelined :
  call_ok w s call i expected -> entries_of (ps_byCall s) (call_ID call) !! j = Some y -> xe_identity x = xe_identity y -> entry_ok w x ->
  call_ok w (MkPreflightState (put_entry (ps_byCall s) (call_ID call) j x) succeeded pipelined) call i expected.
Proof.
  intros [H1 H2] Hj Hid Hx. split.
  - intros id. simpl. rewrite entries_of_put. destruct (decide _); [|apply H1]. by apply Forall_insert; [apply H1|].
  - intros n d Hd. destruct (H2 n d Hd) as (z&Hz&Hr). simpl. rewrite entries_of_put, decide_True by done. destruct (decide (j = i + n)) as [->|Hne].
    + exists x. split; [apply list_lookup_insert_eq; by eapply lookup_lt_Some|]. rewrite Hz in Hj. injection Hj as ->. by apply (reserved_same w w call d y x Hr).
    + exists z. rewrite list_lookup_insert_ne by done. by split.
Qed.
Lemma call_ok_state w s s' call i expected : call_ok w s call i expected -> ps_byCall s' = ps_byCall s -> call_ok w s' call i expected.
Proof. unfold call_ok, state_ok. by intros H ->. Qed.

Definition call_post (call : ToolCall) (i : nat) (expected : list ExtensionDescriptor)
    (out : preflight_outcome + toolPreflightAuthorization * preflight_state) w : Prop :=
  match out with inl _ => True | inr (_, s) => call_ok w s call i expected end.
Lemma call_post_grows call i expected out w w' : call_post call i expected out w -> grows w w' -> call_post call i expected out w'.
Proof. destruct out as [|[auth s]]; [done|]. by apply call_ok_grows. Qed.

Section Call.
Variables (e : environment) (k : nat) (call : ToolCall) (future : list ToolCall).

Lemma stopping {A} w cause (P : preflight_outcome + A -> world -> Prop) : (forall stop w', grows w w' -> P (inl stop) w') ->
  safe c w (stop ← toolPreflightPersistenceFailure e k cause; mret (inl stop)) P.
Proof. intros H. eapply safe_bind; [apply runs_toolPreflightPersistenceFailure|]. intros stop w1 H1 _. apply safe_ret. intros w2 H2. apply H. by etrans. Qed.
Lemma safe_short_circuit w s i denied expected :
  call_ok w s call (S i) expected -> safe c w (short_circuit e k call s i denied) (call_post call (S i) expected).
Proof.
  intros Hs. unfold short_circuit. eapply safe_bind; [apply runs_cancelToolPreflightEntries|]. intros [[]|err] w1 H1 _; [|by apply stopping].
  apply safe_ret. intros w2 H2. eapply call_ok_grows; [exact Hs|by etrans].
Qed.
Lemma safe_abort_batch w s i failed code reason n expected : safe c w (abort_batch e k call future s i failed code reason) (call_post call n expected).
Proof.
  unfold abort_batch. eapply safe_bind; [apply runs_failToolPreflightBatch|]. intros [[]|err] w1 H1 _; [by apply safe_ret|by apply stopping].
Qed.
Lemma safe_settled_before w s i entry n expected : safe c w (settled_before e k call future s i entry) (call_post call n expected).
Proof.
  unfold settled_before. destruct (if _ || _ then _ else _) as [[st code] reason].
  eapply safe_bind with (P := fun _ _ => True); [destruct (awaits_effect entry); [apply runs_commit|by apply safe_ret]|].
  intros [[]|err] w1 H1 _; [apply safe_abort_batch|by apply stopping].
Qed.

(** Committing entries: what is pending has then begun. *)
Lemma safe_commit w op entries :
  safe c w (region (commitToolPreflightEntries e k op entries) : preflights (unit + error))
    (fun out w' => match out with inl _ => pending_begun w' entries | inr _ => True end).
Proof. eapply safe_region; [apply commitToolPreflightEntries_ok|]. intros u w1 w2. apply pending_begun_grows. Qed.

(** The start of an entry that is not pipelined. *)
Definition start_preflight (s : preflight_state) (i : nat) (entry : ExtensionJournalEntry) : preflights (ExtensionJournalEntry * preflight_state + error) :=
  if bool_decide (xe_Status entry = InvocationPrepared) then
    at_ ← clock e;
    let pending := with_outcome entry InvocationPending at_ (xe_FinishedAt entry) (xe_Result entry) (xe_ErrorCode entry) (xe_ErrorReason entry)
      (xe_EffectDisposition entry) in
    out ← region (commitToolPreflightEntries e k "tool-preflight-pending" [pending]);
    match out with
    | inr err => mret (inr err)
    | inl _ => mret (inl (pending, MkPreflightState (put_entry (ps_byCall s) (call_ID call) i pending) (ps_succeeded s) (ps_pipelined s)))
    end
  else mret (inl (entry, s)).

Definition started_post (i : nat) (entry : ExtensionJournalEntry) (expected : list ExtensionDescriptor)
    (out : ExtensionJournalEntry * preflight_state + error) w : Prop :=
  match out with
  | inl (pending, s) => xe_identity pending = xe_identity entry /\ begun w pending /\ call_ok w s call i expected /\
      entries_of (ps_byCall s) (call_ID call) !! i = Some pending
  | inr _ => True
  end.
Lemma safe_start_preflight w s i entry expected :
  call_ok w s call i expected -> entries_of (ps_byCall s) (call_ID call) !! i = Some entry ->
  xe_Status entry = InvocationPrepared \/ xe_Status entry = InvocationPending ->
  safe c w (start_preflight s i entry) (started_post i entry expected).
Proof.
  intros Hs Hi Hst. unfold start_preflight. case_bool_decide as Hp.
  - eapply safe_bind; [apply safe_clock|]. intros at_ w1 H1 _. cbv zeta. eapply safe_bind; [apply safe_commit|].
    intros [[]|err] w2 H2 Hb; [|by apply safe_ret]. apply safe_ret. intros w3 H3. unfold pending_begun in Hb. rewrite Forall_singleton in Hb.
    specialize (Hb eq_refl). split; [done|]. split; [by eapply begun_grows|]. split.
    + eapply call_ok_put; [eapply call_ok_grows; [exact Hs|etrans; [exact H1|by etrans]]|exact Hi|done|]. split; [done|]. intros _. by eapply begun_grows.
    + simpl. rewrite entries_of_put, decide_True by done. apply list_lookup_insert_eq. by eapply lookup_lt_Some.
  - destruct Hst as [?|Hst]; [done|]. apply safe_ret. intros w1 H1. split; [done|]. split; [|split; [by eapply call_ok_grows|done]].
    destruct Hs as [Hok _]. specialize (Hok (call_ID call)). rewrite Forall_forall in Hok. eapply begun_grows; [|exact H1].
    apply (Hok entry); [by eapply list_elem_of_lookup_2|done].
Qed.

Lemma safe_pipeline_next w s i decision :
  safe c w (pipeline_next e call s i decision) (fun next _ => match next with
    | Some next => exists y, entries_of (ps_byCall s) (call_ID call) !! S i = Some y /\ xe_identity next = xe_identity y /\ xe_Status next = InvocationPending
    | None => True end).
Proof.
  unfold pipeline_next. destruct (entries_of _ _ !! S i) as [y|] eqn:Ey; [|by apply safe_ret]. case_bool_decide; [by apply safe_ret|].
  eapply safe_bind; [apply safe_clock|]. intros at_ w1 _ _. apply safe_ret. intros w2 _. by exists y.
Qed.

(** The end of an invocation that succeeded. *)
Lemma safe_finish w s auth i d expected pending finished result next :
  call_ok w s call i (d :: expected) -> entries_of (ps_byCall s) (call_ID call) !! i = Some pending -> xe_identity finished = xe_identity pending ->
  xe_Status finished = InvocationSucceeded -> is_Some (xe_Result finished) ->
  match next with
  | Some next => exists y, entries_of (ps_byCall s) (call_ID call) !! S i = Some y /\ xe_identity next = xe_identity y /\ xe_Status next = InvocationPending
  | None => True end ->
  safe c w
    (let s := match next with
        | Some next => MkPreflightState (put_entry (ps_byCall s) (call_ID call) (S i) next) (ps_succeeded s) (xe_InvocationID next :: ps_pipelined s)
        | None => s
        end in
      out ← region (commitToolPreflightEntries e k "tool-preflight-finished" (finished :: option_list next));
      match out with
      | inr err => stop ← toolPreflightPersistenceFailure e k err; mret (inl stop)
      | inl _ =>
        let s := MkPreflightState (put_entry (ps_byCall s) (call_ID call) i finished) (ps_succeeded s ++ [finished]) (ps_pipelined s) in
        let auth := merge_preflight auth (xe_Result finished) in
        if bool_decide (tpr_Decision result = DecisionDeny) then short_circuit e k call s i auth else mret (inr (auth, s))
      end) (call_post call (S i) expected).
Proof.
  intros Hs Hi Hid Hst Hres Hnext. cbv zeta. eapply safe_bind; [apply safe_commit|]. intros [[]|err] w1 H1 Hb; [|by apply stopping].
  match goal with |- context [MkPreflightState ?m ?l ?p] => set (s' := MkPreflightState m l p) end.
  assert (call_ok w1 s' call (S i) expected) as Hs'.
  { apply call_ok_tail with (d := d). unfold s'. destruct next as [next|].
    - destruct Hnext as (y&Hy&Hyid&Hyst). apply call_ok_put with (y := pending); [|simpl|done|by split; [|congruence]].
      + eapply call_ok_put; [by eapply call_ok_grows|exact Hy|done|]. split; [congruence|]. intros _. unfold pending_begun in Hb.
        apply Forall_cons in Hb as [_ Hb]. simpl in Hb. rewrite Forall_singleton in Hb. by apply Hb.
      + rewrite entries_of_put, decide_True by done. by rewrite list_lookup_insert_ne by lia.
    - apply call_ok_put with (y := pending); [by eapply call_ok_grows|done|done|by split; [|congruence]]. }
  case_bool_decide; [by apply safe_short_circuit|]. apply safe_ret. intros w2 H2. by eapply call_ok_grows.
Qed.

Lemma safe_run_preflight w s auth i d entry expected :
  call_ok w s call i (d :: expected) -> entries_of (ps_byCall s) (call_ID call) !! i = Some entry ->
  xe_Status entry = InvocationPrepared \/ xe_Status entry = InvocationPending ->
  safe c w (run_preflight e k call future s auth i d entry) (call_post call (S i) expected).
Proof.
  intros Hs Hi Hst. unfold run_preflight. eapply safe_bind; [by apply (safe_start_preflight w s i entry (d :: expected))|].
  intros [[pending s']|err] w1 H1 Hp; [|by apply stopping]. destruct Hp as (Hid&Hb&Hs'&Hi').
  eapply safe_bind; [apply safe_self|]. intros r w2 H2 Hr. eapply safe_bind.
  { apply safe_invoke. destruct Hs' as [_ Hs']. destruct (Hs' 0 d eq_refl) as (x&Hx&Hres). rewrite Nat.add_0_r, Hi' in Hx. injection Hx as <-.
    eapply recorded_grows; [eapply reserved_recorded; [exact Hres|exact Hb|]|exact H2]. rewrite Hr. apply H2. }
  intros answer w3 H3 _. cbv zeta.
  match goal with |- safe _ _ (match ?x with Some _ => _ | None => _ end) _ => destruct x as [result|] end.
  - eapply safe_bind; [apply safe_clock|]. intros at_ w4 H4 _. eapply safe_bind; [apply safe_pipeline_next|]. intros next w5 H5 Hn.
    eapply (safe_finish _ s' auth i d expected pending _ result next); try done. eapply call_ok_grows; [exact Hs'|]. do 3 (etrans; [eassumption|]). done.
  - destruct (classifyToolPreflightFailure _) as [[st code] reason]. eapply safe_bind; [apply safe_clock|]. intros at_ w4 H4 _. apply safe_abort_batch.
Qed.

Lemma safe_call_preflights expected : forall w s auth i,
  call_ok w s call i expected -> safe c w (call_preflights e k call future s auth i expected) (fun out w' => match out with inl _ => True | inr (_, s') => state_ok w' s' end).
Proof.
  induction expected as [|d expected IH]; intros w s auth i Hs; cbn [call_preflights].
  { apply safe_ret. intros w1 H1. eapply state_ok_grows; [apply Hs|done]. }
  destruct Hs as [Hok Hres] eqn:E. destruct (Hres 0 d eq_refl) as (entry&Hi&_). rewrite Nat.add_0_r in Hi. rewrite Hi. clear E.
  assert (call_ok w s call (S i) expected) as Htail by (eapply call_ok_tail; by split).
  eapply safe_bind with (P := call_post call (S i) expected).
  - assert (forall s', ps_byCall s' = ps_byCall s -> xe_Status entry = InvocationSucceeded -> safe c w
      (match xe_Result entry with
       | None => Crash dereference
       | Some result =>
         let auth := merge_preflight auth (Some result) in
         if bool_decide (inv_Decision result = DecisionDeny) then short_circuit e k call s' i auth else mret (inr (auth, s'))
       end) (call_post call (S i) expected)) as Hreused.
    { intros s' Heq Hsucc. specialize (Hok (call_ID call)). rewrite Forall_forall in Hok.
      destruct (Hok entry) as [Hsome _]; [by eapply list_elem_of_lookup_2|]. destruct (Hsome Hsucc) as [result ->]. cbv zeta.
      assert (call_ok w s' call (S i) expected) as Hs' by (by eapply call_ok_state).
      case_bool_decide; [by apply safe_short_circuit|]. apply safe_ret. intros w1 H1. by eapply call_ok_grows. }
    destruct (bool_decide (xe_Status entry = InvocationSucceeded)) eqn:Esucc; cbn [andb].
    + apply bool_decide_eq_true in Esucc. case_bool_decide; [by apply Hreused|]. case_bool_decide; [by apply Hreused|].
      rewrite !bool_decide_eq_false_2 by congruence. apply safe_settled_before.
    + match goal with |- safe _ _ (if ?b then _ else _) _ => destruct b eqn:Erun end; [|apply safe_settled_before].
      apply safe_run_preflight; [by split|done|]. apply orb_true_iff in Erun as [E%bool_decide_eq_true|[E%bool_decide_eq_true _]%andb_true_iff]; auto.
  - intros [stop|[auth' s']] w1 H1 Hp; [by apply safe_ret|]. simpl in Hp. destruct (pf_denied auth'); [|by apply IH].
    apply safe_ret. intros w2 H2. eapply state_ok_grows; [apply Hp|done].
Qed.
End Call.

(** *** The batch *)
Lemma reservations_reserved r w call expected entries :
  validateToolPreflightReservations r call expected entries = true -> rt_identity r = rt_identity (w_rt w) ->
  forall n d, expected !! n = Some d -> exists x, entries !! n = Some x /\ reserved w call d x.
Proof.
  unfold validateToolPreflightReservations. intros [Hlen%Nat.eqb_eq Hall]%andb_true_iff Hr n d Hd.
  destruct (lookup_lt_is_Some_2 entries n) as [x Hx]; [rewrite <-Hlen; by eapply lookup_lt_Some|]. exists x. split; [done|].
  rewrite forallb_forall in Hall. specialize (Hall (d, x)). simpl in Hall.
  assert (negb (reservation_mismatch r call d x) = true) as Hm.
  { apply Hall, list_elem_of_In, list_elem_of_lookup. exists n. rewrite lookup_zip_with, Hd. simpl. by rewrite Hx. }
  unfold reservation_mismatch in Hm. rewrite (preflight_view_same r (w_rt w) x x call Hr eq_refl) in Hm. unfold reserved.
  destruct (FingerprintView _) as [f|]; [|by rewrite orb_true_r in Hm]. bool_simpl. split; [done|]. by exists f.
Qed.
Lemma group_by_call_in entries : forall id x, x ∈ entries_of (group_by_call entries) id -> x ∈ entries.
Proof.
  induction entries as [|y entries IH]; intros id x; simpl; unfold entries_of at 1; [by rewrite lookup_empty|].
  destruct (decide (xe_ToolCallID y = id)) as [<-|Hne]; [rewrite lookup_insert_eq|rewrite lookup_insert_ne by done]; simpl; set_solver.
Qed.

Section Batch.
Variables (ValidateArguments : InputSchema -> string -> bool) (d : toolDispatcher) (e : environment) (k : nat).

(** What [batch_call] starts from: the entries of the call, or those that it
    supplements. *)
Definition supplemented_post (call : ToolCall) (out : list ExtensionJournalEntry * preflight_state + error) w : Prop :=
  match out with inl (entries, s) => state_ok w s /\ entries = entries_of (ps_byCall s) (call_ID call) | inr _ => True end.
Lemma safe_batch_call w s call future :
  state_ok w s -> safe c w (batch_call c ValidateArguments d e k s call future)
    (fun out w' => match out with inl _ => True | inr (_, s') => state_ok w' s' end).
Proof.
  intros Hs. unfold batch_call. cbv zeta. eapply safe_bind with (P := supplemented_post call).
  - destruct (_ && _); [|apply safe_ret; intros w1 H1; split; [by eapply state_ok_grows|done]].
    eapply safe_bind; [eapply safe_region; [apply supplement_ok|intros ? ? ? ?; by eapply entries_ok_grows]|].
    intros [entries|err] w1 H1 He; [|by apply safe_ret]. apply safe_ret. intros w2 H2. simpl.
    split; [|by unfold entries_of; rewrite lookup_insert_eq]. intros id. unfold entries_of; simpl. destruct (decide (call_ID call = id)) as [<-|Hne].
    + rewrite lookup_insert_eq. by eapply entries_ok_grows.
    + rewrite lookup_insert_ne by done. eapply state_ok_grows; [exact Hs|by etrans].
  - intros [[entries s']|err] w1 H1 Hp; [|by apply safe_ret]. destruct Hp as [Hs' ->]. eapply safe_bind; [apply safe_self|]. intros r w2 H2 Hr.
    destruct (validateToolPreflightReservations _ _ _ _) eqn:Ev; cbn [negb].
    + destruct (validateCall _ _ _).
      * eapply safe_bind; [apply runs_cancelToolPreflightEntries|]. intros [[]|err] w3 H3 _; [|by apply stopping]. apply safe_ret. intros w4 H4.
        eapply state_ok_grows; [exact Hs'|]. do 2 (etrans; [eassumption|]). done.
      * apply safe_call_preflights. split; [by eapply state_ok_grows|]. simpl. by apply (reservations_reserved r).
    + eapply safe_bind; [apply runs_settleToolPreflightDefinitionMismatch|]. intros [[]|err] w3 H3 _; [by apply safe_ret|by apply stopping].
Qed.
Lemma safe_batch_calls calls : forall w s auths, state_ok w s -> runs w (batch_calls c ValidateArguments d e k s auths calls).
Proof.
  induction calls as [|call calls IH]; intros w s auths Hs; cbn [batch_calls].
  - apply runs_bind; [apply runs_finalizeToolPreflightEffects|]. intros [[]|err] w1 _; [apply runs_ret|apply runs_toolPreflightPersistenceFailure].
  - eapply safe_bind; [by apply safe_batch_call|]. intros [stop|[auth s']] w1 H1 Hp; [by apply safe_ret|]. by apply IH.
Qed.

(** The preflights of a batch, at any time. *)
Lemma evaluateToolPreflights_safe w calls : runs w (evaluateToolPreflights c ValidateArguments d e k calls).
Proof.
  unfold evaluateToolPreflights. destruct (rc_toolPreflights c); [apply runs_ret|].
  eapply safe_bind; [eapply safe_region; [apply toolPreflightSnapshot_ok|intros ? ? ? ?; by eapply entries_ok_grows]|].
  intros [s|err] w1 H1 Hs; [|by apply safe_ret].
  eapply safe_bind; [eapply safe_read; [apply take_recovered_ok|intros ? ? ? ?; by eapply entries_ok_grows]|]. intros taken w2 H2 Ht.
  eapply safe_bind; [apply safe_field|]. intros runID w3 H3 _. cbv zeta. apply safe_batch_calls. intros id. simpl.
  apply Forall_forall. intros x Hx%group_by_call_in. apply list_elem_of_In, List.filter_In in Hx as [Hx%list_elem_of_In _].
  destruct taken as [entries|]; simpl in *.
  - rewrite Forall_forall in Ht. eapply entry_ok_grows; [by apply Ht|done].
  - rewrite Forall_forall in Hs. eapply entry_ok_grows; [by apply Hs|by etrans].
Qed.
End Batch.

(** ** The regions of the result hooks *)
Lemma commitToolResultHookChanges_ok e k op changes :
  quiet_changes changes -> region_ok c (commitToolResultHookChanges e k op changes) (fun _ _ => True) True.
Proof.
  intros Hq. apply region_regular; [|unfold commitToolResultHookChanges; regular]. intros w0 _. unfold commitToolResultHookChanges. destruct changes; quiet.
Qed.
Lemma commitToolResultHookEntries_ok e k op entries :
  region_ok c (commitToolResultHookEntries e k op entries) (fun _ w => pending_begun w entries) True.
Proof.
  apply region_triple; [|unfold commitToolResultHookEntries, commitToolResultHookChanges; regular]. intros w0 Hi.
  unfold commitToolResultHookEntries, commitToolResultHookChanges. destruct entries as [|x entries]; [apply triple_ret; intros w Hw; split; [done|by constructor]|].
  change (updates (x :: entries)) with (UpdateExtensionJournal_ x :: updates entries) at 1. cbv iota.
  eapply triple_bind; [apply quiet_require_active|]. intros ?. eapply triple_bind; [apply quiet_viewLocked|]. intros s.
  eapply triple_bind; [apply commit_entries|]. intros r. by apply triple_ret.
Qed.
Lemma settleToolResultHooks_ok e k ids code : region_ok c (settleToolResultHooksAfterPersistenceError e k ids code) (fun _ _ => True) True.
Proof. apply region_regular; [intros w0 _|]; unfold settleToolResultHooksAfterPersistenceError; [quiet|regular]. Qed.
Lemma quiet_finalizeToolResultHookEntries entries d : quiet_changes (finalizeToolResultHookEntries entries d).
Proof. apply quiet_updates. Qed.
Hint Resolve quiet_finalizeToolResultHookEntries : quiet.
Lemma consumeToolResultHookContexts_ok e k entries : region_ok c (consumeToolResultHookContexts e k entries) (fun _ _ => True) True.
Proof. apply commitToolResultHookChanges_ok. apply quiet_concat. intros x. cbv beta zeta. destruct (bool_decide _); auto with quiet. Qed.

Notation results := (prog ToolResultHookResult).

Lemma safe_cancel_entries {Q} e code entries : forall w, safe c w (cancel_entries e code entries : prog Q (list Change)) (fun cs _ => quiet_changes cs).
Proof.
  induction entries as [|x entries IH]; intros w; [apply safe_ret; intros; constructor|]. cbn [cancel_entries]. destruct (bool_decide _); [|apply IH].
  eapply safe_bind; [apply safe_clock|]. intros at_ w1 _ _. eapply safe_bind; [apply IH|]. intros rest w2 _ Hr. apply safe_ret. intros ? _. auto with quiet.
Qed.

Section Results.
Variables (e : environment) (k : nat).

Lemma runs_results_unsettled w entries err canceled code : runs w (results_unsettled e k entries err canceled code).
Proof. unfold results_unsettled. apply runs_bind; [by eapply runs_region, settleToolResultHooks_ok|intros out w1 _]. apply runs_ret. Qed.
Lemma runs_settleToolResultHookAbort w succeeded remaining code : runs w (settleToolResultHookAbort e k succeeded remaining code).
Proof.
  unfold settleToolResultHookAbort. eapply safe_bind; [apply safe_cancel_entries|]. intros canceled w1 _ Hq.
  eapply runs_region, commitToolResultHookChanges_ok. auto with quiet.
Qed.
Lemma runs_settleToolResultHookFailure w succeeded failed remaining : runs w (settleToolResultHookFailure e k succeeded failed remaining).
Proof.
  unfold settleToolResultHookFailure. eapply safe_bind; [apply safe_cancel_entries|]. intros canceled w1 _ Hq.
  eapply runs_region, commitToolResultHookChanges_ok. auto 10 with quiet.
Qed.
Lemma runs_results_canceled w entries succeeded remaining : runs w (results_canceled e k entries succeeded remaining).
Proof.
  unfold results_canceled. apply runs_bind; [apply runs_settleToolResultHookAbort|]. intros [[]|err] w1 _; [apply runs_ret|apply runs_results_unsettled].
Qed.

(** The entries from [i] on. *)
Definition slots_ok w (entries : list ExtensionJournalEntry) (i : nat) (slots : list result_slot) : Prop :=
  forall n slot, slots !! n = Some slot -> exists x, entries !! (i + n) = Some x /\ (xe_Status x = InvocationPending -> begun w x).
Lemma slots_ok_grows w w' entries i slots : slots_ok w entries i slots -> grows w w' -> slots_ok w' entries i slots.
Proof. intros H Hw n slot Hs. destruct (H n slot Hs) as (x&Hx&Hb). exists x. split; [done|]. intros Hp. eapply begun_grows; [by apply Hb|done]. Qed.
Lemma slots_ok_tail w entries i slot slots : slots_ok w entries i (slot :: slots) -> slots_ok w entries (S i) slots.
Proof. intros H n slot' Hs. destruct (H (S n) slot' Hs) as (x&Hx&Hb). exists x. by rewrite <-Hx, Nat.add_succ_r. Qed.
Lemma slots_ok_insert w entries i slots j x :
  slots_ok w entries i slots -> (xe_Status x = InvocationPending -> begun w x) -> slots_ok w (<[j := x]> entries) i slots.
Proof.
  intros H Hx n slot Hs. destruct (H n slot Hs) as (y&Hy&Hb). destruct (decide (j = i + n)) as [->|Hne].
  - exists x. split; [apply list_lookup_insert_eq; by eapply lookup_lt_Some|done].
  - exists y. by rewrite list_lookup_insert_ne.
Qed.
Definition slots_post (i : nat) (slots : list result_slot)
    (out : results_return + list ExtensionJournalEntry * list ExtensionJournalEntry) w : Prop :=
  match out with inl _ => True | inr (entries, _) => slots_ok w entries i slots end.

Lemma ending {A B} w (p : results A) (f : A -> B) P : runs w p -> (forall a w', P (inl (f a)) w') -> safe c w (a ← p; mret (inl (f a))) (P : B + list ExtensionJournalEntry * list ExtensionJournalEntry -> world -> Prop).
Proof. intros Hp HP. eapply safe_bind; [exact Hp|]. intros a w1 _ _. by apply safe_ret. Qed.

Lemma result_terminal_status pending at_ outcome terminal : result_terminal pending at_ outcome = Some terminal ->
  xe_Status terminal = match outcome with inl (status, _, _) => status | inr _ => InvocationSucceeded end.
Proof.
  unfold result_terminal. destruct outcome as [[[status code] reason]|result]; [by intros [= <-]|]. cbv zeta. destruct (thr_Context result); [by intros [= <-]|].
  destruct (FingerprintTypedInput _); [|done]. by intros [= <-].
Qed.

Lemma safe_result_commit w op entries :
  safe c w (region (commitToolResultHookEntries e k op entries) : results (unit + error))
    (fun out w' => match out with inl _ => pending_begun w' entries | inr _ => True end).
Proof. eapply safe_region; [apply commitToolResultHookEntries_ok|]. intros u w1 w2. apply pending_begun_grows. Qed.

Lemma safe_result_hook w entries succeeded i slot slots pending view :
  slots_ok w entries (S i) slots -> recorded w (rl_descriptor slot) (ResultView view) ->
  safe c w (result_hook e k entries succeeded i slot pending view) (slots_post (S i) slots).
Proof.
  intros Hs Hrec. unfold result_hook. eapply safe_bind; [by apply safe_invoke|]. intros answer w1 H1 _. eapply safe_bind; [apply safe_self|]. intros r w2 H2 _.
  eapply safe_bind; [apply safe_field|]. intros runID w3 H3 _. cbv zeta. eapply safe_bind; [apply safe_clock|]. intros at_ w4 H4 _.
  assert (grows w w4) as Hw4 by (do 3 (etrans; [eassumption|]); done). clear H1 H2 H3 H4.
  destruct (result_terminal _ _ _) as [terminal|] eqn:Et; [|by apply safe_ret]. apply result_terminal_status in Et.
  destruct (result_failure _ _ _ answer) as [[[status code] reason]|result]; cbv iota in Et |- *.
  - eapply safe_bind; [apply safe_field|]. intros canceled w5 H5 _. eapply safe_bind; [by apply safe_ret with (P := fun _ _ => True)|]. intros next w6 H6 _.
    eapply safe_bind; [apply safe_result_commit|]. intros [[]|err] w7 H7 _; [|by apply ending; [apply runs_results_unsettled|]].
    cbv zeta. eapply safe_bind; [apply runs_settleToolResultHookFailure|]. intros [[]|err] w8 H8 _; [|by apply ending; [apply runs_results_unsettled|]].
    eapply safe_bind; [apply safe_field|]. intros canceled' w9 H9 _. by apply safe_ret.
  - eapply safe_bind; [apply safe_field|]. intros canceled w5 H5 _. eapply safe_bind with (P := fun next _ => match next with Some n => True | None => True end).
    { destruct (entries !! S i); [|by apply safe_ret]. destruct (canceled : bool); [by apply safe_ret|]. eapply safe_bind; [apply safe_clock|].
      intros at' w6 _ _. by apply safe_ret. }
    intros next w6 H6 _. cbv zeta. eapply safe_bind; [apply safe_result_commit|]. intros [[]|err] w7 H7 Hb; [|by apply ending; [apply runs_results_unsettled|]].
    apply safe_ret. intros w8 H8. simpl. assert (grows w w8) as Hw8 by (do 4 (etrans; [eassumption|]); done).
    apply slots_ok_insert; [|congruence]. destruct next as [next|]; [|by eapply slots_ok_grows]. apply slots_ok_insert; [by eapply slots_ok_grows|].
    intros Hp. apply Forall_cons in Hb as [_ Hb]. simpl in Hb. rewrite Forall_singleton in Hb. eapply begun_grows; [by apply Hb|done].
Qed.

Lemma result_view_same r x x' slot : xe_identity x = xe_identity x' ->
  toolResultView r (xe_InvocationID x) (xe_PreparedRevision x) slot = toolResultView r (xe_InvocationID x') (xe_PreparedRevision x') slot.
Proof. by intros (->&_&_&->)%identity_fields. Qed.

Lemma safe_result_entry w entries succeeded i slot slots entry :
  slots_ok w entries i (slot :: slots) -> entries !! i = Some entry ->
  safe c w (result_entry e k entries succeeded i slot entry) (slots_post (S i) slots).
Proof.
  intros Hs Hi. unfold result_entry. eapply safe_bind; [apply safe_field|]. intros canceled w1 H1 _.
  destruct (_ && _); [by apply ending; [apply runs_results_canceled|]|]. eapply safe_bind; [apply safe_self|]. intros r w2 H2 Hr. cbv zeta.
  assert (grows w w2) as Hw2 by (by etrans). clear H1 H2. apply (slots_ok_grows _ w2) in Hs; [|done].
  destruct (Hs 0 slot eq_refl) as (x&Hx&Hbegun). rewrite Nat.add_0_r, Hi in Hx. injection Hx as <-. apply slots_ok_tail in Hs.
  match goal with |- safe _ _ (if ?b then _ else _) _ => destruct b eqn:Ebad end.
  { eapply safe_bind; [apply runs_settleToolResultHookAbort|]. intros out w3 _ _. by apply safe_ret. }
  assert (exists f, FingerprintView (ResultView (toolResultView r (xe_InvocationID entry) (xe_PreparedRevision entry) slot)) = Some f /\
    xe_InputDigest entry = fp_Digest f /\ xe_Descriptor entry = rl_descriptor slot) as (f&Hf&Hdig&Hdesc).
  { destruct (FingerprintView _) as [f|]; [|done]. bool_simpl. by exists f. }
  assert (forall w', begun w' entry -> recorded w' (rl_descriptor slot) (ResultView (toolResultView r (xe_InvocationID entry) (xe_PreparedRevision entry) slot)))
    as Hrec by (intros w' Hb; exists entry, f; by split_and!).
  clear Ebad.
  case_bool_decide as Hp.
  - eapply safe_bind; [apply safe_clock|]. intros at_ w3 H3 _. cbv zeta. eapply safe_bind; [apply safe_result_commit|].
    intros [[]|err] w4 H4 Hb; [|by apply ending; [apply runs_results_unsettled|]]. unfold pending_begun in Hb. rewrite Forall_singleton in Hb. specialize (Hb eq_refl).
    apply safe_result_hook; [|apply Hrec; by eapply begun_identity]. apply slots_ok_insert; [eapply slots_ok_grows; [exact Hs|by etrans]|done].
  - case_bool_decide as Hp'; [|by apply safe_ret]. apply safe_result_hook; [done|]. by apply Hrec, Hbegun.
Qed.

Lemma safe_result_loop slots : forall w entries succeeded i, slots_ok w entries i slots -> runs w (result_loop e k entries succeeded i slots).
Proof.
  induction slots as [|slot slots IH]; intros w entries succeeded i Hs; cbn [result_loop].
  - eapply safe_bind; [apply safe_field|]. intros canceled w1 _ _. destruct (canceled : bool); [apply runs_results_canceled|].
    apply runs_bind; [by eapply runs_region, consumeToolResultHookContexts_ok|]. intros [[]|err] w2 _; [apply runs_ret|apply runs_results_unsettled].
  - destruct (Hs 0 slot eq_refl) as (entry&Hi&_). rewrite Nat.add_0_r in Hi. rewrite Hi.
    eapply safe_bind; [by apply safe_result_entry|]. intros [stop|[entries' succeeded']] w1 H1 Hp; [by apply safe_ret|]. by apply IH.
Qed.

(** What the hooks are given: an entry for every binding, none of them begun. *)
Definition occurrence_ok (o : toolResultHookOccurrence) : Prop :=
  length (ro_bindings o) = length (ro_entries o) /\ Forall (fun x => xe_Status x = InvocationPrepared) (ro_entries o).
Lemma slots_length occurrences : Forall occurrence_ok occurrences -> length (concat (map slots_of occurrences)) = length (concat (map ro_entries occurrences)).
Proof.
  induction 1 as [|o os [Ho _] _ IH]; [done|]. simpl. rewrite !length_app, IH. unfold slots_of. by rewrite length_map, Ho.
Qed.
Lemma evaluateToolResultHooks_safe w occurrences : Forall occurrence_ok occurrences -> runs w (evaluateToolResultHooks e k occurrences).
Proof.
  intros Ho. unfold evaluateToolResultHooks. destruct occurrences as [|o os]; [apply runs_ret|]. apply safe_result_loop. intros n slot Hn.
  pose proof (slots_length _ Ho) as Hlen. apply lookup_lt_Some in Hn. rewrite Hlen in Hn. apply lookup_lt_is_Some_2 in Hn as [x Hx].
  exists x. split; [done|]. intros Hp. exfalso. apply list_elem_of_lookup_2, list_elem_of_In, in_concat in Hx as (l&Hl&Hx).
  apply in_map_iff in Hl as (o'&<-&Ho'). rewrite Forall_forall in Ho. destruct (Ho o') as [_ Hprep]; [by apply list_elem_of_In|].
  rewrite Forall_forall in Hprep. rewrite (Hprep x) in Hp; [done|by apply list_elem_of_In].
Qed.
End Results.

(** What [commitToolResults] reserves for the hooks is such. *)
Lemma yields_reserve_results e call result nextStep revision at_ bindings : forall sequence,
  yields (reserve_results e call result nextStep revision at_ sequence bindings)
    (fun p => length bindings = length p.1 /\ Forall (fun x => xe_Status x = InvocationPrepared) p.1).
Proof.
  induction bindings as [|[scope d] bindings IH]; intros sequence; cbn [reserve_results]; [by apply yields_ret|].
  do 3 (apply yields_then; intros ?). eapply yields_bind; [apply IH|]. intros [entries next] [Hl Hf]. apply yields_ret. simpl in *.
  split; [by rewrite Hl|by constructor].
Qed.
Lemma yields_reserve_batch e s nextStep revision at_ batch : forall sequence,
  yields (reserve_batch c e s nextStep revision at_ sequence batch) (Forall occurrence_ok).
Proof.
  induction batch as [|[call result] batch IH]; intros sequence; cbn [reserve_batch]; [by apply yields_ret|]. cbv zeta.
  destruct (_ || _); [apply IH|]. eapply yields_bind; [apply yields_reserve_results|]. intros [entries next] Hp.
  eapply yields_bind; [apply IH|]. intros rest Hr. apply yields_ret. by constructor.
Qed.
Lemma commitToolResults_occurrences e k calls results :
  yields (commitToolResults c e k calls results) (fun out => match out with Some (_, os, _) => Forall occurrence_ok os | None => True end).
Proof.
  unfold commitToolResults. apply yields_then. intros r. destruct (negb _); [by apply yields_ret|]. do 2 (apply yields_then; intros ?).
  destruct (Nat.ltb _ _); [by intros ? ?|]. apply yields_then. intros nextStep. eapply yields_bind with (P := fun p => Forall occurrence_ok p.1).
  - unfold appendToolResultReservations. destruct (rc_toolResultHooks c); [by apply yields_ret|]. do 2 (apply yields_then; intros ?).
    eapply yields_bind; [apply yields_reserve_batch|]. intros os Ho. by apply yields_ret.
  - intros [os reserved] Ho. apply yields_then. intros ?. by apply yields_ret.
Qed.
End HookFacts.
