(* ===== verification/RuntimeGateFacts.v ===== *)
(** * The gates are safe

    The input gates of a submission and the completion gates of a run keep what
    is good, invoke no gate whose invocation is not recorded in the store, and
    never panic, whatever happens to the runtime between their regions. *)

From S2P Require Import Goal.
From S2P Require Import Prelude GoStrings AgentTypes ModelContracts SessionTypes ExtensionJournal.
From S2P Require Import SessionValidate SessionHistory SessionApply SessionRecover SessionCreate SessionStore SessionManager HookViews ModelStream SessionSafety.
From S2P Require Import SessionInvariant SessionCommitFacts SessionRecoverFacts SessionStoreFacts.
From S2P Require Import ToolDispatcher LoopProtocol RuntimeState RuntimeCommands RuntimeRun RuntimeLifecycle RuntimeHooks RuntimeGates RuntimeFacts RuntimeInvariant.
From S2P Require Import RuntimePrograms RuntimeHookFacts.

Section GateFacts.
Context {J : JsonOps} {F : Fingerprints} {R : RequestFingerprint} {K : CursorCodec} {V : ViewFingerprints} (c : runtimeComponents).

Hint Resolve quiet_updates quiet_require_active quiet_require_running invariant_lively : quiet.
Hint Resolve regular_require_active regular_require_running : regular.

(** ** An entry and the view of its gate *)
Definition pair_ok (d : ExtensionDescriptor) (x : ExtensionJournalEntry) (v : InputGateView) : Prop :=
  xe_InvocationID x = igv_InvocationID v /\ xe_Descriptor x = d /\ exists f, FingerprintView (GateView v) = Some f /\ xe_InputDigest x = fp_Digest f.
Definition gates_ok (o : inputGateOccurrence) (i : nat) (gates : list ExtensionDescriptor) : Prop :=
  forall n d, gates !! n = Some d -> exists x v, ig_entries o !! (i + n) = Some x /\ ig_views o !! (i + n) = Some v /\ pair_ok d x v.
Lemma pair_ok_same d x x' v : pair_ok d x v -> xe_identity x' = xe_identity x -> pair_ok d x' v.
Proof. intros (H1&H2&f&H3&H4) (E1&E2&E3&_)%identity_fields. split; [congruence|]. split; [congruence|]. exists f. split; [done|congruence]. Qed.
Lemma gates_ok_tail o i d gates : gates_ok o i (d :: gates) -> gates_ok o (S i) gates.
Proof. intros H n d' Hd. destruct (H (S n) d' Hd) as (x&v&Hx&Hv&Hp). exists x, v. by rewrite <-Hx, <-Hv, Nat.add_succ_r. Qed.
Lemma gates_ok_insert o i gates j x y :
  gates_ok o i gates -> ig_entries o !! j = Some y -> xe_identity x = xe_identity y -> gates_ok (with_gate_entries o (<[j := x]> (ig_entries o))) i gates.
Proof.
  intros H Hj Hid n d Hd. destruct (H n d Hd) as (z&v&Hz&Hv&Hp). destruct (decide (j = i + n)) as [->|Hne].
  - exists x, v. simpl. split; [apply list_lookup_insert_eq; by eapply lookup_lt_Some|]. split; [done|]. rewrite Hz in Hj. injection Hj as ->.
    by eapply pair_ok_same.
  - exists z, v. simpl. by rewrite list_lookup_insert_ne.
Qed.

(** ** Preparing *)
Definition prepared_pairs (gates : list ExtensionDescriptor) (l : list (InputGateView * ExtensionJournalEntry)) : Prop :=
  Forall2 (fun d p => pair_ok d p.2 p.1) gates l.
Lemma yields_prepare_gates expected op m digest at_ gates : forall journal,
  yields (prepare_gates expected op m digest at_ journal gates) (prepared_pairs gates).
Proof.
  induction gates as [|d gates IH]; intros journal; cbn [prepare_gates]; [apply yields_ret; constructor|].
  apply yields_then. intros id. apply yields_then. intros r. cbv zeta. apply yields_then. intros ?.
  match goal with |- context [FingerprintView ?v] => destruct (FingerprintView v) as [f|] eqn:Ef end.
  - eapply yields_bind with (P := fun f' => f' = f); [by intros w f' [= <-]|]. intros ? ->. eapply yields_bind; [apply IH|]. intros rest Hrest.
    apply yields_ret. constructor; [|done]. split; [done|]. split; [done|]. by exists f.
  - by intros w ?.
Qed.
Lemma yields_prepareInputGateLocked e s expected actor op m runID digest :
  yields (prepareInputGateLocked c e s expected actor op m runID digest) (fun o => gates_ok o 0 (rc_inputGates c)).
Proof.
  unfold prepareInputGateLocked. apply yields_then. intros at_. eapply yields_bind; [apply yields_prepare_gates|]. intros prepared Hp.
  do 3 (apply yields_then; intros ?). apply yields_ret. intros n d Hd. unfold prepared_pairs in Hp. rewrite Forall2_lookup in Hp. specialize (Hp n).
  rewrite Hd in Hp. destruct (prepared !! n) as [[v x]|] eqn:En; [|by inversion Hp]. inversion Hp as [? ? Hpair|]; subst.
  exists x, v. simpl. by rewrite !list_lookup_fmap, En.
Qed.
Lemma yields_prepare_send e q : yields (prepare_send c e q) (fun o => gates_ok o 0 (rc_inputGates c)).
Proof. unfold prepare_send. do 3 (apply yields_then; intros ?). apply yields_prepareInputGateLocked. Qed.
Lemma yields_prepare_steer e q : yields (prepare_steer c e q) (fun o => gates_ok o 0 (rc_inputGates c)).
Proof. unfold prepare_steer. do 6 (apply yields_then; intros ?). apply yields_prepareInputGateLocked. Qed.
Lemma yields_prepare_edit e q : yields (prepare_edit c e q) (fun o => gates_ok o 0 (rc_inputGates c)).
Proof.
  unfold prepare_edit. do 2 (apply yields_then; intros ?). destruct (queueByID _ _) as [item|]; [|apply yields_fail]. apply yields_then. intros previous.
  eapply yields_bind; [apply yields_prepareInputGateLocked|]. intros o Ho. by apply yields_ret.
Qed.

Lemma InputGateView_Validate_returns v : returns (InputGateView_Validate v).
Proof. unfold InputGateView_Validate. returns. Qed.
Lemma quiet_prepare_gates w0 expected op m digest at_ gates : forall journal, quiet w0 (prepare_gates expected op m digest at_ journal gates).
Proof.
  induction gates as [|d gates IH]; intros journal; cbn [prepare_gates]; [apply quiet_ret|]. apply quiet_bind; [apply quiet_nextID|intros id].
  apply quiet_self. intros r _. cbv zeta. apply quiet_bind; [apply quiet_lift, returns_map_err, InputGateView_Validate_returns|intros ?].
  apply quiet_bind; [apply quiet_lift, returns_map_err; by destruct (FingerprintView _)|intros f]. apply quiet_bind; [apply IH|intros rest]. apply quiet_ret.
Qed.
Lemma regular_prepare_gates expected op m digest at_ gates : forall journal, regular (prepare_gates expected op m digest at_ journal gates).
Proof. induction gates as [|d gates IH]; intros journal; cbn [prepare_gates]; regular. Qed.
Hint Resolve quiet_prepare_gates : quiet.
Hint Resolve regular_prepare_gates : regular.
Lemma regular_prepareInputGateLocked e s expected actor op m runID digest : regular (prepareInputGateLocked c e s expected actor op m runID digest).
Proof. unfold prepareInputGateLocked. regular. Qed.
Hint Resolve regular_prepareInputGateLocked : regular.

Lemma invariant_gate_journal w b : invariant c w -> invariant c (World (w_store w) (set_gate_journal (w_rt w) b)).
Proof.
  intros [Hs (v&Hv&H) [C1 C2 C3 C4]]. split; [by apply sound_move| |by split]. exists v. by rewrite stored_view_move.
Qed.
Lemma kept_gate_journal {A} w0 (a : A) b :
  invariant c w0 -> triple (after w0) (modify (fun r => set_gate_journal r b) ;; mret a) (fun _ => kept c) (kept c).
Proof. intros Hi w Hw _. by apply invariant_gate_journal, (invariant_after c w0). Qed.
Lemma kept_prepareInputGateLocked w0 e s expected actor op m runID digest :
  invariant c w0 -> triple (after w0) (prepareInputGateLocked c e s expected actor op m runID digest) (fun _ => kept c) (kept c).
Proof.
  intros Hi. unfold prepareInputGateLocked. apply kept_quiet; [done|apply quiet_now|intros at_]. apply kept_quiet; [done|apply quiet_prepare_gates|intros prepared].
  apply kept_quiet; [done|apply quiet_commitExternalLocked, quiet_updates|intros commit]. apply kept_quiet; [done|apply quiet_fail_if|intros ?].
  by apply kept_gate_journal.
Qed.

Lemma region_keeps {B} (m : M B) (P : B -> Prop) : keeps c m -> regular m -> yields m P -> region_ok c m (fun b _ => P b) True.
Proof.
  intros Hk Hr Hy w Hg. split; [apply Hr, moves_refl, (good_wf c w Hg)|]. destruct Hg as [Hi _]. specialize (Hk w Hi). specialize (Hy w).
  destruct (m w) as [w' [b|err|msg]]; [|done..]. split; [done|]. intros _. by apply Hy.
Qed.
Lemma prepare_send_ok e q : region_ok c (prepare_send c e q) (fun o _ => gates_ok o 0 (rc_inputGates c)) True.
Proof.
  apply region_keeps; [|unfold prepare_send; regular|apply yields_prepare_send]. apply keeps_at. intros w0 Hi. unfold prepare_send.
  do 3 (apply kept_quiet; [done|auto with quiet|intros ?]). by apply kept_prepareInputGateLocked.
Qed.
Lemma prepare_steer_ok e q : region_ok c (prepare_steer c e q) (fun o _ => gates_ok o 0 (rc_inputGates c)) True.
Proof.
  apply region_keeps; [|unfold prepare_steer; regular|apply yields_prepare_steer]. apply keeps_at. intros w0 Hi. unfold prepare_steer.
  apply kept_quiet; [done|auto with quiet|intros ?]. apply kept_self. intros r Hr. destruct (frame_state _ _ Hr) as (_&Ha&_&_).
  apply kept_guard; [done|intros Hactive]. do 2 (apply kept_quiet; [done|auto with quiet|intros ?]).
  apply kept_quiet; [done| |intros runID; by apply kept_prepareInputGateLocked]. destruct (ri_active r) as [k|] eqn:Er.
  - apply quiet_get_run; [by apply (invariant_lively c w0 Hi)|]. intros run _. apply quiet_ret.
  - unfold no_active_run in Hactive. rewrite Er in Hactive. by rewrite ?orb_true_r in Hactive.
Qed.
Lemma prepare_edit_ok e q : region_ok c (prepare_edit c e q) (fun o _ => gates_ok o 0 (rc_inputGates c)) True.
Proof.
  apply region_keeps; [|unfold prepare_edit; regular|apply yields_prepare_edit]. apply keeps_at. intros w0 Hi. unfold prepare_edit.
  do 2 (apply kept_quiet; [done|auto with quiet|intros ?]). destruct (queueByID _ _) as [item|]; [|apply quiet_kept; [done|apply quiet_fail]].
  apply kept_quiet; [done|apply quiet_lift, returns_map_err; by destruct (FingerprintView _)|intros previous].
  eapply triple_bind; [by apply kept_prepareInputGateLocked|]. intros o. by apply triple_ret.
Qed.

(** ** Diagnostics *)
Lemma extensionPage_returns entries q : returns (extensionPage entries q).
Proof. unfold extensionPage. cbv zeta. returns. Qed.
Lemma store_ExtensionDiagnostics_same q w : exists r, store_ExtensionDiagnostics q w = (w, r) /\ returns r.
Proof.
  eexists. split; [reflexivity|]. apply returns_bind; [done|intros _ _]. apply returns_bind; [apply returns_reject|intros _ _].
  unfold find_aggregate. destruct (st_sessions _ !! _) as [a|]; [|done]. simpl. apply returns_bind; [apply extensionPage_returns|done].
Qed.
Lemma quiet_inputGateError w0 revision o cause : quiet w0 (inputGateError revision o cause).
Proof.
  unfold inputGateError, extensionDiagnosticsForEntries. apply quiet_bind; [apply quiet_catch|intros out; quiet].
  destruct (ig_entries o) as [|x entries]; [apply quiet_ret|]. apply quiet_bind; [apply quiet_gets|intros sid]. apply quiet_bind; [|intros page; apply quiet_ret].
  intros w Hw. destruct (store_ExtensionDiagnostics_same (MkExtensionPageRequest sid 0 MaxExtensionPageLimit) w) as (r&->&Hr). destruct r as [p|err|msg]; [done|done|].
  by destruct (Hr msg).
Qed.
Lemma regular_inputGateError revision o cause : regular (inputGateError revision o cause).
Proof.
  unfold inputGateError, extensionDiagnosticsForEntries. apply regular_bind; [apply regular_catch|intros out; regular].
  destruct (ig_entries o) as [|x entries]; [apply regular_ret|]. apply regular_bind; [apply regular_gets|intros sid]. apply regular_bind; [|intros page; apply regular_ret].
  by apply regular_same.
Qed.
Hint Resolve quiet_inputGateError : quiet.
Hint Resolve regular_inputGateError : regular.

(** ** The end of an occurrence *)
Lemma quiet_finalizeAcceptedInputEntries o : quiet_changes (finalizeAcceptedInputEntries o).
Proof. apply quiet_updates. Qed.
Lemma quiet_consumeAcceptedInputEntries o runID stepID : quiet_changes (consumeAcceptedInputEntries o runID stepID).
Proof. apply quiet_concat. intros x. cbv beta zeta. destruct (bool_decide _); auto with quiet. Qed.
Lemma quiet_discardAcceptedInputEntries o : quiet_changes (discardAcceptedInputEntries o).
Proof. apply quiet_updates. Qed.
Lemma quiet_discardOlderInputContexts s o : quiet_changes (discardOlderInputContexts s o).
Proof. apply quiet_updates. Qed.
Lemma quiet_rejected_updates entries : quiet_changes (rejected_updates entries).
Proof. apply quiet_updates. Qed.
Hint Resolve quiet_finalizeAcceptedInputEntries quiet_consumeAcceptedInputEntries quiet_discardAcceptedInputEntries quiet_discardOlderInputContexts
  quiet_rejected_updates : quiet.

Lemma quiet_finalizeRejectedInput w0 e o failure : quiet w0 (finalizeRejectedInput e o failure).
Proof.
  unfold finalizeRejectedInput. apply quiet_bind; [auto with quiet|intros [s|err]]; [|apply quiet_ret]. apply quiet_bind; [|intros [revision|err]; quiet].
  pose proof (quiet_rejected_updates (ig_entries o)) as Hq. destruct (rejected_updates (ig_entries o)); [apply quiet_ret|].
  apply quiet_bind; [by apply quiet_catch, quiet_commitLockedAs|intros out; apply quiet_ret].
Qed.
Lemma regular_finalizeRejectedInput e o failure : regular (finalizeRejectedInput e o failure).
Proof. unfold finalizeRejectedInput. regular. Qed.
Lemma quiet_discardAcceptedInputLocked w0 e o cause : quiet w0 (discardAcceptedInputLocked e o cause).
Proof.
  unfold discardAcceptedInputLocked. apply quiet_bind; [auto with quiet|intros [s|err]]; [|apply quiet_ret]. apply quiet_bind; [|intros [revision|err]; quiet].
  pose proof (quiet_discardAcceptedInputEntries o) as Hq. destruct (discardAcceptedInputEntries o); [apply quiet_ret|].
  apply quiet_bind; [by apply quiet_catch, quiet_commitLockedAs|intros out; apply quiet_ret].
Qed.
Lemma regular_discardAcceptedInputLocked e o cause : regular (discardAcceptedInputLocked e o cause).
Proof. unfold discardAcceptedInputLocked. regular. Qed.
Hint Resolve quiet_discardAcceptedInputLocked quiet_finalizeRejectedInput : quiet.
Hint Resolve regular_discardAcceptedInputLocked regular_finalizeRejectedInput : regular.

Lemma regular_still_open {A} e o op (m : M (gate_error + A)) : regular m -> regular (still_open e o op m).
Proof. intros H. unfold still_open. regular. Qed.
Lemma regular_accepted {A} (m : M (gate_error + A)) : regular m -> regular (accepted m).
Proof. intros H. unfold accepted. regular. Qed.
Lemma kept_accepted {A} w0 (m : M (gate_error + A)) : triple (after w0) m (fun _ => kept c) (kept c) -> triple (after w0) (accepted m) (fun _ => kept c) (kept c).
Proof.
  intros H. unfold accepted. eapply triple_bind with (Q := fun _ => kept c).
  - eapply triple_weaken; [by eapply triple_catch|done| |done]. by intros [r|err] w.
  - intros out. by apply triple_ret.
Qed.
Lemma kept_still_open {A} w0 e o op (m : M (gate_error + A)) :
  invariant c w0 -> (opened (w_rt w0) -> triple (after w0) m (fun _ => kept c) (kept c)) -> triple (after w0) (still_open e o op m) (fun _ => kept c) (kept c).
Proof.
  intros Hi Hm. unfold still_open. eapply kept_bind with (P := fun out => match out with inl _ => opened (w_rt w0) | inr _ => True end); [done| |].
  - eapply triple_weaken; [eapply triple_catch, ensureOpenLocked_spec|done| |done]. intros [u|err] w; [done|by split].
  - intros [u|err] Ho; [by apply Hm|]. apply quiet_kept; [done|]. quiet.
Qed.

Lemma finalizeAcceptedSend_ok e o : region_ok c (finalizeAcceptedSend e o) (fun _ _ => True) True.
Proof.
  apply region_keeps; [| |by intros ? ?].
  - apply keeps_at. intros w0 Hi. apply kept_accepted, kept_still_open; [done|]. intros [Hst Hcl].
    apply kept_quiet; [done|apply quiet_viewLocked|intros s]. apply kept_self. intros r Hr. destruct (frame_state _ _ Hr) as (Es&_&_&_). cbv zeta.
    destruct (bool_decide (ri_state r = runtimeRunning)) eqn:Erun.
    + apply quiet_kept; [done|]. quiet.
    + apply bool_decide_eq_false in Erun. destruct Hst as [Hidle|Hrun]; [|congruence].
      apply (start_kept c w0 s _ true (fun run step cs => commitLockedAs e Live (sn_Revision s) "input-gate-send-start" (ig_actor o)
        (cs ++ consumeAcceptedInputEntries o (ar_id run) step)) (fun run step => consumeAcceptedInputEntries o (ar_id run) step)); [done..| |].
      * intros run step cs w. apply commitLockedAs_spec.
      * intros run step. apply quiet_consumeAcceptedInputEntries.
  - apply regular_accepted, regular_still_open. apply regular_bind; [auto with regular|intros s]. apply regular_bind; [auto with regular|intros r]. cbv zeta.
    destruct (bool_decide _); [regular|].
    apply (regular_start _ _ _ (fun run step cs => commitLockedAs e Live (sn_Revision s) "input-gate-send-start" (ig_actor o)
      (cs ++ consumeAcceptedInputEntries o (ar_id run) step))). auto with regular.
Qed.
Lemma finalizeAcceptedSteer_ok e o : region_ok c (finalizeAcceptedSteer e o) (fun _ _ => True) True.
Proof.
  apply region_keeps; [| |by intros ? ?].
  - apply keeps_at. intros w0 Hi. apply kept_accepted, kept_still_open; [done|]. intros _. apply quiet_kept; [done|]. quiet.
  - apply regular_accepted, regular_still_open. regular.
Qed.
Lemma finalizeAcceptedEdit_ok e o : region_ok c (finalizeAcceptedEdit e o) (fun _ _ => True) True.
Proof.
  apply region_keeps; [| |by intros ? ?].
  - apply keeps_at. intros w0 Hi. unfold finalizeAcceptedEdit. cbv zeta. apply kept_accepted, kept_still_open; [done|]. intros _. apply quiet_kept; [done|]. quiet.
  - unfold finalizeAcceptedEdit. cbv zeta. apply regular_accepted, regular_still_open. regular.
Qed.

(** ** The programs of the input gates *)
Section Execute.
Variables (e : environment) (ctx : Z -> option error).
Notation gates := (prog InputGateResult).

Lemma commitInputGateEntry_ok actor entry op : region_ok c (commitInputGateEntry e actor entry op) (fun _ w => pending_begun w [entry]) True.
Proof.
  apply region_triple; [|unfold commitInputGateEntry; regular]. intros w0 Hi. unfold commitInputGateEntry. eapply triple_bind; [apply quiet_gets|]. intros r.
  do 2 (eapply triple_bind; [apply quiet_fail_if|]; intros ?). eapply triple_bind; [apply quiet_viewLocked|]. intros s.
  eapply triple_bind; [apply (commit_entries w0 e Live _ op actor [entry])|]. intros commit. by apply triple_ret.
Qed.
Lemma runs_cancelPreparedInputGates w o start : runs c w (cancelPreparedInputGates e o start).
Proof.
  unfold cancelPreparedInputGates. apply runs_bind; [apply runs_clock|intros at_ w1 _]. cbv zeta. destruct (List.filter _ _); [apply runs_ret|].
  apply runs_bind; [|intros out w2 _; apply runs_ret]. eapply runs_region, region_regular; [intros w0 _; quiet|regular].
Qed.
Lemma safe_ctx {Q} w : runs c w (read (ctx_Err_now ctx) : prog Q (option error)).
Proof. eapply safe_read; [|done]. by eapply (region_value c _ (fun w => ctx (ri_sequence (w_rt w)))). Qed.
Lemma refusing w o start (failure : gate_failure) : runs c w (o ← cancelPreparedInputGates e o start; mret (o, Some failure)).
Proof. apply runs_bind; [apply runs_cancelPreparedInputGates|intros o' w1 _]. apply runs_ret. Qed.

Lemma gate_terminal_identity pending at_ outcome terminal : gate_terminal pending at_ outcome = Some terminal -> xe_identity terminal = xe_identity pending.
Proof.
  unfold gate_terminal. destruct outcome as [f|result]; [by intros [= <-]|]. cbv zeta. destruct (igr_Context result); [by intros [= <-]|].
  destruct (FingerprintTypedInput _); [|done]. by intros [= <-].
Qed.
Lemma runs_execute_gates ds : forall w o i, gates_ok o i ds -> runs c w (execute_gates e ctx o i ds).
Proof.
  induction ds as [|d ds IH]; intros w o i Ho; cbn [execute_gates]; [apply runs_ret|].
  apply runs_bind; [apply safe_ctx|intros done w1 _]. destruct done as [err|]; [apply refusing|].
  destruct (Ho 0 d eq_refl) as (x&v&Hx&Hv&Hp). rewrite Nat.add_0_r in Hx, Hv. rewrite Hx, Hv.
  apply runs_bind; [apply runs_clock|intros at_ w2 _]. cbv zeta. eapply safe_bind.
  { eapply safe_region; [apply commitInputGateEntry_ok|]. intros u w3 w4. apply pending_begun_grows. }
  intros [[]|err] w3 _ Hb; [|apply refusing]. unfold pending_begun in Hb. rewrite Forall_singleton in Hb. specialize (Hb eq_refl).
  eapply safe_bind.
  { apply safe_invoke. destruct Hp as (P1&P2&f&P3&P4). exists (started_entry x at_), f. by split_and!. }
  intros answer w4 _ _. eapply safe_bind; [apply safe_ctx|intros done w5 _ _]. eapply safe_bind; [apply safe_clock|intros at' w6 _ _].
  destruct (gate_terminal _ _ _) as [terminal|] eqn:Et; [|by apply safe_ret]. apply gate_terminal_identity in Et.
  eapply safe_bind.
  { eapply safe_region; [apply commitInputGateEntry_ok|]. intros u w7 w8. apply pending_begun_grows. }
  intros [[]|err] w7 _ _; [|apply refusing]. destruct (gate_outcome v answer done) as [f|result]; [apply refusing|].
  destruct (bool_decide _); [apply refusing|]. apply IH. apply gates_ok_tail with (d := d).
  apply (gates_ok_insert (with_gate_entries o (<[i := started_entry x at_]> (ig_entries o))) i (d :: ds) i terminal (started_entry x at_)); [|simpl|done].
  - by apply (gates_ok_insert o i (d :: ds) i (started_entry x at_) x).
  - apply list_lookup_insert_eq. by eapply lookup_lt_Some.
Qed.

Lemma runs_through_gates {A} w prepare (finalize : inputGateOccurrence -> M (gate_error + A)) :
  region_ok c prepare (fun o _ => gates_ok o 0 (rc_inputGates c)) True -> (forall o, region_ok c (finalize o) (fun _ _ => True) True) ->
  runs c w (through_gates c e ctx prepare finalize).
Proof.
  intros Hp Hf. unfold through_gates. eapply safe_bind; [eapply safe_region; [exact Hp|by intros ? ? ? ?]|]. intros [o|err] w1 _ Ho; [|by apply safe_ret].
  eapply safe_bind; [by apply runs_execute_gates|]. intros [o' failure] w2 _ _.
  eapply safe_bind with (P := fun _ _ => True); [|intros [r|err] w3 _ _; by apply safe_ret]. apply (runs_region c w2 _ (fun _ _ => True) True).
  destruct failure as [f|]; [|apply Hf]. apply region_regular; [intros w0 _; quiet|regular].
Qed.
Lemma sendThroughInputGates_safe w q : runs c w (sendThroughInputGates c e ctx q).
Proof. apply runs_through_gates; [apply prepare_send_ok|apply finalizeAcceptedSend_ok]. Qed.
Lemma steerThroughInputGates_safe w q : runs c w (steerThroughInputGates c e ctx q).
Proof. apply runs_through_gates; [apply prepare_steer_ok|apply finalizeAcceptedSteer_ok]. Qed.
Lemma editThroughInputGates_safe w q : runs c w (editThroughInputGates c e ctx q).
Proof. apply runs_through_gates; [apply prepare_edit_ok|apply finalizeAcceptedEdit_ok]. Qed.
End Execute.

(** ** Quiet computations that do not fail *)
Definition sure {A} (w0 : world) (m : M A) : Prop := triple (after w0) m (fun _ => after w0) (fun _ => False).
Lemma sure_ret {A} w0 (a : A) : sure w0 (mret a).
Proof. by apply triple_ret. Qed.
Lemma sure_bind {A B} w0 (m : M A) (f : A -> M B) : sure w0 m -> (forall a, sure w0 (f a)) -> sure w0 (m ≫= f).
Proof. intros Hm Hf. by eapply triple_bind. Qed.
Lemma sure_catch {A} w0 (m : M A) : quiet w0 m -> sure w0 (catch m).
Proof. intros H w Hw. specialize (H w Hw). unfold catch. by destruct (m w) as [w' [a|err|msg]]. Qed.
Lemma sure_now w0 e : sure w0 (now e).
Proof. by intros w Hw. Qed.
Lemma sure_self {A} w0 (f : runtimeInstance -> M A) : (forall r, frame r = frame (w_rt w0) -> sure w0 (f r)) -> sure w0 (self ≫= f).
Proof. intros H w Hw. by apply (H (w_rt w) (af_frame _ _ Hw) w). Qed.
Lemma sure_get_run {B} w0 k (f : activeRun -> M B) : is_Some (ri_runs (w_rt w0) !! k) -> (forall a, sure w0 (f a)) -> sure w0 (get_run k ≫= f).
Proof.
  intros [a Ha] Hf w Hw. unfold get_run, mbind, M_bind. destruct (frame_state _ _ (af_frame _ _ Hw)) as (_&_&_&->). rewrite Ha. by apply Hf.
Qed.
Lemma sure_stopped {B} w0 k (f : bool -> M B) :
  lively (w_rt w0) -> sure w0 (f true) -> (is_Some (ri_runs (w_rt w0) !! k) -> sure w0 (f false)) -> sure w0 (run_stopped k ≫= f).
Proof.
  intros Hl Ht Hf w Hw. unfold run_stopped, self, gets, mbind, M_bind. rewrite (is_active_frame _ _ k (af_frame _ _ Hw)).
  destruct (is_active (w_rt w0) k) eqn:Ea; simpl; [|by apply Ht]. apply is_active_true in Ea. destruct (Hl k Ea) as [a Ha]. unfold get_run.
  destruct (frame_state _ _ (af_frame _ _ Hw)) as (_&_&_&->). rewrite Ha. simpl. destruct (_ || _); [by apply Ht|by apply Hf].
Qed.
Lemma region_sure {B} (m : M B) : (forall w0, invariant c w0 -> sure w0 m) -> regular m -> region_ok c m (fun _ _ => True) False.
Proof.
  intros Hs Hr w Hg. split; [apply Hr, moves_refl, (good_wf c w Hg)|]. destruct Hg as [Hi _]. pose proof (Hs w Hi w (after_refl w (in_sound _ _ Hi))) as H.
  destruct (m w) as [w' [b|err|msg]]; [|done..]. split; [by eapply after_kept|done].
Qed.

(** ** The regions of the completion gates *)
Section Completion.
Variables (e : environment) (k : nat).

Lemma commitCompletionEntries_ok op entries : region_ok c (commitCompletionEntries e k op entries) (fun _ w => pending_begun w entries) True.
Proof. exact (commitToolResultHookEntries_ok c e k op entries). Qed.

Lemma quiet_finalizeCompletionEntries entries d : quiet_changes (finalizeCompletionEntries entries d).
Proof. apply quiet_updates. Qed.
Lemma quiet_finalizeCompletionEntriesFromSnapshot s entries d : quiet_changes (finalizeCompletionEntriesFromSnapshot s entries d).
Proof. apply quiet_updates. Qed.
Hint Resolve quiet_finalizeCompletionEntries quiet_finalizeCompletionEntriesFromSnapshot : quiet.
Lemma quietly_cancelCompletionEntries w0 code entries : quietly w0 (cancelCompletionEntries e code entries) quiet_changes.
Proof.
  induction entries as [|x entries IH]; cbn [cancelCompletionEntries]; [by apply quietly_ret, quiet_nil|]. destruct (bool_decide _); [|done].
  apply quietly_after; [apply quiet_now|intros at_]. eapply quietly_bind; [exact IH|]. intros rest Hr. apply quietly_ret. auto with quiet.
Qed.
Lemma regular_cancelCompletionEntries code entries : regular (cancelCompletionEntries e code entries).
Proof. induction entries as [|x entries IH]; cbn [cancelCompletionEntries]; regular. Qed.
Hint Resolve regular_cancelCompletionEntries : regular.

Lemma quiet_settleCompletionAbortLocked w0 succeeded remaining code : quiet w0 (settleCompletionAbortLocked e k succeeded remaining code).
Proof.
  unfold settleCompletionAbortLocked. apply quiet_bind; [auto with quiet|intros ?]. apply quiet_bind; [apply quiet_viewLocked|intros s].
  eapply quiet_value; [apply quietly_cancelCompletionEntries|]. intros canceled Hc.
  match goal with |- quiet _ (match ?cs with _ => _ end) => assert (quiet_changes cs) as Hcs by auto with quiet; destruct cs end; [apply quiet_ret|].
  apply quiet_bind; [by apply quiet_commitLocked|intros ?; apply quiet_ret].
Qed.
Lemma regular_settleCompletionAbortLocked succeeded remaining code : regular (settleCompletionAbortLocked e k succeeded remaining code).
Proof. unfold settleCompletionAbortLocked. regular. Qed.
Lemma quiet_settleCompletionFailure w0 succeeded failed remaining : quiet w0 (settleCompletionFailure e k succeeded failed remaining).
Proof.
  unfold settleCompletionFailure. eapply quiet_value; [apply quietly_cancelCompletionEntries|]. intros canceled Hc.
  apply quiet_bind; [auto with quiet|intros ?]. apply quiet_bind; [apply quiet_viewLocked|intros s].
  apply quiet_bind; [apply quiet_commitLocked|intros ?; apply quiet_ret].
  change (quiet_changes (finalizeCompletionEntries succeeded EffectDiscarded ++ UpdateExtensionJournal_ (with_effect failed EffectApplied) :: canceled)).
  auto 10 with quiet.
Qed.
Lemma regular_settleCompletionFailure succeeded failed remaining : regular (settleCompletionFailure e k succeeded failed remaining).
Proof. unfold settleCompletionFailure. regular. Qed.
Hint Resolve quiet_settleCompletionAbortLocked quiet_settleCompletionFailure quiet_settle_snapshot : quiet.
Hint Resolve regular_settleCompletionAbortLocked regular_settleCompletionFailure regular_settle_snapshot : regular.

Lemma sure_completionPersistenceFailureLocked w0 cause : lively (w_rt w0) -> sure w0 (completionPersistenceFailureLocked e k cause).
Proof.
  intros Hl. unfold completionPersistenceFailureLocked. apply sure_self. intros r Hr. destruct (negb _) eqn:Ea; [apply sure_ret|].
  apply sure_get_run; [by eapply active_run|intros a]. apply sure_bind; [apply sure_catch, quiet_viewLocked|intros [s|err]]; [|apply sure_ret].
  cbv zeta. apply sure_bind; [apply sure_catch, quiet_settle_snapshot|intros out]. apply sure_ret.
Qed.
Lemma regular_completionPersistenceFailureLocked cause : regular (completionPersistenceFailureLocked e k cause).
Proof. unfold completionPersistenceFailureLocked. regular. Qed.
Hint Resolve regular_completionPersistenceFailureLocked : regular.

Lemma quiet_apply_completion runID nextStep x : quiet_changes (apply_completion runID nextStep x).
Proof. unfold apply_completion. cbv zeta. destruct (bool_decide _); auto with quiet. Qed.
Lemma quiet_completion_applications s runID nextStep succeeded cs : completion_applications s runID nextStep succeeded = inl cs -> quiet_changes cs.
Proof.
  revert cs. induction succeeded as [|x succeeded IH]; cbn [completion_applications]; intros cs H; [injection H as <-; constructor|].
  destruct (extensionEntryByInvocation _ _); [|done]. destruct (_ || _); [|done]. destruct (completion_applications _ _ _ _) as [rest|]; [|done].
  injection H as <-. specialize (IH rest eq_refl). apply quiet_app; [destruct (bool_decide _); auto with quiet|].
  apply quiet_app; [apply quiet_apply_completion|done].
Qed.
Lemma quiet_retry_applications runID nextStep journal cs : retry_applications runID nextStep journal = Some cs -> quiet_changes cs.
Proof.
  revert cs. induction journal as [|x journal IH]; cbn [retry_applications]; intros cs H; [injection H as <-; constructor|].
  destruct (_ || _); [by apply IH|]. destruct (negb _); [done|]. destruct (retry_applications _ _ _) as [rest|]; [|done]. injection H as <-.
  apply quiet_app; [apply quiet_apply_completion|by apply IH].
Qed.
Lemma sure_retryCompletionApplyAfterGoalLocked w0 a nextStep entries : sure w0 (retryCompletionApplyAfterGoalLocked e k a nextStep entries).
Proof.
  unfold retryCompletionApplyAfterGoalLocked. apply sure_self. intros r _. destruct (negb _); [apply sure_ret|].
  apply sure_bind; [apply sure_catch, quiet_viewLocked|intros [s|err]]; [|apply sure_ret].
  destruct (retry_applications _ _ _) as [cs|] eqn:Ecs; [|apply sure_ret]. apply quiet_retry_applications in Ecs. destruct cs; [apply sure_ret|].
  apply sure_bind; [by apply sure_catch, quiet_commitLocked|intros out]. apply sure_ret.
Qed.
Lemma regular_retryCompletionApplyAfterGoalLocked a nextStep entries : regular (retryCompletionApplyAfterGoalLocked e k a nextStep entries).
Proof. unfold retryCompletionApplyAfterGoalLocked. regular. Qed.
Lemma sure_aborted w0 succeeded code superseded retryGoal : sure w0 (aborted e k succeeded code superseded retryGoal).
Proof. unfold aborted. apply sure_bind; [apply sure_catch, quiet_settleCompletionAbortLocked|intros out]. apply sure_ret. Qed.
Lemma regular_aborted succeeded code superseded retryGoal : regular (aborted e k succeeded code superseded retryGoal).
Proof. unfold aborted. regular. Qed.
Hint Resolve regular_retryCompletionApplyAfterGoalLocked regular_aborted : regular.
Lemma quiet_completionApplyAlreadyDurableLocked w0 entries : quiet w0 (completionApplyAlreadyDurableLocked k entries).
Proof. unfold completionApplyAlreadyDurableLocked. quiet. Qed.
Lemma regular_completionApplyAlreadyDurableLocked entries : regular (completionApplyAlreadyDurableLocked k entries).
Proof. unfold completionApplyAlreadyDurableLocked. regular. Qed.
Hint Resolve regular_completionApplyAlreadyDurableLocked : regular.

Lemma finalizeCompletionOccurrence_ok recorded_ nextStep goal continued succeeded :
  region_ok c (finalizeCompletionOccurrence e k recorded_ nextStep goal continued succeeded) (fun _ _ => True) False.
Proof.
  apply region_sure; [|unfold finalizeCompletionOccurrence; cbv zeta; regular]. intros w0 Hi. pose proof (invariant_lively c w0 Hi) as Hl.
  assert (forall cause, sure w0 (failure ← completionPersistenceFailureLocked e k cause; mret (completion_failed failure))) as Hfail.
  { intros cause. apply sure_bind; [by apply sure_completionPersistenceFailureLocked|intros f; apply sure_ret]. }
  unfold finalizeCompletionOccurrence. apply sure_stopped; [done| |intros Hk].
  { apply sure_bind; [apply sure_catch, quiet_settleCompletionAbortLocked|intros out; apply sure_ret]. }
  apply sure_get_run; [done|intros a]. apply sure_bind; [apply sure_catch, quiet_viewLocked|intros [s|err]]; [|apply sure_ret].
  destruct (pendingByDelivery _ _); [|apply sure_aborted]. cbv zeta. match goal with |- sure _ (match ?x with _ => _ end) => destruct x as [err|] end.
  - destruct (errors_Is _ _); [apply sure_aborted|]. apply sure_bind; [apply sure_catch, quiet_settleCompletionAbortLocked|intros out; apply sure_ret].
  - destruct (completion_applications _ _ _ _) as [cs|err] eqn:Ecs; [|apply Hfail]. apply quiet_completion_applications in Ecs.
    destruct cs as [|ch cs]; [apply sure_ret|]. apply sure_bind; [by apply sure_catch, quiet_commitLocked|intros [r|err]]; [apply sure_ret|].
    destruct (if continued then None else goal).
    + apply sure_bind; [apply sure_retryCompletionApplyAfterGoalLocked|intros f; apply sure_ret].
    + apply sure_bind; [apply sure_catch, quiet_completionApplyAlreadyDurableLocked|intros [[]|err']]; [apply sure_ret|apply Hfail..].
Qed.

(** ** The programs of the completion gates *)
Notation completions := (prog CompletionGateResult).

(** The entries and views from [i] on. *)
Definition chain_ok w (entries : list ExtensionJournalEntry) (views : list CompletionView) (i : nat) (gates : list ExtensionDescriptor) : Prop :=
  forall n d, gates !! n = Some d -> exists x v, entries !! (i + n) = Some x /\ views !! (i + n) = Some v /\
    xe_InvocationID x = cpv_InvocationID v /\ (xe_Status x = InvocationPending -> begun w x).
Lemma chain_ok_grows w w' entries views i gates : chain_ok w entries views i gates -> grows w w' -> chain_ok w' entries views i gates.
Proof.
  intros H Hw n d Hd. destruct (H n d Hd) as (x&v&Hx&Hv&Hid&Hb). exists x, v. split_and!; [done..|]. intros Hp. eapply begun_grows; [by apply Hb|done].
Qed.
Lemma chain_ok_tail w entries views i d gates : chain_ok w entries views i (d :: gates) -> chain_ok w entries views (S i) gates.
Proof. intros H n d' Hd. destruct (H (S n) d' Hd) as (x&v&Hx&Hv&Hp). exists x, v. by rewrite <-Hx, <-Hv, Nat.add_succ_r. Qed.
Lemma chain_ok_insert w entries views i gates j x y :
  chain_ok w entries views i gates -> entries !! j = Some y -> xe_identity x = xe_identity y -> (xe_Status x = InvocationPending -> begun w x) ->
  chain_ok w (<[j := x]> entries) views i gates.
Proof.
  intros H Hj Hid Hx n d Hd. destruct (H n d Hd) as (z&v&Hz&Hv&Hzv&Hb). destruct (decide (j = i + n)) as [->|Hne].
  - exists x, v. split; [apply list_lookup_insert_eq; by eapply lookup_lt_Some|]. split; [done|]. rewrite Hz in Hj. injection Hj as ->.
    apply identity_fields in Hid as (->&_). by split.
  - exists z, v. by rewrite list_lookup_insert_ne.
Qed.

Lemma definition_matches w x d v :
  definition_mismatch x d v = None -> begun w x -> xe_InvocationID x = cpv_InvocationID v -> recorded w d (CompletionGateView v).
Proof.
  unfold definition_mismatch. destruct (FingerprintView _) as [f|] eqn:Ef; [|done]. destruct (_ || _) eqn:E; [done|]. intros _ Hb Hid.
  bool_simpl. by exists x, f.
Qed.
Lemma completion_terminal_spec x at_ outcome terminal : completion_terminal x at_ outcome = Some terminal ->
  xe_identity terminal = xe_identity x /\ (forall r, outcome = inr r -> xe_Status terminal = InvocationSucceeded).
Proof.
  unfold completion_terminal. destruct outcome as [[[[status code] reason] cause]|r]; [by intros [= <-]|]. cbv zeta. destruct (cgr_Context r); [by intros [= <-]|].
  destruct (FingerprintTypedInput _); [|done]. by intros [= <-].
Qed.

Definition chain_post (views : list CompletionView) (i : nat) (gates : list ExtensionDescriptor) (out : completion_return + completion_state) w : Prop :=
  match out with inl _ => True | inr s => chain_ok w (cs_entries s) views i gates end.
Lemma concluding {A} w (p : completions A) (f : A -> completion_return) views i gates :
  runs c w p -> safe c w (a ← p; mret (inl (f a))) (chain_post views i gates).
Proof. intros Hp. eapply safe_bind; [exact Hp|]. intros a w1 _ _. by apply safe_ret. Qed.

Lemma runs_completionPersistenceFailure w cause : runs c w (completionPersistenceFailure e k cause).
Proof.
  unfold completionPersistenceFailure. apply runs_bind; [|intros f w1 _; apply runs_ret]. apply (safe_read c w _ (fun _ _ => True)); [|done].
  apply region_sure; [|auto with regular]. intros w0 Hi. apply sure_completionPersistenceFailureLocked. by eapply invariant_lively.
Qed.
Lemma runs_settle {B} w (m : M B) : (forall w0, invariant c w0 -> quiet w0 m) -> regular m -> runs c w (region m : completions (B + error)).
Proof. intros Hq Hr. by eapply runs_region, region_regular. Qed.
Lemma runs_completionFailure w succeeded failed remaining code reason cause : runs c w (completionFailure e k succeeded failed remaining code reason cause).
Proof.
  unfold completionFailure. apply runs_bind.
  - case_bool_decide; [|apply runs_ret]. apply runs_bind; [apply runs_clock|intros at_ w1 _]. cbv zeta.
    apply runs_bind; [eapply runs_region, commitCompletionEntries_ok|intros out w2 _]. apply runs_ret.
  - intros [failed' causes] w1 _. apply runs_bind; [apply runs_settle; auto with quiet regular|intros out w2 _]. apply runs_ret.
Qed.
Lemma safe_completion_commit w op entries :
  safe c w (region (commitCompletionEntries e k op entries) : completions (unit + error))
    (fun out w' => match out with inl _ => pending_begun w' entries | inr _ => True end).
Proof. eapply safe_region; [apply commitCompletionEntries_ok|]. intros u w1 w2. apply pending_begun_grows. Qed.

Section Loop.
Variables (recorded_ : DecisionRecord -> option error) (goal : option DecisionRecord) (nextStep : string).

Lemma runs_finalize_completion w g s : runs c w (finalize_completion e k recorded_ g nextStep s).
Proof. apply (safe_read c w _ (fun _ _ => True)); [|done]. apply finalizeCompletionOccurrence_ok. Qed.

(** The outcome of a gate is committed with the start of the next one. *)
Lemma safe_completion_gate w s i d x views v gates :
  chain_ok w (cs_entries s) views i (d :: gates) -> cs_entries s !! i = Some x -> begun w x -> xe_InvocationID x = cpv_InvocationID v ->
  safe c w (completion_gate e k recorded_ goal nextStep s i d x v) (chain_post views (S i) gates).
Proof.
  intros Hs Hi Hb Hid. unfold completion_gate. destruct (definition_mismatch x d v) as [cause|] eqn:Em; [by apply concluding, runs_completionFailure|].
  eapply safe_bind; [by apply safe_invoke; eapply definition_matches|]. intros answer w1 H1 _. cbv zeta.
  eapply safe_bind; [apply safe_clock|]. intros at_ w2 H2 _. destruct (completion_terminal _ _ _) as [terminal|] eqn:Et; [|by apply safe_ret].
  apply completion_terminal_spec in Et as [Htid Htst]. assert (grows w w2) as Hw2 by (by etrans). clear H1 H2. apply (chain_ok_grows _ w2) in Hs; [|done].
  destruct (completion_outcome v answer) as [[[[status code] reason] cause]|result] eqn:Eo.
  - eapply safe_bind; [by apply safe_ret with (P := fun _ _ => True)|]. intros next w3 _ _. eapply safe_bind; [apply safe_completion_commit|].
    intros [[]|err] w4 _ _; [|by apply concluding, runs_completionPersistenceFailure].
    apply concluding, runs_settle; auto with quiet regular.
  - eapply safe_bind with (P := fun next _ => match next with
      | Some n => exists y, cs_entries s !! S i = Some y /\ xe_identity n = xe_identity y
      | None => True end).
    { cbn [cs_entries]. destruct (cs_entries s !! S i) as [y|]; [|by apply safe_ret]. eapply safe_bind; [apply safe_clock|]. intros at' w3 _ _.
      apply safe_ret. intros w4 _. by exists y. }
    intros next w3 H3 Hn. apply (chain_ok_grows _ w3) in Hs; [|done].
    assert (forall w4, grows w3 w4 -> pending_begun w4 (terminal :: option_list next) ->
      chain_ok w4 (<[i := terminal]> (match next with Some n => <[S i := n]> (cs_entries s) | None => cs_entries s end)) views (S i) gates) as Hok.
    { intros w4 H4 Hp. apply chain_ok_tail with (d := d). apply (chain_ok_grows _ w4) in Hs; [|done].
      assert (xe_Status terminal = InvocationPending -> begun w4 terminal) as Ht by (rewrite (Htst result eq_refl); done). destruct next as [n|].
      - destruct Hn as (y&Hy&Hny). apply chain_ok_insert with (y := x); [|by rewrite list_lookup_insert_ne by lia|done|done].
        apply chain_ok_insert with (y := y); [done|done|done|]. apply Forall_cons in Hp as [_ Hp]. simpl in Hp. by rewrite Forall_singleton in Hp.
      - by apply chain_ok_insert with (y := x). }
    assert (forall s', cs_entries s' = <[i := terminal]> (match next with Some n => <[S i := n]> (cs_entries s) | None => cs_entries s end) ->
      safe c w3 (out ← region (commitCompletionEntries e k "completion-gate-terminal" (terminal :: option_list next));
        match out with
        | inr err => stop ← completionPersistenceFailure e k err; mret (inl stop)
        | inl _ => mret (inr s')
        end) (chain_post views (S i) gates)) as Hcommit.
    { intros s' Hs'. eapply safe_bind; [apply safe_completion_commit|]. intros [[]|err] w4 H4 Hp; [|by apply concluding, runs_completionPersistenceFailure].
      apply safe_ret. intros w5 H5. simpl. rewrite Hs'. eapply chain_ok_grows; [by apply Hok|done]. }
    destruct next as [n|]; [by apply Hcommit|]. destruct goal; [by apply Hcommit|]. by apply concluding, runs_finalize_completion.
Qed.

Lemma safe_completion_entry w s i d x views v gates :
  chain_ok w (cs_entries s) views i (d :: gates) -> cs_entries s !! i = Some x -> xe_InvocationID x = cpv_InvocationID v ->
  safe c w (completion_entry e k recorded_ goal nextStep s i d x v) (chain_post views (S i) gates).
Proof.
  intros Hs Hi Hid. unfold completion_entry. cbv zeta. eapply safe_bind; [apply safe_field|]. intros canceled w1 H1 _.
  destruct (canceled : bool); [by apply concluding, runs_settle; auto with quiet regular|].
  eapply safe_bind with (P := fun _ _ => True).
  { apply runs_settle; [intros w0 Hi0|]; unfold completionSteerPending; [|regular]. apply quiet_bind; [eauto with quiet|intros ?]. quiet. }
  intros [[]|err] w2 H2 _; [by apply concluding, runs_settle; auto with quiet regular| |by apply safe_ret].
  assert (grows w w2) as Hw2 by (by etrans). clear H1 H2. apply (chain_ok_grows _ w2) in Hs; [|done].
  destruct (_ && _).
  { destruct (definition_mismatch x d v); [by apply concluding, runs_completionFailure|]. apply safe_ret. intros w3 H3. simpl.
    eapply chain_ok_grows; [by eapply chain_ok_tail|done]. }
  destruct (awaits_effect x).
  { eapply safe_bind with (P := fun _ _ => True); [apply runs_settle; auto with quiet regular|]. intros out w3 _ _.
    destruct (if empty _ then _ else _) as [code reason]. by apply safe_ret. }
  case_bool_decide as Hp.
  - eapply safe_bind; [apply safe_clock|]. intros at_ w3 H3 _. cbv zeta. eapply safe_bind; [apply safe_completion_commit|].
    intros [[]|err] w4 H4 Hb; [|by apply concluding, runs_completionPersistenceFailure]. unfold pending_begun in Hb. rewrite Forall_singleton in Hb.
    specialize (Hb eq_refl). apply safe_completion_gate; [|simpl; apply list_lookup_insert_eq; by eapply lookup_lt_Some|done|done]. simpl.
    apply chain_ok_insert with (y := x); [eapply chain_ok_grows; [exact Hs|by etrans]|done|done|done].
  - destruct (negb (bool_decide (xe_InvocationID x ∈ cs_pipelined s)) || _) eqn:E; [by apply concluding, runs_completionFailure|].
    apply orb_false_iff in E as [_ E%negb_false_iff%bool_decide_eq_true]. apply safe_completion_gate; [done|done| |done].
    destruct (Hs 0 d eq_refl) as (y&v'&Hy&_&_&Hb). rewrite Nat.add_0_r, Hi in Hy. injection Hy as <-. by apply Hb.
Qed.

Lemma safe_completion_loop views gates : forall w s i,
  chain_ok w (cs_entries s) views i gates -> runs c w (completion_loop e k recorded_ goal nextStep s views i gates).
Proof.
  induction gates as [|d gates IH]; intros w s i Hs; cbn [completion_loop]; [apply runs_finalize_completion|].
  destruct (Hs 0 d eq_refl) as (x&v&Hx&Hv&Hid&_). rewrite Nat.add_0_r in Hx, Hv. rewrite Hx, Hv.
  eapply safe_bind; [by apply (safe_completion_entry w s i d x views v gates)|]. intros [stop|s'] w1 _ Hp; [by apply safe_ret|]. by apply IH.
Qed.
End Loop.

(** What [prepareCompletionOccurrence] gives, and what is restored. *)
Definition completion_ok w (o : completionOccurrence) : Prop := chain_ok w (oc_entries o) (oc_views o) 0 (rc_completionGates c).
Lemma executeCompletionOccurrence_safe w recorded_ o :
  (forall o', o = Some o' -> completion_ok w o') -> runs c w (executeCompletionOccurrence c e k recorded_ o).
Proof. intros Ho. unfold executeCompletionOccurrence. destruct o as [o|]; [|apply runs_ret]. apply safe_completion_loop. by apply Ho. Qed.

(** *** Preparing and restoring *)
Lemma CompletionView_Validate_returns v : returns (CompletionView_Validate v).
Proof. unfold CompletionView_Validate, CompletionGoalCandidate_Validate. cbv zeta. returns. Qed.
Definition fresh_pair (d : ExtensionDescriptor) (p : CompletionView * ExtensionJournalEntry) : Prop :=
  xe_InvocationID p.2 = cpv_InvocationID p.1 /\ xe_Status p.2 = InvocationPrepared.
Lemma yields_prepare_completion a revision last nextStep followOns candidate at_ gates : forall journal,
  yields (prepare_completion c a revision last nextStep followOns candidate at_ journal gates) (Forall2 fresh_pair gates).
Proof.
  induction gates as [|d gates IH]; intros journal; cbn [prepare_completion]; [apply yields_ret; constructor|].
  apply yields_then. intros id. apply yields_then. intros r. cbv zeta. do 2 (apply yields_then; intros ?). eapply yields_bind; [apply IH|].
  intros rest Hrest. apply yields_ret. constructor; [|done]. unfold fresh_pair. by destruct candidate.
Qed.
Lemma prepareCompletionOccurrence_ok candidate :
  region_ok c (prepareCompletionOccurrence c e k candidate) (fun out w => match out with inr o => completion_ok w o | inl _ => True end) True.
Proof.
  assert (forall w0 entries, quiet w0 (settleCompletionPreparationLocked e k entries)) as Hsettle
    by (intros; unfold settleCompletionPreparationLocked; quiet).
  assert (forall w0 a revision last nextStep followOns candidate at_ gates journal,
    quiet w0 (prepare_completion c a revision last nextStep followOns candidate at_ journal gates)) as Hprep.
  { intros w0 a revision last nextStep followOns cand at_ gates. induction gates as [|d gates IH]; intros journal; cbn [prepare_completion]; [apply quiet_ret|].
    apply quiet_bind; [apply quiet_nextID|intros id]. apply quiet_self. intros r _. cbv zeta.
    apply quiet_bind; [apply quiet_lift, returns_map_err, CompletionView_Validate_returns|intros ?].
    apply quiet_bind; [apply quiet_fingerprint|intros f]. apply quiet_bind; [apply IH|intros rest]. apply quiet_ret. }
  intros w Hg. destruct (region_regular c (prepareCompletionOccurrence c e k candidate)) with (w := w) as [Hm Hk]; [..|done|].
  - intros w0 Hi. unfold prepareCompletionOccurrence. destruct (rc_completionGates c); [apply quiet_ret|].
    eapply quiet_value; [apply require_running_spec; by eapply invariant_lively|]. intros ? Ha. cbv beta in Ha.
    apply quiet_get_run; [by apply (invariant_lively c w0 Hi)|]. intros a' _. quiet.
  - unfold prepareCompletionOccurrence, settleCompletionPreparationLocked.
    assert (forall a revision last nextStep followOns candidate at_ gates journal,
      regular (prepare_completion c a revision last nextStep followOns candidate at_ journal gates)) as Hr.
    { intros a revision last nextStep followOns cand at_ gates. induction gates as [|d gates IH]; intros journal; cbn [prepare_completion]; regular. }
    regular.
  - split; [done|]. destruct (prepareCompletionOccurrence c e k candidate w) as [w' [out|err|msg]] eqn:E; [|done..]. split; [apply Hk|]. intros _.
    assert (yields (prepareCompletionOccurrence c e k candidate) (fun out => match out with inr o => forall w, completion_ok w o | inl _ => True end)) as Hy.
    { unfold prepareCompletionOccurrence. destruct (rc_completionGates c) eqn:Egates; [by apply yields_ret|]. rewrite <-Egates. do 3 (apply yields_then; intros ?).
      destruct (pendingByDelivery _ _); [|by apply yields_ret]. destruct (lastAssistantForRun _ _) as [last|]; [|apply yields_fail].
      apply yields_then. intros nextStep. cbv zeta. apply yields_then. intros at_. eapply yields_bind; [apply yields_prepare_completion|]. intros prepared Hp.
      apply yields_then. intros [commit|err]; [|apply yields_then; intros ?; apply yields_fail]. apply yields_then. intros ?. apply yields_ret.
      intros w0 n d Hd. rewrite Forall2_lookup in Hp. specialize (Hp n). rewrite Hd in Hp. destruct (prepared !! n) as [[v x]|] eqn:En; [|by inversion Hp].
      inversion Hp as [? ? [Hid Hst]|]; subst. exists x, v. simpl in *. rewrite !list_lookup_fmap, En. split_and!; [done|done|done|congruence]. }
    specialize (Hy w out). rewrite E in Hy. specialize (Hy eq_refl). by destruct out.
Qed.

Lemma restored_views (step : list CompletionView -> ExtensionJournalEntry * ExtensionDescriptor -> result (list CompletionView)) l : forall acc views,
  (forall views p views', step views p = Ok views' -> exists v, views' = views ++ [v] /\ cpv_InvocationID v = xe_InvocationID p.1) ->
  foldM step l acc = Ok views -> exists vs, views = acc ++ vs /\ Forall2 (fun p v => cpv_InvocationID v = xe_InvocationID p.1) l vs.
Proof.
  induction l as [|p l IH]; intros acc views Hstep H; simpl in H; [injection H as <-; exists []; rewrite app_nil_r; by split|].
  apply bind_Ok in H as (acc'&Hp&H). destruct (Hstep _ _ _ Hp) as (v&->&Hv). destruct (IH _ _ Hstep H) as (vs&->&Hvs).
  exists (v :: vs). rewrite <-app_assoc. split; [done|by constructor].
Qed.
Lemma restoreCompletionOccurrence_ok w r s a entries o :
  Forall (entry_ok w) entries -> restoreCompletionOccurrence c r s a entries = Ok o -> completion_ok w o.
Proof.
  intros Hok H. unfold restoreCompletionOccurrence in H. destruct entries as [|first entries]; [done|]. apply bind_Ok in H as (?&Hlen%reject_if_Ok&H).
  apply negb_false_iff, Nat.eqb_eq in Hlen. cbv zeta in H. destruct (findMessage _ _) as [last|]; [|done]. apply bind_Ok in H as (?&_&H).
  apply bind_Ok in H as (views&Hv&H). injection H as <-. apply restored_views in Hv as (vs&->&Hvs).
  - intros n d Hd. destruct (lookup_lt_is_Some_2 (first :: entries) n) as [y Hy]; [rewrite Hlen; by eapply lookup_lt_Some|].
    rewrite Forall2_lookup in Hvs. specialize (Hvs n). rewrite lookup_zip_with, Hy, Hd in Hvs. simpl in Hvs. inversion Hvs as [? v Hid Hvx|]; subst.
    exists y, v. simpl. split_and!; [done|done|done|]. rewrite Forall_forall in Hok. apply (Hok y). by eapply list_elem_of_lookup_2.
  - intros vs [y d] vs' Hs. apply bind_Ok in Hs as (?&_&Hs). destruct (FingerprintView _) as [f|]; [|done]. apply bind_Ok in Hs as (?&_&Hs).
    injection Hs as <-. eexists. by split.
Qed.
End Completion.
End GateFacts.
