(* ===== verification/RuntimeStepFacts.v ===== *)
(** * The steps of a run are safe

    The programs of a step keep what is good, invoke no hook whose invocation is
    not recorded in the store, and never panic, whatever happens to the runtime
    between their regions and whatever the other components answer. *)

From S2P Require Import ContextCompaction Goal EventHub.
From S2P Require Import Prelude GoStrings AgentTypes ModelContracts SessionTypes ExtensionJournal.
From S2P Require Import SessionValidate SessionHistory SessionApply SessionRecover SessionCreate SessionStore SessionManager HookViews ModelStream SessionSafety.
From S2P Require Import SessionInvariant SessionCommitFacts SessionRecoverFacts SessionStoreFacts.
From S2P Require Import ToolDispatcher LoopProtocol RuntimeState RuntimeCommands RuntimeRun RuntimeLifecycle RuntimeHooks RuntimeGates RuntimeSteps.
From S2P Require Import RuntimeFacts RuntimeInvariant RuntimePrograms RuntimeHookFacts RuntimeGateFacts.

Section StepFacts.
Context {J : JsonOps} {F : Fingerprints} {R : RequestFingerprint} {K : CursorCodec} {V : ViewFingerprints}.
Context (c : runtimeComponents) (sc : stepComponents) (rendered : text -> string).
Hypothesis limits : (rc_MaxModelAttemptsPerRun c < 2 ^ 63)%Z /\ (rc_MaxToolCallsPerRun c < 2 ^ 63)%Z.
Variables (e : environment) (k : nat).

Hint Resolve quiet_updates quiet_require_active quiet_require_running : quiet.
Hint Extern 2 (lively _) => (eapply invariant_lively; eassumption) : quiet.
Hint Resolve regular_require_active regular_require_running : regular.

(** ** Programs with rounds *)
Lemma runs_proceed {Q A B} w (p : prog Q (progress A)) (f : A -> prog Q (progress B)) :
  runs c w p -> (forall a w', grows w w' -> runs c w' (f a)) -> runs c w (proceed p f).
Proof. intros Hp Hf. apply runs_bind; [done|]. intros [a|err|] w' Hw; [by apply Hf|apply runs_ret..]. Qed.
Lemma runs_attempt {Q A} w (p : prog Q (A + error)) : runs c w p -> runs c w (attempt p).
Proof. intros Hp. apply runs_bind; [done|]. intros out w' _. apply runs_ret. Qed.
Lemma runs_ask {Q B} w (q : question B) : runs c w (ask q : prog Q B).
Proof. apply safe_ask. Qed.
Lemma runs_self {Q} w : runs c w (read self : prog Q runtimeInstance).
Proof. eapply runs_safe, safe_self. Qed.
Lemma runs_field {Q B} w i (f : activeRun -> B) d : runs c w (read (run_field i f d) : prog Q B).
Proof. eapply runs_safe, safe_field. Qed.
Hint Resolve runs_ret runs_ask runs_self runs_field runs_attempt : runs.
Hint Extern 1 (runs _ _ (read this_run)) => (apply runs_field) : runs.
Hint Extern 1 (runs _ _ (read (this_run _))) => (apply runs_field) : runs.
Hint Extern 1 (runs _ _ (checked _)) => (apply runs_ret) : runs.

(** ** The regions *)
Lemma quiet_run_ctx w0 : quiet w0 (run_ctx k).
Proof. unfold run_ctx, run_canceled, run_field. quiet. Qed.
Lemma regular_run_ctx : regular (run_ctx k).
Proof. unfold run_ctx, run_canceled, run_field. regular. Qed.
Hint Resolve quiet_run_ctx : quiet.
Hint Resolve regular_run_ctx : regular.

Lemma runs_quiet {Q B} w (m : M B) : (forall w0, invariant c w0 -> quiet w0 m) -> regular m -> runs c w (region m : prog Q (B + error)).
Proof. intros Hq Hr. eapply runs_region. by apply region_regular. Qed.
Lemma runs_keeps {Q B} w (m : M B) : keeps c m -> regular m -> runs c w (region m : prog Q (B + error)).
Proof. intros Hq Hr. eapply (runs_region c w m (fun _ _ => True)). apply (region_keeps c m (fun _ => True)); [done..|]. by intros ? ?. Qed.

Lemma runs_run_View {Q} w : runs c w (region (run_View k) : prog Q (Snapshot + error)).
Proof. apply runs_quiet; [intros w0 _|]; unfold run_View; [quiet|regular]. Qed.
Lemma runs_first_view {Q} w : runs c w (region (first_view k) : prog Q (Snapshot + error)).
Proof. apply runs_quiet; [intros w0 Hi|]; unfold first_view; [quiet|regular]. Qed.
Lemma runs_commit_from {Q} w snapshot op ch : quiet_change ch -> runs c w (region (commit_from e k snapshot op ch) : prog Q (option Snapshot + error)).
Proof.
  intros Hq. apply runs_quiet; [intros w0 Hi|]; unfold commit_from; [|regular].
  assert (quiet_changes [ch]) by (by apply quiet_cons, quiet_nil). quiet.
Qed.
Lemma quiet_SetContext v retain : quiet_change (SetContext_ v retain).
Proof. intros [[[? ?] ?] ?]; cbn; by rewrite !app_nil_r. Qed.
Lemma quiet_AppendContextContribution f : quiet_change (AppendContextContribution_ f).
Proof. intros [[[? ?] ?] ?]; cbn; by rewrite !app_nil_r. Qed.
Hint Resolve quiet_SetContext quiet_AppendContextContribution : quiet.
Lemma runs_signal {Q} w : runs c w (region (signalPrepared k) : prog Q (unit + error)).
Proof.
  apply runs_keeps; [|apply regular_signalPrepared]. intros w0 Hi. apply (kept_signalPrepared c k (kept c) w0). by apply invariant_kept.
Qed.
Lemma runs_budget {Q} w : runs c w (region (recordBudgetExceeded c e k) : prog Q (unit + error)).
Proof. apply runs_quiet; [intros w0 Hi|apply regular_recordBudgetExceeded]. apply quiet_recordBudgetExceeded. by eapply invariant_lively. Qed.
Lemma runs_followOn {Q} w proposals : runs c w (region (followOn e k proposals) : prog Q (continuation + error)).
Proof. apply runs_quiet; [intros w0 Hi|apply regular_followOn]. apply quiet_followOn. by eapply invariant_lively. Qed.
Lemma runs_commitCompletion {Q} w step messageID output :
  runs c w (region (commitCompletion c e k step messageID output) : prog Q (option (list ToolCall) + error)).
Proof. apply runs_keeps; [by apply keeps_commitCompletion|apply regular_commitCompletion]. Qed.
Lemma runs_finalizeGoal {Q} w recorded_ record :
  runs c w (region (finalizeGoalCompletionCandidate k recorded_ record) : prog Q (bool * bool + error)).
Proof. apply runs_quiet; [intros w0 Hi|]; unfold finalizeGoalCompletionCandidate; [quiet|regular]. Qed.
Lemma runs_settleRecovery {Q} w entries code : runs c w (region (settleCompletionRecoveryEntries e k entries code) : prog Q (unit + error)).
Proof. apply runs_quiet; [intros w0 Hi|]; unfold settleCompletionRecoveryEntries; [quiet|regular]. Qed.
Lemma runs_nextID {Q} w kind : runs c w (read (nextID kind) : prog Q string).
Proof.
  eapply runs_safe, (safe_read c w _ (fun _ _ => True)); [|done]. apply region_sure; [|apply regular_nextID].
  intros w0 _ w1 H1. pose proof (quiet_nextID w0 kind w1 H1) as H. by destruct (nextID kind w1) as [w' [?|?|?]] eqn:E.
Qed.
Hint Resolve runs_run_View runs_first_view runs_signal runs_budget runs_followOn runs_commitCompletion runs_finalizeGoal runs_settleRecovery runs_nextID
  runs_clock : runs.

Ltac to_runs := match goal with |- safe ?c ?w ?p _ => change (runs c w p) end.
(** Follow the structure of a program. *)
Ltac runs :=
  repeat match goal with
  | |- runs _ _ (_ ≫= _) => apply runs_bind; [|intros ? ? ?]
  | |- runs _ _ (proceed _ _) => apply runs_proceed; [|intros ? ? ?]
  | |- runs _ _ (match ?x with _ => _ end) => destruct x eqn:?
  | |- runs _ _ (let _ := _ in _) => cbv zeta
  | _ => solve [auto with runs]
  end.

(** ** Preparing a model request *)
Lemma runs_inspectModel {Q} w config : runs c w (inspectModel config : prog Q _).
Proof. unfold inspectModel. runs. Qed.
Lemma runs_counted {Q} w request : runs c w (counted request : prog Q _).
Proof. unfold counted. runs. Qed.
Hint Resolve runs_inspectModel runs_counted : runs.
Lemma runs_buildContextCandidate {Q} w step snapshot dynamic : runs c w (buildContextCandidate sc rendered k step snapshot dynamic : prog Q _).
Proof. unfold buildContextCandidate. runs. Qed.
Hint Resolve runs_buildContextCandidate : runs.
Lemma runs_contribute {Q} step source rounds : forall w snapshot dynamic, runs c w (contribute e k rounds step source snapshot dynamic : prog Q _).
Proof.
  induction rounds as [|rounds IH]; intros w snapshot dynamic; cbn [contribute]; [apply runs_ret|]. runs.
  apply runs_attempt, runs_commit_from. auto with quiet.
Qed.
Hint Resolve runs_contribute : runs.
Lemma runs_contributions {Q} rounds step sources : forall w snapshot dynamic, runs c w (contributions e k rounds step sources snapshot dynamic : prog Q _).
Proof. induction sources as [|source sources IH]; intros w snapshot dynamic; cbn [contributions]; runs. Qed.
Hint Resolve runs_contributions : runs.
Lemma runs_persistContextContributions {Q} w rounds step snapshot : runs c w (persistContextContributions sc e k rounds step snapshot : prog Q _).
Proof. unfold persistContextContributions. runs. Qed.
Hint Resolve runs_persistContextContributions : runs.
Lemma runs_publish_request {Q} step rounds : forall w snapshot dynamic, runs c w (publish_request sc rendered e k rounds step snapshot dynamic : prog Q _).
Proof.
  induction rounds as [|rounds IH]; intros w snapshot dynamic; cbn [publish_request]; [apply runs_ret|]. runs.
  apply runs_attempt, runs_commit_from. auto with quiet.
Qed.
Hint Resolve runs_publish_request : runs.
Lemma runs_prepareModelRequest {Q} w rounds step : runs c w (prepareModelRequest sc rendered e k rounds step : prog Q _).
Proof. unfold prepareModelRequest. runs. Qed.
Hint Resolve runs_prepareModelRequest : runs.

(** ** What a prepared request is *)

(** A request that the components and the counter made from valid inputs, of
    [tokens] tokens: it is within the limits. *)
Record candidate_ok (sessionID step : string) (snapshot : Snapshot) (request : ModelRequest) (tokens : Z) : Prop := {
  cd_inputs : exists w a inputs capabilities,
    a = default no_run (ri_runs (w_rt w) !! k) /\
    validateDynamicInputs sessionID inputs = Ok tt /\ validateModelContinuations (sn_History snapshot) inputs (ar_id a) = Ok tt /\
    ExecutionCapabilities_Validate capabilities = Ok tt /\ (sc_definitions sc = [] \/ cap_ToolCalling (ec_Media capabilities) = true) /\
    request = assembleModelRequest sc sessionID a step (projectUnsupportedAttachments rendered inputs (ec_Media capabilities)) /\
    (tokens <= ec_ContextWindowTokens capabilities)%Z;
  cd_tokens : (0 <= tokens)%Z /\ ((0 < sc_HardTokenLimit sc)%Z -> (tokens <= sc_HardTokenLimit sc)%Z);
}.
(** What is true of the value, when there is one. *)
Definition whenever {A} (P : A -> world -> Prop) (out : progress A) (w : world) : Prop := forall a, out = Finished a -> P a w.
Lemma safe_proceed {Q A B} w (p : prog Q (progress A)) (f : A -> prog Q (progress B)) P P' :
  safe c w p (whenever P) -> (forall a w', grows w w' -> P a w' -> safe c w' (f a) (whenever P')) -> safe c w (proceed p f) (whenever P').
Proof. intros Hp Hf. eapply safe_bind; [exact Hp|]. intros [a|err|] w' Hw Ha; [by apply Hf; [|apply Ha]|by apply safe_ret..]. Qed.
Lemma safe_finished {Q A} w (a : A) P : (forall w', grows w w' -> P a w') -> safe c w (mret (Finished a) : prog Q (progress A)) (whenever P).
Proof. intros H. apply safe_ret. intros w' Hw a' [= <-]. by apply H. Qed.
Lemma safe_failed {Q A} w err P : safe c w (mret (Failed err) : prog Q (progress A)) (whenever P).
Proof. by apply safe_ret. Qed.
Lemma safe_attempt {Q A} w (p : prog Q (A + error)) (P : A -> world -> Prop) :
  safe c w p (fun out w' => match out with inl a => P a w' | inr _ => True end) -> stable P -> safe c w (attempt p) (whenever P).
Proof. intros Hp HP. eapply safe_bind; [exact Hp|]. intros [a|err] w' Hw Ha; [apply safe_finished; by intros; eapply HP|apply safe_failed]. Qed.
Lemma safe_checked {Q} w r : safe c w (checked r : prog Q _) (whenever (fun _ _ => r = Ok tt)).
Proof. apply safe_ret. intros w' _ a. by destruct r as [[]|err|msg]. Qed.
Lemma safe_question {Q B} w (q : question (B + error)) : safe c w (attempt (ask q) : prog Q (progress B)) (whenever (fun _ _ => True)).
Proof. apply safe_attempt; [|done]. eapply safe_weaken; [|apply safe_ask]. by intros []. Qed.
Lemma safe_counted {Q} w request : safe c w (counted request : prog Q _) (whenever (fun tokens _ => 0 <= tokens)%Z).
Proof.
  unfold counted. eapply safe_proceed; [apply safe_question|]. intros tokens w' _ _. destruct (Z.ltb_spec tokens 0); [apply safe_failed|by apply safe_finished].
Qed.
Lemma safe_inspectModel {Q} w config : safe c w (inspectModel config : prog Q _) (whenever (fun x _ => ExecutionCapabilities_Validate x = Ok tt)).
Proof.
  unfold inspectModel. eapply safe_bind; [apply safe_ask|]. intros out w' _ _. unfold inspected. destruct out as [x|err]; [|apply safe_failed].
  destruct (ExecutionCapabilities_Validate x) as [[]|err|msg] eqn:E; [|apply safe_failed..].
  destruct (negb _); [apply safe_failed|]. match goal with |- context [if ?b then _ else _] => destruct b; [apply safe_failed|] end. by apply safe_finished.
Qed.
Lemma safe_this_run {Q} w :
  safe c w (read (this_run k) : prog Q activeRun) (fun a _ => exists w0, a = default no_run (ri_runs (w_rt w0) !! k)).
Proof.
  apply safe_read; [|by intros ? ? ?]. eapply (region_value _ _ (fun w => default no_run (ri_runs (w_rt w) !! k))); [|intros w0 _; by exists w0].
  intros w0. unfold this_run, run_field, gets. by destruct (_ !! k).
Qed.

Lemma safe_buildContextCandidate {Q} w step snapshot dynamic :
  safe c w (buildContextCandidate sc rendered k step snapshot dynamic : prog Q _)
    (whenever (fun '(request, tokens) w' => candidate_ok (ri_id (w_rt w')) step snapshot request tokens)).
Proof.
  unfold buildContextCandidate. eapply safe_bind; [apply safe_self|]. intros r w1 _ Hr. cbv beta in Hr.
  eapply safe_bind; [apply safe_this_run|]. intros a w2 H2 [w0 Ha]. cbv zeta.
  assert (forall w', grows w2 w' -> ri_id (w_rt w') = ri_id r) as Hid.
  { intros w' [Hg _]. destruct H2 as [Hg2 _]. unfold rt_identity in *. congruence. }
  eapply safe_proceed; [apply safe_inspectModel|]. intros x w3 H3 Hx. cbv beta in Hx.
  destruct (_ && _) eqn:Etools; [apply safe_failed|].
  assert (sc_definitions sc = [] \/ cap_ToolCalling (ec_Media x) = true) as Htools.
  { destruct (sc_definitions sc); [by left|]. right. simpl in Etools. by apply negb_false_iff. }
  assert (forall w' inputs tokens, grows w3 w' -> validated (ri_id r) a (sn_History snapshot) inputs = Ok tt -> (0 <= tokens)%Z ->
    (tokens <= (if Z.ltb 0 (sc_HardTokenLimit sc) && Z.ltb (sc_HardTokenLimit sc) (ec_ContextWindowTokens x)
      then sc_HardTokenLimit sc else ec_ContextWindowTokens x))%Z ->
    candidate_ok (ri_id (w_rt w')) step snapshot (assembleModelRequest sc (ri_id r) a step (projectUnsupportedAttachments rendered inputs (ec_Media x))) tokens) as Hgo.
  { intros w' inputs tokens Hw' Hv Hpos Hlim. rewrite (Hid w') by (by etrans). apply bind_Ok in Hv as ([]&Hv1&Hv2).
    destruct (Z.ltb_spec 0 (sc_HardTokenLimit sc)), (Z.ltb_spec (sc_HardTokenLimit sc) (ec_ContextWindowTokens x)); simpl in Hlim;
      (split; [|split; [done|lia]]); exists w0, a, inputs, x; split_and!; try done; lia. }
  set (limit := if Z.ltb 0 (sc_HardTokenLimit sc) && _ then _ else _) in *.
  eapply safe_proceed; [apply safe_checked|]. intros ? w4 H4 Hv; cbv beta in Hv. eapply safe_proceed; [apply safe_checked|]. intros ? w5 H5 ?.
  eapply safe_proceed; [apply safe_counted|]. intros tokens w6 H6 Ht. cbv beta in Ht. destruct (Z.leb_spec tokens limit).
  { apply safe_finished. intros w' Hw'. apply Hgo; [|done..]. by do 3 (etrans; [eassumption|]). }
  destruct (negb (sc_compactor sc)); [apply safe_failed|]. eapply safe_proceed; [apply safe_question|]. intros compacted w7 H7 _.
  destruct (negb (Z.eqb _ _)); [apply safe_failed|]. eapply safe_proceed; [apply safe_checked|]. intros ? w8 H8 Hv'; cbv beta in Hv'.
  eapply safe_proceed; [apply safe_counted|]. intros tokens' w9 H9 Ht'. cbv beta in Ht'.
  destruct (Z.ltb_spec limit tokens'); [apply safe_failed|]. apply safe_finished. intros w' Hw'. apply Hgo; [|done..].
  by do 6 (etrans; [eassumption|]).
Qed.

(** A request that was made from the revision at which it was committed, as the
    context of the Session. *)
Definition request_committed (sessionID step : string) (request : ModelRequest) : Prop :=
  exists w1 w2 before after_ snapshot tokens,
    candidate_ok sessionID step snapshot request tokens /\
    stored w1 = Some before /\ sn_Revision (ag_snapshot before) = sn_Revision snapshot /\
    stored w2 = Some after_ /\ sn_Context (ag_snapshot after_) = context_view snapshot request tokens /\
    (exists ctx commit, commitLocked e ctx (sn_Revision snapshot) "context" [SetContext_ (context_view snapshot request tokens) (sc_retainAll sc)] w1 = (w2, Ok commit)).

Lemma set_context_applied clock s q s' v retain :
  applyChanges clock s q = Ok s' -> cr_Changes q = [SetContext_ v retain] -> sn_Context s' = v.
Proof.
  intros H Hq. unfold applyChanges in H. rewrite Hq in H. do 3 (apply bind_Ok in H as (?&_&H)). apply bind_Ok in H as (s1&Hf&H).
  do 2 (apply bind_Ok in H as (?&_&H)). injection H as <-. simpl in Hf. apply bind_Ok in Hf as (s2&Hc&[= <-]). unfold apply_change in Hc. cbn in Hc.
  unfold apply_SetContext in Hc. repeat (apply bind_Ok in Hc as (?&_&Hc)). by injection Hc as <-.
Qed.
Lemma publish_context_ok sessionID step snapshot request tokens :
  candidate_ok sessionID step snapshot request tokens ->
  region_ok c (publish_context sc e k snapshot request tokens) (fun out _ => out = None -> request_committed sessionID step request) True.
Proof.
  intros Hok. apply region_triple.
  - intros w0 Hi. set (view := context_view snapshot request tokens). unfold publish_context, commit_from.
    eapply triple_bind; [apply quiet_require_running; by eapply invariant_lively|]. intros ?.
    eapply triple_bind; [apply quiet_run_ctx|]. intros ctx. eapply triple_bind; [apply quiet_viewLocked|]. intros latest.
    destruct (negb _); [by apply triple_ret|]. intros w Hw. unfold mbind, M_bind. fold view.
    pose proof (quiet_commitLocked w0 e ctx (sn_Revision snapshot) "context" [SetContext_ view (sc_retainAll sc)]) as Hq.
    specialize (Hq ltac:(apply quiet_cons; [apply quiet_SetContext|apply quiet_nil]) w Hw). unfold commitLocked in *.
    pose proof (commitLockedAs_applied w0 e ctx (sn_Revision snapshot) "context" no_actor [SetContext_ view (sc_retainAll sc)] w Hw) as Ha.
    destruct (commitLockedAs _ _ _ _ _ _ w) as [w' [r|err|msg]] eqn:Ec; [|done|done]. split; [done|]. intros Hb _.
    destruct (Ha Hb) as (a0&clock&q&s'&revision&Hst&Hrev&Hch&Happ&Hst'). destruct (stored w') as [a'|] eqn:Ea'; [|done]. injection Hst' as Hsn.
    exists w, w', a0, a', snapshot, tokens. split_and!; [done..| |by exists ctx, r]. rewrite Hsn. simpl. by eapply set_context_applied.
  - unfold publish_context, commit_from. regular.
Qed.
Lemma safe_publish_request {Q} step rounds : forall w snapshot dynamic,
  safe c w (publish_request sc rendered e k rounds step snapshot dynamic : prog Q _)
    (whenever (fun request w' => request_committed (ri_id (w_rt w')) step request)).
Proof.
  induction rounds as [|rounds IH]; intros w snapshot dynamic; cbn [publish_request]; [by apply safe_ret|].
  eapply safe_proceed; [apply safe_buildContextCandidate|]. intros [request tokens] w1 H1 Hok.
  eapply safe_proceed; [apply (safe_attempt _ _ (fun out _ => out = None -> request_committed (ri_id (w_rt w1)) step request)); [|by intros ? ? ?]|].
  { eapply safe_weaken; [|apply safe_region; [apply (publish_context_ok _ _ _ _ _ Hok)|by intros ? ? ?]]. by intros [out|err]. }
  intros [latest|] w2 H2 Hc; [apply IH|]. apply safe_finished. intros w' Hw'. assert (grows w1 w') as [Hid _] by (by etrans).
  replace (ri_id (w_rt w')) with (ri_id (w_rt w1)) by (unfold rt_identity in Hid; congruence). by apply Hc.
Qed.


(** ** A completed run *)
Lemma runs_evaluateGoalCompletion w snapshot : runs c w (evaluateGoalCompletion sc e k snapshot).
Proof. unfold evaluateGoalCompletion, evaluate_goal, record_decision. runs. Qed.
Lemma runs_hook_proposals view n : forall w i, runs c w (hook_proposals n i view).
Proof. induction n as [|n IH]; intros w i; cbn [hook_proposals]; runs. Qed.
Lemma runs_follow_on w proposals : runs c w (follow_on e k proposals).
Proof. unfold follow_on. runs. Qed.
Hint Resolve runs_evaluateGoalCompletion runs_hook_proposals runs_follow_on : runs.
Lemma runs_gates_decide w candidate : runs c w (gates_decide c e k candidate).
Proof.
  unfold gates_decide. eapply safe_bind; [apply safe_region; [apply prepareCompletionOccurrence_ok|]|].
  - intros [|o] w1 w2 H Hw; [done|]. by eapply chain_ok_grows.
  - intros [[|o]|err] w' Hw Ho; to_runs; [runs| |runs]. apply runs_bind; [apply runs_ask|]. intros recorded_ w1 H1. apply runs_bind; [|intros ? ? ?; runs].
    apply executeCompletionOccurrence_safe. intros o' [= <-]. by eapply chain_ok_grows.
Qed.
Hint Resolve runs_gates_decide : runs.
Lemma runs_continueAfterCompletionOnce w : runs c w (continueAfterCompletionOnce c sc e k).
Proof. unfold continueAfterCompletionOnce. runs. Qed.
Hint Resolve runs_continueAfterCompletionOnce : runs.
Lemma continueAfterCompletion_safe rounds : forall w, runs c w (continueAfterCompletion c sc e k rounds).
Proof. induction rounds as [|rounds IH]; intros w; cbn [continueAfterCompletion]; runs. Qed.
Hint Resolve continueAfterCompletion_safe : runs.

(** ** Requesting the model *)
Lemma Accept_returns s event : returns (Accept s event).
Proof.
  unfold Accept, ModelEvent_Validate, accept_kind. apply returns_bind; [apply returns_reject|intros _ _].
  apply returns_bind; [apply returns_map_err; destruct (me_Kind event); returns|intros _ _]. do 2 (apply returns_bind; [apply returns_reject|intros _ _]).
  cbv zeta. destruct (me_Kind event); returns.
Qed.
Lemma Accept_output s event s' : Accept s event = Ok s' -> me_Kind event = EventComplete -> is_Some (me_Output event).
Proof.
  intros H Hk. unfold Accept in H. apply bind_Ok in H as (?&_&H). apply bind_Ok in H as (?&Hv%map_err_Ok&_). unfold ModelEvent_Validate in Hv. rewrite Hk in Hv.
  apply reject_if_Ok in Hv. destruct (me_Output event); [by eexists|]. by rewrite orb_true_r in Hv.
Qed.
Lemma runs_budget_step w : runs c w (budget_step c rendered e k).
Proof. unfold budget_step. runs. Qed.
Hint Resolve runs_budget_step : runs.
Lemma runs_execution_failed w cancels err : runs c w (execution_failed c rendered e k cancels err).
Proof. unfold execution_failed. runs. Qed.
Lemma runs_complete_step w rounds step messageID output : runs c w (complete_step c sc rendered e k rounds step messageID output).
Proof. unfold complete_step. runs. Qed.
Hint Resolve runs_execution_failed runs_complete_step : runs.
Lemma runs_model_stream rounds step messageID closed events : forall w s published,
  runs c w (model_stream c sc rendered e k rounds step messageID s published events closed).
Proof.
  induction events as [|event events IH]; intros w s published; cbn [model_stream]; [runs|].
  destruct (Accept s event) as [s'|err|msg] eqn:Ea; [|runs|by destruct (Accept_returns s event msg)].
  destruct (me_Kind event) eqn:Ek; [runs|runs| |runs|runs]. destruct (Accept_output _ _ _ Ea Ek) as [output ->]. runs.
Qed.
Hint Resolve runs_model_stream : runs.
Lemma requestModel_safe w rounds step : runs c w (requestModel c sc rendered e k rounds step).
Proof. unfold requestModel, request_step. runs. Qed.

(** ** The results of tools *)
Lemma toolResults_safe w calls results : length results <= length calls -> runs c w (toolResults c e k calls results).
Proof.
  intros Hlen. unfold toolResults. eapply safe_bind; [apply (safe_region c w _ (fun out _ => match out with Some (_, os, _) => Forall occurrence_ok os | None => True end) True)|].
  - apply region_keeps; [|apply regular_commitToolResults|apply commitToolResults_occurrences]. apply quiet_keeps. intros w0 Hi.
    apply quiet_commitToolResults; [by eapply invariant_lively|done].
  - by intros [[[? ?] ?]|].
  - intros [[[[nextStep os] [|]]|]|err] w' _ Ho; to_runs; [..|runs|runs].
    + apply runs_bind; [apply runs_results_canceled|]. intros ? ? ?. runs.
    + apply runs_bind; [by apply evaluateToolResultHooks_safe|]. intros ? ? ?. runs.
Qed.

(** ** Resuming a completion *)
Lemma restored_completion_ok w s entries o :
  Forall (entry_ok w) entries -> restored_completion c k (w_rt w) s entries = inl o -> completion_ok c w o.
Proof.
  intros He. unfold restored_completion. cbv zeta. destruct (ri_runs (w_rt w) !! k) as [a|]; [|done].
  destruct (restoreCompletionOccurrence _ _ _ _ _) as [o'|err|msg] eqn:Er; [|done..]. intros [= <-]. by eapply restoreCompletionOccurrence_ok.
Qed.
Lemma runCompletionRecovery_safe w rounds o :
  (forall o', o = inl o' -> completion_ok c w o') -> runs c w (runCompletionRecovery c sc rendered e k rounds o).
Proof.
  intros Ho. unfold runCompletionRecovery. destruct o as [o|[entries g]]; [|runs]. apply runs_bind; [apply runs_ask|]. intros recorded_ w1 H1.
  apply runs_bind; [|intros ? ? ?; runs]. apply executeCompletionOccurrence_safe. intros o' [= <-]. eapply chain_ok_grows; [by apply Ho|done].
Qed.
End StepFacts.
