(* ===== verification/RuntimeProperties.v ===== *)
(** * A Session runtime under any interleaving

    What happens to a runtime: the actions, each one region under its mutex, and
    the programs, which take the mutex several times and call hooks and other
    components in between.  Any number of programs run at the same time, their
    regions and the actions follow each other in any order, and the theorems are
    about all of these runs. *)

From stdpp Require Import relations.
From S2P Require Import ContextCompaction Goal EventHub.
From S2P Require Import Prelude GoStrings AgentTypes ModelContracts SessionTypes ExtensionJournal.
From S2P Require Import SessionValidate SessionHistory SessionApply SessionRecover SessionCreate SessionStore SessionManager HookViews ModelStream.
From S2P Require Import SessionInvariant SessionRecoverFacts SessionStoreFacts SessionSafety SessionProperties.
From S2P Require Import ToolDispatcher LoopProtocol RuntimeState RuntimeCommands RuntimeRun RuntimeLifecycle RuntimeHooks RuntimeGates RuntimeSteps.
From S2P Require Import RuntimeFacts RuntimeInvariant RuntimePrograms RuntimeHookFacts RuntimeGateFacts RuntimeStepFacts.

(** ** Actions *)
Inductive action :=
  | Open (evaluate : nat -> SessionLifecycleView -> answer SessionLifecycleResult) (kind : OpenKind) | AbortOpen (cause : error)
  | Send (q : SendRequest) | Steer (q : SendRequest) | RunPending (q : ControlRequest)
  | EditQueued (q : EditQueuedRequest) | DeleteQueued (q : DeleteQueuedRequest) | ReclassifyQueued (q : ReclassifyQueuedRequest)
  | CancelRun (q : ControlRequest) | AwaitPrepared (ctx : context) (prefer_ctx : bool) (k : nat) | WhenIdle (sessionID : string) | ReadSession (ctx : context)
  | CloseSession (q : ControlRequest) | CloseRuntime | FinishClose (d : nat) (err : option error)
  | AdmitAttempt (k : nat) (step : string) (started : AttemptStart) | StartAttempt (k : nat) (step : string) (started : AttemptStart)
  | FinishAttempt (k : nat) (step : string) (finished : AttemptFinish) (observerErr : option error)
  | RunBudget (k : nat) | MarkExecuting (k : nat) (call : ToolCall)
  | FinishRun (k : nat) (outcome : stepOutcome) (termination : option RunTermination)
  | RunLifecycle (evaluate : nat -> SessionLifecycleView -> answer SessionLifecycleResult) (o : sessionLifecycleOccurrence)
  | OtherSession (call : SessionStoreFacts.call).

Definition forget {A} (m : M A) : M unit := m ;; mret tt.

(** ** Tasks

    The programs that a goroutine may start at any time: the capabilities of the
    loop of a run, and the submissions through the input gates.  [rounds] bounds
    the attempts of the loops that start again. *)
Inductive task :=
  | RequestModel (k rounds : nat) (step : string)
  | EvaluatePreflights (k : nat) (calls : list ToolCall)
  | CommitResults (k : nat) (calls : list ToolCall) (results : list ToolResult)
  | GatedSend (ctx : Z -> option error) (q : SendRequest) | GatedSteer (ctx : Z -> option error) (q : SendRequest)
  | GatedEdit (ctx : Z -> option error) (q : EditQueuedRequest).

(** A program that runs, with what is left of it. *)
Inductive thread : Type := | Thread {Q A : Type} (p : prog Q A).
Record pool := Pool { po_world : world; po_threads : list thread }.

(** One step of a program: its region, or any answer to its call. *)
Inductive advances : world -> thread -> world -> thread -> Prop :=
  | adv_value {Q A B} w w' (m : M B) (k : B + error -> prog Q A) b : m w = (w', Ok b) -> advances w (Thread (Region m k)) w' (Thread (k (inl b)))
  | adv_error {Q A B} w w' (m : M B) (k : B + error -> prog Q A) err : m w = (w', Err err) -> advances w (Thread (Region m k)) w' (Thread (k (inr err)))
  | adv_hook {Q A} w d v (k : answer Q -> prog Q A) a : advances w (Thread (Invoke d v k)) w (Thread (k a))
  | adv_answer {Q A B} w (q : question B) (k : B -> prog Q A) b : advances w (Thread (Ask q k)) w (Thread (k b)).

(** The program panics now. *)
Definition crashes (w : world) (t : thread) : Prop :=
  match t with
  | Thread (Crash _) => True
  | Thread (Region m _) => match (m w).2 with Panic _ => True | _ => False end
  | _ => False
  end.

Section Runtime.
Context {J : JsonOps} {F : Fingerprints} {R : RequestFingerprint} {K : CursorCodec} {V : ViewFingerprints}.
Context (c : runtimeComponents) (sc : stepComponents) (rendered : text -> string).
Context (ValidateArguments : InputSchema -> string -> bool) (dispatcher : toolDispatcher).

Definition perform (e : environment) (a : action) : M unit :=
  match a with
  | Open evaluate kind => forget (open c e evaluate kind)
  | AbortOpen cause => forget (abortOpen cause)
  | Send q => forget (send e q)
  | Steer q => forget (steer e q)
  | RunPending q => forget (pending e q)
  | EditQueued q => forget (editQueued e q)
  | DeleteQueued q => forget (deleteQueued e q)
  | ReclassifyQueued q => forget (reclassifyQueued e q)
  | CancelRun q => forget (cancel e q)
  | AwaitPrepared ctx prefer_ctx k => forget (await_prepared ctx prefer_ctx k)
  | WhenIdle sessionID => forget (idle sessionID)
  | ReadSession ctx => forget (viewLocked ctx)
  | CloseSession q => forget (beginClose c e q)
  | CloseRuntime => forget close
  | FinishClose d err => forget (finishClose d err)
  | AdmitAttempt k step started => forget (attempt_admitted c e k step started)
  | StartAttempt k step started => forget (attempt_started c e k step started)
  | FinishAttempt k step finished observerErr => forget (attempt_finished e k step finished observerErr)
  | RunBudget k => forget (runBudget c k)
  | MarkExecuting k call => forget (markToolExecuting e k call)
  | FinishRun k outcome termination => forget (finishRun e k outcome termination)
  | RunLifecycle evaluate o => forget (executeSessionLifecycle c e evaluate o)
  | OtherSession call => fun w => (World (invoke call (w_store w)) (w_rt w), Ok tt)
  end.

(** What the callers of the actions see to. *)
Definition admits (e : environment) (a : action) (w : world) : Prop :=
  match a with
  | AwaitPrepared _ _ k | RunBudget k => is_Some (ri_runs (w_rt w) !! k)
  | FinishRun _ _ _ => ready e w
  | OtherSession call => admitted call (w_store w) /\ st_sessions (invoke call (w_store w)) !! ri_id (w_rt w) = stored w
  | _ => True
  end.

(** One action, in the first 2^64 identities of the runtime. *)
Definition acts (w w' : world) : Prop :=
  exists e a, admits e a w /\ (perform e a w).1 = w' /\ (sequence w' < 2 ^ 64)%Z.

Definition thread_of (e : environment) (t : task) : thread :=
  match t with
  | RequestModel k rounds step => Thread (requestModel c sc rendered e k rounds step)
  | EvaluatePreflights k calls => Thread (evaluateToolPreflights c ValidateArguments dispatcher e k calls)
  | CommitResults k calls results => Thread (toolResults c e k calls results)
  | GatedSend ctx q => Thread (sendThroughInputGates c e ctx q)
  | GatedSteer ctx q => Thread (steerThroughInputGates c e ctx q)
  | GatedEdit ctx q => Thread (editThroughInputGates c e ctx q)
  end.
(** The dispatcher gives one result for each call. *)
Definition startable (t : task) : Prop := match t with CommitResults _ calls results => length results <= length calls | _ => True end.

(** What may happen: an action, which a [session.open] may follow with the
    goroutine that resumes a completion; the start of a program; a step of one. *)
Inductive pool_step : pool -> pool -> Prop :=
  | step_acts w w' ts : acts w w' -> pool_step (Pool w ts) (Pool w' ts)
  | step_resume e evaluate kind rounds w w' k s entries ts :
      open c e evaluate kind w = (w', Ok (ResumeCompletion k s entries)) -> (sequence w' < 2 ^ 64)%Z ->
      pool_step (Pool w ts) (Pool w' (ts ++ [Thread (runCompletionRecovery c sc rendered e k rounds (restored_completion c k (w_rt w') s entries))]))
  | step_start e t w ts : startable t -> pool_step (Pool w ts) (Pool w (ts ++ [thread_of e t]))
  | step_advances i t t' w w' ts :
      ts !! i = Some t -> advances w t w' t' -> (sequence w' < 2 ^ 64)%Z -> pool_step (Pool w ts) (Pool w' (<[i := t']> ts)).

(** A runtime that was just created.  The prefix of its identities is random:
    nothing stored mentions it.  A run to restore is within the limits. *)
Record created (w : world) : Prop := {
  cr_store : SessionStoreFacts.reachable (w_store w);
  cr_runtime : exists ctx s resolve prefix, newRuntimeInstance ctx (w_store w) s resolve (Some prefix) = Ok (w_rt w);
  cr_keys : forall a op n, stored w = Some a -> unused w n -> ag_idempotency a !! commit_key op (identity "commit" (ri_prefix (w_rt w)) n) = None;
  cr_runs : forall v n, stored_view w = Some v -> unused w n -> absent_run (run_identity w n) v;
  cr_limits : forall v, stored_view w = Some v -> within_limits c v.1.1.2 v;
}.

(** ** Every action keeps the invariant *)
Lemma keeps_forget {A} (m : M A) : keeps c m -> keeps c (forget m).
Proof. intros H w Hw. specialize (H w Hw). unfold forget, mbind, M_bind. by destruct (m w) as [w' [?|?|?]]. Qed.

Lemma forget_same {A} (m : M A) w : (m w).1 = w -> returns (m w).2 -> (forget m w).1 = w /\ returns (forget m w).2.
Proof. unfold forget, mbind, M_bind. destruct (m w) as [w' [?|?|?]]; simpl; [done|done|]. intros _ H. by edestruct H. Qed.
Lemma await_same ctx prefer_ctx w k :
  is_Some (ri_runs (w_rt w) !! k) -> (await_prepared ctx prefer_ctx k w).1 = w /\ returns (await_prepared ctx prefer_ctx k w).2.
Proof.
  intros [a Ha]. unfold await_prepared, get_run, mbind, M_bind. rewrite Ha. by destruct (ar_prepared a), (ctx_Err ctx), prefer_ctx.
Qed.
Lemma runBudget_same w k : is_Some (ri_runs (w_rt w) !! k) -> (runBudget c k w).1 = w /\ returns (runBudget c k w).2.
Proof. intros [a Ha]. unfold runBudget, get_run, mbind, M_bind. by rewrite Ha. Qed.
Lemma kept_same {A} (m : M A) w : invariant c w -> (m w).1 = w /\ returns (m w).2 -> match m w with (w', Panic _) => False | (w', _) => kept c w' end.
Proof. destruct (m w) as [w' [?|?|?]]; simpl; intros Hw [-> H]; [by apply invariant_kept..|by edestruct H]. Qed.

Lemma created_invariant w : created w -> invariant c w.
Proof.
  intros [Hst (ctx&s&resolve&prefix&Hnew) Hkeys Hruns Hlim]. unfold newRuntimeInstance in Hnew.
  apply bind_Ok in Hnew as (snapshot&Hload&Hnew). cbv zeta in Hnew. apply bind_Ok in Hnew as (?&_&Hnew). apply bind_Ok in Hnew as (?&_&Hnew).
  apply bind_Ok in Hnew as (?&_&Hnew). injection Hnew as Hr. apply Load_Ok in Hload as (a&Ha&_).
  assert (ri_id (w_rt w) = ms_id s) as Hid by (by rewrite <-Hr). assert (stored w = Some a) as Hstored by (unfold stored; by rewrite Hid).
  split.
  - split; [by apply store_reachable_wf|by eexists|exact Hkeys|unfold sequence; by rewrite <-Hr].
  - exists (view_of (ag_snapshot a)). assert (stored_view w = Some (view_of (ag_snapshot a))) as Hv by (unfold stored_view; by rewrite Hstored).
    split; [done|]. split; [unfold located; by rewrite <-Hr|]. split; [intros n; by apply Hruns|]. split; [by rewrite <-Hr|]. intros _. by apply Hlim.
  - rewrite <-Hr. split; simpl; [done|done|done|]. intros d Hd. by apply elem_of_nil in Hd.
Qed.

Lemma keeps_otherSession call w :
  invariant c w -> admitted call (w_store w) -> st_sessions (invoke call (w_store w)) !! ri_id (w_rt w) = stored w ->
  invariant c (World (invoke call (w_store w)) (w_rt w)).
Proof.
  intros Hw Hadm Hsame. apply (invariant_after c w); [done|]. destruct (in_sound _ _ Hw) as [S1 S2 S3 S4].
  destruct (step_evolves (w_store w) (invoke call (w_store w)) S1) as [Hwf _]; [by exists call|].
  split; [split|done| |done]; unfold stored_view, stored in *; simpl; [done|by rewrite Hsame| |done|by rewrite Hsame].
  unfold stored; simpl. rewrite Hsame. exact S3.
Qed.

Section Limits.
Hypothesis limits : (rc_MaxModelAttemptsPerRun c < 2 ^ 63)%Z /\ (rc_MaxToolCallsPerRun c < 2 ^ 63)%Z.

Lemma perform_kept e a w :
  invariant c w -> admits e a w -> match perform e a w with (w', Panic _) => False | (w', _) => kept c w' end.
Proof.
  intros Hw Hadm. pose proof (invariant_lively c w Hw) as Hlive.
  destruct a; simpl in Hadm |- *.
  all: try (by refine (keeps_forget _ _ w Hw);
    first [apply keeps_open|apply keeps_abortOpen|apply keeps_send|apply keeps_pending|apply keeps_cancel|apply keeps_beginClose|apply keeps_close
          |apply keeps_finishClose|by apply keeps_attempt_started|apply keeps_attempt_finished]).
  all: try (refine (keeps_forget _ _ w Hw); apply quiet_keeps; intros w0 H0; pose proof (invariant_lively c w0 H0) as Hl;
    first [apply quiet_steer|apply quiet_editQueued|apply quiet_deleteQueued|apply quiet_reclassifyQueued|apply quiet_viewLocked
          |by apply quiet_attempt_admitted|by apply quiet_markToolExecuting|apply quiet_executeSessionLifecycle]; fail).
  - apply kept_same; [done|]. apply forget_same; by apply await_same.
  - refine (keeps_forget _ _ w Hw). apply quiet_keeps. intros w0 _. apply quiet_self. intros r _. apply quiet_guard. intros _. apply quiet_ret.
  - apply kept_same; [done|]. apply forget_same; by apply runBudget_same.
  - pose proof (keeps_finishRun c e k outcome termination w (conj Hw Hadm)) as H. unfold forget, mbind, M_bind.
    by destruct (finishRun e k outcome termination w) as [w' [?|?|?]].
  - apply invariant_kept. by apply keeps_otherSession; destruct Hadm.
Qed.

(** ** Every action keeps the journal *)
Lemma moves_forget {A} (m : M A) w w0 : moves w0 (m w).1 -> moves w0 (forget m w).1.
Proof. unfold forget, mbind, M_bind. by destruct (m w) as [w' [?|?|?]]. Qed.
Lemma moves_otherSession call w :
  wf_store (w_store w) -> admitted call (w_store w) -> st_sessions (invoke call (w_store w)) !! ri_id (w_rt w) = stored w ->
  moves w (World (invoke call (w_store w)) (w_rt w)).
Proof.
  intros Hwf Hadm Hsame. destruct (step_evolves (w_store w) (invoke call (w_store w)) Hwf) as [Hwf' _]; [by exists call|].
  assert (grows w (World (invoke call (w_store w)) (w_rt w))) as Hg.
  { split; [done|]. unfold journal. change (stored (World (invoke call (w_store w)) (w_rt w))) with (st_sessions (invoke call (w_store w)) !! ri_id (w_rt w)).
    by rewrite Hsame. }
  split; [done|done|]. unfold recovered_ok. intros H. eapply Forall_impl; [exact H|]. intros a Ha. eapply entries_ok_grows; [exact Ha|exact Hg].
Qed.
Lemma perform_moves e a w : good c w -> admits e a w -> moves w (perform e a w).1.
Proof.
  intros Hg Hadm. pose proof (good_wf c w Hg) as Hwf.
  assert (forall A (m : M A), regular m -> moves w (forget m w).1) as Hm by (intros A m H; apply moves_forget, H, moves_refl, Hwf).
  destruct a; simpl in Hadm |- *.
  all: try (apply Hm; first
    [apply regular_open|apply regular_abortOpen|apply regular_send|apply regular_steer|apply regular_pending|apply regular_editQueued|apply regular_deleteQueued
    |apply regular_reclassifyQueued|apply regular_cancel|apply regular_viewLocked|apply regular_beginClose|apply regular_close|apply regular_finishClose
    |apply regular_attempt_admitted|apply regular_attempt_started|apply regular_attempt_finished|apply regular_runBudget|apply regular_markToolExecuting
    |apply regular_executeSessionLifecycle|solve [unfold await_prepared; regular]|solve [unfold idle; regular]]; fail).
  - by apply moves_forget, finishRun_moves.
  - by apply moves_otherSession; destruct Hadm.
Qed.

Lemma acts_good w w' : good c w -> acts w w' -> good c w' /\ grows w w'.
Proof.
  intros Hg (e&a&Hadm&<-&Hb). destruct (perform_moves e a w Hg Hadm) as [_ H1 H2]. split; [|done]. split; [|by apply H2, Hg].
  pose proof (perform_kept e a w (proj1 Hg) Hadm) as H. destruct (perform e a w) as [w' [?|?|?]]; [by apply H|by apply H|done].
Qed.
Lemma created_good w : created w -> good c w.
Proof.
  intros Hw. split; [by apply created_invariant|]. destruct Hw as [_ (ctx&s&resolve&prefix&Hnew) _ _ _]. unfold newRuntimeInstance in Hnew.
  apply bind_Ok in Hnew as (snapshot&_&Hnew). cbv zeta in Hnew. do 3 (apply bind_Ok in Hnew as (?&_&Hnew)). injection Hnew as Hr.
  unfold recovered_ok. rewrite <-Hr. by constructor.
Qed.

(** ** Every program is safe *)
Definition thread_safe (w : world) (t : thread) : Prop := match t with Thread p => runs c w p end.
Lemma thread_grows w w' t : thread_safe w t -> grows w w' -> thread_safe w' t.
Proof. destruct t as [Q A p]. intros H Hw. by eapply safe_grows. Qed.
Lemma threads_grow w w' ts : Forall (thread_safe w) ts -> grows w w' -> Forall (thread_safe w') ts.
Proof. intros H Hw. eapply Forall_impl; [exact H|]. intros t Ht. by eapply thread_grows. Qed.
Lemma thread_of_safe w e t : startable t -> thread_safe w (thread_of e t).
Proof.
  destruct t; simpl; intros H.
  - by apply requestModel_safe.
  - apply evaluateToolPreflights_safe.
  - by apply toolResults_safe.
  - apply sendThroughInputGates_safe.
  - apply steerThroughInputGates_safe.
  - apply editThroughInputGates_safe.
Qed.
Lemma advances_safe w t w' t' :
  advances w t w' t' -> good c w -> thread_safe w t -> (sequence w' < 2 ^ 64)%Z -> good c w' /\ grows w w' /\ thread_safe w' t'.
Proof.
  intros Hadv. destruct Hadv as [Q A B w w' m k b Hm|Q A B w w' m k err Hm|Q A w d' v k a|Q A B w q k b]; unfold thread_safe, runs; cbn [safe]; intros Hg Hs Hb.
  - specialize (Hs w (reflexivity w) Hg). rewrite Hm in Hs. by apply Hs.
  - specialize (Hs w (reflexivity w) Hg). rewrite Hm in Hs. by apply Hs.
  - destruct Hs as [_ Hs]. split; [done|]. split; [done|]. apply Hs.
  - split; [done|]. split; [done|]. apply Hs.
Qed.
Lemma thread_calm w t : good c w -> thread_safe w t -> ~ crashes w t.
Proof.
  destruct t as [Q A [a|msg|B m k|d' v k|B q k]]; unfold thread_safe, runs; cbn [safe crashes]; intros Hg Hs; [by intros []|done| |by intros []..].
  specialize (Hs w (reflexivity w) Hg). destruct (m w) as [w' [b|err|msg]]; [by intros []..|done].
Qed.

(** ** The invariant of a pool *)
Definition pool_good (p : pool) : Prop := good c (po_world p) /\ Forall (thread_safe (po_world p)) (po_threads p).
Lemma open_resumes e evaluate kind w w' o :
  good c w -> open c e evaluate kind w = (w', Ok o) -> (sequence w' < 2 ^ 64)%Z -> good c w' /\ grows w w' /\ resumable w' o.
Proof.
  intros Hg Ho Hb. destruct (regularly_open c w e evaluate kind w (moves_refl w (good_wf c w Hg))) as [[_ H1 H2] H3]. rewrite Ho in H1, H2, H3.
  split; [|split; [done|by apply H3]]. split; [|by apply H2, Hg]. pose proof (keeps_open c e evaluate kind w (proj1 Hg)) as H. rewrite Ho in H. by apply H.
Qed.
Lemma pool_step_good p p' : pool_good p -> pool_step p p' -> pool_good p'.
Proof.
  intros [Hg Hts] Hstep. destruct Hstep as [w w' ts Ha|e evaluate kind rounds w w' k s entries ts Ho Hb|e t w ts Ht|i t t' w w' ts Hi Ha Hb]; simpl in Hg, Hts.
  - destruct (acts_good w w' Hg Ha) as [H1 H2]. split; [done|]. by eapply threads_grow.
  - destruct (open_resumes e evaluate kind w w' _ Hg Ho Hb) as (H1&H2&H3). split; [done|]. apply Forall_app_2; [by eapply threads_grow|].
    constructor; [|done]. apply runCompletionRecovery_safe. intros o Hr. by eapply restored_completion_ok.
  - split; [done|]. apply Forall_app_2; [done|]. constructor; [|done]. by apply thread_of_safe.
  - pose proof (Forall_lookup_1 _ _ _ _ Hts Hi) as Ht. destruct (advances_safe w t w' t' Ha Hg Ht Hb) as (H1&H2&H3). split; [done|].
    apply Forall_insert; [by eapply threads_grow|done].
Qed.
Lemma rtc_pool_good p p' : pool_good p -> rtc pool_step p p' -> pool_good p'.
Proof. intros Hp H. revert Hp. induction H as [|p p1 p2 Hs _ IH]; intros Hp; [done|]. apply IH. by eapply pool_step_good. Qed.

End Limits.

(** ** What holds of every reachable world *)

(** The runtime and the aggregate it stands for. *)
Record consistent (w : world) (a : memoryAggregate) : Prop := {
  cn_aggregate : stored w = Some a /\ wf_snapshot (ri_id (w_rt w)) (ag_snapshot a);
  cn_state : let s := ag_snapshot a in
    match ri_state (w_rt w) with
    | runtimeRunning => exists k run, ri_active (w_rt w) = Some k /\ ri_runs (w_rt w) !! k = Some run /\
        sn_RunState s = RunRunning /\ sn_ActiveRunID s = ar_id run /\
        ar_usedTokens run = restored_tokens (ar_id run) (sn_History s) /\
        ar_modelAttempts run = restored_attempts (ar_id run) (sn_History s) /\
        ar_toolCalls run = restored_calls (ar_id run) (sn_History s)
    | runtimeIdle => ri_active (w_rt w) = None /\ sn_RunState s = RunIdle
    | _ => ri_active (w_rt w) = None
    end;
  cn_limits : forall run, run ∈ ri_runs (w_rt w) ->
    ((0 < rc_MaxModelAttemptsPerRun c)%Z ->
      (Z.of_nat (attempts_in (ar_id run) (attempts (sn_History (ag_snapshot a)))) <= rc_MaxModelAttemptsPerRun c)%Z) /\
    ((0 < rc_MaxToolCallsPerRun c)%Z ->
      (Z.of_nat (calls_in (ar_id run) (tool_calls (sn_History (ag_snapshot a)))) <= rc_MaxToolCallsPerRun c)%Z);
  cn_channels : ri_idleSignal (w_rt w) = bool_decide (ri_state (w_rt w) = runtimeRunning) /\
    ri_closeDone (w_rt w) = negb (bool_decide (ri_state (w_rt w) = runtimeClosed)) /\
    (ri_openDone (w_rt w) = true -> ri_state (w_rt w) = runtimeOpening);
}.

Lemma invariant_consistent w : invariant c w -> exists a, consistent w a.
Proof.
  intros [[S1 [a Ha] _ _] (v&Hv&Hl&_&Hr&_) [C1 C2 C3 _]]. exists a.
  assert (v = view_of (ag_snapshot a)) as -> by (unfold stored_view in Hv; rewrite Ha in Hv; by injection Hv as <-).
  split; [split; [done|]; by destruct (S1 _ _ Ha)| | |].
  - unfold located in Hl. cbv zeta. destruct (ri_state (w_rt w)); [done|done| |done].
    destruct Hl as (k&run&Hk&Hrun&_&H1&H2&H3&H4&H5). exists k, run. rewrite restored_tokens_sum, restored_attempts_count, restored_calls_count.
    by split_and!.
  - rewrite Forall_forall in Hr. exact Hr.
  - split; [done|]. split; [done|]. intros Ho. by destruct (C3 Ho).
Qed.


(** The store has the invocation as begun: of the same extension, with the same
    input. *)
Definition begun_in_store (w : world) (d : ExtensionDescriptor) (v : hook_view) : Prop :=
  exists x f, x ∈ journal w /\ xe_InvocationID x = view_invocation v /\ xe_Descriptor x = d /\
    FingerprintView v = Some f /\ xe_InputDigest x = fp_Digest f /\ xe_Status x ≠ InvocationPrepared /\ xe_PendingAt x ≠ 0%Z.
Lemma recorded_in_store w d' v : recorded w d' v -> begun_in_store w d' v.
Proof.
  intros (e&f&(i&x&Hi&Hid&Hs&Hp)&Hv&Hd&Hf&Hdig). exists x, f. destruct (identity_fields x e Hid) as (E1&E2&E3&_).
  split_and!; [by eapply list_elem_of_lookup_2|congruence..| |done]. intros H. rewrite H in Hs. simpl in Hs. lia.
Qed.

End Runtime.

(** ** A run of a runtime *)
#[export] Instance plainViews : ViewFingerprints := {| FingerprintView _ := Some (MkFingerprint digest0 1) |}.
Definition gate1 : ExtensionDescriptor := MkExtensionDescriptor "gate" digest0.
Definition components1 : runtimeComponents := MkComponents 0 2 2 [gate1] [] [] [] [].
Definition steps1 : stepComponents := MkStepComponents "prompt" 100 false [] false [] false 1.
Definition dispatcher1 : toolDispatcher := MkDispatcher ∅ [] [] None 0.
Notation pool_step1 := (pool_step components1 steps1 (fun _ => "") (fun _ _ => true) dispatcher1).
Definition environment1 : environment := MkEnv (fun n => n + 10)%Z (fun _ => plainReadings) (fun _ => plainIdentity) Live.
Definition runtime1 : runtimeInstance :=
  match newRuntimeInstance Live store1 (MkMemorySession "s" 1) (fun _ _ => Ok tt) (Some "p") with
  | Ok r => r | _ => MkRuntime (MkMemorySession "" 0) "" "" false runtimeClosed None [] false false false 0 None [] false None "" 0 0 [] end.
Definition input1 : MessageInput := [MkMessagePart PartText "hi" "" "" ""].
Definition actions1 : list action :=
  [Open (fun _ _ => Panicked) OpenResume; Send (MkSendRequest "s" 1 (MkActorIdentity ActorLocalUser "u") "" input1);
   StartAttempt 0 "step" (MkAttemptStart "t1" "provider" "model"); StartAttempt 0 "step" (MkAttemptStart "t2" "provider" "model");
   StartAttempt 0 "step" (MkAttemptStart "t3" "provider" "model")].
Definition world_after (l : list action) : world := foldl (fun w a => (perform components1 environment1 a w).1) (World store1 runtime1) l.

Definition world1 : world := World store1 runtime1.
Lemma stored_world1 : stored world1 = Some (aggregate_in store1).
Proof. vm_compute. reflexivity. Qed.
Lemma view_world1 : stored_view world1 = Some (RunIdle, "", [], []).
Proof. vm_compute. reflexivity. Qed.

Lemma created_world1 : created components1 world1.
Proof.
  split.
  - exact reachable_store1.
  - exists Live, (MkMemorySession "s" 1), (fun _ _ => Ok tt), "p". vm_compute. reflexivity.
  - intros a op n. rewrite stored_world1. intros [= <-] _. assert (ag_idempotency (aggregate_in store1) = ∅) as -> by (vm_compute; reflexivity). done.
  - intros v n. rewrite view_world1. intros [= <-] _. unfold absent_run. split; [done|]. split; intros x Hx; by apply elem_of_nil in Hx.
  - intros v. rewrite view_world1. intros [= <-]. by split.
Qed.

Lemma ready1 w : ag_snapshot <$> stored w = Some (ag_snapshot (aggregate_in (w_store w))) ->
  enough_room (ag_snapshot (aggregate_in (w_store w))) -> ready environment1 w.
Proof. intros Hs Hroom. split; [intros n; exact plainReadings_sane|]. intros a Ha. rewrite Ha in Hs. by injection Hs as ->. Qed.

Lemma rtc_world_after l a :
  rtc (acts components1) world1 (world_after l) -> admits environment1 a (world_after l) -> bool_decide (sequence (world_after (l ++ [a])) < 2 ^ 64)%Z = true ->
  rtc (acts components1) world1 (world_after (l ++ [a])).
Proof.
  intros Hl Ha Hb%bool_decide_eq_true. eapply rtc_r; [exact Hl|]. exists environment1, a. split; [exact Ha|]. split; [|exact Hb].
  unfold world_after. by rewrite foldl_app.
Qed.
Definition actions2 : list action := actions1 ++ [FinishRun 0 stepNatural None].

Lemma rtc_actions1 : rtc (acts components1) world1 (world_after actions1).
Proof.
  unfold actions1. match goal with |- context [world_after [?a1; ?a2; ?a3; ?a4; ?a5]] =>
    change [a1; a2; a3; a4; a5] with ((((([] ++ [a1]) ++ [a2]) ++ [a3]) ++ [a4]) ++ [a5]) end.
  repeat (apply rtc_world_after; [|exact I|vm_compute; reflexivity]). apply rtc_refl.
Qed.
Lemma rtc_actions2 : rtc (acts components1) world1 (world_after actions2).
Proof.
  apply rtc_world_after; [exact rtc_actions1| |vm_compute; reflexivity].
  apply ready1; [vm_compute; reflexivity|]. vm_compute. reflexivity.
Qed.

(** *** One program, executed

    It stops at a hook, at a question without answer, and when it panics. *)
Definition answers : Type := forall B, question B -> option B.
Fixpoint exec {Q A} (given : answers) (n : nat) (w : world) (p : prog Q A) : world * prog Q A :=
  match n, p with
  | S n', Region m k =>
    let '(w', out) := m w in
    if negb (Z.ltb (sequence w') (2 ^ 64)) then (w, p)
    else match out with Ok b => exec given n' w' (k (inl b)) | Err err => exec given n' w' (k (inr err)) | Panic _ => (w, p) end
  | S n', Ask q k => match given _ q with Some b => exec given n' w (k b) | None => (w, p) end
  | _, _ => (w, p)
  end.
Lemma exec_steps {Q A} given n : forall w (p : prog Q A) ts i,
  ts !! i = Some (Thread p) -> (sequence w < 2 ^ 64)%Z ->
  rtc pool_step1 (Pool w ts) (Pool (exec given n w p).1 (<[i := Thread (exec given n w p).2]> ts)).
Proof.
  induction n as [|n IH]; intros w p ts i Hi Hw.
  - destruct p; simpl; rewrite list_insert_id by done; apply rtc_refl.
  - assert (rtc pool_step1 (Pool w ts) (Pool w (<[i:=Thread p]> ts))) as Hstay by (rewrite list_insert_id by done; apply rtc_refl).
    assert (forall w' (p' : prog Q A), advances w (Thread p) w' (Thread p') -> (sequence w' < 2 ^ 64)%Z ->
      rtc pool_step1 (Pool w ts) (Pool (exec given n w' p').1 (<[i := Thread (exec given n w' p').2]> ts))) as Hgo.
    { intros w' p' Ha Hb. eapply rtc_l; [by eapply step_advances|]. specialize (IH w' p' (<[i := Thread p']> ts) i).
      rewrite list_insert_insert_eq in IH. apply IH; [|done]. by rewrite list_lookup_insert_eq by (by eapply lookup_lt_Some). }
    destruct p as [a|msg|B m k|d v k|B q k]; cbn [exec]; [exact Hstay..| |exact Hstay|].
    + destruct (m w) as [w' out] eqn:Em. destruct (Z.ltb _ _) eqn:Eb; cbn [negb]; [|exact Hstay]. apply Z.ltb_lt in Eb.
      destruct out as [b|err|msg]; [apply Hgo; [by constructor|done]..|exact Hstay].
    + destruct (given B q) as [b|]; [|exact Hstay]. apply Hgo; [by constructor|done].
Qed.
Lemma rtc_pool_acts w w' ts : rtc (acts components1) w w' -> rtc pool_step1 (Pool w ts) (Pool w' ts).
Proof. induction 1 as [|w w1 w2 Hs _ IH]; [apply rtc_refl|]. eapply rtc_l; [by apply step_acts|done]. Qed.
(** The task [t] started after the actions [l], executed by itself. *)
Lemma rtc_task {Q A} l e t (p : prog Q A) given n :
  rtc (acts components1) world1 (world_after l) -> thread_of components1 steps1 (fun _ => "") (fun _ _ => true) dispatcher1 e t = Thread p -> startable t ->
  (sequence (world_after l) < 2 ^ 64)%Z ->
  rtc pool_step1 (Pool world1 []) (Pool (exec given n (world_after l) p).1 [Thread (exec given n (world_after l) p).2]).
Proof.
  intros Hl Ht Hs Hb. etrans; [by apply rtc_pool_acts|]. eapply rtc_l; [by apply (step_start _ _ _ _ _ e t)|]. rewrite Ht.
  exact (exec_steps given n (world_after l) p [Thread p] 0 eq_refl Hb).
Qed.

(** A model that answers at once, a hook that proposes nothing. *)
Definition capabilities1 : ExecutionCapabilities := MkExecutionCapabilities (ModelStream.MkCapabilities [ModalityText] [ModalityText] true) [ReasoningDefault] 1000 0.
Definition completion1 : ModelEvent := MkModelEvent EventComplete "t2" "" (Some (MkCompletion [MkMessagePart PartText "hello" "" "" ""] [] "")) None.
Definition answers1 : answers := fun B q =>
  match q with
  | Inspect_ _ => Some (inl capabilities1)
  | CountTokens_ _ => Some (inl 10%Z)
  | Execute_ _ => Some (inl (Some ([completion1], ErrNew StreamClosed)))
  | BeforeRunComplete _ _ => Some (inl [])
  | _ => None
  end.
Definition request1 := requestModel components1 steps1 (fun _ => "") environment1 0 1 "step".
Definition answered1 := exec answers1 30 (world_after actions1) request1.
Definition value {Q A} (p : prog Q A) : option A := match p with Done a => Some a | _ => None end.
Definition gated1 := sendThroughInputGates components1 environment1 (fun _ => None) (MkSendRequest "s" 1 (MkActorIdentity ActorLocalUser "u") "" input1).
Definition opened1 : list action := [Open (fun _ _ => Panicked) OpenResume].
Definition waiting1 := exec answers1 30 (world_after opened1) gated1.
Definition at_hook {Q A} (p : prog Q A) : option (ExtensionDescriptor * hook_view) := match p with Invoke d v _ => Some (d, v) | _ => None end.
Lemma at_hook_inv {Q A} (p : prog Q A) d v : at_hook p = Some (d, v) -> exists k, p = Invoke d v k.
Proof. destruct p as [| | |d' v' k|]; try done. intros [= <- <-]. by exists k. Qed.
Lemma rtc_opened1 : rtc (acts components1) world1 (world_after opened1).
Proof. change opened1 with ([] ++ opened1). apply rtc_world_after; [apply rtc_refl|exact I|vm_compute; reflexivity]. Qed.
Lemma rtc_answered1 : rtc pool_step1 (Pool world1 []) (Pool answered1.1 [Thread answered1.2]).
Proof.
  assert (sequence (world_after actions1) < 2 ^ 64)%Z as Hb by (vm_compute; reflexivity).
  exact (rtc_task actions1 environment1 (RequestModel 0 1 "step") request1 answers1 30 rtc_actions1 eq_refl I Hb).
Qed.
Lemma rtc_waiting1 : rtc pool_step1 (Pool world1 []) (Pool waiting1.1 [Thread waiting1.2]).
Proof.
  assert (sequence (world_after opened1) < 2 ^ 64)%Z as Hb by (vm_compute; reflexivity).
  exact (rtc_task opened1 environment1 (GatedSend (fun _ => None) (MkSendRequest "s" 1 (MkActorIdentity ActorLocalUser "u") "" input1)) gated1 answers1 30
    rtc_opened1 eq_refl I Hb).
Qed.


(** A submission that waits for its gate. *)
Definition view1 : hook_view := GateView (MkInputGateView "extension-p-2" InputSend "s" "a" "w" 2 "message-p-1" "" input1 "").
Lemma at_hook1 : at_hook waiting1.2 = Some (gate1, view1).
Proof. vm_compute. reflexivity. Qed.

(** ** Unreachable recoveries and a reachable panic *)
Section Findings.
Context {J : JsonOps} {F : Fingerprints} {R : RequestFingerprint} {K : CursorCodec} {V : ViewFingerprints} (c : runtimeComponents).

(** The recovery of a pending entry settles its effect at once, which the store
    refuses: a pending entry may only become terminal with a pending effect. *)
Definition transition_refused (e e' : ExtensionJournalEntry) : Prop :=
  validateExtensionTransition e e' = Err (extensionConflict "pending identity is immutable and terminal effect must await application").
Lemma drop_context_outcome e : xe_Status (drop_context e) = xe_Status e /\ xe_PendingAt (drop_context e) = xe_PendingAt e /\
  xe_EffectDisposition (drop_context e) = xe_EffectDisposition e.
Proof. unfold drop_context. by destruct (bool_decide _). Qed.
Lemma pending_lifecycle_recovery_refused at_ e e' :
  xe_Status e = InvocationPending -> recover_lifecycle_entry at_ e = Some e' -> transition_refused e e'.
Proof.
  unfold recover_lifecycle_entry, transition_refused, validateExtensionTransition. intros ->. cbn [fmap option_fmap option_map xe_EffectDisposition with_outcome].
  rewrite bool_decide_eq_false_2 by done. intros [= <-].
  destruct (drop_context_outcome (with_outcome e InvocationOutcomeUnknown (xe_PendingAt e) (not_before at_ (xe_PendingAt e)) (xe_Result e) "hook_outcome_unknown"
    "lifecycle outcome is unknown after process recovery" EffectDiscarded)) as (->&->&->). cbn. by rewrite Z.eqb_refl.
Qed.
Lemma pending_result_recovery_refused at_ e e' :
  xe_Status e = InvocationPending -> recover_result_entry at_ e = Some e' -> transition_refused e e'.
Proof.
  unfold recover_result_entry, transition_refused, validateExtensionTransition. intros ->. cbn [fmap option_fmap option_map]. intros [= <-].
  destruct (drop_context_outcome (with_outcome e InvocationOutcomeUnknown (xe_PendingAt e) (not_before at_ (xe_PendingAt e)) (xe_Result e) "hook_outcome_unknown"
    "tool result hook outcome is unknown after recovery" EffectApplied)) as (->&->&->). cbn. by rewrite Z.eqb_refl.
Qed.

(** A restored run may have more calls than the limit of this process allows;
    its next completion panics also when it has no calls. *)
Lemma completion_over_limit_panics e k step messageID output w a s :
  ri_active (w_rt w) = Some k -> ri_runs (w_rt w) !! k = Some a -> ar_cancelRequested a = false -> ri_closing (w_rt w) = false ->
  Load Live (w_store w) (ri_id (w_rt w)) = Ok s -> cmp_ToolCalls output = [] ->
  (0 < rc_MaxToolCallsPerRun c)%Z -> (rc_MaxToolCallsPerRun c < ar_toolCalls a < 2 ^ 63)%Z ->
  (commitCompletion c e k step messageID output w).2 = Panic "index out of range".
Proof.
  intros Hact Hk Hc Hcl Hload Hcalls Hmax Hover. unfold commitCompletion, run_stopped, self, gets, is_active, mbind, M_bind.
  rewrite Hact, bool_decide_eq_true_2 by done. unfold get_run. cbn [negb]. rewrite Hk, Hc, Hcl. cbn [orb mret M_ret].
  unfold viewLocked, session_View, modify, mbind, M_bind. rewrite Hload. cbn. rewrite Hk, Hcalls. cbn [mapM_ mret M_ret length Z.of_nat].
  assert (Z.ltb 0 (rc_MaxToolCallsPerRun c) && Z.ltb (i64 (rc_MaxToolCallsPerRun c - ar_toolCalls a)) 0 = true) as Hover'.
  { rewrite i64_small by lia. apply andb_true_iff. by split; apply Z.ltb_lt; lia. }
  match goal with |- context [if ?b then _ else _] => replace b with true by exact (eq_sym Hover') end. done.
Qed.
End Findings.
