(* ===== verification/RuntimeRegistry.v ===== *)
(** * The runtimes of an application

    Models [applicationRuntime], [runtimeRegistry] and [runtimeCoordinator] of
    [standardagent/runtime.go], with [withCoordinator] and [withRuntime] of
    [gateway.go] and the methods [open], [abortOpen], [awaitOpen], [close] and
    [beginClose] by which the coordinator opens and closes a runtime.

    Calls of the gateway, the goroutines of [markClosing] and [stop]
    interleave: a step of one of them is one region under a mutex, one call of
    another component or one select.  What happens inside a runtime between
    its opening and the end of its closing is modelled by [RuntimeLifecycle]
    and [RuntimeRun]; here a runtime is its identity and how far it was opened
    and closed.  [RuntimeRegistryFacts] has the theorem. *)

From S2P Require Import Prelude GoStrings AgentTypes ModelContracts SessionManager Lifecycle SessionApply RuntimeState RuntimeCommands.

(** ** Runtimes and flights *)

(** What [openOnce] has done: nothing, running [finishOpen], or closed [openDone]
    after [finishOpen] or [abortOpen]. *)
Inductive open_state := Unopened | Opening | OpenedWith (err : option error) | AbortedWith (err : error).
(** [rn_routed] remembers that the registry has had the runtime as an entry; the
    code does not keep this. *)
Record runtime := MkRuntime { rn_id : string; rn_open : open_state; rn_closing : bool; rn_closed : bool; rn_routed : bool }.
Definition new_runtime (id : string) : runtime := MkRuntime id Unopened false false false.
Record runtimeFlight := MkFlight { fl_id : string; fl_done : bool; fl_err : option error }.

(** [openErr] once [openDone] is closed. *)
Definition open_result (r : runtime) : option (option error) :=
  match rn_open r with OpenedWith err => Some err | AbortedWith err => Some (Some err) | _ => None end.
(** The runtime may work on its Session. *)
Definition live (r : runtime) : bool :=
  match rn_open r with Opening | OpenedWith _ => negb (rn_closed r) | _ => false end.

(** The registry, the runtimes and flights allocated so far, and the state of
    the application: whether it is started, how many operations it waits for,
    and whether [closeAll] has emptied the registry. *)
Record application := MkApplication {
  ap_entries : gmap string nat; ap_inflight : gmap string nat; ap_flights : list runtimeFlight; ap_runtimes : list runtime;
  ap_started : bool; ap_active : nat; ap_swept : bool }.
Definition started_application : application := MkApplication ∅ ∅ [] [] true 0 false.

Definition set_registry (s : application) (entries inflight : gmap string nat) (flights : list runtimeFlight) : application :=
  MkApplication entries inflight flights (ap_runtimes s) (ap_started s) (ap_active s) (ap_swept s).
Definition set_runtimes (s : application) (runtimes : list runtime) : application :=
  MkApplication (ap_entries s) (ap_inflight s) (ap_flights s) runtimes (ap_started s) (ap_active s) (ap_swept s).
Definition set_active (s : application) (active : nat) : application :=
  MkApplication (ap_entries s) (ap_inflight s) (ap_flights s) (ap_runtimes s) (ap_started s) active (ap_swept s).
Definition update_runtime (f : runtime -> runtime) (rt : nat) (s : application) : application := set_runtimes s (alter f rt (ap_runtimes s)).
Definition set_open (o : open_state) (r : runtime) : runtime := MkRuntime (rn_id r) o (rn_closing r) (rn_closed r) (rn_routed r).
Definition set_closing (r : runtime) : runtime := MkRuntime (rn_id r) (rn_open r) true (rn_closed r) (rn_routed r).
Definition set_closed (r : runtime) : runtime := MkRuntime (rn_id r) (rn_open r) (rn_closing r) true (rn_routed r).
Definition set_routed (r : runtime) : runtime := MkRuntime (rn_id r) (rn_open r) (rn_closing r) (rn_closed r) true.

(** ** Operations of the gateway *)
Inductive operation :=
  | OpCreate (request : CreateRequest)
  | OpResume (id : string)
  | OpFork (request : ForkRequest)
  | OpSummary (request : SummaryRequest)
  | OpClose (id : string)
  | OpRoute (id : string).

Definition check_config (op : string) (config : option Config) : result unit :=
  match config with
  | Some config => map_err (fun err => NewError ErrorInvalidInput op (error_text err) None) (Config_Validate config)
  | None => Ok tt
  end.
(** The checks with which [create], [resume], [fork], [summary] and [close]
    begin. *)
Definition check_operation (o : operation) : result unit :=
  match o with
  | OpCreate r =>
    let op := "gateway.create_session" in
    reject_if (negb (ID_Valid (crq_AgentID r)) || negb (ID_Valid (crq_WorkspaceID r))) (invalidInput op "AgentID and WorkspaceID are required") ;;
    check_config op (crq_ModelConfig r)
  | OpResume id => reject_if (negb (ID_Valid id)) (invalidInput "gateway.resume_session" "SessionID is required")
  | OpFork r =>
    let op := "gateway.fork_session" in
    reject_if (negb (ID_Valid (frq_SourceSessionID r)) || negb (ID_Valid (frq_AgentID r)) || negb (ID_Valid (frq_WorkspaceID r)))
      (invalidInput op "source SessionID, AgentID, and WorkspaceID are required") ;;
    reject_if (negb (ForkMode_Valid (frq_Mode r))) (invalidInput op "fork mode is required") ;;
    reject_if (bool_decide (frq_Mode r = ForkFullHistory) && negb (Z.eqb (frq_CutoffSequence r) 0))
      (invalidInput op "full-history fork cannot specify a cutoff") ;;
    check_config op (frq_ModelConfig r)
  | OpSummary r =>
    let op := "gateway.start_session_from_summary" in
    reject_if (negb (ID_Valid (srq_AgentID r)) || negb (ID_Valid (srq_WorkspaceID r)) || bool_decide (srq_Messages r = []))
      (invalidInput op "AgentID, WorkspaceID, and at least one summary message are required") ;;
    check_config op (srq_ModelConfig r)
  | OpClose id => reject_if (negb (ID_Valid id)) (invalidInput "gateway.close_session" "SessionID is required")
  | OpRoute _ => Ok tt
  end.

(** What a call of [close] is followed by: the error of a new runtime that was
    not registered, the end of the creation in [getOrCreate], the error of an
    opening, or the next runtime of [closeAll]. *)
Inductive after_close :=
  | AfterNew (err : error)
  | AfterMake (id : string) (flight : nat) (err : error)
  | AfterOpen (err : error)
  | AfterSweep (rest : list nat) (errs : list error).

(** Where a call is. *)
Inductive thread :=
  | Start (o : operation)                                      (* [withCoordinator] *)
  | New                                                        (* [create], [fork], [summary]: the manager and [newRuntimeInstance] *)
  | Register (rt : nat)                                        (* [registerNew] *)
  | GetOrCreate (id : string)                                  (* [getOrCreate]: the lookup *)
  | AwaitFlight (id : string) (flight : nat)                   (* its wait for another flight *)
  | Make (id : string) (flight : nat)                          (* [resume]: the function [create] *)
  | Made (id : string) (flight rt : nat)                       (* its last checks *)
  | Landed (id : string) (flight : nat) (out : nat + error)    (* the end of [getOrCreate] *)
  | Aborting (rt : nat) (err : error) (next : after_close)     (* [abortOpen] *)
  | Open (rt : nat)                                            (* [open] *)
  | FinishOpen (rt : nat)                                      (* [finishOpen] *)
  | AwaitOpen (rt : nat)                                       (* [awaitOpen], called by [open] *)
  | Close (rt : nat) (next : after_close)                      (* [close] *)
  | AwaitClosed (rt : nat) (next : after_close)                (* its wait *)
  | Discard (rt : nat) (err : error)                           (* [discard] *)
  | Wait (id : string)                                         (* [close] of a Session: [wait] *)
  | AwaitWait (id : string) (flight : nat)                     (* its wait for a flight *)
  | BeforeClose (id : string) (rt : nat)                       (* [awaitOpen] *)
  | BeginClose (id : string) (rt : nat)                        (* [beginClose] *)
  | MarkClosing (id : string) (rt : nat)                       (* [markClosing] *)
  | Closing (rt : nat)                                         (* the last select of [close] *)
  | Tombstone (id : string) (flight rt : nat)                  (* the goroutine of [markClosing] *)
  | Route (id : string)                                        (* [withRuntime] *)
  | Routed (rt : nat)                                          (* its [awaitOpen] and the operation *)
  | Stop                                                       (* [stop] *)
  | Sweep                                                      (* [closeAll]: the entries *)
  | Sweeping (rest : list nat) (errs : list error)             (* its loop *)
  | Drain (errs : list error)                                  (* the wait for the operations *)
  | Done (err : option error).

(** What a step takes from outside: whether the context is done, which case a
    select takes when both are ready, the identity of the Session that the
    manager gives, and what the runtime or another component returns. *)
Record answers := MkAnswers { an_canceled : bool; an_channel : bool; an_session : string + error; an_err : option error }.

Definition canceled_error : error := ErrNew "context canceled".
Definition notStartedError : error :=
  NewCodedError ErrorUnavailable "application_not_started" "gateway" (plain "application runtime is not started") None.
Definition already_open (op message : string) : error := NewCodedError ErrorConflict "session_already_open" op (plain message) None.
Definition not_open (op : string) : error := NewCodedError ErrorNotFound "session_not_open" op (plain "session is not open") None.
(** A select on a channel and the context; [true] is the channel. *)
Definition select (a : answers) (ready : bool) : option bool :=
  if ready then Some (negb (an_canceled a) || an_channel a) else if an_canceled a then Some false else None.

(** The step of a call: the state, where it is now and the goroutines it
    starts; [None] while it is blocked. *)
Definition progress : Type := option (result (application * thread * list thread)).
Definition goes (s : application) (t : thread) : progress := Some (Ok (s, t, [])).
(** [release] and the end of an operation. *)
Definition finish (s : application) (err : option error) : progress := goes (set_active s (pred (ap_active s))) (Done err).

(** *** The registry *)
Definition close_flight (flight : nat) (err : option error) (flights : list runtimeFlight) : result (list runtimeFlight) :=
  match flights !! flight with
  | Some f => if fl_done f then Panic "close of closed channel" else Ok (<[flight := MkFlight (fl_id f) true err]> flights)
  | None => Panic "close of nil channel"
  end.
Definition new_flight (s : application) (id : string) : application :=
  set_registry s (ap_entries s) (<[id := length (ap_flights s)]> (ap_inflight s)) (ap_flights s ++ [MkFlight id false None]).

Definition getOrCreate (s : application) (id : string) : progress :=
  match ap_entries s !! id, ap_inflight s !! id with
  | Some rt, _ => goes s (Open rt)
  | None, Some flight => goes s (AwaitFlight id flight)
  | None, None => goes (new_flight s id) (Make id (length (ap_flights s)))
  end.
Definition await_flight (a : answers) (s : application) (id : string) (flight : nat) : progress :=
  f ← ap_flights s !! flight;
  channel ← select a (fl_done f);
  if (channel : bool) then
    match fl_err f with
    | Some err =>
      if negb (an_canceled a) && (errors_Is err "context canceled" || errors_Is err "context deadline exceeded") then goes s (GetOrCreate id)
      else finish s (Some err)
    | None => goes s (GetOrCreate id)
    end
  else finish s (Some canceled_error).
Definition landed (s : application) (id : string) (flight : nat) (out : nat + error) : progress :=
  Some (flights ← close_flight flight (match out with inl _ => None | inr err => Some err end) (ap_flights s);
        let inflight := delete id (ap_inflight s) in
        match out with
        | inl rt => Ok (update_runtime set_routed rt (set_registry s (<[id := rt]> (ap_entries s)) inflight flights), Open rt, [])
        | inr err =>
          let s := set_registry s (ap_entries s) inflight flights in
          Ok (set_active s (pred (ap_active s)), Done (Some err), [])
        end).
Definition add (s : application) (rt : nat) (r : runtime) : result application :=
  reject_if (present (ap_entries s !! rn_id r)) (already_open "runtime_registry.add" "Session already has an open Runtime") ;;
  reject_if (present (ap_inflight s !! rn_id r)) (already_open "runtime_registry.add" "Session Runtime is being opened") ;;
  Ok (update_runtime set_routed rt (set_registry s (<[rn_id r := rt]> (ap_entries s)) (ap_inflight s) (ap_flights s))).
Definition discard (s : application) (rt : nat) (r : runtime) : application :=
  if bool_decide (ap_entries s !! rn_id r = Some rt) then set_registry s (delete (rn_id r) (ap_entries s)) (ap_inflight s) (ap_flights s) else s.
Definition wait (s : application) (id : string) : progress :=
  match ap_entries s !! id, ap_inflight s !! id with
  | Some rt, _ => goes s (BeforeClose id rt)
  | None, Some flight => goes s (AwaitWait id flight)
  | None, None => finish s (Some (not_open "gateway.close"))
  end.
Definition markClosing (s : application) (id : string) (rt : nat) : progress :=
  if bool_decide (ap_entries s !! id = Some rt) && absent (ap_inflight s !! id) then
    let s' := new_flight s id in
    Some (Ok (set_registry s' (delete id (ap_entries s')) (ap_inflight s') (ap_flights s'), Closing rt, [Tombstone id (length (ap_flights s)) rt]))
  else finish s (Some (already_open "runtime_registry.close" "Session Runtime changed during close")).
Definition bury (s : application) (id : string) (flight : nat) : progress :=
  Some (flights ← close_flight flight None (ap_flights s);
        let inflight := if bool_decide (ap_inflight s !! id = Some flight) then delete id (ap_inflight s) else ap_inflight s in
        Ok (set_registry s (ap_entries s) inflight flights, Done None, [])).
Definition entry_le (a b : string * nat) : Prop := string_le a.1 b.1.
#[local] Instance entry_le_dec a b : Decision (entry_le a b).
Proof. unfold entry_le. apply _. Defined.
Definition sweep (s : application) : progress :=
  goes (MkApplication ∅ (ap_inflight s) (ap_flights s) (ap_runtimes s) (ap_started s) (ap_active s) true)
       (Sweeping (snd <$> merge_sort entry_le (map_to_list (ap_entries s))) []).

(** *** Opening and closing a runtime *)
Definition after_closed (s : application) (rt : nat) (err : option error) (next : after_close) : progress :=
  match next with
  | AfterNew cause => finish s (Some (ErrJoin [cause]))
  | AfterMake id flight cause => goes s (Landed id flight (inr (ErrJoin [cause])))
  | AfterOpen cause => goes s (Discard rt cause)
  | AfterSweep rest errs => goes s (Sweeping rest (errs ++ match err with Some err => [err] | None => [] end))
  end.
(** Only [closeAll] closes with a context that can end. *)
Definition close_context (a : answers) (next : after_close) : answers :=
  match next with AfterSweep _ _ => a | _ => MkAnswers false true (an_session a) (an_err a) end.
Definition await_closed (a : answers) (s : application) (rt : nat) (r : runtime) (next : after_close) : progress :=
  channel ← select (close_context a next) (rn_closed r);
  after_closed s rt (if (channel : bool) then None else Some canceled_error) next.
Definition close (a : answers) (s : application) (rt : nat) (r : runtime) (next : after_close) : progress :=
  channel ← select (close_context a next) (present (open_result r));
  if (channel : bool) then goes (if rn_closing r then s else update_runtime set_closing rt s) (AwaitClosed rt next)
  else after_closed s rt (Some canceled_error) next.
Definition open (s : application) (rt : nat) (r : runtime) : progress :=
  match rn_open r with
  | Unopened => goes (update_runtime (set_open Opening) rt s) (FinishOpen rt)
  | Opening => None
  | _ => goes s (AwaitOpen rt)
  end.
Definition awaitOpen (a : answers) (r : runtime) : option (option error) :=
  channel ← select a (present (open_result r));
  Some (if (channel : bool) then default None (open_result r) else Some canceled_error).
Definition beginClose (a : answers) (s : application) (id : string) (rt : nat) (r : runtime) : progress :=
  if rn_closed r || rn_closing r then finish s (Some (runtimeClosedError "gateway.close_session"))
  else
    match an_err a with
    | Some err => finish s (Some err)
    | None => goes (update_runtime set_closing rt s) (MarkClosing id rt)
    end.

(** *** Operations *)
Definition start_operation (a : answers) (s : application) (o : operation) : progress :=
  if an_canceled a then goes s (Done (Some canceled_error))
  else if negb (ap_started s) then goes s (Done (Some notStartedError))
  else
    let s := set_active s (S (ap_active s)) in
    match check_operation o with
    | Ok _ =>
      goes s (match o with
              | OpCreate _ | OpFork _ | OpSummary _ => New
              | OpResume id => GetOrCreate id
              | OpClose id => Wait id
              | OpRoute id => Route id
              end)
    | Err err => finish s (Some err)
    | Panic m => Some (Panic m)
    end.
(** [resolveWorkspace], the manager and [newRuntimeInstance] *)
Definition make (a : answers) (s : application) (next : nat -> thread) (failed : error -> progress) : progress :=
  match an_session a with
  | inl id => goes (set_runtimes s (ap_runtimes s ++ [new_runtime id])) (next (length (ap_runtimes s)))
  | inr err => failed err
  end.
Definition register (a : answers) (s : application) (rt : nat) (r : runtime) : progress :=
  if an_canceled a then goes s (Aborting rt canceled_error (AfterNew canceled_error))
  else
    match add s rt r with
    | Ok s => goes s (Open rt)
    | Err err => goes s (Aborting rt err (AfterNew err))
    | Panic m => Some (Panic m)
    end.
Definition made (a : answers) (s : application) (id : string) (flight rt : nat) (r : runtime) : progress :=
  if an_canceled a then goes s (Aborting rt canceled_error (AfterMake id flight canceled_error))
  else if String.eqb (rn_id r) id then goes s (Landed id flight (inl rt))
  else
    let mismatch := NewError ErrorInternal "gateway.resume_session" (plain "framework Manager returned a different SessionID") None in
    goes s (Aborting rt mismatch (AfterMake id flight mismatch)).
Definition abortOpen (s : application) (rt : nat) (r : runtime) (err : error) (next : after_close) : progress :=
  match rn_open r with
  | Unopened => goes (update_runtime (set_open (AbortedWith err)) rt s) (Close rt next)
  | Opening => None
  | _ => goes s (Close rt next)
  end.
Definition stop (s : application) : progress :=
  if ap_started s then
    goes (MkApplication (ap_entries s) (ap_inflight s) (ap_flights s) (ap_runtimes s) false (ap_active s) (ap_swept s)) Sweep
  else goes s (Done None).

Definition advance (a : answers) (s : application) (t : thread) : progress :=
  let on (rt : nat) (f : runtime -> progress) : progress := r ← ap_runtimes s !! rt; f r in
  match t with
  | Start o => start_operation a s o
  | New => make a s Register (fun err => finish s (Some err))
  | Register rt => on rt (register a s rt)
  | GetOrCreate id => getOrCreate s id
  | AwaitFlight id flight => await_flight a s id flight
  | Make id flight => make a s (Made id flight) (fun err => goes s (Landed id flight (inr err)))
  | Made id flight rt => on rt (made a s id flight rt)
  | Landed id flight out => landed s id flight out
  | Aborting rt err next => on rt (fun r => abortOpen s rt r err next)
  | Open rt => on rt (open s rt)
  | FinishOpen rt => goes (update_runtime (set_open (OpenedWith (an_err a))) rt s) (AwaitOpen rt)
  | AwaitOpen rt =>
    on rt (fun r =>
      err ← awaitOpen a r;
      match (err : option error) with
      | None => finish s None
      | Some err => goes s (Close rt (AfterOpen err))
      end)
  | Close rt next => on rt (fun r => close a s rt r next)
  | AwaitClosed rt next => on rt (fun r => await_closed a s rt r next)
  | Discard rt err => on rt (fun r => finish (discard s rt r) (Some (ErrJoin [err])))
  | Wait id => wait s id
  | AwaitWait id flight =>
    f ← ap_flights s !! flight;
    channel ← select a (fl_done f);
    if (channel : bool) then goes s (Wait id) else finish s (Some canceled_error)
  | BeforeClose id rt =>
    on rt (fun r =>
      err ← awaitOpen a r;
      match (err : option error) with
      | None => goes s (BeginClose id rt)
      | Some err => finish s (Some err)
      end)
  | BeginClose id rt => on rt (beginClose a s id rt)
  | MarkClosing id rt => markClosing s id rt
  | Closing rt => on rt (fun r => channel ← select a (rn_closed r); finish s (if (channel : bool) then an_err a else Some canceled_error))
  | Tombstone id flight rt => on rt (fun r => if rn_closed r then bury s id flight else None)
  | Route id => match ap_entries s !! id with Some rt => goes s (Routed rt) | None => finish s (Some (not_open "gateway.runtime")) end
  | Routed rt => on rt (fun r => err ← awaitOpen a r; finish s (match (err : option error) with None => an_err a | Some err => Some err end))
  | Stop => stop s
  | Sweep => sweep s
  | Sweeping [] errs => goes s (Drain errs)
  | Sweeping (rt :: rest) errs => goes s (Close rt (AfterSweep rest errs))
  | Drain errs =>
    channel ← select a (Nat.eqb (ap_active s) 0);
    goes s (Done (errors_Join (errs ++ if (channel : bool) then [] else [canceled_error])))
  | Done _ => None
  end.

(** The application and its calls. *)
Record system := MkSystem { sy_app : application; sy_threads : list thread }.
Inductive app_step : system -> system -> Prop :=
  | step_call s ts o : app_step (MkSystem s ts) (MkSystem s (ts ++ [Start o]))
  | step_stop s ts : app_step (MkSystem s ts) (MkSystem s (ts ++ [Stop]))
  | step_thread s ts i t a s' t' new : ts !! i = Some t -> advance a s t = Some (Ok (s', t', new)) ->
      app_step (MkSystem s ts) (MkSystem s' (<[i := t']> ts ++ new))
  | step_closed s ts rt r : ap_runtimes s !! rt = Some r -> rn_closing r = true -> rn_closed r = false ->
      app_step (MkSystem s ts) (MkSystem (update_runtime set_closed rt s) ts).
Definition reachable (w : system) : Prop := rtc app_step (MkSystem started_application []) w.
