(* ===== verification/RuntimeRegistryFacts.v ===== *)
(** * One runtime per Session

    The invariant of the calls of [RuntimeRegistry]: what each is responsible
    for and relies on.  A Session never has two runtimes that can commit, as
    long as the application is not stopped, and no call waits for something
    that nobody will do.  The runs at the end show what [stop] and a canceled
    resume do. *)

From S2P Require Import Prelude GoStrings AgentTypes ModelContracts SessionManager Lifecycle SessionApply RuntimeState RuntimeCommands.
From S2P Require Import RuntimeRegistry.

(** ** What every interleaving keeps *)

(** What a call is responsible for: to land a flight, to do something with a
    runtime that nobody else knows, to finish an opening. *)
Inductive duty := Flight (id : string) (flight : nat) | Private (rt : nat) | FinishesOpen (rt : nat).
#[export] Instance duty_eq_dec : EqDecision duty.
Proof. solve_decision. Defined.
Definition next_duties (next : after_close) : list duty := match next with AfterMake id flight _ => [Flight id flight] | _ => [] end.
Definition duties (t : thread) : list duty :=
  match t with
  | Register rt => [Private rt]
  | Make id flight => [Flight id flight]
  | Made id flight rt | Landed id flight (inl rt) => [Flight id flight; Private rt]
  | Landed id flight (inr _) => [Flight id flight]
  | Aborting rt _ next => next_duties next ++ [Private rt]
  | Close _ next | AwaitClosed _ next => next_duties next
  | FinishOpen rt => [FinishesOpen rt]
  | Tombstone id flight _ => [Flight id flight]
  | _ => []
  end.
Definition undone (s : application) (k : duty) : Prop :=
  match k with
  | Flight id flight => ap_inflight s !! id = Some flight /\ ap_flights s !! flight = Some (MkFlight id false None)
  | Private rt => exists id, ap_runtimes s !! rt = Some (new_runtime id)
  | FinishesOpen rt => exists r, ap_runtimes s !! rt = Some r /\ rn_open r = Opening
  end.

(** What a call relies on, and stays true. *)
Inductive fact :=
  | IsFor (rt : nat) (id : string) | IsRouted (rt : nat) | IsClosing (rt : nat) | IsClosed (rt : nat) | IsDone (rt : nat)
  | IsFlight (flight : nat) | Impossible.
Definition next_facts (next : after_close) : list fact := match next with AfterSweep rest _ => IsRouted <$> rest | _ => [] end.
Definition relies (t : thread) : list fact :=
  match t with
  | Landed id _ (inl rt) => [IsFor rt id]
  | AwaitFlight _ flight | AwaitWait _ flight => [IsFlight flight]
  | Aborting rt _ next => match next with AfterNew _ | AfterMake _ _ _ => [] | _ => [Impossible] end
  | Open rt | FinishOpen rt | Routed rt => [IsRouted rt]
  | AwaitOpen rt => [IsRouted rt; IsDone rt]
  | Close rt next => match next with AfterSweep _ _ => IsRouted rt | _ => IsDone rt end :: next_facts next
  | AwaitClosed rt next => IsClosing rt :: next_facts next
  | Discard rt _ => [IsClosed rt]
  | BeforeClose id rt => [IsRouted rt; IsFor rt id]
  | BeginClose id rt => [IsRouted rt; IsFor rt id; IsDone rt]
  | MarkClosing id rt => [IsRouted rt; IsFor rt id; IsClosing rt]
  | Closing rt => [IsClosing rt]
  | Tombstone id _ rt => [IsClosing rt; IsFor rt id]
  | Sweeping rest _ => IsRouted <$> rest
  | _ => []
  end.
Definition has (s : application) (rt : nat) (P : runtime -> Prop) : Prop := exists r, ap_runtimes s !! rt = Some r /\ P r.
Definition holds (s : application) (f : fact) : Prop :=
  match f with
  | IsFor rt id => has s rt (fun r => rn_id r = id)
  | IsRouted rt => has s rt (fun r => rn_routed r = true)
  | IsClosing rt => has s rt (fun r => rn_closing r = true)
  | IsClosed rt => has s rt (fun r => rn_closed r = true)
  | IsDone rt => has s rt (fun r => present (open_result r) = true)
  | IsFlight flight => (flight < length (ap_flights s))%nat
  | Impossible => False
  end.

(** Whether the application waits for a call before it has stopped. *)
Definition busy (t : thread) : nat :=
  match t with
  | Start _ | Tombstone _ _ _ | Stop | Sweep | Sweeping _ _ | Drain _ | Done _ => 0
  | Close _ next | AwaitClosed _ next => match next with AfterSweep _ _ => 0 | _ => 1 end
  | _ => 1
  end.

Record inv (s : application) (ts : list thread) : Prop := {
  v_undone k : k ∈ ts ≫= duties -> undone s k;
  v_once : NoDup (ts ≫= duties);
  v_holds f : f ∈ ts ≫= relies -> holds s f;
  v_entries id rt : ap_entries s !! id = Some rt -> holds s (IsRouted rt) /\ holds s (IsFor rt id);
  v_inflight id flight : ap_inflight s !! id = Some flight -> ap_flights s !! flight = Some (MkFlight id false None) /\ ap_entries s !! id = None;
  v_flights flight f : ap_flights s !! flight = Some f -> fl_done f = false -> Flight (fl_id f) flight ∈ ts ≫= duties;
  v_opening rt r : ap_runtimes s !! rt = Some r -> rn_open r = Opening -> FinishesOpen rt ∈ ts ≫= duties;
  v_unopened rt r : ap_runtimes s !! rt = Some r -> rn_routed r = true -> rn_open r = Unopened -> Open rt ∈ ts;
  v_kept rt r : ap_swept s = false -> ap_runtimes s !! rt = Some r -> rn_routed r = true -> rn_closed r = false ->
    ap_entries s !! rn_id r = Some rt \/ exists flight, Tombstone (rn_id r) flight rt ∈ ts;
  v_routed rt r : ap_runtimes s !! rt = Some r -> match rn_open r with Opening | OpenedWith _ => rn_routed r = true | _ => True end;
  v_active : ap_active s = sum_list_with busy ts;
}.

(** The order of the calls does not matter. *)
Lemma inv_perm s ts ts' : ts ≡ₚ ts' -> inv s ts -> inv s ts'.
Proof.
  intros Hp [V1 V2 V3 V4 V5 V6 V7 V8 V9 V10 V11].
  assert (Hd : forall k, k ∈ ts ≫= duties <-> k ∈ ts' ≫= duties) by (intros k; by rewrite Hp).
  split; [intros k; rewrite <-Hd; apply V1|by rewrite <-Hp|intros f; rewrite <-Hp; apply V3|done|done| | | | |done|].
  - intros; rewrite <-Hd; by apply V6.
  - intros; rewrite <-Hd; by eapply V7.
  - intros; rewrite <-Hp; by eapply V8.
  - intros. destruct (V9 rt r) as [?|[flight ?]]; [done..|by left|right]. exists flight. by rewrite <-Hp.
  - by rewrite V11, Hp.
Qed.

(** *** How the state evolves *)
Record runtime_le (r r' : runtime) : Prop := {
  le_id : rn_id r' = rn_id r;
  le_routed : rn_routed r = true -> rn_routed r' = true;
  le_closing : rn_closing r = true -> rn_closing r' = true;
  le_closed : rn_closed r = true -> rn_closed r' = true;
  le_done : present (open_result r) = true -> open_result r' = open_result r;
}.
Record evolves (s s' : application) : Prop := {
  ev_runtimes rt r : ap_runtimes s !! rt = Some r -> exists r', ap_runtimes s' !! rt = Some r' /\ runtime_le r r';
  ev_flights : (length (ap_flights s) <= length (ap_flights s'))%nat;
}.
#[export] Instance runtime_le_refl : Reflexive runtime_le.
Proof. by split. Qed.
Lemma evolves_same s s' : ap_runtimes s' = ap_runtimes s -> length (ap_flights s') = length (ap_flights s) -> evolves s s'.
Proof. intros Hr Hf. split; [intros rt r H; rewrite Hr; by exists r|by rewrite Hf]. Qed.
Lemma has_evolves s s' rt P : evolves s s' -> (forall r r', runtime_le r r' -> P r -> P r') -> has s rt P -> has s' rt P.
Proof. intros He HP (r&Hr&H). destruct (ev_runtimes _ _ He _ _ Hr) as (r'&Hr'&Hle). exists r'. split; [done|]. by eapply HP. Qed.
Lemma holds_evolves s s' f : evolves s s' -> holds s f -> holds s' f.
Proof.
  intros He. destruct f; simpl; [| | | | | |done].
  - apply has_evolves; [done|]. intros r r' H <-. apply H.
  - apply has_evolves; [done|]. intros r r' H. apply H.
  - apply has_evolves; [done|]. intros r r' H. apply H.
  - apply has_evolves; [done|]. intros r r' H. apply H.
  - apply has_evolves; [done|]. intros r r' H Hd. by rewrite (le_done _ _ H).
  - pose proof (ev_flights _ _ He). lia.
Qed.

(** A step of call [t], which becomes [t'] and starts [new]. *)
Record step_ok (s s' : application) (t t' : thread) (new : list thread) : Prop := {
  k_evolves : evolves s s';
  k_others k : undone s k -> k ∉ duties t -> undone s' k;
  k_once : NoDup (duties t' ++ (new ≫= duties));
  k_mine k : k ∈ duties t' ++ (new ≫= duties) -> undone s' k /\ (k ∈ duties t \/ ~ undone s k);
  k_relies f : f ∈ relies t' ++ (new ≫= relies) -> holds s' f;
  k_entries id rt : ap_entries s' !! id = Some rt -> holds s' (IsRouted rt) /\ holds s' (IsFor rt id);
  k_inflight id flight : ap_inflight s' !! id = Some flight -> ap_flights s' !! flight = Some (MkFlight id false None) /\ ap_entries s' !! id = None;
  k_flights flight f : ap_flights s' !! flight = Some f -> fl_done f = false ->
    Flight (fl_id f) flight ∈ duties t' ++ (new ≫= duties) \/ ap_flights s !! flight = Some f /\ Flight (fl_id f) flight ∉ duties t;
  k_opening rt r : ap_runtimes s' !! rt = Some r -> rn_open r = Opening ->
    FinishesOpen rt ∈ duties t' \/ (exists r0, ap_runtimes s !! rt = Some r0 /\ rn_open r0 = Opening) /\ FinishesOpen rt ∉ duties t;
  k_unopened rt r : ap_runtimes s' !! rt = Some r -> rn_routed r = true -> rn_open r = Unopened ->
    t' = Open rt \/ ap_runtimes s !! rt = Some r /\ t ≠ Open rt;
  k_kept rt r : ap_swept s' = false -> ap_runtimes s' !! rt = Some r -> rn_routed r = true -> rn_closed r = false ->
    ap_entries s' !! rn_id r = Some rt \/ (exists flight, Tombstone (rn_id r) flight rt ∈ new) \/
    ap_swept s = false /\ (exists r0, ap_runtimes s !! rt = Some r0 /\ rn_id r0 = rn_id r /\ rn_routed r0 = true /\ rn_closed r0 = false) /\
      (ap_entries s !! rn_id r = Some rt -> ap_entries s' !! rn_id r = Some rt) /\ (forall flight, t ≠ Tombstone (rn_id r) flight rt);
  k_routed rt r : ap_runtimes s' !! rt = Some r -> match rn_open r with Opening | OpenedWith _ => rn_routed r = true | _ => True end;
  k_active : (ap_active s' + busy t = ap_active s + (busy t' + sum_list_with busy new))%nat;
}.

Lemma inv_step s s' t t' new rest : inv s (t :: rest) -> step_ok s s' t t' new -> inv s' (t' :: new ++ rest).
Proof.
  intros [V1 V2 V3 V4 V5 V6 V7 V8 V9 V10 V11] [Kev Koth Konce Kmine Krel Kent Kinf Kfl Kop Kun Kkept Krt Kact]. rewrite !bind_cons in *. apply NoDup_app in V2 as (Vt&Vd&Vr).
  assert (Hpool : forall {A} (f : thread -> list A), (t' :: new ++ rest) ≫= f = (f t' ++ (new ≫= f)) ++ (rest ≫= f)).
  { intros A f. by rewrite bind_cons, bind_app, app_assoc. }
  assert (Hrest : forall k, k ∈ rest ≫= duties -> undone s k /\ k ∉ duties t).
  { intros k Hk. split; [apply V1, elem_of_app; by right|]. intros Ht. by apply (Vd k). }
  split; rewrite ?Hpool.
  - intros k [Hk|Hk]%elem_of_app; [by apply Kmine|]. destruct (Hrest k Hk). by apply Koth.
  - apply NoDup_app. split; [done|]. split; [|done]. intros k Hk Hr. destruct (Hrest k Hr). by destruct (Kmine k Hk) as [_ []].
  - intros f [Hf|Hf]%elem_of_app; [by apply Krel|]. apply (holds_evolves s); [done|]. apply V3, elem_of_app. by right.
  - done.
  - done.
  - intros flight f Hf Hd. apply elem_of_app. destruct (Kfl flight f Hf Hd) as [|[Hs Ht]]; [by left|right].
    by destruct (proj1 (elem_of_app _ _ _) (V6 flight f Hs Hd)).
  - intros rt r Hr Ho. apply elem_of_app. destruct (Kop rt r Hr Ho) as [|[(r0&Hs&Ho0) Ht]]; [left; apply elem_of_app; by left|right].
    by destruct (proj1 (elem_of_app _ _ _) (V7 rt r0 Hs Ho0)).
  - intros rt r Hr Hd Ho. apply elem_of_cons. destruct (Kun rt r Hr Hd Ho) as [|[Hs Ht]]; [by left|right].
    apply elem_of_app. right. by destruct (proj1 (elem_of_cons _ _ _) (V8 rt r Hs Hd Ho)).
  - intros rt r Hw Hr Hd Hc. destruct (Kkept rt r Hw Hr Hd Hc) as [|[[fl Hn]|(Hs&(r0&Hr0&Hi&Hd0&Hc0)&He&Ht)]]; [by left| |].
    { right. exists fl. apply elem_of_cons. right. apply elem_of_app. by left. }
    rewrite <-Hi in *. destruct (V9 rt r0 Hs Hr0 Hd0 Hc0) as [|[fl Hfl]]; [left; auto|right]. exists fl.
    apply elem_of_cons. right. apply elem_of_app. right. by destruct (proj1 (elem_of_cons _ _ _) Hfl) as [<-|]; [by destruct (Ht fl)|].
  - done.
  - simpl in *. rewrite sum_list_with_app. lia.
Qed.

(** *** Steps that leave the registry alone *)
Definition same_state (s s' : application) : Prop :=
  ap_entries s' = ap_entries s /\ ap_inflight s' = ap_inflight s /\ ap_flights s' = ap_flights s /\ ap_runtimes s' = ap_runtimes s /\
  ap_swept s' = ap_swept s.
Lemma undone_same s s' k : same_state s s' -> undone s' k <-> undone s k.
Proof. intros (He&Hi&Hf&Hr&_). destruct k; simpl; by rewrite ?Hi, ?Hf, ?Hr. Qed.
Lemma holds_same s s' f : same_state s s' -> holds s' f <-> holds s f.
Proof. intros (He&Hi&Hf&Hr&_). destruct f; simpl; unfold has; by rewrite ?Hi, ?Hf, ?Hr. Qed.

Lemma duties_once s t rest : inv s (t :: rest) -> NoDup (duties t) /\ (forall k, k ∈ duties t -> undone s k) /\ (forall f, f ∈ relies t -> holds s f).
Proof.
  intros H. split; [|split].
  - pose proof (v_once _ _ H) as Hn. rewrite bind_cons in Hn. by apply NoDup_app in Hn as (Hn&_).
  - intros k Hk. apply (v_undone _ _ H). rewrite bind_cons. apply elem_of_app. by left.
  - intros f Hf. apply (v_holds _ _ H). rewrite bind_cons. apply elem_of_app. by left.
Qed.

Lemma inv_stays s s' t t' rest : inv s (t :: rest) -> same_state s s' -> duties t' = duties t -> (forall f, f ∈ relies t' -> holds s f) ->
  (forall rt r, t = Open rt -> ap_runtimes s !! rt = Some r -> rn_open r ≠ Unopened) -> (forall id flight rt, t ≠ Tombstone id flight rt) ->
  (ap_active s' + busy t = ap_active s + busy t')%nat -> inv s' (t' :: rest).
Proof.
  intros H Hs Hd Hf Ho Ht Ha. destruct (duties_once _ _ _ H) as (Hn&Hu&_). pose proof Hs as (He&Hi&Hfl&Hr&Hw).
  apply (inv_step s s' t t' [] rest H). destruct H as [V1 V2 V3 V4 V5 V6 V7 V8 V9 V10 V11].
  split; cbn [mbind list_bind]; rewrite ?app_nil_r, ?Hd.
  - apply evolves_same; [done|by rewrite Hfl].
  - intros k Hk _. by rewrite (undone_same s s').
  - done.
  - intros k Hk. split; [rewrite (undone_same s s') by done; by apply Hu|by left].
  - intros f Hin. rewrite (holds_same s s') by done. by apply Hf.
  - intros id rt. rewrite He, !(holds_same s s') by done. apply V4.
  - intros id flight. rewrite Hi, Hfl, He. apply V5.
  - intros flight f. rewrite Hfl. intros Hl Hdone. destruct (decide (Flight (fl_id f) flight ∈ duties t)); [by left|by right].
  - intros rt r. rewrite Hr. intros Hl Hop. destruct (decide (FinishesOpen rt ∈ duties t)); [by left|right]. split; [by exists r|done].
  - intros rt r. rewrite Hr. intros Hl Hrt Hun. right. split; [done|]. intros ->. by apply (Ho rt r).
  - intros rt r. rewrite Hw, He, Hr. intros Hsw Hl Hrt Hc. right; right. split; [done|]. split; [by exists r|]. split; [done|]. intros fl. by apply Ht.
  - intros rt r. rewrite Hr. apply V10.
  - simpl. lia.
Qed.

Lemma lookup_update f rt s rt' : ap_runtimes (update_runtime f rt s) !! rt' = if decide (rt = rt') then f <$> ap_runtimes s !! rt else ap_runtimes s !! rt'.
Proof. apply list_lookup_alter. Qed.

(** A step that only moves one runtime on. *)
Lemma inv_updates s rt r f t t' rest : inv s (t :: rest) -> ap_runtimes s !! rt = Some r -> runtime_le r (f r) -> rn_routed (f r) = rn_routed r ->
  (forall id, r = new_runtime id -> Private rt ∈ duties t) ->
  rn_open (f r) ≠ Unopened -> match rn_open (f r) with Opening | OpenedWith _ => rn_routed r = true | _ => True end ->
  (rn_open r = Opening -> rn_open (f r) = Opening \/ FinishesOpen rt ∈ duties t) ->
  (rn_open (f r) = Opening -> FinishesOpen rt ∈ duties t' \/ rn_open r = Opening /\ FinishesOpen rt ∉ duties t) ->
  (forall rt', FinishesOpen rt' ∈ duties t \/ t = Open rt' -> rt' = rt) ->
  NoDup (duties t') -> (forall k, k ∈ duties t' -> k ∈ duties t /\ k ≠ Private rt /\ k ≠ FinishesOpen rt \/ k = FinishesOpen rt /\ rn_open (f r) = Opening /\ rn_open r ≠ Opening) ->
  (forall id flight, Flight id flight ∈ duties t -> Flight id flight ∈ duties t') ->
  (forall id flight rt, t ≠ Tombstone id flight rt) ->
  (forall k, k ∈ relies t' -> holds (update_runtime f rt s) k) -> busy t' = busy t -> inv (update_runtime f rt s) (t' :: rest).
Proof.
  intros H Hl Hle Hrd Hpriv Hun Hrt Hop Hop' Honly Hn Hk Hfl Htomb Hrel Hb. destruct (duties_once _ _ _ H) as (_&Hu&_).
  apply (inv_step s (update_runtime f rt s) t t' [] rest H). destruct H as [V1 V2 V3 V4 V5 V6 V7 V8 V9 V10 V11].
  assert (Hev : evolves s (update_runtime f rt s)).
  { split; [|done]. intros rt' r' Hr'. rewrite lookup_update. destruct (decide (rt = rt')) as [<-|]; [|by exists r'].
    rewrite Hl in Hr' |- *. injection Hr' as <-. by exists (f r). }
  assert (Hund : forall k, undone s k -> k ≠ Private rt \/ r ≠ new_runtime (rn_id r) -> (k = FinishesOpen rt -> rn_open (f r) = Opening) -> undone (update_runtime f rt s) k).
  { intros [id fl|rt'|rt'] Hund Hp Ho; [done| |].
    - destruct Hund as [id Hid]. exists id. rewrite lookup_update. destruct (decide (rt = rt')) as [<-|]; [|done].
      rewrite Hid in Hl. injection Hl as <-. by destruct Hp.
    - destruct Hund as (r'&Hr'&Hr''). exists (if decide (rt = rt') then f r else r'). rewrite lookup_update. destruct (decide (rt = rt')) as [<-|]; [|done].
      rewrite Hl. split; [done|by apply Ho]. }
  split; cbn [mbind list_bind]; rewrite ?app_nil_r; try done.
  - intros k Hk' Hnot. apply Hund; [done| |].
    + destruct (decide (k = Private rt)) as [->|]; [right|by left]. intros Hr. apply Hnot. by apply (Hpriv (rn_id r)).
    + intros ->. destruct Hk' as (r'&Hr'&Hr''). rewrite Hl in Hr'. injection Hr' as <-. by destruct (Hop Hr'').
  - intros k Hin. destruct (Hk k Hin) as [(Hin'&Hne&Hne')|(->&Ho&Hno)].
    + split; [|by left]. apply Hund; [by apply Hu|by left|done].
    + split; [exists (f r); rewrite lookup_update, decide_True, Hl by done; by split|]. right. intros (r'&Hr'&Hr''). rewrite Hl in Hr'. by injection Hr' as <-.
  - intros id rt' Hid. destruct (V4 id rt' Hid). by split; eapply holds_evolves.
  - intros flight g Hf Hd. destruct (decide (Flight (fl_id g) flight ∈ duties t)); [left; by apply Hfl|by right].
  - intros rt' r'. rewrite lookup_update. destruct (decide (rt = rt')) as [<-|Hne].
    + rewrite Hl. intros [= <-] Ho. destruct (Hop' Ho) as [|[? ?]]; [by left|right]. split; [by exists r|done].
    + intros Hr' Ho. right. split; [by exists r'|]. intros Hin. destruct Hne. symmetry. apply Honly. by left.
  - intros rt' r'. rewrite lookup_update. destruct (decide (rt = rt')) as [<-|Hne].
    + rewrite Hl. by intros [= <-].
    + intros Hr' _ _. right. split; [done|]. intros ->. destruct Hne. symmetry. apply Honly. by right.
  - intros rt' r' Hsw. rewrite lookup_update. destruct (decide (rt = rt')) as [<-|Hne].
    + rewrite Hl. intros [= <-] Hd Hc. right; right. rewrite (le_id _ _ Hle). split; [done|]. split; [|split; [done|intros fl; apply Htomb]].
      exists r. rewrite Hrd in Hd. split_and!; [done..|]. destruct (rn_closed r) eqn:Ec; [|done]. by rewrite (le_closed _ _ Hle Ec) in Hc.
    + intros Hr' Hd Hc. right; right. split; [done|]. split; [by exists r'|]. split; [done|intros fl; apply Htomb].
  - intros rt' r'. rewrite lookup_update. destruct (decide (rt = rt')) as [<-|Hne]; [|apply V10].
    rewrite Hl. intros [= <-]. by rewrite Hrd.
  - simpl. lia.
Qed.

(** *** Every step *)
Definition keeps (rest : list thread) (p : progress) : Prop :=
  match p with
  | None => True
  | Some (Ok (s, t, new)) => inv s (t :: new ++ rest)
  | Some _ => False
  end.

(** A call that is neither about to open a runtime nor a goroutine of
    [markClosing]. *)
Definition plain_call (t : thread) : bool := match t with Open _ | Tombstone _ _ _ => false | _ => true end.

Lemma step_keeps_goes s s' t t' rest : inv s (t :: rest) -> same_state s s' -> plain_call t = true -> duties t' = duties t ->
  (forall f, f ∈ relies t' -> holds s f) -> (ap_active s' + busy t = ap_active s + busy t')%nat -> keeps rest (goes s' t').
Proof.
  intros H Hs Hp Hd Hf Ha. apply (inv_stays s s' t t' rest); [done..| | |done].
  - intros rt r ->. discriminate Hp.
  - intros id flight rt ->. discriminate Hp.
Qed.

Lemma step_keeps_finish s t rest err : inv s (t :: rest) -> plain_call t = true -> duties t = [] -> busy t = 1%nat -> keeps rest (finish s err).
Proof.
  intros H Hp Hd Hb. unfold finish. eapply step_keeps_goes; [done|done|done|done|by intros f ?%elem_of_nil|].
  pose proof (v_active _ _ H) as Ha. simpl in *. lia.
Qed.

(** What a call knows of its runtime. *)
Lemma relied s t rest f : inv s (t :: rest) -> f ∈ relies t -> holds s f.
Proof. intros H. by apply (duties_once _ _ _ H). Qed.
Lemma has_runtime s rt P r : has s rt P -> ap_runtimes s !! rt = Some r -> P r.
Proof. intros (r'&Hr'&HP) Hr. by rewrite Hr in Hr'; injection Hr' as <-. Qed.

(** **** Flights *)
Lemma undone_new_flight s id k : (forall id flight, ap_inflight s !! id = Some flight -> (flight < length (ap_flights s))%nat) ->
  ap_inflight s !! id = None -> undone s k -> undone (new_flight s id) k.
Proof.
  intros Hlt Hi. destruct k as [id' fl|rt|rt]; [|done..]. intros [Hin Hf]. simpl. split.
  - rewrite lookup_insert_ne; [done|]. intros ->. congruence.
  - apply lookup_app_l_Some, Hf.
Qed.

Lemma new_flight_ok s t t' new rest id entries : inv s (t :: rest) -> ap_inflight s !! id = None ->
  plain_call t = true -> duties t = [] -> duties t' ++ (new ≫= duties) = [Flight id (length (ap_flights s))] ->
  entries !! id = None -> (forall id' rt, entries !! id' = Some rt -> ap_entries s !! id' = Some rt) ->
  (forall id' rt, ap_entries s !! id' = Some rt -> entries !! id' = Some rt \/ id' = id /\ exists fl, Tombstone id fl rt ∈ new) ->
  (forall f, f ∈ relies t' ++ (new ≫= relies) -> holds s f) -> busy t = (busy t' + sum_list_with busy new)%nat ->
  inv (set_registry s entries (<[id := length (ap_flights s)]> (ap_inflight s)) (ap_flights s ++ [MkFlight id false None])) (t' :: new ++ rest).
Proof.
  intros H Hi Hp Hd Hk He Hsub Hsup Hrel Hb. apply (inv_step s _ t t' new rest H).
  destruct H as [V1 V2 V3 V4 V5 V6 V7 V8 V9 V10 V11].
  assert (Hlt : forall id flight, ap_inflight s !! id = Some flight -> (flight < length (ap_flights s))%nat).
  { intros id' fl [Hf _]%V5. by apply lookup_lt_Some in Hf. }
  assert (Hev : evolves s (set_registry s entries (<[id := length (ap_flights s)]> (ap_inflight s)) (ap_flights s ++ [MkFlight id false None]))).
  { split; [intros rt r Hr; by exists r|simpl; rewrite length_app; lia]. }
  split; rewrite ?Hk, ?Hd; simpl; try done.
  - intros k Hund _. apply (undone_new_flight s id k) in Hund; [|done..]. by destruct k.
  - apply NoDup_singleton.
  - intros k ->%list_elem_of_singleton. split; [|right; intros [Hin _]; simpl in Hin; congruence]. simpl.
    rewrite lookup_insert_eq. split; [done|]. by apply list_lookup_middle.
  - intros f Hin. eapply holds_evolves; [done|]. by apply Hrel.
  - intros id' rt Hid. apply (V4 id'), Hsub, Hid.
  - intros id' fl. destruct (decide (id = id')) as [<-|Hne].
    + rewrite lookup_insert_eq. intros [= <-]. split; [by apply list_lookup_middle|done].
    + rewrite lookup_insert_ne by done. intros Hin. destruct (V5 _ _ Hin) as [Hf Hn]. split; [by apply lookup_app_l_Some|].
      destruct (entries !! id') as [rt|] eqn:E; [|done]. apply Hsub in E. congruence.
  - intros fl f Hf Hdone. apply lookup_app_Some in Hf as [Hf|[Hle Hf]]; [right; split; [done|by intros ?%elem_of_nil]|left].
    destruct (fl - length (ap_flights s))%nat eqn:E; [|done]. injection Hf as <-. replace fl with (length (ap_flights s)) by lia. by apply list_elem_of_singleton.
  - intros rt r Hr Ho. right. split; [by exists r|by intros ?%elem_of_nil].
  - intros rt r Hr Hrt Hun. right. split; [done|]. by intros ->.
  - intros rt r Hsw Hr Hrt Hc. destruct (V9 rt r Hsw Hr Hrt Hc) as [Hen|[fl Hfl]].
    + destruct (Hsup _ _ Hen) as [|[-> Hfl]]; [by left|by right; left].
    + right; right. split; [done|]. split; [by exists r|]. split; [|by intros fl' ->].
      intros Hen. destruct (Hsup _ _ Hen) as [|[Hid _]]; [done|]. exfalso.
      assert (Hu : undone s (Flight (rn_id r) fl)).
      { apply V1. apply list_elem_of_bind. exists (Tombstone (rn_id r) fl rt). split; [by apply list_elem_of_singleton|done]. }
      destruct Hu as [Hu _]. congruence.
  - lia.
Qed.

Lemma inv_land s t t' rest id flight err : inv s (t :: rest) -> duties t = Flight id flight :: duties t' ->
  (forall f, f ∈ relies t' -> holds s f) -> (forall rt, t ≠ Open rt) -> busy t' = busy t ->
  (forall id flight rt, t = Tombstone id flight rt -> holds s (IsClosed rt)) ->
  inv (set_registry s (ap_entries s) (delete id (ap_inflight s)) (<[flight := MkFlight id true err]> (ap_flights s))) (t' :: rest).
Proof.
  intros H Hd Hf Ho Hb Ht. destruct (duties_once _ _ _ H) as (Hn&Hu&_). rewrite Hd in Hn, Hu. apply NoDup_cons in Hn as [Hnot Hn].
  destruct (Hu (Flight id flight)) as [Hin Hfl]; [by left|]. pose proof (lookup_lt_Some _ _ _ Hfl) as Hlt.
  apply (inv_step s _ t t' [] rest H). destruct H as [V1 V2 V3 V4 V5 V6 V7 V8 V9 V10 V11].
  assert (Hund : forall k, undone s k -> k ≠ Flight id flight ->
    undone (set_registry s (ap_entries s) (delete id (ap_inflight s)) (<[flight := MkFlight id true err]> (ap_flights s))) k).
  { intros [id' fl|rt|rt] Hk Hne; [|done..]. destruct Hk as [Hk1 Hk2]. simpl. assert (id' ≠ id) by (intros ->; congruence).
    split; [by rewrite lookup_delete_ne|]. rewrite list_lookup_insert_ne; [done|]. intros ->. congruence. }
  split; cbn [mbind list_bind]; rewrite ?app_nil_r, ?Hd; try done.
  - apply evolves_same; [done|]. simpl. apply length_insert.
  - intros k Hk Hk'. apply Hund; [done|]. intros ->. apply Hk'. by left.
  - intros k Hk. split; [|left; by right]. apply Hund; [apply Hu; by right|]. by intros ->.
  - intros f Hk. apply (holds_evolves s); [apply evolves_same; [done|simpl; apply length_insert]|]. by apply Hf.
  - intros id' fl. simpl. intros [Hne Hk]%lookup_delete_Some. destruct (V5 _ _ Hk) as [Hk1 Hk2]. split; [|done].
    rewrite list_lookup_insert_ne; [done|]. intros ->. congruence.
  - intros fl f. simpl. destruct (decide (flight = fl)) as [<-|Hne].
    + rewrite list_lookup_insert_eq by done. by intros [= <-].
    + rewrite list_lookup_insert_ne by done. intros Hk Hdone. destruct (decide (Flight (fl_id f) fl ∈ Flight id flight :: duties t')) as [Hk'|]; [|by right].
      apply elem_of_cons in Hk' as [[= ? ->]|]; [done|by left].
  - intros rt r Hr Hop. destruct (decide (FinishesOpen rt ∈ Flight id flight :: duties t')) as [Hk|]; [left|right; split; [by exists r|done]].
    by apply elem_of_cons in Hk as [|].
  - intros rt r Hr Hrt Hun. right. by split.
  - intros rt r Hsw Hr Hrt Hc. right; right. split; [done|]. split; [by exists r|]. split; [done|]. intros fl ->.
    pose proof (has_runtime _ _ _ _ (Ht _ _ _ eq_refl) Hr). simpl in *. congruence.
  - simpl. lia.
Qed.

Lemma inv_enter s rt r rest : inv s (Register rt :: rest) -> ap_runtimes s !! rt = Some r -> ap_entries s !! rn_id r = None -> ap_inflight s !! rn_id r = None ->
  inv (update_runtime set_routed rt (set_registry s (<[rn_id r := rt]> (ap_entries s)) (ap_inflight s) (ap_flights s))) (Open rt :: rest).
Proof.
  intros H Hr He Hi. destruct (duties_once _ _ _ H) as (_&Hu&_). destruct (Hu (Private rt)) as [id Hid]; [by left|].
  rewrite Hid in Hr. injection Hr as <-. simpl in *. apply (inv_step s _ (Register rt) (Open rt) [] rest H).
  destruct H as [V1 V2 V3 V4 V5 V6 V7 V8 V9 V10 V11].
  set (s' := update_runtime set_routed rt (set_registry s (<[id:=rt]> (ap_entries s)) (ap_inflight s) (ap_flights s))).
  assert (Hl : forall rt', ap_runtimes s' !! rt' = if decide (rt = rt') then Some (set_routed (new_runtime id)) else ap_runtimes s !! rt').
  { intros rt'. unfold s'. rewrite lookup_update. simpl. rewrite Hid. by destruct (decide _). }
  assert (Hev : evolves s s').
  { split; [|done]. intros rt' r'. rewrite Hl. destruct (decide (rt = rt')) as [<-|]; [|by exists r']. rewrite Hid. intros [= <-]. by eexists. }
  split; cbn [mbind list_bind duties relies]; rewrite ?app_nil_r; try done.
  - intros [id' fl|rt'|rt'] Hk Hne; [done| |].
    + destruct Hk as [id' Hk]. exists id'. rewrite Hl. destruct (decide (rt = rt')) as [<-|]; [|done]. destruct Hne. by left.
    + destruct Hk as (r'&Hk&Ho). exists r'. rewrite Hl. destruct (decide (rt = rt')) as [<-|]; [|done]. rewrite Hid in Hk. by injection Hk as <-.
  - constructor.
  - by intros k ?%elem_of_nil.
  - intros f ->%list_elem_of_singleton. exists (set_routed (new_runtime id)). rewrite Hl. by rewrite decide_True.
  - intros id' rt' Hk. simpl in Hk. apply lookup_insert_Some in Hk as [[<- <-]|[Hne Hk]].
    + split; exists (set_routed (new_runtime id)); rewrite Hl; by rewrite decide_True.
    + destruct (V4 _ _ Hk). by split; eapply holds_evolves.
  - intros id' fl Hk. destruct (V5 _ _ Hk). split; [done|]. simpl. rewrite lookup_insert_ne; [done|]. intros <-. simpl in Hk. congruence.
  - intros fl f Hk Hdone. right. split; [done|]. by intros [|?%elem_of_nil]%elem_of_cons.
  - intros rt' r'. rewrite Hl. destruct (decide (rt = rt')) as [<-|]; [by intros [= <-]|]. intros Hk Ho. right. split; [by exists r'|].
    by intros [|?%elem_of_nil]%elem_of_cons.
  - intros rt' r'. rewrite Hl. destruct (decide (rt = rt')) as [<-|]; [by left|by right].
  - intros rt' r' Hsw. rewrite Hl. destruct (decide (rt = rt')) as [<-|Hne].
    + intros [= <-] _ _. left. simpl. by rewrite lookup_insert_eq.
    + intros Hk Hrt Hc. right; right. split; [done|]. split; [by exists r'|]. split; [|done]. intros Hen. simpl. rewrite lookup_insert_ne; [done|]. congruence.
  - intros rt' r'. rewrite Hl. destruct (decide (rt = rt')) as [<-|]; [by intros [= <-]|apply V10].
Qed.

Lemma inv_create s id t t' rest : inv s (t :: rest) -> plain_call t = true -> duties t' = duties t ++ [Private (length (ap_runtimes s))] ->
  (forall f, f ∈ relies t' -> holds s f) -> busy t' = busy t -> inv (set_runtimes s (ap_runtimes s ++ [new_runtime id])) (t' :: rest).
Proof.
  intros H Hp Hd Hf Hb. destruct (duties_once _ _ _ H) as (Hn&Hu&_). apply (inv_step s _ t t' [] rest H).
  destruct H as [V1 V2 V3 V4 V5 V6 V7 V8 V9 V10 V11].
  set (s' := set_runtimes s (ap_runtimes s ++ [new_runtime id])).
  assert (Hl : forall rt r, ap_runtimes s' !! rt = Some r -> ap_runtimes s !! rt = Some r \/ rt = length (ap_runtimes s) /\ r = new_runtime id).
  { intros rt r [Hr|[Hle Hr]]%lookup_app_Some; [by left|right]. destruct (rt - _)%nat eqn:E; [|done]. injection Hr as <-. split; [lia|done]. }
  assert (Hsub : forall rt r, ap_runtimes s !! rt = Some r -> ap_runtimes s' !! rt = Some r) by (intros; by apply lookup_app_l_Some).
  assert (Hev : evolves s s') by (split; [intros rt r Hr; exists r; split; [by apply Hsub|done]|done]).
  assert (Hnew : ap_runtimes s !! length (ap_runtimes s) = None) by (by apply lookup_ge_None).
  assert (Hund : forall k, undone s k -> undone s' k).
  { intros [id' fl|rt|rt] Hk; [done| |]; [destruct Hk as [id' Hk]; exists id'; by apply Hsub|destruct Hk as (r&Hk&Ho); exists r; split; [by apply Hsub|done]]. }
  assert (Hnew' : ~ undone s (Private (length (ap_runtimes s)))) by (intros [id' Hk]; congruence).
  split; cbn [mbind list_bind]; rewrite ?app_nil_r, ?Hd; try done.
  - intros k Hk _. by apply Hund.
  - apply NoDup_app. split; [done|]. split; [|apply NoDup_singleton]. intros k Hk ->%list_elem_of_singleton. by apply Hnew', Hu.
  - intros k [Hk| ->%list_elem_of_singleton]%elem_of_app; [split; [by apply Hund, Hu|by left]|]. split; [|by right].
    exists id. by apply list_lookup_middle.
  - intros f Hk. eapply holds_evolves; [done|]. by apply Hf.
  - intros id' rt Hk. destruct (V4 _ _ Hk). by split; eapply holds_evolves.
  - intros fl f Hk Hdone. destruct (decide (Flight (fl_id f) fl ∈ duties t)); [left; apply elem_of_app; by left|by right].
  - intros rt r [Hr|[-> ->]]%Hl Ho; [|done]. destruct (decide (FinishesOpen rt ∈ duties t)); [left; apply elem_of_app; by left|right].
    split; [by exists r|done].
  - intros rt r [Hr|[-> ->]]%Hl Hrt Hun; [|done]. right. split; [done|]. by intros ->.
  - intros rt r Hsw [Hr|[-> ->]]%Hl Hrt Hc; [|done]. right; right. split; [done|]. split; [by exists r|]. split; [done|]. by intros fl ->.
  - intros rt r [Hr|[-> ->]]%Hl; [by apply (V10 rt)|done].
  - simpl. lia.
Qed.

(** [discard] and [closeAll] only take away entries of runtimes that are closed
    or no longer counted. *)
Lemma inv_forget s entries swept t rest : inv s (t :: rest) -> (forall id rt, entries !! id = Some rt -> ap_entries s !! id = Some rt) ->
  (swept = false -> ap_swept s = false) ->
  (forall id rt, swept = false -> ap_entries s !! id = Some rt -> entries !! id = Some rt \/ holds s (IsClosed rt)) ->
  inv (MkApplication entries (ap_inflight s) (ap_flights s) (ap_runtimes s) (ap_started s) (ap_active s) swept) (t :: rest).
Proof.
  intros [V1 V2 V3 V4 V5 V6 V7 V8 V9 V10 V11] Hsub Hsw Hsup. split; try done.
  - intros id rt Hk. apply (V4 id). by apply Hsub.
  - intros id fl Hk. destruct (V5 _ _ Hk) as [Hf Hn]. split; [done|]. destruct (entries !! id) as [rt|] eqn:E; [|done]. apply Hsub in E. congruence.
  - intros rt r Hw Hr Hrt Hc. simpl in *. destruct (V9 rt r (Hsw Hw) Hr Hrt Hc) as [Hen|]; [|by right].
    destruct (Hsup _ _ Hw Hen) as [|Hcl]; [by left|]. pose proof (has_runtime _ _ _ _ Hcl Hr). simpl in *. congruence.
Qed.

(** *** Calls, one by one *)
Lemma same_state_refl s : same_state s s.
Proof. done. Qed.
Ltac go := eapply step_keeps_goes; [eassumption|first [apply same_state_refl|done]|done|done| |simpl; lia].
Ltac ends := eapply step_keeps_finish; [eassumption|done..].

Lemma step_keeps_select a ready rest (f : bool -> progress) :
  ((ready = true \/ an_canceled a = true) -> keeps rest (f true) /\ keeps rest (f false)) \/
  ((ready = true -> keeps rest (f true)) /\ (keeps rest (f false))) ->
  keeps rest (channel ← select a ready; f channel).
Proof.
  unfold select. destruct ready; simpl.
  - intros [H|[H1 H2]]; [destruct H as [H1 H2]; [by left|]|specialize (H1 eq_refl)]; by destruct (negb _ || _).
  - destruct (an_canceled a); simpl; [|done]. intros [H|[_ H]]; [apply H; by right|done].
Qed.
Lemma step_keeps_on s rt rest (f : runtime -> progress) : (forall r, ap_runtimes s !! rt = Some r -> keeps rest (f r)) -> keeps rest (r ← ap_runtimes s !! rt; f r).
Proof. intros H. destruct (ap_runtimes s !! rt) as [r|]; simpl; [by apply H|done]. Qed.

Lemma check_config_total op config m : check_config op config ≠ Panic m.
Proof. unfold check_config, Config_Validate, reject_if. by destruct config; repeat case_match. Qed.
Lemma check_operation_total o m : check_operation o ≠ Panic m.
Proof.
  pose proof check_config_total as Hc.
  destruct o; simpl; unfold reject_if; repeat match goal with |- context [if ?b then _ else _] => destruct b end; simpl; try done; apply Hc.
Qed.

Lemma step_keeps_start a s o rest : inv s (Start o :: rest) -> keeps rest (start_operation a s o).
Proof.
  intros H. unfold start_operation. destruct (an_canceled a); [go; by intros f ?%elem_of_nil|].
  destruct (negb (ap_started s)); [go; by intros f ?%elem_of_nil|].
  destruct (check_operation o) eqn:E; [| |by apply check_operation_total in E].
  - destruct o; (go; by intros f ?%elem_of_nil).
  - unfold finish. simpl. go; by intros f ?%elem_of_nil.
Qed.

Lemma step_keeps_make a s t next failed rest : inv s (t :: rest) -> plain_call t = true -> duties (next (length (ap_runtimes s))) = duties t ++ [Private (length (ap_runtimes s))] ->
  relies (next (length (ap_runtimes s))) = [] -> busy (next (length (ap_runtimes s))) = busy t -> (forall err, keeps rest (failed err)) -> keeps rest (make a s next failed).
Proof.
  intros H Hp Hd Hr Hb Hf. unfold make. destruct (an_session a) as [id|err]; [|done]. apply (inv_create s id t); [done..| |done].
  rewrite Hr. by intros f ?%elem_of_nil.
Qed.

Lemma step_keeps_register a s rt r rest : inv s (Register rt :: rest) -> ap_runtimes s !! rt = Some r -> keeps rest (register a s rt r).
Proof.
  intros H Hr. unfold register, add, reject_if. destruct (an_canceled a); [go; by intros f ?%elem_of_nil|].
  destruct (ap_entries s !! rn_id r) eqn:He; simpl; [go; by intros f ?%elem_of_nil|].
  destruct (ap_inflight s !! rn_id r) eqn:Hi; simpl; [go; by intros f ?%elem_of_nil|]. by apply (inv_enter s rt r).
Qed.

Lemma entry_holds s ts id rt : inv s ts -> ap_entries s !! id = Some rt -> holds s (IsRouted rt) /\ holds s (IsFor rt id).
Proof. intros H. apply (v_entries _ _ H). Qed.
Lemma flight_exists s ts id flight : inv s ts -> ap_inflight s !! id = Some flight -> holds s (IsFlight flight).
Proof. intros H Hi. apply (v_inflight _ _ H) in Hi as [Hf _]. by apply lookup_lt_Some in Hf. Qed.

Lemma step_keeps_getOrCreate s id rest : inv s (GetOrCreate id :: rest) -> keeps rest (getOrCreate s id).
Proof.
  intros H. unfold getOrCreate. destruct (ap_entries s !! id) as [rt|] eqn:He.
  { go. intros f ->%list_elem_of_singleton. by destruct (entry_holds _ _ _ _ H He). }
  destruct (ap_inflight s !! id) as [flight|] eqn:Hi.
  { go. intros f ->%list_elem_of_singleton. by apply (flight_exists _ _ _ _ H Hi). }
  apply (new_flight_ok s (GetOrCreate id) (Make id (length (ap_flights s))) [] rest id (ap_entries s)); try done.
  - intros; by left.
  - by intros f ?%elem_of_nil.
Qed.

Lemma step_keeps_await_flight a s id flight rest : inv s (AwaitFlight id flight :: rest) -> keeps rest (await_flight a s id flight).
Proof.
  intros H. unfold await_flight. destruct (ap_flights s !! flight) as [f|]; [|done]. apply step_keeps_select. right. split; [intros _|by ends].
  destruct (fl_err f) as [err|]; [destruct (_ && _)|]; [go; by intros k ?%elem_of_nil|by ends|go; by intros k ?%elem_of_nil].
Qed.

Lemma step_keeps_made a s id flight rt r rest : inv s (Made id flight rt :: rest) -> ap_runtimes s !! rt = Some r -> keeps rest (made a s id flight rt r).
Proof.
  intros H Hr. unfold made. destruct (an_canceled a); [go; by intros f ?%elem_of_nil|].
  destruct (String.eqb_spec (rn_id r) id) as [Hid|]; [|go; by intros f ?%elem_of_nil].
  go. intros f ->%list_elem_of_singleton. by exists r.
Qed.

(** An aborted runtime was only known to its creator. *)
Lemma step_keeps_abort s rt r err next rest : inv s (Aborting rt err next :: rest) -> ap_runtimes s !! rt = Some r -> keeps rest (abortOpen s rt r err next).
Proof.
  intros H Hr. destruct (duties_once _ _ _ H) as (Hn&Hu&Hrel). simpl in Hn. apply NoDup_app in Hn as (Hn&_).
  destruct (Hu (Private rt)) as [id Hid]; [simpl; apply elem_of_app; right; by left|]. rewrite Hr in Hid. injection Hid as ->. simpl.
  assert (Hnext : forall k, k ∈ next_duties next -> exists id flight, k = Flight id flight).
  { destruct next as [|id' fl| |]; simpl; intros k Hk; [by apply elem_of_nil in Hk| |by apply elem_of_nil in Hk..].
    apply list_elem_of_singleton in Hk as ->. by eexists _, _. }
  eapply (inv_updates s rt (new_runtime id) (set_open (AbortedWith err)) (Aborting rt err next) (Close rt next)); [done|done|by split|done|..]; simpl.
  - intros _ _. apply elem_of_app. right. by left.
  - done.
  - done.
  - done.
  - done.
  - intros rt' [Hin|]; [|done]. apply elem_of_app in Hin as [Hin|[|?%elem_of_nil]%elem_of_cons]; [|done..]. by destruct (Hnext _ Hin) as (?&?&?).
  - done.
  - intros k Hk. left. destruct (Hnext _ Hk) as (?&?&->). split; [|done]. apply elem_of_app. by left.
  - intros id' fl [Hin|[|?%elem_of_nil]%elem_of_cons]%elem_of_app; done.
  - done.
  - destruct next; simpl in *; [| |by destruct (Hrel Impossible); left..]; intros k ->%list_elem_of_singleton;
      exists (set_open (AbortedWith err) (new_runtime id)); rewrite lookup_update, decide_True, Hr by done; done.
  - destruct next; try done. by destruct (Hrel Impossible); left.
Qed.

Lemma inv_stays_open s rt r rest : inv s (Open rt :: rest) -> ap_runtimes s !! rt = Some r -> rn_open r ≠ Unopened -> rn_open r ≠ Opening ->
  inv s (AwaitOpen rt :: rest).
Proof.
  intros H Hr Hu Ho. apply (inv_stays s s (Open rt)); try done.
  - simpl. intros f [->| ->%list_elem_of_singleton]%elem_of_cons; [apply (relied _ _ _ _ H); by left|]. exists r. split; [done|].
    unfold open_result. by destruct (rn_open r).
  - intros rt' r' [= <-] Hr'. rewrite Hr in Hr'. by injection Hr' as <-.
Qed.
Lemma step_keeps_open s rt r rest : inv s (Open rt :: rest) -> ap_runtimes s !! rt = Some r -> keeps rest (open s rt r).
Proof.
  intros H Hr. pose proof (relied _ _ _ (IsRouted rt) H ltac:(by left)) as Hrt. apply (has_runtime _ _ _ r) in Hrt; [|done].
  unfold open. destruct (rn_open r) eqn:Ho; [|done|by apply (inv_stays_open s rt r); rewrite ?Ho..].
  eapply (inv_updates s rt r (set_open Opening) (Open rt) (FinishOpen rt)); simpl; try done.
  - split; try done. by unfold open_result; rewrite Ho.
  - by intros id ->.
  - by left.
  - intros _. left. by left.
  - by intros rt' [?%elem_of_nil|[= <-]].
  - apply NoDup_singleton.
  - intros k ->%list_elem_of_singleton. right. by rewrite Ho.
  - by intros id fl ?%elem_of_nil.
  - intros f ->%list_elem_of_singleton. exists (set_open Opening r). by rewrite lookup_update, decide_True, Hr.
Qed.
Lemma step_keeps_finishOpen s rt err rest : inv s (FinishOpen rt :: rest) -> keeps rest (goes (update_runtime (set_open (OpenedWith err)) rt s) (AwaitOpen rt)).
Proof.
  intros H. pose proof (relied _ _ _ (IsRouted rt) H ltac:(by left)) as (r&Hr&Hrt).
  destruct (duties_once _ _ _ H) as (_&Hu&_). destruct (Hu (FinishesOpen rt) ltac:(by left)) as (r'&Hr'&Ho). rewrite Hr in Hr'. injection Hr' as <-.
  eapply (inv_updates s rt r (set_open (OpenedWith err)) (FinishOpen rt) (AwaitOpen rt)); simpl; try done.
  - split; try done. by unfold open_result; rewrite Ho.
  - by intros id ->.
  - right; by left.
  - by intros rt' [[= <-]%list_elem_of_singleton|].
  - constructor.
  - by intros k ?%elem_of_nil.
  - by intros id fl ?%list_elem_of_singleton.
  - intros f [->| ->%list_elem_of_singleton]%elem_of_cons; exists (set_open (OpenedWith err) r); by rewrite lookup_update, decide_True, Hr.
Qed.

Lemma step_keeps_after_closed s t rt err next rest : inv s (t :: rest) -> plain_call t = true -> duties t = next_duties next ->
  (forall f, f ∈ next_facts next -> holds s f) -> busy t = match next with AfterSweep _ _ => 0 | _ => 1 end%nat ->
  (forall cause, next = AfterOpen cause -> holds s (IsClosed rt)) -> keeps rest (after_closed s rt err next).
Proof.
  intros H Hp Hd Hf Hb Hc. destruct next as [cause|id flight cause|cause|others errs]; simpl in *.
  - by ends.
  - eapply step_keeps_goes; [done..| |simpl; lia]. by intros f ?%elem_of_nil.
  - eapply step_keeps_goes; [done..| |simpl; lia]. intros f ->%list_elem_of_singleton. by apply (Hc cause).
  - eapply step_keeps_goes; [done..| |simpl; lia]. done.
Qed.

Lemma step_keeps_close a s rt r next rest : inv s (Close rt next :: rest) -> ap_runtimes s !! rt = Some r -> keeps rest (close a s rt r next).
Proof.
  intros H Hr. destruct (duties_once _ _ _ H) as (Hn&Hu&Hrel). unfold close.
  assert (Hnext : forall f, f ∈ next_facts next -> holds s f) by (intros f Hf; apply Hrel; by right).
  destruct (present (open_result r)) eqn:Ho.
  2: { destruct next as [cause|id flight cause|cause|others errs].
    1-3: by pose proof (has_runtime _ _ _ _ (Hrel (IsDone rt) ltac:(by left)) Hr) as Hd; simpl in Hd; congruence.
    apply step_keeps_select. right. split; [done|]. by eapply step_keeps_after_closed. }
  assert (Hcl : keeps rest (goes (if rn_closing r then s else update_runtime set_closing rt s) (AwaitClosed rt next))).
  { destruct (rn_closing r) eqn:Ec.
    - eapply step_keeps_goes; [done..| |by destruct next]. intros f [->|Hf]%elem_of_cons; [by exists r|by apply Hnext].
    - eapply (inv_updates s rt r set_closing (Close rt next) (AwaitClosed rt next)); simpl; try done.
      + intros id ->. done.
      + intros Hun. unfold open_result in Ho. by rewrite Hun in Ho.
      + apply (v_routed _ _ H rt r Hr).
      + intros Hop. unfold open_result in Ho. by rewrite Hop in Ho.
      + intros Hop. unfold open_result in Ho. by rewrite Hop in Ho.
      + intros rt' [Hin|]; [|done]. destruct next; simpl in Hin; set_solver.
      + intros k Hk. left. split; [done|]. destruct next; simpl in Hk; set_solver.
      + intros f [->|Hf]%elem_of_cons.
        * exists (set_closing r). by rewrite lookup_update, decide_True, Hr.
        * destruct next; simpl in Hf; try by apply elem_of_nil in Hf. apply list_elem_of_fmap in Hf as (x&->&Hx).
          destruct (Hnext (IsRouted x)) as (r'&Hr'&Hrt); [by apply list_elem_of_fmap; exists x|].
          exists (if decide (rt = x) then set_closing r' else r'). rewrite lookup_update. destruct (decide (rt = x)) as [<-|]; [by rewrite Hr'|done]. }
  destruct next as [cause|id flight cause|cause|others errs]; try done.
  apply (step_keeps_select a true rest). left. intros _. split; [done|]. by eapply step_keeps_after_closed.
Qed.

Lemma step_keeps_await_closed a s rt r next rest : inv s (AwaitClosed rt next :: rest) -> ap_runtimes s !! rt = Some r -> keeps rest (await_closed a s rt r next).
Proof.
  intros H Hr. destruct (duties_once _ _ _ H) as (_&_&Hrel). unfold await_closed.
  assert (Hnext : forall f, f ∈ next_facts next -> holds s f) by (intros f Hf; apply Hrel; by right).
  destruct (rn_closed r) eqn:Ec.
  - apply step_keeps_select. left. intros _. split; eapply step_keeps_after_closed; try done; intros cause _; by exists r.
  - destruct next; try done. apply (step_keeps_select a false rest). right. split; [done|]. by eapply step_keeps_after_closed.
Qed.

Lemma step_keeps_discard s rt r err out rest : inv s (Discard rt err :: rest) -> ap_runtimes s !! rt = Some r -> keeps rest (finish (discard s rt r) out).
Proof.
  intros H Hr. apply (step_keeps_finish _ (Discard rt err) rest); [|done..]. unfold discard.
  case_bool_decide as He; [|done]. apply (inv_forget s); [done| |done|].
  - intros id rt' [_ Hk]%lookup_delete_Some. done.
  - intros id rt' _ Hk. destruct (decide (rn_id r = id)) as [<-|Hne]; [right|left; by rewrite lookup_delete_ne].
    rewrite He in Hk. injection Hk as <-. apply (relied _ _ _ _ H). by left.
Qed.

Lemma step_keeps_wait s id rest : inv s (Wait id :: rest) -> keeps rest (wait s id).
Proof.
  intros H. unfold wait. destruct (ap_entries s !! id) as [rt|] eqn:He.
  { go. intros f [->| ->%list_elem_of_singleton]%elem_of_cons; by destruct (entry_holds _ _ _ _ H He). }
  destruct (ap_inflight s !! id) as [flight|] eqn:Hi; [|by ends]. go. intros f ->%list_elem_of_singleton. by apply (flight_exists _ _ _ _ H Hi).
Qed.

Lemma step_keeps_markClosing s id rt rest : inv s (MarkClosing id rt :: rest) -> keeps rest (markClosing s id rt).
Proof.
  intros H. destruct (duties_once _ _ _ H) as (_&_&Hrel). unfold markClosing. destruct (bool_decide _ && _) eqn:E; [|by ends].
  apply andb_true_iff in E as [He%bool_decide_eq_true Hi]. simpl.
  apply (new_flight_ok s (MarkClosing id rt) (Closing rt) [Tombstone id (length (ap_flights s)) rt] rest id (delete id (ap_entries s))); try done.
  - by destruct (ap_inflight s !! id).
  - apply lookup_delete_eq.
  - by intros id' rt' [_ Hk]%lookup_delete_Some.
  - intros id' rt' Hk. destruct (decide (id = id')) as [<-|Hne]; [right|left; by rewrite lookup_delete_ne].
    split; [done|]. exists (length (ap_flights s)). rewrite He in Hk. injection Hk as <-. by left.
  - simpl. intros f Hf. assert (f = IsClosing rt \/ f = IsFor rt id) as [->| ->] by set_solver; apply Hrel; set_solver.
Qed.

Lemma step_keeps_bury s id flight rt r rest : inv s (Tombstone id flight rt :: rest) -> ap_runtimes s !! rt = Some r -> rn_closed r = true -> keeps rest (bury s id flight).
Proof.
  intros H Hr Hc. destruct (duties_once _ _ _ H) as (_&Hu&_). destruct (Hu (Flight id flight) ltac:(by left)) as [Hi Hf].
  unfold bury, close_flight. rewrite Hf. simpl. rewrite bool_decide_eq_true_2 by done.
  apply (inv_land s (Tombstone id flight rt)); try done; [by intros f ?%elem_of_nil|]. intros ? ? ? [= <- <- <-]. by exists r.
Qed.

Lemma step_keeps_landed s id flight out rest : inv s (Landed id flight out :: rest) -> keeps rest (landed s id flight out).
Proof.
  intros H. destruct (duties_once _ _ _ H) as (_&Hu&Hrel). destruct (Hu (Flight id flight)) as [Hi Hf]; [destruct out; by left|].
  unfold landed, close_flight. rewrite Hf. simpl. destruct out as [rt|err]; simpl.
  - destruct (Hrel (IsFor rt id) ltac:(by left)) as (r&Hr&Hid). subst id.
    pose proof (inv_land s _ (Register rt) rest (rn_id r) flight None H eq_refl) as Hl.
    apply (inv_enter (set_registry s (ap_entries s) (delete (rn_id r) (ap_inflight s)) (<[flight:=MkFlight (rn_id r) true None]> (ap_flights s))) rt r); [|done| |].
    + apply Hl; try done. by intros f ?%elem_of_nil.
    + by destruct (v_inflight _ _ H _ _ Hi).
    + apply lookup_delete_eq.
  - pose proof (inv_land s _ New rest id flight (Some err) H eq_refl) as Hl.
    apply (step_keeps_finish (set_registry s (ap_entries s) (delete id (ap_inflight s)) (<[flight:=MkFlight id true (Some err)]> (ap_flights s))) New rest (Some err));
      try done. apply Hl; try done; by intros f ?%elem_of_nil.
Qed.

Lemma step_keeps_awaitOpen a s rt rest (f : option error -> progress) :
  (forall r, ap_runtimes s !! rt = Some r -> forall err, present (open_result r) = true \/ err = Some canceled_error -> keeps rest (f err)) ->
  keeps rest (r ← ap_runtimes s !! rt; err ← awaitOpen a r; f err).
Proof.
  intros H. apply step_keeps_on. intros r Hr. unfold awaitOpen, select. destruct (present (open_result r)) eqn:Ho; simpl.
  - apply (H r Hr). by left.
  - destruct (an_canceled a); simpl; [|done]. apply (H r Hr). by right.
Qed.

Lemma step_keeps_beginClose a s id rt r rest : inv s (BeginClose id rt :: rest) -> ap_runtimes s !! rt = Some r -> keeps rest (beginClose a s id rt r).
Proof.
  intros H Hr. destruct (duties_once _ _ _ H) as (_&_&Hrel). unfold beginClose. destruct (_ || _) eqn:E; [by ends|]. destruct (an_err a); [by ends|].
  pose proof (has_runtime _ _ _ _ (Hrel (IsDone rt) ltac:(set_solver)) Hr) as Ho. simpl in Ho.
  eapply (inv_updates s rt r set_closing (BeginClose id rt) (MarkClosing id rt)); simpl; try done.
  - intros i ->. done.
  - intros Hun. unfold open_result in Ho. by rewrite Hun in Ho.
  - apply (v_routed _ _ H rt r Hr).
  - by left.
  - intros Hop. unfold open_result in Ho. by rewrite Hop in Ho.
  - intros rt' [?%elem_of_nil|]; done.
  - constructor.
  - by intros k ?%elem_of_nil.
  - intros f Hf. assert (f = IsRouted rt \/ f = IsFor rt id \/ f = IsClosing rt) as Hf' by set_solver.
    pose proof (has_runtime _ _ _ _ (Hrel (IsRouted rt) ltac:(set_solver)) Hr) as Hrt. pose proof (has_runtime _ _ _ _ (Hrel (IsFor rt id) ltac:(set_solver)) Hr) as Hid.
    destruct Hf' as [->|[->| ->]]; exists (set_closing r); by rewrite lookup_update, decide_True, Hr.
Qed.

(** Every step keeps the invariant, and none panics. *)
Lemma step_keeps_advance a s t rest : inv s (t :: rest) -> keeps rest (advance a s t).
Proof.
  intros H. destruct (duties_once _ _ _ H) as (_&_&Hrel).
  destruct t as [o| |rt|id|id flight|id flight|id flight rt|id flight out|rt err next|rt|rt|rt|rt next|rt next|rt err|id|id flight|id rt|id rt|id rt|rt|id flight rt|id|rt| | |others errs|errs|err]; cbn [advance].
  - by apply step_keeps_start.
  - eapply step_keeps_make; [done..|]. intros err. by ends.
  - apply step_keeps_on. intros r Hr. by apply step_keeps_register.
  - by apply step_keeps_getOrCreate.
  - by apply step_keeps_await_flight.
  - eapply step_keeps_make; [done..|]. intros err. go; by intros f ?%elem_of_nil.
  - apply step_keeps_on. intros r Hr. by apply step_keeps_made.
  - by apply step_keeps_landed.
  - apply step_keeps_on. intros r Hr. by apply step_keeps_abort.
  - apply step_keeps_on. intros r Hr. by apply step_keeps_open.
  - by apply step_keeps_finishOpen.
  - apply step_keeps_awaitOpen. intros r Hr [err|] _; [|by ends]. go. intros f ->%list_elem_of_singleton. apply Hrel. right. by left.
  - apply step_keeps_on. intros r Hr. by apply step_keeps_close.
  - apply step_keeps_on. intros r Hr. by apply step_keeps_await_closed.
  - apply step_keeps_on. intros r Hr. by apply (step_keeps_discard s rt r err).
  - by apply step_keeps_wait.
  - destruct (ap_flights s !! flight) as [f|]; [|done]. apply step_keeps_select. right. split; [intros _; go; by intros k ?%elem_of_nil|by ends].
  - apply step_keeps_awaitOpen. intros r Hr [err|] Ho; [by ends|]. destruct Ho as [Ho|]; [|done]. go.
    intros f Hf. assert (f = IsRouted rt \/ f = IsFor rt id \/ f = IsDone rt) as [->|[->| ->]] by set_solver; [apply Hrel; set_solver..|by exists r].
  - apply step_keeps_on. intros r Hr. by apply step_keeps_beginClose.
  - by apply step_keeps_markClosing.
  - apply step_keeps_on. intros r Hr. apply step_keeps_select. right. split; [intros _|]; by ends.
  - apply step_keeps_on. intros r Hr. destruct (rn_closed r) eqn:Ec; [by eapply step_keeps_bury|done].
  - destruct (ap_entries s !! id) as [rt|] eqn:He; [|by ends]. go. intros f ->%list_elem_of_singleton. by destruct (entry_holds _ _ _ _ H He).
  - apply step_keeps_awaitOpen. intros r Hr [err|] _; by ends.
  - unfold stop. destruct (ap_started s); go; by intros f ?%elem_of_nil.
  - unfold sweep. eapply (inv_stays (MkApplication ∅ (ap_inflight s) (ap_flights s) (ap_runtimes s) (ap_started s) (ap_active s) true) _ Sweep); try done.
    + apply (inv_forget s); [done|by intros id rt|done|done].
    + intros f Hf. simpl in Hf. rewrite <-list_fmap_compose in Hf. apply list_elem_of_fmap in Hf as ([id rt]&->&Hin). simpl.
      rewrite merge_sort_Permutation in Hin. apply elem_of_map_to_list in Hin. by destruct (entry_holds _ _ _ _ H Hin).
  - destruct others as [|rt others]; [go; by intros f ?%elem_of_nil|]. go. intros f [->|Hf]%elem_of_cons; apply Hrel; set_solver.
  - apply step_keeps_select. right. split; [intros _|]; (go; by intros f ?%elem_of_nil).
  - done.
Qed.

Lemma inv_idle s ts t : duties t = [] -> relies t = [] -> busy t = 0%nat -> inv s ts -> inv s (ts ++ [t]).
Proof.
  intros Hd Hr Hb [V1 V2 V3 V4 V5 V6 V7 V8 V9 V10 V11].
  assert (Hd' : (ts ++ [t]) ≫= duties = ts ≫= duties) by (rewrite bind_app; simpl; by rewrite Hd, !app_nil_r).
  assert (Hr' : (ts ++ [t]) ≫= relies = ts ≫= relies) by (rewrite bind_app; simpl; by rewrite Hr, !app_nil_r).
  split; rewrite ?Hd', ?Hr'; try done.
  - intros rt r H1 H2 H3. apply elem_of_app. left. by eapply V8.
  - intros rt r H1 H2 H3 H4. destruct (V9 rt r H1 H2 H3 H4) as [|[fl Hfl]]; [by left|right]. exists fl. apply elem_of_app. by left.
  - rewrite sum_list_with_app. simpl. lia.
Qed.

(** [finishClose] ends. *)
Lemma inv_closed s ts rt r : inv s ts -> ap_runtimes s !! rt = Some r -> rn_closing r = true -> inv (update_runtime set_closed rt s) ts.
Proof.
  intros H Hr Hc.
  assert (Hl : forall rt', ap_runtimes (update_runtime set_closed rt s) !! rt' = if decide (rt = rt') then Some (set_closed r) else ap_runtimes s !! rt').
  { intros rt'. rewrite lookup_update, Hr. by destruct (decide _). }
  assert (Hev : evolves s (update_runtime set_closed rt s)).
  { split; [|done]. intros rt' r'. rewrite Hl. destruct (decide (rt = rt')) as [<-|]; [|by exists r']. rewrite Hr. intros [= <-]. by exists (set_closed r). }
  destruct H as [V1 V2 V3 V4 V5 V6 V7 V8 V9 V10 V11]. split; try done.
  - intros k Hk. specialize (V1 k Hk). destruct k as [id fl|rt'|rt']; [done| |].
    + destruct V1 as [id V1]. exists id. rewrite Hl. destruct (decide (rt = rt')) as [<-|]; [|done]. rewrite Hr in V1. by injection V1 as ->.
    + destruct V1 as (r'&V1&Ho). destruct (decide (rt = rt')) as [<-|Hne]; [exists (set_closed r)|exists r']; rewrite Hl; [|by rewrite decide_False].
      rewrite decide_True by done. rewrite Hr in V1. by injection V1 as <-.
  - intros f Hf. eapply holds_evolves; [done|]. by apply V3.
  - intros id rt' Hk. destruct (V4 _ _ Hk). by split; eapply holds_evolves.
  - intros rt' r'. rewrite Hl. destruct (decide (rt = rt')) as [<-|]; [intros [= <-]; by apply (V7 rt r)|apply V7].
  - intros rt' r'. rewrite Hl. destruct (decide (rt = rt')) as [<-|]; [intros [= <-]; by apply (V8 rt r)|apply V8].
  - intros rt' r' Hw. rewrite Hl. destruct (decide (rt = rt')) as [<-|]; [by intros [= <-]|by apply V9].
  - intros rt' r'. rewrite Hl. destruct (decide (rt = rt')) as [<-|]; [intros [= <-]; by apply (V10 rt r)|apply V10].
Qed.

Lemma pool_split {A} (ts : list A) i t t' new : ts !! i = Some t -> exists rest, ts ≡ₚ t :: rest /\ <[i := t']> ts ++ new ≡ₚ t' :: new ++ rest.
Proof.
  intros H. apply list_elem_of_split_length in H as (l1&l2&->&->). exists (l1 ++ l2). split; [by rewrite <-Permutation_middle|].
  rewrite insert_app_r_alt, Nat.sub_diag by lia. simpl. rewrite <-Permutation_middle, <-app_comm_cons. f_equiv. by rewrite Permutation_app_comm.
Qed.

Lemma started_inv : inv started_application [].
Proof. split; try done; [by intros k ?%elem_of_nil|constructor|by intros f ?%elem_of_nil]. Qed.

Lemma reachable_inv w : reachable w -> inv (sy_app w) (sy_threads w).
Proof.
  intros H. apply (rtc_ind_r (R := app_step) (fun w => inv (sy_app w) (sy_threads w)) (MkSystem started_application [])); [apply started_inv| |exact H].
  intros w1 w2 _ Hstep IH. destruct Hstep as [s ts o|s ts|s ts i t a s' t' new Ht Ha|s ts rt r Hr Hc _]; simpl in *.
  - by apply inv_idle.
  - by apply inv_idle.
  - destruct (pool_split ts i t t' new Ht) as (rest&Hp&Hp'). apply (inv_perm _ _ _ (symmetry Hp')).
    pose proof (step_keeps_advance a s t rest (inv_perm _ _ _ Hp IH)) as Hk. by rewrite Ha in Hk.
  - by eapply inv_closed.
Qed.

(** A duty belongs to one call. *)
Lemma duty_owner s ts t u k : inv s ts -> t ∈ ts -> u ∈ ts -> k ∈ duties t -> k ∈ duties u -> t = u.
Proof.
  intros H Ht Hu Hk Hk'. apply elem_of_Permutation in Ht as [rest Hp]. pose proof (v_once _ _ H) as Hn. rewrite Hp, bind_cons in Hn.
  apply NoDup_app in Hn as (_&Hn&_). rewrite Hp in Hu. apply elem_of_cons in Hu as [->|Hu]; [done|]. destruct (Hn k Hk).
  apply list_elem_of_bind. by exists u.
Qed.

(** A Session has one runtime. *)
Lemma one_live s ts rt1 rt2 r1 r2 : inv s ts -> ap_swept s = false -> ap_runtimes s !! rt1 = Some r1 -> ap_runtimes s !! rt2 = Some r2 ->
  live r1 = true -> live r2 = true -> rn_id r1 = rn_id r2 -> rt1 = rt2.
Proof.
  intros H Hs Hr1 Hr2 Hl1 Hl2 Hid.
  assert (Hk : forall rt r, ap_runtimes s !! rt = Some r -> live r = true -> ap_entries s !! rn_id r = Some rt \/ exists flight, Tombstone (rn_id r) flight rt ∈ ts).
  { intros rt r Hr Hl. pose proof (v_routed _ _ H rt r Hr) as Hd. unfold live in Hl. destruct (rn_open r); try done;
      apply negb_true_iff in Hl; by apply (v_kept _ _ H). }
  assert (Ht : forall id flight rt, Tombstone id flight rt ∈ ts -> ap_inflight s !! id = Some flight /\ ap_entries s !! id = None).
  { intros id flight rt Hin. assert (Hu : undone s (Flight id flight)).
    { apply (v_undone _ _ H), list_elem_of_bind. exists (Tombstone id flight rt). split; [by left|done]. }
    destruct Hu as [Hu _]. split; [done|]. by destruct (v_inflight _ _ H _ _ Hu). }
  destruct (Hk rt1 r1 Hr1 Hl1) as [H1|[f1 H1]], (Hk rt2 r2 Hr2 Hl2) as [H2|[f2 H2]]; rewrite Hid in H1.
  - congruence.
  - destruct (Ht _ _ _ H2). congruence.
  - destruct (Ht _ _ _ H1). congruence.
  - destruct (Ht _ _ _ H1) as [E1 _], (Ht _ _ _ H2) as [E2 _]. rewrite E1 in E2. injection E2 as <-.
    assert (Heq : Tombstone (rn_id r2) f1 rt1 = Tombstone (rn_id r2) f1 rt2).
    { apply (duty_owner s ts _ _ (Flight (rn_id r2) f1)); try done; by left. }
    by injection Heq.
Qed.

(** ** Nobody waits in vain *)

(** The answers of surroundings in which no context ends. *)
Definition patient : answers := MkAnswers false true (inr canceled_error) None.
Inductive reason (s : application) (t : thread) : Prop :=
  | waits_open rt r : ap_runtimes s !! rt = Some r -> rn_routed r = true -> open_result r = None -> duties t = [] -> reason s t
  | waits_close rt r : ap_runtimes s !! rt = Some r -> rn_closing r = true -> rn_closed r = false -> reason s t
  | waits_flight flight f : ap_flights s !! flight = Some f -> fl_done f = false -> duties t = [] -> reason s t
  | waits_calls errs : t = Drain errs -> ap_active s ≠ 0%nat -> reason s t
  | over err : t = Done err -> reason s t.

Lemma select_patient ready : select patient ready = if ready then Some true else None.
Proof. by destruct ready. Qed.

Lemma awaitOpen_blocked s rt (f : option error -> progress) : holds s (IsRouted rt) ->
  (r ← ap_runtimes s !! rt; err ← awaitOpen patient r; f err) = None -> (forall err, f err ≠ None) ->
  exists r, ap_runtimes s !! rt = Some r /\ rn_routed r = true /\ open_result r = None.
Proof.
  intros (r&Hr&Hrt) Hb Hf. rewrite Hr in Hb. simpl in Hb. unfold awaitOpen in Hb. rewrite select_patient in Hb. exists r.
  destruct (open_result r) eqn:Ho; [|done]. simpl in Hb. by destruct (Hf o).
Qed.
Lemma after_closed_some s rt err next : after_closed s rt err next ≠ None.
Proof. by destruct next. Qed.
Lemma close_blocked s rt r next : ap_runtimes s !! rt = Some r -> close patient s rt r next = None -> present (open_result r) = false.
Proof.
  intros Hr Hb. unfold close in Hb. assert (Hs : select (close_context patient next) (present (open_result r)) = if present (open_result r) then Some true else None).
  { by destruct next, (present (open_result r)). }
  rewrite Hs in Hb. destruct (present (open_result r)); [|done]. by destruct (rn_closing r).
Qed.
Lemma await_closed_blocked s rt r next : await_closed patient s rt r next = None -> rn_closed r = false.
Proof.
  intros Hb. unfold await_closed in Hb. assert (Hs : select (close_context patient next) (rn_closed r) = if rn_closed r then Some true else None).
  { by destruct next, (rn_closed r). }
  rewrite Hs in Hb. destruct (rn_closed r); [|done]. by apply after_closed_some in Hb.
Qed.

Lemma blocked_reason s t rest : inv s (t :: rest) -> advance patient s t = None -> reason s t.
Proof.
  intros H Hb. destruct (duties_once _ _ _ H) as (_&Hu&Hrel).
  destruct t as [o| |rt|id|id flight|id flight|id flight rt|id flight out|rt err next|rt|rt|rt|rt next|rt next|rt err|id|id flight|id rt|id rt|id rt|rt|id flight rt|id|rt| | |others errs|errs|err]; cbn [advance] in Hb; try discriminate Hb.
  - unfold start_operation in Hb. simpl in Hb. destruct (negb _); [done|]. by destruct (check_operation o).
  - destruct (Hu (Private rt) ltac:(by left)) as [id Hid]. rewrite Hid in Hb. simpl in Hb. unfold register in Hb. simpl in Hb. by destruct (add _ _ _).
  - unfold getOrCreate in Hb. by destruct (ap_entries s !! id), (ap_inflight s !! id).
  - assert (is_Some (ap_flights s !! flight)) as [f Hf] by (apply lookup_lt_is_Some_2, (Hrel (IsFlight flight)); by left). unfold await_flight in Hb. rewrite Hf in Hb. simpl in Hb.
    rewrite select_patient in Hb. destruct (fl_done f) eqn:Hd; [|by eapply waits_flight].
    simpl in Hb. destruct (fl_err f) as [err|]; [|done]. by destruct (_ || _).
  - destruct (Hu (Private rt) ltac:(simpl; right; by left)) as [id' Hid]. rewrite Hid in Hb. simpl in Hb. unfold made in Hb. simpl in Hb. by destruct (String.eqb _ _).
  - destruct (Hu (Private rt) ltac:(simpl; apply elem_of_app; right; by left)) as [id' Hid]. by rewrite Hid in Hb.
  - destruct (Hrel (IsRouted rt) ltac:(by left)) as (r&Hr&Hrt). rewrite Hr in Hb. simpl in Hb. unfold open in Hb.
    destruct (rn_open r) eqn:Ho; try done. eapply waits_open; [done|done| |done]. unfold open_result. by rewrite Ho.
  - destruct (awaitOpen_blocked s rt _ (Hrel (IsRouted rt) ltac:(by left)) Hb) as (r&Hr&Hrt&Ho); [by intros []|]. by eapply waits_open.
  - assert (exists r, ap_runtimes s !! rt = Some r /\ (rn_routed r = true /\ duties (Close rt next) = [] \/ present (open_result r) = true)) as (r&Hr&Hd).
    { destruct next as [cause|id fl cause|cause|others errs].
      1-3: by destruct (Hrel (IsDone rt) ltac:(by left)) as (r&Hr&Hd); exists r; split; [|right].
      destruct (Hrel (IsRouted rt) ltac:(by left)) as (r&Hr&Hd). exists r. split; [done|by left]. }
    rewrite Hr in Hb. apply (close_blocked s rt r next Hr) in Hb. destruct Hd as [[Hrt Hd]|Hd]; [|congruence].
    eapply waits_open; [done|done| |done]. by destruct (open_result r).
  - destruct (Hrel (IsClosing rt) ltac:(by left)) as (r&Hr&Hc). rewrite Hr in Hb. apply await_closed_blocked in Hb. by eapply waits_close.
  - destruct (Hrel (IsClosed rt) ltac:(by left)) as (r&Hr&_). by rewrite Hr in Hb.
  - unfold wait in Hb. by destruct (ap_entries s !! id), (ap_inflight s !! id).
  - assert (is_Some (ap_flights s !! flight)) as [f Hf] by (apply lookup_lt_is_Some_2, (Hrel (IsFlight flight)); by left). rewrite Hf in Hb. simpl in Hb.
    rewrite select_patient in Hb. destruct (fl_done f) eqn:Hd; [done|by eapply waits_flight].
  - destruct (awaitOpen_blocked s rt _ (Hrel (IsRouted rt) ltac:(by left)) Hb) as (r&Hr&Hrt&Ho); [by intros []|]. by eapply waits_open.
  - destruct (Hrel (IsRouted rt) ltac:(by left)) as (r&Hr&_). rewrite Hr in Hb. simpl in Hb. unfold beginClose in Hb. by destruct (_ || _).
  - unfold markClosing in Hb. by destruct (_ && _).
  - destruct (Hrel (IsClosing rt) ltac:(by left)) as (r&Hr&Hc). rewrite Hr in Hb. simpl in Hb. rewrite select_patient in Hb.
    destruct (rn_closed r) eqn:Hd; [done|by eapply waits_close].
  - destruct (Hrel (IsClosing rt) ltac:(by left)) as (r&Hr&Hc). rewrite Hr in Hb. simpl in Hb. destruct (rn_closed r) eqn:Hd; [done|by eapply waits_close].
  - by destruct (ap_entries s !! id).
  - destruct (awaitOpen_blocked s rt _ (Hrel (IsRouted rt) ltac:(by left)) Hb) as (r&Hr&Hrt&Ho); [done|]. by eapply waits_open.
  - unfold stop in Hb. by destruct (ap_started s).
  - by destruct others.
  - rewrite select_patient in Hb. destruct (Nat.eqb_spec (ap_active s) 0); [done|by eapply waits_calls].
  - by eapply over.
Qed.

(** ** The registry *)
Definition finished (t : thread) : bool := match t with Done _ => true | _ => false end.

Lemma stuck_done s ts : inv s ts -> (forall t, t ∈ ts -> advance patient s t = None) ->
  (forall rt r, ap_runtimes s !! rt = Some r -> rn_closing r = true -> rn_closed r = true) -> forall t, t ∈ ts -> finished t = true.
Proof.
  intros H Hb Hc.
  assert (Hreason : forall t, t ∈ ts -> reason s t).
  { intros t Ht. pose proof (Hb t Ht) as Ht'. apply elem_of_Permutation in Ht as [rest Hp]. by apply (blocked_reason s t rest (inv_perm _ _ _ Hp H)). }
  assert (Hopening : forall rt r, ap_runtimes s !! rt = Some r -> rn_open r ≠ Opening).
  { intros rt r Hr Ho. pose proof (v_opening _ _ H rt r Hr Ho) as Hd. apply list_elem_of_bind in Hd as (t&Hd&Ht). specialize (Hb t Ht).
    destruct t as [| | | | | | |? ? []|? ? []| | | |? []|? []| | | | | | | | | | | | | | | ]; simpl in Hd; try set_solver. }
  assert (Hrouted : forall rt r, ap_runtimes s !! rt = Some r -> rn_routed r = true -> open_result r ≠ None).
  { intros rt r Hr Hrt Ho. unfold open_result in Ho. destruct (rn_open r) eqn:E; try done; [|by apply (Hopening rt r)].
    pose proof (Hb _ (v_unopened _ _ H rt r Hr Hrt E)) as Hn. cbn [advance] in Hn. rewrite Hr in Hn. simpl in Hn. unfold open in Hn. by rewrite E in Hn. }
  assert (Hflight : forall flight f, ap_flights s !! flight = Some f -> fl_done f = true).
  { intros flight f Hf. destruct (fl_done f) eqn:E; [done|exfalso]. pose proof (v_flights _ _ H flight f Hf E) as Hd.
    apply list_elem_of_bind in Hd as (t&Hd&Ht). destruct (Hreason t Ht) as [rt r _ _ _ Hd'|rt r Hr Hcl Hno|? ? _ _ Hd'|errs ->|err ->].
    - by rewrite Hd' in Hd; apply elem_of_nil in Hd.
    - by rewrite (Hc rt r Hr Hcl) in Hno.
    - by rewrite Hd' in Hd; apply elem_of_nil in Hd.
    - by apply elem_of_nil in Hd.
    - by apply elem_of_nil in Hd. }
  assert (Hcall : forall t, t ∈ ts -> finished t = true \/ exists errs, t = Drain errs /\ ap_active s ≠ 0%nat).
  { intros t Ht. destruct (Hreason t Ht) as [rt r Hr Hrt Ho _|rt r Hr Hcl Hno|flight f Hf Hd _|errs -> Ha|err ->].
    - by destruct (Hrouted rt r Hr Hrt).
    - by rewrite (Hc rt r Hr Hcl) in Hno.
    - by rewrite (Hflight flight f Hf) in Hd.
    - right. by exists errs.
    - by left. }
  intros t Ht. destruct (Hcall t Ht) as [|(errs&->&Ha)]; [done|]. destruct Ha. rewrite (v_active _ _ H).
  assert (Hz : forall t, t ∈ ts -> busy t = 0%nat) by (intros u Hu; destruct (Hcall u Hu) as [|(e&->&_)]; [by destruct u|done]).
  clear -Hz. induction ts as [|u ts IH]; [done|]. simpl. rewrite (Hz u), IH; [done| |by left]. intros v Hv. apply Hz. by right.
Qed.

(** C19. The runtimes of an application, under every interleaving of gateway
    calls, of the closing of runtimes and of [stop], and whatever the other
    components answer and whenever contexts end: until [closeAll] has emptied
    the registry, a Session never has two runtimes that were opened and are
    not closed; no channel is closed twice; and as long as some call is not
    finished, some call can go on even if no context ends, or a runtime is
    being closed: no call waits for a flight that nobody lands, for an opening
    that nobody performs, or in [stop] for an operation that has ended. *)
Theorem runtime_registry_exclusive w : reachable w ->
  (forall rt1 rt2 r1 r2, ap_swept (sy_app w) = false -> ap_runtimes (sy_app w) !! rt1 = Some r1 -> ap_runtimes (sy_app w) !! rt2 = Some r2 ->
     live r1 = true -> live r2 = true -> rn_id r1 = rn_id r2 -> rt1 = rt2) /\
  (forall a t out, t ∈ sy_threads w -> advance a (sy_app w) t = Some out -> is_ok out = true) /\
  ((exists t, t ∈ sy_threads w /\ finished t = false) ->
     (exists t, t ∈ sy_threads w /\ advance patient (sy_app w) t ≠ None) \/
     (exists rt r, ap_runtimes (sy_app w) !! rt = Some r /\ rn_closing r = true /\ rn_closed r = false)).
Proof.
  intros Hw. apply reachable_inv in Hw as H. split; [|split].
  - intros rt1 rt2 r1 r2. by apply (one_live _ _ _ _ _ _ H).
  - intros a t out Ht Ha. apply elem_of_Permutation in Ht as [rest Hp]. pose proof (step_keeps_advance a _ t rest (inv_perm _ _ _ Hp H)) as Hk.
    rewrite Ha in Hk. by destruct out.
  - intros (t&Ht&Hf).
    destruct (decide (Exists (fun t => advance patient (sy_app w) t ≠ None) (sy_threads w))) as [He|He].
    { apply Exists_exists in He as (u&Hu&Hn). left. by exists u. }
    destruct (decide (Exists (fun r => rn_closing r = true /\ rn_closed r = false) (ap_runtimes (sy_app w)))) as [Hc|Hc].
    { apply Exists_exists in Hc as (r&Hr&Hn). apply list_elem_of_lookup in Hr as [rt Hr]. right. by exists rt, r. }
    exfalso. rewrite (stuck_done _ _ H) in Hf; [done| | |done].
    + intros u Hu. destruct (advance patient (sy_app w) u) eqn:E; [|done]. destruct He. apply Exists_exists. exists u. by rewrite E.
    + intros rt r Hr Hcl. destruct (rn_closed r) eqn:E; [done|]. destruct Hc. apply Exists_exists. exists r. split; [by eapply list_elem_of_lookup_2|done].
Qed.

(** ** Runs *)
Inductive action := Calls (o : operation) | Stops | Steps (i : nat) (a : answers) | Closes (rt : nat).
Definition act (w : system) (x : action) : option system :=
  let '(MkSystem s ts) := w in
  match x with
  | Calls o => Some (MkSystem s (ts ++ [Start o]))
  | Stops => Some (MkSystem s (ts ++ [Stop]))
  | Steps i a =>
    t ← ts !! i;
    match advance a s t with
    | Some (Ok (s', t', new)) => Some (MkSystem s' (<[i := t']> ts ++ new))
    | _ => None
    end
  | Closes rt =>
    r ← ap_runtimes s !! rt;
    if rn_closing r && negb (rn_closed r) then Some (MkSystem (update_runtime set_closed rt s) ts) else None
  end.
Definition run_all (xs : list action) : option system := foldl (fun w x => w ← w; act w x) (Some (MkSystem started_application [])) xs.

Lemma act_step w x w' : act w x = Some w' -> app_step w w'.
Proof.
  destruct w as [s ts], x as [o| |i a|rt]; simpl.
  - intros [= <-]. constructor.
  - intros [= <-]. constructor.
  - destruct (ts !! i) as [t|] eqn:Ht; simpl; [|done]. destruct (advance a s t) as [[[[s' t'] new]|err|m]|] eqn:Ha; [|done..].
    intros [= <-]. by eapply step_thread.
  - destruct (ap_runtimes s !! rt) as [r|] eqn:Hr; simpl; [|done]. destruct (rn_closing r) eqn:Hc; simpl; [|done].
    destruct (rn_closed r) eqn:Hd; simpl; [done|]. intros [= <-]. by eapply step_closed.
Qed.
Lemma run_all_reachable xs w : run_all xs = Some w -> reachable w.
Proof.
  revert w; induction xs as [|x xs IH] using rev_ind; intros w; unfold run_all; [intros [= <-]; constructor|].
  rewrite foldl_app. simpl. fold (run_all xs). destruct (run_all xs) as [w0|]; simpl; [|done]. intros Hx.
  eapply rtc_r; [by apply IH|by apply act_step in Hx].
Qed.

(** A step in which nothing fails, and one in which the context has ended and
    a select takes the context. *)
Definition fine : answers := MkAnswers false true (inl "s") None.
Definition ended : answers := MkAnswers true false (inl "s") None.
(** The context ends at the last moment: the select takes the channel. *)
Definition ending : answers := MkAnswers true true (inl "s") None.
Definition steps (i n : nat) : list action := replicate n (Steps i fine).

(** One caller resumes a Session; another one resumes it too, and its context
    ends while it gets the open runtime.  The second call closes the runtime
    that the first one uses. *)
Definition shared_resume : list action :=
  Calls (OpResume "s") :: steps 0 8 ++ Calls (OpResume "s") :: steps 1 3 ++ [Steps 1 ended; Steps 1 fine].
Example canceled_resume_closes :
  match run_all shared_resume with
  | Some w =>
    sy_threads w !! 0%nat = Some (Done None) /\ sy_threads w !! 1%nat = Some (AwaitClosed 0 (AfterOpen canceled_error)) /\
    (rn_closing <$> ap_runtimes (sy_app w)) = [true]
  | None => False
  end.
Proof. vm_compute. by split_and!. Qed.

(** A resume that has passed its last check of the context when [stop] begins
    lands after [closeAll] has taken the entries: [stop] returns without an
    error, and the runtime stays open. *)
Definition late_resume : list action :=
  Calls (OpResume "s") :: steps 0 4 ++ Stops :: steps 1 3 ++ steps 0 3 ++ [Steps 0 ending; Steps 1 fine].
Example open_after_stop :
  match run_all late_resume with
  | Some w =>
    sy_threads w = [Done None; Done None] /\ ap_entries (sy_app w) !! "s" = Some 0%nat /\ (live <$> ap_runtimes (sy_app w)) = [true] /\
    ap_started (sy_app w) = false
  | None => False
  end.
Proof. vm_compute. by split_and!. Qed.

(** While [closeAll] closes the runtime of a Session, a call that began before
    [stop] opens a second one. *)
Definition second_runtime : list action :=
  Calls (OpResume "s") :: steps 0 8 ++ [Calls (OpResume "s"); Steps 1 fine; Stops] ++ steps 2 4 ++ steps 1 5.
Example two_live_after_sweep :
  match run_all second_runtime with
  | Some w => (live <$> ap_runtimes (sy_app w)) = [true; true] /\ (rn_id <$> ap_runtimes (sy_app w)) = ["s"; "s"] /\ ap_swept (sy_app w) = true
  | None => False
  end.
Proof. vm_compute. by split_and!. Qed.

Definition closing_run : list action :=
  Calls (OpResume "s") :: steps 0 8 ++ Calls (OpClose "s") :: Calls (OpResume "s") :: steps 1 5 ++ steps 2 2.
Definition closing_system : system := match run_all closing_run with Some w => w | None => MkSystem started_application [] end.
Lemma runtime_registry_exclusive_witness :
  (exists t, t ∈ sy_threads closing_system /\ finished t = false) /\
  ((exists t, t ∈ sy_threads closing_system /\ advance patient (sy_app closing_system) t ≠ None) \/
   (exists rt r, ap_runtimes (sy_app closing_system) !! rt = Some r /\ rn_closing r = true /\ rn_closed r = false)).
Proof.
  assert (Hn : exists t, t ∈ sy_threads closing_system /\ finished t = false).
  { exists (AwaitFlight "s" 1). split; [vm_compute; right; right; left|reflexivity]. }
  split; [exact Hn|].
  apply (runtime_registry_exclusive closing_system); [|exact Hn].
  apply (run_all_reachable closing_run). vm_compute. reflexivity.
Defined.
