(* ===== verification/Billing.v ===== *)
(** * Billing

    Models [billing/contracts.go] and [billing/attempt_module.go]: the data of
    the pricing, quota and ledger components, and [attemptAccounting], the
    observer that reserves quota and writes the ledger around every physical
    attempt of a model call.

    Calls of [AttemptStarted] and [AttemptFinished] interleave: a step of a call
    is one region under the mutex of the observer or of an attempt, or one call
    of a component.  What the components answer is the argument [answers] of a
    step; the calls that can change something there are remembered in the order
    they are made.  [BillingFacts] has the theorem. *)

From Stdlib Require Import SpecFloat.
From S2P Require Import Prelude GoStrings AgentTypes ModelContracts ModelStream Slots Assembly.

(** ** Contracts *)
Record Subject := MkSubject { sub_Kind : string; sub_ID : string }.
#[export] Instance Subject_eq_dec : EqDecision Subject.
Proof. solve_decision. Defined.
Definition no_subject : Subject := MkSubject "" "".
Definition Subject_Valid (s : Subject) : bool :=
  nonempty (TrimSpace (sub_Kind s)) && String.eqb (TrimSpace (sub_Kind s)) (sub_Kind s) &&
  nonempty (TrimSpace (sub_ID s)) && String.eqb (TrimSpace (sub_ID s)) (sub_ID s).

Record PriceQuery := MkPriceQuery { prq_ProviderKey : string; prq_ModelID : string; prq_Usage : TokenUsage; prq_At : Time }.
Record Price := MkPrice { prc_Currency : string; prc_AmountMicros : Z; prc_Version : string }.
Definition Price_Validate (p : Price) : result unit :=
  reject_if (empty (prc_Currency p) || Z.ltb (prc_AmountMicros p) 0 || empty (prc_Version p)) (ErrNew "billing: invalid price").

Record QuotaCheck := MkQuotaCheck { qc_Subject : Subject; qc_Attempt : AttemptIdentity; qc_RequestedTokens : Z }.
Record QuotaDecision := MkQuotaDecision { qd_Allowed : bool; qd_Reason : string }.
Definition QuotaDecision_Validate (d : QuotaDecision) : result unit :=
  reject_if ((qd_Allowed d && nonempty (qd_Reason d)) || (negb (qd_Allowed d) && empty (TrimSpace (qd_Reason d))))
    (ErrNew "billing: invalid quota decision").

Record QuotaReservation := MkQuotaReservation { qr_ID : string; qr_Subject : Subject; qr_Attempt : AttemptIdentity }.
Definition QuotaReservation_Validate (r : QuotaReservation) : result unit :=
  reject_if (empty (TrimSpace (qr_ID r)) || negb (String.eqb (TrimSpace (qr_ID r)) (qr_ID r)) || negb (Subject_Valid (qr_Subject r)))
    (ErrNew "billing: invalid quota reservation") ;;
  AttemptIdentity_Validate (qr_Attempt r).
Record QuotaCommit := MkQuotaCommit { qm_Reservation : QuotaReservation; qm_Usage : TokenUsage; qm_Price : option Price }.

Record AttemptIntent := MkAttemptIntent { ati_Attempt : AttemptIdentity; ati_Subject : Subject; ati_RecordedAt : Time }.
Definition AttemptIntent_Validate (i : AttemptIntent) : result unit :=
  AttemptIdentity_Validate (ati_Attempt i) ;;
  reject_if (negb (Subject_Valid (ati_Subject i)) || IsZero (ati_RecordedAt i)) (ErrNew "billing: invalid attempt intent").

(** [AttemptOutcome] of the package [billing]; [ModelStream] has the outcome of
    the package [model]. *)
Record OutcomeRecord := MkOutcomeRecord {
  ato_Attempt : AttemptIdentity; ato_Subject : Subject; ato_Outcome : AttemptOutcome; ato_ProviderRequestID : string;
  ato_Usage : TokenUsage; ato_ErrorCode : string; ato_Price : option Price; ato_RecordedAt : Time }.
Definition OutcomeRecord_Validate (o : OutcomeRecord) : result unit :=
  AttemptIdentity_Validate (ato_Attempt o) ;;
  reject_if (negb (Subject_Valid (ato_Subject o)) || IsZero (ato_RecordedAt o)) (ErrNew "billing: invalid attempt outcome") ;;
  AttemptFinish_Validate
    (MkAttemptFinish (ai_AttemptID (ato_Attempt o)) (ato_Outcome o) (ato_ProviderRequestID o) (ato_Usage o) (ato_ErrorCode o) "") ;;
  match ato_Price o with Some p => Price_Validate p | None => Ok tt end.

(** [reflect.DeepEqual] on identities and events without NaN: the temperatures
    behind the pointers are compared as numbers. *)
Definition temperature_equal (a b : option spec_float) : bool :=
  match a, b with Some x, Some y => SFeqb x y | None, None => true | _, _ => false end.
Definition config_equal (a b : Config) : bool :=
  String.eqb (cfg_ProviderKey a) (cfg_ProviderKey b) && String.eqb (cfg_ModelID a) (cfg_ModelID b) &&
  bool_decide (cfg_Reasoning a = cfg_Reasoning b) &&
  temperature_equal (par_Temperature (cfg_Parameters a)) (par_Temperature (cfg_Parameters b)) &&
  bool_decide (par_MaxTokens (cfg_Parameters a) = par_MaxTokens (cfg_Parameters b)).
Definition identity_equal (a b : AttemptIdentity) : bool :=
  String.eqb (ai_SessionID a) (ai_SessionID b) && String.eqb (ai_RunID a) (ai_RunID b) && String.eqb (ai_StepID a) (ai_StepID b) &&
  String.eqb (ai_AttemptID a) (ai_AttemptID b) && Z.eqb (ai_ConfigRevision a) (ai_ConfigRevision b) && config_equal (ai_Config a) (ai_Config b).
Definition finished_equal (a b : AttemptFinished) : bool :=
  identity_equal (afd_Identity a) (afd_Identity b) && bool_decide (afd_Outcome a = afd_Outcome b) &&
  String.eqb (afd_ProviderRequestID a) (afd_ProviderRequestID b) && bool_decide (afd_Usage a = afd_Usage b) &&
  String.eqb (afd_ErrorCode a) (afd_ErrorCode b).

(** ** The state of the observer *)
Record attemptAccountingState := MkAttempt {
  aas_locked : bool; aas_identity : AttemptIdentity; aas_subject : Subject; aas_reservation : option QuotaReservation;
  aas_finishEvent : option AttemptFinished; aas_outcome : option OutcomeRecord }.
Definition new_attempt (i : AttemptIdentity) : attemptAccountingState := MkAttempt false i no_subject None None None.
Definition set_locked (b : bool) (st : attemptAccountingState) : attemptAccountingState :=
  MkAttempt b (aas_identity st) (aas_subject st) (aas_reservation st) (aas_finishEvent st) (aas_outcome st).
Definition store_start (subject : Subject) (reservation : option QuotaReservation) (st : attemptAccountingState) : attemptAccountingState :=
  MkAttempt (aas_locked st) (aas_identity st) subject reservation (aas_finishEvent st) (aas_outcome st).
Definition capture (event : AttemptFinished) (o : OutcomeRecord) (st : attemptAccountingState) : attemptAccountingState :=
  MkAttempt (aas_locked st) (aas_identity st) (aas_subject st) (aas_reservation st) (Some event) (Some o).

Definition attemptKey : Type := string * string * string * string.
Definition keyForAttempt (i : AttemptIdentity) : attemptKey := (ai_SessionID i, ai_RunID i, ai_StepID i, ai_AttemptID i).

(** The calls of the quota guard and the ledger that can change something, with
    their answers. *)
Inductive component_call :=
  | Reserve (check : QuotaCheck) (out : QuotaReservation + error)
  | RecordAttemptIntent (intent : AttemptIntent) (err : option error)
  | RecordAttemptOutcome (o : OutcomeRecord) (err : option error)
  | Commit (commit : QuotaCommit) (err : option error)
  | Release (reservation : QuotaReservation) (reason : string) (err : option error).

(** [started] points to the attempts allocated so far; every call of a component
    is kept with the attempt it is for. *)
Record attemptAccounting := MkAccounting {
  aa_started : gmap attemptKey nat; aa_attempts : list attemptAccountingState; aa_calls : list (nat * component_call) }.
Definition new_accounting : attemptAccounting := MkAccounting ∅ [] [].
Definition set_started (started : gmap attemptKey nat) (s : attemptAccounting) : attemptAccounting :=
  MkAccounting started (aa_attempts s) (aa_calls s).
Definition update_attempt (f : attemptAccountingState -> attemptAccountingState) (p : nat) (s : attemptAccounting) : attemptAccounting :=
  MkAccounting (aa_started s) (alter f p (aa_attempts s)) (aa_calls s).
Definition record_call (p : nat) (c : component_call) (s : attemptAccounting) : attemptAccounting :=
  MkAccounting (aa_started s) (aa_attempts s) (aa_calls s ++ [(p, c)]).

(** ** The calls

    Where a call is.  [p] is the attempt that the call inserted or found. *)
Inductive call :=
  | Start (i : AttemptIdentity)                                                            (* [AttemptStarted] *)
  | Resolve (i : AttemptIdentity) (p : nat)                                                (* the subject *)
  | CheckQuota (i : AttemptIdentity) (p : nat) (subject : Subject)
  | ReserveQuota (i : AttemptIdentity) (p : nat) (subject : Subject)
  | Intend (i : AttemptIdentity) (p : nat) (subject : Subject) (reservation : option QuotaReservation)
  | Undo (i : AttemptIdentity) (p : nat) (reservation : QuotaReservation) (err : error)    (* [Release] after a failed intent *)
  | Forget (i : AttemptIdentity) (p : nat) (err : error)                                   (* the deferred function *)
  | Fetch (i : AttemptIdentity) (p : nat) (subject : Subject) (reservation : option QuotaReservation)
  | Store (i : AttemptIdentity) (p : nat) (subject : Subject) (reservation : option QuotaReservation)
  | Finish (event : AttemptFinished)                                                       (* [AttemptFinished] *)
  | Lock (event : AttemptFinished) (p : nat)
  | ResolvePrice (event : AttemptFinished) (p : nat)
  | Record_ (event : AttemptFinished) (p : nat)
  | Settle (event : AttemptFinished) (p : nat) (o : OutcomeRecord) (reservation : QuotaReservation)
  | Remove (event : AttemptFinished) (p : nat)
  | Unlock (event : AttemptFinished) (p : nat) (err : option error)
  | Returned (err : option error).

(** What a step takes from outside: the clock and the answer of the component
    that it calls. *)
Record answers := MkAnswers {
  an_now : Time; an_subject : Subject + error; an_decision : QuotaDecision + error; an_reserved : QuotaReservation + error;
  an_price : Price + error; an_err : option error }.

(** The step of a call; [None] while it is blocked. *)
Definition progress : Type := option (result (attemptAccounting * call)).
Definition goes (s : attemptAccounting) (t : call) : progress := Some (Ok (s, t)).
Definition returns (s : attemptAccounting) (err : error) : progress := goes s (Returned (Some err)).
Definition wrapped (message : string) (err : error) : error := ErrWrap err message [].

(** The observer is built with or without a price resolver and a quota guard. *)
Class AttemptModuleOptions : Type := { has_prices : bool; has_quota : bool; DefaultRequestedTokens : Z }.

Section Accounting.
Context {options : AttemptModuleOptions}.

(** *** [AttemptStarted] *)
Definition start_attempt (s : attemptAccounting) (i : AttemptIdentity) : progress :=
  match AttemptIdentity_Validate i with
  | Ok _ =>
    match aa_started s !! keyForAttempt i with
    | Some _ => returns s (ErrNew "billing: duplicate attempt start")
    | None =>
      let p := length (aa_attempts s) in
      goes (MkAccounting (<[keyForAttempt i := p]> (aa_started s)) (aa_attempts s ++ [new_attempt i]) (aa_calls s)) (Resolve i p)
    end
  | Err err => returns s err
  | Panic m => Some (Panic m)
  end.
Definition resolve_subject (a : answers) (s : attemptAccounting) (i : AttemptIdentity) (p : nat) : progress :=
  match an_subject a with
  | inr err => goes s (Forget i p (wrapped "billing: resolve subject: %w" err))
  | inl subject =>
    if negb (Subject_Valid subject) then goes s (Forget i p (ErrNew "billing: subject resolver returned invalid subject"))
    else goes s (if has_quota then CheckQuota i p subject else Intend i p subject None)
  end.
Definition quota_check (i : AttemptIdentity) (subject : Subject) : QuotaCheck :=
  MkQuotaCheck subject i (default DefaultRequestedTokens (par_MaxTokens (cfg_Parameters (ai_Config i)))).
Definition check_quota (a : answers) (s : attemptAccounting) (i : AttemptIdentity) (p : nat) (subject : Subject) : progress :=
  match an_decision a with
  | inr err => goes s (Forget i p (wrapped "billing: check quota: %w" err))
  | inl decision =>
    match QuotaDecision_Validate decision with
    | Ok _ =>
      if qd_Allowed decision then goes s (ReserveQuota i p subject)
      else goes s (Forget i p (Errorf "billing: quota denied: %s" [AStr (qd_Reason decision)]))
    | Err err => goes s (Forget i p err)
    | Panic m => Some (Panic m)
    end
  end.
Definition reservation_for (i : AttemptIdentity) (subject : Subject) (r : QuotaReservation) : bool :=
  is_ok (QuotaReservation_Validate r) && bool_decide (qr_Subject r = subject) && identity_equal (qr_Attempt r) i.
Definition reserve_quota (a : answers) (s : attemptAccounting) (i : AttemptIdentity) (p : nat) (subject : Subject) : progress :=
  let s := record_call p (Reserve (quota_check i subject) (an_reserved a)) s in
  match an_reserved a with
  | inr err => goes s (Forget i p (wrapped "billing: reserve quota: %w" err))
  | inl reserved =>
    if reservation_for i subject reserved then goes s (Intend i p subject (Some reserved))
    else goes s (Forget i p (ErrNew "billing: quota guard returned invalid reservation"))
  end.
Definition intend (a : answers) (s : attemptAccounting) (i : AttemptIdentity) (p : nat) (subject : Subject) (reservation : option QuotaReservation) : progress :=
  let s := record_call p (RecordAttemptIntent (MkAttemptIntent i subject (an_now a)) (an_err a)) s in
  match an_err a, reservation with
  | Some err, Some r => goes s (Undo i p r err)
  | Some err, None => goes s (Forget i p (wrapped "billing: record attempt intent: %w" err))
  | None, _ => goes s (Fetch i p subject reservation)
  end.
Definition undo_intent (a : answers) (s : attemptAccounting) (i : AttemptIdentity) (p : nat) (r : QuotaReservation) (err : error) : progress :=
  let joined := ErrJoin (err :: match an_err a with Some e => [e] | None => [] end) in
  goes (record_call p (Release r "ledger_intent_failed" (an_err a)) s) (Forget i p (wrapped "billing: record attempt intent: %w" joined)).
Definition forget_attempt (s : attemptAccounting) (i : AttemptIdentity) (err : error) : progress :=
  returns (set_started (delete (keyForAttempt i) (aa_started s)) s) err.
(** The attempt that is stored under the key now; a nil pointer makes
    [state.mu.Lock] panic. *)
Definition fetch_attempt (s : attemptAccounting) (i : AttemptIdentity) (subject : Subject) (reservation : option QuotaReservation) : progress :=
  match aa_started s !! keyForAttempt i with
  | Some p => goes s (Store i p subject reservation)
  | None => Some (Panic "invalid memory address or nil pointer dereference")
  end.
Definition store_attempt (s : attemptAccounting) (p : nat) (st : attemptAccountingState) (subject : Subject) (reservation : option QuotaReservation) : progress :=
  if aas_locked st then None else goes (update_attempt (store_start subject reservation) p s) (Returned None).

(** *** [AttemptFinished] *)
Definition find_attempt (s : attemptAccounting) (event : AttemptFinished) : progress :=
  match AttemptFinished_Validate event with
  | Ok _ =>
    match aa_started s !! keyForAttempt (afd_Identity event) with
    | None => returns s (ErrNew "billing: attempt finish has no recorded start")
    | Some p =>
      st ← aa_attempts s !! p;
      if identity_equal (aas_identity st) (afd_Identity event) then goes s (Lock event p)
      else returns s (ErrNew "billing: attempt finish identity does not match start")
    end
  | Err err => returns s err
  | Panic m => Some (Panic m)
  end.
(** Only a successful attempt with measured usage has a price. *)
Definition priced (event : AttemptFinished) : bool :=
  has_prices && bool_decide (afd_Outcome event = OutcomeSucceeded) && negb (use_Estimated (afd_Usage event)).
Definition outcome_of (now : Time) (event : AttemptFinished) (st : attemptAccountingState) (price : option Price) : OutcomeRecord :=
  MkOutcomeRecord (afd_Identity event) (aas_subject st) (afd_Outcome event) (afd_ProviderRequestID event) (afd_Usage event)
    (afd_ErrorCode event) price now.
Definition lock_attempt (a : answers) (s : attemptAccounting) (event : AttemptFinished) (p : nat) (st : attemptAccountingState) : progress :=
  if aas_locked st then None
  else
    let s := update_attempt (set_locked true) p s in
    if match aas_finishEvent st with Some e => negb (finished_equal e event) | None => false end then
      goes s (Unlock event p (Some (ErrNew "billing: conflicting attempt finish replay")))
    else
      match aas_outcome st with
      | Some _ => goes s (Record_ event p)
      | None =>
        if priced event then goes s (ResolvePrice event p)
        else goes (update_attempt (capture event (outcome_of (an_now a) event st None)) p s) (Record_ event p)
      end.
Definition resolve_price (a : answers) (s : attemptAccounting) (event : AttemptFinished) (p : nat) (st : attemptAccountingState) : progress :=
  match an_price a with
  | inr err => goes s (Unlock event p (Some (wrapped "billing: resolve price: %w" err)))
  | inl price =>
    match Price_Validate price with
    | Ok _ => goes (update_attempt (capture event (outcome_of (an_now a) event st (Some price))) p s) (Record_ event p)
    | Err err => goes s (Unlock event p (Some err))
    | Panic m => Some (Panic m)
    end
  end.
Definition record_outcome (a : answers) (s : attemptAccounting) (event : AttemptFinished) (p : nat) (st : attemptAccountingState) : progress :=
  match aas_outcome st with
  | None => Some (Panic "invalid memory address or nil pointer dereference")
  | Some o =>
    let s := record_call p (RecordAttemptOutcome o (an_err a)) s in
    match an_err a, aas_reservation st with
    | Some err, _ => goes s (Unlock event p (Some (wrapped "billing: record attempt outcome: %w" err)))
    | None, Some r => goes s (Settle event p o r)
    | None, None => goes s (Remove event p)
    end
  end.
Definition outcome_string (o : AttemptOutcome) : string :=
  match o with OutcomeSucceeded => "succeeded" | OutcomeFailed => "failed" | OutcomeCanceled => "canceled" | OutcomeOther s => s end.
Definition settle_quota (a : answers) (s : attemptAccounting) (event : AttemptFinished) (p : nat) (o : OutcomeRecord) (r : QuotaReservation) : progress :=
  let made := if bool_decide (afd_Outcome event = OutcomeSucceeded) then Commit (MkQuotaCommit r (afd_Usage event) (ato_Price o)) (an_err a)
              else Release r (outcome_string (afd_Outcome event)) (an_err a) in
  let s := record_call p made s in
  match an_err a with
  | Some err => goes s (Unlock event p (Some (wrapped "billing: settle quota: %w" err)))
  | None => goes s (Remove event p)
  end.
Definition remove_attempt (s : attemptAccounting) (event : AttemptFinished) (p : nat) : progress :=
  goes (set_started (delete (keyForAttempt (afd_Identity event)) (aa_started s)) s) (Unlock event p None).

Definition advance (a : answers) (s : attemptAccounting) (t : call) : progress :=
  let on (p : nat) (f : attemptAccountingState -> progress) : progress := st ← aa_attempts s !! p; f st in
  match t with
  | Start i => start_attempt s i
  | Resolve i p => resolve_subject a s i p
  | CheckQuota i p subject => check_quota a s i p subject
  | ReserveQuota i p subject => reserve_quota a s i p subject
  | Intend i p subject reservation => intend a s i p subject reservation
  | Undo i p r err => undo_intent a s i p r err
  | Forget i p err => forget_attempt s i err
  | Fetch i p subject reservation => fetch_attempt s i subject reservation
  | Store i p subject reservation => on p (fun st => store_attempt s p st subject reservation)
  | Finish event => find_attempt s event
  | Lock event p => on p (lock_attempt a s event p)
  | ResolvePrice event p => on p (resolve_price a s event p)
  | Record_ event p => on p (record_outcome a s event p)
  | Settle event p o r => settle_quota a s event p o r
  | Remove event p => remove_attempt s event p
  | Unlock event p err => goes (update_attempt (set_locked false) p s) (Returned err)
  | Returned _ => None
  end.

(** ** Runs of the observer

    A caller finishes an attempt when no other call for it is under way, and
    starts none that is being finished; [overlapping] callers do not keep to
    this. *)
Definition key_of (t : call) : option attemptKey :=
  match t with
  | Start i | Resolve i _ | CheckQuota i _ _ | ReserveQuota i _ _ | Intend i _ _ _ | Undo i _ _ _ | Forget i _ _ | Fetch i _ _ _
  | Store i _ _ _ => Some (keyForAttempt i)
  | Finish event | Lock event _ | ResolvePrice event _ | Record_ event _ | Settle event _ _ _ | Remove event _ | Unlock event _ _ =>
    Some (keyForAttempt (afd_Identity event))
  | Returned _ => None
  end.
Definition under_way (k : attemptKey) (t : call) : bool := bool_decide (key_of t = Some k).
Definition is_finish (t : call) : bool :=
  match t with
  | Finish _ | Lock _ _ | ResolvePrice _ _ | Record_ _ _ | Settle _ _ _ _ | Remove _ _ | Unlock _ _ _ => true
  | _ => false
  end.
Definition being_finished (k : attemptKey) (t : call) : bool := is_finish t && under_way k t.

Record system := MkSystem { sy_accounting : attemptAccounting; sy_calls : list call }.
Inductive step (overlapping : bool) : system -> system -> Prop :=
  | step_started s ts i :
      overlapping = true \/ existsb (being_finished (keyForAttempt i)) ts = false ->
      step overlapping (MkSystem s ts) (MkSystem s (ts ++ [Start i]))
  | step_finished s ts event :
      overlapping = true \/ existsb (under_way (keyForAttempt (afd_Identity event))) ts = false ->
      step overlapping (MkSystem s ts) (MkSystem s (ts ++ [Finish event]))
  | step_call s ts n t a s' t' :
      ts !! n = Some t -> IsZero (an_now a) = false -> advance a s t = Some (Ok (s', t')) ->
      step overlapping (MkSystem s ts) (MkSystem s' (<[n := t']> ts)).
Definition reachable (overlapping : bool) (w : system) : Prop := rtc (step overlapping) (MkSystem new_accounting []) w.
End Accounting.

(** ** The module

    [attemptModule.RequiredSlots] and [Register].  The values of the slots are
    parameters; [observer] wraps the components that the constructor resolved. *)
Section Module.
Context {C : Components} (LedgerSlot PriceResolverSlot QuotaGuardSlot AttemptObserverSlot : slotSpec).
Context (observer : option val -> option (option val) -> option (option val) -> val).

Definition RequiredSlots : list Requirement :=
  [RequireOne LedgerSlot; OptionalOne PriceResolverSlot; OptionalOne QuotaGuardSlot].
Definition observer_constructor : ctor :=
  CResolve (QOne LedgerSlot) (fun ledger =>
    match ledger with
    | Err err => CReturn (Err err)
    | Panic m => CReturn (Panic m)
    | Ok ledger =>
      CResolve (QOptionalOne PriceResolverSlot) (fun prices =>
        match prices with
        | Err err => CReturn (Err err)
        | Panic m => CReturn (Panic m)
        | Ok prices =>
          CResolve (QOptionalOne QuotaGuardSlot) (fun quota =>
            match quota with
            | Err err => CReturn (Err err)
            | Panic m => CReturn (Panic m)
            | Ok quota => CReturn (Ok (Some (observer ledger prices quota)))
            end)
        end)
    end).
Definition Register : regProg :=
  RegContribute [Some (AppendWith AttemptObserverSlot (Some observer_constructor))] RegReturn.
Definition NewAttemptModuleWithOptions (id : string) (subjects : bool) (defaultRequestedTokens : Z) : result Module_ :=
  reject_if (empty id || negb subjects) (ErrNew "billing: attempt module requires ID and subject resolver") ;;
  reject_if (Z.ltb defaultRequestedTokens 0) (ErrNew "billing: default requested tokens cannot be negative") ;;
  Ok (MkModule id Register (Some RequiredSlots) false).
End Module.
