(* ===== verification/BillingFacts.v ===== *)
(** * Every attempt is accounted once

    The history of the component calls for one attempt, as [Billing] makes them
    when callers do not overlap, whatever the components answer; and two runs
    of overlapping callers in which an attempt is settled twice and a call
    panics. *)

From Stdlib Require Import SpecFloat.
From S2P Require Import Prelude GoStrings AgentTypes ModelContracts ModelStream Slots Billing Assembly.

#[local] Arguments keyForAttempt : simpl never.

(** ** The history of an attempt *)

(** How far the accounting of an attempt is.  [Open] has the intent in the
    ledger; the reservation is to be settled, the outcome is what [finish]
    captured, and [recorded] tells that it is in the ledger. *)
Inductive phase :=
  | Fresh
  | Reserved (r : QuotaReservation)
  | Undoing (r : QuotaReservation)
  | Open (subject : Subject) (reservation : option QuotaReservation) (outcome : option OutcomeRecord) (recorded : bool)
  | Refused
  | Settled.

(** How a reservation is settled: the usage of a successful attempt is
    committed, the reservation of another one is released. *)
Definition settlement (r : QuotaReservation) (o : OutcomeRecord) (err : option error) : component_call :=
  if bool_decide (ato_Outcome o = OutcomeSucceeded) then Commit (MkQuotaCommit r (ato_Usage o) (ato_Price o)) err
  else Release r (outcome_string (ato_Outcome o)) err.

(** The next call for the attempt [i], and where it leads. *)
Inductive accounted (i : AttemptIdentity) : phase -> component_call -> phase -> Prop :=
  | accounted_reserve check out :
      qc_Attempt check = i -> Subject_Valid (qc_Subject check) = true ->
      accounted i Fresh (Reserve check out)
        (match out with inl r => if reservation_for i (qc_Subject check) r then Reserved r else Refused | inr _ => Refused end)
  | accounted_intent reservation intent err :
      ati_Attempt intent = i -> AttemptIntent_Validate intent = Ok tt ->
      (forall r, reservation = Some r -> reservation_for i (ati_Subject intent) r = true) ->
      accounted i (match reservation with Some r => Reserved r | None => Fresh end) (RecordAttemptIntent intent err)
        (match err, reservation with
         | None, _ => Open (ati_Subject intent) reservation None false
         | Some _, Some r => Undoing r
         | Some _, None => Refused
         end)
  | accounted_undo r err : accounted i (Undoing r) (Release r "ledger_intent_failed" err) Refused
  | accounted_outcome subject reservation before o err :
      identity_equal i (ato_Attempt o) = true -> ato_Subject o = subject -> OutcomeRecord_Validate o = Ok tt ->
      before = None \/ before = Some o ->
      accounted i (Open subject reservation before false) (RecordAttemptOutcome o err)
        (match err, reservation with
         | Some _, _ => Open subject reservation (Some o) false
         | None, Some _ => Open subject reservation (Some o) true
         | None, None => Settled
         end)
  | accounted_settle subject r o err :
      accounted i (Open subject (Some r) (Some o) true) (settlement r o err)
        (match err with None => Settled | Some _ => Open subject (Some r) (Some o) false end).
Inductive history (i : AttemptIdentity) : list component_call -> phase -> Prop :=
  | history_nil : history i [] Fresh
  | history_snoc cs ph c ph' : history i cs ph -> accounted i ph c ph' -> history i (cs ++ [c]) ph'.

(** The calls that ended a reservation. *)
Definition settles (c : component_call) : bool :=
  match c with Commit _ None | Release _ _ None => true | _ => false end.
Definition settlements (cs : list component_call) : nat := length (filter (fun c => settles c = true) cs).
Definition may_be_settled (ph : phase) : nat := match ph with Refused | Settled => 1 | _ => 0 end.

Lemma history_settlements i cs ph : history i cs ph -> (settlements cs <= may_be_settled ph)%nat.
Proof.
  induction 1 as [|cs ph c ph' _ IH Hc]; [done|]. unfold settlements in *. rewrite filter_app, length_app.
  destruct Hc as [? [r|e] ? ?|[r|] intent [e|]|r [e|]|? [r|] b o [e|]|? r o err]; simpl in *; rewrite ?filter_cons, ?filter_nil; simpl;
    repeat case_decide; repeat case_match; simpl in *; try lia; try done.
  all: unfold settlement in *; repeat case_bool_decide; simpl in *; try lia; try done.
Qed.

Definition calls_of (p : nat) (s : attemptAccounting) : list component_call :=
  omap (fun '(q, c) => if Nat.eqb q p then Some c else None) (aa_calls s).
Lemma calls_of_record p q c s : calls_of p (record_call q c s) = calls_of p s ++ (if Nat.eqb q p then [c] else []).
Proof. unfold calls_of. simpl. rewrite omap_app. simpl. by destruct (Nat.eqb q p). Qed.

(** ** What every interleaving keeps *)

(** Something about an attempt: its state, whether [started] has it, and how far
    its accounting is. *)
Definition at_attempt (s : attemptAccounting) (p : nat) (P : attemptAccountingState -> Prop -> phase -> Prop) : Prop :=
  exists st ph, aa_attempts s !! p = Some st /\ history (aas_identity st) (calls_of p s) ph /\
    P st (aa_started s !! keyForAttempt (aas_identity st) = Some p) ph.

(** What is captured of the finish event. *)
Definition captured (st : attemptAccountingState) : Prop :=
  match aas_outcome st, aas_finishEvent st with
  | None, None => True
  | Some o, Some e =>
    identity_equal (aas_identity st) (ato_Attempt o) = true /\ ato_Subject o = aas_subject st /\ OutcomeRecord_Validate o = Ok tt /\
    ato_Outcome o = afd_Outcome e /\ ato_Usage o = afd_Usage e
  | _, _ => False
  end.
Record is_open (st : attemptAccountingState) (recorded : bool) (ph : phase) : Prop := {
  io_subject : Subject_Valid (aas_subject st) = true;
  io_captured : captured st;
  io_phase : exists before, ph = Open (aas_subject st) (aas_reservation st) before recorded /\
    (before = aas_outcome st \/ before = None /\ recorded = false) }.
Record starts (i : AttemptIdentity) (st : attemptAccountingState) (live : Prop) : Prop := {
  sa_state : st = new_attempt i; sa_live : live; sa_valid : AttemptIdentity_Validate i = Ok tt }.
Record finishes (event : AttemptFinished) (locked : bool) (st : attemptAccountingState) : Prop := {
  fi_locked : aas_locked st = locked;
  fi_identity : identity_equal (aas_identity st) (afd_Identity event) = true;
  fi_valid : AttemptFinished_Validate event = Ok tt }.
Definition agrees (event : AttemptFinished) (o : OutcomeRecord) : Prop := ato_Outcome o = afd_Outcome event /\ ato_Usage o = afd_Usage event.

(** The attempt a call works on, and what holds of it there. *)
Definition works_on (t : call) : option nat :=
  match t with
  | Resolve _ p | CheckQuota _ p _ | ReserveQuota _ p _ | Intend _ p _ _ | Undo _ p _ _ | Forget _ p _ | Fetch _ p _ _ | Store _ p _ _
  | Lock _ p | ResolvePrice _ p | Record_ _ p | Settle _ p _ _ | Remove _ p | Unlock _ p _ => Some p
  | Start _ | Finish _ | Returned _ => None
  end.
Definition stage (t : call) (st : attemptAccountingState) (live : Prop) (ph : phase) : Prop :=
  match t with
  | Resolve i _ => starts i st live /\ ph = Fresh
  | CheckQuota i _ subject | ReserveQuota i _ subject => starts i st live /\ ph = Fresh /\ Subject_Valid subject = true
  | Intend i _ subject reservation =>
    starts i st live /\ ph = match reservation with Some r => Reserved r | None => Fresh end /\ Subject_Valid subject = true /\
    (forall r, reservation = Some r -> reservation_for i subject r = true)
  | Undo i _ r _ => starts i st live /\ ph = Undoing r
  | Forget i _ _ => starts i st live /\ (ph = Fresh \/ ph = Refused)
  | Fetch i _ subject reservation | Store i _ subject reservation =>
    starts i st live /\ ph = Open subject reservation None false /\ Subject_Valid subject = true
  | Lock event _ => finishes event false st /\ live /\ is_open st false ph
  | ResolvePrice event _ => finishes event true st /\ live /\ is_open st false ph /\ aas_outcome st = None
  | Record_ event _ => finishes event true st /\ live /\ is_open st false ph /\ exists o, aas_outcome st = Some o /\ agrees event o
  | Settle event _ o r =>
    finishes event true st /\ live /\ is_open st true ph /\ aas_outcome st = Some o /\ aas_reservation st = Some r /\ agrees event o
  | Remove event _ => finishes event true st /\ live /\ ph = Settled
  | Unlock event _ _ => finishes event true st /\ ((live /\ is_open st false ph) \/ (~ live /\ ph = Settled))
  | Start _ | Finish _ | Returned _ => True
  end.
(** No call works on the attempt. *)
Definition rests (st : attemptAccountingState) (live : Prop) (ph : phase) : Prop :=
  aas_locked st = false /\ ((live /\ is_open st false ph) \/ (~ live /\ (ph = Fresh \/ ph = Refused \/ ph = Settled))).

Definition call_ok (s : attemptAccounting) (t : call) : Prop :=
  match works_on t with Some p => at_attempt s p (stage t) | None => True end.
Record accounts (w : system) : Prop := {
  ac_started : forall k p, aa_started (sy_accounting w) !! k = Some p ->
    exists st, aa_attempts (sy_accounting w) !! p = Some st /\ keyForAttempt (aas_identity st) = k;
  ac_known : forall p, aa_attempts (sy_accounting w) !! p = None -> calls_of p (sy_accounting w) = [];
  ac_call : forall n t, sy_calls w !! n = Some t -> call_ok (sy_accounting w) t;
  ac_one : forall n m t u p, sy_calls w !! n = Some t -> sy_calls w !! m = Some u -> works_on t = Some p -> works_on u = Some p -> n = m;
  ac_rest : forall p st, aa_attempts (sy_accounting w) !! p = Some st -> (forall n t, sy_calls w !! n = Some t -> works_on t ≠ Some p) ->
    at_attempt (sy_accounting w) p rests;
  ac_alone : forall n m t u k, sy_calls w !! n = Some t -> sy_calls w !! m = Some u -> is_finish t = true ->
    key_of t = Some k -> key_of u = Some k -> n = m }.

(** *** Steps

    A step of a call changes nothing about the attempts it does not work on. *)
Record frame (p : nat) (s s' : attemptAccounting) : Prop := {
  un_attempts : forall q, q ≠ p -> aa_attempts s' !! q = aa_attempts s !! q;
  un_started : forall q k, q ≠ p -> aa_started s' !! k = Some q <-> aa_started s !! k = Some q;
  un_calls : forall q, q ≠ p -> calls_of q s' = calls_of q s }.
Record unchanged (p : nat) (s s' : attemptAccounting) : Prop := {
  un_frame : frame p s s';
  un_keys : forall k, aa_started s' !! k = Some p -> aa_started s !! k = Some p;
  un_identity : forall st, aa_attempts s !! p = Some st -> exists st', aa_attempts s' !! p = Some st' /\ aas_identity st' = aas_identity st }.

Lemma at_attempt_frame p q s s' (P : attemptAccountingState -> Prop -> phase -> Prop) :
  (forall st l l' ph, (l <-> l') -> P st l ph -> P st l' ph) ->
  frame p s s' -> q ≠ p -> at_attempt s q P -> at_attempt s' q P.
Proof.
  intros HP [Ha Hs Hc] Hq (st&ph&Hst&Hh&H). exists st, ph. rewrite Ha, Hc by done. split_and!; [done..|].
  eapply HP; [|exact H]. symmetry. by apply Hs.
Qed.
Lemma starts_iff i st (l l' : Prop) : (l <-> l') -> starts i st l -> starts i st l'.
Proof. intros Hl [? ? ?]. split; [done|by apply Hl|done]. Qed.
Lemma stage_iff t st (l l' : Prop) ph : (l <-> l') -> stage t st l ph -> stage t st l' ph.
Proof. intros Hl. destruct t; simpl; try tauto; pose proof (starts_iff i st l l' Hl); tauto. Qed.
Lemma rests_iff st (l l' : Prop) ph : (l <-> l') -> rests st l ph -> rests st l' ph.
Proof. unfold rests. tauto. Qed.
Lemma call_ok_frame p s s' t : frame p s s' -> works_on t ≠ Some p -> call_ok s t -> call_ok s' t.
Proof.
  unfold call_ok. intros Hu Hw. destruct (works_on t) as [q|] eqn:E; [|done].
  apply (at_attempt_frame p); [apply stage_iff|done|congruence].
Qed.

Lemma frame_refl p s : frame p s s.
Proof. by split. Qed.
Lemma unchanged_refl p s : unchanged p s s.
Proof. split; [by split|done|by eauto]. Qed.
Lemma unchanged_trans p s1 s2 s3 : unchanged p s1 s2 -> unchanged p s2 s3 -> unchanged p s1 s3.
Proof.
  intros [[A1 S1 C1] K1 I1] [[A2 S2 C2] K2 I2]. split; [split; intros q| |].
  - intros Hq. by rewrite A2, A1.
  - intros k Hq. by rewrite S2, S1.
  - intros Hq. by rewrite C2, C1.
  - auto.
  - intros st (st'&Hst'&Hi)%I1. destruct (I2 _ Hst') as (st''&?&?). exists st''. split; congruence.
Qed.
Lemma unchanged_record p c s : unchanged p s (record_call p c s).
Proof.
  split; [|done|by eauto]. split; [done..|]. intros q Hq. rewrite calls_of_record. destruct (Nat.eqb_spec p q); [done|]. by rewrite app_nil_r.
Qed.
Lemma unchanged_update p f s : (forall st, aas_identity (f st) = aas_identity st) -> unchanged p s (update_attempt f p s).
Proof.
  intros Hf. split; [|done|].
  - split; [|done..]. intros q Hq. simpl. by rewrite list_lookup_alter_ne.
  - intros st Hst. exists (f st). simpl. by rewrite list_lookup_alter, decide_True, Hst by done.
Qed.
Lemma unchanged_delete p k s : aa_started s !! k = Some p -> unchanged p s (set_started (delete k (aa_started s)) s).
Proof.
  intros Hk. split; [|simpl; by intros k' [_ ?]%lookup_delete_Some|by eauto]. split; [done| |done]. intros q k' Hq. simpl. destruct (decide (k = k')) as [<-|Hne].
  - rewrite lookup_delete_eq, Hk. split; [done|congruence].
  - by rewrite lookup_delete_ne.
Qed.
#[local] Hint Resolve unchanged_refl unchanged_record unchanged_update unchanged_delete unchanged_trans : core.

(** What a step does to the attempt of the call. *)
Lemma at_attempt_weaken s p (P Q : attemptAccountingState -> Prop -> phase -> Prop) :
  at_attempt s p P -> (forall st live ph, P st live ph -> Q st live ph) -> at_attempt s p Q.
Proof. intros (st&ph&Hst&Hh&HP) H. exists st, ph. auto. Qed.
Lemma at_record s p c (P Q : attemptAccountingState -> Prop -> phase -> Prop) :
  at_attempt s p P ->
  (forall st live ph, P st live ph -> exists ph', accounted (aas_identity st) ph c ph' /\ Q st live ph') ->
  at_attempt (record_call p c s) p Q.
Proof.
  intros (st&ph&Hst&Hh&HP) H. destruct (H _ _ _ HP) as (ph'&Hacc&HQ). exists st, ph'. split_and!; [done| |done].
  rewrite calls_of_record, Nat.eqb_refl. by eapply history_snoc.
Qed.
Lemma at_update s p f (P Q : attemptAccountingState -> Prop -> phase -> Prop) :
  at_attempt s p P -> (forall st, aas_identity (f st) = aas_identity st) ->
  (forall st live ph, P st live ph -> Q (f st) live ph) -> at_attempt (update_attempt f p s) p Q.
Proof.
  intros (st&ph&Hst&Hh&HP) Hf H. exists (f st), ph. simpl. rewrite list_lookup_alter, decide_True by done.
  rewrite Hst, Hf. simpl. split_and!; [done|done|by apply H].
Qed.
Lemma at_delete s p (P Q : attemptAccountingState -> Prop -> phase -> Prop) k :
  at_attempt s p P -> (forall st live ph, P st live ph -> k = keyForAttempt (aas_identity st)) ->
  (forall st (live live' : Prop) ph, P st live ph -> ~ live' -> Q st live' ph) ->
  at_attempt (set_started (delete k (aa_started s)) s) p Q.
Proof.
  intros (st&ph&Hst&Hh&HP) Hk H. exists st, ph. split_and!; [done..|]. apply (H _ _ _ _ HP). simpl.
  rewrite (Hk _ _ _ HP), lookup_delete_eq. done.
Qed.
Lemma at_lookup s p P st : at_attempt s p P -> aa_attempts s !! p = Some st ->
  exists ph, history (aas_identity st) (calls_of p s) ph /\ P st (aa_started s !! keyForAttempt (aas_identity st) = Some p) ph.
Proof. intros (st'&ph&?&?&?) ?. simplify_eq. by exists ph. Qed.

Lemma identity_equal_key i j : identity_equal i j = true -> keyForAttempt i = keyForAttempt j.
Proof. unfold identity_equal, keyForAttempt. intros H. bool_simpl. congruence. Qed.

(** [Validate] does not panic. *)
Definition calm {A} (r : result A) : Prop := forall m, r ≠ Panic m.
Lemma calm_reject b e : calm (reject_if b e).
Proof. by destruct b. Qed.
Lemma calm_bind {A B} (r : result A) (f : A -> result B) : calm r -> (forall x, calm (f x)) -> calm (r ≫= f).
Proof. intros Hr Hf. destruct r; simpl; [apply Hf|done|]. intros m'. by destruct (Hr msg). Qed.
Ltac calm_tac := repeat first [apply calm_reject | apply calm_bind; [|intros ?] | case_match | done].
Lemma AttemptIdentity_Validate_calm i : calm (AttemptIdentity_Validate i).
Proof. apply calm_reject. Qed.
Lemma AttemptFinished_Validate_calm e : calm (AttemptFinished_Validate e).
Proof. unfold AttemptFinished_Validate, AttemptFinish_Validate, AttemptIdentity_Validate, TokenUsage_Validate, ValidateErrorMessage. calm_tac. Qed.

(** The step of a call that works on an attempt: it still does and its stage
    holds, or it has returned and the attempt rests. *)
Definition lands (p : nat) (s : attemptAccounting) (t : call) : Prop :=
  (works_on t = Some p /\ at_attempt s p (stage t)) \/ (works_on t = None /\ key_of t = None /\ at_attempt s p rests).
Lemma lands_stage p s t : works_on t = Some p -> at_attempt s p (stage t) -> lands p s t.
Proof. by left. Qed.
Lemma lands_rests p s t : works_on t = None -> key_of t = None -> at_attempt s p rests -> lands p s t.
Proof. by right. Qed.

Definition follows (t t' : call) : Prop := key_of t' = None \/ (key_of t' = key_of t /\ is_finish t' = is_finish t).
Definition steps (p : nat) (s : attemptAccounting) (t : call) (r : progress) : Prop :=
  exists s' t', r = Some (Ok (s', t')) /\ unchanged p s s' /\ follows t t' /\ lands p s' t'.

Section Steps.
Context {options : AttemptModuleOptions}.

Lemma steps_goes p s s' t t' : unchanged p s s' -> follows t t' -> works_on t' = Some p -> at_attempt s' p (stage t') -> steps p s t (goes s' t').
Proof. intros Hu Hf Hw Hs. exists s', t'. split_and!; [done..|]. by left. Qed.
Lemma steps_returns p s s' t err : unchanged p s s' -> at_attempt s' p rests -> steps p s t (goes s' (Returned err)).
Proof. intros Hu Hs. exists s', (Returned err). split_and!; [done|done|by left|]. by right. Qed.
Lemma steps_stays p s t t' :
  follows t t' -> works_on t' = Some p -> at_attempt s p (stage t) -> (forall st live ph, stage t st live ph -> stage t' st live ph) ->
  steps p s t (goes s t').
Proof. intros Hf Hw Hs H. apply steps_goes; [done..|]. by eapply at_attempt_weaken. Qed.
Lemma steps_record p s c t t' :
  follows t t' -> works_on t' = Some p -> at_attempt s p (stage t) ->
  (forall st live ph, stage t st live ph -> exists ph', accounted (aas_identity st) ph c ph' /\ stage t' st live ph') ->
  steps p s t (goes (record_call p c s) t').
Proof. intros Hf Hw Hs H. apply steps_goes; [done..|]. by eapply at_record. Qed.
#[local] Hint Extern 1 (follows _ _) => first [by left | by right] : core.

(** *** The steps of [AttemptStarted] *)
Lemma resolve_subject_steps a s i p : call_ok s (Resolve i p) -> steps p s (Resolve i p) (resolve_subject a s i p).
Proof.
  intros H. unfold resolve_subject. destruct (an_subject a) as [subject|err]; [|apply steps_stays; [auto..|naive_solver]].
  destruct (Subject_Valid subject) eqn:Es; simpl; [|apply steps_stays; [auto..|naive_solver]].
  destruct has_quota; apply steps_stays; auto; simpl; intros st live ph [? ?]; split_and!; done.
Qed.
Lemma check_quota_steps a s i p subject : call_ok s (CheckQuota i p subject) -> steps p s (CheckQuota i p subject) (check_quota a s i p subject).
Proof.
  intros H. unfold check_quota. destruct (an_decision a) as [d|err]; [|apply steps_stays; [auto..|naive_solver]].
  destruct (QuotaDecision_Validate d) eqn:Ed; [|apply steps_stays; [auto..|naive_solver]|by destruct (calm_reject _ _ _ Ed)].
  destruct (qd_Allowed d); apply steps_stays; auto; naive_solver.
Qed.
Lemma reserve_quota_steps a s i p subject : call_ok s (ReserveQuota i p subject) -> steps p s (ReserveQuota i p subject) (reserve_quota a s i p subject).
Proof.
  intros H. unfold reserve_quota.
  assert (Hacc : forall st live ph, stage (ReserveQuota i p subject) st live ph -> accounted (aas_identity st) ph (Reserve (quota_check i subject) (an_reserved a))
    (match an_reserved a with inl r => if reservation_for i subject r then Reserved r else Refused | inr _ => Refused end)).
  { intros st live ph (Hst&->&Hsub). rewrite (sa_state _ _ _ Hst). by apply (accounted_reserve i (quota_check i subject)). }
  destruct (an_reserved a) as [r|err]; [destruct (reservation_for i subject r) eqn:Er|].
  all: apply steps_record; auto; intros st live ph Hs; eexists; (split; [by eapply Hacc|]); destruct Hs as (?&?&?); simpl; naive_solver.
Qed.
Lemma intend_steps a s i p subject reservation : IsZero (an_now a) = false ->
  call_ok s (Intend i p subject reservation) -> steps p s (Intend i p subject reservation) (intend a s i p subject reservation).
Proof.
  intros Hnow H. unfold intend. set (intent := MkAttemptIntent i subject (an_now a)).
  assert (Hacc : forall st live ph, stage (Intend i p subject reservation) st live ph -> accounted (aas_identity st) ph (RecordAttemptIntent intent (an_err a))
    (match an_err a, reservation with None, _ => Open subject reservation None false | Some _, Some r => Undoing r | Some _, None => Refused end)).
  { intros st live ph (Hst&->&Hsub&Hr). rewrite (sa_state _ _ _ Hst). apply (accounted_intent i reservation intent); [done| |done].
    unfold AttemptIntent_Validate. simpl. rewrite (sa_valid _ _ _ Hst), Hsub, Hnow. done. }
  destruct (an_err a) as [err|]; [destruct reservation as [r|]|].
  all: apply steps_record; auto; intros st live ph Hs; eexists; (split; [by eapply Hacc|]); destruct Hs as (?&?&?&?); simpl; auto.
Qed.
Lemma undo_intent_steps a s i p r err : call_ok s (Undo i p r err) -> steps p s (Undo i p r err) (undo_intent a s i p r err).
Proof.
  intros H. apply steps_record; auto. intros st live ph [Hst ->]. exists Refused. split; [constructor|]. simpl. auto.
Qed.
Lemma forget_attempt_steps s i p err : call_ok s (Forget i p err) -> steps p s (Forget i p err) (forget_attempt s i err).
Proof.
  intros (st&ph&Hst&Hh&Hs&Hph). pose proof (sa_state _ _ _ Hs) as ->. apply steps_returns; [apply unchanged_delete; apply Hs|].
  apply (at_delete s p (fun st _ ph => st = new_attempt i /\ (ph = Fresh \/ ph = Refused))).
  - by exists (new_attempt i), ph.
  - by intros ? ? ? [-> _].
  - intros ? ? ? ? [-> ?] ?. split; [done|]. right. tauto.
Qed.
Lemma fetch_attempt_steps s i p subject reservation :
  call_ok s (Fetch i p subject reservation) -> steps p s (Fetch i p subject reservation) (fetch_attempt s i subject reservation).
Proof.
  intros H. unfold fetch_attempt. pose proof H as (st&ph&Hst&Hh&Hs&_). pose proof (sa_live _ _ _ Hs) as Hl.
  rewrite (sa_state _ _ _ Hs) in Hl. simpl in Hl. rewrite Hl. apply steps_stays; auto.
Qed.
Lemma store_attempt_steps s i p subject reservation st :
  aa_attempts s !! p = Some st -> call_ok s (Store i p subject reservation) ->
  steps p s (Store i p subject reservation) (store_attempt s p st subject reservation).
Proof.
  intros Hst H. destruct (at_lookup _ _ _ _ H Hst) as (ph&Hh&Hs&_). rewrite (sa_state _ _ _ Hs). unfold store_attempt. simpl.
  apply steps_returns; [auto|]. eapply at_update; [exact H|done|].
  intros st' live ph' ([-> ? ?]&->&?). split; [done|]. left. split; [done|]. split; [done|done|]. exists None. auto.
Qed.

(** *** The steps of [AttemptFinished] *)
Lemma captured_event st e event o : aas_finishEvent st = Some e -> finished_equal e event = true -> aas_outcome st = Some o ->
  captured st -> agrees event o.
Proof. unfold captured, finished_equal. intros -> He -> (?&?&?&Ho&Hu). bool_simpl. split; congruence. Qed.
Lemma finished_validates event st now price :
  AttemptFinished_Validate event = Ok tt -> Subject_Valid (aas_subject st) = true -> IsZero now = false ->
  match price with Some p => Price_Validate p = Ok tt | None => True end -> OutcomeRecord_Validate (outcome_of now event st price) = Ok tt.
Proof.
  unfold AttemptFinished_Validate. intros H Hs Hn Hp. apply bind_Ok in H as ([]&Hi&Hf). unfold OutcomeRecord_Validate. simpl.
  rewrite Hi, Hs, Hn. simpl. rewrite Hf. simpl. by destruct price.
Qed.
Lemma captures event st ph (live : Prop) now price p :
  finishes event true st /\ live /\ is_open st false ph -> aas_outcome st = None -> IsZero now = false ->
  match price with Some p => Price_Validate p = Ok tt | None => True end ->
  stage (Record_ event p) (capture event (outcome_of now event st price) st) live ph.
Proof.
  intros ([Hl Hi Hv]&Hlive&[Hs Hc (before&->&Hb)]) Ho Hn Hp. simpl. split_and!; [by split|done| |by exists (outcome_of now event st price)].
  split; [done| |].
  - unfold captured. simpl. split_and!; [done|done|by apply finished_validates|done..].
  - exists before. split; [done|]. right. by destruct Hb as [->|[-> _]]; [rewrite Ho|].
Qed.
Lemma unlocks event st (live : Prop) ph err p : finishes event true st -> live /\ is_open st false ph -> stage (Unlock event p err) st live ph.
Proof. intros H Ho. by split; [|left]. Qed.

Lemma lock_attempt_steps a s event p st : IsZero (an_now a) = false ->
  aa_attempts s !! p = Some st -> call_ok s (Lock event p) -> steps p s (Lock event p) (lock_attempt a s event p st).
Proof.
  intros Hn Hst H. destruct (at_lookup _ _ _ _ H Hst) as (ph&Hh&[Hl Hi Hv]&Hlive&Hopen). unfold lock_attempt. rewrite Hl.
  set (P := fun st' (live : Prop) ph => finishes event true st' /\ live /\ is_open st' false ph /\ st' = set_locked true st).
  assert (HP : at_attempt (update_attempt (set_locked true) p s) p P).
  { exists (set_locked true st), ph. simpl. rewrite list_lookup_alter, decide_True, Hst by done. split_and!; [done..|].
    destruct Hopen as [Hs Hc Hph]. by split_and!. }
  destruct (match aas_finishEvent st with Some e => negb (finished_equal e event) | None => false end) eqn:Ee.
  - apply steps_goes; auto. eapply at_attempt_weaken; [exact HP|]. intros st' live ph' (Hf&Hlo&Ho&_). by apply unlocks.
  - destruct (aas_outcome st) as [o|] eqn:Eo; [|destruct (priced event)].
    + apply steps_goes; auto. eapply at_attempt_weaken; [exact HP|]. intros st' live ph' (Hf&Hlo&Ho&->). simpl. split_and!; [done..|].
      exists o. split; [done|]. pose proof (io_captured _ _ _ Ho) as Hc. unfold captured in Hc. simpl in Hc. rewrite Eo in Hc.
      destruct (aas_finishEvent st) as [e|] eqn:Ef; [|done]. apply negb_false_iff in Ee.
      by eapply (captured_event (set_locked true st)); [exact Ef| |exact Eo|apply Ho].
    + apply steps_goes; auto. eapply at_attempt_weaken; [exact HP|]. intros st' live ph' (Hf&Hlo&Ho&->). by split_and!.
    + apply steps_goes; [by eapply unchanged_trans; apply unchanged_update|auto..|]. eapply at_update; [exact HP|done|]. intros st' live ph' (Hf&Hlo&Ho&->).
      by apply (captures event (set_locked true st) ph' live (an_now a) None).
Qed.
Lemma resolve_price_steps a s event p st : IsZero (an_now a) = false ->
  aa_attempts s !! p = Some st -> call_ok s (ResolvePrice event p) -> steps p s (ResolvePrice event p) (resolve_price a s event p st).
Proof.
  intros Hn Hst H. unfold resolve_price.
  assert (Hu : forall err, steps p s (ResolvePrice event p) (goes s (Unlock event p err))).
  { intros err. apply steps_stays; auto. intros st' live ph' (?&?&?&?). by apply unlocks. }
  destruct (an_price a) as [price|err]; [|apply Hu].
  destruct (Price_Validate price) as [[]|err|m] eqn:Ep; [|apply Hu|by destruct (calm_reject _ _ _ Ep)].
  destruct (at_lookup _ _ _ _ H Hst) as (ph&Hh&Hf&Hlive&Hopen&Ho). apply steps_goes; auto.
  exists (capture event (outcome_of (an_now a) event st (Some price)) st), ph.
  split; [simpl; by rewrite list_lookup_alter, decide_True, Hst by done|]. split; [done|].
  by apply (captures event st ph _ (an_now a) (Some price) p).
Qed.
Lemma record_outcome_steps a s event p st :
  aa_attempts s !! p = Some st -> call_ok s (Record_ event p) -> steps p s (Record_ event p) (record_outcome a s event p st).
Proof.
  intros Hst H. destruct (at_lookup _ _ _ _ H Hst) as (ph&Hh&Hf&Hlive&[Hs Hc (before&->&Hb)]&o&Ho&Hag). unfold record_outcome. rewrite Ho.
  assert (Hacc : accounted (aas_identity st) (Open (aas_subject st) (aas_reservation st) before false) (RecordAttemptOutcome o (an_err a))
    (match an_err a, aas_reservation st with
     | Some _, _ => Open (aas_subject st) (aas_reservation st) (Some o) false
     | None, Some _ => Open (aas_subject st) (aas_reservation st) (Some o) true
     | None, None => Settled
     end)).
  { unfold captured in Hc. rewrite Ho in Hc. destruct (aas_finishEvent st); [|done]. destruct Hc as (?&?&?&_).
    apply accounted_outcome; [done..|]. destruct Hb as [->|[-> _]]; [right; congruence|by left]. }
  assert (Hgo : forall t' ph', accounted (aas_identity st) (Open (aas_subject st) (aas_reservation st) before false) (RecordAttemptOutcome o (an_err a)) ph' ->
    follows (Record_ event p) t' -> works_on t' = Some p -> stage t' st (aa_started s !! keyForAttempt (aas_identity st) = Some p) ph' ->
    steps p s (Record_ event p) (goes (record_call p (RecordAttemptOutcome o (an_err a)) s) t')).
  { intros t' ph' Ha Hfo Hw Hstg. apply steps_goes; [auto..|]. exists st, ph'. split_and!; [done| |done].
    rewrite calls_of_record, Nat.eqb_refl. by eapply history_snoc. }
  destruct (an_err a) as [err|] eqn:Ea; [|destruct (aas_reservation st) as [r|] eqn:Er]; eapply Hgo; try exact Hacc; try done; try by right.
  - apply unlocks; [done|]. split; [done|]. split; [done..|]. exists (Some o). split; [done|left; congruence].
  - simpl. split_and!; [done|done| |done..]. split; [done..|]. exists (Some o). split; [congruence|left; congruence].
Qed.
Lemma settle_quota_steps a s event p o r :
  call_ok s (Settle event p o r) -> steps p s (Settle event p o r) (settle_quota a s event p o r).
Proof.
  intros H. unfold settle_quota.
  assert (Hm : agrees event o -> (if bool_decide (afd_Outcome event = OutcomeSucceeded)
    then Commit (MkQuotaCommit r (afd_Usage event) (ato_Price o)) (an_err a) else Release r (outcome_string (afd_Outcome event)) (an_err a)) = settlement r o (an_err a)).
  { intros [Ho Hu]. unfold settlement. by rewrite Ho, Hu. }
  pose proof H as (st0&ph0&_&_&_&_&_&_&_&Hag). rewrite (Hm Hag).
  assert (Hacc : forall st live ph, stage (Settle event p o r) st live ph -> accounted (aas_identity st) ph (settlement r o (an_err a))
    (match an_err a with None => Settled | Some _ => Open (aas_subject st) (Some r) (Some o) false end)).
  { intros st live ph (_&_&[_ _ (before&->&Hb)]&Ho&Hr&_). destruct Hb as [->|[_ ?]]; [|done]. rewrite Ho, Hr. constructor. }
  destruct (an_err a) as [err|]; apply steps_record; auto; intros st live ph Hs; eexists; (split; [by eapply Hacc|]); destruct Hs as (Hf&Hl&[Hsu Hc Hp]&Ho&Hr&Ha).
  - apply unlocks; [done|]. split; [done|]. split; [done..|]. exists (Some o). rewrite Hr. split; [done|by left].
  - by split_and!.
Qed.
Lemma remove_attempt_steps s event p : call_ok s (Remove event p) -> steps p s (Remove event p) (remove_attempt s event p).
Proof.
  intros H. pose proof H as (st&ph&Hst&Hh&Hf&Hl&Hph).
  apply steps_goes; auto.
  - apply unchanged_delete. by rewrite <- (identity_equal_key _ _ (fi_identity _ _ _ Hf)).
  - eapply at_delete; [exact H| |].
    + intros ? ? ? [[? Hi ?] _]. by rewrite (identity_equal_key _ _ Hi).
    + intros st' live live' ph' (?&?&?) ?. split; [done|by right].
Qed.
Lemma unlock_steps s event p err : call_ok s (Unlock event p err) -> steps p s (Unlock event p err) (goes (update_attempt (set_locked false) p s) (Returned err)).
Proof.
  intros H. apply steps_returns; [auto|]. eapply at_update; [exact H|done|]. intros st live ph [[? ? ?] Ho]. split; [done|].
  destruct Ho as [[? [? ? ?]]|[? ?]]; [left; by split_and!|right; auto].
Qed.

(** Every step of a call on an attempt. *)
Lemma works_advance a s t p : IsZero (an_now a) = false -> works_on t = Some p -> call_ok s t -> steps p s t (advance a s t).
Proof.
  intros Hn Hw H. assert (is_Some (aa_attempts s !! p)) as [st Hst].
  { unfold call_ok in H. rewrite Hw in H. destruct H as (st&?&?&_). by exists st. }
  destruct t; try discriminate Hw; injection Hw as ->; unfold advance; rewrite ?Hst; simpl.
  - by apply resolve_subject_steps.
  - by apply check_quota_steps.
  - by apply reserve_quota_steps.
  - by apply intend_steps.
  - by apply undo_intent_steps.
  - by apply forget_attempt_steps.
  - by apply fetch_attempt_steps.
  - by apply store_attempt_steps.
  - by apply lock_attempt_steps.
  - by apply resolve_price_steps.
  - by apply record_outcome_steps.
  - by apply settle_quota_steps.
  - by apply remove_attempt_steps.
  - by apply unlock_steps.
Qed.

(** *** Every reachable state *)
Lemma lookup_replaced {A} (l : list A) n x m y : <[n := x]> l !! m = Some y -> (m = n /\ y = x) \/ (m ≠ n /\ l !! m = Some y).
Proof. intros [(<-&<-&_)|[? ?]]%list_lookup_insert_Some; auto. Qed.
Lemma lookup_appended {A} (l : list A) x m y : (l ++ [x]) !! m = Some y -> (m = length l /\ y = x) \/ ((m < length l)%nat /\ l !! m = Some y).
Proof.
  intros [H|[Hge H]]%lookup_app_Some; [right; split; [by eapply lookup_lt_Some|done]|left].
  apply list_lookup_singleton_Some in H as [? <-]. split; [lia|done].
Qed.

Lemma lands_rest p s t : lands p s t -> works_on t ≠ Some p -> at_attempt s p rests.
Proof. by intros [[? _]|(_&_&?)]. Qed.
Lemma lands_ok p s t : lands p s t -> call_ok s t.
Proof. unfold call_ok. intros [[-> H]|(->&_)]; [exact H|done]. Qed.
Lemma lands_only p q s t : lands p s t -> works_on t = Some q -> q = p.
Proof. intros [[-> _]|(->&_)]; congruence. Qed.

(** A call makes a step on the attempt [p], on which no other call works. *)
Lemma accounts_replace s ts s' n t t' p :
  accounts (MkSystem s ts) -> ts !! n = Some t -> (forall q, works_on t = Some q -> q = p) -> frame p s s' -> follows t t' -> lands p s' t' ->
  (forall k, aa_started s' !! k = Some p -> exists st, aa_attempts s' !! p = Some st /\ keyForAttempt (aas_identity st) = k) ->
  (forall m u, m ≠ n -> ts !! m = Some u -> works_on u ≠ Some p) ->
  accounts (MkSystem s' (<[n := t']> ts)).
Proof.
  intros [Hs Hkn Hc Ho Hr Ha] Ht Hw Hf Hfo Hl Hk Hothers. simpl in *. split; simpl.
  - intros k q Hq. destruct (decide (q = p)) as [->|Hne]; [by apply Hk|].
    rewrite (un_attempts _ _ _ Hf) by done. apply Hs. by apply (un_started _ _ _ Hf).
  - intros q Hq. destruct (decide (q = p)) as [->|Hne]; [by destruct Hl as [[_ (st&?&?&_)]|(_&_&st&?&?&_)]; congruence|].
    rewrite (un_calls _ _ _ Hf) by done. apply Hkn. by rewrite <- (un_attempts _ _ _ Hf).
  - intros m u [[-> ->]|[Hne Hu]]%lookup_replaced; [by eapply lands_ok|]. eapply call_ok_frame; eauto.
  - assert (Hx : forall m u q, m ≠ n -> ts !! m = Some u -> works_on u = Some q -> works_on t' = Some q -> False).
    { intros m u q Hm Hu Hq1 Hq2. rewrite (lands_only _ _ _ _ Hl Hq2) in Hq1. by eapply Hothers. }
    intros m1 m2 u1 u2 q [[-> ->]|[H1 Hu1]]%lookup_replaced [[-> ->]|[H2 Hu2]]%lookup_replaced Hq1 Hq2; [done|by destruct (Hx m2 u2 q)|by destruct (Hx m1 u1 q)|by eapply Ho].
  - intros q st Hst Hno. assert (Hno' : forall m u, m ≠ n -> ts !! m = Some u -> works_on u ≠ Some q).
    { intros m u Hm Hu. apply (Hno m). by rewrite list_lookup_insert_ne. }
    destruct (decide (q = p)) as [->|Hne].
    + eapply lands_rest; [done|]. apply (Hno n). apply list_lookup_insert_eq. by eapply lookup_lt_Some.
    + eapply at_attempt_frame; [apply rests_iff|done|done|]. rewrite (un_attempts _ _ _ Hf) in Hst by done. eapply Hr; [done|].
      intros m u Hu. destruct (decide (m = n)) as [->|Hm]; [|by eapply Hno']. simplify_eq. intros ?. by apply Hne, Hw.
  - assert (Hx : forall m u k, m ≠ n -> ts !! m = Some u -> key_of u = Some k -> key_of t' = Some k -> is_finish u = true \/ is_finish t' = true -> False).
    { intros m u k Hm Hu Hku Hkt Hfin. destruct Hfo as [Hnone|[Hkey Hfi]]; [congruence|]. apply Hm. rewrite Hkey in Hkt. rewrite Hfi in Hfin.
      destruct Hfin; [by eapply Ha|]. symmetry. by eapply (Ha n m t u). }
    intros m1 m2 u1 u2 k [[-> ->]|[H1 Hu1]]%lookup_replaced [[-> ->]|[H2 Hu2]]%lookup_replaced Hf1 Hk1 Hk2; [done| | |by eapply Ha].
    + destruct (Hx m2 u2 k); auto.
    + destruct (Hx m1 u1 k); auto.
Qed.

Lemma accounts_returned s ts n t err :
  accounts (MkSystem s ts) -> ts !! n = Some t -> works_on t = None -> accounts (MkSystem s (<[n := Returned err]> ts)).
Proof.
  intros [Hs Hkn Hc Ho Hr Ha] Ht Hw. simpl in *. split; simpl; [done|done| | | |].
  - intros m u [[-> ->]|[Hne Hu]]%lookup_replaced; [done|by eapply Hc].
  - intros m1 m2 u1 u2 q [[-> ->]|[H1 Hu1]]%lookup_replaced [[-> ->]|[H2 Hu2]]%lookup_replaced Hq1 Hq2; try done. by eapply Ho.
  - intros q st Hst Hno. eapply Hr; [done|]. intros m u Hu. destruct (decide (m = n)) as [->|Hm]; [congruence|].
    apply (Hno m). by rewrite list_lookup_insert_ne.
  - intros m1 m2 u1 u2 k [[-> ->]|[H1 Hu1]]%lookup_replaced [[-> ->]|[H2 Hu2]]%lookup_replaced Hf1 Hk1 Hk2; try done. by eapply Ha.
Qed.
Lemma accounts_call s ts t :
  accounts (MkSystem s ts) -> works_on t = None ->
  (forall k, key_of t = Some k -> existsb (if is_finish t then under_way k else being_finished k) ts = false) ->
  accounts (MkSystem s (ts ++ [t])).
Proof.
  intros [Hs Hkn Hc Ho Hr Ha] Hw Hk. simpl in *.
  assert (Hx : forall m u k, ts !! m = Some u -> key_of u = Some k -> key_of t = Some k -> is_finish u = true \/ is_finish t = true -> False).
  { intros m u k Hu Hku Hkt Hfin. pose proof (Hk k Hkt) as He. rewrite <- not_true_iff_false, existsb_exists in He. apply He. exists u.
    split; [apply list_elem_of_In; by eapply list_elem_of_lookup_2|].
    assert (under_way k u = true) as Hu' by (by apply bool_decide_eq_true). destruct (is_finish t); [done|]. unfold being_finished.
    rewrite Hu'. by destruct (is_finish u), Hfin. }
  split; simpl; [done|done| | | |].
  - intros m u [[-> ->]|[? Hu]]%lookup_appended; [unfold call_ok; by rewrite Hw|by eapply Hc].
  - intros m1 m2 u1 u2 q [[-> ->]|[H1 Hu1]]%lookup_appended [[-> ->]|[H2 Hu2]]%lookup_appended Hq1 Hq2; try congruence. by eapply Ho.
  - intros q st Hst Hno. eapply Hr; [done|]. intros m u Hu. apply (Hno m). apply lookup_app_l_Some. done.
  - intros m1 m2 u1 u2 k [[-> ->]|[H1 Hu1]]%lookup_appended [[-> ->]|[H2 Hu2]]%lookup_appended Hf1 Hk1 Hk2; [done| | |by eapply Ha].
    + destruct (Hx m2 u2 k); auto.
    + destruct (Hx m1 u1 k); auto.
Qed.

Lemma start_attempt_accounts s ts n i s' t' :
  accounts (MkSystem s ts) -> ts !! n = Some (Start i) -> start_attempt s i = Some (Ok (s', t')) -> accounts (MkSystem s' (<[n := t']> ts)).
Proof.
  intros H Hn Hstep. unfold start_attempt in Hstep. destruct (AttemptIdentity_Validate i) as [[]|err|m] eqn:Ev; [|by injection Hstep as <- <-; eapply accounts_returned|done].
  destruct (aa_started s !! keyForAttempt i) as [q|] eqn:Ek; [by injection Hstep as <- <-; eapply accounts_returned|]. injection Hstep as <- <-.
  assert (Hold : forall q st, aa_attempts s !! q = Some st -> q ≠ length (aa_attempts s)).
  { intros q st Hq%lookup_lt_Some. lia. }
  assert (Hk : forall k, aa_started s !! k ≠ Some (length (aa_attempts s))).
  { intros k (st&Hst&_)%(ac_started _ H). by eapply Hold. }
  assert (Hnew : calls_of (length (aa_attempts s)) s = []).
  { apply (ac_known _ H), lookup_ge_None_2. done. }
  apply (accounts_replace s ts _ n (Start i) _ (length (aa_attempts s))); [done|done|done| |by right| | |].
  - split; simpl; [|intros q k Hq|done].
    + intros q Hq. destruct (decide (q < length (aa_attempts s))%nat); [by rewrite lookup_app_l|].
      rewrite !lookup_ge_None_2; [done|lia|rewrite length_app; simpl; lia].
    + destruct (decide (keyForAttempt i = k)) as [<-|Hne]; [|by rewrite lookup_insert_ne].
      rewrite lookup_insert_eq, Ek. split; congruence.
  - left. split; [done|]. exists (new_attempt i), Fresh. simpl. rewrite lookup_app_r, Nat.sub_diag by done. split; [done|]. split.
    + unfold calls_of in *. simpl. rewrite Hnew. constructor.
    + split; [|done]. split; [done| |done]. apply lookup_insert_eq.
  - simpl. intros k [[<- _]|[_ Hq]]%lookup_insert_Some; [|by destruct (Hk k)]. exists (new_attempt i).
    by rewrite lookup_app_r, Nat.sub_diag.
  - intros m u _ Hu Hw. pose proof (ac_call _ H _ _ Hu) as Hc. unfold call_ok in Hc. rewrite Hw in Hc. destruct Hc as (st&_&Hst&_).
    by eapply Hold.
Qed.

Lemma stage_key t p st live ph : works_on t = Some p -> stage t st live ph -> key_of t = Some (keyForAttempt (aas_identity st)).
Proof.
  destruct t; intros Hw; try discriminate Hw; simpl.
  all: first [intros [[-> _ _] _]; done | intros [[_ Hi _] _]; by rewrite (identity_equal_key _ _ Hi)].
Qed.
Lemma find_attempt_accounts s ts n event s' t' :
  accounts (MkSystem s ts) -> ts !! n = Some (Finish event) -> find_attempt s event = Some (Ok (s', t')) -> accounts (MkSystem s' (<[n := t']> ts)).
Proof.
  intros H Hn Hstep. unfold find_attempt in Hstep.
  destruct (AttemptFinished_Validate event) as [[]|err|m] eqn:Ev; [|by injection Hstep as <- <-; eapply accounts_returned|done].
  destruct (aa_started s !! keyForAttempt (afd_Identity event)) as [p|] eqn:Ek; [|by injection Hstep as <- <-; eapply accounts_returned].
  destruct (ac_started _ H _ _ Ek) as (st&Hst&Hkey). simpl in Hst. rewrite Hst in Hstep. simpl in Hstep.
  destruct (identity_equal (aas_identity st) (afd_Identity event)) eqn:Ei; [|by injection Hstep as <- <-; eapply accounts_returned]. injection Hstep as <- <-.
  assert (Hothers : forall m u, ts !! m = Some u -> works_on u ≠ Some p).
  { intros m u Hu Hw. pose proof (ac_call _ H _ _ Hu) as Hc. unfold call_ok in Hc. rewrite Hw in Hc. destruct Hc as (st'&ph&Hst'&_&Hstage).
    assert (st' = st) as -> by (simpl in Hst'; congruence). assert (m = n) as ->; [|rewrite Hn in Hu; by injection Hu as <-].
    symmetry. eapply (ac_alone _ H n m); [exact Hn|exact Hu|done|done|]. rewrite <- Hkey. by eapply stage_key. }
  apply (accounts_replace s ts s n (Finish event) _ p); [done|done|done|apply frame_refl|by right| | |intros m u _; apply Hothers].
  - left. split; [done|]. destruct (ac_rest _ H p st Hst Hothers) as (st'&ph&Hst'&Hh&Hr). simpl in Hst', Hh, Hr.
    assert (st' = st) as -> by congruence. exists st, ph. split_and!; [done..|]. destruct Hr as [Hl [[Hlive Ho]|[Hlive _]]]; [by split_and!|]. by rewrite Hkey in Hlive.
  - intros k Hk. by apply (ac_started _ H).
Qed.

Lemma accounts_step w w' : accounts w -> step false w w' -> accounts w'.
Proof.
  intros H Hstep. destruct Hstep as [s ts i Hg|s ts event Hg|s ts n t a s' t' Hn Hnow Hadv].
  - apply accounts_call; [done|done|]. intros k [= <-]. by destruct Hg.
  - apply accounts_call; [done|done|]. intros k [= <-]. by destruct Hg.
  - destruct (works_on t) as [p|] eqn:Hw.
    + pose proof (ac_call _ H _ _ Hn) as Hok. destruct (works_advance a s t p Hnow Hw Hok) as (s1&t1&He&[Hf Hk Hi]&Hfo&Hl).
      rewrite Hadv in He. injection He as <- <-. apply (accounts_replace s ts s' n t t' p); [done|done|congruence|done|done|done| |].
      * intros k (st&Hst&<-)%Hk%(ac_started _ H). destruct (Hi _ Hst) as (st'&?&<-). by exists st'.
      * intros m u Hm Hu Hu'. apply Hm. by eapply (ac_one _ H m n u t p).
    + destruct t; try discriminate Hw; [by eapply start_attempt_accounts|by eapply find_attempt_accounts|done].
Qed.
Lemma accounts_initial : accounts (MkSystem new_accounting []).
Proof. by split. Qed.
Lemma reachable_accounts w : reachable false w -> accounts w.
Proof.
  intros H. apply (rtc_ind_r (R := step false) accounts (MkSystem new_accounting [])); [apply accounts_initial| |exact H].
  intros w1 w2 _ Hs Ha. by eapply accounts_step.
Qed.

(** A call that has not returned makes a step. *)
Lemma accounts_advance a w n t : accounts w -> sy_calls w !! n = Some t -> IsZero (an_now a) = false -> key_of t ≠ None ->
  exists s' t', advance a (sy_accounting w) t = Some (Ok (s', t')).
Proof.
  intros H Hn Hnow Hk. destruct (works_on t) as [p|] eqn:Hw.
  - destruct (works_advance a _ t p Hnow Hw (ac_call _ H _ _ Hn)) as (s'&t'&?&_). eauto.
  - destruct t; try discriminate Hw; try done; simpl.
    + unfold start_attempt. destruct (AttemptIdentity_Validate i) eqn:Ev; [|by eexists _, _|by destruct (AttemptIdentity_Validate_calm _ _ Ev)].
      case_match; by eexists _, _.
    + unfold find_attempt. destruct (AttemptFinished_Validate event) eqn:Ev; [|by eexists _, _|by destruct (AttemptFinished_Validate_calm _ _ Ev)].
      destruct (aa_started _ !! _) as [p|] eqn:Ek; [|by eexists _, _]. destruct (ac_started _ H _ _ Ek) as (st&Hst&_).
      rewrite Hst. simpl. case_match; by eexists _, _.
Qed.

Lemma accounts_history w p st : accounts w -> aa_attempts (sy_accounting w) !! p = Some st ->
  exists ph, history (aas_identity st) (calls_of p (sy_accounting w)) ph /\
    (existsb (under_way (keyForAttempt (aas_identity st))) (sy_calls w) = false ->
     rests st (aa_started (sy_accounting w) !! keyForAttempt (aas_identity st) = Some p) ph).
Proof.
  intros H Hst. destruct (decide (Exists (fun t => works_on t = Some p) (sy_calls w))) as [He|He].
  - apply Exists_exists in He as (t&[n Hn]%list_elem_of_lookup&Hw). pose proof (ac_call _ H _ _ Hn) as Hc. unfold call_ok in Hc. rewrite Hw in Hc.
    destruct (at_lookup _ _ _ _ Hc Hst) as (ph&Hh&Hs). exists ph. split; [done|]. intros Hno. exfalso.
    rewrite <- not_true_iff_false, existsb_exists in Hno. apply Hno. exists t. split; [apply list_elem_of_In; by eapply list_elem_of_lookup_2|].
    apply bool_decide_eq_true. by eapply stage_key.
  - destruct (at_lookup _ _ _ _ (ac_rest _ H p st Hst ltac:(intros n t Hn Hw; apply He, Exists_exists; exists t; split; [by eapply list_elem_of_lookup_2|done])) Hst)
      as (ph&?&?). by exists ph.
Qed.
End Steps.

(** What has become of an attempt that no call works on: it is kept, to be
    finished (again), or its accounting has ended. *)
Definition kept (ph : phase) : Prop := exists subject reservation before, ph = Open subject reservation before false.
Definition over (ph : phase) : Prop := ph = Fresh \/ ph = Refused \/ ph = Settled.

(** C11 (safety): whatever the subject resolver, the price resolver, the quota
    guard and the ledger answer, and however the calls of callers that do not
    overlap interleave, a call of the observer that has not returned makes a
    step (it neither waits for ever nor panics); the quota and ledger calls for
    an attempt are a history of [accounted] steps (the reservation and the
    intent before anything else, every record of the outcome the same valid one
    and before the settlement, and the settlement the one that belongs to the
    reservation and the outcome); at most one call that ends the reservation
    succeeds; and while no call for the attempt is under way the observer keeps
    it exactly if its outcome is still to be recorded or settled. *)
Theorem attempts_accounted (options : AttemptModuleOptions) w :
  reachable false w ->
  (forall a n t, sy_calls w !! n = Some t -> IsZero (an_now a) = false -> key_of t ≠ None ->
     exists s' t', advance a (sy_accounting w) t = Some (Ok (s', t'))) /\
  forall p st, aa_attempts (sy_accounting w) !! p = Some st ->
    exists ph, history (aas_identity st) (calls_of p (sy_accounting w)) ph /\
      (settlements (calls_of p (sy_accounting w)) <= 1)%nat /\
      (existsb (under_way (keyForAttempt (aas_identity st))) (sy_calls w) = false ->
        (aa_started (sy_accounting w) !! keyForAttempt (aas_identity st) = Some p /\ kept ph) \/
        (aa_started (sy_accounting w) !! keyForAttempt (aas_identity st) ≠ Some p /\ over ph)).
Proof.
  intros H%reachable_accounts. split; [intros a n t; by apply accounts_advance|]. intros p st Hst.
  assert (exists ph, history (aas_identity st) (calls_of p (sy_accounting w)) ph /\ (existsb (under_way (keyForAttempt (aas_identity st))) (sy_calls w) = false ->
    rests st (aa_started (sy_accounting w) !! keyForAttempt (aas_identity st) = Some p) ph)) as (ph&Hh&Hr).
  { by apply accounts_history. }
  exists ph. split; [done|]. split.
  - apply history_settlements in Hh. destruct ph; simpl in Hh; lia.
  - intros [Hl [[? Ho]|?]]%Hr; [left|by right]. split; [done|]. destruct (io_phase _ _ _ Ho) as (before&->&_). by eexists _, _, _.
Qed.

(** ** Runs *)
Section Runs.
Context {options : AttemptModuleOptions}.

(** What happens next: a call begins, or the call [n] makes a step. *)
Inductive event := Begins (t : call) | Steps (n : nat) (a : answers).
Definition run_event (overlapping : bool) (w : system) (e : event) : option system :=
  let 'MkSystem s ts := w in
  match e with
  | Begins (Start i) =>
    if overlapping || negb (existsb (being_finished (keyForAttempt i)) ts) then Some (MkSystem s (ts ++ [Start i])) else None
  | Begins (Finish f) =>
    if overlapping || negb (existsb (under_way (keyForAttempt (afd_Identity f))) ts) then Some (MkSystem s (ts ++ [Finish f])) else None
  | Begins _ => None
  | Steps n a =>
    t ← ts !! n;
    if IsZero (an_now a) then None
    else match advance a s t with Some (Ok (s', t')) => Some (MkSystem s' (<[n := t']> ts)) | _ => None end
  end.
Fixpoint run_events (overlapping : bool) (es : list event) (w : system) : option system :=
  match es with
  | [] => Some w
  | e :: es => w ← run_event overlapping w e; run_events overlapping es w
  end.

Lemma run_event_step overlapping w e w' : run_event overlapping w e = Some w' -> step overlapping w w'.
Proof.
  destruct w as [s ts], e as [t|n a]; simpl.
  - destruct t; try done; (destruct (overlapping || _) eqn:Hg; [|done]); intros [= <-]; constructor;
      apply orb_true_iff in Hg as [->|Hg%negb_true_iff]; auto.
  - destruct (ts !! n) as [t|] eqn:Hn; simpl; [|done]. destruct (IsZero (an_now a)) eqn:Hz; [done|].
    destruct (advance a s t) as [[[s' t']|?|?]|] eqn:Ha; try done. intros [= <-]. by eapply step_call.
Qed.
Lemma run_events_reachable overlapping es w : run_events overlapping es (MkSystem new_accounting []) = Some w -> reachable overlapping w.
Proof.
  unfold reachable. generalize (MkSystem new_accounting []). induction es as [|e es IH]; simpl; intros w0 H; [injection H as ->; apply rtc_refl|].
  apply bind_Some in H as (w1&He&H). eapply rtc_l; [by eapply run_event_step|by apply IH].
Qed.
End Runs.

Definition with_quota : AttemptModuleOptions := {| has_prices := true; has_quota := true; DefaultRequestedTokens := 100 |}.
Definition attempt1 : AttemptIdentity :=
  MkAttemptIdentity "session" "run" "step" "attempt" 1 (MkConfig "provider" "model" ReasoningDefault (MkParameters None None)).
Definition subject1 : Subject := MkSubject "user" "u1".
Definition succeeded1 : AttemptFinished := MkAttemptFinished attempt1 OutcomeSucceeded "request" (MkTokenUsage 6 4 0 0 0 10 false "") "".
Definition reservation1 : QuotaReservation := MkQuotaReservation "r1" subject1 attempt1.
Definition answering (err : option error) : answers :=
  MkAnswers 1 (inl subject1) (inl (MkQuotaDecision true "")) (inl reservation1) (inl (MkPrice "EUR" 12 "v1")) err.
Definition many (k n : nat) : list event := repeat (Steps n (answering None)) k.
Definition refusing (n : nat) : event := Steps n (answering (Some (ErrNew "ledger unavailable"))).

(** An attempt is started; its first finish fails at the ledger, and it is
    finished again. *)
Definition retried : list event :=
  Begins (Start attempt1) :: many 7 0 ++ Begins (Finish succeeded1) :: many 3 1 ++ refusing 1 :: many 1 1 ++ Begins (Finish succeeded1) :: many 6 2.
Example retried_settled :
  match run_events (options := with_quota) false retried (MkSystem new_accounting []) with
  | Some w => (settles <$> calls_of 0 (sy_accounting w)) = [false; false; false; false; true] /\ aa_started (sy_accounting w) = ∅
  | None => False
  end.
Proof. vm_compute. by split. Qed.

Definition retried_system : system :=
  default (MkSystem new_accounting []) (run_events (options := with_quota) false (take 14 retried) (MkSystem new_accounting [])).
Lemma attempts_accounted_witness :
  reachable (options := with_quota) false retried_system /\
  exists ph, history attempt1 (calls_of 0 (sy_accounting retried_system)) ph /\
    ((aa_started (sy_accounting retried_system) !! keyForAttempt attempt1 = Some 0%nat /\ kept ph) \/
     (aa_started (sy_accounting retried_system) !! keyForAttempt attempt1 ≠ Some 0%nat /\ over ph)).
Proof.
  assert (Hr : reachable (options := with_quota) false retried_system).
  { apply (run_events_reachable (options := with_quota) false (take 14 retried)). vm_compute. reflexivity. }
  split; [exact Hr|].
  destruct (attempts_accounted with_quota retried_system Hr) as [_ H].
  assert (Hl : exists st, aa_attempts (sy_accounting retried_system) !! 0%nat = Some st /\ aas_identity st = attempt1).
  { eexists. split; vm_compute; reflexivity. }
  destruct Hl as (st&Hst&Hi). destruct (H 0%nat st Hst) as (ph&Hh&_&Hk). rewrite Hi in Hh, Hk.
  exists ph. split; [exact Hh|]. apply Hk. vm_compute. reflexivity.
Defined.

(** Two overlapping calls of [AttemptFinished] for one attempt both find it in
    [started]: the second waits for the mutex and settles the quota again. *)
Definition overlapping_finishes : list event :=
  Begins (Start attempt1) :: many 7 0 ++ Begins (Finish succeeded1) :: Begins (Finish succeeded1) :: many 1 1 ++ many 1 2 ++ many 6 1 ++ many 5 2.
Example settled_twice :
  match run_events (options := with_quota) true overlapping_finishes (MkSystem new_accounting []) with
  | Some w =>
    sy_calls w = [Returned None; Returned None; Returned None] /\
    omap (fun c => match c with Commit m None => Some (qm_Reservation m) | _ => None end) (calls_of 0 (sy_accounting w)) = [reservation1; reservation1]
  | None => False
  end.
Proof. vm_compute. by split. Qed.

(** A finish that overlaps the start removes the attempt; the start then follows
    a nil pointer. *)
Definition overtaken_start : list event :=
  Begins (Start attempt1) :: many 5 0 ++ Begins (Finish succeeded1) :: many 6 1.
Example start_panics :
  match run_events (options := with_quota) true overtaken_start (MkSystem new_accounting []) with
  | Some w => sy_calls w !! 0%nat = Some (Fetch attempt1 0 subject1 (Some reservation1)) /\
    advance (options := with_quota) (answering None) (sy_accounting w) (Fetch attempt1 0 subject1 (Some reservation1)) =
      Some (Panic "invalid memory address or nil pointer dereference")
  | None => False
  end.
Proof. vm_compute. by split. Qed.
