(* ===== verification/Memory.v ===== *)
(** * Long-term memory

    Models [memory/contracts.go] and [memory/module.go]: what a memory request,
    a result and the runtime scope of a Session must look like, the three
    standard tools and the context source, and the modules that contribute
    them.

    A store and the resolver of scopes are components of the product: their
    answers are a parameter, which may change with time.  Strict decoding of the
    arguments, encoding of the results and the compiled schemas are parameters
    as well.  The calls of a store are kept with their answers.  [MemoryFacts]
    has the theorem. *)

From Stdlib Require Import SpecFloat.
From stdpp Require Import pretty.
From S2P Require Import Prelude GoStrings AgentTypes ModelContracts ToolDispatcher Slots RuntimeHooks Assembly.

(** ** Contracts

    The string types of the contracts are strings with a set of valid values. *)
Definition one_of (values : list string) (s : string) : bool := existsb (String.eqb s) values.

Definition ScopeUser := "user".
Definition ScopeOrg := "org".
Definition ScopeWorkspace := "workspace".
Definition ScopeSession := "session".
Definition ScopeAgent := "agent".
Definition ScopeKind_Valid : string -> bool := one_of [ScopeUser; ScopeOrg; ScopeWorkspace; ScopeSession; ScopeAgent].

Definition validText (value : string) : bool := nonempty value && String.eqb (TrimSpace value) value.
Definition nonBlankText (value : string) : bool := nonempty (TrimSpace value).
Definition validOptionalText (value : string) : bool := empty value || validText value.
(** [validOptionalRunID] and [validOptionalAgentID] *)
Definition validOptionalID (value : string) : bool := empty value || ID_Valid value.
Definition validTextSlice (values : list string) (required : bool) : bool :=
  if required && bool_decide (values = []) then false else forallb validText values.
Definition nonBlankTextSlice (values : list string) (required : bool) : bool :=
  if required && bool_decide (values = []) then false else forallb nonBlankText values.

Record Scope := MkMemoryScope { ms_Kind : string; ms_ID : string }.
#[export] Instance Scope_eq_dec : EqDecision Scope.
Proof. solve_decision. Defined.
Definition Scope_Valid (s : Scope) : bool := ScopeKind_Valid (ms_Kind s) && validText (ms_ID s).

Record OperationContext := MkOperationContext {
  oc_SessionID : string; oc_RunID : string; oc_StepID : string; oc_AgentID : string; oc_WorkspaceID : string; oc_AgentRole : string;
  oc_ParentRunID : string; oc_RootRunID : string; oc_JobID : string }.
Definition OperationContext_Validate (c : OperationContext) (requireRunStep : bool) : result unit :=
  reject_if (negb (ID_Valid (oc_SessionID c)) || negb (ID_Valid (oc_AgentID c)) || negb (ID_Valid (oc_WorkspaceID c)) ||
             negb (validOptionalText (oc_AgentRole c)) || negb (validOptionalText (oc_JobID c)) ||
             negb (validOptionalID (oc_ParentRunID c)) || negb (validOptionalID (oc_RootRunID c)))
    (ErrNew "memory: invalid operation context") ;;
  if requireRunStep then
    reject_if (negb (ID_Valid (oc_RunID c)) || negb (ID_Valid (oc_StepID c))) (ErrNew "memory: write operation requires RunID and StepID")
  else
    reject_if (negb (Bool.eqb (empty (oc_RunID c)) (empty (oc_StepID c)))) (ErrNew "memory: RunID and StepID must be provided together") ;;
    reject_if (nonempty (oc_RunID c) && (negb (ID_Valid (oc_RunID c)) || negb (ID_Valid (oc_StepID c)))) (ErrNew "memory: invalid RunID or StepID").

Definition VisibilityTask := "task".
Definition VisibilityAgent := "agent".
Definition VisibilityParent := "parent".
Definition VisibilitySession := "session".
Definition VisibilityWorkspace := "workspace".
Definition VisibilityUser := "user".
Definition VisibilityOrg := "org".
Definition Visibility_Valid : string -> bool :=
  one_of [VisibilityTask; VisibilityAgent; VisibilityParent; VisibilitySession; VisibilityWorkspace; VisibilityUser; VisibilityOrg].
Definition WritebackMode_Valid : string -> bool := one_of ["none"; "summary_only"; "artifacts_only"; "full"].
Definition visibilityAllowedForScope (scope visibility : string) : bool :=
  if String.eqb scope ScopeAgent then one_of [VisibilityTask; VisibilityAgent; VisibilityParent] visibility
  else if String.eqb scope ScopeSession then one_of [VisibilityTask; VisibilityParent; VisibilitySession] visibility
  else if String.eqb scope ScopeWorkspace then one_of [VisibilityParent; VisibilitySession; VisibilityWorkspace] visibility
  else if String.eqb scope ScopeUser then one_of [VisibilityUser] visibility
  else if String.eqb scope ScopeOrg then one_of [VisibilityOrg] visibility
  else false.

Record WritePolicy := MkWritePolicy { wp_ScopeKind : string; wp_Visibility : string; wp_WritebackMode : string }.
Definition WritePolicy_Validate (p : WritePolicy) : result unit :=
  reject_if (negb (ScopeKind_Valid (wp_ScopeKind p)) || negb (Visibility_Valid (wp_Visibility p)) || negb (WritebackMode_Valid (wp_WritebackMode p)) ||
             negb (visibilityAllowedForScope (wp_ScopeKind p) (wp_Visibility p))) (ErrNew "memory: invalid write policy").

(** The loops over scopes and visibilities that refuse what was [seen]. *)
Fixpoint scopes_distinct (seen : gset string) (invalid duplicate : string) (scopes : list Scope) : result (gset string) :=
  match scopes with
  | [] => Ok seen
  | s :: scopes =>
    reject_if (negb (Scope_Valid s)) (ErrNew invalid) ;;
    reject_if (bool_decide (ms_Kind s ∈ seen)) (ErrNew duplicate) ;;
    scopes_distinct ({[ ms_Kind s ]} ∪ seen) invalid duplicate scopes
  end.
Fixpoint visibilities_distinct (seen : gset string) (invalid : string) (visibilities : list string) : result unit :=
  match visibilities with
  | [] => Ok tt
  | v :: visibilities =>
    reject_if (negb (Visibility_Valid v) || bool_decide (v ∈ seen)) (ErrNew invalid) ;;
    visibilities_distinct ({[ v ]} ∪ seen) invalid visibilities
  end.

Definition RecallTaskContinuity := "task_continuity".
Definition RecallIntent_Valid : string -> bool :=
  one_of [RecallTaskContinuity; "semantic_lookup"; "evidence_lookup"; "temporal_lookup"; "general"].
Record RecallRequest := MkRecallRequest {
  rr_Operation : OperationContext; rr_Query : string; rr_Intent : string; rr_IncludeEvidence : bool; rr_Scopes : list Scope;
  rr_VisibilityFilter : list string; rr_Limit : Z }.
Definition RecallRequest_Validate (r : RecallRequest) : result unit :=
  OperationContext_Validate (rr_Operation r) false ;;
  reject_if (negb (nonBlankText (rr_Query r)) || negb (RecallIntent_Valid (rr_Intent r)) || Z.leb (rr_Limit r) 0 || Z.ltb 20 (rr_Limit r) ||
             bool_decide (rr_Scopes r = []) || bool_decide (rr_VisibilityFilter r = [])) (ErrNew "memory: invalid recall request") ;;
  scopes_distinct ∅ "memory: invalid or duplicate recall scope" "memory: invalid or duplicate recall scope" (rr_Scopes r) ;;
  visibilities_distinct ∅ "memory: invalid or duplicate recall visibility" (rr_VisibilityFilter r).

Definition KindSessionSummary := "session_summary".
Definition KindSemantic := "semantic".
Definition KindEvidence := "evidence".
Definition KindTemporal := "temporal_fact".
Definition Kind_Valid : string -> bool := one_of [KindSessionSummary; KindSemantic; KindEvidence; KindTemporal].
Definition SourceKind_Valid : string -> bool :=
  one_of ["user_message"; "assistant_message"; "tool_result"; "runlog"; "host_import"; "worker_consolidation"].
Definition EvidenceKind_Valid : string -> bool := one_of ["conversation_chunk"; "tool_output"; "document_chunk"; "log_chunk"].
Definition RedactionState_Valid : string -> bool := one_of ["clean"; "redacted"].

Record SessionSummaryPayload := MkSessionSummary {
  ssp_CurrentState : string; ssp_ValidatedFindings : list string; ssp_NextActions : list string; ssp_Blockers : list string; ssp_KeyRefs : list string }.
Record SemanticPayload := MkSemantic { smp_Title : string; smp_Summary : string; smp_TopicKeys : list string; smp_EvidenceRefs : list string }.
Record EvidencePayload := MkEvidence { evp_EvidenceKind : string; evp_BodyText : string; evp_MIMEType : string; evp_RedactionState : string }.
Record TemporalPayload := MkTemporal {
  tmp_Subject : string; tmp_Predicate : string; tmp_Object : string; tmp_ValidFrom : Time; tmp_ValidTo : option Time; tmp_EvidenceRefs : list string }.
(** The closed union; a pointer in it may be nil. *)
Inductive CandidatePayload :=
  | SummaryCandidate (p : option SessionSummaryPayload)
  | SemanticCandidate (p : option SemanticPayload)
  | EvidenceCandidate (p : option EvidencePayload)
  | TemporalCandidate (p : option TemporalPayload).
Definition payload_rejected (scopeKind : string) (payload : CandidatePayload) : bool :=
  match payload with
  | SummaryCandidate None | SemanticCandidate None | EvidenceCandidate None | TemporalCandidate None => true
  | SummaryCandidate (Some p) =>
    negb (String.eqb scopeKind ScopeSession) || negb (nonBlankText (ssp_CurrentState p)) ||
    negb (nonBlankTextSlice (ssp_ValidatedFindings p) true) || negb (nonBlankTextSlice (ssp_NextActions p) true) ||
    negb (nonBlankTextSlice (ssp_Blockers p) false) || negb (validTextSlice (ssp_KeyRefs p) false)
  | SemanticCandidate (Some p) =>
    negb (nonBlankText (smp_Title p)) || negb (nonBlankText (smp_Summary p)) || negb (validTextSlice (smp_TopicKeys p) true) ||
    negb (validTextSlice (smp_EvidenceRefs p) false)
  | EvidenceCandidate (Some p) =>
    negb (EvidenceKind_Valid (evp_EvidenceKind p)) || negb (nonBlankText (evp_BodyText p)) || negb (validText (evp_MIMEType p)) ||
    negb (RedactionState_Valid (evp_RedactionState p))
  | TemporalCandidate (Some p) =>
    negb (nonBlankText (tmp_Subject p)) || negb (validText (tmp_Predicate p)) || negb (nonBlankText (tmp_Object p)) || IsZero (tmp_ValidFrom p) ||
    match tmp_ValidTo p with Some to => negb (Before (tmp_ValidFrom p) to) | None => false end || negb (validTextSlice (tmp_EvidenceRefs p) false)
  end.
Definition payload_error (payload : CandidatePayload) : string :=
  match payload with
  | SummaryCandidate _ => "memory: invalid session summary payload"
  | SemanticCandidate _ => "memory: invalid semantic payload"
  | EvidenceCandidate _ => "memory: invalid evidence payload"
  | TemporalCandidate _ => "memory: invalid temporal payload"
  end.

(** NaN, infinite, negative or above one. *)
Definition float_one : spec_float := S754_finite false 4503599627370496 (-52).
Definition outside_unit (x : spec_float) : bool :=
  match x with S754_nan | S754_infinity _ => true | _ => SFltb x (S754_zero false) || SFltb float_one x end.

Record RememberRequest := MkRememberRequest {
  rm_Operation : OperationContext; rm_InvocationID : string; rm_Scope : Scope; rm_SourceKind : string; rm_SourceRef : string;
  rm_Confidence : spec_float; rm_Visibility : string; rm_WritebackMode : string; rm_Payload : option CandidatePayload }.
Definition RememberRequest_Validate (r : RememberRequest) : result unit :=
  OperationContext_Validate (rm_Operation r) true ;;
  reject_if (negb (ID_Valid (rm_InvocationID r)) || negb (Scope_Valid (rm_Scope r)) || negb (SourceKind_Valid (rm_SourceKind r)) ||
             negb (validText (rm_SourceRef r)) || outside_unit (rm_Confidence r) || negb (Visibility_Valid (rm_Visibility r)) ||
             negb (WritebackMode_Valid (rm_WritebackMode r)) || negb (visibilityAllowedForScope (ms_Kind (rm_Scope r)) (rm_Visibility r)))
    (ErrNew "memory: invalid remember request") ;;
  match rm_Payload r with
  | Some payload => reject_if (payload_rejected (ms_Kind (rm_Scope r)) payload) (ErrNew (payload_error payload))
  | None => Err (ErrNew "memory: invalid or unsupported candidate payload")
  end.
Record RememberResult := MkRememberResult { rmr_ItemID : string; rmr_DuplicateOf : string }.
Definition RememberResult_Validate (r : RememberResult) : result unit :=
  reject_if (negb (validText (rmr_ItemID r)) || negb (validOptionalText (rmr_DuplicateOf r)) ||
             (nonempty (rmr_DuplicateOf r) && negb (String.eqb (rmr_DuplicateOf r) (rmr_ItemID r)))) (ErrNew "memory: invalid remember result").

Definition ValidityActive := "active".
Definition ValidityState_Valid : string -> bool := one_of [ValidityActive; "invalidated"; "superseded"].
Record Item := MkItem {
  mi_ID : string; mi_Kind : string; mi_Scope : Scope; mi_Summary : string; mi_SourceRef : string; mi_Score : spec_float; mi_ValidityState : string;
  mi_AgentID : string; mi_AgentRole : string; mi_ParentRunID : string; mi_RootRunID : string; mi_JobID : string; mi_Visibility : string }.
Definition Item_Validate (i : Item) : result unit :=
  reject_if (negb (validText (mi_ID i)) || negb (Kind_Valid (mi_Kind i)) || negb (Scope_Valid (mi_Scope i)) || negb (validText (mi_Summary i)) ||
             negb (validText (mi_SourceRef i)) || outside_unit (mi_Score i) || negb (ValidityState_Valid (mi_ValidityState i)) ||
             negb (validOptionalID (mi_AgentID i)) || negb (validOptionalText (mi_AgentRole i)) || negb (validOptionalID (mi_ParentRunID i)) ||
             negb (validOptionalID (mi_RootRunID i)) || negb (validOptionalText (mi_JobID i)) || negb (Visibility_Valid (mi_Visibility i)) ||
             negb (visibilityAllowedForScope (ms_Kind (mi_Scope i)) (mi_Visibility i)) ||
             (String.eqb (mi_Kind i) KindSessionSummary && negb (String.eqb (ms_Kind (mi_Scope i)) ScopeSession))) (ErrNew "memory: invalid item").
Record RecallResult := MkRecallResult { rcr_Items : list Item; rcr_Degraded : bool; rcr_Warnings : list string }.
Definition item_exposed (request : RecallRequest) (i : Item) : result unit :=
  reject_if (negb (is_ok (Item_Validate i)) || negb (String.eqb (mi_ValidityState i) ValidityActive) ||
             negb (bool_decide (mi_Scope i ∈ rr_Scopes request)) || negb (bool_decide (mi_Visibility i ∈ rr_VisibilityFilter request)))
    (ErrNew "memory: invalid recall result item").
Definition RecallResult_Validate (r : RecallResult) (request : RecallRequest) : result unit :=
  RecallRequest_Validate request ;;
  reject_if (Z.ltb (rr_Limit request) (Z.of_nat (length (rcr_Items r)))) (ErrNew "memory: invalid recall result size") ;;
  forM_ (item_exposed request) (rcr_Items r) ;;
  forM_ (fun warning => reject_if (negb (validText warning)) (ErrNew "memory: invalid recall warning")) (rcr_Warnings r).

Definition ForgetMode_Valid : string -> bool := one_of ["invalidate"; "delete_candidate"].
Record ForgetRequest := MkForgetRequest {
  fg_Operation : OperationContext; fg_TargetID : string; fg_Scope : Scope; fg_Mode : string; fg_Reason : string }.
Definition ForgetRequest_Validate (r : ForgetRequest) : result unit :=
  OperationContext_Validate (fg_Operation r) true ;;
  reject_if (negb (validText (fg_TargetID r)) || negb (Scope_Valid (fg_Scope r)) || negb (ForgetMode_Valid (fg_Mode r)) || negb (nonBlankText (fg_Reason r)))
    (ErrNew "memory: invalid forget request").

(** ** The scope of a Session *)
Record RuntimeScope := MkRuntimeScope {
  rs_AgentID : string; rs_WorkspaceID : string; rs_AgentRole : string; rs_ParentRunID : string; rs_RootRunID : string; rs_JobID : string;
  rs_Scopes : list Scope; rs_RecallVisibility : list string; rs_WritePolicies : list WritePolicy }.
Fixpoint policies_distinct (scopes seen : gset string) (policies : list WritePolicy) : result unit :=
  match policies with
  | [] => Ok tt
  | p :: policies =>
    WritePolicy_Validate p ;;
    reject_if (bool_decide (wp_ScopeKind p ∈ seen) || negb (bool_decide (wp_ScopeKind p ∈ scopes)))
      (ErrNew "memory: write scope must name one unique visible scope") ;;
    policies_distinct scopes ({[ wp_ScopeKind p ]} ∪ seen) policies
  end.
Definition RuntimeScope_Validate (s : RuntimeScope) : result unit :=
  reject_if (negb (ID_Valid (rs_AgentID s)) || negb (ID_Valid (rs_WorkspaceID s)) || negb (validOptionalText (rs_AgentRole s)) ||
             negb (validOptionalID (rs_ParentRunID s)) || negb (validOptionalID (rs_RootRunID s)) || negb (validOptionalText (rs_JobID s)) ||
             bool_decide (rs_Scopes s = []) || bool_decide (rs_RecallVisibility s = [])) (ErrNew "memory: invalid runtime scope") ;;
  seenScopes ← scopes_distinct ∅ "memory: invalid runtime scope entry" "memory: duplicate runtime scope kind" (rs_Scopes s);
  visibilities_distinct ∅ "memory: invalid recall visibility" (rs_RecallVisibility s) ;;
  policies_distinct seenScopes ∅ (rs_WritePolicies s).
Definition operation (s : RuntimeScope) (sessionID runID stepID : string) : OperationContext :=
  MkOperationContext sessionID runID stepID (rs_AgentID s) (rs_WorkspaceID s) (rs_AgentRole s) (rs_ParentRunID s) (rs_RootRunID s) (rs_JobID s).

Fixpoint scopeByKind (scopes : list Scope) (kind : string) : Scope * bool :=
  match scopes with
  | [] => (MkMemoryScope "" "", false)
  | s :: scopes => if String.eqb (ms_Kind s) kind then (s, true) else scopeByKind scopes kind
  end.
Fixpoint writePolicyFor (policies : list WritePolicy) (kind : string) : WritePolicy * bool :=
  match policies with
  | [] => (MkWritePolicy "" "" "", false)
  | p :: policies => if String.eqb (wp_ScopeKind p) kind then (p, true) else writePolicyFor policies kind
  end.

(** ** The tools *)
Record recallArguments := MkRecallArguments { ra_Query : string; ra_Intent : string; ra_IncludeEvidence : bool; ra_Limit : Z }.
Record rememberArguments := MkRememberArguments {
  rma_ScopeKind : string; rma_CandidateType : string; rma_SourceKind : string; rma_SourceRef : string; rma_Confidence : spec_float; rma_Payload : string }.
Record forgetArguments := MkForgetArguments { fa_TargetID : string; fa_ScopeKind : string; fa_Mode : string; fa_Reason : string }.

(** What a tool reports: the result of the store, the confirmation of
    [memory.forget], or nil. *)
Inductive report := Recalled (r : RecallResult) | Remembered (r : RememberResult) | Forgotten (targetID : string) | Nothing.

(** [decodeStrict] into the types above, and [json.Marshal], whose output is
    JSON. *)
Class MemoryCodec {J : JsonOps} : Type := {
  decode_recall : string -> recallArguments + error;
  decode_remember : string -> rememberArguments + error;
  decode_forget : string -> forgetArguments + error;
  decode_summary : string -> SessionSummaryPayload + error;
  decode_semantic : string -> SemanticPayload + error;
  decode_evidence : string -> EvidencePayload + error;
  decode_temporal : string -> TemporalPayload + error;
  encode_report : report -> string + error;
  encode_report_valid : forall r s, encode_report r = inl s -> json_Valid s = true;
}.
(** The resolver of scopes and the store, by the number of the call that asks. *)
Class MemoryComponents : Type := {
  ResolveMemoryScope : nat -> string -> RuntimeScope + error;
  Recall : nat -> RecallRequest -> RecallResult + error;
  Remember : nat -> RememberRequest -> RememberResult + error;
  Forget : nat -> ForgetRequest -> option error;
}.

(** A call of the store with its answer. *)
Inductive store_call :=
  | CallRecall (request : RecallRequest) (out : RecallResult + error)
  | CallRemember (request : RememberRequest) (out : RememberResult + error)
  | CallForget (request : ForgetRequest) (out : option error).

(** Computations that call the store and may fail. *)
Definition stored (A : Type) : Type := list store_call * (A + error).
#[export] Instance stored_ret : MRet stored := fun A x => ([], inl x).
#[export] Instance stored_bind : MBind stored := fun A B f m =>
  match m with
  | (calls, inl x) => let '(calls', out) := f x in (calls ++ calls', out)
  | (calls, inr err) => (calls, inr err)
  end.
Definition take {A} (r : A + error) : stored A := ([], r).
Definition check (r : result unit) : stored unit := ([], match r with Ok _ => inl tt | Err err => inr err | Panic m => inr (ErrNew m) end).

Definition ToolRecall := "memory.recall".
Definition ToolRemember := "memory.remember".
Definition ToolForget := "memory.forget".
Definition ToolKeys : list string := [ToolRecall; ToolRemember; ToolForget].

Section MemoryTools.
Context {J : JsonOps} {D : MemoryCodec} {M : MemoryComponents}.
(** A compiled schema as a predicate on the arguments. *)
Context (ValidateArguments : InputSchema -> string -> bool).

Definition recall (n : nat) (request : RecallRequest) : stored RecallResult := ([CallRecall request (Recall n request)], Recall n request).
Definition remember (n : nat) (request : RememberRequest) : stored RememberResult :=
  ([CallRemember request (Remember n request)], Remember n request).
Definition forget (n : nat) (request : ForgetRequest) : stored unit :=
  ([CallForget request (Forget n request)], match Forget n request with Some err => inr err | None => inl tt end).

Definition decodeCandidatePayload (kind raw : string) : CandidatePayload + error :=
  let decoded {A} (wrap : option A -> CandidatePayload) (out : A + error) : CandidatePayload + error :=
    match out with inl p => inl (wrap (Some p)) | inr err => inr err end in
  if String.eqb kind KindSessionSummary then decoded SummaryCandidate (decode_summary raw)
  else if String.eqb kind KindSemantic then decoded SemanticCandidate (decode_semantic raw)
  else if String.eqb kind KindEvidence then decoded EvidenceCandidate (decode_evidence raw)
  else if String.eqb kind KindTemporal then decoded TemporalCandidate (decode_temporal raw)
  else inr (ErrNew "memory: unsupported candidate type").

Definition operation_of (scope : RuntimeScope) (invocation : ToolInvocation) : OperationContext :=
  operation scope (tinv_SessionID invocation) (tinv_RunID invocation) (tinv_StepID invocation).
(** The three cases of [Invoke]. *)
Definition invoke_recall (n : nat) (scope : RuntimeScope) (invocation : ToolInvocation) : stored report :=
  args ← take (decode_recall (tcall_Arguments (tinv_Call invocation)));
  let request := MkRecallRequest (operation_of scope invocation) (ra_Query args) (ra_Intent args) (ra_IncludeEvidence args)
    (rs_Scopes scope) (rs_RecallVisibility scope) (ra_Limit args) in
  check (RecallRequest_Validate request) ;;
  result ← recall n request;
  check (RecallResult_Validate result request) ;;
  mret (Recalled result).
Definition not_allowed : error := ErrNew "memory write scope is not allowed".
(** The scope of a write and the policy that allows it. *)
Definition write_target (scope : RuntimeScope) (kind : string) : (Scope * WritePolicy) + error :=
  let '(target, found) := scopeByKind (rs_Scopes scope) kind in
  let '(policy, allowed) := writePolicyFor (rs_WritePolicies scope) (ms_Kind target) in
  if negb found || negb allowed then inr not_allowed else inl (target, policy).
Definition invoke_remember (n : nat) (scope : RuntimeScope) (invocation : ToolInvocation) : stored report :=
  args ← take (decode_remember (tcall_Arguments (tinv_Call invocation)));
  '(target, policy) ← take (write_target scope (rma_ScopeKind args));
  payload ← take (decodeCandidatePayload (rma_CandidateType args) (rma_Payload args));
  let request := MkRememberRequest (operation_of scope invocation) (tcall_ID (tinv_Call invocation)) target (rma_SourceKind args) (rma_SourceRef args)
    (rma_Confidence args) (wp_Visibility policy) (wp_WritebackMode policy) (Some payload) in
  check (RememberRequest_Validate request) ;;
  result ← remember n request;
  check (RememberResult_Validate result) ;;
  mret (Remembered result).
Definition invoke_forget (n : nat) (scope : RuntimeScope) (invocation : ToolInvocation) : stored report :=
  args ← take (decode_forget (tcall_Arguments (tinv_Call invocation)));
  '(target, _) ← take (write_target scope (fa_ScopeKind args));
  let request := MkForgetRequest (operation_of scope invocation) (fa_TargetID args) target (fa_Mode args) (fa_Reason args) in
  check (ForgetRequest_Validate request) ;;
  forget n request ;;
  mret (Forgotten (fa_TargetID args)).

Definition perform (n : nat) (definition : ToolDefinition) (invocation : ToolInvocation) : stored report :=
  check (reject_if (negb (ValidateArguments (def_InputSchema definition) (tcall_Arguments (tinv_Call invocation)))) (ErrNew "tool: invalid arguments")) ;;
  scope ← take (ResolveMemoryScope n (tinv_SessionID invocation));
  check (RuntimeScope_Validate scope) ;;
  let name := def_Name definition in
  if String.eqb name ToolRecall then invoke_recall n scope invocation
  else if String.eqb name ToolRemember then invoke_remember n scope invocation
  else if String.eqb name ToolForget then invoke_forget n scope invocation
  else mret Nothing.
Definition failed (invocation : ToolInvocation) (code message : string) : ToolResult :=
  MkToolResult (tcall_ID (tinv_Call invocation)) ResultFailed "" (Some (MkStructuredError code message)) [].
Definition report_result (invocation : ToolInvocation) (out : report + error) : ToolResult :=
  match out with
  | inr _ => failed invocation "memory_error" "memory operation failed"
  | inl value =>
    match encode_report value with
    | inr _ => failed invocation "memory_encoding_failed" "memory result could not be encoded"
    | inl encoded => MkToolResult (tcall_ID (tinv_Call invocation)) ResultSucceeded encoded None []
    end
  end.
(** [Invoke]: what it asks of the store, and the result. *)
Definition Invoke (n : nat) (definition : ToolDefinition) (invocation : ToolInvocation) : list store_call * ToolResult :=
  let '(calls, out) := perform n definition invocation in (calls, report_result invocation out).

(** [newMemoryTool]; [ParseInputSchema] compiles the literal schema of a name. *)
Definition memoryToolDescription (name : string) : result string :=
  if String.eqb name ToolRecall then Ok "Recall long-term memory visible to this Session."
  else if String.eqb name ToolRemember then Ok "Write a governed long-term-memory candidate."
  else if String.eqb name ToolForget then Ok "Invalidate formal memory or delete a candidate in an allowed scope."
  else Err (Errorf "memory: unknown tool %q" [AStr name]).
Definition newMemoryTool (ParseInputSchema : string -> result InputSchema) (name : string) : result Tool :=
  description ← memoryToolDescription name;
  schema ← ParseInputSchema name;
  let definition := MkToolDefinition name description schema in
  Ok (MkTool definition Serial (fun n invocation => Ok (Invoke n definition invocation).2)).

(** ** The context source *)
Definition newline : string := bytes [10].
(** [strings.TrimSuffix] *)
Definition TrimSuffix (s suffix : string) : string :=
  let n := (String.length s - String.length suffix)%nat in
  if String.eqb (String.substring n (String.length s) s) suffix then String.substring 0 n s else s.
Definition recall_part (p : MessagePart) : bool := bool_decide (part_Kind p = PartText) && nonempty (TrimSpace (part_Text p)).
Definition message_query (m : Message) : option string :=
  if negb (bool_decide (msg_Role m = RoleUser)) then None
  else
    match List.filter recall_part (msg_Parts m) with
    | [] => None
    | parts => Some (String.concat newline (part_Text <$> parts))
    end.
(** The first of the reversed inputs that has a query. *)
Fixpoint first_query (inputs : list Input) : string :=
  match inputs with
  | [] => ""
  | input :: inputs =>
    match in_Message input with
    | Some m => match message_query m with Some q => q | None => first_query inputs end
    | None => first_query inputs
    end
  end.
Definition latestRecallQuery (inputs : list Input) : string := first_query (rev inputs).

Definition recall_text (items : list Item) : string :=
  TrimSuffix (foldl (fun text i => text +:+ "- " +:+ mi_Summary i +:+ newline) ("MEMORY_CONTEXT" +:+ newline) items) newline.
Definition context_message (key : string) (input : ContextInput) (items : list Item) : Input :=
  MkInput None (Some (MkMessage (key +:+ "-" +:+ pretty (Z.to_N (cin_Revision input))) "" (cin_SessionID input) "" "" RoleUser
    [MkMessagePart PartText (recall_text items) "" "" ""] None 0)) None None.
Definition Contribute (n : nat) (key : string) (input : ContextInput) : stored (list Input) :=
  scope ← take (ResolveMemoryScope n (cin_SessionID input));
  check (RuntimeScope_Validate scope) ;;
  let query := latestRecallQuery (cin_Inputs input) in
  if empty query then mret []
  else
    let request := MkRecallRequest (operation scope (cin_SessionID input) "" "") query RecallTaskContinuity false
      (rs_Scopes scope) (rs_RecallVisibility scope) 5 in
    check (RecallRequest_Validate request) ;;
    result ← recall n request;
    check (RecallResult_Validate result request) ;;
    if bool_decide (rcr_Items result = []) then mret [] else mret [context_message key input (rcr_Items result)].
End MemoryTools.

(** ** The modules

    [NewRuntimeModule] and [NewDefaultRuntimeModule].  The values of the slots
    are parameters: [source] and [tool_value] wrap the store that a constructor
    resolved; [tool_value] fails where [newMemoryTool] does. *)
Section Module.
Context {C : Components} (StoreSlot SourceSlot ToolSlot : slotSpec).
Context (source : option val -> val) (tool_value : string -> option val -> result val).

Definition with_store (storeKey : string) (k : option val -> result val) : ctor :=
  CResolve (QKey StoreSlot storeKey) (fun store =>
    CReturn (match store with Ok store => v ← k store; Ok (Some v) | Err err => Err err | Panic m => Panic m end)).
Definition tool_contribution (conditionalTools : bool) (storeKey key : string) : contributionData :=
  (if conditionalTools then AddDefaultWith else AddWith) ToolSlot key (Some (with_store storeKey (tool_value key))).
Definition Register (conditionalTools : bool) (storeKey : string) : regProg :=
  RegContribute
    (Some (AppendWith SourceSlot (Some (with_store storeKey (fun store => Ok (source store))))) ::
     ((fun key => Some (tool_contribution conditionalTools storeKey key)) <$> ToolKeys)) RegReturn.
Definition newRuntimeModule (id storeKey : string) (scopes conditionalTools : bool) : result Module_ :=
  reject_if (empty id || empty storeKey || negb scopes) (ErrNew "memory: runtime module requires ID, store key, and scope resolver") ;;
  Ok (MkModule id (Register conditionalTools storeKey) (Some [RequireKey StoreSlot storeKey]) false).
Definition NewRuntimeModule (id storeKey : string) (scopes : bool) : result Module_ := newRuntimeModule id storeKey scopes false.
Definition NewDefaultRuntimeModule (id storeKey : string) (scopes : bool) : result Module_ := newRuntimeModule id storeKey scopes true.
End Module.
