(* ===== verification/MemoryFacts.v ===== *)
(** * What reaches a memory store, and what a model sees of it

    For every invocation of a standard memory tool and every contribution of
    the context source, whatever the arguments, the resolver of scopes and the
    store are. *)

From Stdlib Require Import SpecFloat.
From stdpp Require Import pretty.
From S2P Require Import Prelude GoStrings AgentTypes ModelContracts ToolDispatcher Slots RuntimeHooks RuntimeSteps TextFacts Memory Assembly.

(** ** Steps of a computation *)
Lemma check_inl r (x : unit) calls : check r = (calls, inl x) -> calls = [] /\ r = Ok tt.
Proof. unfold check. destruct r as [[]| |]; by intros [= <- <-]. Qed.
Lemma check_bind {B} r (f : unit -> stored B) :
  (r = Ok tt /\ check r ≫= f = f tt) \/ exists err, check r ≫= f = ([], inr err).
Proof. destruct r as [[]|err|m]; [left; split; [done|]|right; by eexists..]. unfold check, mbind, stored_bind. by destruct (f tt). Qed.
Lemma take_bind {A B} (r : A + error) (f : A -> stored B) :
  (exists x, r = inl x /\ take r ≫= f = f x) \/ exists err, take r ≫= f = ([], inr err).
Proof.
  destruct r as [x|err]; [left; exists x; split; [done|]|right; by eexists]. unfold take, mbind, stored_bind. by destruct (f x).
Qed.
Ltac take_step x Hx :=
  match goal with |- context [take ?r ≫= ?f] => destruct (take_bind r f) as [(x&Hx&->)|[? ->]]; [|by left; eexists] end.
Ltac check_step Hx :=
  match goal with |- context [check ?r ≫= ?f] => destruct (check_bind r f) as [[Hx ->]|[? ->]]; [|by left; eexists] end.

Section Facts.
Context {J : JsonOps} {D : MemoryCodec} {M : MemoryComponents} (ValidateArguments : InputSchema -> string -> bool).

(** ** Requests *)

(** The call of the store that an invocation may make: it is valid, is made as
    the invocation, and reads and writes only what the scope of the Session
    allows. *)
Inductive governed (scope : RuntimeScope) (invocation : ToolInvocation) : string -> store_call -> Prop :=
  | governed_recall request out :
      RecallRequest_Validate request = Ok tt -> rr_Operation request = operation_of scope invocation ->
      rr_Scopes request = rs_Scopes scope -> rr_VisibilityFilter request = rs_RecallVisibility scope ->
      governed scope invocation ToolRecall (CallRecall request out)
  | governed_remember request policy out :
      RememberRequest_Validate request = Ok tt -> rm_Operation request = operation_of scope invocation ->
      rm_InvocationID request = tcall_ID (tinv_Call invocation) -> rm_Scope request ∈ rs_Scopes scope ->
      policy ∈ rs_WritePolicies scope -> wp_ScopeKind policy = ms_Kind (rm_Scope request) ->
      rm_Visibility request = wp_Visibility policy -> rm_WritebackMode request = wp_WritebackMode policy ->
      governed scope invocation ToolRemember (CallRemember request out)
  | governed_forget request policy out :
      ForgetRequest_Validate request = Ok tt -> fg_Operation request = operation_of scope invocation ->
      fg_Scope request ∈ rs_Scopes scope -> policy ∈ rs_WritePolicies scope -> wp_ScopeKind policy = ms_Kind (fg_Scope request) ->
      governed scope invocation ToolForget (CallForget request out).

(** What may be reported of an answer of the store. *)
Inductive reported : store_call -> report -> Prop :=
  | reported_recall request r : RecallResult_Validate r request = Ok tt -> reported (CallRecall request (inl r)) (Recalled r)
  | reported_remember request r : RememberResult_Validate r = Ok tt -> reported (CallRemember request (inl r)) (Remembered r)
  | reported_forget request : reported (CallForget request None) (Forgotten (fg_TargetID request)).

(** The items a model sees are active, in the scopes and visibilities of the
    Session, and no more than it asked for. *)
Definition in_scope (scope : RuntimeScope) (limit : Z) (items : list Item) : Prop :=
  (Z.of_nat (length items) <= limit)%Z /\
  forall i, i ∈ items -> Item_Validate i = Ok tt /\ mi_ValidityState i = ValidityActive /\ mi_Scope i ∈ rs_Scopes scope /\ mi_Visibility i ∈ rs_RecallVisibility scope.
Lemma recall_in_scope scope request r :
  rr_Scopes request = rs_Scopes scope -> rr_VisibilityFilter request = rs_RecallVisibility scope ->
  RecallResult_Validate r request = Ok tt -> in_scope scope (rr_Limit request) (rcr_Items r).
Proof.
  intros Hs Hv H. unfold RecallResult_Validate in H. apply bind_Ok in H as ([]&_&H). apply bind_Ok in H as ([]&Hn&H).
  apply bind_Ok in H as ([]&Hi&_). inv_ok. bool_simpl. split; [lia|]. intros i Hin. rewrite forM__Ok in Hi. specialize (Hi i Hin).
  unfold item_exposed in Hi. inv_ok. bool_simpl. rewrite <- Hs, <- Hv. destruct (Item_Validate i) as [[]| |]; try done.
Qed.

Lemma scopeByKind_found scopes kind target : scopeByKind scopes kind = (target, true) -> target ∈ scopes /\ ms_Kind target = kind.
Proof.
  induction scopes as [|s scopes IH]; simpl; [done|]. destruct (String.eqb_spec (ms_Kind s) kind) as [Hk|Hk].
  - intros [= <-]. split; [left|done].
  - intros [? ?]%IH. split; [by right|done].
Qed.
Lemma writePolicyFor_found policies kind policy :
  writePolicyFor policies kind = (policy, true) -> policy ∈ policies /\ wp_ScopeKind policy = kind.
Proof.
  induction policies as [|p policies IH]; simpl; [done|]. destruct (String.eqb_spec (wp_ScopeKind p) kind) as [Hk|Hk].
  - intros [= <-]. split; [left|done].
  - intros [? ?]%IH. split; [by right|done].
Qed.
Lemma write_target_spec scope kind target policy : write_target scope kind = inl (target, policy) ->
  target ∈ rs_Scopes scope /\ ms_Kind target = kind /\ policy ∈ rs_WritePolicies scope /\ wp_ScopeKind policy = ms_Kind target.
Proof.
  unfold write_target. destruct (scopeByKind _ _) as [t found] eqn:Es, (writePolicyFor _ _) as [p allowed] eqn:Ep.
  destruct found; [|done]. destruct allowed; [|done]. intros [= -> ->]. apply scopeByKind_found in Es as []. by apply writePolicyFor_found in Ep as [].
Qed.

(** ** Invocations

    An invocation fails without a call of the store, or makes one. *)
Definition one_call (scope : RuntimeScope) (invocation : ToolInvocation) (name : string) (m : stored report) : Prop :=
  (exists err, m = ([], inr err)) \/
  exists c out, m = ([c], out) /\ governed scope invocation name c /\
    match out with inl value => reported c value | inr _ => forall value, ~ reported c value end.

Lemma invoke_recall_one n scope invocation : one_call scope invocation ToolRecall (invoke_recall n scope invocation).
Proof.
  unfold invoke_recall. take_step args Ha. check_step Hv. right. set (request := MkRecallRequest _ _ _ _ _ _ _) in *.
  unfold recall. destruct (Recall n request) as [r|err] eqn:Er.
  - destruct (RecallResult_Validate r request) as [[]|err|m] eqn:Evr; (eexists _, _; split; [simpl; rewrite Evr; reflexivity|]).
    all: split; [by apply governed_recall|]; try (intros value Hr; inversion Hr; congruence). by apply reported_recall.
  - eexists _, _. split; [reflexivity|]. split; [by apply governed_recall|]. intros value Hr. inversion Hr.
Qed.
Lemma invoke_remember_one n scope invocation : one_call scope invocation ToolRemember (invoke_remember n scope invocation).
Proof.
  unfold invoke_remember. take_step args Ha. take_step target Ht. destruct target as [target policy].
  apply write_target_spec in Ht as (Hin&_&Hp&Hk). take_step payload Hpl. check_step Hv. right. set (request := MkRememberRequest _ _ _ _ _ _ _ _ _) in *.
  unfold remember. destruct (Remember n request) as [r|err] eqn:Er.
  - destruct (RememberResult_Validate r) as [[]|err|m] eqn:Evr; (eexists _, _; split; [simpl; rewrite Evr; reflexivity|]).
    all: split; [by eapply governed_remember|]; try (intros value Hr; inversion Hr; congruence). by apply reported_remember.
  - eexists _, _. split; [reflexivity|]. split; [by eapply governed_remember|]. intros value Hr. inversion Hr.
Qed.
Lemma invoke_forget_one n scope invocation : one_call scope invocation ToolForget (invoke_forget n scope invocation).
Proof.
  unfold invoke_forget. take_step args Ha. take_step target Ht. destruct target as [target policy].
  apply write_target_spec in Ht as (Hin&_&Hp&Hk). check_step Hv. right. set (request := MkForgetRequest _ _ _ _ _) in *.
  unfold forget. destruct (Forget n request) as [err|] eqn:Er; (eexists _, _; split; [simpl; reflexivity|]).
  all: split; [by eapply governed_forget|]; try (intros value Hr; inversion Hr). exact (reported_forget request).
Qed.

(** ** Tool results *)
Lemma failed_valid invocation code message : ID_Valid (tcall_ID (tinv_Call invocation)) = true -> nonempty code = true -> nonempty message = true ->
  ToolResult_Validate (failed invocation code message) = Ok tt.
Proof.
  intros Hid Hc Hm. unfold ToolResult_Validate, failed, empty, nonempty in *. simpl. rewrite Hid. simpl. apply negb_true_iff in Hc, Hm. by rewrite Hc, Hm.
Qed.
Lemma report_result_valid invocation out : ID_Valid (tcall_ID (tinv_Call invocation)) = true -> ToolResult_Validate (report_result invocation out) = Ok tt.
Proof.
  intros Hid. unfold report_result. destruct out as [value|err]; [|by apply failed_valid].
  destruct (encode_report value) as [s|err] eqn:Es; [|by apply failed_valid]. apply encode_report_valid in Es.
  unfold ToolResult_Validate. simpl. by rewrite Hid, Es, andb_false_r.
Qed.
Lemma report_result_CallID invocation out : res_CallID (report_result invocation out) = tcall_ID (tinv_Call invocation).
Proof. unfold report_result. by repeat case_match. Qed.
Lemma report_result_succeeded invocation out :
  res_Status (report_result invocation out) = ResultSucceeded <-> exists value, out = inl value /\ encode_report value = inl (res_Output (report_result invocation out)).
Proof.
  unfold report_result. split.
  - destruct out as [value|err]; [|done]. destruct (encode_report value) eqn:Es; [|done]. intros _. by exists value.
  - intros (value&->&Es). destruct (encode_report value); [done|discriminate Es].
Qed.
Lemma reported_unique c value value' : reported c value -> reported c value' -> value = value'.
Proof. destruct 1; by inversion 1. Qed.

Lemma perform_one n definition invocation : def_Name definition ∈ ToolKeys ->
  (exists err, perform ValidateArguments n definition invocation = ([], inr err)) \/
  exists scope, ResolveMemoryScope n (tinv_SessionID invocation) = inl scope /\ RuntimeScope_Validate scope = Ok tt /\
    ValidateArguments (def_InputSchema definition) (tcall_Arguments (tinv_Call invocation)) = true /\
    one_call scope invocation (def_Name definition) (perform ValidateArguments n definition invocation).
Proof.
  intros Hname. unfold perform. check_step Ha. take_step scope Hs. check_step Hv. right. exists scope. split_and!; [done|done|by apply reject_if_Ok, negb_false_iff in Ha|].
  repeat (apply elem_of_cons in Hname as [->|Hname]; [simpl; auto using invoke_recall_one, invoke_remember_one, invoke_forget_one|]).
  by apply not_elem_of_nil in Hname.
Qed.

Lemma Invoke_governed n definition invocation : def_Name definition ∈ ToolKeys -> ID_Valid (tcall_ID (tinv_Call invocation)) = true ->
  forall calls res, Invoke ValidateArguments n definition invocation = (calls, res) ->
  ToolResult_Validate res = Ok tt /\ res_CallID res = tcall_ID (tinv_Call invocation) /\
  ((calls = [] /\ res_Status res = ResultFailed) \/
   exists scope c, calls = [c] /\ ResolveMemoryScope n (tinv_SessionID invocation) = inl scope /\ RuntimeScope_Validate scope = Ok tt /\
     ValidateArguments (def_InputSchema definition) (tcall_Arguments (tinv_Call invocation)) = true /\
     governed scope invocation (def_Name definition) c /\
     (res_Status res = ResultSucceeded <-> exists value, reported c value /\ encode_report value = inl (res_Output res)) /\
     (forall request r, c = CallRecall request (inl r) -> res_Status res = ResultSucceeded -> in_scope scope (rr_Limit request) (rcr_Items r))).
Proof.
  intros Hname Hid calls res. unfold Invoke. destruct (perform _ _ _ _) as [calls' out] eqn:Ep. intros [= <- <-].
  split; [by apply report_result_valid|]. split; [apply report_result_CallID|].
  destruct (perform_one n definition invocation Hname) as [[err He]|(scope&Hs&Hv&Ha&[[err He]|(c&out'&He&Hg&Ho)])]; rewrite Ep in He; injection He as -> ->; [by left..|].
  right. exists scope, c. split_and!; [done..| |].
  - rewrite report_result_succeeded. split; intros (value&Hval&Henc); exists value; split; try done; [by rewrite Hval in Ho|].
    destruct out' as [value'|err]; [by rewrite (reported_unique c value value')|by destruct (Ho value)].
  - intros request r -> Hsucc. apply report_result_succeeded in Hsucc as (value&->&_). inversion Ho as [? ? Hvr| |]; subst.
    inversion Hg; subst. by eapply recall_in_scope.
Qed.

(** ** The context source *)
Lemma context_id_valid storeKey (k : N) : ID_Valid (("memory." +:+ storeKey) +:+ "-" +:+ pretty k) = true.
Proof.
  apply ID_Valid_spec. split; [done|]. destruct (pretty_N_last k) as (pre&d&->&Hd).
  assert (He : ("memory." +:+ storeKey) +:+ "-" +:+ pre +:+ String d "" =
    "" +:+ String (Ascii.ascii_of_nat 109) (("emory." +:+ storeKey +:+ "-" +:+ pre) +:+ String d "")).
  { rewrite !string_app_assoc. reflexivity. }
  rewrite He. apply TrimSpace_app; [done|vm_compute; reflexivity|done].
Qed.
Lemma recall_text_nonempty items : nonempty (recall_text items) = true.
Proof.
  unfold recall_text. assert (Hp : forall text, (exists rest, text = "MEMORY" +:+ rest) -> exists rest,
    foldl (fun text i => text +:+ "- " +:+ mi_Summary i +:+ newline) text items = "MEMORY" +:+ rest).
  { induction items as [|i items IH]; intros text [rest ->]; [by exists rest|]. simpl. apply IH. eexists. by rewrite string_app_assoc. }
  destruct (Hp ("MEMORY_CONTEXT" +:+ newline)) as [rest ->]; [by exists ("_CONTEXT" +:+ newline)|].
  unfold TrimSuffix. case_match; [|done]. rewrite string_app_length. simpl. done.
Qed.
Lemma context_message_valid storeKey input items : ID_Valid (cin_SessionID input) = true ->
  validateDynamicInputs (cin_SessionID input) [context_message ("memory." +:+ storeKey) input items] = Ok tt.
Proof.
  intros Hs. set (m := MkMessage (("memory." +:+ storeKey) +:+ "-" +:+ pretty (Z.to_N (cin_Revision input))) "" (cin_SessionID input) "" "" RoleUser
    [MkMessagePart PartText (recall_text items) "" "" ""] None 0).
  assert (Hp : MessagePart_Valid (MkMessagePart PartText (recall_text items) "" "" "") = true).
  { unfold MessagePart_Valid. cbn [part_Kind part_Text part_AttachmentID part_MediaType part_Name]. by rewrite recall_text_nonempty. }
  assert (Hm : Input_Valid (MkInput None (Some m) None None) = true).
  { change (Message_Valid m = true). unfold Message_Valid, m. cbn [msg_ID msg_SessionID msg_Role msg_ClientMessageID msg_ModelContinuation msg_Parts forallb].
    rewrite context_id_valid, Hs, Hp. reflexivity. }
  unfold validateDynamicInputs, context_message. fold m. simpl. rewrite String.eqb_refl. simpl. rewrite Hm. simpl.
  done.
Qed.

Lemma Contribute_governed n storeKey input :
  forall calls out, Contribute n ("memory." +:+ storeKey) input = (calls, out) ->
  (calls = [] /\ forall inputs, out = inl inputs -> inputs = []) \/
  exists scope request answer, calls = [CallRecall request answer] /\
    ResolveMemoryScope n (cin_SessionID input) = inl scope /\ RuntimeScope_Validate scope = Ok tt /\ RecallRequest_Validate request = Ok tt /\
    rr_Operation request = operation scope (cin_SessionID input) "" "" /\ rr_Scopes request = rs_Scopes scope /\
    rr_VisibilityFilter request = rs_RecallVisibility scope /\ rr_Limit request = 5%Z /\
    forall inputs, out = inl inputs -> exists r, answer = inl r /\ in_scope scope 5 (rcr_Items r) /\
      inputs = (if bool_decide (rcr_Items r = []) then [] else [context_message ("memory." +:+ storeKey) input (rcr_Items r)]) /\
      validateDynamicInputs (cin_SessionID input) inputs = Ok tt.
Proof.
  unfold Contribute. intros calls out.
  assert (Hno : forall err, ([], inr err) = (calls, out) -> calls = [] /\ forall inputs : list Input, out = inl inputs -> inputs = []) by (by intros err [= <- <-]).
  match goal with |- take ?r ≫= ?f = _ -> _ => destruct (take_bind r f) as [(scope&Hs&->)|[err ->]]; [|by intros H; left; eapply Hno] end.
  match goal with |- check ?r ≫= ?f = _ -> _ => destruct (check_bind r f) as [[Hv ->]|[err ->]]; [|by intros H; left; eapply Hno] end.
  cbv zeta. destruct (empty _); [intros [= <- <-]; left; split; [done|]; by intros inputs [= <-]|].
  set (request := MkRecallRequest _ _ _ _ _ _ _).
  match goal with |- check ?r ≫= ?f = _ -> _ => destruct (check_bind r f) as [[Hr ->]|[err ->]]; [|by intros H; left; eapply Hno] end.
  unfold recall. intros H. right. exists scope, request, (Recall n request).
  assert (Hid : ID_Valid (cin_SessionID input) = true).
  { pose proof Hr as Hop. unfold RecallRequest_Validate, OperationContext_Validate in Hop. inv_ok. bool_simpl. done. }
  destruct (Recall n request) as [r|err]; [|injection H as <- <-; by split_and!].
  destruct (RecallResult_Validate r request) as [[]|err|m] eqn:Evr; simpl in H; rewrite Evr in H; simpl in H;
    [|injection H as <- <-; by split_and!..].
  assert (Hc : calls = [CallRecall request (inl r)] /\ out =
    inl (if bool_decide (rcr_Items r = []) then [] else [context_message ("memory." +:+ storeKey) input (rcr_Items r)])).
  { by case_bool_decide; injection H as <- <-. }
  destruct Hc as [-> ->]. split_and!; [done..|]. intros inputs [= <-]. exists r. split_and!; [done|by eapply (recall_in_scope scope request)|done|].
  case_bool_decide; [done|by apply context_message_valid].
Qed.
End Facts.

(** C29 (safety): whatever arguments a model writes, whatever the scope resolver
    and the store answer, an invocation of a standard memory tool makes at most
    one call of the store, after its arguments fit the schema and the scope of
    the Session is valid; the call is valid, carries the identity of the
    invocation and only scopes, visibilities and write policies of that scope
    (the model chooses at most the kind of the scope).  The result is a valid
    tool result; it succeeds exactly with the validated answer of the store, and
    every item in it is active, visible and in scope, and no more than asked
    for.  The context source makes at most one such recall, without run and
    step, and contributes nothing or one message that the runtime accepts. *)
Theorem memory_governed (J : JsonOps) (D : MemoryCodec) (M : MemoryComponents) (ValidateArguments : InputSchema -> string -> bool) n :
  (forall definition invocation, def_Name definition ∈ ToolKeys -> ID_Valid (tcall_ID (tinv_Call invocation)) = true ->
   forall calls res, Invoke ValidateArguments n definition invocation = (calls, res) ->
   ToolResult_Validate res = Ok tt /\ res_CallID res = tcall_ID (tinv_Call invocation) /\
   ((calls = [] /\ res_Status res = ResultFailed) \/
    exists scope c, calls = [c] /\ ResolveMemoryScope n (tinv_SessionID invocation) = inl scope /\ RuntimeScope_Validate scope = Ok tt /\
      ValidateArguments (def_InputSchema definition) (tcall_Arguments (tinv_Call invocation)) = true /\
      governed scope invocation (def_Name definition) c /\
      (res_Status res = ResultSucceeded <-> exists value, reported c value /\ encode_report value = inl (res_Output res)) /\
      (forall request r, c = CallRecall request (inl r) -> res_Status res = ResultSucceeded -> in_scope scope (rr_Limit request) (rcr_Items r)))) /\
  (forall storeKey input calls out, Contribute n ("memory." +:+ storeKey) input = (calls, out) ->
   (calls = [] /\ forall inputs, out = inl inputs -> inputs = []) \/
   exists scope request answer, calls = [CallRecall request answer] /\
     ResolveMemoryScope n (cin_SessionID input) = inl scope /\ RuntimeScope_Validate scope = Ok tt /\ RecallRequest_Validate request = Ok tt /\
     rr_Operation request = operation scope (cin_SessionID input) "" "" /\ rr_Scopes request = rs_Scopes scope /\
     rr_VisibilityFilter request = rs_RecallVisibility scope /\ rr_Limit request = 5%Z /\
     forall inputs, out = inl inputs -> exists r, answer = inl r /\ in_scope scope 5 (rcr_Items r) /\
       inputs = (if bool_decide (rcr_Items r = []) then [] else [context_message ("memory." +:+ storeKey) input (rcr_Items r)]) /\
       validateDynamicInputs (cin_SessionID input) inputs = Ok tt).
Proof. split; [intros; by eapply Invoke_governed|intros; by apply Contribute_governed]. Qed.

(** ** A run

    A store with one item; the scope of the Session lets the model read its
    user's memory and write it. *)
Program Definition example_json : JsonOps :=
  {| json_Valid := nonempty; jsonvalue_Valid := nonempty; jsonvalue_Equal := String.eqb |}.
Next Obligation. intros. apply String.eqb_refl. Qed.
Next Obligation. intros a b H. by rewrite String.eqb_sym. Qed.
Next Obligation. intros a b c H1%String.eqb_eq H2%String.eqb_eq. subst. apply String.eqb_refl. Qed.
Program Definition example_codec : MemoryCodec (J := example_json) :=
  {| decode_recall := fun _ => inl (MkRecallArguments "where do I live" "general" false 3);
     decode_remember := fun _ => inl (MkRememberArguments "user" "semantic" "user_message" "m1" (S754_zero false) "{}");
     decode_forget := fun _ => inl (MkForgetArguments "i1" "org" "invalidate" "moved");
     decode_summary := fun _ => inr (ErrNew "unused"); decode_evidence := fun _ => inr (ErrNew "unused"); decode_temporal := fun _ => inr (ErrNew "unused");
     decode_semantic := fun _ => inl (MkSemantic "home" "lives in Riga" ["home"] []);
     encode_report := fun _ => inl "{}" |}.
Next Obligation. intros _ s [= <-]. reflexivity. Qed.
Definition home : Item := MkItem "i1" "semantic" (MkMemoryScope "user" "u1") "lives in Riga" "m1" (S754_zero false) "active" "" "" "" "" "" "user".
Definition example_memory : MemoryComponents :=
  {| ResolveMemoryScope := fun _ _ => inl (MkRuntimeScope "agent" "workspace" "" "" "" "" [MkMemoryScope "user" "u1"; MkMemoryScope "org" "o1"] ["user"; "org"]
                                             [MkWritePolicy "user" "user" "full"]);
     Recall := fun _ _ => inl (MkRecallResult [home] false []);
     Remember := fun _ _ => inl (MkRememberResult "i2" "");
     Forget := fun _ _ => None |}.
Definition invocation1 : ToolInvocation :=
  MkToolInvocation (MkToolProposal "call" "memory" "{}") "session" "agent" "workspace" no_actor None 1000 "run" "step".
Definition memory_tool (name : string) : ToolDefinition := MkToolDefinition name "" (MkInputSchema "{}" true).
Definition invoked (name : string) : list store_call * ToolResult :=
  Invoke (J := example_json) (D := example_codec) (M := example_memory) (fun _ _ => true) 0 (memory_tool name) invocation1.

(** The model may not forget what is in the memory of the organization. *)
Example forget_refused : (invoked ToolForget).1 = [] /\ res_Status (invoked ToolForget).2 = ResultFailed.
Proof. vm_compute. by split. Qed.
Lemma memory_governed_witness :
  length (invoked ToolRemember).1 = 1%nat /\ res_Status (invoked ToolRecall).2 = ResultSucceeded /\
  exists scope c, (invoked ToolRecall).1 = [c] /\ governed scope invocation1 ToolRecall c.
Proof.
  split; [vm_compute; reflexivity|]. split; [vm_compute; reflexivity|].
  destruct (memory_governed example_json example_codec example_memory (fun _ _ => true) 0) as [H _].
  destruct (H (memory_tool ToolRecall) invocation1 ltac:(left) ltac:(vm_compute; reflexivity) (invoked ToolRecall).1 (invoked ToolRecall).2
    ltac:(symmetry; apply surjective_pairing)) as (_&_&[[Hf _]|(scope&c&Hc&_&_&_&Hg&_)]).
  - vm_compute in Hf. discriminate Hf.
  - exists scope, c. split; [exact Hc|exact Hg].
Defined.
