(* ===== verification/WorkflowStore.v ===== *)
(** * Workflow contracts and stores

    The data of [workflow/contracts.go] with its validation methods. *)

From S2P Require Import Prelude GoStrings AgentTypes.

Inductive JobStatus := JobQueued | JobRunning | JobCompleted | JobFailed | JobCanceled | JobStatusOther (s : string).
#[export] Instance JobStatus_eq_dec : EqDecision JobStatus.
Proof. solve_decision. Defined.

Definition JobStatus_Valid (s : JobStatus) : bool := match s with JobStatusOther _ => false | _ => true end.
Definition JobStatus_Terminal (s : JobStatus) : bool :=
  match s with JobCompleted | JobFailed | JobCanceled => true | _ => false end.
(** [string(status)] *)
Definition JobStatus_string (s : JobStatus) : string :=
  match s with
  | JobQueued => "queued" | JobRunning => "running" | JobCompleted => "completed"
  | JobFailed => "failed" | JobCanceled => "canceled" | JobStatusOther s => s
  end.

Record Parent := MkParent { par_SessionID : string; par_RunID : string; par_StepID : string }.
#[export] Instance Parent_eq_dec : EqDecision Parent.
Proof. solve_decision. Defined.
Definition Parent_Valid (p : Parent) : bool := ID_Valid (par_SessionID p) && ID_Valid (par_RunID p) && ID_Valid (par_StepID p).

Record Task := MkTask {
  task_JobID : string; task_ProviderKey : string; task_Parent : Parent; task_Instruction : string; task_Metadata : gmap string string }.
Definition Task_Validate (t : Task) : result unit :=
  reject_if (empty (task_JobID t) || empty (task_ProviderKey t) || negb (Parent_Valid (task_Parent t)) || empty (task_Instruction t))
    (ErrNew "workflow: invalid task").

Record Result := MkResult { res_Summary : string; res_Artifacts : list string }.
#[export] Instance Result_eq_dec : EqDecision Result.
Proof. solve_decision. Defined.
Definition no_result : Result := MkResult "" [].

Record Job := MkJob {
  job_ID : string;
  job_ProviderKey : string;
  job_Parent : Parent;
  job_Instruction : string;
  job_Status : JobStatus;
  job_Version : Z;
  job_Result : Result;
  job_ErrorCode : string;
  job_TerminalReason : string;
  job_CreatedAt : Time;
  job_UpdatedAt : Time;
}.
#[export] Instance Job_eq_dec : EqDecision Job.
Proof. solve_decision. Defined.

Definition Job_Validate (j : Job) : result unit :=
  reject_if (empty (job_ID j) || empty (job_ProviderKey j) || negb (Parent_Valid (job_Parent j)) || empty (job_Instruction j) ||
             negb (JobStatus_Valid (job_Status j)) || Z.eqb (job_Version j) 0 || IsZero (job_CreatedAt j) || IsZero (job_UpdatedAt j))
    (ErrNew "workflow: invalid job") ;;
  reject_if (bool_decide (job_Status j = JobFailed) && empty (job_ErrorCode j)) (ErrNew "workflow: failed job requires an error code") ;;
  reject_if (negb (bool_decide (job_Status j = JobFailed)) && nonempty (job_ErrorCode j))
    (ErrNew "workflow: only failed jobs may contain an error code") ;;
  reject_if (bool_decide (job_Status j = JobCanceled) && empty (job_TerminalReason j))
    (ErrNew "workflow: canceled job requires a terminal reason") ;;
  reject_if (negb (bool_decide (job_Status j = JobCanceled)) && nonempty (job_TerminalReason j))
    (ErrNew "workflow: only canceled jobs may contain a terminal reason").

Record JobQuery := MkJobQuery { jq_ParentSessionID : string; jq_Status : JobStatus }.

Record JobUpdate := MkJobUpdate {
  ju_JobID : string; ju_ExpectedVersion : Z; ju_Status : JobStatus; ju_Result : Result; ju_ErrorCode : string; ju_TerminalReason : string }.

Inductive AddressKind := AddressSession | AddressJob | AddressOther (s : string).
#[export] Instance AddressKind_eq_dec : EqDecision AddressKind.
Proof. solve_decision. Defined.
#[export] Program Instance AddressKind_countable : Countable AddressKind := inj_countable'
  (fun k => match k with AddressSession => inl (inl tt) | AddressJob => inl (inr tt) | AddressOther s => inr s end)
  (fun c => match c with inl (inl _) => AddressSession | inl (inr _) => AddressJob | inr s => AddressOther s end) _.
Next Obligation. by intros []. Qed.
Definition AddressKind_Valid (k : AddressKind) : bool := match k with AddressOther _ => false | _ => true end.

Record Address := MkAddress { addr_Kind : AddressKind; addr_ID : string }.
#[export] Instance Address_eq_dec : EqDecision Address.
Proof. solve_decision. Defined.
#[export] Program Instance Address_countable : Countable Address :=
  inj_countable' (fun a => (addr_Kind a, addr_ID a)) (fun p => MkAddress p.1 p.2) _.
Next Obligation. by intros []. Qed.
Definition Address_Valid (a : Address) : bool := AddressKind_Valid (addr_Kind a) && nonempty (addr_ID a).

(** [workflow.Message] *)
Record MailMessage := MkMailMessage {
  mm_ID : string; mm_Sequence : Z; mm_From : Address; mm_To : Address; mm_Body : string; mm_CreatedAt : Time }.
#[export] Instance MailMessage_eq_dec : EqDecision MailMessage.
Proof. solve_decision. Defined.
Definition MailMessage_Validate (m : MailMessage) : result unit :=
  reject_if (empty (mm_ID m) || Z.eqb (mm_Sequence m) 0 || negb (Address_Valid (mm_From m)) || negb (Address_Valid (mm_To m)) ||
             empty (mm_Body m) || IsZero (mm_CreatedAt m)) (ErrNew "workflow: invalid mailbox message").

Record SpawnRequest := MkSpawnRequest {
  sp_ProviderKey : string; sp_Parent : Parent; sp_Instruction : string; sp_Metadata : gmap string string }.
Record SendRequest := MkSendRequest { sr_JobID : string; sr_Body : string }.
Record CloseRequest := MkCloseRequest { clr_JobID : string; clr_Reason : string }.

(** * Jobs and mailboxes in memory

    Models [MemoryJobStore] and [MemoryMailbox] of [workflow/memory.go].  Every
    method holds one mutex, so it is one step; a [Wait] is a sequence of polls
    with the lock, between which the caller blocks on a channel that is closed
    to announce a change. *)

(** ** Channels

    A [chan struct{}] is a number; only its being closed is observable. *)
Record channels := MkChannels { ch_next : nat; ch_closed : gset nat }.
Definition no_channels : channels := MkChannels 0 ∅.
Definition make_chan (c : channels) : channels * nat := (MkChannels (S (ch_next c)) (ch_closed c), ch_next c).
Definition close_chan (c : channels) (n : nat) : result channels :=
  if bool_decide (n ∈ ch_closed c) then Panic "close of closed channel" else Ok (MkChannels (ch_next c) ({[n]} ∪ ch_closed c)).

(** A poll of [Wait]: it returns, or blocks until a channel is closed. *)
Inductive poll (A : Type) := Ready (a : A) | Blocked (c : nat).
Arguments Ready {A} a.
Arguments Blocked {A} c.

(** The announcement under a key: close the current channel, make a new one. *)
Definition signal {K} `{Countable K} (key : K) (changed : gmap K nat) (c : channels) : result (gmap K nat * channels) :=
  c ← match changed !! key with Some current => close_chan c current | None => Ok c end;
  let '(c, fresh) := make_chan c in
  Ok (<[key := fresh]> changed, c).

(** The channel a waiter blocks on. *)
Definition subscribe {K} `{Countable K} (key : K) (changed : gmap K nat) (c : channels) : gmap K nat * channels * nat :=
  match changed !! key with
  | Some current => (changed, c, current)
  | None => let '(c, fresh) := make_chan c in (<[key := fresh]> changed, c, fresh)
  end.

(** ** The job store *)
Record MemoryJobStore := MkMemoryJobStore { js_jobs : gmap string Job; js_changed : gmap string nat; js_channels : channels }.
Definition NewMemoryJobStore : MemoryJobStore := MkMemoryJobStore ∅ ∅ no_channels.

Definition ErrJobVersionConflict : error := ErrNew "workflow: job version conflict".

(** [s.jobs[job.ID] = job; s.signalLocked(job.ID)] *)
Definition store_job (s : MemoryJobStore) (job : Job) : result MemoryJobStore :=
  p ← signal (job_ID job) (js_changed s) (js_channels s);
  Ok (MkMemoryJobStore (<[job_ID job := job]> (js_jobs s)) p.1 p.2).

Definition JobStore_Create (s : MemoryJobStore) (job : Job) : MemoryJobStore * result unit :=
  match
    (Job_Validate job ;;
     reject_if (present (js_jobs s !! job_ID job)) (ErrNew "workflow: duplicate job") ;;
     store_job s job)
  with
  | Ok s' => (s', Ok tt)
  | Err e => (s, Err e)
  | Panic msg => (s, Panic msg)
  end.

(** A missing job is the zero job with false. *)
Definition JobStore_Get (s : MemoryJobStore) (id : string) : result (option Job) :=
  reject_if (empty id) (ErrNew "workflow: JobID is required") ;;
  Ok (js_jobs s !! id).

Definition no_status : JobStatus := JobStatusOther "".

Definition JobQuery_Validate (q : JobQuery) : result unit :=
  reject_if (nonempty (jq_ParentSessionID q) && negb (ID_Valid (jq_ParentSessionID q))) (ErrNew "workflow: invalid parent SessionID") ;;
  reject_if (negb (bool_decide (jq_Status q = no_status)) && negb (JobStatus_Valid (jq_Status q))) (ErrNew "workflow: invalid JobStatus").

Definition excluded (q : JobQuery) (j : Job) : bool :=
  nonempty (jq_ParentSessionID q) && negb (String.eqb (par_SessionID (job_Parent j)) (jq_ParentSessionID q)) ||
  negb (bool_decide (jq_Status q = no_status)) && negb (bool_decide (job_Status j = jq_Status q)).

Definition created_le (a b : Job) : Prop := (job_CreatedAt a <= job_CreatedAt b)%Z.
#[export] Instance created_le_dec a b : Decision (created_le a b).
Proof. unfold created_le; apply _. Defined.

(** [order] is the order in which Go walks the map. *)
Definition JobStore_List (order : gmap string Job -> list (string * Job)) (s : MemoryJobStore) (q : JobQuery) : result (list Job) :=
  JobQuery_Validate q ;;
  Ok (merge_sort created_le (List.filter (fun j => negb (excluded q j)) (snd <$> order (js_jobs s)))).

Definition validJobTransition (from to : JobStatus) : bool :=
  match from, to with
  | JobQueued, (JobRunning | JobCanceled) => true
  | JobRunning, (JobCompleted | JobFailed | JobCanceled) => true
  | _, _ => false
  end.

(** The job after the update, or [None] when the update repeats its terminal
    status. *)
Definition updated_job (now : Time) (job : Job) (u : JobUpdate) : result (option Job) :=
  reject_if (negb (Z.eqb (job_Version job) (ju_ExpectedVersion u))) ErrJobVersionConflict ;;
  if JobStatus_Terminal (job_Status job) then
    if bool_decide (job_Status job = ju_Status u) then Ok None
    else Err (ErrNew "workflow: terminal job cannot transition")
  else
    reject_if (negb (validJobTransition (job_Status job) (ju_Status u))) (ErrNew "workflow: invalid job transition") ;;
    let job := MkJob (job_ID job) (job_ProviderKey job) (job_Parent job) (job_Instruction job) (ju_Status u) (u64 (job_Version job + 1))
      (ju_Result u) (ju_ErrorCode u) (ju_TerminalReason u) (job_CreatedAt job) now in
    Job_Validate job ;;
    Ok (Some job).

Definition JobStore_Update (now : Time) (s : MemoryJobStore) (u : JobUpdate) : MemoryJobStore * result Job :=
  match
    (reject_if (empty (ju_JobID u) || Z.eqb (ju_ExpectedVersion u) 0 || negb (JobStatus_Valid (ju_Status u)))
       (ErrNew "workflow: invalid job update") ;;
     job ← match js_jobs s !! ju_JobID u with Some job => Ok job | None => Err (ErrNew "workflow: job not found") end;
     next ← updated_job now job u;
     match next with
     | Some next => s' ← store_job s next; Ok (s', next)
     | None => Ok (s, job)
     end)
  with
  | Ok (s', job) => (s', Ok job)
  | Err e => (s, Err e)
  | Panic msg => (s, Panic msg)
  end.

(** One turn of the loop of [Wait]. *)
Definition JobStore_poll (s : MemoryJobStore) (id : string) (after : Z) : MemoryJobStore * poll (result Job) :=
  match js_jobs s !! id with
  | None => (s, Ready (Err (ErrNew "workflow: job not found")))
  | Some job =>
    if Z.ltb after (job_Version job) || JobStatus_Terminal (job_Status job) then (s, Ready (Ok job))
    else
      let '(changed, c, current) := subscribe id (js_changed s) (js_channels s) in
      (MkMemoryJobStore (js_jobs s) changed c, Blocked current)
  end.

(** ** The mailbox *)
Record MemoryMailbox := MkMemoryMailbox {
  mb_sequence : Z; mb_messages : gmap Address (list MailMessage); mb_changed : gmap Address nat; mb_channels : channels }.
Definition NewMemoryMailbox : MemoryMailbox := MkMemoryMailbox 0 ∅ ∅ no_channels.

Definition messages_at (m : gmap Address (list MailMessage)) (a : Address) : list MailMessage := default [] (m !! a).

Definition same_publication (a b : MailMessage) : bool :=
  bool_decide (mm_From a = mm_From b) && bool_decide (mm_To a = mm_To b) && String.eqb (mm_Body a) (mm_Body b).

(** [None]: nothing has been published under this ID. *)
Definition published (existing : list MailMessage) (m : MailMessage) : option MailMessage :=
  find (fun e => String.eqb (mm_ID e) (mm_ID m)) existing.

Definition Mailbox_Publish (now : Time) (s : MemoryMailbox) (m : MailMessage) : MemoryMailbox * result MailMessage :=
  if empty (mm_ID m) || negb (Address_Valid (mm_From m)) || negb (Address_Valid (mm_To m)) || empty (mm_Body m) then
    (s, Err (ErrNew "workflow: invalid mailbox publish"))
  else
    match published (messages_at (mb_messages s) (mm_To m)) m with
    | Some existing =>
      if same_publication existing m then (s, Ok existing) else (s, Err (ErrNew "workflow: mailbox idempotency conflict"))
    | None =>
      let sequence := u64 (mb_sequence s + 1) in
      let m := MkMailMessage (mm_ID m) sequence (mm_From m) (mm_To m) (mm_Body m) now in
      match signal (mm_To m) (mb_changed s) (mb_channels s) with
      | Ok (changed, c) =>
        (MkMemoryMailbox sequence (<[mm_To m := messages_at (mb_messages s) (mm_To m) ++ [m]]> (mb_messages s)) changed c, Ok m)
      | Err e => (s, Err e)
      | Panic msg => (s, Panic msg)
      end
    end.

Definition messagesAfter (source : list MailMessage) (after : Z) : list MailMessage :=
  List.filter (fun m => Z.ltb after (mm_Sequence m)) source.

Definition Mailbox_List (s : MemoryMailbox) (a : Address) (after : Z) : result (list MailMessage) :=
  reject_if (negb (Address_Valid a)) (ErrNew "workflow: invalid mailbox address") ;;
  Ok (messagesAfter (messages_at (mb_messages s) a) after).

Definition Mailbox_poll (s : MemoryMailbox) (a : Address) (after : Z) : MemoryMailbox * poll (result (list MailMessage)) :=
  if negb (Address_Valid a) then (s, Ready (Err (ErrNew "workflow: invalid mailbox address")))
  else
    match messagesAfter (messages_at (mb_messages s) a) after with
    | [] =>
      let '(changed, c, current) := subscribe a (mb_changed s) (mb_channels s) in
      (MkMemoryMailbox (mb_sequence s) (mb_messages s) changed c, Blocked current)
    | messages => (s, Ready (Ok messages))
    end.

(** * What the scheduler relies on

    The interfaces [JobStore] and [Mailbox] of [workflow/contracts.go] as
    operations, and as laws: an implementation behaves like a table of jobs,
    and like lists of messages under one sequence. *)

(** ** Job stores *)
Class JobStore (S : Type) := {
  store_Create : S -> Job -> S * result unit;
  store_Get : S -> string -> result (option Job);
  store_Update : Time -> S -> JobUpdate -> S * result Job;
  store_poll : S -> string -> Z -> S * poll (result Job);
}.

(** The specification: a table from IDs to jobs. *)
Notation JobTable := (gmap string Job).

Definition table_Create (t : JobTable) (job : Job) : JobTable * result unit :=
  match Job_Validate job ;; reject_if (present (t !! job_ID job)) (ErrNew "workflow: duplicate job") with
  | Ok _ => (<[job_ID job := job]> t, Ok tt)
  | Err e => (t, Err e)
  | Panic msg => (t, Panic msg)
  end.

Definition table_Get (t : JobTable) (id : string) : result (option Job) :=
  if empty id then Err (ErrNew "workflow: JobID is required") else Ok (t !! id).

Definition table_Update (now : Time) (t : JobTable) (u : JobUpdate) : JobTable * result Job :=
  if empty (ju_JobID u) || Z.eqb (ju_ExpectedVersion u) 0 || negb (JobStatus_Valid (ju_Status u)) then
    (t, Err (ErrNew "workflow: invalid job update"))
  else match t !! ju_JobID u with
  | None => (t, Err (ErrNew "workflow: job not found"))
  | Some job =>
    match updated_job now job u with
    | Ok (Some next) => (<[job_ID next := next]> t, Ok next)
    | Ok None => (t, Ok job)
    | Err e => (t, Err e)
    | Panic msg => (t, Panic msg)
    end
  end.

(** [None]: the caller keeps waiting. *)
Definition table_poll (t : JobTable) (id : string) (after : Z) : option (result Job) :=
  match t !! id with
  | None => Some (Err (ErrNew "workflow: job not found"))
  | Some job => if Z.ltb after (job_Version job) || JobStatus_Terminal (job_Status job) then Some (Ok job) else None
  end.

Definition ready {A} (p : poll A) : option A := match p with Ready a => Some a | Blocked _ => None end.

Class JobStoreLaws (S : Type) `{JobStore S} := {
  store_sound : S -> Prop;
  jobs_of : S -> JobTable;
  Create_law s j : store_sound s ->
    store_sound (store_Create s j).1 /\ jobs_of (store_Create s j).1 = (table_Create (jobs_of s) j).1 /\
    (store_Create s j).2 = (table_Create (jobs_of s) j).2;
  Get_law s id : store_sound s -> store_Get s id = table_Get (jobs_of s) id;
  Update_law now s u : store_sound s ->
    store_sound (store_Update now s u).1 /\ jobs_of (store_Update now s u).1 = (table_Update now (jobs_of s) u).1 /\
    (store_Update now s u).2 = (table_Update now (jobs_of s) u).2;
  poll_law s id after : store_sound s ->
    store_sound (store_poll s id after).1 /\ jobs_of (store_poll s id after).1 = jobs_of s /\
    ready (store_poll s id after).2 = table_poll (jobs_of s) id after;
}.

(** ** Mailboxes *)
Class Mailbox (M : Type) := {
  mail_Publish : Time -> M -> MailMessage -> M * result MailMessage;
  mail_List : M -> Address -> Z -> result (list MailMessage);
}.

Record MailTable := MkMailTable { mt_sequence : Z; mt_messages : gmap Address (list MailMessage) }.

Definition table_Publish (now : Time) (t : MailTable) (m : MailMessage) : MailTable * result MailMessage :=
  if empty (mm_ID m) || negb (Address_Valid (mm_From m)) || negb (Address_Valid (mm_To m)) || empty (mm_Body m) then
    (t, Err (ErrNew "workflow: invalid mailbox publish"))
  else
    match published (messages_at (mt_messages t) (mm_To m)) m with
    | Some existing =>
      (t, if same_publication existing m then Ok existing else Err (ErrNew "workflow: mailbox idempotency conflict"))
    | None =>
      let m := MkMailMessage (mm_ID m) (u64 (mt_sequence t + 1)) (mm_From m) (mm_To m) (mm_Body m) now in
      (MkMailTable (mm_Sequence m) (<[mm_To m := messages_at (mt_messages t) (mm_To m) ++ [m]]> (mt_messages t)), Ok m)
    end.

Class MailboxLaws (M : Type) `{Mailbox M} := {
  mail_sound : M -> Prop;
  mail_of : M -> MailTable;
  Publish_law now b m : mail_sound b ->
    mail_sound (mail_Publish now b m).1 /\ mail_of (mail_Publish now b m).1 = (table_Publish now (mail_of b) m).1 /\
    (mail_Publish now b m).2 = (table_Publish now (mail_of b) m).2;
  List_law b a after : mail_sound b ->
    mail_List b a after =
      if Address_Valid a then Ok (messagesAfter (messages_at (mt_messages (mail_of b)) a) after)
      else Err (ErrNew "workflow: invalid mailbox address");
}.

(** The tables are themselves implementations, and so is the memory. *)
#[export] Instance table_JobStore : JobStore JobTable := {|
  store_Create := table_Create;
  store_Get := table_Get;
  store_Update := table_Update;
  store_poll t id after := (t, match table_poll t id after with Some r => Ready r | None => Blocked 0 end);
|}.
#[export] Instance memory_JobStore : JobStore MemoryJobStore := {|
  store_Create := JobStore_Create;
  store_Get := JobStore_Get;
  store_Update := JobStore_Update;
  store_poll := JobStore_poll;
|}.
#[export] Instance memory_Mailbox : Mailbox MemoryMailbox := {|
  mail_Publish := Mailbox_Publish;
  mail_List := Mailbox_List;
|}.
