(* ===== verification/WorkflowStoreFacts.v ===== *)
(** * The stores in memory keep their promises

    The in-memory stores implement the interfaces, never close a channel
    twice, and wake every waiter whose job has changed. *)

From stdpp Require Import relations.
From S2P Require Import Prelude GoStrings AgentTypes WorkflowStore.

(** ** Announcements *)
Section Announcements.
Context {K} `{Countable K}.

Record announced (changed : gmap K nat) (c : channels) : Prop := {
  an_open : forall k n, changed !! k = Some n -> n ∉ ch_closed c /\ n < ch_next c;
  an_inj : forall k k' n, changed !! k = Some n -> changed !! k' = Some n -> k = k';
  an_made : forall n, n ∈ ch_closed c -> n < ch_next c;
}.

Lemma announced_empty : announced ∅ no_channels.
Proof. by split; simpl; [intros k n []%lookup_empty_Some|intros k k' n []%lookup_empty_Some|set_solver]. Qed.

(** What a signal under [key] does. *)
Record signalled (key : K) (changed : gmap K nat) (c : channels) (changed' : gmap K nat) (c' : channels) : Prop := {
  sg_announced : announced changed' c';
  sg_closed : forall n, changed !! key = Some n -> n ∈ ch_closed c';
  sg_keep : ch_closed c ⊆ ch_closed c';
  sg_others : forall k, k ≠ key -> changed' !! k = changed !! k;
}.

Lemma signal_spec key changed c :
  announced changed c -> exists changed' c', signal key changed c = Ok (changed', c') /\ signalled key changed c changed' c'.
Proof.
  intros [H1 H2 H3]. unfold signal. destruct (changed !! key) as [n|] eqn:E.
  - destruct (H1 key n E) as [Hn Hlt]. unfold close_chan. rewrite bool_decide_eq_false_2 by done. simpl. do 2 eexists. split; [done|]. split; simpl.
    + split; simpl.
      * intros k m [[<- <-]|[Hne Hk]]%lookup_insert_Some; [split; [intros [?%elem_of_singleton|?%H3]%elem_of_union|]; lia|].
        destruct (H1 k m Hk). split; [|lia]. intros [->%elem_of_singleton|?]%elem_of_union; [|done]. by destruct Hne; apply (H2 key k n).
      * intros k k' m [[<- <-]|[Hne Hk]]%lookup_insert_Some [[<- Hm]|[Hne' Hk']]%lookup_insert_Some; [done| | |by eapply H2].
        -- apply H1 in Hk'. lia.
        -- apply H1 in Hk. lia.
      * intros m [->%elem_of_singleton|?%H3]%elem_of_union; lia.
    + intros m Hm. simplify_eq. set_solver.
    + set_solver.
    + intros k Hk. by rewrite lookup_insert_ne.
  - simpl. do 2 eexists. split; [done|]. split; simpl; [split; simpl|intros n Hn; congruence|done|].
    + intros k m [[<- <-]|[Hne Hk]]%lookup_insert_Some; [split; [intros ?%H3; lia|lia]|]. destruct (H1 k m Hk). split; [done|lia].
    + intros k k' m [[<- <-]|[Hne Hk]]%lookup_insert_Some [[<- Hm]|[Hne' Hk']]%lookup_insert_Some; [done| | |by eapply H2].
      * apply H1 in Hk'. lia.
      * apply H1 in Hk. lia.
    + intros m ?%H3. lia.
    + intros k Hk. by rewrite lookup_insert_ne.
Qed.

Lemma subscribe_spec key changed c changed' c' n :
  announced changed c -> subscribe key changed c = (changed', c', n) ->
  announced changed' c' /\ changed' !! key = Some n /\ ch_closed c' = ch_closed c /\ (forall k m, changed !! k = Some m -> changed' !! k = Some m).
Proof.
  intros [H1 H2 H3] Hs. unfold subscribe in Hs. destruct (changed !! key) as [m|] eqn:E; injection Hs as <- <- <-; [done|]. split_and!; simpl.
  - split; simpl.
    + intros k m [[<- <-]|[Hne Hk]]%lookup_insert_Some; [split; [intros ?%H3; lia|lia]|]. destruct (H1 k m Hk). split; [done|lia].
    + intros k k' m [[<- <-]|[Hne Hk]]%lookup_insert_Some [[<- Hm]|[Hne' Hk']]%lookup_insert_Some; [done| | |by eapply H2].
      * apply H1 in Hk'. lia.
      * apply H1 in Hk. lia.
    + intros m ?%H3. lia.
  - apply lookup_insert_eq.
  - done.
  - intros k m Hk. rewrite lookup_insert_ne; [done|]. congruence.
Qed.
End Announcements.
#[export] Hint Resolve announced_empty : agentslot.

(** ** The job store refines the table *)
Definition sound_jobs (s : MemoryJobStore) : Prop := announced (js_changed s) (js_channels s).

(** Storing a job: the table gets it, and who waited for it is woken. *)
Record stored (s : MemoryJobStore) (job : Job) (s' : MemoryJobStore) : Prop := {
  st_jobs : js_jobs s' = <[job_ID job := job]> (js_jobs s);
  st_signal : signalled (job_ID job) (js_changed s) (js_channels s) (js_changed s') (js_channels s');
}.

Lemma store_job_spec s job : sound_jobs s -> exists s', store_job s job = Ok s' /\ stored s job s'.
Proof.
  intros Hs. destruct (signal_spec (job_ID job) (js_changed s) (js_channels s) Hs) as (ch&c&He&Hsig).
  unfold store_job. rewrite He. simpl. eexists. split; [done|]. by split.
Qed.

Lemma stored_sound s job s' : stored s job s' -> sound_jobs s'.
Proof. intros [_ []]. done. Qed.
#[local] Hint Resolve stored_sound : agentslot.

Lemma updated_job_ID now job u next : updated_job now job u = Ok (Some next) -> job_ID next = job_ID job.
Proof.
  unfold updated_job. intros H. apply bind_Ok in H as (?&_&H). destruct (JobStatus_Terminal _); [by destruct (bool_decide _)|].
  apply bind_Ok in H as (?&_&H). apply bind_Ok in H as (?&_&H). by injection H as <-.
Qed.

(** A change either leaves the store alone or stores one job. *)
Lemma JobStore_Create_spec s job : sound_jobs s ->
  (JobStore_Create s job).2 = (table_Create (js_jobs s) job).2 /\
  ((JobStore_Create s job).1 = s /\ (table_Create (js_jobs s) job).1 = js_jobs s \/
   stored s job (JobStore_Create s job).1 /\ (table_Create (js_jobs s) job).1 = <[job_ID job := job]> (js_jobs s)).
Proof.
  intros Hs. unfold JobStore_Create, table_Create. destruct (Job_Validate job); simpl; [|split; [done|by left]..].
  destruct (present _); simpl; [split; [done|by left]|]. destruct (store_job_spec s job Hs) as (s'&->&Hst). simpl. split; [done|by right].
Qed.

Lemma JobStore_Update_spec now s u : sound_jobs s ->
  (JobStore_Update now s u).2 = (table_Update now (js_jobs s) u).2 /\
  ((JobStore_Update now s u).1 = s /\ (table_Update now (js_jobs s) u).1 = js_jobs s \/
   exists next, stored s next (JobStore_Update now s u).1 /\ (table_Update now (js_jobs s) u).1 = <[job_ID next := next]> (js_jobs s)).
Proof.
  intros Hs. unfold JobStore_Update, table_Update. destruct (_ || _); simpl; [split; [done|by left]|].
  destruct (js_jobs s !! ju_JobID u) as [job|]; simpl; [|split; [done|by left]].
  destruct (updated_job now job u) as [[next|]|e|msg]; simpl; try (split; [done|by left]).
  destruct (store_job_spec s next Hs) as (s'&->&Hst). simpl. split; [done|]. right. by exists next.
Qed.

Lemma JobStore_poll_spec s id after : sound_jobs s ->
  sound_jobs (JobStore_poll s id after).1 /\ js_jobs (JobStore_poll s id after).1 = js_jobs s /\
  ch_closed (js_channels (JobStore_poll s id after).1) = ch_closed (js_channels s) /\
  (forall k m, js_changed s !! k = Some m -> js_changed (JobStore_poll s id after).1 !! k = Some m) /\
  ready (JobStore_poll s id after).2 = table_poll (js_jobs s) id after /\
  (forall c, (JobStore_poll s id after).2 = Blocked c -> js_changed (JobStore_poll s id after).1 !! id = Some c).
Proof.
  intros Hs. unfold JobStore_poll, table_poll. destruct (js_jobs s !! id) as [job|]; simpl; [|by split_and!].
  destruct (_ || _); simpl; [by split_and!|]. destruct (subscribe id (js_changed s) (js_channels s)) as [[ch c] n] eqn:E.
  destruct (subscribe_spec id _ _ _ _ _ Hs E) as (H1&H2&H3&H4). simpl. split_and!; try done. by intros c' [= <-].
Qed.

#[export] Program Instance memory_JobStoreLaws : JobStoreLaws MemoryJobStore := {| store_sound := sound_jobs; jobs_of := js_jobs |}.
Next Obligation.
  intros s j Hs. destruct (JobStore_Create_spec s j Hs) as [Hr [[E1 E2]|[Hst E2]]]; simpl; rewrite E2.
  - by rewrite E1.
  - split; [by eapply stored_sound|]. split; [apply Hst|done].
Qed.
Next Obligation. intros s id Hs. simpl. unfold JobStore_Get, table_Get. by destruct (empty id). Qed.
Next Obligation.
  intros now s u Hs. destruct (JobStore_Update_spec now s u Hs) as [Hr [[E1 E2]|(next&Hst&E2)]]; simpl; rewrite E2.
  - by rewrite E1.
  - split; [by eapply stored_sound|]. split; [apply Hst|done].
Qed.
Next Obligation. intros s id after Hs. simpl. destruct (JobStore_poll_spec s id after Hs) as (?&?&_&_&?&_). done. Qed.

(** ** The mailbox refines the table of messages *)
#[export] Program Instance memory_MailboxLaws : MailboxLaws MemoryMailbox := {|
  mail_sound s := announced (mb_changed s) (mb_channels s);
  mail_of s := MkMailTable (mb_sequence s) (mb_messages s);
|}.
Next Obligation.
  intros now b m Hb. simpl. unfold Mailbox_Publish, table_Publish. simpl. destruct (_ || _); simpl; [done|].
  destruct (published _ m) as [e|]; simpl; [by destruct (same_publication e m)|].
  destruct (signal_spec (mm_To m) (mb_changed b) (mb_channels b) Hb) as (ch&c&->&Hsig). simpl. split; [apply Hsig|done].
Qed.
Next Obligation. intros b a after Hb. simpl. unfold Mailbox_List. simpl. by destruct (Address_Valid a). Qed.

(** * What the workflow stores promise

    Theorems about the in-memory job store and mailbox: they answer like
    tables, a job only moves forward, and no waiter misses a change. *)

(** ** Answers to a sequence of calls *)
Inductive job_call :=
  | CallCreate (job : Job)
  | CallGet (id : string)
  | CallUpdate (now : Time) (u : JobUpdate)
  | CallPoll (id : string) (after : Z).

Inductive job_reply :=
  | ReplyCreate (r : result unit)
  | ReplyGet (r : result (option Job))
  | ReplyUpdate (r : result Job)
  | ReplyPoll (r : option (result Job)).

Section Answers.
Context {S : Type} `{JobStore S}.

Definition answer (s : S) (c : job_call) : S * job_reply :=
  match c with
  | CallCreate job => let '(s, r) := store_Create s job in (s, ReplyCreate r)
  | CallGet id => (s, ReplyGet (store_Get s id))
  | CallUpdate now u => let '(s, r) := store_Update now s u in (s, ReplyUpdate r)
  | CallPoll id after => let '(s, r) := store_poll s id after in (s, ReplyPoll (ready r))
  end.

Fixpoint answers (s : S) (calls : list job_call) : S * list job_reply :=
  match calls with
  | [] => (s, [])
  | c :: calls =>
    let '(s, r) := answer s c in
    let '(s, rs) := answers s calls in (s, r :: rs)
  end.
End Answers.

Definition panics {A} (r : result A) : bool := match r with Panic _ => true | _ => false end.
Definition reply_panics (r : job_reply) : bool :=
  match r with
  | ReplyCreate r => panics r | ReplyGet r => panics r | ReplyUpdate r => panics r
  | ReplyPoll (Some r) => panics r | ReplyPoll None => false
  end.

Section Refinement.
Context {S : Type} `{JobStoreLaws S}.

Lemma answer_refines s c : store_sound s ->
  store_sound (answer s c).1 /\ jobs_of (answer s c).1 = (answer (jobs_of s) c).1 /\ (answer s c).2 = (answer (jobs_of s) c).2.
Proof.
  intros Hs. destruct c as [job|id|now u|id after]; simpl.
  - destruct (Create_law s job Hs) as (H1&H2&H3). destruct (store_Create s job), (table_Create (jobs_of s) job). simpl in *. by subst.
  - by rewrite Get_law.
  - destruct (Update_law now s u Hs) as (H1&H2&H3). destruct (store_Update now s u), (table_Update now (jobs_of s) u). simpl in *. by subst.
  - destruct (poll_law s id after Hs) as (H1&H2&H3). destruct (store_poll s id after). simpl in *. rewrite H3. by destruct (table_poll _ _ _).
Qed.

Lemma answers_refine calls : forall s, store_sound s ->
  store_sound (answers s calls).1 /\ jobs_of (answers s calls).1 = (answers (jobs_of s) calls).1 /\
  (answers s calls).2 = (answers (jobs_of s) calls).2.
Proof.
  induction calls as [|c calls IH]; intros s Hs; simpl; [done|]. destruct (answer_refines s c Hs) as (H1&H2&H3).
  destruct (answer s c) as [s1 r], (answer (jobs_of s) c) as [t1 r']. simpl in *. subst. destruct (IH s1 H1) as (H4&H5&H6).
  destruct (answers s1 calls), (answers (jobs_of s1) calls). simpl in *. by subst.
Qed.
End Refinement.

Lemma Job_Validate_panics j : panics (Job_Validate j) = false.
Proof. unfold Job_Validate, reject_if. repeat (destruct (_ : bool); simpl; [done|]). by repeat case_match. Qed.

(** ** The life of a job *)
Definition rank (s : JobStatus) : nat := match s with JobQueued => 0 | JobRunning => 1 | _ => 2 end.
Definition job_identity (j : Job) := (job_ID j, job_ProviderKey j, job_Parent j, job_Instruction j, job_CreatedAt j).

(** [b] is [a], or a later state of it. *)
Record job_evolves (a b : Job) : Prop := {
  je_identity : job_identity b = job_identity a;
  je_frozen : JobStatus_Terminal (job_Status a) = true -> b = a;
  je_version : exists k, rank (job_Status a) + k <= rank (job_Status b) /\ u64 (job_Version b) = u64 (job_Version a + Z.of_nat k) /\ (b = a \/ 0 < k);
}.

#[export] Instance job_evolves_preorder : PreOrder job_evolves.
Proof.
  split.
  - intros a. split; [done|done|]. exists 0. rewrite Z.add_0_r. split_and!; [lia|done|by left].
  - intros a b c [A1 A2 (k&A3&A4&A5)] [B1 B2 (l&B3&B4&B5)]. split; [by rewrite B1| |].
    + intros Ha. specialize (A2 Ha) as ->. by apply B2.
    + exists (k + l). split_and!; [lia| |].
      * rewrite B4, Nat2Z.inj_add, Z.add_assoc. unfold u64 in *. by rewrite <-Zplus_mod_idemp_l, A4, Zplus_mod_idemp_l.
      * destruct A5 as [->|]; [|right; lia]. destruct B5 as [->|]; [by left|right; lia].
Qed.

Lemma updated_job_evolves now job u next :
  updated_job now job u = Ok (Some next) -> job_evolves job next /\ Job_Validate next = Ok tt /\ job_ID next = job_ID job.
Proof.
  intros H. pose proof (updated_job_ID _ _ _ _ H) as Hid. unfold updated_job in H. apply bind_Ok in H as (?&_&H).
  destruct (JobStatus_Terminal (job_Status job)) eqn:Et; [by destruct (bool_decide _)|].
  apply bind_Ok in H as (?&Htr&H). apply bind_Ok in H as ([]&Hv&H). injection H as <-. apply reject_if_Ok, negb_false_iff in Htr.
  split_and!; [|done|done]. split; [done|by rewrite Et|]. simpl.
  exists 1. unfold u64. rewrite Z.mod_mod by lia. split_and!; [|done|right; lia].
  destruct (job_Status job), (ju_Status u); simpl in *; try done; lia.
Qed.

Lemma updated_job_panics now job u : panics (updated_job now job u) = false.
Proof.
  unfold updated_job. destruct (Z.eqb (job_Version job) _); simpl; [|done]. destruct (JobStatus_Terminal _); [by destruct (bool_decide _)|].
  destruct (validJobTransition _ _); simpl; [|done]. match goal with |- context [Job_Validate ?j] => pose proof (Job_Validate_panics j); by destruct (Job_Validate j) end.
Qed.

(** Tables keep the jobs under their IDs, and only valid ones. *)
Definition wf_table (t : JobTable) : Prop := map_Forall (fun id j => job_ID j = id /\ Job_Validate j = Ok tt) t.

Definition table_evolves (t t' : JobTable) : Prop :=
  forall id j, t !! id = Some j -> exists j', t' !! id = Some j' /\ job_evolves j j'.

Lemma table_evolves_insert t id j j' : t !! id = Some j -> job_evolves j j' -> table_evolves t (<[id := j']> t).
Proof.
  intros Hj He i a Ha. destruct (decide (i = id)) as [->|Hne].
  - simplify_eq. exists j'. by rewrite lookup_insert_eq.
  - exists a. by rewrite lookup_insert_ne.
Qed.

Lemma answer_table t c : wf_table t ->
  wf_table (answer t c).1 /\ table_evolves t (answer t c).1 /\ reply_panics (answer t c).2 = false.
Proof.
  intros Ht. assert (Hsame : wf_table t /\ table_evolves t t) by (split; [done|intros id j Hj; by exists j]).
  destruct c as [job|id|now u|id after]; simpl.
  - unfold table_Create. pose proof (Job_Validate_panics job) as Hp. destruct (Job_Validate job) as [[]| |] eqn:Ev; simpl; [|by destruct Hsame..].
    destruct (t !! job_ID job) as [old|] eqn:Eo; simpl; [by destruct Hsame|]. split_and!; [|intros i a Ha|done].
    + by apply map_Forall_insert_2.
    + exists a. rewrite lookup_insert_ne; [done|congruence].
  - destruct Hsame. unfold table_Get. by destruct (empty id).
  - unfold table_Update. destruct (_ || _); simpl; [by destruct Hsame|]. destruct (t !! ju_JobID u) as [job|] eqn:Ej; simpl; [|by destruct Hsame].
    pose proof (updated_job_panics now job u). destruct (updated_job now job u) as [[next|]| |] eqn:Eu; simpl in *; try by destruct Hsame.
    destruct (updated_job_evolves _ _ _ _ Eu) as (He&Hv&Hid). destruct (Ht _ _ Ej) as [Hjob _].
    split_and!; [by apply map_Forall_insert_2| |done]. apply table_evolves_insert with job; [|done]. by rewrite Hid, Hjob.
  - destruct Hsame. split_and!; [done|done|]. unfold table_poll. destruct (t !! id) as [job|]; simpl; [|done]. by destruct (_ || _).
Qed.

Lemma table_evolves_trans t1 t2 t3 : table_evolves t1 t2 -> table_evolves t2 t3 -> table_evolves t1 t3.
Proof. intros H1 H2 id j Hj. destruct (H1 id j Hj) as (j2&Hj2&E2). destruct (H2 id j2 Hj2) as (j3&Hj3&E3). exists j3. split; [done|by etrans]. Qed.

Lemma answers_table calls : forall t, wf_table t ->
  wf_table (answers t calls).1 /\ table_evolves t (answers t calls).1 /\ Forall (fun r => reply_panics r = false) (answers t calls).2.
Proof.
  induction calls as [|c calls IH]; intros t Ht; simpl; [split_and!; [done|intros id j Hj; by exists j|constructor]|].
  destruct (answer_table t c Ht) as (H1&H2&H3). destruct (answer t c) as [t1 r]. simpl in *. destruct (IH t1 H1) as (H4&H5&H6).
  destruct (answers t1 calls) as [t2 rs]. simpl in *. split_and!; [done|by eapply table_evolves_trans|by constructor].
Qed.

Lemma answers_app {S} `{JobStore S} (s : S) c1 c2 : (answers s (c1 ++ c2)).1 = (answers (answers s c1).1 c2).1.
Proof.
  revert s; induction c1 as [|c c1 IH]; intros s; simpl; [done|]. destruct (answer s c) as [s1 r]. specialize (IH s1).
  destruct (answers s1 (c1 ++ c2)) as [sa ra], (answers s1 c1) as [sb rb]. simpl in *. by rewrite IH.
Qed.

Lemma sound_new : store_sound NewMemoryJobStore.
Proof. exact announced_empty. Qed.

(** C20. The in-memory job store implements the table of jobs: whatever calls
    are made, it gives the answers the table gives, and none of them panics (in
    particular no channel is closed twice). *)
Theorem job_store_refines calls :
  (answers NewMemoryJobStore calls).2 = (answers (∅ : JobTable) calls).2 /\
  Forall (fun r => reply_panics r = false) (answers NewMemoryJobStore calls).2.
Proof.
  destruct (answers_refine calls NewMemoryJobStore sound_new) as (_&_&He). split; [done|]. rewrite He.
  by apply answers_table, map_Forall_empty.
Qed.

(** C21. The life of a job: it is stored under its ID and valid; its identity
    never changes; each change of its status goes forward and adds one to its
    version; and a terminal job is never changed. *)
Theorem job_lifecycle calls more id j :
  let s := (answers NewMemoryJobStore calls).1 in
  js_jobs s !! id = Some j ->
  job_ID j = id /\ Job_Validate j = Ok tt /\
  exists j', js_jobs (answers s more).1 !! id = Some j' /\ job_evolves j j'.
Proof.
  intros s Hj. destruct (answers_refine calls NewMemoryJobStore sound_new) as (Hs&Hjobs&_).
  destruct (answers_table calls (∅ : JobTable)) as (Hw&_); [apply map_Forall_empty|].
  change (js_jobs s = (answers (∅ : JobTable) calls).1) in Hjobs. rewrite <-Hjobs in Hw.
  destruct (Hw id j Hj) as [Hid Hv]. split_and!; [done..|].
  destruct (answers_refine more s Hs) as (_&Hmore&_). destruct (answers_table more (js_jobs s) Hw) as (_&He&_).
  change (jobs_of s) with (js_jobs s) in Hmore. destruct (He id j Hj) as (j'&Hj'&Hev). exists j'. split; [|done].
  change (jobs_of (answers s more).1 !! id = Some j'). by rewrite Hmore.
Qed.

(** * Waiting for a job

    Callers of [MemoryJobStore.Wait] that run concurrently with the other
    operations: each is polling, blocked on a channel, or has returned. *)

Inductive waiter :=
  | Polling (id : string) (after : Z)
  | Sleeping (id : string) (after : Z) (c : nat)
  | Returned (r : result Job).

Record waiting := MkWaiting { wt_store : MemoryJobStore; wt_waiters : gmap nat waiter }.

(** One turn of the loop of the waiter [w]. *)
Definition poll_waiter (s : waiting) (w : nat) (id : string) (after : Z) : waiting :=
  let '(store, r) := JobStore_poll (wt_store s) id after in
  MkWaiting store (<[w := match r with Ready r => Returned r | Blocked c => Sleeping id after c end]> (wt_waiters s)).

Inductive wait_step : waiting -> waiting -> Prop :=
  | wait_call s c : wait_step s (MkWaiting (answer (wt_store s) c).1 (wt_waiters s))
  | wait_enter s w id after : wt_waiters s !! w = None -> wait_step s (MkWaiting (wt_store s) (<[w := Polling id after]> (wt_waiters s)))
  | wait_poll s w id after : wt_waiters s !! w = Some (Polling id after) -> wait_step s (poll_waiter s w id after)
  | wait_wake s w id after c : wt_waiters s !! w = Some (Sleeping id after c) -> c ∈ ch_closed (js_channels (wt_store s)) ->
      wait_step s (MkWaiting (wt_store s) (<[w := Polling id after]> (wt_waiters s)))
  | wait_cancel s w id after c e : wt_waiters s !! w = Some (Sleeping id after c) ->
      wait_step s (MkWaiting (wt_store s) (<[w := Returned (Err e)]> (wt_waiters s))).

Definition nobody_waiting : waiting := MkWaiting NewMemoryJobStore ∅.

(** A blocked waiter has nothing to do, or can be woken. *)
Definition waiter_ok (s : MemoryJobStore) (w : waiter) : Prop :=
  match w with
  | Sleeping id after c => c ∈ ch_closed (js_channels s) \/ js_changed s !! id = Some c /\ table_poll (js_jobs s) id after = None
  | _ => True
  end.
Record waiting_ok (s : waiting) : Prop := {
  wo_sound : sound_jobs (wt_store s);
  wo_table : wf_table (js_jobs (wt_store s));
  wo_waiters : map_Forall (fun _ w => waiter_ok (wt_store s) w) (wt_waiters s);
}.

Lemma waiter_ok_stored s job s' w : stored s job s' -> waiter_ok s w -> waiter_ok s' w.
Proof.
  intros [Hj [_ Hclosed Hkeep Hothers]] Hw. destruct w as [|id after c|]; simpl in *; [done| |done].
  destruct Hw as [Hc|[Hch Hp]]; [left; by apply Hkeep|]. destruct (decide (id = job_ID job)) as [->|Hne].
  - left. by apply Hclosed.
  - right. rewrite Hothers by done. split; [done|]. unfold table_poll in *. rewrite Hj, lookup_insert_ne; done.
Qed.

Lemma waiter_ok_poll s id after w : sound_jobs s -> waiter_ok s w -> waiter_ok (JobStore_poll s id after).1 w.
Proof.
  intros Hs Hw. destruct (JobStore_poll_spec s id after Hs) as (_&Hj&Hc&Hch&_&_). destruct w as [|i a c|]; simpl in *; [done| |done].
  rewrite Hj, Hc. destruct Hw as [|[H1 H2]]; [by left|right]. split; [by apply Hch|done].
Qed.

Lemma waiter_ok_answer s c w : sound_jobs s -> waiter_ok s w -> waiter_ok (answer s c).1 w.
Proof.
  intros Hs Hw. destruct c as [job|id|now u|id after]; simpl.
  - destruct (JobStore_Create_spec s job Hs) as [_ [[E _]|[Hst _]]]; destruct (JobStore_Create s job); simpl in *; [by subst|by eapply waiter_ok_stored].
  - done.
  - destruct (JobStore_Update_spec now s u Hs) as [_ [[E _]|(next&Hst&_)]]; destruct (JobStore_Update now s u); simpl in *; [by subst|by eapply waiter_ok_stored].
  - pose proof (waiter_ok_poll s id after w Hs Hw). by destruct (JobStore_poll s id after).
Qed.

Lemma answer_sound s c : sound_jobs s -> wf_table (js_jobs s) -> sound_jobs (answer s c).1 /\ wf_table (js_jobs (answer s c).1).
Proof.
  intros Hs Ht. assert (Hs' : store_sound s) by exact Hs. destruct (answer_refines s c Hs') as (H1&H2&_). split; [done|]. destruct (answer_table (js_jobs s) c Ht) as [H3 _].
  change (wf_table (jobs_of (answer s c).1)). rewrite H2. done.
Qed.

Lemma wait_step_ok s s' : waiting_ok s -> wait_step s s' -> waiting_ok s'.
Proof.
  intros [H1 H2 H3] Hstep. destruct Hstep as [s c|s w id after Hw|s w id after Hw|s w id after c Hw Hc|s w id after c e Hw]; simpl in *.
  - destruct (answer_sound (wt_store s) c H1 H2). split; [done|done|]. intros w a Ha. simpl. apply waiter_ok_answer; [done|]. by eapply H3.
  - split; [done|done|]. simpl. by apply map_Forall_insert_2.
  - unfold poll_waiter. destruct (JobStore_poll_spec (wt_store s) id after H1) as (P1&P2&P3&P4&P5&P6).
    pose proof (fun x => waiter_ok_poll (wt_store s) id after x H1) as P7.
    destruct (JobStore_poll (wt_store s) id after) as [store r]. simpl in *. split; simpl; [done|by rewrite P2|].
    apply map_Forall_insert_2; [|intros i a Ha; apply P7; by eapply H3]. destruct r as [r|c]; simpl; [done|]. right. rewrite P2. by auto.
  - split; [done|done|]. simpl. by apply map_Forall_insert_2.
  - split; [done|done|]. simpl. by apply map_Forall_insert_2.
Qed.

Lemma waiting_reachable_ok s : rtc wait_step nobody_waiting s -> waiting_ok s.
Proof.
  intros H. assert (Hinit : waiting_ok nobody_waiting).
  { split; [exact announced_empty|apply map_Forall_empty|apply map_Forall_empty]. }
  revert Hinit. induction H; eauto using wait_step_ok.
Qed.

(** C22. No wakeup is lost: in whatever order calls, polls and cancellations
    are interleaved, as soon as the store has an answer for a blocked waiter,
    the waiter can be woken and its next poll returns that answer. *)
Theorem no_lost_wakeup s w id after c r :
  rtc wait_step nobody_waiting s -> wt_waiters s !! w = Some (Sleeping id after c) ->
  table_poll (js_jobs (wt_store s)) id after = Some r ->
  exists s1 s2, wait_step s s1 /\ wait_step s1 s2 /\ wt_waiters s2 !! w = Some (Returned r) /\
    js_jobs (wt_store s2) = js_jobs (wt_store s).
Proof.
  intros Hs%waiting_reachable_ok Hw Hr. destruct Hs as [H1 H2 H3]. destruct (H3 w _ Hw) as [Hc|[_ Hp]]; [|by rewrite Hr in Hp].
  set (s1 := MkWaiting (wt_store s) (<[w := Polling id after]> (wt_waiters s))). exists s1, (poll_waiter s1 w id after). split_and!.
  - by eapply wait_wake.
  - apply wait_poll. simpl. apply lookup_insert_eq.
  - unfold poll_waiter. destruct (JobStore_poll_spec (wt_store s) id after H1) as (_&_&_&_&P5&_). simpl.
    destruct (JobStore_poll (wt_store s) id after) as [store p]. simpl in *. rewrite lookup_insert_eq. rewrite Hr in P5.
    destruct p; simpl in P5; [by injection P5 as ->|done].
  - unfold poll_waiter. destruct (JobStore_poll_spec (wt_store s) id after H1) as (_&P2&_). simpl.
    by destruct (JobStore_poll (wt_store s) id after).
Qed.

(** ** A waiter that blocks before the job starts *)
Definition parent0 : Parent := MkParent "s" "r" "p".
Definition queued0 : Job := MkJob "job-1" "provider" parent0 "do it" JobQueued 1 no_result "" "" 5 5.
Definition running_update : JobUpdate := MkJobUpdate "job-1" 1 JobRunning no_result "" "".
Definition running0 : Job := MkJob "job-1" "provider" parent0 "do it" JobRunning 2 no_result "" "" 5 6.
Definition waits0 : waiting := MkWaiting (answer NewMemoryJobStore (CallCreate queued0)).1 ∅.
Definition waits1 : waiting := MkWaiting (wt_store waits0) (<[0 := Polling "job-1" 1]> ∅).
Definition waits2 : waiting := poll_waiter waits1 0 "job-1" 1.
Definition waits3 : waiting := MkWaiting (answer (wt_store waits2) (CallUpdate 6 running_update)).1 (wt_waiters waits2).

Lemma waits3_reachable : rtc wait_step nobody_waiting waits3.
Proof.
  eapply rtc_l; [exact (wait_call nobody_waiting (CallCreate queued0))|]. eapply rtc_l; [exact (wait_enter waits0 0 "job-1" 1 eq_refl)|].
  eapply rtc_l; [exact (wait_poll waits1 0 "job-1" 1 eq_refl)|]. eapply rtc_l; [exact (wait_call waits2 (CallUpdate 6 running_update))|]. constructor.
Qed.

Lemma no_lost_wakeup_witness : exists s2, wt_waiters s2 !! 0 = Some (Returned (Ok running0)).
Proof.
  destruct (no_lost_wakeup waits3 0 "job-1" 1 0 (Ok running0)) as (s1&s2&_&_&H&_).
  - exact waits3_reachable.
  - vm_compute. reflexivity.
  - vm_compute. reflexivity.
  - exists s2. exact H.
Defined.

Lemma job_lifecycle_witness : exists j', js_jobs (answers NewMemoryJobStore [CallCreate queued0; CallUpdate 6 running_update]).1 !! "job-1" = Some j' /\ job_evolves queued0 j'.
Proof.
  destruct (job_lifecycle [CallCreate queued0] [CallUpdate 6 running_update] "job-1" queued0) as (_&_&j'&H&He); [vm_compute; reflexivity|].
  exists j'. split; [exact H|exact He].
Defined.
