(* ===== verification/WorkflowScheduler.v ===== *)
(** * The scheduler

    Models [referenceScheduler] of [workflow/scheduler.go] and [WaitTerminal]
    of [workflow/wait.go].

    Calls and goroutines interleave: a step is one region under the lock of the
    scheduler, one call of the job store or the mailbox, or the return of a
    provider.  A worker is what [Spawn] leaves behind for one job: the rest of
    the call itself, then the goroutine that runs [execute].  The calls [Send],
    [Close] and [stop] are clients in the middle of their steps. *)

From stdpp Require Import pretty.
From S2P Require Import Prelude GoStrings AgentTypes WorkflowStore.

(** ** Providers *)
Inductive outcome := ProviderReturned (r : Result) (err : option error) | ProviderPanicked.

(** [executeProvider]: a panic is recovered. *)
Definition executeProvider (o : outcome) : Result * option error :=
  match o with
  | ProviderReturned r err => (r, err)
  | ProviderPanicked => (no_result, Some (ErrNew "workflow: AgentProvider panicked"))
  end.

(** ** Workers *)
Inductive phase :=
  | Creating (job : Job)                 (* [Spawn]: before [store.Create] *)
  | Abandoning                           (* [Spawn]: before [cancel()] *)
  | Loading                              (* [execute]: before [store.Get] *)
  | Claiming (job : Job)                 (* before the update to running *)
  | Executing (job : Job)                (* in [provider.Execute] *)
  | Explaining (job : Job) (r : Result)  (* before [cancelReason] *)
  | Finishing (u : JobUpdate)            (* before the terminal update *)
  | Announcing (job : Job)               (* before [mailbox.Publish] *)
  | Removing                             (* before [removeRunning] *)
  | Leaving                              (* before [wait.Done()] *)
  | Left.

Record worker := MkWorker { wk_task : Task; wk_phase : phase }.

(** ** Clients *)
Inductive client :=
  | SendChecked (request : SendRequest) (job : Job)
  | CloseChecked (request : CloseRequest) (job : Job)
  | CloseCanceling (id : string) (version : Z)
  | CloseWaiting (id : string) (version : Z)
  | StopCanceling (ids : list string)
  | StopWaiting
  | SendDone (r : result MailMessage)
  | CloseDone (r : result Job)
  | StopDone (r : result unit).

(** ** The state *)
Record scheduler := MkScheduler {
  sd_sequence : Z;
  sd_running : gset string;               (* the keys of [running] *)
  sd_cancelReasons : gmap string string;
  sd_started : bool;
  sd_closed : bool;
  sd_wait : Z;                            (* the counter of the WaitGroup *)
}.
Definition new_scheduler : scheduler := MkScheduler 0 ∅ ∅ false false 0.

Record system (S M : Type) := MkSystem {
  sy_store : S;
  sy_mail : M;
  sy_sched : scheduler;
  sy_canceled : gset string;              (* the run contexts that are canceled *)
  sy_workers : gmap string worker;
  sy_clients : gmap nat client;
}.
Arguments MkSystem {S M}.
Arguments sy_store {S M}.
Arguments sy_mail {S M}.
Arguments sy_sched {S M}.
Arguments sy_canceled {S M}.
Arguments sy_workers {S M}.
Arguments sy_clients {S M}.

(** [fmt.Sprintf("job-%d", n)] *)
Definition job_name (n : Z) : string := "job-" +:+ pretty (Z.to_N n).
(** [fmt.Sprintf("message-%s-%d", id, n)] *)
Definition message_name (id : string) (n : Z) : string := "message-" +:+ id +:+ "-" +:+ pretty (Z.to_N n).
Definition completion_name (id : string) : string := "completion-" +:+ id.

Definition session_address (job : Job) : Address := MkAddress AddressSession (par_SessionID (job_Parent job)).
Definition job_address (id : string) : Address := MkAddress AddressJob id.

Definition completion_body (job : Job) : string :=
  if empty (res_Summary (job_Result job)) then JobStatus_string (job_Status job) else res_Summary (job_Result job).
Definition completion (job : Job) : MailMessage :=
  MkMailMessage (completion_name (job_ID job)) 0 (job_address (job_ID job)) (session_address job) (completion_body job) 0.

Section Scheduler.
Context {S M : Type} `{JobStore S} `{Mailbox M}.
Implicit Types s : system S M.

Definition set_phase s (id : string) (w : worker) (p : phase) : system S M :=
  MkSystem (sy_store s) (sy_mail s) (sy_sched s) (sy_canceled s) (<[id := MkWorker (wk_task w) p]> (sy_workers s)) (sy_clients s).
Definition set_store s (store : S) : system S M :=
  MkSystem store (sy_mail s) (sy_sched s) (sy_canceled s) (sy_workers s) (sy_clients s).
Definition set_mail s (mail : M) : system S M :=
  MkSystem (sy_store s) mail (sy_sched s) (sy_canceled s) (sy_workers s) (sy_clients s).
Definition set_sched s (d : scheduler) : system S M :=
  MkSystem (sy_store s) (sy_mail s) d (sy_canceled s) (sy_workers s) (sy_clients s).
Definition set_client s (c : nat) (k : client) : system S M :=
  MkSystem (sy_store s) (sy_mail s) (sy_sched s) (sy_canceled s) (sy_workers s) (<[c := k]> (sy_clients s)).
Definition cancel s (id : string) : system S M :=
  MkSystem (sy_store s) (sy_mail s) (sy_sched s) ({[id]} ∪ sy_canceled s) (sy_workers s) (sy_clients s).

(** ** [Spawn] *)
Definition spawn_check (providers : gset string) (d : scheduler) (request : SpawnRequest) : result unit :=
  reject_if (empty (sp_ProviderKey request) || negb (Parent_Valid (sp_Parent request)) || empty (sp_Instruction request))
    (ErrNew "workflow: invalid spawn request") ;;
  reject_if (negb (bool_decide (sp_ProviderKey request ∈ providers))) (Errorf "workflow: unknown AgentProvider" [AStr (sp_ProviderKey request)]) ;;
  reject_if (sd_closed d) (ErrNew "workflow: scheduler is closed") ;;
  reject_if (negb (sd_started d)) (ErrNew "workflow: scheduler is not started").

(** Up to [s.mu.Unlock()] and the construction of the job. *)
Definition Spawn (providers : gset string) (now : Time) s (request : SpawnRequest) : result (system S M) :=
  let d := sy_sched s in
  spawn_check providers d request ;;
  let sequence := u64 (sd_sequence d + 1) in
  let id := job_name sequence in
  let job := MkJob id (sp_ProviderKey request) (sp_Parent request) (sp_Instruction request) JobQueued 1 no_result "" "" now now in
  let task := MkTask id (sp_ProviderKey request) (sp_Parent request) (sp_Instruction request) (sp_Metadata request) in
  let d := MkScheduler sequence ({[id]} ∪ sd_running d) (sd_cancelReasons d) (sd_started d) (sd_closed d) (sd_wait d + 1) in
  Ok (MkSystem (sy_store s) (sy_mail s) d (sy_canceled s) (<[id := MkWorker task (Creating job)]> (sy_workers s)) (sy_clients s)).

(** ** [execute] *)
Definition removeRunning (d : scheduler) (id : string) : scheduler :=
  MkScheduler (sd_sequence d) (sd_running d ∖ {[id]}) (delete id (sd_cancelReasons d)) (sd_started d) (sd_closed d) (sd_wait d).
Definition wait_Done (d : scheduler) : scheduler :=
  MkScheduler (sd_sequence d) (sd_running d) (sd_cancelReasons d) (sd_started d) (sd_closed d) (sd_wait d - 1).
Definition cancelReason (d : scheduler) (id : string) : string := default "" (sd_cancelReasons d !! id).

Definition claim (job : Job) : JobUpdate := MkJobUpdate (job_ID job) (job_Version job) JobRunning no_result "" "".

(** What [execute] does with the return of the provider. *)
Definition after_provider (job : Job) (o : outcome) : phase :=
  let '(r, err) := executeProvider o in
  match err with
  | None => Finishing (MkJobUpdate (job_ID job) (job_Version job) JobCompleted r "" "")
  | Some e =>
    if errors_Is e "context canceled" then Explaining job r
    else Finishing (MkJobUpdate (job_ID job) (job_Version job) JobFailed r "agent_provider_failed" "")
  end.
Definition canceled_update (d : scheduler) (id : string) (job : Job) (r : Result) : JobUpdate :=
  let reason := cancelReason d id in
  MkJobUpdate (job_ID job) (job_Version job) JobCanceled r "" (if empty reason then "provider_canceled" else reason).

(** The next step of the worker [w] of [id]; [o] is only read when a provider
    returns, and [now] when the store or the mailbox is called. *)
Definition advance (now : Time) (o : outcome) s (id : string) (w : worker) : system S M :=
  match wk_phase w with
  | Creating job =>
    let '(store, r) := store_Create (sy_store s) job in
    set_phase (set_store s store) id w (match r with Ok _ => Loading | _ => Abandoning end)
  | Abandoning => set_phase (cancel s id) id w Removing
  | Loading =>
    set_phase s id w (match store_Get (sy_store s) (task_JobID (wk_task w)) with Ok (Some job) => Claiming job | _ => Removing end)
  | Claiming job =>
    let '(store, r) := store_Update now (sy_store s) (claim job) in
    set_phase (set_store s store) id w (match r with Ok job => Executing job | _ => Removing end)
  | Executing job => set_phase s id w (after_provider job o)
  | Explaining job r => set_phase s id w (Finishing (canceled_update (sy_sched s) id job r))
  | Finishing u =>
    let '(store, r) := store_Update now (sy_store s) u in
    set_phase (set_store s store) id w (match r with Ok job => Announcing job | _ => Removing end)
  | Announcing job =>
    let '(mail, _) := mail_Publish now (sy_mail s) (completion job) in
    set_phase (set_mail s mail) id w Removing
  | Removing => set_phase (set_sched s (removeRunning (sy_sched s) id)) id w Leaving
  | Leaving => set_phase (set_sched s (wait_Done (sy_sched s))) id w Left
  | Left => s
  end.

(** ** [Send] *)
Definition found (r : result (option Job)) : result Job :=
  r ← r;
  match r with Some job => Ok job | None => Err (ErrNew "workflow: job not found") end.

Definition Send s (request : SendRequest) : client :=
  match
    (reject_if (empty (sr_JobID request) || empty (sr_Body request)) (ErrNew "workflow: invalid send request") ;;
     job ← found (store_Get (sy_store s) (sr_JobID request));
     reject_if (JobStatus_Terminal (job_Status job)) (ErrNew "workflow: cannot send to a terminal job") ;;
     Ok job)
  with
  | Ok job => SendChecked request job
  | Err e => SendDone (Err e)
  | Panic msg => SendDone (Panic msg)
  end.

Definition Send_publish (now : Time) s (c : nat) (request : SendRequest) (job : Job) : system S M :=
  let d := sy_sched s in
  let sequence := u64 (sd_sequence d + 1) in
  let m := MkMailMessage (message_name (sr_JobID request) sequence) 0 (session_address job) (job_address (sr_JobID request)) (sr_Body request) 0 in
  let '(mail, r) := mail_Publish now (sy_mail s) m in
  let d := MkScheduler sequence (sd_running d) (sd_cancelReasons d) (sd_started d) (sd_closed d) (sd_wait d) in
  set_client (set_mail (set_sched s d) mail) c (SendDone r).

(** ** [Close] *)
Definition Close s (request : CloseRequest) : client :=
  match
    (reject_if (empty (clr_JobID request) || empty (clr_Reason request)) (ErrNew "workflow: invalid close request") ;;
     found (store_Get (sy_store s) (clr_JobID request)))
  with
  | Ok job => if JobStatus_Terminal (job_Status job) then CloseDone (Ok job) else CloseChecked request job
  | Err e => CloseDone (Err e)
  | Panic msg => CloseDone (Panic msg)
  end.

Definition Close_mark s (c : nat) (request : CloseRequest) (job : Job) : system S M :=
  let d := sy_sched s in
  if bool_decide (clr_JobID request ∈ sd_running d) then
    let d := MkScheduler (sd_sequence d) (sd_running d) (<[clr_JobID request := clr_Reason request]> (sd_cancelReasons d))
      (sd_started d) (sd_closed d) (sd_wait d) in
    set_client (set_sched s d) c (CloseCanceling (clr_JobID request) (job_Version job))
  else set_client s c (CloseDone (Err (ErrNew "workflow: job runtime is detached"))).

(** ** [Start] and [stop] *)
Definition Scheduler_Start (d : scheduler) : result scheduler :=
  reject_if (sd_closed d) (ErrNew "workflow: scheduler is closed") ;;
  Ok (MkScheduler (sd_sequence d) (sd_running d) (sd_cancelReasons d) true (sd_closed d) (sd_wait d)).

(** The region under the lock. *)
Definition Scheduler_stop (d : scheduler) : scheduler :=
  MkScheduler (sd_sequence d) (sd_running d)
    (gset_to_gmap "scheduler_stopped" (sd_running d) ∪ sd_cancelReasons d) (sd_started d) true (sd_wait d).

(** ** Steps *)
Definition room_left (d : scheduler) : Prop := (0 <= sd_sequence d < 2 ^ 64 - 1)%Z.

Inductive sched_step (providers : gset string) : system S M -> system S M -> Prop :=
  | step_start s d : Scheduler_Start (sy_sched s) = Ok d -> sched_step providers s (set_sched s d)
  | step_spawn now request s s' : IsZero now = false -> room_left (sy_sched s) ->
      Spawn providers now s request = Ok s' -> sched_step providers s s'
  | step_worker now o s id w : IsZero now = false -> sy_workers s !! id = Some w ->
      sched_step providers s (advance now o s id w)
  | step_send s c request : sy_clients s !! c = None -> sched_step providers s (set_client s c (Send s request))
  | step_publish now s c request job : room_left (sy_sched s) -> sy_clients s !! c = Some (SendChecked request job) ->
      sched_step providers s (Send_publish now s c request job)
  | step_close s c request : sy_clients s !! c = None -> sched_step providers s (set_client s c (Close s request))
  | step_mark s c request job : sy_clients s !! c = Some (CloseChecked request job) -> sched_step providers s (Close_mark s c request job)
  | step_cancel s c id version : sy_clients s !! c = Some (CloseCanceling id version) ->
      sched_step providers s (set_client (cancel s id) c (CloseWaiting id version))
  | step_closed s c id version store r : sy_clients s !! c = Some (CloseWaiting id version) ->
      store_poll (sy_store s) id version = (store, Ready r) -> sched_step providers s (set_client (set_store s store) c (CloseDone r))
  | step_wait s c id version store n : sy_clients s !! c = Some (CloseWaiting id version) ->
      store_poll (sy_store s) id version = (store, Blocked n) -> sched_step providers s (set_store s store)
  | step_close_ctx s c id version e : sy_clients s !! c = Some (CloseWaiting id version) -> sched_step providers s (set_client s c (CloseDone (Err e)))
  | step_stop s c : sy_clients s !! c = None ->
      sched_step providers s (set_client (set_sched s (Scheduler_stop (sy_sched s))) c (StopCanceling (elements (sd_running (sy_sched s)))))
  | step_stop_cancel s c id ids : sy_clients s !! c = Some (StopCanceling (id :: ids)) ->
      sched_step providers s (set_client (cancel s id) c (StopCanceling ids))
  | step_stop_wait s c : sy_clients s !! c = Some (StopCanceling []) -> sched_step providers s (set_client s c StopWaiting)
  | step_stopped s c : sy_clients s !! c = Some StopWaiting -> sd_wait (sy_sched s) = 0%Z -> sched_step providers s (set_client s c (StopDone (Ok tt)))
  | step_stop_ctx s c e : sy_clients s !! c = Some StopWaiting -> sched_step providers s (set_client s c (StopDone (Err e))).

End Scheduler.

(** ** [WaitTerminal]

    [wait t id after] is the answer of the scheduler to a call at time [t] and
    the time of its return; [None]: still waiting after [fuel] calls. *)
Fixpoint WaitTerminal {T} (fuel : nat) (wait : T -> string -> Z -> T * result Job) (t : T) (id : string) (after : Z)
    : option (T * result Job) :=
  match fuel with
  | O => None
  | S fuel =>
    match wait t id after with
    | (t, Ok job) =>
      if JobStatus_Terminal (job_Status job) then Some (t, Ok job)
      else if Z.leb (job_Version job) after then Some (t, Err (ErrNew "workflow: scheduler returned a non-advancing job version"))
      else WaitTerminal fuel wait t id (job_Version job)
    | (t, r) => Some (t, r)
    end
  end.
