(* ===== verification/WorkflowSchedulerFacts.v ===== *)
(** * The invariant of the scheduler

    Stated on the tables that the job store and the mailbox implement, so that
    it holds for every implementation of the two interfaces. *)

From stdpp Require Import relations pretty.
From S2P Require Import Prelude GoStrings AgentTypes WorkflowStore WorkflowScheduler WorkflowStoreFacts.

(** ** Sums over the workers *)
Definition total (f : phase -> nat) (workers : gmap string worker) : nat :=
  map_fold (fun _ w n => f (wk_phase w) + n) 0 workers.

Lemma total_insert_None f workers id w : workers !! id = None -> total f (<[id := w]> workers) = f (wk_phase w) + total f workers.
Proof. intros H. unfold total. apply (map_fold_insert_L (fun _ w n => f (wk_phase w) + n)); [intros; lia|done]. Qed.

Lemma total_insert_Some f workers id w w' : workers !! id = Some w ->
  total f (<[id := w']> workers) + f (wk_phase w) = total f workers + f (wk_phase w').
Proof.
  intros H. rewrite <-(insert_delete_id workers id w) at 2 by done. rewrite <-insert_delete_eq.
  rewrite !total_insert_None by apply lookup_delete_eq. lia.
Qed.

Lemma total_lookup f workers id w : workers !! id = Some w -> f (wk_phase w) <= total f workers.
Proof. intros H. rewrite <-(insert_delete_id workers id w) by done. rewrite total_insert_None by apply lookup_delete_eq. lia. Qed.

Lemma total_zero f workers : total f workers = 0 <-> map_Forall (fun _ w => f (wk_phase w) = 0) workers.
Proof.
  split.
  - intros H id w Hw. pose proof (total_lookup f workers id w Hw). lia.
  - induction workers as [|id w workers Hid IH] using map_ind; [done|]. intros H. rewrite total_insert_None by done.
    apply map_Forall_insert in H as [-> H]; [|done]. by rewrite IH.
Qed.

(** ** Names *)
Lemma job_name_inj n m : (0 <= n)%Z -> (0 <= m)%Z -> job_name n = job_name m -> n = m.
Proof. unfold job_name. intros Hn Hm Heq. apply (inj (String.append "job-")) in Heq. apply (inj pretty) in Heq. lia. Qed.
Lemma completion_name_inj a b : completion_name a = completion_name b -> a = b.
Proof. unfold completion_name. by intros H%(inj (String.append "completion-")). Qed.

(** ** Phases and jobs *)
Definition of_task (task : Task) (job : Job) : Prop :=
  job_ID job = task_JobID task /\ job_ProviderKey job = task_ProviderKey task /\
  job_Parent job = task_Parent task /\ job_Instruction job = task_Instruction task.

Definition job_at (t : JobTable) (id : string) (task : Task) (status : JobStatus) (version : Z) (job : Job) : Prop :=
  t !! id = Some job /\ of_task task job /\ job_Status job = status /\ job_Version job = version.

Definition ended (t : JobTable) (id : string) (task : Task) (job : Job) : Prop :=
  t !! id = Some job /\ of_task task job /\ JobStatus_Terminal (job_Status job) = true.

(** The terminal updates that [execute] makes. *)
Definition finishes (job : Job) (u : JobUpdate) : Prop :=
  ju_JobID u = job_ID job /\ ju_ExpectedVersion u = job_Version job /\
  match ju_Status u with
  | JobCompleted => ju_ErrorCode u = "" /\ ju_TerminalReason u = ""
  | JobFailed => ju_ErrorCode u ≠ "" /\ ju_TerminalReason u = ""
  | JobCanceled => ju_ErrorCode u = "" /\ ju_TerminalReason u ≠ ""
  | _ => False
  end.

Definition phase_ok (t : JobTable) (id : string) (task : Task) (p : phase) : Prop :=
  match p with
  | Creating job => t !! id = None /\ of_task task job /\ job_Status job = JobQueued /\ job_Version job = 1%Z /\ Job_Validate job = Ok tt
  | Abandoning => False
  | Loading => exists job, job_at t id task JobQueued 1 job
  | Claiming job => job_at t id task JobQueued 1 job
  | Executing job | Explaining job _ => job_at t id task JobRunning 2 job
  | Finishing u => exists job, job_at t id task JobRunning 2 job /\ finishes job u
  | Announcing job => ended t id task job
  | Removing | Leaving | Left => exists job, ended t id task job
  end.

Definition announced_phase (p : phase) : bool := match p with Removing | Leaving | Left => true | _ => false end.
Definition holds_slot (p : phase) : bool := match p with Leaving | Left => false | _ => true end.
Definition counted (p : phase) : nat := match p with Left => 0 | _ => 1 end.

Lemma phase_ok_lookup t t' id task p : t' !! id = t !! id -> phase_ok t id task p -> phase_ok t' id task p.
Proof. unfold phase_ok, job_at, ended. by intros ->. Qed.

(** The message of [job] in a mailbox. *)
Definition announces (job : Job) (m : MailMessage) : Prop :=
  mm_ID m = completion_name (job_ID job) /\ mm_From m = job_address (job_ID job) /\ mm_To m = session_address job /\ mm_Body m = completion_body job.

Definition session_messages (m : MailTable) (sid : string) : list MailMessage := messages_at (mt_messages m) (MkAddress AddressSession sid).

Record mail_ok (t : JobTable) (m : MailTable) (workers : gmap string worker) : Prop := {
  mo_only : forall sid msg, msg ∈ session_messages m sid -> exists id w job,
    workers !! id = Some w /\ announced_phase (wk_phase w) = true /\ t !! id = Some job /\ par_SessionID (job_Parent job) = sid /\ announces job msg;
  mo_once : forall sid, NoDup (mm_ID <$> session_messages m sid);
  mo_all : forall id w job, workers !! id = Some w -> announced_phase (wk_phase w) = true -> t !! id = Some job ->
    exists msg, msg ∈ session_messages m (par_SessionID (job_Parent job)) /\ announces job msg;
}.

Record sched_ok (t : JobTable) (m : MailTable) (d : scheduler) (workers : gmap string worker) : Prop := {
  so_table : wf_table t;
  so_workers : map_Forall (fun id w => task_JobID (wk_task w) = id /\ phase_ok t id (wk_task w) (wk_phase w)) workers;
  so_jobs : forall id, is_Some (t !! id) -> is_Some (workers !! id);
  so_running : forall id, id ∈ sd_running d <-> exists w, workers !! id = Some w /\ holds_slot (wk_phase w) = true;
  so_reasons : dom (sd_cancelReasons d) ⊆ sd_running d;
  so_wait : sd_wait d = Z.of_nat (total counted workers);
  so_names : forall id, is_Some (workers !! id) -> exists n, (1 <= n <= sd_sequence d)%Z /\ id = job_name n;
  so_sequence : (0 <= sd_sequence d < 2 ^ 64)%Z;
  so_mail : mail_ok t m workers;
}.

(** ** Jobs under update *)
Record valid_job (j : Job) : Prop := {
  vj_ID : job_ID j ≠ "";
  vj_ProviderKey : job_ProviderKey j ≠ "";
  vj_Parent : Parent_Valid (job_Parent j) = true;
  vj_Instruction : job_Instruction j ≠ "";
  vj_Status : JobStatus_Valid (job_Status j) = true;
  vj_Version : job_Version j ≠ 0%Z;
  vj_CreatedAt : IsZero (job_CreatedAt j) = false;
  vj_UpdatedAt : IsZero (job_UpdatedAt j) = false;
  vj_ErrorCode : job_ErrorCode j = "" <-> job_Status j ≠ JobFailed;
  vj_TerminalReason : job_TerminalReason j = "" <-> job_Status j ≠ JobCanceled;
}.

Lemma empty_false s : empty s = false <-> s ≠ "".
Proof. unfold empty. apply String.eqb_neq. Qed.
Lemma empty_true s : empty s = true <-> s = "".
Proof. unfold empty. apply String.eqb_eq. Qed.

Lemma Job_Validate_valid j : Job_Validate j = Ok tt <-> valid_job j.
Proof.
  unfold Job_Validate. split.
  - intros H. inv_ok. bool_simpl. rewrite empty_false in *. unfold nonempty in *. split; try done; split.
    + intros Hc Hs. rewrite Hs, Hc in *. done.
    + intros Hs. rewrite bool_decide_eq_false_2 in * by done. simpl in *. bool_simpl. done.
    + intros Hc Hs. rewrite Hs, Hc in *. done.
    + intros Hs. rewrite (bool_decide_eq_false_2 (job_Status j = JobCanceled)) in * by done. simpl in *. bool_simpl. done.
  - intros [V1 V2 V3 V4 V5 V6 V7 V8 V9 V10]. rewrite <-empty_false in V1, V2, V4. apply Z.eqb_neq in V6.
    rewrite V1, V2, V3, V4, V5, V6, V7, V8. simpl. unfold nonempty, empty.
    destruct (decide (job_Status j = JobFailed)) as [E|E]; destruct (String.eqb_spec (job_ErrorCode j) "") as [Ec|Ec];
      try (exfalso; tauto); destruct (decide (job_Status j = JobCanceled)) as [E'|E']; destruct (String.eqb_spec (job_TerminalReason j) "") as [Er|Er];
      try (exfalso; tauto); rewrite ?(bool_decide_eq_true_2 _ E), ?(bool_decide_eq_true_2 _ E'), ?(bool_decide_eq_false_2 _ E), ?(bool_decide_eq_false_2 _ E'); done.
Qed.

Definition outcome_fields (st : JobStatus) (code reason : string) : Prop :=
  match st with
  | JobFailed => code ≠ "" /\ reason = ""
  | JobCanceled => code = "" /\ reason ≠ ""
  | JobStatusOther _ => False
  | _ => code = "" /\ reason = ""
  end.

Definition updated (now : Time) (job : Job) (u : JobUpdate) : Job :=
  MkJob (job_ID job) (job_ProviderKey job) (job_Parent job) (job_Instruction job) (ju_Status u) (job_Version job + 1)
    (ju_Result u) (ju_ErrorCode u) (ju_TerminalReason u) (job_CreatedAt job) now.

Lemma updated_valid now job u :
  valid_job job -> IsZero now = false -> (job_Version job + 1 ≠ 0)%Z ->
  outcome_fields (ju_Status u) (ju_ErrorCode u) (ju_TerminalReason u) -> valid_job (updated now job u).
Proof. intros [] Hnow Hv Hf. split; simpl; try done; destruct (ju_Status u); simpl in *; try done; destruct Hf; split; done. Qed.

Lemma table_Update_ok now t job u :
  t !! job_ID job = Some job -> valid_job job -> IsZero now = false -> (1 <= job_Version job < 2 ^ 64 - 1)%Z ->
  ju_JobID u = job_ID job -> ju_ExpectedVersion u = job_Version job -> validJobTransition (job_Status job) (ju_Status u) = true ->
  outcome_fields (ju_Status u) (ju_ErrorCode u) (ju_TerminalReason u) ->
  table_Update now t u = (<[job_ID job := updated now job u]> t, Ok (updated now job u)).
Proof.
  intros Ht Hv Hnow Hver Hid Hexp Htr Hf. unfold table_Update. rewrite Hid, Hexp.
  rewrite (proj2 (empty_false _) (vj_ID _ Hv)), (proj2 (Z.eqb_neq _ _) (vj_Version _ Hv)).
  assert (JobStatus_Valid (ju_Status u) = true) as -> by (by destruct (ju_Status u)). simpl. rewrite Ht.
  assert (Hupd : updated_job now job u = Ok (Some (updated now job u))); [|by rewrite Hupd].
  unfold updated_job. rewrite Hexp, Z.eqb_refl. simpl. assert (JobStatus_Terminal (job_Status job) = false) as -> by (by destruct (job_Status job)).
  rewrite Htr. simpl. rewrite u64_small by lia. change (MkJob _ _ _ _ _ _ _ _ _ _ _) with (updated now job u).
  rewrite (proj2 (Job_Validate_valid _)); [done|]. apply updated_valid; [done|done|lia|done].
Qed.

Lemma updated_of_task now task job u : of_task task job -> of_task task (updated now job u).
Proof. done. Qed.

Lemma claim_ok now t id task job :
  wf_table t -> task_JobID task = id -> IsZero now = false -> job_at t id task JobQueued 1 job ->
  exists job', table_Update now t (claim job) = (<[id := job']> t, Ok job') /\ job_at (<[id := job']> t) id task JobRunning 2 job'.
Proof.
  intros Ht Hid Hnow (Hj&Htask&Hst&Hver). destruct (Ht _ _ Hj) as [Hjid Hv%Job_Validate_valid]. subst id.
  exists (updated now job (claim job)). rewrite <-Hjid. split.
  - apply table_Update_ok; [by rewrite Hjid|done|done|lia|done|done|by rewrite Hst|done].
  - split_and!; [apply lookup_insert_eq|done|done|simpl; lia].
Qed.

Lemma finish_ok now t id task job u :
  wf_table t -> task_JobID task = id -> IsZero now = false -> job_at t id task JobRunning 2 job -> finishes job u ->
  exists job', table_Update now t u = (<[id := job']> t, Ok job') /\ ended (<[id := job']> t) id task job'.
Proof.
  intros Ht Hid Hnow (Hj&Htask&Hst&Hver) (U1&U2&U3). destruct (Ht _ _ Hj) as [Hjid Hv%Job_Validate_valid]. subst id.
  exists (updated now job u). rewrite <-Hjid. split.
  - apply table_Update_ok; [by rewrite Hjid|done|done|lia|done|done| |]; [rewrite Hst|]; by destruct (ju_Status u).
  - split_and!; [apply lookup_insert_eq|done|]. simpl. by destruct (ju_Status u).
Qed.

Lemma wf_table_update now t u : wf_table t -> wf_table (table_Update now t u).1.
Proof.
  intros Ht. destruct (answer_table t (CallUpdate now u) Ht) as [Hw _]. simpl in Hw. by destruct (table_Update now t u).
Qed.

(** A worker's provider or its cancelation leads to a terminal update. *)
Lemma after_provider_ok t id task job o :
  job_at t id task JobRunning 2 job -> phase_ok t id task (after_provider job o).
Proof.
  intros Hj. unfold after_provider. destruct (executeProvider o) as [r [e|]].
  - destruct (errors_Is e _); simpl; [done|]. exists job. by split_and!.
  - simpl. exists job. by split_and!.
Qed.
Lemma canceled_update_ok d id job r : finishes job (canceled_update d id job r).
Proof. split_and!; [done|done|]. simpl. destruct (empty (cancelReason d id)) eqn:E; [done|]. by apply empty_false in E. Qed.

(** ** Preservation *)
Lemma mail_ok_phase t t' m workers id w p' :
  mail_ok t m workers -> workers !! id = Some w -> (forall i, i ≠ id -> t' !! i = t !! i) ->
  announced_phase p' = announced_phase (wk_phase w) -> (announced_phase p' = true -> t' !! id = t !! id) ->
  mail_ok t' m (<[id := MkWorker (wk_task w) p']> workers).
Proof.
  intros [M1 M2 M3] Hw Ht Hp Hsame. split; [|done|].
  - intros sid msg Hm. destruct (M1 sid msg Hm) as (i&v&job&Hv&Ha&Hj&Hs). destruct (decide (i = id)) as [->|Hne].
    + simplify_eq. exists id, (MkWorker (wk_task w) p'), job. rewrite lookup_insert_eq, Hsame; simpl; rewrite Hp; done.
    + exists i, v, job. by rewrite lookup_insert_ne, Ht.
  - intros i v job [[<- <-]|[Hne Hv]]%lookup_insert_Some Ha Hj; simpl in *.
    + rewrite Hsame in Hj by done. apply (M3 id w job); [done|by rewrite <-Hp|done].
    + apply (M3 i v job); [done|done|]. by rewrite <-Ht.
Qed.

Lemma sched_ok_phase t t' m d workers id w p' :
  sched_ok t m d workers -> workers !! id = Some w -> (forall i, i ≠ id -> t' !! i = t !! i) -> wf_table t' ->
  phase_ok t' id (wk_task w) p' -> announced_phase p' = announced_phase (wk_phase w) -> (announced_phase p' = true -> t' !! id = t !! id) ->
  holds_slot p' = holds_slot (wk_phase w) -> counted p' = counted (wk_phase w) ->
  sched_ok t' m d (<[id := MkWorker (wk_task w) p']> workers).
Proof.
  intros [S1 S2 S3 S4 S5 S6 S7 S8 S9] Hw Ht Hwf Hp Ha Hsame Hh Hc. split; [done| | | |done| | |done|].
  - intros i v [[<- <-]|[Hne Hv]]%lookup_insert_Some; simpl.
    + split; [|done]. by destruct (S2 id w Hw).
    + destruct (S2 i v Hv). split; [done|]. by eapply phase_ok_lookup; [apply Ht|].
  - intros i Hi. destruct (decide (i = id)) as [->|Hne]; [by rewrite lookup_insert_eq; eauto|]. rewrite lookup_insert_ne by done. apply S3. by rewrite <-Ht.
  - intros i. rewrite S4. split; intros (v&Hv&Hs).
    + destruct (decide (i = id)) as [->|Hne]; [|exists v; by rewrite lookup_insert_ne]. simplify_eq. eexists. rewrite lookup_insert_eq. split; [done|]. simpl. by rewrite Hh.
    + apply lookup_insert_Some in Hv as [[<- <-]|[Hne Hv]]; [exists w; split; [done|by rewrite <-Hh]|by exists v].
  - rewrite S6. f_equal. pose proof (total_insert_Some counted workers id w (MkWorker (wk_task w) p') Hw). simpl in *. lia.
  - intros i Hi. apply S7. destruct (decide (i = id)) as [->|Hne]; [by eauto|]. by rewrite lookup_insert_ne in Hi.
  - by apply (mail_ok_phase t).
Qed.

(** The lock region that ends a worker, and the last step. *)
Lemma sched_ok_remove t m d workers id w :
  sched_ok t m d workers -> workers !! id = Some w -> wk_phase w = Removing ->
  sched_ok t m (removeRunning d id) (<[id := MkWorker (wk_task w) Leaving]> workers).
Proof.
  intros Hs Hw Hp. assert (Hphase : phase_ok t id (wk_task w) (wk_phase w)) by (destruct Hs; by eapply so_workers0).
  destruct Hs as [S1 S2 S3 S4 S5 S6 S7 S8 S9]. rewrite Hp in Hphase. split; [done| | | | | | |done|].
  - apply map_Forall_insert_2; [|done]. split; [|done]. by destruct (S2 id w Hw).
  - intros i Hi. destruct (decide (i = id)) as [->|Hne]; [by rewrite lookup_insert_eq; eauto|]. rewrite lookup_insert_ne by done. by apply S3.
  - intros i. simpl. rewrite elem_of_difference, elem_of_singleton, S4. split.
    + intros [(v&Hv&Hs) Hne]. exists v. by rewrite lookup_insert_ne.
    + intros (v&[[<- <-]|[Hne Hv]]%lookup_insert_Some&Hs); [done|]. split; [by exists v|done].
  - simpl. rewrite dom_delete_L. set_solver.
  - simpl. rewrite S6. f_equal. pose proof (total_insert_Some counted workers id w (MkWorker (wk_task w) Leaving) Hw) as Ht. simpl in Ht. rewrite Hp in Ht. simpl in Ht. lia.
  - intros i Hi. apply S7. destruct (decide (i = id)) as [->|Hne]; [by eauto|]. by rewrite lookup_insert_ne in Hi.
  - apply (mail_ok_phase t); [done|done|done|by rewrite Hp|done].
Qed.

Lemma sched_ok_leave t m d workers id w :
  sched_ok t m d workers -> workers !! id = Some w -> wk_phase w = Leaving ->
  sched_ok t m (wait_Done d) (<[id := MkWorker (wk_task w) Left]> workers).
Proof.
  intros Hs Hw Hp. assert (Hphase : phase_ok t id (wk_task w) (wk_phase w)) by (destruct Hs; by eapply so_workers0).
  destruct Hs as [S1 S2 S3 S4 S5 S6 S7 S8 S9]. rewrite Hp in Hphase. split; [done| | | |done| | |done|].
  - apply map_Forall_insert_2; [|done]. split; [|done]. by destruct (S2 id w Hw).
  - intros i Hi. destruct (decide (i = id)) as [->|Hne]; [by rewrite lookup_insert_eq; eauto|]. rewrite lookup_insert_ne by done. by apply S3.
  - intros i. simpl. rewrite S4. split; intros (v&Hv&Hs).
    + exists v. rewrite lookup_insert_ne; [done|]. intros <-. simplify_eq. by rewrite Hp in Hs.
    + apply lookup_insert_Some in Hv as [[<- <-]|[Hne Hv]]; [done|by exists v].
  - simpl. rewrite S6. pose proof (total_insert_Some counted workers id w (MkWorker (wk_task w) Left) Hw) as Ht. rewrite Hp in Ht. cbn [wk_phase counted] in Ht. lia.
  - intros i Hi. apply S7. destruct (decide (i = id)) as [->|Hne]; [by eauto|]. by rewrite lookup_insert_ne in Hi.
  - apply (mail_ok_phase t); [done|done|done|by rewrite Hp|done].
Qed.

(** Publications to a job leave the messages of the sessions alone. *)
Lemma table_Publish_other now m msg a : a ≠ mm_To msg -> messages_at (mt_messages (table_Publish now m msg).1) a = messages_at (mt_messages m) a.
Proof.
  intros Hne. unfold table_Publish. destruct (_ || _); [done|]. destruct (published _ msg); [done|]. simpl.
  unfold messages_at at 1. by rewrite lookup_insert_ne.
Qed.

Lemma sched_ok_send t m d workers now msg :
  sched_ok t m d workers -> room_left d -> addr_Kind (mm_To msg) = AddressJob ->
  sched_ok t (table_Publish now m msg).1
    (MkScheduler (u64 (sd_sequence d + 1)) (sd_running d) (sd_cancelReasons d) (sd_started d) (sd_closed d) (sd_wait d)) workers.
Proof.
  intros [S1 S2 S3 S4 S5 S6 S7 S8 [M1 M2 M3]] Hr Hto. unfold room_left in Hr.
  assert (Heq : forall sid, session_messages (table_Publish now m msg).1 sid = session_messages m sid).
  { intros sid. apply table_Publish_other. intros Hx. by rewrite <-Hx in Hto. }
  split; try done; simpl.
  - rewrite u64_small by lia. intros id Hid. destruct (S7 id Hid) as (n&?&?). exists n. split; [lia|done].
  - rewrite u64_small by lia. lia.
  - split; [intros sid; rewrite Heq; apply M1|intros sid; rewrite Heq; apply M2|intros id w job; rewrite Heq; apply M3].
Qed.

Lemma valid_job_addresses job : valid_job job -> Address_Valid (job_address (job_ID job)) = true /\ Address_Valid (session_address job) = true.
Proof.
  intros [V1 _ V3]. unfold Address_Valid. simpl. unfold nonempty. split; [by rewrite (proj2 (String.eqb_neq _ _) V1)|].
  unfold Parent_Valid in V3. bool_simpl. apply validID_nonempty in H. by rewrite (proj2 (String.eqb_neq _ _) H).
Qed.

Lemma completion_body_nonempty job : JobStatus_Terminal (job_Status job) = true -> empty (completion_body job) = false.
Proof. intros Ht. unfold completion_body. destruct (empty (res_Summary (job_Result job))) eqn:E; [by destruct (job_Status job)|done]. Qed.

Lemma completion_unpublished t m workers id w job :
  mail_ok t m workers -> workers !! id = Some w -> announced_phase (wk_phase w) = false -> wf_table t -> t !! id = Some job ->
  forall sid e, e ∈ session_messages m sid -> mm_ID e ≠ completion_name (job_ID job).
Proof.
  intros [M1 _ _] Hw Ha Ht Hj sid e He Heq. destruct (M1 sid e He) as (i&v&job'&Hv&Hv'&Hj'&_&Hid&_).
  rewrite Hid in Heq. apply completion_name_inj in Heq. destruct (Ht _ _ Hj) as [E1 _], (Ht _ _ Hj') as [E2 _]. 
  assert (i = id) as -> by congruence. simplify_eq. by rewrite Ha in Hv'.
Qed.

Lemma published_None existing m : (forall e, e ∈ existing -> mm_ID e ≠ mm_ID m) -> published existing m = None.
Proof.
  intros H. unfold published. destruct (find _ existing) as [e|] eqn:E; [|done]. apply find_some in E as [Hin Heq].
  apply list_elem_of_In in Hin. apply String.eqb_eq in Heq. by destruct (H e Hin).
Qed.

Lemma announce_publishes now t m workers id w job :
  mail_ok t m workers -> workers !! id = Some w -> announced_phase (wk_phase w) = false -> wf_table t -> t !! id = Some job ->
  JobStatus_Terminal (job_Status job) = true ->
  exists msg, announces job msg /\ (forall a, messages_at (mt_messages (table_Publish now m (completion job)).1) a =
    messages_at (mt_messages m) a ++ (if decide (a = session_address job) then [msg] else [])).
Proof.
  intros Hm Hw Ha Ht Hj Hterm. destruct (Ht _ _ Hj) as [_ Hv%Job_Validate_valid]. destruct (valid_job_addresses job Hv) as [A1 A2].
  unfold table_Publish. cbn [mm_ID mm_From mm_To mm_Body completion]. rewrite A1, A2, (completion_body_nonempty job Hterm). simpl.
  rewrite published_None; [|by eapply completion_unpublished].
  exists (MkMailMessage (completion_name (job_ID job)) (u64 (mt_sequence m + 1)) (job_address (job_ID job)) (session_address job) (completion_body job) now). split; [|intros a; simpl; unfold messages_at at 1].
  - split_and!; reflexivity.
  - destruct (decide (a = session_address job)) as [->|Hne]; [by rewrite lookup_insert_eq|]. by rewrite lookup_insert_ne, app_nil_r.
Qed.

Lemma mail_ok_announce now t m workers id w job :
  mail_ok t m workers -> workers !! id = Some w -> announced_phase (wk_phase w) = false -> wf_table t -> t !! id = Some job ->
  JobStatus_Terminal (job_Status job) = true ->
  mail_ok t (table_Publish now m (completion job)).1 (<[id := MkWorker (wk_task w) Removing]> workers).
Proof.
  intros Hm Hw Ha Ht Hj Hterm. destruct (announce_publishes now t m workers id w job) as (msg&Hmsg&Hat); [done..|].
  pose proof (completion_unpublished t m workers id w job Hm Hw Ha Ht Hj) as Hnew. destruct Hm as [M1 M2 M3].
  assert (Hs : forall sid, session_messages (table_Publish now m (completion job)).1 sid =
    session_messages m sid ++ if decide (sid = par_SessionID (job_Parent job)) then [msg] else []).
  { intros sid. unfold session_messages. rewrite Hat. unfold session_address. f_equal. repeat destruct (decide _); congruence. }
  split.
  - intros sid e. rewrite Hs, elem_of_app. intros [He|He].
    + destruct (M1 sid e He) as (i&v&job'&Hv&Hv'&Hj'&Hsid&Han). exists i, v, job'. rewrite lookup_insert_ne; [done|]. intros <-. simplify_eq. by rewrite Ha in Hv'.
    + destruct (decide _) as [->|]; [|by apply not_elem_of_nil in He]. apply list_elem_of_singleton in He as ->.
      exists id, (MkWorker (wk_task w) Removing), job. by rewrite lookup_insert_eq.
  - intros sid. rewrite Hs. destruct (decide _) as [->|]; [|by rewrite app_nil_r]. rewrite fmap_app. apply NoDup_app. split_and!; [done| |apply NoDup_singleton].
    intros x (e&->&He)%list_elem_of_fmap Hx%list_elem_of_singleton. apply (Hnew _ e He). rewrite Hx. apply Hmsg.
  - intros i v job' [[<- <-]|[Hne Hv]]%lookup_insert_Some Hp Hj'; simpl in *.
    + simplify_eq. exists msg. rewrite Hs, decide_True by done. split; [|done]. apply elem_of_app. right. left.
    + destruct (M3 i v job' Hv Hp Hj') as (e&He&Han). exists e. rewrite Hs. split; [|done]. apply elem_of_app. by left.
Qed.

Lemma sched_ok_sched t m d d' workers :
  sched_ok t m d workers -> sd_sequence d' = sd_sequence d -> sd_running d' = sd_running d -> sd_wait d' = sd_wait d ->
  dom (sd_cancelReasons d') ⊆ sd_running d' -> sched_ok t m d' workers.
Proof. intros [] H1 H2 H3 H4. split; rewrite ?H1, ?H2, ?H3; try done. by rewrite <-H2. Qed.

(** ** Spawning *)
Definition spawned (now : Time) (id : string) (request : SpawnRequest) : Job :=
  MkJob id (sp_ProviderKey request) (sp_Parent request) (sp_Instruction request) JobQueued 1 no_result "" "" now now.
Definition spawned_task (id : string) (request : SpawnRequest) : Task :=
  MkTask id (sp_ProviderKey request) (sp_Parent request) (sp_Instruction request) (sp_Metadata request).

Lemma spawn_valid providers d request now n :
  spawn_check providers d request = Ok tt -> IsZero now = false -> valid_job (spawned now (job_name n) request).
Proof.
  intros H Hnow. unfold spawn_check in H. inv_ok. bool_simpl. rewrite empty_false in *. split; simpl; try done.
Qed.

Lemma fresh_name t m d workers : sched_ok t m d workers -> workers !! job_name (sd_sequence d + 1) = None.
Proof.
  intros Hs. destruct (workers !! _) as [w|] eqn:E; [|done]. exfalso. destruct (so_names _ _ _ _ Hs (job_name (sd_sequence d + 1))) as (n&Hn&Heq); [by eauto|].
  pose proof (so_sequence _ _ _ _ Hs). apply job_name_inj in Heq; lia.
Qed.

Lemma sched_ok_spawn providers t m d workers request now :
  sched_ok t m d workers -> room_left d -> spawn_check providers d request = Ok tt -> IsZero now = false ->
  let id := job_name (sd_sequence d + 1) in
  sched_ok t m (MkScheduler (sd_sequence d + 1) ({[id]} ∪ sd_running d) (sd_cancelReasons d) (sd_started d) (sd_closed d) (sd_wait d + 1))
    (<[id := MkWorker (spawned_task id request) (Creating (spawned now id request))]> workers).
Proof.
  intros Hs Hr Hc Hnow id. pose proof (fresh_name _ _ _ _ Hs) as Hfresh. fold id in Hfresh.
  pose proof (spawn_valid providers d request now (sd_sequence d + 1) Hc Hnow) as Hv. fold id in Hv.
  destruct Hs as [S1 S2 S3 S4 S5 S6 S7 S8 [M1 M2 M3]]. unfold room_left in Hr.
  assert (Hnone : t !! id = None) by (destruct (t !! id) eqn:E; [destruct (S3 id); [by eauto|congruence]|done]).
  split; simpl; [done| | | |set_solver| | |lia|].
  - apply map_Forall_insert_2; [|done]. split; [done|]. split_and!; try done. by apply Job_Validate_valid.
  - intros i Hi. destruct (decide (i = id)) as [->|Hne]; [by rewrite lookup_insert_eq; eauto|]. rewrite lookup_insert_ne by done. by apply S3.
  - intros i. rewrite elem_of_union, elem_of_singleton, S4. split.
    + intros [->|(w&Hw&Hh)]; [eexists; by rewrite lookup_insert_eq|]. exists w. rewrite lookup_insert_ne by congruence. done.
    + intros (w&[[<- <-]|[Hne Hw]]%lookup_insert_Some&Hh); [by left|right; by exists w].
  - rewrite total_insert_None by done. simpl. lia.
  - intros i Hi. destruct (decide (i = id)) as [->|Hne]; [exists (sd_sequence d + 1)%Z; split; [lia|done]|].
    rewrite lookup_insert_ne in Hi by done. destruct (S7 i Hi) as (n&?&?). exists n. split; [lia|done].
  - split; [|done|].
    + intros sid msg Hm. destruct (M1 sid msg Hm) as (i&w&job&Hw&Hx). exists i, w, job. rewrite lookup_insert_ne by congruence. done.
    + intros i w job [[<- <-]|[Hne Hw]]%lookup_insert_Some Ha; [done|by eauto].
Qed.

Lemma sched_ok_new m : (forall sid, session_messages m sid = []) -> sched_ok ∅ m new_scheduler ∅.
Proof.
  intros Hm. split; simpl; [apply map_Forall_empty|apply map_Forall_empty|intros id [x Hx]; by apply lookup_empty_Some in Hx| |set_solver|done| |lia|].
  - intros id. split; [set_solver|]. intros (w&Hw&_). by apply lookup_empty_Some in Hw.
  - intros id [x Hx]. by apply lookup_empty_Some in Hx.
  - split; [intros sid msg; rewrite Hm; by intros ?%not_elem_of_nil|intros sid; rewrite Hm; constructor|intros id w job Hw; by apply lookup_empty_Some in Hw].
Qed.
