(* ===== verification/WorkflowSchedulerProperties.v ===== *)
(** * What the scheduler promises

    For every job store and mailbox that satisfy their interfaces: the jobs
    follow their workers, results are announced exactly once, and the workers
    finish. *)

From stdpp Require Import relations pretty.
From S2P Require Import Prelude GoStrings AgentTypes WorkflowStore WorkflowStoreFacts.
From S2P Require Import WorkflowScheduler WorkflowSchedulerFacts WorkflowStoreFacts.

Section Promises.
Context {S M : Type} `{JobStoreLaws S} `{MailboxLaws M}.
Context (providers : gset string).
Implicit Types s : system S M.

Record system_ok s : Prop := {
  sk_store : store_sound (sy_store s);
  sk_mail : mail_sound (sy_mail s);
  sk_sched : sched_ok (jobs_of (sy_store s)) (mail_of (sy_mail s)) (sy_sched s) (sy_workers s);
}.

(** ** Steps of a worker *)
Lemma advance_creating now o s id w job :
  system_ok s -> sy_workers s !! id = Some w -> wk_phase w = Creating job -> system_ok (advance now o s id w).
Proof.
  intros [Hst Hml Hs] Hw Hp. destruct (so_workers _ _ _ _ Hs id w Hw) as [Htask Hok]. rewrite Hp in Hok.
  destruct Hok as (Hnone&Hof&Hq&Hver&Hv). assert (Hid : job_ID job = id) by (destruct Hof; congruence).
  unfold advance. rewrite Hp. destruct (Create_law (sy_store s) job Hst) as (L1&L2&L3). destruct (store_Create (sy_store s) job) as [store r].
  unfold table_Create in *. simpl in *. rewrite Hv, Hid, Hnone in *. simpl in *. subst r. split; [done|done|]. simpl. rewrite L2.
  apply (sched_ok_phase (jobs_of (sy_store s))); try done.
  - intros i Hne. by rewrite lookup_insert_ne.
  - apply map_Forall_insert_2; [done|apply Hs].
  - exists job. split_and!; [apply lookup_insert_eq|done..].
  - by rewrite Hp.
  - by rewrite Hp.
  - by rewrite Hp.
Qed.

Lemma advance_loading now o s id w :
  system_ok s -> sy_workers s !! id = Some w -> wk_phase w = Loading -> system_ok (advance now o s id w).
Proof.
  intros [Hst Hml Hs] Hw Hp. destruct (so_workers _ _ _ _ Hs id w Hw) as [Htask Hok]. rewrite Hp in Hok. destruct Hok as (job&Hjob).
  unfold advance. rewrite Hp, Get_law by done. unfold table_Get. rewrite Htask. destruct Hjob as (Hj&Hof&Hq&Hver).
  destruct (so_table _ _ _ _ Hs id job Hj) as [Hid Hv%Job_Validate_valid]. rewrite (proj2 (empty_false id)) by (rewrite <-Hid; apply Hv).
  rewrite Hj. split; [done|done|]. simpl. apply (sched_ok_phase (jobs_of (sy_store s))); try done; try by rewrite Hp. apply Hs.
Qed.

Lemma advance_claiming now o s id w job : IsZero now = false ->
  system_ok s -> sy_workers s !! id = Some w -> wk_phase w = Claiming job -> system_ok (advance now o s id w).
Proof.
  intros Hnow [Hst Hml Hs] Hw Hp. destruct (so_workers _ _ _ _ Hs id w Hw) as [Htask Hok]. rewrite Hp in Hok.
  pose proof (wf_table_update now _ (claim job) (so_table _ _ _ _ Hs)) as Hwf.
  destruct (claim_ok now _ id _ job (so_table _ _ _ _ Hs) Htask Hnow Hok) as (job'&Heq&Hjob').
  unfold advance. rewrite Hp. destruct (Update_law now (sy_store s) (claim job) Hst) as (L1&L2&L3).
  destruct (store_Update now (sy_store s) (claim job)) as [store r]. rewrite Heq in *. simpl in *. subst r. split; [done|done|]. simpl. rewrite L2.
  apply (sched_ok_phase (jobs_of (sy_store s))); try done; try by rewrite Hp. intros i Hne. by rewrite lookup_insert_ne.
Qed.

Lemma advance_finishing now o s id w u : IsZero now = false ->
  system_ok s -> sy_workers s !! id = Some w -> wk_phase w = Finishing u -> system_ok (advance now o s id w).
Proof.
  intros Hnow [Hst Hml Hs] Hw Hp. destruct (so_workers _ _ _ _ Hs id w Hw) as [Htask Hok]. rewrite Hp in Hok. destruct Hok as (job&Hjob&Hu).
  pose proof (wf_table_update now _ u (so_table _ _ _ _ Hs)) as Hwf.
  destruct (finish_ok now _ id _ job u (so_table _ _ _ _ Hs) Htask Hnow Hjob Hu) as (job'&Heq&Hjob').
  unfold advance. rewrite Hp. destruct (Update_law now (sy_store s) u Hst) as (L1&L2&L3).
  destruct (store_Update now (sy_store s) u) as [store r]. rewrite Heq in *. simpl in *. subst r. split; [done|done|]. simpl. rewrite L2.
  apply (sched_ok_phase (jobs_of (sy_store s))); try done; try by rewrite Hp. intros i Hne. by rewrite lookup_insert_ne.
Qed.

Lemma advance_announcing now o s id w job :
  system_ok s -> sy_workers s !! id = Some w -> wk_phase w = Announcing job -> system_ok (advance now o s id w).
Proof.
  intros [Hst Hml Hs] Hw Hp. destruct (so_workers _ _ _ _ Hs id w Hw) as [Htask Hok]. rewrite Hp in Hok. destruct Hok as (Hj&Hof&Hterm).
  unfold advance. rewrite Hp. destruct (Publish_law now (sy_mail s) (completion job) Hml) as (L1&L2&_).
  destruct (mail_Publish now (sy_mail s) (completion job)) as [mail r]. simpl in *. split; [done|done|]. simpl. rewrite L2.
  assert (Hmail : mail_ok (jobs_of (sy_store s)) (table_Publish now (mail_of (sy_mail s)) (completion job)).1
    (<[id := MkWorker (wk_task w) Removing]> (sy_workers s))).
  { apply (mail_ok_announce now _ _ _ id w job); try done; [apply Hs|by rewrite Hp|apply Hs]. }
  destruct Hs as [S1 S2 S3 S4 S5 S6 S7 S8 _]. split; [done| | | |done| | |done|exact Hmail].
  - apply map_Forall_insert_2; [|done]. split; [done|]. by exists job.
  - intros i Hi. destruct (decide (i = id)) as [->|Hne]; [by rewrite lookup_insert_eq; eauto|]. rewrite lookup_insert_ne by done. by apply S3.
  - intros i. rewrite S4. split; intros (v&Hv&Hs).
    + destruct (decide (i = id)) as [->|Hne]; [|exists v; by rewrite lookup_insert_ne]. eexists. by rewrite lookup_insert_eq.
    + apply lookup_insert_Some in Hv as [[<- <-]|[Hne Hv]]; [exists w; split; [done|by rewrite Hp]|by exists v].
  - rewrite S6. f_equal. pose proof (total_insert_Some counted _ id w (MkWorker (wk_task w) Removing) Hw) as Ht. rewrite Hp in Ht. cbn [wk_phase counted] in Ht. lia.
  - intros i Hi. apply S7. destruct (decide (i = id)) as [->|Hne]; [by eauto|]. by rewrite lookup_insert_ne in Hi.
Qed.

Lemma advance_ok now o s id w :
  IsZero now = false -> system_ok s -> sy_workers s !! id = Some w -> system_ok (advance now o s id w).
Proof.
  intros Hnow Hok Hw. destruct (so_workers _ _ _ _ (sk_sched _ Hok) id w Hw) as [Htask Hph]. destruct (wk_phase w) as [job| | |job|job|job r|u|job| | |] eqn:Hp.
  - by eapply advance_creating.
  - done.
  - by eapply advance_loading.
  - by eapply advance_claiming.
  - unfold advance. rewrite Hp. destruct Hok as [H1' H2' Hs]. split; [done|done|]. simpl.
    apply (sched_ok_phase (jobs_of (sy_store s))); try done; [apply Hs|by apply after_provider_ok| | |];
      rewrite ?Hp; unfold after_provider; destruct (executeProvider o) as [? [e|]]; simpl; try (destruct (errors_Is e _)); done.
  - unfold advance. rewrite Hp. destruct Hok as [H1' H2' Hs]. split; [done|done|]. simpl.
    apply (sched_ok_phase (jobs_of (sy_store s))); try done; try (by rewrite Hp); [apply Hs|]. exists job. split; [done|apply canceled_update_ok].
  - by eapply advance_finishing.
  - by eapply advance_announcing.
  - unfold advance. rewrite Hp. destruct Hok. split; [done|done|]. by apply sched_ok_remove.
  - unfold advance. rewrite Hp. destruct Hok. split; [done|done|]. by apply sched_ok_leave.
  - unfold advance. by rewrite Hp.
Qed.

(** ** Every step *)
Lemma system_ok_clients s c k : system_ok s -> system_ok (set_client s c k).
Proof. intros []. by split. Qed.
Lemma system_ok_cancel s id : system_ok s -> system_ok (cancel s id).
Proof. intros []. by split. Qed.
Lemma system_ok_poll s id version store r :
  system_ok s -> store_poll (sy_store s) id version = (store, r) -> system_ok (set_store s store).
Proof. intros [Hst Hml Hs] Hp. destruct (poll_law (sy_store s) id version Hst) as (L1&L2&_). rewrite Hp in *. simpl in *. split; [done|done|]. simpl. by rewrite L2. Qed.

Lemma sched_step_ok s s' : system_ok s -> sched_step providers s s' -> system_ok s'.
Proof.
  intros Hok Hstep. destruct Hstep as [s d Hd|now s request s' Hnow Hroom Hsp|now o s id w Hnow Hw|s c request Hc|now s c request job Hroom Hc|s c request Hc
    |s c request job Hc|s c id version Hc|s c id version store r Hc Hp|s c id version store n Hc Hp|s c id version e Hc|s c Hc|s c id ids Hc|s c Hc|s c Hc Hz|s c e Hc];
    try by apply system_ok_clients.
  - unfold Scheduler_Start in Hd. apply bind_Ok in Hd as (?&_&Hd). injection Hd as <-. destruct Hok as [H1' H2' Hs]. split; [done|done|].
    by eapply sched_ok_sched; [exact Hs|done..|apply Hs].
  - unfold Spawn in Hsp. apply bind_Ok in Hsp as ([]&Hck&Hsp). injection Hsp as <-. destruct Hok as [H1' H2' Hs]. split; [done|done|]. simpl.
    unfold room_left in Hroom. rewrite u64_small by lia. by apply (sched_ok_spawn providers).
  - by apply advance_ok.
  - unfold Send_publish. destruct Hok as [H1' H2' Hs].
    match goal with |- context [mail_Publish now (sy_mail s) ?m] => destruct (Publish_law now (sy_mail s) m H2') as (L1&L2&_);
      destruct (mail_Publish now (sy_mail s) m) as [mail r]; pose proof (sched_ok_send _ _ _ _ now m Hs Hroom eq_refl) as Hs' end.
    simpl in *. split; [done|done|]. simpl. by rewrite L2.
  - unfold Close_mark. destruct (bool_decide_reflect (clr_JobID request ∈ sd_running (sy_sched s))) as [Hin|]; [|by apply system_ok_clients].
    destruct Hok as [H1' H2' Hs]. split; [done|done|]. simpl. eapply sched_ok_sched; [exact Hs|done..|]. simpl. rewrite dom_insert_L.
    pose proof (so_reasons _ _ _ _ Hs). set_solver.
  - by apply system_ok_clients, system_ok_cancel.
  - apply system_ok_clients. by eapply system_ok_poll.
  - by eapply system_ok_poll.
  - destruct Hok as [H1' H2' Hs]. split; [done|done|]. simpl. eapply sched_ok_sched; [exact Hs|done..|]. simpl.
    rewrite dom_union_L, dom_gset_to_gmap. pose proof (so_reasons _ _ _ _ Hs). set_solver.
  - by apply system_ok_clients, system_ok_cancel.
Qed.

(** The store has no job and the mailbox no message for a session. *)
Definition sched_init s : Prop :=
  store_sound (sy_store s) /\ mail_sound (sy_mail s) /\ jobs_of (sy_store s) = ∅ /\
  (forall sid, session_messages (mail_of (sy_mail s)) sid = []) /\ sy_sched s = new_scheduler /\ sy_workers s = ∅.
Definition sched_reachable s : Prop := exists s0, sched_init s0 /\ rtc (sched_step providers) s0 s.

Lemma sched_reachable_ok s : sched_reachable s -> system_ok s.
Proof.
  intros (s0&(I1&I2&I3&I4&I5&I6)&Hsteps). assert (Hok : system_ok s0).
  { split; [done|done|]. rewrite I3, I5, I6. by apply sched_ok_new. }
  clear I1 I2 I3 I4 I5 I6. induction Hsteps; eauto using sched_step_ok.
Qed.

(** ** Jobs and announcements *)

(** The status a job has while its worker is in a phase. *)
Definition phase_status (p : phase) (st : JobStatus) : Prop :=
  match p with
  | Creating _ | Abandoning => False
  | Loading | Claiming _ => st = JobQueued
  | Executing _ | Explaining _ _ | Finishing _ => st = JobRunning
  | Announcing _ | Removing | Leaving | Left => JobStatus_Terminal st = true
  end.

Definition completions (m : MailTable) (job : Job) : list MailMessage :=
  List.filter (fun msg => String.eqb (mm_ID msg) (completion_name (job_ID job))) (session_messages m (par_SessionID (job_Parent job))).

Lemma phase_ok_status t id task p job : phase_ok t id task p -> t !! id = Some job -> of_task task job /\ phase_status p (job_Status job).
Proof.
  intros Hp Hj. destruct p; simpl in Hp; unfold job_at, ended in Hp; destruct_and?; try done; try congruence;
    repeat match goal with Hx : exists _, _ |- _ => destruct Hx as (?&?); destruct_and? end; simplify_eq; split; done.
Qed.

Lemma filter_none {A} (f : A -> bool) l : (forall x, x ∈ l -> f x = false) -> List.filter f l = [].
Proof. induction l as [|a l IH]; intros Hf; simpl; [done|]. rewrite (Hf a) by left. apply IH. intros x Hx. apply Hf. by right. Qed.

Lemma filter_once (l : list MailMessage) msg id :
  NoDup (mm_ID <$> l) -> msg ∈ l -> mm_ID msg = id -> List.filter (fun m => String.eqb (mm_ID m) id) l = [msg].
Proof.
  intros Hn Hm <-. induction l as [|a l IH]; simpl; [by apply not_elem_of_nil in Hm|]. apply NoDup_cons in Hn as [Ha Hn].
  apply elem_of_cons in Hm as [->|Hm].
  - rewrite String.eqb_refl. f_equal. apply filter_none. intros x Hx. apply String.eqb_neq. intros Heq. apply Ha. rewrite <-Heq. by apply list_elem_of_fmap_2.
  - rewrite (proj2 (String.eqb_neq _ _)); [by apply IH|]. intros Heq. apply Ha. rewrite Heq. by apply list_elem_of_fmap_2.
Qed.

(** What the completion messages of a job are, given its worker. *)
Definition announced_once (m : MailTable) (w : worker) (job : Job) : Prop :=
  if announced_phase (wk_phase w) then exists msg, announces job msg /\ completions m job = [msg] else completions m job = [].

Lemma system_ok_announced s id w job :
  system_ok s -> sy_workers s !! id = Some w -> jobs_of (sy_store s) !! id = Some job -> announced_once (mail_of (sy_mail s)) w job.
Proof.
  intros [_ _ Hs] Hw Hj. pose proof (so_mail _ _ _ _ Hs) as Hm. unfold announced_once, completions. destruct (announced_phase (wk_phase w)) eqn:Ha.
  - destruct (mo_all _ _ _ Hm id w job Hw Ha Hj) as (msg&Hin&Han). exists msg. split; [done|]. apply filter_once; [apply Hm|done|apply Han].
  - apply filter_none. intros msg Hin. apply String.eqb_neq. eapply completion_unpublished; [exact Hm|done..|apply Hs|done|done].
Qed.

(** C23. In whatever order the calls of the scheduler and its goroutines are
    interleaved: every job in the store is valid and is the job its worker was
    given, its status is the one of the phase of its worker, its result is
    announced to its session exactly once after it ended and never before; the
    running table holds exactly the unfinished workers, cancel reasons exist
    only for them, and the wait group counts them. *)
Theorem jobs_follow_workers s :
  sched_reachable s ->
  (forall id job, jobs_of (sy_store s) !! id = Some job ->
    job_ID job = id /\ Job_Validate job = Ok tt /\
    exists w, sy_workers s !! id = Some w /\ of_task (wk_task w) job /\ phase_status (wk_phase w) (job_Status job) /\
      announced_once (mail_of (sy_mail s)) w job) /\
  (forall id, id ∈ sd_running (sy_sched s) <-> exists w, sy_workers s !! id = Some w /\ holds_slot (wk_phase w) = true) /\
  dom (sd_cancelReasons (sy_sched s)) ⊆ sd_running (sy_sched s) /\
  sd_wait (sy_sched s) = Z.of_nat (total counted (sy_workers s)).
Proof.
  intros Hok%sched_reachable_ok. pose proof (sk_sched _ Hok) as Hs. split_and!; [|apply Hs|apply Hs|apply Hs].
  intros id job Hj. destruct (so_table _ _ _ _ Hs id job Hj) as [Hid Hv]. destruct (so_jobs _ _ _ _ Hs id) as [w Hw]; [by eauto|].
  destruct (so_workers _ _ _ _ Hs id w Hw) as [_ Hp]. destruct (phase_ok_status _ _ _ _ _ Hp Hj). split_and!; [done..|].
  exists w. split_and!; [done..|]. by apply (system_ok_announced s id).
Qed.

(** ** The workers finish *)
Definition remaining (p : phase) : nat :=
  match p with
  | Creating _ => 10 | Loading => 9 | Claiming _ => 8 | Executing _ => 7 | Explaining _ _ => 6 | Finishing _ => 5
  | Announcing _ => 4 | Abandoning => 3 | Removing => 2 | Leaving => 1 | Left => 0
  end.
Definition work s : nat := total remaining (sy_workers s).

Definition worker_step s s' : Prop :=
  exists now o id w, IsZero now = false /\ sy_workers s !! id = Some w /\ wk_phase w ≠ Left /\ s' = advance now o s id w.

Lemma advance_phase now o s id w : wk_phase w ≠ Left ->
  exists p, sy_workers (advance now o s id w) = <[id := MkWorker (wk_task w) p]> (sy_workers s) /\ remaining p < remaining (wk_phase w).
Proof.
  intros Hp. unfold advance, after_provider.
  repeat case_match; try done; eexists; (split; [reflexivity|simpl; lia]).
Qed.

Lemma worker_step_work s s' : worker_step s s' -> work s' < work s.
Proof.
  intros (now&o&id&w&_&Hw&Hp&->). destruct (advance_phase now o s id w Hp) as (p&Heq&Hlt). unfold work. rewrite Heq.
  pose proof (total_insert_Some remaining _ id w (MkWorker (wk_task w) p) Hw). simpl in *. lia.
Qed.

Lemma worker_step_ok s s' : system_ok s -> worker_step s s' -> system_ok s'.
Proof. intros Hok (now&o&id&w&Hnow&Hw&_&->). by apply advance_ok. Qed.

Lemma worker_progress s : (exists s', worker_step s s') \/ map_Forall (fun _ w => wk_phase w = Left) (sy_workers s).
Proof.
  destruct (decide (map_Forall (fun _ w => counted (wk_phase w) = 0) (sy_workers s))) as [Hall|Hnot].
  - right. intros id w Hw. specialize (Hall id w Hw). simpl in Hall. by destruct (wk_phase w).
  - left. apply map_not_Forall in Hnot as (id&w&Hw&Hp); [|apply _]. exists (advance 1 ProviderPanicked s id w), 1%Z, ProviderPanicked, id, w.
    split_and!; [done|done|by intros Heq; rewrite Heq in Hp|done].
Qed.

(** No worker is left. *)
Record drained s : Prop := {
  dr_jobs : forall id job, jobs_of (sy_store s) !! id = Some job -> JobStatus_Terminal (job_Status job) = true /\
    exists msg, announces job msg /\ completions (mail_of (sy_mail s)) job = [msg];
  dr_workers : forall id w, sy_workers s !! id = Some w -> wk_phase w = Left /\ is_Some (jobs_of (sy_store s) !! id);
  dr_running : sd_running (sy_sched s) = ∅;
  dr_reasons : sd_cancelReasons (sy_sched s) = ∅;
  dr_wait : sd_wait (sy_sched s) = 0%Z;
}.

Lemma all_left_drained s : system_ok s -> map_Forall (fun _ w => wk_phase w = Left) (sy_workers s) -> drained s.
Proof.
  intros Hok Hall. pose proof (sk_sched _ Hok) as Hs.
  assert (Hrun : sd_running (sy_sched s) = ∅).
  { apply leibniz_equiv, elem_of_equiv_empty. intros id (w&Hw&Hh)%(so_running _ _ _ _ Hs). by rewrite (Hall id w Hw) in Hh. }
  split.
  - intros id job Hj. destruct (so_jobs _ _ _ _ Hs id) as [w Hw]; [by eauto|]. destruct (so_workers _ _ _ _ Hs id w Hw) as [_ Hp].
    destruct (phase_ok_status _ _ _ _ _ Hp Hj) as [_ Hst]. pose proof (system_ok_announced s id w job Hok Hw Hj) as Han. unfold announced_once in Han.
    rewrite (Hall id w Hw) in *. done.
  - intros id w Hw. split; [by eapply Hall|]. destruct (so_workers _ _ _ _ Hs id w Hw) as [_ Hp]. rewrite (Hall id w Hw) in Hp.
    destruct Hp as (job&Hj&_). by exists job.
  - done.
  - apply dom_empty_inv_L. pose proof (so_reasons _ _ _ _ Hs) as Hsub. rewrite Hrun in Hsub. set_solver.
  - rewrite (so_wait _ _ _ _ Hs). assert (total counted (sy_workers s) = 0) as ->; [|done].
    apply total_zero. intros id w Hw. by rewrite (Hall id w Hw).
Qed.

(** C24. The workers finish: from any reachable state the goroutines can take
    at most [work] more steps, whatever the providers return; they never get
    stuck before they are done; and then every spawned job is in the store, has
    ended, and was announced once, and the scheduler tracks nothing any more,
    so that [stop] returns. *)
Theorem scheduler_drains s :
  sched_reachable s ->
  (forall n s', nsteps worker_step n s s' -> n <= work s) /\
  (forall s', rtc worker_step s s' -> (exists s'', worker_step s' s'') \/ drained s') /\
  (exists s', rtc worker_step s s' /\ drained s').
Proof.
  intros Hok%sched_reachable_ok. split_and!.
  - intros n s' Hn. clear Hok. induction Hn as [|n s1 s2 s3 Hstep Hn IH]; [lia|]. apply worker_step_work in Hstep. lia.
  - intros s' Hsteps. assert (Hok' : system_ok s') by (induction Hsteps; eauto using worker_step_ok).
    destruct (worker_progress s') as [|Hall]; [by left|right]. by apply all_left_drained.
  - remember (work s) as n eqn:Hn. revert s Hn Hok. induction (lt_wf n) as [n _ IH]. intros s -> Hok.
    destruct (worker_progress s) as [[s' Hstep]|Hall]; [|exists s; split; [done|by apply all_left_drained]].
    destruct (IH (work s') (worker_step_work _ _ Hstep) s' eq_refl (worker_step_ok _ _ Hok Hstep)) as (s2&Hs2&Hd).
    exists s2. split; [by eapply rtc_l|done].
Qed.

End Promises.

(** * Following a job to its end

    [WaitTerminal] of [workflow/wait.go] terminates; and one job of the
    reference scheduler over the stores in memory, as a concrete run. *)

#[export] Instance table_evolves_preorder : PreOrder table_evolves.
Proof. split; [intros t id j Hj; by exists j|intros t1 t2 t3; apply table_evolves_trans]. Qed.

(** The tables of a store over time, and a scheduler whose [Wait] returns: its
    answer is what the store says at the time of the return. *)
Record waits (tables : nat -> JobTable) (wait : nat -> string -> Z -> nat * result Job) : Prop := {
  wa_valid : forall t, wf_table (tables t);
  wa_evolves : forall t, table_evolves (tables t) (tables (S t));
  wa_versions : forall t id j, tables t !! id = Some j -> (0 <= job_Version j < 2 ^ 64)%Z;
  wa_wait : forall t id after, t <= (wait t id after).1 /\ table_poll (tables (wait t id after).1) id after = Some (wait t id after).2;
}.

Section Waits.
Context (tables : nat -> JobTable) (wait : nat -> string -> Z -> nat * result Job) (Hwaits : waits tables wait).

Lemma waits_evolves t t' : t <= t' -> table_evolves (tables t) (tables t').
Proof. induction 1; [done|]. etrans; [exact IHle|apply Hwaits]. Qed.

(** One call: a later state of the job, ended or newer than asked for. *)
Lemma waits_answer t id after j :
  tables t !! id = Some j -> exists t' j', wait t id after = (t', Ok j') /\ tables t' !! id = Some j' /\ job_evolves j j' /\
    (JobStatus_Terminal (job_Status j') = false -> (after < job_Version j')%Z).
Proof.
  intros Hj. destruct (wa_wait _ _ Hwaits t id after) as [Hle Hp]. destruct (wait t id after) as [t' r]. simpl in *.
  destruct (waits_evolves t t' Hle id j Hj) as (j'&Hj'&Hev). unfold table_poll in Hp. rewrite Hj' in Hp.
  destruct (Z.ltb_spec after (job_Version j')); simpl in Hp; [|destruct (JobStatus_Terminal (job_Status j')) eqn:Et; [|done]];
    injection Hp as <-; exists t', j'; split_and!; try done. by rewrite Et.
Qed.

Lemma waits_rank t j id : tables t !! id = Some j -> 2 <= rank (job_Status j) -> JobStatus_Terminal (job_Status j) = true.
Proof.
  intros Hj Hr. destruct (wa_valid _ _ Hwaits t id j Hj) as [_ Hv%Job_Validate_valid]. pose proof (vj_Status _ Hv) as Hs.
  destruct (job_Status j); simpl in *; try done; lia.
Qed.

(** A newer version means a later status. *)
Lemma newer_rank t t' id j j' : tables t !! id = Some j -> tables t' !! id = Some j' -> job_evolves j j' ->
  (job_Version j < job_Version j')%Z -> rank (job_Status j) < rank (job_Status j').
Proof.
  intros Hj Hj' [_ _ (k&Hk&Hv&_)] Hlt. destruct k as [|k]; [|lia]. exfalso.
  pose proof (wa_versions _ _ Hwaits _ _ _ Hj). pose proof (wa_versions _ _ Hwaits _ _ _ Hj').
  rewrite Z.add_0_r, !u64_small in Hv by lia. lia.
Qed.

(** [WaitTerminal] returns: with a scheduler whose [Wait] returns, it makes
    at most three calls and then reports the job in its final state, at
    whatever version it was asked to start. *)
Theorem WaitTerminal_terminates t id after j :
  tables t !! id = Some j ->
  exists t' j', WaitTerminal 3 wait t id after = Some (t', Ok j') /\ tables t' !! id = Some j' /\
    JobStatus_Terminal (job_Status j') = true /\ job_identity j' = job_identity j.
Proof.
  intros Hj. cbn [WaitTerminal].
  destruct (waits_answer t id after j Hj) as (t1&j1&->&Hj1&Hev1&Hnew1). destruct (JobStatus_Terminal (job_Status j1)) eqn:Et1.
  { exists t1, j1. split_and!; [done..|apply Hev1]. }
  rewrite (proj2 (Z.leb_gt _ _)) by auto.
  destruct (waits_answer t1 id (job_Version j1) j1 Hj1) as (t2&j2&->&Hj2&Hev2&Hnew2). destruct (JobStatus_Terminal (job_Status j2)) eqn:Et2.
  { exists t2, j2. split_and!; [done..|]. by rewrite (je_identity _ _ Hev2), (je_identity _ _ Hev1). }
  rewrite (proj2 (Z.leb_gt _ _)) by auto. pose proof (newer_rank _ _ _ _ _ Hj1 Hj2 Hev2 (Hnew2 eq_refl)) as Hr2.
  destruct (waits_answer t2 id (job_Version j2) j2 Hj2) as (t3&j3&->&Hj3&Hev3&Hnew3). destruct (JobStatus_Terminal (job_Status j3)) eqn:Et3.
  { exists t3, j3. split_and!; [done..|]. by rewrite (je_identity _ _ Hev3), (je_identity _ _ Hev2), (je_identity _ _ Hev1). }
  pose proof (newer_rank _ _ _ _ _ Hj2 Hj3 Hev3 (Hnew3 eq_refl)) as Hr3. rewrite (waits_rank t3 j3 id Hj3) in Et3; [done|lia].
Qed.
End Waits.

(** ** A job that completes, step by step *)
Definition completed0 : Job := MkJob "job-1" "provider" parent0 "do it" JobCompleted 3 (MkResult "done" []) "" "" 5 7.
Definition complete_update : JobUpdate := MkJobUpdate "job-1" 2 JobCompleted (MkResult "done" []) "" "".
Definition stage (t : nat) : Job := match t with 0 => queued0 | 1 => running0 | _ => completed0 end.
Definition stages (t : nat) : JobTable := {["job-1" := stage t]}.
(** Waits until the stage has an answer. *)
Definition wait_stages (t : nat) (id : string) (after : Z) : nat * result Job :=
  match table_poll (stages t) id after, table_poll (stages (S t)) id after with
  | Some r, _ => (t, r)
  | None, Some r => (S t, r)
  | None, None => (S (S t), Ok completed0)
  end.

Lemma stages_lookup t id j : stages t !! id = Some j -> id = "job-1" /\ j = stage t.
Proof. unfold stages. intros [<- <-]%lookup_singleton_Some. done. Qed.

Lemma stages_evolve t : job_evolves (stage t) (stage (S t)).
Proof.
  destruct t as [|[|t]]; simpl; [| |done].
  - apply (updated_job_evolves 6 queued0 running_update). vm_compute. reflexivity.
  - apply (updated_job_evolves 7 running0 complete_update). vm_compute. reflexivity.
Qed.

Lemma stages_waits : waits stages wait_stages.
Proof.
  split.
  - intros t id j [-> ->]%stages_lookup. by destruct t as [|[|t]]; vm_compute.
  - intros t id j [-> ->]%stages_lookup. exists (stage (S t)). split; [apply lookup_singleton_eq|apply stages_evolve].
  - intros t id j [-> ->]%stages_lookup. destruct t as [|[|t]]; simpl; lia.
  - intros t id after. unfold wait_stages. destruct (table_poll (stages t) id after) as [r|] eqn:E; simpl; [done|].
    destruct (table_poll (stages (S t)) id after) as [r|] eqn:E1; simpl; [split; [lia|done]|]. split; [lia|].
    unfold table_poll, stages in *. destruct (decide (id = "job-1")) as [->|Hne].
    + rewrite lookup_singleton_eq. simpl. by rewrite orb_true_r.
    + rewrite lookup_singleton_ne in E by done. done.
Qed.

Lemma WaitTerminal_terminates_witness : exists t' j', WaitTerminal 3 wait_stages 0 "job-1" 0 = Some (t', Ok j') /\ JobStatus_Terminal (job_Status j') = true.
Proof.
  destruct (WaitTerminal_terminates stages wait_stages stages_waits 0 "job-1" 0 queued0) as (t'&j'&H&_&Ht&_); [reflexivity|].
  exists t', j'. split; [exact H|exact Ht].
Defined.

(** ** The reference scheduler over the stores in memory *)
Definition providers0 : gset string := {["provider"]}.
Definition spawn0 : SpawnRequest := MkSpawnRequest "provider" parent0 "do it" ∅.
Definition memory_system : Type := system MemoryJobStore MemoryMailbox.
Definition system0 : memory_system := MkSystem NewMemoryJobStore NewMemoryMailbox new_scheduler ∅ ∅ ∅.
Definition started0 : scheduler := MkScheduler 0 ∅ ∅ true false 0.
Definition system1 : memory_system := set_sched system0 started0.
Definition system2 : memory_system := match Spawn providers0 5 system1 spawn0 with Ok s => s | _ => system1 end.
(** The worker of the job takes a step. *)
Definition job_step (s : memory_system) : memory_system :=
  match sy_workers s !! "job-1" with
  | Some w => advance 6 (ProviderReturned (MkResult "done" []) None) s "job-1" w
  | None => s
  end.
Definition system8 : memory_system := Nat.iter 6 job_step system2.

Lemma sched_init0 : sched_init system0.
Proof. split_and!; [exact announced_empty|exact announced_empty|reflexivity|reflexivity|reflexivity|reflexivity]. Qed.

Lemma job_step_steps s n : is_Some (sy_workers s !! "job-1") -> rtc (sched_step providers0) s (Nat.iter n job_step s).
Proof.
  intros Hw. assert (Hstep : forall s, is_Some (sy_workers s !! "job-1") ->
    sched_step providers0 s (job_step s) /\ is_Some (sy_workers (job_step s) !! "job-1")).
  { clear. intros s [w Hw]. unfold job_step. rewrite Hw. split; [by apply step_worker|].
    assert (wk_phase w = Left \/ wk_phase w ≠ Left) as [Hl|Hl] by (destruct (wk_phase w); auto); [unfold advance; rewrite Hl; by exists w|].
    destruct (advance_phase 6 (ProviderReturned (MkResult "done" []) None) s "job-1" w Hl) as (p&->&_). eexists. apply lookup_insert_eq. }
  induction n as [|n IH]; simpl; [done|]. enough (is_Some (sy_workers (Nat.iter n job_step s) !! "job-1")) by (eapply rtc_r; [exact IH|by apply Hstep]).
  clear IH. induction n as [|n IH]; simpl; [done|]. by apply Hstep.
Qed.

Lemma system2_reachable : sched_reachable providers0 system2.
Proof.
  exists system0. split; [exact sched_init0|]. eapply rtc_l; [exact (step_start providers0 system0 started0 eq_refl)|].
  eapply rtc_l; [|constructor]. apply (step_spawn providers0 5) with (request := spawn0); [reflexivity|vm_compute; split; [discriminate|reflexivity]|reflexivity].
Qed.
Lemma system8_reachable : sched_reachable providers0 system8.
Proof.
  destruct system2_reachable as (s0&Hinit&Hsteps). exists s0. split; [exact Hinit|]. etrans; [exact Hsteps|].
  apply job_step_steps. eexists. vm_compute. reflexivity.
Qed.

Lemma jobs_follow_workers_witness : exists w, sy_workers system8 !! "job-1" = Some w /\ announced_once (mail_of (sy_mail system8)) w (updated 6 running0 complete_update).
Proof.
  destruct (jobs_follow_workers providers0 system8 system8_reachable) as [H _].
  destruct (H "job-1" (default queued0 (js_jobs (sy_store system8) !! "job-1"))) as (_&_&w&Hw&_&_&Han); [vm_compute; reflexivity|].
  exists w. split; [exact Hw|]. exact Han.
Defined.

Lemma scheduler_drains_witness : exists s', rtc worker_step system2 s' /\ drained s'.
Proof. destruct (scheduler_drains providers0 system2 system2_reachable) as (_&_&H). exact H. Defined.
