(* ===== verification/StandardApplication.v ===== *)
(** * The standard application

    Models [standardagent/application.go], [runtime_module.go],
    [loop_module.go] and [gateway_binding.go]: the modules that the standard
    profile adds to those of a product, and the constructor that resolves the
    components of a product and freezes them into the dependencies of the
    runtime.

    A component is a value of [Components]; what the constructor reads of it
    (its descriptor, its scope, its key) and the values the profile makes
    itself belong to the class [StandardComponents]. *)

From S2P Require Import SessionApply RuntimeRegistry.
From S2P Require Import Prelude GoStrings AgentTypes ModelContracts HookViews ToolDispatcher SessionManager RuntimeRun RuntimeSteps.
From S2P Require Import Slots Dependency Assembly Lifecycle.

(** ** Configuration ([application.go]) *)
Record ContextConfig := MkContextConfig { ctx_HardTokenLimit : Z }.
Record AgentRuntimeConfig := MkRuntimeConfig {
  arc_SystemPrompt : string; arc_ToolKeys : list string; arc_Context : ContextConfig; arc_ContextRetentionMode : string;
  arc_MaxTokensPerRun : Z; arc_MaxModelAttemptsPerRun : Z; arc_MaxToolCallsPerRun : Z; arc_MaxInlineToolResultBytes : Z }.

Definition ContextLatestOnly := "latest_only".
Definition ContextRetainAll := "retain_all".
Definition ContextRetentionMode_Valid (m : string) : bool := String.eqb m ContextLatestOnly || String.eqb m ContextRetainAll.
Definition cloneAgentRuntimeConfig (c : AgentRuntimeConfig) : AgentRuntimeConfig :=
  MkRuntimeConfig (arc_SystemPrompt c) (arc_ToolKeys c) (arc_Context c)
    (if empty (arc_ContextRetentionMode c) then ContextLatestOnly else arc_ContextRetentionMode c)
    (arc_MaxTokensPerRun c) (arc_MaxModelAttemptsPerRun c) (arc_MaxToolCallsPerRun c) (arc_MaxInlineToolResultBytes c).

(** ** Commands ([interaction/contracts.go]) *)
Record Choice := MkChoice { cho_Value : string; cho_Title : string }.
Record FieldDescriptor := MkField {
  fld_Key : string; fld_Title : string; fld_Description : string; fld_Type : string; fld_Required : bool; fld_Choices : list Choice }.
Record CommandDescriptor := MkCommand {
  cmd_Key : string; cmd_Title : string; cmd_Description : string; cmd_Fields : list FieldDescriptor; cmd_Confirmation : bool }.

(** ** What the runtime is made of

    An extension with what was read of it once: [inputGateBinding],
    [completionGateBinding], [toolPreflightBinding], [toolResultHookBinding]
    and [sessionLifecycleBinding].  Gates have no scope. *)
Record binding (V S : Type) := MkBinding { bd_hook : option V; bd_descriptor : ExtensionDescriptor; bd_scope : S }.
Arguments MkBinding {V S}. Arguments bd_hook {V S}. Arguments bd_descriptor {V S}. Arguments bd_scope {V S}.

(** An interface value is [None] when it is nil. *)
Record runtimeDependencies (V : Type) := MkDependencies {
  rd_agentLoop : option V; rd_manager : Manager; rd_store : option V; rd_executor : option V; rd_counter : option V;
  rd_attemptObservers : list (option V); rd_commands : list (string * option V); rd_commandDescriptors : list CommandDescriptor;
  rd_tools : list (string * option V); rd_dispatcher : toolDispatcher; rd_catalogs : list (string * option V);
  rd_config : AgentRuntimeConfig; rd_sources : list (option V); rd_compactor : option V; rd_hooks : list (option V);
  rd_inputGates : list (binding V unit); rd_toolPreflights : list (binding V ToolScope);
  rd_toolResultHooks : list (binding V ToolResultScope); rd_completionGates : list (binding V unit);
  rd_sessionLifecycles : list (binding V LifecycleScope); rd_goalStore : option V; rd_goalEvaluator : option V;
  rd_commitObservers : list (option V); rd_traces : list (option V); rd_metrics : list (option V); rd_audits : list (option V);
  rd_usages : list (option V); rd_workspaceManager : option V }.
Arguments MkDependencies {V}. Arguments rd_agentLoop {V}. Arguments rd_manager {V}. Arguments rd_store {V}. Arguments rd_executor {V}.
Arguments rd_counter {V}. Arguments rd_attemptObservers {V}. Arguments rd_commands {V}. Arguments rd_commandDescriptors {V}.
Arguments rd_tools {V}. Arguments rd_dispatcher {V}. Arguments rd_catalogs {V}. Arguments rd_config {V}. Arguments rd_sources {V}.
Arguments rd_compactor {V}. Arguments rd_hooks {V}. Arguments rd_inputGates {V}. Arguments rd_toolPreflights {V}.
Arguments rd_toolResultHooks {V}. Arguments rd_completionGates {V}. Arguments rd_sessionLifecycles {V}. Arguments rd_goalStore {V}.
Arguments rd_goalEvaluator {V}. Arguments rd_commitObservers {V}. Arguments rd_traces {V}. Arguments rd_metrics {V}.
Arguments rd_audits {V}. Arguments rd_usages {V}. Arguments rd_workspaceManager {V}.

(** The Go types of the slots, what is read of a component while the runtime
    is assembled, and the values the profile contributes: the gateway binding,
    the markers of mounted channels and of their validation, the standard loop
    and the runtime itself.  [bind_channel] is [GatewayChannel.Bind]. *)
Class StandardComponents (C : Components) : Type := {
  tAgentLoop : goType; tSessionStore : goType; tModelExecutor : goType; tTokenCounter : goType; tTool : goType; tModelCatalog : goType;
  tAttemptObserver : goType; tContextSource : goType; tContextCompactor : goType; tAgentHook : goType; tInputGate : goType;
  tToolPreflight : goType; tToolResultHook : goType; tCompletionGate : goType; tSessionLifecycle : goType; tGoalStore : goType;
  tGoalEvaluator : goType; tCommitObserver : goType; tPolicyGuard : goType; tApprovalService : goType; tTraceSink : goType;
  tMetricSink : goType; tAuditSink : goType; tUsageRecorder : goType; tCommand : goType; tWorkspaceManager : goType;
  tGatewayChannel : goType; tGatewayAccess : goType; tApplicationRuntime : goType; tMountedChannel : goType; tChannelValidation : goType;
  as_tool : val -> Tool; as_guard : val -> PolicyGuard; as_approval : val -> ApprovalService;
  Describe : val -> CommandDescriptor; Key : val -> string; Descriptor : val -> ExtensionDescriptor;
  preflight_scope : val -> ToolScope; result_scope : val -> ToolResultScope; lifecycle_scope : val -> LifecycleScope;
  bind_channel : val -> option val -> option error;
  gateway_binding : val; mounted_channel : val; channel_validated : val; standard_loop : val;
  runtime_value : runtimeDependencies val -> val;
}.

(** ** Constructors in direct style

    A constructor that returns at its first error. *)
Section Building.
Context {C : Components}.

Definition building (A : Type) : Type := (A -> ctor) -> ctor.
#[global] Instance building_ret : MRet building := fun A a k => k a.
#[global] Instance building_bind : MBind building := fun A B f m k => m (fun a => f a k).
(** [if err != nil { return nil, err }] *)
Definition returned {A} (r : result A) : building A :=
  fun k => match r with Ok a => k a | Err err => CReturn (Err err) | Panic message => CReturn (Panic message) end.
Definition resolveOne (slot : slotSpec) : building (option val) := fun k => CResolve (QOne slot) (fun r => returned r k).
(** The zero value of an interface is nil. *)
Definition resolveOptionalOne (slot : slotSpec) : building (option val * bool) :=
  fun k => CResolve (QOptionalOne slot) (fun r =>
    returned r (fun found => k (match found with Some v => (v, true) | None => (None, false) end))).
Definition resolveMany (slot : slotSpec) : building (list (string * option val)) := fun k => CResolve (QMany slot) (fun r => returned r k).
Definition resolveChain (slot : slotSpec) : building (list (option val)) := fun k => CResolve (QChain slot) (fun r => returned r k).
Definition constructor (b : building val) : ctor := b (fun v => CReturn (Ok (Some v))).

(** A method called on a nil interface panics. *)
Definition called {A} (v : option val) (method : val -> A) : result A :=
  match v with Some v => Ok (method v) | None => Panic "invalid memory address or nil pointer dereference" end.

End Building.

Section Runtime.
Context {C : Components} {T : StandardComponents C}.

(** ** The slots *)
Definition AgentLoopSlot := SlotSpec "agent.loop" oneKind (Some tAgentLoop).
Definition StoreSlot := SlotSpec "session.store" oneKind (Some tSessionStore).
Definition ExecutorSlot := SlotSpec "model.executor" oneKind (Some tModelExecutor).
Definition TokenCounterSlot := SlotSpec "model.token-counter" oneKind (Some tTokenCounter).
Definition ToolSlot := SlotSpec "tool" manyKind (Some tTool).
Definition CatalogSlot := SlotSpec "model.catalog" manyKind (Some tModelCatalog).
Definition AttemptObserverSlot := SlotSpec "model.attempt.observer" chainKind (Some tAttemptObserver).
Definition SourceSlot := SlotSpec "context.source" chainKind (Some tContextSource).
Definition CompactorSlot := SlotSpec "context.compactor" oneKind (Some tContextCompactor).
Definition HookSlot := SlotSpec "agent.hook" chainKind (Some tAgentHook).
Definition InputGateSlot := SlotSpec "hook.input_gate" chainKind (Some tInputGate).
Definition ToolPreflightSlot := SlotSpec "hook.tool_preflight" chainKind (Some tToolPreflight).
Definition ToolResultHookSlot := SlotSpec "hook.tool_result" chainKind (Some tToolResultHook).
Definition CompletionGateSlot := SlotSpec "hook.completion_gate" chainKind (Some tCompletionGate).
Definition SessionLifecycleSlot := SlotSpec "hook.session_lifecycle" chainKind (Some tSessionLifecycle).
Definition GoalStoreSlot := SlotSpec "goal.store" oneKind (Some tGoalStore).
Definition EvaluatorSlot := SlotSpec "goal.evaluator" oneKind (Some tGoalEvaluator).
Definition CommitObserverSlot := SlotSpec "session.commit.observer" chainKind (Some tCommitObserver).
Definition GuardSlot := SlotSpec "policy.guard" chainKind (Some tPolicyGuard).
Definition ApprovalSlot := SlotSpec "approval.service" oneKind (Some tApprovalService).
Definition TraceSlot := SlotSpec "trace.sink" chainKind (Some tTraceSink).
Definition MetricSlot := SlotSpec "metric.sink" chainKind (Some tMetricSink).
Definition AuditSlot := SlotSpec "audit.sink" chainKind (Some tAuditSink).
Definition UsageSlot := SlotSpec "usage.recorder" chainKind (Some tUsageRecorder).
Definition CommandSlot := SlotSpec "interaction.command" manyKind (Some tCommand).
Definition ManagerSlot := SlotSpec "workspace.manager" oneKind (Some tWorkspaceManager).
Definition ChannelSlot := SlotSpec "gateway.channel" manyKind (Some tGatewayChannel).
Definition gatewayAccessSlot := SlotSpec "standardagent.internal.gateway-access" oneKind (Some tGatewayAccess).
Definition runtimeStateSlot := SlotSpec "standardagent.internal.runtime-state" oneKind (Some tApplicationRuntime).
Definition mountedChannelSlot := SlotSpec "standardagent.internal.mounted-channel" manyKind (Some tMountedChannel).
Definition channelValidationSlot := SlotSpec "standardagent.internal.channel-validation-state" oneKind (Some tChannelValidation).

(** ** The runtime module *)
Definition runtimeModuleID := "standardagent.internal.runtime".
Definition RequiredSlots : list Requirement :=
  [RequireOne AgentLoopSlot; RequireOne StoreSlot; RequireOne ExecutorSlot; RequireOne TokenCounterSlot; OptionalMany ToolSlot;
   OptionalMany CatalogSlot; OptionalChain AttemptObserverSlot; OptionalChain SourceSlot; OptionalOne CompactorSlot; OptionalChain HookSlot;
   OptionalChain InputGateSlot; OptionalChain ToolPreflightSlot; OptionalChain ToolResultHookSlot; OptionalChain CompletionGateSlot;
   OptionalChain SessionLifecycleSlot; OptionalOne GoalStoreSlot; OptionalOne EvaluatorSlot; OptionalChain CommitObserverSlot;
   OptionalChain GuardSlot; OptionalOne ApprovalSlot; OptionalChain TraceSlot; OptionalChain MetricSlot; OptionalChain AuditSlot;
   OptionalChain UsageSlot; OptionalMany CommandSlot; OptionalOne ManagerSlot].

(** The checks with which the constructor begins. *)
Definition check_config (c : AgentRuntimeConfig) : result unit :=
  reject_if (Z.ltb (ctx_HardTokenLimit (arc_Context c)) 0) (ErrNew "standardagent: Context HardTokenLimit cannot be negative") ;;
  reject_if (Z.ltb (arc_MaxTokensPerRun c) 0) (ErrNew "standardagent: MaxTokensPerRun cannot be negative") ;;
  reject_if (Z.ltb (arc_MaxModelAttemptsPerRun c) 0) (ErrNew "standardagent: MaxModelAttemptsPerRun cannot be negative") ;;
  reject_if (Z.ltb (arc_MaxToolCallsPerRun c) 0) (ErrNew "standardagent: MaxToolCallsPerRun cannot be negative") ;;
  reject_if (Z.ltb (arc_MaxInlineToolResultBytes c) 0) (ErrNew "standardagent: MaxInlineToolResultBytes cannot be negative") ;;
  reject_if (negb (ContextRetentionMode_Valid (arc_ContextRetentionMode c)))
    (Errorf "standardagent: invalid ContextRetentionMode %q" [AStr (arc_ContextRetentionMode c)]).

(** The loop over the commands. *)
Fixpoint describe_commands (commands : list (string * option val)) : result (list CommandDescriptor) :=
  match commands with
  | [] => Ok []
  | (key, command) :: commands =>
    descriptor ← called command Describe;
    reject_if (empty (cmd_Key descriptor) || negb (String.eqb (cmd_Key descriptor) key))
      (Errorf "standardagent: interaction command slot key %q does not match descriptor key %q" [AStr key; AStr (cmd_Key descriptor)]) ;;
    descriptors ← describe_commands commands;
    Ok (descriptor :: descriptors)
  end.

Definition tools_by_key (installed : list (string * option val)) : gmap string (string * option val) :=
  foldl (fun byKey named => <[named.1 := named]> byKey) ∅ installed.
Fixpoint select_tools (byKey : gmap string (string * option val)) (seen : gset string) (keys : list string)
    : result (list (string * option val)) :=
  match keys with
  | [] => Ok []
  | key :: keys =>
    reject_if (empty key || bool_decide (key ∈ seen)) (ErrNew "standardagent: ToolKeys must be non-empty and unique") ;;
    match byKey !! key with
    | None => Err (Errorf "standardagent: selected Tool %q is not installed" [AStr key])
    | Some named =>
      selected ← select_tools byKey ({[key]} ∪ seen) keys;
      Ok (named :: selected)
    end
  end.
Definition selectRuntimeTools (installed : list (string * option val)) (keys : list string) : result (list (string * option val)) :=
  match keys with [] => Ok [] | _ => select_tools (tools_by_key installed) ∅ keys end.

(** The loop over the context sources. *)
Fixpoint check_sources (seen : gset string) (sources : list (option val)) : result unit :=
  match sources with
  | [] => Ok tt
  | source :: sources =>
    let bad := ErrNew "standardagent: ContextSource keys must be non-empty and unique" in
    match source with
    | None => Err bad
    | Some v =>
      reject_if (empty (Key v) || bool_decide (Key v ∈ seen)) bad ;;
      check_sources ({[Key v]} ∪ seen) sources
    end
  end.

(** The five loops that freeze the extensions; [scope] reads and validates a
    scope.  [kind] is in the messages. *)
Section Freeze.
Context {S : Type} (kind : string) (scope : val -> result S).
Fixpoint freeze (seen : gset string) (hooks : list (option val)) : result (list (binding val S)) :=
  match hooks with
  | [] => Ok []
  | hook :: hooks =>
    reject_if (isNil hook) (Errorf "standardagent: %s contribution is nil" [AStr kind]) ;;
    descriptor ← called hook Descriptor;
    ExtensionDescriptor_Validate descriptor ;;
    reject_if (bool_decide (ext_Key descriptor ∈ seen))
      (Errorf "standardagent: %s descriptor key %q is duplicated" [AStr kind; AStr (ext_Key descriptor)]) ;;
    read ← called hook scope;
    frozen_scope ← read;
    frozen ← freeze ({[ext_Key descriptor]} ∪ seen) hooks;
    Ok (MkBinding hook descriptor frozen_scope :: frozen)
  end.
End Freeze.
Definition freezeInputGates (hooks : list (option val)) : result (list (binding val unit)) := freeze "InputGate" (fun _ => Ok tt) ∅ hooks.
Definition freezeToolPreflights (hooks : list (option val)) : result (list (binding val ToolScope)) :=
  freeze "ToolPreflight" (fun v => ToolScope_Validate (preflight_scope v) ;; Ok (preflight_scope v)) ∅ hooks.
Definition freezeToolResultHooks (hooks : list (option val)) : result (list (binding val ToolResultScope)) :=
  freeze "ToolResultHook" (fun v => ToolResultScope_Validate (result_scope v) ;; Ok (result_scope v)) ∅ hooks.
Definition freezeCompletionGates (hooks : list (option val)) : result (list (binding val unit)) :=
  freeze "CompletionGate" (fun _ => Ok tt) ∅ hooks.
Definition freezeSessionLifecycles (hooks : list (option val)) : result (list (binding val LifecycleScope)) :=
  freeze "SessionLifecycle" (fun v => LifecycleScope_Validate (lifecycle_scope v) ;; Ok (lifecycle_scope v)) ∅ hooks.

(** The interfaces [Tool], [PolicyGuard] and [ApprovalService] of resolved
    values, which are never nil. *)
Fixpoint named_tools (tools : list (string * option val)) : result (list (string * Tool)) :=
  match tools with
  | [] => Ok []
  | (key, v) :: tools => t ← called v as_tool; rest ← named_tools tools; Ok ((key, t) :: rest)
  end.
Fixpoint policy_guards (guards : list (option val)) : result (list PolicyGuard) :=
  match guards with
  | [] => Ok []
  | v :: guards => g ← called v as_guard; rest ← policy_guards guards; Ok (g :: rest)
  end.
Definition dispatcher_of (tools : list (string * option val)) (guards : list (option val)) (approval : option val) (bytes : Z)
    : result toolDispatcher :=
  tools ← named_tools tools;
  guards ← policy_guards guards;
  newToolDispatcher tools guards (as_approval <$> approval) bytes.

(** The constructor of the runtime; [prefix] is what [session.NewManager] reads
    from the random source. *)
Definition runtime_building (prefix : result string) (config : AgentRuntimeConfig) (defaultModel : Config) : building val :=
  returned (check_config config) ;;
  selectedLoop ← resolveOne AgentLoopSlot;
  store ← resolveOne StoreSlot;
  manager ← returned (NewManager (present store) defaultModel prefix);
  executor ← resolveOne ExecutorSlot;
  counter ← resolveOne TokenCounterSlot;
  attemptObservers ← resolveChain AttemptObserverSlot;
  commands ← resolveMany CommandSlot;
  commandDescriptors ← returned (describe_commands commands);
  tools ← resolveMany ToolSlot;
  selectedTools ← returned (selectRuntimeTools tools (arc_ToolKeys config));
  returned (reject_if (negb (Nat.eqb (length selectedTools) 0) && Z.eqb (arc_MaxInlineToolResultBytes config) 0)
    (ErrNew "standardagent: MaxInlineToolResultBytes must be positive when tools are selected")) ;;
  guards ← resolveChain GuardSlot;
  '(approval, _) ← resolveOptionalOne ApprovalSlot;
  dispatcher ← returned (dispatcher_of selectedTools guards approval (arc_MaxInlineToolResultBytes config));
  catalogs ← resolveMany CatalogSlot;
  sources ← resolveChain SourceSlot;
  returned (check_sources ∅ sources) ;;
  '(compactor, _) ← resolveOptionalOne CompactorSlot;
  hooks ← resolveChain HookSlot;
  inputGates ← resolveChain InputGateSlot;
  frozenInputGates ← returned (freezeInputGates inputGates);
  toolPreflights ← resolveChain ToolPreflightSlot;
  frozenToolPreflights ← returned (freezeToolPreflights toolPreflights);
  toolResultHooks ← resolveChain ToolResultHookSlot;
  frozenToolResultHooks ← returned (freezeToolResultHooks toolResultHooks);
  completionGates ← resolveChain CompletionGateSlot;
  frozenCompletionGates ← returned (freezeCompletionGates completionGates);
  sessionLifecycles ← resolveChain SessionLifecycleSlot;
  frozenSessionLifecycles ← returned (freezeSessionLifecycles sessionLifecycles);
  '(goalStore, hasGoalStore) ← resolveOptionalOne GoalStoreSlot;
  '(goalEvaluator, hasGoalEvaluator) ← resolveOptionalOne EvaluatorSlot;
  returned (reject_if (negb (Bool.eqb hasGoalStore hasGoalEvaluator))
    (ErrNew "standardagent: goal.store and goal.evaluator must be installed together")) ;;
  commitObservers ← resolveChain CommitObserverSlot;
  traces ← resolveChain TraceSlot;
  metrics ← resolveChain MetricSlot;
  audits ← resolveChain AuditSlot;
  usages ← resolveChain UsageSlot;
  '(workspaceManager, _) ← resolveOptionalOne ManagerSlot;
  mret (runtime_value (MkDependencies selectedLoop manager store executor counter attemptObservers commands commandDescriptors
    selectedTools dispatcher catalogs (cloneAgentRuntimeConfig config) sources compactor hooks frozenInputGates frozenToolPreflights
    frozenToolResultHooks frozenCompletionGates frozenSessionLifecycles goalStore goalEvaluator commitObservers traces metrics audits
    usages workspaceManager)).

(** [newRuntimeModule] with its methods *)
Definition runtimeModule_Register (prefix : result string) (config : AgentRuntimeConfig) (defaultModel : Config) : regProg :=
  RegContribute [Some (Set_ gatewayAccessSlot (Some gateway_binding));
                 Some (SetWith runtimeStateSlot (Some (constructor (runtime_building prefix config defaultModel))))] RegReturn.
Definition newRuntimeModule (prefix : result string) (config : AgentRuntimeConfig) (defaultModel : Config) : Module_ :=
  MkModule runtimeModuleID (runtimeModule_Register prefix (cloneAgentRuntimeConfig config) defaultModel) (Some RequiredSlots) true.

(** ** The fallback loop ([loop_module.go]) *)
Definition standardLoopModuleID := "standardagent.loop".
Definition standardLoopModule : Module_ :=
  MkModule standardLoopModuleID (RegContribute [Some (SetDefault AgentLoopSlot (Some standard_loop))] RegReturn) None false.

(** ** Channels ([application.go]) *)
Definition channelValidationID := "standardagent.internal.channel-validation".
Definition validate_channels (channels mounted : list (string * option val)) : result unit :=
  let mountedKeys : gset string := list_to_set mounted.*1 in
  reject_if (negb (Nat.eqb (length channels) (size mountedKeys)))
    (ErrNew "standardagent: every GatewayChannel must be installed with NewGatewayChannelModule") ;;
  forM_ (fun channel => reject_if (negb (bool_decide (channel.1 ∈ mountedKeys)))
    (Errorf "standardagent: GatewayChannel %q was not installed with NewGatewayChannelModule" [AStr channel.1])) channels.
Definition validation_building : building val :=
  channels ← resolveMany ChannelSlot;
  mounted ← resolveMany mountedChannelSlot;
  returned (validate_channels channels mounted) ;;
  mret channel_validated.
Definition channelValidationModule : Module_ :=
  MkModule channelValidationID (RegContribute [Some (SetWith channelValidationSlot (Some (constructor validation_building)))] RegReturn)
    (Some [RequireMany ChannelSlot 1; RequireMany mountedChannelSlot 1]) false.

(** [NewGatewayChannelModule].  [bound] is the flag of the module when the
    constructor runs; [Bind] is a function here, so a second build yields the
    same with the flag and without.  The lifecycle of the wrapper calls that of
    the channel, when it has one. *)
Definition channel_building (key : string) (channel : val) (bound : bool) : building val :=
  if bound then mret channel
  else
    access ← resolveOne gatewayAccessSlot;
    returned (match bind_channel channel access with Some err => Err (ErrWrap err "bind GatewayChannel %q" [AStr key]) | None => Ok tt end) ;;
    mret channel.
Definition gatewayChannelModule_Register (id key : string) (channel : option val) (bound : bool) : regProg :=
  match channel with
  | Some v =>
    if empty id || empty key || isNil channel then RegReturn (Some (Errorf "standardagent: invalid GatewayChannel module %q/%q" [AStr id; AStr key]))
    else RegContribute [Some (Add mountedChannelSlot key (Some mounted_channel));
                        Some (AddWith ChannelSlot key (Some (constructor (channel_building key v bound))))] RegReturn
  | None => RegReturn (Some (Errorf "standardagent: invalid GatewayChannel module %q/%q" [AStr id; AStr key]))
  end.
Definition NewGatewayChannelModule (id key : string) (channel : option val) (bound : bool) : Module_ :=
  MkModule id (gatewayChannelModule_Register id key channel bound) (Some [RequireOne gatewayAccessSlot]) true.

(** ** The application *)
Record ApplicationSpec := MkSpec {
  aps_Name : string; aps_Modules : list (option Module_); aps_Requirements : list Requirement;
  aps_RuntimeConfig : AgentRuntimeConfig; aps_DefaultModelConfig : Config }.
Definition NewApplication (prefix : result string) (spec : ApplicationSpec) : Application :=
  Lifecycle.NewApplication (aps_Name spec)
    (Some (newRuntimeModule prefix (aps_RuntimeConfig spec) (aps_DefaultModelConfig spec)) :: Some standardLoopModule ::
     aps_Modules spec ++ [Some channelValidationModule])
    ([RequireOne AgentLoopSlot; RequireOne StoreSlot; RequireOne ExecutorSlot; RequireOne TokenCounterSlot; RequireMany ChannelSlot 1] ++
     aps_Requirements spec).

(** ** What a Session runtime gets

    [runtimeDependencies.runtimeComponents], as the components of [RuntimeRun]
    and [RuntimeSteps]. *)
Definition descriptors {S} (bindings : list (binding val S)) : list ExtensionDescriptor := bd_descriptor <$> bindings.
Definition scoped {S} (bindings : list (binding val S)) : list (S * ExtensionDescriptor) :=
  (fun b => (bd_scope b, bd_descriptor b)) <$> bindings.
Definition runtimeComponents_of (d : runtimeDependencies val) : runtimeComponents :=
  MkComponents (arc_MaxTokensPerRun (rd_config d)) (arc_MaxModelAttemptsPerRun (rd_config d)) (arc_MaxToolCallsPerRun (rd_config d))
    (descriptors (rd_inputGates d)) (scoped (rd_toolPreflights d)) (scoped (rd_toolResultHooks d))
    (descriptors (rd_completionGates d)) (scoped (rd_sessionLifecycles d)).
Definition source_keys (sources : list (option val)) : list string := omap (fun source => Key <$> source) sources.
Definition stepComponents_of (d : runtimeDependencies val) : stepComponents :=
  MkStepComponents (arc_SystemPrompt (rd_config d)) (ctx_HardTokenLimit (arc_Context (rd_config d)))
    (String.eqb (arc_ContextRetentionMode (rd_config d)) ContextRetainAll) (source_keys (rd_sources d)) (present (rd_compactor d))
    (td_orderedDefinitions (rd_dispatcher d)) (present (rd_goalStore d) && present (rd_goalEvaluator d)) (length (rd_hooks d)).

End Runtime.

(** ** The lifecycle of the runtime module ([runtime_module.go], [runtime.go])
    and the gateway binding ([gateway_binding.go])

    Channels hold the binding from the build on; it has a target while the
    application runs.  The state of the module is whether its constructor has
    run, whether the application runtime is started, and the target. *)
Section Binding.
Context {G : Type} (gateway : G).

Record moduleState := MkModuleState { ms_constructed : bool; ms_started : bool; ms_target : option G }.

Definition access (target : option G) : result G := match target with Some g => Ok g | None => Err notStartedError end.
(** Every method of the binding is this for the method [call] of its target. *)
Definition forwarded {A} (target : option G) (call : G -> result A) : result A := g ← access target; call g.

(** [applicationRuntime.start]; [canceled] is [ctx.Err()]. *)
Definition applicationRuntime_start (canceled : option error) (started : bool) : bool * option error :=
  match canceled with
  | Some err => (started, Some err)
  | None =>
    if started then (true, Some (NewError ErrorConflict "standardagent.start" (plain "application runtime was already started") None))
    else (true, None)
  end.
Definition runtimeModule_Start (canceled : option error) (m : moduleState) : moduleState * option error :=
  if negb (ms_constructed m) then (m, Some (ErrNew "standardagent: runtime state was not constructed"))
  else
    let '(started, err) := applicationRuntime_start canceled (ms_started m) in
    match err with
    | Some err => (MkModuleState true started (ms_target m), Some err)
    | None => (MkModuleState true started (Some gateway), None)
    end.
(** [closed] is what closing the Sessions and the observations returns; the
    calls of [RuntimeRegistry] that run meanwhile no longer reach the gateway. *)
Definition runtimeModule_Stop (closed : option error) (m : moduleState) : moduleState * option error :=
  if negb (ms_constructed m) || negb (ms_started m) then (MkModuleState (ms_constructed m) (ms_started m) None, None)
  else (MkModuleState true false None, closed).

End Binding.
