(* ===== verification/StandardApplicationFacts.v ===== *)
(** * What the standard application is assembled from

    A standard application that builds has a runtime made of exactly the
    components the finished assembly holds, checked and frozen; its tools are
    the ones the configuration lists, its extensions are valid and distinct,
    and every channel was mounted. *)

From S2P Require Import RuntimeRegistry.
From S2P Require Import Prelude GoStrings AgentTypes ModelContracts HookViews ToolDispatcher SessionManager RuntimeRun RuntimeSteps.
From S2P Require Import ToolDispatcherFacts RegistryFacts DefaultsFacts DependencyFacts AssemblyFacts TypeFacts LifecycleFacts.
From S2P Require Import Slots Dependency Assembly Lifecycle StandardApplication.

(** ** Constructors in direct style are strict *)
Create HintDb building.

Section Building.
Context {C : Components}.

Definition strict_building {A} (b : building A) : Prop := forall k, (forall a, strict (k a)) -> strict (b k).

Lemma strict_mret {A} (a : A) : strict_building (mret a).
Proof. intros k Hk. apply Hk. Qed.
Lemma strict_bind {A B} (m : building A) (f : A -> building B) :
  strict_building m -> (forall a, strict_building (f a)) -> strict_building (m ≫= f).
Proof. intros Hm Hf k Hk. apply Hm. intros a. by apply Hf. Qed.
Lemma strict_returned {A} (r : result A) : strict_building (returned r).
Proof. intros k Hk. destruct r; [apply Hk|constructor..]. Qed.
Lemma strict_query {A} q (f : answer q -> result A) :
  (forall a, answered q a = false -> is_ok (f a) = false) -> strict_building (fun k => CResolve q (fun a => returned (f a) k)).
Proof.
  intros Hf k Hk. constructor; [intros a; by apply strict_returned|]. intros a Ha. specialize (Hf a Ha).
  destruct (f a) as [x|e|m]; [done|by exists (Err e)|by exists (Panic m)].
Qed.
Lemma strict_resolveOne slot : strict_building (resolveOne slot).
Proof. by apply (strict_query (QOne slot) (fun r => r)). Qed.
Lemma strict_resolveMany slot : strict_building (resolveMany slot).
Proof. by apply (strict_query (QMany slot) (fun r => r)). Qed.
Lemma strict_resolveChain slot : strict_building (resolveChain slot).
Proof. by apply (strict_query (QChain slot) (fun r => r)). Qed.
Lemma strict_resolveOptionalOne slot : strict_building (resolveOptionalOne slot).
Proof.
  intros k Hk. constructor; [intros a; apply strict_returned; intros [v|]; apply Hk|]. intros [x|e|m] Ha; [done|by exists (Err e)|by exists (Panic m)].
Qed.
Lemma strict_constructor b : strict_building b -> strict (constructor b).
Proof. intros Hb. apply Hb. constructor. Qed.

(** ** What a successful constructor resolved *)
Lemma run_bind {A B} scope (m : building A) (f : A -> building B) k : run_ctor scope ((m ≫= f) k) = run_ctor scope (m (fun a => f a k)).
Proof. done. Qed.
Lemma run_returned {A} scope (r : result A) k v :
  run_ctor scope (returned r k) = Ok v -> exists a, r = Ok a /\ run_ctor scope (k a) = Ok v.
Proof. destruct r; simpl; [eauto|done..]. Qed.
Lemma run_resolveOne scope slot k v :
  run_ctor scope (resolveOne slot k) = Ok v -> exists a, ResolveOne scope slot = Ok a /\ run_ctor scope (k a) = Ok v.
Proof. apply run_returned. Qed.
Lemma run_resolveMany scope slot k v :
  run_ctor scope (resolveMany slot k) = Ok v -> exists a, ResolveMany scope slot = Ok a /\ run_ctor scope (k a) = Ok v.
Proof. apply run_returned. Qed.
Lemma run_resolveChain scope slot k v :
  run_ctor scope (resolveChain slot k) = Ok v -> exists a, ResolveChain scope slot = Ok a /\ run_ctor scope (k a) = Ok v.
Proof. apply run_returned. Qed.
(** The two results of [ResolveOptionalOne]. *)
Definition optional {V} (found : option (option V)) : option V * bool := match found with Some v => (v, true) | None => (None, false) end.
Lemma run_resolveOptionalOne scope slot k v :
  run_ctor scope (resolveOptionalOne slot k) = Ok v ->
  exists a, ResolveOptionalOne scope slot = Ok a /\
    run_ctor scope (k (optional a)) = Ok v.
Proof. apply run_returned. Qed.

(** ** The resolver and the lookups of the finished assembly *)
Definition final_scope (a : Assembly_) (requirements : list Requirement) : option resolverScope :=
  Some (ResolverScope (a_state a) requirements true).

Lemma resolve_final a reqs slot vs :
  resolve (final_scope a reqs) slot "" false = Ok vs ->
  find_record a slot = Ok (byID (a_state a) !! spec_id slot) /\ contributions a slot = vs /\ Forall built vs.
Proof.
  intros H. pose proof (resolve_built _ _ _ _ _ H) as Hb. unfold resolve in H; simpl in H.
  destruct (declaredRequirement reqs slot "" false) as [r|] eqn:Hd; [|done]. inv_ok.
  destruct (find notReady _); [done|]. inv_ok. apply find_some in Hd as [_ Hd].
  apply andb_true_iff in Hd as [Hd _]. apply andb_true_iff in Hd as [Hspec%bool_decide_eq_true Hkey].
  apply Bool.eqb_prop in Hkey. unfold resolveRequirement in *. subst slot.
  match goal with Hr : _ ≫= _ = Ok vs |- _ => apply bind_Ok in Hr as ([]&_&Hr); rename Hr into Hres end.
  unfold contributions. destruct (byID (a_state a) !! spec_id (req_spec r)) as [rec|] eqn:Er.
  - destruct (_ || _) eqn:Ec; [done|]. rewrite Hkey in Hres. destruct (_ <? _)%Z; [done|]. inv_ok. split_and!; [|done..].
    rewrite find_record_ok; [by rewrite Er|]. intros rec' Hrec. rewrite Er in Hrec. injection Hrec as <-. by bool_simpl.
  - destruct (req_optional r); [|done]. inv_ok. split_and!; [|done..].
    rewrite find_record_ok; [by rewrite Er|]. intros rec' Hrec. by rewrite Er in Hrec.
Qed.

Lemma resolvedValue_Ok T v x : resolvedValue T v = Ok x -> exists y, x = Some y /\ assertType T v = Ok y.
Proof.
  unfold resolvedValue, assertType. destruct (rv_value v) as [y|]; [|done]. destruct T as [T|]; [|done].
  destruct (hasType y T); [|done]. intros [= <-]. eauto.
Qed.
Lemma resolvedValues_Ok T vs named :
  resolvedValues T vs = Ok named -> exists values, assertAll T vs = Ok values /\ named = prod_map id Some <$> values.
Proof.
  revert named; induction vs as [|v vs IH]; simpl; intros named H; inv_ok; [by exists []|].
  match goal with Hx : resolvedValue _ _ = Ok _ |- _ => apply resolvedValue_Ok in Hx as (y&->&->) end.
  match goal with Hr : resolvedValues _ _ = Ok _ |- _ => apply IH in Hr as (values&->&->) end.
  by exists ((rv_key v, y) :: values).
Qed.

Lemma ResolveOne_final a reqs slot v :
  ResolveOne (final_scope a reqs) slot = Ok v -> Get a slot = Ok v /\ is_Some v.
Proof.
  unfold ResolveOne. intros H. apply bind_Ok in H as (vs&Hvs&H). apply resolve_final in Hvs as (Hf&Hc&_).
  unfold Get. rewrite Hf. unfold contributions in Hc. destruct (byID _ !! _) as [r|]; simpl; [|by subst vs].
  rewrite Hc. destruct vs as [|w vs]; [done|]. apply resolvedValue_Ok in H as (y&->&->). simpl. eauto.
Qed.
Lemma ResolveOptionalOne_final a reqs slot v :
  ResolveOptionalOne (final_scope a reqs) slot = Ok v -> Get a slot = Ok (mjoin v) /\ (v = None \/ is_Some (mjoin v)).
Proof.
  unfold ResolveOptionalOne. intros H. apply bind_Ok in H as (vs&Hvs&H). apply resolve_final in Hvs as (Hf&Hc&_).
  unfold Get. rewrite Hf. unfold contributions in Hc. destruct (byID _ !! _) as [r|]; simpl.
  2: { subst vs. inv_ok. by split; [|left]. }
  rewrite Hc. destruct vs as [|w vs]; [inv_ok; by split; [|left]|]. inv_ok.
  match goal with Hx : resolvedValue _ _ = Ok _ |- _ => apply resolvedValue_Ok in Hx as (y&->&->) end. simpl. eauto.
Qed.
Lemma ResolveMany_final a reqs slot named :
  ResolveMany (final_scope a reqs) slot = Ok named -> exists values, All a slot = Ok values /\ named = prod_map id Some <$> values.
Proof.
  unfold ResolveMany. intros H. apply bind_Ok in H as (vs&Hvs&H). apply resolve_final in Hvs as (Hf&Hc&_).
  apply resolvedValues_Ok in H as (values&Hvalues&->). exists values. split; [|done].
  unfold All. rewrite Hf. unfold contributions in Hc. destruct (byID _ !! _) as [r|]; simpl; [by rewrite Hc|].
  subst vs. by inv_ok.
Qed.
Lemma ResolveChain_final a reqs slot vs :
  ResolveChain (final_scope a reqs) slot = Ok vs -> exists values, Ordered a slot = Ok values /\ vs = Some <$> values.
Proof.
  intros H. assert (exists named, ResolveMany (final_scope a reqs) slot = Ok named /\ vs = named.*2) as (named&Hn&->).
  { unfold ResolveChain in H. unfold ResolveMany. destruct (resolve _ _ _ _) as [l| |]; simpl in *; [|done..].
    destruct (resolvedValues _ _); simpl in *; [|done..]. injection H as <-. eauto. }
  apply ResolveMany_final in Hn as (values&Hv&->). exists values.*2. unfold Ordered. rewrite Hv; simpl. split; [done|].
  rewrite <-!list_fmap_compose. by apply list_fmap_ext.
Qed.

End Building.
#[export] Hint Resolve strict_mret strict_returned strict_resolveOne strict_resolveMany strict_resolveChain strict_resolveOptionalOne : building.

Ltac strict_steps :=
  repeat match goal with
  | |- strict_building (_ ≫= _) => apply strict_bind; [auto with building|intros ?]
  | |- strict_building (match ?p with _ => _ end) => destruct p
  | |- strict_building _ => solve [auto with building]
  end.

Ltac rewrite_optional := repeat match goal with Hp : optional _ = (_, _) |- _ => rewrite Hp; clear Hp end.

(** Takes a run apart from its first step on. *)
Ltac inv_run H :=
  match type of H with
  | run_ctor _ ((_ ≫= _) _) = _ => rewrite run_bind in H
  | run_ctor _ (returned _ _) = _ => apply run_returned in H as (?&?&H); cbv beta in H
  | run_ctor _ (resolveOne _ _) = _ => apply run_resolveOne in H as (?&?&H); cbv beta in H
  | run_ctor _ (resolveMany _ _) = _ => apply run_resolveMany in H as (?&?&H); cbv beta in H
  | run_ctor _ (resolveChain _ _) = _ => apply run_resolveChain in H as (?&?&H); cbv beta in H
  | run_ctor _ (resolveOptionalOne _ _) = _ => apply run_resolveOptionalOne in H as (?&?&H); cbv beta in H
  end.

Section Runtime.
Context {C : Components} {T : StandardComponents C}.

Lemma strict_runtime prefix config model : strict (constructor (runtime_building prefix config model)).
Proof. apply strict_constructor. unfold runtime_building. strict_steps. Qed.
Lemma strict_validation : strict (constructor validation_building).
Proof. apply strict_constructor. unfold validation_building. strict_steps. Qed.

(** The components of the runtime, as the constructor resolves them. *)
Record resolved_from (scope : option resolverScope) (prefix : result string) (config : AgentRuntimeConfig) (model : Config)
    (d : runtimeDependencies val) : Prop := {
  rf_config : check_config config = Ok tt /\ rd_config d = cloneAgentRuntimeConfig config;
  rf_ones : ResolveOne scope AgentLoopSlot = Ok (rd_agentLoop d) /\ ResolveOne scope StoreSlot = Ok (rd_store d) /\
    ResolveOne scope ExecutorSlot = Ok (rd_executor d) /\ ResolveOne scope TokenCounterSlot = Ok (rd_counter d);
  rf_manager : NewManager (present (rd_store d)) model prefix = Ok (rd_manager d);
  rf_chains : ResolveChain scope AttemptObserverSlot = Ok (rd_attemptObservers d) /\ ResolveChain scope HookSlot = Ok (rd_hooks d) /\
    ResolveChain scope CommitObserverSlot = Ok (rd_commitObservers d) /\ ResolveChain scope TraceSlot = Ok (rd_traces d) /\
    ResolveChain scope MetricSlot = Ok (rd_metrics d) /\ ResolveChain scope AuditSlot = Ok (rd_audits d) /\
    ResolveChain scope UsageSlot = Ok (rd_usages d);
  rf_commands : ResolveMany scope CommandSlot = Ok (rd_commands d) /\ describe_commands (rd_commands d) = Ok (rd_commandDescriptors d);
  rf_catalogs : ResolveMany scope CatalogSlot = Ok (rd_catalogs d);
  rf_tools : exists tools guards approval,
    ResolveMany scope ToolSlot = Ok tools /\ selectRuntimeTools tools (arc_ToolKeys config) = Ok (rd_tools d) /\
    (negb (Nat.eqb (length (rd_tools d)) 0) && Z.eqb (arc_MaxInlineToolResultBytes config) 0) = false /\
    ResolveChain scope GuardSlot = Ok guards /\ ResolveOptionalOne scope ApprovalSlot = Ok approval /\
    dispatcher_of (rd_tools d) guards (optional approval).1 (arc_MaxInlineToolResultBytes config) = Ok (rd_dispatcher d);
  rf_sources : ResolveChain scope SourceSlot = Ok (rd_sources d) /\ check_sources ∅ (rd_sources d) = Ok tt;
  rf_optional : exists compactor manager,
    ResolveOptionalOne scope CompactorSlot = Ok compactor /\ rd_compactor d = (optional compactor).1 /\
    ResolveOptionalOne scope ManagerSlot = Ok manager /\ rd_workspaceManager d = (optional manager).1;
  rf_goals : exists store evaluator,
    ResolveOptionalOne scope GoalStoreSlot = Ok store /\ rd_goalStore d = (optional store).1 /\
    ResolveOptionalOne scope EvaluatorSlot = Ok evaluator /\ rd_goalEvaluator d = (optional evaluator).1 /\
    negb (Bool.eqb (optional store).2 (optional evaluator).2) = false;
  rf_extensions : exists gates preflights results completions lifecycles,
    ResolveChain scope InputGateSlot = Ok gates /\ freezeInputGates gates = Ok (rd_inputGates d) /\
    ResolveChain scope ToolPreflightSlot = Ok preflights /\ freezeToolPreflights preflights = Ok (rd_toolPreflights d) /\
    ResolveChain scope ToolResultHookSlot = Ok results /\ freezeToolResultHooks results = Ok (rd_toolResultHooks d) /\
    ResolveChain scope CompletionGateSlot = Ok completions /\ freezeCompletionGates completions = Ok (rd_completionGates d) /\
    ResolveChain scope SessionLifecycleSlot = Ok lifecycles /\ freezeSessionLifecycles lifecycles = Ok (rd_sessionLifecycles d);
}.

Lemma runtime_resolved scope prefix config model v :
  run_ctor scope (constructor (runtime_building prefix config model)) = Ok v ->
  exists d, v = Some (runtime_value d) /\ resolved_from scope prefix config model d.
Proof.
  unfold constructor, runtime_building. intros H.
  repeat (first [inv_run H | match type of H with context [match ?p with _ => _ end] => destruct p eqn:? end]).
  eexists. split; [by injection H as <-|]. inv_ok.
  split; simpl; split_and?; try done.
  - do 3 eexists. split_and!; [done..|]. by rewrite_optional.
  - do 2 eexists. split_and!; [done|by rewrite_optional|done|by rewrite_optional].
  - do 2 eexists. split_and!; [done|by rewrite_optional|done|by rewrite_optional..].
  - do 5 eexists. by split_and!.
Qed.

(** ** The loops of the constructor *)
Lemma called_Ok {A} (v : option val) (f : val -> A) a : called v f = Ok a -> exists x, v = Some x /\ a = f x.
Proof. destruct v as [x|]; [|done]. intros [= <-]. eauto. Qed.

Lemma describe_commands_Ok commands ds :
  describe_commands commands = Ok ds ->
  Forall2 (fun c d => exists x, c.2 = Some x /\ d = Describe x /\ cmd_Key d = c.1 /\ c.1 ≠ "") commands ds.
Proof.
  revert ds; induction commands as [|[key command] commands IH]; simpl; intros ds H; inv_ok; [constructor|].
  match goal with Hc : called _ _ = Ok _ |- _ => apply called_Ok in Hc as (v&->&->) end. bool_simpl.
  constructor; [|by apply IH]. exists v. simpl. split_and!; [done..|]. intros ->. unfold empty in *. by bool_simpl.
Qed.

Lemma tools_by_key_lookup installed key named : tools_by_key installed !! key = Some named -> named ∈ installed /\ named.1 = key.
Proof.
  assert (forall acc : gmap string (string * option val), foldl (fun byKey named => <[named.1 := named]> byKey) acc installed !! key = Some named ->
    acc !! key = Some named \/ named ∈ installed /\ named.1 = key) as Hgen.
  { induction installed as [|n installed IH]; simpl; intros acc H; [by left|]. apply IH in H as [H|[H1 H2]]; [|right; split; [by right|done]].
    destruct (decide (n.1 = key)) as [<-|Hne]; [rewrite lookup_insert_eq in H|rewrite lookup_insert_ne in H by done; by left].
    injection H as ->. right. split; [left|done]. }
  intros H. destruct (Hgen ∅ H) as [Hno|]; [by rewrite lookup_empty in Hno|done].
Qed.

Lemma select_tools_Ok installed seen keys tools :
  select_tools (tools_by_key installed) seen keys = Ok tools ->
  tools.*1 = keys /\ NoDup keys /\ Forall (fun key => key ≠ "" /\ key ∉ seen) keys /\ Forall (.∈ installed) tools.
Proof.
  revert seen tools; induction keys as [|key keys IH]; simpl; intros seen tools H; inv_ok; [by repeat constructor|].
  destruct (tools_by_key installed !! key) as [named|] eqn:Ek; [|done]. apply tools_by_key_lookup in Ek as [Hin Hkey]. inv_ok.
  match goal with Hs : select_tools _ _ _ = Ok _ |- _ => apply IH in Hs as (Hk&Hnd&Hall&Hin') end.
  unfold empty in *. bool_simpl. csimpl. rewrite Hk. split_and!; [done| | |by constructor].
  - constructor; [|done]. intros Hi. rewrite Forall_forall in Hall. apply Hall in Hi. set_solver.
  - constructor; [by split|]. eapply Forall_impl; [exact Hall|]. intros k [? ?]. set_solver.
Qed.

Lemma selectRuntimeTools_Ok installed keys tools :
  selectRuntimeTools installed keys = Ok tools ->
  tools.*1 = keys /\ NoDup keys /\ "" ∉ keys /\ Forall (.∈ installed) tools.
Proof.
  unfold selectRuntimeTools. intros H. assert (select_tools (tools_by_key installed) ∅ keys = Ok tools) as Hs by by destruct keys.
  apply select_tools_Ok in Hs as (?&?&Hall&?). split_and!; [done..| |done]. intros Hin. by eapply Forall_forall in Hall as [? _].
Qed.

Lemma check_sources_Ok seen sources :
  check_sources seen sources = Ok tt ->
  Forall is_Some sources /\ NoDup (source_keys sources) /\ Forall (fun key => key ≠ "" /\ key ∉ seen) (source_keys sources).
Proof.
  revert seen; induction sources as [|source sources IH]; simpl; intros seen H; [by repeat constructor|].
  destruct source as [v|]; [|done]. inv_ok. unfold empty in *. bool_simpl.
  match goal with Hs : check_sources _ _ = Ok _ |- _ => apply IH in Hs as (Hsome&Hnd&Hall) end. simpl. split_and!.
  - by constructor.
  - constructor; [|done]. intros Hi. rewrite Forall_forall in Hall. apply Hall in Hi. set_solver.
  - constructor; [by split|]. eapply Forall_impl; [exact Hall|]. intros k [? ?]. set_solver.
Qed.

(** What a frozen extension remembers of the hook it was read from. *)
Definition frozen_binding {S} (scope : val -> result S) (hook : option val) (b : binding val S) : Prop :=
  exists v, hook = Some v /\ reflectIsNil v = false /\ bd_hook b = hook /\ bd_descriptor b = Descriptor v /\ scope v = Ok (bd_scope b) /\
    ExtensionDescriptor_Validate (bd_descriptor b) = Ok tt.

Lemma freeze_seen {S} kind (scope : val -> result S) seen hooks bs :
  freeze kind scope seen hooks = Ok bs ->
  Forall2 (frozen_binding scope) hooks bs /\ NoDup (ext_Key <$> descriptors bs) /\ Forall (.∉ seen) (ext_Key <$> descriptors bs).
Proof.
  revert seen bs; induction hooks as [|hook hooks IH]; simpl; intros seen bs H; inv_ok; [by repeat constructor|].
  match goal with Hc : called hook Descriptor = Ok _ |- _ => apply called_Ok in Hc as (v&->&->) end.
  match goal with Hc : called (Some v) scope = Ok _ |- _ => injection Hc as Hscope end.
  bool_simpl. match goal with Hs : freeze _ _ _ _ = Ok _ |- _ => apply IH in Hs as (Hf&Hnd&Hall) end. csimpl. split_and!.
  - constructor; [|done]. by exists v.
  - constructor; [|done]. intros Hi. rewrite Forall_forall in Hall. apply Hall in Hi. set_solver.
  - constructor; [done|]. eapply Forall_impl; [exact Hall|]. intros k ?. set_solver.
Qed.

Lemma check_config_Ok c :
  check_config c = Ok tt ->
  (0 <= ctx_HardTokenLimit (arc_Context c) /\ 0 <= arc_MaxTokensPerRun c /\ 0 <= arc_MaxModelAttemptsPerRun c /\
   0 <= arc_MaxToolCallsPerRun c /\ 0 <= arc_MaxInlineToolResultBytes c)%Z /\
  (arc_ContextRetentionMode c = ContextLatestOnly \/ arc_ContextRetentionMode c = ContextRetainAll).
Proof.
  unfold check_config, ContextRetentionMode_Valid. intros H. inv_ok. bool_simpl. split; [lia|].
  match goal with Ho : _ || _ = true |- _ => apply orb_true_iff in Ho as [Ho|Ho]; apply String.eqb_eq in Ho end; auto.
Qed.

(** ** The dispatcher *)
Lemma named_tools_Ok tools ts :
  named_tools tools = Ok ts -> Forall2 (fun n t => t.1 = n.1 /\ exists v, n.2 = Some v /\ t.2 = as_tool v) tools ts.
Proof.
  revert ts; induction tools as [|[key v] tools IH]; simpl; intros ts H; inv_ok; [constructor|].
  match goal with Hc : called _ _ = Ok _ |- _ => apply called_Ok in Hc as (w&->&->) end.
  constructor; [simpl; eauto|by apply IH].
Qed.
Lemma policy_guards_Ok guards gs : policy_guards guards = Ok gs -> Forall2 (fun v g => exists x, v = Some x /\ g = as_guard x) guards gs.
Proof.
  revert gs; induction guards as [|v guards IH]; simpl; intros gs H; inv_ok; [constructor|].
  match goal with Hc : called _ _ = Ok _ |- _ => apply called_Ok in Hc as (w&->&->) end. constructor; [eauto|by apply IH].
Qed.

Lemma newToolDispatcher_definitions installed guards approval bytes d :
  newToolDispatcher installed guards approval bytes = Ok d ->
  td_orderedDefinitions d = (fun n => tool_Definition n.2) <$> merge_sort key_le installed /\
  Forall (fun n => ToolDefinition_Validate (tool_Definition n.2) = Ok tt /\ def_Name (tool_Definition n.2) = n.1) installed.
Proof.
  unfold newToolDispatcher. intros H. apply (foldM_invariant _
    (fun done d => td_orderedDefinitions d = (fun n => tool_Definition n.2) <$> done /\
      Forall (fun n => ToolDefinition_Validate (tool_Definition n.2) = Ok tt /\ def_Name (tool_Definition n.2) = n.1) done)) in H; [| |done].
  - destruct H as [Hd Hall]. split; [done|]. rewrite Forall_forall in Hall |- *. intros n Hn. apply Hall. by rewrite merge_sort_Permutation.
  - intros done n d1 d2 [Hd Hall] H1. unfold install_tool in H1. inv_ok. bool_simpl. simpl. rewrite Hd, fmap_app. split; [done|].
    apply Forall_app. split; [done|]. by apply Forall_singleton.
Qed.

(** ** Channels *)
Lemma validate_channels_Ok (channels mounted : list (string * option val)) :
  validate_channels channels mounted = Ok tt -> NoDup channels.*1 -> NoDup mounted.*1 -> channels.*1 ≡ₚ mounted.*1.
Proof.
  unfold validate_channels. intros H Hc Hm. inv_ok. bool_simpl.
  match goal with Hl : Nat.eqb _ _ = true |- _ => apply Nat.eqb_eq in Hl; rename Hl into Hlen end.
  rewrite size_list_to_set in Hlen by done.
  apply submseteq_length_Permutation; [apply NoDup_submseteq; [done|]|rewrite !length_fmap in *; lia].
  intros key (channel&->&Hin)%list_elem_of_fmap.
  match goal with Hf : forM_ _ _ = Ok _ |- _ => pose proof (proj1 (forM__Ok _ _ _) Hf channel Hin) as Hok end.
  apply reject_if_Ok, negb_false_iff, bool_decide_eq_true in Hok. by apply elem_of_list_to_set in Hok.
Qed.

End Runtime.

(** ** From a module to the finished assembly *)
Section Mounted.
Context {C : Components}.

(** The registry has the contribution [data] of [owner]. *)
Definition holds (s : registryState) (owner : string) (data : contributionData) : Prop :=
  exists r v, byID s !! spec_id (cd_spec data) = Some r /\ v ∈ rec_values r /\
    spec_kind (rec_spec r) = spec_kind (cd_spec data) /\ spec_valueType (rec_spec r) = spec_valueType (cd_spec data) /\
    rv_owner v = owner /\ rv_constructor v = cd_constructor data /\ rv_defaulted v = cd_defaulted data.

Lemma holds_extends o s s' owner data : extends o s s' -> holds s owner data -> holds s' owner data.
Proof.
  intros Hext (r&v&Hr&Hv&Hrest). specialize (Hext (spec_id (cd_spec data))). rewrite Hr in Hext.
  destruct (byID s' !! _) as [r'|] eqn:Er; [|done]. destruct Hext as (new&_&->). exists (SlotRecord (rec_spec r) (rec_values r ++ new)), v.
  split; [done|]. split; [|done]. simpl. apply elem_of_app. by left.
Qed.

Lemma apply_holds owner s data s' : apply owner s (Some data) = (s', None) -> holds s' owner data.
Proof.
  intros (d&record&[= <-]&->&Hk&Ht&_&_&_&_&->)%apply_success. eexists _, (new_value owner s data). simpl.
  split; [by rewrite lookup_insert_eq|]. simpl. split; [apply elem_of_app; right; left|done].
Qed.

Lemma apply_all_holds owner cs s s' data : apply_all owner s cs = (s', None) -> Some data ∈ cs -> holds s' owner data.
Proof.
  revert s; induction cs as [|c cs IH]; simpl; intros s H Hin; [by apply not_elem_of_nil in Hin|].
  destruct (apply owner s c) as [s1 [e|]] eqn:E; [done|]. apply elem_of_cons in Hin as [<-|Hin]; [|by eapply IH].
  apply apply_all_registered in H as [_ Hext]. eapply holds_extends; [done|]. by eapply apply_holds.
Qed.

Lemma Install_holds b m cs b' data :
  mod_Register m = RegContribute cs RegReturn -> Install b (Some m) = (b', None) -> Some data ∈ cs -> holds (b_state b') (mod_ID m) data.
Proof.
  intros Hm H Hin. unfold Install in H. destruct (negb _); [done|]. destruct (b_frozen b); [done|]. destruct (existsb _ _); [done|].
  rewrite Hm in H. simpl in H. unfold Contribute in H; simpl in H.
  destruct (apply_all _ _ _) as [s [e|]] eqn:E; simpl in H; [done|]. injection H as <-; simpl. by eapply apply_all_holds.
Qed.

Lemma mount_holds ms n b n' b' m cs data :
  mount ms n b = (n', b', None) -> Some m ∈ ms -> mod_Register m = RegContribute cs RegReturn -> Some data ∈ cs ->
  holds (b_state b') (mod_ID m) data.
Proof.
  intros H Hin Hm Hd. revert n b H; induction ms as [|m0 ms IH]; simpl; intros n b H; [by apply not_elem_of_nil in Hin|].
  destruct (Install b m0) as [b1 [e|]] eqn:E; [done|].
  apply elem_of_cons in Hin as [<-|Hin]; [|by eapply IH].
  assert (Hkeep : forall ms n b1, mount ms n b1 = (n', b', None) -> holds (b_state b1) (mod_ID m) data -> holds (b_state b') (mod_ID m) data).
  { clear. induction ms as [|m1 ms IH]; simpl; intros n b1 H Hh; [by injection H as _ <-|].
    destruct (Install b1 m1) as [b2 [e|]] eqn:E; [done|]. destruct m1 as [m1|]; [|done]. apply (IH _ _ H).
    apply Install_success in E as (_&_&_&[_ Hext]&_). by eapply holds_extends. }
  eapply Hkeep; [done|]. by eapply Install_holds.
Qed.

Lemma selected_holds b s owner data :
  wf_builder b -> resolveDefaultContributions (b_state b) = Ok s -> cd_defaulted data = false ->
  holds (b_state b) owner data -> holds s owner data.
Proof.
  intros Hb Hs Hd (r&v&Hr&Hv&Hrest). pose proof (resolveDefaultContributions_spec _ (wb_registry _ Hb)) as H. rewrite Hs in H.
  destruct H as (_&Hsel&_). exists (select_record r), v. split; [by rewrite Hsel, Hr|]. split; [|done].
  simpl. apply elem_of_lfilter. split; [done|]. unfold displaced. destruct Hrest as (_&_&_&_&->). by rewrite Hd.
Qed.

(** The value of a OneSlot whose constructor is explicit and strict. *)
Lemma built_contribution b requirements a owner slot c :
  wf_builder b -> build_assembly b requirements = Ok a -> spec_kind slot = oneKind -> strict c ->
  holds (b_state b) owner (SetWith slot (Some c)) ->
  exists reqs value, is_Some value /\ run_ctor (final_scope a reqs) c = Ok value /\
    forall v T, value = Some v -> spec_valueType slot = Some T -> hasType v T = true -> Get a slot = Ok value.
Proof.
  intros Hb Ha Hkind Hc Hh. pose proof (build_assembly_wf _ _ _ Hb Ha) as Hwf.
  assert (exists s, resolveDefaultContributions (b_state b) = Ok s) as [s Hs] by (destruct (wa_modules _ _ _ Hwf) as (s&Hs&_); eauto).
  destruct (selected_holds b s owner (SetWith slot (Some c)) Hb Hs eq_refl Hh) as (r&v&Hr&[i Hi]%list_elem_of_lookup&Hk&Ht&Ho&Hcon&_). simpl in *.
  assert (Hv : target_value s (Target (spec_id slot) i 0) = Some v) by (unfold target_value; simpl; by rewrite Hr).
  destruct (build_constructed b requirements a s _ i v c Hb Ha Hs Hv Hcon Hc) as (m&value&_&_&Hv'&Hn&Hrun).
  exists (im_requirements m), value. destruct value as [x|]; [|done]. split; [done|]. split; [done|]. intros ? T [= <-] HT Hx.
  apply bind_Some in Hv' as (r'&Hr'&Hi'). simpl in *.
  assert (Hspec : rec_spec r' = rec_spec r).
  { destruct (wa_modules _ _ _ Hwf) as (s0&Hs0&[_ Hsh]&_). rewrite Hs in Hs0. injection Hs0 as <-. specialize (Hsh (spec_id slot)).
    rewrite Hr, Hr' in Hsh. by inversion Hsh as [? ? [? _]|]. }
  unfold Get. rewrite find_record_ok by (intros r2 Hr2; rewrite Hr' in Hr2; injection Hr2 as <-; by rewrite Hspec).
  rewrite Hr'; simpl. destruct (wa_slots _ _ _ Hwf _ _ Hr') as [Hone _]. rewrite Hspec, Hk in Hone. specialize (Hone Hkind).
  destruct (rec_values r') as [|w [|]]; simpl in *; [done| |lia]. destruct i; [|done]. injection Hi' as ->.
  unfold assertType; simpl. by rewrite HT, Hx.
Qed.

(** A build of a fresh application. *)
Lemma Application_Build_fresh name ms reqs app a :
  Application_Build (Lifecycle.NewApplication name ms reqs) = (app, Ok a) ->
  exists n b, mount ms 0 NewBuilder = (n, b, None) /\ reachable b /\ build_assembly b reqs = Ok a.
Proof.
  unfold Application_Build; simpl. destruct (negb _); [done|]. rewrite drop_0.
  destruct (mount ms 0 NewBuilder) as [[n b] [e|]] eqn:E; [done|]. intros H.
  pose proof (mount_spec _ _ _ _ _ _ E reachable_new) as [Hb _]. exists n, b. split; [done|]. split; [done|].
  unfold Build in H. destruct (build_assembly b reqs); [by injection H as _ ->|done..].
Qed.

End Mounted.

(** ** The assembled runtime *)
Section Assembled.
Context {C : Components} {T : StandardComponents C}.

(** What the assembly holds in a chain and under the keys of a slot. *)
Definition chain_of (a : Assembly_) (slot : slotSpec) (vs : list (option val)) : Prop :=
  exists values, Ordered a slot = Ok values /\ vs = Some <$> values.
Definition many_of (a : Assembly_) (slot : slotSpec) (named : list (string * option val)) : Prop :=
  exists values, All a slot = Ok values /\ named = prod_map id Some <$> values.
(** Every extension of the slot, in order, valid and with a key of its own. *)
Definition frozen_from {S} (a : Assembly_) (slot : slotSpec) (scope : val -> result S) (bs : list (binding val S)) : Prop :=
  exists hooks, chain_of a slot hooks /\ Forall2 (frozen_binding scope) hooks bs /\ NoDup (ext_Key <$> descriptors bs).
Definition valid_scope {S} (read : val -> S) (check : S -> result unit) (v : val) : result S := check (read v) ;; Ok (read v).

(** The dependencies [d] are the components of the assembly [a]. *)
Record assembled (spec : ApplicationSpec) (a : Assembly_) (d : runtimeDependencies val) : Prop := {
  am_config : rd_config d = cloneAgentRuntimeConfig (aps_RuntimeConfig spec) /\
    mg_defaultConfig (rd_manager d) = aps_DefaultModelConfig spec /\ Config_Validate (aps_DefaultModelConfig spec) = Ok tt;
  am_required : Get a AgentLoopSlot = Ok (rd_agentLoop d) /\ Get a StoreSlot = Ok (rd_store d) /\
    Get a ExecutorSlot = Ok (rd_executor d) /\ Get a TokenCounterSlot = Ok (rd_counter d) /\
    is_Some (rd_agentLoop d) /\ is_Some (rd_store d) /\ is_Some (rd_executor d) /\ is_Some (rd_counter d);
  am_optional : Get a CompactorSlot = Ok (rd_compactor d) /\ Get a ManagerSlot = Ok (rd_workspaceManager d) /\
    Get a GoalStoreSlot = Ok (rd_goalStore d) /\ Get a EvaluatorSlot = Ok (rd_goalEvaluator d) /\
    present (rd_goalStore d) = present (rd_goalEvaluator d);
  am_chains : chain_of a AttemptObserverSlot (rd_attemptObservers d) /\ chain_of a HookSlot (rd_hooks d) /\
    chain_of a CommitObserverSlot (rd_commitObservers d) /\ chain_of a TraceSlot (rd_traces d) /\ chain_of a MetricSlot (rd_metrics d) /\
    chain_of a AuditSlot (rd_audits d) /\ chain_of a UsageSlot (rd_usages d) /\ chain_of a SourceSlot (rd_sources d);
  am_commands : many_of a CommandSlot (rd_commands d) /\ many_of a CatalogSlot (rd_catalogs d) /\
    Forall2 (fun c descriptor => exists x, c.2 = Some x /\ descriptor = Describe x /\ cmd_Key descriptor = c.1 /\ c.1 ≠ "")
      (rd_commands d) (rd_commandDescriptors d);
  am_tools : exists tools, many_of a ToolSlot tools /\ Forall (.∈ tools) (rd_tools d) /\
    (rd_tools d).*1 = arc_ToolKeys (aps_RuntimeConfig spec) /\ NoDup (arc_ToolKeys (aps_RuntimeConfig spec)) /\
    (rd_tools d = [] \/ (0 < arc_MaxInlineToolResultBytes (rd_config d))%Z);
  am_dispatcher : exists ts guards gs approval,
    Forall2 (fun n t => t.1 = n.1 /\ exists v, n.2 = Some v /\ t.2 = as_tool v) (rd_tools d) ts /\
    chain_of a GuardSlot guards /\ Forall2 (fun v g => exists x, v = Some x /\ g = as_guard x) guards gs /\ Get a ApprovalSlot = Ok approval /\
    newToolDispatcher ts gs (as_approval <$> approval) (arc_MaxInlineToolResultBytes (rd_config d)) = Ok (rd_dispatcher d);
  am_extensions : frozen_from a InputGateSlot (fun _ => Ok tt) (rd_inputGates d) /\
    frozen_from a ToolPreflightSlot (valid_scope preflight_scope ToolScope_Validate) (rd_toolPreflights d) /\
    frozen_from a ToolResultHookSlot (valid_scope result_scope ToolResultScope_Validate) (rd_toolResultHooks d) /\
    frozen_from a CompletionGateSlot (fun _ => Ok tt) (rd_completionGates d) /\
    frozen_from a SessionLifecycleSlot (valid_scope lifecycle_scope LifecycleScope_Validate) (rd_sessionLifecycles d);
}.

(** What a Session runtime relies on: limits that are not negative, valid and
    distinct extensions, distinct sources, and the tools of the allowlist. *)
Definition valid_extension (d : ExtensionDescriptor) : Prop := ExtensionDescriptor_Validate d = Ok tt.
Record ready (config : AgentRuntimeConfig) (rc : runtimeComponents) (sc : stepComponents) : Prop := {
  rdy_limits : (0 <= rc_MaxTokensPerRun rc /\ 0 <= rc_MaxModelAttemptsPerRun rc /\ 0 <= rc_MaxToolCallsPerRun rc /\ 0 <= sc_HardTokenLimit sc)%Z;
  rdy_gates : Forall valid_extension (rc_inputGates rc) /\ NoDup (ext_Key <$> rc_inputGates rc) /\
    Forall valid_extension (rc_completionGates rc) /\ NoDup (ext_Key <$> rc_completionGates rc);
  rdy_preflights : Forall (fun b => ToolScope_Validate b.1 = Ok tt /\ valid_extension b.2) (rc_toolPreflights rc) /\
    NoDup (ext_Key <$> (rc_toolPreflights rc).*2);
  rdy_results : Forall (fun b => ToolResultScope_Validate b.1 = Ok tt /\ valid_extension b.2) (rc_toolResultHooks rc) /\
    NoDup (ext_Key <$> (rc_toolResultHooks rc).*2);
  rdy_lifecycles : Forall (fun b => LifecycleScope_Validate b.1 = Ok tt /\ valid_extension b.2) (rc_sessionLifecycles rc) /\
    NoDup (ext_Key <$> (rc_sessionLifecycles rc).*2);
  rdy_sources : NoDup (sc_sources sc) /\ "" ∉ sc_sources sc;
  rdy_tools : def_Name <$> sc_definitions sc ≡ₚ arc_ToolKeys config /\ Forall (fun t => ToolDefinition_Validate t = Ok tt) (sc_definitions sc);
}.

Lemma cloneAgentRuntimeConfig_idemp c : cloneAgentRuntimeConfig (cloneAgentRuntimeConfig c) = cloneAgentRuntimeConfig c.
Proof. destruct c as [? ? ? mode]. unfold cloneAgentRuntimeConfig; simpl. by destruct (empty mode) eqn:E; simpl; rewrite ?E. Qed.

Lemma optional_mjoin {V} (o : option (option V)) : (optional o).1 = mjoin o.
Proof. by destruct o as [[]|]. Qed.
Lemma optional_present {V} (o : option (option V)) : o = None \/ is_Some (mjoin o) -> (optional o).2 = present (mjoin o).
Proof. intros [->|[x H]]; [done|]. by destruct o as [[]|]. Qed.

Lemma frozen_final {S} a reqs slot kind (scope : val -> result S) hooks bs :
  ResolveChain (final_scope a reqs) slot = Ok hooks -> freeze kind scope ∅ hooks = Ok bs -> frozen_from a slot scope bs.
Proof. intros Hh%ResolveChain_final Hf. apply freeze_seen in Hf as (H1&H2&_). by exists hooks. Qed.

Lemma resolved_assembled a reqs prefix spec d :
  resolved_from (final_scope a reqs) prefix (cloneAgentRuntimeConfig (aps_RuntimeConfig spec)) (aps_DefaultModelConfig spec) d ->
  assembled spec a d.
Proof.
  intros [[Hc Hcfg] (H1&H2&H3&H4) Hm (C1&C2&C3&C4&C5&C6&C7) [Hcmd Hdesc] Hcat (tools&guards&approval&Ht&Hsel&Hmax&Hg&Hap&Hdis)
    [Hsrc _] (comp&ws&Hcomp&Ec&Hws&Ew) (gs&ge&Hgs&Egs&Hge&Ege&Hboth) (xg&xp&xr&xc&xl&G1&G2&G3&G4&G5&G6&G7&G8&G9&G10)].
  apply ResolveOne_final in H1 as [? ?], H2 as [? ?], H3 as [? ?], H4 as [? ?].
  apply ResolveOptionalOne_final in Hcomp as [? _], Hws as [? _], Hgs as [? Sgs], Hge as [? Sge], Hap as [Hap _].
  rewrite optional_mjoin in Ec, Ew, Egs, Ege. rewrite cloneAgentRuntimeConfig_idemp in Hcfg.
  apply selectRuntimeTools_Ok in Hsel as (Hkeys&Hnd&_&Hin). split.
  - split; [done|]. unfold NewManager in Hm. inv_ok. by match goal with Hv : Config_Validate _ = Ok _, Hx : _ = rd_manager d |- _ => rewrite <-Hx end.
  - done.
  - rewrite Ec, Ew, Egs, Ege. split_and!; [done..|]. rewrite (optional_present gs), (optional_present ge) in Hboth by done.
    by apply negb_false_iff, Bool.eqb_prop in Hboth.
  - split_and!; by eapply ResolveChain_final.
  - split_and!; [by eapply ResolveMany_final..|by apply describe_commands_Ok].
  - exists tools. split_and!; [by eapply ResolveMany_final|done..|]. apply andb_false_iff in Hmax.
    apply check_config_Ok in Hc as [Hlim _]. rewrite Hcfg. destruct Hmax as [Hmax|Hmax]; [left|right; bool_simpl; lia].
    apply negb_false_iff, Nat.eqb_eq, nil_length_inv in Hmax. done.
  - unfold dispatcher_of in Hdis. rewrite optional_mjoin in Hdis. inv_ok. rewrite Hcfg. do 4 eexists.
    split_and!; [by apply named_tools_Ok|by eapply ResolveChain_final|by apply policy_guards_Ok|done|done].
  - split_and!; by eapply frozen_final.
Qed.

Lemma frozen_valid {S} (scope : val -> result S) hooks bs :
  Forall2 (frozen_binding scope) hooks bs -> Forall valid_extension (descriptors bs).
Proof. induction 1 as [|h b hooks bs (v&_&_&_&_&_&Hv) _ IH]; [constructor|]. by constructor. Qed.
Lemma frozen_scoped {S} (read : val -> S) check hooks bs :
  Forall2 (frozen_binding (valid_scope read check)) hooks bs -> Forall (fun b => check b.1 = Ok tt /\ valid_extension b.2) (scoped bs).
Proof.
  induction 1 as [|h b hooks bs (v&_&_&_&_&Hs&Hv) _ IH]; [constructor|]. constructor; [|done]. split; [|done].
  unfold valid_scope in Hs. simpl. inv_ok. congruence.
Qed.
Lemma scoped_descriptors {S} (bs : list (binding val S)) : (scoped bs).*2 = descriptors bs.
Proof. unfold scoped, descriptors. rewrite <-list_fmap_compose. by apply list_fmap_ext. Qed.

Lemma dispatcher_definitions tools guards approval bytes d :
  dispatcher_of tools guards approval bytes = Ok d ->
  def_Name <$> td_orderedDefinitions d ≡ₚ tools.*1 /\ Forall (fun t => ToolDefinition_Validate t = Ok tt) (td_orderedDefinitions d).
Proof.
  unfold dispatcher_of. intros H. inv_ok.
  match goal with Ht : named_tools _ = Ok ?ts |- _ => apply named_tools_Ok in Ht; rename ts into named, Ht into Htools end.
  match goal with Hd : newToolDispatcher _ _ _ _ = Ok _ |- _ => apply newToolDispatcher_definitions in Hd as [-> Hall] end.
  assert (Hkeys : named.*1 = tools.*1).
  { clear Hall. induction Htools as [|n t tools named [Hk _] _ IH]; csimpl; [done|by rewrite Hk, IH]. }
  rewrite merge_sort_Permutation, <-Hkeys, <-list_fmap_compose. rewrite Forall_forall in Hall. split.
  - erewrite list_fmap_ext; [reflexivity|]. intros ? n Hn%list_elem_of_lookup_2. by apply Hall.
  - apply Forall_forall. intros t Ht. apply list_elem_of_fmap in Ht as (n&->&Hn). by apply Hall.
Qed.

Lemma resolved_ready scope prefix config model d :
  resolved_from scope prefix (cloneAgentRuntimeConfig config) model d -> ready config (runtimeComponents_of d) (stepComponents_of d).
Proof.
  intros [[Hc Hcfg] _ _ _ _ _ (tools&guards&approval&_&Hsel&_&_&_&Hdis) [_ Hsrc] _ _ (xg&xp&xr&xc&xl&_&G2&_&G4&_&G6&_&G8&_&G10)].
  apply freeze_seen in G2 as (F2&N2&_), G4 as (F4&N4&_), G6 as (F6&N6&_), G8 as (F8&N8&_), G10 as (F10&N10&_).
  apply check_config_Ok in Hc as [Hlim _]. apply check_sources_Ok in Hsrc as (_&Hnd&Hall).
  apply selectRuntimeTools_Ok in Hsel as (Hkeys&_). apply dispatcher_definitions in Hdis as [Hnames Hvalid].
  split; simpl; rewrite ?Hcfg, ?scoped_descriptors; simpl.
  - tauto.
  - split_and!; [by eapply frozen_valid|done|by eapply frozen_valid|done].
  - split; [by eapply frozen_scoped|done].
  - split; [by eapply frozen_scoped|done].
  - split; [by eapply frozen_scoped|done].
  - split; [done|]. intros Hin. by eapply Forall_forall in Hall as [? _].
  - by rewrite Hnames, Hkeys.
Qed.

Lemma assertAll_keys T' vs named : assertAll T' vs = Ok named -> named.*1 = rv_key <$> vs.
Proof.
  revert named; induction vs as [|v vs IH]; simpl; intros named H; inv_ok; [done|]. csimpl. f_equal. by apply IH.
Qed.
Lemma All_NoDup b requirements a slot named :
  wf_assembly b requirements a -> spec_kind slot = manyKind -> All a slot = Ok named -> NoDup named.*1.
Proof.
  intros Hwf Hk H. unfold All, find_record in H. destruct (byID (a_state a) !! spec_id slot) as [r|] eqn:Er; simpl in H; [|inv_ok; constructor].
  destruct (_ || _) eqn:Ec; [done|]. simpl in H. bool_simpl. apply assertAll_keys in H as ->.
  destruct (wa_slots _ _ _ Hwf _ _ Er) as [_ Hmany]. apply Hmany. congruence.
Qed.
Lemma All_required b requirements a slot named :
  wf_assembly b requirements a -> RequireMany slot 1 ∈ requirements -> All a slot = Ok named -> named ≠ [].
Proof.
  intros Hwf Hreq%(wa_profile _ _ _ Hwf) H ->. unfold All, find_record in H. unfold resolveRequirement in Hreq; simpl in Hreq.
  destruct (validateRequirement _); [|done..]. simpl in Hreq.
  destruct (byID (a_state a) !! spec_id slot) as [r|] eqn:Er; simpl in *; [|done].
  destruct (_ || _); [done|]. simpl in H. apply assertAll_keys in H. destruct (rec_values r); simpl in *; done.
Qed.

Lemma validation_resolved a reqs v :
  run_ctor (final_scope a reqs) (constructor validation_building) = Ok v ->
  exists channels mounted, All a ChannelSlot = Ok channels /\ All a mountedChannelSlot = Ok mounted /\
    validate_channels (prod_map id Some <$> channels) (prod_map id Some <$> mounted) = Ok tt.
Proof.
  unfold constructor, validation_building. intros H. repeat inv_run H.
  repeat match goal with Hr : ResolveMany _ _ = Ok _ |- _ => apply ResolveMany_final in Hr as (?&?&->) end.
  match goal with u : unit |- _ => destruct u end. eauto 6.
Qed.
Lemma keys_some {V} (named : list (string * V)) : (prod_map id Some <$> named).*1 = named.*1.
Proof. rewrite <-list_fmap_compose. by apply list_fmap_ext. Qed.

(** C8: a standard application that builds.  Its runtime is made of exactly the
    components that the finished assembly holds: the required ones are present,
    the optional ones are those of their slots, a goal store comes with an
    evaluator, and the extensions are frozen in order.  The runtime is ready to
    run Sessions: its limits are not negative, its extensions and scopes are
    valid and have keys of their own, and it offers the tools of the allowlist
    and no other.  Every channel, and there is one, was installed by
    [NewGatewayChannelModule]. *)
Theorem standard_application (prefix : result string) (spec : ApplicationSpec) (app : Application) (a : Assembly_)
    (runtime_typed : forall d, hasType (runtime_value d) tApplicationRuntime = true)
    (Hbuild : Application_Build (NewApplication prefix spec) = (app, Ok a)) :
  (exists d, Get a runtimeStateSlot = Ok (Some (runtime_value d)) /\ assembled spec a d /\
    ready (aps_RuntimeConfig spec) (runtimeComponents_of d) (stepComponents_of d)) /\
  (exists channels mounted, All a ChannelSlot = Ok channels /\ All a mountedChannelSlot = Ok mounted /\
    channels ≠ [] /\ channels.*1 ≡ₚ mounted.*1).
Proof.
  apply Application_Build_fresh in Hbuild as (n&b&Hmount&Hreach&Hassembly). pose proof (reachable_wf _ Hreach) as Hb.
  pose proof (build_assembly_wf _ _ _ Hb Hassembly) as Hwf. split.
  - assert (Hh : holds (b_state b) runtimeModuleID (SetWith runtimeStateSlot (Some (constructor
      (runtime_building prefix (cloneAgentRuntimeConfig (aps_RuntimeConfig spec)) (aps_DefaultModelConfig spec)))))).
    { eapply (mount_holds _ _ _ _ _ (newRuntimeModule prefix (aps_RuntimeConfig spec) (aps_DefaultModelConfig spec)));
        [exact Hmount|left|done|right; left]. }
    destruct (built_contribution _ _ _ _ runtimeStateSlot _ Hb Hassembly eq_refl (strict_runtime _ _ _) Hh) as (reqs&value&_&Hrun&Hget).
    apply runtime_resolved in Hrun as (d&->&Hd). exists d. split_and!; [by eapply Hget|by eapply resolved_assembled|by eapply resolved_ready].
  - assert (Hh : holds (b_state b) channelValidationID (SetWith channelValidationSlot (Some (constructor validation_building)))).
    { eapply (mount_holds _ _ _ _ _ channelValidationModule); [exact Hmount|set_solver|done|left]. }
    destruct (built_contribution _ _ _ _ channelValidationSlot _ Hb Hassembly eq_refl strict_validation Hh) as (reqs&value&_&Hrun&_).
    apply validation_resolved in Hrun as (channels&mounted&Hc&Hm&Hv). exists channels, mounted.
    split_and!; [done|done|eapply All_required; [done|do 4 right; left|done]|].
    apply validate_channels_Ok in Hv; rewrite ?keys_some in *; [done|..];
      by (eapply All_NoDup; [exact Hwf| |first [exact Hc|exact Hm]]).
Qed.

End Assembled.

(** ** The runtime module between builds and stops *)
Section ModuleLifecycle.
Context {G : Type} (gateway : G).

Inductive module_op := ConstructRuntime | StartRuntime (canceled : option error) | StopRuntime (closed : option error).
Definition module_step (m : @moduleState G) (op : module_op) : @moduleState G :=
  match op with
  | ConstructRuntime => MkModuleState true (ms_started m) (ms_target m)
  | StartRuntime canceled => (runtimeModule_Start gateway canceled m).1
  | StopRuntime closed => (runtimeModule_Stop closed m).1
  end.

(** The binding has a target exactly while the application is started, so a
    channel never reaches an application that is not, or no longer, running. *)
Lemma binding_follows_application ops :
  let m := foldl module_step (MkModuleState false false None) ops in
  ms_target m = (if ms_started m then Some gateway else None) /\
  forall A (call : G -> result A), forwarded (ms_target m) call = if ms_started m then call gateway else Err notStartedError.
Proof.
  intros m. assert (Hinv : ms_target m = (if ms_started m then Some gateway else None) /\ (ms_started m = true -> ms_constructed m = true)).
  { unfold m. induction ops as [|op ops IH] using rev_ind; [done|]. rewrite foldl_app; simpl.
    destruct (foldl module_step _ ops) as [built started target]; simpl in *. destruct IH as [-> Hc].
    destruct op as [|[e|]|c], built, started; simpl; split; auto; by specialize (Hc eq_refl). }
  destruct Hinv as [-> _]. split; [done|]. intros A call. by destruct (ms_started m).
Qed.

End ModuleLifecycle.

(** ** A product *)
Module StandardSample.

Inductive component :=
  | Plain (T : string)
  | ToolComponent (t : Tool)
  | Gate (d : ExtensionDescriptor)
  | RuntimeComponent (d : runtimeDependencies component).
Definition type_of (c : component) : string :=
  match c with Plain T => T | ToolComponent _ => "Tool" | Gate _ => "InputGate" | RuntimeComponent _ => "applicationRuntime" end.
#[export] Instance sample_components : Components := {|
  goType := string; typeString := fun T => T; val := component; reflectIsNil := fun _ => false;
  hasType := fun c T => String.eqb (type_of c) T |}.
#[export] Instance sample_standard : StandardComponents sample_components := {|
  tAgentLoop := "AgentLoop"; tSessionStore := "SessionStore"; tModelExecutor := "ModelExecutor"; tTokenCounter := "TokenCounter";
  tTool := "Tool"; tModelCatalog := "ModelCatalog"; tAttemptObserver := "AttemptObserver"; tContextSource := "ContextSource";
  tContextCompactor := "ContextCompactor"; tAgentHook := "AgentHook"; tInputGate := "InputGate"; tToolPreflight := "ToolPreflight";
  tToolResultHook := "ToolResultHook"; tCompletionGate := "CompletionGate"; tSessionLifecycle := "SessionLifecycle";
  tGoalStore := "Store"; tGoalEvaluator := "Evaluator"; tCommitObserver := "SessionCommitObserver"; tPolicyGuard := "PolicyGuard";
  tApprovalService := "ApprovalService"; tTraceSink := "TraceSink"; tMetricSink := "MetricSink"; tAuditSink := "AuditSink";
  tUsageRecorder := "UsageRecorder"; tCommand := "InteractionCommand"; tWorkspaceManager := "Manager"; tGatewayChannel := "GatewayChannel";
  tGatewayAccess := "GatewayAccess"; tApplicationRuntime := "applicationRuntime"; tMountedChannel := "mountedChannel";
  tChannelValidation := "channelValidation";
  as_tool := fun c => match c with ToolComponent t => t | _ => tool_bash end;
  as_guard := fun _ => ask_for_bash; as_approval := fun _ => always_approve;
  Describe := fun _ => MkCommand "" "" "" [] false; Key := type_of;
  Descriptor := fun c => match c with Gate d => d | _ => MkExtensionDescriptor "" "" end;
  preflight_scope := fun _ => MkToolScope true []; result_scope := fun _ => MkToolResultScope true [] [];
  lifecycle_scope := fun _ => MkLifecycleScope []; bind_channel := fun _ _ => None;
  gateway_binding := Plain "GatewayAccess"; mounted_channel := Plain "mountedChannel"; channel_validated := Plain "channelValidation";
  standard_loop := Plain "AgentLoop"; runtime_value := RuntimeComponent |}.

Definition digest : string := "sha256:" +:+ String.concat "" (replicate 8 "01234567").
Definition product : Module_ := MkModule "product"
  (RegContribute [Some (Set_ StoreSlot (Some (Plain "SessionStore"))); Some (Set_ ExecutorSlot (Some (Plain "ModelExecutor")));
     Some (Set_ TokenCounterSlot (Some (Plain "TokenCounter"))); Some (Add ToolSlot "bash" (Some (ToolComponent tool_bash)));
     Some (Add ToolSlot "read" (Some (ToolComponent tool_read)));
     Some (Append InputGateSlot (Some (Gate (MkExtensionDescriptor "gate" digest))))] RegReturn) None false.
Definition spec (tools : list string) : ApplicationSpec :=
  MkSpec "assistant" [Some product; Some (NewGatewayChannelModule "terminal" "cli" (Some (Plain "GatewayChannel")) false)] []
    (MkRuntimeConfig "" tools (MkContextConfig 0) "" 1000 0 4 4096)
    (MkConfig "provider" "model" ReasoningDefault (MkParameters None None)).
Definition built_application (tools : list string) := Application_Build (NewApplication (Ok "id") (spec tools)).

(** Only the tools of the allowlist reach a Session; a tool that is not
    installed fails the build. *)
Example allowlisted : match (built_application ["read"]).2 with
  | Ok a => match Get a runtimeStateSlot with Ok (Some (RuntimeComponent d)) => def_Name <$> sc_definitions (stepComponents_of d) | _ => [] end
  | _ => []
  end = ["read"].
Proof. vm_compute. reflexivity. Qed.
Example not_installed : is_ok (built_application ["write"]).2 = false.
Proof. vm_compute. reflexivity. Qed.
(** A product without channels does not build. *)
Example no_channel : is_ok (Application_Build (NewApplication (Ok "id")
  (MkSpec "assistant" [Some product] [] (MkRuntimeConfig "" [] (MkContextConfig 0) "" 0 0 0 0)
    (MkConfig "provider" "model" ReasoningDefault (MkParameters None None))))).2 = false.
Proof. vm_compute. reflexivity. Qed.

End StandardSample.
#[local] Existing Instance StandardSample.sample_standard.

Lemma standard_application_witness :
  exists app a, StandardSample.built_application ["read"] = (app, Ok a) /\
    exists d, Get a runtimeStateSlot = Ok (Some (runtime_value d)) /\ (rd_tools d).*1 = ["read"].
Proof.
  assert (Hok : is_ok (StandardSample.built_application ["read"]).2 = true) by (vm_compute; reflexivity).
  destruct (StandardSample.built_application ["read"]) as [app [a|e|message]] eqn:E; [|discriminate Hok..].
  exists app, a. split; [reflexivity|].
  destruct (@standard_application StandardSample.sample_components StandardSample.sample_standard (Ok "id") (StandardSample.spec ["read"]) app a (fun _ => eq_refl) E) as [(d&Hd&Hassembled&_) _].
  exists d. split; [exact Hd|]. destruct (am_tools _ _ _ Hassembled) as (tools&_&_&Hkeys&_). exact Hkeys.
Defined.
